(* ===== verification/_CoqProject ===== *)
-Q . S2P
Prelude.v
Utf16.v
TextDocument.v
TextDocumentFacts.v
TextDocumentSpec.v
Cbor.v
AuthData.v
Strings.v
CookieJar.v
WebAuthn.v
VirtualAuthenticator.v
BsDiff.v
UpdateFeeds.v
Updater.v
UpdaterFacts.v
CdpWs.v
WsClient.v
WsClientFacts.v
WsHandshake.v
SourceMap.v
Atlas.v
FxaArchive.v
Doubles.v
Timers.v
IdbKeys.v
IndexedDb.v
IndexedDbFacts.v
IndexedDbRuns.v
Url.v
UrlFacts.v
UrlParams.v
Capabilities.v
CapabilitiesFacts.v
HttpRequest.v
HttpPool.v
HttpPoolFacts.v
Glyphs.v
GlyphsFacts.v
CpuProfile.v
CpuProfileFacts.v
ProfileReport.v
ProfileReportFacts.v
Highlight.v
Isolates.v
IsolatesFacts.v
CodeCaches.v
CodeCachesFacts.v
Animation.v
AnimationFacts.v
Dns.v
DnsFacts.v
