(* ===== verification/Prelude.v ===== *)
(** FXE: a verification library for the native core of the FXE application runtime.

    FXE runs TypeScript applications in V8 with windows, drawing, storage, networking
    and an updater written in C++.  This library models the parts of that C++ code that
    keep state or transform data by themselves, and proves what makes each correct.
    Code that is not in the repository (V8, libsodium, mbedTLS, zlib, zstd, SQLite,
    libuv, the operating system) is a parameter of the definitions that use it.

    ** The parts and their files

    - Shared ground.  This file: outcomes of C++ code, machine integers, byte strings,
      vectors, binary search, stable sort, ordered and insertion-ordered association
      lists.  [Strings]: the operations of [std::string] and [include/fxe/string_utils.hpp].
      [Doubles]: IEEE doubles on the Standard Library's [SpecFloat].
    - Text.  [Utf16]: the conversions of [src/core/text_document.cpp].  [TextDocument]:
      the piece array of the same file, a record with the fields of the class, one
      definition per method; [TextDocumentFacts] and [TextDocumentSpec]: it refines
      plain strings, edits, batches, undo, search.  [Highlight]: the captures and runs of
      [src/treesitter/highlight.cpp].
    - Binary formats.  [Cbor] ([src/runtime/cbor.cpp]), [BsDiff] ([bsdiff_apply.cpp]),
      [FxaArchive] ([fxa_archive.cpp]), [SourceMap] ([src/js/source_map.cpp]).
      [AuthData] sees CBOR through the interface [Codec] whose laws [Cbor] discharges;
      [FxaArchive] and [UpdateFeeds] use the codec itself.
    - Credentials.  [WebAuthn] (rp identifiers, options, client data, attestation),
      [AuthData], [VirtualAuthenticator] (the authenticator and the jar it persists to).
    - Network.  [CookieJar] ([src/net/cookie_jar.cpp]); [CdpWs] (the debugger's WebSocket
      server, [src/debug/cdp_ws.cpp]); [WsClient] ([src/net/websocket_client.cpp]) with
      [WsClientFacts], where client and server meet frame by frame, and [WsHandshake],
      where they meet in the opening handshake.  [HttpRequest] and [HttpPool]: the HTTP
      client of [src/net/http_client.cpp], its pool a machine whose stack is part of the
      state since callbacks call back; [HttpPoolFacts]: its accounts and liveness.  It
      sees the cookie jar through the class [CookieStore].  [Dns] with [DnsFacts]: the
      resolver of [src/runtime/v8/fxe_native.cpp], against the responses of RFC 1035.
    - Updates.  [UpdateFeeds] (feeds, versions, rollout, quoting) and [Updater] (the
      updates directory) with [UpdaterFacts], all of [src/runtime/updater.cpp].
    - Storage.  [IdbKeys] and [IndexedDb] with [IndexedDbFacts] and [IndexedDbRuns]:
      keys, object stores, indexes, transactions and queries of
      [src/js/bind_indexed_db.cpp].
    - Addresses and rights.  [Url] with [UrlFacts] and [UrlParams]: URLs and their query
      parameters ([src/js/bind_url.cpp]); [Capabilities] with [CapabilitiesFacts]: what
      windows may reach ([src/runtime/capabilities.cpp] and the checks of
      [bind_window.cpp] and [bind_webauthn.cpp]), judged against [Url]'s reading.
    - Scheduling.  [Timers] ([src/js/bind_timers.cpp]); [Isolates] with [IsolatesFacts]:
      the threads, queues and destruction of [src/js/isolate_coordinator.cpp].
    - Drawing.  [Atlas] ([src/font/atlas.cpp]), [Glyphs] with [GlyphsFacts]: the glyph
      cache over it ([src/font/glyph_cache.cpp]) and the FreeType faces it renders with,
      whose variations change; [Animation] with [AnimationFacts]: the
      frames of [src/image/image_animation.cpp].
    - Compiled code.  [CodeCaches] with [CodeCachesFacts]: the caches of transpiled text
      and of V8's code ([src/js/transpile_cache.cpp], [v8_code_cache.cpp]) around
      [transpile_typescript].
    - Profiles.  [CpuProfile] with [CpuProfileFacts] and [ProfileReport] with
      [ProfileReportFacts]: sampled stacks, their merge with V8's profile and the report
      of [src/runner/cpu_profile_native.cpp] and [cpu_profile_merge.cpp].

    ** How the code is modelled

    Unsigned integers of width [w] are [Z] wrapped with [wrap w] where the code computes
    with them; signed overflow is undefined behaviour and yields [Ub].  A vector access
    is checked: [Ret] also says that every access was inside its buffer, [Throw] is a C++
    exception, [Ub] undefined behaviour, and [OutOfFuel] a loop that used up its bound.
    Fuel is always a length or a sum of lengths of the input, and the theorems show that
    it is enough: they conclude [Ret], or name what else can happen.  Files are finite
    maps or lists of names with contents, and effects that may fail take an oracle or a
    flag that says which attempts fail, and which failures the code notices.  Signatures
    are records of operations with laws about the keys the library itself generated.  Threads are steps of a machine that interleave;
    callbacks into scripts are parameters that answer with the calls the script makes.

    ** What the theorems show

    - Round trips: UTF-8 and UTF-16, CBOR, authenticator data, archives, source maps,
      WebSocket frames, cookie files, shell quoting, keys of IndexedDB, URLs.
    - Refinement: the piece array against plain text, edits and batches; the persisted
      authenticator against the running one; messages sent by the client against those
      the server reassembles.
    - Invariants over every sequence of operations, some of them but for the sequences
      that their theorems exclude and lemmas show to break them: cookies, credentials, glyph pages,
      the cache of source maps, the connection's state machine, the updates directory,
      the indexes of object stores, query parameters and their URL, the HTTP pool, the
      glyph cache, the threads of isolates under every interleaving.
    - Equivalence: the code caches never change what a program is compiled to; a match of
      a WebSocket handshake, a score or a diff is what its plain definition says.
    - Function: text is painted by its most specific capture, frames are composed pixel
      by pixel, reports account for the sampled time, a proper DNS response is answered
      with its records.
    - Safety on hostile input: patches, archives, manifests and frames are refused or
      decoded within bounds and limits, and what is accepted was signed or hashed;
      requests and files stay within a window's policy, and WebAuthn calls are held to
      what it names.
    - Liveness and termination: timers fire, requests are answered, connections are torn
      down, runtimes stop, decoders end.

    What modelling found wrong in the code is stated as lemmas under the heading "What
    modelling showed" of the file concerned.

    ** What is not modelled

    Bindings that only translate between V8 values and calls ([src/js/bind_*.cpp] other
    than the ones above); drivers of third-party libraries (HTTP/2 and TLS on nghttp2 and
    mbedTLS, still images, audio, Markdown, tree-sitter itself, font discovery); windows, renderers and
    operating system services, whose work is calls into the platform; floating-point
    geometry and layout; the command-line runner, its profiles apart, and the packer.  Within modelled parts:
    XML feeds and installers of the updater, the cryptographic attestation formats'
    primitives, log messages and allocation failure except where a size is attacker
    controlled. *)

From stdpp Require Export base tactics numbers list list_numbers sorting strings gmap.
From Stdlib Require Export ZArith Lia Ascii.

#[global] Open Scope Z_scope.

(** * Outcomes of C++ code

    [Ret] is a normal return, [Throw] a C++ exception, [Ub] an access outside
    the bounds of a vector or span (undefined behaviour in the source), and
    [OutOfFuel] a loop that used up the bound given to it: theorems that end in
    [Ret] therefore prove absence of out-of-bounds accesses and termination. *)
Inductive outcome (A : Type) : Type :=
| Ret (a : A)
| Throw (what : string)
| Ub
| OutOfFuel.
Arguments Ret {A} a.
Arguments Throw {A} what.
Arguments Ub {A}.
Arguments OutOfFuel {A}.

#[export] Instance outcome_ret : MRet outcome := fun A a => Ret a.
#[export] Instance outcome_bind : MBind outcome := fun A B f m =>
  match m with
  | Ret a => f a
  | Throw w => Throw w
  | Ub => Ub
  | OutOfFuel => OutOfFuel
  end.
#[export] Instance outcome_fmap : FMap outcome := fun A B f m =>
  match m with
  | Ret a => Ret (f a)
  | Throw w => Throw w
  | Ub => Ub
  | OutOfFuel => OutOfFuel
  end.

(** An access that is undefined behaviour when the element does not exist. *)
Definition checked {A} (o : option A) : outcome A :=
  match o with Some a => Ret a | None => Ub end.

Definition require (b : bool) : outcome unit := if b then Ret tt else Ub.

Lemma bind_Ret {A B} (a : A) (f : A -> outcome B) : (Ret a ≫= f) = f a.
Proof. reflexivity. Qed.

Lemma bind_inv {A B} (m : outcome A) (f : A -> outcome B) b :
  (m ≫= f) = Ret b -> exists a, m = Ret a /\ f a = Ret b.
Proof. destruct m; simpl; try discriminate. eauto. Qed.

Lemma bind_assoc {A B C} (m : outcome A) (f : A -> outcome B) (g : B -> outcome C) :
  ((m ≫= f) ≫= g) = (m ≫= (fun a => f a ≫= g)).
Proof. destruct m; reflexivity. Qed.

Lemma checked_Some {A} (o : option A) a : o = Some a -> checked o = Ret a.
Proof. intros ->. reflexivity. Qed.

(** [lia] on goals with [/] and [mod] by constants. *)
Ltac dlia := Z.to_euclidean_division_equations; lia.

(** * Machine integers *)

Definition wrap (w : Z) (x : Z) : Z := x mod 2 ^ w.
Notation u8 := (wrap 8).
Notation u16 := (wrap 16).
Notation u32 := (wrap 32).
Notation u64 := (wrap 64).

(** Two's complement reading of a [w]-bit word. *)
Definition to_signed (w : Z) (x : Z) : Z :=
  let y := wrap w x in if y <? 2 ^ (w - 1) then y else y - 2 ^ w.
Notation i32 := (to_signed 32).
Notation i64 := (to_signed 64).

Lemma wrap_small w x : 0 <= x < 2 ^ w -> wrap w x = x.
Proof. intros. unfold wrap. by apply Z.mod_small. Qed.

Lemma wrap_range w x : 0 <= w -> 0 <= wrap w x < 2 ^ w.
Proof. intros. unfold wrap. apply Z.mod_pos_bound. lia. Qed.

Lemma wrap_wrap w x : wrap w (wrap w x) = wrap w x.
Proof.
  unfold wrap. destruct (decide (2 ^ w = 0)) as [->|]; [by rewrite !Zmod_0_r|].
  by rewrite Z.mod_mod.
Qed.

Lemma u8_range x : 0 <= u8 x < 256.
Proof. apply (wrap_range 8). lia. Qed.
Lemma u8_small x : 0 <= x < 256 -> u8 x = x.
Proof. apply (wrap_small 8). Qed.
Lemma u32_range x : 0 <= u32 x < 4294967296.
Proof. apply (wrap_range 32). lia. Qed.
Lemma u32_small x : 0 <= x < 4294967296 -> u32 x = x.
Proof. apply (wrap_small 32). Qed.
Lemma u64_range x : 0 <= u64 x < 18446744073709551616.
Proof. apply (wrap_range 64). lia. Qed.
Lemma u64_small x : 0 <= x < 18446744073709551616 -> u64 x = x.
Proof. apply (wrap_small 64). Qed.

Lemma to_signed_range w x : 0 < w -> - 2 ^ (w - 1) <= to_signed w x < 2 ^ (w - 1).
Proof.
  intros. unfold to_signed. pose proof (wrap_range w x ltac:(lia)).
  replace (2 ^ w) with (2 * 2 ^ (w - 1)) in *
    by (rewrite <- Z.pow_succ_r by lia; f_equal; lia).
  destruct (Z.ltb_spec (wrap w x) (2 ^ (w - 1))); lia.
Qed.

Lemma to_signed_wrap w x : 0 < w -> - 2 ^ (w - 1) <= x < 2 ^ (w - 1) ->
  to_signed w (wrap w x) = x.
Proof.
  intros Hw Hx. unfold to_signed. rewrite wrap_wrap. unfold wrap.
  assert (E : 2 ^ w = 2 * 2 ^ (w - 1))
    by (rewrite <- Z.pow_succ_r by lia; f_equal; lia).
  destruct (decide (0 <= x)).
  - rewrite Z.mod_small by lia. destruct (Z.ltb_spec x (2 ^ (w - 1))); lia.
  - replace (x mod 2 ^ w) with (x + 2 ^ w)
      by (rewrite <- (Z.mod_add x 1), Z.mul_1_l by lia; rewrite Z.mod_small; lia).
    destruct (Z.ltb_spec (x + 2 ^ w) (2 ^ (w - 1))); lia.
Qed.

Create HintDb fxe discriminated.
#[export] Hint Resolve u8_range u32_range u64_range : fxe.

(** ** Bit operations as arithmetic *)

Lemma testbit_above k b i : 0 <= k -> 0 <= b < 2 ^ k -> k <= i -> Z.testbit b i = false.
Proof.
  intros Hk Hb Hi. destruct (decide (b = 0)) as [->|]; [apply Z.bits_0|].
  apply Z.bits_above_log2; [lia|]. apply Z.log2_lt_pow2; [lia|].
  apply Z.lt_le_trans with (2 ^ k); [lia|]. apply Z.pow_le_mono_r; lia.
Qed.

Lemma land_shiftl_low k a b :
  0 <= k -> 0 <= b < 2 ^ k -> Z.land (Z.shiftl a k) b = 0.
Proof.
  intros Hk Hb. apply Z.bits_inj'. intros i Hi. rewrite Z.land_spec, Z.bits_0.
  destruct (decide (i < k)).
  - by rewrite Z.shiftl_spec_low.
  - rewrite (testbit_above k b i) by lia. apply andb_false_r.
Qed.

(** [hi << k | lo] is [hi * 2^k + lo] when [lo] has at most [k] bits. *)
Lemma lor_shiftl k a b :
  0 <= k -> 0 <= b < 2 ^ k -> Z.lor (Z.shiftl a k) b = a * 2 ^ k + b.
Proof.
  intros Hk Hb. rewrite <- Z.lxor_lor by by apply land_shiftl_low.
  rewrite <- Z.add_nocarry_lxor by by apply land_shiftl_low.
  by rewrite Z.shiftl_mul_pow2.
Qed.

Lemma lor_mul k h b : 0 <= k -> 0 <= b < 2 ^ k -> Z.lor (h * 2 ^ k) b = h * 2 ^ k + b.
Proof. intros Hk Hb. rewrite <- (lor_shiftl k h b), Z.shiftl_mul_pow2 by lia. done. Qed.

Lemma land_ones_mod x k : 0 <= k -> Z.land x (Z.ones k) = x mod 2 ^ k.
Proof. apply Z.land_ones. Qed.

Lemma shiftr_div x k : 0 <= k -> Z.shiftr x k = x / 2 ^ k.
Proof. apply Z.shiftr_div_pow2. Qed.

(** A field test [b & (1 << k)]. *)
Lemma land_bit_testbit b k : 0 <= k -> (Z.land b (2 ^ k) =? 0) = negb (Z.testbit b k).
Proof.
  intros Hk. destruct (Z.testbit b k) eqn:E; simpl.
  - apply Z.eqb_neq. intros H. apply (f_equal (fun z => Z.testbit z k)) in H.
    rewrite Z.land_spec, E, Z.pow2_bits_true, Z.bits_0 in H by lia. done.
  - apply Z.eqb_eq. apply Z.bits_inj'. intros i Hi.
    rewrite Z.land_spec, Z.bits_0, Z.pow2_bits_eqb by lia.
    destruct (Z.eqb_spec k i) as [<-|]; [by rewrite E|apply andb_false_r].
Qed.

(** * Byte strings *)

Notation bytes := (list Z).

Definition is_byte (b : Z) : Prop := 0 <= b < 256.
Definition is_bytes (bs : bytes) : Prop := Forall is_byte bs.

#[export] Instance is_byte_dec b : Decision (is_byte b).
Proof. unfold is_byte. apply _. Defined.

(** A string literal of the source as its bytes. *)
Definition str (s : string) : bytes :=
  (fun a => Z.of_N (Ascii.N_of_ascii a)) <$> String.list_ascii_of_string s.
Arguments str s%_string_scope.

(** A character literal of the source. *)
Definition chr (a : Ascii.ascii) : Z := Z.of_N (Ascii.N_of_ascii a).
Arguments chr a%_char_scope.

Lemma chr_byte a : is_byte (chr a).
Proof. unfold chr, is_byte. pose proof (Ascii.N_ascii_bounded a). lia. Qed.

Lemma str_bytes s : is_bytes (str s).
Proof. apply Forall_fmap, Forall_true. intros a. apply chr_byte. Qed.

Lemma u8_byte x : is_byte (u8 x).
Proof. apply u8_range. Qed.
#[export] Hint Resolve chr_byte str_bytes u8_byte : fxe.

(** ** Fixed-width integers as byte sequences *)

(** [for (shift = 8*(k-1); shift >= 0; shift -= 8) push_back((u8)(n >> shift))] *)
Fixpoint be_bytes (k : nat) (n : Z) : bytes :=
  match k with
  | O => []
  | S k' => u8 (Z.shiftr n (8 * Z.of_nat k')) :: be_bytes k' n
  end.

(** [for (i = 0; i < k; ++i) push_back((u8)(n >> (8*i)))] *)
Fixpoint le_bytes (k : nat) (n : Z) : bytes :=
  match k with
  | O => []
  | S k' => u8 n :: le_bytes k' (Z.shiftr n 8)
  end.

(** [for each byte b: acc = (acc << 8) | b] *)
Definition be_acc (acc : Z) (bs : bytes) : Z :=
  foldl (fun a b => Z.lor (Z.shiftl a 8) b) acc bs.
Notation be_value := (be_acc 0).

(** [acc |= b << (8*i)] for each byte [b] of index [i]. *)
Fixpoint le_value (bs : bytes) : Z :=
  match bs with
  | [] => 0
  | b :: bs' => Z.lor b (Z.shiftl (le_value bs') 8)
  end.

Lemma length_be_bytes k n : length (be_bytes k n) = k.
Proof. induction k; simpl; congruence. Qed.

Lemma length_le_bytes k n : length (le_bytes k n) = k.
Proof. revert n. induction k; intros; simpl; congruence. Qed.

Lemma be_bytes_bytes k n : is_bytes (be_bytes k n).
Proof. induction k; simpl; constructor; auto using u8_byte. Qed.

Lemma le_bytes_bytes k n : is_bytes (le_bytes k n).
Proof.
  revert n. induction k as [|k IH]; intros; simpl; constructor; [apply u8_byte|apply IH].
Qed.

Lemma be_acc_app acc l1 l2 : be_acc acc (l1 ++ l2) = be_acc (be_acc acc l1) l2.
Proof. apply foldl_app. Qed.

Lemma be_acc_be_bytes k acc n :
  be_acc acc (be_bytes k n) = acc * 2 ^ (8 * Z.of_nat k) + n mod 2 ^ (8 * Z.of_nat k).
Proof.
  revert acc. induction k as [|k IH]; intros acc.
  - simpl. rewrite Z.mod_1_r. lia.
  - cbn [be_bytes be_acc foldl]. unfold be_acc in IH. rewrite IH.
    rewrite lor_shiftl by (auto using u8_range || lia).
    rewrite shiftr_div by lia. unfold wrap.
    replace (8 * Z.of_nat (S k)) with (8 + 8 * Z.of_nat k) by lia.
    rewrite !Z.pow_add_r by lia. set (q := 2 ^ (8 * Z.of_nat k)).
    assert (0 < q) by (apply Z.pow_pos_nonneg; lia).
    rewrite (Z.mul_comm (2 ^ 8) q), (Z.rem_mul_r n q (2 ^ 8)) by lia. ring.
Qed.

Lemma be_value_be_bytes k n :
  0 <= n < 2 ^ (8 * Z.of_nat k) -> be_value (be_bytes k n) = n.
Proof. intros H. rewrite be_acc_be_bytes, Z.mod_small; lia. Qed.

Lemma be_acc_bound acc bs : is_bytes bs -> 0 <= acc ->
  acc * 2 ^ (8 * Z.of_nat (length bs)) <= be_acc acc bs
  < (acc + 1) * 2 ^ (8 * Z.of_nat (length bs)).
Proof.
  intros Hb. revert acc. induction Hb as [|b bs Hb Hbs IH]; intros acc Hacc.
  - simpl. lia.
  - cbn [be_acc foldl length]. unfold be_acc in IH. unfold is_byte in Hb.
    rewrite lor_shiftl by lia. specialize (IH (acc * 2 ^ 8 + b) ltac:(lia)).
    replace (8 * Z.of_nat (S (length bs))) with (8 + 8 * Z.of_nat (length bs)) by lia.
    rewrite Z.pow_add_r by lia.
    assert (0 < 2 ^ (8 * Z.of_nat (length bs))) by (apply Z.pow_pos_nonneg; lia). nia.
Qed.

Lemma be_value_bound bs : is_bytes bs ->
  0 <= be_value bs < 2 ^ (8 * Z.of_nat (length bs)).
Proof. intros H. pose proof (be_acc_bound 0 bs H ltac:(lia)). lia. Qed.

Lemma be_bytes_be_acc acc bs : is_bytes bs -> 0 <= acc ->
  be_bytes (length bs) (be_acc acc bs) = bs.
Proof.
  intros Hb. revert acc. induction Hb as [|b bs Hb Hbs IH]; intros acc Hacc; [done|].
  cbn [length be_bytes be_acc foldl]. unfold be_acc in IH. unfold is_byte in Hb.
  assert (0 <= Z.lor (Z.shiftl acc 8) b) by (rewrite lor_shiftl; lia).
  rewrite IH by done. f_equal.
  pose proof (be_acc_bound (Z.lor (Z.shiftl acc 8) b) bs Hbs ltac:(done)) as B.
  unfold be_acc in B. rewrite lor_shiftl in * by lia.
  rewrite shiftr_div by lia. set (q := 2 ^ (8 * Z.of_nat (length bs))) in *.
  assert (0 < q) by (apply Z.pow_pos_nonneg; lia).
  set (v := foldl _ _ _) in *.
  assert (v / q = acc * 2 ^ 8 + b) as ->.
  { symmetry. apply Z.div_unique with (v - (acc * 2 ^ 8 + b) * q); nia. }
  unfold wrap. rewrite Z.add_comm, Z.mod_add, Z.mod_small; lia.
Qed.

Lemma le_value_le_bytes k n :
  0 <= n < 2 ^ (8 * Z.of_nat k) -> le_value (le_bytes k n) = n.
Proof.
  revert n. induction k as [|k IH]; intros n H; [simpl in *; lia|].
  cbn [le_bytes le_value]. rewrite shiftr_div by lia.
  assert (E : 2 ^ (8 * Z.of_nat (S k)) = 2 ^ 8 * 2 ^ (8 * Z.of_nat k))
    by (rewrite <- Z.pow_add_r by lia; f_equal; lia).
  rewrite IH.
  - rewrite Z.lor_comm, lor_shiftl by (auto using u8_range || lia).
    unfold wrap. pose proof (Z.div_mod n (2 ^ 8)). lia.
  - split; [apply Z.div_pos; lia|]. apply Z.div_lt_upper_bound; lia.
Qed.

Lemma le_value_bound bs : is_bytes bs ->
  0 <= le_value bs < 2 ^ (8 * Z.of_nat (length bs)).
Proof.
  induction 1 as [|b bs Hb Hbs IH]; [simpl; lia|].
  cbn [le_value length]. unfold is_byte in Hb. rewrite Z.lor_comm, lor_shiftl by lia.
  replace (8 * Z.of_nat (S (length bs))) with (8 + 8 * Z.of_nat (length bs)) by lia.
  rewrite Z.pow_add_r by lia. nia.
Qed.

(** * Positions in vectors *)

Notation zlen l := (Z.of_nat (length l)).
Definition ztake {A} (n : Z) (l : list A) : list A := take (Z.to_nat n) l.
Definition zdrop {A} (n : Z) (l : list A) : list A := drop (Z.to_nat n) l.

(** [std::string(p + off, n)], [vector(it + off, it + off + n)]. *)
Definition zsub {A} (off n : Z) (l : list A) : list A := ztake n (zdrop off l).

(** [v[i]]; an index outside the vector is undefined behaviour. *)
Definition at_ {A} (l : list A) (i : Z) : outcome A :=
  if i <? 0 then Ub else checked (l !! Z.to_nat i).

Lemma at_Ret {A} (l : list A) i x :
  0 <= i -> l !! Z.to_nat i = Some x -> at_ l i = Ret x.
Proof. intros Hi H. unfold at_. destruct (Z.ltb_spec i 0); [lia|]. by rewrite H. Qed.

Lemma at_inv {A} (l : list A) i x :
  at_ l i = Ret x -> 0 <= i < zlen l /\ l !! Z.to_nat i = Some x.
Proof.
  unfold at_, checked. destruct (Z.ltb_spec i 0); [done|].
  destruct (l !! Z.to_nat i) eqn:E; [|done]. intros [= ->].
  apply lookup_lt_Some in E as ?. split; [lia|done].
Qed.

Lemma at_in_range {A} (l : list A) i :
  0 <= i < zlen l -> exists x, at_ l i = Ret x /\ l !! Z.to_nat i = Some x.
Proof.
  intros Hi. destruct (lookup_lt_is_Some_2 l (Z.to_nat i)) as [x Hx]; [lia|].
  exists x. split; [|done]. apply at_Ret; [lia|done].
Qed.

(** Reading the [n] elements from [off] on, all in bounds or undefined. *)
Definition sub_ {A} (l : list A) (off n : Z) : outcome (list A) :=
  if (0 <=? off) && (0 <=? n) && (off + n <=? zlen l) then Ret (zsub off n l) else Ub.

Lemma sub_Ret {A} (l : list A) off n : 0 <= off -> 0 <= n -> off + n <= zlen l ->
  sub_ l off n = Ret (zsub off n l).
Proof.
  intros. unfold sub_. destruct (Z.leb_spec 0 off), (Z.leb_spec 0 n), (Z.leb_spec (off + n) (zlen l)); done || lia.
Qed.

Lemma zlen_ztake {A} n (l : list A) : 0 <= n -> zlen (ztake n l) = Z.min n (zlen l).
Proof. intros. unfold ztake. rewrite length_take. lia. Qed.

Lemma zlen_zdrop {A} n (l : list A) : 0 <= n -> zlen (zdrop n l) = Z.max 0 (zlen l - n).
Proof. intros. unfold zdrop. rewrite length_drop. lia. Qed.

Lemma zlen_zsub {A} off n (l : list A) :
  0 <= off -> 0 <= n -> off + n <= zlen l -> zlen (zsub off n l) = n.
Proof. intros. unfold zsub. rewrite zlen_ztake, zlen_zdrop; lia. Qed.

Lemma zsub_app_l {A} off n (l1 l2 : list A) :
  0 <= off -> 0 <= n -> off + n <= zlen l1 -> zsub off n (l1 ++ l2) = zsub off n l1.
Proof.
  intros. unfold zsub, ztake, zdrop.
  rewrite drop_app_le, take_app_le by (rewrite ?length_drop; lia). done.
Qed.

Lemma zsub_app_r {A} off n (l1 l2 : list A) :
  zlen l1 <= off -> 0 <= n -> zsub off n (l1 ++ l2) = zsub (off - zlen l1) n l2.
Proof.
  intros. unfold zsub, ztake, zdrop. rewrite drop_app_ge by lia.
  do 2 f_equal. lia.
Qed.

Lemma zsub_all {A} n (l : list A) : zlen l <= n -> zsub 0 n l = l.
Proof. intros. unfold zsub, ztake, zdrop. rewrite drop_0, take_ge; [done|lia]. Qed.

Lemma zsub_0_app {A} (l1 l2 : list A) n : n = zlen l1 -> zsub 0 n (l1 ++ l2) = l1.
Proof. intros ->. rewrite zsub_app_l by lia. by apply zsub_all. Qed.

Lemma zsub_lookup {A} off n (l : list A) (i : nat) :
  0 <= off -> Z.of_nat i < n -> zsub off n l !! i = l !! (Z.to_nat off + i)%nat.
Proof.
  intros. unfold zsub, ztake, zdrop.
  rewrite lookup_take_lt by lia. by rewrite lookup_drop.
Qed.

Lemma zsub_split {A} off n m (l : list A) :
  0 <= off -> 0 <= m <= n -> zsub off n l = zsub off m l ++ zsub (off + m) (n - m) l.
Proof.
  intros. unfold zsub, ztake, zdrop.
  replace (Z.to_nat (off + m)) with (Z.to_nat off + Z.to_nat m)%nat by lia.
  rewrite <- drop_drop. set (l' := drop (Z.to_nat off) l).
  replace (Z.to_nat n) with (Z.to_nat m + Z.to_nat (n - m))%nat at 1 by lia.
  rewrite <- (take_drop (Z.to_nat m) l') at 1.
  destruct (decide (Z.to_nat m <= length l')%nat).
  - rewrite take_app_ge by (rewrite length_take; lia).
    rewrite length_take. do 2 f_equal. lia.
  - rewrite (take_ge l') by lia. rewrite (drop_ge l') by lia. rewrite app_nil_r, take_nil, app_nil_r.
    apply take_ge. lia.
Qed.

Lemma zsub_0 {A} off (l : list A) : zsub off 0 l = [].
Proof. done. Qed.

Lemma zsub_zsub {A} o1 n1 o2 n2 (l : list A) :
  0 <= o1 -> 0 <= o2 -> o2 + n2 <= n1 -> zsub o2 n2 (zsub o1 n1 l) = zsub (o1 + o2) n2 l.
Proof.
  intros. unfold zsub, ztake, zdrop. rewrite skipn_firstn_comm, drop_drop, take_take.
  do 2 f_equal; lia.
Qed.

Lemma ztake_zsub {A} n (l : list A) : ztake n l = zsub 0 n l.
Proof. unfold zsub, zdrop. by rewrite drop_0. Qed.

Lemma ztake_app_l {A} n (l1 l2 : list A) : n <= zlen l1 -> ztake n (l1 ++ l2) = ztake n l1.
Proof. intros. unfold ztake. apply take_app_le. lia. Qed.

Lemma zdrop_app_l {A} n (l1 l2 : list A) : n <= zlen l1 -> zdrop n (l1 ++ l2) = zdrop n l1 ++ l2.
Proof. intros. unfold zdrop. apply drop_app_le. lia. Qed.

Lemma ztake_app_length {A} n (l1 l2 : list A) : n = zlen l1 -> ztake n (l1 ++ l2) = l1.
Proof. intros ->. unfold ztake. by rewrite Nat2Z.id, take_app_length. Qed.

Lemma zdrop_app_length {A} n (l1 l2 : list A) : n = zlen l1 -> zdrop n (l1 ++ l2) = l2.
Proof. intros ->. unfold zdrop. by rewrite Nat2Z.id, drop_app_length. Qed.

Lemma zdrop_zdrop {A} n m (l : list A) : 0 <= n -> 0 <= m -> zdrop n (zdrop m l) = zdrop (m + n) l.
Proof. intros. unfold zdrop. rewrite drop_drop. f_equal. lia. Qed.

Lemma ztake_zdrop {A} n (l : list A) : ztake n l ++ zdrop n l = l.
Proof. apply take_drop. Qed.

Lemma zdrop_zsub {A} off n (l : list A) : 0 <= off -> zlen l <= off + n -> zsub off n l = zdrop off l.
Proof. intros. unfold zsub, ztake, zdrop. rewrite take_ge; [done|]. rewrite length_drop. lia. Qed.

Lemma take_middle {A} (l : list A) i j x :
  l !! i = Some x -> (i < j)%nat -> take j l = take i l ++ x :: take (j - S i) (drop (S i) l).
Proof.
  intros Hx Hij. rewrite <- (take_drop_middle l i x Hx) at 1.
  apply lookup_lt_Some in Hx. rewrite take_app_ge by (rewrite length_take; lia).
  rewrite length_take. replace (j - i `min` length l)%nat with (S (j - S i)) by lia. done.
Qed.

Lemma is_bytes_zsub off n bs : is_bytes bs -> is_bytes (zsub off n bs).
Proof. intros. by apply Forall_take, Forall_drop. Qed.
#[export] Hint Resolve be_bytes_bytes le_bytes_bytes is_bytes_zsub : fxe.

(** Reading back one field of a layout. *)
Lemma at_app_mid {A} (l1 l2 : list A) x i : i = zlen l1 -> at_ (l1 ++ x :: l2) i = Ret x.
Proof.
  intros ->. apply at_Ret; [lia|]. rewrite Nat2Z.id, lookup_app_r, Nat.sub_diag by lia. done.
Qed.

Lemma sub_app_mid {A} (l1 l2 l3 : list A) off n : off = zlen l1 -> n = zlen l2 ->
  sub_ (l1 ++ l2 ++ l3) off n = Ret l2.
Proof.
  intros -> ->. rewrite sub_Ret by (rewrite ?length_app; lia). f_equal.
  rewrite zsub_app_r, Z.sub_diag by lia. by apply zsub_0_app.
Qed.

Lemma sub_app_tail {A} (l1 l2 : list A) off n : off = zlen l1 -> n = zlen l2 ->
  sub_ (l1 ++ l2) off n = Ret l2.
Proof. intros. rewrite <- (app_nil_r l2) at 1. by apply sub_app_mid. Qed.

Lemma sub_inv {A} (l : list A) off n x : sub_ l off n = Ret x ->
  0 <= off /\ 0 <= n /\ off + n <= zlen l /\ x = zsub off n l /\ zlen x = n.
Proof.
  unfold sub_. destruct (Z.leb_spec 0 off), (Z.leb_spec 0 n), (Z.leb_spec (off + n) (zlen l));
    intros [= <-]. by rewrite zlen_zsub.
Qed.

(** * Binary search

    The loop shared by the searches of the source:
    [while (lo < hi) { mid = (lo + hi) >> 1; if (go_right(mid)) lo = mid + 1; else hi = mid; }]
    over [u32] indices. *)
Fixpoint bsearch (fuel : nat) (go_right : Z -> outcome bool) (lo hi : Z) : outcome Z :=
  match fuel with
  | O => OutOfFuel
  | S fuel' =>
      if lo <? hi then
        let mid := Z.shiftr (u32 (lo + hi)) 1 in
        r ← go_right mid;
        if (r : bool) then bsearch fuel' go_right (u32 (mid + 1)) hi
        else bsearch fuel' go_right lo mid
      else Ret lo
  end.

Definition bsearch_fuel (n : Z) : nat := S (Z.to_nat n).

Lemma bsearch_spec P go_right fuel lo hi :
  0 <= lo <= hi -> hi < 2 ^ 31 -> (Z.to_nat (hi - lo) < fuel)%nat ->
  (forall m, lo <= m < hi -> go_right m = Ret (P m)) ->
  (forall m m', lo <= m <= m' -> m' < hi -> P m' = true -> P m = true) ->
  exists r, bsearch fuel go_right lo hi = Ret r /\ lo <= r <= hi /\
    (forall m, lo <= m < r -> P m = true) /\ (forall m, r <= m < hi -> P m = false).
Proof.
  revert lo hi. induction fuel as [|fuel IH]; intros lo hi Hlo Hhi Hf HP Hmono; [lia|].
  cbn [bsearch]. destruct (Z.ltb_spec lo hi) as [Hlt|]; cycle 1.
  { exists lo. repeat split; try lia; intros; lia. }
  assert (Hmid : Z.shiftr (u32 (lo + hi)) 1 = (lo + hi) / 2).
  { rewrite u32_small, shiftr_div by lia. done. }
  rewrite Hmid. pose proof (Z.div_mod (lo + hi) 2) as Hdm.
  pose proof (Z.mod_pos_bound (lo + hi) 2).
  set (mid := (lo + hi) / 2) in *. assert (lo <= mid < hi) by lia.
  rewrite HP, bind_Ret by lia. destruct (P mid) eqn:E.
  - rewrite u32_small by lia.
    destruct (IH (mid + 1) hi) as (r & -> & Hr & Hl & Hh); try lia.
    + intros; apply HP; lia.
    + intros m m' ?? ?; apply (Hmono m m'); auto; lia.
    + exists r. repeat split; try lia; auto.
      intros m Hm. destruct (decide (mid + 1 <= m)); [apply Hl; lia|].
      apply (Hmono m mid); auto; lia.
  - destruct (IH lo mid) as (r & -> & Hr & Hl & Hh); try lia.
    + intros; apply HP; lia.
    + intros m m' ?? ?; apply (Hmono m m'); auto; lia.
    + exists r. repeat split; try lia; auto.
      intros m Hm. destruct (decide (m < mid)); [apply Hh; lia|].
      destruct (P m) eqn:Em; [|done]. rewrite (Hmono mid m) in E; try done; lia.
Qed.

(** * Sorting

    [std::stable_sort] by a strict weak order; also the order produced by
    [std::sort] when no two elements compare equivalent. *)
Section Sort.
Context {A : Type} (less : A -> A -> bool).

Fixpoint insert_sorted (x : A) (l : list A) : list A :=
  match l with
  | [] => [x]
  | y :: l' => if less y x then y :: insert_sorted x l' else x :: y :: l'
  end.

Definition stable_sort (l : list A) : list A := foldr insert_sorted [] l.

Definition not_less (a b : A) : Prop := less b a = false.

Lemma insert_sorted_perm x l : insert_sorted x l ≡ₚ x :: l.
Proof.
  induction l as [|y l IH]; simpl; [done|]. destruct (less y x); [|done].
  rewrite IH. apply Permutation_swap.
Qed.

Lemma stable_sort_perm l : stable_sort l ≡ₚ l.
Proof. induction l as [|x l IH]; simpl; [done|]. by rewrite insert_sorted_perm, IH. Qed.

Lemma length_stable_sort l : length (stable_sort l) = length l.
Proof. apply Permutation_length, stable_sort_perm. Qed.

Hypothesis less_asym : forall a b, less a b = true -> less b a = false.
Hypothesis less_neg_trans : forall a b c, less b a = false -> less c b = false -> less c a = false.

Lemma insert_sorted_sorted x l :
  StronglySorted not_less l -> StronglySorted not_less (insert_sorted x l).
Proof.
  induction 1 as [|y l Hl IH Hy]; simpl; [repeat constructor|].
  destruct (less y x) eqn:E.
  - constructor; [done|]. apply Forall_forall. intros z Hz.
    rewrite list_elem_of_In, insert_sorted_perm, <- list_elem_of_In in Hz.
    apply elem_of_cons in Hz as [->|Hz]; [by apply less_asym|].
    rewrite Forall_forall in Hy. auto.
  - constructor; [by constructor|]. constructor; [done|].
    eapply Forall_impl; [done|]. intros z. unfold not_less. eauto.
Qed.

Lemma stable_sort_sorted l : StronglySorted not_less (stable_sort l).
Proof. induction l; simpl; [constructor|]. by apply insert_sorted_sorted. Qed.

Lemma insert_sorted_id x l : Forall (not_less x) l -> insert_sorted x l = x :: l.
Proof. intros H. destruct H as [|y l Hy]; simpl; [done|]. unfold not_less in Hy. by rewrite Hy. Qed.

Lemma stable_sort_id l : StronglySorted not_less l -> stable_sort l = l.
Proof. induction 1 as [|x l Hl IH Hx]; simpl; [done|]. by rewrite IH, insert_sorted_id. Qed.

Lemma stable_sort_idemp l : stable_sort (stable_sort l) = stable_sort l.
Proof. apply stable_sort_id, stable_sort_sorted. Qed.
End Sort.

Lemma StronglySorted_weaken {A} (R S : A -> A -> Prop) l :
  (forall a b, R a b -> S a b) -> StronglySorted R l -> StronglySorted S l.
Proof.
  intros H. induction 1 as [|x l Hl IH Hx]; constructor; [done|]. eapply Forall_impl; [exact Hx|]. auto.
Qed.

(** Lexicographic comparison of byte strings, [std::lexicographical_compare]
    and [std::string::operator<]. *)
Fixpoint bytes_lt (a b : bytes) : bool :=
  match a, b with
  | _, [] => false
  | [], _ :: _ => true
  | x :: a', y :: b' => if x <? y then true else if y <? x then false else bytes_lt a' b'
  end.

Lemma bytes_lt_irrefl a : bytes_lt a a = false.
Proof. induction a as [|x a IH]; simpl; [done|]. by rewrite Z.ltb_irrefl. Qed.

Lemma bytes_lt_trans a b c : bytes_lt a b = true -> bytes_lt b c = true -> bytes_lt a c = true.
Proof.
  revert b c. induction a as [|x a IH]; intros [|y b] [|z c]; simpl; try done.
  destruct (Z.ltb_spec x y), (Z.ltb_spec y x), (Z.ltb_spec y z), (Z.ltb_spec z y),
    (Z.ltb_spec x z), (Z.ltb_spec z x); try done; try lia. apply IH.
Qed.

Lemma bytes_lt_total a b : bytes_lt a b = false -> bytes_lt b a = false -> a = b.
Proof.
  revert b. induction a as [|x a IH]; intros [|y b]; simpl; try done.
  destruct (Z.ltb_spec x y), (Z.ltb_spec y x); try done.
  intros. f_equal; [lia|auto].
Qed.

Lemma bytes_lt_asym a b : bytes_lt a b = true -> bytes_lt b a = false.
Proof.
  intros H. destruct (bytes_lt b a) eqn:E; [|done].
  pose proof (bytes_lt_trans _ _ _ H E) as F. by rewrite bytes_lt_irrefl in F.
Qed.

Lemma bytes_lt_be_acc a b : length a = length b -> is_bytes a -> is_bytes b ->
  forall acc, 0 <= acc -> bytes_lt a b = (be_acc acc a <? be_acc acc b).
Proof.
  revert b. induction a as [|x a IH]; intros [|y b] Hl Ha Hb acc Hacc; try done.
  - cbn. symmetry. apply Z.ltb_irrefl.
  - injection Hl as Hl. apply Forall_cons in Ha as [Hx Ha], Hb as [Hy Hb]. unfold is_byte in Hx, Hy. cbn [bytes_lt].
    change (be_acc acc (?x :: ?l)) with (be_acc (Z.lor (Z.shiftl acc 8) x) l). rewrite !lor_shiftl by lia.
    pose proof (be_acc_bound (acc * 2 ^ 8 + x) a Ha ltac:(lia)) as Bx. pose proof (be_acc_bound (acc * 2 ^ 8 + y) b Hb ltac:(lia)) as By.
    rewrite Hl in Bx. assert (Hp : 0 < 2 ^ (8 * Z.of_nat (length b))) by (apply Z.pow_pos_nonneg; lia).
    destruct (Z.ltb_spec x y) as [H|H]; [symmetry; apply Z.ltb_lt; nia|].
    destruct (Z.ltb_spec y x) as [H'|H']; [symmetry; apply Z.ltb_ge; nia|].
    replace y with x by lia. apply IH; (done || lia).
Qed.

(** Integers written with the most significant byte first are ordered like their bytes. *)
Lemma bytes_lt_be_bytes k x y : 0 <= x < 2 ^ (8 * Z.of_nat k) -> 0 <= y < 2 ^ (8 * Z.of_nat k) ->
  bytes_lt (be_bytes k x) (be_bytes k y) = (x <? y).
Proof.
  intros Hx Hy. rewrite (bytes_lt_be_acc _ _) with (acc := 0); [|by rewrite !length_be_bytes|apply be_bytes_bytes|apply be_bytes_bytes|lia].
  by rewrite !be_value_be_bytes.
Qed.

(** ** Deciding a property of all bytes by evaluation *)

Lemma forall_below (n : Z) (P : Z -> bool) :
  forallb P (seqZ 0 n) = true -> forall b, 0 <= b < n -> P b = true.
Proof. intros H b Hb. rewrite forallb_forall in H. apply H. apply list_elem_of_In, elem_of_seqZ. lia. Qed.

(** [mask_by n] closes a goal [forall b, 0 <= b < n -> f b = g b] on a small
    range by evaluating both sides everywhere. *)
Ltac mask_by n :=
  let b := fresh "b" in
  let Hb := fresh "Hb" in
  intros b Hb;
  match goal with
  | |- ?lhs = ?rhs :> Z =>
      let f := eval pattern b in (Z.eqb lhs rhs) in
      match f with
      | ?P b => apply Z.eqb_eq; exact (forall_below n P ltac:(vm_compute; reflexivity) b Hb)
      end
  | |- ?lhs = ?rhs :> bool =>
      let f := eval pattern b in (Bool.eqb lhs rhs) in
      match f with
      | ?P b => apply Bool.eqb_prop; exact (forall_below n P ltac:(vm_compute; reflexivity) b Hb)
      end
  end.

(** Sorting commutes with a map that preserves the comparison. *)
Lemma insert_sorted_fmap {A B} (lessA : A -> A -> bool) (lessB : B -> B -> bool) (f : A -> B) x l :
  (forall a b, lessB (f a) (f b) = lessA a b) ->
  insert_sorted lessB (f x) (f <$> l) = f <$> insert_sorted lessA x l.
Proof.
  intros Hf. induction l as [|y l IH]; simpl; [done|]. rewrite Hf.
  destruct (lessA y x); [|done]. rewrite fmap_cons, <- IH. done.
Qed.

Lemma stable_sort_fmap {A B} (lessA : A -> A -> bool) (lessB : B -> B -> bool) (f : A -> B) l :
  (forall a b, lessB (f a) (f b) = lessA a b) ->
  stable_sort lessB (f <$> l) = f <$> stable_sort lessA l.
Proof.
  intros Hf. induction l as [|x l IH]; [done|]. cbn [fmap list_fmap stable_sort foldr].
  fold (stable_sort lessB (f <$> l)). rewrite IH. by apply insert_sorted_fmap.
Qed.

(** * Sorted association lists: [std::map] with byte-string keys *)

Section ByteMap.
Context {V : Type}.
Implicit Types (k : bytes) (v : V) (m : list (bytes * V)).

(** [m.emplace(k, v)]: an existing key keeps its value. *)
Fixpoint map_emplace k v m : list (bytes * V) :=
  match m with
  | [] => [(k, v)]
  | (k', v') :: m' =>
      if bytes_lt k k' then (k, v) :: m
      else if bytes_lt k' k then (k', v') :: map_emplace k v m'
      else m
  end.

(** [m.find(k)] *)
Fixpoint map_find k m : option V :=
  match m with
  | [] => None
  | (k', v') :: m' => if bool_decide (k = k') then Some v' else map_find k m'
  end.

(** [m.insert_or_assign(k, v)]: an existing key gets the new value. *)
Fixpoint map_set k v m : list (bytes * V) :=
  match m with
  | [] => [(k, v)]
  | (k', v') :: m' =>
      if bytes_lt k k' then (k, v) :: m
      else if bytes_lt k' k then (k', v') :: map_set k v m'
      else (k, v) :: m'
  end.

Definition map_sorted m : Prop := StronglySorted (fun a b => bytes_lt a.1 b.1 = true) m.

Lemma map_emplace_elem k v m x : x ∈ map_emplace k v m -> x = (k, v) \/ x ∈ m.
Proof.
  induction m as [|[k' v'] m IH]; simpl.
  - intros ?%list_elem_of_singleton. by left.
  - destruct (bytes_lt k k'); [intros [->|?]%elem_of_cons; [by left|by right]|].
    destruct (bytes_lt k' k); [|by right].
    intros [->|[->|H]%IH]%elem_of_cons; [right|by left|right]; apply elem_of_cons; auto.
Qed.

Lemma map_emplace_sorted k v m : map_sorted m -> map_sorted (map_emplace k v m).
Proof.
  unfold map_sorted. induction 1 as [|[k' v'] m Hm IH Hk]; simpl; [repeat constructor|].
  destruct (bytes_lt k k') eqn:E1; [|destruct (bytes_lt k' k) eqn:E2].
  - constructor; [by constructor|]. constructor; [done|].
    eapply Forall_impl; [exact Hk|]. simpl. intros x Hx. by eapply bytes_lt_trans.
  - constructor; [done|]. apply Forall_forall. intros x [->|Hx]%map_emplace_elem; [done|].
    rewrite Forall_forall in Hk. auto.
  - by constructor.
Qed.

Lemma map_set_elem k v m x : x ∈ map_set k v m -> x = (k, v) \/ x ∈ m.
Proof.
  induction m as [|[k' v'] m IH]; simpl.
  - intros ?%list_elem_of_singleton. by left.
  - destruct (bytes_lt k k'); [intros [->|?]%elem_of_cons; [by left|by right]|].
    destruct (bytes_lt k' k).
    + intros [->|[->|H]%IH]%elem_of_cons; [right|by left|right]; apply elem_of_cons; auto.
    + intros [->|H]%elem_of_cons; [by left|right]. apply elem_of_cons. by right.
Qed.

Lemma map_set_sorted k v m : map_sorted m -> map_sorted (map_set k v m).
Proof.
  unfold map_sorted. induction 1 as [|[k' v'] m Hm IH Hk]; simpl; [repeat constructor|].
  destruct (bytes_lt k k') eqn:E1; [|destruct (bytes_lt k' k) eqn:E2].
  - constructor; [by constructor|]. constructor; [done|].
    eapply Forall_impl; [exact Hk|]. simpl. intros x Hx. by eapply bytes_lt_trans.
  - constructor; [done|]. apply Forall_forall. intros x [->|Hx]%map_set_elem; [done|].
    rewrite Forall_forall in Hk. auto.
  - by rewrite (bytes_lt_total _ _ E1 E2); constructor.
Qed.

Lemma map_find_above k m : Forall (fun a => bytes_lt k a.1 = true) m -> map_find k m = None.
Proof.
  induction 1 as [|[k' v'] m Hk Hm IH]; simpl; [done|]. case_bool_decide as E; [|done].
  subst. simpl in Hk. by rewrite bytes_lt_irrefl in Hk.
Qed.

Lemma map_find_set k k0 v m : map_find k (map_set k0 v m) = if bool_decide (k = k0) then Some v else map_find k m.
Proof.
  induction m as [|[k' v'] m IH]; simpl; [by repeat case_bool_decide|].
  destruct (bytes_lt k0 k') eqn:E1; simpl; [done|].
  destruct (bytes_lt k' k0) eqn:E2; simpl.
  - rewrite IH. repeat case_bool_decide; subst; try done. by rewrite bytes_lt_irrefl in E2.
  - pose proof (bytes_lt_total _ _ E1 E2). subst. by repeat case_bool_decide.
Qed.

Lemma map_find_elem k m v : map_find k m = Some v -> (k, v) ∈ m.
Proof.
  induction m as [|[k' v'] m IH]; simpl; [done|]. case_bool_decide; [intros [= ->]|intros ?%IH];
    subst; apply elem_of_cons; auto.
Qed.

Lemma map_find_sorted k m v : map_sorted m -> (k, v) ∈ m -> map_find k m = Some v.
Proof.
  induction 1 as [|[k' v'] m Hm IH Hk]; [by intros ?%elem_of_nil|].
  intros [[= -> ->]|Hin]%elem_of_cons; simpl; [by case_bool_decide|].
  case_bool_decide as E; [|auto]. subst. rewrite Forall_forall in Hk.
  specialize (Hk _ Hin). simpl in Hk. by rewrite bytes_lt_irrefl in Hk.
Qed.

(** Sorted maps are determined by their lookups. *)
Lemma map_sorted_ext m1 m2 : map_sorted m1 -> map_sorted m2 ->
  (forall k, map_find k m1 = map_find k m2) -> m1 = m2.
Proof.
  intros H1. revert m2. induction H1 as [|[k v] m1 H1 IH Hk]; intros m2 H2 Hf.
  - destruct m2 as [|[k2 v2] m2]; [done|]. specialize (Hf k2). simpl in Hf. by case_bool_decide.
  - destruct m2 as [|[k2 v2] m2].
    { specialize (Hf k). simpl in Hf. by case_bool_decide. }
    inversion H2 as [|?? H2' Hk2]; subst. simpl in Hk, Hk2.
    assert (k = k2) as <-.
    { pose proof (Hf k) as Hfk. pose proof (Hf k2) as Hfk2. simpl in Hfk, Hfk2.
      repeat case_bool_decide; subst; try done.
      symmetry in Hfk. apply map_find_elem in Hfk. apply map_find_elem in Hfk2.
      rewrite Forall_forall in Hk, Hk2. specialize (Hk _ Hfk2). specialize (Hk2 _ Hfk). simpl in *.
      by rewrite (bytes_lt_asym _ _ Hk) in Hk2. }
    assert (v = v2) as <-.
    { pose proof (Hf k) as Hfk. simpl in Hfk. case_bool_decide; [|done]. congruence. }
    f_equal. apply IH; [done|]. intros k'. specialize (Hf k'). simpl in Hf. case_bool_decide; [|done].
    subst k'. by rewrite !map_find_above.
Qed.

Lemma map_set_same k v m : map_sorted m -> map_find k m = Some v -> map_set k v m = m.
Proof.
  intros Hm Hf. apply map_sorted_ext; [by apply map_set_sorted|done|]. intros k'.
  rewrite map_find_set. case_bool_decide; [by subst|done].
Qed.

Lemma map_set_set k v w m : map_sorted m -> map_set k v (map_set k w m) = map_set k v m.
Proof.
  intros Hm. apply map_sorted_ext; [by repeat apply map_set_sorted|by apply map_set_sorted|].
  intros k'. rewrite !map_find_set. by case_bool_decide.
Qed.

Lemma map_emplace_perm k v m : k ∉ m.*1 -> map_emplace k v m ≡ₚ (k, v) :: m.
Proof.
  induction m as [|[k' v'] m IH]; simpl; [done|]. intros Hk.
  apply not_elem_of_cons in Hk as [Hne Hk].
  destruct (bytes_lt k k') eqn:E1; [done|]. destruct (bytes_lt k' k) eqn:E2.
  - rewrite IH by done. apply Permutation_swap.
  - destruct Hne. by apply bytes_lt_total.
Qed.

Definition emplace_all (l : list (bytes * V)) m : list (bytes * V) :=
  foldl (fun m kv => map_emplace kv.1 kv.2 m) m l.

Lemma emplace_all_sorted l m : map_sorted m -> map_sorted (emplace_all l m).
Proof. revert m. induction l; simpl; auto using map_emplace_sorted. Qed.

Lemma emplace_all_perm l m : NoDup (l.*1 ++ m.*1) -> emplace_all l m ≡ₚ l ++ m.
Proof.
  revert m. induction l as [|[k v] l IH]; simpl; [done|]. intros m [Hk Hnd]%NoDup_cons.
  apply not_elem_of_app in Hk as [Hkl Hkm].
  rewrite IH; rewrite map_emplace_perm by done; [symmetry; apply Permutation_middle|].
  simpl. rewrite <- Permutation_middle. apply NoDup_cons. split; [|done].
  apply not_elem_of_app. done.
Qed.

Lemma map_sorted_unique m1 m2 : map_sorted m1 -> map_sorted m2 -> m1 ≡ₚ m2 -> m1 = m2.
Proof.
  intros H. revert m2. induction H as [|[k v] m1 Hm IH Hk]; intros m2 H2 Hp.
  { by apply Permutation_nil in Hp. }
  destruct m2 as [|[k2 v2] m2]; [symmetry in Hp; by apply Permutation_nil_cons in Hp|].
  inversion H2 as [|?? Hm2 Hk2]; subst. rewrite Forall_forall in Hk, Hk2.
  assert (E : (k, v) = (k2, v2)).
  { assert (H1 : (k, v) ∈ (k2, v2) :: m2) by (rewrite <- Hp; apply elem_of_cons; by left).
    assert (H3 : (k2, v2) ∈ (k, v) :: m1) by (rewrite Hp; apply elem_of_cons; by left).
    apply elem_of_cons in H1 as [?|H1]; [done|]. apply elem_of_cons in H3 as [?|H3]; [done|].
    apply Hk2 in H1. apply Hk in H3. simpl in *. pose proof (bytes_lt_asym _ _ H1). congruence. }
  simplify_eq. f_equal. apply IH; [done|]. by apply Permutation_cons_inv in Hp.
Qed.

Lemma map_sorted_NoDup m : map_sorted m -> NoDup m.*1.
Proof.
  induction 1 as [|[k v] m Hm IH Hk]; simpl; constructor; [|done].
  intros [[k' v'] [-> Hin]]%list_elem_of_fmap. rewrite Forall_forall in Hk.
  specialize (Hk _ Hin). simpl in Hk. by rewrite bytes_lt_irrefl in Hk.
Qed.

(** Emplacing the entries of a map in any order rebuilds the map. *)
Lemma emplace_all_rebuild l m : map_sorted m -> l ≡ₚ m -> emplace_all l [] = m.
Proof.
  intros Hm Hp. apply map_sorted_unique; [apply emplace_all_sorted; constructor|done|].
  rewrite emplace_all_perm; rewrite app_nil_r; [done|].
  rewrite Hp. by apply map_sorted_NoDup.
Qed.
End ByteMap.

Lemma map_find_fmap {A B} (f : A -> B) k (m : list (bytes * A)) :
  map_find k (prod_map id f <$> m) = f <$> map_find k m.
Proof. induction m as [|[k' v'] m IH]; simpl; [done|]. by case_bool_decide. Qed.

(** * Association lists in order of insertion *)

Fixpoint lookup_name {A} (n : bytes) (l : list (bytes * A)) : option A :=
  match l with
  | [] => None
  | (n', a) :: l' => if bool_decide (n = n') then Some a else lookup_name n l'
  end.
Fixpoint update_name {A} (n : bytes) (a : A) (l : list (bytes * A)) : list (bytes * A) :=
  match l with
  | [] => [(n, a)]
  | (n', a') :: l' => if bool_decide (n = n') then (n, a) :: l' else (n', a') :: update_name n a l'
  end.
Definition remove_name {A} (n : bytes) (l : list (bytes * A)) : list (bytes * A) := filter (fun x => x.1 <> n) l.

Lemma lookup_update {A} n n' (a : A) l :
  lookup_name n (update_name n' a l) = if bool_decide (n = n') then Some a else lookup_name n l.
Proof.
  induction l as [|[m b] l IH]; cbn [update_name lookup_name].
  - by repeat case_bool_decide; subst.
  - destruct (decide (n' = m)) as [->|]; [rewrite bool_decide_eq_true_2 by done|rewrite bool_decide_eq_false_2 by done];
      cbn [lookup_name]; [by repeat case_bool_decide; subst|]. rewrite IH. by repeat case_bool_decide; subst.
Qed.

Lemma update_name_twice {A} n (a b : A) l : update_name n a (update_name n b l) = update_name n a l.
Proof.
  induction l as [|[m c] l IH]; cbn [update_name]; [by rewrite bool_decide_eq_true_2|].
  destruct (bool_decide_reflect (n = m)) as [->|]; cbn [update_name]; [by rewrite bool_decide_eq_true_2|].
  rewrite bool_decide_eq_false_2 by done. by rewrite IH.
Qed.

Lemma lookup_remove {A} n n' (l : list (bytes * A)) :
  lookup_name n (remove_name n' l) = if bool_decide (n = n') then None else lookup_name n l.
Proof.
  induction l as [|[m b] l IH]; [by case_bool_decide|].
  assert (E : remove_name n' ((m, b) :: l) = if bool_decide (m = n') then remove_name n' l else (m, b) :: remove_name n' l).
  { unfold remove_name. destruct (bool_decide_reflect (m = n')).
    - rewrite filter_cons_False by (cbn [fst]; congruence). done.
    - rewrite filter_cons_True by done. done. }
  rewrite E. cbn [lookup_name]. destruct (decide (m = n')) as [->|Hm].
  - rewrite bool_decide_eq_true_2, IH by done. clear. by destruct (bool_decide (n = n')).
  - rewrite bool_decide_eq_false_2 by done. cbn [lookup_name]. rewrite IH.
    destruct (decide (n = m)) as [->|]; [by rewrite !bool_decide_eq_true_2, bool_decide_eq_false_2 by done|].
    by rewrite (bool_decide_eq_false_2 (n = m)) by done.
Qed.
