(* ===== verification/Utf16.v ===== *)
(** UTF-8 / UTF-16 conversion of src/core/text_document.cpp: the editor keeps
    UTF-16 code units and converts at its boundary.  The round trip
    [utf8_to_utf16 (utf16_to_utf8 w) = w] holds for every sequence of code
    units, unpaired surrogates included. *)

From S2P Require Import Prelude.
From Equations Require Import Equations.

Definition is_u16 (c : Z) : Prop := 0 <= c < 65536.

(** [end - p > i && (p[i] & 0xC0) == 0x80]: the byte is there and continues. *)
Definition cont (o : option Z) : bool :=
  match o with Some b => Z.land b 0xC0 =? 0x80 | None => false end.

(** [p[i] & 0x3F] of a byte that [cont] found. *)
Definition low6 (o : option Z) : Z := Z.land (default 0 o) 0x3F.

(** One round of the decoding loop: the code point read at [c :: rest] and the
    number of bytes it takes. *)
Definition decode_utf8 (c : Z) (rest : bytes) : Z * nat :=
  let p1 := rest !! 0%nat in
  let p2 := rest !! 1%nat in
  let p3 := rest !! 2%nat in
  if c <? 0x80 then (c, 1%nat)
  else if (Z.land c 0xE0 =? 0xC0) && cont p1 then
    (Z.lor (Z.shiftl (Z.land c 0x1F) 6) (low6 p1), 2%nat)
  else if (Z.land c 0xF0 =? 0xE0) && cont p1 && cont p2 then
    (Z.lor (Z.lor (Z.shiftl (Z.land c 0x0F) 12) (Z.shiftl (low6 p1) 6)) (low6 p2), 3%nat)
  else if (Z.land c 0xF8 =? 0xF0) && cont p1 && cont p2 && cont p3 then
    (Z.lor (Z.lor (Z.lor (Z.shiftl (Z.land c 0x07) 18) (Z.shiftl (low6 p1) 12))
                  (Z.shiftl (low6 p2) 6)) (low6 p3), 4%nat)
  else (0xFFFD, 1%nat).

(** The code units pushed for a code point. *)
Definition push_utf16 (cp : Z) : list Z :=
  if cp <=? 0xFFFF then [u16 cp]
  else
    let cp' := cp - 0x10000 in
    [u16 (Z.lor 0xD800 (Z.land (Z.shiftr cp' 10) 0x3FF)); u16 (Z.lor 0xDC00 (Z.land cp' 0x3FF))].

Equations? utf8_to_utf16 (p : bytes) : list Z by wf (length p) lt :=
  utf8_to_utf16 [] := [];
  utf8_to_utf16 (c :: rest) :=
    push_utf16 (decode_utf8 c rest).1
      ++ utf8_to_utf16 (drop (pred (decode_utf8 c rest).2) rest).
Proof. simpl. rewrite length_drop. lia. Qed.

Definition emit_utf8 (cp : Z) : bytes :=
  if cp <=? 0x7F then [u8 cp]
  else if cp <=? 0x7FF then
    [u8 (Z.lor 0xC0 (Z.shiftr cp 6)); u8 (Z.lor 0x80 (Z.land cp 0x3F))]
  else if cp <=? 0xFFFF then
    [u8 (Z.lor 0xE0 (Z.shiftr cp 12)); u8 (Z.lor 0x80 (Z.land (Z.shiftr cp 6) 0x3F));
     u8 (Z.lor 0x80 (Z.land cp 0x3F))]
  else
    [u8 (Z.lor 0xF0 (Z.shiftr cp 18)); u8 (Z.lor 0x80 (Z.land (Z.shiftr cp 12) 0x3F));
     u8 (Z.lor 0x80 (Z.land (Z.shiftr cp 6) 0x3F)); u8 (Z.lor 0x80 (Z.land cp 0x3F))].

Definition is_high_surrogate (c : Z) : bool := (0xD800 <=? c) && (c <=? 0xDBFF).
Definition is_low_surrogate (c : Z) : bool := (0xDC00 <=? c) && (c <=? 0xDFFF).

(** [0x10000u + (((c - 0xD800) << 10) | (lo - 0xDC00))] *)
Definition surrogate_pair (c lo : Z) : Z :=
  0x10000 + Z.lor (Z.shiftl (c - 0xD800) 10) (lo - 0xDC00).

Fixpoint utf16_to_utf8 (w : list Z) : bytes :=
  match w with
  | [] => []
  | c :: w' =>
      match w' with
      | lo :: w'' =>
          if is_high_surrogate c && is_low_surrogate lo
          then emit_utf8 (surrogate_pair c lo) ++ utf16_to_utf8 w''
          else emit_utf8 c ++ utf16_to_utf8 w'
      | [] => emit_utf8 c
      end
  end.

Definition fold_ascii (c : Z) : Z :=
  if (chr "A" <=? c) && (c <=? chr "Z") then u16 (c + (chr "a" - chr "A")) else c.

Example utf8_sample : utf8_to_utf16 (str "aé€") = [97; 233; 8364].
Proof. vm_compute. reflexivity. Qed.
Example utf8_astral : utf8_to_utf16 [240; 159; 152; 128] = [0xD83D; 0xDE00].
Proof. vm_compute. reflexivity. Qed.
Example utf8_astral_back : utf16_to_utf8 [0xD83D; 0xDE00] = [240; 159; 152; 128].
Proof. vm_compute. reflexivity. Qed.

(** * Decoding what was emitted *)

Lemma land_3F x : Z.land x 0x3F = x mod 64.
Proof. apply (land_ones_mod x 6). lia. Qed.
Lemma land_3FF x : Z.land x 0x3FF = x mod 1024.
Proof. apply (land_ones_mod x 10). lia. Qed.

Lemma cont_tail : forall b, 0 <= b < 64 -> cont (Some (u8 (Z.lor 0x80 b))) = true.
Proof. mask_by 64. Qed.
Lemma low6_tail : forall b, 0 <= b < 64 -> low6 (Some (u8 (Z.lor 0x80 b))) = b.
Proof. mask_by 64. Qed.

(** The class of a lead byte: its tests in the decoder, and its payload. *)
Definition lead_class (c : Z) : bool * bool * bool * bool :=
  (c <? 0x80, Z.land c 0xE0 =? 0xC0, Z.land c 0xF0 =? 0xE0, Z.land c 0xF8 =? 0xF0).

Lemma lead2 : forall a, 0 <= a < 32 ->
  (let '(x, y, _, _) := lead_class (u8 (Z.lor 0xC0 a)) in negb x && y)
  && (Z.land (u8 (Z.lor 0xC0 a)) 0x1F =? a) = true.
Proof. mask_by 32. Qed.
Lemma lead3 : forall a, 0 <= a < 16 ->
  (let '(x, y, z, _) := lead_class (u8 (Z.lor 0xE0 a)) in negb x && negb y && z)
  && (Z.land (u8 (Z.lor 0xE0 a)) 0x0F =? a) = true.
Proof. mask_by 16. Qed.
Lemma lead4 : forall a, 0 <= a < 8 ->
  (let '(x, y, z, t) := lead_class (u8 (Z.lor 0xF0 a)) in negb x && negb y && negb z && t)
  && (Z.land (u8 (Z.lor 0xF0 a)) 0x07 =? a) = true.
Proof. mask_by 8. Qed.

Ltac lead_facts H :=
  unfold lead_class in H; rewrite ?andb_true_iff, ?negb_true_iff, ?Z.eqb_eq in H.

Lemma decode_emit cp rest : 0 <= cp < 0x110000 ->
  exists c bs, emit_utf8 cp = c :: bs /\ decode_utf8 c (bs ++ rest) = (cp, S (length bs)).
Proof.
  intros Hcp. unfold emit_utf8.
  destruct (Z.leb_spec cp 0x7F).
  { exists (u8 cp), []. split; [done|]. rewrite u8_small by lia.
    unfold decode_utf8. destruct (Z.ltb_spec cp 0x80); [done|lia]. }
  rewrite !land_3F, (shiftr_div cp 6), (shiftr_div cp 12), (shiftr_div cp 18) by lia.
  assert (T0 : 0 <= cp mod 64 < 64) by dlia.
  assert (T1 : 0 <= (cp / 2 ^ 6) mod 64 < 64) by dlia.
  assert (T2 : 0 <= (cp / 2 ^ 12) mod 64 < 64) by dlia.
  destruct (Z.leb_spec cp 0x7FF); [|destruct (Z.leb_spec cp 0xFFFF)];
    eexists _, _; (split; [reflexivity|]); unfold decode_utf8; cbn [app lookup list_lookup length];
    rewrite ?cont_tail, ?low6_tail by assumption.
  - pose proof (lead2 (cp / 2 ^ 6) ltac:(dlia)) as L. lead_facts L.
    destruct L as [[-> L2] ->]. rewrite L2. cbn. rewrite lor_shiftl by lia. f_equal. dlia.
  - pose proof (lead3 (cp / 2 ^ 12) ltac:(dlia)) as L. lead_facts L.
    destruct L as [[[-> L2] L3] ->]. rewrite L2, L3. cbn. f_equal.
    rewrite (lor_shiftl 12) by (rewrite ?Z.shiftl_mul_pow2 by lia; dlia).
    rewrite Z.shiftl_mul_pow2 by lia.
    replace (cp / 2 ^ 12 * 2 ^ 12 + (cp / 2 ^ 6) mod 64 * 2 ^ 6)
      with ((cp / 2 ^ 12 * 2 ^ 6 + (cp / 2 ^ 6) mod 64) * 2 ^ 6) by lia.
    rewrite lor_mul by lia. dlia.
  - pose proof (lead4 (cp / 2 ^ 18) ltac:(dlia)) as L. lead_facts L.
    destruct L as [[[[-> L2] L3] L4] ->]. rewrite L2, L3, L4. cbn. f_equal.
    rewrite (lor_shiftl 18) by (rewrite ?Z.shiftl_mul_pow2 by lia; dlia).
    rewrite !Z.shiftl_mul_pow2 by lia.
    replace (cp / 2 ^ 18 * 2 ^ 18 + (cp / 2 ^ 12) mod 64 * 2 ^ 12)
      with ((cp / 2 ^ 18 * 2 ^ 6 + (cp / 2 ^ 12) mod 64) * 2 ^ 12) by lia.
    rewrite lor_mul by lia.
    replace ((cp / 2 ^ 18 * 2 ^ 6 + (cp / 2 ^ 12) mod 64) * 2 ^ 12 + (cp / 2 ^ 6) mod 64 * 2 ^ 6)
      with ((((cp / 2 ^ 18 * 2 ^ 6 + (cp / 2 ^ 12) mod 64)) * 2 ^ 6 + (cp / 2 ^ 6) mod 64) * 2 ^ 6) by lia.
    rewrite lor_mul by lia. dlia.
Qed.

Lemma utf8_emit cp rest : 0 <= cp < 0x110000 ->
  utf8_to_utf16 (emit_utf8 cp ++ rest) = push_utf16 cp ++ utf8_to_utf16 rest.
Proof.
  intros Hcp. destruct (decode_emit cp rest Hcp) as (c & bs & -> & E).
  cbn [app]. simp utf8_to_utf16. rewrite E. cbn [fst snd pred].
  by rewrite drop_app_length.
Qed.

Lemma push_unit c : is_u16 c -> push_utf16 c = [c].
Proof.
  intros Hc. unfold push_utf16, is_u16 in *. destruct (Z.leb_spec c 0xFFFF); [|lia].
  by rewrite wrap_small.
Qed.

Lemma push_pair c lo : is_high_surrogate c = true -> is_low_surrogate lo = true ->
  0x10000 <= surrogate_pair c lo < 0x110000 /\ push_utf16 (surrogate_pair c lo) = [c; lo].
Proof.
  unfold is_high_surrogate, is_low_surrogate, surrogate_pair.
  rewrite !andb_true_iff, !Z.leb_le. intros Hc Hlo. rewrite lor_shiftl by lia.
  split; [lia|]. unfold push_utf16. destruct (Z.leb_spec (0x10000 + ((c - 0xD800) * 2 ^ 10 + (lo - 0xDC00))) 0xFFFF); [lia|].
  rewrite !land_3FF, shiftr_div by lia.
  change 0xD800 with (54 * 2 ^ 10) at 1. change 0xDC00 with (55 * 2 ^ 10) at 2.
  rewrite !lor_mul by dlia. rewrite !wrap_small by dlia. f_equal; [|f_equal]; dlia.
Qed.

(** Every code unit of an unpaired surrogate is a code point of its own. *)
Lemma utf8_emit_unit c rest : is_u16 c ->
  utf8_to_utf16 (emit_utf8 c ++ rest) = c :: utf8_to_utf16 rest.
Proof. intros Hc. unfold is_u16 in Hc. rewrite utf8_emit, push_unit by (unfold is_u16; lia). done. Qed.

Lemma utf8_emit_pair c lo rest : is_high_surrogate c = true -> is_low_surrogate lo = true ->
  utf8_to_utf16 (emit_utf8 (surrogate_pair c lo) ++ rest) = c :: lo :: utf8_to_utf16 rest.
Proof. intros Hc Hlo. destruct (push_pair c lo Hc Hlo) as [? E]. rewrite utf8_emit, E by lia. done. Qed.

Lemma utf16_to_utf8_cons2 c lo w :
  utf16_to_utf8 (c :: lo :: w) =
    if is_high_surrogate c && is_low_surrogate lo
    then emit_utf8 (surrogate_pair c lo) ++ utf16_to_utf8 w
    else emit_utf8 c ++ utf16_to_utf8 (lo :: w).
Proof. reflexivity. Qed.

(** Exporting code units to UTF-8 and importing the result gives the same
    code units back, for every UTF-16 sequence (paired and unpaired surrogates
    alike): the conversion at the editor's boundary loses nothing. *)
Lemma utf16_roundtrip (w : list Z) :
  Forall is_u16 w -> utf8_to_utf16 (utf16_to_utf8 w) = w.
Proof.
  induction w as [w IH] using (induction_ltof1 _ (@length Z)); unfold ltof in IH.
  intros Hw. destruct w as [|c [|lo w]]; [by vm_compute| |].
  - cbn [utf16_to_utf8]. rewrite <- (app_nil_r (emit_utf8 c)), utf8_emit_unit by by inversion Hw.
    by simp utf8_to_utf16.
  - inversion Hw as [|?? Hc Hw']; inversion Hw'; subst.
    rewrite utf16_to_utf8_cons2. destruct (is_high_surrogate c && is_low_surrogate lo) eqn:E.
    + apply andb_true_iff in E as [??]. rewrite utf8_emit_pair, IH by (done || simpl; lia). done.
    + rewrite utf8_emit_unit, IH by (done || simpl; lia). done.
Qed.

Lemma utf16_roundtrip_witness :
  Forall is_u16 [97; 0xD83D; 0xDE00; 0xDC00; 0x20AC] ∧
  utf8_to_utf16 (utf16_to_utf8 [97; 0xD83D; 0xDE00; 0xDC00; 0x20AC])
    = [97; 0xD83D; 0xDE00; 0xDC00; 0x20AC].
Proof.
  assert (H : Forall is_u16 [97; 0xD83D; 0xDE00; 0xDC00; 0x20AC])
    by (repeat constructor; unfold is_u16; lia).
  split; [exact H|]. exact (utf16_roundtrip _ H).
Defined.

(** The decoder accepts overlong sequences: [C0 80] is read as U+0000. *)
Lemma overlong_accepted : utf8_to_utf16 [0xC0; 0x80] = [0].
Proof. vm_compute. reflexivity. Qed.
