(* ===== verification/TextDocument.v ===== *)
(** fxe::text_document (src/core/text_document.cpp, include/fxe/text_document.hpp):
    the piece array behind the editor.

    The state record has the fields of the class; every vector access is
    checked, so that a result [Ret _] also says the source stays inside its
    buffers.  The abstraction function [text] concatenates the pieces; each
    operation is proved to refine the obvious one on [text]. *)

From S2P Require Import Prelude Utf16.

(** * State *)

Inductive buf := original | add.

#[export] Instance buf_eq_dec : EqDecision buf.
Proof. solve_decision. Defined.

Record piece := Piece {
  source : buf;
  start : Z;
  plength : Z;
  line_starts : list Z; (* newline offsets relative to the piece *)
}.

Record edit := Edit {
  estart : Z;
  removed : Z;
  deleted : list Z;
  inserted : list Z;
}.

Definition newline : Z := 10.

Section TextDocument.
Context {listener_fn : Type}.

Record text_document := Doc {
  original_ : list Z;
  add_buffer_ : list Z;
  pieces_ : list piece;
  cum_len_ : list Z;
  cum_lines_ : list Z;
  revision_ : Z;
  next_listener_id_ : Z;
  listeners_ : list (Z * listener_fn);
}.

Implicit Types d : text_document.

Definition set_pieces d (ps : list piece) : text_document :=
  Doc (original_ d) (add_buffer_ d) ps (cum_len_ d) (cum_lines_ d)
      (revision_ d) (next_listener_id_ d) (listeners_ d).
Definition set_add d (b : list Z) : text_document :=
  Doc (original_ d) b (pieces_ d) (cum_len_ d) (cum_lines_ d)
      (revision_ d) (next_listener_id_ d) (listeners_ d).
Definition set_revision d (r : Z) : text_document :=
  Doc (original_ d) (add_buffer_ d) (pieces_ d) (cum_len_ d) (cum_lines_ d)
      r (next_listener_id_ d) (listeners_ d).
Definition set_listeners d (n : Z) (ls : list (Z * listener_fn)) : text_document :=
  Doc (original_ d) (add_buffer_ d) (pieces_ d) (cum_len_ d) (cum_lines_ d)
      (revision_ d) n ls.

(** [text_document() = default] *)
Definition empty_document : text_document := Doc [] [] [] [] [] 0 1 [].

Definition buf_for d (b : buf) : list Z :=
  match b with original => original_ d | add => add_buffer_ d end.

(** The newline scan of [make_piece]. *)
Fixpoint scan_newlines (fuel : nat) (src : list Z) (start i end_ : Z) : outcome (list Z) :=
  match fuel with
  | O => OutOfFuel
  | S fuel' =>
      if i <? end_ then
        c ← at_ src i;
        rest ← scan_newlines fuel' src start (u32 (i + 1)) end_;
        Ret (if c =? newline then u32 (i - start) :: rest else rest)
      else Ret []
  end.

Definition make_piece d (source : buf) (start length : Z) : outcome piece :=
  let end_ := u32 (start + length) in
  ls ← scan_newlines (S (Z.to_nat (end_ - start))) (buf_for d source) start start end_;
  Ret (Piece source start length ls).

(** [cum[i+1] = cum[i] + sizes[i]] over [u32]. *)
Fixpoint cums (acc : Z) (sizes : list Z) : list Z :=
  match sizes with
  | [] => [acc]
  | s :: sizes' => acc :: cums (u32 (acc + s)) sizes'
  end.

Definition rebuild_cum d : text_document :=
  Doc (original_ d) (add_buffer_ d) (pieces_ d)
      (cums 0 (plength <$> pieces_ d))
      (cums 0 ((fun p => u32 (zlen (line_starts p))) <$> pieces_ d))
      (revision_ d) (next_listener_id_ d) (listeners_ d).

(** [explicit text_document(std::u16string_view initial)] *)
Definition make_document (initial : list Z) : outcome text_document :=
  let d := Doc initial [] [] [] [] 0 1 [] in
  d ← (match initial with
       | [] => Ret d
       | _ => p ← make_piece d original 0 (u32 (zlen initial)); Ret (set_pieces d [p])
       end);
  Ret (rebuild_cum d).

Definition make_document_utf8 (initial_utf8 : bytes) : outcome text_document :=
  make_document (utf8_to_utf16 initial_utf8).

(** * Reads *)

Definition length_ d : Z := default 0 (last (cum_len_ d)).
Definition line_count d : Z := u32 (default 0 (last (cum_lines_ d)) + 1).
Definition npieces d : Z := zlen (pieces_ d).

(** The piece that holds an offset, and the offset inside it. *)
Definition piece_at d (offset : Z) : outcome (Z * Z) :=
  match pieces_ d with
  | [] => Ret (0, 0)
  | _ =>
      lo ← bsearch (bsearch_fuel (npieces d))
             (fun mid => c ← at_ (cum_len_ d) (u32 (mid + 1)); Ret (c <=? offset))
             0 (u32 (npieces d));
      let idx := Z.min lo (u32 (u32 (npieces d) - 1)) in
      c ← at_ (cum_len_ d) idx;
      Ret (idx, u32 (offset - c))
  end.

(** [out.append(src.data() + off, n)] *)
Definition append_from (src : list Z) (off n : Z) : outcome (list Z) :=
  _ ← require ((0 <=? off) && (0 <=? n) && (off + n <=? zlen src));
  Ret (zsub off n src).

(** The copy loop of [slice] over the pieces from [idx] on. *)
Fixpoint slice_loop d (ps : list piece) (remaining inner : Z) : outcome (list Z) :=
  if remaining <=? 0 then Ret []
  else
    match ps with
    | [] => Ret []
    | p :: ps' =>
        let take := Z.min remaining (u32 (plength p - inner)) in
        out ← append_from (buf_for d (source p)) (u32 (start p + inner)) take;
        rest ← slice_loop d ps' (u32 (remaining - take)) 0;
        Ret (out ++ rest)
    end.

Definition clamp (len x : Z) : Z := if len <? x then len else x.

Definition slice d (start_ end_ : Z) : outcome (list Z) :=
  let len := length_ d in
  let s := clamp len start_ in
  let e := clamp len end_ in
  if e <=? s then Ret []
  else
    loc ← piece_at d s;
    slice_loop d (zdrop loc.1 (pieces_ d)) (u32 (e - s)) loc.2.

Definition slice_utf8 d (start_ end_ : Z) : outcome bytes :=
  s ← slice d start_ end_; Ret (utf16_to_utf8 s).

Definition text_utf8 d : outcome bytes := slice_utf8 d 0 (length_ d).

Definition code_unit_at d (offset : Z) : outcome Z :=
  if length_ d <=? offset then Ret 0
  else
    loc ← piece_at d offset;
    p ← at_ (pieces_ d) loc.1;
    at_ (buf_for d (source p)) (u32 (start p + loc.2)).

Definition line_to_offset d (line : Z) : outcome Z :=
  if line =? 0 then Ret 0
  else if line_count d <=? line then Ret (length_ d)
  else
    piece_idx ← bsearch (bsearch_fuel (npieces d))
      (fun mid => c ← at_ (cum_lines_ d) (u32 (mid + 1)); Ret (negb (line <=? c)))
      0 (u32 (npieces d));
    if npieces d <=? piece_idx then Ret (length_ d)
    else
      p ← at_ (pieces_ d) piece_idx;
      lines_before ← at_ (cum_lines_ d) piece_idx;
      let wanted_within := u32 (line - lines_before - 1) in
      if zlen (line_starts p) <=? wanted_within then at_ (cum_len_ d) piece_idx
      else
        ls ← at_ (line_starts p) wanted_within;
        c ← at_ (cum_len_ d) piece_idx;
        Ret (u32 (c + u32 (ls + 1))).

(** [std::lower_bound(ls.begin(), ls.end(), x) - ls.begin()] on a sorted [ls]. *)
Fixpoint lower_bound (ls : list Z) (x : Z) : Z :=
  match ls with
  | [] => 0
  | l :: ls' => if l <? x then 1 + lower_bound ls' x else 0
  end.

Definition offset_to_line d (offset : Z) : outcome Z :=
  if offset =? 0 then Ret 0
  else if length_ d <=? offset then Ret (u32 (line_count d - 1))
  else
    loc ← piece_at d offset;
    p ← at_ (pieces_ d) loc.1;
    lines_before ← at_ (cum_lines_ d) loc.1;
    Ret (u32 (lines_before + u32 (lower_bound (line_starts p) loc.2))).

Definition line_range d (line : Z) : outcome (Z * Z) :=
  let total := line_count d in
  if total <=? line then Ret (length_ d, length_ d)
  else
    s ← line_to_offset d line;
    next ← (if total <=? u32 (line + 1) then Ret (length_ d)
            else line_to_offset d (u32 (line + 1)));
    if s <? next then
      c ← code_unit_at d (u32 (next - 1));
      Ret (s, if c =? newline then u32 (next - 1) else next)
    else Ret (s, next).

Definition line_text d (line : Z) : outcome (list Z) :=
  r ← line_range d line; slice d r.1 r.2.

(** * Edits *)

Definition split_at d (offset : Z) : outcome text_document :=
  match pieces_ d with
  | [] => Ret d
  | _ =>
      if (offset =? 0) || (length_ d <=? offset) then Ret d
      else
        loc ← piece_at d offset;
        if loc.2 =? 0 then Ret d
        else
          p ← at_ (pieces_ d) loc.1;
          left ← make_piece d (source p) (start p) loc.2;
          right ← make_piece d (source p) (u32 (start p + loc.2)) (u32 (plength p - loc.2));
          (* pieces_[i] = left; pieces_.insert(begin + i + 1, right) *)
          Ret (rebuild_cum (set_pieces d
                 (ztake loc.1 (pieces_ d) ++ [left; right] ++ zdrop (loc.1 + 1) (pieces_ d))))
  end.

Definition piece_starting_at d (offset : Z) : outcome Z :=
  if length_ d <=? offset then Ret (u32 (npieces d))
  else
    bsearch (bsearch_fuel (npieces d))
      (fun mid => c ← at_ (cum_len_ d) mid; Ret (c <? offset)) 0 (u32 (npieces d)).

(** [pieces_.erase(first, last); pieces_.insert(first, replacement)] *)
Definition splice_pieces (ps : list piece) (first last : Z) (repl : list piece)
    : outcome (list piece) :=
  _ ← require ((0 <=? first) && (first <=? last) && (last <=? zlen ps));
  Ret (ztake first ps ++ repl ++ zdrop last ps).

(** The piece for the inserted text, appended to the add buffer. *)
Definition replacement_pieces d (txt : list Z) : outcome (text_document * list piece) :=
  match txt with
  | [] => Ret (d, [])
  | _ =>
      let add_start := u32 (zlen (add_buffer_ d)) in
      let d := set_add d (add_buffer_ d ++ txt) in
      p ← make_piece d add add_start (u32 (zlen txt));
      Ret (d, [p])
  end.

Definition replace_internal d (start_ end_ : Z) (txt : list Z)
    : outcome (text_document * edit) :=
  let len := length_ d in
  let s0 := clamp len start_ in
  let e0 := clamp len end_ in
  let '(s, e) := if e0 <? s0 then (e0, s0) else (s0, e0) in
  let removed := u32 (e - s) in
  deleted ← (if 0 <? removed then slice d s e else Ret []);
  let ed := Edit s removed deleted txt in
  if (removed =? 0) && bool_decide (txt = []) then Ret (d, ed)
  else
    d ← split_at d e;
    d ← split_at d s;
    first ← piece_starting_at d s;
    last ← piece_starting_at d e;
    '(d, repl) ← replacement_pieces d txt;
    ps ← splice_pieces (pieces_ d) first last repl;
    Ret (rebuild_cum (set_pieces d ps), ed).

(** One call of a listener: its id, the function, the edits passed. *)
Definition notification : Type := Z * listener_fn * list edit.

(** The calls made on the copy of the listener list, in order. *)
Definition notify d (edits : list edit) : list notification :=
  (fun kv => (kv.1, kv.2, edits)) <$> listeners_ d.

Definition replace d (start_ end_ : Z) (txt : list Z)
    : outcome (text_document * edit * list notification) :=
  '(d, ed) ← replace_internal d start_ end_ txt;
  let d := set_revision d (u32 (revision_ d + 1)) in
  Ret (d, ed, notify d [ed]).

Definition replace_utf8 d (start_ end_ : Z) (t : bytes) :=
  replace d start_ end_ (utf8_to_utf16 t).

(** [b.start < a.start + a.removed] for some neighbours. *)
Fixpoint overlapping (edits : list edit) : bool :=
  match edits with
  | a :: ((b :: _) as rest) => (estart b <? u32 (estart a + removed a)) || overlapping rest
  | _ => false
  end.

(** The loop [for (i = edits.size(); i-- > 0;)]: the last edit first. *)
Fixpoint apply_right_to_left d (edits : list edit) : outcome (text_document * list edit) :=
  match edits with
  | [] => Ret (d, [])
  | e :: rest =>
      '(d, applied) ← apply_right_to_left d rest;
      '(d, a) ← replace_internal d (estart e) (u32 (estart e + removed e)) (inserted e);
      Ret (d, a :: applied)
  end.

Definition apply_batch d (edits : list edit)
    : outcome (text_document * list edit * list notification) :=
  match edits with
  | [] => Ret (d, [], [])
  | _ =>
      if overlapping edits then Throw "text_document::apply_batch: overlapping edits"
      else
        '(d, applied) ← apply_right_to_left d edits;
        let d := set_revision d (u32 (revision_ d + 1)) in
        Ret (d, applied, notify d applied)
  end.

Definition subscribe d (fn : listener_fn) : text_document * Z :=
  let id := next_listener_id_ d in
  (set_listeners d (u64 (id + 1)) (listeners_ d ++ [(id, fn)]), id).

Definition unsubscribe d (id : Z) : text_document :=
  set_listeners d (next_listener_id_ d) (filter (fun kv => kv.1 <> id) (listeners_ d)).

(** * Search *)

Definition char_eq (case_insensitive : bool) (a b : Z) : bool :=
  if case_insensitive then fold_ascii a =? fold_ascii b else a =? b.

(** The inner loop comparing [hay[i + k]] with [needle[k]]. *)
Fixpoint matched_at (eq : Z -> Z -> bool) (hay : list Z) (i : Z) (needle : list Z)
    : outcome bool :=
  match needle with
  | [] => Ret true
  | c :: needle' =>
      h ← at_ hay i;
      if eq h c then matched_at eq hay (i + 1) needle' else Ret false
  end.

Fixpoint search_loop (fuel : nat) (eq : Z -> Z -> bool) (hay needle : list Z)
    (from i found limit : Z) : outcome (list (Z * Z)) :=
  match fuel with
  | O => OutOfFuel
  | S fuel' =>
      if (i + zlen needle <=? zlen hay) && (found <? limit) then
        m ← matched_at eq hay i needle;
        if (m : bool) then
          rest ← search_loop fuel' eq hay needle from (i + zlen needle) (found + 1) limit;
          Ret ((u32 (from + i), u32 (from + i + zlen needle)) :: rest)
        else search_loop fuel' eq hay needle from (i + 1) found limit
      else Ret []
  end.

Definition search_literal d (needle : list Z) (from limit : Z) (case_insensitive : bool)
    : outcome (list (Z * Z)) :=
  match needle with
  | [] => Ret []
  | _ =>
      let len := length_ d in
      if len <=? from then Ret []
      else
        hay ← slice d from len;
        if zlen hay <? zlen needle then Ret []
        else search_loop (S (length hay)) (char_eq case_insensitive) hay needle from 0 0 limit
  end.

Definition search_literal_utf8 d (needle : bytes) (from limit : Z) (ci : bool) :=
  search_literal d (utf8_to_utf16 needle) from limit ci.
End TextDocument.
Arguments text_document : clear implicits.
