(* ===== verification/TextDocumentFacts.v ===== *)
(** Correctness of the piece array of TextDocument.v: every operation returns
    (no access outside a buffer, no loop that runs on) and refines the
    operation on the plain text [text d]. *)

From S2P Require Import Prelude Utf16 TextDocument.

(** * Newlines of a text *)

(** The reference: positions of the newlines of [l], counted from [k]. *)
Fixpoint newlines (k : Z) (l : list Z) : list Z :=
  match l with
  | [] => []
  | c :: l' => if c =? newline then k :: newlines (k + 1) l' else newlines (k + 1) l'
  end.

(** Number of newlines of [l]. *)
Definition nl (l : list Z) : Z := zlen (newlines 0 l).

Lemma newlines_shift k j l : newlines (k + j) l = Z.add k <$> newlines j l.
Proof.
  revert j. induction l as [|c l IH]; intros j; simpl; [done|].
  rewrite <- Z.add_assoc, IH. by destruct (c =? newline).
Qed.

Lemma length_newlines k l : length (newlines k l) = length (newlines 0 l).
Proof. rewrite <- (Z.add_0_r k), newlines_shift. by rewrite length_fmap. Qed.

Lemma newlines_app k l1 l2 :
  newlines k (l1 ++ l2) = newlines k l1 ++ newlines (k + zlen l1) l2.
Proof.
  revert k. induction l1 as [|c l1 IH]; intros k; simpl.
  - f_equal. lia.
  - rewrite IH. replace (k + 1 + zlen l1) with (k + Z.of_nat (S (length l1))) by lia.
    by destruct (c =? newline).
Qed.

Lemma nl_app l1 l2 : nl (l1 ++ l2) = nl l1 + nl l2.
Proof.
  unfold nl. rewrite newlines_app, length_app, (length_newlines (0 + zlen l1)). lia.
Qed.

Lemma nl_nil : nl [] = 0.
Proof. done. Qed.

Lemma nl_bound l : 0 <= nl l <= zlen l.
Proof.
  unfold nl. split; [lia|]. generalize 0 as k.
  induction l as [|c l IH]; intros k; simpl; [lia|].
  specialize (IH (k + 1)). destruct (c =? newline); simpl; lia.
Qed.

Lemma newlines_bound k l x : x ∈ newlines k l -> k <= x < k + zlen l.
Proof.
  revert k. induction l as [|c l IH]; intros k; simpl; [by intros ?%elem_of_nil|].
  destruct (c =? newline).
  - intros [->|H]%elem_of_cons; [lia|]. apply IH in H. lia.
  - intros H. apply IH in H. lia.
Qed.

(** * Prefix sums *)

Definition sumZ : list Z -> Z := foldr Z.add 0.

Lemma sumZ_app l1 l2 : sumZ (l1 ++ l2) = sumZ l1 + sumZ l2.
Proof. unfold sumZ. induction l1; simpl; lia. Qed.

Lemma sumZ_nonneg l : Forall (Z.le 0) l -> 0 <= sumZ l.
Proof. induction 1; simpl in *; unfold sumZ in *; simpl; lia. Qed.

Lemma length_cums acc sizes : length (cums acc sizes) = S (length sizes).
Proof. revert acc. induction sizes; intros; simpl; [done|]. by rewrite IHsizes. Qed.

Lemma cums_lookup acc sizes i :
  Forall (Z.le 0) sizes -> 0 <= acc -> acc + sumZ sizes < 2 ^ 32 ->
  (i <= length sizes)%nat -> cums acc sizes !! i = Some (acc + sumZ (take i sizes)).
Proof.
  intros Hs. revert acc i. induction Hs as [|s sizes Hs Hss IH]; intros acc i Hacc Hb Hi.
  - simpl in *. replace i with O by lia. simpl. f_equal. lia.
  - pose proof (sumZ_nonneg _ Hss). cbn [sumZ foldr] in Hb. fold (sumZ sizes) in Hb.
    destruct i as [|i]; cbn [cums lookup list_lookup take].
    + f_equal. simpl. lia.
    + simpl in Hi. rewrite u32_small by lia. rewrite IH by lia.
      simpl. f_equal. unfold sumZ. lia.
Qed.

Lemma last_cums acc sizes :
  Forall (Z.le 0) sizes -> 0 <= acc -> acc + sumZ sizes < 2 ^ 32 ->
  last (cums acc sizes) = Some (acc + sumZ sizes).
Proof.
  intros. rewrite last_lookup, length_cums. cbn [pred].
  rewrite cums_lookup by (done || lia). by rewrite firstn_all.
Qed.

(** * Well-formed documents *)

Section Facts.
Context {listener_fn : Type}.
Notation doc := (text_document listener_fn).
Implicit Types d : doc.

Definition piece_text d (p : piece) : list Z :=
  zsub (start p) (plength p) (buf_for d (source p)).

Definition piece_ok d (p : piece) : Prop :=
  0 <= start p /\ 0 < plength p /\
  start p + plength p <= zlen (buf_for d (source p)) /\
  line_starts p = newlines 0 (piece_text d p).

Definition texts d (ps : list piece) : list Z := concat (piece_text d <$> ps).

(** The text a document stands for. *)
Definition text d : list Z := texts d (pieces_ d).

Definition cums_ok d : Prop :=
  cum_len_ d = cums 0 (plength <$> pieces_ d) /\
  cum_lines_ d = cums 0 ((fun p => u32 (zlen (line_starts p))) <$> pieces_ d).

(** The class invariant. The last clause separates the default-constructed
    document, whose prefix arrays are still empty. *)
Record wf d : Prop := {
  wf_pieces : Forall (piece_ok d) (pieces_ d);
  wf_original : zlen (original_ d) < 2 ^ 32;
  wf_add : zlen (add_buffer_ d) < 2 ^ 32;
  wf_text : zlen (text d) < 2 ^ 31;
  wf_cums : (pieces_ d = [] /\ cum_len_ d = [] /\ cum_lines_ d = []) \/ cums_ok d;
}.

Lemma texts_app d l1 l2 : texts d (l1 ++ l2) = texts d l1 ++ texts d l2.
Proof. unfold texts. by rewrite fmap_app, concat_app. Qed.

Lemma texts_cons d p l : texts d (p :: l) = piece_text d p ++ texts d l.
Proof. done. Qed.

Lemma zlen_piece_text d p : piece_ok d p -> zlen (piece_text d p) = plength p.
Proof. intros (? & ? & ? & ?). apply zlen_zsub; lia. Qed.

Lemma zlen_texts d ps : Forall (piece_ok d) ps ->
  zlen (texts d ps) = sumZ (plength <$> ps).
Proof.
  induction 1 as [|p ps Hp Hps IH]; [done|].
  rewrite texts_cons, length_app, Nat2Z.inj_add, IH, zlen_piece_text by done. done.
Qed.

Lemma nl_texts d ps : Forall (piece_ok d) ps -> zlen (texts d ps) < 2 ^ 32 ->
  nl (texts d ps) = sumZ ((fun p => u32 (zlen (line_starts p))) <$> ps).
Proof.
  induction 1 as [|p ps Hp Hps IH]; [done|]. rewrite texts_cons, length_app. intros Hb.
  rewrite nl_app, IH by lia. destruct Hp as (? & ? & ? & E).
  cbn [fmap list_fmap sumZ foldr]. rewrite E. f_equal. rewrite u32_small; [done|].
  pose proof (nl_bound (piece_text d p)). unfold nl in *. lia.
Qed.

Lemma sizes_nonneg d ps : Forall (piece_ok d) ps -> Forall (Z.le 0) (plength <$> ps).
Proof. intros H. apply Forall_fmap. eapply Forall_impl; [done|]. intros p (? & ? & ?); simpl; lia. Qed.

Lemma lines_nonneg (ps : list piece) :
  Forall (Z.le 0) ((fun p => u32 (zlen (line_starts p))) <$> ps).
Proof. apply Forall_fmap, Forall_true. intros p; simpl. apply u32_range. Qed.

Lemma piece_ok_take d n : wf d -> Forall (piece_ok d) (take n (pieces_ d)).
Proof. intros H. apply Forall_take, H. Qed.
Lemma piece_ok_drop d n : wf d -> Forall (piece_ok d) (drop n (pieces_ d)).
Proof. intros H. apply Forall_drop, H. Qed.
Lemma piece_ok_lookup d i p : wf d -> pieces_ d !! i = Some p -> piece_ok d p.
Proof. intros H Hp. eapply Forall_lookup_1; [apply H|done]. Qed.

(** Text before piece [i]. *)
Definition prefix d (i : nat) : list Z := texts d (take i (pieces_ d)).

Lemma text_prefix d i : text d = prefix d i ++ texts d (drop i (pieces_ d)).
Proof. unfold prefix, text. by rewrite <- texts_app, take_drop. Qed.

Lemma prefix_0 d : prefix d 0 = [].
Proof. done. Qed.

Lemma prefix_all d i : (length (pieces_ d) <= i)%nat -> prefix d i = text d.
Proof. intros. unfold prefix, text. by rewrite take_ge. Qed.

Lemma prefix_S d i p : pieces_ d !! i = Some p -> prefix d (S i) = prefix d i ++ piece_text d p.
Proof.
  intros H. unfold prefix. rewrite (take_S_r _ _ _ H), texts_app.
  unfold texts at 2. simpl. by rewrite app_nil_r.
Qed.

Lemma prefix_mono d i j : (i <= j)%nat -> zlen (prefix d i) <= zlen (prefix d j).
Proof.
  intros. unfold prefix. replace j with (i + (j - i))%nat by lia.
  rewrite <- take_take_drop, texts_app, length_app. lia.
Qed.

Lemma prefix_take d i : prefix d i = take (length (prefix d i)) (text d).
Proof. rewrite (text_prefix d i). by rewrite take_app_length. Qed.

Lemma prefix_bound d i : zlen (prefix d i) <= zlen (text d).
Proof. rewrite (text_prefix d i), length_app. lia. Qed.

Lemma npieces_text d : wf d -> npieces d <= zlen (text d).
Proof.
  intros H. unfold npieces, text. rewrite zlen_texts by apply H.
  pose proof (wf_pieces _ H) as Hp. induction Hp as [|p ps Hp Hps IH]; [done|].
  destruct Hp as (? & ? & ?). rewrite fmap_cons. cbn [length sumZ foldr].
  fold (sumZ (plength <$> ps)). lia.
Qed.

Section Wf.
Context {d : doc} (H : wf d).

Lemma text_empty : pieces_ d = [] -> text d = [].
Proof. unfold text. by intros ->. Qed.

Lemma cums_ok_ne : pieces_ d <> [] -> cums_ok d.
Proof using H. intros. destruct (wf_cums _ H) as [[? _]|]; done. Qed.

Lemma sizes_sum : sumZ (plength <$> pieces_ d) = zlen (text d).
Proof using H. symmetry. apply zlen_texts, H. Qed.

Lemma lines_sum : sumZ ((fun p => u32 (zlen (line_starts p))) <$> pieces_ d) = nl (text d).
Proof using H.
  symmetry. pose proof (wf_text _ H). apply nl_texts; [apply H|]. unfold text in *. lia.
Qed.

Lemma length_spec : length_ d = zlen (text d).
Proof using H.
  unfold length_. destruct (wf_cums _ H) as [(Hp & -> & _)|[-> _]].
  - by rewrite text_empty.
  - pose proof (wf_text _ H).
    rewrite last_cums; rewrite ?sizes_sum; [done|eapply sizes_nonneg, H|lia|lia].
Qed.

Lemma line_count_spec : line_count d = nl (text d) + 1.
Proof using H.
  unfold line_count. pose proof (wf_text _ H). pose proof (nl_bound (text d)).
  destruct (wf_cums _ H) as [(Hp & _ & ->)|[_ ->]].
  - by rewrite text_empty.
  - rewrite last_cums; rewrite ?lines_sum; [|apply lines_nonneg|lia|lia].
    simpl. rewrite u32_small; lia.
Qed.

Lemma cum_len_at i : pieces_ d <> [] -> 0 <= i <= npieces d ->
  at_ (cum_len_ d) i = Ret (zlen (prefix d (Z.to_nat i))).
Proof using H.
  intros Hne Hi. destruct (cums_ok_ne Hne) as [-> _]. unfold npieces in Hi.
  pose proof (wf_text _ H). apply at_Ret; [lia|].
  rewrite cums_lookup; rewrite ?sizes_sum, ?length_fmap; [|eapply sizes_nonneg, H|lia|lia|lia].
  f_equal. unfold prefix. by rewrite zlen_texts, fmap_take by (by apply piece_ok_take).
Qed.

Lemma cum_lines_at i : pieces_ d <> [] -> 0 <= i <= npieces d ->
  at_ (cum_lines_ d) i = Ret (nl (prefix d (Z.to_nat i))).
Proof using H.
  intros Hne Hi. destruct (cums_ok_ne Hne) as [_ ->]. unfold npieces in Hi.
  pose proof (wf_text _ H). pose proof (nl_bound (text d)).
  pose proof (prefix_bound d (Z.to_nat i)).
  apply at_Ret; [lia|].
  rewrite cums_lookup; rewrite ?lines_sum, ?length_fmap; [|apply lines_nonneg|lia|lia|lia].
  f_equal. unfold prefix in *. rewrite nl_texts, fmap_take by (by apply piece_ok_take || lia).
  done.
Qed.

Lemma npieces_small : npieces d < 2 ^ 31.
Proof using H. pose proof (npieces_text d H). pose proof (wf_text _ H). lia. Qed.

(** The piece that holds an offset inside the text. *)
Lemma piece_at_spec offset : 0 <= offset < zlen (text d) ->
  exists i p, piece_at d offset = Ret (Z.of_nat i, offset - zlen (prefix d i)) /\
    pieces_ d !! i = Some p /\ piece_ok d p /\
    0 <= offset - zlen (prefix d i) < plength p.
Proof using H.
  intros Ho. pose proof npieces_small as Hn. pose proof (wf_text _ H).
  assert (Hne : pieces_ d <> []) by (intros E; rewrite (text_empty E) in Ho; simpl in Ho; lia).
  unfold piece_at. destruct (pieces_ d) as [|p0 ps0] eqn:Eps; [done|].
  clear Hne. assert (Hne : pieces_ d <> []) by (rewrite Eps; done).
  rewrite (u32_small (npieces d)) by (unfold npieces in *; lia).
  destruct (bsearch_spec (fun m => zlen (prefix d (Z.to_nat (m + 1))) <=? offset)
    (fun mid => c ← at_ (cum_len_ d) (u32 (mid + 1)); Ret (c <=? offset))
    (bsearch_fuel (npieces d)) 0 (npieces d)) as (r & Er & Hr & Hl & Hh).
  - unfold npieces. lia.
  - lia.
  - unfold bsearch_fuel. lia.
  - intros m Hm. rewrite u32_small, cum_len_at by (done || lia). done.
  - intros m m' ? ?. rewrite !Z.leb_le. intros.
    pose proof (prefix_mono d (Z.to_nat (m + 1)) (Z.to_nat (m' + 1))). lia.
  - rewrite Er, bind_Ret. clear Er.
    assert (Hr' : r < npieces d).
    { destruct (decide (r < npieces d)); [done|].
      specialize (Hl (npieces d - 1)). rewrite Z.leb_le in Hl.
      rewrite prefix_all in Hl by (unfold npieces; lia). unfold npieces in *. rewrite Eps in *.
      simpl in *. lia. }
    rewrite u32_small by (unfold npieces in *; rewrite Eps in *; simpl in *; lia).
    rewrite Z.min_l by lia. rewrite cum_len_at by (done || lia). rewrite bind_Ret.
    destruct (lookup_lt_is_Some_2 (pieces_ d) (Z.to_nat r)) as [p Hp]; [unfold npieces in *; lia|].
    exists (Z.to_nat r), p. pose proof (piece_ok_lookup _ _ _ H Hp) as Hok.
    specialize (Hh r ltac:(lia)). rewrite Z.leb_gt in Hh.
    replace (Z.to_nat (r + 1)) with (S (Z.to_nat r)) in Hh by lia.
    rewrite (prefix_S _ _ _ Hp), length_app in Hh.
    pose proof (zlen_piece_text _ _ Hok).
    assert (zlen (prefix d (Z.to_nat r)) <= offset).
    { destruct (decide (r = 0)) as [->|]; [rewrite prefix_0; simpl; lia|].
      specialize (Hl (r - 1) ltac:(lia)). rewrite Z.leb_le in Hl.
      replace (Z.to_nat (r - 1 + 1)) with (Z.to_nat r) in Hl by lia. done. }
    rewrite u32_small by lia. rewrite <- Eps. rewrite Z2Nat.id by lia.
    split; [done|]. split; [done|]. split; [done|lia].
Qed.

(** ** Reading *)

Lemma slice_loop_spec ps remaining inner :
  Forall (piece_ok d) ps -> zlen (texts d ps) < 2 ^ 31 ->
  0 <= remaining -> 0 <= inner -> inner + remaining <= zlen (texts d ps) ->
  (inner = 0 \/ exists p ps', ps = p :: ps' /\ inner < plength p) ->
  slice_loop d ps remaining inner = Ret (zsub inner remaining (texts d ps)).
Proof using H.
  intros Hok. revert remaining inner.
  induction Hok as [|p ps Hp Hps IH]; intros r k Ht Hr Hk Hb Hin.
  - simpl in *. destruct (Z.leb_spec r 0); [|lia]. replace r with 0 by lia. done.
  - pose proof (zlen_piece_text _ _ Hp) as Hlp. destruct Hp as (? & ? & Hbuf & _).
    assert (Hkp : k < plength p).
    { destruct Hin as [->|(? & ? & [= -> ->] & ?)]; lia. }
    rewrite texts_cons, length_app in *. cbn [slice_loop].
    destruct (Z.leb_spec r 0).
    { replace r with 0 by lia. done. }
    assert (zlen (buf_for d (source p)) < 2 ^ 32).
    { destruct (source p); [apply (wf_original _ H)|apply (wf_add _ H)]. }
    rewrite (u32_small (plength p - k)) by lia. rewrite (u32_small (start p + k)) by lia.
    set (t := Z.min r (plength p - k)). unfold append_from, require.
    destruct (Z.leb_spec 0 (start p + k)); [|lia].
    destruct (Z.leb_spec 0 t); [|lia].
    destruct (Z.leb_spec (start p + k + t) (zlen (buf_for d (source p)))); [|lia].
    cbn [andb]. rewrite !bind_Ret. rewrite (u32_small (r - t)) by lia.
    rewrite IH by (lia || auto). rewrite bind_Ret. f_equal.
    rewrite (zsub_split k r t) by lia. f_equal.
    + rewrite zsub_app_l by lia. unfold piece_text. rewrite zsub_zsub by lia. done.
    + destruct (decide (t = r)) as [->|].
      * by rewrite Z.sub_diag.
      * rewrite zsub_app_r by lia. f_equal. lia.
Qed.

Lemma zdrop_texts i : texts d (drop i (pieces_ d)) = zdrop (zlen (prefix d i)) (text d).
Proof using H. rewrite (text_prefix d i). by rewrite zdrop_app_length. Qed.

(** The bounds of [slice] after clamping. *)
Lemma slice_spec s e : 0 <= s -> 0 <= e ->
  slice d s e = Ret (zsub (Z.min s (zlen (text d)))
                          (Z.min e (zlen (text d)) - Z.min s (zlen (text d))) (text d)).
Proof using H.
  intros Hs He. unfold slice. rewrite length_spec. unfold clamp.
  replace (if zlen (text d) <? s then zlen (text d) else s) with (Z.min s (zlen (text d)))
    by (destruct (Z.ltb_spec (zlen (text d)) s); lia).
  replace (if zlen (text d) <? e then zlen (text d) else e) with (Z.min e (zlen (text d)))
    by (destruct (Z.ltb_spec (zlen (text d)) e); lia).
  set (s' := Z.min s (zlen (text d))). set (e' := Z.min e (zlen (text d))).
  destruct (Z.leb_spec e' s').
  { unfold zsub, ztake. replace (Z.to_nat (e' - s')) with O by lia. done. }
  pose proof (wf_text _ H).
  destruct (piece_at_spec s') as (i & p & -> & Hp & Hok & Hin); [lia|].
  rewrite bind_Ret. cbn [fst snd]. rewrite u32_small by lia.
  unfold zdrop at 1. rewrite Nat2Z.id. pose proof (prefix_bound d i).
  assert (Hx : zlen (texts d (drop i (pieces_ d))) = zlen (text d) - zlen (prefix d i)).
  { rewrite zdrop_texts, zlen_zdrop; lia. }
  rewrite slice_loop_spec.
  - f_equal. rewrite zdrop_texts. unfold zsub at 1. rewrite zdrop_zdrop by lia.
    unfold zsub. do 2 f_equal. lia.
  - by apply piece_ok_drop.
  - lia.
  - lia.
  - lia.
  - lia.
  - right. exists p, (drop (S i) (pieces_ d)). split; [|lia]. by apply drop_S.
Qed.

Lemma slice_in_range s e : 0 <= s <= e -> e <= zlen (text d) ->
  slice d s e = Ret (zsub s (e - s) (text d)).
Proof using H. intros. rewrite slice_spec by lia. do 2 f_equal; lia. Qed.

Lemma code_unit_spec offset : 0 <= offset < zlen (text d) ->
  exists c, code_unit_at d offset = Ret c /\ text d !! Z.to_nat offset = Some c.
Proof using H.
  intros Ho. unfold code_unit_at. rewrite length_spec.
  destruct (Z.leb_spec (zlen (text d)) offset); [lia|].
  destruct (piece_at_spec offset) as (i & p & -> & Hp & Hok & Hin); [done|].
  rewrite bind_Ret. cbn [fst snd]. rewrite (at_Ret _ _ p) by (rewrite ?Nat2Z.id; done || lia).
  rewrite bind_Ret. destruct (Hok) as (? & ? & Hbuf & _).
  assert (zlen (buf_for d (source p)) < 2 ^ 32).
  { destruct (source p); [apply (wf_original _ H)|apply (wf_add _ H)]. }
  rewrite u32_small by lia.
  destruct (at_in_range (buf_for d (source p)) (start p + (offset - zlen (prefix d i))))
    as (c & -> & Hc); [lia|].
  exists c. split; [done|]. rewrite (text_prefix d i), (drop_S _ _ _ Hp), texts_cons.
  rewrite lookup_app_r by lia. pose proof (zlen_piece_text _ _ Hok).
  rewrite lookup_app_l by lia. unfold piece_text. rewrite zsub_lookup by lia.
  rewrite <- Hc. f_equal. lia.
Qed.

(** ** Lines *)

Lemma lower_bound_newlines j l k :
  0 <= k -> lower_bound (newlines j l) (j + k) = nl (ztake k l).
Proof.
  unfold nl. revert j k. induction l as [|c l IH]; intros j k Hk.
  - unfold ztake. rewrite take_nil. done.
  - destruct (decide (k = 0)) as [->|].
    { cbn [newlines]. destruct (c =? newline); cbn [lower_bound].
      - destruct (Z.ltb_spec j (j + 0)); [lia|done].
      - destruct (newlines (j + 1) l) as [|x xs] eqn:E; [done|].
        pose proof (newlines_bound (j + 1) l x) as Hx. rewrite E in Hx.
        specialize (Hx ltac:(apply elem_of_cons; by left)). simpl.
        destruct (Z.ltb_spec x (j + 0)); [lia|done]. }
    specialize (IH (j + 1) (k - 1) ltac:(lia)).
    replace (j + 1 + (k - 1)) with (j + k) in IH by lia.
    unfold ztake in *. replace (Z.to_nat k) with (S (Z.to_nat (k - 1))) by lia.
    cbn [newlines take]. destruct (c =? newline); cbn [lower_bound].
    + destruct (Z.ltb_spec j (j + k)); [|lia]. rewrite IH. cbn [length].
      rewrite ?(length_newlines (0 + 1)). lia.
    + rewrite IH. by rewrite (length_newlines (0 + 1)).
Qed.

Lemma nl_ztake_all o : zlen (text d) <= o -> nl (ztake o (text d)) = nl (text d).
Proof. intros. unfold ztake. rewrite take_ge by lia. done. Qed.

Lemma nl_ztake_mono (t : list Z) o o' : o <= o' -> nl (ztake o t) <= nl (ztake o' t).
Proof.
  intros. unfold ztake. replace (Z.to_nat o') with (Z.to_nat o + (Z.to_nat o' - Z.to_nat o))%nat by lia.
  rewrite <- take_take_drop, nl_app. pose proof (nl_bound (take (Z.to_nat o' - Z.to_nat o) (drop (Z.to_nat o) t))). lia.
Qed.

Lemma offset_to_line_spec offset : 0 <= offset ->
  offset_to_line d offset = Ret (nl (ztake offset (text d))).
Proof using H.
  intros Ho. unfold offset_to_line. rewrite length_spec, line_count_spec.
  destruct (Z.eqb_spec offset 0) as [->|]; [done|].
  pose proof (wf_text _ H). pose proof (nl_bound (text d)).
  destruct (Z.leb_spec (zlen (text d)) offset).
  { rewrite nl_ztake_all, u32_small by lia. f_equal. lia. }
  destruct (piece_at_spec offset) as (i & p & -> & Hp & Hok & Hin); [lia|].
  rewrite bind_Ret. cbn [fst snd]. rewrite (at_Ret _ _ p) by (rewrite ?Nat2Z.id; done || lia).
  assert (pieces_ d <> []) by (intros E; rewrite E in Hp; done).
  apply lookup_lt_Some in Hp as Hi.
  rewrite bind_Ret, cum_lines_at, Nat2Z.id, bind_Ret by (done || unfold npieces; lia).
  f_equal. pose proof (zlen_piece_text _ _ Hok).
  set (k := offset - zlen (prefix d i)) in *.
  assert (Et : ztake offset (text d) = prefix d i ++ ztake k (piece_text d p)).
  { rewrite (text_prefix d i), (drop_S _ _ _ Hp), texts_cons. unfold ztake.
    rewrite take_app_ge by lia. f_equal.
    rewrite take_app_le by lia. f_equal. lia. }
  rewrite Et, nl_app. destruct Hok as (_ & _ & _ & ->).
  rewrite <- (Z.add_0_l k) at 1. rewrite lower_bound_newlines by lia.
  pose proof (nl_bound (ztake offset (text d))) as B. rewrite Et, nl_app in B.
  pose proof (nl_bound (prefix d i)). pose proof (nl_bound (ztake k (piece_text d p))).
  rewrite length_app in B. pose proof (prefix_bound d i).
  pose proof (zlen_ztake k (piece_text d p) ltac:(lia)). rewrite !u32_small; rewrite ?u32_small; lia.
Qed.

(** The reference for [line_to_offset]. *)
Definition line_start (t : list Z) (line : Z) : Z :=
  if line =? 0 then 0
  else match newlines 0 t !! Z.to_nat (line - 1) with
       | Some x => x + 1
       | None => zlen t
       end.

Lemma newlines_app_lookup (t1 t2 : list Z) i x :
  newlines 0 t2 !! i = Some x ->
  newlines 0 (t1 ++ t2) !! (length (newlines 0 t1) + i)%nat = Some (zlen t1 + x).
Proof.
  intros Hx. rewrite newlines_app, lookup_app_r by lia.
  replace (length (newlines 0 t1) + i - length (newlines 0 t1))%nat with i by lia.
  rewrite <- (Z.add_0_r (0 + zlen t1)), newlines_shift, list_lookup_fmap, Hx. done.
Qed.

Lemma nl_prefix_mono i j : (i <= j)%nat -> nl (prefix d i) <= nl (prefix d j).
Proof.
  intros. unfold prefix. replace j with (i + (j - i))%nat by lia.
  rewrite <- take_take_drop, texts_app, nl_app.
  pose proof (nl_bound (texts d (take (j - i) (drop i (pieces_ d))))). lia.
Qed.

Lemma line_to_offset_spec line : 0 <= line ->
  line_to_offset d line = Ret (line_start (text d) line).
Proof using H.
  intros Hl. unfold line_to_offset, line_start. rewrite length_spec, line_count_spec.
  destruct (Z.eqb_spec line 0); [done|]. pose proof npieces_small as Hn.
  pose proof (wf_text _ H). pose proof (nl_bound (text d)) as Hnl.
  destruct (Z.leb_spec (nl (text d) + 1) line).
  { rewrite lookup_ge_None_2; [done|]. unfold nl in *. lia. }
  assert (Hne : pieces_ d <> []).
  { intros E. rewrite (text_empty E) in *. rewrite nl_nil in *. lia. }
  rewrite u32_small by (unfold npieces in *; lia).
  destruct (bsearch_spec (fun m => negb (line <=? nl (prefix d (Z.to_nat (m + 1)))))
    (fun mid => c ← at_ (cum_lines_ d) (u32 (mid + 1)); Ret (negb (line <=? c)))
    (bsearch_fuel (npieces d)) 0 (npieces d)) as (r & -> & Hr & Hlo & Hhi).
  - unfold npieces. lia.
  - lia.
  - unfold bsearch_fuel. lia.
  - intros m Hm. rewrite u32_small, cum_lines_at by (done || lia). done.
  - intros m m' ? ?. rewrite !negb_true_iff, !Z.leb_gt.
    pose proof (nl_prefix_mono (Z.to_nat (m + 1)) (Z.to_nat (m' + 1))). lia.
  - rewrite bind_Ret. assert (Hr' : r < npieces d).
    { destruct (decide (r < npieces d)); [done|].
      assert (0 < npieces d) by (unfold npieces; destruct (pieces_ d); simpl; [done|lia]).
      specialize (Hlo (npieces d - 1)). rewrite negb_true_iff, Z.leb_gt in Hlo.
      rewrite prefix_all in Hlo by (unfold npieces; lia). lia. }
    destruct (Z.leb_spec (npieces d) r); [lia|].
    destruct (at_in_range (pieces_ d) r) as (p & -> & Hp); [unfold npieces in *; lia|].
    rewrite bind_Ret, cum_lines_at, bind_Ret by (done || lia).
    pose proof (piece_ok_lookup _ _ _ H Hp) as Hok. pose proof Hok as (_ & _ & _ & Els).
    specialize (Hhi r ltac:(lia)). rewrite negb_false_iff, Z.leb_le in Hhi.
    replace (Z.to_nat (r + 1)) with (S (Z.to_nat r)) in Hhi by lia.
    rewrite (prefix_S _ _ _ Hp), nl_app in Hhi.
    assert (nl (prefix d (Z.to_nat r)) < line).
    { destruct (decide (r = 0)) as [->|]; [rewrite prefix_0, nl_nil; lia|].
      specialize (Hlo (r - 1) ltac:(lia)). rewrite negb_true_iff, Z.leb_gt in Hlo.
      replace (Z.to_nat (r - 1 + 1)) with (Z.to_nat r) in Hlo by lia. done. }
    pose proof (nl_bound (prefix d (Z.to_nat r))). rewrite u32_small by lia.
    set (w := line - nl (prefix d (Z.to_nat r)) - 1).
    destruct (Z.leb_spec (zlen (line_starts p)) w) as [Hw|].
    { rewrite Els in Hw. unfold nl in *. lia. }
    destruct (at_in_range (line_starts p) w) as (x & -> & Hx); [lia|].
    rewrite bind_Ret, cum_len_at, bind_Ret by (done || lia). f_equal.
    rewrite Els in Hx. pose proof (zlen_piece_text _ _ Hok).
    pose proof (newlines_bound 0 (piece_text d p) x) as Hxb.
    specialize (Hxb ltac:(by eapply list_elem_of_lookup_2)).
    assert (Hsum : zlen (prefix d (Z.to_nat r)) + zlen (piece_text d p) <= zlen (text d)).
    { rewrite (text_prefix d (Z.to_nat r)), (drop_S _ _ _ Hp), texts_cons, !length_app. lia. }
    rewrite !u32_small by (rewrite ?u32_small; lia).
    rewrite (text_prefix d (Z.to_nat r)), (drop_S _ _ _ Hp), texts_cons.
    rewrite app_assoc, newlines_app.
    rewrite (lookup_app_l_Some _ _ _ (zlen (prefix d (Z.to_nat r)) + x)); [lia|].
    replace (Z.to_nat (line - 1)) with (length (newlines 0 (prefix d (Z.to_nat r))) + Z.to_nat w)%nat
      by (unfold nl in *; lia).
    by apply newlines_app_lookup.
Qed.
End Wf.

(** * Edits *)

Lemma scan_newlines_spec fuel src st i e :
  0 <= st <= i -> i <= e -> e <= zlen src -> e < 2 ^ 32 -> (Z.to_nat (e - i) < fuel)%nat ->
  scan_newlines fuel src st i e = Ret (newlines (i - st) (zsub i (e - i) src)).
Proof.
  revert i. induction fuel as [|fuel IH]; intros i Hst Hi He Hb Hf; [lia|].
  cbn [scan_newlines]. destruct (Z.ltb_spec i e).
  - destruct (at_in_range src i) as (c & Ec & Hc); [lia|].
    rewrite Ec, bind_Ret, (u32_small (i + 1)), IH, bind_Ret by lia.
    rewrite (zsub_split i (e - i) 1) by lia.
    assert (zsub i 1 src = [c]) as ->.
    { unfold zsub, ztake, zdrop. rewrite (drop_S _ _ _ Hc). done. }
    cbn [app newlines]. rewrite u32_small by lia.
    replace (e - (i + 1)) with (e - i - 1) by lia.
    replace (i + 1 - st) with (i - st + 1) by lia. done.
  - replace (e - i) with 0 by lia. done.
Qed.

Lemma make_piece_spec d src st len :
  0 <= st -> 0 < len -> st + len <= zlen (buf_for d src) -> zlen (buf_for d src) < 2 ^ 32 ->
  make_piece d src st len = Ret (Piece src st len (newlines 0 (zsub st len (buf_for d src)))) /\
  piece_ok d (Piece src st len (newlines 0 (zsub st len (buf_for d src)))).
Proof.
  intros. unfold make_piece. rewrite u32_small by lia.
  rewrite scan_newlines_spec, bind_Ret by lia.
  replace (st + len - st) with len by lia. rewrite Z.sub_diag.
  split; [done|]. repeat split; simpl; done || lia.
Qed.

(** Everything but the pieces and their prefix sums. *)
Definition same_store d d' : Prop :=
  original_ d' = original_ d /\ add_buffer_ d' = add_buffer_ d /\
  revision_ d' = revision_ d /\ next_listener_id_ d' = next_listener_id_ d /\
  listeners_ d' = listeners_ d.

Lemma same_store_refl d : same_store d d.
Proof. done. Qed.

Lemma same_store_trans d1 d2 d3 : same_store d1 d2 -> same_store d2 d3 -> same_store d1 d3.
Proof. unfold same_store. intros (? & ? & ? & ? & ?) (? & ? & ? & ? & ?). repeat split; congruence. Qed.

Lemma same_store_piece d d' p : same_store d d' -> piece_text d' p = piece_text d p.
Proof. intros (E1 & E2 & _). unfold piece_text, buf_for. by rewrite E1, E2. Qed.

(** Installing pieces that lie inside the buffers re-establishes the invariant. *)
Lemma wf_set_pieces d ps :
  Forall (piece_ok d) ps -> zlen (original_ d) < 2 ^ 32 -> zlen (add_buffer_ d) < 2 ^ 32 ->
  zlen (texts d ps) < 2 ^ 31 -> wf (rebuild_cum (set_pieces d ps)).
Proof. intros Hok Ho Ha Ht. split; [exact Hok|exact Ho|exact Ha|exact Ht|by right]. Qed.

(** An offset where a piece starts, or the end of the text. *)
Definition boundary d (b : Z) : Prop := exists i, zlen (prefix d i) = b.

Lemma boundary_0 d : boundary d 0.
Proof. by exists O. Qed.

Lemma boundary_end d : boundary d (zlen (text d)).
Proof. exists (length (pieces_ d)). by rewrite prefix_all. Qed.

Lemma texts_two d i p left right b :
  pieces_ d !! i = Some p -> piece_text d p = piece_text d left ++ piece_text d right ->
  boundary d b ->
  let ps := take i (pieces_ d) ++ [left; right] ++ drop (S i) (pieces_ d) in
  texts d ps = text d /\ (exists j, zlen (texts d (take j ps)) = b) /\
  (exists j, zlen (texts d (take j ps)) = zlen (prefix d i) + zlen (piece_text d left)).
Proof.
  intros Hp Ep [j Hj] ps. assert (Hlen : length (take i (pieces_ d)) = i).
  { apply lookup_lt_Some in Hp. rewrite length_take. lia. }
  split; [|split].
  - rewrite (text_prefix d i), (drop_S _ _ _ Hp), (texts_cons d p), Ep.
    unfold ps. rewrite !texts_app, !texts_cons. change (texts d []) with (@nil Z).
    by rewrite app_nil_r, <- app_assoc.
  - destruct (decide (j <= i)%nat).
    + exists j. unfold ps. rewrite take_app_le, take_take by lia.
      rewrite Nat.min_l by lia. done.
    + exists (S j). rewrite <- Hj. f_equal. f_equal. unfold prefix, ps.
      rewrite take_app_ge by lia. rewrite Hlen.
      replace (S j - i)%nat with (S (S (j - S i))) by lia. cbn [take app].
      rewrite texts_app, !texts_cons. rewrite (take_middle (pieces_ d) i j p) by (done || lia).
      rewrite texts_app, (texts_cons d p), Ep, <- app_assoc. done.
  - exists (S i). unfold ps. rewrite take_app_ge by lia. rewrite Hlen.
    replace (S i - i)%nat with 1%nat by lia. cbn [take app].
    rewrite texts_app, texts_cons, length_app. change (texts d []) with (@nil Z).
    rewrite app_nil_r. unfold prefix. lia.
Qed.

Lemma split_at_spec d off : wf d -> 0 <= off ->
  exists d', split_at d off = Ret d' /\ wf d' /\ same_store d d' /\ text d' = text d /\
    (off <= zlen (text d) -> boundary d' off) /\ (forall b, boundary d b -> boundary d' b).
Proof.
  intros H Ho. unfold split_at.
  assert (Hsame : (off <= zlen (text d) -> boundary d off) ->
    exists d', Ret d = Ret d' /\ wf d' /\ same_store d d' /\ text d' = text d /\
      (off <= zlen (text d) -> boundary d' off) /\ (forall b, boundary d b -> boundary d' b))
    by (intros; exists d; repeat split; done || apply H).
  destruct (pieces_ d) as [|p0 ps0] eqn:Eps.
  { apply Hsame. rewrite text_empty by done. simpl. intros. replace off with 0 by lia. apply boundary_0. }
  rewrite (length_spec H). destruct (Z.eqb_spec off 0) as [->|]; cbn [orb].
  { apply Hsame. intros. apply boundary_0. }
  destruct (Z.leb_spec (zlen (text d)) off).
  { apply Hsame. intros. replace off with (zlen (text d)) by lia. apply boundary_end. }
  rewrite <- Eps in *. clear Eps p0 ps0.
  destruct (piece_at_spec H off) as (i & p & -> & Hp & Hok & Hin); [lia|].
  rewrite bind_Ret. cbn [fst snd]. set (k := off - zlen (prefix d i)) in *.
  destruct (Z.eqb_spec k 0).
  { apply Hsame. intros. exists i. lia. }
  rewrite (at_Ret _ _ p), bind_Ret by (rewrite ?Nat2Z.id; done || lia).
  pose proof Hok as (Hs & Hl & Hbuf & _).
  assert (zlen (buf_for d (source p)) < 2 ^ 32).
  { destruct (source p); [apply (wf_original _ H)|apply (wf_add _ H)]. }
  rewrite !u32_small by lia.
  destruct (make_piece_spec d (source p) (start p) k) as [-> Hleft]; [lia..|].
  destruct (make_piece_spec d (source p) (start p + k) (plength p - k)) as [-> Hright]; [lia..|].
  rewrite !bind_Ret. set (left := Piece _ _ k _) in *. set (right := Piece _ _ (plength p - k) _) in *.
  assert (Ep : piece_text d p = piece_text d left ++ piece_text d right).
  { unfold piece_text, left, right; simpl. apply zsub_split; lia. }
  unfold ztake, zdrop. rewrite Nat2Z.id. replace (Z.to_nat (Z.of_nat i + 1)) with (S i) by lia.
  set (ps := take i (pieces_ d) ++ [left; right] ++ drop (S i) (pieces_ d)).
  destruct (texts_two d i p left right 0 Hp Ep (boundary_0 d)) as (Et & _ & Hb).
  fold ps in Et, Hb. exists (rebuild_cum (set_pieces d ps)).
  split; [done|]. split; [|split; [done|split; [done|split]]].
  - apply wf_set_pieces; try apply H.
    + unfold ps. rewrite !Forall_app. split; [by apply piece_ok_take|].
      split; [apply Forall_cons; split; [done|]; apply Forall_cons; by split|by apply piece_ok_drop].
    + rewrite Et. apply H.
  - intros _. destruct Hb as [j Hj]. exists j.
    change (zlen (texts d (take j ps)) = off). rewrite Hj, zlen_piece_text by done. simpl. lia.
  - intros b Hbd. destruct (texts_two d i p left right b Hp Ep Hbd) as (_ & [j Hj] & _).
    by exists j.
Qed.

Lemma piece_starting_at_spec d off : wf d -> 0 <= off -> boundary d off ->
  exists i, piece_starting_at d off = Ret (Z.of_nat i) /\ (i <= length (pieces_ d))%nat /\
    zlen (prefix d i) = off.
Proof.
  intros H Ho [j Hj]. unfold piece_starting_at. rewrite (length_spec H).
  pose proof (npieces_small H) as Hn. pose proof (prefix_bound d j).
  rewrite u32_small by (unfold npieces in *; lia).
  destruct (Z.leb_spec (zlen (text d)) off).
  { exists (length (pieces_ d)). split; [done|]. split; [done|]. rewrite prefix_all by done. lia. }
  assert (Hne : pieces_ d <> []).
  { intros E. rewrite (text_empty E) in *. simpl in *. lia. }
  assert (Hjn : (j < length (pieces_ d))%nat).
  { destruct (decide (j < length (pieces_ d))%nat); [done|].
    rewrite prefix_all in Hj by lia. lia. }
  destruct (bsearch_spec (fun m => zlen (prefix d (Z.to_nat m)) <? off)
    (fun mid => c ← at_ (cum_len_ d) mid; Ret (c <? off))
    (bsearch_fuel (npieces d)) 0 (npieces d)) as (r & -> & Hr & Hlo & Hhi).
  - unfold npieces; lia.
  - lia.
  - unfold bsearch_fuel. lia.
  - intros m Hm. rewrite (cum_len_at H) by (done || lia). done.
  - intros m m' ? ?. rewrite !Z.ltb_lt. pose proof (prefix_mono d (Z.to_nat m) (Z.to_nat m')). lia.
  - exists (Z.to_nat r). split; [by rewrite Z2Nat.id by lia|].
    split; [unfold npieces in *; lia|].
    assert (r <= Z.of_nat j).
    { destruct (decide (r <= Z.of_nat j)); [done|].
      specialize (Hlo (Z.of_nat j) ltac:(lia)). rewrite Z.ltb_lt, Nat2Z.id in Hlo. lia. }
    specialize (Hhi r). rewrite Z.ltb_ge in Hhi. unfold npieces in Hhi.
    specialize (Hhi ltac:(lia)). pose proof (prefix_mono d (Z.to_nat r) j). lia.
Qed.

(** Appending to the add buffer leaves existing pieces alone. *)
Lemma piece_text_set_add d txt p :
  piece_ok d p -> piece_text (set_add d (add_buffer_ d ++ txt)) p = piece_text d p.
Proof.
  intros (? & ? & ? & _). unfold piece_text, buf_for in *; destruct (source p); simpl; [done|].
  apply zsub_app_l; lia.
Qed.

Lemma piece_ok_set_add d txt p :
  piece_ok d p -> piece_ok (set_add d (add_buffer_ d ++ txt)) p.
Proof.
  intros Hp. unfold piece_ok. rewrite piece_text_set_add by done.
  destruct Hp as (? & ? & ? & ?). repeat split; try done.
  unfold buf_for in *; destruct (source p); simpl; [done|]. rewrite length_app. lia.
Qed.

Lemma texts_set_add d txt ps :
  Forall (piece_ok d) ps -> texts (set_add d (add_buffer_ d ++ txt)) ps = texts d ps.
Proof.
  induction 1 as [|p ps Hp Hps IH]; [done|].
  by rewrite !texts_cons, IH, piece_text_set_add.
Qed.

(** The splice on plain text. *)
Definition splice (t : list Z) (lo hi : Z) (ins : list Z) : list Z :=
  ztake lo t ++ ins ++ zdrop hi t.

Lemma zlen_splice t lo hi ins : 0 <= lo <= hi -> hi <= zlen t ->
  zlen (splice t lo hi ins) = zlen t - (hi - lo) + zlen ins.
Proof.
  intros. unfold splice. rewrite !length_app, !Nat2Z.inj_add, zlen_ztake, zlen_zdrop by lia. lia.
Qed.

(** Both ends clamped to the document, then ordered. *)
Definition norm_lo d (s e : Z) : Z := Z.min (Z.min s (zlen (text d))) (Z.min e (zlen (text d))).
Definition norm_hi d (s e : Z) : Z := Z.max (Z.min s (zlen (text d))) (Z.min e (zlen (text d))).

(** Room for an insertion: neither buffer offsets nor lengths wrap. *)
Definition room d (txt : list Z) : Prop :=
  zlen (add_buffer_ d) + zlen txt < 2 ^ 32 /\ zlen (text d) + zlen txt < 2 ^ 31.

(** The insertion step of [replace_internal]. *)
Lemma insertion_spec d (txt : list Z) : wf d -> room d txt ->
  exists repl,
    replacement_pieces d txt = Ret (set_add d (add_buffer_ d ++ txt), repl) /\
    Forall (piece_ok (set_add d (add_buffer_ d ++ txt))) repl /\
    texts (set_add d (add_buffer_ d ++ txt)) repl = txt.
Proof.
  intros H [Hr1 Hr2]. unfold replacement_pieces. destruct txt as [|c txt'] eqn:E.
  - exists []. rewrite app_nil_r. destruct d; done.
  - rewrite <- E in *. cbv zeta. rewrite !u32_small by lia.
    set (d' := set_add d (add_buffer_ d ++ txt)). assert (0 < zlen txt) by (rewrite E; simpl; lia).
    destruct (make_piece_spec d' add (zlen (add_buffer_ d)) (zlen txt)) as [-> Hok];
      [lia|lia|simpl; rewrite length_app; lia|simpl; rewrite length_app; lia|].
    eexists. split; [reflexivity|]. split; [apply Forall_cons; split; [exact Hok|constructor]|].
    unfold texts. simpl. rewrite app_nil_r. unfold piece_text; simpl.
    rewrite zsub_app_r by lia. rewrite Z.sub_diag. apply zsub_all. lia.
Qed.

Lemma replace_internal_spec d s e txt : wf d -> room d txt -> 0 <= s -> 0 <= e ->
  let lo := norm_lo d s e in
  let hi := norm_hi d s e in
  exists d', replace_internal d s e txt
      = Ret (d', Edit lo (hi - lo) (zsub lo (hi - lo) (text d)) txt) /\
    wf d' /\ same_store (set_add d (add_buffer_ d ++ txt)) d' /\
    text d' = splice (text d) lo hi txt.
Proof.
  intros H Hroom Hs He lo hi. unfold replace_internal. rewrite (length_spec H). unfold clamp.
  pose proof (wf_text _ H) as Htl. set (len := zlen (text d)) in *.
  replace (if len <? s then len else s) with (Z.min s len) by (destruct (Z.ltb_spec len s); lia).
  replace (if len <? e then len else e) with (Z.min e len) by (destruct (Z.ltb_spec len e); lia).
  replace (if Z.min e len <? Z.min s len then (Z.min e len, Z.min s len) else (Z.min s len, Z.min e len))
    with (lo, hi) by (unfold lo, hi, norm_lo, norm_hi; fold len;
                      destruct (Z.ltb_spec (Z.min e len) (Z.min s len)); f_equal; lia).
  assert (Hb : 0 <= lo <= hi /\ hi <= len) by (unfold lo, hi, norm_lo, norm_hi; fold len; lia).
  clearbody lo hi. rewrite u32_small by lia.
  assert ((if 0 <? hi - lo then slice d lo hi else Ret []) = Ret (zsub lo (hi - lo) (text d))) as ->.
  { destruct (Z.ltb_spec 0 (hi - lo)); [apply slice_in_range; done || lia|].
    by replace (hi - lo) with 0 by lia. }
  rewrite bind_Ret. destruct ((hi - lo =? 0) && bool_decide (txt = [])) eqn:Enop.
  { apply andb_true_iff in Enop as [E1%Z.eqb_eq E2%bool_decide_eq_true]. subst txt.
    exists d. split; [done|]. split; [done|]. split.
    - rewrite app_nil_r. destruct d; done.
    - unfold splice. replace hi with lo by lia. simpl. by rewrite ztake_zdrop. }
  clear Enop. destruct (split_at_spec d hi H) as (d1 & -> & H1 & Hst1 & Et1 & Hb1 & _); [lia|].
  rewrite bind_Ret. destruct (split_at_spec d1 lo H1) as (d2 & -> & H2 & Hst2 & Et2 & Hb2 & Hmono); [lia|].
  rewrite bind_Ret. rewrite Et1 in *. fold len in Hb1, Hb2.
  destruct (piece_starting_at_spec d2 lo H2) as (i & Ei & Hi & Hpi); [lia|apply Hb2; lia|].
  destruct (piece_starting_at_spec d2 hi H2) as (j & Ej & Hj & Hpj); [lia|apply Hmono, Hb1; lia|].
  rewrite Ei, Ej, !bind_Ret.
  assert (Hij : (i <= j)%nat).
  { destruct (decide (lo = hi)) as [->|]; [rewrite Ei in Ej; simplify_eq; lia|].
    destruct (decide (i <= j)%nat); [done|]. pose proof (prefix_mono d2 j i). lia. }
  pose proof (same_store_trans _ _ _ Hst1 Hst2) as Hst. destruct (Hst) as (Eo & Ea & _).
  assert (Hroom2 : room d2 txt).
  { destruct Hroom. split; [by rewrite Ea|by rewrite Et2]. }
  destruct (insertion_spec d2 txt H2 Hroom2) as (repl & -> & Hrepl & Etxt).
  rewrite bind_Ret. set (d3 := set_add d2 (add_buffer_ d2 ++ txt)) in *.
  unfold splice_pieces, require. change (pieces_ d3) with (pieces_ d2).
  destruct (Z.leb_spec 0 (Z.of_nat i)); [|lia]. destruct (Z.leb_spec (Z.of_nat i) (Z.of_nat j)); [|lia].
  destruct (Z.leb_spec (Z.of_nat j) (zlen (pieces_ d2))); [|lia]. cbn [andb]. rewrite !bind_Ret.
  unfold ztake, zdrop. rewrite !Nat2Z.id.
  set (ps := take i (pieces_ d2) ++ repl ++ drop j (pieces_ d2)).
  assert (Eps : texts d3 ps = splice (text d) lo hi txt).
  { unfold ps, d3. rewrite !texts_app, (texts_set_add d2 txt (take i _)), (texts_set_add d2 txt (drop j _))
      by (by apply piece_ok_take || by apply piece_ok_drop).
    fold d3. rewrite Etxt, (zdrop_texts H2), Hpj, Et2. unfold splice. f_equal.
    fold (prefix d2 i). rewrite prefix_take, Et2. unfold ztake. f_equal. lia. }
  exists (rebuild_cum (set_pieces d3 ps)). split; [done|]. split; [|split].
  - apply wf_set_pieces; simpl.
    + unfold ps. rewrite !Forall_app. split; [|split; [done|]].
      * eapply Forall_impl; [by apply piece_ok_take|]. intros. by apply piece_ok_set_add.
      * eapply Forall_impl; [by apply piece_ok_drop|]. intros. by apply piece_ok_set_add.
    + apply H2.
    + rewrite length_app. destruct Hroom2. lia.
    + rewrite Eps, zlen_splice by (fold len; lia). destruct Hroom as [_ Hr]. fold len in Hr |- *. lia.
  - destruct Hst as (? & ? & ? & ? & ?). unfold same_store; simpl. rewrite Ea. done.
  - exact Eps.
Qed.
End Facts.
