(* ===== verification/TextDocumentSpec.v ===== *)
(** What fxe::text_document promises: the theorems of the piece array, stated
    on the plain text it stands for. *)

From S2P Require Import Prelude Utf16 TextDocument TextDocumentFacts.

Section Spec.
Context {listener_fn : Type}.
Notation doc := (text_document listener_fn).
Implicit Types d : doc.

(** * Construction *)

Lemma make_document_spec (initial : list Z) : zlen initial < 2 ^ 31 ->
  exists d, make_document (listener_fn := listener_fn) initial = Ret d /\ wf d /\
    text d = initial /\ revision_ d = 0 /\ add_buffer_ d = [] /\ listeners_ d = [].
Proof.
  intros Hlen. unfold make_document. destruct initial as [|c l] eqn:E.
  - eexists. split; [reflexivity|]. repeat split; simpl; try done; try lia. by right.
  - rewrite <- E in *. assert (0 < zlen initial) by (rewrite E; simpl; lia).
    rewrite u32_small by lia. set (d0 := Doc initial [] [] [] [] 0 1 []).
    assert (Hb : buf_for d0 original = initial) by done.
    destruct (make_piece_spec d0 original 0 (zlen initial)) as [-> Hok]; rewrite ?Hb; [lia..|].
    rewrite !bind_Ret. set (p := Piece _ _ _ _) in *.
    assert (Et : texts d0 [p] = initial).
    { unfold texts. simpl. rewrite app_nil_r.
      change (piece_text d0 p) with (zsub 0 (zlen initial) initial). apply zsub_all. lia. }
    eexists. split; [reflexivity|]. split.
    + apply wf_set_pieces; [by apply Forall_cons|simpl; lia|simpl; lia|rewrite Et; lia].
    + done.
Qed.

Lemma wf_empty_document : wf (empty_document (listener_fn := listener_fn)).
Proof. split; simpl; try done; try lia. by left. Qed.

(** * Replacement *)

Lemma wf_set_revision d r : wf d -> wf (set_revision d r).
Proof. intros H. split; apply H. Qed.

(** C1.  [replace(start, end, text)] does on the piece array what it says on
    the text: for any offsets (swapped or past the end are clamped) it
    returns, keeps the class invariant, splices the text, reports the exact
    edit with the removed code units, bumps the revision and calls every
    listener once, in subscription order, with that edit. *)
Theorem replace_refines d s e txt :
  wf d -> room d txt -> 0 <= s -> 0 <= e ->
  let lo := norm_lo d s e in
  let hi := norm_hi d s e in
  let ed := Edit lo (hi - lo) (zsub lo (hi - lo) (text d)) txt in
  exists d', replace d s e txt
      = Ret (d', ed, (fun kv => (kv.1, kv.2, [ed])) <$> listeners_ d) /\
    wf d' /\ text d' = splice (text d) lo hi txt /\
    revision_ d' = u32 (revision_ d + 1).
Proof.
  intros H Hroom Hs He lo hi ed. unfold replace.
  destruct (replace_internal_spec d s e txt H Hroom Hs He) as (d' & -> & H' & Hst & Et).
  rewrite bind_Ret. destruct Hst as (_ & _ & Er & _ & El). simpl in Er, El.
  exists (set_revision d' (u32 (revision_ d' + 1))). unfold notify; simpl. rewrite Er, El.
  split; [done|]. split; [by apply wf_set_revision|]. done.
Qed.

(** The number of code units a sequence of replacements inserts. *)
Definition total_inserted (ops : list (Z * Z * list Z)) : Z := sumZ ((fun op => zlen op.2) <$> ops).

Fixpoint run_replaces d (ops : list (Z * Z * list Z)) : outcome (doc) :=
  match ops with
  | [] => Ret d
  | (s, e, txt) :: ops' => '(d, _, _) ← replace d s e txt; run_replaces d ops'
  end.

(** The same sequence on plain text. *)
Fixpoint run_splices (t : list Z) (ops : list (Z * Z * list Z)) : list Z :=
  match ops with
  | [] => t
  | (s, e, txt) :: ops' =>
      let s := Z.min s (zlen t) in
      let e := Z.min e (zlen t) in
      run_splices (splice t (Z.min s e) (Z.max s e) txt) ops'
  end.

(** Room for all of a sequence of insertions of [n] code units in total. *)
Definition room_for d (n : Z) : Prop :=
  zlen (add_buffer_ d) + n < 2 ^ 32 /\ zlen (text d) + n < 2 ^ 31.

Lemma room_for_room d n txt : room_for d n -> zlen txt <= n -> room d txt.
Proof. unfold room_for, room. lia. Qed.

Lemma replace_internal_room d d' s e txt n ed :
  wf d -> 0 <= s -> 0 <= e -> room_for d (zlen txt + n) -> 0 <= n ->
  replace_internal d s e txt = Ret (d', ed) -> room_for d' n.
Proof.
  intros H Hs He Hr Hn E.
  destruct (replace_internal_spec d s e txt H) as (d1 & E1 & _ & Hst & Et);
    [by eapply room_for_room; [exact Hr|lia]|done|done|].
  rewrite E1 in E. injection E as <- <-. destruct Hst as (_ & Ea & _). simpl in Ea.
  unfold room_for in *. rewrite Ea, Et, length_app, zlen_splice; unfold norm_lo, norm_hi; lia.
Qed.

(** Any sequence of replacements, run on the piece array, ends in the
    document whose text is the same sequence of splices of a plain string. *)
Lemma replaces_simulate_splices ops d :
  wf d -> room_for d (total_inserted ops) -> Forall (fun op => 0 <= op.1.1 /\ 0 <= op.1.2) ops ->
  exists d', run_replaces d ops = Ret d' /\ wf d' /\ text d' = run_splices (text d) ops.
Proof.
  revert d. induction ops as [|[[s e] txt] ops IH]; intros d H Hr Hops; [by exists d|].
  apply Forall_cons in Hops as [[Hs He] Hops]. simpl in Hs, He.
  unfold total_inserted in Hr. cbn [fmap list_fmap sumZ foldr snd] in Hr. fold (sumZ ((fun op : Z * Z * list Z => zlen op.2) <$> ops)) in Hr.
  fold (total_inserted ops) in Hr.
  assert (Hn : 0 <= total_inserted ops).
  { apply sumZ_nonneg, Forall_fmap, Forall_true. intros; simpl; lia. }
  destruct (replace_internal_spec d s e txt H) as (d1 & E1 & H1 & Hst & Et);
    [by eapply room_for_room; [exact Hr|lia]|done|done|].
  pose proof (replace_internal_room _ _ _ _ _ _ _ H Hs He Hr Hn E1) as Hr1.
  cbn [run_replaces]. unfold replace. rewrite E1, !bind_Ret.
  destruct (IH (set_revision d1 (u32 (revision_ d1 + 1)))) as (d' & E' & H' & Et');
    [by apply wf_set_revision|done|done|].
  exists d'. split; [done|]. split; [done|]. rewrite Et'. cbn [run_splices].
  change (text (set_revision d1 _)) with (text d1). rewrite Et. done.
Qed.

(** A replacement is undone by replacing the range it inserted with the
    code units it reports as deleted. *)
Lemma replace_undo d d' s e txt ed ns :
  wf d -> 0 <= s -> 0 <= e -> room_for d (zlen txt + zlen (text d)) ->
  replace d s e txt = Ret (d', ed, ns) ->
  exists d'' ed' ns',
    replace d' (estart ed) (estart ed + zlen (inserted ed)) (deleted ed) = Ret (d'', ed', ns') /\
    text d'' = text d /\ deleted ed' = txt.
Proof.
  intros H Hs He Hr. unfold replace at 1.
  destruct (replace_internal_spec d s e txt H) as (d1 & E1 & H1 & Hst & Et);
    [by eapply room_for_room; [exact Hr|lia]|done|done|].
  pose proof (replace_internal_room _ _ _ _ _ _ _ H Hs He Hr ltac:(lia) E1) as Hr1.
  rewrite E1, bind_Ret. intros [= <- <- <-]. simpl.
  set (lo := norm_lo d s e) in *. set (hi := norm_hi d s e) in *.
  assert (Hb : 0 <= lo <= hi /\ hi <= zlen (text d)) by (unfold lo, hi, norm_lo, norm_hi; lia).
  clearbody lo hi.
  set (d2 := set_revision d1 _). assert (H2 : wf d2) by by apply wf_set_revision.
  assert (Et2 : text d2 = splice (text d) lo hi txt) by done.
  assert (Hdel : zlen (zsub lo (hi - lo) (text d)) = hi - lo) by (apply zlen_zsub; lia).
  destruct (replace_refines d2 lo (lo + zlen txt) (zsub lo (hi - lo) (text d)) H2)
    as (d'' & E'' & _ & Et'' & _); [|lia|lia|].
  { eapply room_for_room; [exact Hr1|]. rewrite Hdel. lia. }
  assert (Hlen : zlen (text d2) = zlen (text d) - (hi - lo) + zlen txt)
    by (rewrite Et2; apply zlen_splice; lia).
  assert (Elo : norm_lo d2 lo (lo + zlen txt) = lo) by (unfold norm_lo; lia).
  assert (Ehi : norm_hi d2 lo (lo + zlen txt) = lo + zlen txt) by (unfold norm_hi; lia).
  rewrite Elo, Ehi in *. eexists _, _, _. split; [exact E''|]. split.
  - rewrite Et'', Et2. unfold splice at 1. unfold splice.
    assert (zlen (ztake lo (text d)) = lo) by (rewrite zlen_ztake; lia).
    rewrite ztake_app_length by done.
    rewrite (app_assoc _ txt), zdrop_app_length by (rewrite ?length_app; lia).
    rewrite ztake_zsub. replace (zdrop hi (text d)) with (zsub hi (zlen (text d) - hi) (text d))
      by (apply zdrop_zsub; lia).
    transitivity (zsub 0 (zlen (text d)) (text d)); [|apply zsub_all; lia].
    rewrite (zsub_split 0 (zlen (text d)) lo) by lia. f_equal.
    rewrite (zsub_split (0 + lo) (zlen (text d) - lo) (hi - lo)) by lia.
    replace (0 + lo) with lo by lia. replace (lo + (hi - lo)) with hi by lia.
    by replace (zlen (text d) - lo - (hi - lo)) with (zlen (text d) - hi) by lia.
  - cbn [deleted]. rewrite Et2. unfold splice.
    replace (lo + zlen txt - lo) with (zlen txt) by lia.
    rewrite zsub_app_r by (rewrite ?zlen_ztake; lia). rewrite zlen_ztake by lia.
    replace (lo - Z.min lo (zlen (text d))) with 0 by lia. by apply zsub_0_app.
Qed.

(** * Batches *)

(** Edits in ascending order, disjoint and inside a text of length [len];
    [pos] is where the previous edit ended. *)
Fixpoint batch_ok (pos len : Z) (edits : list edit) : Prop :=
  match edits with
  | [] => pos <= len
  | e :: es => pos <= estart e /\ 0 <= removed e /\ batch_ok (estart e + removed e) len es
  end.

(** All edits applied at once to the original text, from [pos] on. *)
Fixpoint batch_text (t : list Z) (pos : Z) (edits : list edit) : list Z :=
  match edits with
  | [] => zdrop pos t
  | e :: es =>
      zsub pos (estart e - pos) t ++ inserted e ++ batch_text t (estart e + removed e) es
  end.

(** The edits as reported: each with the code units it removed from the
    original text. *)
Definition batch_applied (t : list Z) (edits : list edit) : list edit :=
  (fun e => Edit (estart e) (removed e) (zsub (estart e) (removed e) t) (inserted e)) <$> edits.

Definition batch_inserted (edits : list edit) : Z := sumZ ((fun e => zlen (inserted e)) <$> edits).

Lemma batch_inserted_cons e es : batch_inserted (e :: es) = zlen (inserted e) + batch_inserted es.
Proof. done. Qed.

Lemma batch_inserted_nonneg es : 0 <= batch_inserted es.
Proof. apply sumZ_nonneg, Forall_fmap, Forall_true. intros; simpl; lia. Qed.

Lemma batch_ok_le pos len es : batch_ok pos len es -> pos <= len.
Proof. revert pos. induction es as [|e es IH]; simpl; [done|]. intros pos (? & ? & H%IH). lia. Qed.

Lemma batch_not_overlapping pos len es : 0 <= pos -> len < 2 ^ 32 ->
  batch_ok pos len es -> overlapping es = false.
Proof.
  revert pos. induction es as [|a [|b es] IH]; intros pos Hp Hl H; [done..|].
  destruct H as (? & ? & Hab). pose proof (batch_ok_le _ _ _ Hab).
  change (overlapping (a :: b :: es)) with
    ((estart b <? u32 (estart a + removed a)) || overlapping (b :: es)). rewrite (IH (estart a + removed a)) by (done || lia).
  destruct Hab as (? & ? & ?). rewrite u32_small by lia. rewrite orb_false_r. apply Z.ltb_ge. lia.
Qed.

Lemma apply_right_to_left_spec es d pos :
  wf d -> 0 <= pos -> batch_ok pos (zlen (text d)) es -> room_for d (batch_inserted es) ->
  exists d', apply_right_to_left d es = Ret (d', batch_applied (text d) es) /\ wf d' /\
    text d' = ztake pos (text d) ++ batch_text (text d) pos es /\
    zlen (add_buffer_ d') = zlen (add_buffer_ d) + batch_inserted es /\
    zlen (text d') <= zlen (text d) + batch_inserted es /\
    revision_ d' = revision_ d /\ listeners_ d' = listeners_ d.
Proof.
  revert pos. induction es as [|e es IH]; intros pos H Hp Hok Hr.
  { exists d. simpl in *. rewrite ztake_zdrop. unfold batch_inserted. simpl. repeat split; done || lia || apply H. }
  destruct Hok as (Hs & Hrm & Hok). pose proof (batch_ok_le _ _ _ Hok).
  pose proof (wf_text _ H). pose proof (batch_inserted_nonneg es).
  rewrite batch_inserted_cons in Hr.
  destruct (IH (estart e + removed e) H) as (d1 & E1 & Hw1 & Et1 & Ea1 & Hl1 & Er1 & El1);
    [lia|done|unfold room_for in *; lia|].
  cbn [apply_right_to_left]. rewrite E1, bind_Ret, u32_small by lia.
  set (p := estart e + removed e) in *.
  assert (zlen (ztake p (text d)) = p) by (rewrite zlen_ztake; lia).
  destruct (replace_internal_spec d1 (estart e) p (inserted e) Hw1)
    as (d2 & E2 & Hw2 & Hst & Et2); [|lia|lia|].
  { unfold room, room_for in *. rewrite Ea1. lia. }
  assert (p <= zlen (text d1)) by (rewrite Et1, length_app; lia).
  assert (Elo : norm_lo d1 (estart e) p = estart e) by (unfold norm_lo, p in *; lia).
  assert (Ehi : norm_hi d1 (estart e) p = p) by (unfold norm_hi, p in *; lia).
  rewrite Elo, Ehi in *. rewrite E2, bind_Ret.
  exists d2. destruct Hst as (_ & Ea2 & Er2 & _ & El2). simpl in Ea2, Er2, El2.
  replace (p - estart e) with (removed e) by lia. split; [|split; [done|split; [|split; [|split]]]].
  - unfold batch_applied. rewrite fmap_cons. do 4 f_equal.
    rewrite Et1, zsub_app_l by lia. rewrite ztake_zsub, zsub_zsub by lia. done.
  - rewrite Et2. unfold splice. rewrite Et1, zdrop_app_length by lia.
    rewrite ztake_app_l by lia. rewrite !ztake_zsub, zsub_zsub by lia.
    rewrite (zsub_split 0 (estart e) pos) by lia. rewrite <- app_assoc. done.
  - rewrite Ea2, length_app, Nat2Z.inj_add, Ea1, batch_inserted_cons. lia.
  - rewrite Et2, zlen_splice, batch_inserted_cons by lia. lia.
  - split; congruence.
Qed.

(** C2.  [apply_batch] on ascending, disjoint edits rewrites the text as if
    all edits were applied at once to the original, reports for each edit the
    code units it removed from the original text, and costs one revision; an
    overlap throws and leaves the document alone. *)
Theorem apply_batch_refines d es :
  wf d -> es <> [] ->
  (overlapping es = true ->
     apply_batch d es = Throw "text_document::apply_batch: overlapping edits") /\
  (batch_ok 0 (zlen (text d)) es -> room_for d (batch_inserted es) ->
     exists d', apply_batch d es
         = Ret (d', batch_applied (text d) es,
                (fun kv => (kv.1, kv.2, batch_applied (text d) es)) <$> listeners_ d) /\
       wf d' /\ text d' = batch_text (text d) 0 es /\ revision_ d' = u32 (revision_ d + 1)).
Proof.
  intros H Hne. unfold apply_batch. destruct es as [|e es'] eqn:E; [done|]. rewrite <- E in *. clear E.
  split; [by intros ->|]. intros Hok Hr. pose proof (wf_text _ H).
  rewrite (batch_not_overlapping 0 (zlen (text d))) by (done || lia).
  destruct (apply_right_to_left_spec es d 0 H) as (d1 & -> & Hw1 & Et & _ & _ & Er & El); [lia|done|done|].
  rewrite bind_Ret. exists (set_revision d1 (u32 (revision_ d1 + 1))).
  unfold notify; simpl. rewrite Er, El. split; [done|]. split; [by apply wf_set_revision|]. done.
Qed.

(** * Lines *)

Lemma newlines_lookup_split k (t : list Z) i x :
  newlines k t !! i = Some x ->
  k <= x < k + zlen t /\ t !! Z.to_nat (x - k) = Some newline /\
  nl (ztake (x - k) t) = Z.of_nat i.
Proof.
  revert k i. induction t as [|c t IH]; intros k i; [done|]. cbn [newlines].
  destruct (Z.eqb_spec c newline) as [->|Hc].
  - destruct i as [|i]; cbn [lookup list_lookup].
    + intros [= ->]. rewrite Z.sub_diag. cbn [length]. split; [lia|]. done.
    + intros (? & Ht & Hn)%IH. cbn [length]. split; [lia|].
      replace (x - k) with (Z.succ (x - (k + 1))) by lia. unfold ztake in *.
      rewrite Z2Nat.inj_succ by lia. split; [done|]. cbn [take].
      change (newline :: take (Z.to_nat (x - (k + 1))) t) with ([newline] ++ take (Z.to_nat (x - (k + 1))) t).
      rewrite nl_app, Hn. change (nl [newline]) with 1. lia.
  - intros (? & Ht & Hn)%IH. cbn [length]. split; [lia|].
    replace (x - k) with (Z.succ (x - (k + 1))) by lia. unfold ztake in *.
    rewrite Z2Nat.inj_succ by lia. split; [done|]. cbn [take].
    change (c :: take (Z.to_nat (x - (k + 1))) t) with ([c] ++ take (Z.to_nat (x - (k + 1))) t).
    rewrite nl_app, Hn. unfold nl. simpl. destruct (Z.eqb_spec c newline); [done|]. simpl. lia.
Qed.

(** [line_to_offset] and [offset_to_line] are inverse on line starts:
    for every line of the document, the offset returned is the least one that
    [offset_to_line] maps to that line. *)
Lemma line_start_inverse d line :
  wf d -> 0 <= line < line_count d ->
  exists o, line_to_offset d line = Ret o /\ 0 <= o <= length_ d /\
    offset_to_line d o = Ret line /\
    (forall o', 0 <= o' < o -> exists l', offset_to_line d o' = Ret l' /\ l' < line).
Proof.
  intros H. rewrite (line_count_spec H), (length_spec H). intros Hl.
  rewrite (line_to_offset_spec H) by lia. unfold line_start.
  destruct (Z.eqb_spec line 0) as [->|].
  { exists 0. split; [done|]. split; [lia|]. rewrite (offset_to_line_spec H) by lia.
    split; [done|]. intros; lia. }
  destruct (lookup_lt_is_Some_2 (newlines 0 (text d)) (Z.to_nat (line - 1))) as [x Hx];
    [unfold nl in *; lia|].
  rewrite Hx. destruct (newlines_lookup_split _ _ _ _ Hx) as (Hb & Hc & Hn).
  rewrite Z.sub_0_r in *. exists (x + 1). split; [done|]. split; [lia|].
  rewrite (offset_to_line_spec H) by lia. split.
  - f_equal. unfold ztake in *. replace (Z.to_nat (x + 1)) with (S (Z.to_nat x)) by lia.
    rewrite (take_S_r _ _ _ Hc), nl_app, Hn. change (nl [newline]) with 1. lia.
  - intros o' Ho'. rewrite (offset_to_line_spec H) by lia. eexists. split; [done|].
    pose proof (nl_ztake_mono (text d) o' x). lia.
Qed.

(** * Search *)

(** [needle] occurs in [hay] at [j], up to [eq]. *)
Definition occurs (eq : Z -> Z -> bool) (hay needle : list Z) (j : Z) : Prop :=
  0 <= j /\ j + zlen needle <= zlen hay /\
  Forall2 (fun h c => eq h c = true) (zsub j (zlen needle) hay) needle.

Lemma matched_at_spec eq hay needle i : 0 <= i -> i + zlen needle <= zlen hay ->
  exists b, matched_at eq hay i needle = Ret b /\ (b = true <-> occurs eq hay needle i).
Proof.
  unfold occurs. revert i. induction needle as [|c needle IH]; intros i Hi Hb.
  - exists true. split; [done|]. split; [|done]. intros _. split; [lia|]. split; [done|].
    rewrite zsub_0. constructor.
  - cbn [length matched_at] in *. destruct (at_in_range hay i) as (h & -> & Hh); [lia|].
    rewrite bind_Ret. rewrite (zsub_split i (Z.of_nat (S (length needle))) 1) by lia.
    assert (zsub i 1 hay = [h]) as -> by (unfold zsub, ztake, zdrop; by rewrite (drop_S _ _ _ Hh)).
    replace (Z.of_nat (S (length needle)) - 1) with (zlen needle) by lia. cbn [app].
    destruct (IH (i + 1)) as (b & Eb & Hbb); [lia|lia|].
    destruct (eq h c) eqn:Eq.
    + exists b. split; [done|]. rewrite Hbb. rewrite Forall2_cons. naive_solver lia.
    + exists false. split; [done|]. rewrite Forall2_cons. split; [done|]. intros (_ & _ & ? & _). congruence.
Qed.

(** What a search reports from position [i] on: occurrences in ascending
    order that do not overlap, and every occurrence unless the limit cut the
    scan short. *)
Record search_result (eq : Z -> Z -> bool) (hay needle : list Z) (i limit : Z)
    (out : list Z) : Prop := {
  sr_sound : Forall (fun j => i <= j /\ occurs eq hay needle j) out;
  sr_disjoint : StronglySorted (fun j j' => j + zlen needle <= j') out;
  sr_limit : zlen out <= limit;
  sr_complete : zlen out < limit -> forall j, i <= j -> occurs eq hay needle j ->
    exists j', j' ∈ out /\ j' <= j < j' + zlen needle;
}.

Lemma search_loop_spec eq hay needle from fuel i found limit :
  needle <> [] -> 0 <= i -> (Z.to_nat (zlen hay - i) < fuel)%nat -> 0 <= found <= limit ->
  exists out, search_loop fuel eq hay needle from i found limit
      = Ret ((fun j => (u32 (from + j), u32 (from + j + zlen needle))) <$> out) /\
    search_result eq hay needle i (limit - found) out.
Proof.
  intros Hne. assert (Hn : 0 < zlen needle) by (destruct needle; simpl; [done|lia]).
  revert i found. induction fuel as [|fuel IH]; intros i found Hi Hf Hfound; [lia|].
  cbn [search_loop]. destruct (Z.leb_spec (i + zlen needle) (zlen hay)) as [Hin|Hout]; cbn [andb].
  2: { exists []. split; [done|]. split; [constructor|constructor|simpl; lia|].
       intros _ j Hj (? & ? & _). lia. }
  destruct (Z.ltb_spec found limit) as [Hlt|Hge]; cbn [andb].
  2: { exists []. split; [done|]. split; [constructor|constructor|simpl; lia|simpl; lia]. }
  destruct (matched_at_spec eq hay needle i Hi Hin) as (b & -> & Hb). rewrite bind_Ret.
  destruct b.
  - destruct (IH (i + zlen needle) (found + 1)) as (out & -> & [Hs Hd Hl Hc]); [lia|lia|lia|].
    rewrite bind_Ret. exists (i :: out). split; [done|]. split.
    + constructor; [split; [lia|by apply Hb]|].
      eapply Forall_impl; [exact Hs|]. intros j [? ?]. split; [lia|done].
    + constructor; [done|]. eapply Forall_impl; [exact Hs|]. intros j [? _]; simpl; lia.
    + cbn [length]. lia.
    + cbn [length]. intros Hlen j Hj Hocc. destruct (decide (j < i + zlen needle)).
      * exists i. split; [apply elem_of_cons; by left|lia].
      * destruct (Hc ltac:(lia) j ltac:(lia) Hocc) as (j' & ? & ?).
        exists j'. split; [apply elem_of_cons; by right|lia].
  - destruct (IH (i + 1) found) as (out & -> & [Hs Hd Hl Hc]); [lia|lia|lia|].
    exists out. split; [done|]. split; [|done|done|].
    + eapply Forall_impl; [exact Hs|]. intros j [? ?]. split; [lia|done].
    + intros Hlen j Hj Hocc. destruct (decide (j = i)) as [->|].
      * apply Hb in Hocc. done.
      * apply Hc; done || lia.
Qed.

(** [search_literal] returns the matches of a left-to-right scan: each
    reported range holds the needle (exactly, or up to ASCII case), ranges
    ascend without overlap, at most [limit] are reported, and when the limit
    is not reached no occurrence after [from] is missed. *)
Lemma search_literal_correct d needle from limit ci :
  wf d -> needle <> [] -> 0 <= from -> 0 <= limit ->
  exists out, search_literal d needle from limit ci
      = Ret ((fun j => (j, j + zlen needle)) <$> out) /\
    search_result (char_eq ci) (text d) needle from limit out.
Proof.
  intros H Hne Hfrom Hlim. unfold search_literal. destruct needle as [|c n] eqn:En; [done|].
  rewrite <- En in *. clear En. rewrite (length_spec H). pose proof (wf_text _ H) as Htl.
  assert (Hn : 0 < zlen needle) by (destruct needle; simpl; [done|lia]).
  assert (Hnone : zlen (text d) < from + zlen needle ->
    exists out, Ret [] = Ret ((fun j => (j, j + zlen needle)) <$> out) /\
      search_result (char_eq ci) (text d) needle from limit out).
  { intros. exists []. split; [done|]. split; [constructor|constructor|simpl; lia|].
    intros _ j ? (? & ? & _). lia. }
  destruct (Z.leb_spec (zlen (text d)) from); [apply Hnone; lia|].
  rewrite (slice_in_range H) by lia. rewrite bind_Ret.
  set (hay := zsub from (zlen (text d) - from) (text d)).
  assert (Hhay : zlen hay = zlen (text d) - from) by (apply zlen_zsub; lia).
  destruct (Z.ltb_spec (zlen hay) (zlen needle)); [apply Hnone; lia|].
  destruct (search_loop_spec (char_eq ci) hay needle from (S (length hay)) 0 0 limit)
    as (out & -> & [Hs Hd Hl Hc]); [done|lia|lia|lia|].
  assert (Hocc : forall j, occurs (char_eq ci) hay needle j -> occurs (char_eq ci) (text d) needle (from + j)).
  { intros j (? & ? & HF). split; [lia|]. split; [lia|]. unfold hay in HF.
    rewrite zsub_zsub in HF by lia. done. }
  exists (Z.add from <$> out). split; [|split].
  - f_equal. rewrite <- list_fmap_compose. apply list_fmap_ext. intros k j Hj.
    apply list_elem_of_lookup_2 in Hj. rewrite Forall_forall in Hs.
    destruct (Hs j Hj) as [? (? & ? & _)]. simpl. rewrite !u32_small by lia. done.
  - apply Forall_fmap. eapply Forall_impl; [exact Hs|]. intros j [? ?]; simpl. split; [lia|auto].
  - clear -Hd. induction Hd as [|j out Hd IH Hj]; simpl; constructor; [done|].
    apply Forall_fmap. eapply Forall_impl; [exact Hj|]. intros x Hx; simpl in *; lia.
  - rewrite length_fmap. lia.
  - rewrite length_fmap. intros Hlt j Hj (? & ? & HF).
    destruct (Hc ltac:(lia) (j - from)) as (j' & Hin & ?); [lia| |].
    + split; [lia|]. split; [lia|]. unfold hay. rewrite zsub_zsub by lia.
      by replace (from + (j - from)) with j by lia.
    + exists (from + j'). split; [by apply list_elem_of_fmap_2|lia].
Qed.
End Spec.

(** * Witnesses

    A document with three pieces: "ab\ncd\n" with "c" replaced by "X\n", and
    one listener. *)

Definition sample_edited : outcome (text_document unit) :=
  d ← make_document [97; 98; 10; 99; 100; 10];
  '(d, _, _) ← replace (subscribe d tt).1 3 4 [88; 10];
  Ret d.

Definition sample : text_document unit :=
  Eval vm_compute in (match sample_edited with Ret d => d | _ => empty_document end).

Example sample_is_edited : sample_edited = Ret sample.
Proof. vm_compute. reflexivity. Qed.

Example sample_text : text sample = [97; 98; 10; 88; 10; 100; 10].
Proof. vm_compute. reflexivity. Qed.

Lemma sample_wf : wf sample.
Proof.
  split.
  - repeat (apply Forall_cons; split; [repeat split; vm_compute; done|]). constructor.
  - vm_compute. done.
  - vm_compute. done.
  - vm_compute. done.
  - right. split; vm_compute; done.
Qed.

Lemma sample_room n : 0 <= n <= 1000 -> room_for sample n.
Proof.
  unfold room_for. change (zlen (add_buffer_ sample)) with 2.
  change (zlen (text sample)) with 7. lia.
Qed.

Lemma replace_refines_witness :
  (wf sample /\ room sample [33] /\ 0 <= 5 /\ 0 <= 1) /\
  exists d', replace sample 5 1 [33] = Ret (d', Edit 1 4 [98; 10; 88; 10] [33],
      [(1, tt, [Edit 1 4 [98; 10; 88; 10] [33]])]) /\
    wf d' /\ text d' = [97; 33; 100; 10] /\ revision_ d' = 2.
Proof.
  assert (Hr : room sample [33]) by (split; vm_compute; done).
  split; [split; [exact sample_wf|]; split; [exact Hr|lia]|].
  exact (replace_refines sample 5 1 [33] sample_wf Hr ltac:(lia) ltac:(lia)).
Defined.

Lemma replaces_simulate_splices_witness :
  exists d', run_replaces sample [(0, 0, [65]); (100, 2, [66; 67])] = Ret d' /\ wf d' /\
    text d' = [65; 97; 66; 67].
Proof.
  apply (replaces_simulate_splices [(0, 0, [65]); (100, 2, [66; 67])] sample sample_wf).
  - apply sample_room. vm_compute. split; discriminate.
  - repeat constructor; simpl; lia.
Defined.

Lemma replace_undo_witness :
  exists d'' ed' ns',
    replace (match replace sample 1 3 [65; 66] with Ret r => r.1.1 | _ => sample end) 1 3 [98; 10]
      = Ret (d'', ed', ns') /\ text d'' = text sample /\ deleted ed' = [65; 66].
Proof.
  apply (replace_undo sample (match replace sample 1 3 [65; 66] with Ret r => r.1.1 | _ => sample end)
           1 3 [65; 66] (Edit 1 2 [98; 10] [65; 66]) [(1, tt, [Edit 1 2 [98; 10] [65; 66]])] sample_wf);
    [lia|lia| |vm_compute; reflexivity].
  apply sample_room. vm_compute. split; discriminate.
Defined.

Lemma apply_batch_refines_witness :
  exists d', apply_batch sample [Edit 0 1 [] [65]; Edit 2 3 [] []; Edit 6 0 [] [66]]
    = Ret (d', [Edit 0 1 [97] [65]; Edit 2 3 [10; 88; 10] []; Edit 6 0 [] [66]],
        [(1, tt, [Edit 0 1 [97] [65]; Edit 2 3 [10; 88; 10] []; Edit 6 0 [] [66]])]) /\
    wf d' /\ text d' = [65; 98; 100; 66; 10] /\ revision_ d' = 2.
Proof.
  apply (apply_batch_refines sample [Edit 0 1 [] [65]; Edit 2 3 [] []; Edit 6 0 [] [66]] sample_wf
    ltac:(discriminate)).
  - vm_compute. repeat split; discriminate.
  - apply sample_room. vm_compute. split; discriminate.
Defined.

Lemma line_start_inverse_witness :
  exists o, line_to_offset sample 2 = Ret o /\ 0 <= o <= length_ sample /\
    offset_to_line sample o = Ret 2 /\
    (forall o', 0 <= o' < o -> exists l', offset_to_line sample o' = Ret l' /\ l' < 2).
Proof.
  apply (line_start_inverse sample 2 sample_wf). vm_compute. split; [discriminate|reflexivity].
Defined.

Lemma search_literal_correct_witness :
  exists out, search_literal sample [10] 1 2 false = Ret ((fun j => (j, j + 1)) <$> out) /\
    search_result (char_eq false) (text sample) [10] 1 2 out.
Proof.
  apply (search_literal_correct sample [10] 1 2 false sample_wf); [discriminate|lia|lia].
Defined.
