(* ===== verification/Cbor.v ===== *)
(** The CBOR codec of [src/runtime/cbor.cpp]: the value model, the canonical
    encoder, the recursive decoder and the three map lookups.

    The decoder's cursor is the list of bytes left; [read] returns it also when
    it fails, as the source's [cur] stays where the failure left it and the map
    branch reads an item after a key that failed.  [reserve] throws above the
    largest capacity the vector type can allocate, a parameter of the section. *)

From S2P Require Import Prelude.

(** * Values *)

Inductive key : Type :=
| KInt (n : Z)
| KUint (n : Z)
| KText (s : bytes)
| KBytes (b : bytes).

(** [VMap] is [std::map<std::string, value>] as its sorted entries, [VCmap] the
    vector of pairs. *)
Inductive value : Type :=
| VNull
| VBool (b : bool)
| VInt (n : Z)
| VUint (n : Z)
| VText (s : bytes)
| VBytes (b : bytes)
| VArray (items : list value)
| VMap (m : list (bytes * value))
| VCmap (m : list (key * value)).

Section ValueInd.
Variable P : value -> Prop.
Hypothesis HNull : P VNull.
Hypothesis HBool : forall b, P (VBool b).
Hypothesis HInt : forall n, P (VInt n).
Hypothesis HUint : forall n, P (VUint n).
Hypothesis HText : forall s, P (VText s).
Hypothesis HBytes : forall b, P (VBytes b).
Hypothesis HArray : forall items, Forall P items -> P (VArray items).
Hypothesis HMap : forall m, Forall (fun kv => P kv.2) m -> P (VMap m).
Hypothesis HCmap : forall m, Forall (fun kv => P kv.2) m -> P (VCmap m).

Fixpoint value_nested_ind (v : value) : P v :=
  match v with
  | VNull => HNull
  | VBool b => HBool b
  | VInt n => HInt n
  | VUint n => HUint n
  | VText s => HText s
  | VBytes b => HBytes b
  | VArray items =>
      HArray items ((fix go l : Forall P l :=
        match l with
        | [] => List.Forall_nil _
        | x :: l' => List.Forall_cons _ _ _ (value_nested_ind x) (go l')
        end) items)
  | VMap m =>
      HMap m ((fix go l : Forall (fun kv => P kv.2) l :=
        match l with
        | [] => List.Forall_nil _
        | x :: l' => List.Forall_cons _ _ _ (value_nested_ind x.2) (go l')
        end) m)
  | VCmap m =>
      HCmap m ((fix go l : Forall (fun kv => P kv.2) l :=
        match l with
        | [] => List.Forall_nil _
        | x :: l' => List.Forall_cons _ _ _ (value_nested_ind x.2) (go l')
        end) m)
  end.
End ValueInd.

(** * Encoder *)

(** The bytes [append_uint] appends. *)
Definition append_uint (major n : Z) : bytes :=
  let head := u8 (Z.shiftl major 5) in
  if n <=? 23 then [u8 (Z.lor head n)]
  else if n <=? 0xff then u8 (Z.lor head 24) :: be_bytes 1 n
  else if n <=? 0xffff then u8 (Z.lor head 25) :: be_bytes 2 n
  else if n <=? 0xffffffff then u8 (Z.lor head 26) :: be_bytes 4 n
  else u8 (Z.lor head 27) :: be_bytes 8 n.

Definition encode_int (n : Z) : bytes :=
  if 0 <=? n then append_uint 0 n else append_uint 1 (- (n + 1)).

Definition encode_key_into (k : key) : bytes :=
  match k with
  | KUint n => append_uint 0 n
  | KInt n => encode_int n
  | KText s => append_uint 3 (zlen s) ++ s
  | KBytes b => append_uint 2 (zlen b) ++ b
  end.

(** Shorter first, then lexicographic: [key_less] on encoded keys and the
    comparison of the text keys of a map. *)
Definition key_less (a b : bytes) : bool :=
  if negb (zlen a =? zlen b) then zlen a <? zlen b else bytes_lt a b.

Definition encode_decoded_key (v : value) : option (key * bytes) :=
  match v with
  | VInt n => Some (KInt n, encode_key_into (KInt n))
  | VUint n => Some (KUint n, encode_key_into (KUint n))
  | VText s => Some (KText s, encode_key_into (KText s))
  | VBytes b => Some (KBytes b, encode_key_into (KBytes b))
  | _ => None
  end.

Definition numeric_key_equals (candidate : key) (wanted : Z) : bool :=
  match candidate with
  | KInt n => n =? wanted
  | KUint n => (0 <=? wanted) && (n =? u64 wanted)
  | _ => false
  end.

Definition entry_less (a b : bytes * bytes) : bool := key_less a.1 b.1.

(** The bytes [encode_into] appends. *)
Fixpoint encode_into (v : value) : bytes :=
  match v with
  | VNull => [0xf6]
  | VBool b => [if b then 0xf5 else 0xf4]
  | VUint n => append_uint 0 n
  | VInt n => encode_int n
  | VText s => append_uint 3 (zlen s) ++ s
  | VBytes b => append_uint 2 (zlen b) ++ b
  | VArray items => append_uint 4 (zlen items) ++ concat (map encode_into items)
  | VMap m =>
      let items := stable_sort entry_less (map (fun kv => (kv.1, encode_into kv.2)) m) in
      append_uint 5 (zlen items) ++
      concat (map (fun e : bytes * bytes => append_uint 3 (zlen e.1) ++ e.1 ++ e.2) items)
  | VCmap m =>
      let items := stable_sort entry_less
                     (map (fun kv => (encode_key_into kv.1, encode_into kv.2)) m) in
      append_uint 5 (zlen items) ++ concat (map (fun e : bytes * bytes => e.1 ++ e.2) items)
  end.

Definition encode (v : value) : bytes := encode_into v.

(** * Decoder *)

Section Decoder.
(** The largest capacities [reserve] can provide for the array, the mixed map
    and the vector of seen keys. *)
Context (max_items max_pairs max_keys : Z).

Definition reserve (limit n : Z) : outcome unit :=
  if n <=? limit then Ret tt else Throw "reserve".

Definition read_width (w : nat) (cur : bytes) : option Z * bytes :=
  if (length cur <? w)%nat then (None, cur)
  else (Some (be_value (take w cur)), drop w cur).

Definition read_uint (ai : Z) (cur : bytes) : option Z * bytes :=
  if ai <=? 23 then (Some ai, cur)
  else if ai =? 24 then read_width 1 cur
  else if ai =? 25 then read_width 2 cur
  else if ai =? 26 then read_width 4 cur
  else if ai =? 27 then read_width 8 cur
  else (None, cur).

Notation result := (option value * bytes)%type.

(** The [major == 4] loop; every item takes a byte, so the bytes left bound the
    iterations that can succeed. *)
Fixpoint read_items (rd : bytes -> outcome result) (fuel : nat) (n : Z)
    (items : list value) (cur : bytes) : outcome result :=
  if n <=? 0 then Ret (Some (VArray items), cur)
  else
    match fuel with
    | O => OutOfFuel
    | S fuel' =>
        r ← rd cur;
        match r with
        | (None, cur') => Ret (None, cur')
        | (Some item, cur') => read_items rd fuel' (n - 1) (items ++ [item]) cur'
        end
    end.

(** The local state of the [major == 5] branch. *)
Record map_state := MkMapState {
  text_items : list (bytes * value);
  mixed_items : list (key * value);
  seen_keys : list bytes;
  all_text : bool }.

Definition empty_map_state : map_state := MkMapState [] [] [] true.

(** One iteration after both reads succeeded; [None] is [return nullopt]. *)
Definition add_pair (st : map_state) (parsed_key item : value) : option map_state :=
  match encode_decoded_key parsed_key with
  | None => None
  | Some (map_key, encoded_key) =>
      if existsb (fun seen => bool_decide (seen = encoded_key)) (seen_keys st) then None
      else
        let seen := seen_keys st ++ [encoded_key] in
        let mixed := mixed_items st ++ [(map_key, item)] in
        Some match parsed_key with
             | VText text => MkMapState (map_emplace text item (text_items st)) mixed seen (all_text st)
             | _ => MkMapState (text_items st) mixed seen false
             end
  end.

Definition finish_map (st : map_state) : value :=
  if all_text st then VMap (text_items st) else VCmap (mixed_items st).

Fixpoint read_pairs (rd : bytes -> outcome result) (fuel : nat) (n : Z)
    (st : map_state) (cur : bytes) : outcome result :=
  if n <=? 0 then Ret (Some (finish_map st), cur)
  else
    match fuel with
    | O => OutOfFuel
    | S fuel' =>
        k ← rd cur;
        r ← rd k.2;
        match k.1, r.1 with
        | Some parsed_key, Some item =>
            match add_pair st parsed_key item with
            | Some st' => read_pairs rd fuel' (n - 1) st' r.2
            | None => Ret (None, r.2)
            end
        | _, _ => Ret (None, r.2)
        end
    end.

Fixpoint read (fuel : nat) (cur : bytes) : outcome result :=
  match fuel with
  | O => OutOfFuel
  | S fuel' =>
      match cur with
      | [] => Ret (None, [])
      | head :: cur =>
          let major := u8 (Z.shiftr head 5) in
          let ai := u8 (Z.land head 0x1f) in
          if major <=? 1 then
            match read_uint ai cur with
            | (None, cur) => Ret (None, cur)
            | (Some n, cur) =>
                if major =? 0 then Ret (Some (VUint n), cur)
                else if 0x7fffffffffffffff <? n then Ret (None, cur)
                else Ret (Some (VInt (-1 - n)), cur)
            end
          else if (major =? 2) || (major =? 3) then
            match read_uint ai cur with
            | (None, cur) => Ret (None, cur)
            | (Some n, cur) =>
                if zlen cur <? n then Ret (None, cur)
                else if major =? 2 then Ret (Some (VBytes (ztake n cur)), zdrop n cur)
                else Ret (Some (VText (ztake n cur)), zdrop n cur)
            end
          else if major =? 4 then
            match read_uint ai cur with
            | (None, cur) => Ret (None, cur)
            | (Some n, cur) =>
                reserve max_items n;;
                read_items (read fuel') (S (length cur)) n [] cur
            end
          else if major =? 5 then
            match read_uint ai cur with
            | (None, cur) => Ret (None, cur)
            | (Some n, cur) =>
                reserve max_pairs n;;
                reserve max_keys n;;
                read_pairs (read fuel') (S (length cur)) n empty_map_state cur
            end
          else if major =? 7 then
            Ret (if ai =? 20 then Some (VBool false)
                 else if ai =? 21 then Some (VBool true)
                 else if ai =? 22 then Some VNull
                 else None, cur)
          else Ret (None, cur)
      end
  end.

Definition decode (data : bytes) : outcome (option value) :=
  r ← read (S (length data)) data;
  match r with
  | (Some v, []) => Ret (Some v)
  | _ => Ret None
  end.
End Decoder.

(** * Lookups *)

Fixpoint find_key (p : key -> bool) (m : list (key * value)) : option value :=
  match m with
  | [] => None
  | (map_key, item) :: m' => if p map_key then Some item else find_key p m'
  end.

Definition find_int (m : list (key * value)) (k : Z) : option value :=
  find_key (fun map_key => numeric_key_equals map_key k) m.

Definition find_text (m : list (key * value)) (k : bytes) : option value :=
  find_key (fun map_key => match map_key with KText t => bool_decide (t = k) | _ => false end) m.

Definition find_bytes (m : list (key * value)) (k : bytes) : option value :=
  find_key (fun map_key => match map_key with KBytes b => bool_decide (b = k) | _ => false end) m.

(** * Well-formed values and what a decoder makes of them *)

Definition uint64_ok (n : Z) : Prop := 0 <= n < 2 ^ 64.
Definition int64_ok (n : Z) : Prop := - 2 ^ 63 <= n < 2 ^ 63.
Definition octets_ok (s : bytes) : Prop := is_bytes s /\ zlen s < 2 ^ 64.

Definition key_ok (k : key) : Prop :=
  match k with
  | KInt n => int64_ok n
  | KUint n => uint64_ok n
  | KText s | KBytes s => octets_ok s
  end.

(** A non-negative [int64_t] is written as an unsigned integer, and is read back
    as a [uint64_t]. *)
Definition norm_key (k : key) : key :=
  match k with KInt n => if 0 <=? n then KUint n else KInt n | _ => k end.

Definition is_text (k : key) : bool := match k with KText _ => true | _ => false end.

Definition key_value (k : key) : value :=
  match k with
  | KInt n => VInt n
  | KUint n => VUint n
  | KText s => VText s
  | KBytes b => VBytes b
  end.

Definition text_entry (kv : key * value) : option (bytes * value) :=
  match kv.1 with KText s => Some (s, kv.2) | _ => None end.

(** The entries of a mixed map in the encoder's order. *)
Definition canonical (m : list (key * value)) : list (key * value) :=
  stable_sort (fun a b => key_less (encode_key_into a.1) (encode_key_into b.1)) m.

Definition read_as_map (m : list (key * value)) : value :=
  if forallb (fun kv => is_text kv.1) m then VMap (emplace_all (omap text_entry m) [])
  else VCmap m.

(** The value a decoder returns for the encoding of [v]. *)
Fixpoint norm (v : value) : value :=
  match v with
  | VInt n => if 0 <=? n then VUint n else VInt n
  | VArray items => VArray (map norm items)
  | VMap m => VMap (map (fun kv => (kv.1, norm kv.2)) m)
  | VCmap m => read_as_map (canonical (map (fun kv => (norm_key kv.1, norm kv.2)) m))
  | _ => v
  end.

Section Wf.
Context (max_items max_pairs max_keys : Z).

(** Values the types of the source can hold, in containers no larger than
    [reserve] can provide; the keys of a map are distinct. *)
Fixpoint wf (v : value) : Prop :=
  match v with
  | VNull | VBool _ => True
  | VInt n => int64_ok n
  | VUint n => uint64_ok n
  | VText s | VBytes s => octets_ok s
  | VArray items =>
      zlen items <= max_items /\ foldr (fun x rest => wf x /\ rest) True items
  | VMap m =>
      zlen m <= max_pairs /\ zlen m <= max_keys /\ map_sorted m /\
      foldr (fun kv rest => octets_ok kv.1 /\ wf kv.2 /\ rest) True m
  | VCmap m =>
      zlen m <= max_pairs /\ zlen m <= max_keys /\
      NoDup (encode_key_into <$> m.*1) /\
      foldr (fun kv rest => key_ok kv.1 /\ wf kv.2 /\ rest) True m
  end.
End Wf.

Lemma foldr_and_Forall {A} (P : A -> Prop) l :
  foldr (fun x rest => P x /\ rest) True l <-> Forall P l.
Proof. induction l; simpl; rewrite ?Forall_nil, ?Forall_cons; naive_solver. Qed.

Lemma foldr_and2_Forall {A} (P Q : A -> Prop) l :
  foldr (fun x rest => P x /\ Q x /\ rest) True l <-> Forall (fun x => P x /\ Q x) l.
Proof. induction l; simpl; rewrite ?Forall_nil, ?Forall_cons; naive_solver. Qed.

(** * Heads *)

Lemma head_byte major x : 0 <= major < 8 -> 0 <= x < 32 ->
  u8 (Z.lor (u8 (Z.shiftl major 5)) x) = major * 32 + x.
Proof.
  intros Hm Hx. rewrite (u8_small (Z.shiftl major 5)) by (rewrite Z.shiftl_mul_pow2; lia).
  rewrite lor_shiftl by lia. rewrite u8_small; lia.
Qed.

Lemma head_major major x : 0 <= major < 8 -> 0 <= x < 32 ->
  u8 (Z.shiftr (major * 32 + x) 5) = major.
Proof. intros. rewrite shiftr_div by lia. rewrite u8_small; dlia. Qed.

Lemma head_ai major x : 0 <= major < 8 -> 0 <= x < 32 ->
  u8 (Z.land (major * 32 + x) 0x1f) = x.
Proof.
  intros. change 0x1f with (Z.ones 5). rewrite land_ones_mod by lia. rewrite u8_small; dlia.
Qed.

Lemma read_width_be w n rest : 0 <= n < 2 ^ (8 * Z.of_nat w) ->
  read_width w (be_bytes w n ++ rest) = (Some n, rest).
Proof.
  intros Hn. unfold read_width. rewrite length_app, length_be_bytes.
  destruct (Nat.ltb_spec (w + length rest) w); [lia|].
  rewrite take_app_length' by by rewrite length_be_bytes.
  rewrite drop_app_length' by by rewrite length_be_bytes. by rewrite be_value_be_bytes.
Qed.

(** The head of an item and the argument read back from it. *)
Lemma append_uint_read major n : 0 <= major < 8 -> uint64_ok n ->
  exists ai tl, append_uint major n = major * 32 + ai :: tl /\ 0 <= ai < 32 /\
    forall rest, read_uint ai (tl ++ rest) = (Some n, rest).
Proof.
  intros Hm Hn. unfold uint64_ok in Hn. unfold append_uint.
  destruct (Z.leb_spec n 23).
  { exists n, []. rewrite head_byte by lia. repeat split; try lia. intros rest.
    unfold read_uint. destruct (Z.leb_spec n 23); [done|lia]. }
  rewrite !head_byte by lia.
  destruct (Z.leb_spec n 0xff); [|destruct (Z.leb_spec n 0xffff); [|destruct (Z.leb_spec n 0xffffffff)]];
    eexists _, _; (split; [reflexivity|split; [lia|]]); intros rest; cbn [read_uint Z.leb Z.eqb Z.compare Pos.compare Pos.compare_cont Pos.eqb];
    apply read_width_be; simpl; lia.
Qed.

Lemma append_uint_bytes major n : is_bytes (append_uint major n).
Proof.
  unfold append_uint. repeat case_match; repeat constructor; auto with fxe;
    try apply u8_byte; apply be_bytes_bytes.
Qed.

Lemma append_uint_nonempty major n : (1 <= length (append_uint major n))%nat.
Proof. unfold append_uint. repeat case_match; simpl; lia. Qed.

Section Read.
Context (max_items max_pairs max_keys : Z).
Notation read_ := (read max_items max_pairs max_keys).

Local Ltac read_head major n Hn :=
  let ai := fresh "ai" in let tl := fresh "tl" in let E := fresh "E" in
  let Hai := fresh "Hai" in let Hr := fresh "Hr" in
  destruct (append_uint_read major n) as (ai & tl & E & Hai & Hr); [lia|exact Hn|];
  rewrite E; cbn [app read];
  rewrite (head_major major ai), (head_ai major ai) by lia;
  cbn [Z.leb Z.eqb Z.compare Pos.compare Pos.compare_cont Pos.eqb orb];
  rewrite Hr.

Lemma read_append_0 f n rest : uint64_ok n ->
  read_ (S f) (append_uint 0 n ++ rest) = Ret (Some (VUint n), rest).
Proof. intros Hn. read_head 0 n Hn. done. Qed.

Lemma read_append_1 f n rest : 0 <= n < 2 ^ 63 ->
  read_ (S f) (append_uint 1 n ++ rest) = Ret (Some (VInt (-1 - n)), rest).
Proof.
  intros Hn. assert (Hn' : uint64_ok n) by (unfold uint64_ok; lia). read_head 1 n Hn'.
  destruct (Z.ltb_spec 0x7fffffffffffffff n); [lia|done].
Qed.

Lemma read_append_2 f s rest : zlen s < 2 ^ 64 ->
  read_ (S f) (append_uint 2 (zlen s) ++ s ++ rest) = Ret (Some (VBytes s), rest).
Proof.
  intros Hs. assert (Hn : uint64_ok (zlen s)) by (unfold uint64_ok; lia). read_head 2 (zlen s) Hn.
  rewrite length_app. destruct (Z.ltb_spec (Z.of_nat (length s + length rest)) (zlen s)); [lia|].
  by rewrite ztake_app_length, zdrop_app_length.
Qed.

Lemma read_append_3 f s rest : zlen s < 2 ^ 64 ->
  read_ (S f) (append_uint 3 (zlen s) ++ s ++ rest) = Ret (Some (VText s), rest).
Proof.
  intros Hs. assert (Hn : uint64_ok (zlen s)) by (unfold uint64_ok; lia). read_head 3 (zlen s) Hn.
  rewrite length_app. destruct (Z.ltb_spec (Z.of_nat (length s + length rest)) (zlen s)); [lia|].
  by rewrite ztake_app_length, zdrop_app_length.
Qed.

Lemma read_append_4 f n rest : uint64_ok n ->
  read_ (S f) (append_uint 4 n ++ rest) =
    (reserve max_items n;; read_items (read_ f) (S (length rest)) n [] rest).
Proof. intros Hn. read_head 4 n Hn. done. Qed.

Lemma read_append_5 f n rest : uint64_ok n ->
  read_ (S f) (append_uint 5 n ++ rest) =
    (reserve max_pairs n;; reserve max_keys n;;
     read_pairs (read_ f) (S (length rest)) n empty_map_state rest).
Proof. intros Hn. read_head 5 n Hn. done. Qed.
End Read.

Arguments read : simpl never.
Arguments append_uint : simpl never.
Arguments encode_int : simpl never.

(** * Keys *)

Lemma encode_int_read max_items max_pairs max_keys f n rest : int64_ok n ->
  read max_items max_pairs max_keys (S f) (encode_int n ++ rest)
  = Ret (Some (norm (VInt n)), rest).
Proof.
  unfold int64_ok, encode_int. intros Hn. simpl. destruct (Z.leb_spec 0 n).
  - rewrite read_append_0; [done|unfold uint64_ok; lia].
  - rewrite read_append_1 by lia. do 4 f_equal. lia.
Qed.

Lemma encode_int_nonempty n : (1 <= length (encode_int n))%nat.
Proof. unfold encode_int. case_match; apply append_uint_nonempty. Qed.

Lemma encode_key_nonempty k : (1 <= length (encode_key_into k))%nat.
Proof.
  destruct k; simpl; rewrite ?length_app; try apply append_uint_nonempty;
    try apply encode_int_nonempty;
    match goal with |- context [append_uint ?a ?b] => pose proof (append_uint_nonempty a b); lia end.
Qed.

Lemma read_key max_items max_pairs max_keys f k rest : key_ok k ->
  read max_items max_pairs max_keys (S f) (encode_key_into k ++ rest)
  = Ret (Some (key_value (norm_key k)), rest).
Proof.
  destruct k as [n|n|s|b]; simpl; intros Hk.
  - rewrite encode_int_read by done. simpl. by case_match.
  - by rewrite read_append_0.
  - rewrite <- app_assoc. rewrite read_append_3; [done|apply Hk].
  - rewrite <- app_assoc. rewrite read_append_2; [done|apply Hk].
Qed.

Lemma encode_norm_key k : encode_key_into (norm_key k) = encode_key_into k.
Proof.
  destruct k as [n| | |]; simpl; try done. unfold encode_int. destruct (Z.leb_spec 0 n); simpl; [done|].
  unfold encode_int. by destruct (Z.leb_spec 0 n); [lia|].
Qed.

Lemma encode_decoded_key_value k :
  encode_decoded_key (key_value k) = Some (k, encode_key_into k).
Proof. by destruct k. Qed.

Lemma is_text_norm_key k : is_text (norm_key k) = is_text k.
Proof. destruct k; simpl; try done. by case_match. Qed.

(** * The map loop *)

(** The state after pushing the (distinct) entries [l]. *)
Definition add_entries (st : map_state) (l : list (key * value)) : map_state :=
  MkMapState (emplace_all (omap text_entry l) (text_items st))
    (mixed_items st ++ l) (seen_keys st ++ (encode_key_into <$> l.*1))
    (all_text st && forallb (fun kv => is_text kv.1) l).

Lemma add_pair_fresh st k v : encode_key_into k ∉ seen_keys st ->
  add_pair st (key_value k) v = Some (add_entries st [(k, v)]).
Proof.
  intros Hk. unfold add_pair. rewrite encode_decoded_key_value.
  destruct (existsb _ _) eqn:E.
  { apply existsb_exists in E as (x & Hx & Hd). rewrite bool_decide_eq_true in Hd. subst x.
    by apply list_elem_of_In in Hx. }
  unfold add_entries. f_equal. destruct k; cbn; by rewrite ?andb_true_r, ?andb_false_r.
Qed.

Lemma add_entries_nil st : add_entries st [] = st.
Proof. destruct st. unfold add_entries. simpl. by rewrite !app_nil_r, andb_true_r. Qed.

Lemma add_entries_cons st kv l :
  add_entries (add_entries st [kv]) l = add_entries st (kv :: l).
Proof.
  unfold add_entries. destruct st as [t m s a], kv as [k v]. simpl.
  f_equal; [|by rewrite <- app_assoc|by rewrite <- app_assoc|].
  - unfold text_entry at 2 4. simpl. by destruct k.
  - by rewrite andb_true_r, andb_assoc.
Qed.

Lemma finish_add_entries l : finish_map (add_entries empty_map_state l) = read_as_map l.
Proof. reflexivity. Qed.

Section Loops.
Context (rd : bytes -> outcome (option value * bytes)).
Context (enc : value -> bytes).

(** The bytes of one pair. *)
Definition pair_bytes (kv : key * value) : bytes := encode_key_into kv.1 ++ enc kv.2.

Lemma read_items_spec bound l fuel acc rest :
  Forall (fun v => forall r, (length (enc v ++ r) <= bound)%nat ->
                             rd (enc v ++ r) = Ret (Some (norm v), r)) l ->
  (length l < fuel)%nat -> (length (concat (map enc l) ++ rest) <= bound)%nat ->
  read_items rd fuel (zlen l) acc (concat (map enc l) ++ rest)
  = Ret (Some (VArray (acc ++ map norm l)), rest).
Proof.
  intros H. revert fuel acc. induction H as [|v l Hv Hl IH]; intros fuel acc Hf Hb.
  { destruct fuel; simpl; by rewrite app_nil_r. }
  destruct fuel as [|fuel]; [simpl in Hf; lia|]. cbn [read_items map concat].
  cbn [length] in *. destruct (Z.leb_spec (Z.of_nat (S (length l))) 0); [lia|].
  cbn [map concat] in Hb. rewrite <- app_assoc in Hb |- *.
  rewrite Hv by done. cbn [mbind outcome_bind].
  replace (Z.of_nat (S (length l)) - 1) with (zlen l) by lia.
  rewrite IH; [by rewrite <- app_assoc|lia|]. rewrite length_app in Hb. lia.
Qed.

Lemma read_pairs_spec bound l fuel st rest :
  (forall k r, key_ok k -> rd (encode_key_into k ++ r) = Ret (Some (key_value (norm_key k)), r)) ->
  Forall (fun kv => key_ok kv.1 /\ forall r, (length (enc kv.2 ++ r) <= bound)%nat ->
                    rd (enc kv.2 ++ r) = Ret (Some (norm kv.2), r)) l ->
  NoDup (seen_keys st ++ (encode_key_into <$> l.*1)) ->
  (length l < fuel)%nat -> (length (concat (map pair_bytes l) ++ rest) <= bound)%nat ->
  read_pairs rd fuel (zlen l) st (concat (map pair_bytes l) ++ rest)
  = Ret (Some (finish_map (add_entries st (map (fun kv => (norm_key kv.1, norm kv.2)) l))), rest).
Proof.
  intros Hkey H. revert fuel st. induction H as [|[k v] l [Hk Hv] Hl IH]; intros fuel st Hnd Hf Hb.
  { simpl. rewrite add_entries_nil. by destruct fuel. }
  destruct fuel as [|fuel]; [simpl in Hf; lia|]. cbn [read_pairs map concat].
  cbn [length] in *. destruct (Z.leb_spec (Z.of_nat (S (length l))) 0); [lia|].
  cbn [map concat] in Hb. unfold pair_bytes at 1 in Hb. unfold pair_bytes at 1.
  cbn [fst snd] in *. rewrite <- !app_assoc in Hb |- *.
  rewrite Hkey by done. cbn [mbind outcome_bind fst snd].
  rewrite length_app in Hb. rewrite Hv by lia. cbn [mbind outcome_bind fst snd].
  rewrite length_app in Hb.
  rewrite !fmap_cons in Hnd. cbn [fst] in Hnd.
  rewrite add_pair_fresh.
  - replace (Z.of_nat (S (length l)) - 1) with (zlen l) by lia.
    rewrite IH; [by rewrite add_entries_cons| |lia|lia].
    cbn. rewrite <- app_assoc, encode_norm_key. done.
  - rewrite encode_norm_key. apply NoDup_app in Hnd as (_ & Hd & _).
    intros Hin. apply (Hd _ Hin). apply elem_of_cons. by left.
Qed.
End Loops.

(** * Maps as their canonical list of pairs *)

Definition text_pairs (m : list (bytes * value)) : list (key * value) :=
  (fun kv => (KText kv.1, kv.2)) <$> stable_sort (fun a b => key_less a.1 b.1) m.

Lemma encode_map_pairs m : encode_into (VMap m) =
  append_uint 5 (zlen m) ++ concat (map (pair_bytes encode_into) (text_pairs m)).
Proof.
  cbn [encode_into]. rewrite length_stable_sort, length_map. f_equal. f_equal.
  change (map (fun kv => (kv.1, encode_into kv.2)) m)
    with ((fun kv : bytes * value => (kv.1, encode_into kv.2)) <$> m).
  rewrite (stable_sort_fmap (fun a b => key_less a.1 b.1) entry_less) by done.
  unfold text_pairs. rewrite !List.map_map. apply map_ext. intros [k v].
  unfold pair_bytes. simpl. by rewrite <- app_assoc.
Qed.

Lemma encode_cmap_pairs m : encode_into (VCmap m) =
  append_uint 5 (zlen m) ++ concat (map (pair_bytes encode_into) (canonical m)).
Proof.
  cbn [encode_into]. rewrite length_stable_sort, length_map. f_equal. f_equal.
  change (map (fun kv => (encode_key_into kv.1, encode_into kv.2)) m)
    with ((fun kv : key * value => (encode_key_into kv.1, encode_into kv.2)) <$> m).
  rewrite (stable_sort_fmap (fun a b => key_less (encode_key_into a.1) (encode_key_into b.1)) entry_less) by done.
  rewrite List.map_map. done.
Qed.

Lemma canonical_norm m :
  canonical (map (fun kv => (norm_key kv.1, norm kv.2)) m)
  = map (fun kv => (norm_key kv.1, norm kv.2)) (canonical m).
Proof.
  unfold canonical.
  apply (stable_sort_fmap _ _ (fun kv : key * value => (norm_key kv.1, norm kv.2))).
  intros [] []. simpl. by rewrite !encode_norm_key.
Qed.

Lemma all_text_pairs {A} (f : A -> value) (m : list (bytes * A)) :
  forallb (fun kv => is_text kv.1) ((fun kv => (KText kv.1, f kv.2)) <$> m) = true.
Proof. induction m; simpl; auto. Qed.

Lemma omap_text_pairs {A} (f : A -> value) (m : list (bytes * A)) :
  omap text_entry ((fun kv => (KText kv.1, f kv.2)) <$> m) = (fun kv => (kv.1, f kv.2)) <$> m.
Proof. induction m as [|[] m IH]; simpl; [done|]. by f_equal. Qed.

Lemma map_sorted_fmap {A B} (f : A -> B) (m : list (bytes * A)) :
  map_sorted m -> map_sorted ((fun kv => (kv.1, f kv.2)) <$> m).
Proof.
  unfold map_sorted. induction 1 as [|x l Hl IH Hx]; simpl; constructor; [done|].
  by apply Forall_fmap.
Qed.

Lemma read_text_pairs m : map_sorted m ->
  read_as_map (map (fun kv => (norm_key kv.1, norm kv.2)) (text_pairs m)) = norm (VMap m).
Proof.
  intros Hm. unfold text_pairs.
  change (map ?f (?g <$> ?l)) with (f <$> (g <$> l)). rewrite <- list_fmap_compose.
  change ((fun kv => (norm_key kv.1, norm kv.2)) ∘ (fun kv : bytes * value => (KText kv.1, kv.2)))
    with (fun kv : bytes * value => (KText kv.1, norm kv.2)).
  unfold read_as_map. rewrite all_text_pairs, omap_text_pairs. cbn [norm]. f_equal.
  apply emplace_all_rebuild.
  - by apply (map_sorted_fmap norm).
  - change (map (fun kv => (kv.1, norm kv.2)) m)
      with ((fun kv : bytes * value => (kv.1, norm kv.2)) <$> m).
    apply fmap_Permutation, stable_sort_perm.
Qed.

Lemma text_pairs_keys m : (encode_key_into <$> (text_pairs m).*1)
  ≡ₚ (fun k => encode_key_into (KText k)) <$> m.*1.
Proof.
  unfold text_pairs. rewrite <- !list_fmap_compose.
  change (encode_key_into ∘ @fst key value ∘ (fun kv : bytes * value => (KText kv.1, kv.2)))
    with ((fun k => encode_key_into (KText k)) ∘ @fst bytes value).
  apply fmap_Permutation, stable_sort_perm.
Qed.

Lemma encode_text_inj a b : zlen a < 2 ^ 64 -> zlen b < 2 ^ 64 ->
  encode_key_into (KText a) = encode_key_into (KText b) -> a = b.
Proof.
  intros Ha Hb H. cbn [encode_key_into] in H.
  assert (E : forall s, zlen s < 2 ^ 64 ->
     read 0 0 0 1 (append_uint 3 (zlen s) ++ s) = Ret (Some (VText s), [])).
  { intros s Hs. pose proof (read_append_3 0 0 0 0 s [] Hs) as E. by rewrite app_nil_r in E. }
  pose proof (E a Ha) as E1. pose proof (E b Hb) as E2. rewrite H in E1. congruence.
Qed.

Lemma NoDup_text_keys (m : list (bytes * value)) : map_sorted m -> Forall (fun kv => octets_ok kv.1) m ->
  NoDup ((fun k => encode_key_into (KText k)) <$> m.*1).
Proof.
  intros Hm Hok. pose proof (map_sorted_NoDup _ Hm) as Hnd.
  apply NoDup_fmap_2_strong; [|done]. intros a b Ha Hb H.
  rewrite Forall_forall in Hok.
  apply list_elem_of_fmap in Ha as (x & -> & Hx). apply list_elem_of_fmap in Hb as (y & -> & Hy).
  apply encode_text_inj; [apply Hok| apply Hok|]; done.
Qed.

Section Roundtrip.
Context (max_items max_pairs max_keys : Z).
Context (Hitems : max_items < 2 ^ 64) (Hpairs : max_pairs < 2 ^ 64).
Notation read_ := (read max_items max_pairs max_keys).
Notation wf_ := (wf max_items max_pairs max_keys).

Lemma encode_nonempty v : (1 <= length (encode_into v))%nat.
Proof.
  destruct v; simpl; rewrite ?length_app; try lia; try apply append_uint_nonempty;
    try apply encode_int_nonempty;
    match goal with |- context [append_uint ?a ?b] => pose proof (append_uint_nonempty a b); lia end.
Qed.

Lemma concat_length_ge {A} (f : A -> bytes) l : (forall x, (1 <= length (f x))%nat) ->
  (length l <= length (concat (map f l)))%nat.
Proof.
  intros H. induction l as [|x l IH]; simpl; [lia|]. rewrite length_app. specialize (H x). lia.
Qed.

Lemma pair_bytes_nonempty kv : (1 <= length (pair_bytes encode_into kv))%nat.
Proof.
  unfold pair_bytes. rewrite length_app. pose proof (encode_key_nonempty kv.1). lia.
Qed.

(** Reading the head and the pairs of a map. *)
Lemma read_map f n l rest : zlen l = n -> 0 <= n <= max_pairs -> n <= max_keys ->
  Forall (fun kv => key_ok kv.1 /\ forall f r, (length (encode_into kv.2 ++ r) < f)%nat ->
            read_ f (encode_into kv.2 ++ r) = Ret (Some (norm kv.2), r)) l ->
  NoDup (encode_key_into <$> l.*1) ->
  (length (append_uint 5 n ++ concat (map (pair_bytes encode_into) l) ++ rest) < f)%nat ->
  read_ f (append_uint 5 n ++ concat (map (pair_bytes encode_into) l) ++ rest)
  = Ret (Some (read_as_map (map (fun kv => (norm_key kv.1, norm kv.2)) l)), rest).
Proof.
  intros <- Hn Hk Hl Hnd Hf. destruct f as [|f]; [lia|].
  rewrite read_append_5 by (unfold uint64_ok; lia).
  unfold reserve. destruct (Z.leb_spec (zlen l) max_pairs); [|lia].
  destruct (Z.leb_spec (zlen l) max_keys); [|lia]. cbn [mbind outcome_bind].
  rewrite length_app in Hf. pose proof (append_uint_nonempty 5 (zlen l)) as H1.
  destruct f as [|f]; [lia|].
  rewrite (read_pairs_spec _ _ f).
  - by rewrite finish_add_entries.
  - intros k r Hkk. by apply read_key.
  - eapply Forall_impl; [exact Hl|]. intros [k v] [Hkk Hv]. split; [done|].
    intros r Hr. apply Hv. simpl in *. lia.
  - done.
  - rewrite length_app. pose proof (concat_length_ge (pair_bytes encode_into) l pair_bytes_nonempty). lia.
  - lia.
Qed.

Lemma read_encode v : wf_ v -> forall f rest, (length (encode_into v ++ rest) < f)%nat ->
  read_ f (encode_into v ++ rest) = Ret (Some (norm v), rest).
Proof.
  induction v as [|b|n|n|s|b|items IH|m IH|m IH] using value_nested_ind; intros Hwf f rest Hf;
    (destruct f as [|f]; [lia|]).
  - done.
  - by destruct b.
  - by apply encode_int_read.
  - by apply read_append_0.
  - cbn [encode_into]. rewrite <- app_assoc. apply read_append_3, Hwf.
  - cbn [encode_into]. rewrite <- app_assoc. apply read_append_2, Hwf.
  - cbn [wf] in Hwf. destruct Hwf as [Hn Hall]. rewrite foldr_and_Forall in Hall.
    cbn [encode_into norm] in *. rewrite <- app_assoc in Hf |- *.
    rewrite read_append_4 by (unfold uint64_ok; lia). unfold reserve.
    destruct (Z.leb_spec (zlen items) max_items); [|lia]. cbn [mbind outcome_bind].
    rewrite length_app in Hf. pose proof (append_uint_nonempty 4 (zlen items)) as H1.
    destruct f as [|f]; [lia|].
    rewrite (read_items_spec _ _ f); [done| | |lia].
    + rewrite Forall_forall in IH, Hall |- *. intros v Hv r Hr. apply IH; [done|by apply Hall|lia].
    + rewrite length_app. pose proof (concat_length_ge encode_into items encode_nonempty). lia.
  - cbn [wf] in Hwf. destruct Hwf as (Hp & Hk & Hm & Hall). rewrite foldr_and2_Forall in Hall.
    rewrite encode_map_pairs in Hf |- *. rewrite <- app_assoc in Hf |- *.
    rewrite <- read_text_pairs by done. apply read_map; try done; try lia.
    + unfold text_pairs. by rewrite length_fmap, length_stable_sort.
    + apply Forall_forall. intros kv Hkv. unfold text_pairs in Hkv.
      apply list_elem_of_fmap in Hkv as ([k v] & -> & Hin). simpl.
      rewrite list_elem_of_In, stable_sort_perm, <- list_elem_of_In in Hin.
      rewrite Forall_forall in IH, Hall. destruct (Hall _ Hin) as [Hko Hvo]. split; [exact Hko|].
      intros g r Hg. by apply (IH _ Hin).
    + rewrite text_pairs_keys. apply NoDup_text_keys; [done|].
      eapply Forall_impl; [exact Hall|]. naive_solver.
  - cbn [wf] in Hwf. destruct Hwf as (Hp & Hk & Hnd & Hall). rewrite foldr_and2_Forall in Hall.
    rewrite encode_cmap_pairs in Hf |- *. rewrite <- app_assoc in Hf |- *.
    cbn [norm]. rewrite canonical_norm. apply read_map; try done; try lia.
    + unfold canonical. by rewrite length_stable_sort.
    + apply Forall_forall. intros [k v] Hin. unfold canonical in Hin.
      rewrite list_elem_of_In, stable_sort_perm, <- list_elem_of_In in Hin.
      rewrite Forall_forall in IH, Hall. destruct (Hall _ Hin) as [Hko Hvo]. split; [exact Hko|].
      intros g r Hg. by apply (IH _ Hin).
    + unfold canonical. by rewrite stable_sort_perm.
Qed.
End Roundtrip.

(** * The canonical order *)

Lemma key_less_asym a b : key_less a b = true -> key_less b a = false.
Proof.
  unfold key_less. destruct (Z.eqb_spec (zlen a) (zlen b)) as [E|E].
  - rewrite E, Z.eqb_refl. apply bytes_lt_asym.
  - destruct (Z.eqb_spec (zlen b) (zlen a)); [lia|]. simpl.
    intros ?%Z.ltb_lt. apply Z.ltb_ge. lia.
Qed.

Lemma key_less_total a b : key_less a b = false -> key_less b a = false -> a = b.
Proof.
  unfold key_less. destruct (Z.eqb_spec (zlen a) (zlen b)) as [E|E].
  - rewrite E, Z.eqb_refl. apply bytes_lt_total.
  - destruct (Z.eqb_spec (zlen b) (zlen a)); [lia|]. simpl.
    intros ?%Z.ltb_ge ?%Z.ltb_ge. lia.
Qed.

Lemma key_less_neg_trans a b c :
  key_less b a = false -> key_less c b = false -> key_less c a = false.
Proof.
  intros H1 H2. destruct (key_less c a) eqn:E; [|done].
  destruct (key_less a b) eqn:E1.
  - assert (key_less c b = true) as H; [|congruence]. revert E E1. unfold key_less.
    destruct (Z.eqb_spec (zlen c) (zlen a)), (Z.eqb_spec (zlen a) (zlen b)),
      (Z.eqb_spec (zlen c) (zlen b)); simpl; rewrite ?Z.ltb_lt; try lia.
    apply bytes_lt_trans.
  - pose proof (key_less_total _ _ E1 H1). subst b. congruence.
Qed.

(** Encoding text keys preserves the order: a longer text has a longer
    encoding. *)
Lemma append_uint_length_mono major n m : 0 <= n < m ->
  (length (append_uint major n) + Z.to_nat n < length (append_uint major m) + Z.to_nat m)%nat.
Proof.
  intros H. unfold append_uint.
  destruct (Z.leb_spec n 23), (Z.leb_spec n 0xff), (Z.leb_spec n 0xffff), (Z.leb_spec n 0xffffffff),
    (Z.leb_spec m 23), (Z.leb_spec m 0xff), (Z.leb_spec m 0xffff), (Z.leb_spec m 0xffffffff);
    cbn [length]; rewrite ?length_be_bytes; lia.
Qed.

Lemma bytes_lt_prefix p a b : bytes_lt (p ++ a) (p ++ b) = bytes_lt a b.
Proof. induction p as [|x p IH]; simpl; [done|]. by rewrite Z.ltb_irrefl. Qed.

Lemma key_less_text a b :
  key_less (encode_key_into (KText a)) (encode_key_into (KText b)) = key_less a b.
Proof.
  cbn [encode_key_into]. unfold key_less. rewrite !length_app.
  destruct (Z.eqb_spec (zlen a) (zlen b)) as [E|E].
  - rewrite E. replace (length b) with (length a) by lia. rewrite Z.eqb_refl. simpl.
    apply bytes_lt_prefix.
  - destruct (Z.ltb_spec (zlen a) (zlen b)).
    + pose proof (append_uint_length_mono 3 (zlen a) (zlen b) ltac:(lia)).
      destruct (Z.eqb_spec (Z.of_nat (length (append_uint 3 (zlen a)) + length a))
                           (Z.of_nat (length (append_uint 3 (zlen b)) + length b))); [lia|].
      apply Z.ltb_lt. lia.
    + pose proof (append_uint_length_mono 3 (zlen b) (zlen a) ltac:(lia)).
      destruct (Z.eqb_spec (Z.of_nat (length (append_uint 3 (zlen a)) + length a))
                           (Z.of_nat (length (append_uint 3 (zlen b)) + length b))); [lia|].
      apply Z.ltb_ge. lia.
Qed.

Lemma text_pairs_canonical m :
  text_pairs m = canonical ((fun kv => (KText kv.1, kv.2)) <$> m).
Proof.
  unfold text_pairs, canonical. symmetry. apply stable_sort_fmap.
  intros [a ?] [b ?]. apply key_less_text.
Qed.

Lemma canonical_sorted m : StronglySorted
  (not_less (fun a b : key * value => key_less (encode_key_into a.1) (encode_key_into b.1))) (canonical m).
Proof.
  apply stable_sort_sorted.
  - intros a b. apply key_less_asym.
  - intros a b c. apply key_less_neg_trans.
Qed.

(** Maps with the same entries are encoded the same, whatever their order. *)
Lemma canonical_perm m m' : m ≡ₚ m' -> NoDup (encode_key_into <$> m.*1) -> canonical m = canonical m'.
Proof.
  intros Hp Hnd. assert (Hc : canonical m ≡ₚ m) by apply stable_sort_perm.
  apply (StronglySorted_unique_strong
    (not_less (fun a b : key * value => key_less (encode_key_into a.1) (encode_key_into b.1))));
    [|apply canonical_sorted|apply canonical_sorted|].
  - unfold not_less. intros a b Ha Hb H1 H2.
    rewrite list_elem_of_In, Hc, <- list_elem_of_In in Ha.
    assert (Hc' : canonical m' ≡ₚ m) by (unfold canonical; rewrite stable_sort_perm; by symmetry).
    rewrite list_elem_of_In, Hc', <- list_elem_of_In in Hb.
    pose proof (key_less_total _ _ H2 H1) as E.
    apply list_elem_of_lookup_1 in Ha as [i Hi]. apply list_elem_of_lookup_1 in Hb as [j Hj].
    rewrite <- list_fmap_compose in Hnd.
    assert (i = j) as ->; [|congruence].
    apply (NoDup_lookup _ _ _ (encode_key_into a.1) Hnd); rewrite list_lookup_fmap, ?Hi, ?Hj; simpl; congruence.
  - unfold canonical. by rewrite !stable_sort_perm.
Qed.

Lemma encode_cmap_perm m m' : m ≡ₚ m' -> NoDup (encode_key_into <$> m.*1) ->
  encode_into (VCmap m) = encode_into (VCmap m').
Proof. intros Hp Hnd. rewrite !encode_cmap_pairs. rewrite (canonical_perm m m') by done. by rewrite Hp. Qed.

Lemma canonical_keys m : (encode_key_into <$> (canonical m).*1) ≡ₚ encode_key_into <$> m.*1.
Proof. unfold canonical. by rewrite stable_sort_perm. Qed.

Lemma norm_keys m :
  encode_key_into <$> (map (fun kv => (norm_key kv.1, norm kv.2)) m).*1 = encode_key_into <$> m.*1.
Proof. induction m as [|[k v] m IH]; simpl; [done|]. by rewrite encode_norm_key; f_equal. Qed.

Lemma all_text_shape (l : list (key * value)) : forallb (fun kv => is_text kv.1) l = true ->
  l = (fun kv => (KText kv.1, kv.2)) <$> omap text_entry l.
Proof.
  induction l as [|[k v] l IH]; simpl; [done|]. intros [Hk Hl]%andb_true_iff.
  destruct k; try done. cbn. f_equal. by apply IH.
Qed.

(** Reading distinct pairs back as a map value does not change the encoding. *)
Lemma encode_read_as_map l : NoDup (encode_key_into <$> l.*1) ->
  encode_into (read_as_map l) = encode_into (VCmap l).
Proof.
  intros Hnd. unfold read_as_map. destruct (forallb _ l) eqn:E; [|done].
  pose proof (all_text_shape l E) as Hl. set (t := omap text_entry l) in *.
  assert (Hp : emplace_all t [] ≡ₚ t).
  { rewrite emplace_all_perm; rewrite app_nil_r; [done|].
    rewrite Hl, <- !list_fmap_compose in Hnd. apply (NoDup_fmap_1 (fun k => encode_key_into (KText k))).
    by rewrite <- list_fmap_compose. }
  rewrite encode_map_pairs, encode_cmap_pairs, text_pairs_canonical.
  rewrite (canonical_perm l ((fun kv => (KText kv.1, kv.2)) <$> emplace_all t [])); [|by rewrite Hp, <- Hl|done].
  pose proof (f_equal length Hl) as Hlen. rewrite length_fmap in Hlen.
  by rewrite (Permutation_length Hp), Hlen.
Qed.

Section Canonical.
Context (max_items max_pairs max_keys : Z).
Notation wf_ := (wf max_items max_pairs max_keys).

Lemma encode_norm v : wf_ v -> encode_into (norm v) = encode_into v.
Proof.
  induction v as [|b|n|n|s|b|items IH|m IH|m IH] using value_nested_ind; intros Hwf; try done.
  - cbn [norm encode_into]. unfold encode_int. destruct (Z.leb_spec 0 n); [done|].
    cbn [encode_into]. unfold encode_int. destruct (Z.leb_spec 0 n); [lia|done].
  - cbn [wf] in Hwf. destruct Hwf as [_ Hall]. rewrite foldr_and_Forall in Hall.
    cbn [norm encode_into]. rewrite length_map, List.map_map. f_equal. f_equal.
    apply map_ext_Forall. rewrite Forall_forall in IH, Hall |- *. intros x Hx. apply IH; auto.
  - cbn [wf] in Hwf. destruct Hwf as (_ & _ & _ & Hall). rewrite foldr_and2_Forall in Hall.
    cbn [norm encode_into]. rewrite !length_stable_sort, !length_map, !List.map_map. cbn [fst snd].
    rewrite (map_ext_Forall (fun kv => (kv.1, encode_into (norm kv.2)))
      (fun kv => (kv.1, encode_into kv.2))); [done|]. rewrite Forall_forall in IH, Hall |- *.
    intros kv Hkv. cbn beta. rewrite IH; [done|done|]. by apply Hall.
  - cbn [wf] in Hwf. destruct Hwf as (_ & _ & Hnd & Hall). rewrite foldr_and2_Forall in Hall.
    cbn [norm]. rewrite encode_read_as_map by by rewrite canonical_keys, norm_keys.
    transitivity (encode_into (VCmap (map (fun kv => (norm_key kv.1, norm kv.2)) m))).
    { apply encode_cmap_perm; [apply stable_sort_perm|]. by rewrite canonical_keys, norm_keys. }
    cbn [encode_into]. rewrite !length_stable_sort, !length_map, !List.map_map. cbn [fst snd].
    rewrite (map_ext_Forall (fun kv => (encode_key_into (norm_key kv.1), encode_into (norm kv.2)))
      (fun kv => (encode_key_into kv.1, encode_into kv.2))); [done|]. rewrite Forall_forall in IH, Hall |- *.
    intros kv Hkv. cbn beta. rewrite encode_norm_key. rewrite IH; [done|done|]. by apply Hall.
Qed.
End Canonical.

(** * Decoding arbitrary bytes *)

Section Total.
Context (max_items max_pairs max_keys : Z).
Notation read_ := (read max_items max_pairs max_keys).
Notation wf_ := (wf max_items max_pairs max_keys).

(** [bytes]-only state of the cursor. *)
Definition cursor_ok (cur : bytes) : Prop := is_bytes cur /\ zlen cur < 2 ^ 64.

(** What one read promises when at most [n] bytes may be left after it. *)
Definition post (n : nat) (r : outcome (option value * bytes)) : Prop :=
  match r with
  | Ret (o, cur') => cursor_ok cur' /\ (length cur' <= n)%nat /\
      match o with Some v => wf_ v /\ (length cur' < n)%nat | None => True end
  | Throw w => w = "reserve"%string /\
      (max_items < 2 ^ 64 - 1 \/ max_pairs < 2 ^ 64 - 1 \/ max_keys < 2 ^ 64 - 1)
  | _ => False
  end.

Lemma post_weaken n m r : (n <= m)%nat -> post n r -> post m r.
Proof.
  intros Hnm. destruct r as [[[v|] c]| | |]; simpl; try done.
  - intros (Hc & ? & ? & ?). split_and!; try done; lia.
  - intros (Hc & ? & _). split_and!; try done; lia.
Qed.

Lemma post_None n cur : cursor_ok cur -> (length cur <= n)%nat -> post n (Ret (None, cur)).
Proof. simpl. auto. Qed.

Lemma post_Some n v cur : cursor_ok cur -> (length cur < n)%nat -> wf_ v ->
  post n (Ret (Some v, cur)).
Proof. simpl. intros. split_and!; try done; lia. Qed.

Lemma cursor_ok_drop n cur : cursor_ok cur -> cursor_ok (drop n cur).
Proof.
  intros [H Hl]. split; [by apply Forall_drop|]. rewrite length_drop. lia.
Qed.

Lemma read_width_post w cur : cursor_ok cur -> (w <= 8)%nat ->
  let '(o, cur') := read_width w cur in
  cursor_ok cur' /\ (length cur' <= length cur)%nat /\
  match o with Some n => uint64_ok n | None => True end.
Proof.
  intros Hc Hw. unfold read_width. destruct (Nat.ltb_spec (length cur) w); [auto|].
  split; [by apply cursor_ok_drop|]. rewrite length_drop. split; [lia|].
  pose proof (be_value_bound (take w cur) ltac:(by apply Forall_take; apply Hc)) as B.
  rewrite length_take_le in B by lia. unfold uint64_ok.
  assert (2 ^ (8 * Z.of_nat w) <= 2 ^ 64) by (apply Z.pow_le_mono_r; lia). lia.
Qed.

Lemma read_uint_post ai cur : cursor_ok cur -> 0 <= ai < 256 ->
  let '(o, cur') := read_uint ai cur in
  cursor_ok cur' /\ (length cur' <= length cur)%nat /\
  match o with Some n => uint64_ok n | None => True end.
Proof.
  intros Hc Hai. unfold read_uint. destruct (Z.leb_spec ai 23).
  { unfold uint64_ok. split; [done|]. split; lia. }
  destruct (ai =? 24); [apply read_width_post; [done|lia]|].
  destruct (ai =? 25); [apply read_width_post; [done|lia]|].
  destruct (ai =? 26); [apply read_width_post; [done|lia]|].
  destruct (ai =? 27); [apply read_width_post; [done|lia]|]. auto.
Qed.

Lemma reserve_post n m limit (k : outcome (option value * bytes)) : uint64_ok m ->
  limit = max_items \/ limit = max_pairs \/ limit = max_keys ->
  (m <= limit -> post n k) -> post n (reserve limit m;; k).
Proof.
  unfold uint64_ok, reserve. intros Hm Hl Hk. destruct (Z.leb_spec m limit); simpl; [auto|].
  split; [done|]. destruct Hl as [->|[->| ->]]; lia.
Qed.

Section Loop.
Context (rd : bytes -> outcome (option value * bytes)) (bound : nat).
Context (Hrd : forall cur, cursor_ok cur -> (length cur <= bound)%nat -> post (length cur) (rd cur)).

Lemma read_items_post fuel n items cur : cursor_ok cur -> (length cur <= bound)%nat ->
  (length cur < fuel)%nat -> zlen items + Z.max 0 n <= max_items -> Forall wf_ items ->
  post (S (length cur)) (read_items rd fuel n items cur).
Proof.
  revert n items cur. induction fuel as [|fuel IH]; intros n items cur Hc Hb Hf Hn Hw; [lia|].
  cbn [read_items]. destruct (Z.leb_spec n 0).
  { apply post_Some; [done|lia|]. cbn [wf]. rewrite foldr_and_Forall. split; [lia|done]. }
  specialize (Hrd cur Hc Hb). destruct (rd cur) as [[[v|] c]| | |]; try done.
  - cbn [mbind outcome_bind]. destruct Hrd as (Hc' & ? & Hv & Hlt).
    apply (post_weaken (S (length c))); [lia|]. apply IH; [done|lia|lia| |].
    + rewrite length_app. simpl. lia.
    + apply Forall_app. auto.
  - destruct Hrd as (Hc' & ? & _). apply post_None; [done|lia].
Qed.

(** Invariant of the map loop with [n] pairs still to read. *)
Definition map_state_ok (n : Z) (st : map_state) : Prop :=
  map_sorted (text_items st) /\
  Forall (fun kv => octets_ok kv.1 /\ wf_ kv.2) (text_items st) /\
  Forall (fun kv => key_ok kv.1 /\ wf_ kv.2) (mixed_items st) /\
  seen_keys st = encode_key_into <$> (mixed_items st).*1 /\
  NoDup (seen_keys st) /\
  zlen (text_items st) <= zlen (mixed_items st) /\
  zlen (mixed_items st) + Z.max 0 n <= max_pairs /\
  zlen (mixed_items st) + Z.max 0 n <= max_keys.

Lemma encode_decoded_key_ok v k e : encode_decoded_key v = Some (k, e) -> wf_ v ->
  e = encode_key_into k /\ key_ok k.
Proof. destruct v; intros [= <- <-]; auto. Qed.

Lemma map_emplace_length {V} k (v : V) m : (length (map_emplace k v m) <= S (length m))%nat.
Proof. induction m as [|[k' v'] m IH]; simpl; [lia|]. repeat case_match; simpl; lia. Qed.

Lemma add_pair_ok n st k v st' : 0 < n -> map_state_ok n st -> wf_ k -> wf_ v ->
  add_pair st k v = Some st' -> map_state_ok (n - 1) st'.
Proof.
  intros Hn (Hs & Ht & Hm & Hseen & Hnd & Hlt & Hp & Hk) Hwk Hwv. unfold add_pair.
  destruct (encode_decoded_key k) as [[mk ek]|] eqn:E; [|done].
  destruct (encode_decoded_key_ok _ _ _ E Hwk) as [-> Hmk].
  destruct (existsb _ _) eqn:Ex; [done|].
  assert (Hfresh : encode_key_into mk ∉ seen_keys st).
  { intros Hin. apply list_elem_of_In in Hin.
    assert (existsb (fun seen => bool_decide (seen = encode_key_into mk)) (seen_keys st) = true); [|congruence].
    apply existsb_exists. eexists. split; [exact Hin|]. by apply bool_decide_eq_true. }
  assert (Hmix : Forall (fun kv => key_ok kv.1 /\ wf_ kv.2) (mixed_items st ++ [(mk, v)])).
  { apply Forall_app. split; [done|]. by repeat constructor. }
  assert (Hsk : seen_keys st ++ [encode_key_into mk] = encode_key_into <$> (mixed_items st ++ [(mk, v)]).*1).
  { rewrite Hseen, !fmap_app. done. }
  assert (Hnd' : NoDup (seen_keys st ++ [encode_key_into mk])).
  { apply NoDup_app. split; [done|]. split; [|apply NoDup_singleton].
    intros x Hx ->%list_elem_of_singleton. done. }
  assert (Hlen : zlen (mixed_items st ++ [(mk, v)]) = zlen (mixed_items st) + 1)
    by (rewrite length_app; simpl; lia).
  assert (Hd : zlen (mixed_items st) + 1 + Z.max 0 (n - 1) = zlen (mixed_items st) + Z.max 0 n) by lia.
  intros [= <-]. destruct k; try done; unfold map_state_ok;
    cbn [text_items mixed_items seen_keys all_text]; rewrite Hlen, Hd; (repeat split); try done; try lia.
  - by apply map_emplace_sorted.
  - apply Forall_forall. intros x [->|Hx]%map_emplace_elem; [by split|].
    rewrite Forall_forall in Ht. auto.
  - pose proof (map_emplace_length s v (text_items st)). lia.
Qed.

Lemma finish_map_ok st : map_state_ok 0 st -> wf_ (finish_map st).
Proof.
  intros (Hs & Ht & Hm & Hseen & Hnd & Hlt & Hp & Hk). unfold finish_map.
  destruct (all_text st); cbn [wf]; rewrite foldr_and2_Forall.
  - split; [lia|]. split; [lia|]. done.
  - rewrite <- Hseen. split; [lia|]. split; [lia|]. done.
Qed.

Lemma map_state_ok_le n st : n <= 0 -> map_state_ok n st -> map_state_ok 0 st.
Proof. intros Hn (? & ? & ? & ? & ? & ? & ? & ?). repeat split; try done; lia. Qed.

Lemma read_pairs_post fuel n st cur : cursor_ok cur -> (length cur <= bound)%nat ->
  (length cur < fuel)%nat -> map_state_ok n st ->
  post (S (length cur)) (read_pairs rd fuel n st cur).
Proof.
  revert n st cur. induction fuel as [|fuel IH]; intros n st cur Hc Hb Hf Hst; [lia|].
  cbn [read_pairs]. destruct (Z.leb_spec n 0).
  { apply post_Some; [done|lia|]. apply finish_map_ok. by eapply map_state_ok_le. }
  pose proof (Hrd cur Hc Hb) as H1. destruct (rd cur) as [[o1 c1]| | |]; try done.
  cbn [mbind outcome_bind fst snd]. destruct H1 as (Hc1 & Hl1 & Hk1).
  pose proof (Hrd c1 Hc1 ltac:(lia)) as H2. destruct (rd c1) as [[o2 c2]| | |]; try done.
  cbn [mbind outcome_bind fst snd]. destruct H2 as (Hc2 & Hl2 & Hk2).
  destruct o1 as [k|], o2 as [v|]; try (apply post_None; [done|lia]).
  destruct (add_pair st k v) as [st'|] eqn:E; [|apply post_None; [done|lia]].
  apply (post_weaken (S (length c2))); [lia|]. apply IH; [done|lia|lia|].
  eapply add_pair_ok; [..|exact E]; [lia|done|apply Hk1|apply Hk2].
Qed.
End Loop.

Lemma head_fields head : is_byte head ->
  0 <= u8 (Z.shiftr head 5) < 8 /\ 0 <= u8 (Z.land head 0x1f) < 32.
Proof.
  intros Hh. unfold is_byte in Hh. rewrite shiftr_div by lia. change 0x1f with (Z.ones 5).
  rewrite land_ones_mod by lia. rewrite !u8_small by dlia. dlia.
Qed.

Lemma read_post f cur : cursor_ok cur -> (length cur < f)%nat -> post (length cur) (read_ f cur).
Proof.
  revert cur. induction f as [|f IH]; intros cur Hc Hf; [lia|].
  destruct cur as [|head cur]; [by apply post_None|].
  assert (Hh : is_byte head) by (destruct Hc as [Hc _]; by inversion Hc).
  assert (Hc1 : cursor_ok cur).
  { destruct Hc as [Hb Hl]. inversion Hb; subst. split; [done|]. cbn [length] in Hl. lia. }
  cbn [length] in *. destruct (head_fields head Hh) as [Hmaj Hai].
  unfold read; fold read. cbv zeta.
  set (major := u8 (Z.shiftr head 5)) in *. set (ai := u8 (Z.land head 0x1f)) in *.
  pose proof (read_uint_post ai cur Hc1 ltac:(lia)) as Hu.
  destruct (read_uint ai cur) as [o c]. destruct Hu as (Hc2 & Hl & Hn).
  destruct (Z.leb_spec major 1).
  { destruct o as [n|]; [|apply post_None; [done|lia]]. unfold uint64_ok in Hn.
    destruct (Z.eqb_spec major 0); [apply post_Some; [done|lia|exact Hn]|].
    destruct (Z.ltb_spec 0x7fffffffffffffff n); [apply post_None; [done|lia]|].
    apply post_Some; [done|lia|]. cbn [wf]. unfold int64_ok. lia. }
  destruct (orb _ _).
  { destruct o as [n|]; [|apply post_None; [done|lia]]. unfold uint64_ok in Hn.
    destruct (Z.ltb_spec (zlen c) n); [apply post_None; [done|lia]|].
    assert (Hd : cursor_ok (zdrop n c)) by (by apply cursor_ok_drop).
    assert (Hld : (length (zdrop n c) < S (length cur))%nat) by (unfold zdrop; rewrite length_drop; lia).
    assert (Ho : octets_ok (ztake n c)).
    { split; [apply Forall_take; apply Hc2|]. rewrite zlen_ztake by lia. lia. }
    destruct (major =? 2); by apply post_Some. }
  destruct (major =? 4).
  { destruct o as [n|]; [|apply post_None; [done|lia]].
    apply reserve_post; [done|auto|]. intros Hr. unfold uint64_ok in Hn.
    apply (post_weaken (S (length c))); [lia|].
    apply (read_items_post _ (length c)); [|done|lia|lia| |constructor].
    - intros c' Hc' Hb. apply IH; [done|lia].
    - simpl. lia. }
  destruct (major =? 5).
  { destruct o as [n|]; [|apply post_None; [done|lia]].
    apply reserve_post; [done|auto|]. intros Hr. apply reserve_post; [done|auto|]. intros Hr2.
    unfold uint64_ok in Hn. apply (post_weaken (S (length c))); [lia|].
    apply (read_pairs_post _ (length c)); [|done|lia|lia|].
    - intros c' Hc' Hb. apply IH; [done|lia].
    - repeat split; simpl; try constructor; lia. }
  destruct (major =? 7); [|apply post_None; [done|lia]].
  repeat case_match; try (apply post_None; [done|lia]); (apply post_Some; [done|lia|done]).
Qed.
End Total.

(** * Lookups agree with the encoder's notion of key *)

Lemma encode_key_inj a b : key_ok a -> key_ok b ->
  encode_key_into a = encode_key_into b -> norm_key a = norm_key b.
Proof.
  intros Ha Hb H. pose proof (read_key 0 0 0 0 a [] Ha) as E1.
  pose proof (read_key 0 0 0 0 b [] Hb) as E2. rewrite H in E1.
  assert (E : key_value (norm_key a) = key_value (norm_key b)) by congruence.
  destruct (norm_key a), (norm_key b); simpl in E; congruence.
Qed.

Lemma norm_key_encode a b : norm_key a = norm_key b -> encode_key_into a = encode_key_into b.
Proof. intros H. by rewrite <- (encode_norm_key a), <- (encode_norm_key b), H. Qed.

Lemma numeric_key_equals_spec k n : key_ok k -> int64_ok n ->
  numeric_key_equals k n = true <-> encode_key_into k = encode_key_into (KInt n).
Proof.
  intros Hk Hn. transitivity (norm_key k = norm_key (KInt n)).
  2: { split; [apply norm_key_encode|by apply encode_key_inj]. }
  unfold int64_ok in Hn. destruct k as [m|m|s|s]; simpl in *.
  - rewrite Z.eqb_eq. destruct (Z.leb_spec 0 m), (Z.leb_spec 0 n); split; intros H1;
      simplify_eq; try done; lia.
  - unfold uint64_ok in Hk. rewrite andb_true_iff, Z.leb_le, Z.eqb_eq.
    destruct (Z.leb_spec 0 n).
    + rewrite u64_small by lia. split; [intros [_ ->]; done|]. intros [= ->]. done.
    + split; [lia|done].
  - destruct (Z.leb_spec 0 n); done.
  - destruct (Z.leb_spec 0 n); done.
Qed.

Definition text_key_equals (s : bytes) (k : key) : bool :=
  match k with KText t => bool_decide (t = s) | _ => false end.
Definition bytes_key_equals (s : bytes) (k : key) : bool :=
  match k with KBytes t => bool_decide (t = s) | _ => false end.

(** A key test that does not distinguish keys with the same encoding, and holds
    of one encoding at most. *)
Definition key_test (p : key -> bool) : Prop :=
  (forall a, p (norm_key a) = p a) /\
  forall a b, key_ok a -> key_ok b -> p a = true -> p b = true -> encode_key_into a = encode_key_into b.

Lemma text_key_test s : key_test (text_key_equals s).
Proof.
  split.
  - intros [n| | |]; simpl; try done. by destruct (0 <=? n).
  - intros [] [] _ _; simpl; try done. intros ->%bool_decide_eq_true ->%bool_decide_eq_true. done.
Qed.

Lemma bytes_key_test s : key_test (bytes_key_equals s).
Proof.
  split.
  - intros [n| | |]; simpl; try done. by destruct (0 <=? n).
  - intros [] [] _ _; simpl; try done. intros ->%bool_decide_eq_true ->%bool_decide_eq_true. done.
Qed.

Lemma numeric_key_test n : int64_ok n -> key_test (fun k => numeric_key_equals k n).
Proof.
  intros Hn. unfold int64_ok in Hn. split.
  - intros [m| | |]; simpl; try done. destruct (Z.leb_spec 0 m); [|done]. simpl.
    destruct (Z.leb_spec 0 n); simpl; [by rewrite u64_small by lia|].
    symmetry. apply Z.eqb_neq. lia.
  - intros a b Ha Hb. rewrite !numeric_key_equals_spec by done. congruence.
Qed.

Lemma find_key_elem p m v : find_key p m = Some v -> exists k, (k, v) ∈ m /\ p k = true.
Proof.
  induction m as [|[k w] m IH]; simpl; [done|]. destruct (p k) eqn:E.
  - intros [= ->]. exists k. split; [apply elem_of_cons; by left|done].
  - intros (k' & ? & ?)%IH. exists k'. split; [apply elem_of_cons; by right|done].
Qed.

Lemma find_key_None p m : find_key p m = None <-> forall k v, (k, v) ∈ m -> p k = false.
Proof.
  induction m as [|[k w] m IH]; simpl.
  - split; [|done]. intros _ ?? []%elem_of_nil.
  - destruct (p k) eqn:E; split.
    + done.
    + intros H. rewrite (H k w) in E; [done|apply elem_of_cons; by left].
    + intros H k' v' [[= -> ->]|Hin]%elem_of_cons; [done|]. by eapply IH.
    + intros H. apply IH. intros k' v' Hin. apply (H k' v'). apply elem_of_cons. by right.
Qed.

(** The entries satisfying a key test do not depend on the order. *)
Lemma find_key_perm p m m' : m ≡ₚ m' -> key_test p ->
  NoDup (encode_key_into <$> m.*1) -> Forall (fun kv => key_ok kv.1) m ->
  find_key p m = find_key p m'.
Proof.
  intros Hp [_ Ht] Hnd Hok. destruct (find_key p m) as [v|] eqn:E1, (find_key p m') as [v'|] eqn:E2.
  - apply find_key_elem in E1 as (k & Hk & Hpk). apply find_key_elem in E2 as (k' & Hk' & Hpk').
    rewrite list_elem_of_In, <- Hp, <- list_elem_of_In in Hk'. rewrite Forall_forall in Hok.
    pose proof (Ht k k' (Hok _ Hk) (Hok _ Hk') Hpk Hpk') as E.
    apply list_elem_of_lookup_1 in Hk as [i Hi]. apply list_elem_of_lookup_1 in Hk' as [j Hj].
    rewrite <- list_fmap_compose in Hnd. assert (i = j) as ->; [|congruence].
    apply (NoDup_lookup _ _ _ (encode_key_into k) Hnd); rewrite list_lookup_fmap, ?Hi, ?Hj; simpl; congruence.
  - exfalso. apply find_key_elem in E1 as (k & Hk & Hpk).
    rewrite list_elem_of_In, Hp, <- list_elem_of_In in Hk.
    pose proof (proj1 (find_key_None p m') E2 _ _ Hk). congruence.
  - exfalso. apply find_key_elem in E2 as (k & Hk & Hpk).
    rewrite list_elem_of_In, <- Hp, <- list_elem_of_In in Hk.
    pose proof (proj1 (find_key_None p m) E1 _ _ Hk). congruence.
  - done.
Qed.

Lemma find_key_norm p m : key_test p ->
  find_key p (map (fun kv => (norm_key kv.1, norm kv.2)) m) = norm <$> find_key p m.
Proof.
  intros [Hn _]. induction m as [|[k v] m IH]; simpl; [done|]. rewrite Hn. by destruct (p k).
Qed.

Lemma find_key_canonical p m : key_test p -> NoDup (encode_key_into <$> m.*1) ->
  Forall (fun kv => key_ok kv.1) m ->
  find_key p (canonical (map (fun kv => (norm_key kv.1, norm kv.2)) m)) = norm <$> find_key p m.
Proof.
  intros Ht Hnd Hok. rewrite canonical_norm, find_key_norm by done. f_equal. symmetry.
  apply find_key_perm; try done. symmetry. apply stable_sort_perm.
Qed.

(** * Prefixes

    A read that succeeds does not look past the bytes it consumes. *)

Lemma read_width_frame w cur n c r :
  read_width w cur = (Some n, c) -> read_width w (cur ++ r) = (Some n, c ++ r).
Proof.
  unfold read_width. rewrite length_app. destruct (Nat.ltb_spec (length cur) w); [done|].
  destruct (Nat.ltb_spec (length cur + length r) w); [lia|]. intros [= <- <-].
  rewrite take_app_le, drop_app_le by lia. done.
Qed.

Lemma read_uint_frame ai cur n c r :
  read_uint ai cur = (Some n, c) -> read_uint ai (cur ++ r) = (Some n, c ++ r).
Proof.
  unfold read_uint. destruct (ai <=? 23); [by intros [= <- <-]|].
  destruct (ai =? 24); [apply read_width_frame|]. destruct (ai =? 25); [apply read_width_frame|].
  destruct (ai =? 26); [apply read_width_frame|]. destruct (ai =? 27); [apply read_width_frame|]. done.
Qed.

Section Frame.
Context (rd rd' : bytes -> outcome (option value * bytes)).
Context (Hrd : forall cur v c r, rd cur = Ret (Some v, c) -> rd' (cur ++ r) = Ret (Some v, c ++ r)).

Lemma read_items_frame fuel fuel' n items cur v c r : (fuel <= fuel')%nat ->
  read_items rd fuel n items cur = Ret (Some v, c) ->
  read_items rd' fuel' n items (cur ++ r) = Ret (Some v, c ++ r).
Proof.
  revert fuel' n items cur. induction fuel as [|fuel IH]; intros fuel' n items cur Hf;
    destruct fuel' as [|fuel']; try lia; cbn [read_items]; destruct (n <=? 0); try done;
    try (by intros [= <- <-]).
  intros H. apply bind_inv in H as ([[item|] c1] & E & H); [|done].
  rewrite (Hrd _ _ _ r E). cbn [mbind outcome_bind]. apply IH; [lia|done].
Qed.

Lemma read_pairs_frame fuel fuel' n st cur v c r : (fuel <= fuel')%nat ->
  read_pairs rd fuel n st cur = Ret (Some v, c) ->
  read_pairs rd' fuel' n st (cur ++ r) = Ret (Some v, c ++ r).
Proof.
  revert fuel' n st cur. induction fuel as [|fuel IH]; intros fuel' n st cur Hf;
    destruct fuel' as [|fuel']; try lia; cbn [read_pairs]; destruct (n <=? 0); try done;
    try (by intros [= <- <-]).
  intros H. apply bind_inv in H as ([o1 c1] & E1 & H). cbn [fst snd] in H.
  apply bind_inv in H as ([o2 c2] & E2 & H). cbn [fst snd] in H.
  destruct o1 as [k|], o2 as [i|]; try done.
  rewrite (Hrd _ _ _ r E1). cbn [mbind outcome_bind fst snd].
  rewrite (Hrd _ _ _ r E2). cbn [mbind outcome_bind fst snd].
  destruct (add_pair st k i); [|done]. apply IH; [lia|done].
Qed.
End Frame.

Lemma reserve_inv {A} limit n (k : outcome A) a :
  (reserve limit n;; k) = Ret a -> reserve limit n = Ret tt /\ k = Ret a.
Proof. unfold reserve. by destruct (n <=? limit). Qed.

Lemma read_frame max_items max_pairs max_keys f f' cur v c r : (f <= f')%nat ->
  read max_items max_pairs max_keys f cur = Ret (Some v, c) ->
  read max_items max_pairs max_keys f' (cur ++ r) = Ret (Some v, c ++ r).
Proof.
  revert f' cur v c r. induction f as [|f IH]; intros f' cur v c r Hf; [done|].
  destruct f' as [|f']; [lia|]. assert (Hf' : (f <= f')%nat) by lia.
  destruct cur as [|head cur]; [done|]. cbn [app]. unfold read; fold read. cbv zeta.
  set (major := u8 (Z.shiftr head 5)). set (ai := u8 (Z.land head 0x1f)).
  pose proof (read_uint_frame ai cur) as Hu.
  destruct (read_uint ai cur) as [[n|] c0]; [specialize (Hu n c0 r eq_refl); rewrite Hu; clear Hu|clear Hu].
  - destruct (major <=? 1).
    { destruct (major =? 0); [by intros [= <- <-]|]. destruct (0x7fffffffffffffff <? n); [done|].
      by intros [= <- <-]. }
    destruct (orb _ _).
    { rewrite length_app. destruct (Z.ltb_spec (zlen c0) n); [done|].
      destruct (Z.ltb_spec (Z.of_nat (length c0 + length r)) n); [lia|].
      rewrite ztake_app_l, zdrop_app_l by lia.
      destruct (major =? 2); by intros [= <- <-]. }
    destruct (major =? 4).
    { intros [Hr H]%reserve_inv. rewrite Hr. cbn [mbind outcome_bind].
      eapply read_items_frame; [|rewrite length_app; apply le_n_S, Nat.le_add_r|exact H].
      intros. by apply (IH f'). }
    destruct (major =? 5).
    { intros [Hr H]%reserve_inv. apply reserve_inv in H as [Hr2 H]. rewrite Hr, Hr2.
      cbn [mbind outcome_bind].
      eapply read_pairs_frame; [|rewrite length_app; apply le_n_S, Nat.le_add_r|exact H].
      intros. by apply (IH f'). }
    destruct (major =? 7); [|done].
    repeat case_match; try done; by intros [= <- <-].
  - destruct (major <=? 1); [done|]. destruct (orb _ _); [done|]. destruct (major =? 4); [done|].
    destruct (major =? 5); [done|]. destruct (major =? 7); [|done].
    repeat case_match; try done; by intros [= <- <-].
Qed.

(** No proper prefix of an encoding decodes: an encoding says where it ends. *)
Lemma decode_proper_prefix max_items max_pairs max_keys v n w :
  max_items < 2 ^ 64 -> max_pairs < 2 ^ 64 -> wf max_items max_pairs max_keys v ->
  (n < length (encode v))%nat ->
  decode max_items max_pairs max_keys (take n (encode v)) <> Ret (Some w).
Proof.
  intros Hi Hp Hv Hn H. unfold decode in H. apply bind_inv in H as ([[u|] [|]] & E & H); try done.
  apply (read_frame _ _ _ _ (S (length (encode v))) _ _ _ (drop n (encode v))) in E;
    [|rewrite length_take; lia].
  rewrite take_drop in E. pose proof (read_encode _ _ _ Hi Hp v Hv (S (length (encode v))) []) as R.
  rewrite app_nil_r in R. unfold encode in *. rewrite R in E by lia. simpl in E.
  injection E as _ Hd. apply (f_equal length) in Hd. rewrite length_drop in Hd. simpl in Hd. lia.
Qed.

Lemma decode_encode max_items max_pairs max_keys v : max_items < 2 ^ 64 -> max_pairs < 2 ^ 64 ->
  wf max_items max_pairs max_keys v ->
  decode max_items max_pairs max_keys (encode v) = Ret (Some (norm v)).
Proof.
  intros Hi Hp Hv. unfold decode, encode. rewrite <- (app_nil_r (encode_into v)).
  by rewrite (read_encode _ _ _ Hi Hp v Hv) by lia.
Qed.

Lemma decode_wf max_items max_pairs max_keys data v : is_bytes data -> zlen data < 2 ^ 64 ->
  decode max_items max_pairs max_keys data = Ret (Some v) -> wf max_items max_pairs max_keys v.
Proof.
  intros Hb Hl E. unfold decode in E. apply bind_inv in E as ([[w|] [|]] & E & H); try done.
  injection H as ->.
  pose proof (read_post max_items max_pairs max_keys (S (length data)) data (conj Hb Hl) ltac:(lia)) as P.
  rewrite E in P. apply P.
Qed.

(** What decoding any byte string can do. *)
Lemma map_find_wf {max_items max_pairs max_keys} m k v :
  wf max_items max_pairs max_keys (VMap m) -> map_find k m = Some v -> wf max_items max_pairs max_keys v.
Proof.
  intros (_ & _ & _ & H) E%map_find_elem. rewrite foldr_and2_Forall in H. rewrite Forall_forall in H.
  apply (H _ E).
Qed.

Lemma decode_cases max_items max_pairs max_keys data : is_bytes data -> zlen data < 2 ^ 64 ->
  decode max_items max_pairs max_keys data = Throw "reserve" \/
  exists r, decode max_items max_pairs max_keys data = Ret r /\
    forall v, r = Some v -> wf max_items max_pairs max_keys v.
Proof.
  intros Hb Hl. destruct (decode max_items max_pairs max_keys data) as [r|w| |] eqn:E.
  1: { right. exists r. split; [done|]. intros v ->. by eapply decode_wf. }
  all: unfold decode in E;
    pose proof (read_post max_items max_pairs max_keys (S (length data)) data (conj Hb Hl) ltac:(lia)) as H;
    destruct (read _ _ _ _ data) as [[[v|] c]| | |]; simpl in *; try done; try (by destruct c).
  left. injection E as <-. by destruct H as [-> _].
Qed.

(** * Properties *)

Section Properties.
Context (max_items max_pairs max_keys : Z).
Context (Hitems : max_items < 2 ^ 64) (Hpairs : max_pairs < 2 ^ 64).
Notation wf_ := (wf max_items max_pairs max_keys).
Notation decode_ := (decode max_items max_pairs max_keys).

(** C3. Decoding the encoding of a well-formed value returns that value, up to
    the representation the decoder picks: non-negative signed integers come back
    unsigned, pairs come back in canonical order, and a mixed map whose keys are
    all text comes back as a text map. *)
Theorem cbor_roundtrip v : wf_ v -> decode_ (encode v) = Ret (Some (norm v)).
Proof. by apply decode_encode. Qed.

(** C4. The encoding is canonical: a value and what a decoder makes of it have
    the same bytes, so that re-encoding a decoded message reproduces it and two
    maps with the same entries encode the same in any order and whichever map
    type holds them. *)
Theorem cbor_canonical v : wf_ v ->
  decode_ (encode v) = Ret (Some (norm v)) /\ encode (norm v) = encode v /\
  match v with
  | VCmap m => forall m', m' ≡ₚ m -> encode (VCmap m') = encode v
  | VMap m => encode (VCmap ((fun kv => (KText kv.1, kv.2)) <$> m)) = encode v
  | _ => True
  end.
Proof.
  intros Hv. split; [|split].
  - by apply decode_encode.
  - by apply (encode_norm max_items max_pairs max_keys).
  - destruct v as [| | | | | | |m|m]; try done.
    + unfold encode. rewrite encode_map_pairs, encode_cmap_pairs, text_pairs_canonical.
      by rewrite length_fmap.
    + intros m' Hp. cbn [wf] in Hv. symmetry. apply encode_cmap_perm; [by symmetry|apply Hv].
Qed.

(** C5. Decoding any byte string terminates without reading outside it; a value
    it returns is well formed (integers in their types' range, maps sorted,
    keys distinct), and it throws only from [reserve], when a declared count
    exceeds what the vectors can hold. *)
Theorem cbor_decode_total data : is_bytes data -> zlen data < 2 ^ 64 ->
  match decode_ data with
  | Ret (Some v) => wf_ v
  | Ret None => True
  | Throw w => w = "reserve"%string /\
      (max_items < 2 ^ 64 - 1 \/ max_pairs < 2 ^ 64 - 1 \/ max_keys < 2 ^ 64 - 1)
  | Ub | OutOfFuel => False
  end.
Proof.
  intros Hb Hl. unfold decode.
  pose proof (read_post max_items max_pairs max_keys (S (length data)) data (conj Hb Hl) ltac:(lia)) as H.
  destruct (read _ _ _ _ data) as [[[v|] c]| | |]; simpl in *; try done.
  destruct c; [|done]. apply H.
Qed.

(** Lookups in a decoded map find what the encoded map held: for a map with
    a key that is not text, [find] by integer, by text and by byte string on the
    decoded pairs return the (decoded) value stored under the key with the same
    encoding, and nothing when there is none. *)
Lemma cbor_find_decoded m : wf_ (VCmap m) -> forallb (fun kv => is_text kv.1) m = false ->
  exists m', decode_ (encode (VCmap m)) = Ret (Some (VCmap m')) /\
    (forall n, int64_ok n -> find_int m' n = norm <$> find_int m n) /\
    (forall s, find_text m' s = norm <$> find_text m s) /\
    (forall s, find_bytes m' s = norm <$> find_bytes m s) /\
    forall n v, int64_ok n -> (KInt n, v) ∈ m -> find_int m' n = Some (norm v).
Proof.
  intros Hv Hnt. set (m1 := map (fun kv => (norm_key kv.1, norm kv.2)) m). exists (canonical m1).
  assert (E : norm (VCmap m) = VCmap (canonical m1)).
  { cbn [norm]. fold m1. unfold read_as_map.
    destruct (forallb _ (canonical m1)) eqn:E; [|done]. exfalso.
    assert (forallb (fun kv => is_text kv.1) m = true); [|congruence].
    apply forallb_forall. intros [k v] Hin. rewrite forallb_forall in E.
    specialize (E (norm_key k, norm v)). simpl in E |- *. rewrite is_text_norm_key in E. apply E.
    unfold canonical. rewrite stable_sort_perm. unfold m1.
    apply (in_map (fun kv => (norm_key kv.1, norm kv.2))) in Hin. exact Hin. }
  assert (Hk : NoDup (encode_key_into <$> m.*1) /\ Forall (fun kv => key_ok kv.1) m).
  { cbn [wf] in Hv. rewrite foldr_and2_Forall in Hv. destruct Hv as (_ & _ & Hnd & Hall).
    split; [done|]. eapply Forall_impl; [exact Hall|]. naive_solver. }
  destruct Hk as [Hnd Hok].
  assert (Hint : forall n, int64_ok n -> find_int (canonical m1) n = norm <$> find_int m n).
  { intros n Hn. apply find_key_canonical; [by apply numeric_key_test|done..]. }
  split_and!.
  - rewrite <- E. by apply decode_encode.
  - exact Hint.
  - intros s. apply (find_key_canonical (text_key_equals s)); [apply text_key_test|done..].
  - intros s. apply (find_key_canonical (bytes_key_equals s)); [apply bytes_key_test|done..].
  - intros n v Hn Hin. rewrite Hint by done. destruct (find_int m n) as [w|] eqn:F.
    + apply find_key_elem in F as (k & Hkin & Hp). simpl. do 2 f_equal.
      rewrite Forall_forall in Hok. apply numeric_key_equals_spec in Hp; [|by apply (Hok _ Hkin)|done].
      apply list_elem_of_lookup_1 in Hin as [i Hi]. apply list_elem_of_lookup_1 in Hkin as [j Hj].
      rewrite <- list_fmap_compose in Hnd. assert (i = j) as ->; [|congruence].
      apply (NoDup_lookup _ _ _ (encode_key_into k) Hnd); rewrite list_lookup_fmap, ?Hi, ?Hj; cbn -[encode_key_into]; congruence.
    + pose proof (proj1 (find_key_None _ m) F _ _ Hin) as H. cbn in H.
      by rewrite Z.eqb_refl in H.
Qed.
End Properties.

(** A declared array length above the allocation limit throws from [reserve]
    instead of being rejected, although no item can follow in nine bytes. *)
Lemma declared_count_throws max_items max_pairs max_keys : max_items < 2 ^ 64 - 1 ->
  decode max_items max_pairs max_keys [0x9b; 255; 255; 255; 255; 255; 255; 255; 255] = Throw "reserve".
Proof.
  intros H. unfold decode.
  change [0x9b; 255; 255; 255; 255; 255; 255; 255; 255] with (append_uint 4 (2 ^ 64 - 1) ++ []).
  rewrite read_append_4 by (unfold uint64_ok; lia). unfold reserve.
  destruct (Z.leb_spec (2 ^ 64 - 1) max_items); [lia|done].
Qed.

(** * Concrete inputs *)

Definition sample_value : value :=
  VCmap [(KInt 3, VText (str "ab")); (KInt (-1), VArray [VNull; VBool true; VInt 7]);
         (KText (str "k"), VMap [(str "a", VUint 300)]); (KBytes [255], VBytes [1; 2])].

Lemma sample_value_wf : wf 100 100 100 sample_value.
Proof.
  unfold sample_value. cbn -[str encode_key_into]. unfold octets_ok, int64_ok, uint64_ok.
  split_and!; try done; try lia; try apply str_bytes;
    try (apply (bool_decide_unpack _); vm_compute; exact I).
Qed.

Lemma cbor_roundtrip_witness :
  decode 100 100 100 (encode sample_value) = Ret (Some (norm sample_value)) /\
  wf 100 100 100 sample_value.
Proof. split; [apply (cbor_roundtrip 100 100 100); [lia|lia|apply sample_value_wf]|apply sample_value_wf]. Defined.

Lemma cbor_canonical_witness : encode (norm sample_value) = encode sample_value.
Proof. apply (cbor_canonical 100 100 100); [lia|lia|apply sample_value_wf]. Defined.

Lemma cbor_decode_total_witness :
  decode 100 100 100 [0xa1; 0x61; 0x6b; 0x18; 0x2a] = Ret (Some (VMap [(str "k", VUint 42)])) /\
  wf 100 100 100 (VMap [(str "k", VUint 42)]).
Proof.
  split; [vm_compute; reflexivity|].
  exact (cbor_decode_total 100 100 100 [0xa1; 0x61; 0x6b; 0x18; 0x2a]
           ltac:(apply (bool_decide_unpack _); vm_compute; exact I) ltac:(vm_compute; reflexivity)).
Defined.

Lemma cbor_find_decoded_witness : exists m',
  decode 100 100 100 (encode sample_value) = Ret (Some (VCmap m')) /\
  find_int m' 3 = Some (VText (str "ab")).
Proof.
  destruct (cbor_find_decoded 100 100 100 ltac:(lia) ltac:(lia)
    [(KInt 3, VText (str "ab")); (KInt (-1), VArray [VNull; VBool true; VInt 7]);
     (KText (str "k"), VMap [(str "a", VUint 300)]); (KBytes [255], VBytes [1; 2])]
    sample_value_wf ltac:(reflexivity)) as (m' & Hd & Hi & _).
  exists m'. split; [exact Hd|]. rewrite Hi; [reflexivity|unfold int64_ok; lia].
Defined.
