(* ===== verification/AuthData.v ===== *)
(** Authenticator data of WebAuthn ([src/webauthn/auth_data.cpp]): the binary
    layout written by [serialize_authenticator_data] and read back by
    [parse_authenticator_data].

    The component sees CBOR only through the interface [Codec]; its theorems are
    proved against the laws [CodecLaws], which the codec of [Cbor] satisfies. *)

From S2P Require Import Prelude Cbor.

(** * What authenticator data needs of a self-delimiting codec *)

Class Codec (V : Type) := {
  enc : V -> bytes;
  dec : bytes -> outcome (option V);
  ok : V -> Prop }.

Class CodecLaws (V : Type) `{Codec V} := {
  (** a well-formed value is decoded, to a value with the same encoding *)
  dec_enc v : ok v -> exists w, dec (enc v) = Ret (Some w) /\ enc w = enc v;
  (** no proper prefix of an encoding is an encoding *)
  dec_prefix v n w : ok v -> (n < length (enc v))%nat -> dec (take n (enc v)) <> Ret (Some w);
  (** encodings are not empty *)
  enc_nonempty v : enc v <> [];
  (** decoding stays in bounds and terminates *)
  dec_safe bs : is_bytes bs -> zlen bs < 2 ^ 64 ->
    match dec bs with Ret _ | Throw _ => True | Ub | OutOfFuel => False end }.

(** * Data *)

Definition flag_user_present : Z := 0x01.
Definition flag_user_verified : Z := 0x04.
Definition flag_attested_cred : Z := 0x40.
Definition flag_extension_data : Z := 0x80.

Record attested_credential_data : Type := MkAttested {
  aaguid : bytes;
  credential_id : bytes;
  cose_public_key : bytes }.

Record authenticator_data : Type := MkAuthData {
  rp_id_hash : bytes;
  flags : Z;
  sign_count : Z;
  attested : option attested_credential_data;
  extensions : bytes }.

(** * Serializing *)

Definition append_u16_be (value : Z) : bytes := be_bytes 2 value.
Definition append_u32_be (value : Z) : bytes := be_bytes 4 value.

Definition serialized_flags (d : authenticator_data) : Z :=
  let f := flags d in
  let f := match attested d with Some _ => u8 (Z.lor f flag_attested_cred) | None => f end in
  match extensions d with [] => f | _ :: _ => u8 (Z.lor f flag_extension_data) end.

Definition serialize_authenticator_data (d : authenticator_data) : bytes :=
  rp_id_hash d ++ [serialized_flags d] ++ append_u32_be (sign_count d) ++
  match attested d with
  | Some a =>
      aaguid a ++ append_u16_be (u16 (zlen (credential_id a))) ++ credential_id a ++ cose_public_key a
  | None => []
  end ++ extensions d.

(** * Parsing *)

Section Parse.
Context {V : Type} `{Codec V}.

(** [for (len = 1; len <= size; ++len)], [n] iterations left. *)
Fixpoint prefix_loop (n : nat) (len : Z) (bs : bytes) : outcome (option (V * bytes)) :=
  match n with
  | O => Ret None
  | S n' =>
      decoded ← dec (ztake len bs);
      match decoded with
      | None => prefix_loop n' (len + 1) bs
      | Some v =>
          let canonical := enc v in
          if zlen canonical =? len then Ret (Some (v, canonical))
          else prefix_loop n' (len + 1) bs
      end
  end.

Definition parse_cbor_prefix (bs : bytes) : outcome (option (V * bytes)) :=
  prefix_loop (length bs) 1 bs.

(** The attested credential data at [offset], with the offset after it. *)
Definition parse_attested (bs : bytes) (offset : Z) : outcome (option (attested_credential_data * Z)) :=
  if zlen bs <? offset + 18 then Ret None
  else
    aaguid ← sub_ bs offset 16;
    let offset := offset + 16 in
    b0 ← at_ bs offset;
    b1 ← at_ bs (offset + 1);
    let credential_id_len := u16 (Z.lor (Z.shiftl b0 8) b1) in
    let offset := offset + 2 in
    if zlen bs <? offset + credential_id_len then Ret None
    else
      credential_id ← sub_ bs offset credential_id_len;
      let offset := offset + credential_id_len in
      rest ← sub_ bs offset (zlen bs - offset);
      cose ← parse_cbor_prefix rest;
      match cose with
      | None => Ret None
      | Some (_, canonical) =>
          Ret (Some (MkAttested aaguid credential_id canonical, offset + zlen canonical))
      end.

Definition has_flag (f flag : Z) : bool := negb (Z.land f flag =? 0).

Definition parse_authenticator_data (bs : bytes) : outcome (option authenticator_data) :=
  if zlen bs <? 37 then Ret None
  else
    rp_id_hash ← sub_ bs 0 32;
    f ← at_ bs 32;
    b0 ← at_ bs 33;
    b1 ← at_ bs 34;
    b2 ← at_ bs 35;
    b3 ← at_ bs 36;
    let sign_count :=
      u32 (Z.lor (Z.lor (Z.lor (Z.shiftl b0 24) (Z.shiftl b1 16)) (Z.shiftl b2 8)) b3) in
    r ← (if has_flag f flag_attested_cred then
           a ← parse_attested bs 37;
           Ret (match a with None => None | Some (a, offset) => Some (Some a, offset) end)
         else Ret (Some (None, 37)));
    match r with
    | None => Ret None
    | Some (attested, offset) =>
        e ← (if has_flag f flag_extension_data then
               rest ← sub_ bs offset (zlen bs - offset);
               x ← parse_cbor_prefix rest;
               Ret (match x with
                    | None => None
                    | Some (_, canonical) => Some (canonical, offset + zlen canonical)
                    end)
             else Ret (Some ([], offset)));
        match e with
        | None => Ret None
        | Some (extensions, offset) =>
            if negb (offset =? zlen bs) then Ret None
            else Ret (Some (MkAuthData rp_id_hash f sign_count attested extensions))
        end
    end.
End Parse.

(** * Parsing in terms of the layout *)

Lemma be_value_4 b0 b1 b2 b3 :
  Z.lor (Z.lor (Z.lor (Z.shiftl b0 24) (Z.shiftl b1 16)) (Z.shiftl b2 8)) b3
  = be_value [b0; b1; b2; b3].
Proof.
  unfold be_acc. cbn [foldl]. rewrite Z.shiftl_0_l, Z.lor_0_l.
  rewrite !Z.shiftl_lor, !Z.shiftl_shiftl by lia. done.
Qed.

Lemma be_value_2 b0 b1 : Z.lor (Z.shiftl b0 8) b1 = be_value [b0; b1].
Proof. unfold be_acc. cbn [foldl]. by rewrite Z.shiftl_0_l, Z.lor_0_l. Qed.

Lemma be_value_short n v k bs : be_bytes k v = bs -> n = Z.of_nat k -> 0 <= v < 2 ^ (8 * n) ->
  be_value bs = v.
Proof. intros <- ->. apply be_value_be_bytes. Qed.

Section Facts.
Context {V : Type} `{CodecLaws V}.

(** A value no proper prefix of whose encoding makes the decoder throw. *)
Definition quiet (v : V) : Prop :=
  forall n, (n < length (enc v))%nat -> exists o, dec (take n (enc v)) = Ret o.

Lemma prefix_loop_hit v tail n len : ok v -> quiet v ->
  1 <= len <= zlen (enc v) -> (n = length (enc v ++ tail) - Z.to_nat len + 1)%nat ->
  exists w, prefix_loop n len (enc v ++ tail) = Ret (Some (w, enc v)).
Proof.
  intros Hok Hq. revert len. induction n as [|n IH]; intros len Hlen Hn.
  { rewrite length_app in Hn. lia. }
  cbn [prefix_loop]. rewrite ztake_app_l by lia.
  destruct (decide (len = zlen (enc v))) as [->|Hne].
  - unfold ztake. rewrite Nat2Z.id, take_ge by lia.
    destruct (dec_enc v Hok) as (w & -> & Hw). cbn [mbind outcome_bind].
    exists w. by rewrite Hw, Z.eqb_refl.
  - destruct (Hq (Z.to_nat len) ltac:(lia)) as [o Ho]. unfold ztake. rewrite Ho.
    cbn [mbind outcome_bind]. destruct o as [w|].
    + exfalso. by apply (dec_prefix v (Z.to_nat len) w Hok ltac:(lia)).
    + apply IH; [lia|]. rewrite length_app in *. lia.
Qed.

Lemma parse_cbor_prefix_hit v tail : ok v -> quiet v ->
  exists w, parse_cbor_prefix (enc v ++ tail) = Ret (Some (w, enc v)).
Proof.
  intros Hok Hq. apply prefix_loop_hit; [done..| |].
  - pose proof (enc_nonempty v) as Hne. destruct (enc v); [done|]. simpl. lia.
  - rewrite length_app. pose proof (enc_nonempty v) as Hne. destruct (enc v); [done|].
    simpl length. lia.
Qed.

Lemma prefix_loop_safe bs n len : is_bytes bs -> zlen bs < 2 ^ 64 -> 0 <= len ->
  match prefix_loop (V := V) n len bs with
  | Ret (Some (_, c)) => len <= zlen c < len + Z.of_nat n
  | Ret None | Throw _ => True
  | Ub | OutOfFuel => False
  end.
Proof.
  intros Hb Hl. revert len. induction n as [|n IH]; intros len Hlen; [done|]. cbn [prefix_loop].
  pose proof (dec_safe (V := V) (ztake len bs) ltac:(by apply Forall_take)
    ltac:(rewrite zlen_ztake by lia; lia)) as Hs.
  destruct (dec (ztake len bs)) as [[v|]| | |]; try done; cbn [mbind outcome_bind].
  - destruct (Z.eqb_spec (zlen (enc v)) len); [lia|].
    specialize (IH (len + 1) ltac:(lia)). destruct (prefix_loop _ _ _) as [[[]|]| | |]; try done. lia.
  - specialize (IH (len + 1) ltac:(lia)). destruct (prefix_loop _ _ _) as [[[]|]| | |]; try done. lia.
Qed.

Lemma parse_cbor_prefix_safe bs : is_bytes bs -> zlen bs < 2 ^ 64 ->
  match parse_cbor_prefix (V := V) bs with
  | Ret (Some (_, c)) => 1 <= zlen c <= zlen bs
  | Ret None | Throw _ => True
  | Ub | OutOfFuel => False
  end.
Proof.
  intros Hb Hl. unfold parse_cbor_prefix. pose proof (prefix_loop_safe bs (length bs) 1 Hb Hl ltac:(lia)) as P.
  destruct (prefix_loop _ _ _) as [[[]|]| | |]; try done. lia.
Qed.

Lemma is_bytes_tail bs offset rest : is_bytes bs -> zlen bs < 2 ^ 64 ->
  sub_ bs offset (zlen bs - offset) = Ret rest ->
  is_bytes rest /\ zlen rest < 2 ^ 64 /\ zlen rest = zlen bs - offset /\ 0 <= offset.
Proof.
  intros Hb Hl E. apply sub_inv in E as (H1 & H2 & H3 & -> & H4).
  split_and!; [by apply is_bytes_zsub|lia..].
Qed.

Lemma parse_attested_safe bs offset : is_bytes bs -> zlen bs < 2 ^ 64 -> 0 <= offset ->
  match parse_attested (V := V) bs offset with
  | Ret (Some (a, offset')) =>
      offset' <= zlen bs /\ zlen (aaguid a) = 16 /\ zlen (credential_id a) < 65536 /\
      offset' = offset + 18 + zlen (credential_id a) + zlen (cose_public_key a)
  | Ret None | Throw _ => True
  | Ub | OutOfFuel => False
  end.
Proof.
  intros Hb Hl Ho. unfold parse_attested. destruct (Z.ltb_spec (zlen bs) (offset + 18)); [done|].
  rewrite (sub_Ret bs offset 16) by lia. cbn [mbind outcome_bind].
  destruct (at_in_range bs (offset + 16)) as (b0 & -> & _); [lia|]. cbn [mbind outcome_bind].
  destruct (at_in_range bs (offset + 16 + 1)) as (b1 & -> & _); [lia|]. cbn [mbind outcome_bind].
  set (n := u16 _). pose proof (wrap_range 16 (Z.lor (Z.shiftl b0 8) b1) ltac:(lia)) as Hn. fold n in Hn.
  destruct (Z.ltb_spec (zlen bs) (offset + 16 + 2 + n)); [done|].
  rewrite (sub_Ret bs (offset + 16 + 2) n) by lia. cbn [mbind outcome_bind].
  rewrite (sub_Ret bs (offset + 16 + 2 + n)) by lia. cbn [mbind outcome_bind].
  set (rest := zsub _ (_ - _) bs).
  assert (Hr : zlen rest = zlen bs - (offset + 16 + 2 + n)) by (apply zlen_zsub; lia).
  pose proof (parse_cbor_prefix_safe rest ltac:(by apply is_bytes_zsub) ltac:(lia)) as P.
  destruct (parse_cbor_prefix rest) as [[[v c]|]| | |]; try done. cbn [mbind outcome_bind].
  cbn [aaguid credential_id cose_public_key].
  rewrite (zlen_zsub offset 16), (zlen_zsub (offset + 16 + 2) n) by lia. lia.
Qed.

Lemma parse_attested_hit pre a v tail :
  zlen (aaguid a) = 16 -> zlen (credential_id a) < 65536 ->
  cose_public_key a = enc v -> ok v -> quiet v ->
  parse_attested (V := V)
    (pre ++ aaguid a ++ append_u16_be (u16 (zlen (credential_id a))) ++ credential_id a ++
     cose_public_key a ++ tail) (zlen pre)
  = Ret (Some (a, zlen pre + 18 + zlen (credential_id a) + zlen (cose_public_key a))).
Proof.
  intros Hg Hc Hk Hok Hq. unfold parse_attested. rewrite wrap_small by lia.
  unfold append_u16_be.
  assert (Hbe : zlen (be_bytes 2 (zlen (credential_id a))) = 2) by by rewrite length_be_bytes.
  destruct (be_bytes 2 _) as [|b0 [|b1 []]] eqn:E; try (simpl in Hbe; lia).
  rewrite !length_app. cbn [length].
  destruct (Z.ltb_spec (Z.of_nat (length pre + (length (aaguid a) + (2 + (length (credential_id a) +
    (length (cose_public_key a) + length tail)))))) (zlen pre + 18)); [lia|].
  rewrite sub_app_mid by lia. cbn [mbind outcome_bind].
  rewrite app_assoc. cbn [app]. rewrite (at_app_mid (pre ++ aaguid a) _ _ (zlen pre + 16)) by (rewrite length_app; lia).
  cbn [mbind outcome_bind].
  replace ((pre ++ aaguid a) ++ b0 :: b1 :: credential_id a ++ cose_public_key a ++ tail)
    with ((pre ++ aaguid a ++ [b0]) ++ b1 :: credential_id a ++ cose_public_key a ++ tail)
    by by rewrite <- !app_assoc.
  rewrite at_app_mid by (rewrite !length_app; simpl; lia). cbn [mbind outcome_bind].
  rewrite be_value_2, (be_value_short 2 (zlen (credential_id a)) 2) by (done || lia).
  rewrite wrap_small by lia.
  destruct (Z.ltb_spec (Z.of_nat (length pre + (length (aaguid a) + (2 + (length (credential_id a) +
    (length (cose_public_key a) + length tail)))))) (zlen pre + 16 + 2 + zlen (credential_id a))); [lia|].
  replace ((pre ++ aaguid a ++ [b0]) ++ b1 :: credential_id a ++ cose_public_key a ++ tail)
    with ((pre ++ aaguid a ++ [b0; b1]) ++ credential_id a ++ cose_public_key a ++ tail)
    by by rewrite <- !app_assoc.
  rewrite (sub_app_mid (pre ++ aaguid a ++ [b0; b1]) (credential_id a) _ (zlen pre + 16 + 2)
    (zlen (credential_id a))) by (rewrite ?length_app; simpl; lia). cbn [mbind outcome_bind].
  rewrite (app_assoc (pre ++ _)). rewrite sub_app_tail by (rewrite !length_app; cbn [length]; lia).
  cbn [mbind outcome_bind]. rewrite Hk.
  destruct (parse_cbor_prefix_hit v tail Hok Hq) as [w ->]. cbn [mbind outcome_bind].
  do 3 f_equal; [|lia]. rewrite <- Hk. by destruct a.
Qed.
End Facts.

(** * Flags *)

Lemma attested_flag_set : forall b, 0 <= b < 256 -> has_flag (u8 (Z.lor b flag_attested_cred)) flag_attested_cred = true.
Proof. mask_by 256. Qed.
Lemma extension_flag_set : forall b, 0 <= b < 256 -> has_flag (u8 (Z.lor b flag_extension_data)) flag_extension_data = true.
Proof. mask_by 256. Qed.
Lemma attested_flag_kept : forall b, 0 <= b < 256 ->
  has_flag (u8 (Z.lor b flag_extension_data)) flag_attested_cred = has_flag b flag_attested_cred.
Proof. mask_by 256. Qed.
Lemma extension_flag_kept : forall b, 0 <= b < 256 ->
  has_flag (u8 (Z.lor b flag_attested_cred)) flag_extension_data = has_flag b flag_extension_data.
Proof. mask_by 256. Qed.

(** The flag byte written says which parts follow. *)
Lemma serialized_flags_attested d : is_byte (flags d) ->
  has_flag (serialized_flags d) flag_attested_cred
  = match attested d with Some _ => true | None => has_flag (flags d) flag_attested_cred end.
Proof.
  intros Hf. unfold serialized_flags. cbv zeta.
  destruct (attested d), (extensions d); rewrite ?attested_flag_kept by (apply u8_range || done);
    rewrite ?attested_flag_set by done; done.
Qed.

Lemma serialized_flags_extension d : is_byte (flags d) ->
  has_flag (serialized_flags d) flag_extension_data
  = match extensions d with [] => has_flag (flags d) flag_extension_data | _ => true end.
Proof.
  intros Hf. unfold serialized_flags. cbv zeta.
  destruct (attested d), (extensions d); rewrite ?extension_flag_set by (apply u8_range || done);
    rewrite ?extension_flag_kept by done; done.
Qed.

(** * Properties *)

Section Properties.
Context {V : Type} `{CodecLaws V}.

(** Authenticator data the layout can hold: fixed-size fields have their size,
    the flags do not announce a missing part, and the embedded CBOR items are
    well-formed encodings. *)
Definition layout_ok (d : authenticator_data) : Prop :=
  zlen (rp_id_hash d) = 32 /\ is_byte (flags d) /\ 0 <= sign_count d < 2 ^ 32 /\
  match attested d with
  | Some a => zlen (aaguid a) = 16 /\ zlen (credential_id a) < 65536 /\
              exists v, ok v /\ quiet v /\ cose_public_key a = enc v
  | None => has_flag (flags d) flag_attested_cred = false
  end /\
  (extensions d = [] /\ has_flag (flags d) flag_extension_data = false \/
   exists v, ok v /\ quiet v /\ extensions d = enc v).

Definition with_flags (d : authenticator_data) (f : Z) : authenticator_data :=
  MkAuthData (rp_id_hash d) f (sign_count d) (attested d) (extensions d).

Definition header (d : authenticator_data) : bytes :=
  rp_id_hash d ++ [serialized_flags d] ++ append_u32_be (sign_count d).

Definition attested_bytes (d : authenticator_data) : bytes :=
  match attested d with
  | Some a =>
      aaguid a ++ append_u16_be (u16 (zlen (credential_id a))) ++ credential_id a ++ cose_public_key a
  | None => []
  end.

Lemma serialize_layout d :
  serialize_authenticator_data d = header d ++ attested_bytes d ++ extensions d.
Proof. unfold serialize_authenticator_data, header, attested_bytes. by rewrite <- !app_assoc. Qed.

Lemma length_header d : zlen (rp_id_hash d) = 32 -> zlen (header d) = 37.
Proof.
  intros Hh. unfold header, append_u32_be. rewrite !length_app, length_be_bytes. cbn [length]. lia.
Qed.

(** The attested part of the parse. *)
Lemma parse_attested_part d : layout_ok d ->
  (if has_flag (serialized_flags d) flag_attested_cred then
     a ← parse_attested (V := V) (serialize_authenticator_data d) 37;
     Ret (match a with None => None | Some (a, offset) => Some (Some a, offset) end)
   else Ret (Some (None, 37)))
  = Ret (Some (attested d, 37 + zlen (attested_bytes d))).
Proof.
  intros (Hh & Hf & Hs & Ha & He). rewrite serialized_flags_attested by done.
  rewrite serialize_layout. pose proof (length_header d Hh) as Hl. unfold attested_bytes.
  destruct (attested d) as [a|]; [|by rewrite Ha].
  destruct Ha as (Hg & Hc & v & Hok & Hq & Hk). rewrite <- !app_assoc. rewrite <- Hl.
  rewrite (parse_attested_hit (header d) a v (extensions d)) by done.
  cbn [mbind outcome_bind]. do 3 f_equal. rewrite !length_app. unfold append_u16_be.
  rewrite length_be_bytes. lia.
Qed.

Lemma parse_extensions_part d : layout_ok d ->
  (if has_flag (serialized_flags d) flag_extension_data then
     rest ← sub_ (serialize_authenticator_data d) (37 + zlen (attested_bytes d))
              (zlen (serialize_authenticator_data d) - (37 + zlen (attested_bytes d)));
     x ← parse_cbor_prefix (V := V) rest;
     Ret (match x with
          | None => None
          | Some (_, canonical) => Some (canonical, 37 + zlen (attested_bytes d) + zlen canonical)
          end)
   else Ret (Some ([], 37 + zlen (attested_bytes d))))
  = Ret (Some (extensions d, zlen (serialize_authenticator_data d))).
Proof.
  intros (Hh & Hf & Hs & Ha & He). rewrite serialized_flags_extension by done.
  rewrite serialize_layout. pose proof (length_header d Hh) as Hl.
  destruct He as [[Hn He]|(v & Hok & Hq & He)].
  - rewrite Hn, He. do 3 f_equal. rewrite !length_app, Nat.add_0_r. lia.
  - destruct (extensions d) eqn:E; [by destruct (enc_nonempty v)|]. rewrite He.
    rewrite app_assoc. rewrite sub_app_tail by (rewrite !length_app; lia).
    cbn [mbind outcome_bind]. rewrite <- (app_nil_r (enc v)) at 1.
    destruct (parse_cbor_prefix_hit v [] Hok Hq) as [w ->]. cbn [mbind outcome_bind].
    do 3 f_equal. rewrite !length_app. lia.
Qed.

(** Parsing serialized authenticator data returns the data, with the flag
    bits for the attested credential and the extensions set as written. *)
Lemma authdata_roundtrip d : layout_ok d ->
  parse_authenticator_data (serialize_authenticator_data d)
  = Ret (Some (with_flags d (serialized_flags d))).
Proof.
  intros Hd. pose proof (parse_attested_part d Hd) as PA. pose proof (parse_extensions_part d Hd) as PE.
  destruct Hd as (Hh & Hf & Hs & _). pose proof (length_header d Hh) as Hl.
  unfold parse_authenticator_data. rewrite serialize_layout in *.
  assert (Hbe : zlen (append_u32_be (sign_count d)) = 4)
    by (unfold append_u32_be; by rewrite length_be_bytes).
  assert (Hv : forall b0 b1 b2 b3, append_u32_be (sign_count d) = [b0; b1; b2; b3] ->
    u32 (Z.lor (Z.lor (Z.lor (Z.shiftl b0 24) (Z.shiftl b1 16)) (Z.shiftl b2 8)) b3) = sign_count d).
  { intros b0 b1 b2 b3 E. rewrite be_value_4, (be_value_short 4 (sign_count d) 4) by (done || lia).
    by rewrite u32_small by lia. }
  destruct (Z.ltb_spec (zlen (header d ++ attested_bytes d ++ extensions d)) 37).
  { rewrite length_app in *. lia. }
  set (tail := attested_bytes d ++ extensions d) in *. set (bs := header d ++ tail) in *.
  assert (Ebs : bs = rp_id_hash d ++ serialized_flags d :: append_u32_be (sign_count d) ++ tail)
    by (unfold bs, header; by rewrite <- !app_assoc).
  assert (E0 : sub_ bs 0 32 = Ret (rp_id_hash d))
    by (rewrite Ebs; apply (sub_app_mid [] (rp_id_hash d)); simpl; lia).
  assert (E1 : at_ bs 32 = Ret (serialized_flags d)) by (rewrite Ebs; apply at_app_mid; lia).
  destruct (append_u32_be (sign_count d)) as [|b0 [|b1 [|b2 [|b3 []]]]]; try (simpl in Hbe; lia).
  assert (Eat : forall l b r i, bs = (rp_id_hash d ++ l) ++ b :: r -> i = 32 + zlen l -> at_ bs i = Ret b).
  { intros l b r i -> ->. apply at_app_mid. rewrite length_app. lia. }
  rewrite E0, E1. cbn [mbind outcome_bind].
  rewrite (Eat [serialized_flags d] b0 (b1 :: b2 :: b3 :: tail) 33); [|by rewrite Ebs, <- !app_assoc|simpl; lia].
  rewrite (Eat [serialized_flags d; b0] b1 (b2 :: b3 :: tail) 34); [|by rewrite Ebs, <- !app_assoc|simpl; lia].
  rewrite (Eat [serialized_flags d; b0; b1] b2 (b3 :: tail) 35); [|by rewrite Ebs, <- !app_assoc|simpl; lia].
  rewrite (Eat [serialized_flags d; b0; b1; b2] b3 tail 36); [|by rewrite Ebs, <- !app_assoc|simpl; lia].
  cbn [mbind outcome_bind].
  rewrite (Hv b0 b1 b2 b3 eq_refl), PA. cbn [mbind outcome_bind]. rewrite PE. cbn [mbind outcome_bind].
  by rewrite Z.eqb_refl.
Qed.

(** Parsing any byte string stays in bounds and terminates.  When it
    accepts, the fields have their sizes, the parts present are those the flag
    byte announces, and the parts account for every byte: nothing is left over. *)
Lemma parse_authdata_sound bs : is_bytes bs -> zlen bs < 2 ^ 64 ->
  match parse_authenticator_data bs with
  | Ret (Some d) =>
      zlen (rp_id_hash d) = 32 /\ rp_id_hash d = ztake 32 bs /\ 0 <= sign_count d < 2 ^ 32 /\
      (has_flag (flags d) flag_attested_cred = true <-> attested d <> None) /\
      (has_flag (flags d) flag_extension_data = true <-> extensions d <> []) /\
      (forall a, attested d = Some a -> zlen (aaguid a) = 16 /\ zlen (credential_id a) < 65536) /\
      zlen (serialize_authenticator_data d) = zlen bs
  | Ret None | Throw _ => True
  | Ub | OutOfFuel => False
  end.
Proof.
  intros Hb Hl. unfold parse_authenticator_data. destruct (Z.ltb_spec (zlen bs) 37); [done|].
  rewrite (sub_Ret bs 0 32) by lia. cbn [mbind outcome_bind].
  destruct (at_in_range bs 32) as (f & -> & Hf); [lia|].
  destruct (at_in_range bs 33) as (b0 & -> & _); [lia|].
  destruct (at_in_range bs 34) as (b1 & -> & _); [lia|].
  destruct (at_in_range bs 35) as (b2 & -> & _); [lia|].
  destruct (at_in_range bs 36) as (b3 & -> & _); [lia|]. cbn [mbind outcome_bind].
  assert (Hh : zlen (zsub 0 32 bs) = 32) by (apply zlen_zsub; lia).
  set (r := if has_flag f flag_attested_cred then _ else _).
  assert (Hr : match r with
    | Ret (Some (None, offset)) => has_flag f flag_attested_cred = false /\ offset = 37
    | Ret (Some (Some a, offset)) => has_flag f flag_attested_cred = true /\ offset <= zlen bs /\
        zlen (aaguid a) = 16 /\ zlen (credential_id a) < 65536 /\
        offset = 37 + 18 + zlen (credential_id a) + zlen (cose_public_key a)
    | Ret None | Throw _ => True | Ub | OutOfFuel => False end).
  { unfold r. destruct (has_flag f flag_attested_cred); [|done].
    pose proof (parse_attested_safe (V := V) bs 37 Hb Hl ltac:(lia)) as P.
    destruct (parse_attested bs 37) as [[[a o]|]| | |]; done. }
  clearbody r. destruct r as [[[att offset]|]| | |]; try done. cbn [mbind outcome_bind].
  assert (Ho : 37 <= offset <= zlen bs) by (destruct att; lia).
  set (e := if has_flag f flag_extension_data then _ else _).
  assert (Hext : match e with
    | Ret (Some (x, o)) => (has_flag f flag_extension_data = true <-> x <> []) /\ o = offset + zlen x
    | Ret None | Throw _ => True | Ub | OutOfFuel => False end).
  { unfold e. destruct (has_flag f flag_extension_data).
    2: { split; [|simpl; lia]. split; done. }
    rewrite sub_Ret by lia. cbn [mbind outcome_bind].
    assert (Hz : zlen (zsub offset (zlen bs - offset) bs) = zlen bs - offset) by (apply zlen_zsub; lia).
    pose proof (parse_cbor_prefix_safe (V := V) (zsub offset (zlen bs - offset) bs)
      ltac:(by apply is_bytes_zsub) ltac:(lia)) as P.
    destruct (parse_cbor_prefix _) as [[[v c]|]| | |]; try done. cbn [mbind outcome_bind].
    split; [|done]. split; [|done]. intros _ ->. simpl in P. lia. }
  clearbody e. destruct e as [[[x o]|]| | |]; try done. cbn [mbind outcome_bind].
  destruct (Z.eqb_spec o (zlen bs)) as [E|]; [|done]. cbn [negb].
  destruct Hext as [Hx ->]. cbn [rp_id_hash sign_count flags attested extensions].
  split_and!; try done; try apply u32_range.
  - by destruct att as [a|]; destruct Hr as [-> _].
  - intros a ->. destruct Hr as (_ & _ & ? & ? & _). done.
  - rewrite serialize_layout, !length_app. unfold header, attested_bytes, append_u32_be, append_u16_be.
    rewrite !length_app, length_be_bytes. cbn [rp_id_hash sign_count attested extensions length].
    destruct att as [a|]; [rewrite !length_app, length_be_bytes|simpl]; lia.
Qed.
End Properties.

(** * The CBOR codec satisfies the interface *)

Section CborCodec.
Context (max_items max_pairs max_keys : Z).

#[export] Instance cbor_codec : Codec value := {|
  enc := encode;
  dec := decode max_items max_pairs max_keys;
  ok := wf max_items max_pairs max_keys |}.

Lemma cbor_codec_laws : max_items < 2 ^ 64 -> max_pairs < 2 ^ 64 -> CodecLaws value.
Proof.
  intros Hi Hp. split; cbn [enc dec ok cbor_codec].
  - intros v Hv. exists (norm v). split; [|by apply (encode_norm max_items max_pairs max_keys)].
    by apply decode_encode.
  - intros v n w Hv Hn. by apply decode_proper_prefix.
  - intros v E. pose proof (encode_nonempty v) as Hn. unfold encode in E. rewrite E in Hn. simpl in Hn. lia.
  - intros bs Hb Hl. unfold decode.
    pose proof (read_post max_items max_pairs max_keys (S (length bs)) bs (conj Hb Hl) ltac:(lia)) as H.
    destruct (read _ _ _ _ bs) as [[[v|] c]| | |]; simpl in *; try done. by destruct c.
Qed.
End CborCodec.

(** * Concrete inputs *)

Definition codec100 : Codec value := cbor_codec 100 100 100.
Lemma laws100 : CodecLaws value (H := codec100).
Proof. by apply cbor_codec_laws. Qed.

Lemma quiet_check {V} `{Codec V} (v : V) :
  forallb (fun n => match dec (take n (enc v)) with Ret _ => true | _ => false end)
    (seq 0 (length (enc v))) = true -> quiet v.
Proof.
  intros Hf n Hn. rewrite forallb_forall in Hf. specialize (Hf n).
  destruct (dec (take n (enc v))) eqn:E; [eauto|..];
    (exfalso; assert (false = true); [apply Hf; apply in_seq; lia|done]).
Qed.

Definition sample_cose : value := VCmap [(KInt 1, VUint 2); (KInt (-1), VBytes [5; 6])].
Definition sample_extensions : value := VMap [(str "a", VBool true)].

Definition sample_authdata : authenticator_data :=
  MkAuthData (replicate 32 7) 0x05 258
    (Some (MkAttested (replicate 16 9) [1; 2; 3] (encode sample_cose))) (encode sample_extensions).

Lemma sample_authdata_ok : layout_ok (V := value) (H := codec100) sample_authdata.
Proof.
  split; [reflexivity|]. split; [change (0 <= 5 < 256); lia|].
  split; [change (0 <= 258 < 2 ^ 32); lia|]. split.
  - split; [reflexivity|]. split; [reflexivity|].
    exists sample_cose. split; [|split; [apply quiet_check; vm_compute; reflexivity|reflexivity]].
    cbn. unfold int64_ok, uint64_ok, octets_ok, is_bytes, is_byte. split_and!; try done; try lia;
      try (apply (bool_decide_unpack _); vm_compute; exact I).
  - right. exists sample_extensions.
    split; [|split; [apply quiet_check; vm_compute; reflexivity|reflexivity]].
    cbn. split_and!; try done; try (repeat constructor); simpl; lia.
Qed.

Lemma authdata_roundtrip_witness :
  layout_ok (V := value) (H := codec100) sample_authdata /\
  parse_authenticator_data (H := codec100) (serialize_authenticator_data sample_authdata)
  = Ret (Some (with_flags sample_authdata 0xc5)).
Proof.
  split; [apply sample_authdata_ok|].
  apply (@authdata_roundtrip value codec100 laws100 sample_authdata sample_authdata_ok).
Defined.

Lemma parse_authdata_sound_witness :
  is_bytes (replicate 37 0) /\
  match parse_authenticator_data (H := codec100) (replicate 37 0) with
  | Ret (Some d) => attested d = None /\ zlen (serialize_authenticator_data d) = 37
  | _ => False
  end.
Proof.
  assert (Hb : is_bytes (replicate 37 0)) by (apply (bool_decide_unpack _); vm_compute; exact I).
  pose proof (@parse_authdata_sound value codec100 laws100 (replicate 37 0) Hb ltac:(vm_compute; reflexivity)) as P.
  split; [exact Hb|].
  change (parse_authenticator_data (H := codec100) (replicate 37 0))
    with (Ret (Some (MkAuthData (replicate 32 0) 0 0 None []))) in *.
  split; [reflexivity|]. apply P.
Defined.

(** The scan compares only lengths, so CBOR in another key order is accepted and
    the bytes kept are its canonical form, not the bytes received. *)
Lemma parse_reorders_noncanonical :
  let bs := replicate 32 0 ++ [flag_extension_data; 0; 0; 0; 0] ++
            [0xa2; 0x61; 0x62; 1; 0x61; 0x61; 2] in
  match parse_authenticator_data (H := codec100) bs with
  | Ret (Some d) => extensions d = [0xa2; 0x61; 0x61; 2; 0x61; 0x62; 1] /\
                    serialize_authenticator_data d <> bs
  | _ => False
  end.
Proof. vm_compute. split; [reflexivity|congruence]. Qed.
