(* ===== verification/Strings.v ===== *)
(** The operations of [std::string] and [std::string_view] the source uses, and
    the helpers of [include/fxe/string_utils.hpp], on byte strings: searching,
    trimming, case folding, splitting at a delimiter, decimal numbers. *)

From S2P Require Import Prelude.

(** * Searching; [None] is [npos] *)

(** The index of the first byte satisfying [p]. *)
Fixpoint index_of (p : Z -> bool) (s : bytes) : option Z :=
  match s with
  | [] => None
  | c :: s' => if p c then Some 0 else Z.succ <$> index_of p s'
  end.

Definition is_char (c : Z) : Z -> bool := fun x => x =? c.

(** [s.find(c, pos)] *)
Definition find_char (c : Z) (s : bytes) (pos : Z) : option Z :=
  Z.add pos <$> index_of (is_char c) (zdrop pos s).

(** [s.find_first_of(set, pos)] *)
Definition find_first_of (set : bytes) (s : bytes) (pos : Z) : option Z :=
  Z.add pos <$> index_of (fun x => bool_decide (x ∈ set)) (zdrop pos s).

(** [s.rfind(c)] *)
Definition rfind_char (c : Z) (s : bytes) : option Z :=
  (fun i => zlen s - 1 - i) <$> index_of (is_char c) (reverse s).

Definition starts_with (pat s : bytes) : bool := bool_decide (take (length pat) s = pat).
Definition ends_with (pat s : bytes) : bool :=
  (length pat <=? length s)%nat && bool_decide (drop (length s - length pat) s = pat).

(** [s.find(pat)] *)
Fixpoint find_str (pat s : bytes) : option Z :=
  if starts_with pat s then Some 0
  else match s with
       | [] => None
       | _ :: s' => Z.succ <$> find_str pat s'
       end.

(** [s.substr(pos, n)] for [pos <= s.size()].  [n] is a [size_t], clamped to the
    bytes left; a difference computed below zero has wrapped to a huge count. *)
Definition substr (s : bytes) (pos n : Z) : bytes :=
  if n <? 0 then zdrop pos s else ztake n (zdrop pos s).
(** [s.substr(pos)] *)
Definition substr_from (s : bytes) (pos : Z) : bytes := zdrop pos s.

Lemma index_of_app_r p l c r : Forall (fun x => p x = false) l -> p c = true ->
  index_of p (l ++ c :: r) = Some (zlen l).
Proof.
  intros Hl Hc. induction Hl as [|x l Hx Hl IH]; simpl; [by rewrite Hc|].
  rewrite Hx, IH. simpl. f_equal. lia.
Qed.

Lemma index_of_None p s : index_of p s = None <-> Forall (fun x => p x = false) s.
Proof.
  induction s as [|x s IH]; simpl; [done|]. destruct (p x) eqn:E.
  - split; [done|]. intros H. inversion H. congruence.
  - rewrite fmap_None, IH, Forall_cons. tauto.
Qed.

Lemma index_of_Some p s i : index_of p s = Some i ->
  exists l c r, s = l ++ c :: r /\ i = zlen l /\ p c = true /\ Forall (fun x => p x = false) l.
Proof.
  revert i. induction s as [|x s IH]; intros i; simpl; [done|]. destruct (p x) eqn:E.
  - intros [= <-]. exists [], x, s. done.
  - intros (j & Hj & ->)%fmap_Some_1. destruct (IH j) as (l & c & r & -> & -> & Hc & Hl); [done|].
    exists (x :: l), c, r. split_and!; try done; [simpl; lia|by constructor].
Qed.

Lemma index_of_range p s i : index_of p s = Some i -> 0 <= i < zlen s.
Proof. intros (l & c & r & -> & -> & _)%index_of_Some. rewrite length_app. simpl. lia. Qed.

Lemma find_char_0 c s : find_char c s 0 = index_of (is_char c) s.
Proof.
  unfold find_char, zdrop. rewrite drop_0. destruct (index_of (is_char c) s) as [z|]; [|done]. by destruct z.
Qed.

Lemma find_char_app_r c l r : c ∉ l -> find_char c (l ++ c :: r) 0 = Some (zlen l).
Proof.
  intros Hl. rewrite find_char_0. apply index_of_app_r; [|apply Z.eqb_refl].
  apply Forall_forall. intros x Hx. apply Z.eqb_neq. by intros ->.
Qed.

Lemma find_char_None c s : find_char c s 0 = None <-> c ∉ s.
Proof.
  rewrite find_char_0, index_of_None, Forall_forall. split.
  - intros H Hin. specialize (H c Hin). unfold is_char in H. by rewrite Z.eqb_refl in H.
  - intros H x Hx. apply Z.eqb_neq. by intros ->.
Qed.

Lemma ends_with_spec pat s : ends_with pat s = true <-> exists p, s = p ++ pat.
Proof.
  unfold ends_with. rewrite andb_true_iff, Nat.leb_le, bool_decide_eq_true. split.
  - intros [Hl H]. exists (take (length s - length pat) s). rewrite <- H at 2. by rewrite take_drop.
  - intros [p ->]. rewrite length_app. split; [lia|].
    replace (length p + length pat - length pat)%nat with (length p) by lia. by rewrite drop_app_length.
Qed.

Lemma starts_with_spec pat s : starts_with pat s = true <-> exists r, s = pat ++ r.
Proof.
  unfold starts_with. rewrite bool_decide_eq_true. split.
  - intros H. exists (drop (length pat) s). by rewrite <- H at 1; rewrite take_drop.
  - intros [r ->]. by rewrite take_app_length.
Qed.

Lemma starts_with_app pat r : starts_with pat (pat ++ r) = true.
Proof. apply starts_with_spec. eauto. Qed.

Lemma find_str_skip pat x y : match pat with c :: _ => c ∉ x | [] => False end ->
  find_str pat (x ++ y) = Z.add (zlen x) <$> find_str pat y.
Proof.
  intros Hp. induction x as [|c x IH]; cbn [app length].
  - by destruct (find_str pat y) as [[]|].
  - destruct pat as [|p pat]; [done|]. apply not_elem_of_cons in Hp as [Hc Hp]. cbn [find_str].
    unfold starts_with. rewrite bool_decide_false by (cbn [length take]; congruence).
    rewrite IH by done. rewrite <- option_fmap_compose. apply option_fmap_ext. intros z. cbn. lia.
Qed.

Lemma find_str_here pat y : pat <> [] -> find_str pat (pat ++ y) = Some 0.
Proof. intros. pose proof (starts_with_app pat y) as E. destruct (pat ++ y); cbn [find_str]; by rewrite E. Qed.

(** Contiguous parts of a string. *)
Definition infix_of (v s : bytes) : Prop := exists l r, s = l ++ v ++ r.

Lemma infix_refl s : infix_of s s.
Proof. exists [], []. by rewrite app_nil_r. Qed.

Lemma infix_trans a b c : infix_of a b -> infix_of b c -> infix_of a c.
Proof.
  intros (l & r & ->) (l' & r' & ->). exists (l' ++ l), (r ++ r'). by rewrite <- !app_assoc.
Qed.

Lemma infix_zdrop n s : infix_of (zdrop n s) s.
Proof. exists (ztake n s), []. by rewrite app_nil_r, ztake_zdrop. Qed.

Lemma infix_ztake n s : infix_of (ztake n s) s.
Proof. exists [], (zdrop n s). by rewrite <- (ztake_zdrop n s) at 1. Qed.

Lemma infix_substr s pos n : infix_of (substr s pos n) s.
Proof.
  unfold substr. destruct (n <? 0); [apply infix_zdrop|].
  eapply infix_trans; [apply infix_ztake|apply infix_zdrop].
Qed.

Lemma infix_elem v s x : infix_of v s -> x ∈ v -> x ∈ s.
Proof. intros (l & r & ->) H. rewrite !elem_of_app. auto. Qed.

(** * Trimming *)

Fixpoint drop_while (p : Z -> bool) (s : bytes) : bytes :=
  match s with
  | [] => []
  | c :: s' => if p c then drop_while p s' else s
  end.

Definition trim_by (is_ws : Z -> bool) (s : bytes) : bytes :=
  reverse (drop_while is_ws (reverse (drop_while is_ws s))).

(** The white space of [fxe::trim]. *)
Definition is_ws (c : Z) : bool :=
  (c =? chr " ") || (c =? 9) || (c =? 13) || (c =? 10).

Definition trim (s : bytes) : bytes := trim_by is_ws s.

(** No white space at either end. *)
Definition trimmed (p : Z -> bool) (s : bytes) : Prop :=
  match s with [] => True | c :: _ => p c = false end /\
  match last s with None => True | Some c => p c = false end.

Lemma drop_while_id p s : match s with [] => True | c :: _ => p c = false end -> drop_while p s = s.
Proof. destruct s as [|c s]; simpl; [done|]. by intros ->. Qed.

Lemma drop_while_head p s : match drop_while p s with [] => True | c :: _ => p c = false end.
Proof. induction s as [|c s IH]; simpl; [done|]. by destruct (p c) eqn:E. Qed.

Lemma drop_while_suffix p s : exists l, s = l ++ drop_while p s.
Proof.
  induction s as [|c s [l IH]]; simpl; [by exists []|]. destruct (p c); [|by exists []].
  exists (c :: l). simpl. by f_equal.
Qed.

Lemma head_reverse {A} (l : list A) : head (reverse l) = last l.
Proof.
  induction l as [|x l IH] using rev_ind; [done|]. by rewrite reverse_snoc, last_snoc.
Qed.

Lemma last_reverse {A} (l : list A) : last (reverse l) = head l.
Proof. rewrite <- head_reverse. by rewrite reverse_involutive. Qed.

Lemma trim_by_id p s : trimmed p s -> trim_by p s = s.
Proof.
  intros [H1 H2]. unfold trim_by. rewrite (drop_while_id p s H1). rewrite drop_while_id.
  - apply reverse_involutive.
  - rewrite <- head_reverse in H2. by destruct (reverse s).
Qed.

Lemma trim_by_trimmed p s : trimmed p (trim_by p s).
Proof.
  unfold trim_by. set (t := drop_while p s). pose proof (drop_while_head p s) as Ht. fold t in Ht.
  split.
  - destruct (drop_while_suffix p (reverse t)) as [l E].
    destruct (reverse (drop_while p (reverse t))) as [|c u] eqn:Eu; [done|].
    apply (f_equal reverse) in E. rewrite reverse_involutive, reverse_app, Eu in E.
    by rewrite E in Ht.
  - pose proof (drop_while_head p (reverse t)) as H. rewrite last_reverse.
    by destruct (drop_while p (reverse t)).
Qed.

Lemma trim_idemp s : trim (trim s) = trim s.
Proof. apply trim_by_id, trim_by_trimmed. Qed.

Lemma trim_by_sub p s : exists l r, s = l ++ trim_by p s ++ r.
Proof.
  unfold trim_by. destruct (drop_while_suffix p s) as [l El].
  destruct (drop_while_suffix p (reverse (drop_while p s))) as [r Er].
  exists l, (reverse r). rewrite El at 1. f_equal.
  apply (f_equal reverse) in Er. rewrite reverse_involutive, reverse_app in Er. exact Er.
Qed.

Lemma infix_trim p s : infix_of (trim_by p s) s.
Proof. apply trim_by_sub. Qed.

Lemma trim_elem p s x : x ∈ trim_by p s -> x ∈ s.
Proof.
  intros H. destruct (trim_by_sub p s) as (l & r & E). rewrite E. rewrite !elem_of_app. auto.
Qed.

(** * Case folding *)

Definition lower_char (c : Z) : Z := if (chr "A" <=? c) && (c <=? chr "Z") then c + 32 else c.
Definition ascii_lower (s : bytes) : bytes := lower_char <$> s.

Lemma lower_char_idemp c : lower_char (lower_char c) = lower_char c.
Proof.
  unfold lower_char. change (chr "A") with 65. change (chr "Z") with 90.
  destruct (Z.leb_spec 65 c), (Z.leb_spec c 90); simpl;
    repeat (match goal with |- context [?a <=? ?b] => destruct (Z.leb_spec a b) end; simpl); lia.
Qed.

Lemma ascii_lower_idemp s : ascii_lower (ascii_lower s) = ascii_lower s.
Proof.
  unfold ascii_lower. rewrite <- list_fmap_compose. apply list_fmap_ext. intros i x _.
  apply lower_char_idemp.
Qed.

Definition ascii_ieq (a b : bytes) : bool := bool_decide (ascii_lower a = ascii_lower b).

(** * Splitting at a delimiter: [std::getline(stream, field, d)] until it fails

    The last field is reported only when it is not empty: [getline] fails when it
    reads no character at the end of the stream. *)
Fixpoint getline_loop (d : Z) (cur : bytes) (s : bytes) : list bytes :=
  match s with
  | [] => match cur with [] => [] | _ => [cur] end
  | c :: s' => if c =? d then cur :: getline_loop d [] s' else getline_loop d (cur ++ [c]) s'
  end.

Definition getlines (d : Z) (s : bytes) : list bytes := getline_loop d [] s.

Lemma getline_loop_app d cur l s : d ∉ l ->
  getline_loop d cur (l ++ d :: s) = (cur ++ l) :: getlines d s.
Proof.
  revert cur. induction l as [|c l IH]; intros cur Hl; simpl.
  - by rewrite Z.eqb_refl, app_nil_r.
  - apply not_elem_of_cons in Hl as [Hc Hl]. destruct (Z.eqb_spec c d) as [->|]; [done|].
    rewrite IH by done. by rewrite <- app_assoc.
Qed.

Lemma getlines_cons d l s : d ∉ l -> getlines d (l ++ d :: s) = l :: getlines d s.
Proof. intros. unfold getlines at 1. by rewrite getline_loop_app. Qed.

Lemma getlines_last d l : d ∉ l -> l <> [] -> getlines d l = [l].
Proof.
  intros Hl Hne. unfold getlines. assert (G : forall cur, cur ++ l <> [] -> getline_loop d cur l = [cur ++ l]).
  { clear Hne. induction l as [|c l IH]; intros cur Hc; simpl.
    - rewrite app_nil_r in *. by destruct cur.
    - apply not_elem_of_cons in Hl as [Hd Hl]. destruct (Z.eqb_spec c d) as [->|]; [done|].
      replace (cur ++ c :: l) with ((cur ++ [c]) ++ l) in * by by rewrite <- app_assoc. auto. }
  apply (G []). done.
Qed.

(** * Decimal numbers *)

Definition is_digit (c : Z) : bool := (chr "0" <=? c) && (c <=? chr "9").

(** The pieces between separators, the text after the last one included. *)
Fixpoint pieces_loop (d : Z) (cur s : bytes) : list bytes :=
  match s with
  | [] => [cur]
  | c :: s' => if c =? d then cur :: pieces_loop d [] s' else pieces_loop d (cur ++ [c]) s'
  end.
Definition pieces (d : Z) (s : bytes) : list bytes := pieces_loop d [] s.

Fixpoint take_while (p : Z -> bool) (s : bytes) : bytes :=
  match s with
  | [] => []
  | c :: s' => if p c then c :: take_while p s' else []
  end.

Definition digits_value (s : bytes) : Z := foldl (fun a c => a * 10 + (c - chr "0")) 0 s.

(** [std::from_chars] into an integer with range [\[lo, hi\]]: the value and the
    rest, or [None] when no digit starts the text or the value does not fit. *)
Definition from_chars (lo hi : Z) (s : bytes) : option (Z * bytes) :=
  let '(neg, t) := match s with
                   | c :: t => if (c =? chr "-") && (lo <? 0) then (true, t) else (false, s)
                   | [] => (false, s)
                   end in
  let ds := take_while is_digit t in
  match ds with
  | [] => None
  | _ =>
      let v := if (neg : bool) then - digits_value ds else digits_value ds in
      if (lo <=? v) && (v <=? hi) then Some (v, drop (length ds) t) else None
  end.

Fixpoint show_digits (fuel : nat) (n : Z) : bytes :=
  match fuel with
  | O => []
  | S fuel' =>
      if n <? 10 then [chr "0" + n]
      else show_digits fuel' (n / 10) ++ [chr "0" + n mod 10]
  end.

(** [out << n] for a 64-bit integer: at most twenty digits. *)
Definition show_int (n : Z) : bytes :=
  if n <? 0 then chr "-" :: show_digits 20 (- n) else show_digits 20 n.

Lemma show_digits_spec fuel n : 0 <= n < 10 ^ Z.of_nat fuel -> (0 < fuel)%nat ->
  Forall (fun c => is_digit c = true) (show_digits fuel n) /\ show_digits fuel n <> [] /\
  digits_value (show_digits fuel n) = n.
Proof.
  revert n. induction fuel as [|fuel IH]; intros n Hn Hf; [lia|]. cbn [show_digits].
  assert (Hd : forall d, 0 <= d < 10 -> is_digit (chr "0" + d) = true).
  { intros d Hd. unfold is_digit. change (chr "0") with 48. change (chr "9") with 57.
    destruct (Z.leb_spec 48 (48 + d)), (Z.leb_spec (48 + d) 57); lia || done. }
  destruct (Z.ltb_spec n 10).
  - split_and!; [repeat constructor; apply Hd; lia|done|]. unfold digits_value. cbn [foldl]. lia.
  - destruct fuel as [|fuel]; [simpl in Hn; lia|].
    replace (Z.of_nat (S (S fuel))) with (Z.of_nat (S fuel) + 1) in Hn by lia.
    rewrite Z.pow_add_r in Hn by lia.
    destruct (IH (n / 10)) as (H1 & H2 & H3); [|lia|].
    { split; [apply Z.div_pos; lia|]. apply Z.div_lt_upper_bound; lia. }
    pose proof (Z.mod_pos_bound n 10 ltac:(lia)). split_and!.
    + apply Forall_app. split; [done|]. repeat constructor. apply Hd. lia.
    + by destruct (show_digits (S fuel) (n / 10)).
    + unfold digits_value in *. rewrite foldl_app. cbn [foldl].
      rewrite H3. pose proof (Z.div_mod n 10). lia.
Qed.

Lemma take_while_all p s r : Forall (fun c => p c = true) s ->
  match r with [] => True | c :: _ => p c = false end -> take_while p (s ++ r) = s.
Proof.
  intros Hs Hr. induction Hs as [|c s Hc Hs IH]; simpl; [|by rewrite Hc, IH].
  destruct r as [|c r]; simpl; [done|]. by rewrite Hr.
Qed.

(** Reading back a printed integer. *)
Lemma from_chars_show lo hi n r : lo < 0 -> - 10 ^ 20 < n < 10 ^ 20 -> lo <= n <= hi ->
  match r with [] => True | c :: _ => is_digit c = false end ->
  from_chars lo hi (show_int n ++ r) = Some (n, r).
Proof.
  intros Hlo Hn Hr Hd. unfold show_int.
  assert (G : forall m, 0 <= m < 10 ^ 20 ->
    take_while is_digit (show_digits 20 m ++ r) = show_digits 20 m /\
    show_digits 20 m <> [] /\ digits_value (show_digits 20 m) = m /\
    match show_digits 20 m with c :: _ => (c =? chr "-") = false | [] => True end).
  { intros m Hm. destruct (show_digits_spec 20 m) as (H1 & H2 & H3); [simpl; lia|lia|].
    split_and!; try done; [by apply take_while_all|].
    destruct H1 as [|c l Hc Hl]; [done|]. unfold is_digit in Hc. change (chr "0") with 48 in Hc.
    change (chr "-") with 45. apply Z.eqb_neq. intros ->. done. }
  assert (Hb : (lo <=? n) && (n <=? hi) = true)
    by (destruct (Z.leb_spec lo n), (Z.leb_spec n hi); lia || done).
  destruct (Z.ltb_spec n 0).
  - destruct (G (- n)) as (H1 & H2 & H3 & _); [lia|]. unfold from_chars. cbn [app].
    rewrite Z.eqb_refl. destruct (Z.ltb_spec lo 0); [|lia]. cbn [andb]. rewrite H1.
    destruct (show_digits 20 (- n)) eqn:E; [done|]. rewrite <- E in *. rewrite H3, Z.opp_involutive, Hb.
    by rewrite drop_app_length.
  - destruct (G n) as (H1 & H2 & H3 & H4); [lia|]. unfold from_chars.
    destruct (show_digits 20 n) as [|c l] eqn:E; [done|]. rewrite <- E in *.
    replace (show_digits 20 n ++ r) with (c :: l ++ r) at 1 by by rewrite E. rewrite H4. cbn [andb].
    rewrite H1. rewrite E. rewrite <- E. rewrite H3, Hb. by rewrite drop_app_length.
Qed.

(** * Cutting and joining *)

(** What precedes the first byte of a kind, and the rest from it on. *)
Definition upto (p : Z -> bool) (s : bytes) : bytes := take_while (fun c => negb (p c)) s.
Definition from (p : Z -> bool) (s : bytes) : bytes := drop_while (fun c => negb (p c)) s.

Definition any_of (set : bytes) (c : Z) : bool := bool_decide (c ∈ set).

Fixpoint join_with (d : Z) (l : list bytes) : bytes :=
  match l with
  | [] => []
  | [s] => s
  | s :: l' => s ++ d :: join_with d l'
  end.

Definition lacks (p : Z -> bool) (s : bytes) : Prop := Forall (fun c => p c = false) s.
(** Nothing, or something that begins with a byte of a kind. *)
Definition begins (p : Z -> bool) (s : bytes) : Prop := match s with [] => True | c :: _ => p c = true end.

Lemma upto_from p s : upto p s ++ from p s = s.
Proof. unfold upto, from. induction s as [|c s IH]; [done|]. cbn [take_while drop_while]. destruct (negb (p c)); [|done]. cbn [app]. by rewrite IH. Qed.

Lemma upto_lacks p s : lacks p (upto p s).
Proof.
  unfold upto, lacks. induction s as [|c s IH]; [constructor|]. cbn [take_while]. destruct (p c) eqn:E; constructor; [done|exact IH].
Qed.

Lemma from_begins p s : begins p (from p s).
Proof. unfold from. induction s as [|c s IH]; [done|]. cbn [drop_while]. destruct (p c) eqn:E; [exact E|exact IH]. Qed.

Lemma cut_app p a b : lacks p a -> begins p b -> upto p (a ++ b) = a /\ from p (a ++ b) = b.
Proof.
  intros Ha Hb. unfold upto, from. induction Ha as [|c a Hc Ha [IH1 IH2]]; cbn [app].
  - destruct b as [|c b]; [done|]. cbn [take_while drop_while begins] in *. by rewrite Hb.
  - cbn [take_while drop_while]. rewrite Hc. cbn [negb]. by rewrite IH1, IH2.
Qed.

Lemma upto_app p a b : lacks p a -> begins p b -> upto p (a ++ b) = a.
Proof. intros Ha Hb. by apply cut_app. Qed.
Lemma from_app p a b : lacks p a -> begins p b -> from p (a ++ b) = b.
Proof. intros Ha Hb. by apply cut_app. Qed.

Lemma cut_none p s : lacks p s -> upto p s = s /\ from p s = [].
Proof. intros H. destruct (cut_app p s [] H I) as [H1 H2]. by rewrite app_nil_r in H1, H2. Qed.

Lemma lacks_app p a b : lacks p (a ++ b) <-> lacks p a /\ lacks p b.
Proof. apply Forall_app. Qed.

Lemma lacks_elem p a c : lacks p a -> c ∈ a -> p c = false.
Proof. intros H. by apply (proj1 (Forall_forall _ _) H). Qed.

Lemma lacks_sub p (a b : bytes) : (forall c, c ∈ b -> c ∈ a) -> lacks p a -> lacks p b.
Proof. intros Hs Ha. apply Forall_forall. intros c Hc. by eapply lacks_elem, Hs. Qed.

Lemma lacks_weaken p q a : (forall c, q c = true -> p c = true) -> lacks p a -> lacks q a.
Proof. intros Hpq Ha. eapply Forall_impl; [exact Ha|]. intros c Hc. cbn in Hc. destruct (q c) eqn:E; [|done]. apply Hpq in E. congruence. Qed.

Lemma lacks_char c a : lacks (is_char c) a <-> c ∉ a.
Proof.
  unfold lacks. rewrite Forall_forall. split.
  - intros H Hin. specialize (H c Hin). unfold is_char in H. by rewrite Z.eqb_refl in H.
  - intros H x Hx. apply Z.eqb_neq. by intros ->.
Qed.

Lemma upto_elem p s c : c ∈ upto p s -> c ∈ s.
Proof. intros H. rewrite <- (upto_from p s). apply elem_of_app. by left. Qed.
Lemma from_elem p s c : c ∈ from p s -> c ∈ s.
Proof. intros H. rewrite <- (upto_from p s). apply elem_of_app. by right. Qed.

Lemma rfind_char_app c a b : c ∉ b -> rfind_char c (a ++ c :: b) = Some (zlen a).
Proof.
  intros Hb. unfold rfind_char. rewrite reverse_app, reverse_cons, <- app_assoc. cbn [app].
  rewrite (index_of_app_r (is_char c) (reverse b)); [|apply Forall_reverse; by apply lacks_char|apply Z.eqb_refl].
  cbn [fmap option_fmap option_map]. f_equal. rewrite length_reverse, length_app. cbn [length]. lia.
Qed.

Lemma rfind_char_Some c s i : rfind_char c s = Some i -> exists a b, s = a ++ c :: b /\ i = zlen a /\ c ∉ b.
Proof.
  unfold rfind_char. intros (j & (l & x & r & E & -> & Hx & Hl)%index_of_Some & ->)%fmap_Some_1.
  apply Z.eqb_eq in Hx as ->. apply (f_equal reverse) in E. rewrite reverse_involutive, reverse_app, reverse_cons, <- app_assoc in E.
  exists (reverse r), (reverse l). split; [exact E|]. rewrite E, length_app. cbn [app length]. split; [rewrite !length_reverse; lia|].
  rewrite elem_of_reverse. by apply lacks_char.
Qed.

Lemma rfind_char_None c s : rfind_char c s = None <-> c ∉ s.
Proof. unfold rfind_char. rewrite fmap_None, index_of_None, <- lacks_char. unfold lacks. apply Forall_reverse. Qed.

Lemma pieces_loop_app d cur a s : d ∉ a -> pieces_loop d cur (a ++ d :: s) = (cur ++ a) :: pieces d s.
Proof.
  revert cur. induction a as [|c a IH]; intros cur Ha; cbn [app pieces_loop].
  - by rewrite Z.eqb_refl, app_nil_r.
  - apply not_elem_of_cons in Ha as [Hc Ha]. destruct (Z.eqb_spec c d) as [->|]; [done|]. rewrite IH by done. by rewrite <- app_assoc.
Qed.

Lemma pieces_loop_last d cur a : d ∉ a -> pieces_loop d cur a = [cur ++ a].
Proof.
  revert cur. induction a as [|c a IH]; intros cur Ha; cbn [pieces_loop]; [by rewrite app_nil_r|].
  apply not_elem_of_cons in Ha as [Hc Ha]. destruct (Z.eqb_spec c d) as [->|]; [done|]. rewrite IH by done. by rewrite <- app_assoc.
Qed.

Lemma pieces_cons d a s : d ∉ a -> pieces d (a ++ d :: s) = a :: pieces d s.
Proof. intros. unfold pieces at 1. by rewrite pieces_loop_app. Qed.

(** Splitting what was joined. *)
Lemma pieces_join d l : l <> [] -> Forall (fun s => d ∉ s) l -> pieces d (join_with d l) = l.
Proof.
  intros Hne Hl. induction Hl as [|s l Hs Hl IH]; [done|]. destruct l as [|s' l]; [by apply pieces_loop_last|].
  change (join_with d (s :: s' :: l)) with (s ++ d :: join_with d (s' :: l)). rewrite pieces_cons by done. by rewrite IH.
Qed.

Lemma pieces_loop_elem d s : forall cur x c, x ∈ pieces_loop d cur s -> c ∈ x -> c ∈ cur \/ c ∈ s /\ c <> d.
Proof.
  induction s as [|b s IH]; intros cur x c; cbn [pieces_loop].
  - intros ->%list_elem_of_singleton. by left.
  - destruct (Z.eqb_spec b d) as [->|Hb].
    + intros [->|Hx]%elem_of_cons Hc; [by left|]. destruct (IH _ _ _ Hx Hc) as [Hn|[? ?]]; [by apply not_elem_of_nil in Hn|].
      right. split; [by right|done].
    + intros Hx Hc. destruct (IH _ _ _ Hx Hc) as [[?| ->%list_elem_of_singleton]%elem_of_app|[? ?]]; [by left|right; split; [left|done]|].
      right. split; [by right|done].
Qed.

Lemma pieces_elem d s x c : x ∈ pieces d s -> c ∈ x -> c ∈ s /\ c <> d.
Proof. intros Hx Hc. destruct (pieces_loop_elem _ _ _ _ _ Hx Hc) as [Hn|?]; [by apply not_elem_of_nil in Hn|done]. Qed.

Lemma join_elem d l c : c ∈ join_with d l -> c = d \/ exists x, x ∈ l /\ c ∈ x.
Proof.
  induction l as [|s l IH]; [intros Hc; by apply not_elem_of_nil in Hc|]. destruct l as [|s' l].
  - intros Hc. right. exists s. split; [left|done].
  - change (join_with d (s :: s' :: l)) with (s ++ d :: join_with d (s' :: l)). intros [Hc|[->|Hc]%elem_of_cons]%elem_of_app.
    + right. exists s. split; [left|done].
    + by left.
    + destruct (IH Hc) as [->|(x & Hx & Hxc)]; [by left|right]. exists x. split; [by right|done].
Qed.

(** Case folding only touches letters. *)
Lemma lower_char_other c x : lower_char c = x -> x < chr "a" \/ chr "z" < x -> c = x.
Proof.
  unfold lower_char. change (chr "A") with 65. change (chr "Z") with 90. change (chr "a") with 97. change (chr "z") with 122.
  destruct (Z.leb_spec 65 c), (Z.leb_spec c 90); cbn [andb]; lia.
Qed.

Lemma ascii_lower_lacks set s : Forall (fun x => x < chr "a" \/ chr "z" < x) set -> lacks (any_of set) s -> lacks (any_of set) (ascii_lower s).
Proof.
  intros Hset Hs. unfold lacks, ascii_lower. apply Forall_fmap. eapply Forall_impl; [exact Hs|]. intros c Hc. unfold any_of in *. cbn in *.
  apply bool_decide_eq_false. apply bool_decide_eq_false in Hc. intros Hin. apply Hc.
  rewrite Forall_forall in Hset. by rewrite <- (lower_char_other c _ eq_refl (Hset _ Hin)) in Hin.
Qed.

Lemma lower_chars_id s : Forall (fun c => c < chr "A" \/ chr "Z" < c) s -> ascii_lower s = s.
Proof.
  unfold ascii_lower. induction 1 as [|c s Hc Hs IH]; [done|]. rewrite fmap_cons, IH. f_equal. unfold lower_char.
  destruct (Z.leb_spec (chr "A") c), (Z.leb_spec c (chr "Z")); cbn [andb]; done || lia.
Qed.
