(* ===== verification/CookieJar.v ===== *)
(** The HTTP cookie jar of [src/net/cookie_jar.cpp]: URL splitting, parsing of
    [Set-Cookie] headers, the store with its purge and replace rules, the choice
    of cookies for a request, and the Netscape file it persists to.

    Every method takes the store's mutex for its whole body, so a method is one
    step.  The clock reading of a call is the argument [now].  The file system is
    a finite map from paths to contents; [can_write] says which paths
    [std::ofstream] can open.  [get_time] stands for [std::get_time] with the
    classic locale followed by [timegm], for each of the three date formats. *)

From S2P Require Import Prelude Strings.

(** * URLs *)

Record parsed_url : Type := MkUrl { scheme : bytes; host : bytes; path : bytes }.

Definition npos_or (o : option Z) (d : Z) : Z := match o with Some i => i | None => d end.

Definition before (o : option Z) (i : Z) : bool :=
  match o with Some j => j <? i | None => false end.

Definition parse_url (url : bytes) : parsed_url :=
  let size := zlen url in
  let scheme_end := find_str (str "://") url in
  let scheme := match scheme_end with Some e => ascii_lower (substr url 0 e) | None => [] end in
  let authority := match scheme_end with Some e => e + 3 | None => 0 end in
  let path_pos := find_char (chr "/") url authority in
  let query_pos := find_char (chr "?") url authority in
  let frag_pos := find_char (chr "#") url authority in
  let path_end := Z.min (npos_or query_pos size) (npos_or frag_pos size) in
  let path_start :=
    match path_pos with
    | None => path_end
    | Some p => if before query_pos p || before frag_pos p then path_end else p
    end in
  let host_port := substr url authority (path_start - authority) in
  let path :=
    match path_pos with
    | Some p => match substr url p (path_end - p) with [] => str "/" | q => q end
    | None => str "/"
    end in
  let host_port :=
    match rfind_char (chr "@") host_port with
    | Some at_pos => zdrop (at_pos + 1) host_port
    | None => host_port
    end in
  let host :=
    match host_port with
    | c :: _ =>
        if c =? chr "[" then
          match find_char (chr "]") host_port 0 with
          | None => host_port
          | Some e => substr host_port 1 (e - 1)
          end
        else
          match rfind_char (chr ":") host_port with
          | None => host_port
          | Some colon => substr host_port 0 colon
          end
    | [] => []
    end in
  MkUrl scheme (ascii_lower host) path.

Definition empty_url : parsed_url := MkUrl [] [] (str "/").

Definition default_cookie_path (request_path : bytes) : bytes :=
  match request_path with
  | [] => str "/"
  | c :: _ =>
      if negb (c =? chr "/") then str "/"
      else match rfind_char (chr "/") request_path with
           | None => str "/"
           | Some last => if last =? 0 then str "/" else substr request_path 0 last
           end
  end.

(** * Values of attributes *)

Definition i64_min : Z := - 2 ^ 63.
Definition i64_max : Z := 2 ^ 63 - 1.

Definition parse_int64 (value : bytes) : option Z :=
  match trim value with
  | [] => None
  | c :: t =>
      match from_chars i64_min i64_max (if c =? chr "+" then t else c :: t) with
      | Some (parsed, []) => Some parsed
      | _ => None
      end
  end.

(** Signed 64-bit addition; overflow is undefined. *)
Definition add_i64 (a b : Z) : outcome Z :=
  if (i64_min <=? a + b) && (a + b <=? i64_max) then Ret (a + b) else Ub.

Inductive cookie_same_site := strict | lax | none.

#[export] Instance cookie_same_site_eq_dec : EqDecision cookie_same_site.
Proof. solve_decision. Defined.

Record cookie : Type := MkCookie {
  name : bytes;
  value : bytes;
  domain : bytes;
  cpath : bytes;
  expires : Z;
  secure : bool;
  http_only : bool;
  host_only : bool;
  same_site : cookie_same_site }.

(** [cookie{}]: the default member initializers. *)
Definition default_cookie : cookie := MkCookie [] [] [] (str "/") 0 false false true lax.

Definition cookie_same_site_name (v : cookie_same_site) : string :=
  match v with strict => "Strict" | lax => "Lax" | none => "None" end.

Definition cookie_same_site_from_string (v : bytes) : cookie_same_site :=
  if ascii_ieq v (str "strict") then strict
  else if ascii_ieq v (str "none") || ascii_ieq v (str "no_restriction") then none
  else lax.

Definition drop_dots (s : bytes) : bytes := drop_while (is_char (chr ".")) s.

Definition pop_dot (s : bytes) : bytes :=
  match last s with
  | Some c => if c =? chr "." then take (length s - 1) s else s
  | None => s
  end.

Definition normalized_domain (d : bytes) : bytes :=
  let d := ascii_lower (trim d) in
  let d := if starts_with (str "#httponly_") d then drop 10 d else d in
  pop_dot (drop_dots d).

Definition domain_matches (cookie_domain : bytes) (host_only : bool) (host : bytes) : bool :=
  match cookie_domain, host with
  | [], _ => false
  | _, [] => false
  | _, _ =>
      if host_only then bool_decide (host = cookie_domain)
      else if bool_decide (host = cookie_domain) then true
      else (zlen cookie_domain <? zlen host) && ends_with cookie_domain host &&
           match host !! (length host - length cookie_domain - 1)%nat with
           | Some c => c =? chr "."
           | None => false
           end
  end.

Definition or_slash (p : bytes) : bytes := match p with [] => str "/" | _ => p end.

Definition path_matches (cookie_path request_path : bytes) : bool :=
  let cookie_path := or_slash cookie_path in
  let request_path := or_slash request_path in
  if bool_decide (request_path = cookie_path) then true
  else if (zlen request_path <? zlen cookie_path) || negb (starts_with cookie_path request_path)
  then false
  else match last cookie_path with Some c => c =? chr "/" | None => false end ||
       match request_path !! length cookie_path with Some c => c =? chr "/" | None => false end.

(** * Set-Cookie *)

Section SetCookie.
Context (get_time : Z -> bytes -> option Z).

Definition parse_http_date (v : bytes) : option Z :=
  let s := trim v in
  match get_time 0 s with
  | Some t => Some t
  | None =>
      match get_time 1 s with
      | Some t => Some t
      | None => match get_time 2 s with Some t => Some t | None => parse_int64 s end
      end
  end.

Definition with_domain (c : cookie) (d : bytes) : cookie :=
  MkCookie (name c) (value c) d (cpath c) (expires c) (secure c) (http_only c) false (same_site c).
Definition with_path (c : cookie) (p : bytes) : cookie :=
  MkCookie (name c) (value c) (domain c) p (expires c) (secure c) (http_only c) (host_only c) (same_site c).
Definition with_expires (c : cookie) (e : Z) : cookie :=
  MkCookie (name c) (value c) (domain c) (cpath c) e (secure c) (http_only c) (host_only c) (same_site c).
Definition with_secure (c : cookie) : cookie :=
  MkCookie (name c) (value c) (domain c) (cpath c) (expires c) true (http_only c) (host_only c) (same_site c).
Definition with_http_only (c : cookie) : cookie :=
  MkCookie (name c) (value c) (domain c) (cpath c) (expires c) (secure c) true (host_only c) (same_site c).
Definition with_same_site (c : cookie) (s : cookie_same_site) : cookie :=
  MkCookie (name c) (value c) (domain c) (cpath c) (expires c) (secure c) (http_only c) (host_only c) s.

(** One attribute: its lower-case key and its value; [None] rejects the cookie. *)
Definition apply_attribute (now : Z) (url_host : bytes) (key val : bytes) (st : cookie * bool) :
    outcome (option (cookie * bool)) :=
  let '(out, saw_max_age) := st in
  if bool_decide (key = str "domain") then
    let d := normalized_domain val in
    match d with
    | [] => Ret None
    | _ =>
        if match url_host with [] => false | _ => negb (domain_matches d false url_host) end
        then Ret None
        else Ret (Some (with_domain out d, saw_max_age))
    end
  else if bool_decide (key = str "path") then
    let p := match val with c :: _ => if c =? chr "/" then val else str "/" | [] => str "/" end in
    Ret (Some (with_path out p, saw_max_age))
  else if bool_decide (key = str "expires") then
    if (saw_max_age : bool) then Ret (Some (out, saw_max_age))
    else match parse_http_date val with
         | Some e => Ret (Some (with_expires out e, saw_max_age))
         | None => Ret (Some (out, saw_max_age))
         end
  else if bool_decide (key = str "max-age") then
    match parse_int64 val with
    | Some delta =>
        e ← (if delta <=? 0 then Ret 1 else add_i64 now delta);
        Ret (Some (with_expires out e, true))
    | None => Ret (Some (out, saw_max_age))
    end
  else if bool_decide (key = str "secure") then Ret (Some (with_secure out, saw_max_age))
  else if bool_decide (key = str "httponly") then Ret (Some (with_http_only out, saw_max_age))
  else if bool_decide (key = str "samesite") then
    Ret (Some (with_same_site out (cookie_same_site_from_string val), saw_max_age))
  else Ret (Some (out, saw_max_age)).

(** [while (!rest.empty())]: every round drops the bytes up to the next [;]. *)
Fixpoint attributes_loop (fuel : nat) (now : Z) (url_host : bytes) (rest : bytes)
    (st : cookie * bool) : outcome (option cookie) :=
  match rest with
  | [] => Ret (Some st.1)
  | _ =>
      match fuel with
      | O => OutOfFuel
      | S fuel' =>
          let next := find_char (chr ";") rest 0 in
          let attr := trim (match next with None => rest | Some n => substr rest 0 n end) in
          let rest := match next with None => [] | Some n => substr_from rest (n + 1) end in
          match attr with
          | [] => attributes_loop fuel' now url_host rest st
          | _ =>
              let attr_eq := find_char (chr "=") attr 0 in
              let key := ascii_lower (trim (match attr_eq with None => attr | Some e => substr attr 0 e end)) in
              let val := match attr_eq with None => [] | Some e => trim (substr_from attr (e + 1)) end in
              r ← apply_attribute now url_host key val st;
              match r with
              | None => Ret None
              | Some st' => attributes_loop fuel' now url_host rest st'
              end
          end
      end
  end.

Definition parse_set_cookie (now : Z) (header url : bytes) : outcome (option cookie) :=
  let parsed := parse_url url in
  let semi := find_char (chr ";") header 0 in
  let pair := match semi with None => header | Some s => substr header 0 s end in
  let rest := match semi with None => [] | Some s => substr_from header (s + 1) end in
  match find_char (chr "=") pair 0 with
  | None => Ret None
  | Some eq =>
      let nm := trim (substr pair 0 eq) in
      let out := MkCookie nm (trim (substr_from pair (eq + 1))) (host parsed)
                   (default_cookie_path (path parsed)) 0 false false true lax in
      match nm with
      | [] => Ret None
      | _ =>
          r ← attributes_loop (length rest) now (host parsed) rest (out, false);
          match r with
          | None => Ret None
          | Some out =>
              match domain out with
              | [] => Ret None
              | _ => if bool_decide (same_site out = none) && negb (secure out) then Ret None
                     else Ret (Some out)
              end
          end
      end
  end.
End SetCookie.

(** * The store *)

Notation fs := (gmap bytes bytes).

Record cookie_jar : Type := MkJar { persist_path : bytes; cookies : list cookie }.

Section Jar.
Context (can_write : bytes -> bool).

Definition expired (now : Z) (c : cookie) : bool := (0 <? expires c) && (expires c <=? now).

Definition purge_expired_locked (now : Z) (cs : list cookie) : list cookie :=
  List.filter (fun c => negb (expired now c)) cs.

Definition tab : bytes := [9].

(** One line of the file, without its newline. *)
Definition cookie_line (c : cookie) : bytes :=
  (if http_only c then str "#HttpOnly_" ++ domain c else domain c) ++ tab ++
  (if host_only c then str "FALSE" else str "TRUE") ++ tab ++
  or_slash (cpath c) ++ tab ++
  (if secure c then str "TRUE" else str "FALSE") ++ tab ++
  show_int (expires c) ++ tab ++ name c ++ tab ++ value c.

Definition file_header : bytes := str "# Netscape HTTP Cookie File" ++ [10].

Definition file_contents (snapshot : list cookie) : bytes :=
  file_header ++ concat (map (fun c => cookie_line c ++ [10]) snapshot).

Definition save_now_snapshot (snapshot : list cookie) (p : bytes) (files : fs) : fs :=
  match p with
  | [] => files
  | _ => if can_write p then <[p := file_contents snapshot]> files else files
  end.

Definition schedule_save_locked (j : cookie_jar) (files : fs) : fs :=
  match persist_path j with
  | [] => files
  | _ => save_now_snapshot (cookies j) (persist_path j) files
  end.

Definition same_key (c existing : cookie) : bool :=
  bool_decide (name existing = name c) && bool_decide (domain existing = domain c) &&
  bool_decide (cpath existing = cpath c).

(** Assigning to the first match, or [push_back]. *)
Fixpoint replace_or_push (c : cookie) (cs : list cookie) : list cookie :=
  match cs with
  | [] => [c]
  | e :: cs' => if same_key c e then c :: cs' else e :: replace_or_push c cs'
  end.

(** The fields after the clean-up at the head of [set_locked]. *)
Definition cleaned (c : cookie) : cookie :=
  MkCookie (trim (name c)) (value c) (normalized_domain (domain c))
    (match cpath c with p :: _ => if p =? chr "/" then cpath c else str "/" | [] => str "/" end)
    (expires c) (secure c) (http_only c) (host_only c) (same_site c).

Definition set_locked (now : Z) (c : cookie) (schedule_save : bool) (j : cookie_jar) (files : fs) :
    bool * cookie_jar * fs :=
  let c := cleaned c in
  match name c, domain c with
  | [], _ | _, [] => (false, j, files)
  | _, _ =>
      if bool_decide (same_site c = none) && negb (secure c) then (false, j, files)
      else
        let cs := purge_expired_locked now (cookies j) in
        if expired now c then
          let cs' := List.filter (fun e => negb (same_key c e)) cs in
          let j' := MkJar (persist_path j) cs' in
          (true, j',
           if schedule_save && negb (length cs' =? length cs)%nat then schedule_save_locked j' files
           else files)
        else
          let j' := MkJar (persist_path j) (replace_or_push c cs) in
          (true, j', if schedule_save then schedule_save_locked j' files else files)
  end.

Definition set (now : Z) (c : cookie) (j : cookie_jar) (files : fs) : bool * cookie_jar * fs :=
  set_locked now c true j files.

(** The overload taking the fields. *)
Definition set_fields (now : Z) (dom nm val p : bytes) (exp : Z) (sec http : bool)
    (j : cookie_jar) (files : fs) : cookie_jar * fs :=
  let host_only := match dom with [] => true | c :: _ => negb (c =? chr ".") end in
  let c := MkCookie nm val dom p exp sec http host_only lax in
  let '(_, j', files') := set now c j files in (j', files').

Definition set_from_header (get_time : Z -> bytes -> option Z) (now : Z) (header url : bytes)
    (j : cookie_jar) (files : fs) : outcome (bool * cookie_jar * fs) :=
  parsed ← parse_set_cookie get_time now header url;
  match parsed with
  | None => Ret (false, j, files)
  | Some c => Ret (set now c j files)
  end.

(** * Requests *)

Definition eligible (now : Z) (parsed : parsed_url) (c : cookie) : bool :=
  let https := bool_decide (scheme parsed = str "https") in
  negb (expired now c) && negb (secure c && negb https) &&
  domain_matches (domain c) (host_only c) (host parsed) &&
  path_matches (cpath c) (path parsed).

Definition longer_path (a b : cookie) : bool := zlen (cpath b) <? zlen (cpath a).

Fixpoint header_loop (out : bytes) (cs : list cookie) : bytes :=
  match cs with
  | [] => out
  | c :: cs' =>
      let out := match out with [] => [] | _ => out ++ str "; " end in
      header_loop (out ++ name c ++ [chr "="] ++ value c) cs'
  end.

Definition matches_for (now : Z) (url : bytes) (j : cookie_jar) : list cookie :=
  stable_sort longer_path (List.filter (eligible now (parse_url url)) (cookies j)).

Definition pick_for_request (now : Z) (url : bytes) (j : cookie_jar) : bytes :=
  header_loop [] (matches_for now url j).

Record cookie_filter : Type := MkFilter { f_name : bytes; f_domain : bytes; f_url : bytes }.

Definition is_empty (s : bytes) : bool := match s with [] => true | _ => false end.

Definition get_all (now : Z) (f : cookie_filter) (j : cookie_jar) : list cookie :=
  let parsed := if is_empty (f_url f) then empty_url else parse_url (f_url f) in
  List.filter (fun c =>
    negb (expired now c) &&
    (is_empty (f_name f) || bool_decide (name c = f_name f)) &&
    (is_empty (f_domain f) || bool_decide (domain c = normalized_domain (f_domain f))) &&
    (is_empty (f_url f) ||
     (domain_matches (domain c) (host_only c) (host parsed) && path_matches (cpath c) (path parsed))))
    (cookies j).

Definition removed_by (nm : bytes) (parsed : parsed_url) (c : cookie) : bool :=
  bool_decide (name c = nm) && domain_matches (domain c) (host_only c) (host parsed) &&
  path_matches (cpath c) (path parsed).

Definition remove (nm url : bytes) (j : cookie_jar) (files : fs) : bool * cookie_jar * fs :=
  let parsed := parse_url url in
  let j' := MkJar (persist_path j) (List.filter (fun c => negb (removed_by nm parsed c)) (cookies j)) in
  let removed := existsb (removed_by nm parsed) (cookies j) in
  (removed, j', if removed then schedule_save_locked j' files else files).

Definition clear (j : cookie_jar) (files : fs) : cookie_jar * fs :=
  let j' := MkJar (persist_path j) [] in (j', schedule_save_locked j' files).

(** * The Netscape file *)

Definition parse_netscape_cookie_line (line : bytes) : option cookie :=
  let marked := starts_with (str "#HttpOnly_") line in
  if negb marked && match line with [] => true | c :: _ => c =? chr "#" end then None
  else
    match getlines 9 (if marked then drop 10 line else line) with
    | f0 :: f1 :: f2 :: f3 :: f4 :: f5 :: f6 :: _ =>
        let out := MkCookie f5 f6 (normalized_domain f0) (or_slash f2)
                     (match parse_int64 f4 with Some e => e | None => 0 end)
                     (bool_decide (f3 = str "TRUE")) marked (negb (bool_decide (f1 = str "TRUE"))) lax in
        match domain out, name out with
        | [], _ | _, [] => None
        | _, _ => Some out
        end
    | _ => None
    end.

Fixpoint import_lines (now : Z) (lines : list bytes) (j : cookie_jar) (files : fs) : cookie_jar :=
  match lines with
  | [] => j
  | line :: lines' =>
      match parse_netscape_cookie_line line with
      | None => import_lines now lines' j files
      | Some c => let '(_, j', _) := set_locked now c false j files in import_lines now lines' j' files
      end
  end.

Definition load_from_disk (now : Z) (j : cookie_jar) (files : fs) : cookie_jar :=
  match persist_path j with
  | [] => j
  | p => match files !! p with
         | None => j
         | Some contents => import_lines now (getlines 10 contents) j files
         end
  end.

Definition persist (now : Z) (p : bytes) (j : cookie_jar) (files : fs) : cookie_jar :=
  load_from_disk now (MkJar p []) files.

Definition open_jar (now : Z) (p : bytes) (files : fs) : cookie_jar :=
  load_from_disk now (MkJar p []) files.

Definition import_netscape_lines (now : Z) (lines : list bytes) (j : cookie_jar) (files : fs) :
    cookie_jar * fs :=
  let j' := import_lines now lines (MkJar (persist_path j) []) files in
  (j', schedule_save_locked j' files).
End Jar.

(** * Matching rules *)

(** A host-only cookie belongs to one host; another also to the subdomains, at a
    label boundary. *)
Definition domain_covers (d : bytes) (host_only : bool) (h : bytes) : Prop :=
  d <> [] /\ (h = d \/ host_only = false /\ exists p, h = p ++ chr "." :: d).

Lemma domain_matches_spec d ho h : domain_matches d ho h = true <-> domain_covers d ho h.
Proof.
  unfold domain_covers. destruct d as [|x d]; [by split; [|intros [? _]]|].
  destruct h as [|y h].
  { split; [done|]. intros [_ [H|[_ [p H]]]]; [done|]. by destruct p. }
  unfold domain_matches. destruct ho.
  { rewrite bool_decide_eq_true. split; [intros ->; auto|]. intros [_ [?|[? _]]]; done. }
  case_bool_decide as E; [by rewrite E; split; auto|].
  set (dom := x :: d) in *. set (hst := y :: h) in *.
  assert (Hne : dom <> []) by done.
  rewrite !andb_true_iff, Z.ltb_lt, ends_with_spec. split.
  - intros [[Hlt [p Hp]] Hc]. split; [done|]. right. split; [done|].
    destruct (hst !! (length hst - length dom - 1)%nat) as [c|] eqn:El; [|done].
    apply Z.eqb_eq in Hc. subst c.
    destruct p as [|z p _] using rev_ind; [by rewrite Hp in E|].
    rewrite Hp, !length_app in El. simpl in El.
    rewrite <- app_assoc in El. cbn [app] in El. rewrite list_lookup_middle in El by lia. injection El as ->.
    exists p. rewrite Hp, <- app_assoc. done.
  - intros [_ [?|[_ [p Hp]]]]; [done|]. rewrite Hp, !length_app. cbn [length]. split_and!.
    + lia.
    + exists (p ++ [chr "."]). by rewrite <- app_assoc.
    + by rewrite list_lookup_middle by lia.
Qed.

(** The cookie's path is the request's, or a prefix of it that ends at a slash
    or is followed by one. *)
Definition path_covers (c r : bytes) : Prop :=
  r = c \/ exists x t, r = c ++ x :: t /\ (last c = Some (chr "/") \/ x = chr "/").

Lemma path_matches_spec c r : path_matches c r = true <-> path_covers (or_slash c) (or_slash r).
Proof.
  unfold path_matches, path_covers. cbv zeta. set (c' := or_slash c). set (r' := or_slash r).
  clearbody c' r'. case_bool_decide as E; [by split; [left|]|]. destruct (_ || _) eqn:Eb.
  - split; [done|]. intros [?|(x & t & -> & _)]; [done|].
    rewrite starts_with_app, orb_false_r in Eb. apply Z.ltb_lt in Eb. rewrite length_app in Eb. lia.
  - apply orb_false_iff in Eb as [_ Eb]. apply negb_false_iff, starts_with_spec in Eb as [t ->].
    rewrite lookup_app_r, Nat.sub_diag by lia. rewrite orb_true_iff. destruct t as [|x t].
    { by rewrite app_nil_r in E. }
    cbn [lookup list_lookup]. split.
    + intros [H|H]; right; exists x, t; split; try done.
      * left. destruct (last c') as [z|]; [|done]. apply Z.eqb_eq in H. by subst.
      * right. by apply Z.eqb_eq in H.
    + intros [H|(y & u & H & H2)].
      * exfalso. apply E. done.
      * apply app_inv_head in H. injection H as -> ->. destruct H2 as [->| ->]; [left|right]; done.
Qed.

(** * The invariant of the store *)

Definition cookie_key (c : cookie) : bytes * bytes * bytes := (name c, domain c, cpath c).

Definition absolute (p : bytes) : Prop := exists t, p = chr "/" :: t.

Definition cookie_ok (c : cookie) : Prop :=
  name c <> [] /\ trim (name c) = name c /\ domain c <> [] /\ absolute (cpath c) /\
  (same_site c = none -> secure c = true).

Definition jar_ok (j : cookie_jar) : Prop :=
  Forall cookie_ok (cookies j) /\ NoDup (cookie_key <$> cookies j).

Lemma same_key_spec c e : same_key c e = true <-> cookie_key e = cookie_key c.
Proof.
  unfold same_key, cookie_key. rewrite !andb_true_iff, !bool_decide_eq_true. split.
  - intros [[-> ->] ->]. done.
  - intros [= -> -> ->]. done.
Qed.

Lemma same_key_false c e : same_key c e = false <-> cookie_key e <> cookie_key c.
Proof. rewrite <- same_key_spec. destruct (same_key c e); naive_solver. Qed.

Lemma elem_filter_bool {A} (p : A -> bool) l x : x ∈ List.filter p l <-> x ∈ l /\ p x = true.
Proof. rewrite !list_elem_of_In. apply filter_In. Qed.

Lemma NoDup_filter_bool {A B} (f : A -> B) (p : A -> bool) l : NoDup (f <$> l) -> NoDup (f <$> List.filter p l).
Proof.
  induction l as [|x l IH]; simpl; [done|]. intros [Hx Hl]%NoDup_cons. destruct (p x); [|auto].
  simpl. apply NoDup_cons. split; [|auto]. intros (y & E & Hy)%list_elem_of_fmap.
  apply elem_filter_bool in Hy as [Hy _]. apply Hx. rewrite E. by apply list_elem_of_fmap_2.
Qed.

Lemma jar_ok_filter p cs q : jar_ok (MkJar p cs) -> jar_ok (MkJar p (List.filter q cs)).
Proof.
  intros [H1 H2]. split; [|by apply NoDup_filter_bool].
  rewrite Forall_forall in H1 |- *. intros x [Hx _]%elem_filter_bool. auto.
Qed.

Lemma replace_or_push_elem c cs x : NoDup (cookie_key <$> cs) ->
  x ∈ replace_or_push c cs <-> x = c \/ x ∈ cs /\ cookie_key x <> cookie_key c.
Proof.
  induction cs as [|e cs IH]; simpl.
  - intros _. rewrite list_elem_of_singleton, elem_of_nil. naive_solver.
  - intros [He Hnd]%NoDup_cons. destruct (same_key c e) eqn:E.
    + apply same_key_spec in E. rewrite !elem_of_cons. split.
      * intros [->|Hx]; [by left|]. right. split; [auto|]. intros Hk. apply He. rewrite E, <- Hk.
        by apply list_elem_of_fmap_2.
      * intros [->|[[->|Hx] Hk]]; [by left| |by right]. congruence.
    + apply same_key_false in E. rewrite !elem_of_cons, IH by done. naive_solver.
Qed.

Lemma replace_or_push_NoDup c cs : NoDup (cookie_key <$> cs) ->
  NoDup (cookie_key <$> replace_or_push c cs).
Proof.
  induction cs as [|e cs IH]; simpl; [intros _; apply NoDup_singleton|].
  intros [He Hnd]%NoDup_cons. destruct (same_key c e) eqn:E; simpl; apply NoDup_cons.
  - apply same_key_spec in E. by rewrite <- E.
  - split; [|auto]. intros (y & Ey & Hy)%list_elem_of_fmap. rewrite replace_or_push_elem in Hy by done. destruct Hy as [->|[Hy _]].
    + by apply same_key_false in E.
    + apply He. rewrite Ey. by apply list_elem_of_fmap_2.
Qed.

(** The store after [set_locked] accepted a cookie. *)
Lemma set_locked_true can_write now c sched j files j' files' : jar_ok j ->
  set_locked can_write now c sched j files = (true, j', files') ->
  jar_ok j' /\ persist_path j' = persist_path j /\
  forall x, x ∈ cookies j' <->
    x = cleaned c /\ expired now (cleaned c) = false \/
    x ∈ cookies j /\ expired now x = false /\ cookie_key x <> cookie_key (cleaned c).
Proof.
  intros [Hok Hnd]. unfold set_locked. cbv zeta. set (d := cleaned c).
  destruct (name d) as [|n0 n] eqn:En; [done|]. destruct (domain d) as [|d0 dm] eqn:Ed; [done|].
  destruct (_ && negb (secure d)) eqn:Es; [done|].
  assert (Hd : cookie_ok d).
  { split_and!; [by rewrite En|apply trim_idemp|by rewrite Ed| |].
    - unfold absolute, d, cleaned. simpl. destruct (cpath c) as [|p0 p]; [by eexists|].
      destruct (Z.eqb_spec p0 (chr "/")) as [->|]; by eexists.
    - intros Hs. destruct (secure d); [done|]. by rewrite Hs in Es. }
  clearbody d.
  assert (Hp : jar_ok (MkJar (persist_path j) (purge_expired_locked now (cookies j))))
    by (apply jar_ok_filter; by split).
  assert (Hin : forall x, x ∈ purge_expired_locked now (cookies j) <-> x ∈ cookies j /\ expired now x = false).
  { intros x. unfold purge_expired_locked. by rewrite elem_filter_bool, negb_true_iff. }
  destruct (expired now d) eqn:Ex; intros [= <- _]; cbn [cookies persist_path].
  - split; [by apply jar_ok_filter|]. split; [done|]. intros x.
    rewrite elem_filter_bool, negb_true_iff, same_key_false, Hin. clear. intuition congruence.
  - destruct Hp as [Hp1 Hp2]. cbn [cookies] in *. split; [split|split; [done|]].
    + rewrite Forall_forall in Hp1 |- *. intros x. cbn [cookies].
      rewrite replace_or_push_elem by done. intros [->|[Hx _]]; auto.
    + by apply replace_or_push_NoDup.
    + intros x. rewrite replace_or_push_elem, Hin by done. clear. intuition congruence.
Qed.

Lemma set_locked_false can_write now c sched j files j' files' :
  set_locked can_write now c sched j files = (false, j', files') -> j' = j /\ files' = files.
Proof.
  unfold set_locked. cbv zeta. repeat case_match; naive_solver.
Qed.

Lemma set_locked_ok can_write now c sched j files : jar_ok j ->
  jar_ok (set_locked can_write now c sched j files).1.2.
Proof.
  intros Hj. destruct (set_locked can_write now c sched j files) as [[[] j'] files'] eqn:E; simpl.
  - by eapply set_locked_true.
  - by destruct (set_locked_false _ _ _ _ _ _ _ _ E) as [-> _].
Qed.

Lemma import_lines_ok can_write now lines j files : jar_ok j ->
  jar_ok (import_lines can_write now lines j files).
Proof.
  revert j. induction lines as [|l lines IH]; intros j Hj; simpl; [done|].
  destruct (parse_netscape_cookie_line l) as [c|]; [|auto].
  pose proof (set_locked_ok can_write now c false j files Hj) as H.
  destruct (set_locked can_write now c false j files) as [[b j'] f']. auto.
Qed.

Lemma jar_ok_empty p : jar_ok (MkJar p []).
Proof. split; constructor. Qed.

(** * Parsing of Set-Cookie *)

Lemma from_chars_range lo hi s v r : from_chars lo hi s = Some (v, r) -> lo <= v <= hi.
Proof.
  unfold from_chars. destruct (match s with [] => _ | _ => _ end) as [neg t].
  destruct (take_while is_digit t) as [|c l]; [done|].
  match goal with |- context [if ?b then Some _ else _] => destruct b eqn:E end; [|done].
  intros [= <- _]. apply andb_true_iff in E as [?%Z.leb_le ?%Z.leb_le]. done.
Qed.

Lemma parse_int64_range v d : parse_int64 v = Some d -> i64_min <= d <= i64_max.
Proof.
  unfold parse_int64. destruct (trim v) as [|c t]; [done|].
  destruct (from_chars _ _ _) as [[x [|]]|] eqn:E; try done. intros [= <-].
  by eapply from_chars_range.
Qed.

Lemma default_cookie_path_absolute p : absolute (default_cookie_path p).
Proof.
  unfold default_cookie_path, absolute. destruct p as [|c p]; [by eexists|].
  destruct (Z.eqb_spec c (chr "/")) as [->|]; simpl; [|by eexists].
  destruct (rfind_char _ _) as [i|] eqn:E; [|by eexists].
  destruct (Z.eqb_spec i 0); [by eexists|]. unfold rfind_char in E.
  apply fmap_Some_1 in E as (k & Hk & ->). apply index_of_range in Hk. rewrite length_reverse in Hk.
  unfold substr. destruct (Z.ltb_spec (zlen (chr "/" :: p) - 1 - k) 0); [lia|].
  unfold zdrop. rewrite drop_0. unfold ztake.
  destruct (Z.to_nat (zlen (chr "/" :: p) - 1 - k)) eqn:Ez; [lia|]. simpl. by eexists.
Qed.

Section Parsing.
Context (get_time : Z -> bytes -> option Z).

(** What holds of the cookie under construction, for a URL with host [h]. *)
Definition draft_ok (nm h : bytes) (c : cookie) : Prop :=
  name c = nm /\ absolute (cpath c) /\
  (host_only c = true /\ domain c = h \/
   host_only c = false /\ domain c <> [] /\ (h = [] \/ domain_covers (domain c) false h)).

Lemma apply_attribute_ok now nm h key val c saw : 0 <= now -> draft_ok nm h c ->
  match apply_attribute get_time now h key val (c, saw) with
  | Ret (Some st) => draft_ok nm h st.1
  | Ret None => True
  | Ub => exists d, parse_int64 val = Some d /\ i64_max < now + d
  | Throw _ | OutOfFuel => False
  end.
Proof.
  intros Hnow (Hn & Hp & Hd). unfold apply_attribute.
  case_bool_decide.
  { destruct (normalized_domain val) as [|x d] eqn:E; [done|].
    destruct (match h with [] => _ | _ => _ end) eqn:Eh; [done|]. simpl. split_and!; try done.
    right. split_and!; try done. destruct h as [|y h]; [by left|]. right.
    apply negb_false_iff in Eh. by apply domain_matches_spec in Eh. }
  case_bool_decide.
  { simpl. split_and!; try done. destruct val as [|v val]; [by eexists|].
    destruct (Z.eqb_spec v (chr "/")) as [->|]; by eexists. }
  case_bool_decide.
  { destruct saw; [by split_and!|]. destruct (parse_http_date get_time val); by split_and!. }
  case_bool_decide.
  { destruct (parse_int64 val) as [d|] eqn:E; [|by split_and!].
    destruct (Z.leb_spec d 0); [by split_and!|]. unfold add_i64.
    pose proof (parse_int64_range _ _ E). unfold i64_min in *.
    destruct (Z.leb_spec (- 2 ^ 63) (now + d)); [|lia].
    destruct (Z.leb_spec (now + d) i64_max); simpl; [by split_and!|eauto]. }
  repeat (case_bool_decide; [by split_and!|]). by split_and!.
Qed.

Lemma rest_shorter c s n : find_char c s 0 = Some n ->
  (length (substr_from s (n + 1)) < length s)%nat.
Proof.
  rewrite find_char_0. intros H%index_of_range. unfold substr_from, zdrop. rewrite length_drop. lia.
Qed.

Lemma attributes_loop_ok fuel now nm h rest c saw : 0 <= now -> (length rest <= fuel)%nat ->
  draft_ok nm h c ->
  match attributes_loop get_time fuel now h rest (c, saw) with
  | Ret (Some c') => draft_ok nm h c'
  | Ret None => True
  | Ub => exists v d, infix_of v rest /\ parse_int64 v = Some d /\ i64_max < now + d
  | Throw _ | OutOfFuel => False
  end.
Proof.
  intros Hnow. revert rest c saw. induction fuel as [|fuel IH]; intros rest c saw Hf Hc.
  { destruct rest; [done|]. simpl in Hf. lia. }
  destruct rest as [|r0 rest0]; [done|]. cbn [attributes_loop]. cbv zeta.
  set (rest := r0 :: rest0) in *.
  set (rest' := match find_char (chr ";") rest 0 with None => [] | Some n => substr_from rest (n + 1) end).
  set (attr := trim (match find_char (chr ";") rest 0 with None => rest | Some n => substr rest 0 n end)).
  assert (Hl : (length rest' <= fuel)%nat).
  { unfold rest'. destruct (find_char (chr ";") rest 0) eqn:E; [|simpl; lia].
    pose proof (rest_shorter _ _ _ E). lia. }
  assert (Hi : infix_of rest' rest).
  { unfold rest'. destruct (find_char _ _ _); [apply infix_zdrop|].
    exists [], rest. done. }
  assert (Hsub : forall c' saw', draft_ok nm h c' ->
    match attributes_loop get_time fuel now h rest' (c', saw') with
    | Ret (Some c') => draft_ok nm h c' | Ret None => True
    | Ub => exists v d, infix_of v rest /\ parse_int64 v = Some d /\ i64_max < now + d
    | Throw _ | OutOfFuel => False end).
  { intros c' saw' Hc'. specialize (IH rest' c' saw' Hl Hc').
    destruct (attributes_loop _ _ _ _ rest' _) as [[|]| | |]; try done.
    destruct IH as (v & d & Hv & ?). exists v, d. split; [by eapply infix_trans|done]. }
  assert (Ha : infix_of attr rest).
  { unfold attr. eapply infix_trans; [apply infix_trim|].
    destruct (find_char _ _ _); [apply infix_substr|apply infix_refl]. }
  clearbody rest' attr. destruct attr as [|a0 attr0]; [by apply Hsub|]. set (attr := a0 :: attr0) in *.
  set (key := ascii_lower _). set (val := match find_char (chr "=") attr 0 with None => [] | _ => _ end).
  assert (Hv : infix_of val rest).
  { unfold val. eapply infix_trans; [|exact Ha]. destruct (find_char _ _ _).
    - eapply infix_trans; [apply infix_trim|apply infix_zdrop].
    - exists [], attr. done. }
  clearbody key val. pose proof (apply_attribute_ok now nm h key val c saw Hnow Hc) as P.
  destruct (apply_attribute _ _ _ _ _ _) as [[[c' saw']|]| | |]; try done; cbn [mbind outcome_bind].
  - by apply Hsub.
  - destruct P as (d & ? & ?). eauto.
Qed.
End Parsing.

(** * The file *)

(** Fields that survive the tab-separated file. *)
Definition field_ok (s : bytes) : Prop := 9 ∉ s /\ 10 ∉ s.

Definition file_ok (c : cookie) : Prop :=
  cookie_ok c /\ field_ok (name c) /\ field_ok (value c) /\ field_ok (domain c) /\
  field_ok (cpath c) /\ value c <> [] /\ normalized_domain (domain c) = domain c /\
  (forall t, domain c <> chr "#" :: t) /\ i64_min <= expires c <= i64_max.

Lemma show_int_digits n : - 10 ^ 20 < n < 10 ^ 20 ->
  show_int n <> [] /\ forall x, x ∈ show_int n -> x = chr "-" \/ is_digit x = true.
Proof.
  intros Hn. unfold show_int. destruct (Z.ltb_spec n 0).
  - split; [done|]. destruct (show_digits_spec 20 (- n)) as (H1 & _ & _); [simpl; lia|lia|].
    intros x [->|Hx]%elem_of_cons; [by left|right]. rewrite Forall_forall in H1. auto.
  - destruct (show_digits_spec 20 n) as (H1 & H2 & _); [simpl; lia|lia|]. split; [done|].
    intros x Hx. right. rewrite Forall_forall in H1. auto.
Qed.

Lemma show_int_clean n c : - 10 ^ 20 < n < 10 ^ 20 -> c < chr "-" -> c ∉ show_int n.
Proof.
  intros Hn Hc Hin. apply (show_int_digits n Hn) in Hin as [->|Hin]; [lia|].
  unfold is_digit in Hin. apply andb_true_iff in Hin as [Hin%Z.leb_le _].
  change (chr "0") with 48 in Hin. change (chr "-") with 45 in Hc. lia.
Qed.

Lemma no_ws_trimmed s : (forall x, x ∈ s -> is_ws x = false) -> trimmed is_ws s.
Proof.
  intros H. split; [destruct s; [done|]; apply H; apply elem_of_cons; by left|].
  destruct (last s) as [x|] eqn:E; [|done]. apply H. by apply last_Some_elem_of in E.
Qed.

Lemma parse_int64_show n : i64_min <= n <= i64_max -> parse_int64 (show_int n) = Some n.
Proof.
  unfold i64_min, i64_max. intros Hn. unfold parse_int64, trim.
  rewrite trim_by_id.
  2: { apply no_ws_trimmed. intros x [->|Hx]%show_int_digits; [done| |lia].
       unfold is_digit in Hx. change (chr "0") with 48 in Hx. change (chr "9") with 57 in Hx.
       apply andb_true_iff in Hx as [?%Z.leb_le ?%Z.leb_le].
       unfold is_ws. change (chr " ") with 32. rewrite !orb_false_iff, !Z.eqb_neq. lia. }
  pose proof (from_chars_show i64_min i64_max n []) as F. rewrite app_nil_r in F.
  unfold i64_min, i64_max in *. specialize (F ltac:(lia) ltac:(lia) ltac:(lia) I).
  destruct (show_int n) as [|c t] eqn:E; [by apply show_int_digits in E; lia|].
  destruct (Z.eqb_spec c (chr "+")) as [->|]; [|by rewrite F].
  exfalso. assert (Hin : chr "+" ∈ show_int n) by (rewrite E; apply elem_of_cons; by left).
  apply show_int_clean in Hin; [done|lia|done].
Qed.

Definition saved (c : cookie) : cookie := with_same_site c lax.

Lemma or_slash_absolute p : absolute p -> or_slash p = p.
Proof. by intros [t ->]. Qed.

(** A line written for a cookie reads back as the cookie, without [same_site]. *)
Lemma parse_cookie_line c : file_ok c -> parse_netscape_cookie_line (cookie_line c) = Some (saved c).
Proof.
  intros ((Hn & _ & Hdne & Ha & _) & [Hn9 _] & [Hv9 _] & [Hd9 _] & [Hp9 _] & Hv & Hd & Hh & He).
  unfold parse_netscape_cookie_line. cbv zeta.
  set (fields := (if host_only c then str "FALSE" else str "TRUE") ++ tab ++
    or_slash (cpath c) ++ tab ++ (if secure c then str "TRUE" else str "FALSE") ++ tab ++
    show_int (expires c) ++ tab ++ name c ++ tab ++ value c).
  assert (Hm : starts_with (str "#HttpOnly_") (cookie_line c) = http_only c).
  { unfold cookie_line. fold fields. destruct (http_only c); [by rewrite <- app_assoc, starts_with_app|].
    destruct (starts_with _ _) eqn:E; [|done]. apply starts_with_spec in E as [r E].
    destruct (domain c) as [|x d] eqn:Ed; [done|]. injection E as -> _. by destruct (Hh d). }
  rewrite Hm.
  assert (Hf : negb (http_only c) && match cookie_line c with [] => true | x :: _ => x =? chr "#" end = false).
  { destruct (http_only c) eqn:Eh; [done|]. simpl. unfold cookie_line. rewrite Eh.
    destruct (domain c) as [|x d] eqn:Ed; [done|]. simpl. apply Z.eqb_neq. intros ->. by destruct (Hh d). }
  rewrite Hf.
  assert (Hl : (if http_only c then drop 10 (cookie_line c) else cookie_line c) = domain c ++ 9 :: fields).
  { unfold cookie_line. fold fields. by destruct (http_only c). }
  rewrite Hl, getlines_cons by done. unfold fields, tab. cbn [app].
  rewrite getlines_cons by (destruct (host_only c); apply (bool_decide_unpack _); vm_compute; exact I).
  rewrite or_slash_absolute by done. rewrite getlines_cons by done.
  rewrite getlines_cons by (destruct (secure c); apply (bool_decide_unpack _); vm_compute; exact I).
  unfold i64_min, i64_max in He.
  rewrite getlines_cons by (apply show_int_clean; [lia|done]).
  rewrite getlines_cons, getlines_last by done.
  rewrite Hd, or_slash_absolute, parse_int64_show by done. cbn [domain name].
  destruct (domain c) eqn:Ed; [done|]. destruct (name c) eqn:En; [done|]. rewrite <- Ed, <- En.
  unfold saved, with_same_site. f_equal. destruct c as [n v dm p e s h ho ss]. cbn.
  f_equal; by destruct s, ho.
Qed.

Lemma cookie_line_clean c : file_ok c -> 10 ∉ cookie_line c.
Proof.
  intros ((Hn & _ & Hdne & Ha & _) & [_ Hn0] & [_ Hv0] & [_ Hd0] & [_ Hp0] & Hv & Hd & Hh & He).
  unfold cookie_line. rewrite or_slash_absolute by done. unfold i64_min, i64_max in He.
  assert (Hs : 10 ∉ show_int (expires c)) by (apply show_int_clean; [lia|done]).
  assert (Hdom : 10 ∉ (if http_only c then str "#HttpOnly_" ++ domain c else domain c)).
  { destruct (http_only c); [|done]. apply not_elem_of_app. split; [|done].
    apply (bool_decide_unpack _). vm_compute. exact I. }
  assert (Ht : 10 ∉ tab) by (apply (bool_decide_unpack _); vm_compute; exact I).
  assert (Hb : forall b : bool, 10 ∉ (if b then str "FALSE" else str "TRUE"))
    by (intros []; apply (bool_decide_unpack _); vm_compute; exact I).
  assert (Hb2 : forall b : bool, 10 ∉ (if b then str "TRUE" else str "FALSE"))
    by (intros []; apply (bool_decide_unpack _); vm_compute; exact I).
  repeat (apply not_elem_of_app; split); try done.
Qed.

Lemma getlines_contents cs : Forall file_ok cs ->
  getlines 10 (file_contents cs) = str "# Netscape HTTP Cookie File" :: map cookie_line cs.
Proof.
  intros H. unfold file_contents, file_header. rewrite <- app_assoc. cbn [app].
  rewrite getlines_cons by (apply (bool_decide_unpack _); vm_compute; exact I). f_equal.
  induction H as [|c cs Hc Hcs IH]; [done|]. simpl. rewrite <- app_assoc. cbn [app].
  rewrite getlines_cons by by apply cookie_line_clean. by f_equal.
Qed.

Lemma cleaned_saved c : file_ok c -> cleaned (saved c) = saved c.
Proof.
  intros ((Hn & Ht & Hdne & [t Ha] & _) & _ & _ & _ & _ & Hv & Hd & _). unfold cleaned, saved.
  cbn [name value domain cpath expires secure http_only host_only same_site with_same_site].
  rewrite Ht, Hd, Ha, Z.eqb_refl. unfold with_same_site. rewrite Ha. done.
Qed.

Lemma replace_or_push_fresh c cs : cookie_key c ∉ cookie_key <$> cs -> replace_or_push c cs = cs ++ [c].
Proof.
  induction cs as [|e cs IH]; simpl; [done|]. intros [He Hc]%not_elem_of_cons.
  destruct (same_key c e) eqn:E; [|by rewrite IH]. apply same_key_spec in E. congruence.
Qed.

Lemma purge_none now cs : Forall (fun c => expired now c = false) cs -> purge_expired_locked now cs = cs.
Proof.
  unfold purge_expired_locked. induction 1 as [|c cs Hc Hcs IH]; simpl; [done|]. by rewrite Hc, IH.
Qed.

Lemma set_locked_push can_write now c j files : file_ok c -> expired now c = false ->
  Forall (fun c => expired now c = false) (cookies j) -> cookie_key c ∉ cookie_key <$> cookies j ->
  set_locked can_write now (saved c) false j files
  = (true, MkJar (persist_path j) (cookies j ++ [saved c]), files).
Proof.
  intros Hc He Hj Hk. unfold set_locked. cbv zeta. rewrite cleaned_saved by done.
  destruct Hc as ((Hn & _ & Hd & _) & _). cbn [name domain same_site saved with_same_site].
  destruct (name c) eqn:En; [done|]. destruct (domain c) eqn:Ed; [done|].
  case_bool_decide; [done|]. cbn [andb]. change (expired now (saved c)) with (expired now c). rewrite He.
  rewrite purge_none by done. rewrite replace_or_push_fresh; [done|].
  unfold cookie_key in *. cbn [name domain cpath saved with_same_site]. by rewrite En, Ed in *.
Qed.

Lemma import_lines_push can_write now cs j files : Forall file_ok cs ->
  Forall (fun c => expired now c = false) (cookies j ++ cs) ->
  NoDup (cookie_key <$> (cookies j ++ cs)) ->
  import_lines can_write now (map cookie_line cs) j files
  = MkJar (persist_path j) (cookies j ++ map saved cs).
Proof.
  intros H. revert j. induction H as [|c cs Hc Hcs IH]; intros j Hex Hnd; simpl.
  { rewrite app_nil_r. by destruct j. }
  rewrite parse_cookie_line by done. apply Forall_app in Hex as [Hex1 Hex2].
  inversion Hex2 as [|?? Hec Hexc]; subst. rewrite fmap_app in Hnd.
  rewrite set_locked_push; [|done|done|done|].
  2: { apply NoDup_app in Hnd as (_ & Hd & _). intros Hin. apply (Hd _ Hin). apply elem_of_cons. by left. }
  rewrite IH; cbn [cookies persist_path]; [by rewrite <- app_assoc| |].
  - rewrite <- app_assoc. apply Forall_app. split; [done|]. constructor; done.
  - rewrite <- app_assoc, fmap_app. exact Hnd.
Qed.

(** * Sequences of operations *)

Inductive jar_op : Type :=
| OSet (now : Z) (c : cookie)
| OSetFields (now : Z) (dom nm val p : bytes) (exp : Z) (sec http : bool)
| OSetHeader (now : Z) (header url : bytes)
| ORemove (nm url : bytes)
| OClear
| OPersist (now : Z) (p : bytes)
| OImport (now : Z) (lines : list bytes).

Section Runs.
Context (can_write : bytes -> bool) (get_time : Z -> bytes -> option Z).

Definition run_op (o : jar_op) (st : cookie_jar * fs) : outcome (cookie_jar * fs) :=
  let '(j, files) := st in
  match o with
  | OSet now c => let '(_, j', f') := set can_write now c j files in Ret (j', f')
  | OSetFields now dom nm val p exp sec http =>
      Ret (set_fields can_write now dom nm val p exp sec http j files)
  | OSetHeader now header url =>
      r ← set_from_header can_write get_time now header url j files;
      let '(_, j', f') := r in Ret (j', f')
  | ORemove nm url => let '(_, j', f') := remove can_write nm url j files in Ret (j', f')
  | OClear => Ret (clear can_write j files)
  | OPersist now p => Ret (persist can_write now p j files, files)
  | OImport now lines => Ret (import_netscape_lines can_write now lines j files)
  end.

Fixpoint run_ops (os : list jar_op) (st : cookie_jar * fs) : outcome (cookie_jar * fs) :=
  match os with
  | [] => Ret st
  | o :: os' => st' ← run_op o st; run_ops os' st'
  end.

Lemma load_from_disk_ok now j files : jar_ok j -> jar_ok (load_from_disk can_write now j files).
Proof.
  intros Hj. unfold load_from_disk. destruct (persist_path j); [done|].
  destruct (files !! _); [|done]. by apply import_lines_ok.
Qed.

Lemma run_op_ok o st st' : jar_ok st.1 -> run_op o st = Ret st' -> jar_ok st'.1.
Proof.
  destruct st as [j files]. simpl. intros Hj. destruct o as [now c|now dom nm val p exp sec http|now hd url|nm url| |now p|now lines]; simpl.
  - pose proof (set_locked_ok can_write now c true j files Hj) as H. unfold set.
    destruct (set_locked _ _ _ _ _ _) as [[b j'] f']. by intros [= <-].
  - unfold set_fields, set. set (c := MkCookie _ _ _ _ _ _ _ _ _).
    pose proof (set_locked_ok can_write now c true j files Hj) as H.
    destruct (set_locked _ _ _ _ _ _) as [[b j'] f']. by intros [= <-].
  - unfold set_from_header. destruct (parse_set_cookie _ _ _ _) as [[c|]| | |]; simpl; try done.
    + pose proof (set_locked_ok can_write now c true j files Hj) as H. unfold set.
      destruct (set_locked _ _ _ _ _ _) as [[b j'] f']. by intros [= <-].
    + by intros [= <-].
  - intros [= <-]. simpl. destruct j. by apply jar_ok_filter.
  - intros [= <-]. apply jar_ok_empty.
  - intros [= <-]. simpl. apply load_from_disk_ok, jar_ok_empty.
  - intros [= <-]. simpl. apply import_lines_ok, jar_ok_empty.
Qed.

(** C6. From opening a jar on, whatever sequence of sets, headers, removals,
    clears, path changes and imports runs, the stored cookies have a trimmed
    non-empty name, a domain, an absolute path and are [Secure] when they are
    [SameSite=None], and no two share name, domain and path. *)
Theorem cookie_jar_invariant now p files os st :
  run_ops os (open_jar can_write now p files, files) = Ret st -> jar_ok st.1.
Proof.
  assert (H : jar_ok (open_jar can_write now p files, files).1)
    by apply load_from_disk_ok, jar_ok_empty.
  revert H. generalize (open_jar can_write now p files, files). induction os as [|o os IH]; simpl; intros s Hs.
  - by intros [= <-].
  - intros (s' & Hs' & Hr)%bind_inv. eapply IH; [|exact Hr]. by eapply run_op_ok.
Qed.

Lemma schedule_save_cases j files : schedule_save_locked can_write j files = files \/
  schedule_save_locked can_write j files = save_now_snapshot can_write (cookies j) (persist_path j) files.
Proof. unfold schedule_save_locked. destruct (persist_path j); auto. Qed.

Lemma set_locked_files now c sched j files b j' files' :
  set_locked can_write now c sched j files = (b, j', files') ->
  files' = files \/ files' = save_now_snapshot can_write (cookies j') (persist_path j') files.
Proof.
  unfold set_locked. cbv zeta. destruct (name (cleaned c)); [intros [= _ _ <-]; by left|].
  destruct (domain (cleaned c)); [intros [= _ _ <-]; by left|].
  destruct (_ && negb (secure _)); [intros [= _ _ <-]; by left|].
  destruct (expired now (cleaned c)); intros [= _ <- <-].
  - destruct (_ && negb _); [apply schedule_save_cases|by left].
  - destruct sched; [apply schedule_save_cases|by left].
Qed.

(** An accepted [set] stores exactly the cleaned cookie under its name,
    domain and path (removing it when its expiry has passed), drops every
    expired cookie and keeps all others; a rejected one changes nothing. *)
Lemma cookie_set_spec now c j files : jar_ok j ->
  match set can_write now c j files with
  | (true, j', files') =>
      (forall x, x ∈ cookies j' <->
        x = cleaned c /\ expired now (cleaned c) = false \/
        x ∈ cookies j /\ expired now x = false /\ cookie_key x <> cookie_key (cleaned c)) /\
      (files' = files \/ files' = save_now_snapshot can_write (cookies j') (persist_path j) files)
  | (false, j', files') =>
      j' = j /\ files' = files /\
      (name (cleaned c) = [] \/ domain (cleaned c) = [] \/ same_site c = none /\ secure c = false)
  end.
Proof.
  intros Hj. unfold set. destruct (set_locked can_write now c true j files) as [[[] j'] files'] eqn:E.
  - destruct (set_locked_true _ _ _ _ _ _ _ _ Hj E) as (_ & Hp & Hx). split; [done|].
    rewrite <- Hp. by eapply set_locked_files.
  - destruct (set_locked_false _ _ _ _ _ _ _ _ E) as [-> ->]. split; [done|]. split; [done|].
    unfold set_locked in E. cbv zeta in E. destruct (name (cleaned c)); [by left|].
    destruct (domain (cleaned c)); [by right; left|]. right. right.
    change (same_site (cleaned c)) with (same_site c) in E. change (secure (cleaned c)) with (secure c) in E.
    case_bool_decide; [|by destruct (expired _ _)]. destruct (secure c); [by destruct (expired _ _)|done].
Qed.

(** [a; b; c] for the rendered pairs. *)
Fixpoint join (sep : bytes) (l : list bytes) : bytes :=
  match l with
  | [] => []
  | [x] => x
  | x :: l' => x ++ sep ++ join sep l'
  end.

Definition cookie_pair (c : cookie) : bytes := name c ++ [chr "="] ++ value c.

Lemma header_loop_join out cs : out <> [] ->
  header_loop out cs = match cs with [] => out | _ => out ++ str "; " ++ join (str "; ") (map cookie_pair cs) end.
Proof.
  revert out. induction cs as [|c cs IH]; intros out Ho; [done|]. cbn [header_loop].
  assert (E : match out with [] => [] | _ => out ++ str "; " end = out ++ str "; ") by by destruct out.
  rewrite E, IH by by destruct out. destruct cs as [|c' cs].
  - cbn [map join]. unfold cookie_pair. by rewrite <- !app_assoc.
  - change (join (str "; ") (map cookie_pair (c :: c' :: cs)))
      with (cookie_pair c ++ str "; " ++ join (str "; ") (map cookie_pair (c' :: cs))).
    unfold cookie_pair at 2. rewrite <- !app_assoc. done.
Qed.

Lemma header_join cs : header_loop [] cs = join (str "; ") (map cookie_pair cs).
Proof.
  destruct cs as [|c cs]; [done|]. cbn [header_loop app].
  rewrite header_loop_join by by destruct (name c). by destruct cs.
Qed.

(** The cookies sent with a request are exactly the stored ones that are not
    expired, are not [Secure] unless the URL is https, whose domain is the
    request's host or (unless host-only) a dot-separated suffix of it, and whose
    path covers the request's path at a slash boundary; they are listed as
    [name=value] joined by [; ], longer paths first. *)
Lemma pick_for_request_spec now url j :
  let u := parse_url url in
  exists l, pick_for_request now url j = join (str "; ") (map cookie_pair l) /\
    (forall c, c ∈ l <-> c ∈ cookies j /\ expired now c = false /\
       (secure c = true -> scheme u = str "https") /\
       domain_covers (domain c) (host_only c) (host u) /\
       path_covers (or_slash (cpath c)) (or_slash (path u))) /\
    StronglySorted (fun a b => zlen (cpath b) <= zlen (cpath a)) l /\
    l ≡ₚ List.filter (eligible now u) (cookies j).
Proof.
  cbv zeta. exists (matches_for now url j). split; [apply header_join|]. unfold matches_for.
  assert (Hperm := stable_sort_perm longer_path (List.filter (eligible now (parse_url url)) (cookies j))).
  split_and!.
  - intros c. rewrite list_elem_of_In, Hperm, <- list_elem_of_In, elem_filter_bool.
    unfold eligible. rewrite !andb_true_iff, !negb_true_iff, domain_matches_spec, path_matches_spec.
    rewrite andb_false_iff, negb_false_iff, bool_decide_eq_true.
    destruct (secure c); intuition congruence.
  - eapply StronglySorted_weaken; [|apply stable_sort_sorted].
    + unfold not_less, longer_path. intros a b ?%Z.ltb_ge. done.
    + unfold longer_path. intros a b ?%Z.ltb_lt. apply Z.ltb_ge. lia.
    + unfold longer_path. intros a b c ?%Z.ltb_ge ?%Z.ltb_ge. apply Z.ltb_ge. lia.
  - done.
Qed.

(** A [Set-Cookie] header yields only a cookie its URL may set: a named
    cookie with an absolute path, [Secure] if [SameSite=None], for the URL's host
    alone or for a domain that covers that host.  Parsing terminates, and is
    defined unless a [Max-Age] value in the header overflows the clock. *)
Lemma parse_set_cookie_sound now header url : 0 <= now ->
  match parse_set_cookie get_time now header url with
  | Ret (Some c) =>
      name c <> [] /\ trim (name c) = name c /\ absolute (cpath c) /\ domain c <> [] /\
      (same_site c = none -> secure c = true) /\
      (if host_only c then domain c = host (parse_url url)
       else host (parse_url url) = [] \/ domain_covers (domain c) false (host (parse_url url)))
  | Ret None => True
  | Ub => exists v d, infix_of v header /\ parse_int64 v = Some d /\ i64_max < now + d
  | Throw _ | OutOfFuel => False
  end.
Proof.
  intros Hnow. unfold parse_set_cookie. cbv zeta.
  set (rest := match find_char (chr ";") header 0 with None => [] | _ => _ end).
  assert (Hi : infix_of rest header).
  { unfold rest. destruct (find_char _ _ _); [apply infix_zdrop|]. exists [], header. done. }
  clearbody rest. destruct (find_char (chr "=") _ 0) as [eq|]; [|done].
  set (pair := match _ with None => header | _ => _ end). set (nm := trim (substr pair 0 eq)).
  destruct nm as [|n0 nm'] eqn:En; [done|]. set (val := trim _).
  assert (Hnm : trim (n0 :: nm') = n0 :: nm') by (rewrite <- En; apply trim_idemp).
  set (out := MkCookie _ _ _ _ _ _ _ _ _).
  assert (Hd : draft_ok (n0 :: nm') (host (parse_url url)) out).
  { split_and!; [done|apply default_cookie_path_absolute|by left]. }
  pose proof (attributes_loop_ok get_time (length rest) now _ _ rest out false Hnow ltac:(lia) Hd) as P.
  destruct (attributes_loop _ _ _ _ _ _) as [[c|]| | |]; cbn [mbind outcome_bind]; try done.
  - destruct P as (Hn & Hp & Hdom). destruct (domain c) as [|d0 dm] eqn:Edm; [done|].
    destruct (_ && negb (secure c)) eqn:Es; [done|]. rewrite Hn, Edm. split_and!; try done.
    + intros Hs. rewrite Hs in Es. by destruct (secure c).
    + destruct Hdom as [[-> Hh]|(-> & _ & Hh)]; done.
  - destruct P as (v & d & Hv & H). exists v, d. split; [|done]. by eapply infix_trans.
Qed.

(** Saving and reopening a jar of unexpired cookies with clean fields returns
    the same cookies in the same order, except that [SameSite] is forgotten. *)
Lemma cookie_file_roundtrip now j files : jar_ok j -> persist_path j <> [] ->
  can_write (persist_path j) = true -> Forall file_ok (cookies j) ->
  Forall (fun c => expired now c = false) (cookies j) ->
  open_jar can_write now (persist_path j) (schedule_save_locked can_write j files)
  = MkJar (persist_path j) (map saved (cookies j)).
Proof.
  intros [_ Hnd] Hp Hw Hf He. unfold open_jar, load_from_disk, schedule_save_locked, save_now_snapshot.
  cbn [persist_path]. destruct (persist_path j) as [|p0 p] eqn:E; [done|]. cbn [persist_path]. rewrite Hw.
  rewrite lookup_insert_eq. rewrite getlines_contents by done. cbn [import_lines].
  change (parse_netscape_cookie_line (str "# Netscape HTTP Cookie File")) with (@None cookie).
  by rewrite import_lines_push.
Qed.
End Runs.

(** * Concrete inputs *)

Definition no_time : Z -> bytes -> option Z := fun _ _ => None.
Definition all_writable : bytes -> bool := fun _ => true.

Definition sample_jar : cookie_jar :=
  MkJar (str "/tmp/jar")
    [MkCookie (str "sid") (str "42") (str "example.com") (str "/") 0 true true true lax;
     MkCookie (str "lang") (str "en") (str "example.com") (str "/app") 2000000000 false false false lax].

Lemma sample_jar_ok : jar_ok sample_jar.
Proof.
  split.
  - repeat (apply List.Forall_cons || apply List.Forall_nil);
      (split_and!; [discriminate|reflexivity|discriminate|eexists; reflexivity|discriminate]).
  - apply (bool_decide_unpack _). vm_compute. exact I.
Qed.

Lemma sample_jar_file_ok : Forall file_ok (cookies sample_jar).
Proof.
  assert (D : forall v : bytes, bool_decide (9 ∉ v) && bool_decide (10 ∉ v) = true -> field_ok v)
    by (intros v [?%bool_decide_eq_true ?%bool_decide_eq_true]%andb_true_iff; by split).
  repeat (apply List.Forall_cons || apply List.Forall_nil);
    (split; [split_and!; [discriminate|reflexivity|discriminate|eexists; reflexivity|discriminate]|]);
    (split; [apply D; vm_compute; reflexivity|]); (split; [apply D; vm_compute; reflexivity|]);
    (split; [apply D; vm_compute; reflexivity|]); (split; [apply D; vm_compute; reflexivity|]);
    (split; [discriminate|]); (split; [vm_compute; reflexivity|]); (split; [intros t; discriminate|]);
    cbn [expires]; unfold i64_min, i64_max; lia.
Qed.

Lemma cookie_jar_invariant_witness : exists st,
  run_ops all_writable no_time
    [OSetHeader 1700000000 (str "sid=42; Path=/; Secure; HttpOnly") (str "https://Example.com/x/y");
     OSetHeader 1700000000 (str "lang=en; Domain=example.com") (str "https://www.example.com/app/");
     ORemove (str "sid") (str "https://example.com/")]
    (open_jar all_writable 1700000000 (str "/tmp/jar") ∅, ∅) = Ret st /\ jar_ok st.1 /\
  map name (cookies st.1) = [str "lang"].
Proof.
  eexists. split; [vm_compute; reflexivity|]. split; [|vm_compute; reflexivity].
  apply (cookie_jar_invariant all_writable no_time 1700000000 (str "/tmp/jar") ∅
    [OSetHeader 1700000000 (str "sid=42; Path=/; Secure; HttpOnly") (str "https://Example.com/x/y");
     OSetHeader 1700000000 (str "lang=en; Domain=example.com") (str "https://www.example.com/app/");
     ORemove (str "sid") (str "https://example.com/")]).
  vm_compute. reflexivity.
Defined.

Definition new_sid : cookie := MkCookie (str " sid ") (str "43") (str ".Example.com") [] 0 true true true lax.

Lemma cookie_set_spec_witness : jar_ok sample_jar /\
  match set all_writable 1700000000 new_sid sample_jar ∅ with
  | (true, j', _) => MkCookie (str "sid") (str "43") (str "example.com") (str "/") 0 true true true lax ∈ cookies j'
  | _ => False
  end.
Proof.
  split; [apply sample_jar_ok|].
  pose proof (cookie_set_spec all_writable 1700000000 new_sid sample_jar ∅ sample_jar_ok) as H.
  destruct (set all_writable 1700000000 new_sid sample_jar ∅) as [[[] j'] files'].
  - apply (proj1 H). left. vm_compute. split; reflexivity.
  - destruct H as (_ & _ & [H|[H|[H _]]]); vm_compute in H; discriminate H.
Defined.

Definition domain_cookie : cookie :=
  MkCookie (str "a") (str "b") (str "example.com") (str "/") 1700000060 false false false lax.

Lemma parse_set_cookie_sound_witness :
  0 <= 1700000000 /\
  parse_set_cookie no_time 1700000000 (str "a=b; Domain=.example.com; Max-Age=60")
    (str "https://www.example.com/") = Ret (Some domain_cookie) /\
  domain_covers (str "example.com") false (host (parse_url (str "https://www.example.com/"))).
Proof.
  assert (E : parse_set_cookie no_time 1700000000 (str "a=b; Domain=.example.com; Max-Age=60")
    (str "https://www.example.com/") = Ret (Some domain_cookie)) by (vm_compute; reflexivity).
  pose proof (parse_set_cookie_sound no_time 1700000000 (str "a=b; Domain=.example.com; Max-Age=60")
    (str "https://www.example.com/") ltac:(lia)) as H.
  split; [lia|]. split; [exact E|]. rewrite E in H.
  destruct H as (_ & _ & _ & _ & _ & [H|H]); [|exact H].
  exfalso. assert (F : host (parse_url (str "https://www.example.com/")) = str "www.example.com")
    by (vm_compute; reflexivity). rewrite F in H. discriminate H.
Defined.

Lemma cookie_file_roundtrip_witness :
  open_jar all_writable 1700000000 (str "/tmp/jar") (schedule_save_locked all_writable sample_jar ∅)
  = sample_jar.
Proof.
  apply (cookie_file_roundtrip all_writable 1700000000 sample_jar ∅ sample_jar_ok ltac:(discriminate)
    eq_refl sample_jar_file_ok).
  repeat constructor.
Defined.

(** * Behaviours of the source worth knowing *)

(** A server can make the signed addition of [Max-Age] to the clock overflow. *)
Lemma max_age_overflows : parse_set_cookie no_time 1700000000
  (str "a=b; Max-Age=9223372036854775807") (str "https://x/") = Ub.
Proof. vm_compute. reflexivity. Qed.

(** A slash in the query of a URL without a path is taken for its path. *)
Lemma query_slash_becomes_path :
  path (parse_url (str "https://x?next=/account")) = str "/account".
Proof. vm_compute. reflexivity. Qed.

(** A cookie with an empty value is written but not read back. *)
Lemma empty_value_lost : parse_netscape_cookie_line
  (cookie_line (MkCookie (str "a") [] (str "x") (str "/") 0 false false true lax)) = None.
Proof. vm_compute. reflexivity. Qed.
