(* ===== verification/WebAuthn.v ===== *)
(** WebAuthn: relying-party identifiers ([src/webauthn/rp_id.cpp]), option
    validation ([options.cpp]), client data ([client_data.cpp]) and the COSE and
    attestation CBOR structures ([attestation.cpp]).

    mbedTLS's SHA-256 is a parameter; the CBOR codec is the one of [Cbor] with its
    allocation limits. *)

From S2P Require Import Prelude Strings Cbor.

(** * Relying-party identifiers *)

Definition is_lower (c : Z) : bool := (chr "a" <=? c) && (c <=? chr "z").

Fixpoint rp_id_loop (previous : Z) (s : bytes) : bool :=
  match s with
  | [] => true
  | ch :: s' =>
      let is_dash := ch =? chr "-" in
      let is_dot := ch =? chr "." in
      if negb (is_lower ch || is_digit ch || is_dash || is_dot) then false
      else if (previous =? chr ".") && (ch =? chr ".") then false
      else rp_id_loop ch s'
  end.

Definition is_valid_rp_id_syntax (rp_id : bytes) : bool :=
  match rp_id with
  | [] => false
  | front :: _ =>
      if (front =? chr ".") || match last rp_id with Some b => b =? chr "." | None => false end
      then false
      else rp_id_loop 0 rp_id
  end.

Definition host_matches_rp_id (origin_host rp_id : bytes) : bool :=
  match origin_host with
  | [] => false
  | _ =>
      if bool_decide (origin_host = rp_id) then true
      else if zlen origin_host <=? zlen rp_id then false
      else
        let offset := (length origin_host - length rp_id)%nat in
        match origin_host !! (offset - 1)%nat with
        | Some c => (c =? chr ".") && bool_decide (drop offset origin_host = rp_id)
        | None => false
        end
  end.

Record rp_id_policy : Type := MkPolicy { allowed : list bytes; allow_any : bool }.

Definition validate_rp_id (rp_id origin_host : bytes) (policy : rp_id_policy) : bool :=
  if negb (is_valid_rp_id_syntax rp_id) then false
  else if negb (host_matches_rp_id origin_host rp_id) then false
  else if allow_any policy then true
  else bool_decide (rp_id ∈ allowed policy).

(** * Options *)

Inductive cose_algorithm := es256 | eddsa | rs256.

#[export] Instance cose_algorithm_eq_dec : EqDecision cose_algorithm.
Proof. solve_decision. Defined.

Definition algorithm_value (a : cose_algorithm) : Z :=
  match a with es256 => -7 | eddsa => -8 | rs256 => -257 end.

Record user_entity : Type := MkUser { user_id : bytes; user_name : bytes; display_name : bytes }.

Record creation_options : Type := MkCreation {
  c_rp_id : bytes;
  c_rp_name : bytes;
  c_user : user_entity;
  c_challenge : bytes;
  c_pub_key_params : list cose_algorithm;
  c_exclude_credentials : list bytes;
  c_authenticator_attachment : bytes;
  c_user_verification : bytes;
  c_resident_key : bytes;
  c_attestation : bytes;
  c_timeout_ms : Z }.

Record request_options : Type := MkRequest {
  r_rp_id : bytes;
  r_challenge : bytes;
  r_allow_credentials : list bytes;
  r_user_verification : bytes;
  r_timeout_ms : Z }.

Definition one_of (value : bytes) (candidates : list bytes) : bool :=
  existsb (fun candidate => bool_decide (candidate = value)) candidates.

Definition is_nil {A} (l : list A) : bool := match l with [] => true | _ => false end.

(** The message is empty when the options are valid. *)
Definition validate_creation_options (o : creation_options) : string :=
  if is_nil (c_rp_id o) || negb (is_valid_rp_id_syntax (c_rp_id o)) then "creation: rp.id is invalid"
  else if is_nil (c_rp_name o) then "creation: rp.name is required"
  else if is_nil (user_id (c_user o)) || (64 <? zlen (user_id (c_user o)))
  then "creation: user.id must be 1-64 bytes"
  else if is_nil (user_name (c_user o)) then "creation: user.name is required"
  else if zlen (c_challenge o) <? 16 then "creation: challenge must be at least 16 bytes"
  else if is_nil (c_pub_key_params o) then "creation: pubKeyCredParams is required"
  else if negb (one_of (c_authenticator_attachment o) [[]; str "platform"; str "cross-platform"])
  then "creation: authenticatorAttachment is invalid"
  else if negb (one_of (c_user_verification o) [[]; str "discouraged"; str "preferred"; str "required"])
  then "creation: userVerification is invalid"
  else if negb (one_of (c_attestation o) [[]; str "none"; str "indirect"; str "direct"; str "enterprise"])
  then "creation: attestation is invalid"
  else if negb (one_of (c_resident_key o) [[]; str "discouraged"; str "preferred"; str "required"])
  then "creation: residentKey is invalid"
  else "".

Definition validate_request_options (o : request_options) : string :=
  if is_nil (r_rp_id o) || negb (is_valid_rp_id_syntax (r_rp_id o)) then "request: rp.id is invalid"
  else if zlen (r_challenge o) <? 16 then "request: challenge must be at least 16 bytes"
  else if negb (one_of (r_user_verification o) [[]; str "discouraged"; str "preferred"; str "required"])
  then "request: userVerification is invalid"
  else "".

(** * Client data *)

Definition k_table : bytes :=
  str "ABCDEFGHIJKLMNOPQRSTUVWXYZabcdefghijklmnopqrstuvwxyz0123456789-_".

(** [k_table\[(chunk >> shift) & 0x3f\]] *)
Definition sextet (chunk shift : Z) : Z :=
  nth (Z.to_nat (Z.land (Z.shiftr chunk shift) 0x3f)) k_table 0.

Fixpoint base64url_no_pad (bs : bytes) : bytes :=
  match bs with
  | b0 :: b1 :: b2 :: bs' =>
      let chunk := Z.lor (Z.lor (Z.shiftl b0 16) (Z.shiftl b1 8)) b2 in
      sextet chunk 18 :: sextet chunk 12 :: sextet chunk 6 :: sextet chunk 0 :: base64url_no_pad bs'
  | [b0; b1] =>
      let chunk := Z.lor (Z.shiftl b0 16) (Z.shiftl b1 8) in
      [sextet chunk 18; sextet chunk 12; sextet chunk 6]
  | [b0] =>
      let chunk := Z.shiftl b0 16 in
      [sextet chunk 18; sextet chunk 12]
  | [] => []
  end.

Definition k_hex : bytes := str "0123456789abcdef".
Definition quote : Z := 34.
Definition backslash : Z := 92.

Definition escape_char (ch : Z) : bytes :=
  if ch =? quote then [backslash; quote]
  else if ch =? backslash then [backslash; backslash]
  else if ch =? 8 then [backslash; chr "b"]
  else if ch =? 12 then [backslash; chr "f"]
  else if ch =? 10 then [backslash; chr "n"]
  else if ch =? 13 then [backslash; chr "r"]
  else if ch =? 9 then [backslash; chr "t"]
  else if ch <? 0x20 then
    backslash :: str "u00" ++
      [nth (Z.to_nat (Z.land (Z.shiftr ch 4) 0x0f)) k_hex 0; nth (Z.to_nat (Z.land ch 0x0f)) k_hex 0]
  else [ch].

(** What [append_json_escaped] appends. *)
Definition append_json_escaped (input : bytes) : bytes := concat (map escape_char input).

Inductive client_data_type := create | get.

Definition type_string (t : client_data_type) : bytes :=
  match t with create => str "webauthn.create" | get => str "webauthn.get" end.

Definition quoted (s : string) : bytes := quote :: str s ++ [quote].

Definition client_data_json (t : client_data_type) (challenge origin : bytes) (cross_origin : bool) : bytes :=
  str "{" ++ quoted "type" ++ str ":" ++ [quote] ++ type_string t ++
  [quote] ++ str "," ++ quoted "challenge" ++ str ":" ++ [quote] ++ base64url_no_pad challenge ++
  [quote] ++ str "," ++ quoted "origin" ++ str ":" ++ [quote] ++ append_json_escaped origin ++ [quote] ++
  (if cross_origin then str "," ++ quoted "crossOrigin" ++ str ":true" else []) ++ str "}".

Record client_data : Type := MkClientData { json : bytes; hash : bytes }.

Definition build_client_data (sha256 : bytes -> bytes) (t : client_data_type) (challenge origin : bytes)
    (cross_origin : bool) : client_data :=
  let j := client_data_json t challenge origin cross_origin in MkClientData j (sha256 j).

(** * COSE keys and attestation objects *)

Record cose_ec2_key : Type := MkCose { alg : cose_algorithm; crv : Z; key_x : bytes; key_y : bytes }.

Definition cose_value (k : cose_ec2_key) : value :=
  VCmap [(KInt 1, VUint 2); (KInt 3, VInt (algorithm_value (alg k))); (KInt (-1), VUint 1);
         (KInt (-2), VBytes (key_x k)); (KInt (-3), VBytes (key_y k))].

Definition encode_cose_ec2 (k : cose_ec2_key) : bytes :=
  if negb (crv k =? 1) then [] else encode (cose_value k).

Inductive attestation_format := fmt_none | fmt_packed.

Record attestation_object : Type := MkAttestation {
  fmt : attestation_format;
  auth_data : bytes;
  att_stmt_cbor : bytes }.

Definition fmt_string (f : attestation_format) : bytes :=
  match f with fmt_none => str "none" | fmt_packed => str "packed" end.

Section WithCbor.
Context (max_items max_pairs max_keys : Z).
Notation decode_ := (decode max_items max_pairs max_keys).

Definition as_uint (v : value) : option Z := match v with VUint n => Some n | _ => None end.
Definition as_int (v : value) : option Z := match v with VInt n => Some n | _ => None end.
Definition as_bytes (v : value) : option bytes := match v with VBytes b => Some b | _ => None end.
Definition as_text (v : value) : option bytes := match v with VText b => Some b | _ => None end.

(** The checks of [decode_cose_ec2] on the decoded pairs. *)
Definition cose_of_pairs (m : list (key * value)) : option cose_ec2_key :=
  kty ← find_int m 1;
  curve ← find_int m (-1);
  x ← find_int m (-2);
  y ← find_int m (-3);
  kty_value ← as_uint kty;
  if negb (kty_value =? 2) then None else
  crv_value ← as_uint curve;
  if negb (crv_value =? 1) then None else
  x_bytes ← as_bytes x;
  y_bytes ← as_bytes y;
  if negb (zlen x_bytes =? 32) || negb (zlen y_bytes =? 32) then None else
  match find_int m 3 with
  | None => Some (MkCose es256 1 x_bytes y_bytes)
  | Some a =>
      alg_value ← as_int a;
      if negb (alg_value =? algorithm_value es256) then None
      else Some (MkCose es256 1 x_bytes y_bytes)
  end.

Definition decode_cose_ec2 (bs : bytes) : outcome (option cose_ec2_key) :=
  decoded ← decode_ bs;
  Ret (match decoded with Some (VCmap m) => cose_of_pairs m | _ => None end).

Definition find_text_key (container : value) (k : bytes) : option value :=
  match container with
  | VCmap m => find_text m k
  | VMap m => map_find k m
  | _ => None
  end.

Definition encode_attestation_object (a : attestation_object) : outcome bytes :=
  att_stmt ← (match att_stmt_cbor a with
              | [] => Ret (Some (VCmap []))
              | _ => decode_ (att_stmt_cbor a)
              end);
  Ret (match att_stmt with
       | None => []
       | Some att_stmt_value =>
           encode (VCmap [(KText (str "fmt"), VText (fmt_string (fmt a)));
                          (KText (str "authData"), VBytes (auth_data a));
                          (KText (str "attStmt"), att_stmt_value)])
       end).

Definition attestation_of_value (v : value) : option attestation_object :=
  match v with
  | VCmap _ | VMap _ =>
      f ← find_text_key v (str "fmt") ≫= as_text;
      data ← find_text_key v (str "authData") ≫= as_bytes;
      att_stmt ← find_text_key v (str "attStmt");
      if bool_decide (f = str "none") then Some (MkAttestation fmt_none data (encode att_stmt))
      else if bool_decide (f = str "packed") then Some (MkAttestation fmt_packed data (encode att_stmt))
      else None
  | _ => None
  end.

Definition decode_attestation_object (bs : bytes) : outcome (option attestation_object) :=
  decoded ← decode_ bs;
  Ret (match decoded with Some v => attestation_of_value v | None => None end).
End WithCbor.

(** * Relying-party identifiers *)

Lemma rp_id_loop_spec prev s : rp_id_loop prev s = true <->
  Forall (fun c => is_lower c || is_digit c || (c =? chr "-") || (c =? chr ".") = true) s /\
  (forall l r, prev :: s <> l ++ chr "." :: chr "." :: r).
Proof.
  revert prev. induction s as [|c s IH]; intros prev; cbn [rp_id_loop].
  - split; [|done]. intros _. split; [constructor|]. intros l r H.
    apply (f_equal length) in H. rewrite length_app in H. simpl in H. lia.
  - cbv zeta. destruct (is_lower c || is_digit c || (c =? chr "-") || (c =? chr ".")) eqn:Ec; cbn [negb].
    2: { split; [done|]. intros [H _]. inversion H. congruence. }
    destruct ((prev =? chr ".") && (c =? chr ".")) eqn:Ed.
    { split; [done|]. intros [_ H]. apply andb_true_iff in Ed as [?%Z.eqb_eq ?%Z.eqb_eq]. subst.
      by destruct (H [] s). }
    rewrite IH. split; intros [H1 H2]; (split; [|]).
    + by constructor.
    + intros l r E. destruct l as [|x l]; [|injection E as -> E; by apply (H2 l r)].
      injection E as -> -> ->. done.
    + by inversion H1.
    + intros l r E. by apply (H2 (prev :: l) r); simpl; f_equal.
Qed.

(** A dotted name: lower-case letters, digits and dashes, every label non-empty. *)
Definition rp_id_syntax (s : bytes) : Prop :=
  s <> [] /\ Forall (fun c => is_lower c || is_digit c || (c =? chr "-") || (c =? chr ".") = true) s /\
  (forall t, s <> chr "." :: t) /\ (forall t, s <> t ++ [chr "."]) /\
  (forall l r, s <> l ++ chr "." :: chr "." :: r).

Lemma is_valid_rp_id_syntax_spec s : is_valid_rp_id_syntax s = true <-> rp_id_syntax s.
Proof.
  unfold is_valid_rp_id_syntax, rp_id_syntax. destruct s as [|c s]; [by split; [|intros [? _]]|].
  destruct ((c =? chr ".") || _) eqn:E.
  - split; [done|]. intros (_ & _ & Hh & Hl & _). exfalso. apply orb_true_iff in E as [E|E].
    + apply Z.eqb_eq in E. subst. by destruct (Hh s).
    + destruct (last (c :: s)) as [b|] eqn:El; [|done]. apply Z.eqb_eq in E. subst b.
      apply last_Some in El as [t Et]. by destruct (Hl t).
  - apply orb_false_iff in E as [E1 E2]. apply Z.eqb_neq in E1. rewrite rp_id_loop_spec. split.
    + intros [H1 H2]. split_and!; try done.
      * intros t [= ? _]. done.
      * intros t Et. rewrite Et, last_snoc in E2. by rewrite Z.eqb_refl in E2.
      * intros l r El. apply (H2 (0 :: l) r). simpl. by f_equal.
    + intros (_ & H1 & _ & _ & H2). split; [done|]. intros l r El. destruct l as [|x l]; [done|].
      injection El as _ El. by apply (H2 l r).
Qed.

Lemma host_matches_rp_id_spec h d : d <> [] ->
  host_matches_rp_id h d = true <-> h = d \/ exists p, h = p ++ chr "." :: d.
Proof.
  intros Hd. unfold host_matches_rp_id. destruct h as [|x h].
  { split; [done|]. intros [E|[p E]]; [by subst|by destruct p]. }
  set (hst := x :: h). case_bool_decide as E; [by split; [left|]|].
  destruct (Z.leb_spec (zlen hst) (zlen d)).
  { split; [done|]. intros [?|[p Ep]]; [done|]. rewrite Ep, length_app in *. simpl in *. lia. }
  assert (Hx : exists p z, hst = p ++ z :: drop (length hst - length d) hst /\
               (length p = length hst - length d - 1)%nat /\
               hst !! (length hst - length d - 1)%nat = Some z).
  { exists (take (length hst - length d - 1) hst).
    destruct (lookup_lt_is_Some_2 hst (length hst - length d - 1)) as [z Hz]; [lia|]. exists z.
    rewrite <- (take_drop_middle hst (length hst - length d - 1) z Hz) at 1.
    split; [do 3 f_equal; lia|]. rewrite length_take. split; [lia|done]. }
  destruct Hx as (p & z & Hp & Hl & Hz). rewrite Hz.
  rewrite andb_true_iff, Z.eqb_eq, bool_decide_eq_true. split.
  - intros [-> Ed]. right. exists p. by rewrite Hp, Ed.
  - intros [?|[q Hq]]; [done|].
    assert (Ed : drop (length hst - length d) hst = d).
    { rewrite Hq, length_app. cbn [length].
      replace (length q + S (length d) - length d)%nat with (length (q ++ [chr "."])) by (rewrite length_app; simpl; lia).
      replace (q ++ chr "." :: d) with ((q ++ [chr "."]) ++ d) by by rewrite <- app_assoc.
      by rewrite drop_app_length. }
    rewrite Ed in Hp. rewrite Hq in Hp.
    apply app_inj_1 in Hp as [_ Hc]; [by injection Hc|].
    rewrite Hl, Hq, length_app. simpl. lia.
Qed.

(** [validate_rp_id] accepts exactly a well-formed dotted name that is the
    origin's host or a suffix of it after a dot, and that the policy lists unless
    it allows any: no other host's identifier, and no identifier that matches
    inside a label, is ever accepted. *)
Lemma validate_rp_id_spec rp_id origin_host policy :
  validate_rp_id rp_id origin_host policy = true <->
  rp_id_syntax rp_id /\ (origin_host = rp_id \/ exists p, origin_host = p ++ chr "." :: rp_id) /\
  (allow_any policy = true \/ rp_id ∈ allowed policy).
Proof.
  unfold validate_rp_id. rewrite <- is_valid_rp_id_syntax_spec.
  destruct (is_valid_rp_id_syntax rp_id) eqn:Es; cbn [negb]; [|by split; [|intros [? _]]].
  assert (Hne : rp_id <> []) by by destruct rp_id.
  rewrite <- (host_matches_rp_id_spec origin_host rp_id Hne).
  destruct (host_matches_rp_id origin_host rp_id); cbn [negb]; [|by split; [|intros (_ & ? & _)]].
  destruct (allow_any policy).
  - split; auto.
  - rewrite bool_decide_eq_true. split; [auto|]. by intros (_ & _ & [?|?]).
Qed.

(** * Client data *)

Lemma k_table_inj i j : 0 <= i < 64 -> 0 <= j < 64 ->
  nth (Z.to_nat i) k_table 0 = nth (Z.to_nat j) k_table 0 -> i = j.
Proof.
  intros Hi Hj H. assert (Hnd : NoDup k_table) by (apply (bool_decide_unpack _); vm_compute; exact I).
  apply NoDup_ListNoDup in Hnd. rewrite NoDup_nth in Hnd.
  assert (Z.to_nat i = Z.to_nat j); [|lia]. apply Hnd; [..|exact H]; change (length k_table) with 64%nat; lia.
Qed.

Lemma sextet_index chunk shift : 0 <= shift ->
  Z.land (Z.shiftr chunk shift) 0x3f = (chunk / 2 ^ shift) mod 64.
Proof. intros. change 0x3f with (Z.ones 6). by rewrite Z.land_ones, Z.shiftr_div_pow2 by lia. Qed.

Lemma sextet_inj c1 c2 s : 0 <= s -> sextet c1 s = sextet c2 s ->
  (c1 / 2 ^ s) mod 64 = (c2 / 2 ^ s) mod 64.
Proof.
  intros Hs H. unfold sextet in H. rewrite !sextet_index in H by done.
  apply k_table_inj in H; [done|..]; apply Z.mod_pos_bound; lia.
Qed.

Lemma sextet_not_quote c s : sextet c s <> quote.
Proof.
  unfold sextet. set (i := Z.to_nat _). intros E.
  assert (Hq : quote ∉ k_table) by (apply (bool_decide_unpack _); vm_compute; exact I).
  destruct (nth_in_or_default i k_table 0) as [Hin|Hd]; [|by rewrite E in Hd].
  rewrite E in Hin. by apply list_elem_of_In in Hin.
Qed.

Lemma chunk3 b0 b1 b2 : is_byte b0 -> is_byte b1 -> is_byte b2 ->
  Z.lor (Z.lor (Z.shiftl b0 16) (Z.shiftl b1 8)) b2 = b0 * 65536 + b1 * 256 + b2.
Proof.
  unfold is_byte. intros. replace (Z.shiftl b0 16) with (Z.shiftl (Z.shiftl b0 8) 8) by (by rewrite Z.shiftl_shiftl by lia).
  rewrite <- Z.shiftl_lor, lor_shiftl by lia. rewrite lor_shiftl by lia. lia.
Qed.

Lemma chunk2 b0 b1 : is_byte b0 -> is_byte b1 ->
  Z.lor (Z.shiftl b0 16) (Z.shiftl b1 8) = b0 * 65536 + b1 * 256.
Proof.
  unfold is_byte. intros. replace (Z.shiftl b0 16) with (Z.shiftl (Z.shiftl b0 8) 8) by (by rewrite Z.shiftl_shiftl by lia).
  rewrite <- Z.shiftl_lor, lor_shiftl by lia. rewrite Z.shiftl_mul_pow2 by lia. lia.
Qed.

Lemma chunk_sextets c : 0 <= c < 16777216 ->
  c = (c / 2 ^ 18) mod 64 * 262144 + (c / 2 ^ 12) mod 64 * 4096 + (c / 2 ^ 6) mod 64 * 64 + (c / 2 ^ 0) mod 64.
Proof.
  change (2 ^ 18) with 262144. change (2 ^ 12) with 4096. change (2 ^ 6) with 64. change (2 ^ 0) with 1.
  rewrite Z.div_1_r. intros Hc. dlia.
Qed.

Lemma chunk_inj c1 c2 : 0 <= c1 < 16777216 -> 0 <= c2 < 16777216 ->
  (c1 / 2 ^ 18) mod 64 = (c2 / 2 ^ 18) mod 64 -> (c1 / 2 ^ 12) mod 64 = (c2 / 2 ^ 12) mod 64 ->
  (c1 / 2 ^ 6) mod 64 = (c2 / 2 ^ 6) mod 64 -> (c1 / 2 ^ 0) mod 64 = (c2 / 2 ^ 0) mod 64 -> c1 = c2.
Proof.
  intros H1 H2 E1 E2 E3 E4. rewrite (chunk_sextets c1), (chunk_sextets c2) by done.
  by rewrite E1, E2, E3, E4.
Qed.

Lemma base64url_inj a b : is_bytes a -> is_bytes b -> base64url_no_pad a = base64url_no_pad b -> a = b.
Proof.
  remember (length a) as n eqn:Hn. revert a b Hn.
  induction n as [n IH] using (well_founded_induction lt_wf). intros a b Hn Ha Hb H.
  destruct a as [|a0 [|a1 [|a2 a]]], b as [|b0 [|b1 [|b2 b]]]; try discriminate H; [done|..];
    unfold is_bytes in Ha, Hb; rewrite ?Forall_cons in Ha, Hb; destruct_and?.
  - injection H as S1 S2. apply sextet_inj in S1, S2; try lia.
    rewrite !Z.shiftl_mul_pow2 in S1, S2 by lia. unfold is_byte in *. f_equal.
    pose proof (chunk_sextets (a0 * 2 ^ 16) ltac:(lia)). pose proof (chunk_sextets (b0 * 2 ^ 16) ltac:(lia)). dlia.
  - injection H as S1 S2 S3. apply sextet_inj in S1, S2, S3; try lia.
    rewrite !chunk2 in S1, S2, S3 by done. unfold is_byte in *.
    pose proof (chunk_sextets (a0 * 65536 + a1 * 256) ltac:(lia)).
    pose proof (chunk_sextets (b0 * 65536 + b1 * 256) ltac:(lia)).
    assert (a0 = b0 /\ a1 = b1) as [-> ->]; [|done]. dlia.
  - injection H as S1 S2 S3 S4 H. apply sextet_inj in S1, S2, S3, S4; try lia.
    rewrite !chunk3 in S1, S2, S3, S4 by done. unfold is_byte in *.
    apply chunk_inj in S1; [|lia|lia|done..].
    clear S2 S3 S4. assert (a0 = b0) as -> by lia. assert (a1 = b1) as -> by lia.
    assert (a2 = b2) as -> by lia.
    do 3 f_equal. eapply IH; [|reflexivity|done..]. rewrite Hn. simpl. lia.
Qed.

Lemma base64url_no_quote bs : quote ∉ base64url_no_pad bs.
Proof.
  remember (length bs) as n eqn:Hn. revert bs Hn.
  induction n as [n IH] using (well_founded_induction lt_wf). intros bs ->.
  destruct bs as [|b0 [|b1 [|b2 bs]]]; cbn [base64url_no_pad]; [apply not_elem_of_nil|..];
    repeat (apply not_elem_of_cons; split; [intros E; by apply (sextet_not_quote _ _ (eq_sym E))|]);
    try apply not_elem_of_nil. eapply IH; [|reflexivity]. simpl. lia.
Qed.

Definition prefix_free (c1 c2 : Z) : bool :=
  (c1 =? c2) || negb (starts_with (escape_char c1) (escape_char c2)).

Lemma escape_prefix_free : forall c1, 0 <= c1 < 256 -> forall c2, 0 <= c2 < 256 -> prefix_free c1 c2 = true.
Proof.
  intros c1 H1 c2 H2.
  assert (H : forall b, 0 <= b < 256 -> forallb (prefix_free b) (seqZ 0 256) = true).
  { apply (forall_below 256 (fun b => forallb (prefix_free b) (seqZ 0 256))). vm_compute. reflexivity. }
  by apply (forall_below 256 (prefix_free c1) (H c1 H1)).
Qed.

Lemma escape_not_quote : forall c, 0 <= c < 256 ->
  match escape_char c with [] => false | x :: _ => negb (x =? quote) end = true.
Proof. mask_by 256. Qed.

Lemma escape_char_inj c1 c2 r1 r2 : is_byte c1 -> is_byte c2 ->
  escape_char c1 ++ r1 = escape_char c2 ++ r2 -> c1 = c2 /\ r1 = r2.
Proof.
  intros H1 H2 E. assert (c1 = c2) as ->; [|split; [done|]; by apply app_inv_head in E].
  apply app_eq_inv in E as [(k & E & _)|(k & E & _)].
  - pose proof (escape_prefix_free c2 H2 c1 H1) as P. unfold prefix_free in P.
    apply orb_true_iff in P as [P%Z.eqb_eq|P]; [done|].
    by rewrite E, starts_with_app in P.
  - pose proof (escape_prefix_free c1 H1 c2 H2) as P. unfold prefix_free in P.
    apply orb_true_iff in P as [P%Z.eqb_eq|P]; [done|].
    by rewrite E, starts_with_app in P.
Qed.

Lemma escaped_inj o1 o2 r1 r2 : is_bytes o1 -> is_bytes o2 ->
  append_json_escaped o1 ++ quote :: r1 = append_json_escaped o2 ++ quote :: r2 -> o1 = o2 /\ r1 = r2.
Proof.
  unfold append_json_escaped. intros H1. revert o2.
  assert (Q : forall c r r', is_byte c -> escape_char c ++ r <> quote :: r').
  { intros c r r' Hc E. pose proof (escape_not_quote c Hc) as P.
    destruct (escape_char c); [done|]. injection E as -> _. by rewrite Z.eqb_refl in P. }
  induction H1 as [|c o1 Hc Ho1 IH]; intros o2 H2 E; destruct H2 as [|c' o2 Hc' Ho2]; simpl in E.
  - by injection E.
  - rewrite <- app_assoc in E. symmetry in E. by apply Q in E.
  - rewrite <- app_assoc in E. by apply Q in E.
  - rewrite <- !app_assoc in E. apply escape_char_inj in E as [-> E]; [|done|done].
    by apply IH in E as [-> ->].
Qed.

Lemma split_at_quote l1 l2 r1 r2 : quote ∉ l1 -> quote ∉ l2 ->
  l1 ++ quote :: r1 = l2 ++ quote :: r2 -> l1 = l2 /\ r1 = r2.
Proof.
  revert l2. induction l1 as [|x l1 IH]; intros [|y l2] H1 H2 E; simpl in E.
  - by injection E.
  - injection E as E _. destruct H2. rewrite <- E. apply elem_of_cons. by left.
  - injection E as E _. destruct H1. rewrite E. apply elem_of_cons. by left.
  - injection E as -> E. apply not_elem_of_cons in H1 as [_ H1]. apply not_elem_of_cons in H2 as [_ H2].
    by destruct (IH l2 H1 H2 E) as [-> ->].
Qed.

(** The client data that is hashed and signed binds its inputs: two calls
    with different types, challenges, origins or cross-origin flags never build
    the same JSON, whatever quotes or control bytes the origin holds. *)
Lemma client_data_binding sha256 t1 t2 c1 c2 o1 o2 x1 x2 :
  is_bytes c1 -> is_bytes c2 -> is_bytes o1 -> is_bytes o2 ->
  json (build_client_data sha256 t1 c1 o1 x1) = json (build_client_data sha256 t2 c2 o2 x2) ->
  t1 = t2 /\ c1 = c2 /\ o1 = o2 /\ x1 = x2.
Proof.
  intros Hc1 Hc2 Ho1 Ho2 E. cbn [json build_client_data] in E. unfold client_data_json in E.
  do 4 apply app_inv_head in E.
  assert (t1 = t2) as -> by (destruct t1, t2; done || (cbn in E; discriminate E)).
  do 6 apply app_inv_head in E.
  change ([quote] ++ ?r) with (quote :: r) in E.
  apply split_at_quote in E as [Eb E]; [|apply base64url_no_quote..].
  apply base64url_inj in Eb; [|done|done].
  do 4 apply app_inv_head in E. change ([quote] ++ ?r) with (quote :: r) in E.
  apply escaped_inj in E as [-> E]; [|done|done].
  split_and!; try done. destruct x1, x2; done || discriminate E.
Qed.

(** * COSE keys and attestation objects *)

Section Cose.
Context (max_items max_pairs max_keys : Z).
Context (Hitems : max_items < 2 ^ 64) (Hpairs : 5 <= max_pairs < 2 ^ 64) (Hkeys : 5 <= max_keys).

(** A coordinate: 32 bytes. *)
Definition coordinate (b : bytes) : Prop := is_bytes b /\ zlen b = 32.

Lemma cose_value_wf k : coordinate (key_x k) -> coordinate (key_y k) ->
  wf max_items max_pairs max_keys (cose_value k).
Proof.
  intros [Hx Hxl] [Hy Hyl]. unfold cose_value. cbn -[encode_key_into].
  unfold int64_ok, uint64_ok, octets_ok. rewrite Hxl, Hyl.
  split_and!; try done; try lia; [apply (bool_decide_unpack _); vm_compute; exact I|..];
    destruct (alg k); simpl; lia.
Qed.

(** An EC2 key on curve P-256 survives its COSE encoding: [decode_cose_ec2]
    returns the key when its algorithm is ES256 and rejects the others; other
    curves are not encoded. *)
Lemma cose_roundtrip k : coordinate (key_x k) -> coordinate (key_y k) ->
  if crv k =? 1 then
    decode_cose_ec2 max_items max_pairs max_keys (encode_cose_ec2 k)
    = Ret (if decide (alg k = es256) then Some k else None)
  else encode_cose_ec2 k = [].
Proof.
  intros Hx Hy. unfold encode_cose_ec2. destruct (Z.eqb_spec (crv k) 1) as [E|]; [|done].
  cbn [negb]. unfold decode_cose_ec2. rewrite decode_encode; [|done|lia|by apply cose_value_wf].
  cbn [mbind outcome_bind]. f_equal.
  assert (N : norm (cose_value k) = VCmap
    [(KUint 1, VUint 2); (KUint 3, VInt (algorithm_value (alg k))); (KInt (-1), VUint 1);
     (KInt (-2), VBytes (key_x k)); (KInt (-3), VBytes (key_y k))]) by (by destruct k as [[] ? ? ?]).
  rewrite N. unfold cose_of_pairs. cbn. destruct Hx as [_ Hx], Hy as [_ Hy].
  change (Z.pos (Pos.of_succ_nat ?n)) with (Z.of_nat (S n)). rewrite Hx, Hy. cbn.
  destruct k as [a c x y]; cbn in *. subst c. by destruct a.
Qed.

(** The attestation statements an object can carry. *)
Definition statement_ok (a : attestation_object) : Prop :=
  att_stmt_cbor a = [] \/
  exists v, wf max_items max_pairs max_keys v /\ wf max_items max_pairs max_keys (norm v) /\
            att_stmt_cbor a = encode v.

(** The statement read back: an absent one is an empty map. *)
Definition statement_read (a : attestation_object) : bytes :=
  match att_stmt_cbor a with [] => [0xa0] | s => s end.

Lemma attestation_value_roundtrip a w : octets_ok (auth_data a) -> wf max_items max_pairs max_keys w ->
  decode_attestation_object max_items max_pairs max_keys
    (encode (VCmap [(KText (str "fmt"), VText (fmt_string (fmt a)));
                    (KText (str "authData"), VBytes (auth_data a));
                    (KText (str "attStmt"), w)]))
  = Ret (Some (MkAttestation (fmt a) (auth_data a) (encode w))).
Proof.
  intros Hd Hw. unfold decode_attestation_object. rewrite decode_encode; [|done|lia|].
  - cbn [mbind outcome_bind]. f_equal.
    change (norm _) with (VMap [(str "attStmt", norm w); (str "authData", VBytes (auth_data a));
                                (str "fmt", VText (fmt_string (fmt a)))]).
    transitivity (Some (MkAttestation (fmt a) (auth_data a) (encode (norm w)))).
    + unfold attestation_of_value. cbn [find_text_key]. destruct (fmt a); reflexivity.
    + unfold encode. by rewrite (encode_norm max_items max_pairs max_keys).
  - cbn -[encode_key_into str octets_ok]. split_and!; try done; try lia.
    + apply (bool_decide_unpack _). vm_compute. exact I.
    + split; [apply str_bytes|vm_compute; reflexivity].
    + split; [destruct (fmt a); apply str_bytes|by destruct (fmt a)].
    + split; [apply str_bytes|vm_compute; reflexivity].
    + split; [apply str_bytes|vm_compute; reflexivity].
Qed.

(** An attestation object survives encoding and decoding: format,
    authenticator data and the statement's bytes come back, an absent statement
    as the empty map. *)
Lemma attestation_roundtrip a : octets_ok (auth_data a) -> statement_ok a ->
  exists bs, encode_attestation_object max_items max_pairs max_keys a = Ret bs /\
    decode_attestation_object max_items max_pairs max_keys bs
    = Ret (Some (MkAttestation (fmt a) (auth_data a) (statement_read a))).
Proof.
  intros Hd Hs. unfold encode_attestation_object, statement_read.
  destruct Hs as [E|(v & Hv & Hn & E)].
  - rewrite E. eexists. split; [reflexivity|]. apply (attestation_value_roundtrip a (VCmap [])); [done|].
    cbn. split_and!; try lia; try done. apply NoDup_nil_2.
  - assert (Hne : encode v <> []).
    { pose proof (encode_nonempty v) as N. unfold encode. by destruct (encode_into v); [simpl in N; lia|]. }
    rewrite E. destruct (encode v) as [|b bs] eqn:Eb; [done|]. rewrite <- Eb.
    rewrite decode_encode; [|done|lia|done]. cbn [mbind outcome_bind]. eexists. split; [reflexivity|].
    rewrite attestation_value_roundtrip by done. unfold encode.
    by rewrite (encode_norm max_items max_pairs max_keys).
Qed.
End Cose.

(** * Concrete inputs *)

Lemma client_data_binding_witness :
  json (build_client_data (fun b => b) get [1; 2; 3; 4] (str "https://x") false)
  = str "{" ++ quoted "type" ++ str ":" ++ quoted "webauthn.get" ++ str "," ++
    quoted "challenge" ++ str ":" ++ quoted "AQIDBA" ++ str "," ++
    quoted "origin" ++ str ":" ++ quoted "https://x" ++ str "}" /\
  get = get.
Proof.
  split; [vm_compute; reflexivity|].
  assert (B : is_bytes [1; 2; 3; 4]) by (apply (bool_decide_unpack _); vm_compute; exact I).
  apply (client_data_binding (fun b => b) get get [1; 2; 3; 4] [1; 2; 3; 4] (str "https://x")
    (str "https://x") false false B B (str_bytes _) (str_bytes _) eq_refl).
Defined.

Definition sample_key : cose_ec2_key := MkCose es256 1 (replicate 32 1) (replicate 32 255).

Lemma sample_key_ok : coordinate (key_x sample_key) /\ coordinate (key_y sample_key).
Proof. split; (split; [apply (bool_decide_unpack _); vm_compute; exact I|reflexivity]). Qed.

Lemma cose_roundtrip_witness :
  decode_cose_ec2 100 100 100 (encode_cose_ec2 sample_key) = Ret (Some sample_key).
Proof.
  exact (cose_roundtrip 100 100 100 ltac:(lia) ltac:(lia) ltac:(lia) sample_key
    (proj1 sample_key_ok) (proj2 sample_key_ok)).
Defined.

Lemma attestation_roundtrip_witness : exists bs,
  encode_attestation_object 100 100 100 (MkAttestation fmt_none [1; 2; 3] []) = Ret bs /\
  decode_attestation_object 100 100 100 bs = Ret (Some (MkAttestation fmt_none [1; 2; 3] [0xa0])).
Proof.
  apply (attestation_roundtrip 100 100 100 ltac:(lia) ltac:(lia) ltac:(lia) (MkAttestation fmt_none [1; 2; 3] [])).
  - split; [apply (bool_decide_unpack _); vm_compute; exact I|vm_compute; reflexivity].
  - by left.
Defined.
