(* ===== verification/VirtualAuthenticator.v ===== *)
(** The in-process authenticator of [src/webauthn/virtual_authenticator.cpp]
    and the credential jar of [src/webauthn/credential_jar.cpp] behind it.

    mbedTLS (keys, random bytes, hashing, signatures, big numbers, DER) is a
    parameter: the record [mbedtls] of the functions the code calls. What is
    relied on of them is [mbedtls_laws], which speaks only of the keys the library
    itself generated, and of a process that does not run out of memory.
    The jar's SQLite table is the list of its rows; the argument [db_ok] of an
    operation says whether SQLite carried the statement out within the three
    attempts of [with_busy_retry]. *)

From S2P Require Import Prelude Strings Cbor AuthData WebAuthn.

(** * Data *)

Record virtual_credential : Type := MkCredential {
  v_credential_id : bytes;
  v_rp_id_hash : bytes;
  v_rp_id : bytes;
  v_user : user_entity;
  v_private_key_d : bytes;
  v_public_key : cose_ec2_key;
  v_sign_count : Z;
  v_user_verified : bool;
  v_resident : bool }.

Record register_response : Type := MkRegister {
  reg_credential_id : bytes;
  reg_attestation_object : bytes;
  reg_client_data_json : bytes;
  reg_public_key : bytes;
  reg_algorithm : cose_algorithm }.

Record assert_response : Type := MkAssert {
  as_credential_id : bytes;
  as_authenticator_data : bytes;
  as_client_data_json : bytes;
  as_signature : bytes;
  as_user_handle : bytes }.

(** A row of the [credentials] table. *)
Record row : Type := MkRow {
  row_id : bytes;
  row_rp_id : bytes;
  row_rp_id_hash : bytes;
  row_user : user_entity;
  row_key_der : bytes;
  row_x : bytes;
  row_y : bytes;
  row_alg : Z;
  row_sign_count : Z;
  row_resident : bool;
  row_user_verified : bool }.

Definition aaguid_value : bytes := str "FXEVIRT" ++ replicate 9 0.

(** * mbedTLS *)

(** An [mbedtls_ecdsa_context] of the group P-256: the affine public point (its
    third coordinate is 1) and the private scalar. *)
Record keypair : Type := MkPair { pair_x : Z; pair_y : Z; pair_d : Z }.

Inductive pk_kind : Type := PK_ECKEY | PK_ECKEY_DH | PK_OTHER.
Inductive ecp_group : Type := DP_SECP256R1 | DP_OTHER.

(** What [mbedtls_pk_parse_key] leaves in its context. *)
Record parsed_key : Type := MkParsed { pk_type : pk_kind; pk_ec : option (ecp_group * keypair) }.

(** The functions called. A function that fails gives its return code on the
    left; [Z] alone is a return code. The last argument of the functions that
    write is the size of the buffer they are given. *)
Record mbedtls (R : Type) : Type := MkMbedtls {
  err_str : Z -> string;
  sha256 : bytes -> bytes;
  ecdsa_genkey : R -> R * (Z + keypair);
  drbg_random : R -> Z -> R * (Z + bytes);
  mpi_write_binary : Z -> Z -> Z + bytes;
  mpi_read_binary : bytes -> Z + Z;
  mpi_lset_one : Z;
  ecp_group_load : Z;
  ecp_group_copy : Z;
  ecp_copy : keypair -> Z;
  mpi_copy : Z -> Z;
  pk_setup_eckey : Z;
  pk_write_pubkey_der : keypair -> Z -> Z + bytes;
  pk_write_key_der : keypair -> Z -> Z + bytes;
  pk_parse_key : bytes -> Z + parsed_key;
  ecdsa_write_signature : R -> keypair -> bytes -> Z -> R * (Z + bytes);
  ecdsa_read_signature : Z -> Z -> bytes -> bytes -> Z }.

Arguments err_str {R}. Arguments sha256 {R}. Arguments ecdsa_genkey {R}. Arguments drbg_random {R}.
Arguments mpi_write_binary {R}. Arguments mpi_read_binary {R}. Arguments mpi_lset_one {R}.
Arguments ecp_group_load {R}. Arguments ecp_group_copy {R}. Arguments ecp_copy {R}. Arguments mpi_copy {R}.
Arguments pk_setup_eckey {R}. Arguments pk_write_pubkey_der {R}. Arguments pk_write_key_der {R}.
Arguments pk_parse_key {R}. Arguments ecdsa_write_signature {R}. Arguments ecdsa_read_signature {R}.

(** A key of the library's own making. *)
Definition generated {R} (M : mbedtls R) (k : keypair) : Prop :=
  exists r r', ecdsa_genkey M r = (r', inr k).

(** Digests have 32 bytes and the generator fills the bytes asked for. A number
    written in [len] bytes takes all of them and is read back. A generated key has
    a DER form, which fits the buffer of 512 bytes and is parsed as an EC key of
    P-256, the same one; a signature made with it verifies under its point. And
    no allocation fails. *)
Class mbedtls_laws {R} (M : mbedtls R) : Prop := {
  sha256_length m : zlen (sha256 M m) = 32;
  random_length r n bs : 0 <= n -> (drbg_random M r n).2 = inr bs -> zlen bs = n;
  write_length n len bs : 0 <= len -> mpi_write_binary M n len = inr bs -> zlen bs = len;
  read_write n len bs : 0 <= len -> mpi_write_binary M n len = inr bs -> mpi_read_binary M bs = inr n;
  key_has_der k : generated M k -> exists der, pk_write_key_der M k 512 = inr der /\ der <> [] /\
    pk_parse_key M der = inr (MkParsed PK_ECKEY (Some (DP_SECP256R1, k)));
  signature_verifies k r h sg : generated M k -> (ecdsa_write_signature M r k h 128).2 = inr sg ->
    ecdsa_read_signature M (pair_x k) (pair_y k) h sg = 0;
  group_loads : ecp_group_load M = 0;
  sets_up : pk_setup_eckey M = 0;
  lset_ok : mpi_lset_one M = 0 }.

(** * Origins *)

Definition origin_host (origin : bytes) : option bytes :=
  match find_str (str "://") origin with
  | None => None
  | Some scheme =>
      let host_begin := scheme + 3 in
      if zlen origin <=? host_begin then None
      else
        let host_port :=
          match find_first_of (str "/:?#") origin host_begin with
          | None => substr_from origin host_begin
          | Some host_end => substr origin host_begin (host_end - host_begin)
          end in
        if is_nil host_port then None
        else
          let h := match find_char (chr ":") host_port 0 with
                   | None => host_port
                   | Some colon => substr host_port 0 colon
                   end in
          if is_nil h then None else Some h
  end.

Definition contains_es256 (algorithms : list cose_algorithm) : bool := bool_decide (es256 ∈ algorithms).

(** * The credential jar *)

Section Jar.
Context {R : Type} (M : mbedtls R).

(** [load_public_key] on a fresh context: the point of a COSE key. *)
Definition load_public_key (pub : cose_ec2_key) : option (Z * Z) :=
  if negb (crv pub =? 1) then None else
  if negb (ecp_group_load M =? 0) then None else
  match mpi_read_binary M (key_x pub) with
  | inl _ => None
  | inr x =>
      match mpi_read_binary M (key_y pub) with
      | inl _ => None
      | inr y => if negb (mpi_lset_one M =? 0) then None else Some (x, y)
      end
  end.

Definition load_private_key (cred : virtual_credential) : option keypair :=
  match load_public_key (v_public_key cred) with
  | None => None
  | Some (x, y) =>
      match mpi_read_binary M (v_private_key_d cred) with
      | inl _ => None
      | inr d => Some (MkPair x y d)
      end
  end.

(** [] on failure. *)
Definition spki_der_from_keypair (k : keypair) : bytes :=
  if negb (pk_setup_eckey M =? 0) then [] else
  if negb (ecp_group_copy M =? 0) then [] else
  if negb (ecp_copy M k =? 0) then [] else
  if negb (mpi_copy M (pair_d k) =? 0) then [] else
  match pk_write_pubkey_der M k 256 with inl _ => [] | inr der => der end.

Definition private_key_der_from_credential (cred : virtual_credential) : bytes :=
  if negb (pk_setup_eckey M =? 0) then [] else
  if negb (ecp_group_load M =? 0) then [] else
  match mpi_read_binary M (key_x (v_public_key cred)) with
  | inl _ => []
  | inr x =>
      match mpi_read_binary M (key_y (v_public_key cred)) with
      | inl _ => []
      | inr y =>
          if negb (mpi_lset_one M =? 0) then [] else
          match mpi_read_binary M (v_private_key_d cred) with
          | inl _ => []
          | inr d => match pk_write_key_der M (MkPair x y d) 512 with inl _ => [] | inr der => der end
          end
      end
  end.

(** The private scalar of a stored key: [parse_private_key_der] and the checks of
    [credential_from_row] on what it parsed. *)
Definition stored_scalar (der : bytes) : option bytes :=
  match pk_parse_key M der with
  | inl _ => None
  | inr pk =>
      match pk_type pk with
      | PK_ECKEY | PK_ECKEY_DH =>
          match pk_ec pk with
          | Some (DP_SECP256R1, k) =>
              match mpi_write_binary M (pair_d k) 32 with inl _ => None | inr d => Some d end
          | _ => None
          end
      | PK_OTHER => None
      end
  end.

(** [sqlite3_column_text] read as a C string. *)
Definition column_text (s : bytes) : bytes := take_while (fun c => negb (c =? 0)) s.

Definition row_of (c : virtual_credential) (der : bytes) : row :=
  MkRow (v_credential_id c) (v_rp_id c) (v_rp_id_hash c) (v_user c) der (key_x (v_public_key c))
    (key_y (v_public_key c)) (algorithm_value (alg (v_public_key c))) (v_sign_count c) (v_resident c)
    (v_user_verified c).

Definition credential_from_row (r : row) : option virtual_credential :=
  if is_nil (row_id r) || negb (zlen (row_rp_id_hash r) =? 32) || negb (zlen (row_x r) =? 32) ||
     negb (zlen (row_y r) =? 32) || negb (row_alg r =? algorithm_value es256) ||
     (row_sign_count r <? 0) || (0xffffffff <? row_sign_count r)
  then None
  else
    d ← stored_scalar (row_key_der r);
    Some (MkCredential (row_id r) (row_rp_id_hash r) (column_text (row_rp_id r))
            (MkUser (user_id (row_user r)) (column_text (user_name (row_user r)))
                    (column_text (display_name (row_user r))))
            d (MkCose es256 1 (row_x r) (row_y r)) (u32 (row_sign_count r))
            (row_user_verified r) (row_resident r)).

(** [INSERT ... ON CONFLICT(credential_id) DO UPDATE] *)
Fixpoint insert_row (r : row) (rows : list row) : list row :=
  match rows with
  | [] => [r]
  | r' :: rows' => if bool_decide (row_id r' = row_id r) then r :: rows' else r' :: insert_row r rows'
  end.

Definition upsert (db_ok : bool) (c : virtual_credential) (rows : list row) : bool * list row :=
  match private_key_der_from_credential c with
  | [] => (false, rows)
  | der => if db_ok then (true, insert_row (row_of c der) rows) else (false, rows)
  end.

Definition with_row_count (r : row) (n : Z) : row :=
  MkRow (row_id r) (row_rp_id r) (row_rp_id_hash r) (row_user r) (row_key_der r) (row_x r) (row_y r)
    (row_alg r) n (row_resident r) (row_user_verified r).

Definition bump_sign_count (db_ok : bool) (id : bytes) (new_value : Z) (rows : list row) : bool * list row :=
  if db_ok then
    (existsb (fun r => bool_decide (row_id r = id)) rows,
     map (fun r => if bool_decide (row_id r = id) then with_row_count r new_value else r) rows)
  else (false, rows).

Definition jar_remove (db_ok : bool) (id : bytes) (rows : list row) : bool * list row :=
  if db_ok then
    (existsb (fun r => bool_decide (row_id r = id)) rows,
     List.filter (fun r => negb (bool_decide (row_id r = id))) rows)
  else (false, rows).

Definition jar_clear (db_ok : bool) (rows : list row) : bool * list row :=
  if db_ok then (true, []) else (false, rows).

Definition load_all (db_ok : bool) (rows : list row) : list virtual_credential :=
  if db_ok then omap credential_from_row rows else [].
End Jar.

(** * The authenticator *)

Section Authenticator.
Context {R : Type} (M : mbedtls R).
Context (max_items max_pairs max_keys : Z).

Record impl : Type := MkImpl {
  credentials : list (bytes * virtual_credential);
  jar : option (list row);
  rng : R;
  user_verified : bool }.

(** The constructor; [opened] is the jar of [FXE_WEBAUTHN_JAR_PATH], when set
    and opened. *)
Definition construct (r : R) (opened : option (list row)) (db_ok : bool) : impl :=
  let loaded := match opened with Some rows => load_all M db_ok rows | None => [] end in
  MkImpl (foldl (fun m c => map_set (v_credential_id c) c m) [] loaded) opened r true.

Definition with_rng (st : impl) (r : R) : impl :=
  MkImpl (credentials st) (jar st) r (user_verified st).

Definition auth_flags (st : impl) : Z :=
  let f := flag_user_present in
  if user_verified st then u8 (Z.lor f flag_user_verified) else f.

Definition register_credential (db_ok : bool) (opts : creation_options) (origin : bytes)
    (out : register_response) (st : impl) : outcome (string * impl * register_response) :=
  let error := validate_creation_options opts in
  if negb (bool_decide (error = ""%string)) then Ret (error, st, out) else
  if negb (contains_es256 (c_pub_key_params opts)) then Ret ("unsupported algorithm"%string, st, out) else
  if match origin_host origin with None => true | Some h => negb (host_matches_rp_id h (c_rp_id opts)) end
  then Ret ("origin host does not match rp.id"%string, st, out) else
  let client := build_client_data (sha256 M) create (c_challenge opts) origin false in
  let '(r, made) := ecdsa_genkey M (rng st) in
  let st := with_rng st r in
  match made with
  | inl rc => Ret (String.append "key generation failed: " (err_str M rc), st, out)
  | inr k =>
      match mpi_write_binary M (pair_x k) 32 with
      | inl rc => Ret (String.append "public key export failed: " (err_str M rc), st, out)
      | inr x =>
      match mpi_write_binary M (pair_y k) 32 with
      | inl rc => Ret (String.append "public key export failed: " (err_str M rc), st, out)
      | inr y =>
          let pub := MkCose es256 1 x y in
          match mpi_write_binary M (pair_d k) 32 with
          | inl rc => Ret (String.append "private key export failed: " (err_str M rc), st, out)
          | inr private_key_d =>
              let '(r, bs) := drbg_random M (rng st) 32 in
              let st := with_rng st r in
              match bs with
              | inl rc => Ret (String.append "rng failed: " (err_str M rc), st, out)
              | inr id =>
                  let rp_hash := sha256 M (c_rp_id opts) in
                  let cose := encode_cose_ec2 pub in
                  if is_nil cose then Ret ("failed to encode public key"%string, st, out) else
                  let data := MkAuthData rp_hash (u8 (Z.lor (auth_flags st) flag_attested_cred)) 0
                                (Some (MkAttested aaguid_value id cose)) [] in
                  let serialized := serialize_authenticator_data data in
                  if is_nil serialized
                  then Ret ("failed to serialize authenticator data"%string, st, out) else
                  att ← encode_attestation_object max_items max_pairs max_keys
                          (MkAttestation fmt_none serialized []);
                  let out := MkRegister (reg_credential_id out) att (reg_client_data_json out)
                               (reg_public_key out) (reg_algorithm out) in
                  if is_nil att then Ret ("failed to encode attestation object"%string, st, out) else
                  let credential := MkCredential id rp_hash (c_rp_id opts) (c_user opts) private_key_d pub 0
                                      (user_verified st) true in
                  let out := MkRegister id att (json client) (spki_der_from_keypair M k) (reg_algorithm out) in
                  if is_nil (spki_der_from_keypair M k) then Ret ("failed to encode public key"%string, st, out) else
                  let out := MkRegister id att (json client) (spki_der_from_keypair M k) es256 in
                  let jar' := (fun rows => (upsert M db_ok credential rows).2) <$> jar st in
                  Ret (""%string,
                       MkImpl (map_set id credential (credentials st)) jar' (rng st) (user_verified st), out)
              end
          end
      end
      end
  end.

(** The credential an assertion uses: the first allowed one that is stored for
    the relying party, or the first resident one in key order. *)
Definition choose_credential (opts : request_options) (cs : list (bytes * virtual_credential)) :
    option virtual_credential :=
  match r_allow_credentials opts with
  | [] =>
      snd <$> List.find (fun e => v_resident e.2 && bool_decide (v_rp_id e.2 = r_rp_id opts)) cs
  | ids =>
      head (omap (fun id => match map_find id cs with
                            | Some c => if bool_decide (v_rp_id c = r_rp_id opts) then Some c else None
                            | None => None
                            end) ids)
  end.

Definition with_sign_count (c : virtual_credential) (n : Z) : virtual_credential :=
  MkCredential (v_credential_id c) (v_rp_id_hash c) (v_rp_id c) (v_user c) (v_private_key_d c)
    (v_public_key c) n (v_user_verified c) (v_resident c).

(** The counter of the chosen entry, changed in place. *)
Definition store_count (c : virtual_credential) (n : Z) (cs : list (bytes * virtual_credential)) :
    list (bytes * virtual_credential) :=
  map_set (v_credential_id c) (with_sign_count c n) cs.

Definition assert_credential (db_ok : bool) (opts : request_options) (origin : bytes)
    (out : assert_response) (st : impl) : outcome (string * impl * assert_response) :=
  let error := validate_request_options opts in
  if negb (bool_decide (error = ""%string)) then Ret (error, st, out) else
  if match origin_host origin with None => true | Some h => negb (host_matches_rp_id h (r_rp_id opts)) end
  then Ret ("origin host does not match rp.id"%string, st, out) else
  let client := build_client_data (sha256 M) get (r_challenge opts) origin false in
  match choose_credential opts (credentials st) with
  | None => Ret ("no credential available"%string, st, out)
  | Some credential =>
      match load_private_key M credential with
      | None => Ret ("failed to load credential key"%string, st, out)
      | Some k =>
          let count := u32 (v_sign_count credential + 1) in
          let cs := store_count credential count (credentials st) in
          rp_hash ← sub_ (v_rp_id_hash credential) 0 32;
          let data := serialize_authenticator_data (MkAuthData rp_hash (auth_flags st) count None []) in
          let out := MkAssert (as_credential_id out) data (as_client_data_json out) (as_signature out)
                       (as_user_handle out) in
          let digest := sha256 M (data ++ hash client) in
          let '(r, signed) := ecdsa_write_signature M (rng st) k digest 128 in
          match signed with
          | inl rc =>
              let cs := store_count credential (u32 (count - 1)) cs in
              Ret (String.append "signature failed: " (err_str M rc),
                   MkImpl cs (jar st) r (user_verified st), out)
          | inr signature =>
              let jar' := (fun rows => (bump_sign_count db_ok (v_credential_id credential) count rows).2)
                            <$> jar st in
              Ret (""%string, MkImpl cs jar' r (user_verified st),
                   MkAssert (v_credential_id credential) data (json client) signature
                     (user_id (v_user credential)))
          end
      end
  end.

Definition list_credentials (st : impl) : list virtual_credential := map snd (credentials st).

Definition clear (db_ok : bool) (st : impl) : impl :=
  MkImpl [] ((fun rows => (jar_clear db_ok rows).2) <$> jar st) (rng st) (user_verified st).

Definition set_user_verified (verified : bool) (st : impl) : bool * impl :=
  (verified, MkImpl (credentials st) (jar st) (rng st) verified).

Definition verify_es256 (pub : cose_ec2_key) (message signature_der : bytes) : bool :=
  match load_public_key M pub with
  | None => false
  | Some (x, y) => ecdsa_read_signature M x y (sha256 M message) signature_der =? 0
  end.
End Authenticator.

(** * Properties *)

Section Properties.
Context {R : Type} (M : mbedtls R).

(** Every entry is stored under its own identifier, with a full hash and a
    32-bit counter. *)
Definition entry_ok (e : bytes * virtual_credential) : Prop :=
  v_credential_id e.2 = e.1 /\ zlen (v_rp_id_hash e.2) = 32 /\ 0 <= v_sign_count e.2 < 2 ^ 32.

Definition impl_ok (st : impl (R := R)) : Prop :=
  map_sorted (credentials st) /\ Forall entry_ok (credentials st).

Lemma impl_ok_set st id c j r u : impl_ok st -> entry_ok (id, c) ->
  impl_ok (MkImpl (map_set id c (credentials st)) j r u).
Proof.
  intros [Hs Hf] Hc. split; [by apply map_set_sorted|]. apply Forall_forall.
  intros e [->|He]%map_set_elem; [done|]. rewrite Forall_forall in Hf. auto.
Qed.

Lemma credential_from_row_ok r c : credential_from_row M r = Some c ->
  v_credential_id c = row_id r /\ entry_ok (row_id r, c).
Proof.
  unfold credential_from_row. destruct (_ || _) eqn:E; [done|].
  rewrite !orb_false_iff, !negb_false_iff, Z.ltb_ge, Z.ltb_ge, !Z.eqb_eq in E.
  destruct (stored_scalar M (row_key_der r)); [|done]. intros [= <-]. unfold entry_ok. cbn.
  pose proof (u32_range (row_sign_count r)). split_and!; try done; try lia; apply E.
Qed.

Lemma construct_ok r opened db_ok : impl_ok (construct M r opened db_ok).
Proof.
  unfold construct. set (l := match opened with Some _ => _ | None => _ end).
  assert (Hl : Forall (fun c => entry_ok (v_credential_id c, c)) l).
  { unfold l, load_all. destruct opened as [rows|]; [|constructor]. destruct db_ok; [|constructor].
    apply Forall_forall. intros c (r' & Hr & Hc)%list_elem_of_omap.
    apply credential_from_row_ok in Hc as [Hid Hc]. by rewrite Hid. }
  clearbody l. assert (G : forall m j u, impl_ok (MkImpl m j r u) ->
    impl_ok (MkImpl (foldl (fun m c => map_set (v_credential_id c) c m) m l) j r u)).
  { induction Hl as [|c l Hc Hl IH]; intros m j u Hm; simpl; [done|]. apply IH.
    by apply (impl_ok_set (MkImpl m j r u)). }
  apply G. split; constructor.
Qed.

Lemma choose_credential_In opts cs c : choose_credential opts cs = Some c ->
  (exists id, (id, c) ∈ cs) /\ v_rp_id c = r_rp_id opts.
Proof.
  unfold choose_credential. destruct (r_allow_credentials opts) as [|id0 ids].
  - destruct (List.find _ _) as [[id c']|] eqn:E; [|done]. simpl. intros [= ->].
    apply find_some in E as [Hin Hp]. apply andb_true_iff in Hp as [_ Hp%bool_decide_eq_true]. simpl in Hp.
    split; [|done]. exists id. by apply list_elem_of_In.
  - intros H. apply head_Some_elem_of, list_elem_of_omap in H as (id & _ & H).
    destruct (map_find id cs) as [c'|] eqn:E; [|done]. case_bool_decide; [|done]. injection H as ->.
    split; [|done]. exists id. by apply map_find_elem.
Qed.

(** The chosen credential is the one stored under its identifier. *)
Lemma choose_credential_spec opts st c : impl_ok st -> choose_credential opts (credentials st) = Some c ->
  map_find (v_credential_id c) (credentials st) = Some c /\ v_rp_id c = r_rp_id opts /\
  zlen (v_rp_id_hash c) = 32 /\ 0 <= v_sign_count c < 2 ^ 32.
Proof.
  intros [Hs Hf] Hc. destruct (choose_credential_In _ _ _ Hc) as [[id Hin] Hrp].
  rewrite Forall_forall in Hf. destruct (Hf _ Hin) as (Hid & Hh & Hn). simpl in *. subst id.
  split; [by apply map_find_sorted|]. done.
Qed.

End Properties.

Section Assertions.
Context {R : Type} (M : mbedtls R).

Notation assert_ := (assert_credential M).

Definition names_rp (origin rp : bytes) : Prop :=
  exists h, origin_host origin = Some h /\ host_matches_rp_id h rp = true.

(** What an assertion does. *)
Lemma assert_cases db_ok opts origin out st : impl_ok st ->
  exists msg st' out', assert_ db_ok opts origin out st = Ret (msg, st', out') /\
  ((msg <> ""%string /\ credentials st' = credentials st /\ jar st' = jar st) \/
   (msg = ""%string /\ exists c, 
      map_find (as_credential_id out') (credentials st) = Some c /\
      v_credential_id c = as_credential_id out' /\ v_rp_id c = r_rp_id opts /\
      names_rp origin (r_rp_id opts) /\
      (r_allow_credentials opts = [] \/ as_credential_id out' ∈ r_allow_credentials opts) /\
      as_authenticator_data out' = serialize_authenticator_data
        (MkAuthData (v_rp_id_hash c) (auth_flags st) (u32 (v_sign_count c + 1)) None []) /\
      (exists k, load_private_key M c = Some k /\
         (ecdsa_write_signature M (rng st) k (sha256 M (as_authenticator_data out' ++
            hash (build_client_data (sha256 M) get (r_challenge opts) origin false))) 128).2
         = inr (as_signature out')) /\
      credentials st' = store_count c (u32 (v_sign_count c + 1)) (credentials st) /\
      jar st' = (fun rows => (bump_sign_count db_ok (v_credential_id c) (u32 (v_sign_count c + 1)) rows).2) <$> jar st)).
Proof.
  intros Hst. unfold assert_credential. cbv zeta.
  case_bool_decide as Ev; cbn [negb]; [|eexists _, _, _; split; [done|by left]].
  destruct (match origin_host origin with None => _ | Some _ => _ end) eqn:Eo.
  { eexists _, _, _. split; [done|by left]. }
  destruct (choose_credential opts (credentials st)) as [c|] eqn:Ec.
  2: { eexists _, _, _. split; [done|by left]. }
  destruct (choose_credential_spec _ _ _ Hst Ec) as (Hfind & Hrp & Hlen & Hn).
  destruct (load_private_key M c) as [k|] eqn:Ek; [|eexists _, _, _; split; [done|by left]].
  rewrite sub_Ret by lia. cbn [mbind outcome_bind]. rewrite zsub_all by lia.
  destruct (ecdsa_write_signature _ _ _ _ _) as [r [rc|sg]] eqn:Es.
  - eexists _, _, _. split; [done|]. left. split; [done|]. cbn [credentials jar]. split; [|done].
    unfold store_count. cbn [v_credential_id with_sign_count].
    destruct Hst as [Hs Hf]. rewrite map_set_set by done. apply map_set_same; [done|].
    rewrite Hfind. f_equal. unfold with_sign_count. destruct c. cbn in *. f_equal.
    unfold wrap in *. dlia.
  - eexists _, _, _. split; [done|]. right. split; [done|]. exists c.
    cbn [as_credential_id as_authenticator_data credentials jar]. split_and!; try done.
    + unfold names_rp. destruct (origin_host origin) as [h|]; [|done]. exists h. split; [done|].
      by apply negb_false_iff in Eo.
    + unfold choose_credential in Ec. destruct (r_allow_credentials opts) as [|i0 ids]; [by left|]. right.
      apply head_Some_elem_of, list_elem_of_omap in Ec as (id & Hin & H).
      destruct (map_find id (credentials st)) as [c'|] eqn:E; [|done]. case_bool_decide; [|done].
      injection H as ->. destruct Hst as [_ Hf]. rewrite Forall_forall in Hf.
      apply map_find_elem in E. destruct (Hf _ E) as [Hid _]. simpl in Hid. by rewrite Hid.
    + exists k. by rewrite Es.
Qed.


(** C7. An assertion either fails, leaving credentials, counters and jar as
    they were, or is made with a stored credential of exactly the requested
    relying party, which the origin's host must match, and which the request
    allows; the signed data carries that credential's relying-party hash and its
    counter plus one, the signature is one of that data and the client data's hash
    by the credential's key, and only that counter changes.  It never reads
    outside the stored hash. *)
Theorem assert_credential_spec db_ok opts origin out st : impl_ok st ->
  exists msg st' out', assert_ db_ok opts origin out st = Ret (msg, st', out') /\
  ((msg <> ""%string /\ credentials st' = credentials st /\ jar st' = jar st) \/
   (msg = ""%string /\ exists c, 
      map_find (as_credential_id out') (credentials st) = Some c /\
      v_credential_id c = as_credential_id out' /\ v_rp_id c = r_rp_id opts /\
      names_rp origin (r_rp_id opts) /\
      (r_allow_credentials opts = [] \/ as_credential_id out' ∈ r_allow_credentials opts) /\
      as_authenticator_data out' = serialize_authenticator_data
        (MkAuthData (v_rp_id_hash c) (auth_flags st) (u32 (v_sign_count c + 1)) None []) /\
      (exists k, load_private_key M c = Some k /\
         (ecdsa_write_signature M (rng st) k (sha256 M (as_authenticator_data out' ++
            hash (build_client_data (sha256 M) get (r_challenge opts) origin false))) 128).2
         = inr (as_signature out')) /\
      (forall id, map_find id (credentials st') =
         if bool_decide (id = v_credential_id c)
         then Some (with_sign_count c (u32 (v_sign_count c + 1))) else map_find id (credentials st)) /\
      jar st' = (fun rows => (bump_sign_count db_ok (v_credential_id c) (u32 (v_sign_count c + 1)) rows).2) <$> jar st)).
Proof.
  intros Hst. destruct (assert_cases db_ok opts origin out st Hst) as (msg & st' & out' & E & H).
  exists msg, st', out'. split; [exact E|]. destruct H as [H|(Hm & c & H)]; [by left|right].
  split; [exact Hm|]. exists c. destruct H as (H1 & H2 & H3 & H4 & H5 & H6 & H7 & Hc & Hj).
  split_and!; try done. intros id. rewrite Hc. unfold store_count. by rewrite map_find_set.
Qed.

End Assertions.

(** * Sequences of operations *)

Section Runs.
Context {R : Type} (M : mbedtls R) {laws : mbedtls_laws M}.
Context (max_items max_pairs max_keys : Z).

Notation register_ := (register_credential M max_items max_pairs max_keys).
Notation assert_ := (assert_credential M).

Inductive va_op : Type :=
| VRegister (db_ok : bool) (opts : creation_options) (origin : bytes)
| VAssert (db_ok : bool) (opts : request_options) (origin : bytes)
| VClear (db_ok : bool)
| VSetUserVerified (verified : bool).

Definition empty_register : register_response := MkRegister [] [] [] [] es256.
Definition empty_assert : assert_response := MkAssert [] [] [] [] [].

Definition run_va (o : va_op) (st : impl) : outcome impl :=
  match o with
  | VRegister db_ok opts origin => r ← register_ db_ok opts origin empty_register st; Ret r.1.2
  | VAssert db_ok opts origin => r ← assert_ db_ok opts origin empty_assert st; Ret r.1.2
  | VClear db_ok => Ret (clear db_ok st)
  | VSetUserVerified v => Ret (set_user_verified v st).2
  end.

Fixpoint run_vas (os : list va_op) (st : impl) : outcome impl :=
  match os with [] => Ret st | o :: os' => st' ← run_va o st; run_vas os' st' end.

(** What registration does to the state. *)
Lemma register_cases db_ok opts origin out st :
  exists msg st' out', register_ db_ok opts origin out st = Ret (msg, st', out') /\
  ((credentials st' = credentials st /\ jar st' = jar st) \/
   (validate_creation_options opts = ""%string /\ exists id k x y d r rs,
      (drbg_random M r 32).2 = inr id /\ generated M k /\ mpi_write_binary M (pair_x k) 32 = inr x /\
      mpi_write_binary M (pair_y k) 32 = inr y /\ mpi_write_binary M (pair_d k) 32 = inr d /\
      let c := MkCredential id (sha256 M (c_rp_id opts)) (c_rp_id opts) (c_user opts) d
                 (MkCose es256 1 x y) 0 (user_verified st) true in
      st' = MkImpl (map_set id c (credentials st))
              ((fun rows => (upsert M db_ok c rows).2) <$> jar st) rs (user_verified st))).
Proof.
  unfold register_credential. cbv zeta.
  case_bool_decide as Ev; cbn [negb]; [|eexists _, _, _; split; [done|by left]].
  destruct (contains_es256 _); cbn [negb]; [|eexists _, _, _; split; [done|by left]].
  destruct (match origin_host origin with None => _ | Some _ => _ end).
  { eexists _, _, _. split; [done|by left]. }
  destruct (ecdsa_genkey M (rng st)) as [r1 [rc|k]] eqn:Eg; [eexists _, _, _; split; [done|by left]|].
  destruct (mpi_write_binary M (pair_x k) 32) as [rc|x] eqn:Ex; [eexists _, _, _; split; [done|by left]|].
  destruct (mpi_write_binary M (pair_y k) 32) as [rc|y] eqn:Ey; [eexists _, _, _; split; [done|by left]|].
  destruct (mpi_write_binary M (pair_d k) 32) as [rc|d] eqn:Ed; [eexists _, _, _; split; [done|by left]|].
  cbn [rng with_rng]. destruct (drbg_random M r1 32) as [r2 [rc|id]] eqn:Er; [eexists _, _, _; split; [done|by left]|].
  destruct (is_nil (encode_cose_ec2 _)); [eexists _, _, _; split; [done|by left]|].
  destruct (is_nil (serialize_authenticator_data _)); [eexists _, _, _; split; [done|by left]|].
  cbn [encode_attestation_object att_stmt_cbor mbind outcome_bind].
  destruct (is_nil (encode _)); [eexists _, _, _; split; [done|by left]|].
  destruct (is_nil (spki_der_from_keypair M k)); [eexists _, _, _; split; [done|by left]|].
  eexists _, _, _. split; [done|]. right. split; [done|].
  exists id, k, x, y, d, r1, r2. rewrite Er. split_and!; try done. by eexists _, _.
Qed.

Lemma run_va_ok o st : impl_ok st -> exists st', run_va o st = Ret st' /\ impl_ok st'.
Proof.
  intros Hst. destruct o as [db opts origin|db opts origin|db|v]; cbn [run_va].
  - destruct (register_cases db opts origin empty_register st) as (msg & st' & out & -> & H).
    cbn [mbind outcome_bind fst snd]. exists st'. split; [done|].
    destruct H as [[Hc _]|(_ & id & k & x & y & d & r & rs & _ & _ & _ & _ & _ & ->)].
    + unfold impl_ok. by rewrite Hc.
    + apply impl_ok_set; [done|]. unfold entry_ok. cbn. rewrite sha256_length. split_and!; done || lia.
  - unfold assert_credential. cbv zeta. case_bool_decide; cbn [negb]; [|by eexists].
    destruct (match origin_host origin with None => _ | Some _ => _ end); [by eexists|].
    destruct (choose_credential opts (credentials st)) as [c|] eqn:Ec; [|by eexists].
    destruct (choose_credential_spec _ _ _ Hst Ec) as (Hfind & Hrp & Hlen & Hn).
    destruct (load_private_key M c) as [k|] eqn:Ek; [|by eexists].
    rewrite sub_Ret by lia. cbn [mbind outcome_bind].
    assert (He : forall n, 0 <= n < 2 ^ 32 -> entry_ok (v_credential_id c, with_sign_count c n))
      by (intros n; unfold entry_ok; cbn; auto).
    destruct (ecdsa_write_signature _ _ _ _ _) as [r [rc|sg]]; eexists; (split; [reflexivity|]); cbn [fst snd].
    + unfold store_count. cbn [v_credential_id with_sign_count].
      apply (impl_ok_set (MkImpl _ (jar st) r (user_verified st))).
      * apply impl_ok_set; [done|apply He, u32_range].
      * apply (He (u32 (u32 (v_sign_count c + 1) - 1))), u32_range.
    + apply impl_ok_set; [done|apply He, u32_range].
  - eexists. split; [done|]. split; constructor.
  - eexists. split; [done|]. done.
Qed.

(** Any sequence of registrations, assertions, clears and user-verification
    changes on a constructed authenticator runs to completion without reading
    out of bounds, and keeps every credential stored under its own identifier
    with a 32-byte hash and a 32-bit counter. *)
Lemma authenticator_invariant r opened db_ok os :
  exists st, run_vas os (construct M r opened db_ok) = Ret st /\ impl_ok st.
Proof.
  assert (G : forall st, impl_ok st -> exists st', run_vas os st = Ret st' /\ impl_ok st').
  { induction os as [|o os IH]; intros st Hst; cbn [run_vas]; [eauto|].
    destruct (run_va_ok o st Hst) as (st' & -> & Hst'). cbn [mbind outcome_bind]. auto. }
  apply G, construct_ok.
Qed.
End Runs.

(** * Persistence *)

Section Persistence.
Context {R : Type} (M : mbedtls R) {laws : mbedtls_laws M}.
Context (max_items max_pairs max_keys : Z).

Notation run_ := (run_va M max_items max_pairs max_keys).
Notation runs_ := (run_vas M max_items max_pairs max_keys).

(** Operations whose statements SQLite carries out, with texts free of NUL: a text
    is read back as a C string, and a failed statement is only logged. *)
Definition no_nul (s : bytes) : Prop := 0 ∉ s.

Definition op_persists (o : va_op) : Prop :=
  match o with
  | VRegister db_ok opts _ =>
      db_ok = true /\ no_nul (user_name (c_user opts)) /\ no_nul (display_name (c_user opts))
  | VAssert db_ok _ _ => db_ok = true
  | VClear db_ok => db_ok = true
  | VSetUserVerified _ => True
  end.

Definition find_row (id : bytes) (rows : list row) : option row :=
  List.find (fun r => bool_decide (row_id r = id)) rows.

(** The table holds what the map holds. *)
Definition mirror (st : impl (R := R)) (rows : list row) : Prop :=
  jar st = Some rows /\ NoDup (row_id <$> rows) /\
  forall id, map_find id (credentials st) = find_row id rows ≫= credential_from_row M.

Lemma find_row_insert id r rows :
  find_row id (insert_row r rows) = if bool_decide (id = row_id r) then Some r else find_row id rows.
Proof.
  unfold find_row. induction rows as [|r' rows IH]; cbn [insert_row List.find].
  - repeat case_bool_decide; congruence.
  - destruct (decide (row_id r' = row_id r)) as [E|E];
      [rewrite (bool_decide_true _ E)|rewrite (bool_decide_false _ E)]; cbn [List.find].
    + repeat case_bool_decide; congruence.
    + rewrite IH. repeat case_bool_decide; congruence.
Qed.

Lemma insert_row_ids r rows x : x ∈ row_id <$> insert_row r rows <-> x = row_id r \/ x ∈ row_id <$> rows.
Proof.
  induction rows as [|r' rows IH]; simpl.
  - rewrite elem_of_cons. naive_solver.
  - case_bool_decide as E; cbn [fmap list_fmap]; rewrite !elem_of_cons; [naive_solver|].
    change (list_fmap _ _ row_id ?l) with (row_id <$> l). rewrite IH. naive_solver.
Qed.

Lemma insert_row_NoDup r rows : NoDup (row_id <$> rows) -> NoDup (row_id <$> insert_row r rows).
Proof.
  induction rows as [|r' rows IH]; simpl; [intros _; apply NoDup_singleton|].
  intros [Hr Hnd]%NoDup_cons. case_bool_decide as E; apply NoDup_cons.
  - by rewrite <- E.
  - split; [|auto]. rewrite insert_row_ids. naive_solver.
Qed.

Lemma find_row_bump id i n rows :
  find_row id (map (fun r => if bool_decide (row_id r = i) then with_row_count r n else r) rows)
  = (fun r => if bool_decide (row_id r = i) then with_row_count r n else r) <$> find_row id rows.
Proof.
  unfold find_row. induction rows as [|r rows IH]; cbn [map List.find]; [done|].
  assert (E : row_id (if bool_decide (row_id r = i) then with_row_count r n else r) = row_id r)
    by by case_bool_decide.
  rewrite E, IH. by destruct (bool_decide (row_id r = id)).
Qed.

Lemma column_text_id s : no_nul s -> column_text s = s.
Proof.
  unfold no_nul, column_text. induction s as [|c s IH]; simpl; [done|]. intros [Hc Hs]%not_elem_of_cons.
  destruct (Z.eqb_spec c 0) as [->|]; [done|]. simpl. by rewrite IH.
Qed.

(** A credential read back from its own row. *)
Lemma from_row_of c der : v_credential_id c <> [] -> zlen (v_rp_id_hash c) = 32 ->
  zlen (key_x (v_public_key c)) = 32 -> zlen (key_y (v_public_key c)) = 32 ->
  alg (v_public_key c) = es256 -> crv (v_public_key c) = 1 -> 0 <= v_sign_count c < 2 ^ 32 ->
  no_nul (v_rp_id c) -> no_nul (user_name (v_user c)) -> no_nul (display_name (v_user c)) ->
  stored_scalar M der = Some (v_private_key_d c) -> credential_from_row M (row_of c der) = Some c.
Proof.
  intros Hid Hh Hx Hy Ha Hc Hn H1 H2 H3 Hd. unfold credential_from_row.
  cbn [row_of row_id row_rp_id row_rp_id_hash row_user row_key_der row_x row_y row_alg row_sign_count row_resident row_user_verified].
  rewrite Hh, Hx, Hy, Ha, Hd, !column_text_id, u32_small by done.
  destruct (Z.ltb_spec (v_sign_count c) 0); [lia|].
  destruct (Z.ltb_spec 0xffffffff (v_sign_count c)); [lia|].
  destruct (v_credential_id c) eqn:E; [done|]. rewrite <- E. cbn.
  destruct c as [i h rp [u un dn] d [a cv x y] n uv rs]. cbn in *. by subst.
Qed.

Lemma from_row_count r n c : 0 <= n < 2 ^ 32 -> credential_from_row M r = Some c ->
  credential_from_row M (with_row_count r n) = Some (with_sign_count c n).
Proof.
  intros Hn. unfold credential_from_row.
  cbn [with_row_count row_id row_rp_id row_rp_id_hash row_user row_key_der row_x row_y row_alg row_sign_count row_resident row_user_verified].
  destruct (_ || (0xffffffff <? row_sign_count r)) eqn:E1; [done|].
  apply orb_false_iff in E1 as [E1 _]. apply orb_false_iff in E1 as [E1 _]. rewrite E1.
  destruct (Z.ltb_spec n 0); [lia|]. destruct (Z.ltb_spec 0xffffffff n); [lia|]. cbn [orb].
  destruct (stored_scalar M (row_key_der r)); [|done]. cbn. intros [= <-]. unfold with_sign_count. cbn.
  by rewrite u32_small by lia.
Qed.

Lemma find_row_id id rows r : find_row id rows = Some r -> row_id r = id.
Proof. intros [_ H]%find_some. by apply bool_decide_eq_true in H. Qed.

(** Loading the table gives the lookups of the table. *)
Lemma construct_lookup (r : R) rows id : NoDup (row_id <$> rows) ->
  map_find id (credentials (construct M r (Some rows) true))
  = find_row id rows ≫= credential_from_row M.
Proof.
  unfold construct, load_all. cbn [credentials].
  assert (G : forall rows m, NoDup (row_id <$> rows) ->
    map_find id (foldl (fun m c => map_set (v_credential_id c) c m) m (omap (credential_from_row M) rows))
    = match find_row id rows ≫= credential_from_row M with Some c => Some c | None => map_find id m end).
  { clear rows. induction rows as [|r' rows IH]; intros m Hnd; [done|].
    cbn in Hnd. apply NoDup_cons in Hnd as [Hr Hnd]. unfold find_row. cbn [omap list_omap List.find].
    destruct (credential_from_row M r') as [c|] eqn:Ec.
    - cbn [foldl]. destruct (credential_from_row_ok _ _ _ Ec) as [Hid _]. rewrite IH by done.
      fold (find_row id rows). case_bool_decide as E.
      + cbn. rewrite Ec. subst id. destruct (find_row (row_id r') rows) as [r2|] eqn:E2.
        * exfalso. apply Hr. apply find_some in E2 as [Hin Hd]. apply bool_decide_eq_true in Hd.
          rewrite <- Hd. apply list_elem_of_fmap_2. by apply list_elem_of_In.
        * cbn. rewrite map_find_set, Hid. by rewrite bool_decide_true.
      + destruct (find_row id rows ≫= _); [done|]. rewrite map_find_set, Hid.
        by rewrite bool_decide_false by congruence.
    - rewrite IH by done. fold (find_row id rows). case_bool_decide as E; [|done].
      cbn. rewrite Ec. subst id. destruct (find_row (row_id r') rows) as [r2|] eqn:E2; [|done].
      exfalso. apply Hr. apply find_some in E2 as [Hin Hd]. apply bool_decide_eq_true in Hd.
      rewrite <- Hd. apply list_elem_of_fmap_2. by apply list_elem_of_In. }
  intros Hnd. rewrite G by done. by destruct (find_row id rows ≫= _).
Qed.

Lemma valid_rp_no_nul s : is_valid_rp_id_syntax s = true -> no_nul s.
Proof.
  rewrite is_valid_rp_id_syntax_spec. intros (_ & H & _) Hin. rewrite Forall_forall in H.
  by specialize (H 0 Hin).
Qed.

(** The key of a credential made from a generated pair. *)
Lemma generated_der k c : generated M k -> mpi_write_binary M (pair_x k) 32 = inr (key_x (v_public_key c)) ->
  mpi_write_binary M (pair_y k) 32 = inr (key_y (v_public_key c)) ->
  mpi_write_binary M (pair_d k) 32 = inr (v_private_key_d c) ->
  exists der, private_key_der_from_credential M c = der /\ der <> [] /\
    stored_scalar M der = Some (v_private_key_d c).
Proof.
  intros Hk Hx Hy Hd. destruct (key_has_der k Hk) as (der & Hw & Hne & Hp). exists der.
  unfold private_key_der_from_credential, stored_scalar.
  rewrite sets_up, group_loads, lset_ok. cbn [Z.eqb negb].
  rewrite (read_write _ 32 _ ltac:(lia) Hx), (read_write _ 32 _ ltac:(lia) Hy), (read_write _ 32 _ ltac:(lia) Hd).
  destruct k as [kx ky kd]. cbn [pair_x pair_y pair_d] in *. rewrite Hw, Hp. cbn [pk_type pk_ec pair_d].
  by rewrite Hd.
Qed.

Lemma run_va_mirror o st rows st' : impl_ok st -> mirror st rows -> op_persists o ->
  run_ o st = Ret st' -> exists rows', mirror st' rows'.
Proof.
  intros Hst (Hj & Hnd & Hm) Ho. destruct o as [db opts origin|db opts origin|db|v]; cbn [run_va].
  - destruct (register_cases M max_items max_pairs max_keys db opts origin empty_register st) as (msg & st2 & out & -> & H).
    cbn [mbind outcome_bind fst snd]. intros [= <-].
    destruct H as [[Hc Hjar]|(Hv & id & k & x & y & d & r & rs & Hid & Hk & Hx & Hy & Hd & Hst2)].
    { exists rows. unfold mirror. by rewrite Hc, Hjar. }
    cbv zeta in Hst2. set (c := MkCredential _ _ _ _ _ _ _ _ _) in Hst2.
    destruct Ho as (-> & Hun & Hdn). subst st2. unfold mirror. cbn [jar credentials].
    rewrite Hj. cbn [fmap option_fmap option_map].
    destruct (generated_der k c Hk Hx Hy Hd) as (der & Hder & Hne & Hparse).
    assert (Hup : (upsert M true c rows).2 = insert_row (row_of c der) rows).
    { unfold upsert. rewrite Hder. by destruct der. }
    rewrite Hup. eexists. split; [done|]. split; [by apply insert_row_NoDup|]. intros i.
    rewrite map_find_set, find_row_insert. cbn [row_id row_of c v_credential_id].
    case_bool_decide; [|apply Hm]. cbn. symmetry. apply from_row_of; try done.
    + cbn. apply random_length in Hid; [|lia]. by destruct id.
    + apply sha256_length.
    + by apply write_length in Hx.
    + by apply write_length in Hy.
    + cbn. apply valid_rp_no_nul. unfold validate_creation_options in Hv.
      destruct (is_valid_rp_id_syntax (c_rp_id opts)); [done|]. cbn in Hv. by rewrite orb_true_r in Hv.
  - cbn in Ho. subst db. unfold assert_credential. cbv zeta.
    case_bool_decide; cbn [negb]; [|intros [= <-]; by exists rows].
    destruct (match origin_host origin with None => _ | Some _ => _ end); [intros [= <-]; by exists rows|].
    destruct (choose_credential opts (credentials st)) as [c|] eqn:Ec; [|intros [= <-]; by exists rows].
    destruct (choose_credential_spec _ _ _ Hst Ec) as (Hfind & Hrp & Hlen & Hn).
    destruct (load_private_key M c) as [k|] eqn:Ek; [|intros [= <-]; by exists rows].
    rewrite sub_Ret by lia. cbn [mbind outcome_bind].
    destruct (ecdsa_write_signature _ _ _ _ _) as [r [rc|sg]]; intros [= <-]; cbn [fst snd].
    + exists rows. split; [done|]. split; [done|]. intros i. rewrite <- Hm. cbn [credentials].
      unfold store_count. cbn [v_credential_id with_sign_count].
      destruct Hst as [Hs Hf]. rewrite map_set_set by done. rewrite map_set_same; [done|done|].
      rewrite Hfind. f_equal. unfold with_sign_count. destruct c. cbn in *. f_equal. unfold wrap in *. dlia.
    + set (n := u32 (v_sign_count c + 1)). unfold mirror. cbn [jar credentials]. rewrite Hj.
      cbn [fmap option_fmap option_map]. eexists. split; [done|]. split.
      * cbn. rewrite <- list_fmap_compose.
        replace (row_id <$> rows) with ((row_id ∘ (fun r => if bool_decide (row_id r = v_credential_id c) then with_row_count r n else r)) <$> rows) in Hnd; [done|].
        apply list_fmap_ext. intros j x _. unfold compose. by case_bool_decide.
      * intros i. rewrite find_row_bump. unfold store_count. rewrite map_find_set.
        case_bool_decide as E.
        -- subst i. rewrite Hm in Hfind. destruct (find_row (v_credential_id c) rows) as [r2|] eqn:E2; [|done].
           cbn in *. rewrite bool_decide_true by by eapply find_row_id.
           symmetry. apply from_row_count; [apply u32_range|done].
        -- rewrite Hm. destruct (find_row i rows) as [r2|] eqn:E2; [|done]. cbn.
           apply find_row_id in E2. rewrite bool_decide_false; [done|congruence].
  - cbn in Ho. subst db. intros [= <-]. unfold mirror, clear. cbn [jar credentials]. rewrite Hj.
    exists []. split; [done|]. split; [apply NoDup_nil_2|done].
  - intros [= <-]. by exists rows.
Qed.

(** C8. Restarting loses nothing, when SQLite carries every statement out, user
    names hold no NUL ([op_persists]) and memory suffices ([mbedtls_laws]): whatever
    such operations ran, an authenticator constructed anew from the jar left behind
    has exactly the credentials, with their current counters, that the running one
    holds.  The keys go through the code's own conversions to and from DER. *)
Theorem authenticator_persistence (r : R) rows os : NoDup (row_id <$> rows) -> Forall op_persists os ->
  exists st rows', runs_ os (construct M r (Some rows) true) = Ret st /\ jar st = Some rows' /\
    forall r' : R, credentials (construct M r' (Some rows') true) = credentials st.
Proof.
  intros Hnd Hos.
  assert (G : forall st rows, impl_ok st -> mirror st rows -> exists st' rows', runs_ os st = Ret st' /\ impl_ok st' /\ mirror st' rows').
  { induction Hos as [|o os Ho Hos IH]; intros st rows0 Hst Hm; cbn [run_vas]; [eauto|].
    destruct (run_va_ok M max_items max_pairs max_keys o st Hst) as (st1 & E & Hst1).
    rewrite E. cbn [mbind outcome_bind]. destruct (run_va_mirror o st rows0 st1 Hst Hm Ho E) as [rows1 Hm1].
    by apply (IH st1 rows1). }
  destruct (G (construct M r (Some rows) true) rows) as (st & rows' & E & Hst & (Hj & Hnd' & Hm)).
  - apply construct_ok.
  - split; [done|]. split; [done|]. intros id. by apply construct_lookup.
  - exists st, rows'. split; [done|]. split; [done|]. intros r'.
    apply map_sorted_ext; [exact (proj1 (construct_ok M r' (Some rows') true))|apply Hst|]. intros id. by rewrite construct_lookup, Hm.
Qed.
End Persistence.

(** * Signatures *)

Section Signatures.
Context {R : Type} (M : mbedtls R) {laws : mbedtls_laws M}.
Context (max_items max_pairs max_keys : Z).

(** The key of a credential is one the library generated. *)
Definition from_pair (c : virtual_credential) : Prop :=
  crv (v_public_key c) = 1 /\ exists k, generated M k /\
    mpi_write_binary M (pair_x k) 32 = inr (key_x (v_public_key c)) /\
    mpi_write_binary M (pair_y k) 32 = inr (key_y (v_public_key c)) /\
    mpi_write_binary M (pair_d k) 32 = inr (v_private_key_d c).

Definition keys_generated (st : impl (R := R)) : Prop := Forall (fun e => from_pair e.2) (credentials st).

Lemma from_pair_load c : from_pair c -> exists k, generated M k /\ load_private_key M c = Some k /\
  load_public_key M (v_public_key c) = Some (pair_x k, pair_y k).
Proof.
  intros (Hc & k & Hk & Hx & Hy & Hd). exists k. split; [done|].
  assert (E : load_public_key M (v_public_key c) = Some (pair_x k, pair_y k)).
  { unfold load_public_key. rewrite Hc, group_loads, lset_ok. cbn [Z.eqb Pos.eqb negb].
    by rewrite (read_write _ 32 _ ltac:(lia) Hx), (read_write _ 32 _ ltac:(lia) Hy). }
  split; [|done]. unfold load_private_key. rewrite E, (read_write _ 32 _ ltac:(lia) Hd). by destruct k.
Qed.

Lemma keys_generated_set id c j r u st : keys_generated st -> from_pair c ->
  keys_generated (MkImpl (map_set id c (credentials st)) j r u).
Proof.
  intros Hf Hc. apply Forall_forall. intros e [->|He]%map_set_elem; [done|].
  unfold keys_generated in Hf. rewrite Forall_forall in Hf. auto.
Qed.

Lemma run_va_keys o st st' : impl_ok st -> keys_generated st ->
  run_va M max_items max_pairs max_keys o st = Ret st' -> keys_generated st'.
Proof.
  intros Hok Hst. destruct o as [db opts origin|db opts origin|db|v]; cbn [run_va].
  - destruct (register_cases M max_items max_pairs max_keys db opts origin empty_register st)
      as (msg & st2 & out & -> & H). cbn [mbind outcome_bind fst snd]. intros [= <-].
    destruct H as [[Hc _]|(_ & id & k & x & y & d & r & rs & _ & Hk & Hx & Hy & Hd & ->)].
    { unfold keys_generated. by rewrite Hc. }
    apply keys_generated_set; [done|]. split; [done|]. by exists k.
  - destruct (assert_cases M db opts origin empty_assert st Hok) as (msg & st2 & out & -> & H).
    cbn [mbind outcome_bind fst snd]. intros [= <-].
    unfold keys_generated. destruct H as [(_ & -> & _)|(_ & c & Hc & _ & _ & _ & _ & _ & _ & -> & _)]; [done|].
    apply (keys_generated_set _ (with_sign_count c _) (jar st) (rng st) (user_verified st)); [done|]. unfold keys_generated in Hst. rewrite Forall_forall in Hst.
    exact (Hst _ (map_find_elem _ _ _ Hc)).
  - intros [= <-]. constructor.
  - intros [= <-]. exact Hst.
Qed.

(** Assertions verify. Whatever operations ran on an authenticator that started
    empty, an assertion that succeeds is with a credential it lists, and its
    signature passes [verify_es256] under that credential's public key, for the
    authenticator data it returns followed by the hash of the client data. *)
Lemma assertions_verify (r : R) os db opts origin out :
  exists st msg st' out', run_vas M max_items max_pairs max_keys os (construct M r None true) = Ret st /\
    assert_credential M db opts origin out st = Ret (msg, st', out') /\
    (msg = ""%string -> exists c, c ∈ list_credentials st /\ v_credential_id c = as_credential_id out' /\
       verify_es256 M (v_public_key c)
         (as_authenticator_data out' ++ hash (build_client_data (sha256 M) get (r_challenge opts) origin false))
         (as_signature out') = true).
Proof.
  assert (G : forall st, impl_ok st -> keys_generated st -> exists st',
    run_vas M max_items max_pairs max_keys os st = Ret st' /\ impl_ok st' /\ keys_generated st').
  { induction os as [|o os IH]; intros st Hst Hk; cbn [run_vas]; [eauto|].
    destruct (run_va_ok M max_items max_pairs max_keys o st Hst) as (st1 & E & Hst1). rewrite E.
    cbn [mbind outcome_bind]. apply IH; [done|]. exact (run_va_keys o st st1 Hst Hk E). }
  destruct (G (construct M r None true)) as (st & E & Hst & Hk); [apply construct_ok|constructor|].
  destruct (assert_cases M db opts origin out st Hst) as (msg & st' & out' & Ea & H).
  exists st, msg, st', out'. split; [done|]. split; [done|]. intros Hm.
  destruct H as [(? & _)|(_ & c & Hc & Hid & _ & _ & _ & _ & (k & Hl & Hs) & _)]; [done|].
  apply map_find_elem in Hc. exists c. split; [by apply (list_elem_of_fmap_2 snd _ _ Hc)|]. split; [done|].
  unfold keys_generated in Hk. rewrite Forall_forall in Hk.
  destruct (from_pair_load c (Hk _ Hc)) as (k' & Hgen & Hl' & Hp). rewrite Hl in Hl'. injection Hl' as ->.
  unfold verify_es256. rewrite Hp. apply Z.eqb_eq. by apply (signature_verifies k' (rng st)).
Qed.
End Signatures.

(** * Concrete inputs: a stand-in for mbedTLS whose keys are counters *)

Definition toy_write (n len : Z) : Z + bytes :=
  if (0 <=? n) && (n <? 2 ^ (8 * len)) then inr (be_bytes (Z.to_nat len) n) else inl (-8).

Definition toy_der (k : keypair) (size : Z) : Z + bytes :=
  inr (be_bytes 32 (pair_x k) ++ be_bytes 32 (pair_y k) ++ be_bytes 32 (pair_d k)).

Definition toy_parse (der : bytes) : Z + parsed_key :=
  if zlen der =? 96
  then inr (MkParsed PK_ECKEY (Some (DP_SECP256R1,
         MkPair (be_value (take 32 der)) (be_value (take 32 (drop 32 der))) (be_value (drop 64 der)))))
  else inl (-1).

Definition toy_signature (x y : Z) (digest : bytes) : bytes := be_bytes 32 x ++ be_bytes 32 y ++ digest.

Definition toy : mbedtls Z := MkMbedtls Z
  (fun _ => "error"%string) (fun m => replicate 32 (u8 (zlen m)))
  (fun r => (r + 1, inr (MkPair (u8 r) (u8 (r + 1)) (u8 (r + 2)))))
  (fun r n => (r + 1, inr (replicate (Z.to_nat n) (u8 r))))
  toy_write (fun bs => inr (be_value bs)) 0 0 0 (fun _ => 0) (fun _ => 0) 0
  (fun k _ => inr (48 :: be_bytes 32 (pair_x k) ++ be_bytes 32 (pair_y k))) toy_der toy_parse
  (fun r k digest _ => (r, inr (toy_signature (pair_x k) (pair_y k) digest)))
  (fun x y digest sg => if bool_decide (sg = toy_signature x y digest) then 0 else -1).

Lemma be_value_u8 x : be_value (be_bytes 32 (u8 x)) = u8 x.
Proof. apply be_value_be_bytes. pose proof (u8_range x). lia. Qed.

#[local] Instance toy_laws : mbedtls_laws toy.
Proof.
  split; try done.
  - intros r n bs Hn [= <-]. rewrite length_replicate. lia.
  - intros n len bs Hlen. cbn. unfold toy_write. destruct (_ && _); [|done]. intros [= <-].
    rewrite length_be_bytes. lia.
  - intros n len bs Hlen. cbn. unfold toy_write. destruct (_ && _) eqn:E; [|done]. intros [= <-].
    apply andb_true_iff in E as [?%Z.leb_le ?%Z.ltb_lt]. f_equal. apply be_value_be_bytes.
    by rewrite Z2Nat.id.
  - intros k (r & r' & [= _ <-]). eexists. split; [reflexivity|]. split; [done|].
    cbn [pk_parse_key toy]. unfold toy_parse. rewrite !length_app, !length_be_bytes. cbn [Z.eqb Pos.eqb].
    rewrite !(take_app_length' (be_bytes 32 _)), !(drop_app_length' (be_bytes 32 _)) by by rewrite length_be_bytes.
    rewrite (take_app_length' (be_bytes 32 _)) by by rewrite length_be_bytes.
    rewrite app_assoc, drop_app_length' by by rewrite length_app, !length_be_bytes.
    cbn [pair_x pair_y pair_d]. by rewrite !be_value_u8.
  - intros k r h sg _ [= <-]. cbn. by rewrite bool_decide_true.
Qed.

Definition sample_creation : creation_options :=
  MkCreation (str "example.com") (str "Example") (MkUser [1] (str "ann") (str "Ann")) (replicate 16 0)
    [es256] [] [] [] [] [] 0.
Definition sample_request : request_options :=
  MkRequest (str "example.com") (replicate 16 0) [] [] 0.

Definition sample_ops : list va_op :=
  [VRegister true sample_creation (str "https://login.example.com");
   VAssert true sample_request (str "https://example.com:8443/x")].

(** An authenticator after one registration. *)
Definition registered : impl (R := Z) :=
  match run_vas toy 100 100 100 (take 1 sample_ops) (construct toy 7 None true) with
  | Ret st => st
  | _ => construct toy 7 None true
  end.

Lemma assert_credential_spec_witness :
  impl_ok registered /\ length (credentials registered) = 1%nat /\ exists st' out',
    assert_credential toy true sample_request (str "https://example.com") empty_assert registered
      = Ret (""%string, st', out') /\
    exists c, map_find (as_credential_id out') (credentials registered) = Some c /\ v_sign_count c = 0 /\
      map_find (as_credential_id out') (credentials st') = Some (with_sign_count c 1).
Proof.
  assert (Hst : impl_ok registered).
  { split; [repeat constructor|]. constructor; [|constructor].
    split; [reflexivity|]. split; [reflexivity|]. split; [discriminate|reflexivity]. }
  split; [exact Hst|]. split; [reflexivity|].
  destruct (assert_credential_spec toy true sample_request (str "https://example.com") empty_assert
    registered Hst) as (msg & st' & out' & E & H).
  destruct H as [(Hmsg & _)|(Hmsg & c & Hc & Hid & _ & _ & _ & _ & _ & Hset & _)].
  - exfalso. apply Hmsg. assert (Hm : (fun o => match o with Ret (m, _, _) => m | _ => ""%string end)
      (assert_credential toy true sample_request (str "https://example.com") empty_assert registered) = ""%string)
      by (vm_compute; reflexivity). rewrite E in Hm. exact Hm.
  - exists st', out'. rewrite Hmsg in E. split; [exact E|]. exists c. split; [exact Hc|].
    assert (Hn : v_sign_count c = 0).
    { apply map_find_elem in Hc. apply list_elem_of_In in Hc. destruct Hc as [Hc|[]].
      apply (f_equal (fun e => v_sign_count e.2)) in Hc. symmetry. exact Hc. }
    split; [exact Hn|]. rewrite Hset, Hid, Hn. rewrite bool_decide_true by reflexivity. reflexivity.
Defined.

Lemma authenticator_invariant_witness : exists st,
  run_vas toy 100 100 100 sample_ops (construct toy 7 None true) = Ret st /\ impl_ok st.
Proof. apply (authenticator_invariant toy 100 100 100). Defined.

Lemma authenticator_persistence_witness : exists st rows',
  run_vas toy 100 100 100 sample_ops (construct toy 7 (Some []) true) = Ret st /\ jar st = Some rows' /\
  (forall r' : Z, credentials (construct toy r' (Some rows') true) = credentials st) /\
  (v_sign_count ∘ snd <$> credentials st) = [1].
Proof.
  destruct (authenticator_persistence toy 100 100 100 7 [] sample_ops) as (st & rows' & E & Hj & H).
  - apply NoDup_nil_2.
  - constructor; [|constructor; [reflexivity|constructor]].
    split; [reflexivity|]. split; apply (bool_decide_unpack _); vm_compute; exact I.
  - exists st, rows'. split; [exact E|]. split; [exact Hj|]. split; [exact H|].
    assert (Hs : (fun o => match o with Ret s => v_sign_count ∘ snd <$> credentials s | _ => [] end)
      (run_vas toy 100 100 100 sample_ops (construct toy 7 (Some []) true)) = [1]) by (vm_compute; reflexivity).
    rewrite E in Hs. exact Hs.
Defined.
