(* ===== verification/BsDiff.v ===== *)
(** The patch applier of [src/runtime/bsdiff_apply.cpp]: header checks, the
    control loop, and what a patch means.

    [control], [diff] and [extra] are pointers into the patch, so their reads are
    bounds-checked here against the patch itself, whatever lengths the header
    declares.  [max_size] is the largest capacity the output vector can get. *)

From S2P Require Import Prelude.

Definition k_magic : bytes := str "FXEBSD" ++ [0; 0].

(** Eight little-endian bytes at [offset] of a region of [len] bytes at [base]. *)
Definition read_le (mem : bytes) (base len offset : Z) : outcome (option Z) :=
  if (len <? offset) || (len - offset <? 8) then Ret None
  else
    bs ← sub_ mem (base + offset) 8;
    Ret (Some (le_value bs)).

Definition read_u64_le (bs : bytes) (offset : Z) : outcome (option Z) :=
  read_le bs 0 (zlen bs) offset.

Definition read_i64_le (mem : bytes) (base len offset : Z) : outcome (option Z) :=
  r ← read_le mem base len offset;
  Ret (match r with Some raw => Some (i64 raw) | None => None end).

(** [-x] on [int64_t]: undefined for the least value. *)
Definition neg_i64 (x : Z) : outcome Z := if x =? - 2 ^ 63 then Ub else Ret (- x).

Section Apply.
Context (max_size : Z).

Definition reserve (n : Z) : outcome unit := if n <=? max_size then Ret tt else Throw "reserve".

(** The variables of the control loop. *)
Record positions : Type := MkPos { diff_off : Z; extra_off : Z; old_pos : Z; output : bytes }.

(** One entry of the control stream; [inl] is the error that ends the loop. *)
Definition apply_entry (old patch : bytes) (diff diff_len extra extra_len : Z)
    (mix_count extra_count seek_offset : Z) (p : positions) : outcome (string + positions) :=
  if (mix_count <? 0) || (extra_count <? 0)
  then Ret (inl "bsdiff control stream has negative sizes"%string) else
  let mix := mix_count in
  let extra_size := extra_count in
  if (diff_len <? diff_off p) || (diff_len - diff_off p <? mix)
  then Ret (inl "bsdiff diff stream is truncated"%string) else
  if (zlen old <? old_pos p) || (zlen old - old_pos p <? mix)
  then Ret (inl "bsdiff mix range exceeds source bytes"%string) else
  if 2 ^ 64 - 1 - mix <? zlen (output p) then Ret (inl "bsdiff output is too large"%string) else
  reserve (u64 (zlen (output p) + mix + extra_size));;
  olds ← sub_ old (old_pos p) mix;
  diffs ← sub_ patch (diff + diff_off p) mix;
  let out := output p ++ zip_with (fun a b => u8 (a + b)) olds diffs in
  let diff_off' := diff_off p + mix in
  let old_pos' := old_pos p + mix in
  if (extra_len <? extra_off p) || (extra_len - extra_off p <? extra_size)
  then Ret (inl "bsdiff extra stream is truncated"%string) else
  extras ← sub_ patch (extra + extra_off p) extra_size;
  let out := out ++ extras in
  let extra_off' := extra_off p + extra_size in
  if seek_offset <? 0 then
    back ← neg_i64 seek_offset;
    if old_pos' <? back then Ret (inl "bsdiff seek moved before start of source bytes"%string)
    else Ret (inr (MkPos diff_off' extra_off' (old_pos' - back) out))
  else if zlen old - old_pos' <? seek_offset
  then Ret (inl "bsdiff seek moved past end of source bytes"%string)
  else Ret (inr (MkPos diff_off' extra_off' (old_pos' + seek_offset) out)).

(** [while (control_off < control_len)] *)
Fixpoint control_loop (fuel : nat) (old patch : bytes) (control control_len diff diff_len extra extra_len : Z)
    (control_off : Z) (p : positions) : outcome (string + positions) :=
  if control_len <=? control_off then Ret (inr p)
  else
    match fuel with
    | O => OutOfFuel
    | S fuel' =>
        m ← read_i64_le patch control control_len control_off;
        match m with
        | None => Ret (inl "bsdiff control stream is truncated"%string)
        | Some mix_count =>
            e ← read_i64_le patch control control_len (control_off + 8);
            match e with
            | None => Ret (inl "bsdiff control stream is truncated"%string)
            | Some extra_count =>
                s ← read_i64_le patch control control_len (control_off + 16);
                match s with
                | None => Ret (inl "bsdiff control stream is truncated"%string)
                | Some seek_offset =>
                    r ← apply_entry old patch diff diff_len extra extra_len mix_count extra_count seek_offset p;
                    match r with
                    | inl err => Ret (inl err)
                    | inr p' => control_loop fuel' old patch control control_len diff diff_len extra extra_len
                                  (control_off + 24) p'
                    end
                end
            end
        end
    end.

(** The error message, or the patched bytes. *)
Definition apply_bsdiff (old patch : bytes) : outcome (string + bytes) :=
  if zlen patch <? 32 then Ret (inl "bsdiff patch header is truncated"%string) else
  if negb (bool_decide (ztake 8 patch = k_magic)) then Ret (inl "bsdiff patch magic is invalid"%string) else
  c ← read_u64_le patch 8;
  d ← read_u64_le patch 16;
  e ← read_u64_le patch 24;
  match c, d, e with
  | Some control_len, Some diff_len, Some extra_len =>
      let total := u64 (32 + control_len + diff_len + extra_len) in
      if negb (total =? zlen patch) then Ret (inl "bsdiff patch length mismatch"%string) else
      if negb (control_len mod 24 =? 0) then Ret (inl "bsdiff control stream is misaligned"%string) else
      let control := 32 in
      let diff := control + control_len in
      let extra := diff + diff_len in
      r ← control_loop (S (length patch)) old patch control control_len diff diff_len extra extra_len 0
            (MkPos 0 0 0 []);
      match r with
      | inl err => Ret (inl err)
      | inr p =>
          if negb (diff_off p =? diff_len) || negb (extra_off p =? extra_len)
          then Ret (inl "bsdiff patch streams were not fully consumed"%string)
          else Ret (inr (output p))
      end
  | _, _, _ => Ret (inl "bsdiff patch header is truncated"%string)
  end.
End Apply.

(** * What a patch means *)

(** One step of a patch: bytes to add to the source, bytes to copy, and how far
    to move in the source. *)
Record entry : Type := MkEntry { mix : bytes; extra_bytes : bytes; seek : Z }.

Definition control_bytes (e : entry) : bytes :=
  le_bytes 8 (zlen (mix e)) ++ le_bytes 8 (zlen (extra_bytes e)) ++ le_bytes 8 (u64 (seek e)).

Definition make_patch (es : list entry) : bytes :=
  let control := concat (map control_bytes es) in
  let diff := concat (map mix es) in
  let extra := concat (map extra_bytes es) in
  k_magic ++ le_bytes 8 (zlen control) ++ le_bytes 8 (zlen diff) ++ le_bytes 8 (zlen extra) ++
  control ++ diff ++ extra.

(** The new file: source bytes plus mix bytes, then the extra bytes, entry by
    entry; [None] when an entry leaves the source. *)
Fixpoint patched (old : bytes) (pos : Z) (es : list entry) : option bytes :=
  match es with
  | [] => Some []
  | e :: es' =>
      let pos' := pos + zlen (mix e) in
      if (pos' <=? zlen old) && (0 <=? pos' + seek e) && (pos' + seek e <=? zlen old) then
        rest ← patched old (pos' + seek e) es';
        Some (zip_with (fun a b => u8 (a + b)) (zsub pos (zlen (mix e)) old) (mix e) ++
              extra_bytes e ++ rest)
      else None
  end.

(** * Properties *)

Lemma length_control_bytes e : length (control_bytes e) = 24%nat.
Proof. unfold control_bytes. by rewrite !length_app, !length_le_bytes. Qed.

Lemma length_controls es : zlen (concat (map control_bytes es)) = 24 * zlen es.
Proof.
  induction es as [|e es IH]; [done|]. cbn [map concat length].
  rewrite length_app, length_control_bytes. lia.
Qed.

(** Reading a part of a known layout. *)
Lemma sub_layout (mem l1 l2 l3 : bytes) off n : mem = l1 ++ l2 ++ l3 -> off = zlen l1 -> n = zlen l2 ->
  sub_ mem off n = Ret l2.
Proof. intros -> -> ->. by apply sub_app_mid. Qed.

Lemma read_le_layout (mem l1 l3 : bytes) v base len offset : mem = l1 ++ le_bytes 8 v ++ l3 ->
  base + offset = zlen l1 -> offset + 8 <= len -> 0 <= v < 2 ^ 64 ->
  read_le mem base len offset = Ret (Some v).
Proof.
  intros Hm Hb Hl Hv. unfold read_le.
  destruct (Z.ltb_spec len offset); [lia|]. destruct (Z.ltb_spec (len - offset) 8); [lia|]. cbn [orb].
  rewrite (sub_layout mem l1 (le_bytes 8 v) l3) by (rewrite ?length_le_bytes; done).
  cbn [mbind outcome_bind]. by rewrite le_value_le_bytes.
Qed.

Lemma read_i64_layout (mem l1 l3 : bytes) v base len offset : mem = l1 ++ le_bytes 8 (u64 v) ++ l3 ->
  base + offset = zlen l1 -> offset + 8 <= len -> - 2 ^ 63 <= v < 2 ^ 63 ->
  read_i64_le mem base len offset = Ret (Some v).
Proof.
  intros Hm Hb Hl Hv. unfold read_i64_le. rewrite (read_le_layout mem l1 l3 (u64 v)); [|done..|apply u64_range].
  cbn [mbind outcome_bind]. do 2 f_equal. apply to_signed_wrap; [lia|]. exact Hv.
Qed.

(** Sizes that fit the format and the machine. *)
Definition entry_ok (e : entry) : Prop :=
  is_bytes (mix e) /\ is_bytes (extra_bytes e) /\ - 2 ^ 63 < seek e < 2 ^ 63.

Section Correct.
Context (max_size : Z) (Hmax : max_size < 2 ^ 63).

Lemma patched_cons old pos e es new : patched old pos (e :: es) = Some new ->
  exists rest, patched old (pos + zlen (mix e) + seek e) es = Some rest /\
    pos + zlen (mix e) <= zlen old /\ 0 <= pos + zlen (mix e) + seek e <= zlen old /\
    new = zip_with (fun a b => u8 (a + b)) (zsub pos (zlen (mix e)) old) (mix e) ++ extra_bytes e ++ rest.
Proof.
  cbn [patched]. destruct (_ && _) eqn:E; [|done].
  rewrite !andb_true_iff, !Z.leb_le in E. destruct (patched _ _ es) as [rest|]; [|done].
  intros [= <-]. exists rest. split; [done|]. split; [lia|]. split; [lia|]. done.
Qed.

Lemma length_mixed old pos (m : bytes) : 0 <= pos -> pos + zlen m <= zlen old ->
  zlen (zip_with (fun a b => u8 (a + b)) (zsub pos (zlen m) old) m) = zlen m.
Proof.
  intros. rewrite length_zip_with. pose proof (zlen_zsub pos (zlen m) old). lia.
Qed.

(** One entry of a patch, laid out after [l1] in the diff stream and [x1] in the
    extra stream. *)
Lemma apply_entry_spec old patch e es pos out new l1 l3 x1 x3 diff diff_len extra extra_len :
  entry_ok e -> 0 <= pos -> patched old pos (e :: es) = Some new ->
  patch = l1 ++ mix e ++ l3 -> patch = x1 ++ extra_bytes e ++ x3 ->
  forall diff_o extra_o, diff + diff_o = zlen l1 -> extra + extra_o = zlen x1 ->
  0 <= diff_o -> 0 <= extra_o ->
  diff_o + zlen (mix e) <= diff_len -> extra_o + zlen (extra_bytes e) <= extra_len ->
  zlen out + zlen new <= max_size ->
  exists rest, patched old (pos + zlen (mix e) + seek e) es = Some rest /\
    apply_entry max_size old patch diff diff_len extra extra_len (zlen (mix e)) (zlen (extra_bytes e)) (seek e)
      (MkPos diff_o extra_o pos out)
    = Ret (inr (MkPos (diff_o + zlen (mix e)) (extra_o + zlen (extra_bytes e)) (pos + zlen (mix e) + seek e)
        (out ++ zip_with (fun a b => u8 (a + b)) (zsub pos (zlen (mix e)) old) (mix e) ++ extra_bytes e))) /\
    new = (zip_with (fun a b => u8 (a + b)) (zsub pos (zlen (mix e)) old) (mix e) ++ extra_bytes e) ++ rest.
Proof.
  intros (_ & _ & Hs) Hpos Hp Hd Hx diff_o extra_o Hdo Hxo Hd0 Hx0 Hdl Hxl Hlen.
  apply patched_cons in Hp as (rest & Hr & H1 & H2 & Hnew). exists rest. split; [done|].
  split; [|by rewrite <- app_assoc].
  pose proof (length_mixed old pos (mix e) Hpos H1) as Hm.
  rewrite Hnew, !length_app in Hlen. unfold apply_entry.
  cbn [diff_off extra_off old_pos output].
  destruct (Z.ltb_spec (zlen (mix e)) 0); [lia|]. destruct (Z.ltb_spec (zlen (extra_bytes e)) 0); [lia|].
  cbn [orb]. cbv zeta.
  destruct (Z.ltb_spec diff_len diff_o); [lia|]. destruct (Z.ltb_spec (diff_len - diff_o) (zlen (mix e))); [lia|].
  destruct (Z.ltb_spec (zlen old) pos); [lia|]. destruct (Z.ltb_spec (zlen old - pos) (zlen (mix e))); [lia|].
  cbn [orb]. destruct (Z.ltb_spec (2 ^ 64 - 1 - zlen (mix e)) (zlen out)); [lia|].
  unfold reserve. rewrite u64_small by lia.
  destruct (Z.leb_spec (zlen out + zlen (mix e) + zlen (extra_bytes e)) max_size); [|lia].
  cbn [mbind outcome_bind]. rewrite (sub_Ret old) by lia. cbn [mbind outcome_bind].
  rewrite (sub_layout patch l1 (mix e) l3 (diff + diff_o) (zlen (mix e))) by (done || lia). cbn [mbind outcome_bind].
  destruct (Z.ltb_spec extra_len extra_o); [lia|].
  destruct (Z.ltb_spec (extra_len - extra_o) (zlen (extra_bytes e))); [lia|]. cbn [orb].
  rewrite (sub_layout patch x1 (extra_bytes e) x3 (extra + extra_o) (zlen (extra_bytes e))) by (done || lia). cbn [mbind outcome_bind].
  rewrite <- app_assoc. destruct (Z.ltb_spec (seek e) 0).
  - unfold neg_i64. destruct (Z.eqb_spec (seek e) (- 2 ^ 63)); [lia|]. cbn [mbind outcome_bind].
    destruct (Z.ltb_spec (pos + zlen (mix e)) (- seek e)); [lia|].
    by replace (pos + zlen (mix e) - - seek e) with (pos + zlen (mix e) + seek e) by lia.
  - destruct (Z.ltb_spec (zlen old - (pos + zlen (mix e))) (seek e)); [lia|]. done.
Qed.

Lemma control_loop_spec old header done todo fuel pos out new :
  let es := done ++ todo in
  let patch := header ++ concat (map control_bytes es) ++ concat (map mix es) ++ concat (map extra_bytes es) in
  zlen header = 32 -> Forall entry_ok es -> 0 <= pos -> patched old pos todo = Some new ->
  zlen patch < 2 ^ 63 -> zlen out + zlen new <= max_size -> (length todo < fuel)%nat ->
  exists pos', control_loop max_size fuel old patch 32 (24 * zlen es)
    (32 + 24 * zlen es) (zlen (concat (map mix es)))
    (32 + 24 * zlen es + zlen (concat (map mix es))) (zlen (concat (map extra_bytes es)))
    (24 * zlen done) (MkPos (zlen (concat (map mix done))) (zlen (concat (map extra_bytes done))) pos out)
  = Ret (inr (MkPos (zlen (concat (map mix es))) (zlen (concat (map extra_bytes es))) pos' (out ++ new))).
Proof.
  cbv zeta. intros Hh Hok. revert done fuel pos out new Hok.
  induction todo as [|e todo IH]; intros done fuel pos out new Hok Hpos Hp Hsz Hlen Hf.
  { rewrite app_nil_r in *. injection Hp as <-. exists pos. destruct fuel as [|fuel]; [simpl in Hf; lia|].
    cbn [control_loop]. destruct (Z.leb_spec (24 * zlen done) (24 * zlen done)); [|lia].
    by rewrite app_nil_r. }
  destruct fuel as [|fuel]; [simpl in Hf; lia|]. cbn [control_loop].
  assert (Hlen_es : zlen (done ++ e :: todo) = zlen done + 1 + zlen todo) by (rewrite length_app; simpl; lia).
  destruct (Z.leb_spec (24 * zlen (done ++ e :: todo)) (24 * zlen done)); [lia|].
  assert (He : entry_ok e) by (apply Forall_app in Hok as [_ Hok]; by inversion Hok).
  pose proof (length_controls done) as Hcd. pose proof (length_controls (done ++ e :: todo)) as Hce.
  set (es := done ++ e :: todo) in *.
  set (C := concat (map control_bytes es)) in *. set (D := concat (map mix es)) in *.
  set (X := concat (map extra_bytes es)) in *.
  set (Cd := concat (map control_bytes done)) in *. set (Ct := concat (map control_bytes todo)).
  assert (HC : C = Cd ++ control_bytes e ++ Ct)
    by (unfold C, es; rewrite map_app, concat_app; done).
  assert (HD : D = concat (map mix done) ++ mix e ++ concat (map mix todo))
    by (unfold D, es; rewrite map_app, concat_app; done).
  assert (HX : X = concat (map extra_bytes done) ++ extra_bytes e ++ concat (map extra_bytes todo))
    by (unfold X, es; rewrite map_app, concat_app; done).
  set (patch := header ++ C ++ D ++ X) in *.
  assert (Hszp : zlen patch = 32 + zlen C + zlen D + zlen X) by (unfold patch; rewrite !length_app; lia).
  assert (Hmx : zlen (mix e) <= zlen D /\ zlen (extra_bytes e) <= zlen X)
    by (rewrite HD, HX, !length_app; lia).
  pose proof He as (_ & _ & Hseek).
  rewrite (read_i64_layout patch (header ++ Cd) (le_bytes 8 (zlen (extra_bytes e)) ++ le_bytes 8 (u64 (seek e)) ++ Ct ++ D ++ X)
             (zlen (mix e)) 32 (24 * zlen es) (24 * zlen done)).
  2: { unfold patch. rewrite HC, u64_small by lia. unfold control_bytes. by rewrite <- !app_assoc. }
  2: { rewrite length_app. lia. } 2: lia. 2: lia.
  cbn [mbind outcome_bind].
  rewrite (read_i64_layout patch (header ++ Cd ++ le_bytes 8 (zlen (mix e))) (le_bytes 8 (u64 (seek e)) ++ Ct ++ D ++ X)
             (zlen (extra_bytes e)) 32 (24 * zlen es) (24 * zlen done + 8)).
  2: { unfold patch. rewrite HC, u64_small by lia. unfold control_bytes. by rewrite <- !app_assoc. }
  2: { rewrite !length_app, length_le_bytes. lia. } 2: lia. 2: lia.
  cbn [mbind outcome_bind].
  rewrite (read_i64_layout patch (header ++ Cd ++ le_bytes 8 (zlen (mix e)) ++ le_bytes 8 (zlen (extra_bytes e)))
             (Ct ++ D ++ X) (seek e) 32 (24 * zlen es) (24 * zlen done + 16)).
  2: { unfold patch. rewrite HC. unfold control_bytes. by rewrite <- !app_assoc. }
  2: { rewrite !length_app, !length_le_bytes. lia. } 2: lia. 2: lia.
  cbn [mbind outcome_bind].
  destruct (apply_entry_spec old patch e todo pos out new
    (header ++ C ++ concat (map mix done)) (concat (map mix todo) ++ X)
    (header ++ C ++ D ++ concat (map extra_bytes done)) (concat (map extra_bytes todo))
    (32 + 24 * zlen es) (zlen D) (32 + 24 * zlen es + zlen D) (zlen X)) with
    (diff_o := zlen (concat (map mix done))) (extra_o := zlen (concat (map extra_bytes done)))
    as (rest & Hrest & Happ & Hnew); try done.
  { unfold patch. rewrite HD at 1. by rewrite <- !app_assoc. }
  { unfold patch. rewrite HX at 1. by rewrite <- !app_assoc. }
  { rewrite !length_app. lia. } { rewrite !length_app. lia. } { lia. } { lia. }
  { rewrite HD, !length_app. lia. } { rewrite HX, !length_app. lia. }
  rewrite Happ. cbn [mbind outcome_bind].
  pose proof (patched_cons _ _ _ _ _ Hp) as (_ & _ & _ & Hb & _).
  set (piece := zip_with _ _ _ ++ extra_bytes e) in *.
  destruct (IH (done ++ [e]) fuel (pos + zlen (mix e) + seek e) (out ++ piece) rest) as [pos' IHr].
  - by rewrite <- app_assoc.
  - lia.
  - done.
  - rewrite <- app_assoc. exact Hsz.
  - rewrite Hnew, length_app in Hlen. rewrite length_app. lia.
  - simpl in Hf. lia.
  - exists pos'. rewrite <- app_assoc in IHr. cbn [app] in IHr. fold es C D X patch in IHr.
    rewrite !map_app, !concat_app, !length_app in IHr. cbn [map concat length] in IHr.
    rewrite !app_nil_r in IHr. rewrite Hnew, app_assoc. rewrite <- IHr. f_equal; [lia|].
    f_equal; lia.
Qed.

(** C9. Applying the patch laid out for a list of entries gives exactly the file
    those entries describe: the source bytes plus the mix bytes (modulo 256),
    then the extra bytes, entry by entry along the seeks. *)
Theorem apply_bsdiff_correct old es new : Forall entry_ok es -> patched old 0 es = Some new ->
  zlen (make_patch es) < 2 ^ 63 -> zlen new <= max_size ->
  apply_bsdiff max_size old (make_patch es) = Ret (inr new).
Proof.
  intros Hok Hp Hsz Hnew. unfold apply_bsdiff.
  set (C := concat (map control_bytes es)). set (D := concat (map mix es)). set (X := concat (map extra_bytes es)).
  set (header := k_magic ++ le_bytes 8 (zlen C) ++ le_bytes 8 (zlen D) ++ le_bytes 8 (zlen X)).
  assert (Hpatch : make_patch es = header ++ C ++ D ++ X)
    by (unfold make_patch, header; by rewrite <- !app_assoc).
  assert (Hh : zlen header = 32) by (unfold header; rewrite !length_app, !length_le_bytes; done).
  rewrite Hpatch in *. set (patch := header ++ C ++ D ++ X) in *.
  assert (Hlen : zlen patch = 32 + zlen C + zlen D + zlen X) by (unfold patch; rewrite !length_app; lia).
  destruct (Z.ltb_spec (zlen patch) 32); [lia|].
  assert (Hmagic : ztake 8 patch = k_magic) by reflexivity.
  rewrite Hmagic, bool_decide_true by done. cbn [negb]. unfold read_u64_le.
  rewrite (read_le_layout patch k_magic (le_bytes 8 (zlen D) ++ le_bytes 8 (zlen X) ++ C ++ D ++ X) (zlen C) 0 (zlen patch) 8);
    [|unfold patch, header; by rewrite <- !app_assoc|done|lia|lia]. cbn [mbind outcome_bind].
  rewrite (read_le_layout patch (k_magic ++ le_bytes 8 (zlen C)) (le_bytes 8 (zlen X) ++ C ++ D ++ X) (zlen D) 0 (zlen patch) 16);
    [|unfold patch, header; by rewrite <- !app_assoc|done|lia|lia]. cbn [mbind outcome_bind].
  rewrite (read_le_layout patch (k_magic ++ le_bytes 8 (zlen C) ++ le_bytes 8 (zlen D)) (C ++ D ++ X) (zlen X) 0 (zlen patch) 24);
    [|unfold patch, header; by rewrite <- !app_assoc|done|lia|lia]. cbn [mbind outcome_bind].
  rewrite u64_small by lia. rewrite Hlen, Z.eqb_refl. cbn [negb].
  pose proof (length_controls es) as HC. fold C in HC.
  assert (Hmod : zlen C mod 24 = 0) by (rewrite HC, Z.mul_comm; apply Z.mod_mul; lia).
  rewrite Hmod. cbn [negb Z.eqb].
  destruct (control_loop_spec old header [] es (S (length patch)) 0 [] new Hh Hok ltac:(lia) Hp Hsz
    ltac:(simpl; lia)) as [pos' L].
  { pose proof HC as HC'. cbn [app]. lia. }
  cbn [app map concat length] in L. fold C D X patch in L.
  rewrite Z.mul_0_r in L. rewrite HC. change (Z.of_nat 0) with 0 in L. rewrite L. cbn [mbind outcome_bind diff_off extra_off output].
  by rewrite !Z.eqb_refl.
Qed.
End Correct.

(** * Arbitrary patches *)

(** The lengths a header declares. *)
Definition declared (patch : bytes) : Z * Z * Z :=
  (le_value (zsub 8 8 patch), le_value (zsub 16 8 patch), le_value (zsub 24 8 patch)).

(** A seek of the least 64-bit integer somewhere in the control stream. *)
Definition least_seek (patch : bytes) : Prop :=
  exists off, 0 <= off /\ off + 8 <= zlen patch /\ i64 (le_value (zsub off 8 patch)) = - 2 ^ 63.

Section Safety.
Context (max_size : Z).

Definition positions_ok (old : bytes) (diff_len extra_len : Z) (p : positions) : Prop :=
  0 <= diff_off p <= diff_len /\ 0 <= extra_off p <= extra_len /\ 0 <= old_pos p <= zlen old.

Lemma read_i64_safe mem base len offset : is_bytes mem -> 0 <= base -> 0 <= offset -> base + len <= zlen mem ->
  match read_i64_le mem base len offset with
  | Ret (Some v) => - 2 ^ 63 <= v < 2 ^ 63 /\ offset + 8 <= len /\ v = i64 (le_value (zsub (base + offset) 8 mem))
  | Ret None => True
  | _ => False
  end.
Proof.
  intros Hm Hb Ho Hl. unfold read_i64_le, read_le.
  destruct (Z.ltb_spec len offset); [done|]. destruct (Z.ltb_spec (len - offset) 8); [done|]. cbn [orb].
  rewrite sub_Ret by lia. cbn [mbind outcome_bind]. split; [apply (to_signed_range 64); lia|]. split; [lia|done].
Qed.

Lemma apply_entry_safe old patch diff diff_len extra extra_len m e s p :
  0 <= diff -> 0 <= extra -> diff + diff_len <= zlen patch -> extra + extra_len <= zlen patch ->
  positions_ok old diff_len extra_len p -> - 2 ^ 63 <= s < 2 ^ 63 ->
  match apply_entry max_size old patch diff diff_len extra extra_len m e s p with
  | Ret (inr p') => positions_ok old diff_len extra_len p'
  | Ret (inl _) => True
  | Throw w => w = "reserve"%string
  | Ub => s = - 2 ^ 63
  | OutOfFuel => False
  end.
Proof.
  intros Hd Hx Hdl Hxl (H1 & H2 & H3) Hs. unfold apply_entry.
  destruct (Z.ltb_spec m 0); [done|]. destruct (Z.ltb_spec e 0); [done|]. cbn [orb]. cbv zeta.
  destruct (Z.ltb_spec diff_len (diff_off p)); [done|]. destruct (Z.ltb_spec (diff_len - diff_off p) m); [done|].
  destruct (Z.ltb_spec (zlen old) (old_pos p)); [done|]. destruct (Z.ltb_spec (zlen old - old_pos p) m); [done|].
  cbn [orb]. destruct (Z.ltb_spec (2 ^ 64 - 1 - m) (zlen (output p))); [done|].
  unfold reserve. destruct (_ <=? max_size); [|done]. cbn [mbind outcome_bind].
  rewrite (sub_Ret old) by lia. cbn [mbind outcome_bind].
  rewrite (sub_Ret patch (diff + diff_off p)) by lia. cbn [mbind outcome_bind].
  destruct (Z.ltb_spec extra_len (extra_off p)); [done|].
  destruct (Z.ltb_spec (extra_len - extra_off p) e); [done|]. cbn [orb].
  rewrite (sub_Ret patch (extra + extra_off p)) by lia. cbn [mbind outcome_bind].
  destruct (Z.ltb_spec s 0).
  - unfold neg_i64. destruct (Z.eqb_spec s (- 2 ^ 63)); [done|]. cbn [mbind outcome_bind].
    destruct (Z.ltb_spec (old_pos p + m) (- s)); [done|]. unfold positions_ok. cbn. lia.
  - destruct (Z.ltb_spec (zlen old - (old_pos p + m)) s); [done|]. unfold positions_ok. cbn. lia.
Qed.

Lemma control_loop_safe fuel old patch n diff_len extra_len k p :
  is_bytes patch -> 0 <= k <= n -> 0 <= diff_len -> 0 <= extra_len ->
  32 + 24 * n + diff_len + extra_len = zlen patch -> n - k < Z.of_nat fuel ->
  positions_ok old diff_len extra_len p ->
  match control_loop max_size fuel old patch 32 (24 * n) (32 + 24 * n) diff_len
          (32 + 24 * n + diff_len) extra_len (24 * k) p with
  | Ret _ => True
  | Throw w => w = "reserve"%string
  | Ub => least_seek patch
  | OutOfFuel => False
  end.
Proof.
  intros Hb Hk Hd Hx Hlen. revert k p Hk. induction fuel as [|fuel IH]; intros k p Hk Hf Hp; [lia|].
  cbn [control_loop]. destruct (Z.leb_spec (24 * n) (24 * k)); [done|].
  pose proof (read_i64_safe patch 32 (24 * n) (24 * k) Hb ltac:(lia) ltac:(lia) ltac:(lia)) as R1.
  destruct (read_i64_le patch 32 (24 * n) (24 * k)) as [[m|]| | |]; try done. cbn [mbind outcome_bind].
  pose proof (read_i64_safe patch 32 (24 * n) (24 * k + 8) Hb ltac:(lia) ltac:(lia) ltac:(lia)) as R2.
  destruct (read_i64_le patch 32 (24 * n) (24 * k + 8)) as [[e|]| | |]; try done. cbn [mbind outcome_bind].
  pose proof (read_i64_safe patch 32 (24 * n) (24 * k + 16) Hb ltac:(lia) ltac:(lia) ltac:(lia)) as R3.
  destruct (read_i64_le patch 32 (24 * n) (24 * k + 16)) as [[s|]| | |]; try done. cbn [mbind outcome_bind].
  destruct R3 as (Hs & Hso & Hsv).
  pose proof (apply_entry_safe old patch (32 + 24 * n) diff_len (32 + 24 * n + diff_len) extra_len m e s p
    ltac:(lia) ltac:(lia) ltac:(lia) ltac:(lia) Hp Hs) as A.
  destruct (apply_entry _ _ _ _ _ _ _ _ _ _ _) as [[err|p']| | |]; try done; cbn [mbind outcome_bind].
  - replace (24 * k + 24) with (24 * (k + 1)) by lia. apply IH; [lia|lia|done].
  - exists (32 + (24 * k + 16)). split; [lia|]. split; [lia|]. by rewrite <- Hsv.
Qed.

(** For a patch whose declared lengths do not overflow 64 bits, the applier
    terminates and reads only inside the patch and the source: it can only
    return, throw from [reserve], or negate the least 64-bit seek. *)
Lemma apply_bsdiff_safe old patch : is_bytes patch -> zlen patch < 2 ^ 63 ->
  (let '(c, d, e) := declared patch in 32 + c + d + e < 2 ^ 64) ->
  match apply_bsdiff max_size old patch with
  | Ret _ => True
  | Throw w => w = "reserve"%string
  | Ub => least_seek patch
  | OutOfFuel => False
  end.
Proof.
  intros Hb Hsz Hdecl. cbn [declared] in Hdecl. unfold apply_bsdiff.
  destruct (Z.ltb_spec (zlen patch) 32); [done|].
  destruct (bool_decide _); cbn [negb]; [|done]. unfold read_u64_le, read_le.
  destruct (Z.ltb_spec (zlen patch) 8); [lia|]. destruct (Z.ltb_spec (zlen patch - 8) 8); [lia|].
  destruct (Z.ltb_spec (zlen patch) 16); [lia|]. destruct (Z.ltb_spec (zlen patch - 16) 8); [lia|].
  destruct (Z.ltb_spec (zlen patch) 24); [lia|]. destruct (Z.ltb_spec (zlen patch - 24) 8); [lia|].
  cbn [orb]. rewrite !Z.add_0_l, !sub_Ret by lia. cbn [mbind outcome_bind].
  assert (B : forall off, 0 <= off -> off + 8 <= zlen patch -> 0 <= le_value (zsub off 8 patch) < 2 ^ 64).
  { intros off Hoff0 Hoff8. pose proof (le_value_bound (zsub off 8 patch) ltac:(by apply is_bytes_zsub)) as P.
    rewrite (zlen_zsub off 8) in P by lia. exact P. }
  pose proof (B 8 ltac:(lia) ltac:(lia)) as Bc. pose proof (B 16 ltac:(lia) ltac:(lia)) as Bd.
  pose proof (B 24 ltac:(lia) ltac:(lia)) as Be.
  set (c := le_value (zsub 8 8 patch)) in *. set (d := le_value (zsub 16 8 patch)) in *.
  set (e := le_value (zsub 24 8 patch)) in *.
  rewrite u64_small by lia. destruct (Z.eqb_spec (32 + c + d + e) (zlen patch)) as [E|]; cbn [negb]; [|done].
  destruct (Z.eqb_spec (c mod 24) 0) as [Hm|]; cbn [negb]; [|done].
  assert (Hc : c = 24 * (c / 24)) by (pose proof (Z.div_mod c 24); lia).
  pose proof (control_loop_safe (S (length patch)) old patch (c / 24) d e 0 (MkPos 0 0 0 []) Hb
    ltac:(lia) ltac:(lia) ltac:(lia) ltac:(lia) ltac:(lia) ltac:(split_and!; cbn; lia)) as L.
  rewrite <- Hc in L. change (24 * 0) with 0 in L.
  destruct (control_loop _ _ _ _ _ _ _ _ _ _ _ _) as [[err|p]| | |]; try done. cbn [mbind outcome_bind].
  by destruct (_ || _).
Qed.
End Safety.

(** * Concrete inputs *)

Definition sample_entries : list entry :=
  [MkEntry [0; 1; 255] [65; 66] 1; MkEntry [2] [] (-5)].

Lemma apply_bsdiff_correct_witness :
  apply_bsdiff 1000 [10; 20; 30; 40; 50] (make_patch sample_entries) = Ret (inr [10; 21; 29; 65; 66; 52]).
Proof.
  apply (apply_bsdiff_correct 1000 ltac:(lia) [10; 20; 30; 40; 50] sample_entries).
  - repeat constructor; simpl; lia.
  - vm_compute. reflexivity.
  - vm_compute. reflexivity.
  - simpl. lia.
Defined.

Lemma apply_bsdiff_safe_witness :
  let patch := make_patch sample_entries in
  is_bytes patch /\ (let '(c, d, e) := declared patch in 32 + c + d + e < 2 ^ 64) /\
  match apply_bsdiff 1000 [10; 20] patch with Ret _ => True | Throw w => w = "reserve"%string
  | Ub => least_seek patch | OutOfFuel => False end.
Proof.
  intros patch. assert (Hb : is_bytes patch) by (apply (bool_decide_unpack _); vm_compute; exact I).
  assert (Hd : let '(c, d, e) := declared patch in 32 + c + d + e < 2 ^ 64) by (vm_compute; reflexivity).
  split; [exact Hb|]. split; [exact Hd|].
  apply (apply_bsdiff_safe 1000 [10; 20] patch Hb ltac:(vm_compute; reflexivity) Hd).
Defined.

(** The sum of the declared lengths wraps: a 32-byte patch that declares
    2^64 - 16 control bytes passes the length check, and the first control entry
    is read outside it. *)
Lemma declared_lengths_wrap :
  apply_bsdiff 1000 [] (k_magic ++ le_bytes 8 (2 ^ 64 - 16) ++ le_bytes 8 16 ++ le_bytes 8 0) = Ub.
Proof. vm_compute. reflexivity. Qed.

(** The output is reserved before the extra size is checked against the stream. *)
Lemma oversized_extra_throws :
  apply_bsdiff 1000 [] (k_magic ++ le_bytes 8 24 ++ le_bytes 8 0 ++ le_bytes 8 0 ++
    le_bytes 8 0 ++ le_bytes 8 (2 ^ 62) ++ le_bytes 8 0) = Throw "reserve".
Proof. vm_compute. reflexivity. Qed.

Lemma least_seek_overflows :
  apply_bsdiff 1000 [] (k_magic ++ le_bytes 8 24 ++ le_bytes 8 0 ++ le_bytes 8 0 ++
    le_bytes 8 0 ++ le_bytes 8 0 ++ le_bytes 8 (2 ^ 63)) = Ub.
Proof. vm_compute. reflexivity. Qed.
