(* ===== verification/UpdateFeeds.v ===== *)
(** The updater's feeds and decisions ([src/runtime/updater.cpp]): version
    comparison, the Squirrel and CBOR manifests, channels, staged rollout, and the
    quoting of paths for the shells that finish an update.

    XML ([pugixml]) and the system calls are not modelled; the state of the updates
    directory is in [Updater]. *)

From S2P Require Import Prelude Strings Cbor.

(** * Numbers and versions *)

Definition is_hex_digit (c : Z) : bool :=
  is_digit c || ((chr "a" <=? c) && (c <=? chr "f")) || ((chr "A" <=? c) && (c <=? chr "F")).
Definition is_hex_sha256 (value : bytes) : bool := (zlen value =? 64) && forallb is_hex_digit value.
Definition is_hex_sha1 (value : bytes) : bool := (zlen value =? 40) && forallb is_hex_digit value.

Definition int64_max : Z := 2 ^ 63 - 1.
Definition uint32_max : Z := 2 ^ 32 - 1.

Fixpoint i64_loop (value : Z) (text : bytes) : option Z :=
  match text with
  | [] => Some value
  | c :: text' =>
      if (c <? chr "0") || (chr "9" <? c) then None
      else
        let digit := c - chr "0" in
        if (int64_max - digit) / 10 <? value then None else i64_loop (value * 10 + digit) text'
  end.
Definition parse_i64_decimal (text : bytes) : option Z :=
  match trim text with [] => None | t => i64_loop 0 t end.

Fixpoint version_part (part : Z) (token : bytes) : Z :=
  match token with
  | [] => part
  | c :: token' =>
      if (c <? chr "0") || (chr "9" <? c) then 0
      else
        let part := u64 (part * 10 + (c - chr "0")) in
        if uint32_max <? part then uint32_max else version_part part token'
  end.
Definition parse_version_parts (version : bytes) : list Z := map (version_part 0) (pieces (chr ".") version).

Fixpoint compare_parts (left right : list Z) : Z :=
  match left, right with
  | l :: left', r :: right' => if l <? r then -1 else if r <? l then 1 else compare_parts left' right'
  | _, _ => 0
  end.
(** Missing parts count as zero. *)
Definition padded (n : nat) (parts : list Z) : list Z := parts ++ replicate (n - length parts) 0.
Definition compare_versions (lhs rhs : bytes) : Z :=
  let left := parse_version_parts lhs in
  let right := parse_version_parts rhs in
  let count := Nat.max (length left) (length right) in
  compare_parts (padded count left) (padded count right).

(** Digits and dots from a digit on: the run and what follows. *)
Definition version_char (c : Z) : bool := is_digit c || (c =? chr ".").
Fixpoint last_version_loop (fuel : nat) (text : bytes) (best : option bytes) : outcome (option bytes) :=
  match text with
  | [] => Ret best
  | c :: text' =>
      match fuel with
      | O => OutOfFuel
      | S fuel' =>
          if negb (is_digit c) then last_version_loop fuel' text' best
          else
            let run := take_while version_char text in
            let kept := reverse (drop_while (is_char (chr ".")) (reverse run)) in
            let best := if existsb (is_char (chr ".")) run && bool_decide (kept <> []) then Some kept else best in
            last_version_loop fuel' (drop (length run) text) best
      end
  end.
Definition extract_last_dotted_version (text : bytes) : outcome (option bytes) := last_version_loop (length text) text None.

(** * Channels and staged rollout *)

Inductive update_channel : Type := stable | beta | alpha.
#[export] Instance update_channel_eq_dec : EqDecision update_channel.
Proof. solve_decision. Defined.

Definition channel_name (c : update_channel) : bytes :=
  match c with stable => str "stable" | beta => str "beta" | alpha => str "alpha" end.
Definition parse_channel (channel : bytes) : option update_channel :=
  if bool_decide (channel = str "stable") then Some stable
  else if bool_decide (channel = str "beta") then Some beta
  else if bool_decide (channel = str "alpha") then Some alpha
  else None.

Definition placeholder : bytes := str "{channel}".
Fixpoint substitute_loop (fuel : nat) (name rest : bytes) : outcome bytes :=
  match find_str placeholder rest with
  | None => Ret rest
  | Some i =>
      match fuel with
      | O => OutOfFuel
      | S fuel' => t ← substitute_loop fuel' name (zdrop (i + zlen placeholder) rest); Ret (ztake i rest ++ name ++ t)
      end
  end.
Definition substitute_channel (c : update_channel) (feed_url : bytes) : outcome bytes :=
  substitute_loop (length feed_url) (channel_name c) feed_url.

Definition fnv_step (hash ch : Z) : Z := u64 (Z.lxor hash (u8 ch) * 1099511628211).
Definition fnv1a64 (value : bytes) : Z := foldl fnv_step 1469598103934665603 value.

Definition rollout_eligible (rollout_percent : Z) (device_id : bytes) : bool :=
  if rollout_percent <=? 0 then false
  else if 100 <=? rollout_percent then true
  else fnv1a64 device_id mod 100 <? rollout_percent.

(** * Manifests *)

Record artifact : Type := MkArtifact {
  a_kind : bytes; a_url : bytes; a_sha256 : bytes; a_size : Z; a_from_version : bytes; a_target_sha256 : bytes;
  a_code_signature : bytes }.
Record update_manifest_v2 : Type := MkManifestV2 {
  m_version : bytes; m_channel : update_channel; m_rollout_percent : Z; m_platform : bytes; m_arch : bytes;
  m_artifacts : list artifact; m_signature : bytes; m_canonical_bytes : bytes }.

(** ** Squirrel *)

Definition is_space (c : Z) : bool := (c =? 32) || ((9 <=? c) && (c <=? 13)).
Definition not_space (c : Z) : bool := negb (is_space c).

(** The next token and the input after it. *)
Definition next_token (input : bytes) : bytes * bytes :=
  let t := drop_while is_space input in (take_while not_space t, drop_while not_space t).

Definition strip_cr (line : bytes) : bytes := if bool_decide (last line = Some 13) then take (length line - 1) line else line.

(** One line of the feed: nothing, an error, or an artifact and its version. *)
Definition squirrel_line (line : bytes) : outcome (string + option (artifact * bytes)) :=
  let line := trim (strip_cr line) in
  if bool_decide (line = []) || bool_decide (head line = Some (chr "#")) then Ret (inr None)
  else
    let '(sha1, r) := next_token line in
    let '(filename, r) := next_token r in
    let '(length_text, r) := next_token r in
    if bool_decide (sha1 = []) || bool_decide (filename = []) || bool_decide (length_text = []) ||
       negb (bool_decide (drop_while is_space r = []))
    then Ret (inl "squirrel feed line must have sha1 filename length"%string)
    else if negb (is_hex_sha1 sha1) then Ret (inl "squirrel feed sha1 is invalid"%string)
    else
      match parse_i64_decimal length_text with
      | None => Ret (inl "squirrel feed length is invalid"%string)
      | Some length =>
          v ← extract_last_dotted_version filename;
          Ret (match v with
               | None => inl "squirrel feed filename missing version"%string
               | Some version =>
                   inr (Some (MkArtifact (if ends_with (str "-delta.nupkg") filename then str "bsdiff" else str "full")
                                filename [] length [] [] (str "sha1=" ++ ascii_lower sha1), version))
               end)
      end.

(** [best]: the highest version of a full release so far. *)
Fixpoint squirrel_loop (lines : list bytes) (artifacts : list artifact) (best : option bytes) :
    outcome (string + update_manifest_v2) :=
  match lines with
  | [] =>
      Ret (match best with
           | None => inl "squirrel feed has no full release"%string
           | Some version => inr (MkManifestV2 version stable 100 [] [] artifacts [] [])
           end)
  | line :: lines' =>
      r ← squirrel_line line;
      match r with
      | inl error => Ret (inl error)
      | inr None => squirrel_loop lines' artifacts best
      | inr (Some (a, version)) =>
          let best :=
            if bool_decide (a_kind a = str "full") then
              match best with
              | None => Some version
              | Some b => if compare_versions b version <? 0 then Some version else best
              end
            else best in
          squirrel_loop lines' (artifacts ++ [a]) best
      end
  end.
Definition parse_squirrel_releases (text : bytes) : outcome (string + update_manifest_v2) :=
  squirrel_loop (pieces 10 text) [] None.

(** ** CBOR *)

Definition cbor_uint (v : value) : option Z :=
  match v with VUint n => Some n | VInt n => if 0 <=? n then Some n else None | _ => None end.

(** A value or an error message. *)
#[local] Instance error_bind : MBind (sum string) := fun A B f m => match m with inl e => inl e | inr a => f a end.
Definition guard_ (b : bool) (error : string) : string + unit := if b then inr tt else inl error.

(** A field that has to be text when it is there. *)
Definition text_field (m : list (bytes * value)) (key : bytes) (error : string) : string + option bytes :=
  match map_find key m with
  | None => inr None
  | Some (VText t) => inr (Some t)
  | Some _ => inl error
  end.

Definition load_text (m : list (bytes * value)) (key : string) (required : bool) : string + bytes :=
  match map_find (str key) m with
  | None => if required then inl ("manifest v2 artifact missing " ++ key)%string else inr []
  | Some (VText t) => inr t
  | Some _ => inl ("manifest v2 artifact field " ++ key ++ " must be text")%string
  end.

Definition parse_artifact (entry : value) : string + artifact :=
  match entry with
  | VMap m =>
      kind ← load_text m "kind" true;
      url ← load_text m "url" true;
      sha256 ← load_text m "sha256" true;
      from_version ← load_text m "from_version" false;
      target_sha256 ← load_text m "target_sha256" false;
      code_signature ← load_text m "code_signature" false;
      _ ← guard_ (is_hex_sha256 sha256) "manifest v2 artifact sha256 is invalid";
      size ← (match map_find (str "size") m with
              | None => inr 0
              | Some v => match cbor_uint v with
                          | Some n => if int64_max <? n then inl "manifest v2 artifact size is invalid"%string else inr n
                          | None => inl "manifest v2 artifact size is invalid"%string
                          end
              end);
      _ ← guard_ (bool_decide (kind = str "full") || bool_decide (kind = str "bsdiff")) "manifest v2 artifact kind is invalid";
      _ ← guard_ (negb (bool_decide (kind = str "bsdiff")) || negb (bool_decide (from_version = []) || negb (is_hex_sha256 target_sha256)))
            "manifest v2 bsdiff artifact fields are invalid";
      inr (MkArtifact kind url sha256 size from_version target_sha256 code_signature)
  | _ => inl "manifest v2 artifact must be a map"%string
  end.

Fixpoint parse_artifacts (entries : list value) : string + list artifact :=
  match entries with
  | [] => inr []
  | e :: entries' => a ← parse_artifact e; l ← parse_artifacts entries'; inr (a :: l)
  end.

Definition erase_key (key : bytes) (m : list (bytes * value)) : list (bytes * value) :=
  filter (fun kv => kv.1 <> key) m.

(** The signature and the map it covers. *)
Definition split_signature (root : list (bytes * value)) : string + bytes * list (bytes * value) :=
  match map_find (str "signature") root with
  | None => inr ([], root)
  | Some (VBytes sig) => inr (sig, erase_key (str "signature") root)
  | Some _ => inl "manifest v2 signature must be bytes"%string
  end.

(** Every field but the signature. *)
Definition parse_fields (root : list (bytes * value)) : string + update_manifest_v2 :=
  v ← (match map_find (str "version") root with
       | None => inr []
       | Some (VText []) => inl "manifest v2 version must be text"%string
       | Some (VText t) => inr t
       | Some _ => inl "manifest v2 version must be text"%string
       end);
  _ ← guard_ (negb (bool_decide (v = []))) "manifest v2 version is required";
  ch ← text_field root (str "channel") "manifest v2 channel must be text";
  channel ← (match ch with
             | None => inr stable
             | Some t => match parse_channel t with Some c => inr c | None => inl "manifest v2 channel is invalid"%string end
             end);
  percent ← (match map_find (str "rollout_percent") root with
             | None => inr 100
             | Some x => match cbor_uint x with
                         | Some n => if 100 <? n then inl "manifest v2 rollout_percent must be 0..100"%string else inr n
                         | None => inl "manifest v2 rollout_percent must be 0..100"%string
                         end
             end);
  platform ← text_field root (str "platform") "manifest v2 platform must be text";
  arch ← text_field root (str "arch") "manifest v2 arch must be text";
  match map_find (str "artifacts") root with
  | None => inl "manifest v2 artifacts are required"%string
  | Some (VArray entries) =>
      artifacts ← parse_artifacts entries;
      inr (MkManifestV2 v channel percent (default [] platform) (default [] arch) artifacts [] [])
  | Some _ => inl "manifest v2 artifacts must be an array"%string
  end.

Definition signed (signature canonical_bytes : bytes) (m : update_manifest_v2) : update_manifest_v2 :=
  MkManifestV2 (m_version m) (m_channel m) (m_rollout_percent m) (m_platform m) (m_arch m) (m_artifacts m) signature canonical_bytes.

Definition parse_root_v2 (root : list (bytes * value)) : string + update_manifest_v2 :=
  s ← split_signature root;
  m ← parse_fields root;
  inr (signed s.1 (encode (VMap s.2)) m).

Section Decode.
(** The limits of the decoder's vectors. *)
Context (max_items max_pairs max_keys : Z).

Definition parse_manifest_v2_cbor (data : bytes) : outcome (string + update_manifest_v2) :=
  d ← decode max_items max_pairs max_keys data;
  Ret (match d with
       | None => inl "manifest v2 CBOR decode failed"%string
       | Some (VMap root) => parse_root_v2 root
       | Some _ => inl "manifest v2 root must be a map"%string
       end).
End Decode.

(** * Quoting *)

(** Every byte but the quote is itself between single quotes. *)
Definition shell_char (c : Z) : bytes := if c =? 39 then [39; 92; 39; 39] else [c].
Definition shell_quote (path : bytes) : bytes := 39 :: concat (map shell_char path) ++ [39].

Definition powershell_char (c : Z) : bytes := if c =? 39 then [39; 39] else [c].
Definition powershell_quote (path : bytes) : bytes := 39 :: concat (map powershell_char path) ++ [39].

Definition windows_char (c : Z) : bytes := if c =? 37 then [37; 37] else [c].
Definition windows_quote (path : bytes) : bytes := 34 :: concat (map windows_char path) ++ [34].

(** The wide characters of an argument, with the backslashes pending. *)
Fixpoint quote_loop (backslashes : nat) (arg : list Z) : list Z :=
  match arg with
  | [] => replicate (backslashes * 2) 92
  | ch :: arg' =>
      if ch =? 92 then quote_loop (S backslashes) arg'
      else replicate (if ch =? 34 then (backslashes * 2 + 1)%nat else backslashes) 92 ++ ch :: quote_loop 0 arg'
  end.
Definition quote_windows_process_arg (arg : list Z) : list Z := 34 :: quote_loop 0 arg ++ [34].

Definition normalize_fingerprint (text : bytes) : bytes := map lower_char (filter (fun c => is_space c = false) text).
Definition is_hex_fingerprint (text : bytes) : bool := (zlen text =? 40) && forallb is_hex_digit text.

Definition hex_value (c : Z) : Z :=
  if (chr "0" <=? c) && (c <=? chr "9") then c - chr "0"
  else if (chr "a" <=? c) && (c <=? chr "f") then c - chr "a" + 10
  else if (chr "A" <=? c) && (c <=? chr "F") then c - chr "A" + 10
  else 0.
Fixpoint hex_bytes (hex : bytes) : bytes :=
  match hex with
  | a :: b :: hex' => u8 (Z.lor (Z.shiftl (hex_value a) 4) (hex_value b)) :: hex_bytes hex'
  | _ => []
  end.

(** ** File names *)

Definition find_last_of (set s : bytes) : option Z :=
  (fun i => zlen s - 1 - i) <$> index_of (fun x => bool_decide (x ∈ set)) (reverse s).
Definition filename_char (c : Z) : Z :=
  if (c =? chr "/") || (c =? 92) || (c =? chr ":") || (c =? 0) then chr "_" else c.
Definition filename_from_url (url : bytes) : bytes :=
  let clean := match find_first_of (str "?#") url 0 with None => url | Some q => ztake q url end in
  let name := match find_last_of [47; 92] clean with None => clean | Some slash => zdrop (slash + 1) clean end in
  map filename_char (if bool_decide (name = []) then str "update.bin" else name).

Definition hex_digit_char (n : Z) : Z := nth (Z.to_nat n) (str "0123456789abcdef") 0.
Definition to_hex (data : bytes) : bytes :=
  concat (map (fun b => [hex_digit_char (Z.shiftr b 4); hex_digit_char (Z.land b 0x0f)]) data).

(** * Versions *)

Lemma version_part_range token : forall part, 0 <= part <= uint32_max -> 0 <= version_part part token <= uint32_max.
Proof.
  induction token as [|c token IH]; intros part Hp; cbn [version_part]; [done|]. unfold uint32_max in *.
  destruct (Z.ltb_spec c (chr "0")), (Z.ltb_spec (chr "9") c); cbn [orb]; try lia.
  change (chr "0") with 48 in *. change (chr "9") with 57 in *. rewrite u64_small by lia.
  destruct (Z.ltb_spec (2 ^ 32 - 1) (part * 10 + (c - 48))); [lia|]. apply IH. lia.
Qed.

(** The [i]th part of a version, zero where it has none. *)
Definition part (v : bytes) (i : nat) : Z := nth i (parse_version_parts v) 0.

Lemma nth_padded n l i : nth i (padded n l) 0 = nth i l 0.
Proof.
  unfold padded. destruct (decide (i < length l)%nat); [by rewrite app_nth1|].
  rewrite app_nth2 by lia. rewrite (nth_overflow l) by lia. generalize (i - length l)%nat as j, (n - length l)%nat as k.
  intros j k. revert k. induction j; intros [|k]; cbn; auto.
Qed.

Lemma length_padded n l : (length l <= n)%nat -> length (padded n l) = n.
Proof. intros. unfold padded. rewrite length_app, length_replicate. lia. Qed.

(** Where two lists first differ. *)
Lemma compare_parts_spec l r : length l = length r ->
  (compare_parts l r = 0 /\ l = r) \/
  exists i, (i < length l)%nat /\ (forall j, (j < i)%nat -> nth j l 0 = nth j r 0) /\
    ((compare_parts l r = -1 /\ nth i l 0 < nth i r 0) \/ (compare_parts l r = 1 /\ nth i r 0 < nth i l 0)).
Proof.
  revert r. induction l as [|x l IH]; intros [|y r] H; try done; [by left|]. cbn [compare_parts].
  destruct (Z.ltb_spec x y); [right; exists 0%nat; cbn; split_and!; [lia|lia|by left]|].
  destruct (Z.ltb_spec y x); [right; exists 0%nat; cbn; split_and!; [lia|lia|by right]|].
  assert (x = y) as -> by lia. destruct (IH r) as [[E ->]|(i & Hi & Hj & E)]; [cbn in H; lia|by left|right].
  exists (S i). cbn [length nth]. split_and!; [lia| |done]. intros [|j] Hlt; [done|]. apply Hj. lia.
Qed.

Lemma compare_versions_first a b :
  (compare_versions a b = 0 /\ forall i, part a i = part b i) \/
  exists i, (forall j, (j < i)%nat -> part a j = part b j) /\
    ((compare_versions a b = -1 /\ part a i < part b i) \/ (compare_versions a b = 1 /\ part b i < part a i)).
Proof.
  unfold compare_versions, part. set (l := parse_version_parts a). set (r := parse_version_parts b).
  set (n := Nat.max (length l) (length r)).
  destruct (compare_parts_spec (padded n l) (padded n r)) as [[E H]|(i & _ & Hj & E)]; [by rewrite !length_padded by lia|left|right].
  - split; [done|]. intros i. by rewrite <- (nth_padded n l), <- (nth_padded n r), H.
  - exists i. rewrite !nth_padded in E. split; [|done]. intros j Hlt. specialize (Hj j Hlt). by rewrite !nth_padded in Hj.
Qed.

(** [a] is older than [b]: at the first part that differs it has the smaller one. *)
Definition older (a b : bytes) : Prop := exists i, (forall j, (j < i)%nat -> part a j = part b j) /\ part a i < part b i.

Lemma older_irrefl a b : (forall i, part a i = part b i) -> ~ older a b.
Proof. intros H (i & _ & Hi). rewrite H in Hi. lia. Qed.

Lemma older_asym a b : older a b -> ~ older b a.
Proof.
  intros (i & Hi & Hl) (j & Hj & Hl'). destruct (Nat.lt_trichotomy i j) as [H|[->|H]]; [|lia|].
  - specialize (Hj i H). lia.
  - specialize (Hi j H). lia.
Qed.

Lemma older_trans a b c : older a b -> (forall i, part b i = part c i) \/ older b c -> older a c.
Proof.
  intros (i & Hi & Hl) [H|(j & Hj & Hl')]; [exists i; split; [intros; rewrite <- H; auto|rewrite <- H; done]|].
  destruct (Nat.lt_trichotomy i j) as [H|[->|H]].
  - exists i. split; [intros k Hk; rewrite Hi by done; apply Hj; lia|]. rewrite <- Hj; done.
  - exists j. split; [intros k Hk; rewrite Hi by done; by apply Hj|lia].
  - exists j. split; [intros k Hk; rewrite Hi by lia; by apply Hj|]. rewrite Hi by done. lia.
Qed.

Lemma compare_versions_cases a b :
  (compare_versions a b = 0 /\ forall i, part a i = part b i) \/ (compare_versions a b = -1 /\ older a b) \/
  (compare_versions a b = 1 /\ older b a).
Proof.
  destruct (compare_versions_first a b) as [H|(i & Hj & [[E Hl]|[E Hl]])]; [by left|right; left|right; right]; (split; [done|]); exists i.
  - done.
  - split; [|done]. intros j Hlt. by rewrite Hj.
Qed.

Lemma compare_versions_antisym a b : compare_versions b a = - compare_versions a b.
Proof.
  destruct (compare_versions_cases a b) as [[E H]|[[E H]|[E H]]], (compare_versions_cases b a) as [[E' H']|[[E' H']|[E' H']]];
    rewrite E, E'; try done; exfalso.
  - by apply older_irrefl in H'.
  - by apply older_irrefl in H'.
  - eapply older_irrefl; [|exact H]. done.
  - by apply older_asym in H.
  - eapply older_irrefl; [|exact H]. done.
  - by apply older_asym in H.
Qed.

Lemma compare_versions_trans a b c : compare_versions a b <= 0 -> compare_versions b c <= 0 -> compare_versions a c <= 0.
Proof.
  intros H1 H2.
  assert (Hle : forall x y, compare_versions x y <= 0 <-> (forall i, part x i = part y i) \/ older x y).
  { intros x y. destruct (compare_versions_cases x y) as [[E H]|[[E H]|[E H]]]; rewrite E; split; intros K; try lia; [by left|by right|].
    destruct K as [K|K]; [by apply older_irrefl in H|by apply older_asym in H]. }
  rewrite Hle in *. destruct H1 as [H1|H1]; [|by right; eapply older_trans].
  destruct H2 as [H2|(i & Hj & Hl)]; [left; intros; by rewrite H1|right]. exists i. split; [intros; rewrite H1; auto|by rewrite H1].
Qed.

(** * Squirrel feeds *)

Lemma take_while_nonempty p c s : p c = true -> (1 <= length (take_while p (c :: s)))%nat.
Proof. intros H. cbn. rewrite H. cbn. lia. Qed.

Lemma last_version_total : forall fuel text best, (length text <= fuel)%nat -> exists r, last_version_loop fuel text best = Ret r.
Proof.
  induction fuel as [|fuel IH]; intros [|c text] best Hf; cbn [last_version_loop length] in *; try (by eexists); [lia|].
  destruct (is_digit c) eqn:Ed; cbn [negb]; [|apply IH; lia].
  assert (Hr : (1 <= length (take_while version_char (c :: text)))%nat) by (apply take_while_nonempty; unfold version_char; by rewrite Ed).
  apply IH. rewrite length_drop. cbn [length] in *. lia.
Qed.

Lemma extract_total text : exists r, extract_last_dotted_version text = Ret r.
Proof. by apply last_version_total. Qed.

Lemma i64_loop_range text : forall value n, 0 <= value -> i64_loop value text = Some n -> 0 <= n.
Proof.
  induction text as [|c text IH]; intros value n Hv; cbn [i64_loop]; [by intros [= <-]|].
  change (chr "0") with 48. change (chr "9") with 57.
  destruct (Z.ltb_spec c 48), (Z.ltb_spec 57 c); cbn [orb]; try done. destruct (_ <? value); [done|]. apply IH. lia.
Qed.

(** Decimal digits are read exactly, and refused exactly when they exceed [int64_t]. *)
Lemma i64_loop_spec ds : forall value, Forall (fun c => is_digit c = true) ds -> 0 <= value <= int64_max ->
  let n := foldl (fun a c => a * 10 + (c - chr "0")) value ds in
  i64_loop value ds = if n <=? int64_max then Some n else None.
Proof.
  induction ds as [|c ds IH]; intros value Hds Hv; cbn zeta; cbn [foldl i64_loop].
  - destruct (Z.leb_spec value int64_max); [done|lia].
  - apply Forall_cons in Hds as [Hc Hds]. unfold is_digit in Hc. change (chr "0") with 48 in *. change (chr "9") with 57 in *.
    apply andb_true_iff in Hc as [H1%Z.leb_le H2%Z.leb_le].
    destruct (Z.ltb_spec c 48), (Z.ltb_spec 57 c); cbn [orb]; try lia.
    assert (Hmono : forall ds v, Forall (fun c => is_digit c = true) ds -> 0 <= v -> v <= foldl (fun a c => a * 10 + (c - 48)) v ds).
    { clear. induction ds as [|c ds IH]; intros v Hds Hv; cbn [foldl]; [lia|]. apply Forall_cons in Hds as [Hc Hds].
      unfold is_digit in Hc. change (chr "0") with 48 in *. apply andb_true_iff in Hc as [H1%Z.leb_le _].
      specialize (IH (v * 10 + (c - 48)) Hds ltac:(lia)). lia. }
    pose proof (Hmono ds (value * 10 + (c - 48)) Hds ltac:(lia)) as Hm.
    destruct (Z.ltb_spec ((int64_max - (c - 48)) / 10) value) as [Hov|Hok].
    + destruct (Z.leb_spec (foldl (fun a c => a * 10 + (c - 48)) (value * 10 + (c - 48)) ds) int64_max); [|done].
      unfold int64_max in *. exfalso. dlia.
    + specialize (IH (value * 10 + (c - 48)) Hds). cbn zeta in IH. rewrite IH; [done|]. unfold int64_max in *. dlia.
Qed.

Definition artifact_ok (a : artifact) : Prop :=
  (a_kind a = str "full" \/ a_kind a = str "bsdiff") /\ a_url a <> [] /\ 0 <= a_size a.

Lemma squirrel_line_spec line : exists r, squirrel_line line = Ret r /\
  forall a v, r = inr (Some (a, v)) -> artifact_ok a /\ extract_last_dotted_version (a_url a) = Ret (Some v).
Proof.
  unfold squirrel_line. set (l := trim (strip_cr line)). destruct (_ || _); [by eexists|].
  destruct (next_token l) as [sha1 r1]. destruct (next_token r1) as [filename r2]. destruct (next_token r2) as [len r3].
  destruct (bool_decide (filename = [])) eqn:Ef.
  { rewrite !orb_true_r, !orb_true_l. by eexists. }
  destruct (_ || _ || _ || _); [by eexists|]. destruct (negb _); [by eexists|].
  destruct (parse_i64_decimal len) as [n|] eqn:En; [|by eexists].
  destruct (extract_total filename) as [[v|] E]; rewrite E; cbn [mbind outcome_bind]; (eexists; split; [done|]); intros a w [= <- <-].
  split; [|done]. split_and!; cbn [a_kind a_url a_size].
  - destruct (ends_with _ _); auto.
  - by apply bool_decide_eq_false in Ef.
  - unfold parse_i64_decimal in En. destruct (trim len); [done|]. by eapply i64_loop_range; [|exact En].
Qed.

(** Of the entries so far [best] is a newest full one. *)
Definition newest (artifacts : list artifact) (best : option bytes) : Prop :=
  match best with
  | None => Forall (fun a => a_kind a <> str "full") artifacts
  | Some b =>
      (exists a, a ∈ artifacts /\ a_kind a = str "full" /\ extract_last_dotted_version (a_url a) = Ret (Some b)) /\
      Forall (fun a => a_kind a = str "full" -> forall v, extract_last_dotted_version (a_url a) = Ret (Some v) -> compare_versions v b <= 0) artifacts
  end.

Lemma compare_versions_refl a : compare_versions a a = 0.
Proof. pose proof (compare_versions_antisym a a). lia. Qed.

Lemma newest_snoc artifacts best a v : newest artifacts best -> extract_last_dotted_version (a_url a) = Ret (Some v) ->
  newest (artifacts ++ [a])
    (if bool_decide (a_kind a = str "full")
     then match best with None => Some v | Some b => if compare_versions b v <? 0 then Some v else best end else best).
Proof.
  intros Hn Ha. case_bool_decide as Hk.
  - destruct best as [b|]; cbn [newest] in *.
    + destruct Hn as [(a0 & H1 & H2 & H3) Hb]. destruct (Z.ltb_spec (compare_versions b v) 0) as [Hlt|Hge]; cbn [newest].
      * split; [exists a; split_and!; [apply elem_of_app; right; by apply list_elem_of_singleton|done|done]|].
        apply Forall_app. split.
        -- eapply Forall_impl; [exact Hb|]. intros x Hx Hxk w Hw. eapply compare_versions_trans; [by apply Hx|lia].
        -- constructor; [|done]. intros _ w Hw. rewrite Ha in Hw. injection Hw as <-. by rewrite compare_versions_refl.
      * split; [exists a0; split_and!; [apply elem_of_app; by left|done|done]|]. apply Forall_app. split; [done|].
        constructor; [|done]. intros _ w Hw. rewrite Ha in Hw. injection Hw as <-. rewrite compare_versions_antisym. lia.
    + split; [exists a; split_and!; [apply elem_of_app; right; by apply list_elem_of_singleton|done|done]|].
      apply Forall_app. split; [eapply Forall_impl; [exact Hn|]; by intros x Hx Hxk|].
      constructor; [|done]. intros _ w Hw. rewrite Ha in Hw. injection Hw as <-. by rewrite compare_versions_refl.
  - destruct best as [b|]; cbn [newest] in *.
    + destruct Hn as [(a0 & H1 & H2 & H3) Hb]. split; [exists a0; split_and!; [apply elem_of_app; by left|done|done]|].
      apply Forall_app. split; [done|]. constructor; [|done]. by intros ?.
    + apply Forall_app. split; [done|]. by constructor.
Qed.

Lemma squirrel_loop_spec lines : forall artifacts best, newest artifacts best -> Forall artifact_ok artifacts ->
  exists r, squirrel_loop lines artifacts best = Ret r /\
    forall m, r = inr m -> newest (m_artifacts m) (Some (m_version m)) /\ Forall artifact_ok (m_artifacts m).
Proof.
  induction lines as [|line lines IH]; intros artifacts best Hn Hok; cbn [squirrel_loop].
  - eexists. split; [done|]. intros m. destruct best; intros [= <-]. done.
  - destruct (squirrel_line_spec line) as (r & -> & Hr). cbn [mbind outcome_bind].
    destruct r as [error|[[a v]|]]; [by eexists| |by apply IH]. destruct (Hr a v eq_refl) as [Ha Hv].
    apply IH; [by apply newest_snoc|]. apply Forall_app. split; [done|by constructor].
Qed.

(** * CBOR manifests *)

Lemma sum_bind_inv {A B} (m : string + A) (f : A -> string + B) b : (m ≫= f) = inr b -> exists a, m = inr a /\ f a = inr b.
Proof. destruct m as [e|a]; [by intros [=]|]. intros H. by exists a. Qed.

Lemma guard_inv b error u : guard_ b error = inr u -> b = true.
Proof. unfold guard_. by destruct b. Qed.

(** What the parser guarantees of an artifact and of a manifest. *)
Definition artifact_valid (a : artifact) : Prop :=
  is_hex_sha256 (a_sha256 a) = true /\ 0 <= a_size a <= int64_max /\
  (a_kind a = str "full" \/ (a_kind a = str "bsdiff" /\ a_from_version a <> [] /\ is_hex_sha256 (a_target_sha256 a) = true)).
Definition manifest_valid (m : update_manifest_v2) : Prop :=
  m_version m <> [] /\ 0 <= m_rollout_percent m <= 100 /\ Forall artifact_valid (m_artifacts m).

Ltac step_in H x Hx := apply sum_bind_inv in H as (x & Hx & H).

Section Manifest.
Context (max_items max_pairs max_keys : Z).
Local Notation wf_ := (wf max_items max_pairs max_keys).

Lemma cbor_uint_nonneg v n : wf_ v -> cbor_uint v = Some n -> 0 <= n.
Proof.
  destruct v as [| |z|z|s|b|items|m|m]; cbn [cbor_uint wf]; try done.
  - destruct (Z.leb_spec 0 z); [intros _ [= <-]; lia|done].
  - intros [] [= <-]. lia.
Qed.

Lemma parse_artifact_valid e a : wf_ e -> parse_artifact e = inr a -> artifact_valid a.
Proof.
  intros Hwf H. destruct e as [| | | | | | |m|]; try done. unfold parse_artifact in H.
  step_in H kind E1. step_in H url E2. step_in H sha E3. step_in H fromv E4. step_in H target E5. step_in H code E6.
  step_in H u1 E7. step_in H sz E8. step_in H u2 E9. step_in H u3 E10. injection H as <-.
  apply guard_inv in E7, E9, E10. unfold artifact_valid. cbn [a_kind a_sha256 a_size a_from_version a_target_sha256].
  split; [done|]. split.
  - destruct (map_find (str "size") m) as [v|] eqn:Ef; [|injection E8 as <-; unfold int64_max; lia].
    destruct (cbor_uint v) as [n|] eqn:En; [|done]. destruct (Z.ltb_spec int64_max n); [done|]. injection E8 as <-.
    apply cbor_uint_nonneg in En; [lia|]. by eapply map_find_wf.
  - destruct (bool_decide (kind = str "full")) eqn:Ek; [left; by apply bool_decide_eq_true in Ek|right].
    cbn [orb] in E9. rewrite E9 in E10. apply bool_decide_eq_true in E9. cbn [negb orb] in E10.
    apply negb_true_iff, orb_false_iff in E10 as [F1 F2]. apply bool_decide_eq_false in F1. apply negb_false_iff in F2. done.
Qed.

Lemma parse_artifacts_valid entries l : Forall wf_ entries -> parse_artifacts entries = inr l -> Forall artifact_valid l.
Proof.
  intros H. revert l. induction H as [|e entries He _ IH]; intros l E; cbn [parse_artifacts] in E; [by injection E as <-|].
  step_in E a Ea. step_in E l' El. injection E as <-. constructor; [by eapply parse_artifact_valid|by apply IH].
Qed.

Lemma parse_fields_valid root m : wf_ (VMap root) -> parse_fields root = inr m -> manifest_valid m.
Proof.
  intros Hwf H. unfold parse_fields in H.
  step_in H v E1. step_in H u E2. step_in H ch E3. step_in H c E4. step_in H p E5. step_in H pl E6. step_in H ar E7.
  apply guard_inv, negb_true_iff, bool_decide_eq_false in E2.
  destruct (map_find (str "artifacts") root) as [[| | | | | |items| |]|] eqn:Ea; try done.
  step_in H l El. injection H as <-. unfold manifest_valid. cbn [m_version m_rollout_percent m_artifacts].
  split; [done|]. split.
  - destruct (map_find (str "rollout_percent") root) as [x|] eqn:Ef; [|injection E5 as <-; lia].
    destruct (cbor_uint x) as [n|] eqn:En; [|done]. destruct (Z.ltb_spec 100 n); [done|]. injection E5 as <-.
    apply cbor_uint_nonneg in En; [lia|]. by eapply map_find_wf.
  - eapply parse_artifacts_valid; [|exact El]. apply (map_find_wf _ _ _ Hwf) in Ea. cbn [wf] in Ea.
    destruct Ea as [_ Ea]. by rewrite foldr_and_Forall in Ea.
Qed.

(** ** The fields survive encoding and decoding *)

Definition norm_map (m : list (bytes * value)) : list (bytes * value) := map (fun kv => (kv.1, norm kv.2)) m.

Lemma map_find_norm k m : map_find k (norm_map m) = norm <$> map_find k m.
Proof. induction m as [|[k' v'] m IH]; cbn; [done|]. case_bool_decide; [done|exact IH]. Qed.

Lemma cbor_uint_norm v n : cbor_uint v = Some n -> cbor_uint (norm v) = Some n.
Proof. destruct v; cbn [cbor_uint norm]; try done. destruct (0 <=? n0) eqn:E; [|done]. by intros [= <-]. Qed.

Lemma load_text_norm m key required t : load_text m key required = inr t -> load_text (norm_map m) key required = inr t.
Proof. unfold load_text. rewrite map_find_norm. destruct (map_find (str key) m) as [[]|]; cbn; done. Qed.

Lemma text_field_norm m key error t : text_field m key error = inr t -> text_field (norm_map m) key error = inr t.
Proof. unfold text_field. rewrite map_find_norm. destruct (map_find key m) as [[]|]; cbn; done. Qed.

Lemma uint_field_norm m key limit d (error : string) n :
  (match map_find key m with
   | None => inr d
   | Some x => match cbor_uint x with Some n => if limit <? n then inl error else inr n | None => inl error end
   end) = inr n ->
  (match map_find key (norm_map m) with
   | None => inr d
   | Some x => match cbor_uint x with Some n => if limit <? n then inl error else inr n | None => inl error end
   end) = (inr n : string + Z).
Proof.
  rewrite map_find_norm. destruct (map_find key m) as [x|]; cbn [fmap option_fmap option_map]; [|done].
  destruct (cbor_uint x) as [k|] eqn:E; [|done]. by rewrite (cbor_uint_norm _ _ E).
Qed.

Lemma parse_artifact_norm e a : parse_artifact e = inr a -> parse_artifact (norm e) = inr a.
Proof.
  destruct e as [| | | | | | |m|]; try done. unfold parse_artifact. cbn [norm]. change (map _ m) with (norm_map m). intros H.
  step_in H kind E1. step_in H url E2. step_in H sha E3. step_in H fromv E4. step_in H target E5. step_in H code E6.
  step_in H u1 E7. step_in H sz E8. step_in H u2 E9. step_in H u3 E10.
  rewrite (load_text_norm _ _ _ _ E1). cbn [mbind error_bind]. rewrite (load_text_norm _ _ _ _ E2). cbn [mbind error_bind].
  rewrite (load_text_norm _ _ _ _ E3). cbn [mbind error_bind]. rewrite (load_text_norm _ _ _ _ E4). cbn [mbind error_bind].
  rewrite (load_text_norm _ _ _ _ E5). cbn [mbind error_bind]. rewrite (load_text_norm _ _ _ _ E6). cbn [mbind error_bind].
  rewrite E7. cbn [mbind error_bind]. apply uint_field_norm in E8. rewrite E8. cbn [mbind error_bind]. rewrite E9. cbn [mbind error_bind].
  rewrite E10. exact H.
Qed.

Lemma parse_artifacts_norm entries : forall l, parse_artifacts entries = inr l -> parse_artifacts (map norm entries) = inr l.
Proof.
  induction entries as [|e entries IH]; intros l H; cbn [parse_artifacts map] in *; [done|].
  step_in H a Ea. step_in H l' El. rewrite (parse_artifact_norm _ _ Ea). cbn [mbind error_bind]. rewrite (IH _ El). exact H.
Qed.

Lemma parse_fields_norm root m : parse_fields root = inr m -> parse_fields (norm_map root) = inr m.
Proof.
  unfold parse_fields. intros H.
  step_in H v E1. step_in H u E2. step_in H ch E3. step_in H c E4. step_in H p E5. step_in H pl E6. step_in H ar E7.
  assert (E1' : (match map_find (str "version") (norm_map root) with
    | None => inr [] | Some (VText []) => inl "manifest v2 version must be text"%string | Some (VText t) => inr t
    | Some _ => inl "manifest v2 version must be text"%string end) = (inr v : string + bytes)).
  { rewrite map_find_norm. by destruct (map_find (str "version") root) as [[]|]. }
  rewrite E1'. cbn [mbind error_bind]. rewrite E2. cbn [mbind error_bind]. rewrite (text_field_norm _ _ _ _ E3). cbn [mbind error_bind].
  rewrite E4. cbn [mbind error_bind]. apply uint_field_norm in E5. rewrite E5. cbn [mbind error_bind].
  rewrite (text_field_norm _ _ _ _ E6). cbn [mbind error_bind]. rewrite (text_field_norm _ _ _ _ E7). cbn [mbind error_bind].
  rewrite map_find_norm. destruct (map_find (str "artifacts") root) as [[| | | | | |items| |]|]; try done.
  cbn [fmap option_fmap option_map norm]. step_in H l El. rewrite (parse_artifacts_norm _ _ El). exact H.
Qed.

Lemma map_find_erase key k m : k <> key -> map_find k (erase_key key m) = map_find k m.
Proof.
  intros Hk. unfold erase_key. induction m as [|[k' v'] m IH]; [done|]. rewrite filter_cons. cbn [fst].
  destruct (decide (k' <> key)) as [Hd|Hd]; cbn [map_find]; [by rewrite IH|].
  rewrite IH, bool_decide_eq_false_2; [done|]. intros ->. by apply Hd.
Qed.

Lemma parse_fields_erase root : parse_fields (erase_key (str "signature") root) = parse_fields root.
Proof. unfold parse_fields, text_field. by rewrite !map_find_erase by done. Qed.

Lemma Forall_filtered {A} (P Q : A -> Prop) `{!forall x, Decision (Q x)} l : Forall P l -> Forall P (filter Q l).
Proof. rewrite !Forall_forall. intros HP x [_ Hx]%list_elem_of_filter. by apply HP. Qed.

Lemma erase_key_wf key m : wf_ (VMap m) -> wf_ (VMap (erase_key key m)).
Proof.
  cbn [wf]. rewrite !foldr_and2_Forall. unfold erase_key. intros (H1 & H2 & H3 & H4).
  pose proof (length_filter (fun kv : bytes * value => kv.1 <> key) m) as HL. split_and!; [lia|lia| |by apply Forall_filtered].
  unfold map_sorted in *. clear -H3. induction H3 as [|x m Hm IH Hx]; [constructor|]. rewrite filter_cons.
  case_decide; [|done]. constructor; [done|]. by apply Forall_filtered.
Qed.

(** The signed map and what the manifest says besides the signature. *)
Lemma parse_root_signed root m : wf_ (VMap root) -> parse_root_v2 root = inr m -> exists signed_map f,
  wf_ (VMap signed_map) /\ m_canonical_bytes m = encode (VMap signed_map) /\ parse_fields signed_map = inr f /\
  m = signed (m_signature m) (m_canonical_bytes m) f.
Proof.
  intros Hwf H. unfold parse_root_v2 in H. step_in H s Es. step_in H f Ef. injection H as <-.
  unfold split_signature in Es. destruct (map_find (str "signature") root) as [[| | | | |b| | |]|]; try done; injection Es as <-;
    (eexists _, f; split_and!; [|reflexivity| |done]); cbn [snd]; [by apply erase_key_wf|by rewrite parse_fields_erase|done|done].
Qed.
End Manifest.

(** * What the shells read *)

(** One word of the POSIX shell built from single quotes and escaped characters;
    anything else outside the quotes is not part of a literal word. *)
Fixpoint sh_read (quoted : bool) (s : bytes) : option bytes :=
  match s with
  | [] => if quoted then None else Some []
  | c :: s' =>
      if quoted then if c =? 39 then sh_read false s' else cons c <$> sh_read true s'
      else if c =? 39 then sh_read true s'
      else if c =? 92 then match s' with [] => None | d :: s'' => cons d <$> sh_read false s'' end
      else None
  end.

(** A single-quoted string of PowerShell, after its first quote. *)
Fixpoint ps_read (s : bytes) : option bytes :=
  match s with
  | [] => None
  | c :: s' =>
      if c =? 39 then match s' with
                      | [] => Some []
                      | d :: s'' => if d =? 39 then cons 39 <$> ps_read s'' else None
                      end
      else cons c <$> ps_read s'
  end.

(** A quoted token of a batch file, after its first quote: [%%] is a percent sign. *)
Fixpoint batch_read (s : bytes) : option bytes :=
  match s with
  | [] => None
  | c :: s' =>
      if c =? 34 then match s' with [] => Some [] | _ => None end
      else if c =? 37 then match s' with d :: s'' => if d =? 37 then cons 37 <$> batch_read s'' else None | [] => None end
      else cons c <$> batch_read s'
  end.

(** A quoted argument as the C runtime of Windows splits it, after its first quote,
    with [n] backslashes read. *)
Fixpoint argv_read (n : nat) (s : list Z) : option (list Z) :=
  match s with
  | [] => None
  | c :: s' =>
      if c =? 92 then argv_read (S n) s'
      else if c =? 34 then
        if Nat.even n then match s' with [] => Some (replicate (n / 2) 92) | _ => None end
        else (fun r => replicate (n / 2) 92 ++ 34 :: r) <$> argv_read 0 s'
      else (fun r => replicate n 92 ++ c :: r) <$> argv_read 0 s'
  end.

Lemma sh_read_quote p : sh_read false (shell_quote p) = Some p.
Proof.
  unfold shell_quote. cbn [sh_read Z.eqb Pos.eqb].
  induction p as [|c p IH]; [done|]. cbn [map concat]. unfold shell_char at 1.
  destruct (Z.eqb_spec c 39) as [->|Hc]; cbn [app sh_read Z.eqb Pos.eqb].
  - by rewrite IH.
  - destruct (Z.eqb_spec c 39); [done|]. by rewrite IH.
Qed.

Lemma ps_read_quote p : ps_read (tail (powershell_quote p)) = Some p.
Proof.
  unfold powershell_quote. cbn [tail]. induction p as [|c p IH]; [done|]. cbn [map concat]. unfold powershell_char at 1.
  destruct (Z.eqb_spec c 39) as [->|Hc]; cbn [app ps_read Z.eqb Pos.eqb]; [by rewrite IH|].
  destruct (Z.eqb_spec c 39); [done|]. by rewrite IH.
Qed.

Lemma batch_read_quote p : 34 ∉ p -> batch_read (tail (windows_quote p)) = Some p.
Proof.
  unfold windows_quote. cbn [tail]. induction p as [|c p IH]; [done|]. intros [Hq Hp]%not_elem_of_cons. cbn [map concat].
  unfold windows_char at 1. destruct (Z.eqb_spec c 37) as [->|Hc]; cbn [app batch_read Z.eqb Pos.eqb]; [by rewrite IH|].
  destruct (Z.eqb_spec c 34); [congruence|]. destruct (Z.eqb_spec c 37); [done|]. by rewrite IH.
Qed.

Lemma argv_read_backslashes s n : forall k, argv_read k (replicate n 92 ++ s) = argv_read (k + n) s.
Proof.
  induction n as [|n IH]; intros k; cbn [replicate app]; [by rewrite Nat.add_0_r|]. cbn [argv_read Z.eqb Pos.eqb].
  rewrite IH. f_equal. lia.
Qed.

Lemma argv_read_quote arg : forall n, argv_read 0 (quote_loop n arg ++ [34]) = Some (replicate n 92 ++ arg).
Proof.
  induction arg as [|c arg IH]; intros n; cbn [quote_loop].
  - rewrite argv_read_backslashes. cbn [argv_read Z.eqb Pos.eqb Nat.add].
    rewrite (proj2 (Nat.even_spec (n * 2))) by (exists n; lia). rewrite Nat.div_mul by lia. by rewrite app_nil_r.
  - destruct (Z.eqb_spec c 92) as [->|Hb].
    + rewrite IH. change (replicate (S n) 92) with (92 :: replicate n 92).
      rewrite replicate_cons_app, <- app_assoc. done.
    + rewrite <- app_assoc, argv_read_backslashes. cbn [app argv_read Nat.add].
      destruct (Z.eqb_spec c 92); [done|]. destruct (Z.eqb_spec c 34) as [->|Hq].
      * replace (Nat.even (n * 2 + 1)) with false.
        2: { symmetry. rewrite <- Nat.negb_odd. apply negb_false_iff, Nat.odd_spec. exists n. lia. }
        rewrite IH. cbn [fmap option_fmap option_map replicate app]. do 2 f_equal.
        replace ((n * 2 + 1) / 2)%nat with n; [done|]. apply Nat.div_unique with 1%nat; lia.
      * rewrite IH. done.
Qed.

(** * Substitution *)

Lemma find_str_lt pat s i : pat <> [] -> find_str pat s = Some i -> 0 <= i /\ i + zlen pat <= zlen s.
Proof.
  intros Hp. revert i. induction s as [|c s IH]; intros i; cbn [find_str].
  - destruct (starts_with pat []) eqn:E; [|done]. apply starts_with_spec in E as [r E]. by destruct pat.
  - destruct (starts_with pat (c :: s)) eqn:E.
    + intros [= <-]. apply starts_with_spec in E as [r E]. apply (f_equal length) in E. rewrite length_app in E. lia.
    + intros (j & Hj & ->)%fmap_Some_1. apply IH in Hj. cbn [length]. lia.
Qed.

Lemma substitute_total name : forall fuel rest, (length rest <= fuel)%nat -> exists r, substitute_loop fuel name rest = Ret r.
Proof.
  induction fuel as [|fuel IH]; intros rest Hf; cbn [substitute_loop]; (destruct (find_str placeholder rest) as [i|] eqn:E; [|by eexists]);
    apply find_str_lt in E as [H1 H2]; try done; change (zlen placeholder) with 9 in *.
  - lia.
  - destruct (IH (zdrop (i + 9) rest)) as (r & ->); [unfold zdrop; rewrite length_drop; lia|]. cbn [mbind outcome_bind]. by eexists.
Qed.

(** * Properties *)

(** C19. What a manifest's signature covers.  Two manifests that [parse_manifest_v2_cbor]
    accepts and whose canonical bytes, the bytes the signature is made for, are equal
    agree in every field except the signature: version, channel, rollout, platform,
    architecture and every artifact.  No field can be changed without changing what has
    to be signed. *)
Theorem manifest_signature_binds max_items max_pairs max_keys d1 d2 m1 m2 :
  max_items < 2 ^ 64 -> max_pairs < 2 ^ 64 -> is_bytes d1 -> is_bytes d2 -> zlen d1 < 2 ^ 64 -> zlen d2 < 2 ^ 64 ->
  parse_manifest_v2_cbor max_items max_pairs max_keys d1 = Ret (inr m1) ->
  parse_manifest_v2_cbor max_items max_pairs max_keys d2 = Ret (inr m2) ->
  m_canonical_bytes m1 = m_canonical_bytes m2 -> m1 = signed (m_signature m1) (m_canonical_bytes m2) m2.
Proof.
  intros Hi Hp Hb1 Hb2 Hl1 Hl2 E1 E2 Hc.
  assert (H : forall d m, is_bytes d -> zlen d < 2 ^ 64 -> parse_manifest_v2_cbor max_items max_pairs max_keys d = Ret (inr m) ->
    exists e f, wf max_items max_pairs max_keys (VMap e) /\ m_canonical_bytes m = encode (VMap e) /\ parse_fields e = inr f /\
      m = signed (m_signature m) (m_canonical_bytes m) f).
  { intros d m Hb Hl E. unfold parse_manifest_v2_cbor in E. apply bind_inv in E as (r & Er & E). injection E as E.
    destruct r as [[| | | | | | |root|]|]; try done. eapply parse_root_signed; [|exact E]. by eapply decode_wf. }
  destruct (H d1 m1 Hb1 Hl1 E1) as (e1 & f1 & W1 & C1 & F1 & G1). destruct (H d2 m2 Hb2 Hl2 E2) as (e2 & f2 & W2 & C2 & F2 & G2).
  pose proof (decode_encode max_items max_pairs max_keys _ Hi Hp W1) as D1.
  pose proof (decode_encode max_items max_pairs max_keys _ Hi Hp W2) as D2. rewrite <- C2, <- Hc, C1, D1 in D2.
  injection D2 as D. apply parse_fields_norm in F1, F2. change (norm_map e1 = norm_map e2) in D.
  rewrite D, F2 in F1. injection F1 as <-.
  assert (G : forall s c, signed s c m2 = signed s c f2) by (intros; by rewrite G2).
  by rewrite G, <- Hc.
Qed.

Definition demo_sha : bytes := concat (replicate 32 (str "ab")).
Definition demo_manifest (signature : bytes) : bytes :=
  encode (VMap [(str "artifacts", VArray [VMap [(str "kind", VText (str "full")); (str "sha256", VText demo_sha); (str "url", VText (str "u"))]]);
                (str "signature", VBytes signature); (str "version", VText (str "1.2"))]).

Lemma manifest_signature_binds_witness : exists m1 m2,
  parse_manifest_v2_cbor 100 100 100 (demo_manifest [1]) = Ret (inr m1) /\
  parse_manifest_v2_cbor 100 100 100 (demo_manifest [2; 3]) = Ret (inr m2) /\
  m_signature m1 = [1] /\ m_signature m2 = [2; 3] /\ m1 = signed [1] (m_canonical_bytes m2) m2.
Proof.
  eexists _, _. split; [vm_compute; reflexivity|]. split; [vm_compute; reflexivity|]. split; [reflexivity|]. split; [reflexivity|].
  apply (manifest_signature_binds 100 100 100 (demo_manifest [1]) (demo_manifest [2; 3])); try (vm_compute; reflexivity).
  - apply (bool_decide_unpack _). vm_compute. exact I.
  - apply (bool_decide_unpack _). vm_compute. exact I.
Defined.

(** C20. Every manifest [parse_manifest_v2_cbor] accepts is well formed: it has a
    version, a rollout of at most 100 percent, and each of its artifacts has the SHA-256
    of its bytes in hexadecimal, a size an [int64_t] holds, and is either a full artifact
    or a binary patch that names the version it applies to and the SHA-256 of its result.
    On any bytes the parser answers with a manifest, an error, or the allocation failure
    of the decoder. *)
Theorem manifest_wellformed max_items max_pairs max_keys data : is_bytes data -> zlen data < 2 ^ 64 ->
  parse_manifest_v2_cbor max_items max_pairs max_keys data = Throw "reserve" \/
  exists r, parse_manifest_v2_cbor max_items max_pairs max_keys data = Ret r /\ forall m, r = inr m -> manifest_valid m.
Proof.
  intros Hb Hl. unfold parse_manifest_v2_cbor.
  destruct (decode_cases max_items max_pairs max_keys data Hb Hl) as [->|(r & -> & Hr)]; [by left|right].
  cbn [mbind outcome_bind]. eexists. split; [done|]. intros m E. destruct r as [[| | | | | | |root|]|]; try done.
  unfold parse_root_v2 in E. step_in E s Es. step_in E f Ef. injection E as <-.
  by apply (parse_fields_valid max_items max_pairs max_keys) in Ef; [|apply Hr].
Qed.

Lemma manifest_wellformed_witness : exists m,
  parse_manifest_v2_cbor 100 100 100 (demo_manifest [1]) = Ret (inr m) /\ manifest_valid m.
Proof.
  destruct (manifest_wellformed 100 100 100 (demo_manifest [1])) as [E|(r & E & H)];
    [apply (bool_decide_unpack _); vm_compute; exact I|vm_compute; reflexivity|by vm_compute in E|].
  destruct r as [error|m]; [by vm_compute in E|]. exists m. split; [exact E|by apply H].
Defined.

(** The version a Squirrel feed offers is the newest of its full releases.
    [compare_versions] is the order of the dotted numbers, part by part, with missing
    parts zero: antisymmetric, and transitive.  [parse_squirrel_releases] returns on every
    text, and when it accepts, the version is that of one of the full artifacts, no full
    artifact has a newer one, and every artifact has a name, a known kind and a size that
    is not negative. *)
Lemma squirrel_offers_newest :
  (forall a b, compare_versions b a = - compare_versions a b /\ (compare_versions a b < 0 <-> older a b) /\
     (compare_versions a b = 0 <-> forall i, part a i = part b i)) /\
  (forall a b c, compare_versions a b <= 0 -> compare_versions b c <= 0 -> compare_versions a c <= 0) /\
  forall text, exists r, parse_squirrel_releases text = Ret r /\
    forall m, r = inr m ->
      (exists a, a ∈ m_artifacts m /\ a_kind a = str "full" /\ extract_last_dotted_version (a_url a) = Ret (Some (m_version m))) /\
      (forall a v, a ∈ m_artifacts m -> a_kind a = str "full" -> extract_last_dotted_version (a_url a) = Ret (Some v) ->
         compare_versions v (m_version m) <= 0) /\ Forall artifact_ok (m_artifacts m).
Proof.
  split; [|split; [exact compare_versions_trans|]].
  - intros a b. split; [apply compare_versions_antisym|].
    destruct (compare_versions_cases a b) as [[E H]|[[E H]|[E H]]]; rewrite E; (split; split; intros K; try done; try lia).
    + by apply older_irrefl in H.
    + by apply older_irrefl in H.
    + by apply older_asym in H.
    + eapply older_irrefl in H; [done|]. intros i. by rewrite K.
  - intros text. destruct (squirrel_loop_spec (pieces 10 text) [] None) as (r & E & H); [by apply Forall_nil_2|by apply Forall_nil_2|].
    exists r. split; [exact E|]. intros m Hm. destruct (H m Hm) as [[H1 H2] H3]. split_and!; [done| |done].
    intros a v Ha Hk Hv. rewrite Forall_forall in H2. by eapply H2.
Qed.

Lemma squirrel_offers_newest_witness : exists m,
  parse_squirrel_releases (str "a94a8fe5ccb19ba61c4c0873d391e987982fbbd3 App-1.2.0-full.nupkg 10") = Ret (inr m) /\
  compare_versions (m_version m) (str "1.10") < 0 /\ Forall artifact_ok (m_artifacts m).
Proof.
  destruct squirrel_offers_newest as (_ & _ & H).
  destruct (H (str "a94a8fe5ccb19ba61c4c0873d391e987982fbbd3 App-1.2.0-full.nupkg 10")) as (r & E & Hr).
  destruct r as [error|m]; [by vm_compute in E|]. exists m. split; [exact E|]. split; [|by apply (Hr m eq_refl)].
  assert (Ev : m_version m = str "1.2.0") by (vm_compute in E; injection E as <-; reflexivity). rewrite Ev. reflexivity.
Defined.

(** Quoting.  The shell that finishes an update reads back exactly the path that was
    quoted: one word of the POSIX shell for [shell_quote], one PowerShell string for
    [powershell_quote], one token of a batch file for [windows_quote] (a path of Windows
    holds no double quote), and the C runtime of Windows splits off exactly the argument
    [quote_windows_process_arg] was given, quotes and backslashes included. *)
Lemma quoting_roundtrip :
  (forall p, sh_read false (shell_quote p) = Some p) /\
  (forall p, ps_read (tail (powershell_quote p)) = Some p) /\
  (forall p, 34 ∉ p -> batch_read (tail (windows_quote p)) = Some p) /\
  (forall arg, argv_read 0 (tail (quote_windows_process_arg arg)) = Some arg).
Proof.
  split_and!; [exact sh_read_quote|exact ps_read_quote|exact batch_read_quote|].
  intros arg. exact (argv_read_quote arg 0).
Qed.

Lemma quoting_roundtrip_witness : batch_read (tail (windows_quote (str "C:\50%\a b.exe"))) = Some (str "C:\50%\a b.exe").
Proof. destruct quoting_roundtrip as (_ & _ & H & _). apply H. apply (bool_decide_unpack _). vm_compute. exact I. Defined.

(** A device is in a rollout from some percentage on: never at 0, always at 100, and
    never dropped when the percentage grows. *)
Lemma rollout_monotone device_id : exists t, 0 <= t < 100 /\
  forall p, rollout_eligible p device_id = true <-> t < p.
Proof.
  pose proof (Z.mod_pos_bound (fnv1a64 device_id) 100 ltac:(lia)) as Hm. exists (fnv1a64 device_id mod 100). split; [lia|].
  intros p. unfold rollout_eligible. destruct (Z.leb_spec p 0); [split; [done|lia]|].
  destruct (Z.leb_spec 100 p); [split; [lia|done]|]. by rewrite Z.ltb_lt.
Qed.

Lemma substitute_channel_total c feed_url : exists r, substitute_channel c feed_url = Ret r.
Proof. by apply substitute_total. Qed.

(** * What modelling showed *)

(** A part with a suffix counts as zero, so a pre-release equals the release with a zero
    there and 1.2.9-beta is older than 1.2.1. *)
Lemma prerelease_part_is_zero :
  compare_versions (str "1.2.9-beta") (str "1.2.1") = -1 /\ compare_versions (str "1.2.9-beta") (str "1.2.0") = 0.
Proof. split; vm_compute; reflexivity. Qed.

(** The version is taken from the last dotted number of the file name, which may be a
    number of the extension. *)
Lemma version_from_extension : extract_last_dotted_version (str "App-1.2.3-x64.tar.7.0") = Ret (Some (str "7.0")).
Proof. vm_compute. reflexivity. Qed.

(** The last component of a URL may be the parent directory. *)
Lemma filename_parent : filename_from_url (str "https://host/a/..?x") = str "..".
Proof. vm_compute. reflexivity. Qed.
