(* ===== verification/Updater.v ===== *)
(** The updates directory ([class updater] of [src/runtime/updater.cpp]): staging a
    verified artifact, applying it at start-up, the first-launch mark, rollback and the
    history that decides which versions are kept.

    The directory is the record [updates]: the two files at its root and, for every
    version, the regular files of its directory in the order a directory iterator
    returns them; a missing directory is an empty one.  Version names and file names
    are single path components.  Creating, opening, writing, renaming and removing may
    fail, as the parameter [disk] says for each attempt; reading does not fail.  A
    stream is looked at before it is closed, and what its buffer still holds is written
    when it is: the parameter [noticed] says which failures of writing the code sees. *)

From S2P Require Import Prelude Strings BsDiff UpdateFeeds.

(** * The directory *)

Definition files : Type := list (bytes * bytes).
Record updates : Type := MkUpdates { history_txt : option bytes; flag_txt : option bytes; versions : list (bytes * files) }.

(** Without the first [k] of the files. *)
Definition remove_first (k : nat) (fs : files) : files := foldr remove_name fs (take k fs.*1).

Definition version_files (v : bytes) (u : updates) : files := default [] (lookup_name v (versions u)).
Definition set_version (v : bytes) (fs : files) (u : updates) : updates :=
  MkUpdates (history_txt u) (flag_txt u) (update_name v fs (versions u)).
Definition set_history (h : option bytes) (u : updates) : updates := MkUpdates h (flag_txt u) (versions u).
Definition set_flag (f : option bytes) (u : updates) : updates := MkUpdates (history_txt u) f (versions u).

Definition remove_version (v : bytes) (u : updates) : updates :=
  MkUpdates (history_txt u) (flag_txt u) (remove_name v (versions u)).

(** * Effects *)

(** The directory and the number of attempts made so far. *)
Record world : Type := MkWorld { upd : updates; attempts : nat }.
Definition io (A : Type) : Type := world -> (string + A) * world.

#[export] Instance io_ret : MRet io := fun A a w => (inr a, w).
#[export] Instance io_bind : MBind io := fun A B f m w =>
  match m w with (inl e, w) => (inl e, w) | (inr a, w) => f a w end.

Definition fail {A} (error : string) : io A := fun w => (inl error, w).
Definition get : io updates := fun w => (inr (upd w), w).
Definition modify (f : updates -> updates) : io unit := fun w => (inr tt, MkWorld (f (upd w)) (attempts w)).
Definition lift {A} (r : string + A) : io A := fun w => (r, w).

Section Updater.
(** The outcome of each attempt: success, or failure after some bytes. *)
Context (disk : nat -> option nat).
(** Whether a write that fails does so before its stream is looked at. *)
Context (noticed : nat -> bool).
(** The path of the directory, and which paths outside it exist. *)
Context (root : bytes) (outside : bytes -> bool).
(** libsodium: Base64 (the bytes and the input left), signatures, SHA-256; the
    verification of a code signature and the start of a platform's installer. *)
Context (sodium_base642bin : bytes -> option (bytes * bytes)) (crypto_sign_verify : bytes -> bytes -> bytes -> bool)
        (sha256 : bytes -> bytes) (platform_verify : bytes -> bytes -> bytes -> string + unit)
        (platform_swap : bytes -> string + unit) (apple : bool).

Definition attempt (error : string) : io unit := fun w =>
  let w' := MkWorld (upd w) (S (attempts w)) in
  match disk (attempts w) with None => (inr tt, w') | Some _ => (inl error, w') end.

(** Writing [data] to a file just opened and truncated, looking at the stream, and
    closing it without looking again. *)
Definition write (set : bytes -> updates -> updates) (data : bytes) (error : string) : io unit := fun w =>
  let n := attempts w in
  match disk n with
  | None => (inr tt, MkWorld (set data (upd w)) (S n))
  | Some k => (if noticed n then inl error else inr tt, MkWorld (set (take k data) (upd w)) (S n))
  end.

(** The same when the state of the stream is not looked at. *)
Definition write_unchecked (set : bytes -> updates -> updates) (data : bytes) : io unit := fun w =>
  let n := attempts w in
  (inr tt, MkWorld (set (match disk n with None => data | Some k => take k data end) (upd w)) (S n)).

(** * Paths *)

Definition join (a b : bytes) : bytes := a ++ [47] ++ b.
Definition payload_path (v n : bytes) : bytes := join (join root v) n.

(** The version and the file a path below the root names. *)
Definition inside (p : bytes) : option (bytes * bytes) :=
  if starts_with (root ++ [47]) p then
    let r := zdrop (zlen root + 1) p in
    match find_char 47 r 0 with
    | Some i => let n := zdrop (i + 1) r in
                if bool_decide (47 ∈ n) then None else Some (ztake i r, n)
    | None => None
    end
  else None.
Definition exists_path (p : bytes) (u : updates) : bool :=
  match inside p with
  | Some (v, n) => match lookup_name n (version_files v u) with Some _ => true | None => false end
  | None => outside p
  end.

Definition parent_path (p : bytes) : bytes := match rfind_char 47 p with None => [] | Some i => ztake i p end.
Definition filename (p : bytes) : bytes := match rfind_char 47 p with None => p | Some i => zdrop (i + 1) p end.
(** [path::extension]: from the last period on, unless it is the first character. *)
Definition extension (p : bytes) : bytes :=
  match rfind_char (chr ".") (filename p) with
  | Some i => if (0 <? i) && negb (bool_decide (filename p = str "..")) then zdrop i (filename p) else []
  | None => []
  end.

Inductive platform_swap_kind : Type := swap_none | mac_app | windows_msi | windows_msix | windows_exe | linux_appimage.
Definition classify_platform_swap (p : bytes) : platform_swap_kind :=
  let ext := ascii_lower (extension p) in
  if bool_decide (ext = str ".app") then mac_app
  else if bool_decide (ext = str ".msi") then windows_msi
  else if bool_decide (ext = str ".msix") then windows_msix
  else if bool_decide (ext = str ".exe") then windows_exe
  else if bool_decide (ext = str ".appimage") then linux_appimage
  else swap_none.
Definition perform_platform_swap (p : bytes) : string + unit :=
  match classify_platform_swap p with swap_none => inr tt | _ => platform_swap p end.

(** * Files of text *)

Definition first_line (content : option bytes) : bytes :=
  match content with None => [] | Some c => take_while (fun x => negb (x =? 10)) c end.

Fixpoint dedupe (seen lines : list bytes) : list bytes :=
  match lines with
  | [] => []
  | l :: lines' =>
      if bool_decide (l = []) || bool_decide (l ∈ seen) then dedupe seen lines' else l :: dedupe (l :: seen) lines'
  end.
Definition read_history_file (u : updates) : list bytes := dedupe [] (getlines 10 (default [] (history_txt u))).
Definition history_text (history : list bytes) : bytes := concat (map (fun v => v ++ [10]) history).

Definition write_history_file (history : list bytes) : io unit :=
  _ ← attempt "cannot create update history directory";
  _ ← attempt "cannot write update history";
  _ ← modify (set_history (Some []));
  write (fun data => set_history (Some data)) (history_text history) "".

(** The directories that go are removed one after the other; a failure leaves what is
    left of one directory and the ones that follow. *)
Fixpoint prune_loop (keep names : list bytes) : io unit :=
  match names with
  | [] => mret tt
  | v :: names' =>
      if bool_decide (v ∈ keep) then prune_loop keep names'
      else fun w =>
        let n := attempts w in
        match disk n with
        | None => prune_loop keep names' (MkWorld (remove_version v (upd w)) (S n))
        | Some k => (inr tt, MkWorld (set_version v (remove_first k (version_files v (upd w))) (upd w)) (S n))
        end
  end.
Definition prune_old_updates (keep : list bytes) : io unit := u ← get; prune_loop keep (versions u).*1.

Definition next_history (version : bytes) (history : list bytes) : list bytes :=
  version :: take 2 (filter (fun item => item <> version) history).

Definition record_installed_version (version : bytes) : io unit :=
  u ← get;
  let next := next_history version (read_history_file u) in
  _ ← write_history_file next;
  prune_old_updates next.

Definition dot_name (n : bytes) : bool := bool_decide (head n = Some (chr ".")).

Definition marker_payload (marker : bytes) (v : bytes) (u : updates) : option bytes :=
  let p := first_line (lookup_name marker (version_files v u)) in
  if negb (bool_decide (p = [])) && exists_path p u then Some p else None.
Definition update_payload_path (v : bytes) (u : updates) : option bytes :=
  match marker_payload (str ".pending") v u with
  | Some p => Some p
  | None =>
      match marker_payload (str ".staged") v u with
      | Some p => Some p
      | None =>
          match marker_payload (str ".rolledback") v u with
          | Some p => Some p
          | None =>
              match filter (fun f => f.1 <> [] /\ dot_name f.1 = false) (version_files v u) with
              | (n, _) :: _ => Some (payload_path v n)
              | [] => None
              end
          end
      end
  end.

Definition put_file (v n : bytes) (content : bytes) (u : updates) : updates :=
  set_version v (update_name n content (version_files v u)) u.
Definition drop_file (v n : bytes) (u : updates) : updates := set_version v (remove_name n (version_files v u)) u.
(** [rename] within a version's directory. *)
Definition move_file (v from to : bytes) (u : updates) : updates :=
  match lookup_name from (version_files v u) with
  | Some c => set_version v (update_name to c (remove_name from (version_files v u))) u
  | None => u
  end.

Definition write_marker (v marker payload : bytes) : io unit :=
  _ ← attempt "cannot write update marker";
  _ ← modify (put_file v marker []);
  write (put_file v marker) (payload ++ [10]) "".

Definition write_pending_first_launch_flag (version : bytes) : io unit :=
  _ ← attempt "cannot create updates directory for first-launch marker";
  _ ← attempt "cannot write first-launch marker";
  _ ← modify (set_flag (Some []));
  write (fun data => set_flag (Some data)) (version ++ [10]) "cannot write first-launch marker".

(** * Staging *)

Record update_descriptor : Type := MkDescriptor {
  d_version : bytes; d_url : bytes; d_sha256 : bytes; d_signature : bytes; d_signature_algorithm : bytes;
  d_canonical_manifest : bytes; d_expected_public_key : bytes; d_expected_signing_authority : bytes;
  d_expected_subject : bytes; d_artifact : bytes }.

Definition blank (c : Z) : bool := (c =? 32) || (c =? 9) || (c =? 10) || (c =? 13).
Definition base64_decode (input : bytes) : option bytes :=
  match sodium_base642bin input with
  | None => None
  | Some (out, rest) => if forallb blank rest then Some out else None
  end.

Definition ed25519_verify (sig message public_key : bytes) : bool :=
  if negb (zlen sig =? 64) || negb (zlen public_key =? 32) then false else crypto_sign_verify sig message public_key.

Definition verify_manifest_signature (signature_b64 canonical_manifest public_key_b64 : bytes) : string + unit :=
  let error := "signature verification failed"%string in
  match base64_decode signature_b64 with
  | None => inl error
  | Some sig =>
      if negb (zlen sig =? 64) then inl error
      else match base64_decode public_key_b64 with
           | None => inl error
           | Some pk =>
               if negb (zlen pk =? 32) then inl error
               else if ed25519_verify sig canonical_manifest pk then inr tt else inl error
           end
  end.

Definition sha256_hex (data : bytes) : bytes := to_hex (sha256 data).

Definition verify_platform_code_signature (content authority subject : bytes) : string + unit :=
  if bool_decide (authority = []) && bool_decide (subject = []) then inr tt else platform_verify content authority subject.

(** The checks before anything is written. *)
Definition check_descriptor (d : update_descriptor) : string + unit :=
  if bool_decide (d_version d = []) then inl "update manifest version is required"%string
  else if bool_decide (d_url d = []) then inl "update manifest url is required"%string
  else if bool_decide (d_artifact d = []) then inl "update artifact is empty"%string
  else if negb (zlen (d_sha256 d) =? 64) then inl "update manifest sha256 is invalid"%string
  else
    match (if bool_decide (d_signature d = []) then inr tt
           else if bool_decide (d_expected_public_key d = []) then inl "signed update manifest requires expectedPublicKey"%string
           else if negb (bool_decide (d_signature_algorithm d = [])) && negb (bool_decide (ascii_lower (d_signature_algorithm d) = str "ed25519"))
           then inl "unsupported update signatureAlgorithm"%string
           else verify_manifest_signature (d_signature d) (d_canonical_manifest d) (d_expected_public_key d)) with
    | inl error => inl error
    | inr _ => if negb (bool_decide (sha256_hex (d_artifact d) = ascii_lower (d_sha256 d)))
               then inl "update artifact sha256 mismatch"%string else inr tt
    end.

Definition write_all (v n data : bytes) : io unit :=
  _ ← attempt "cannot open update staging file for write";
  _ ← modify (put_file v n []);
  write (put_file v n) data "failed to write update staging file".

(** [remove] of a file that may not exist; its failure is not looked at. *)
Definition remove_file (v n : bytes) : io unit := fun w =>
  let w' := MkWorld (upd w) (S (attempts w)) in
  match disk (attempts w) with
  | None => (inr tt, MkWorld (drop_file v n (upd w)) (S (attempts w)))
  | Some _ => (inr tt, w')
  end.

Definition stage (d : update_descriptor) : io bytes :=
  _ ← lift (check_descriptor d);
  let v := d_version d in
  let n := filename_from_url (d_url d) in
  let partial := n ++ str ".partial" in
  _ ← attempt "cannot create update staging directory";
  _ ← modify (fun u => set_version v (version_files v u) u);
  _ ← remove_file v partial;
  _ ← write_all v partial (d_artifact d);
  u ← get;
  match verify_platform_code_signature (default [] (lookup_name partial (version_files v u))) (d_expected_signing_authority d) (d_expected_subject d) with
  | inl error => _ ← remove_file v partial; fail error
  | inr _ =>
      _ ← remove_file v n;
      _ ← attempt "failed to move staged update into place";
      _ ← modify (move_file v partial n);
      _ ← attempt "cannot write update staged marker";
      _ ← modify (put_file v (str ".staged") []);
      _ ← write_unchecked (put_file v (str ".staged")) (payload_path v n ++ [10]);
      mret (payload_path v n)
  end.

(** * Start-up *)

Definition swaps_here (p : bytes) : bool :=
  match classify_platform_swap p with
  | swap_none => false
  | mac_app => apple
  | _ => negb apple
  end.

(** The first directory with a marker is applied, and no other. *)
Definition staged_version (u : updates) : option bytes :=
  fst <$> head (filter (fun d => match lookup_name (str ".staged") d.2 with Some _ => true | None => false end = true) (versions u)).

Definition apply_pending : io unit :=
  u ← get;
  match staged_version u with
  | None => mret tt
  | Some v =>
      let staged_payload := first_line (lookup_name (str ".staged") (version_files v u)) in
      _ ← attempt "failed to mark staged update pending";
      _ ← modify (move_file v (str ".staged") (str ".pending"));
      _ ← record_installed_version v;
      _ ← write_pending_first_launch_flag v;
      if swaps_here staged_payload && bool_decide (parent_path staged_payload = join root v)
      then lift (perform_platform_swap staged_payload) else mret tt
  end.

Definition mark_ready : io bool := fun w =>
  match flag_txt (upd w) with
  | None => (inr false, w)
  | Some _ =>
      match disk (attempts w) with
      | None => (inr true, MkWorld (set_flag None (upd w)) (S (attempts w)))
      | Some _ => (inr false, MkWorld (upd w) (S (attempts w)))
      end
  end.

Definition has_pending_first_launch (u : updates) : bool := match flag_txt u with Some _ => true | None => false end.

(** * Rollback *)

Definition rollback_history (previous current : bytes) (rest : list bytes) : list bytes :=
  previous :: current :: take 1 (filter (fun v => v <> previous /\ v <> current) rest).

Definition rollback : io unit :=
  u ← get;
  match read_history_file u with
  | current :: previous :: rest =>
      match update_payload_path previous u with
      | None => fail "previous update payload is missing"
      | Some payload =>
          _ ← (match lookup_name (str ".pending") (version_files current u) with
               | Some _ =>
                   _ ← attempt "failed to mark current update rolled back";
                   modify (move_file current (str ".pending") (str ".rolledback"))
               | None => mret tt
               end);
          _ ← write_marker previous (str ".pending") payload;
          let next := rollback_history previous current rest in
          _ ← write_history_file next;
          prune_old_updates next
      end
  | _ => fail "no previous update version is available"
  end.

(** The version rolled back from; empty when nothing was to be done. *)
Definition auto_rollback_if_unready : io bytes :=
  u ← get;
  match flag_txt u with
  | None => mret []
  | Some flag =>
      let from := first_line (Some flag) in
      let from := if bool_decide (from = []) then default [] (head (read_history_file u)) else from in
      _ ← rollback;
      _ ← mark_ready;
      u ← get;
      mret (if bool_decide (from = []) then default [] (read_history_file u !! 1%nat) else from)
  end.

Definition history (u : updates) : list bytes := take 3 (read_history_file u).

(** * Deltas *)

(** The staged bytes of [apply_bsdiff_delta]; [None] for a file that cannot be read. *)
Definition apply_bsdiff_delta (patch current : option bytes) (expected : bytes) : outcome (string + bytes) :=
  if negb (is_hex_sha256 expected) then Ret (inl "expected bsdiff target sha256 is invalid"%string)
  else
    match patch, current with
    | Some patch_bytes, Some current_bytes =>
        r ← apply_bsdiff (2 ^ 63) current_bytes patch_bytes;
        Ret (match r with
             | inl error => inl error
             | inr staged => if bool_decide (sha256_hex staged = ascii_lower expected) then inr staged
                             else inl "bsdiff reconstructed target sha256 mismatch"%string
             end)
    | _, _ => Ret (inl "cannot open file for read"%string)
    end.
End Updater.

(** * Device identifiers *)

Definition make_uuid_v4 (rand : bytes) : bytes :=
  let b i := nth i rand 0 in
  let bytes16 := map (fun i => if (i =? 6)%nat then Z.lor (Z.land (b i) 0x0f) 0x40
                               else if (i =? 8)%nat then Z.lor (Z.land (b i) 0x3f) 0x80 else b i) (seq 0 16) in
  concat (imap (fun i x => (if (i =? 4)%nat || (i =? 6)%nat || (i =? 8)%nat || (i =? 10)%nat then [chr "-"] else []) ++ to_hex [x]) bytes16).
