(* ===== verification/UpdaterFacts.v ===== *)
(** The updates directory: what the operations of [Updater] keep, and what an update
    and a rollback do to it.

    The operations are reasoned about with triples: a condition on the directory before,
    one after success and one after an error, whichever calls of the file system fail
    and, of writes, whichever failures the code notices. *)

From S2P Require Import Prelude Strings BsDiff UpdateFeeds Updater.

(** * Files of the directory *)

Definition file (v n : bytes) (u : updates) : option bytes := lookup_name n (version_files v u).

Lemma lookup_remove_first n k fs c : lookup_name n (remove_first k fs) = Some c -> lookup_name n fs = Some c.
Proof.
  unfold remove_first. generalize (take k fs.*1). intros l. induction l as [|m l IH]; [done|]. cbn [foldr].
  rewrite lookup_remove. case_bool_decide; [done|exact IH].
Qed.

Lemma version_files_set v v' fs u :
  version_files v (set_version v' fs u) = if bool_decide (v = v') then fs else version_files v u.
Proof. unfold version_files, set_version. cbn [versions]. rewrite lookup_update. by case_bool_decide. Qed.

Lemma version_files_remove v v' u :
  version_files v (remove_version v' u) = if bool_decide (v = v') then [] else version_files v u.
Proof. unfold version_files, remove_version. cbn [versions]. rewrite lookup_remove. by case_bool_decide. Qed.

Lemma version_files_self v u v' : version_files v' (set_version v (version_files v u) u) = version_files v' u.
Proof. rewrite version_files_set. by case_bool_decide; subst. Qed.

Lemma file_put v n v' n' c u :
  file v n (put_file v' n' c u) = if bool_decide (v = v') && bool_decide (n = n') then Some c else file v n u.
Proof.
  unfold file, put_file. rewrite version_files_set. case_bool_decide; subst; cbn [andb]; [|done]. apply lookup_update.
Qed.

Lemma file_drop v n v' n' u :
  file v n (drop_file v' n' u) = if bool_decide (v = v') && bool_decide (n = n') then None else file v n u.
Proof.
  unfold file, drop_file. rewrite version_files_set. case_bool_decide; subst; cbn [andb]; [|done]. apply lookup_remove.
Qed.

Lemma file_move v n v' from to u c : file v' from u = Some c ->
  file v n (move_file v' from to u) =
    if bool_decide (v = v') then
      if bool_decide (n = to) then Some c else if bool_decide (n = from) then None else file v n u
    else file v n u.
Proof.
  unfold file, move_file. intros E. rewrite E, version_files_set. case_bool_decide; subst; [|done].
  by rewrite lookup_update, lookup_remove.
Qed.

Lemma file_move_elem v n v' from to u c : n <> to -> file v n (move_file v' from to u) = Some c -> file v n u = Some c.
Proof.
  intros Hn. destruct (file v' from u) as [c'|] eqn:E.
  - rewrite (file_move _ _ _ _ _ _ _ E). by repeat case_bool_decide.
  - unfold move_file, file in *. by rewrite E.
Qed.

Lemma move_file_texts v from to u :
  history_txt (move_file v from to u) = history_txt u /\ flag_txt (move_file v from to u) = flag_txt u.
Proof. unfold move_file. by destruct (lookup_name from (version_files v u)). Qed.

(** * Triples *)

Definition triple {A} (P : updates -> Prop) (m : io A) (Q : A -> updates -> Prop) (E : updates -> Prop) : Prop :=
  forall w, P (upd w) -> match m w with (inr a, w') => Q a (upd w') | (inl _, w') => E (upd w') end.

Section Triples.
Context (disk : nat -> option nat) (noticed : nat -> bool).
Implicit Types P E : updates -> Prop.

Lemma triple_bind {A B} P (R : A -> updates -> Prop) (Q : B -> updates -> Prop) E (m : io A) (f : A -> io B) :
  triple P m R E -> (forall a, triple (R a) (f a) Q E) -> triple P (m ≫= f) Q E.
Proof.
  intros Hm Hf w Hw. pose proof (Hm w Hw) as H. unfold mbind, io_bind. destruct (m w) as [[e|a] w']; [done|]. by apply Hf.
Qed.

Lemma triple_conseq {A} P P' (Q Q' : A -> updates -> Prop) E E' (m : io A) :
  triple P' m Q' E' -> (forall u, P u -> P' u) -> (forall a u, Q' a u -> Q a u) -> (forall u, E' u -> E u) -> triple P m Q E.
Proof. intros H HP HQ HE w Hw. specialize (H w (HP _ Hw)). destruct (m w) as [[e|a] w']; auto. Qed.

Lemma triple_ret {A} P (Q : A -> updates -> Prop) E (a : A) : (forall u, P u -> Q a u) -> triple P (mret a) Q E.
Proof. intros H w Hw. by apply H. Qed.

Lemma triple_fail {A} P (Q : A -> updates -> Prop) E e : (forall u, P u -> E u) -> triple P (fail e) Q E.
Proof. intros H w Hw. by apply H. Qed.

Lemma triple_get P E : triple P get (fun a u => P u /\ a = u) E.
Proof. intros w Hw. done. Qed.

Lemma triple_modify P (Q : updates -> Prop) E f : (forall u, P u -> Q (f u)) -> triple P (modify f) (fun _ => Q) E.
Proof. intros H w Hw. by apply H. Qed.

Lemma triple_lift {A} P E (r : string + A) : (forall u, P u -> E u) -> triple P (lift r) (fun a u => P u /\ r = inr a) E.
Proof. intros H w Hw. unfold lift. destruct r; auto. Qed.

Lemma triple_attempt P E e : (forall u, P u -> E u) -> triple P (attempt disk e) (fun _ => P) E.
Proof. intros H w Hw. unfold attempt. destruct (disk (attempts w)); cbn [upd]; auto. Qed.

Lemma triple_write P (Q : updates -> Prop) E set data e :
  (forall u, P u -> Q (set data u)) -> (forall u k, P u -> E (set (take k data) u)) ->
  (forall u k n, noticed n = false -> P u -> Q (set (take k data) u)) ->
  triple P (write disk noticed set data e) (fun _ => Q) E.
Proof.
  intros H1 H2 H3 w Hw. unfold write. destruct (disk (attempts w)); [|cbn [upd]; auto].
  destruct (noticed (attempts w)) eqn:En; cbn [upd]; eauto.
Qed.

Lemma triple_write_unchecked P (Q : updates -> Prop) E set data :
  (forall u k, P u -> Q (set (take k data) u)) -> triple P (write_unchecked disk set data) (fun _ => Q) E.
Proof.
  intros H w Hw. unfold write_unchecked. destruct (disk (attempts w)) as [k|]; cbn [upd]; [by apply H|].
  rewrite <- (firstn_all data) at 1. by apply H.
Qed.

Lemma triple_remove_file P (Q : updates -> Prop) E v n :
  (forall u, P u -> Q (drop_file v n u)) -> (forall u, P u -> Q u) -> triple P (remove_file disk v n) (fun _ => Q) E.
Proof. intros H1 H2 w Hw. unfold remove_file. destruct (disk (attempts w)); cbn [upd]; auto. Qed.

(** What pruning leaves of a directory. *)
Definition pruned (keep : list bytes) (u u' : updates) : Prop :=
  history_txt u' = history_txt u /\ flag_txt u' = flag_txt u /\
  (forall v, v ∈ keep -> version_files v u' = version_files v u) /\
  (forall v n c, file v n u' = Some c -> file v n u = Some c).

Lemma pruned_trans keep u1 u2 u3 : pruned keep u1 u2 -> pruned keep u2 u3 -> pruned keep u1 u3.
Proof.
  intros (A1 & B1 & C1 & D1) (A2 & B2 & C2 & D2). split; [congruence|]. split; [congruence|].
  split; [intros v Hv; by rewrite C2, C1|auto].
Qed.

Lemma prune_loop_pruned keep names u :
  triple (fun x => x = u) (prune_loop disk keep names) (fun _ => pruned keep u) (fun _ => False).
Proof.
  revert u. induction names as [|v names IH]; intros u w Hw; cbn [prune_loop].
  - subst u. by repeat split.
  - case_bool_decide as Hk; [by apply IH|]. destruct (disk (attempts w)) as [k|]; subst u.
    + cbn [upd]. split_and!; try done.
      * intros v' Hv'. rewrite version_files_set. case_bool_decide; [by subst|done].
      * intros v' n c. unfold file. rewrite version_files_set. case_bool_decide; [subst; apply lookup_remove_first|done].
    + set (w' := MkWorld (remove_version v (upd w)) (S (attempts w))).
      pose proof (IH (upd w') w' eq_refl) as H. destruct (prune_loop disk keep names w') as [[e|[]] w''] ; [done|].
      apply pruned_trans with (upd w'); [|done]. split_and!; try done.
      * intros v' Hv'. cbn [w' upd]. rewrite version_files_remove. case_bool_decide; [by subst|done].
      * intros v' n c. unfold file. cbn [w' upd]. rewrite version_files_remove. by case_bool_decide.
Qed.

Lemma prune_pruned keep u :
  triple (fun x => x = u) (prune_old_updates disk keep) (fun _ => pruned keep u) (fun _ => False).
Proof. intros w Hw. exact (prune_loop_pruned keep _ u w Hw). Qed.

Lemma triple_prune P (Q : updates -> Prop) E keep : (forall u u', P u -> pruned keep u u' -> Q u') ->
  triple P (prune_old_updates disk keep) (fun _ => Q) E.
Proof.
  intros H w Hw. pose proof (prune_pruned keep (upd w) w eq_refl) as Hp.
  destruct (prune_old_updates disk keep w) as [[e|[]] w']; [done|]. by eapply H.
Qed.
End Triples.

(** * The invariant of the directory *)

Section Invariant.
Context (disk : nat -> option nat) (noticed : nat -> bool) (root : bytes) (outside : bytes -> bool)
        (sodium_base642bin : bytes -> option (bytes * bytes)) (crypto_sign_verify : bytes -> bytes -> bytes -> bool)
        (sha256 : bytes -> bytes) (platform_verify : bytes -> bytes -> bytes -> string + unit)
        (platform_swap : bytes -> string + unit) (apple : bool).
(** Whether the code sees every write that fails. *)
Context (strict : bool) (Hstrict : strict = true -> forall n, noticed n = true).

(** Everything the updater checks about a descriptor and its artifact. *)
Definition verified (d : update_descriptor) : Prop :=
  check_descriptor sodium_base642bin crypto_sign_verify sha256 d = inr tt /\
  verify_platform_code_signature platform_verify (d_artifact d) (d_expected_signing_authority d) (d_expected_subject d) = inr tt.

(** The bytes [c] on the disk: the artifact of a checked descriptor or, when not every
    failed write is seen, the start of it; and the platform accepts these bytes. *)
Definition written (d : update_descriptor) (c : bytes) : Prop :=
  (exists k, c = take k (d_artifact d)) /\ (strict = true -> c = d_artifact d).
Definition accepted (d : update_descriptor) (c : bytes) : Prop :=
  check_descriptor sodium_base642bin crypto_sign_verify sha256 d = inr tt /\ written d c /\
  verify_platform_code_signature platform_verify c (d_expected_signing_authority d) (d_expected_subject d) = inr tt.

Definition trusted (v n c : bytes) : Prop :=
  exists d, accepted d c /\ d_version d = v /\ filename_from_url (d_url d) = n.

Lemma written_all d : written d (d_artifact d).
Proof. split; [|done]. exists (length (d_artifact d)). by rewrite firstn_all. Qed.

Lemma written_part d k n : noticed n = false -> written d (take k (d_artifact d)).
Proof. intros Hn. split; [by exists k|]. intros Hs. by rewrite (Hstrict Hs) in Hn. Qed.

(** Neither a marker nor an artifact still being written. *)
Definition settled (n : bytes) : Prop := dot_name n = false /\ ends_with (str ".partial") n = false.

Lemma partial_unsettled n : ~ settled (n ++ str ".partial").
Proof. intros [_ H]. rewrite (proj2 (ends_with_spec (str ".partial") _)) in H; [done|by eexists]. Qed.

Lemma marker_unsettled n : dot_name n = true -> ~ settled n.
Proof. intros H [H' _]. congruence. Qed.

Definition all_trusted (u : updates) : Prop := forall v n c, settled n -> file v n u = Some c -> trusted v n c.

Lemma all_trusted_mono u u' :
  (forall v n c, settled n -> file v n u' = Some c -> file v n u = Some c) -> all_trusted u -> all_trusted u'.
Proof. intros H Hu v n c Hn E. eapply Hu; [done|]. by apply H. Qed.

Lemma all_trusted_put u v n c : ~ settled n -> all_trusted u -> all_trusted (put_file v n c u).
Proof.
  intros Hn. apply all_trusted_mono. intros v' n' c' Hs. rewrite file_put. destruct (decide (n' = n)) as [->|]; [done|].
  by rewrite (bool_decide_eq_false_2 (n' = n)), andb_false_r by done.
Qed.

Lemma all_trusted_drop u v n : all_trusted u -> all_trusted (drop_file v n u).
Proof. apply all_trusted_mono. intros v' n' c' _. rewrite file_drop. by destruct (_ && _). Qed.

Lemma all_trusted_move u v from to : ~ settled to -> all_trusted u -> all_trusted (move_file v from to u).
Proof. intros Hn. apply all_trusted_mono. intros v' n' c' Hs. apply file_move_elem. by intros ->. Qed.

Lemma all_trusted_pruned keep u u' : pruned keep u u' -> all_trusted u -> all_trusted u'.
Proof. intros (_ & _ & _ & H). apply all_trusted_mono. auto. Qed.

Lemma all_trusted_same u u' : versions u' = versions u -> all_trusted u -> all_trusted u'.
Proof. intros H. apply all_trusted_mono. intros v n c _. unfold file, version_files. by rewrite H. Qed.

(** ** Staging *)

Section Stage.
Context (d : update_descriptor) (u0 : updates).
Let v := d_version d.
Let n := filename_from_url (d_url d).
Let partial := n ++ str ".partial".
Let marker := str ".staged".

(** Nothing changed but the files a descriptor is staged in. *)
Definition framed (u : updates) : Prop :=
  history_txt u = history_txt u0 /\ flag_txt u = flag_txt u0 /\
  (forall v' n', (v' = v -> n' <> n /\ n' <> partial) -> file v' n' u = file v' n' u0).

(** The artifact in its place is the old one, none, or a verified one. *)
Definition staging (u : updates) : Prop :=
  framed u /\ (file v n u = file v n u0 \/ file v n u = None \/ exists c, file v n u = Some c /\ accepted d c).

Lemma name_ne_partial : n <> partial.
Proof. unfold partial. intros E. apply (f_equal length) in E. rewrite length_app in E. change (length (str ".partial")) with 8%nat in E. lia. Qed.

Lemma partial_ne_marker : partial <> marker.
Proof.
  intros E. assert (H : last partial = last marker) by by rewrite E. unfold partial in H.
  rewrite last_app in H. done.
Qed.

Lemma staging_refl : staging u0.
Proof. split; [by repeat split|by left]. Qed.

(** A change of the partial file alone. *)
Lemma staging_frame u u' : history_txt u' = history_txt u -> flag_txt u' = flag_txt u ->
  (forall v' n', (v' = v -> n' <> partial) -> file v' n' u' = file v' n' u) -> staging u -> staging u'.
Proof.
  intros Hh Hf H [(A & B & C) D]. split.
  - split_and!; [congruence|congruence|]. intros v' n' Hn. rewrite H by (intros E; by destruct (Hn E)). by apply C.
  - by rewrite H by (intros _; apply name_ne_partial).
Qed.

Lemma staging_put c u : staging u -> staging (put_file v partial c u).
Proof.
  apply staging_frame; try done. intros v' n' H. rewrite file_put. do 2 case_bool_decide; try done. by destruct (H ltac:(done)).
Qed.

Lemma staging_drop_partial u : staging u -> staging (drop_file v partial u).
Proof.
  apply staging_frame; try done. intros v' n' H. rewrite file_drop. do 2 case_bool_decide; try done. by destruct (H ltac:(done)).
Qed.

Lemma staging_drop u : staging u -> staging (drop_file v n u).
Proof.
  intros [(A & B & C) D]. split.
  - split_and!; [done|done|]. intros v' n' H. rewrite file_drop, C by done. do 2 case_bool_decide; try done.
    by destruct (H ltac:(done)) as [? _].
  - right. left. rewrite file_drop. by rewrite !bool_decide_eq_true_2 by done.
Qed.

Lemma staging_move u c : accepted d c -> file v partial u = Some c -> staging u ->
  staging (move_file v partial n u) /\ file v n (move_file v partial n u) = Some c.
Proof.
  intros Hv Hp [(A & B & C) D]. destruct (move_file_texts v partial n u) as [Eh Ef].
  assert (E : file v n (move_file v partial n u) = Some c)
    by by rewrite (file_move _ _ _ _ _ _ _ Hp), !bool_decide_eq_true_2.
  split; [|exact E]. split; [|right; right; by exists c]. split_and!; [congruence|congruence|].
  intros v' n' H. rewrite (file_move _ _ _ _ _ _ _ Hp), C by done. case_bool_decide; [|done].
  destruct (H ltac:(done)). by rewrite !bool_decide_eq_false_2.
Qed.

Lemma write_all_triple : triple staging (write_all disk noticed v partial (d_artifact d))
  (fun _ u => staging u /\ exists c, file v partial u = Some c /\ written d c) staging.
Proof.
  unfold write_all. apply triple_bind with (fun _ => staging); [by apply triple_attempt|]. intros _.
  apply triple_bind with (fun _ => staging); [apply triple_modify; intros; by apply staging_put|]. intros _.
  apply triple_write; [| intros; by apply staging_put |].
  - intros u Hu. split; [by apply staging_put|]. exists (d_artifact d). split; [|apply written_all].
    by rewrite file_put, !bool_decide_eq_true_2.
  - intros u k m Hm Hu. split; [by apply staging_put|]. exists (take k (d_artifact d)).
    split; [|by eapply written_part]. by rewrite file_put, !bool_decide_eq_true_2.
Qed.

(** What [stage] leaves when it succeeds. *)
Definition staged (p : bytes) (u : updates) : Prop :=
  p = payload_path root v n /\
  exists c u1 k, accepted d c /\ staging u1 /\ file v n u1 = Some c /\
    u = put_file v marker (take k (p ++ [10])) (put_file v marker [] u1).

Lemma stage_triple : triple (fun u => u = u0)
  (stage disk noticed root sodium_base642bin crypto_sign_verify sha256 platform_verify d) staged staging.
Proof.
  unfold stage. eapply triple_bind; [apply triple_lift; intros ? ->; apply staging_refl|]. intros [].
  apply triple_bind with (fun _ u => u = u0 /\ check_descriptor sodium_base642bin crypto_sign_verify sha256 d = inr tt);
    [apply triple_attempt; intros ? [-> _]; apply staging_refl|]. intros _.
  set (I := fun u => staging u /\ check_descriptor sodium_base642bin crypto_sign_verify sha256 d = inr tt).
  apply triple_bind with (fun _ => I).
  { apply triple_modify. intros u [-> H]. split; [|exact H]. apply staging_frame with u0; try done; [|apply staging_refl].
    intros v' n' _. unfold file. by rewrite version_files_self. }
  intros _. apply triple_bind with (fun _ => I).
  { apply triple_remove_file; [|done]. intros u [H C]. split; [by apply staging_drop_partial|exact C]. }
  set (W := fun u => I u /\ exists c, file v partial u = Some c /\ written d c).
  intros _. apply triple_bind with (fun _ => W).
  { intros w [Hw C]. pose proof (write_all_triple w Hw) as H.
    destruct (write_all _ _ _ _ _ w) as [[e|[]] w']; [exact H|]. by destruct H as [H1 H2]. }
  intros _. eapply triple_bind; [apply triple_get|]. intros u1. cbv beta.
  destruct (verify_platform_code_signature _ _ _ _) as [error|[]] eqn:Ev.
  - apply triple_bind with (fun _ => staging); [|intros _; by apply triple_fail].
    apply triple_remove_file; [|by intros u [[[H _] _] _]]. intros u [[[H _] _] _]. by apply staging_drop_partial.
  - set (J := fun u => staging u /\ exists c, file v partial u = Some c /\ accepted d c).
    apply triple_bind with (fun _ => J).
    { apply triple_remove_file; intros u [[[H C] (c & P & Wr)] ->].
      all: assert (P' : lookup_name (filename_from_url (d_url d) ++ str ".partial") (version_files (d_version d) u) = Some c) by exact P.
      all: rewrite P' in Ev.
      all: split; [|exists c; split; [|by split_and!]]; try done.
      - by apply staging_drop.
      - rewrite file_drop, (bool_decide_eq_false_2 (partial = n)), andb_false_r; [done|]. intros E. by apply name_ne_partial. }
    intros _. apply triple_bind with (fun _ => J); [apply triple_attempt; by intros u [H _]|]. intros _.
    set (K := fun u => staging u /\ exists c, file v n u = Some c /\ accepted d c).
    apply triple_bind with (fun _ => K).
    { apply triple_modify. intros u (H & c & P & V). destruct (staging_move u c V P H). split; [done|]. by exists c. }
    intros _. apply triple_bind with (fun _ => K); [apply triple_attempt; by intros u [H _]|]. intros _.
    apply triple_bind with (fun _ u => exists u1, K u1 /\ u = put_file v marker [] u1); [apply triple_modify; eauto|]. intros _.
    apply triple_bind with (fun _ => staged (payload_path root v n)); [|intros _; by apply triple_ret].
    apply triple_write_unchecked. intros u k (u2 & (H & c & F & V) & ->). split; [done|]. by exists c, u2, k.
Qed.

Lemma staging_trusted u : all_trusted u0 -> staging u -> all_trusted u.
Proof.
  intros H0 [(_ & _ & C) D] v' n' c Hs E.
  destruct (decide (v' = v /\ (n' = n \/ n' = partial))) as [[-> [->| ->]]|Hn].
  - destruct D as [D|[D|(c' & D & V)]]; rewrite D in E; [by apply H0|done|]. injection E as <-. by exists d.
  - by apply partial_unsettled in Hs.
  - apply H0; [done|]. rewrite <- C; [exact E|]. intros ->. split; intros ->; apply Hn; auto.
Qed.
End Stage.

(** ** The other operations *)

Definition keeps {A} (m : io A) : Prop := triple all_trusted m (fun _ => all_trusted) all_trusted.

Lemma keeps_bind {A B} (m : io A) (f : A -> io B) : keeps m -> (forall a, keeps (f a)) -> keeps (m ≫= f).
Proof. apply triple_bind. Qed.

Lemma keeps_ret {A} (a : A) : keeps (mret a).
Proof. by apply triple_ret. Qed.

Lemma keeps_fail {A} e : keeps (A := A) (fail e).
Proof. by apply triple_fail. Qed.

Lemma keeps_get : keeps get.
Proof. by eapply triple_conseq; [apply (triple_get all_trusted)|..]; [|intros a u [H _]|]. Qed.

Lemma keeps_lift {A} (r : string + A) : keeps (lift r).
Proof. by eapply triple_conseq; [apply (triple_lift all_trusted all_trusted)|..]; [|..|intros a u [H _]|]. Qed.

Lemma keeps_attempt e : keeps (attempt disk e).
Proof. by apply triple_attempt. Qed.

Lemma keeps_modify f : (forall u, all_trusted u -> all_trusted (f u)) -> keeps (modify f).
Proof. apply triple_modify. Qed.

Lemma keeps_write set data e : (forall c u, all_trusted u -> all_trusted (set c u)) -> keeps (write disk noticed set data e).
Proof. intros H. apply triple_write; auto. Qed.

Lemma keeps_prune keep : keeps (prune_old_updates disk keep).
Proof. apply triple_prune. intros u u' H Hp. by eapply all_trusted_pruned. Qed.

Lemma keeps_marker v n c u : dot_name n = true -> all_trusted u -> all_trusted (put_file v n c u).
Proof. intros H. by apply all_trusted_put, marker_unsettled. Qed.

Lemma keeps_rename v from to u : dot_name to = true -> all_trusted u -> all_trusted (move_file v from to u).
Proof. intros H. by apply all_trusted_move, marker_unsettled. Qed.

Local Ltac keep :=
  repeat first
    [ apply keeps_prune | apply keeps_bind; [|intros ?] | apply keeps_ret | apply keeps_fail | apply keeps_get | apply keeps_lift
    | apply keeps_attempt
    | apply keeps_modify; intros; by apply keeps_rename | apply keeps_modify; intros; by apply keeps_marker
    | apply keeps_modify; intros u'; by apply all_trusted_same
    | apply keeps_write; intros; by apply keeps_marker | apply keeps_write; intros ? u'; by apply all_trusted_same
    | match goal with |- keeps (match ?x with _ => _ end) => destruct x end ].

Lemma write_history_keeps h : keeps (write_history_file disk noticed h).
Proof. unfold write_history_file. keep. Qed.

Lemma apply_pending_keeps : keeps (apply_pending disk noticed root platform_swap apple).
Proof. unfold apply_pending, record_installed_version, write_pending_first_launch_flag, write_history_file. keep. Qed.

Lemma rollback_keeps : keeps (rollback disk noticed root outside).
Proof. unfold rollback, write_marker, write_history_file. keep. Qed.

Lemma mark_ready_keeps : keeps (mark_ready disk).
Proof.
  intros w H. unfold mark_ready. destruct (flag_txt (upd w)); [|exact H]. destruct (disk (attempts w)); [exact H|].
  by eapply all_trusted_same; [|exact H].
Qed.

Lemma auto_rollback_keeps : keeps (auto_rollback_if_unready disk noticed root outside).
Proof.
  unfold auto_rollback_if_unready. apply keeps_bind; [apply keeps_get|]. intros u. destruct (flag_txt u); [|apply keeps_ret].
  apply keeps_bind; [apply rollback_keeps|]. intros _. apply keeps_bind; [apply mark_ready_keeps|]. intros _. keep.
Qed.

Lemma stage_keeps d : keeps (stage disk noticed root sodium_base642bin crypto_sign_verify sha256 platform_verify d).
Proof.
  intros w H. pose proof (stage_triple d (upd w) w eq_refl) as S.
  destruct (stage _ _ _ _ _ _ _ d w) as [[e|p] w']; [by eapply staging_trusted|].
  destruct S as (_ & _ & u1 & k & _ & S & _ & ->). do 2 (apply all_trusted_put; [by apply marker_unsettled|]).
  by eapply staging_trusted.
Qed.
End Invariant.

(** * The history file *)

Definition good_lines (h : list bytes) : Prop := NoDup h /\ Forall (fun l => l <> [] /\ 10 ∉ l) h.

Lemma getline_loop_clean d s : forall cur, d ∉ cur -> Forall (fun l => d ∉ l) (getline_loop d cur s).
Proof.
  induction s as [|c s IH]; intros cur Hc; cbn [getline_loop].
  - destruct cur; [constructor|]. by repeat constructor.
  - destruct (Z.eqb_spec c d) as [->|Hd]; [constructor; [done|]; apply IH; set_solver|].
    apply IH. rewrite elem_of_app, list_elem_of_singleton. intros [?|?]; congruence.
Qed.

Lemma dedupe_good l : forall seen, Forall (fun x => 10 ∉ x) l -> good_lines (dedupe seen l) /\ Forall (fun x => x ∉ seen) (dedupe seen l).
Proof.
  induction l as [|x l IH]; intros seen H; cbn [dedupe]; [by repeat constructor|].
  apply Forall_cons in H as [Hx H]. destruct (decide (x = [] \/ x ∈ seen)) as [Hs|Hs].
  - replace (_ || _) with true; [by apply IH|]. symmetry. rewrite orb_true_iff, !bool_decide_eq_true. done.
  - replace (_ || _) with false by (symmetry; rewrite orb_false_iff, !bool_decide_eq_false; tauto).
    destruct (IH (x :: seen) H) as [[N F] S]. rewrite Forall_forall in S. split; [split|].
    + constructor; [|done]. intros Hin. apply (S x Hin). left.
    + constructor; [tauto|done].
    + constructor; [tauto|]. apply Forall_forall. intros y Hy Hin. apply (S y Hy). by right.
Qed.

Lemma read_history_good u : good_lines (read_history_file u).
Proof. apply dedupe_good, getline_loop_clean. set_solver. Qed.

Lemma getlines_history h : Forall (fun l => l <> [] /\ 10 ∉ l) h -> getlines 10 (history_text h) = h.
Proof.
  induction 1 as [|l h [_ Hl] _ IH]; [done|]. unfold history_text in *. cbn [map concat]. rewrite <- app_assoc. cbn [app].
  by rewrite getlines_cons, IH.
Qed.

Lemma dedupe_id l : forall seen, good_lines l -> Forall (fun x => x ∉ seen) l -> dedupe seen l = l.
Proof.
  induction l as [|x l IH]; intros seen [N F] S; cbn [dedupe]; [done|].
  apply NoDup_cons in N as [Nx N]. apply Forall_cons in F as [[Fx _] F]. apply Forall_cons in S as [Sx S].
  rewrite !bool_decide_eq_false_2 by done. cbn [orb]. f_equal. apply IH; [done|].
  rewrite Forall_forall in *. intros y Hy [->|Hin]%elem_of_cons; [done|by apply (S y)].
Qed.

Lemma read_written_history h u : good_lines h -> history_txt u = Some (history_text h) -> read_history_file u = h.
Proof.
  intros G E. unfold read_history_file. rewrite E. cbn [from_option id]. rewrite getlines_history by apply G.
  apply dedupe_id; [done|]. apply Forall_forall. set_solver.
Qed.

Lemma good_sublist h h' : sublist h' h -> good_lines h -> good_lines h'.
Proof.
  intros S [N F]. split; [by eapply sublist_NoDup|]. rewrite Forall_forall in *. intros x Hx. apply F. by eapply elem_of_sublist.
Qed.

Lemma take_filter_sublist (P : bytes -> Prop) `{!forall x, Decision (P x)} k h : sublist (take k (filter P h)) h.
Proof. etransitivity; [apply sublist_take|apply sublist_filter]. Qed.

Lemma elem_of_take_filter (P : bytes -> Prop) `{!forall x, Decision (P x)} k h v : v ∈ take k (filter P h) -> P v.
Proof. intros Hv. eapply elem_of_sublist in Hv; [|apply sublist_take]. by apply list_elem_of_filter in Hv as [Hv _]. Qed.

Lemma filter_id (P : bytes -> Prop) `{!forall x, Decision (P x)} l : Forall P l -> filter P l = l.
Proof. induction 1 as [|x l Hx _ IH]; [done|]. by rewrite filter_cons_True, IH. Qed.

Lemma good_filter_others current v rest : good_lines (current :: rest) ->
  take 1 (filter (fun x => x <> current /\ x <> v) (take 1 (filter (fun x => x <> v) rest))) = take 1 (filter (fun x => x <> v) rest).
Proof.
  intros [[Nc _]%NoDup_cons _]. rewrite (filter_id _ (take 1 _)); [by rewrite take_take|].
  apply Forall_forall. intros x Hx. split; [|by apply elem_of_take_filter in Hx].
  intros ->. apply Nc. eapply elem_of_sublist; [exact Hx|apply take_filter_sublist].
Qed.

Lemma good_cons v h : v <> [] -> 10 ∉ v -> v ∉ h -> good_lines h -> good_lines (v :: h).
Proof. intros H1 H2 H3 [N F]. split; by constructor. Qed.

Lemma next_history_good v h : v <> [] -> 10 ∉ v -> good_lines h -> good_lines (next_history v h).
Proof.
  intros H1 H2 G. apply good_cons; [done|done| |by eapply good_sublist; [apply take_filter_sublist|]].
  intros H. by apply elem_of_take_filter in H.
Qed.

Lemma rollback_history_good c p rest : good_lines (c :: p :: rest) -> good_lines (rollback_history p c rest).
Proof.
  intros [[Nc [Np N]%NoDup_cons]%NoDup_cons [[c1 c2] [[p1 p2] F]%Forall_cons]%Forall_cons].
  apply good_cons; [done|done| |apply good_cons; [done|done| |]].
  - intros [->|H]%elem_of_cons; [apply Nc; left|]. apply elem_of_take_filter in H as [? ?]. congruence.
  - intros H. apply elem_of_take_filter in H as [? ?]. congruence.
  - by eapply good_sublist; [apply take_filter_sublist|].
Qed.

(** * Runs in which nothing fails *)

Definition reliable : nat -> option nat := fun _ => None.

Lemma prune_reliable keep : forall names w, exists w', prune_loop reliable keep names w = (inr tt, w') /\
  forall d, d ∈ versions (upd w') -> d ∈ versions (upd w) /\ (d.1 ∈ keep \/ d.1 ∉ names).
Proof.
  induction names as [|v names IH]; intros w; cbn [prune_loop reliable].
  - exists w. split; [done|]. intros d Hd. split; [done|]. right. apply not_elem_of_nil.
  - case_bool_decide as Hk.
    + destruct (IH w) as (w' & E & H). exists w'. split; [exact E|]. intros d Hd. destruct (H d Hd) as [H1 H2]. split; [done|].
      destruct H2 as [|H2]; [by left|]. destruct (decide (d.1 = v)) as [->|]; [by left|right]. by rewrite not_elem_of_cons.
    + destruct (IH (MkWorld (remove_version v (upd w)) (S (attempts w)))) as (w' & E & H). exists w'. split; [exact E|].
      intros d Hd. destruct (H d Hd) as [H1 H2]. apply list_elem_of_filter in H1 as [H0 H1]. split; [done|].
      destruct H2 as [|H2]; [by left|right]. by rewrite not_elem_of_cons.
Qed.

Lemma prune_old_reliable keep w : exists w', prune_old_updates reliable keep w = (inr tt, w') /\
  pruned keep (upd w) (upd w') /\ forall d, d ∈ versions (upd w') -> d.1 ∈ keep.
Proof.
  destruct (prune_reliable keep (versions (upd w)).*1 w) as (w' & E & H). exists w'. split; [exact E|]. split.
  - pose proof (prune_pruned reliable keep (upd w) w eq_refl) as P. unfold prune_old_updates, mbind, io_bind, get in P.
    by rewrite E in P.
  - intros d Hd. destruct (H d Hd) as [H1 [|H2]]; [done|]. destruct H2. by apply list_elem_of_fmap_2.
Qed.

Lemma bind_inr {A B} (m : io A) (f : A -> io B) w a w' : m w = (inr a, w') -> (m ≫= f) w = f a w'.
Proof. intros E. unfold mbind, io_bind. by rewrite E. Qed.

(** A new history and only the directories it names, their files unchanged. *)
Definition committed (next : list bytes) (u u' : updates) : Prop :=
  read_history_file u' = next /\ flag_txt u' = flag_txt u /\
  (forall v, v ∈ next -> version_files v u' = version_files v u) /\ (forall d, d ∈ versions u' -> d.1 ∈ next).

Lemma commit_reliable noticed next w : good_lines next -> exists w',
  (_ ← write_history_file reliable noticed next; prune_old_updates reliable next) w = (inr tt, w') /\ committed next (upd w) (upd w').
Proof.
  intros G. set (w1 := MkWorld (set_history (Some (history_text next)) (upd w)) (S (S (S (attempts w))))).
  destruct (prune_old_reliable next w1) as (w' & E & (Hh & Hf & Hv & _) & Hd). exists w'. split.
  { rewrite (bind_inr _ _ _ tt w1) by done. exact E. }
  split_and!; [by apply read_written_history|by rewrite Hf| |done]. intros v Hin. by rewrite Hv.
Qed.

Lemma record_reliable noticed v w : v <> [] -> 10 ∉ v -> exists w',
  record_installed_version reliable noticed v w = (inr tt, w') /\ committed (next_history v (read_history_file (upd w))) (upd w) (upd w').
Proof. intros H1 H2. apply commit_reliable, next_history_good; [done|done|apply read_history_good]. Qed.

(** [apply_pending]: the installer may fail, the directory is the same. *)
Lemma apply_pending_reliable noticed root swap apple w v : v <> [] -> 10 ∉ v -> staged_version (upd w) = Some v ->
  let next := next_history v (read_history_file (upd w)) in
  exists r w', apply_pending reliable noticed root swap apple w = (r, w') /\
    exists u1, committed next (move_file v (str ".staged") (str ".pending") (upd w)) u1 /\ upd w' = set_flag (Some (v ++ [10])) u1.
Proof.
  intros H1 H2 Hs next. unfold apply_pending. rewrite (bind_inr get _ w (upd w) w), Hs by done.
  set (w1 := MkWorld (move_file v (str ".staged") (str ".pending") (upd w)) (S (attempts w))).
  destruct (record_reliable noticed v w1 H1 H2) as (w2 & E & C).
  assert (Hn : read_history_file (upd w1) = read_history_file (upd w)).
  { unfold read_history_file, w1. cbn [upd]. by rewrite (proj1 (move_file_texts _ _ _ _)). }
  rewrite Hn in C. rewrite (bind_inr _ _ _ tt (MkWorld (upd w) (S (attempts w)))) by done. rewrite (bind_inr _ _ _ tt w1) by done.
  rewrite (bind_inr _ _ _ tt w2) by done.
  set (w3 := MkWorld (set_flag (Some (v ++ [10])) (upd w2)) (S (S (S (attempts w2))))).
  rewrite (bind_inr _ _ _ tt w3) by done.
  destruct (_ && _); [|by exists (inr tt), w3; split; [done|]; exists (upd w2)].
  eexists _, w3. split; [by unfold lift|]. by exists (upd w2).
Qed.

Definition parked (current : bytes) (u : updates) : updates :=
  match file current (str ".pending") u with
  | Some _ => move_file current (str ".pending") (str ".rolledback") u
  | None => u
  end.

Lemma rollback_reliable noticed root outside w current previous rest payload :
  read_history_file (upd w) = current :: previous :: rest -> update_payload_path root outside previous (upd w) = Some payload ->
  exists w', rollback reliable noticed root outside w = (inr tt, w') /\
    committed (rollback_history previous current rest)
      (put_file previous (str ".pending") (payload ++ [10]) (parked current (upd w))) (upd w').
Proof.
  intros Hh Hp. pose proof (read_history_good (upd w)) as G. rewrite Hh in G. apply rollback_history_good in G.
  unfold rollback. rewrite (bind_inr get _ w (upd w) w) by done. rewrite Hh, Hp. cbv zeta.
  assert (E1 : exists k, (match lookup_name (str ".pending") (version_files current (upd w)) with
      | Some _ => _ ← attempt reliable "failed to mark current update rolled back"; modify (move_file current (str ".pending") (str ".rolledback"))
      | None => mret tt end) w = (inr tt, MkWorld (parked current (upd w)) k)).
  { unfold parked, file. destruct (lookup_name _ _); [by eexists|]. exists (attempts w). by destruct w. }
  destruct E1 as [k E1]. rewrite (bind_inr _ _ _ _ _ E1).
  set (u1 := parked current (upd w)) in *.
  set (w2 := MkWorld (put_file previous (str ".pending") (payload ++ [10]) (put_file previous (str ".pending") [] u1)) (S (S k))).
  rewrite (bind_inr _ _ _ tt w2) by done.
  destruct (commit_reliable noticed (rollback_history previous current rest) w2 G) as (w' & E & C1 & C2 & C3 & C4). exists w'. split; [exact E|].
  split_and!; [done|exact C2| |exact C4]. intros v Hv. rewrite C3 by done. cbn [w2 upd]. unfold put_file.
  rewrite !version_files_set. case_bool_decide; [|done]. rewrite bool_decide_eq_true_2 by done. apply update_name_twice.
Qed.

(** ** Staging when nothing fails *)

Lemma put_set v n c fs u : put_file v n c (set_version v fs u) = set_version v (update_name n c fs) u.
Proof. unfold put_file. rewrite version_files_set, bool_decide_eq_true_2 by done. unfold set_version. cbn. by rewrite update_name_twice. Qed.

Lemma drop_set v n fs u : drop_file v n (set_version v fs u) = set_version v (remove_name n fs) u.
Proof. unfold drop_file. rewrite version_files_set, bool_decide_eq_true_2 by done. unfold set_version. cbn. by rewrite update_name_twice. Qed.

Lemma move_set v from to fs u c : lookup_name from fs = Some c ->
  move_file v from to (set_version v fs u) = set_version v (update_name to c (remove_name from fs)) u.
Proof.
  intros E. unfold move_file. rewrite version_files_set, bool_decide_eq_true_2, E by done. unfold set_version. cbn.
  by rewrite update_name_twice.
Qed.

Lemma staged_version_set v fs c u : staged_version u = None -> lookup_name (str ".staged") fs = Some c ->
  staged_version (set_version v fs u) = Some v.
Proof.
  unfold staged_version, set_version. cbn [versions]. intros Hu Hf. induction (versions u) as [|[v' fs'] l IH].
  - cbn [update_name]. rewrite filter_cons_True by (cbn [snd]; by rewrite Hf). done.
  - cbn [update_name]. case_bool_decide as Hv.
    + rewrite filter_cons_True by (cbn [snd]; by rewrite Hf). done.
    + rewrite filter_cons in Hu. case_decide as Hd; [done|]. rewrite filter_cons_False by done. by apply IH.
Qed.

Section StageReliable.
Context (root : bytes) (sodium_base642bin : bytes -> option (bytes * bytes)) (crypto_sign_verify : bytes -> bytes -> bytes -> bool)
        (sha256 : bytes -> bytes) (platform_verify : bytes -> bytes -> bytes -> string + unit).

Lemma stage_reliable noticed d w : verified sodium_base642bin crypto_sign_verify sha256 platform_verify d ->
  let v := d_version d in let n := filename_from_url (d_url d) in
  dot_name n = false ->
  exists w' fs, stage reliable noticed root sodium_base642bin crypto_sign_verify sha256 platform_verify d w = (inr (payload_path root v n), w') /\
    upd w' = set_version v fs (upd w) /\ lookup_name n fs = Some (d_artifact d) /\
    lookup_name (str ".staged") fs = Some (payload_path root v n ++ [10]).
Proof.
  intros [Hc Hp] v n Hn. unfold stage. rewrite Hc. fold v n. set (partial := n ++ str ".partial").
  set (p := payload_path root v n). set (fs0 := version_files v (upd w)).
  set (fs1 := update_name partial (d_artifact d) (update_name partial [] (remove_name partial fs0))).
  set (fs := update_name (str ".staged") (p ++ [10]) (update_name (str ".staged") []
    (update_name n (d_artifact d) (remove_name partial (remove_name n fs1))))).
  unfold lift at 1. rewrite (bind_inr _ _ w tt w) by done. eexists _, fs. split; [|split; [|split]].
  - cbv [mbind io_bind attempt modify remove_file write_all write get reliable lift]. cbn [upd attempts].
    match goal with |- context [lookup_name partial (version_files v ?u)] =>
      assert (P : file v partial u = Some (d_artifact d)) by by rewrite file_put, !bool_decide_eq_true_2 end.
    unfold file in P. rewrite P. cbn [from_option id]. rewrite Hp. reflexivity.
  - cbn [upd]. fold partial p. rewrite drop_set, !put_set, drop_set, move_set with (c := d_artifact d), !put_set; [done|].
    rewrite lookup_remove, bool_decide_eq_false_2 by (intros E; apply (f_equal length) in E; unfold partial in E; rewrite length_app in E; cbn in E; lia).
    by rewrite lookup_update, bool_decide_eq_true_2.
  - unfold fs. rewrite !lookup_update. rewrite bool_decide_eq_false_2 by (by intros ->). by rewrite bool_decide_eq_true_2.
  - unfold fs. by rewrite lookup_update, bool_decide_eq_true_2.
Qed.
End StageReliable.

(** ** The payload a marker names *)

Lemma inside_payload root v n : 47 ∉ v -> 47 ∉ n -> inside root (payload_path root v n) = Some (v, n).
Proof.
  intros Hv Hn. unfold inside, payload_path, join.
  replace ((root ++ [47] ++ v) ++ [47] ++ n) with ((root ++ [47]) ++ v ++ 47 :: n) by (by rewrite <- !app_assoc).
  rewrite (proj2 (starts_with_spec _ _)) by by eexists.
  rewrite zdrop_app_length by (rewrite length_app; cbn [length]; lia). rewrite find_char_app_r by done.
  replace (v ++ 47 :: n) with ((v ++ [47]) ++ n) by by rewrite <- app_assoc.
  rewrite zdrop_app_length by (rewrite length_app; cbn [length]; lia). rewrite bool_decide_eq_false_2 by done.
  rewrite <- app_assoc, ztake_app_length by done. done.
Qed.

Lemma payload_path_first_line root v n : 10 ∉ root -> 10 ∉ v -> 10 ∉ n ->
  first_line (Some (payload_path root v n ++ [10])) = payload_path root v n.
Proof.
  intros Hr Hv Hn. unfold first_line. apply (take_while_all _ _ [10]); [|done]. apply Forall_forall. intros x Hx.
  destruct (Z.eqb_spec x 10) as [->|]; [|done]. unfold payload_path, join in Hx. rewrite !elem_of_app, !list_elem_of_singleton in Hx.
  by destruct Hx as [[?|[?|?]]|[?|?]].
Qed.

(** A version as [apply_pending] leaves it: its mark names an artifact that is there. *)
Definition pending_with (root v n c : bytes) (u : updates) : Prop :=
  file v (str ".pending") u = Some (payload_path root v n ++ [10]) /\ file v n u = Some c.

Lemma pending_payload root outside v n c u : 10 ∉ root -> 10 ∉ v -> 10 ∉ n -> 47 ∉ v -> 47 ∉ n ->
  pending_with root v n c u -> update_payload_path root outside v u = Some (payload_path root v n).
Proof.
  intros H1 H2 H3 H4 H5 [Hm Hf]. unfold update_payload_path, marker_payload. unfold file in Hm, Hf. rewrite Hm.
  rewrite payload_path_first_line, bool_decide_eq_false_2 by (try done; unfold payload_path, join; by destruct root).
  unfold exists_path. by rewrite inside_payload, Hf.
Qed.

Lemma version_files_move v v' from to u : v <> v' -> version_files v (move_file v' from to u) = version_files v u.
Proof. intros H. unfold move_file. destruct (lookup_name _ _); [|done]. rewrite version_files_set. by rewrite bool_decide_eq_false_2. Qed.

Lemma file_ext v u u' : version_files v u' = version_files v u -> forall n, file v n u' = file v n u.
Proof. intros H n. unfold file. by rewrite H. Qed.

(** ** An update and the launch that follows it *)

(** After [apply_pending] of a version just staged beside [current]. *)
Lemma apply_staged noticed root platform_swap apple w v p current rest n c :
  v <> [] -> 10 ∉ v -> v <> current -> read_history_file (upd w) = current :: rest -> pending_with root current n c (upd w) ->
  staged_version (upd w) = Some v -> file v (str ".staged") (upd w) = Some p ->
  exists r w', apply_pending reliable noticed root platform_swap apple w = (r, w') /\
    read_history_file (upd w') = v :: current :: take 1 (filter (fun x => x <> v) rest) /\
    flag_txt (upd w') = Some (v ++ [10]) /\ file v (str ".pending") (upd w') = Some p /\ pending_with root current n c (upd w').
Proof.
  intros Hv Hl Hne Hh [P1 P2] Hs Hf.
  destruct (apply_pending_reliable noticed root platform_swap apple w v Hv Hl Hs) as (r & w' & E & u1 & (C1 & C2 & C3 & C4) & Eu).
  exists r, w'. rewrite Eu. rewrite Hh in *. assert (Hn : next_history v (current :: rest) = v :: current :: take 1 (filter (fun x => x <> v) rest))
    by (unfold next_history; by rewrite filter_cons_True by congruence).
  rewrite Hn in *. split; [exact E|]. split; [exact C1|]. split; [done|].
  assert (K : forall m, file current m u1 = file current m (upd w)).
  { apply file_ext. rewrite C3 by set_solver. by apply version_files_move. }
  split; [|split; cbn; [by rewrite <- P1; apply K|by rewrite <- P2; apply K]].
  change (file v (str ".pending") u1 = Some p). rewrite (file_ext v _ _ (C3 v ltac:(left))), (file_move _ _ _ _ _ _ _ Hf).
  by rewrite !bool_decide_eq_true_2.
Qed.

(** The launch did not finish: back to [current]. *)
Lemma launch_failed noticed root outside w v p current rest n c :
  10 ∉ root -> 10 ∉ n -> 47 ∉ current -> 47 ∉ n -> v <> [] -> 10 ∉ v -> v <> current ->
  read_history_file (upd w) = v :: current :: rest -> pending_with root current n c (upd w) ->
  flag_txt (upd w) = Some (v ++ [10]) -> file v (str ".pending") (upd w) = Some p ->
  exists w', auto_rollback_if_unready reliable noticed root outside w = (inr v, w') /\
    read_history_file (upd w') = current :: v :: take 1 (filter (fun x => x <> current /\ x <> v) rest) /\
    has_pending_first_launch (upd w') = false /\ pending_with root current n c (upd w') /\
    file v (str ".pending") (upd w') = None /\ file v (str ".rolledback") (upd w') = Some p /\
    forall d, d ∈ versions (upd w') -> d.1 ∈ read_history_file (upd w').
Proof.
  intros Hr Hn Hc Hn' Hv Hl Hne Hh Hp Hfl Hm.
  assert (Hcl : 10 ∉ current).
  { pose proof (read_history_good (upd w)) as [_ G]. rewrite Hh in G. by apply Forall_cons in G as [_ [[_ G] _]%Forall_cons]. }
  destruct (rollback_reliable noticed root outside w v current rest (payload_path root current n) Hh) as (w1 & E & C1 & C2 & C3 & C4);
    [by eapply pending_payload|].
  assert (Hflag : flag_txt (upd w1) = Some (v ++ [10])).
  { rewrite C2. unfold parked. rewrite Hm. cbn [put_file set_version flag_txt]. by rewrite (proj2 (move_file_texts _ _ _ _)). }
  exists (MkWorld (set_flag None (upd w1)) (S (attempts w1))). split; [|split; [exact C1|split; [done|]]].
  { unfold auto_rollback_if_unready. rewrite (bind_inr get _ w (upd w) w), Hfl by done.
    rewrite (bind_inr _ _ _ _ _ E). rewrite (bind_inr _ _ _ true (MkWorld (set_flag None (upd w1)) (S (attempts w1)))).
    2: { unfold mark_ready. by rewrite Hflag. }
    assert (Ef : first_line (Some (v ++ [10])) = v).
    { unfold first_line. apply (take_while_all _ _ [10]); [|done]. apply Forall_forall. intros x Hx.
      destruct (Z.eqb_spec x 10) as [->|]; done. }
    rewrite Ef, !(bool_decide_eq_false_2 (v = [])) by done. done. }
  cbn [upd]. unfold parked in C3. rewrite Hm in C3.
  assert (K1 : forall m, file current m (upd w1) = if bool_decide (m = str ".pending") then Some (payload_path root current n ++ [10]) else file current m (upd w)).
  { intros m. rewrite (file_ext current _ _ (C3 current ltac:(left))), file_put, (file_move _ _ _ _ _ _ _ Hm).
    rewrite (bool_decide_eq_true_2 (current = current)), (bool_decide_eq_false_2 (current = v)) by congruence. done. }
  assert (K2 : forall m, file v m (upd w1) = if bool_decide (m = str ".rolledback") then Some p else if bool_decide (m = str ".pending") then None else file v m (upd w)).
  { intros m. rewrite (file_ext v _ _ (C3 v ltac:(right; left))), file_put, (file_move _ _ _ _ _ _ _ Hm).
    rewrite (bool_decide_eq_true_2 (v = v)), (bool_decide_eq_false_2 (v = current)) by congruence. done. }
  split; [split|split_and!; [exact (K2 (str ".pending"))|exact (K2 (str ".rolledback"))|]].
  - exact (K1 (str ".pending")).
  - etransitivity; [exact (K1 n)|]. case_bool_decide as Hn0; [|apply Hp]. subst n. destruct Hp as [P1 P2]. congruence.
  - intros d Hd. change (d.1 ∈ read_history_file (upd w1)). rewrite C1. by apply C4.
Qed.
(** * What a descriptor has to satisfy *)

Section Descriptor.
Context (sodium_base642bin : bytes -> option (bytes * bytes)) (crypto_sign_verify : bytes -> bytes -> bytes -> bool)
        (sha256 : bytes -> bytes).

(** The signature and the key are Base64 of 64 and 32 bytes, and the signature is the
    key's for [message]. *)
Definition signed_by (signature key message : bytes) : Prop :=
  exists sig pk, base64_decode sodium_base642bin signature = Some sig /\ base64_decode sodium_base642bin key = Some pk /\
    zlen sig = 64 /\ zlen pk = 32 /\ crypto_sign_verify sig message pk = true.

Lemma verify_manifest_signature_spec signature message key :
  verify_manifest_signature sodium_base642bin crypto_sign_verify signature message key = inr tt -> signed_by signature key message.
Proof.
  unfold verify_manifest_signature, signed_by, ed25519_verify. destruct (base64_decode _ signature) as [sig|]; [|done].
  destruct (Z.eqb_spec (zlen sig) 64); [|done]. destruct (base64_decode _ key) as [pk|]; [|done].
  destruct (Z.eqb_spec (zlen pk) 32); [|done]. cbn [negb orb]. destruct (crypto_sign_verify sig message pk) eqn:E; [|done].
  intros _. by exists sig, pk.
Qed.

Lemma check_descriptor_spec d : check_descriptor sodium_base642bin crypto_sign_verify sha256 d = inr tt ->
  d_version d <> [] /\ to_hex (sha256 (d_artifact d)) = ascii_lower (d_sha256 d) /\
  (d_signature d <> [] -> signed_by (d_signature d) (d_expected_public_key d) (d_canonical_manifest d)).
Proof.
  unfold check_descriptor. case_bool_decide; [done|]. case_bool_decide; [done|]. case_bool_decide; [done|].
  destruct (negb _); [done|].
  destruct (bool_decide_reflect (d_signature d = [])) as [Es|Es].
  - unfold sha256_hex. case_bool_decide; [|done]. done.
  - case_bool_decide; [done|]. destruct (_ && _); [done|].
    destruct (verify_manifest_signature _ _ _ _ _) as [|[]] eqn:E; [done|]. unfold sha256_hex. case_bool_decide; [|done].
    intros _. split_and!; [done|done|]. intros _. by apply verify_manifest_signature_spec in E.
Qed.
End Descriptor.

(** * Runs *)

Section Runs.
Context (root : bytes) (outside : bytes -> bool)
        (sodium_base642bin : bytes -> option (bytes * bytes)) (crypto_sign_verify : bytes -> bytes -> bytes -> bool)
        (sha256 : bytes -> bytes) (platform_verify : bytes -> bytes -> bytes -> string + unit)
        (platform_swap : bytes -> string + unit) (apple : bool).

Inductive operation : Type :=
| op_stage (d : update_descriptor)
| op_apply_pending
| op_mark_ready
| op_rollback
| op_auto_rollback.

Definition operate (disk : nat -> option nat) (noticed : nat -> bool) (o : operation) (u : updates) : updates :=
  let w := MkWorld u 0 in
  upd (match o with
       | op_stage d => (stage disk noticed root sodium_base642bin crypto_sign_verify sha256 platform_verify d w).2
       | op_apply_pending => (apply_pending disk noticed root platform_swap apple w).2
       | op_mark_ready => (mark_ready disk w).2
       | op_rollback => (rollback disk noticed root outside w).2
       | op_auto_rollback => (auto_rollback_if_unready disk noticed root outside w).2
       end).

(** The directories operations lead to from the empty one, each attempt of each of them
    failing or not; when [strict], every write that fails is seen. *)
Inductive reachable (strict : bool) : updates -> Prop :=
| reach_empty : reachable strict (MkUpdates None None [])
| reach_op disk noticed o u : (strict = true -> forall n, noticed n = true) ->
    reachable strict u -> reachable strict (operate disk noticed o u).

Lemma keeps_run strict {A} (m : io A) u :
  keeps sodium_base642bin crypto_sign_verify sha256 platform_verify strict m ->
  all_trusted sodium_base642bin crypto_sign_verify sha256 platform_verify strict u ->
  all_trusted sodium_base642bin crypto_sign_verify sha256 platform_verify strict (upd (m (MkWorld u 0)).2).
Proof. intros K H. specialize (K (MkWorld u 0) H). by destruct (m (MkWorld u 0)) as [[e|a] w']. Qed.

Lemma operate_trusted strict disk noticed o u : (strict = true -> forall n, noticed n = true) ->
  all_trusted sodium_base642bin crypto_sign_verify sha256 platform_verify strict u ->
  all_trusted sodium_base642bin crypto_sign_verify sha256 platform_verify strict (operate disk noticed o u).
Proof.
  intros Hs. destruct o; cbn [operate]; apply keeps_run;
    [by apply stage_keeps|apply apply_pending_keeps|apply mark_ready_keeps|apply rollback_keeps|apply auto_rollback_keeps].
Qed.

Lemma reachable_trusted strict u : reachable strict u ->
  all_trusted sodium_base642bin crypto_sign_verify sha256 platform_verify strict u.
Proof. induction 1 as [|disk noticed o u Hs _ IH]; [intros v n c _ E; done|by apply operate_trusted]. Qed.
End Runs.

(** * Properties *)

(** C21. Only checked artifacts.  Whatever sequence of stagings, start-ups, launches and
    rollbacks has run and whatever writes, renames and removals failed on the way, every
    file of every version's directory that is neither a marker (its name starts with a
    period) nor a [.partial] file is the start of an artifact that was checked: the
    artifact has the SHA-256 its descriptor names and the descriptor's signature (when
    there is one) was made with the expected key; and the platform accepted the code
    signature of the bytes that are there.  It is the whole artifact if no write failed
    unseen; the code looks at a stream before it closes it, so that a buffer that cannot
    be written then goes unseen ([unseen_failure_truncates]). *)
Theorem only_verified_artifacts strict root outside sodium_base642bin crypto_sign_verify sha256 platform_verify platform_swap
    apple u v n c :
  reachable root outside sodium_base642bin crypto_sign_verify sha256 platform_verify platform_swap apple strict u ->
  file v n u = Some c -> dot_name n = false -> ends_with (str ".partial") n = false ->
  exists d, d_version d = v /\ filename_from_url (d_url d) = n /\
    (exists k, c = take k (d_artifact d)) /\ (strict = true -> c = d_artifact d) /\
    to_hex (sha256 (d_artifact d)) = ascii_lower (d_sha256 d) /\
    (d_signature d <> [] ->
       signed_by sodium_base642bin crypto_sign_verify (d_signature d) (d_expected_public_key d) (d_canonical_manifest d)) /\
    verify_platform_code_signature platform_verify c (d_expected_signing_authority d) (d_expected_subject d) = inr tt.
Proof.
  intros R F H1 H2.
  destruct (reachable_trusted _ _ _ _ _ _ _ _ _ _ R v n c (conj H1 H2) F) as (d & (Hc & (Hk & Hw) & Hp) & <- & <-).
  apply check_descriptor_spec in Hc as (_ & Hs & Hg). by exists d.
Qed.

(** A descriptor whose hash is that of a constant hash function. *)
Definition demo_hash (data : bytes) : bytes := replicate 32 171.
Definition demo_descriptor (version artifact : bytes) : update_descriptor :=
  MkDescriptor version (str "https://host/app.zip") demo_sha [] [] [] [] [] [] artifact.
(** Every failed write is seen, or none. *)
Definition seen : nat -> bool := fun _ => true.
Definition unseen : nat -> bool := fun _ => false.

Definition demo_updates : updates :=
  operate (str "/u") (fun _ => false) (fun _ => None) (fun _ _ _ => true) demo_hash (fun _ _ _ => inr tt) (fun _ => inr tt) false
    (fun k => if (k =? 3)%nat then Some 1%nat else None) seen (op_stage (demo_descriptor (str "2") [1; 2; 3]))
    (operate (str "/u") (fun _ => false) (fun _ => None) (fun _ _ _ => true) demo_hash (fun _ _ _ => inr tt) (fun _ => inr tt) false
      reliable seen (op_stage (demo_descriptor (str "1") [7])) (MkUpdates None None [])).

Lemma only_verified_artifacts_witness :
  file (str "1") (str "app.zip") demo_updates = Some [7] /\ file (str "2") (str "app.zip") demo_updates = None /\
  exists d, d_version d = str "1" /\ d_artifact d = [7] /\ to_hex (demo_hash [7]) = ascii_lower (d_sha256 d).
Proof.
  split; [reflexivity|]. split; [reflexivity|].
  destruct (only_verified_artifacts true (str "/u") (fun _ => false) (fun _ => None) (fun _ _ _ => true) demo_hash (fun _ _ _ => inr tt)
    (fun _ => inr tt) false demo_updates (str "1") (str "app.zip") [7]) as (d & H1 & _ & _ & H2 & H3 & _).
  - apply reach_op; [reflexivity|]. apply reach_op; [reflexivity|]. apply reach_empty.
  - reflexivity.
  - reflexivity.
  - reflexivity.
  - exists d. rewrite <- H2 in H3 by reflexivity. split; [exact H1|]. split; [symmetry; apply H2; reflexivity|exact H3].
Defined.

(** Staging.  When [stage] succeeds, whatever failed without being looked at, the
    descriptor was checked, the path that is returned holds the artifact (or, if a write
    failed unseen, the start of it), accepted by the platform, the mark [.staged] holds
    that path or a part of it, and the history, the first-launch mark and every other
    file are as they were.  When it fails, nothing changed but the artifact's own file and
    its [.partial]: the update is not marked as staged, and the file is as before, gone,
    or as after a success. *)
Lemma stage_result strict disk noticed root sodium_base642bin crypto_sign_verify sha256 platform_verify d w :
  (strict = true -> forall n, noticed n = true) ->
  let v := d_version d in
  let n := filename_from_url (d_url d) in
  let ok := accepted sodium_base642bin crypto_sign_verify sha256 platform_verify strict d in
  dot_name n = false ->
  match stage disk noticed root sodium_base642bin crypto_sign_verify sha256 platform_verify d w with
  | (inr p, w') =>
      p = payload_path root v n /\ (exists c, file v n (upd w') = Some c /\ ok c) /\
      (exists k, file v (str ".staged") (upd w') = Some (take k (p ++ [10]))) /\
      history_txt (upd w') = history_txt (upd w) /\ flag_txt (upd w') = flag_txt (upd w) /\
      (forall v' n', (v' = v -> n' <> n /\ n' <> n ++ str ".partial" /\ n' <> str ".staged") -> file v' n' (upd w') = file v' n' (upd w))
  | (inl _, w') =>
      history_txt (upd w') = history_txt (upd w) /\ flag_txt (upd w') = flag_txt (upd w) /\
      (forall v' n', (v' = v -> n' <> n /\ n' <> n ++ str ".partial") -> file v' n' (upd w') = file v' n' (upd w)) /\
      (file v n (upd w') = file v n (upd w) \/ file v n (upd w') = None \/ exists c, file v n (upd w') = Some c /\ ok c)
  end.
Proof.
  intros Hst v n ok Hn.
  pose proof (stage_triple disk noticed root sodium_base642bin crypto_sign_verify sha256 platform_verify strict Hst d (upd w) w eq_refl) as T.
  destruct (stage _ _ _ _ _ _ _ d w) as [[e|p] w']; [by destruct T as [(A & B & C) D]|].
  destruct T as (-> & c & u1 & k & V & [(A & B & C) _] & F & ->). fold v n in C, F.
  assert (Hs : n <> str ".staged") by (intros E; apply (f_equal dot_name) in E; by rewrite Hn in E).
  split_and!; [done|exists c; split; [|exact V]|exists k|exact A|exact B|].
  - rewrite !file_put, !(bool_decide_eq_false_2 (n = _)), !andb_false_r by done. exact F.
  - rewrite file_put, !bool_decide_eq_true_2 by done. done.
  - intros v' n' H. rewrite !file_put. destruct (decide (v' = v)) as [->|Hv].
    + destruct (H eq_refl) as (H1 & H2 & H3). rewrite !(bool_decide_eq_false_2 (n' = _)), !andb_false_r by done. by apply C.
    + rewrite !(bool_decide_eq_false_2 (v' = v)) by done. by apply C.
Qed.

(** A write that fails when its stream is closed goes unseen: the version is staged, with
    the start of its artifact under the artifact's name. *)
Lemma unseen_failure_truncates :
  let disk k := if (k =? 3)%nat then Some 1%nat else None in
  let r := stage disk unseen (str "/u") (fun _ => None) (fun _ _ _ => true) demo_hash (fun _ _ _ => inr tt)
             (demo_descriptor (str "2") [1; 2; 3]) (MkWorld (MkUpdates None None []) 0) in
  r.1 = inr (str "/u/2/app.zip") /\ file (str "2") (str "app.zip") (upd r.2) = Some [1].
Proof. split; vm_compute; reflexivity. Qed.

(** C22. An update and the launch that follows it, when nothing fails.  With [current]
    installed and its artifact in place, a verified newer version is staged, applied at
    the next start (its installer may fail), heads the history and waits for its first
    launch.  If the application then reports that it is ready, nothing is rolled back.
    If it does not, the next start goes back to [current]: it heads the history again
    with its own artifact marked to be run, the failed version keeps its artifact under
    the mark [.rolledback], no launch is awaited any more, and the directories that are
    left are those of the history. *)
Theorem update_or_rollback noticed root outside sodium_base642bin crypto_sign_verify sha256 platform_verify platform_swap apple
    d w current rest n c :
  let v := d_version d in
  let name := filename_from_url (d_url d) in
  10 ∉ root -> 47 ∉ current -> 47 ∉ n -> 10 ∉ n -> 10 ∉ v -> v <> current -> dot_name name = false ->
  read_history_file (upd w) = current :: rest -> pending_with root current n c (upd w) -> staged_version (upd w) = None ->
  verified sodium_base642bin crypto_sign_verify sha256 platform_verify d ->
  let p := payload_path root v name in
  let others := take 1 (filter (fun x => x <> v) rest) in
  exists w1 r w2,
    stage reliable noticed root sodium_base642bin crypto_sign_verify sha256 platform_verify d w = (inr p, w1) /\
    apply_pending reliable noticed root platform_swap apple w1 = (r, w2) /\
    read_history_file (upd w2) = v :: current :: others /\ file v (str ".pending") (upd w2) = Some (p ++ [10]) /\
    has_pending_first_launch (upd w2) = true /\
    (exists w3, mark_ready reliable w2 = (inr true, w3) /\ read_history_file (upd w3) = v :: current :: others /\
       auto_rollback_if_unready reliable noticed root outside w3 = (inr [], w3)) /\
    (exists w3, auto_rollback_if_unready reliable noticed root outside w2 = (inr v, w3) /\
       read_history_file (upd w3) = current :: v :: others /\ has_pending_first_launch (upd w3) = false /\
       pending_with root current n c (upd w3) /\
       file v (str ".pending") (upd w3) = None /\ file v (str ".rolledback") (upd w3) = Some (p ++ [10]) /\
       forall d', d' ∈ versions (upd w3) -> d'.1 ∈ read_history_file (upd w3)).
Proof.
  intros v name Hr Hc Hn' Hn Hl Hne Hd Hh Hp Hs Hv p others.
  assert (Hv0 : v <> []) by by apply (check_descriptor_spec _ _ _ _ (proj1 Hv)).
  destruct (stage_reliable root _ _ _ _ noticed d w Hv Hd) as (w1 & fs & E1 & U1 & F1 & F2). fold v name p in E1, U1, F1, F2.
  assert (Hp1 : pending_with root current n c (upd w1)).
  { destruct Hp as [P1 P2]. assert (K : version_files current (upd w1) = version_files current (upd w)).
    { rewrite U1, version_files_set. by rewrite bool_decide_eq_false_2 by (intros E; by apply Hne). }
    split; by rewrite (file_ext _ _ _ K). }
  destruct (apply_staged noticed root platform_swap apple w1 v (p ++ [10]) current rest n c) as (r & w2 & E2 & H2 & L2 & M2 & P2); try done.
  { rewrite U1. exact Hh. }
  { rewrite U1. by apply staged_version_set with (p ++ [10]). }
  { rewrite U1. unfold file. by rewrite version_files_set, bool_decide_eq_true_2. }
  exists w1, r, w2. split; [exact E1|]. split; [exact E2|]. split; [exact H2|]. split; [exact M2|].
  split; [unfold has_pending_first_launch; by rewrite L2|]. split.
  - exists (MkWorld (set_flag None (upd w2)) (S (attempts w2))). split; [unfold mark_ready; by rewrite L2|]. by split.
  - destruct (launch_failed noticed root outside w2 v (p ++ [10]) current others n c) as (w3 & E3 & H3 & R3); try done.
    exists w3. split; [exact E3|]. split; [|exact R3]. rewrite H3. do 2 f_equal.
    apply (good_filter_others current v rest). rewrite <- Hh. apply read_history_good.
Qed.

(** An application at version 1, and its update to version 2. *)
Definition demo_installed : updates :=
  operate (str "/u") (fun _ => false) (fun _ => None) (fun _ _ _ => true) demo_hash (fun _ _ _ => inr tt) (fun _ => inr tt) false
    reliable seen op_apply_pending demo_updates.

Lemma update_or_rollback_witness :
  let d := demo_descriptor (str "2") [1; 2; 3] in
  exists w1 r w2 w3,
    stage reliable seen (str "/u") (fun _ => None) (fun _ _ _ => true) demo_hash (fun _ _ _ => inr tt) d (MkWorld demo_installed 0) =
      (inr (str "/u/2/app.zip"), w1) /\
    apply_pending reliable seen (str "/u") (fun _ => inr tt) false w1 = (r, w2) /\ read_history_file (upd w2) = [str "2"; str "1"] /\
    auto_rollback_if_unready reliable seen (str "/u") (fun _ => false) w2 = (inr (str "2"), w3) /\
    read_history_file (upd w3) = [str "1"; str "2"].
Proof.
  intros d. unshelve epose proof (update_or_rollback seen (str "/u") (fun _ => false) (fun _ => None) (fun _ _ _ => true) demo_hash
    (fun _ _ _ => inr tt) (fun _ => inr tt) false d (MkWorld demo_installed 0) (str "1") [] (str "app.zip") [7]
    _ _ _ _ _ _ _ _ _ _ _) as H; try (apply (bool_decide_unpack _); vm_compute; exact I); try reflexivity.
  destruct H as (w1 & r & w2 & E1 & E2 & H2 & _ & _ & _ & w3 & E3 & H3 & _).
  exists w1, r, w2, w3. split_and!; [exact E1|exact E2|exact H2|exact E3|exact H3].
Defined.

(** * Deltas *)

(** What [apply_bsdiff_delta] writes has the SHA-256 that was expected. *)
Lemma apply_bsdiff_delta_hash sha256 patch current expected staged :
  apply_bsdiff_delta sha256 patch current expected = Ret (inr staged) ->
  is_hex_sha256 expected = true /\ to_hex (sha256 staged) = ascii_lower expected.
Proof.
  unfold apply_bsdiff_delta. destruct (is_hex_sha256 expected); [|done]. cbn [negb]. destruct patch as [p|]; [|done].
  destruct current as [c|]; [|done]. intros (r & _ & E)%bind_inv. destruct r as [e|s']; [done|].
  case_bool_decide as H; [|done]. injection E as <-. by split.
Qed.

(** * What modelling showed *)

(** A second rollback returns to the version the first one left. *)
Definition ping_pong : updates :=
  MkUpdates (Some (history_text [str "2"; str "1"])) None [(str "1", [(str "app", [7])]); (str "2", [(str "app", [8])])].

Lemma rollback_ping_pong :
  let go u := operate (str "/u") (fun _ => false) (fun _ => None) (fun _ _ _ => true) demo_hash (fun _ _ _ => inr tt)
                (fun _ => inr tt) false reliable seen op_rollback u in
  read_history_file (go ping_pong) = [str "1"; str "2"] /\ read_history_file (go (go ping_pong)) = [str "2"; str "1"].
Proof. split; vm_compute; reflexivity. Qed.

(** Without a mark that names a file that is there, the payload is the first file of the
    directory whose name does not start with a period; that may be the [.partial] file an
    interrupted staging left. *)
Lemma partial_payload :
  update_payload_path (str "/u") (fun _ => false) (str "2") demo_updates = Some (str "/u/2/app.zip.partial") /\
  file (str "2") (str "app.zip.partial") demo_updates = Some [1].
Proof. split; vm_compute; reflexivity. Qed.

(** [stage] does not look at the stream it wrote the mark with: when that write fails, it
    succeeds, and the next start applies the version without running its installer. *)
Lemma staged_marker_lost :
  let disk k := if (k =? 7)%nat then Some O else None in
  let d := demo_descriptor (str "2") [1; 2; 3] in
  let r := stage disk seen (str "/u") (fun _ => None) (fun _ _ _ => true) demo_hash (fun _ _ _ => inr tt) d (MkWorld (MkUpdates None None []) 0) in
  r.1 = inr (str "/u/2/app.zip") /\ file (str "2") (str ".staged") (upd r.2) = Some [].
Proof. split; vm_compute; reflexivity. Qed.

(** A manifest without a signature is accepted although a key was expected. *)
Lemma unsigned_accepted b64 verify :
  check_descriptor b64 verify demo_hash
    (MkDescriptor (str "2") (str "u") demo_sha [] [] [] (str "expected key") [] [] [1]) = inr tt.
Proof. vm_compute. reflexivity. Qed.
