(* ===== verification/CdpWs.v ===== *)
(** The WebSocket server side of the debugger ([src/debug/cdp_ws.cpp]): HTTP
    request parsing, the opening handshake, frame encoding and decoding, and the
    reader that reassembles text messages.

    A socket is the list of byte chunks its [recv] calls will return and the bytes
    sent so far; libsodium's Base64 and mbedTLS's SHA-1 are parameters. *)

From S2P Require Import Prelude Strings.

Definition max_ws_frame_bytes : Z := 16 * 1024 * 1024.
Definition kMagic : bytes := str "258EAFA5-E914-47DA-95CA-C5AB0DC85B11".
Definition crlf : bytes := [13; 10].

(** * Sockets *)

(** [writable]: whether [send] succeeds. *)
Record socket : Type := MkSocket { incoming : list bytes; sent : bytes; writable : bool }.

(** [recv] of at most [n] bytes; [None] is a result [<= 0]. *)
Definition recv (n : nat) (s : socket) : option (bytes * socket) :=
  match incoming s with
  | [] => None
  | [] :: _ => None
  | chunk :: rest =>
      if (length chunk <=? n)%nat then Some (chunk, MkSocket rest (sent s) (writable s))
      else Some (take n chunk, MkSocket (drop n chunk :: rest) (sent s) (writable s))
  end.

Definition send_all (bs : bytes) (s : socket) : bool * socket :=
  if writable s then (true, MkSocket (incoming s) (sent s ++ bs) true) else (false, s).

(** * HTTP requests *)

Definition lower (s : bytes) : bytes := ascii_lower s.

Definition ws_space (c : Z) : bool := (c =? chr " ") || (c =? 9) || (c =? 13).
Definition trim_ws (s : bytes) : bytes := trim_by ws_space s.

Record http_request : Type := MkRequest {
  method : bytes; path : bytes; version : bytes; headers : list (bytes * bytes) }.

Definition header (req : http_request) (name : bytes) : bytes :=
  match map_find (lower name) (headers req) with Some v => v | None => [] end.

(** The header lines; [rest] is [raw] from [pos] on. *)
Fixpoint header_lines (fuel : nat) (rest : bytes) (hs : list (bytes * bytes)) :
    outcome (option (list (bytes * bytes))) :=
  match rest with
  | [] => Ret (Some hs)
  | _ =>
      match fuel with
      | O => OutOfFuel
      | S fuel' =>
          match find_str crlf rest with
          | None => Ret None
          | Some e =>
              if e =? 0 then Ret (Some hs)
              else
                let line := substr rest 0 e in
                let hs := match find_char (chr ":") line 0 with
                          | None => hs
                          | Some colon =>
                              map_set (lower (substr line 0 colon)) (trim_ws (substr_from line (colon + 1))) hs
                          end in
                header_lines fuel' (substr_from rest (e + 2)) hs
          end
      end
  end.

Definition parse_http_request (raw : bytes) : outcome (option http_request) :=
  match find_str crlf raw with
  | None => Ret None
  | Some first_end =>
      let first := substr raw 0 first_end in
      match find_char (chr " ") first 0 with
      | None => Ret None
      | Some sp1 =>
          match find_char (chr " ") first (sp1 + 1) with
          | None => Ret None
          | Some sp2 =>
              let rest := substr_from raw (first_end + 2) in
              hs ← header_lines (length rest) rest [];
              Ret (match hs with
                   | None => None
                   | Some hs =>
                       Some (MkRequest (substr first 0 sp1) (substr first (sp1 + 1) (sp2 - sp1 - 1))
                               (substr_from first (sp2 + 1)) hs)
                   end)
          end
      end
  end.

(** [while (raw.find("\r\n\r\n") == npos)]: at most 65536 bytes are read. *)
Fixpoint read_raw (fuel : nat) (raw : bytes) (s : socket) : outcome ((string + bytes) * socket) :=
  match find_str (crlf ++ crlf) raw with
  | Some _ => Ret (inr raw, s)
  | None =>
      if 65536 <=? zlen raw then Ret (inl "HTTP request headers too large"%string, s)
      else
        match fuel with
        | O => OutOfFuel
        | S fuel' =>
            match recv 1 s with
            | None => Ret (inl "socket closed while reading HTTP request"%string, s)
            | Some (bs, s') => read_raw fuel' (raw ++ bs) s'
            end
        end
  end.

Definition read_http_request (s : socket) : outcome ((string + http_request) * socket) :=
  r ← read_raw (Z.to_nat 65537) [] s;
  match r with
  | (inl error, s') => Ret (inl error, s')
  | (inr raw, s') =>
      req ← parse_http_request raw;
      Ret (match req with Some q => inr q | None => inl "malformed HTTP request"%string end, s')
  end.

Definition http_response (status : Z) (reason content_type body : bytes) : bytes :=
  str "HTTP/1.1 " ++ show_int status ++ str " " ++ reason ++ crlf ++ str "Content-Type: " ++ content_type ++
  crlf ++ str "Connection: close" ++ crlf ++ str "Content-Length: " ++ show_int (zlen body) ++ crlf ++ crlf ++
  body.

(** * The opening handshake *)

Section Handshake.
(** Standard Base64 of at most [n] bytes, Base64 text, SHA-1. *)
Context (base642bin : Z -> bytes -> option bytes) (bin2base64 : bytes -> bytes) (sha1 : bytes -> bytes).

Definition websocket_accept (sec_websocket_key : bytes) : option bytes :=
  match sec_websocket_key with
  | [] => None
  | _ =>
      if negb (zlen sec_websocket_key mod 4 =? 0) then None
      else match base642bin 16 sec_websocket_key with
           | None => None
           | Some nonce =>
               if negb (zlen nonce =? 16) then None
               else Some (bin2base64 (sha1 (sec_websocket_key ++ kMagic)))
           end
  end.

Definition switching_response (accept : bytes) : bytes :=
  str "HTTP/1.1 101 Switching Protocols" ++ crlf ++ str "Upgrade: websocket" ++ crlf ++
  str "Connection: Upgrade" ++ crlf ++ str "Sec-WebSocket-Accept: " ++ accept ++ crlf ++ crlf.

Definition handshake_response (req : http_request) : bytes :=
  match websocket_accept (header req (str "sec-websocket-key")) with
  | None => []
  | Some accept => switching_response accept
  end.

(** The error, if any, and the socket. *)
Definition handshake (s : socket) (req : http_request) : option string * socket :=
  if negb (bool_decide (method req = str "GET")) then
    (Some "WebSocket handshake requires GET"%string, s)
  else
    let upgrade := lower (header req (str "upgrade")) in
    let connection := lower (header req (str "connection")) in
    if negb (bool_decide (upgrade = str "websocket")) ||
       match find_str (str "upgrade") connection with None => true | Some _ => false end
    then (Some "missing WebSocket upgrade headers"%string, s)
    else if negb (bool_decide (header req (str "sec-websocket-version") = str "13"))
    then (Some "unsupported WebSocket version"%string, s)
    else
      let sec_key := header req (str "sec-websocket-key") in
      match websocket_accept sec_key with
      | None =>
          (Some match sec_key with
                | [] => "missing Sec-WebSocket-Key"%string
                | _ => "invalid Sec-WebSocket-Key"%string
                end, s)
      | Some accept =>
          let '(ok, s') := send_all (switching_response accept) s in
          if (ok : bool) then (None, s') else (Some "send WebSocket handshake failed"%string, s')
      end.
End Handshake.

(** * Frames *)

(** [b ^= key\[i % 4\]] from index [i] on. *)
Fixpoint apply_key (key : bytes) (i : nat) (payload : bytes) : bytes :=
  match payload with
  | [] => []
  | b :: payload' => Z.lxor b (nth (i mod 4) key 0) :: apply_key key (S i) payload'
  end.

Definition key_bytes (mask_key : Z) : bytes :=
  [u8 (Z.land (Z.shiftr mask_key 24) 0xff); u8 (Z.land (Z.shiftr mask_key 16) 0xff);
   u8 (Z.land (Z.shiftr mask_key 8) 0xff); u8 (Z.land mask_key 0xff)].

Definition encode_frame (payload : bytes) (opcode : Z) (mask : bool) (mask_key : Z) : bytes :=
  let len := zlen payload in
  let mask_bit := if mask then 0x80 else 0 in
  [u8 (Z.lor 0x80 (Z.land opcode 0x0f))] ++
  (if len <=? 125 then [u8 (Z.lor mask_bit (u8 len))]
   else if len <=? 65535 then u8 (Z.lor mask_bit 126) :: be_bytes 2 (u16 len)
   else u8 (Z.lor mask_bit 127) :: be_bytes 8 len) ++
  (if mask then key_bytes mask_key ++ apply_key (key_bytes mask_key) 0 payload else payload).

Record frame : Type := MkFrame { fin : bool; opcode : Z; payload : bytes }.

(** [return false] without an error, with one, or a frame and the rest of the
    buffer. *)
Inductive decoded : Type :=
| NeedMore
| Bad (error : string)
| Got (f : frame) (rest : bytes).

(** The length field at position 2: its value and the position after it, or
    [None] when the buffer is too short. *)
Definition frame_length (data : bytes) (len7 : Z) : outcome (option (string + Z * Z)) :=
  if len7 =? 126 then
    if zlen data <? 4 then Ret None
    else
      b2 ← at_ data 2;
      b3 ← at_ data 3;
      Ret (Some (inr (Z.lor (Z.shiftl b2 8) b3, 4)))
  else if len7 =? 127 then
    if zlen data <? 10 then Ret None
    else
      bs ← sub_ data 2 8;
      let len := be_value bs in
      if negb (Z.land len (2 ^ 63) =? 0) then Ret (Some (inl "invalid WebSocket 64-bit length"%string))
      else Ret (Some (inr (len, 10)))
  else Ret (Some (inr (len7, 2))).

Definition decode_frame_from_buffer (data : bytes) (require_mask : bool) : outcome decoded :=
  if zlen data <? 2 then Ret NeedMore
  else
    b0 ← at_ data 0;
    b1 ← at_ data 1;
    if negb (Z.land b0 0x70 =? 0) then Ret (Bad "reserved WebSocket bits set")
    else
      let fin := negb (Z.land b0 0x80 =? 0) in
      let opcode := Z.land b0 0x0f in
      let masked := negb (Z.land b1 0x80 =? 0) in
      l ← frame_length data (Z.land b1 0x7f);
      match l with
      | None => Ret NeedMore
      | Some (inl error) => Ret (Bad error)
      | Some (inr (len, pos)) =>
          if require_mask && negb masked then Ret (Bad "client WebSocket frames must be masked")
          else if masked && (zlen data <? pos + 4) then Ret NeedMore
          else
            key ← (if masked then sub_ data pos 4 else Ret [0; 0; 0; 0]);
            let pos := if masked then pos + 4 else pos in
            if max_ws_frame_bytes <? len then Ret (Bad "WebSocket frame exceeds 16777216-byte limit")
            else if zlen data - pos <? len then Ret NeedMore
            else if (8 <=? opcode) && negb fin then Ret (Bad "fragmented WebSocket control frame")
            else if (8 <=? opcode) && (125 <? len) then Ret (Bad "oversized WebSocket control frame")
            else
              bs ← sub_ data pos len;
              Ret (Got (MkFrame fin opcode (if masked then apply_key key 0 bs else bs)) (zdrop (pos + len) data))
      end.

Definition write_text (payload : bytes) (s : socket) : bool * socket :=
  send_all (encode_frame payload 1 false 0x11223344) s.

Definition write_close (code : Z) (reason : bytes) (s : socket) : bool * socket :=
  send_all (encode_frame (be_bytes 2 code ++ reason) 8 false 0x11223344) s.

Definition write_pong (payload : bytes) (s : socket) : bool * socket :=
  send_all (encode_frame payload 0xA false 0x11223344) s.

(** * The reader *)

Record reader : Type := MkReader {
  require_mask : bool; buffer : bytes; fragmented : bytes; fragmented_opcode : Z }.

Inductive read_result : Type :=
| Message (m : bytes)
| Closed
| Error (error : string).

(** What one frame does: end the call with a result, or go on. *)
Definition on_frame (fr : frame) (rest : bytes) (r : reader) (s : socket) :
    option read_result * reader * socket :=
  let keep := MkReader (require_mask r) rest in
  if opcode fr =? 0 then
    if fragmented_opcode r =? 0 then
      (Some (Error "unexpected WebSocket continuation frame"), keep (fragmented r) (fragmented_opcode r), s)
    else
      let msg := fragmented r ++ payload fr in
      if fin fr then (Some (Message msg), keep [] 0, s)
      else (None, keep msg (fragmented_opcode r), s)
  else if opcode fr =? 1 then
    if fin fr then (Some (Message (payload fr)), keep (fragmented r) (fragmented_opcode r), s)
    else if negb (fragmented_opcode r =? 0) then
      (Some (Error "nested WebSocket fragmented message"), keep (fragmented r) (fragmented_opcode r), s)
    else (None, keep (payload fr) (opcode fr), s)
  else if opcode fr =? 8 then
    (Some Closed, keep (fragmented r) (fragmented_opcode r), (write_close 1000 [] s).2)
  else if opcode fr =? 9 then
    (None, keep (fragmented r) (fragmented_opcode r), (write_pong (payload fr) s).2)
  else if opcode fr =? 0xA then (None, keep (fragmented r) (fragmented_opcode r), s)
  else (Some (Error "unsupported WebSocket opcode"), keep (fragmented r) (fragmented_opcode r), s).

Fixpoint read_loop (fuel : nat) (r : reader) (s : socket) : outcome (read_result * reader * socket) :=
  match fuel with
  | O => OutOfFuel
  | S fuel' =>
      d ← decode_frame_from_buffer (buffer r) (require_mask r);
      match d with
      | Bad error => Ret (Error error, r, s)
      | NeedMore =>
          match recv 4096 s with
          | None => Ret (Closed, r, s)
          | Some (chunk, s') =>
              read_loop fuel' (MkReader (require_mask r) (buffer r ++ chunk) (fragmented r) (fragmented_opcode r)) s'
          end
      | Got fr rest =>
          match on_frame fr rest r s with
          | (Some result, r', s') => Ret (result, r', s')
          | (None, r', s') => read_loop fuel' r' s'
          end
      end
  end.

(** Every round takes a chunk or drops at least two bytes of the buffer. *)
Definition read_fuel (r : reader) (s : socket) : nat :=
  S (length (buffer r) + list_sum (map (fun c => 2 * length c + 1) (incoming s)))%nat.

Definition read_text (r : reader) (s : socket) : outcome (read_result * reader * socket) :=
  read_loop (read_fuel r s) r s.

(** * Frames on the wire *)

(** A frame as a peer may send it; [encode_frame] writes the final ones. *)
Definition length_field (mask : bool) (len : Z) : bytes :=
  let mask_bit := if mask then 0x80 else 0 in
  if len <=? 125 then [u8 (Z.lor mask_bit (u8 len))]
  else if len <=? 65535 then u8 (Z.lor mask_bit 126) :: be_bytes 2 (u16 len)
  else u8 (Z.lor mask_bit 127) :: be_bytes 8 len.

Definition masked_payload (mask : bool) (key p : bytes) : bytes :=
  if mask then key ++ apply_key key 0 p else p.

Definition wire_frame (mask : bool) (key : bytes) (f : frame) : bytes :=
  [u8 (Z.lor (if fin f then 0x80 else 0) (Z.land (opcode f) 0x0f))] ++
  length_field mask (zlen (payload f)) ++ masked_payload mask key (payload f).

Lemma encode_frame_wire p op mask mk :
  encode_frame p op mask mk = wire_frame mask (key_bytes mk) (MkFrame true op p).
Proof. reflexivity. Qed.

(** Frames the decoder accepts. *)
Definition frame_ok (f : frame) : Prop :=
  0 <= opcode f < 16 /\ zlen (payload f) <= max_ws_frame_bytes /\
  (8 <= opcode f -> fin f = true /\ zlen (payload f) <= 125).

Lemma apply_key_involutive key i p : apply_key key i (apply_key key i p) = p.
Proof.
  revert i. induction p as [|b p IH]; intros i; simpl; [done|].
  by rewrite Z.lxor_assoc, Z.lxor_nilpotent, Z.lxor_0_r, IH.
Qed.

Lemma length_apply_key key i p : length (apply_key key i p) = length p.
Proof. revert i. induction p; intros; simpl; auto. Qed.

(** The bits of the two fixed bytes. *)
Lemma first_byte_rsv : forall op, 0 <= op < 16 -> forall f : bool,
  (Z.land (u8 (Z.lor (if f then 0x80 else 0) (Z.land op 0x0f))) 0x70 =? 0) = true.
Proof. intros op Hop []; revert op Hop; mask_by 16. Qed.

Lemma first_byte_fin : forall op, 0 <= op < 16 -> forall f : bool,
  (Z.land (u8 (Z.lor (if f then 0x80 else 0) (Z.land op 0x0f))) 0x80 =? 0) = negb f.
Proof. intros op Hop []; revert op Hop; mask_by 16. Qed.

Lemma first_byte_opcode : forall op, 0 <= op < 16 -> forall f : bool,
  Z.land (u8 (Z.lor (if f then 0x80 else 0) (Z.land op 0x0f))) 0x0f = op.
Proof. intros op Hop []; revert op Hop; mask_by 16. Qed.

Lemma second_byte_mask : forall l, 0 <= l < 128 -> forall m : bool,
  (Z.land (u8 (Z.lor (if m then 0x80 else 0) l)) 0x80 =? 0) = negb m.
Proof. intros l Hl []; revert l Hl; mask_by 128. Qed.

Lemma second_byte_length : forall l, 0 <= l < 128 -> forall m : bool,
  Z.land (u8 (Z.lor (if m then 0x80 else 0) l)) 0x7f = l.
Proof. intros l Hl []; revert l Hl; mask_by 128. Qed.

(** Reads of the first [n] bytes of a stream. *)
Lemma at_take {A} (l : list A) n i x : (Z.to_nat i < n)%nat -> at_ l i = Ret x -> at_ (take n l) i = Ret x.
Proof.
  intros Hi H. apply at_inv in H as [Hr H]. apply at_Ret; [lia|]. by rewrite lookup_take_lt by lia.
Qed.

Lemma sub_take {A} (l : list A) n off k x : off + k <= Z.of_nat n -> sub_ l off k = Ret x ->
  sub_ (take n l) off k = Ret x.
Proof.
  intros Hn H. apply sub_inv in H as (H1 & H2 & H3 & -> & _).
  rewrite sub_Ret by (rewrite ?length_take; lia). f_equal.
  assert (E : take n l = zsub 0 (Z.of_nat n) l) by (unfold zsub, ztake, zdrop; rewrite Nat2Z.id; by rewrite drop_0).
  rewrite E, zsub_zsub by lia. done.
Qed.

(** The length field of a frame of [len] bytes: the seven bits, and where it ends. *)
Definition length7 (len : Z) : Z := if len <=? 125 then len else if len <=? 65535 then 126 else 127.
Definition length_end (len : Z) : Z := if len <=? 125 then 2 else if len <=? 65535 then 4 else 10.

Lemma length_field_size mask len : zlen (length_field mask len) = length_end len - 1.
Proof. unfold length_field, length_end. repeat case_match; reflexivity. Qed.

Lemma length_field_head mask len : 0 <= len -> exists tl,
  length_field mask len = u8 (Z.lor (if mask then 0x80 else 0) (length7 len)) :: tl.
Proof.
  intros Hl. unfold length_field, length7. destruct (Z.leb_spec len 125); [|destruct (len <=? 65535)]; eexists; [|done|done].
  by rewrite (u8_small len) by lia.
Qed.

Lemma length7_range len : 0 <= len -> 0 <= length7 len < 128.
Proof. intros. unfold length7. repeat case_match; lia. Qed.

Lemma frame_length_spec b0 mask len tail n : 0 <= len < 2 ^ 63 -> (2 <= n)%nat ->
  frame_length (take n (b0 :: length_field mask len ++ tail)) (length7 len)
  = Ret (if Z.of_nat n <? length_end len then None else Some (inr (len, length_end len))).
Proof.
  intros Hl Hn. set (S := b0 :: length_field mask len ++ tail).
  assert (HS : zlen S = length_end len + zlen tail).
  { unfold S. cbn [length]. rewrite length_app. pose proof (length_field_size mask len). lia. }
  assert (HT : zlen (take n S) = Z.min (Z.of_nat n) (zlen S)) by (rewrite length_take; lia).
  unfold frame_length, length7 in *. unfold S, length_field, length_end in *.
  destruct (Z.leb_spec len 125).
  - destruct (Z.eqb_spec len 126); [lia|]. destruct (Z.eqb_spec len 127); [lia|].
    destruct (Z.ltb_spec (Z.of_nat n) 2); [lia|]. done.
  - destruct (Z.leb_spec len 65535); cbn [Z.eqb Pos.eqb].
    + set (D := take n _) in *. destruct (Z.ltb_spec (zlen D) 4), (Z.ltb_spec (Z.of_nat n) 4); try lia; [done|].
      pose proof (be_value_be_bytes 2 (u16 len)) as Bv. unfold D. cbn [be_bytes] in *.
      set (x2 := u8 (Z.shiftr (u16 len) (8 * Z.of_nat 1))) in *. set (x3 := u8 (Z.shiftr (u16 len) (8 * Z.of_nat 0))) in *.
      rewrite (at_take _ n 2 x2) by (try lia; reflexivity). cbn [mbind outcome_bind].
      rewrite (at_take _ n 3 x3) by (try lia; reflexivity). cbn [mbind outcome_bind].
      do 4 f_equal. rewrite wrap_small in * by lia. rewrite <- Bv by (simpl; lia).
      unfold be_acc. cbn [foldl]. by rewrite Z.shiftl_0_l, Z.lor_0_l.
    + set (D := take n _) in *. destruct (Z.ltb_spec (zlen D) 10), (Z.ltb_spec (Z.of_nat n) 10); try lia; [done|].
      unfold D. rewrite (sub_take _ n 2 8 (be_bytes 8 len)); [|lia|].
      2: { cbn [app]. apply (sub_app_mid [b0; _] (be_bytes 8 len) tail); [done|by rewrite length_be_bytes]. }
      cbn [mbind outcome_bind]. rewrite be_value_be_bytes by (simpl; lia).
      rewrite land_bit_testbit, (testbit_above 63) by lia. done.
Qed.

Lemma length_wire_frame mask key f : length key = 4%nat ->
  zlen (wire_frame mask key f) = length_end (zlen (payload f)) + (if mask then 4 else 0) + zlen (payload f).
Proof.
  intros Hk. unfold wire_frame, masked_payload. rewrite !length_app. cbn [length].
  pose proof (length_field_size mask (zlen (payload f))).
  destruct mask; rewrite ?length_app, ?length_apply_key; lia.
Qed.

(** The decoder on a buffer holding the first [n] bytes of a frame and what
    follows it. *)
Lemma decode_take_wire mask key f rest n rm :
  frame_ok f -> length key = 4%nat -> (rm = true -> mask = true) ->
  decode_frame_from_buffer (take n (wire_frame mask key f ++ rest)) rm
  = Ret (if (n <? length (wire_frame mask key f))%nat then NeedMore
         else Got f (take (n - length (wire_frame mask key f)) rest)).
Proof.
  intros (Hop & Hmax & Hctl) Hk Hrm. pose proof (length_wire_frame mask key f Hk) as HL.
  set (W := wire_frame mask key f) in *. set (len := zlen (payload f)) in *.
  assert (Hlen : 0 <= len < 2 ^ 63) by (unfold len, max_ws_frame_bytes in *; lia).
  assert (He : 2 <= length_end len <= 10) by (unfold length_end; repeat case_match; lia).
  assert (Hm : 0 <= (if mask then 4 else 0)) by (destruct mask; lia).
  destruct (length_field_head mask len) as [tl Htl]; [lia|].
  set (b0 := u8 (Z.lor (if fin f then 128 else 0) (Z.land (opcode f) 15))) in *.
  set (b1 := u8 (Z.lor (if mask then 128 else 0) (length7 len))) in *.
  assert (HW : W ++ rest = b0 :: length_field mask len ++ (masked_payload mask key (payload f) ++ rest)).
  { unfold W, wire_frame, b0, len. by rewrite <- !app_assoc. }
  pose proof (length7_range len ltac:(lia)) as H7.
  set (D := take n (W ++ rest)). assert (HD : zlen D = Z.min (Z.of_nat n) (zlen (W ++ rest))) by (unfold D; rewrite length_take; lia).
  rewrite length_app in HD. unfold decode_frame_from_buffer.
  destruct (Z.ltb_spec (zlen D) 2).
  { destruct (Nat.ltb_spec n (length W)); [done|lia]. }
  assert (E0 : at_ D 0 = Ret b0) by (unfold D; rewrite HW; apply at_take; [lia|done]).
  assert (E1 : at_ D 1 = Ret b1) by (unfold D; rewrite HW, Htl; apply at_take; [lia|done]).
  assert (F1 : (Z.land b0 0x70 =? 0) = true) by by apply first_byte_rsv.
  assert (F2 : (Z.land b0 0x80 =? 0) = negb (fin f)) by by apply first_byte_fin.
  assert (F3 : Z.land b0 0x0f = opcode f) by by apply first_byte_opcode.
  assert (F4 : (Z.land b1 0x80 =? 0) = negb mask) by by apply second_byte_mask.
  assert (F5 : Z.land b1 0x7f = length7 len) by by apply second_byte_length.
  rewrite E0, E1. cbn [mbind outcome_bind]. rewrite F1, F2, F3, F4, F5, !negb_involutive. cbn [negb].
  assert (EL : frame_length D (length7 len) = Ret (if Z.of_nat n <? length_end len then None else Some (inr (len, length_end len))))
    by (unfold D; rewrite HW; apply frame_length_spec; lia).
  rewrite EL. cbn [mbind outcome_bind].
  destruct (Z.ltb_spec (Z.of_nat n) (length_end len)).
  { destruct (Nat.ltb_spec n (length W)); [done|destruct mask; lia]. }
  replace (rm && negb mask) with false by (destruct rm, mask; try done; by specialize (Hrm eq_refl)).
  assert (HW2 : W ++ rest = (b0 :: length_field mask len) ++ masked_payload mask key (payload f) ++ rest) by (by rewrite HW).
  pose proof (length_field_size mask len) as HF.
  assert (Hbody : forall p q n', length q = length (payload f) -> W ++ rest = p ++ q ++ rest -> n' = zlen p ->
    (if max_ws_frame_bytes <? len then Ret (Bad "WebSocket frame exceeds 16777216-byte limit")
     else if zlen D - n' <? len then Ret NeedMore
     else if (8 <=? opcode f) && negb (fin f) then Ret (Bad "fragmented WebSocket control frame")
     else if (8 <=? opcode f) && (125 <? len) then Ret (Bad "oversized WebSocket control frame")
     else bs ← sub_ D n' len;
          Ret (Got (MkFrame (fin f) (opcode f) (if mask then apply_key key 0 bs else bs)) (zdrop (n' + len) D)))
    = Ret (if (n <? length W)%nat then NeedMore
           else Got (MkFrame (fin f) (opcode f) (if mask then apply_key key 0 q else q)) (take (n - length W) rest))).
  { intros p q n' Hq Hpq Hn'. assert (HWp : length W = (length p + length q)%nat).
    { apply (f_equal length) in Hpq. rewrite !length_app in Hpq. lia. }
    destruct (Z.ltb_spec max_ws_frame_bytes len); [lia|].
    destruct (Z.ltb_spec (zlen D - n') len), (Nat.ltb_spec n (length W)); try lia; [done|].
    replace ((8 <=? opcode f) && negb (fin f)) with false.
    2: { destruct (Z.leb_spec 8 (opcode f)); [|done]. by destruct (Hctl ltac:(done)) as [-> _]. }
    replace ((8 <=? opcode f) && (125 <? len)) with false.
    2: { destruct (Z.leb_spec 8 (opcode f)); [|done]. destruct (Hctl ltac:(done)). destruct (Z.ltb_spec 125 len); [lia|done]. }
    unfold D. rewrite (sub_take _ n n' len q); [|lia|rewrite Hpq; apply sub_app_mid; lia].
    cbn [mbind outcome_bind]. do 2 f_equal. unfold zdrop. replace (Z.to_nat (n' + len)) with (length W) by lia.
    rewrite skipn_firstn_comm, drop_app_length. done. }
  destruct mask; cbn [andb masked_payload] in *.
  - set (p := (b0 :: length_field true len)) in *.
    destruct (Z.ltb_spec (zlen D) (length_end len + 4)).
    { destruct (Nat.ltb_spec n (length W)); [done|lia]. }
    assert (EK : sub_ D (length_end len) 4 = Ret key).
    { unfold D. apply sub_take; [lia|]. rewrite HW2, <- app_assoc. apply sub_app_mid; unfold p; cbn [length]; lia. }
    rewrite EK. cbn [mbind outcome_bind].
    rewrite (Hbody (p ++ key) (apply_key key 0 (payload f))).
    + rewrite apply_key_involutive. by destruct f.
    + apply length_apply_key.
    + by rewrite HW2, <- !app_assoc.
    + rewrite length_app. unfold p. cbn [length]. lia.
  - cbn [mbind outcome_bind]. rewrite (Hbody (b0 :: length_field false len) (payload f)); [by destruct f|done|done|cbn [length]; lia].
Qed.

(** * The decoder on any buffer *)

Lemma land_mask_range k x : 0 <= k -> 0 <= Z.land x (Z.ones k) < 2 ^ k.
Proof. intros. rewrite land_ones_mod by done. apply Z.mod_pos_bound. lia. Qed.

Lemma frame_length_total data b1 : is_bytes data -> 2 <= zlen data -> exists l,
  frame_length data (Z.land b1 0x7f) = Ret l /\
  match l with Some (inr (len, pos)) => 2 <= pos <= zlen data /\ 0 <= len | _ => True end.
Proof.
  intros Hb H2. pose proof (land_mask_range 7 b1 ltac:(lia)) as H7. change (Z.ones 7) with 0x7f in H7.
  unfold frame_length. destruct (_ =? 126); [|destruct (_ =? 127)].
  - destruct (Z.ltb_spec (zlen data) 4); [by eexists|].
    destruct (at_in_range data 2) as (b2 & -> & L2); [lia|]. destruct (at_in_range data 3) as (b3 & -> & L3); [lia|].
    cbn [mbind outcome_bind]. eexists. split; [done|]. cbn beta iota.
    pose proof (Forall_lookup_1 _ _ _ _ Hb L2) as B2. pose proof (Forall_lookup_1 _ _ _ _ Hb L3) as B3.
    unfold is_byte in *. rewrite lor_shiftl by lia. lia.
  - destruct (Z.ltb_spec (zlen data) 10); [by eexists|]. rewrite sub_Ret by lia. cbn [mbind outcome_bind].
    pose proof (be_value_bound (zsub 2 8 data) ltac:(by apply is_bytes_zsub)).
    destruct (negb _); eexists; (split; [done|]); [done|cbn beta iota; lia].
  - eexists. split; [done|]. cbn beta iota. lia.
Qed.

(** What the decoder answers on any bytes: it stays inside the buffer, and a frame
    it accepts obeys the limits and takes up a prefix of the buffer. *)
Lemma decode_total data rm : is_bytes data -> exists d, decode_frame_from_buffer data rm = Ret d /\
  match d with
  | Got f rest => frame_ok f /\ exists used, data = used ++ rest /\
      2 + (if rm : bool then 4 else 0) + zlen (payload f) <= zlen used
  | _ => True
  end.
Proof.
  intros Hb. unfold decode_frame_from_buffer. destruct (Z.ltb_spec (zlen data) 2); [by eexists|].
  destruct (at_in_range data 0) as (b0 & -> & _); [lia|]. destruct (at_in_range data 1) as (b1 & -> & _); [lia|].
  cbn [mbind outcome_bind]. destruct (negb (Z.land b0 112 =? 0)); [by eexists|].
  pose proof (land_mask_range 4 b0 ltac:(lia)) as H4. change (Z.ones 4) with 0xf in H4.
  destruct (frame_length_total data b1) as (l & -> & Hl); [done|lia|]. cbn [mbind outcome_bind].
  destruct l as [[|[len pos]]|]; [by eexists| |by eexists]. set (masked := negb (Z.land b1 128 =? 0)).
  destruct (rm && negb masked) eqn:Erm; [by eexists|].
  destruct (masked && _) eqn:Ek; [by eexists|].
  assert (Hkey : exists key, (if masked then sub_ data pos 4 else Ret [0; 0; 0; 0]) = Ret key).
  { destruct masked; [|by eexists]. simpl in Ek. apply Z.ltb_ge in Ek. rewrite sub_Ret by lia. by eexists. }
  destruct Hkey as [key ->]. cbn [mbind outcome_bind].
  set (p := if masked then pos + 4 else pos).
  assert (Hp : pos + (if rm then 4 else 0) <= p /\ 2 <= p <= zlen data).
  { unfold p. destruct masked, rm; simpl in *; try done; try (apply Z.ltb_ge in Ek); lia. }
  destruct (Z.ltb_spec max_ws_frame_bytes len); [by eexists|].
  destruct (Z.ltb_spec (zlen data - p) len); [by eexists|].
  destruct ((8 <=? _) && negb _) eqn:C1; [by eexists|]. destruct ((8 <=? _) && (125 <? _)) eqn:C2; [by eexists|].
  rewrite sub_Ret by lia. cbn [mbind outcome_bind]. eexists. split; [done|]. cbn beta iota.
  assert (Hz : zlen (if masked then apply_key key 0 (zsub p len data) else zsub p len data) = len)
    by (destruct masked; rewrite ?length_apply_key, zlen_zsub; lia).
  split.
  - unfold frame_ok. cbn [opcode payload fin]. rewrite Hz. split_and!; [lia|lia|lia|].
    intros H8. apply Z.leb_le in H8. rewrite H8 in C1, C2. simpl in C1, C2. apply negb_false_iff in C1.
    apply Z.ltb_ge in C2. done.
  - exists (ztake (p + len) data). unfold ztake, zdrop. rewrite take_drop. split; [done|].
    cbn [payload]. rewrite Hz, length_take. lia.
Qed.

(** * The reader *)

(** What is still to be read: the buffer and the chunks to come. *)
Definition stream (r : reader) (s : socket) : bytes := buffer r ++ concat (incoming s).

Definition live (s : socket) : Prop := Forall (fun c => c <> []) (incoming s) /\ writable s = true.

Definition cost (buf : bytes) (s : socket) : nat :=
  (length buf + list_sum (map (fun c => 2 * length c + 1) (incoming s)))%nat.

Lemma recv_cost n s c s' : recv n s = Some (c, s') -> (0 < n)%nat ->
  (length c + list_sum (map (fun c => 2 * length c + 1) (incoming s'))
   < list_sum (map (fun c => 2 * length c + 1) (incoming s)))%nat.
Proof.
  destruct s as [inc out w]. unfold recv. cbn [incoming]. destruct inc as [|[|b c0] rest]; [done|done|].
  destruct (Nat.leb_spec (length (b :: c0)) n); intros [= <- <-] Hn; cbn [map list_sum fold_right incoming].
  - unfold list_sum. cbn [fold_right]. lia.
  - unfold list_sum. cbn [fold_right]. rewrite length_take, length_drop. lia.
Qed.

Lemma recv_stream n s c s' : recv n s = Some (c, s') ->
  concat (incoming s) = c ++ concat (incoming s') /\ sent s' = sent s /\ writable s' = writable s.
Proof.
  destruct s as [inc out w]. unfold recv. cbn [incoming]. destruct inc as [|[|b c0] rest]; [done|done|].
  destruct (Nat.leb_spec (length (b :: c0)) n); intros [= <- <-]; cbn [concat incoming sent writable]; split_and!; auto.
  by rewrite app_assoc, take_drop.
Qed.

Lemma recv_live n s c s' : recv n s = Some (c, s') -> (0 < n)%nat -> live s -> live s'.
Proof.
  destruct s as [inc out w]. unfold recv, live. cbn [incoming writable]. destruct inc as [|[|b c0] rest]; [done|done|].
  destruct (Nat.leb_spec (length (b :: c0)) n); intros [= <- <-] Hn [Hl Hw]; cbn [incoming writable];
    apply Forall_cons in Hl as [_ Hl]; (split; [|done]); [done|].
  constructor; [|done]. intros E. apply (f_equal length) in E. rewrite length_drop in E. cbn [length] in *. lia.
Qed.

Lemma recv_some n s : live s -> concat (incoming s) <> [] -> exists c s', recv n s = Some (c, s').
Proof.
  destruct s as [inc out w]. unfold recv, live. cbn [incoming]. intros [Hl _] Hne.
  destruct inc as [|[|b c0] rest]; [done|by apply Forall_cons in Hl as [? _]|]. case_match; eauto.
Qed.

Lemma on_frame_frame fr rest r s : forall res r' s', on_frame fr rest r s = (res, r', s') ->
  buffer r' = rest /\ require_mask r' = require_mask r /\ incoming s' = incoming s /\ writable s' = writable s.
Proof.
  unfold on_frame, write_close, write_pong, send_all. intros res r' s'.
  repeat case_match; intros [= <- <- <-]; cbn; split_and!; auto; congruence.
Qed.

Lemma read_loop_total fuel : forall r s, is_bytes (stream r s) -> (cost (buffer r) s < fuel)%nat ->
  exists res r' s', read_loop fuel r s = Ret (res, r', s').
Proof.
  induction fuel as [|fuel IH]; intros r s Hb Hc; [lia|]. cbn [read_loop].
  assert (Hbuf : is_bytes (buffer r)) by (by apply Forall_app in Hb as []).
  destruct (decode_total (buffer r) (require_mask r) Hbuf) as (d & -> & Hd). cbn [mbind outcome_bind].
  destruct d as [|error|fr rest]; [|by eauto|].
  - destruct (recv 4096 s) as [[c s']|] eqn:E; [|by eauto].
    pose proof (recv_cost _ _ _ _ E ltac:(lia)). apply recv_stream in E as (E & _ & _).
    apply IH.
    + unfold stream in *. cbn [buffer]. by rewrite <- app_assoc, <- E.
    + unfold cost in *. cbn [buffer]. rewrite length_app. lia.
  - destruct Hd as (_ & used & Hu & Hlen). destruct (on_frame fr rest r s) as [[[res|] r'] s'] eqn:E; [by eauto|].
    apply on_frame_frame in E as (E1 & E2 & E3 & E4). apply IH.
    + unfold stream in *. rewrite E1, E3. rewrite Hu, <- app_assoc in Hb. by apply Forall_app in Hb as [].
    + unfold cost in *. rewrite E1, E3. rewrite Hu, length_app in Hc. destruct (require_mask r); lia.
Qed.

(** A frame at the head of the stream is the next one handled, however the stream
    is cut into chunks. *)
Lemma read_loop_next mask key f rest fuel : forall r s,
  frame_ok f -> length key = 4%nat -> (require_mask r = true -> mask = true) -> live s ->
  stream r s = wire_frame mask key f ++ rest -> (cost (buffer r) s < fuel)%nat ->
  exists buf s' fuel', (cost buf s' < fuel')%nat /\ live s' /\ sent s' = sent s /\
    buf ++ concat (incoming s') = rest /\
    read_loop fuel r s = match on_frame f buf r s' with
                         | (Some result, r', s'') => Ret (result, r', s'')
                         | (None, r', s'') => read_loop fuel' r' s''
                         end.
Proof.
  induction fuel as [|fuel IH]; intros r s Hf Hk Hm Hs Hst Hc; [lia|]. cbn [read_loop].
  set (W := wire_frame mask key f) in *.
  assert (Hbuf : buffer r = take (length (buffer r)) (W ++ rest)) by (rewrite <- Hst; unfold stream; by rewrite take_app_length).
  assert (Hd : decode_frame_from_buffer (buffer r) (require_mask r)
    = Ret (if (length (buffer r) <? length W)%nat then NeedMore else Got f (take (length (buffer r) - length W) rest))).
  { rewrite Hbuf at 1. by apply decode_take_wire. }
  rewrite Hd. cbn [mbind outcome_bind]. destruct (Nat.ltb_spec (length (buffer r)) (length W)) as [Hlt|Hge].
  - destruct (recv_some 4096 s Hs) as (c & s' & E).
    { intros E. unfold stream in Hst. rewrite E, app_nil_r in Hst. rewrite Hst, length_app in Hlt. lia. }
    rewrite E. pose proof (recv_cost _ _ _ _ E ltac:(lia)). pose proof (recv_live _ _ _ _ E ltac:(lia) Hs).
    apply recv_stream in E as (E & E2 & E3).
    set (r1 := MkReader _ _ _ _). destruct (IH r1 s') as (buf & s2 & fuel' & H1 & H2 & H3 & H4 & H5); try done.
    + rewrite <- Hst. unfold stream, r1. cbn [buffer]. by rewrite E, app_assoc.
    + unfold cost, r1 in *. cbn [buffer]. rewrite length_app. lia.
    + exists buf, s2, fuel'. split_and!; try done. congruence.
  - assert (Hsplit : buffer r = W ++ take (length (buffer r) - length W) rest).
    { rewrite Hbuf at 1. by rewrite take_app_ge. }
    exists (take (length (buffer r) - length W) rest), s, fuel.
    assert (HW : (0 < length W)%nat) by (unfold W, wire_frame; cbn [app length]; lia).
    split_and!; try done.
    + unfold cost in *. rewrite Hsplit, length_app in Hc. lia.
    + unfold stream in Hst. rewrite Hsplit in Hst. rewrite <- app_assoc in Hst. by apply app_inv_head in Hst.
Qed.

(** ** Text messages as sequences of frames *)

(** The frames after the first fragment, and the bytes they carry. *)
Inductive continues : list frame -> bytes -> Prop :=
| continues_last p : continues [MkFrame true 0 p] p
| continues_more p fs m : continues fs m -> continues (MkFrame false 0 p :: fs) (p ++ m)
| continues_ping p fs m : continues fs m -> continues (MkFrame true 9 p :: fs) m
| continues_pong p fs m : continues fs m -> continues (MkFrame true 10 p :: fs) m.

Inductive text_message : list frame -> bytes -> Prop :=
| text_single p : text_message [MkFrame true 1 p] p
| text_first p fs m : continues fs m -> text_message (MkFrame false 1 p :: fs) (p ++ m)
| text_ping p fs m : text_message fs m -> text_message (MkFrame true 9 p :: fs) m
| text_pong p fs m : text_message fs m -> text_message (MkFrame true 10 p :: fs) m.

(** The answers to the pings among the frames. *)
Definition pongs (fs : list frame) : bytes :=
  concat (map (fun f => if opcode f =? 9 then encode_frame (payload f) 0xA false 0x11223344 else []) fs).

Definition wires (mask : bool) (kfs : list (bytes * frame)) : bytes :=
  concat (map (fun '(key, f) => wire_frame mask key f) kfs).

Definition sendable (kfs : list (bytes * frame)) : Prop :=
  Forall (fun '(key, f) => length key = 4%nat /\ frame_ok f) kfs.

(** The message [m] is delivered and [rest] of the stream is left. *)
Definition delivers (fuel : nat) (r : reader) (s : socket) (m answers rest : bytes) : Prop :=
  exists r' s', read_loop fuel r s = Ret (Message m, r', s') /\ stream r' s' = rest /\ live s' /\
    sent s' = sent s ++ answers /\ require_mask r' = require_mask r /\ fragmented_opcode r' = 0.

(** One frame of a message: the step the two inductions share. *)
Lemma delivers_step mask key f rest fuel r s m answers tail :
  frame_ok f -> length key = 4%nat -> (require_mask r = true -> mask = true) -> live s ->
  stream r s = wire_frame mask key f ++ rest -> (cost (buffer r) s < fuel)%nat ->
  (forall buf s' fuel', (cost buf s' < fuel')%nat -> live s' -> sent s' = sent s -> buf ++ concat (incoming s') = rest ->
     match on_frame f buf r s' with
     | (Some result, r', s'') => result = Message m /\ rest = tail /\ sent s'' = sent s ++ answers /\ fragmented_opcode r' = 0
     | (None, r', s'') => exists answers', sent s'' ++ answers' = sent s ++ answers /\ 
         (stream r' s'' = rest -> (cost (buffer r') s'' < fuel')%nat -> live s'' -> require_mask r' = require_mask r ->
          delivers fuel' r' s'' m answers' tail)
     end) ->
  delivers fuel r s m answers tail.
Proof.
  intros Hf Hk Hm Hs Hst Hc Hstep.
  destruct (read_loop_next mask key f rest fuel r s) as (buf & s' & fuel' & Hc' & Hs' & Hsent & Hrest & E); try done.
  specialize (Hstep buf s' fuel' Hc' Hs' Hsent Hrest). unfold delivers. rewrite E.
  destruct (on_frame f buf r s') as [[res r'] s''] eqn:Eo. pose proof (on_frame_frame _ _ _ _ _ _ _ Eo) as (E1 & E2 & E3 & E4).
  assert (Hst' : stream r' s'' = rest) by (unfold stream; by rewrite E1, E3).
  assert (Hl' : live s'') by (unfold live in *; by rewrite E3, E4).
  destruct res as [res|].
  - destruct Hstep as (-> & <- & H3 & H4). exists r', s''. done.
  - destruct Hstep as (answers' & Ha & H). destruct H as (r2 & s2 & H1 & H2 & H3 & H4 & H5 & H6); try done.
    { unfold cost in *. by rewrite E1, E3. }
    exists r2, s2. split_and!; try done; [congruence|congruence].
Qed.

Lemma on_ping p buf r s : live s -> 
  on_frame (MkFrame true 9 p) buf r s
  = (None, MkReader (require_mask r) buf (fragmented r) (fragmented_opcode r),
     MkSocket (incoming s) (sent s ++ encode_frame p 0xA false 0x11223344) true).
Proof. intros [_ Hw]. unfold on_frame, write_pong, send_all. cbn [opcode Z.eqb Pos.eqb payload]. by rewrite Hw. Qed.

Lemma on_pong p buf r s :
  on_frame (MkFrame true 10 p) buf r s
  = (None, MkReader (require_mask r) buf (fragmented r) (fragmented_opcode r), s).
Proof. reflexivity. Qed.

Lemma continues_delivers mask kfs m : continues (map snd kfs) m -> sendable kfs ->
  forall fuel r s tail, (require_mask r = true -> mask = true) -> live s -> fragmented_opcode r <> 0 ->
  stream r s = wires mask kfs ++ tail -> (cost (buffer r) s < fuel)%nat ->
  delivers fuel r s (fragmented r ++ m) (pongs (map snd kfs)) tail.
Proof.
  intros Hm. remember (map snd kfs) as fs eqn:Efs. revert kfs Efs.
  induction Hm as [p|p fs m Hm IH|p fs m Hm IH|p fs m Hm IH]; intros [|[key f] kfs] Efs Hs; try done;
    cbn [map snd] in Efs; injection Efs as <- Efs; try subst fs; apply Forall_cons in Hs as [[Hk Hf] Hs];
    intros fuel r s tail Hmask Hlive Hop Hst Hc; unfold wires in Hst; cbn [map concat] in Hst; rewrite <- app_assoc in Hst;
    refine (delivers_step mask key _ _ fuel r s _ _ tail Hf Hk Hmask Hlive Hst Hc _);
    intros buf s' fuel' Hc' Hl' Hsent Hrest.
  - unfold on_frame. cbn [opcode fin payload Z.eqb]. destruct (Z.eqb_spec (fragmented_opcode r) 0); [done|].
    destruct kfs; [|done]. cbn. rewrite app_nil_r. done.
  - unfold on_frame. cbn [opcode fin payload Z.eqb]. destruct (Z.eqb_spec (fragmented_opcode r) 0); [done|].
    exists (pongs (map snd kfs)). rewrite Hsent. split; [by cbn|].
    intros Hst' Hc2 Hl2 Hm2. rewrite app_assoc. by apply (IH kfs eq_refl Hs fuel' (MkReader _ _ (fragmented r ++ p) _)).
  - rewrite on_ping by done. exists (pongs (map snd kfs)). cbn [sent]. rewrite Hsent.
    split; [by rewrite <- app_assoc|]. intros Hst' Hc2 Hl2 Hm2. by apply (IH kfs eq_refl Hs fuel' (MkReader _ _ (fragmented r) _)).
  - rewrite on_pong. exists (pongs (map snd kfs)). rewrite Hsent.
    split; [by cbn|]. intros Hst' Hc2 Hl2 Hm2. by apply (IH kfs eq_refl Hs fuel' (MkReader _ _ (fragmented r) _)).
Qed.

Lemma text_message_delivers mask kfs m : text_message (map snd kfs) m -> sendable kfs ->
  forall fuel r s tail, (require_mask r = true -> mask = true) -> live s -> fragmented_opcode r = 0 ->
  stream r s = wires mask kfs ++ tail -> (cost (buffer r) s < fuel)%nat ->
  delivers fuel r s m (pongs (map snd kfs)) tail.
Proof.
  intros Hm. remember (map snd kfs) as fs eqn:Efs. revert kfs Efs.
  induction Hm as [p|p fs m Hm|p fs m Hm IH|p fs m Hm IH]; intros [|[key f] kfs] Efs Hs; try done;
    cbn [map snd] in Efs; injection Efs as <- Efs; try subst fs; apply Forall_cons in Hs as [[Hk Hf] Hs];
    intros fuel r s tail Hmask Hlive Hop Hst Hc; unfold wires in Hst; cbn [map concat] in Hst; rewrite <- app_assoc in Hst;
    refine (delivers_step mask key _ _ fuel r s _ _ tail Hf Hk Hmask Hlive Hst Hc _);
    intros buf s' fuel' Hc' Hl' Hsent Hrest.
  - destruct kfs; [|done]. cbn. rewrite app_nil_r. done.
  - unfold on_frame. cbn [opcode fin payload Z.eqb]. rewrite Hop. cbn [Z.eqb negb].
    exists (pongs (map snd kfs)). rewrite Hsent. split; [by cbn|].
    intros Hst' Hc2 Hl2 Hm2.
    by apply (continues_delivers mask kfs m Hm Hs fuel' (MkReader _ _ p 1)).
  - rewrite on_ping by done. exists (pongs (map snd kfs)). cbn [sent]. rewrite Hsent.
    split; [by rewrite <- app_assoc|]. intros Hst' Hc2 Hl2 Hm2. by apply (IH kfs eq_refl Hs fuel' (MkReader _ _ (fragmented r) _)).
  - rewrite on_pong. exists (pongs (map snd kfs)). rewrite Hsent.
    split; [by cbn|]. intros Hst' Hc2 Hl2 Hm2. by apply (IH kfs eq_refl Hs fuel' (MkReader _ _ (fragmented r) _)).
Qed.

(** * Requests on the wire *)

Definition header_line (h : bytes * bytes) : bytes := h.1 ++ str ": " ++ h.2.
Definition request_line (req : http_request) : bytes :=
  method req ++ str " " ++ path req ++ str " " ++ version req.

(** A request as a client sends it; the headers in their written form. *)
Definition render_request (req : http_request) : bytes :=
  request_line req ++ crlf ++ concat (map (fun h => header_line h ++ crlf) (headers req)) ++ crlf.

Definition stored_headers (hs : list (bytes * bytes)) : list (bytes * bytes) :=
  foldl (fun acc h => map_set (lower h.1) h.2 acc) [] hs.

(** No carriage return anywhere, no space in the method and the path, no colon in a
    header name, no white space around a value. *)
Definition request_ok (req : http_request) : Prop :=
  chr " " ∉ method req /\ chr " " ∉ path req /\ 13 ∉ request_line req /\
  Forall (fun h => chr ":" ∉ h.1 /\ 13 ∉ header_line h /\ trimmed ws_space h.2) (headers req).

Lemma find_crlf_line x y : 13 ∉ x -> find_str crlf (x ++ crlf ++ y) = Some (zlen x).
Proof. intros. rewrite find_str_skip, find_str_here by done. cbn. f_equal. lia. Qed.

(** The blank line ends exactly the block. *)
Lemma find_blank_line l x y : 13 ∉ l ->
  match x with [] => False | c :: _ => c <> 13 end ->
  find_str (crlf ++ crlf) (l ++ crlf ++ x ++ y) = Z.add (zlen l + 2) <$> find_str (crlf ++ crlf) (x ++ y).
Proof.
  intros Hl Hx. rewrite find_str_skip by done. destruct x as [|c x]; [done|].
  set (t := (c :: x) ++ y). assert (E : find_str (crlf ++ crlf) (crlf ++ t) = Z.add 2 <$> find_str (crlf ++ crlf) t).
  { unfold crlf. cbn [app find_str]. unfold starts_with. rewrite !bool_decide_false.
    - rewrite <- option_fmap_compose. apply option_fmap_ext. intros z. cbn. lia.
    - cbn [length take]. congruence.
    - unfold t. cbn [length take app]. congruence. }
  rewrite E, <- option_fmap_compose. apply option_fmap_ext. intros z. cbn. lia.
Qed.

Lemma header_line_head h : 13 ∉ header_line h -> match header_line h with [] => False | c :: _ => c <> 13 end.
Proof.
  intros H. destruct (header_line h) as [|c l] eqn:E; [|set_solver].
  apply (f_equal length) in E. unfold header_line in E. rewrite !length_app in E. cbn in E. lia.
Qed.

Lemma find_blank_headers hs : Forall (fun h => 13 ∉ header_line h) hs -> forall l, 13 ∉ l ->
  let block := l ++ crlf ++ concat (map (fun h => header_line h ++ crlf) hs) ++ crlf in
  find_str (crlf ++ crlf) block = Some (zlen block - 4).
Proof.
  induction 1 as [|h hs Hh Hhs IH]; intros l Hl; cbn [map concat app].
  - rewrite find_str_skip by done. change (crlf ++ crlf) with ((crlf ++ crlf) ++ []).
    rewrite find_str_here by done. cbn. f_equal. rewrite length_app. cbn. lia.
  - specialize (IH (header_line h) Hh). cbn zeta in IH.
    set (t := concat (map (fun h => header_line h ++ crlf) hs) ++ crlf) in *.
    replace (((header_line h ++ crlf) ++ concat (map (fun h => header_line h ++ crlf) hs)) ++ crlf)
      with (header_line h ++ crlf ++ t) by (unfold t; by rewrite <- !app_assoc).
    rewrite find_blank_line by (try done; by apply header_line_head).
    rewrite IH. cbn [fmap option_fmap option_map]. f_equal. rewrite !length_app. cbn [length crlf]. lia.
Qed.

Lemma find_blank_render req : request_ok req ->
  find_str (crlf ++ crlf) (render_request req) = Some (zlen (render_request req) - 4).
Proof.
  intros (_ & _ & H1 & H2). apply (find_blank_headers (headers req)); [|done].
  eapply Forall_impl; [exact H2|]. naive_solver.
Qed.

Lemma header_lines_render hs : forall body acc fuel,
  Forall (fun h => chr ":" ∉ h.1 /\ 13 ∉ header_line h /\ trimmed ws_space h.2) hs -> (length hs < fuel)%nat ->
  header_lines fuel (concat (map (fun h => header_line h ++ crlf) hs) ++ crlf ++ body) acc
  = Ret (Some (foldl (fun acc h => map_set (lower h.1) h.2 acc) acc hs)).
Proof.
  induction hs as [|h hs IH]; intros body acc fuel Hok Hf; (destruct fuel as [|fuel]; [cbn in Hf; lia|]).
  - cbn [map concat app]. change (crlf ++ body) with (13 :: 10 :: body) at 1. cbn [header_lines].
    change (13 :: 10 :: body) with (crlf ++ body). by rewrite find_str_here.
  - apply Forall_cons in Hok as [(Hc & Hr & Ht) Hok]. cbn [map concat].
    pose proof (header_line_head h Hr) as Hh.
    set (t := concat (map (fun h => header_line h ++ crlf) hs) ++ crlf ++ body).
    replace (((header_line h ++ crlf) ++ concat (map (fun h => header_line h ++ crlf) hs)) ++ crlf ++ body)
      with (header_line h ++ crlf ++ t) by (unfold t; by rewrite <- !app_assoc).
    cbn [header_lines]. destruct (header_line h ++ crlf ++ t) as [|c l] eqn:E; [by destruct (header_line h)|].
    rewrite <- E. rewrite find_crlf_line by done.
    assert (Hpos : 0 < zlen (header_line h)) by (destruct (header_line h); [done|cbn; lia]).
    destruct (Z.eqb_spec (zlen (header_line h)) 0); [lia|]. cbn [foldl].
    assert (E1 : substr (header_line h ++ crlf ++ t) 0 (zlen (header_line h)) = header_line h).
    { unfold substr. destruct (Z.ltb_spec (zlen (header_line h)) 0); [lia|].
      unfold ztake, zdrop. by rewrite drop_0, Nat2Z.id, take_app_length. }
    assert (E2 : substr_from (header_line h ++ crlf ++ t) (zlen (header_line h) + 2) = t).
    { unfold substr_from, zdrop. rewrite app_assoc, drop_app_length'; [done|]. rewrite length_app. cbn. lia. }
    rewrite E1, E2. unfold header_line at 1 2 3. change (str ": ") with (chr ":" :: [32]).
    cbn [app]. rewrite find_char_app_r by done.
    assert (E3 : substr (h.1 ++ chr ":" :: 32 :: h.2) 0 (zlen h.1) = h.1).
    { unfold substr. destruct (Z.ltb_spec (zlen h.1) 0); [lia|]. unfold ztake, zdrop. by rewrite drop_0, Nat2Z.id, take_app_length. }
    assert (E4 : trim_ws (substr_from (h.1 ++ chr ":" :: 32 :: h.2) (zlen h.1 + 1)) = h.2).
    { unfold substr_from, zdrop. replace (Z.to_nat (zlen h.1 + 1)) with (length h.1 + 1)%nat by lia.
      rewrite drop_app_add. cbn [drop].
      unfold trim_ws, trim_by. cbn [drop_while]. exact (trim_by_id ws_space h.2 Ht). }
    rewrite E3, E4. apply IH; [done|cbn in Hf; lia].
Qed.

Lemma header_lines_length hs : Forall (fun h => chr ":" ∉ h.1 /\ 13 ∉ header_line h /\ trimmed ws_space h.2) hs ->
  forall body, (length hs < length (concat (map (fun h : bytes * bytes => header_line h ++ crlf) hs) ++ crlf ++ body))%nat.
Proof.
  induction 1 as [|h hs _ _ IH]; intros body; cbn [map concat]; [cbn; lia|].
  specialize (IH body). rewrite !length_app in *. cbn [length crlf] in *. lia.
Qed.

Lemma parse_render req body : request_ok req ->
  parse_http_request (render_request req ++ body)
  = Ret (Some (MkRequest (method req) (path req) (version req) (stored_headers (headers req)))).
Proof.
  intros (Hm & Hp & H1 & H2). unfold render_request.
  set (t := concat (map (fun h => header_line h ++ crlf) (headers req)) ++ crlf ++ body).
  replace ((request_line req ++ crlf ++ concat (map (fun h => header_line h ++ crlf) (headers req)) ++ crlf) ++ body)
    with (request_line req ++ crlf ++ t) by (unfold t; by rewrite <- !app_assoc).
  unfold parse_http_request. rewrite find_crlf_line by done.
  assert (E1 : substr (request_line req ++ crlf ++ t) 0 (zlen (request_line req)) = request_line req).
  { unfold substr. destruct (Z.ltb_spec (zlen (request_line req)) 0); [lia|].
    unfold ztake, zdrop. by rewrite drop_0, Nat2Z.id, take_app_length. }
  assert (E2 : substr_from (request_line req ++ crlf ++ t) (zlen (request_line req) + 2) = t).
  { unfold substr_from, zdrop. rewrite app_assoc, drop_app_length'; [done|]. rewrite length_app. cbn. lia. }
  rewrite E1, E2. clear E1 E2. unfold request_line. change (str " ") with [chr " "]. cbn [app].
  rewrite find_char_app_r by done.
  assert (E3 : find_char (chr " ") (method req ++ chr " " :: path req ++ chr " " :: version req) (zlen (method req) + 1)
    = Some (zlen (method req) + 1 + zlen (path req))).
  { unfold find_char. unfold zdrop. replace (Z.to_nat (zlen (method req) + 1)) with (length (method req) + 1)%nat by lia.
    rewrite drop_app_add. cbn [drop]. rewrite drop_0, <- find_char_0, find_char_app_r by done. done. }
  rewrite E3. unfold t. rewrite header_lines_render; [|done|by apply header_lines_length].
  cbn [mbind outcome_bind]. do 2 f_equal. f_equal.
  - unfold substr. destruct (Z.ltb_spec (zlen (method req)) 0); [lia|]. unfold ztake, zdrop. by rewrite drop_0, Nat2Z.id, take_app_length.
  - unfold substr. destruct (Z.ltb_spec (zlen (method req) + 1 + zlen (path req) - zlen (method req) - 1) 0); [lia|].
    unfold ztake, zdrop. replace (Z.to_nat (zlen (method req) + 1)) with (length (method req) + 1)%nat by lia.
    rewrite drop_app_add. cbn [drop]. rewrite drop_0, take_app_length'; [done|lia].
  - unfold substr_from, zdrop.
    replace (Z.to_nat (zlen (method req) + 1 + zlen (path req) + 1)) with (length (method req) + (1 + (length (path req) + 1)))%nat by lia.
    rewrite drop_app_add. cbn [Nat.add drop]. rewrite drop_app_add. cbn [drop]. by rewrite ?drop_0.
Qed.

(** ** Reading a request from a socket *)

Lemma find_str_spec pat s i : find_str pat s = Some i -> exists n, i = Z.of_nat n /\ starts_with pat (drop n s) = true /\
  (n <= length s)%nat /\ forall k, (k < n)%nat -> starts_with pat (drop k s) = false.
Proof.
  revert i. induction s as [|c s IH]; intros i; cbn [find_str].
  - destruct (starts_with pat []) eqn:E; [|done]. intros [= <-]. exists 0%nat. split_and!; [done|done|cbn; lia|lia].
  - destruct (starts_with pat (c :: s)) eqn:E.
    + intros [= <-]. exists 0%nat. split_and!; [done|done|cbn; lia|lia].
    + intros (j & Hj & ->)%fmap_Some_1. destruct (IH j Hj) as (n & -> & H1 & H2 & H3). exists (S n).
      split_and!; [lia|done|cbn; lia|]. intros [|k] Hk; [done|]. cbn [drop]. apply H3. lia.
Qed.

(** A prefix shorter than the first occurrence holds none. *)
Lemma find_str_take pat s n : find_str pat s = Some (zlen s - zlen pat) -> (n < length s)%nat ->
  find_str pat (take n s) = None.
Proof.
  intros H Hn. destruct (find_str pat (take n s)) as [i|] eqn:E; [|done]. exfalso.
  apply find_str_spec in H as (m & Hm & _ & _ & H). apply find_str_spec in E as (k & -> & E & Hk & _).
  rewrite length_take in Hk. apply starts_with_spec in E as [r E].
  assert (Hl : (k + length pat <= n)%nat).
  { apply (f_equal length) in E. rewrite length_drop, length_take, length_app in E. lia. }
  specialize (H k ltac:(lia)). enough (starts_with pat (drop k s) = true) by congruence.
  apply starts_with_spec. exists (r ++ drop n s). rewrite app_assoc, <- E.
  rewrite <- (take_drop n s) at 1. rewrite drop_app_le; [done|]. rewrite length_take. lia.
Qed.

Lemma recv_one s c s' : recv 1 s = Some (c, s') -> exists b, c = [b].
Proof.
  unfold recv. destruct (incoming s) as [|[|b c0] rest]; [done|done|].
  destruct (Nat.leb_spec (length (b :: c0)) 1); intros [= <- <-]; [|by exists b].
  destruct c0; [by exists b|cbn in *; lia].
Qed.

Lemma read_raw_exact R rest fuel : forall k s,
  find_str (crlf ++ crlf) R = Some (zlen R - 4) -> zlen R <= 65536 -> live s -> (k <= length R)%nat ->
  concat (incoming s) = drop k R ++ rest -> (length R - k <= fuel)%nat ->
  exists s', read_raw fuel (take k R) s = Ret (inr R, s') /\ concat (incoming s') = rest /\ live s' /\ sent s' = sent s.
Proof.
  induction fuel as [|fuel IH]; intros k s HR Hlen Hs Hk Hst Hf; cbn [read_raw].
  - assert (k = length R) as -> by lia. rewrite firstn_all, HR. rewrite drop_all in Hst. eauto.
  - destruct (decide (k = length R)) as [->|Hne].
    { rewrite firstn_all, HR. rewrite drop_all in Hst. eauto. }
    rewrite find_str_take by (done || lia).
    assert (HT : zlen (take k R) < 65536) by (rewrite length_take; lia).
    destruct (Z.leb_spec 65536 (zlen (take k R))); [lia|].
    destruct (recv_some 1 s Hs) as (c & s' & E).
    { intros E. rewrite Hst in E. apply (f_equal length) in E. rewrite length_app, length_drop in E. cbn in E. lia. }
    rewrite E. destruct (recv_one _ _ _ E) as [b ->]. pose proof (recv_live _ _ _ _ E ltac:(lia) Hs) as Hs'.
    apply recv_stream in E as (E1 & E2 & E3).
    rewrite E1 in Hst. destruct (drop k R) as [|b' R'] eqn:ED.
    { apply (f_equal length) in ED. rewrite length_drop in ED. cbn in ED. lia. }
    injection Hst as <- Hst. assert (HL : R !! k = Some b) by (rewrite <- (Nat.add_0_r k), <- lookup_drop, ED; done).
    assert (ED' : R' = drop (S k) R) by (apply (drop_S R b k) in HL; congruence).
    rewrite <- (take_S_r R k b HL), <- E2. apply IH; try done; [lia|by rewrite <- ED'|lia].
Qed.

(** * Properties *)

(** A frame that [encode_frame] writes is read back by
    [decode_frame_from_buffer] as the same final frame, masked or not and whatever
    the width of its length field, and what follows it is left in the buffer.  On
    every proper prefix of the frame the decoder waits for more and reports no
    error, so a frame may arrive in any pieces. *)
Lemma frame_roundtrip p op mask mk rm rest :
  0 <= op < 16 -> zlen p <= max_ws_frame_bytes -> (8 <= op -> zlen p <= 125) -> (rm = true -> mask = true) ->
  decode_frame_from_buffer (encode_frame p op mask mk ++ rest) rm = Ret (Got (MkFrame true op p) rest) /\
  forall n, (n < length (encode_frame p op mask mk))%nat ->
    decode_frame_from_buffer (take n (encode_frame p op mask mk)) rm = Ret NeedMore.
Proof.
  intros Hop Hmax Hctl Hrm. rewrite encode_frame_wire.
  assert (Hf : frame_ok (MkFrame true op p)) by (unfold frame_ok; cbn [opcode payload fin]; naive_solver).
  set (W := wire_frame mask (key_bytes mk) (MkFrame true op p)). split.
  - pose proof (decode_take_wire mask (key_bytes mk) _ rest (length (W ++ rest)) rm Hf eq_refl Hrm) as H.
    fold W in H. rewrite firstn_all in H. rewrite H.
    destruct (Nat.ltb_spec (length (W ++ rest)) (length W)); [rewrite length_app in *; lia|].
    rewrite take_ge by (rewrite length_app; lia). done.
  - intros n Hn. pose proof (decode_take_wire mask (key_bytes mk) _ [] n rm Hf eq_refl Hrm) as H.
    fold W in H. rewrite app_nil_r in H. rewrite H. by destruct (Nat.ltb_spec n (length W)); [|lia].
Qed.

Lemma frame_roundtrip_witness : let p := str "{}" in
  decode_frame_from_buffer (encode_frame p 1 true 0xdeadbeef ++ [7]) true = Ret (Got (MkFrame true 1 p) [7]) /\
  decode_frame_from_buffer (take 5 (encode_frame p 1 true 0xdeadbeef)) true = Ret NeedMore.
Proof.
  destruct (frame_roundtrip (str "{}") 1 true 0xdeadbeef true [7]) as [H1 H2];
    [lia|vm_compute; congruence|vm_compute; congruence|done|].
  split; [exact H1|apply H2; vm_compute; lia].
Defined.

(** C10. Whatever the chunks the bytes arrive in, [read_text] reassembles a text
    message: the frames of a message (a text frame, or a first fragment and its
    continuations, with pings and pongs between them) give exactly the
    concatenation of the fragments, every ping met is answered by a pong with the
    same payload, in order, the bytes after the message stay in the buffer, and the
    reader is ready for the next message. *)
Theorem reader_reassembles mask kfs m tail r s :
  text_message (map snd kfs) m -> sendable kfs -> (require_mask r = true -> mask = true) -> live s ->
  fragmented_opcode r = 0 -> stream r s = wires mask kfs ++ tail ->
  exists r' s', read_text r s = Ret (Message m, r', s') /\ stream r' s' = tail /\ live s' /\
    sent s' = sent s ++ pongs (map snd kfs) /\ require_mask r' = require_mask r /\ fragmented_opcode r' = 0.
Proof.
  intros Hm Hs Hmask Hl Hop Hst.
  apply (text_message_delivers mask kfs m Hm Hs (read_fuel r s) r s tail); try done. unfold read_fuel, cost. lia.
Qed.

Definition demo_frames : list (bytes * frame) :=
  [([1; 2; 3; 4], MkFrame false 1 (str "he")); ([1; 2; 3; 4], MkFrame true 9 [5]); ([1; 2; 3; 4], MkFrame true 0 (str "llo"))].
Definition demo_bytes : bytes := wires true demo_frames ++ [9].

Lemma reader_reassembles_witness : exists r' s',
  read_text (MkReader true (take 3 demo_bytes) [] 0) (MkSocket [take 6 (drop 3 demo_bytes); drop 9 demo_bytes] [] true)
    = Ret (Message (str "hello"), r', s') /\ stream r' s' = [9] /\ sent s' = [0x8A; 1; 5].
Proof.
  destruct (reader_reassembles true demo_frames (str "hello") [9] (MkReader true (take 3 demo_bytes) [] 0)
    (MkSocket [take 6 (drop 3 demo_bytes); drop 9 demo_bytes] [] true)) as (r' & s' & H1 & H2 & _ & H3 & _).
  - change (str "hello") with (str "he" ++ str "llo"). repeat constructor.
  - repeat (constructor; [split; [done|]; split_and!; cbn; unfold max_ws_frame_bytes; try lia; intros; split; (done || lia)|]).
    constructor.
  - done.
  - split; [|done]. repeat constructor; vm_compute; congruence.
  - done.
  - reflexivity.
  - exists r', s'. split_and!; [exact H1|exact H2|]. rewrite H3. reflexivity.
Defined.

(** On any bytes the decoder reads only inside the buffer, and a frame it
    accepts keeps the limits of the protocol: at most 16 MiB of payload, control
    frames final and at most 125 bytes, a mask when one is required; the frame is a
    prefix of the buffer that is removed. *)
Lemma decode_sound data rm : is_bytes data -> exists d, decode_frame_from_buffer data rm = Ret d /\
  match d with
  | Got f rest => 0 <= opcode f < 16 /\ zlen (payload f) <= max_ws_frame_bytes /\
      (8 <= opcode f -> fin f = true /\ zlen (payload f) <= 125) /\
      exists used, data = used ++ rest /\ 2 + (if rm : bool then 4 else 0) + zlen (payload f) <= zlen used
  | _ => True
  end.
Proof.
  intros H. destruct (decode_total data rm H) as (d & E & Hd). exists d. split; [done|].
  destruct d; [done|done|]. destruct Hd as [(H1 & H2 & H3) Hu]. done.
Qed.

Lemma decode_sound_witness : exists d, decode_frame_from_buffer [0x81; 0x80; 1; 2; 3; 4; 99] true = Ret d /\
  d = Got (MkFrame true 1 []) [99].
Proof.
  destruct (decode_sound [0x81; 0x80; 1; 2; 3; 4; 99] true) as (d & E & _); [repeat constructor; unfold is_byte; lia|].
  exists d. split; [exact E|]. assert (E' : decode_frame_from_buffer [0x81; 0x80; 1; 2; 3; 4; 99] true = Ret (Got (MkFrame true 1 []) [99])) by reflexivity.
  congruence.
Defined.

(** [read_text] returns on every socket: whatever bytes the peer sends, in
    whatever chunks, the loop ends with a message, an error or the end of the
    connection, without reading outside its buffer. *)
Lemma read_text_total r s : is_bytes (buffer r ++ concat (incoming s)) ->
  exists result r' s', read_text r s = Ret (result, r', s').
Proof. intros H. apply read_loop_total; [done|]. unfold read_fuel, cost. lia. Qed.

Lemma read_text_total_witness : exists result r' s',
  read_text (MkReader true [] [] 0) (MkSocket [[0x80; 0x80; 0; 0; 0; 0]] [] true) = Ret (result, r', s').
Proof. apply read_text_total. repeat constructor; unfold is_byte; lia. Defined.

(** A request of at most 65536 bytes is read from the socket byte by byte up to
    the end of its blank line, whatever the chunks, and not one byte further: the
    first frames a client sends right after its request are still on the socket.
    Parsing gives back its method, path, version and headers, names in lower case
    and the last of equal names kept. *)
Lemma read_http_request_exact req rest s :
  request_ok req -> zlen (render_request req) <= 65536 -> live s ->
  concat (incoming s) = render_request req ++ rest ->
  exists s', read_http_request s
    = Ret (inr (MkRequest (method req) (path req) (version req) (stored_headers (headers req))), s') /\
    concat (incoming s') = rest /\ sent s' = sent s.
Proof.
  intros Hok Hlen Hl Hst.
  destruct (read_raw_exact (render_request req) rest (Z.to_nat 65537) 0 s) as (s' & E & E1 & _ & E2);
    [by apply find_blank_render|done|done|lia|done|lia|].
  exists s'. split; [|done]. unfold read_http_request. rewrite take_0 in E. rewrite E. cbn [mbind outcome_bind].
  pose proof (parse_render req [] Hok) as P. rewrite app_nil_r in P. rewrite P. done.
Qed.

Lemma read_http_request_exact_witness :
  let req := MkRequest (str "GET") (str "/") (str "HTTP/1.1") [(str "Host", str "x")] in
  exists s', read_http_request (MkSocket [render_request req; [1; 2]] [] true)
    = Ret (inr (MkRequest (str "GET") (str "/") (str "HTTP/1.1") [(str "host", str "x")]), s') /\
    concat (incoming s') = [1; 2].
Proof.
  cbn zeta. destruct (read_http_request_exact (MkRequest (str "GET") (str "/") (str "HTTP/1.1") [(str "Host", str "x")]) [1; 2]
    (MkSocket [render_request (MkRequest (str "GET") (str "/") (str "HTTP/1.1") [(str "Host", str "x")]); [1; 2]] [] true))
    as (s' & E & H & _).
  - split_and!; [apply (bool_decide_unpack _); vm_compute; exact I|apply (bool_decide_unpack _); vm_compute; exact I|apply (bool_decide_unpack _); vm_compute; exact I|].
    constructor; [|constructor]. split_and!; [apply (bool_decide_unpack _); vm_compute; exact I|apply (bool_decide_unpack _); vm_compute; exact I|split; reflexivity].
  - vm_compute. congruence.
  - split; [|done]. repeat constructor; vm_compute; congruence.
  - reflexivity.
  - exists s'. split; [exact E|exact H].
Defined.

(** The opening handshake writes to the socket only when every check holds (GET,
    the upgrade headers, version 13, a key that Base64 decodes to 16 bytes), and then
    exactly the 101 response whose accept value is the Base64 of the SHA-1 of the key
    and the protocol's constant; every refusal has an error and leaves the socket as it
    was. *)
Lemma handshake_spec (base642bin : Z -> bytes -> option bytes) (bin2base64 sha1 : bytes -> bytes) s req error s' :
  handshake base642bin bin2base64 sha1 s req = (error, s') ->
  match error with
  | Some _ => s' = s
  | None =>
      method req = str "GET" /\ lower (header req (str "upgrade")) = str "websocket" /\
      find_str (str "upgrade") (lower (header req (str "connection"))) <> None /\
      header req (str "sec-websocket-version") = str "13" /\
      (let key := header req (str "sec-websocket-key") in
       (exists nonce, base642bin 16 key = Some nonce /\ zlen nonce = 16) /\
       s' = MkSocket (incoming s) (sent s ++ handshake_response base642bin bin2base64 sha1 req) true /\
       handshake_response base642bin bin2base64 sha1 req = switching_response (bin2base64 (sha1 (key ++ kMagic))))
  end.
Proof.
  unfold handshake, handshake_response. destruct (bool_decide (method req = _)) eqn:E1; [|by intros [= <- <-]].
  apply bool_decide_eq_true in E1. cbn [negb].
  destruct (bool_decide (lower (header req (str "upgrade")) = _)) eqn:E2; [|by intros [= <- <-]].
  apply bool_decide_eq_true in E2. destruct (find_str (str "upgrade") _) eqn:E3; [|by intros [= <- <-]]. cbn [negb orb].
  destruct (bool_decide (header req (str "sec-websocket-version") = _)) eqn:E4; [|by intros [= <- <-]].
  apply bool_decide_eq_true in E4. cbn [negb]. unfold websocket_accept.
  destruct (header req (str "sec-websocket-key")) as [|c k] eqn:Ek; [by intros [= <- <-]|]. set (key := c :: k).
  destruct (negb (zlen key mod 4 =? 0)); [by intros [= <- <-]|].
  destruct (base642bin 16 key) as [nonce|] eqn:E5; [|by intros [= <- <-]].
  destruct (Z.eqb_spec (zlen nonce) 16) as [E6|]; [|by intros [= <- <-]]. cbn [negb].
  unfold send_all. destruct (writable s); intros [= <- <-]; [|done].
  split_and!; try done. by exists nonce.
Qed.

Lemma handshake_spec_witness :
  let req := MkRequest (str "GET") (str "/") (str "HTTP/1.1")
    [(str "connection", str "Upgrade"); (str "sec-websocket-key", str "abcd"); (str "sec-websocket-version", str "13"); (str "upgrade", str "websocket")] in
  let out := handshake (fun _ _ => Some (replicate 16 0)) (fun b => b) (fun _ => str "digest") (MkSocket [] [] true) req in
  out.1 = None /\ sent out.2 = switching_response (str "digest").
Proof.
  cbn zeta. set (req := MkRequest _ _ _ _).
  destruct (handshake (fun _ _ => Some (replicate 16 0)) (fun b => b) (fun _ => str "digest") (MkSocket [] [] true) req) as [error s'] eqn:E.
  pose proof (handshake_spec _ _ _ _ _ _ _ E) as H.
  assert (Hn : error = None) by (vm_compute in E; congruence). subst error. split; [reflexivity|].
  destruct H as (_ & _ & _ & _ & _ & -> & Hr). cbn [sent snd]. rewrite Hr. reflexivity.
Defined.

(** * What modelling showed *)

(** A final text frame in the middle of a fragmented message is delivered as a message
    of its own, where the protocol (and the check for the first fragment) makes it an
    error; the fragments received stay for the next continuation. *)
Lemma interleaved_text_accepted p q s :
  on_frame (MkFrame true 1 q) [] (MkReader true [] p 1) s = (Some (Message q), MkReader true [] p 1, s).
Proof. reflexivity. Qed.

(** Continuation frames are each limited, their sum is not. *)
Lemma fragmented_total_unbounded n p s : forall r, fragmented_opcode r = 1 ->
  exists r', Nat.iter n (fun '(_, r, s) => on_frame (MkFrame false 0 p) [] r s) (None, r, s) = (None, r', s) /\
    fragmented_opcode r' = 1 /\ zlen (fragmented r') = zlen (fragmented r) + Z.of_nat n * zlen p.
Proof.
  intros r Hr. induction n as [|n (r' & E & H1 & H2)]; [exists r; split_and!; [done|done|lia]|].
  cbn [Nat.iter nat_rect]. unfold Nat.iter in E. rewrite E. unfold on_frame. cbn [opcode fin payload Z.eqb]. rewrite H1. cbn [Z.eqb].
  eexists. split; [done|]. cbn [fragmented_opcode fragmented]. split; [done|]. rewrite length_app. lia.
Qed.
