(* ===== verification/WsClient.v ===== *)
(** The WebSocket client ([src/net/websocket_client.cpp]): URL and header parsing, the
    client's handshake, masked and fragmented sending, the reader that reassembles
    messages, the writer with its queue and its keep-alive, and the calls the
    bindings make.

    The transport is a socket of [CdpWs]; connecting, zlib's streams and the random
    device are parameters.  The two threads and the callers are interleaved by the
    step relation at the end, a step being one frame, one queued message or one call. *)

From S2P Require Import Prelude Strings CdpWs.

(** * Base64, URLs and headers *)

Definition b64_tab : bytes := str "ABCDEFGHIJKLMNOPQRSTUVWXYZabcdefghijklmnopqrstuvwxyz0123456789+/".
Definition b64_char (v shift : Z) : Z := nth (Z.to_nat (Z.land (Z.shiftr v shift) 0x3f)) b64_tab 0.

(** Three bytes a round; the missing ones of the last round are zero and padded. *)
Fixpoint b64_encode (data : bytes) : bytes :=
  match data with
  | [] => []
  | [a] => let v := Z.shiftl a 16 in [b64_char v 18; b64_char v 12; chr "="; chr "="]
  | [a; b] =>
      let v := Z.lor (Z.shiftl a 16) (Z.shiftl b 8) in [b64_char v 18; b64_char v 12; b64_char v 6; chr "="]
  | a :: b :: c :: rest =>
      let v := Z.lor (Z.lor (Z.shiftl a 16) (Z.shiftl b 8)) c in
      [b64_char v 18; b64_char v 12; b64_char v 6; b64_char v 0] ++ b64_encode rest
  end.

(** Host, port, path and whether the scheme is [wss]. *)
Definition parse_ws_url (url : bytes) : option (bytes * bytes * bytes * bool) :=
  let ws := str "ws://" in
  let wss := str "wss://" in
  let go (secure : bool) (off : Z) :=
    let slash := find_char (chr "/") url off in
    let authority := match slash with None => substr_from url off | Some i => substr url off (i - off) end in
    let path := match slash with None => str "/" | Some i => substr_from url i end in
    let '(host, port) :=
      match find_char (chr ":") authority 0 with
      | None => (authority, if secure then str "443" else str "80")
      | Some colon => (substr authority 0 colon, substr_from authority (colon + 1))
      end in
    if bool_decide (host = []) then None else Some (host, port, path, secure) in
  if starts_with ws url then go false (zlen ws)
  else if starts_with wss url then go true (zlen wss)
  else None.

Fixpoint port_loop (value : Z) (port : bytes) : option Z :=
  match port with
  | [] => Some value
  | c :: port' =>
      if negb (is_digit c) then None
      else let value := value * 10 + (c - chr "0") in
           if 65535 <? value then None else port_loop value port'
  end.

Definition parse_u16_port (port : bytes) : option Z :=
  if bool_decide (port = []) then None
  else match port_loop 0 port with
       | None => None
       | Some value => if value =? 0 then None else Some (u16 value)
       end.

(** [v.substr(start, i - start)] is kept as the bytes since the last separator. *)
Fixpoint split_loop (sep : Z) (quoted : bool) (cur v : bytes) : list bytes :=
  match v with
  | [] => [trim cur]
  | c :: v' =>
      if c =? 34 then split_loop sep (negb quoted) (cur ++ [c]) v'
      else if negb quoted && (c =? sep) then trim cur :: split_loop sep quoted [] v'
      else split_loop sep quoted (cur ++ [c]) v'
  end.
Definition split_http_list (v : bytes) (sep : Z) : list bytes := split_loop sep false [] v.

(** [rest] is [headers] from [line] on. *)
Fixpoint header_values_loop (fuel : nat) (rest name_lower : bytes) : outcome (list bytes) :=
  match rest with
  | [] => Ret []
  | _ =>
      match fuel with
      | O => OutOfFuel
      | S fuel' =>
          match find_str crlf rest with
          | None => Ret []
          | Some eol =>
              l ← header_values_loop fuel' (substr_from rest (eol + 2)) name_lower;
              Ret (match find_char (chr ":") rest 0 with
                   | None => l
                   | Some colon =>
                       if (colon <? eol) && bool_decide (ascii_lower (substr rest 0 colon) = name_lower)
                       then trim (substr rest (colon + 1) (eol - colon - 1)) :: l else l
                   end)
          end
      end
  end.
Definition header_values (headers name_lower : bytes) : outcome (list bytes) :=
  header_values_loop (length headers) headers name_lower.

(** [strtol(v.c_str(), &end, 10)]: the number and whether [end] is at the end. *)
Definition c_space (c : Z) : bool := (c =? 32) || ((9 <=? c) && (c <=? 13)).
Definition strtol (v : bytes) : Z * bool :=
  let s := take_while (fun c => negb (c =? 0)) v in
  let t := drop_while c_space s in
  let '(neg, t) := match t with
                   | c :: t' => if c =? chr "-" then (true, t') else if c =? chr "+" then (false, t') else (false, t)
                   | [] => (false, t)
                   end in
  let ds := take_while is_digit t in
  match ds with
  | [] => (0, bool_decide (s = []))
  | _ => ((if neg then - digits_value ds else digits_value ds), bool_decide (drop (length ds) t = []))
  end.

Definition parse_window_bits (value : bytes) : option Z :=
  let v := trim value in
  if bool_decide (v = []) then Some 15
  else let '(parsed, at_end) := strtol v in
       if negb at_end || (parsed <? 8) || (15 <? parsed) then None else Some parsed.

(** * Data *)

Inductive ws_event_kind : Type := ev_open | message_text | message_binary | error_ | ev_close.
Record ws_event : Type := MkEvent {
  kind : ws_event_kind; ev_text : bytes; ev_binary : bytes; ev_code : Z; ev_reason : bytes; was_clean : bool }.

Inductive ws_ready_state : Type := connecting | open_ | closing | closed.
#[export] Instance ws_event_kind_eq_dec : EqDecision ws_event_kind.
Proof. solve_decision. Defined.
#[export] Instance ws_ready_state_eq_dec : EqDecision ws_ready_state.
Proof. solve_decision. Defined.

Record ws_client_options : Type := MkOptions {
  max_message_bytes : Z; idle_timeout_ms : Z; pong_timeout_ms : Z; max_fragment_bytes : Z; compress : bool }.

Inductive out_op : Type := op_text | op_binary | op_close.
Record out_msg : Type := MkOut { op : out_op; out_bytes : bytes; out_code : Z; out_max_fragment : Z }.

(** What a call of zlib returns. *)
Inductive zresult : Type := Z_OK | Z_STREAM_END | Z_FAIL.

Section Client.
(** Streams of zlib: initialisation for a window size, one call that is given 8192
    bytes of room (its result, its output, the input left, the stream after it),
    reset, and a bound on the calls for an input. *)
Context {zstate : Type} (inflate_init deflate_init : Z -> option zstate)
        (inflate_call deflate_call : zstate -> bytes -> zresult * bytes * bytes * zstate)
        (zreset : zstate -> option zstate) (zbound : zstate -> bytes -> nat).
(** The random device, by the number of the draw; vectors' largest size. *)
Context (random : nat -> Z) (max_alloc : Z).
(** Connecting to a host and port in clear or over TLS; whether the build has TLS and zlib. *)
Context (tcp_connect : bytes -> bytes -> option socket) (tls_connect : bytes -> Z -> bytes + socket) (native_deps : bool).
(** [options_], [url_] and [protocols_], which do not change once connected. *)
Context (options : ws_client_options) (url : bytes) (protocols : list bytes).

Record ws_deflate_state : Type := MkDeflate {
  inflater : zstate; deflater : zstate; client_no_context_takeover : bool; server_no_context_takeover : bool;
  client_max_window_bits : Z; server_max_window_bits : Z }.

(** What the handshake settles. *)
Record session : Type := MkSession {
  selected_protocol : bytes; handshake_error : bytes; negotiated_extensions : bytes; deflate : option ws_deflate_state }.

Record keep_alive : Type := MkAlive { last_frame_ms : Z; awaiting_pong : bool; ping_sent_ms : Z }.

Record client : Type := MkClient {
  sess : session; state : ws_ready_state; buffered : Z; stop : bool; alive : keep_alive; sock : option socket;
  out_q : list out_msg; close_info : Z * bytes; in_q : list ws_event; draws : nat }.

Definition new_client : client :=
  MkClient (MkSession [] [] [] None) connecting 0 false (MkAlive 0 false 0) None [] (0, []) [] 0.

(** Assignments to single members. *)
Definition set_sess x (c : client) := MkClient x (state c) (buffered c) (stop c) (alive c) (sock c) (out_q c) (close_info c) (in_q c) (draws c).
Definition set_state x (c : client) := MkClient (sess c) x (buffered c) (stop c) (alive c) (sock c) (out_q c) (close_info c) (in_q c) (draws c).
Definition set_buffered x (c : client) := MkClient (sess c) (state c) x (stop c) (alive c) (sock c) (out_q c) (close_info c) (in_q c) (draws c).
Definition set_stop (c : client) := MkClient (sess c) (state c) (buffered c) true (alive c) (sock c) (out_q c) (close_info c) (in_q c) (draws c).
Definition set_alive x (c : client) := MkClient (sess c) (state c) (buffered c) (stop c) x (sock c) (out_q c) (close_info c) (in_q c) (draws c).
Definition set_sock x (c : client) := MkClient (sess c) (state c) (buffered c) (stop c) (alive c) x (out_q c) (close_info c) (in_q c) (draws c).
Definition set_out_q x (c : client) := MkClient (sess c) (state c) (buffered c) (stop c) (alive c) (sock c) x (close_info c) (in_q c) (draws c).
Definition record_close code reason (c : client) := MkClient (sess c) (state c) (buffered c) (stop c) (alive c) (sock c) (out_q c) (code, reason) (in_q c) (draws c).
Definition set_in_q x (c : client) := MkClient (sess c) (state c) (buffered c) (stop c) (alive c) (sock c) (out_q c) (close_info c) x (draws c).
Definition set_draws x (c : client) := MkClient (sess c) (state c) (buffered c) (stop c) (alive c) (sock c) (out_q c) (close_info c) (in_q c) x.

Definition push_event (ev : ws_event) (c : client) : client := set_in_q (in_q c ++ [ev]) c.
Definition drain_events (c : client) : list ws_event * client := (in_q c, set_in_q [] c).
Definition close_socket_now (c : client) : client := set_sock None c.

Definition close_event (code : Z) (reason : bytes) (clean : bool) : ws_event := MkEvent ev_close [] [] code reason clean.
Definition error_event (text : bytes) : ws_event := MkEvent error_ text [] 0 text false.

(** * The transport *)

Definition transport_send_all (data : bytes) (c : client) : bool * client :=
  match sock c with
  | None => (false, c)
  | Some s => let '(ok, s') := send_all data s in (ok, set_sock (Some s') c)
  end.

(** [recv_n]: each successful [recv] returns at least one byte. *)
Fixpoint recv_n (fuel : nat) (n : nat) (s : socket) : outcome (option bytes * socket) :=
  match n with
  | O => Ret (Some [], s)
  | _ =>
      match fuel with
      | O => OutOfFuel
      | S fuel' =>
          match recv n s with
          | None => Ret (None, s)
          | Some (got, s') =>
              r ← recv_n fuel' (n - length got) s';
              Ret (option_map (app got) r.1, r.2)
          end
      end
  end.

Definition transport_recv_n (n : nat) (c : client) : outcome (option bytes * client) :=
  match sock c with
  | None => Ret (None, c)
  | Some s => r ← recv_n n n s; Ret (r.1, set_sock (Some r.2) c)
  end.

Fixpoint recv_headers_loop (fuel : nat) (out : bytes) (c : client) : outcome (option bytes * client) :=
  if 16 * 1024 <=? zlen out then Ret (None, c)
  else
    match fuel with
    | O => OutOfFuel
    | S fuel' =>
        '(r, c) ← transport_recv_n 1 c;
        match r with
        | None => Ret (None, c)
        | Some b =>
            let out := out ++ b in
            if ends_with (crlf ++ crlf) out then Ret (Some out, c) else recv_headers_loop fuel' out c
        end
    end.
Definition transport_recv_http_headers (c : client) : outcome (option bytes * client) :=
  recv_headers_loop (Z.to_nat (16 * 1024)) [] c.

(** * Sending *)

(** The payload in chunks of 4096 bytes, masked from offset [off] on. *)
Fixpoint send_chunks (fuel : nat) (mask data : bytes) (off : nat) (c : client) : outcome (bool * client) :=
  match data with
  | [] => Ret (true, c)
  | _ =>
      match fuel with
      | O => OutOfFuel
      | S fuel' =>
          let '(ok, c) := transport_send_all (apply_key mask off (take 4096 data)) c in
          if negb ok then Ret (false, c) else send_chunks fuel' mask (drop 4096 data) (off + 4096) c
      end
  end.

Definition frame_head (opcode : Z) (n : Z) (fin rsv1 : bool) : bytes :=
  [u8 (Z.lor (Z.lor (if fin then 0x80 else 0) (if rsv1 then 0x40 else 0)) (Z.land opcode 0x0f))] ++
  (if n <? 126 then [u8 (Z.lor 0x80 n)]
   else if n <=? 0xffff then
     [u8 (Z.lor 0x80 126); u8 (Z.land (Z.shiftr n 8) 0xff); u8 (Z.land n 0xff)]
   else u8 (Z.lor 0x80 127) :: be_bytes 8 n).

Definition draw_mask (c : client) : bytes * client :=
  (map (fun i => u8 (random (draws c + i))) (seq 0 4), set_draws (draws c + 4) c).

Definition send_frame (opcode : Z) (data : bytes) (fin rsv1 : bool) (c : client) : outcome (bool * client) :=
  let '(mask, c) := draw_mask c in
  let '(ok, c) := transport_send_all (frame_head opcode (zlen data) fin rsv1 ++ mask) c in
  if negb ok then Ret (false, c) else send_chunks (length data) mask data 0 c.

Definition send_close_frame (code : Z) (reason : bytes) (c : client) : outcome client :=
  r ← send_frame 8 ([u8 (Z.land (Z.shiftr code 8) 0xff); u8 (Z.land code 0xff)] ++ reason) true false c; Ret r.2.

Fixpoint fragments (fuel : nat) (opcode : Z) (data : bytes) (limit : nat) (first compressed : bool) (c : client) :
    outcome (bool * client) :=
  match data with
  | [] => Ret (true, c)
  | _ =>
      match fuel with
      | O => OutOfFuel
      | S fuel' =>
          let fin := (length data <=? limit)%nat in
          '(ok, c) ← send_frame (if first then opcode else 0) (take limit data) fin (first && compressed) c;
          if negb ok then Ret (false, c) else fragments fuel' opcode (drop limit data) limit false compressed c
      end
  end.

Definition send_message (opcode : Z) (data : bytes) (max_fragment : Z) (compressed : bool) (c : client) :
    outcome (bool * client) :=
  let limit := if max_fragment =? 0 then max_fragment_bytes options else max_fragment in
  if (limit =? 0) || (zlen data <=? limit) then send_frame opcode data true compressed c
  else fragments (length data) opcode data (Z.to_nat limit) true compressed c.

(** [emit_local_close] *)
Definition emit_local_close (code : Z) (reason : bytes) (c : client) : client :=
  close_socket_now (set_stop (set_state closed (push_event (close_event code reason false) c))).

(** * permessage-deflate *)

(** [do ... while (avail_in != 0 || avail_out == 0)] *)
Fixpoint deflate_loop (fuel : nat) (z : zstate) (input out : bytes) : outcome (option bytes * zstate) :=
  match fuel with
  | O => OutOfFuel
  | S fuel' =>
      let '(ret, produced, rest, z) := deflate_call z input in
      match ret with
      | Z_OK =>
          let out := out ++ produced in
          if negb (bool_decide (rest = [])) || (zlen produced =? 8192) then deflate_loop fuel' z rest out
          else Ret (Some out, z)
      | _ => Ret (None, z)
      end
  end.

Definition with_deflater (z : zstate) (d : ws_deflate_state) : ws_deflate_state :=
  MkDeflate (inflater d) z (client_no_context_takeover d) (server_no_context_takeover d) (client_max_window_bits d) (server_max_window_bits d).
Definition with_inflater (z : zstate) (d : ws_deflate_state) : ws_deflate_state :=
  MkDeflate z (deflater d) (client_no_context_takeover d) (server_no_context_takeover d) (client_max_window_bits d) (server_max_window_bits d).
Definition set_deflate (d : ws_deflate_state) (c : client) : client :=
  set_sess (MkSession (selected_protocol (sess c)) (handshake_error (sess c)) (negotiated_extensions (sess c)) (Some d)) c.

Definition sync_tail : bytes := [0x00; 0x00; 0xff; 0xff].

(** [static_cast<uInt>(n)]: what [avail_in] says of the input. *)
Definition avail (data : bytes) : bytes := take (Z.to_nat (u32 (zlen data))) data.

Definition deflate_message (data : bytes) (c : client) : outcome (option bytes * client) :=
  match deflate (sess c) with
  | None => Ret (None, c)
  | Some d =>
      '(r, z) ← deflate_loop (zbound (deflater d) (avail data)) (deflater d) (avail data) [];
      let c := set_deflate (with_deflater z d) c in
      Ret (match r with
           | None => (None, c)
           | Some out =>
               if negb (ends_with sync_tail out) then (None, c)
               else
                 let out := take (length out - 4) out in
                 if client_no_context_takeover d then
                   match zreset z with
                   | None => (None, c)
                   | Some z => (Some out, set_deflate (with_deflater z d) c)
                   end
                 else (Some out, c)
           end)
  end.

(** [inl too_big] for [return false]. *)
Fixpoint inflate_loop (fuel : nat) (z : zstate) (input out : bytes) : outcome ((bool + bytes) * zstate) :=
  match fuel with
  | O => OutOfFuel
  | S fuel' =>
      let '(ret, produced, rest, z) := inflate_call z input in
      match ret with
      | Z_FAIL => Ret (inl false, z)
      | _ =>
          if (max_message_bytes options <? zlen produced) || (max_message_bytes options - zlen produced <? zlen out)
          then Ret (inl true, z)
          else
            let out := out ++ produced in
            if negb (bool_decide (rest = [])) || (zlen produced =? 8192) then inflate_loop fuel' z rest out
            else Ret (inr out, z)
      end
  end.

Definition inflate_message (data : bytes) (c : client) : outcome ((bool + bytes) * client) :=
  match deflate (sess c) with
  | None => Ret (inl false, c)
  | Some d =>
      let input := avail (data ++ sync_tail) in
      '(r, z) ← inflate_loop (zbound (inflater d) input) (inflater d) input [];
      let c := set_deflate (with_inflater z d) c in
      Ret (match r with
           | inl too_big => (inl too_big, c)
           | inr out =>
               if server_no_context_takeover d then
                 match zreset z with
                 | None => (inl false, c)
                 | Some z => (inr out, set_deflate (with_inflater z d) c)
                 end
               else (inr out, c)
           end)
  end.

(** The parameters of an accepted extension: both flags and both window sizes. *)
Record deflate_params : Type := MkParams { p_client_nct : bool; p_server_nct : bool; p_client_bits : Z; p_server_bits : Z }.

Definition unquote (v : bytes) : bytes :=
  if (2 <=? zlen v) && bool_decide (head v = Some 34) && bool_decide (last v = Some 34) then substr v 1 (zlen v - 2) else v.

Fixpoint deflate_params_loop (parts : list bytes) (p : deflate_params) : bytes + deflate_params :=
  match parts with
  | [] => inr p
  | [] :: parts' => deflate_params_loop parts' p
  | part :: parts' =>
      let eq := find_char (chr "=") part 0 in
      let name := ascii_lower (trim (match eq with None => part | Some e => substr part 0 e end)) in
      let value_part := unquote (match eq with None => [] | Some e => trim (substr_from part (e + 1)) end) in
      if bool_decide (name = str "client_no_context_takeover") then
        if bool_decide (value_part <> []) then inl (str "invalid permessage-deflate client_no_context_takeover")
        else deflate_params_loop parts' (MkParams true (p_server_nct p) (p_client_bits p) (p_server_bits p))
      else if bool_decide (name = str "server_no_context_takeover") then
        if bool_decide (value_part <> []) then inl (str "invalid permessage-deflate server_no_context_takeover")
        else deflate_params_loop parts' (MkParams (p_client_nct p) true (p_client_bits p) (p_server_bits p))
      else if bool_decide (name = str "client_max_window_bits") then
        match parse_window_bits value_part with
        | None => inl (str "invalid permessage-deflate client_max_window_bits")
        | Some b => deflate_params_loop parts' (MkParams (p_client_nct p) (p_server_nct p) b (p_server_bits p))
        end
      else if bool_decide (name = str "server_max_window_bits") then
        match parse_window_bits value_part with
        | None => inl (str "invalid permessage-deflate server_max_window_bits")
        | Some b => deflate_params_loop parts' (MkParams (p_client_nct p) (p_server_nct p) (p_client_bits p) b)
        end
      else inl (str "unsupported permessage-deflate parameter: " ++ name)
  end.

(** The first extension named permessage-deflate decides; [inl] is the error. *)
Fixpoint negotiate_loop (extensions : list bytes) : bytes + option (bytes * ws_deflate_state) :=
  match extensions with
  | [] => inr None
  | extension :: extensions' =>
      match split_http_list extension (chr ";") with
      | name :: parts =>
          if negb (bool_decide (ascii_lower name = str "permessage-deflate")) then negotiate_loop extensions'
          else
            match deflate_params_loop parts (MkParams false false 15 15) with
            | inl error => inl error
            | inr p =>
                match inflate_init (- p_server_bits p) with
                | None => inl (str "permessage-deflate inflate init failed")
                | Some zi =>
                    match deflate_init (- p_client_bits p) with
                    | None => inl (str "permessage-deflate deflate init failed")
                    | Some zd =>
                        inr (Some (extension, MkDeflate zi zd (p_client_nct p) (p_server_nct p) (p_client_bits p) (p_server_bits p)))
                    end
                end
            end
      | [] => negotiate_loop extensions'
      end
  end.

Definition negotiate_permessage_deflate (headers : bytes) (c : client) : outcome (bool * client) :=
  let sp := selected_protocol (sess c) in
  let he := handshake_error (sess c) in
  if negb native_deps then Ret (true, set_sess (MkSession sp he [] None) c)
  else
    values ← header_values headers (str "sec-websocket-extensions");
    Ret (match negotiate_loop (concat (map (fun v => split_http_list v (chr ",")) values)) with
         | inl error => (false, set_sess (MkSession sp error [] None) c)
         | inr None => (true, set_sess (MkSession sp he [] None) c)
         | inr (Some (extension, d)) => (true, set_sess (MkSession sp he extension (Some d)) c)
         end).

(** * The handshake *)

Definition ws_request (host port path key : bytes) (secure : bool) : bytes :=
  str "GET " ++ path ++ str " HTTP/1.1" ++ crlf ++ str "Host: " ++ host ++
  (if bool_decide (port = if secure then str "443" else str "80") then [] else str ":" ++ port) ++ crlf ++
  str "Upgrade: websocket" ++ crlf ++ str "Connection: Upgrade" ++ crlf ++
  str "Sec-WebSocket-Key: " ++ key ++ crlf ++ str "Sec-WebSocket-Version: 13" ++ crlf ++
  (match protocols with
   | [] => []
   | p :: ps => str "Sec-WebSocket-Protocol: " ++ p ++ concat (map (fun p => str ", " ++ p) ps) ++ crlf
   end) ++
  (if native_deps && compress options then
     str "Sec-WebSocket-Extensions: permessage-deflate; client_max_window_bits; " ++ str "server_max_window_bits=15" ++ crlf
   else []) ++
  str "User-Agent: fxe/0" ++ crlf ++ crlf.

(** The value of the protocol header, if the response has one. *)
Definition find_protocol (headers : bytes) : option bytes :=
  match find_str (str "sec-websocket-protocol:") (ascii_lower headers) with
  | None => None
  | Some p =>
      let rest := substr_from headers p in
      match find_str crlf rest, find_char (chr ":") rest 0 with
      | Some eol, Some colon =>
          if colon <? eol
          then Some (drop_while (fun c => (c =? 32) || (c =? 9)) (substr rest (colon + 1) (eol - colon - 1)))
          else None
      | _, _ => None
      end
  end.

Definition set_handshake_error (error : bytes) (c : client) : client :=
  set_sess (MkSession (selected_protocol (sess c)) error (negotiated_extensions (sess c)) (deflate (sess c))) c.
Definition set_protocol (p : bytes) (c : client) : client :=
  set_sess (MkSession p (handshake_error (sess c)) (negotiated_extensions (sess c)) (deflate (sess c))) c.

(** Connecting: the client with its transport, or [return false]. *)
Definition connect_transport (host port : bytes) (secure : bool) (c : client) : bool * client :=
  if secure then
    if native_deps then
      match parse_u16_port port with
      | None => (false, set_handshake_error (str "invalid wss port") c)
      | Some tls_port =>
          match tls_connect host tls_port with
          | inl err => (false, set_handshake_error (if bool_decide (err = []) then str "TLS connection failed" else err) c)
          | inr s => (true, set_sock (Some s) c)
          end
      end
    else (false, set_handshake_error
            (str "wss requires FXE_ENABLE_NATIVE_TLS_HTTP2; rebuild with -DFXE_ENABLE_NATIVE_TLS_HTTP2=ON") c)
  else match tcp_connect host port with
       | None => (false, c)
       | Some s => (true, set_sock (Some s) c)
       end.

Definition read_response (c : client) : outcome (bool * client) :=
  '(r, c) ← transport_recv_http_headers c;
  match r with
  | None => Ret (false, c)
  | Some headers =>
      if negb (starts_with (str "HTTP/1.1 101") headers) && negb (starts_with (str "HTTP/1.0 101") headers) then Ret (false, c)
      else
        let c := match find_protocol headers with Some p => set_protocol p c | None => c end in
        if compress options then negotiate_permessage_deflate headers c else Ret (true, c)
  end.

Definition draw_nonce (c : client) : bytes * client :=
  (map (fun i => u8 (random (draws c + i))) (seq 0 16), set_draws (draws c + 16) c).

(** [do_handshake] up to the request, the request, the response. *)
Definition handshake_connect (c : client) : option (bytes * bytes * bytes * bool) * client :=
  match parse_ws_url url with
  | None => (None, c)
  | Some (host, port, path, secure) =>
      if stop c then (None, c)
      else
        let '(ok, c) := connect_transport host port secure c in
        (if ok then Some (host, port, path, secure) else None, c)
  end.

Definition handshake_send (target : bytes * bytes * bytes * bool) (c : client) : bool * client :=
  let '(host, port, path, secure) := target in
  if stop c then (false, close_socket_now c)
  else
    let '(nonce, c) := draw_nonce c in
    transport_send_all (ws_request host port path (b64_encode nonce) secure) c.

Definition handshake_receive (c : client) : outcome (bool * client) :=
  if stop c then Ret (false, c) else read_response c.

Definition do_handshake (c : client) : outcome (bool * client) :=
  match handshake_connect c with
  | (None, c) => Ret (false, c)
  | (Some target, c) =>
      let '(ok, c) := handshake_send target c in
      if ok then handshake_receive c else Ret (false, c)
  end.

(** * The reader *)

Record rstate : Type := MkRstate { assembled : bytes; cont_opcode : Z; compressed_message : bool }.

(** What an iteration of the reader's loop leaves: another one, or the thread's end. *)
Inductive iteration : Type := Again (r : rstate) (c : client) | Finished (c : client).

Definition fail_connection (code : Z) (reason : bytes) (c : client) : outcome iteration :=
  c ← send_close_frame code reason c; Ret (Finished (emit_local_close code reason c)).
Definition protocol_error : client -> outcome iteration := fail_connection 1002 (str "Protocol Error").
Definition message_too_big : client -> outcome iteration := fail_connection 1009 (str "Message Too Big").

(** The payload length after its seven bits. *)
Definition recv_length (len7 : Z) (c : client) : outcome (option Z * client) :=
  if len7 =? 126 then '(r, c) ← transport_recv_n 2 c; Ret (option_map be_value r, c)
  else if len7 =? 127 then '(r, c) ← transport_recv_n 8 c; Ret (option_map be_value r, c)
  else Ret (Some len7, c).

(** The frame's payload, unmasked. *)
Definition recv_payload (plen : Z) (mask : option bytes) (c : client) : outcome (option bytes * client) :=
  if 0 <? plen then
    if max_alloc <? plen then Throw "resize"
    else
      '(r, c) ← transport_recv_n (Z.to_nat plen) c;
      Ret (match r with
           | None => None
           | Some p => Some (match mask with Some key => apply_key key 0 p | None => p end)
           end, c)
  else Ret (Some [], c).

Definition on_control (op : Z) (payload : bytes) (r : rstate) (c : client) : outcome iteration :=
  if op =? 9 then '(_, c) ← send_frame 0xA payload true false c; Ret (Again r c)
  else if op =? 0xA then Ret (Again r (set_alive (MkAlive (last_frame_ms (alive c)) false (ping_sent_ms (alive c))) c))
  else
    let '(code, reason) :=
      match payload with
      | b0 :: b1 :: rest => (Z.lor (u16 (Z.shiftl b0 8)) b1, rest)
      | _ => (1005, [])
      end in
    let c := record_close code reason c in
    c ← (if bool_decide (state c <> closing) then '(_, c) ← send_frame 8 payload true false c; Ret c else Ret c);
    Ret (Finished (set_stop (set_state closed (push_event (close_event code reason true) c)))).

Definition message_event (opcode : Z) (message : bytes) : ws_event :=
  if opcode =? 1 then MkEvent message_text message [] 0 [] false else MkEvent message_binary [] message 0 [] false.

(** The last frame of a message. *)
Definition deliver (r : rstate) (c : client) : outcome iteration :=
  '(m, c) ← (if compressed_message r then inflate_message (assembled r) c else Ret (inr (assembled r), c));
  match m with
  | inl true => fail_connection 1009 (str "Message Too Big") c
  | inl false => fail_connection 1002 (str "Bad Compressed Data") c
  | inr message => Ret (Again (MkRstate [] 0 false) (push_event (message_event (cont_opcode r) message) c))
  end.

Definition on_data (op : Z) (fin rsv1 : bool) (payload : bytes) (r : rstate) (c : client) : outcome iteration :=
  if (op =? 1) || (op =? 2) then
    if negb (cont_opcode r =? 0) then protocol_error c
    else
      let r := MkRstate payload op rsv1 in
      if fin then deliver r c else Ret (Again r c)
  else
    if cont_opcode r =? 0 then protocol_error c
    else
      let r := MkRstate (assembled r ++ payload) (cont_opcode r) (compressed_message r) in
      if fin then deliver r c else Ret (Again r c).

(** After the header: the checks, the payload, the dispatch. *)
Definition on_header (op : Z) (fin rsv1 : bool) (plen : Z) (mask : option bytes) (r : rstate) (c : client) :
    outcome iteration :=
  let is_data := (op =? 1) || (op =? 2) || (op =? 0) in
  if negb (is_data || (op =? 8) || (op =? 9) || (op =? 0xA)) then protocol_error c
  else if is_data && ((max_message_bytes options <? plen) ||
                      (max_message_bytes options - plen <? (if op =? 0 then zlen (assembled r) else 0)))
  then message_too_big c
  else
    '(p, c) ← recv_payload plen mask c;
    match p with
    | None => Ret (Finished c)
    | Some payload =>
        if (8 <=? op) && (negb fin || (125 <? zlen payload)) then protocol_error c
        else if 8 <=? op then on_control op payload r c
        else on_data op fin rsv1 payload r c
    end.

(** One turn of [while (!stop_)]. *)
Definition reader_turn (now : Z) (r : rstate) (c : client) : outcome iteration :=
  '(h, c) ← transport_recv_n 2 c;
  match h with
  | None => Ret (Finished c)
  | Some h =>
      let c := set_alive (MkAlive now (awaiting_pong (alive c)) (ping_sent_ms (alive c))) c in
      h0 ← at_ h 0;
      h1 ← at_ h 1;
      let fin := negb (Z.land h0 0x80 =? 0) in
      let op := Z.land h0 0x0f in
      let masked := negb (Z.land h1 0x80 =? 0) in
      let rsv1 := negb (Z.land h0 0x40 =? 0) in
      let rsv_other := negb (Z.land h0 0x30 =? 0) in
      if rsv_other || (rsv1 && negb ((op =? 1) || (op =? 2))) || (rsv1 && bool_decide (deflate (sess c) = None)) then protocol_error c
      else
        '(l, c) ← recv_length (Z.land h1 0x7f) c;
        match l with
        | None => Ret (Finished c)
        | Some plen =>
            if masked then
              '(key, c) ← transport_recv_n 4 c;
              match key with
              | None => Ret (Finished c)
              | Some key => on_header op fin rsv1 plen (Some key) r c
              end
            else on_header op fin rsv1 plen None r c
        end
  end.

(** * The calls of the bindings *)

Definition connect_accepts : bool := negb (bool_decide (url = [])).

Definition queue_message (o : out_op) (data : bytes) (max_fragment : Z) (c : client) : client :=
  if bool_decide (state c <> open_) then c
  else set_out_q (out_q c ++ [MkOut o data 0 max_fragment]) (set_buffered (u64 (buffered c + zlen data)) c).
Definition send_text : bytes -> Z -> client -> client := queue_message op_text.
Definition send_binary : bytes -> Z -> client -> client := queue_message op_binary.

(** [close] after its load of the state, which gave [cur]. Another thread may move
    between the load and this. *)
Definition close_loaded (cur : ws_ready_state) (code : Z) (reason : bytes) (c : client) : client :=
  if bool_decide (cur = closed \/ cur = closing) then c
  else
    let c := set_out_q (out_q c ++ [MkOut op_close reason code 0]) (set_state closing c) in
    if bool_decide (cur = connecting) then close_socket_now (set_stop c) else c.

(** The destructor, up to the join. *)
Definition destroy (c : client) : client := close_socket_now (set_stop c).

(** * The writer *)

Definition unbuffer (n : Z) (c : client) : client :=
  if n <=? buffered c then set_buffered (buffered c - n) c else c.

Definition compression_failed (c : client) : outcome client :=
  c ← send_close_frame 1011 (str "compression failed") c;
  Ret (emit_local_close 1011 (str "compression failed") c).

Definition process_out (m : out_msg) (c : client) : outcome client :=
  match op m with
  | op_close => c ← send_close_frame (out_code m) (out_bytes m) c; Ret (set_stop c)
  | _ =>
      let opcode := match op m with op_text => 1 | _ => 2 end in
      match deflate (sess c) with
      | None =>
          '(_, c) ← send_message opcode (out_bytes m) (out_max_fragment m) false c;
          Ret (unbuffer (zlen (out_bytes m)) c)
      | Some _ =>
          '(w, c) ← deflate_message (out_bytes m) c;
          match w with
          | None => compression_failed c
          | Some wire =>
              '(_, c) ← send_message opcode wire (out_max_fragment m) true c;
              Ret (unbuffer (zlen (out_bytes m)) c)
          end
      end
  end.

(** Whether the loop goes on. *)
Definition check_idle (now : Z) (c : client) : outcome (bool * client) :=
  if idle_timeout_ms options =? 0 then Ret (true, c)
  else if awaiting_pong (alive c) then
    if pong_timeout_ms options <=? now - ping_sent_ms (alive c) then
      c ← send_close_frame 1011 (str "pong timeout") c;
      Ret (false, emit_local_close 1011 (str "pong timeout") c)
    else Ret (true, c)
  else if idle_timeout_ms options <=? now - last_frame_ms (alive c) then
    '(ok, c) ← send_frame 9 [] true false c;
    if (ok : bool) then Ret (true, set_alive (MkAlive (last_frame_ms (alive c)) true now) c)
    else Ret (false, close_socket_now (set_stop c))
  else Ret (true, c).

(** * The threads *)

(** Where the worker is in [worker_main], and the reader thread in its loop. *)
Inductive worker : Type :=
| WConnect | WRequest (target : bytes * bytes * bytes * bool) | WResponse | WFailed | WOpen
| WTop | WQueue | WIdle | WShut | WJoin | WDone.
Inductive reader_thread : Type := RNone | RLoop (r : rstate) | RDone.

(** [taken]: the events [drain_events] has returned so far; [closers]: the threads
    inside [close], with the state each has loaded. *)
Record machine : Type := MkMachine {
  cl : client; rd : reader_thread; wk : worker; taken : list ws_event; closers : gmap nat ws_ready_state }.

Definition new_machine : machine := MkMachine new_client RNone WConnect [] ∅.

(** One step of the worker at time [now]; [None] while it waits. *)
Definition worker_step (now : Z) (m : machine) : outcome (option machine) :=
  let c := cl m in
  let go c w := Ret (Some (MkMachine c (rd m) w (taken m) (closers m))) in
  match wk m with
  | WConnect =>
      match handshake_connect c with
      | (Some target, c) => go c (WRequest target)
      | (None, c) => go c WFailed
      end
  | WRequest target => let '(ok, c) := handshake_send target c in go c (if ok then WResponse else WFailed)
  | WResponse => '(ok, c) ← handshake_receive c; go c (if ok : bool then WOpen else WFailed)
  | WFailed =>
      let he := handshake_error (sess c) in
      let c := push_event (error_event (if bool_decide (he = []) then str "websocket handshake failed" else he)) c in
      go (set_state closed (push_event (close_event 1006 [] false) c)) WDone
  | WOpen =>
      let c := set_alive (MkAlive now (awaiting_pong (alive c)) (ping_sent_ms (alive c))) (set_state open_ c) in
      Ret (Some (MkMachine (push_event (MkEvent ev_open [] [] 0 [] false) c) (RLoop (MkRstate [] 0 false)) WTop (taken m) (closers m)))
  | WTop =>
      if stop c then go c WShut
      else if (idle_timeout_ms options =? 0) && bool_decide (out_q c = []) then Ret None
      else go c WQueue
  | WQueue =>
      match out_q c with
      | [] => go c WIdle
      | x :: q => c ← process_out x (set_out_q q c); go c WQueue
      end
  | WIdle => '(ok, c) ← check_idle now c; go c (if ok : bool then WTop else WShut)
  | WShut => go (close_socket_now c) WJoin
  | WJoin =>
      match rd m with
      | RLoop _ => Ret None
      | _ =>
          if bool_decide (state c <> closed)
          then go (set_state closed (push_event (close_event 1000 [] true) c)) WDone
          else go c WDone
      end
  | WDone => Ret None
  end.

Definition reader_step (now : Z) (m : machine) : outcome (option machine) :=
  match rd m with
  | RLoop r =>
      if stop (cl m) then Ret (Some (MkMachine (cl m) RDone (wk m) (taken m) (closers m)))
      else
        i ← reader_turn now r (cl m);
        Ret (Some match i with
                  | Again r c => MkMachine c (RLoop r) (wk m) (taken m) (closers m)
                  | Finished c => MkMachine c RDone (wk m) (taken m) (closers m)
                  end)
  | _ => Ret None
  end.

(** Who moves. *)
Inductive label : Type :=
| Worker (now : Z) | Reader (now : Z)
| SendText (data : bytes) (max_fragment : Z) | SendBinary (data : bytes) (max_fragment : Z)
| CloseLoad (caller : nat) | CloseStore (caller : nat) (code : Z) (reason : bytes) | DrainEvents | Destroy.

Definition with_client (f : client -> client) (m : machine) : machine := 
  MkMachine (f (cl m)) (rd m) (wk m) (taken m) (closers m).

(** A step; one that is not possible leaves the machine as it is. *)
Definition step (l : label) (m : machine) : outcome machine :=
  match l with
  | Worker now => r ← worker_step now m; Ret (match r with Some m' => m' | None => m end)
  | Reader now => r ← reader_step now m; Ret (match r with Some m' => m' | None => m end)
  | SendText data mf => Ret (with_client (send_text data mf) m)
  | SendBinary data mf => Ret (with_client (send_binary data mf) m)
  | CloseLoad t => Ret (MkMachine (cl m) (rd m) (wk m) (taken m) (<[t := state (cl m)]> (closers m)))
  | CloseStore t code reason =>
      match closers m !! t with
      | Some cur => Ret (MkMachine (close_loaded cur code reason (cl m)) (rd m) (wk m) (taken m) (delete t (closers m)))
      | None => Ret m
      end
  | DrainEvents => let '(evs, c) := drain_events (cl m) in Ret (MkMachine c (rd m) (wk m) (taken m ++ evs) (closers m))
  | Destroy => Ret (with_client destroy m)
  end.

Fixpoint run (ls : list label) (m : machine) : outcome machine :=
  match ls with
  | [] => Ret m
  | l :: ls => m ← step l m; run ls m
  end.
End Client.
