(* ===== verification/WsClientFacts.v ===== *)
(** The WebSocket client: what its operations write, keep and return, its opening
    handshake and its messages against the server of [CdpWs], and its threads. *)

From S2P Require Import Prelude Strings CdpWs WsClient.

(** * What sending and receiving leave alone *)

Section Quiet.
Context {zstate : Type}.
Implicit Types c : @client zstate.

(** The state, the queues and the request to stop are as they were. *)
Record hushed c c' : Prop := MkHushed {
  h_state : state c' = state c; h_buffered : buffered c' = buffered c; h_stop : stop c' = stop c;
  h_out : out_q c' = out_q c; h_in : in_q c' = in_q c }.

(** So is what the handshake settled. *)
Record quiet c c' : Prop := MkQuiet { q_hushed : hushed c c'; q_sess : sess c' = sess c }.

#[export] Instance hushed_preorder : PreOrder hushed.
Proof.
  split; [by intros c|]. intros c1 c2 c3 [] []. split; congruence.
Qed.
#[export] Instance quiet_preorder : PreOrder quiet.
Proof.
  split; [by intros c|]. intros c1 c2 c3 [H1 ?] [H2 ?]. split; [by etrans|congruence].
Qed.

Lemma quiet_sock x c : quiet c (set_sock x c).
Proof. by split. Qed.
Lemma quiet_draws x c : quiet c (set_draws x c).
Proof. by split. Qed.
Lemma quiet_alive x c : quiet c (set_alive x c).
Proof. by split. Qed.
Lemma quiet_record code reason c : quiet c (record_close code reason c).
Proof. by split. Qed.
Lemma hushed_sess x c : hushed c (set_sess x c).
Proof. by split. Qed.
Lemma quiet_close c : quiet c (close_socket_now c).
Proof. by split. Qed.

(** The socket accepts what is sent. *)
Definition open_sock c : Prop := exists s, sock c = Some s /\ writable s = true.

(** [data] has gone out, whole, and nothing else; the session is the same. *)
Record sends c (data : bytes) c' : Prop := MkSends {
  s_sock : exists s, sock c = Some s /\ writable s = true /\
    sock c' = Some (MkSocket (incoming s) (sent s ++ data) true);
  s_sess : sess c' = sess c }.

Lemma sends_trans c1 a c2 b c3 : sends c1 a c2 -> sends c2 b c3 -> sends c1 (a ++ b) c3.
Proof.
  intros [(s & E1 & E2 & E3) H1] [(s' & E4 & E5 & E6) H2]. split; [|congruence]. exists s. split_and!; [done|done|].
  rewrite E3 in E4. injection E4 as <-. rewrite E6. cbn [incoming sent]. by rewrite app_assoc.
Qed.

Lemma sends_nil c : open_sock c -> sends c [] c.
Proof. intros (s & E & W). split; [|done]. exists s. destruct s as [i o w]. cbn in W |- *. subst w. by rewrite app_nil_r. Qed.

Lemma sends_open c data c' : sends c data c' -> open_sock c'.
Proof. intros [(s & _ & _ & E) _]. by eexists. Qed.

(** A call that sends: it returns, it is quiet, and on an open socket it succeeds and
    [data] goes out. *)
Definition sending (data : bytes) c (o : outcome (bool * client)) : Prop :=
  exists ok c', o = Ret (ok, c') /\ quiet c c' /\ (open_sock c -> ok = true /\ sends c data c').

Lemma transport_send_all_spec data c ok c' : transport_send_all data c = (ok, c') ->
  quiet c c' /\ (open_sock c -> ok = true /\ sends c data c').
Proof.
  unfold transport_send_all, send_all. destruct (sock c) as [s|] eqn:E.
  - destruct (writable s) eqn:W; intros [= <- <-].
    + split; [apply quiet_sock|]. intros _. split; [done|]. split; [|done]. by exists s.
    + split; [apply quiet_sock|]. intros (s' & E' & W'). congruence.
  - intros [= <- <-]. split; [done|]. intros (s' & E' & _). congruence.
Qed.

Lemma sending_bind data1 data2 c (o : outcome (bool * client)) (k : bool -> client -> outcome (bool * client)) :
  sending data1 c o -> (forall c', k false c' = Ret (false, c')) -> (forall c', sending data2 c' (k true c')) ->
  sending (data1 ++ data2) c ('(ok, c) ← o; k ok c).
Proof.
  intros (ok & c1 & -> & Q1 & S1) Hf Ht. cbn [mbind outcome_bind]. destruct ok.
  - destruct (Ht c1) as (ok & c2 & -> & Q2 & S2). exists ok, c2. split_and!; [done|by etrans|].
    intros H. destruct (S1 H) as [_ S]. destruct (S2 (sends_open _ _ _ S)) as [-> S']. split; [done|by eapply sends_trans].
  - rewrite Hf. exists false, c1. split_and!; [done|done|]. intros H. by destruct (S1 H).
Qed.

Lemma sending_pure data c : sending data c (Ret (transport_send_all data c)).
Proof.
  destruct (transport_send_all data c) as [ok c'] eqn:E. exists ok, c'. split; [done|]. by apply transport_send_all_spec.
Qed.

(** * The bytes of a frame *)

Lemma apply_key_app key a b : forall i, apply_key key i (a ++ b) = apply_key key i a ++ apply_key key (i + length a) b.
Proof.
  induction a as [|x a IH]; intros i; cbn [app apply_key length]; [by rewrite Nat.add_0_r|].
  rewrite IH. do 3 f_equal. lia.
Qed.

Lemma send_chunks_spec mask : forall fuel data off c, (length data <= fuel)%nat ->
  sending (apply_key mask off data) c (send_chunks fuel mask data off c).
Proof.
  induction fuel as [|fuel IH]; intros [|b data] off c Hf; try (cbn in Hf; lia);
    try (exists true, c; split_and!; [done|done|]; intros; split; [done|by apply sends_nil]).
  cbn [send_chunks]. set (d := b :: data) in *. set (k := 4096%nat). assert (Hk : (0 < k)%nat) by (unfold k; lia). clearbody k.
  rewrite <- (take_drop k d) at 1. rewrite apply_key_app.
  pose proof (sending_bind _ (apply_key mask (off + length (take k d)) (drop k d)) c _
    (fun ok c => if negb ok then Ret (false, c) else send_chunks fuel mask (drop k d) (off + k) c)
    (sending_pure (apply_key mask off (take k d)) c)) as H.
  cbn [mbind outcome_bind] in H. apply H; [done|]. clear H. intros c'. cbn [negb].
  destruct (decide (length d <= k)%nat) as [Hs|Hl].
  - rewrite drop_ge by done. destruct fuel; (exists true, c'; split_and!; [done|done|]; intros; split; [done|by apply sends_nil]).
  - rewrite length_take_le by lia. apply IH. rewrite length_drop. lia.
Qed.
End Quiet.

Lemma frame_head_client op n fin : 0 <= n < 2 ^ 64 ->
  frame_head op n fin false = u8 (Z.lor (if fin : bool then 0x80 else 0) (Z.land op 0x0f)) :: length_field true n.
Proof.
  intros Hn. unfold frame_head, length_field. cbn [app]. rewrite Z.lor_0_r.
  destruct (Z.ltb_spec n 126), (Z.leb_spec n 125); try lia; [by rewrite (u8_small n) by lia|].
  change 0xffff with 65535. destruct (Z.leb_spec n 65535); [|done].
  rewrite (wrap_small 16 n) by lia. cbn [be_bytes]. do 2 f_equal.
  change (8 * Z.of_nat 1) with 8. change (8 * Z.of_nat 0) with 0. rewrite Z.shiftr_0_r.
  change 0xff with (Z.ones 8). rewrite !land_ones_mod by lia. unfold wrap. by rewrite !Z.mod_mod by lia.
Qed.

Section Sending.
Context {zstate : Type} (random : nat -> Z) (options : ws_client_options).
Implicit Types c : @client zstate.

Lemma sends_draws c x data c' : sends (set_draws x c) data c' -> sends c data c'.
Proof. by intros [H1 H2]. Qed.

Lemma send_frame_sending op data fin rsv1 c : exists mask, length mask = 4%nat /\
  sending (frame_head op (zlen data) fin rsv1 ++ mask ++ apply_key mask 0 data) c (send_frame random op data fin rsv1 c).
Proof.
  set (mask := (draw_mask random c).1). exists mask. split; [done|]. unfold send_frame. cbn [draw_mask].
  change (map (fun i => u8 (random (draws c + i)%nat)) (seq 0 4)) with mask.
  set (c1 := set_draws (draws c + 4) c). rewrite app_assoc.
  pose proof (sending_bind _ (apply_key mask 0 data) c1 _
    (fun ok c => if negb ok then Ret (false, c) else send_chunks (length data) mask data 0 c)
    (sending_pure (frame_head op (zlen data) fin rsv1 ++ mask) c1) (fun _ => eq_refl)
    (fun c' => send_chunks_spec mask (length data) data 0 c' ltac:(done))) as (ok & c' & E & Q & S).
  exists ok, c'. split_and!; [exact E| |].
  - etrans; [apply quiet_draws|exact Q].
  - intros H. destruct (S H) as [-> S']. split; [done|]. by eapply sends_draws.
Qed.

Lemma send_frame_wire op data fin c : zlen data < 2 ^ 64 -> exists mask, length mask = 4%nat /\
  sending (wire_frame true mask (MkFrame fin op data)) c (send_frame random op data fin false c).
Proof.
  intros Hn. destruct (send_frame_sending op data fin false c) as (mask & Hm & H). exists mask. split; [done|].
  rewrite frame_head_client in H by lia. exact H.
Qed.

(** A call that sends frames: as [sending], for frames that satisfy [P]. *)
Definition sending_frames (P : list (bytes * frame) -> Prop) c (o : outcome (bool * client)) : Prop :=
  exists ok c', o = Ret (ok, c') /\ quiet c c' /\
    (open_sock c -> ok = true /\ exists kfs, P kfs /\ sends c (wires true kfs) c').

(** Frames of a message: as many bytes as the server takes, keys of four, no pings. *)
Definition message_frames (shape : list frame -> bytes -> Prop) (data : bytes) (kfs : list (bytes * frame)) : Prop :=
  shape (map snd kfs) data /\ sendable kfs /\ pongs (map snd kfs) = [].

Lemma wires_cons k f kfs : wires true ((k, f) :: kfs) = wire_frame true k f ++ wires true kfs.
Proof. reflexivity. Qed.

Lemma sendable_cons k b op data kfs : length k = 4%nat -> 0 <= op < 3 -> zlen data <= max_ws_frame_bytes ->
  sendable kfs -> sendable ((k, MkFrame b op data) :: kfs).
Proof.
  intros Hk Ho Hd H. constructor; [|done]. split; [done|]. split_and!; cbn [opcode payload fin]; [lia..|].
  intros; lia.
Qed.

Lemma pongs_cons (k : bytes) b op data kfs : 0 <= op < 3 -> pongs (map snd kfs) = [] ->
  pongs (map snd ((k, MkFrame b op data) :: kfs)) = [].
Proof.
  intros Ho H. unfold pongs in *. cbn [map snd concat opcode payload]. rewrite H.
  by destruct (Z.eqb_spec op 9); [lia|].
Qed.

Lemma single_frame op data (shape : list frame -> bytes -> Prop) c :
  0 <= op < 3 -> zlen data <= max_ws_frame_bytes -> shape [MkFrame true op data] data ->
  sending_frames (message_frames shape data) c (send_frame random op data true false c).
Proof.
  intros Ho Hd Hs. destruct (send_frame_wire op data true c) as (mask & Hm & ok & c' & E & Q & S);
    [unfold max_ws_frame_bytes in Hd; lia|].
  exists ok, c'. split_and!; [done|done|]. intros H. destruct (S H) as [-> S']. split; [done|].
  exists [(mask, MkFrame true op data)]. split; [split_and!; [done|by apply sendable_cons; [..|constructor]|by apply pongs_cons]|].
  rewrite wires_cons. cbn. by rewrite app_nil_r.
Qed.

Lemma fragments_spec limit : (0 < limit)%nat -> Z.of_nat limit <= max_ws_frame_bytes ->
  forall fuel data (first : bool) c, data <> [] -> (length data <= fuel)%nat ->
  sending_frames (message_frames (if first then text_message else continues) data) c
    (fragments random fuel 1 data limit first false c).
Proof.
  intros Hl Hmax. induction fuel as [|fuel IH]; intros [|b data] first c Hne Hf; try done; [cbn in Hf; lia|].
  cbn [fragments]. set (d := b :: data) in *. rewrite andb_false_r. set (op := if first then 1 else 0).
  assert (Hop : 0 <= op < 3) by (unfold op; destruct first; lia).
  destruct (Nat.leb_spec (length d) limit) as [Hs|Hg].
  - rewrite take_ge, drop_ge by done.
    destruct (single_frame op d (if first then text_message else continues) c) as (ok & c' & E & Q & S);
      [done|lia|unfold op; destruct first; constructor|].
    rewrite E. cbn [mbind outcome_bind]. destruct ok; cbn [negb]; [|exists false, c'; split_and!; [done|done|exact S]].
    exists true, c'. split_and!; [by destruct fuel|done|exact S].
  - assert (Ht : length (take limit d) = limit) by (rewrite length_take; lia).
    destruct (send_frame_wire op (take limit d) false c) as (mask & Hm & ok & c1 & E & Q & S);
      [rewrite Ht; unfold max_ws_frame_bytes in Hmax; lia|].
    rewrite E. cbn [mbind outcome_bind]. destruct ok; cbn [negb].
    2: { exists false, c1. split_and!; [done|done|]. intros H. by destruct (S H). }
    destruct (IH (drop limit d) false c1) as (ok & c2 & E2 & Q2 & S2).
    { intros E0. apply (f_equal length) in E0. rewrite length_drop in E0. cbn [length] in E0. lia. }
    { rewrite length_drop. lia. }
    exists ok, c2. split_and!; [done|by etrans|]. intros H. destruct (S H) as [_ S1].
    destruct (S2 (sends_open _ _ _ S1)) as (-> & kfs & (Hk1 & Hk2 & Hk3) & S3). split; [done|].
    exists ((mask, MkFrame false op (take limit d)) :: kfs). split; [split_and!|].
    + pose proof (text_first (take limit d) _ _ Hk1) as H1. pose proof (continues_more (take limit d) _ _ Hk1) as H2.
      rewrite take_drop in H1, H2. by unfold op; destruct first.
    + apply sendable_cons; try done. rewrite Ht. lia.
    + by apply pongs_cons.
    + rewrite wires_cons. by eapply sends_trans.
Qed.

(** Fragments the server accepts: the limit, if there is one, or the whole message. *)
Definition fits_server (max_fragment : Z) (data : bytes) : Prop :=
  let limit := if max_fragment =? 0 then max_fragment_bytes options else max_fragment in
  0 <= limit /\ (zlen data <= max_ws_frame_bytes \/ 0 < limit <= max_ws_frame_bytes).

Lemma send_text_frames data max_fragment c : fits_server max_fragment data ->
  sending_frames (message_frames text_message data) c (send_message random options 1 data max_fragment false c).
Proof.
  unfold fits_server, send_message. set (limit := if max_fragment =? 0 then _ else _). cbn zeta. intros [Hl Hs].
  destruct (Z.eqb_spec limit 0) as [E|Hne]; cbn [orb].
  - apply single_frame; [lia|lia|constructor].
  - destruct (Z.leb_spec (zlen data) limit).
    + apply single_frame; [lia|lia|constructor].
    + apply (fragments_spec (Z.to_nat limit)) with (first := true); [lia|lia| |done]. intros ->. cbn in *. lia.
Qed.
End Sending.

(** * The reader *)

Lemma recv_n_total : forall fuel n s, (n <= fuel)%nat ->
  exists r s', recv_n fuel n s = Ret (r, s') /\ forall b, r = Some b -> length b = n.
Proof.
  induction fuel as [|fuel IH]; intros [|n] s Hf; try lia; try (exists (Some []), s; split; [done|by intros ? [= <-]]).
  cbn [recv_n]. destruct (recv (S n) s) as [[got s1]|] eqn:E; [|by exists None, s].
  assert (Hg : (1 <= length got <= S n)%nat).
  { unfold recv in E. destruct (incoming s) as [|[|b c0] rest]; [done|done|]. cbn [length] in E.
    destruct (Nat.leb_spec (S (length c0)) (S n)); injection E as <- <-; cbn [length]; [lia|rewrite length_take; lia]. }
  destruct (IH (S n - length got)%nat s1) as (r & s' & -> & Hr); [lia|]. cbn [mbind outcome_bind fst snd].
  exists (option_map (app got) r), s'. split; [done|]. intros b Hb. destruct r as [b'|]; [|done]. injection Hb as <-.
  rewrite length_app, (Hr b') by done. lia.
Qed.

Section Reader.
Context {zstate : Type} (inflate_call : zstate -> bytes -> zresult * bytes * bytes * zstate)
        (zreset : zstate -> option zstate) (zbound : zstate -> bytes -> nat) (random : nat -> Z) (max_alloc : Z)
        (options : ws_client_options).
Local Notation reader_turn := (reader_turn inflate_call zreset zbound random max_alloc options).
Implicit Types c : @client zstate.

Lemma transport_recv_n_spec n c : exists r c', transport_recv_n n c = Ret (r, c') /\ quiet c c' /\
  forall b, r = Some b -> length b = n.
Proof.
  unfold transport_recv_n. destruct (sock c) as [s|]; [|by exists None, c].
  destruct (recv_n_total n n s ltac:(done)) as (r & s' & -> & Hr). cbn [mbind outcome_bind].
  exists r, (set_sock (Some s') c). split_and!; [done|apply quiet_sock|done].
Qed.

Lemma send_frame_total op data fin rsv1 c : exists ok c', send_frame random op data fin rsv1 c = Ret (ok, c') /\ quiet c c'.
Proof. destruct (send_frame_sending random op data fin rsv1 c) as (mask & _ & ok & c' & H1 & H2 & _). eauto. Qed.

Lemma send_close_total code reason c : exists c', send_close_frame random code reason c = Ret c' /\ quiet c c'.
Proof.
  unfold send_close_frame. destruct (send_frame_total 8 ([u8 (Z.land (Z.shiftr code 8) 0xff); u8 (Z.land code 0xff)] ++ reason) true false c)
    as (ok & c' & -> & Q). by exists c'.
Qed.

(** An event that carries a message no larger than the limit. *)
Definition message_within (e : ws_event) : Prop :=
  match kind e with
  | message_text => zlen (ev_text e) <= max_message_bytes options
  | message_binary => zlen (ev_binary e) <= max_message_bytes options
  | _ => False
  end.

Definition same_deflate c c' : Prop := deflate (sess c') = None <-> deflate (sess c) = None.

(** The reader goes on: it has pushed messages only. *)
Record turned c c' : Prop := MkTurned {
  t_state : state c' = state c; t_buffered : buffered c' = buffered c; t_stop : stop c' = stop c; t_out : out_q c' = out_q c;
  t_deflate : same_deflate c c';
  t_in : exists evs, in_q c' = in_q c ++ evs /\ Forall message_within evs }.

(** The connection is closed: the state, the request to stop, one last event. *)
Record closed_by c c' : Prop := MkClosedBy {
  c_state : state c' = closed; c_stop : stop c' = true; c_out : out_q c' = out_q c; c_buffered : buffered c' = buffered c;
  c_in : exists e, in_q c' = in_q c ++ [e] /\ kind e = ev_close }.

Definition rstate_ok (r : rstate) : Prop :=
  zlen (assembled r) <= max_message_bytes options /\ (cont_opcode r = 0 \/ cont_opcode r = 1 \/ cont_opcode r = 2).

(** What a turn may leave. *)
Definition turn_post c (o : outcome (@iteration zstate)) : Prop :=
  match o with
  | Ret (Again r' c') => rstate_ok r' /\ turned c c'
  | Ret (Finished c') => (hushed c c' \/ closed_by c c') /\ same_deflate c c'
  | Throw w => w = "resize"%string
  | OutOfFuel => deflate (sess c) <> None
  | Ub => False
  end.

Lemma quiet_turned c c' : quiet c c' -> turned c c'.
Proof. intros [[] E]. split; try done; [unfold same_deflate; by rewrite E|exists []; by rewrite app_nil_r]. Qed.

Lemma post_quiet c c1 o : quiet c c1 -> turn_post c1 o -> turn_post c o.
Proof.
  intros [[] E]. unfold turn_post, same_deflate. destruct o as [[r' c'|c']| | |]; [| |done|done|congruence].
  - intros [Hr [? ? ? ? D (evs & H1 & H2)]]. split; [done|]. unfold same_deflate in D. rewrite E in D.
    split; try congruence; [done|]. exists evs. split; [congruence|done].
  - rewrite E. intros [H D]. split; [|done]. destruct H as [[]|[? ? ? ? (e & H1 & H2)]]; [left; split; congruence|right; split; try congruence].
    exists e. split; [congruence|done].
Qed.

Lemma fail_post code reason c : turn_post c (fail_connection random code reason c).
Proof.
  unfold fail_connection. destruct (send_close_total code reason c) as (c' & -> & Q). cbn [mbind outcome_bind].
  apply (post_quiet _ _ _ Q). split; [right|done]. split; cbn; try done. by eexists.
Qed.

Lemma finished_post c c' : quiet c c' -> turn_post c (Ret (Finished c')).
Proof. intros [H E]. split; [by left|]. unfold same_deflate. by rewrite E. Qed.

(** Keep going after a call that returns a value and is quiet. *)
Lemma post_bind {A} c (o : outcome (A * client)) (k : A -> client -> outcome iteration) (P : A -> Prop) :
  (exists a c', o = Ret (a, c') /\ quiet c c' /\ P a) -> (forall a c', quiet c c' -> P a -> turn_post c' (k a c')) ->
  turn_post c ('(a, c) ← o; k a c).
Proof. intros (a & c' & -> & Q & HP) H. cbn [mbind outcome_bind]. apply (post_quiet _ _ _ Q). by apply H. Qed.

Context (Hmax : 0 <= max_message_bytes options).

Lemma inflate_loop_bounded : forall fuel z input out, zlen out <= max_message_bytes options ->
  forall z' r, inflate_loop inflate_call options fuel z input out = Ret (r, z') ->
  match r with inr m => zlen m <= max_message_bytes options | inl _ => True end.
Proof.
  induction fuel as [|fuel IH]; intros z input out Ho z' r; cbn [inflate_loop]; [done|].
  destruct (inflate_call z input) as [[[ret produced] rest] z1].
  assert (Hgo : (if (max_message_bytes options <? zlen produced) || (max_message_bytes options - zlen produced <? zlen out)
      then Ret (inl true, z1)
      else if negb (bool_decide (rest = [])) || (zlen produced =? 8192) then inflate_loop inflate_call options fuel z1 rest (out ++ produced)
           else Ret (inr (out ++ produced), z1)) = Ret (r, z') ->
    match r with inr m => zlen m <= max_message_bytes options | inl _ => True end).
  { destruct (Z.ltb_spec (max_message_bytes options) (zlen produced)); cbn [orb]; [by intros [= <- _]|].
    destruct (Z.ltb_spec (max_message_bytes options - zlen produced) (zlen out)); [by intros [= <- _]|].
    assert (zlen (out ++ produced) <= max_message_bytes options) by (rewrite length_app; lia).
    destruct (negb _ || _); [by apply IH|]. by intros [= <- _]. }
  destruct ret; [exact Hgo|exact Hgo|]. by intros [= <- _].
Qed.

Lemma inflate_loop_outcome : forall fuel z input out,
  match inflate_loop inflate_call options fuel z input out with Ret _ | OutOfFuel => True | _ => False end.
Proof.
  induction fuel as [|fuel IH]; intros z input out; cbn [inflate_loop]; [done|].
  repeat case_match; try done; subst; match goal with E : inflate_loop _ _ fuel ?a ?b ?d = _ |- _ => specialize (IH a b d); by rewrite E in IH end.
Qed.

Lemma deliver_post r c : zlen (assembled r) <= max_message_bytes options -> cont_opcode r = 1 \/ cont_opcode r = 2 ->
  turn_post c (deliver inflate_call zreset zbound random options r c).
Proof.
  intros Hr Hop. unfold deliver.
  assert (Hpush : forall m c1, turned c c1 -> zlen m <= max_message_bytes options -> in_q c1 = in_q c ->
    turn_post c (Ret (Again (MkRstate [] 0 false) (push_event (message_event (cont_opcode r) m) c1)))).
  { intros m c1 [] Hm Hin. split; [split; [done|by left]|]. split; try done. exists [message_event (cont_opcode r) m].
    cbn. rewrite Hin. split; [done|]. constructor; [|done]. unfold message_event, message_within.
    by destruct Hop as [-> | ->]. }
  destruct (compressed_message r); cbn [mbind outcome_bind]; [|by apply Hpush; [by apply quiet_turned|..]].
  unfold inflate_message. destruct (deflate (sess c)) as [d|] eqn:Ed; cbn [mbind outcome_bind]; [|apply fail_post].
  set (input := avail _). pose proof (inflate_loop_outcome (zbound (inflater d) input) (inflater d) input []) as Ho.
  pose proof (inflate_loop_bounded (zbound (inflater d) input) (inflater d) input [] Hmax) as Hb.
  destruct (inflate_loop _ _ _ _ _ _) as [[res z]| | |]; [|done|done|by cbn; congruence].
  specialize (Hb _ _ eq_refl). cbn [mbind outcome_bind].
  assert (Hset : forall d', turned c (set_deflate d' c)) by (intros d'; split; try done; [unfold same_deflate; cbn; by split; congruence|exists []; by rewrite app_nil_r]).
  assert (Hfail : forall d' code reason, turn_post c (fail_connection random code reason (set_deflate d' c))).
  { intros d' code reason. unfold fail_connection. destruct (send_close_total code reason (set_deflate d' c)) as (c' & -> & [[] E]).
    split; [right|unfold same_deflate; cbn; rewrite E; cbn; split; congruence].
    split; cbn in *; try done. eexists. split; [f_equal; done|done]. }
  destruct res as [[]|m]; cbn [mbind outcome_bind]; [by apply Hfail|by apply Hfail|].
  destruct (server_no_context_takeover d); [destruct (zreset z)|]; cbn beta iota; [|by apply Hfail|].
  - exact (Hpush m (set_deflate _ c) (Hset _) Hb eq_refl).
  - exact (Hpush m (set_deflate _ c) (Hset _) Hb eq_refl).
Qed.

Lemma on_control_post op payload r c : rstate_ok r -> turn_post c (on_control random op payload r c).
Proof.
  intros Hr. unfold on_control. destruct (op =? 9).
  { apply (post_bind c _ _ (fun _ => True)); [destruct (send_frame_total 10 payload true false c) as (ok & c' & E & Q); eauto|].
    intros _ c' _ _. split; [done|by apply quiet_turned]. }
  destruct (op =? 10). { split; [done|]. apply quiet_turned, quiet_alive. }
  set (p := match payload with _ :: _ => _ | _ => _ end). destruct p as [code reason].
  apply (post_quiet _ (record_close code reason c)); [apply quiet_record|]. generalize (record_close code reason c). clear c. intros c1.
  assert (H : forall c2, quiet c1 c2 -> turn_post c1 (Ret (Finished (set_stop (set_state closed (push_event (close_event code reason true) c2)))))).
  { intros c2 [[] E]. split; [right|unfold same_deflate; cbn; by rewrite E]. split; cbn; try done. exists (close_event code reason true). split; [congruence|done]. }
  destruct (bool_decide (state c1 <> closing)); [|by apply H].
  destruct (send_frame_total 8 payload true false c1) as (ok & c' & -> & Q). by apply H.
Qed.

Lemma on_data_post op fin rsv1 payload r c : rstate_ok r ->
  zlen payload + (if (op =? 1) || (op =? 2) then 0 else zlen (assembled r)) <= max_message_bytes options ->
  turn_post c (on_data inflate_call zreset zbound random options op fin rsv1 payload r c).
Proof.
  intros [Hr Hop] Hlen. unfold on_data.
  assert (Hgo : forall r', zlen (assembled r') <= max_message_bytes options -> cont_opcode r' = 1 \/ cont_opcode r' = 2 ->
    turn_post c (if fin then deliver inflate_call zreset zbound random options r' c else Ret (Again r' c))).
  { intros r' H1 H2. destruct fin; [by apply deliver_post|]. split; [|by apply quiet_turned]. split; [done|tauto]. }
  destruct ((op =? 1) || (op =? 2)) eqn:E.
  - destruct (negb (cont_opcode r =? 0)); [apply fail_post|]. apply Hgo; [cbn; lia|]. cbn.
    apply orb_true_iff in E as [E|E]; apply Z.eqb_eq in E; tauto.
  - destruct (Z.eqb_spec (cont_opcode r) 0); [apply fail_post|].
    apply Hgo; [cbn; rewrite length_app; lia|]. cbn. tauto.
Qed.

Lemma recv_payload_spec plen mask c : plen <= max_alloc ->
  exists p c', recv_payload max_alloc plen mask c = Ret (p, c') /\ quiet c c' /\
    forall b, p = Some b -> zlen b = Z.max 0 plen.
Proof.
  intros Ha. unfold recv_payload. destruct (Z.ltb_spec 0 plen).
  - destruct (Z.ltb_spec max_alloc plen); [lia|].
    destruct (transport_recv_n_spec (Z.to_nat plen) c) as (r & c' & -> & Q & Hr). cbn [mbind outcome_bind].
    eexists _, c'. split; [done|]. split; [done|]. intros b Hb. destruct r as [p|]; [|done]. specialize (Hr p eq_refl).
    injection Hb as <-. destruct mask; rewrite ?length_apply_key; lia.
  - exists (Some []), c. split_and!; [done|done|]. intros b [= <-]. cbn. lia.
Qed.

Lemma on_header_post op fin rsv1 plen mask r c : rstate_ok r -> max_message_bytes options <= max_alloc ->
  turn_post c (on_header inflate_call zreset zbound random max_alloc options op fin rsv1 plen mask r c).
Proof.
  intros Hr Ha. unfold on_header. set (is_data := (op =? 1) || (op =? 2) || (op =? 0)).
  destruct (negb _) eqn:Eop; [apply fail_post|]. destruct (is_data && _) eqn:Ed; [apply fail_post|].
  destruct (decide (plen <= max_alloc)) as [Hp|Hp].
  2: { unfold recv_payload. destruct (Z.ltb_spec 0 plen), (Z.ltb_spec max_alloc plen); try lia; done. }
  apply (post_bind c _ _ (fun p => forall b, p = Some b -> zlen b = Z.max 0 plen)).
  { destruct (recv_payload_spec plen mask c Hp) as (p & c' & H1 & H2 & H3). eauto. }
  intros [payload|] c' Q Hlen; [|by apply finished_post]. specialize (Hlen payload eq_refl).
  destruct ((8 <=? op) && _); [apply fail_post|]. destruct (Z.leb_spec 8 op); [by apply on_control_post|].
  apply on_data_post; [done|]. destruct Hr as [Hr Hop].
  destruct is_data eqn:Ei; cbn [andb] in Ed.
  - apply orb_false_iff in Ed as [H1 H2]. apply Z.ltb_ge in H1, H2. unfold is_data in Ei. clear is_data.
    destruct ((op =? 1) || (op =? 2)); [lia|]. cbn [orb] in Ei. rewrite Ei in H2. lia.
  - apply negb_false_iff in Eop. cbn [orb] in Eop. exfalso.
    repeat (apply orb_true_iff in Eop as [Eop|Eop]); apply Z.eqb_eq in Eop; lia.
Qed.

Lemma recv_length_spec len7 c : exists l c', recv_length len7 c = Ret (l, c') /\ quiet c c' /\ True.
Proof.
  unfold recv_length. destruct (len7 =? 126); [|destruct (len7 =? 127); [|by exists (Some len7), c]].
  - destruct (transport_recv_n_spec 2 c) as (r & c' & -> & Q & _). cbn [mbind outcome_bind]. eauto.
  - destruct (transport_recv_n_spec 8 c) as (r & c' & -> & Q & _). cbn [mbind outcome_bind]. eauto.
Qed.

Lemma reader_turn_post now r c : rstate_ok r -> max_message_bytes options <= max_alloc ->
  turn_post c (reader_turn now r c).
Proof.
  intros Hr Ha. unfold WsClient.reader_turn.
  apply (post_bind c _ _ (fun h => forall b, h = Some b -> length b = 2%nat)).
  { destruct (transport_recv_n_spec 2 c) as (h & c' & H1 & H2 & H3). eauto. }
  intros [h|] c1 _ Hlen; [|by apply finished_post]. clear c. rename c1 into c. specialize (Hlen h eq_refl).
  destruct h as [|h0 [|h1 [|]]]; try (cbn in Hlen; lia). cbn beta iota zeta.
  change (at_ [h0; h1] 0) with (Ret h0). change (at_ [h0; h1] 1) with (Ret h1). cbn [mbind outcome_bind].
  apply (post_quiet _ _ _ (quiet_alive (MkAlive now (awaiting_pong (alive c)) (ping_sent_ms (alive c))) c)).
  generalize (set_alive (MkAlive now (awaiting_pong (alive c)) (ping_sent_ms (alive c))) c). clear c. intros c.
  cbn zeta.
  match goal with |- turn_post _ (if ?b then _ else _) => destruct b end; [apply fail_post|].
  apply (post_bind c _ _ (fun _ => True)); [apply recv_length_spec|].
  intros [plen|] c1 _ _; [|by apply finished_post]. destruct (negb (Z.land h1 128 =? 0)).
  - apply (post_bind c1 _ _ (fun _ => True)); [destruct (transport_recv_n_spec 4 c1) as (k & c' & H1 & H2 & _); eauto|].
    intros [key|] c2 _ _; [|by apply finished_post]. by apply on_header_post.
  - by apply on_header_post.
Qed.

(** Bounds of the reader.  On any bytes, in any chunks, a turn of the reader ends;
    it never reads outside a buffer, the message being assembled and every message event
    it pushes stay within [max_message_bytes], compressed or not, and it leaves the
    connection either going on with only message events pushed, ended by the socket
    with nothing pushed, or closed with one close event.  The exceptions are the
    allocation of a declared payload that exceeds what a vector can hold, and, when
    compression was negotiated, a stream of zlib that makes no progress. *)
Lemma reader_turn_bounds now r c : rstate_ok r -> max_message_bytes options <= max_alloc ->
  match reader_turn now r c with
  | Ret (Again r' c') => rstate_ok r' /\ turned c c'
  | Ret (Finished c') => (hushed c c' \/ closed_by c c') /\ same_deflate c c'
  | Throw w => w = "resize"%string
  | OutOfFuel => deflate (sess c) <> None
  | Ub => False
  end.
Proof. intros Hr Ha. exact (reader_turn_post now r c Hr Ha). Qed.
End Reader.

(** * Messages against the server *)

(** [read_text] called until it has returned [n] messages. *)
Fixpoint read_texts (n : nat) (r : reader) (s : socket) : outcome (option (list bytes * reader * socket)) :=
  match n with
  | O => Ret (Some ([], r, s))
  | S n' =>
      '(res, r, s) ← read_text r s;
      match res with
      | Message m =>
          l ← read_texts n' r s;
          Ret (option_map (fun '(ms, r, s) => (m :: ms, r, s)) l)
      | _ => Ret None
      end
  end.

(** [wire] is read by a server as exactly [ms]. *)
Definition carries (wire : bytes) (ms : list bytes) : Prop :=
  forall r s tail, live s -> fragmented_opcode r = 0 -> stream r s = wire ++ tail ->
    exists r' s', read_texts (length ms) r s = Ret (Some (ms, r', s')) /\ stream r' s' = tail /\ live s' /\
      sent s' = sent s /\ require_mask r' = require_mask r /\ fragmented_opcode r' = 0.

Lemma carries_nil : carries [] [].
Proof. intros r s tail Hl Hf Hst. exists r, s. done. Qed.

Lemma carries_cons kfs m wire ms : message_frames text_message m kfs -> carries wire ms ->
  carries (wires true kfs ++ wire) (m :: ms).
Proof.
  intros (Hm & Hs & Hp) Hc r s tail Hl Hf Hst. rewrite <- app_assoc in Hst.
  destruct (text_message_delivers true kfs m Hm Hs (read_fuel r s) r s (wire ++ tail)) as (r1 & s1 & E & Hst1 & Hl1 & Hs1 & Hr1 & Hf1);
    [done|done|done|done|unfold read_fuel, cost; lia|].
  rewrite Hp, app_nil_r in Hs1. destruct (Hc r1 s1 tail Hl1 Hf1 Hst1) as (r2 & s2 & E2 & H1 & H2 & H3 & H4 & H5).
  exists r2, s2. split_and!; [|done|done|congruence|congruence|done].
  cbn [length read_texts]. unfold read_text. rewrite E. cbn [mbind outcome_bind]. unfold read_texts in *. rewrite E2. done.
Qed.

Section Machine.
Context {zstate : Type} (inflate_init deflate_init : Z -> option zstate)
        (inflate_call deflate_call : zstate -> bytes -> zresult * bytes * bytes * zstate)
        (zreset : zstate -> option zstate) (zbound : zstate -> bytes -> nat) (random : nat -> Z) (max_alloc : Z)
        (tcp_connect : bytes -> bytes -> option socket) (tls_connect : bytes -> Z -> bytes + socket) (native_deps : bool)
        (options : ws_client_options) (url : bytes) (protocols : list bytes).
Local Notation process_out := (process_out deflate_call zreset zbound random options).
Local Notation reader_turn := (reader_turn inflate_call zreset zbound random max_alloc options).
Local Notation step := (step inflate_init deflate_init inflate_call deflate_call zreset zbound random max_alloc
                          tcp_connect tls_connect native_deps options url protocols).
Local Notation run := (run inflate_init deflate_init inflate_call deflate_call zreset zbound random max_alloc
                         tcp_connect tls_connect native_deps options url protocols).
Implicit Types (c : @client zstate) (m : @machine zstate).

Lemma run_app ls1 ls2 m : run (ls1 ++ ls2) m = m ← run ls1 m; run ls2 m.
Proof.
  revert m. induction ls1 as [|l ls1 IH]; intros m; cbn [app WsClient.run]; [done|].
  destruct (step l m); cbn [mbind outcome_bind]; [apply IH|done..].
Qed.

(** ** Text messages through the queue *)

(** A text and the fragment size asked for. *)
Definition text_out (t : bytes * Z) : out_msg := MkOut op_text t.1 0 t.2.
Definition total_size (ts : list (bytes * Z)) : Z := foldr (fun t n => zlen t.1 + n) 0 ts.

Lemma total_size_nonneg ts : 0 <= total_size ts.
Proof. unfold total_size. induction ts; cbn; lia. Qed.

Lemma process_text t c : deflate (sess c) = None -> open_sock c -> fits_server options t.2 t.1 -> zlen t.1 <= buffered c ->
  exists c' kfs, process_out (text_out t) c = Ret c' /\ message_frames text_message t.1 kfs /\
    sends c (wires true kfs) c' /\ out_q c' = out_q c /\ buffered c' = buffered c - zlen t.1.
Proof.
  intros Hd Ho Hf Hb. unfold WsClient.process_out, text_out. cbn [op out_bytes out_max_fragment]. rewrite Hd.
  destruct (send_text_frames random options t.1 t.2 c Hf) as (ok & c' & -> & Q & S).
  destruct (S Ho) as (-> & kfs & Hk & S'). cbn [mbind outcome_bind]. eexists _, kfs. split; [done|]. split; [done|].
  unfold unbuffer. rewrite (h_buffered _ _ (q_hushed _ _ Q)). destruct (Z.leb_spec (zlen t.1) (buffered c)); [|lia].
  split; [|split; [exact (h_out _ _ (q_hushed _ _ Q))|done]]. destruct S' as [H1 H2]. by split.
Qed.

Lemma drain_texts now rd0 taken0 cs0 ts : forall c, out_q c = map text_out ts -> deflate (sess c) = None -> open_sock c ->
  Forall (fun t => fits_server options t.2 t.1) ts -> total_size ts <= buffered c ->
  exists c' wire, run (replicate (length ts) (Worker now)) (MkMachine c rd0 WQueue taken0 cs0) =
    Ret (MkMachine c' rd0 WQueue taken0 cs0) /\
    out_q c' = [] /\ buffered c' = buffered c - total_size ts /\ sends c wire c' /\ carries wire (map fst ts).
Proof.
  induction ts as [|t ts IH]; intros c Hq Hd Ho Hf Hb; cbn [length replicate WsClient.run map].
  - exists c, []. split_and!; [done|done|cbn; lia|by apply sends_nil|apply carries_nil].
  - apply Forall_cons in Hf as [Hf1 Hf]. cbn [total_size foldr] in *. change (foldr _ 0 ts) with (total_size ts) in *.
    pose proof (total_size_nonneg ts).
    cbn [WsClient.step worker_step wk cl]. rewrite Hq. cbn [map].
    destruct (process_text t (set_out_q (map text_out ts) c)) as (c1 & kfs & -> & Hk & S & Hq1 & Hb1); [done|done|done|cbn; lia|].
    cbn [mbind outcome_bind rd taken]. cbn [set_out_q out_q buffered] in Hq1, Hb1.
    destruct (IH c1) as (c' & wire & E & H1 & H2 & H3 & H4); try done.
    { by rewrite (s_sess _ _ _ S). }
    { by eapply sends_open. }
    { lia. }
    exists c', (wires true kfs ++ wire). split_and!; [done|done|lia| |by apply carries_cons].
    eapply sends_trans; [|done]. destruct S as [S1 S2]. by split.
Qed.

Lemma queue_texts ts : forall m, state (cl m) = open_ -> 0 <= buffered (cl m) -> buffered (cl m) + total_size ts < 2 ^ 64 ->
  run (map (fun t => SendText t.1 t.2) ts) m =
  Ret (MkMachine (set_out_q (out_q (cl m) ++ map text_out ts) (set_buffered (buffered (cl m) + total_size ts) (cl m)))
         (rd m) (wk m) (taken m) (closers m)).
Proof.
  induction ts as [|t ts IH]; intros [c r w tk cs] Hs H0 Hb; cbn [cl rd wk taken] in *.
  - cbn [map WsClient.run total_size foldr]. rewrite app_nil_r, Z.add_0_r. by destruct c.
  - cbn [total_size foldr] in *. change (foldr _ 0 ts) with (total_size ts) in *. pose proof (total_size_nonneg ts).
    cbn [map WsClient.run WsClient.step mbind outcome_bind]. rewrite IH.
    + cbn [with_client cl rd wk taken]. unfold send_text, queue_message. rewrite bool_decide_false by naive_solver.
      rewrite u64_small by lia. cbn [set_out_q set_buffered out_q buffered].
      rewrite <- app_assoc. unfold set_out_q, set_buffered. cbn. do 3 f_equal. lia.
    + cbn [with_client cl]. unfold send_text, queue_message. by rewrite bool_decide_false by naive_solver.
    + cbn [with_client cl]. unfold send_text, queue_message. rewrite bool_decide_false by naive_solver. cbn. rewrite u64_small; lia.
    + cbn [with_client cl]. unfold send_text, queue_message. rewrite bool_decide_false by naive_solver. cbn. rewrite u64_small; lia.
Qed.

(** ** The handshake leaves the state and the queues alone *)

Lemma recv_headers_total : forall fuel out c, 16 * 1024 - zlen out <= Z.of_nat fuel ->
  exists r c', recv_headers_loop fuel out c = Ret (r, c') /\ quiet c c'.
Proof.
  induction fuel as [|fuel IH]; intros out c Hf; cbn [recv_headers_loop]; change (16 * 1024) with 16384 in *.
  - destruct (Z.leb_spec 16384 (zlen out)); [|lia]. by exists None, c.
  - destruct (Z.leb_spec 16384 (zlen out)); [by exists None, c|].
    destruct (transport_recv_n_spec 1 c) as (r & c1 & -> & Q & Hr). cbn [mbind outcome_bind].
    destruct r as [b|]; [|by exists None, c1]. specialize (Hr b eq_refl).
    destruct (ends_with _ _); [by exists (Some (out ++ b)), c1|].
    destruct (IH (out ++ b) c1) as (r & c2 & -> & Q2); [rewrite length_app; lia|].
    exists r, c2. split; [done|by etrans].
Qed.

Lemma header_values_total name : forall fuel rest, (length rest <= fuel)%nat ->
  exists l, header_values_loop fuel rest name = Ret l.
Proof.
  induction fuel as [|fuel IH]; intros [|b rest] Hf; cbn [header_values_loop]; try (by exists []); [cbn in Hf; lia|].
  destruct (find_str crlf (b :: rest)) as [eol|] eqn:E; [|by exists []].
  apply find_str_spec in E as (n & -> & _). destruct (IH (substr_from (b :: rest) (Z.of_nat n + 2))) as (l & ->).
  { unfold substr_from, zdrop. rewrite length_drop. cbn [length] in *. lia. }
  cbn [mbind outcome_bind]. by eexists.
Qed.

(** permessage-deflate is offered. *)
Definition may_compress : bool := native_deps && compress options.
Definition deflate_allowed c : Prop := deflate (sess c) <> None -> may_compress = true.

Lemma connect_transport_spec host port secure c : exists ok c',
  connect_transport tcp_connect tls_connect native_deps host port secure c = (ok, c') /\ hushed c c' /\
  deflate (sess c') = deflate (sess c).
Proof. unfold connect_transport. repeat case_match; eexists _, _; (split; [done|]); (split; [by split|done]). Qed.

Lemma handshake_connect_spec c : exists r c',
  handshake_connect tcp_connect tls_connect native_deps url c = (r, c') /\ hushed c c' /\ deflate (sess c') = deflate (sess c).
Proof.
  unfold handshake_connect. destruct (parse_ws_url url) as [[[[host port] path] secure]|]; [|by exists None, c].
  destruct (stop c); [by exists None, c|].
  destruct (connect_transport_spec host port secure c) as (ok & c' & -> & H). eauto.
Qed.

Lemma handshake_send_spec target c : exists ok c',
  handshake_send random native_deps options protocols target c = (ok, c') /\ quiet c c'.
Proof.
  destruct target as [[[host port] path] secure]. unfold handshake_send.
  destruct (stop c); [exists false; eexists; split; [done|apply quiet_close]|].
  cbn [draw_nonce]. destruct (transport_send_all _ _) as [ok c'] eqn:E. exists ok, c'. split; [done|].
  apply transport_send_all_spec in E as [Q _]. etrans; [apply quiet_draws|exact Q].
Qed.

Lemma handshake_receive_spec c : deflate_allowed c -> exists ok c',
  handshake_receive inflate_init deflate_init native_deps options c = Ret (ok, c') /\ hushed c c' /\ deflate_allowed c'.
Proof.
  intros Hd. unfold handshake_receive. destruct (stop c); [by exists false, c|]. unfold read_response, transport_recv_http_headers.
  destruct (recv_headers_total (Z.to_nat (16 * 1024)) [] c) as (r & c1 & -> & [H1 E1]); [cbn; lia|].
  assert (Hd1 : deflate_allowed c1) by (unfold deflate_allowed; by rewrite E1).
  cbn [mbind outcome_bind]. destruct r as [headers|]; [|by exists false, c1].
  destruct (_ && _); [by exists false, c1|].
  set (c2 := match find_protocol headers with Some p => set_protocol p c1 | None => c1 end).
  assert (H2 : hushed c c2 /\ deflate_allowed c2).
  { unfold c2. destruct (find_protocol headers); [|done]. split; [etrans; [exact H1|by apply hushed_sess]|exact Hd1]. }
  clearbody c2. destruct H2 as [H2 Hd2]. destruct (compress options) eqn:Ec; [|by exists true, c2].
  unfold negotiate_permessage_deflate. destruct native_deps eqn:En; cbn [negb].
  - destruct (header_values_total (str "sec-websocket-extensions") (length headers) headers ltac:(done)) as (l & El).
    unfold header_values. rewrite El. cbn [mbind outcome_bind].
    assert (Hm : may_compress = true) by (unfold may_compress; by rewrite En, Ec).
    destruct (negotiate_loop _ _ _) as [error|[[ext d]|]]; eexists _, _; (split; [done|]);
      (split; [etrans; [exact H2|by apply hushed_sess]|by intros _]).
  - eexists _, _. split; [done|]. split; [etrans; [exact H2|by apply hushed_sess]|]. by intros H.
Qed.

(** ** One queued message *)

(** zlib's deflate on an input that is not empty: it succeeds, its output ends with
    the marker of a sync flush, and the stream can be reset. *)
Definition compression_works : Prop := forall z data, data <> [] ->
  exists out z', deflate_loop deflate_call (zbound z data) z data [] = Ret (Some out, z') /\
    ends_with sync_tail out = true /\ zreset z' <> None.

(** What may be compressed: not empty, and not beyond 32 bits. *)
Definition compressible (data : bytes) : Prop := may_compress = true -> 0 < zlen data < 2 ^ 32.
Definition queued_ok (o : out_msg) : Prop :=
  0 <= out_max_fragment o /\ match op o with op_close => True | _ => compressible (out_bytes o) end.

Record worked c c' : Prop := MkWorked {
  w_state : state c' = state c; w_stop : stop c = true -> stop c' = true; w_out : out_q c' = out_q c;
  w_in : in_q c' = in_q c; w_deflate : deflate (sess c') = None <-> deflate (sess c) = None }.

Lemma quiet_worked c c' : quiet c c' -> worked c c'.
Proof. intros [[] E]. split; try congruence. by rewrite E. Qed.
Lemma worked_trans c1 c2 c3 : worked c1 c2 -> worked c2 c3 -> worked c1 c3.
Proof. intros [? ? ? ? []] [? ? ? ? []]. split; try congruence; auto. split; auto. Qed.

Lemma deflate_message_works d data c : compression_works -> deflate (sess c) = Some d -> 0 < zlen data < 2 ^ 32 ->
  exists w c', deflate_message deflate_call zreset zbound data c = Ret (Some w, c') /\ worked c c'.
Proof.
  intros Hz Hd Hl. unfold deflate_message. rewrite Hd.
  assert (Ea : avail data = data) by (unfold avail; rewrite u32_small by lia; apply take_ge; lia). rewrite Ea.
  destruct (Hz (deflater d) data) as (out & z & -> & Ht & Hr); [intros ->; cbn in Hl; lia|].
  assert (Hset : forall d', worked c (set_deflate d' c)) by (intros d'; split; try done; cbn; split; congruence).
  cbn [mbind outcome_bind]. rewrite Ht. cbn [negb].
  destruct (client_no_context_takeover d); [destruct (zreset z); [|done]|]; eexists _, _; (split; [done|]).
  - exact (Hset _).
  - exact (Hset _).
Qed.

Lemma fragments_total opcode compressed limit : (0 < limit)%nat -> forall fuel data first c, (length data <= fuel)%nat ->
  exists ok c', fragments random fuel opcode data limit first compressed c = Ret (ok, c') /\ quiet c c'.
Proof.
  intros Hl. induction fuel as [|fuel IH]; intros [|b data] first c Hf; cbn [fragments]; try (by exists true, c); [cbn in Hf; lia|].
  set (d := b :: data) in *.
  destruct (send_frame_total random (if first then opcode else 0) (take limit d) (length d <=? limit)%nat (first && compressed) c)
    as (ok & c1 & -> & Q). cbn [mbind outcome_bind]. destruct ok; cbn [negb]; [|by exists false, c1].
  destruct (IH (drop limit d) false c1) as (ok & c2 & -> & Q2); [rewrite length_drop; cbn [length d] in *; lia|].
  exists ok, c2. split; [done|by etrans].
Qed.

Context (Hfragment : 0 <= max_fragment_bytes options).

Lemma send_message_total opcode data mf compressed c : 0 <= mf -> exists ok c',
  send_message random options opcode data mf compressed c = Ret (ok, c') /\ quiet c c'.
Proof.
  intros Hm. unfold send_message. set (limit := if mf =? 0 then _ else _).
  assert (Hl : 0 <= limit) by (unfold limit; destruct (mf =? 0); lia).
  destruct ((limit =? 0) || (zlen data <=? limit)) eqn:E; [apply send_frame_total|].
  apply orb_false_iff in E as [E1 E2]. apply Z.eqb_neq in E1. apply fragments_total; lia.
Qed.

Lemma unbuffer_worked n c : worked c (unbuffer n c).
Proof. unfold unbuffer. destruct (n <=? buffered c); by split. Qed.

Lemma process_out_spec o c : (may_compress = true -> compression_works) -> deflate_allowed c -> queued_ok o ->
  exists c', process_out o c = Ret c' /\ worked c c'.
Proof.
  intros Hz Hd [Hf Hq]. unfold WsClient.process_out.
  assert (Hsend : forall opcode data compressed c1, worked c c1 -> exists c',
    ('(_, c) ← send_message random options opcode data (out_max_fragment o) compressed c1; Ret (unbuffer (zlen (out_bytes o)) c)) = Ret c' /\
    worked c c').
  { intros opcode data compressed c1 H1. destruct (send_message_total opcode data (out_max_fragment o) compressed c1 Hf)
      as (ok & c2 & -> & Q). eexists. split; [done|].
    eapply worked_trans; [exact H1|]. eapply worked_trans; [by apply quiet_worked|apply unbuffer_worked]. }
  assert (Hdata : forall opcode, compressible (out_bytes o) -> exists c', match deflate (sess c) with
      | None => '(_, c) ← send_message random options opcode (out_bytes o) (out_max_fragment o) false c; Ret (unbuffer (zlen (out_bytes o)) c)
      | Some _ => '(w, c) ← deflate_message deflate_call zreset zbound (out_bytes o) c;
          match w with
          | None => compression_failed random c
          | Some wire => '(_, c) ← send_message random options opcode wire (out_max_fragment o) true c; Ret (unbuffer (zlen (out_bytes o)) c)
          end
      end = Ret c' /\ worked c c').
  { intros opcode Hc. destruct (deflate (sess c)) as [d|] eqn:Ed; [|by apply Hsend, quiet_worked].
    assert (Hm : may_compress = true) by (apply Hd; by rewrite Ed).
    destruct (deflate_message_works d (out_bytes o) c (Hz Hm) Ed (Hc Hm)) as (w & c1 & -> & H1). cbn [mbind outcome_bind].
    by apply Hsend. }
  destruct (op o); [by apply Hdata|by apply Hdata|].
  destruct (send_close_total random (out_code o) (out_bytes o) c) as (c1 & -> & Q). eexists. split; [done|].
  apply quiet_worked in Q as []. by split.
Qed.

(** ** The threads *)

Definition is_close (e : ws_event) : Prop := kind e = ev_close.
Definition log m : list ws_event := taken m ++ in_q (cl m).

(** No close event yet and the state is not closed, or the state is closed and the
    last event, alone, is the close. *)
Definition close_once (s : ws_ready_state) (l : list ws_event) : Prop :=
  (s <> closed /\ Forall (fun e => ~ is_close e) l) \/
  (s = closed /\ exists evs e, l = evs ++ [e] /\ is_close e /\ Forall (fun e => ~ is_close e) evs).

Definition closes (l : list ws_event) : nat := length (List.filter (fun e => bool_decide (kind e = ev_close)) l).

(** The same after [n] calls of [close] that took the state out of [closed]. *)
Definition close_count (n : nat) (s : ws_ready_state) (l : list ws_event) : Prop :=
  closes l = (n + if bool_decide (s = closed) then 1 else 0)%nat /\ (n = 0%nat -> close_once s l).

(** The invariant of the machine while keep-alive is off, [n] counting those calls. *)
Record inv (n : nat) m : Prop := MkInv {
  i_close : close_count n (state (cl m)) (log m);
  i_worker : match wk m with
             | WConnect | WRequest _ | WResponse | WFailed | WOpen => rd m = RNone /\ state (cl m) <> closed
             | WDone => (n = 0%nat -> state (cl m) = closed) /\ (forall r, rd m <> RLoop r)
             | _ => True
             end;
  i_reader : forall r, rd m = RLoop r -> rstate_ok options r /\ state (cl m) <> closed;
  i_queue : Forall queued_ok (out_q (cl m));
  i_deflate : deflate_allowed (cl m) }.

Definition step_post (n : nat) (o : outcome (@machine zstate)) : Prop :=
  match o with
  | Ret m => inv n m
  | Throw w => w = "resize"%string
  | OutOfFuel => may_compress = true
  | Ub => False
  end.

Lemma inv_new : inv 0 new_machine.
Proof. split; cbn; try done; [split; [done|left; split; [done|apply Forall_nil_2]]|by intros []]. Qed.

Lemma closes_app l1 l2 : closes (l1 ++ l2) = (closes l1 + closes l2)%nat.
Proof. unfold closes. by rewrite List.filter_app, length_app. Qed.

Lemma closes_none l : Forall (fun e => ~ is_close e) l -> closes l = 0%nat.
Proof.
  unfold closes. induction 1 as [|e l He Hl IH]; [done|]. cbn [List.filter]. by rewrite bool_decide_false.
Qed.

Lemma closes_one e : is_close e -> closes [e] = 1%nat.
Proof. intros He. unfold closes. cbn [List.filter]. by rewrite bool_decide_true. Qed.

Lemma close_once_open n s s' l : close_count n s l -> s <> closed -> s' <> closed -> close_count n s' l.
Proof.
  intros [E H] ? ?. rewrite bool_decide_false in E by done. split; [by rewrite bool_decide_false|].
  intros Hn. destruct (H Hn) as [[_ ?]|[? _]]; [by left|done].
Qed.

Lemma close_once_event n s l e : close_count n s l -> s <> closed -> is_close e -> close_count n closed (l ++ [e]).
Proof.
  intros [E H] ? ?. rewrite bool_decide_false in E by done. split.
  - rewrite closes_app, closes_one, bool_decide_true by done. lia.
  - intros Hn. destruct (H Hn) as [[_ ?]|[? _]]; [|done]. right. split; [done|]. by exists l, e.
Qed.

Lemma close_once_more n s l evs :
  close_count n s l -> s <> closed -> Forall (fun e => ~ is_close e) evs -> close_count n s (l ++ evs).
Proof.
  intros [E H] ? ?. split; [rewrite closes_app, (closes_none evs) by done; lia|].
  intros Hn. destruct (H Hn) as [[? ?]|[? _]]; [|done]. left. split; [done|]. by apply Forall_app.
Qed.

(** A state taken out of [closed]. *)
Lemma close_once_revive n s l : close_count n closed l -> s <> closed -> close_count (S n) s l.
Proof.
  intros [E _] ?. rewrite bool_decide_true in E by done. split; [|done].
  rewrite E, bool_decide_false by done. lia.
Qed.

Context (Hmax : 0 <= max_message_bytes options <= max_alloc) (Hidle : idle_timeout_ms options = 0)
        (Hzlib : may_compress = true -> compression_works).

Lemma reader_inv n now m : inv n m -> step_post n (step (Reader now) m).
Proof.
  intros Hm. cbn [WsClient.step]. unfold reader_step. destruct (rd m) as [|r|] eqn:Er; [exact Hm| |exact Hm].
  destruct Hm as [H1 H2 H3 H4 H5]. destruct (H3 r Er) as [Hr Hs].
  assert (Hw : match wk m with WConnect | WRequest _ | WResponse | WFailed | WOpen | WDone => False | _ => True end).
  { destruct (wk m); try done; destruct H2 as [E1 E2]; congruence. }
  destruct (stop (cl m)).
  { split; cbn [cl rd wk taken]; [done|by destruct (wk m)|by intros ? [=]|done|done]. }
  pose proof (reader_turn_post inflate_call zreset zbound random max_alloc options (proj1 Hmax) now r (cl m) Hr (proj2 Hmax)) as Hp.
  destruct (reader_turn now r (cl m)) as [[r' c'|c']| | |]; cbn [mbind outcome_bind]; [| |exact Hp|done|by apply H5].
  - destruct Hp as [Hr' [T1 T2 T3 T4 T5 (evs & T6 & T7)]]. split; cbn [cl rd wk taken].
    + unfold log in *. cbn [taken cl]. rewrite T1, T6, app_assoc. apply close_once_more; [done|done|].
      eapply Forall_impl; [exact T7|]. intros e He Hc. unfold message_within in He. unfold is_close in Hc. by rewrite Hc in He.
    + by destruct (wk m).
    + intros r0 [= <-]. by rewrite T1.
    + by rewrite T4.
    + unfold deflate_allowed, same_deflate in *. intros Hd. apply H5. tauto.
  - destruct Hp as [Hp D].
    assert (Hd : deflate_allowed c') by (unfold deflate_allowed, same_deflate in *; intros ?; apply H5; tauto).
    destruct Hp as [[T1 T2 T3 T4 T5]|[T1 T2 T3 T4 (e & T5 & T6)]]; (split; cbn [cl rd wk taken]; [|by destruct (wk m)|by intros ? [=]|by rewrite ?T3, ?T4|done]).
    + unfold log in *. cbn [taken cl]. by rewrite T1, T5.
    + unfold log in *. cbn [taken cl]. rewrite T1, T5, app_assoc. by eapply close_once_event.
Qed.

(** Steps that change only what the invariant does not see. *)
Lemma inv_hushed n c c' w m : inv n m -> cl m = c -> hushed c c' -> deflate_allowed c' ->
  match w with
  | WConnect | WRequest _ | WResponse | WFailed | WOpen => rd m = RNone /\ state c <> closed
  | WDone => (n = 0%nat -> state c = closed) /\ (forall r, rd m <> RLoop r)
  | _ => True
  end -> inv n (MkMachine c' (rd m) w (taken m) (closers m)).
Proof.
  intros [H1 H2 H3 H4 H5] <- [T1 T2 T3 T4 T5] Hd Hw. split; cbn [cl rd wk taken]; [| | | |done].
  - unfold log in *. cbn [taken cl]. by rewrite T1, T5.
  - rewrite T1. by destruct w.
  - intros r Hr. rewrite T1. by apply H3.
  - by rewrite T4.
Qed.

(** The worker's two ways to close the connection. *)
Lemma inv_closed n evs e m : inv n m -> state (cl m) <> closed -> (forall r, rd m <> RLoop r) ->
  Forall (fun e => ~ is_close e) evs -> is_close e ->
  inv n (MkMachine (set_state closed (set_in_q ((in_q (cl m) ++ evs) ++ [e]) (cl m))) (rd m) WDone (taken m) (closers m)).
Proof.
  intros [H1 H2 H3 H4 H5] Hs Hr Hevs He. split; cbn [cl rd wk taken]; [|done| |done|done].
  - unfold log in *. cbn [taken cl set_state set_in_q in_q state]. rewrite !app_assoc.
    apply (close_once_event _ (state (cl m))); [|done|done]. by apply close_once_more.
  - intros r Hr'. by specialize (Hr r).
Qed.

Lemma worker_inv n now m : inv n m -> step_post n (step (Worker now) m).
Proof.
  intros Hm. pose proof Hm as [H1 H2 H3 H4 H5]. cbn [WsClient.step]. unfold worker_step.
  destruct (wk m) as [|target| | | | | | | | |] eqn:Ew.
  - destruct (handshake_connect_spec (cl m)) as (r & c' & -> & H & E).
    assert (deflate_allowed c') by (unfold deflate_allowed; by rewrite E).
    destruct r; cbn [mbind outcome_bind]; by apply (inv_hushed n (cl m)).
  - destruct (handshake_send_spec target (cl m)) as (ok & c' & -> & [H E]).
    assert (deflate_allowed c') by (unfold deflate_allowed; by rewrite E).
    cbn [mbind outcome_bind]. apply (inv_hushed n (cl m)); try done. by destruct ok.
  - destruct (handshake_receive_spec (cl m) H5) as (ok & c' & -> & H & Hd). cbn [mbind outcome_bind].
    apply (inv_hushed n (cl m)); try done. by destruct ok.
  - destruct H2 as [E Hs]. cbn [mbind outcome_bind]. set (text := if bool_decide _ then _ else _).
    apply (inv_closed n [error_event text]); [done|done|rewrite E; done| |done]. by repeat constructor.
  - destruct H2 as [E Hs]. cbn [mbind outcome_bind]. split; cbn [cl rd wk taken]; [|done| |done|done].
    + unfold log. cbn. rewrite app_assoc. apply close_once_more; [|done|by repeat constructor].
      by apply (close_once_open _ (state (cl m))).
    + intros r [= <-]. split; [|done]. split; [cbn; lia|by left].
  - destruct (stop (cl m)); [by apply (inv_hushed n (cl m))|]. destruct (_ && _); [done|]. by apply (inv_hushed n (cl m)).
  - destruct (out_q (cl m)) as [|o q] eqn:Eq; [by apply (inv_hushed n (cl m))|]. apply Forall_cons in H4 as [Ho Hq].
    destruct (process_out_spec o (set_out_q q (cl m)) Hzlib H5 Ho) as (c' & -> & [W1 W2 W3 W4 W5]). cbn [mbind outcome_bind].
    cbn [set_out_q state stop out_q in_q sess] in *. split; cbn [cl rd wk taken]; [|done| | |].
    + unfold log in *. cbn [taken cl]. by rewrite W1, W4.
    + intros r Hr. rewrite W1. by apply H3.
    + by rewrite W3.
    + unfold deflate_allowed in *. intros Hd. apply H5. tauto.
  - unfold check_idle. rewrite Hidle. cbn [Z.eqb mbind outcome_bind]. by apply (inv_hushed n (cl m)).
  - by apply (inv_hushed n (cl m)).
  - assert (Hdone : (forall r, rd m <> RLoop r) -> step_post n (r ←
      (if bool_decide (state (cl m) <> closed)
       then Ret (Some (MkMachine (set_state closed (push_event (close_event 1000 [] true) (cl m))) (rd m) WDone (taken m) (closers m)))
       else Ret (Some (MkMachine (cl m) (rd m) WDone (taken m) (closers m)))); Ret (match r with Some m' => m' | None => m end))).
    { intros Hr. case_bool_decide as Hs; cbn [mbind outcome_bind].
      - pose proof (inv_closed n [] (close_event 1000 [] true) m Hm Hs Hr) as H. rewrite app_nil_r in H. by apply H.
      - by apply (inv_hushed n (cl m)). }
    destruct (rd m) as [|r|] eqn:Er; [by apply Hdone|exact Hm|by apply Hdone].
  - exact Hm.
Qed.

(** What the callers may ask: sizes are not negative, what may be compressed is
    neither empty nor beyond 32 bits. *)
Definition label_ok (l : label) : Prop :=
  match l with
  | SendText data mf | SendBinary data mf => 0 <= mf /\ compressible data
  | _ => True
  end.

Lemma queue_inv n o data mf m : inv n m -> 0 <= mf -> compressible data -> inv n (with_client (queue_message o data mf) m).
Proof.
  intros [H1 H2 H3 H4 H5] Hmf Hc. unfold with_client, queue_message. case_bool_decide; [by destruct m|].
  split; cbn [cl rd wk taken]; try done. cbn. apply Forall_app. split; [done|]. constructor; [|done].
  split; [done|]. by destruct o.
Qed.

(** A call of [close] that loaded the state before the connection was closed and
    stores [closing] after. *)
Definition revives (l : label) (m : @machine zstate) : bool :=
  match l with
  | CloseStore t _ _ =>
      match closers m !! t with
      | Some cur => bool_decide (state (cl m) = closed) && negb (bool_decide (cur = closed \/ cur = closing))
      | None => false
      end
  | _ => false
  end.

Lemma close_loaded_inv n k cur code reason cs m : inv n m ->
  k = (n + if bool_decide (state (cl m) = closed) && negb (bool_decide (cur = closed \/ cur = closing)) then 1 else 0)%nat ->
  inv k (MkMachine (close_loaded cur code reason (cl m)) (rd m) (wk m) (taken m) cs).
Proof.
  intros Hm ->. pose proof Hm as [H1 H2 H3 H4 H5]. unfold close_loaded.
  destruct (bool_decide (cur = closed \/ cur = closing)) eqn:Ecur.
  { rewrite andb_false_r, Nat.add_0_r. by split. }
  clear Ecur. cbn [negb]. rewrite andb_true_r.
  assert (Hc : forall c', in_q c' = in_q (cl m) -> out_q c' = out_q (cl m) ++ [MkOut op_close reason code 0] ->
    state c' = closing -> sess c' = sess (cl m) ->
    inv (n + if bool_decide (state (cl m) = closed) then 1 else 0) (MkMachine c' (rd m) (wk m) (taken m) cs)).
  { intros c' E1 E2 E3 E4. split; cbn [cl rd wk taken].
    - unfold log in *. cbn [taken cl]. rewrite E1, E3. case_bool_decide as Hs.
      + rewrite Nat.add_1_r. apply close_once_revive; [|done]. by rewrite <- Hs.
      + rewrite Nat.add_0_r. by apply (close_once_open _ (state (cl m))).
    - rewrite E3. destruct (wk m); try done; destruct H2 as [H2 H2']; split; try done.
      intros Hn. case_bool_decide as Hs; [lia|]. exfalso. apply Hs, H2. lia.
    - intros r Hr. rewrite E3. split; [by apply H3|done].
    - rewrite E2. apply Forall_app. split; [done|]. by repeat constructor.
    - unfold deflate_allowed. by rewrite E4. }
  destruct (bool_decide (cur = connecting)); by apply Hc.
Qed.

Definition revived (l : label) (m : @machine zstate) : nat := if revives l m then 1 else 0.

Lemma step_inv n l m : inv n m -> label_ok l -> step_post (n + revived l m) (step l m).
Proof.
  intros Hm Hl. unfold revived.
  destruct l as [now|now|data mf|data mf|t|t code reason| |]; cbn [label_ok revives] in *; rewrite ?Nat.add_0_r.
  - by apply worker_inv.
  - by apply reader_inv.
  - destruct Hl. by apply queue_inv.
  - destruct Hl. by apply queue_inv.
  - destruct Hm as [H1 H2 H3 H4 H5]. by split.
  - cbn [WsClient.step]. destruct (closers m !! t) as [cur|]; [|by rewrite Nat.add_0_r].
    by apply (close_loaded_inv n).
  - destruct Hm as [H1 H2 H3 H4 H5]. split; cbn [cl rd wk taken]; try done.
    unfold log in *. cbn. by rewrite app_nil_r.
  - by destruct Hm as [H1 H2 H3 H4 H5].
Qed.

(** The number of such calls in a run. *)
Fixpoint revivals (ls : list label) (m : @machine zstate) : nat :=
  match ls with
  | [] => 0
  | l :: ls => revived l m + match step l m with Ret m' => revivals ls m' | _ => 0 end
  end.

Lemma run_inv ls : forall n m, inv n m -> Forall label_ok ls -> step_post (n + revivals ls m) (run ls m).
Proof.
  induction ls as [|l ls IH]; intros n m Hm Hls; cbn [WsClient.run revivals]; [by rewrite Nat.add_0_r|].
  apply Forall_cons in Hls as [Hl Hls]. pose proof (step_inv n l m Hm Hl) as H.
  destruct (step l m) as [m'| | |]; cbn [mbind outcome_bind]; [|exact H..].
  rewrite Nat.add_assoc. by apply IH.
Qed.
(** ** Shutting down *)

(** Steps of the worker to its join, once it has been asked to stop. *)
Definition rank m : nat :=
  match wk m with
  | WConnect | WRequest _ | WResponse | WTop => 2
  | WFailed | WShut => 1
  | WOpen | WIdle => 3
  | WQueue => 4 + length (out_q (cl m))
  | WJoin | WDone => 0
  end%nat.

Lemma worker_stops n now m : inv n m -> stop (cl m) = true ->
  exists m', step (Worker now) m = Ret m' /\ stop (cl m') = true /\ (rank m' < rank m \/ rank m' = 0)%nat.
Proof.
  intros Hm Hst. pose proof Hm as [_ _ _ H4 H5]. cbn [WsClient.step]. unfold worker_step, rank.
  destruct (wk m) as [|target| | | | | | | | |] eqn:Ew.
  - destruct (handshake_connect_spec (cl m)) as (r & c' & E & H & _). unfold handshake_connect in *.
    assert (Er : r = None). { rewrite Hst in E. repeat case_match; simplify_eq; done. }
    rewrite E, Er. cbn [mbind outcome_bind]. eexists. split; [done|]. cbn. split; [|lia]. by rewrite (h_stop _ _ H).
  - destruct target as [[[host port] path] secure]. unfold handshake_send. rewrite Hst. cbn [mbind outcome_bind].
    eexists. split; [done|]. cbn. split; [done|lia].
  - unfold handshake_receive. rewrite Hst. cbn [mbind outcome_bind]. eexists. split; [done|]. cbn. split; [done|lia].
  - eexists. split; [done|]. cbn. split; [done|lia].
  - eexists. split; [done|]. cbn. split; [done|lia].
  - rewrite Hst. eexists. split; [done|]. cbn. split; [done|lia].
  - destruct (out_q (cl m)) as [|o q] eqn:Eq; [eexists; split; [done|]; cbn; split; [done|lia]|].
    apply Forall_cons in H4 as [Ho Hq].
    destruct (process_out_spec o (set_out_q q (cl m)) Hzlib H5 Ho) as (c' & -> & [W1 W2 W3 W4 W5]). cbn [mbind outcome_bind].
    cbn [set_out_q state stop out_q in_q sess] in *. eexists. split; [done|]. cbn [cl wk length]. rewrite W3. split; [auto|lia].
  - unfold check_idle. rewrite Hidle. cbn [Z.eqb mbind outcome_bind]. eexists. split; [done|]. cbn. split; [done|lia].
  - eexists. split; [done|]. cbn. split; [done|lia].
  - destruct (rd m) eqn:Er; [..|exists m; split; [done|]; rewrite Ew; cbn; split; [done|lia]|];
      (case_bool_decide; eexists; (split; [done|]); cbn; split; [done|lia|done|lia]).
  - exists m. split; [done|]. rewrite Ew. split; [done|lia].
Qed.

Lemma worker_reaches_join n now : forall k m, inv n m -> stop (cl m) = true -> (rank m <= k)%nat ->
  exists m', run (replicate k (Worker now)) m = Ret m' /\ inv n m' /\ stop (cl m') = true /\ rank m' = 0%nat.
Proof.
  induction k as [|k IH]; intros m Hm Hst Hr; cbn [replicate WsClient.run].
  - exists m. split_and!; [done|done|done|lia].
  - destruct (worker_stops n now m Hm Hst) as (m1 & E & Hst1 & Hr1). pose proof (worker_inv n now m Hm) as Hi. rewrite E in Hi |- *.
    cbn [mbind outcome_bind]. apply IH; [done|done|lia].
Qed.

Lemma shut_down n now m : inv n m -> stop (cl m) = true -> exists m',
  run (replicate (length (out_q (cl m)) + 4) (Worker now) ++ [Reader now; Worker now]) m = Ret m' /\ inv n m' /\ wk m' = WDone.
Proof.
  intros Hm Hst. destruct (worker_reaches_join n now (length (out_q (cl m)) + 4) m Hm Hst) as (m1 & E & Hm1 & Hst1 & Hr1).
  { unfold rank. destruct (wk m); lia. }
  rewrite run_app, E. cbn [mbind outcome_bind WsClient.run].
  assert (Hrd : exists m2, step (Reader now) m1 = Ret m2 /\ inv n m2 /\ wk m2 = wk m1 /\ (forall r, rd m2 <> RLoop r)).
  { pose proof (reader_inv n now m1 Hm1) as Hi. cbn [WsClient.step] in *. unfold reader_step in *.
    destruct (rd m1) eqn:Er; cbn [mbind outcome_bind] in *.
    - exists m1. rewrite Er. done.
    - rewrite Hst1 in *. eexists. split; [done|]. done.
    - exists m1. rewrite Er. done. }
  destruct Hrd as (m2 & -> & Hm2 & Hw2 & Hr2). cbn [mbind outcome_bind].
  pose proof (worker_inv n now m2 Hm2) as Hi. cbn [WsClient.step] in *. unfold worker_step in *. rewrite Hw2 in *.
  unfold rank in Hr1. destruct (wk m1); try lia.
  - destruct (rd m2) as [|r|]; [|by specialize (Hr2 r)|]; (case_bool_decide; cbn [mbind outcome_bind] in *; eexists; (split; [done|]); done).
  - cbn [mbind outcome_bind] in *. exists m2. done.
Qed.

(** * Properties *)

(** C17. Text messages queued while the connection is open reach the server: for any
    messages, empty ones included, with any fragment sizes the server takes, the calls of
    [send_text] followed by the worker's turns over its queue put bytes on the socket that
    the debugger's server, however they are cut into chunks, reads as exactly these
    messages, in this order and no others; [buffered_amount] is back to zero and the
    bytes after them are untouched. *)
Theorem texts_reach_server ts now m :
  ts <> [] -> state (cl m) = open_ -> stop (cl m) = false -> wk m = WTop -> out_q (cl m) = [] -> buffered (cl m) = 0 ->
  deflate (sess (cl m)) = None -> open_sock (cl m) -> total_size ts < 2 ^ 64 ->
  Forall (fun t => fits_server options t.2 t.1) ts ->
  exists m' wire,
    run (map (fun t => SendText t.1 t.2) ts ++ Worker now :: replicate (length ts) (Worker now)) m = Ret m' /\
    out_q (cl m') = [] /\ buffered (cl m') = 0 /\ sends (cl m) wire (cl m') /\ carries wire (map fst ts).
Proof.
  intros Hne Hs Hst Hw Hq Hb Hd Ho Hsz Hf. rewrite run_app, queue_texts by (done || lia). cbn [mbind outcome_bind WsClient.run].
  set (c1 := set_out_q _ _). assert (Hst1 : stop c1 = false) by exact Hst.
  assert (Hq1 : out_q c1 = map text_out ts) by (unfold c1; cbn; by rewrite Hq).
  cbn [WsClient.step]. unfold worker_step. cbn [wk cl]. rewrite Hw, Hst1, Hq1.
  rewrite (bool_decide_eq_false_2 (map text_out ts = [])) by (by destruct ts). rewrite andb_false_r.
  cbn [mbind outcome_bind rd taken].
  destruct (drain_texts now (rd m) (taken m) (closers m) ts c1) as (c' & wire & E & H1 & H2 & H3 & H4);
    [done|done|done|done|unfold c1; cbn; lia|].
  exists (MkMachine c' (rd m) WQueue (taken m) (closers m)), wire. split_and!; [exact E|exact H1| |by destruct H3; split|exact H4].
  cbn [cl]. rewrite H2. unfold c1. cbn. lia.
Qed.


(** The destructor does not hang.  In whatever state the threads are, once the
    destructor has asked them to stop the worker needs at most four steps more than it
    has messages queued, and the reader one, before the worker is done and its join
    returns; if no call of [close] raced the end of the connection, the close event has
    then been pushed, once. *)
Lemma destroy_joins now ls m : Forall label_ok ls -> run ls new_machine = Ret m -> exists m',
  run (Destroy :: replicate (length (out_q (cl m)) + 4) (Worker now) ++ [Reader now; Worker now]) m = Ret m' /\
  wk m' = WDone /\ (forall r, rd m' <> RLoop r) /\
  (revivals ls new_machine = 0%nat -> exists evs e, log m' = evs ++ [e] /\ is_close e /\ Forall (fun e => ~ is_close e) evs).
Proof.
  intros Hls Hrun. pose proof (run_inv ls 0 new_machine inv_new Hls) as Hm. rewrite Hrun in Hm. cbn [Nat.add] in Hm.
  pose proof (step_inv _ Destroy m Hm I) as Hd. unfold revived in Hd. cbn [revives] in Hd. rewrite Nat.add_0_r in Hd.
  cbn [WsClient.run WsClient.step] in *. cbn [mbind outcome_bind].
  destruct (shut_down _ now (with_client destroy m) Hd eq_refl) as (m' & E & Hi & Hw).
  exists m'. split; [exact E|]. split; [done|]. destruct Hi as [[_ H1] H2 _ _ _]. rewrite Hw in H2. destruct H2 as [H2 H3].
  split; [done|]. intros Hn. destruct (H1 Hn) as [[H _]|[_ H]]; [by rewrite H2 in H|exact H].
Qed.

End Machine.

(** * Witnesses *)

Definition demo_options : ws_client_options := MkOptions 1024 0 30000 4 true.
Definition demo_inflate (z : unit) (input : bytes) : zresult * bytes * bytes * unit := (Z_FAIL, [], input, z).
Definition demo_socket : socket :=
  MkSocket [switching_response (str "accept"); [0x81; 2; 104; 105]; [0x88; 0]] [] true.
Definition demo_run : list label -> @machine unit -> outcome machine :=
  run (fun _ => None) (fun _ => None) demo_inflate demo_inflate Some (fun _ _ => 0%nat) (fun _ => 7) (2 ^ 63)
      (fun _ _ => Some demo_socket) (fun _ _ => inl []) false demo_options (str "ws://h/") [].
Definition demo_open : @machine unit :=
  MkMachine (set_sock (Some (MkSocket [] [] true)) (set_state open_ new_client)) (RLoop (MkRstate [] 0 false)) WTop [] ∅.

Lemma texts_reach_server_witness : exists m' wire,
  demo_run [SendText (str "hello") 0; SendText [] 0; SendText (str "you") 2; Worker 0; Worker 0; Worker 0; Worker 0] demo_open = Ret m' /\
  sends (cl demo_open) wire (cl m') /\ carries wire [str "hello"; []; str "you"].
Proof.
  destruct (texts_reach_server (fun _ => None) (fun _ => None) demo_inflate demo_inflate Some (fun _ _ => 0%nat) (fun _ => 7) (2 ^ 63)
    (fun _ _ => Some demo_socket) (fun _ _ => inl []) false demo_options (str "ws://h/") [] [(str "hello", 0); ([], 0); (str "you", 2)] 0 demo_open)
    as (m' & wire & E & _ & _ & H1 & H2); [done|done|done|done|done|done|done| |reflexivity| |].
  - by exists (MkSocket [] [] true).
  - repeat apply Forall_cons_2; try apply Forall_nil_2; (split; [vm_compute; congruence|left; vm_compute; congruence]).
  - exists m', wire. split_and!; [exact E|exact H1|exact H2].
Defined.

Lemma reader_turn_bounds_witness : exists r' c',
  reader_turn demo_inflate Some (fun _ _ => 0%nat) (fun _ => 7) (2 ^ 63) demo_options 5 (MkRstate [] 0 false)
    (set_sock (Some (MkSocket [[0x01]; [2; 104; 105]] [] true)) new_client) = Ret (Again r' c') /\
  rstate_ok demo_options r' /\ assembled r' = [104; 105].
Proof.
  pose proof (reader_turn_bounds demo_inflate Some (fun _ _ => 0%nat) (fun _ => 7) (2 ^ 63) demo_options ltac:(vm_compute; congruence) 5
    (MkRstate [] 0 false) (set_sock (Some (MkSocket [[0x01]; [2; 104; 105]] [] true)) new_client)) as H.
  destruct (reader_turn _ _ _ _ _ _ _ _ _) as [[r' c'|]| | |] eqn:E; vm_compute in E; try congruence.
  exists r', c'. split; [done|]. split; [|by injection E as <- <-].
  apply H; [split; [vm_compute; congruence|by left]|vm_compute; congruence].
Defined.



Lemma destroy_joins_witness : exists m m',
  demo_run [Worker 1; Worker 1; Worker 1; Worker 1; SendText (str "x") 0] new_machine = Ret m /\
  demo_run (Destroy :: replicate 5 (Worker 9) ++ [Reader 9; Worker 9]) m = Ret m' /\ wk m' = WDone.
Proof.
  unfold demo_run.
  set (ls := [Worker 1; Worker 1; Worker 1; Worker 1; SendText (str "x") 0]).
  destruct (run (fun _ => None) (fun _ => None) demo_inflate demo_inflate Some (fun _ _ => 0%nat) (fun _ => 7) (2 ^ 63)
    (fun _ _ => Some demo_socket) (fun _ _ => inl []) false demo_options (str "ws://h/") [] ls new_machine) as [m| | |] eqn:E;
    [|by vm_compute in E..].
  destruct (destroy_joins (fun _ => None) (fun _ => None) demo_inflate demo_inflate Some (fun _ _ => 0%nat) (fun _ => 7) (2 ^ 63)
    (fun _ _ => Some demo_socket) (fun _ _ => inl []) false demo_options (str "ws://h/") [] ltac:(vm_compute; congruence)
    ltac:(vm_compute; split; congruence) eq_refl ltac:(by intros) 9 ls m) as (m' & H1 & H2 & _); [|exact E|].
  - repeat apply Forall_cons_2; try apply Forall_nil_2; try exact I. split; [lia|by intros].
  - exists m, m'. split; [done|]. split; [|done]. assert (Hq : length (out_q (cl m)) = 1%nat) by (vm_compute in E; by injection E as <-).
    rewrite Hq in H1. exact H1.
Defined.

(** * What modelling showed *)

(** A ping that declares 2^63 bytes: the payload is allocated before the limit of 125
    bytes on control frames is looked at, and the reader thread ends in an exception. *)
Lemma control_payload_allocated_first :
  reader_turn demo_inflate Some (fun _ _ => 0%nat) (fun _ => 7) (2 ^ 63 - 1) demo_options 5 (MkRstate [] 0 false)
    (set_sock (Some (MkSocket [[0x89; 0x7f; 0x80; 0; 0; 0; 0; 0; 0; 0]] [] true)) new_client) = Throw "resize".
Proof. vm_compute. reflexivity. Qed.

(** [Z_STREAM_END] with input left: zlib consumes nothing any more, and the loop, which
    waits for its input to be consumed, never ends. *)
Lemma inflate_after_end {zstate} (call : zstate -> bytes -> zresult * bytes * bytes * zstate) opts z input out fuel :
  call z input = (Z_STREAM_END, [], input, z) -> input <> [] -> 0 <= zlen out <= max_message_bytes opts ->
  inflate_loop call opts fuel z input out = OutOfFuel.
Proof.
  intros Hc Hi Ho. revert out Ho. induction fuel as [|fuel IH]; intros out Ho; cbn [inflate_loop]; [done|].
  rewrite Hc. cbn [length]. destruct (Z.ltb_spec (max_message_bytes opts) (Z.of_nat 0)); [lia|].
  destruct (Z.ltb_spec (max_message_bytes opts - Z.of_nat 0) (zlen out)); [lia|]. cbn [orb].
  rewrite bool_decide_eq_false_2 by done. cbn [negb orb]. rewrite app_nil_r. by apply IH.
Qed.

(** A message whose last call filled the buffer exactly: zlib is called once more with
    nothing to do, answers that no progress is possible, and good data is refused. *)
Lemma inflate_exact_buffer {zstate} (call : zstate -> bytes -> zresult * bytes * bytes * zstate) opts z z' input produced out fuel :
  call z input = (Z_OK, produced, [], z') -> zlen produced = 8192 -> call z' [] = (Z_FAIL, [], [], z') ->
  8192 + zlen out <= max_message_bytes opts ->
  inflate_loop call opts (S (S fuel)) z input out = Ret (inl false, z').
Proof.
  intros Hc Hp Hn Ho. cbn [inflate_loop]. rewrite Hc, Hp. destruct (Z.ltb_spec (max_message_bytes opts) 8192); [lia|].
  destruct (Z.ltb_spec (max_message_bytes opts - 8192) (zlen out)); [lia|]. cbn. by rewrite Hn.
Qed.

(** An empty text with compression: where zlib has nothing to do it answers so, and the
    connection is closed with 1011; the amount buffered is not given back either. *)
Lemma compression_failure_closes {zstate} (call : zstate -> bytes -> zresult * bytes * bytes * zstate) (zreset : zstate -> option zstate)
    zbound random opts d data z' (c : client) :
  deflate (sess c) = Some d -> (0 < zbound (deflater d) [])%nat -> call (deflater d) [] = (Z_FAIL, [], [], z') -> avail data = [] ->
  exists c', process_out call zreset zbound random opts (MkOut op_text data 0 0) c = Ret c' /\
    state c' = closed /\ buffered c' = buffered c /\ in_q c' = in_q c ++ [close_event 1011 (str "compression failed") false].
Proof.
  intros Hd Hb Hc Ha. unfold process_out. cbn [op out_bytes]. rewrite Hd. unfold deflate_message. rewrite Hd, Ha.
  destruct (zbound (deflater d) []) as [|n]; [lia|]. cbn [deflate_loop]. rewrite Hc. cbn [mbind outcome_bind].
  unfold compression_failed. destruct (send_close_total random 1011 (str "compression failed") (set_deflate (with_deflater z' d) c)) as (c' & -> & [[] _]).
  eexists. split; [done|]. cbn in *. split_and!; congruence.
Qed.

(** [close] reads the state before it writes it: when the reader closes the connection in
    between, the state leaves [closed] and a second close event follows. *)
Definition race_labels : list label :=
  [Worker 1; Worker 1; Worker 1; Worker 1; Reader 2; CloseLoad 0; Reader 3; CloseStore 0 1000 [];
   Worker 3; Worker 3; Worker 3; Worker 3].
Lemma close_race_two_closes :
  (fun m => map kind (log m)) <$> demo_run race_labels new_machine = Ret [ev_open; message_text; ev_close; ev_close].
Proof. vm_compute. reflexivity. Qed.

(** Two callers that both load the state before either stores it queue two close frames. *)
Lemma two_closers_two_frames : (fun m => map (fun o => out_code o) (out_q (cl m))) <$>
  demo_run [Worker 1; Worker 1; Worker 1; Worker 1; CloseLoad 0; CloseLoad 1; CloseStore 0 1000 []; CloseStore 1 1001 []]
    new_machine = Ret [1000; 1001].
Proof. vm_compute. reflexivity. Qed.

(** [close] while the handshake is about to succeed: the worker still reports the
    connection open and sets the state back. *)
Lemma close_then_open : (fun m => (state (cl m), map kind (log m))) <$>
  demo_run [Worker 1; Worker 1; Worker 1; CloseLoad 0; CloseStore 0 1000 []; Worker 1] new_machine = Ret (open_, [ev_open]).
Proof. vm_compute. reflexivity. Qed.

(** The keep-alive does not look at the state: after the peer's close its timeout adds a
    second close event. *)
Lemma pong_timeout_after_close :
  let opts := MkOptions 1024 10 20 4 true in
  let c := set_alive (MkAlive 0 true 0) (set_stop (set_state closed (set_in_q [close_event 1000 [] true] new_client))) in
  exists c', check_idle (zstate := unit) (fun _ => 7) opts 30 c = Ret (false, c') /\ map kind (in_q c') = [ev_close; ev_close].
Proof. eexists. split; [vm_compute; reflexivity|reflexivity]. Qed.

(** [connect] accepts any URL that is not empty, also one [parse_ws_url] refuses. *)
Lemma connect_accepts_any_scheme : connect_accepts (str "http://host/") = true /\ parse_ws_url (str "http://host/") = None.
Proof. split; vm_compute; reflexivity. Qed.

(** Without a slash the query is taken for the host. *)
Lemma query_in_host : parse_ws_url (str "ws://host?x=1") = Some (str "host?x=1", str "80", str "/", false).
Proof. vm_compute. reflexivity. Qed.
