(* ===== verification/WsHandshake.v ===== *)
(** The opening handshake between the two ends: the request [do_handshake] writes is
    accepted by the server of [CdpWs], whose answer the client accepts. *)

From S2P Require Import Prelude Strings CdpWs WsClient WsClientFacts.

(** * Text that needs no quoting *)

(** No control character and no space. *)
Definition plain (s : bytes) : Prop := Forall (fun c => 32 < c) s.

Lemma plain_not_in s c : plain s -> c <= 32 -> c ∉ s.
Proof. intros H Hc Hin. eapply Forall_forall in H; [|exact Hin]. cbn in H. lia. Qed.

Lemma plain_infix v s : infix_of v s -> plain s -> plain v.
Proof. intros (l & r & ->) H. unfold plain in *. rewrite !Forall_app in H. tauto. Qed.

Lemma plain_app a b : plain a -> plain b -> plain (a ++ b).
Proof. unfold plain. rewrite Forall_app. done. Qed.

Lemma ws_space_plain c : 32 < c -> ws_space c = false.
Proof. intros. unfold ws_space. change (chr " ") with 32. destruct (Z.eqb_spec c 32), (Z.eqb_spec c 9), (Z.eqb_spec c 13); (done || lia). Qed.

Lemma plain_trimmed s : plain s -> trimmed ws_space s.
Proof.
  intros H. split.
  - destruct H as [|c s Hc H]; [done|by apply ws_space_plain].
  - destruct (last s) as [c|] eqn:E; [|done]. apply last_Some_elem_of in E. eapply Forall_forall in H; [|exact E].
    by apply ws_space_plain.
Qed.

(** Text that starts and ends with plain bytes. *)
Lemma trimmed_ends a m b : plain a -> plain b -> a <> [] -> b <> [] -> trimmed ws_space (a ++ m ++ b).
Proof.
  intros Ha Hb Na Nb. split.
  - destruct Ha as [|c a Hc Ha]; [done|]. by apply ws_space_plain.
  - destruct (exists_last Nb) as (b' & c & ->). rewrite !app_assoc, last_snoc.
    apply Forall_app in Hb as [_ Hb]. apply Forall_cons in Hb as [Hb _]. exact (ws_space_plain c Hb).
Qed.

(** * The key *)

Definition b64_text (s : bytes) : Prop := Forall (fun c => c ∈ b64_tab ++ [chr "="]) s.

Lemma b64_char_in v sh : b64_char v sh ∈ b64_tab ++ [chr "="].
Proof.
  apply elem_of_app. left. unfold b64_char. pose proof (land_mask_range 6 (Z.shiftr v sh) ltac:(lia)) as H.
  change (Z.ones 6) with 0x3f in H. change (2 ^ 6) with 64 in H.
  apply list_elem_of_In, nth_In. change (length b64_tab) with 64%nat. lia.
Qed.

Lemma b64_pad_in : chr "=" ∈ b64_tab ++ [chr "="].
Proof. apply elem_of_app. right. by apply list_elem_of_singleton. Qed.

Lemma b64_encode_text : forall data, b64_text (b64_encode data).
Proof.
  assert (H : forall n data, (length data <= n)%nat -> b64_text (b64_encode data)).
  { induction n as [|n IH]; intros [|a [|b [|c data]]] Hl; cbn [length] in Hl; try lia; cbn [b64_encode]; try (by constructor);
      try (by repeat apply Forall_cons_2; (apply b64_char_in || apply b64_pad_in || apply Forall_nil_2)).
    cbn [app]. do 4 (apply Forall_cons_2; [apply b64_char_in|]). apply IH. lia. }
  intros data. by apply (H (length data)).
Qed.

Lemma b64_tab_plain : Forall (fun c => 32 < c /\ c <> 58) (b64_tab ++ [chr "="]).
Proof. apply (bool_decide_unpack _). vm_compute. exact I. Qed.

Lemma b64_text_plain s : b64_text s -> Forall (fun c => 32 < c /\ c <> 58) s.
Proof.
  intros H. eapply Forall_impl; [exact H|]. intros c Hc. cbn in Hc.
  pose proof b64_tab_plain as Ht. rewrite Forall_forall in Ht. by apply Ht.
Qed.

(** * The request *)

Section Request.
Context (native_deps : bool) (options : ws_client_options) (protocols : list bytes).

Definition host_value (host port : bytes) (secure : bool) : bytes :=
  host ++ (if bool_decide (port = if secure then str "443" else str "80") then [] else str ":" ++ port).
Definition protocol_value (p : bytes) (ps : list bytes) : bytes := p ++ concat (map (fun p => str ", " ++ p) ps).

(** The request as [CdpWs] describes requests. *)
Definition request_of (host port path key : bytes) (secure : bool) : http_request :=
  MkRequest (str "GET") path (str "HTTP/1.1")
    ([(str "Host", host_value host port secure); (str "Upgrade", str "websocket"); (str "Connection", str "Upgrade");
      (str "Sec-WebSocket-Key", key); (str "Sec-WebSocket-Version", str "13")] ++
     (match protocols with [] => [] | p :: ps => [(str "Sec-WebSocket-Protocol", protocol_value p ps)] end) ++
     (if native_deps && compress options
      then [(str "Sec-WebSocket-Extensions", str "permessage-deflate; client_max_window_bits; server_max_window_bits=15")] else []) ++
     [(str "User-Agent", str "fxe/0")]).

Lemma ws_request_render host port path key secure :
  ws_request native_deps options protocols host port path key secure = render_request (request_of host port path key secure).
Proof.
  unfold ws_request, render_request, request_of, request_line, header_line, host_value, protocol_value. cbn [method CdpWs.path version headers].
  destruct protocols as [|p ps], (native_deps && compress options); cbn [map app concat fst snd]; rewrite <- !app_assoc; reflexivity.
Qed.

Lemma header_ok (name value : bytes) : chr ":" ∉ name -> 13 ∉ name -> 13 ∉ value -> trimmed ws_space value ->
  chr ":" ∉ (name, value).1 /\ 13 ∉ header_line (name, value) /\ trimmed ws_space (name, value).2.
Proof.
  intros H1 H2 H3 H4. split_and!; [done| |done]. unfold header_line. cbn [fst snd]. rewrite !elem_of_app.
  intros [H|[H|H]]; [done| |done]. revert H. apply (bool_decide_unpack _). vm_compute. exact I.
Qed.

Lemma host_value_plain host port secure : plain host -> plain port -> plain (host_value host port secure).
Proof.
  intros Hh Hp. unfold host_value. apply plain_app; [done|]. case_bool_decide; [constructor|].
  apply plain_app; [|done]. by apply (bool_decide_unpack _); vm_compute.
Qed.

Lemma protocol_value_ok p ps : Forall (fun p => plain p /\ p <> []) (p :: ps) ->
  13 ∉ protocol_value p ps /\ trimmed ws_space (protocol_value p ps).
Proof.
  intros [[Hp Hn] Hps]%Forall_cons. unfold protocol_value. split.
  - intros [H|H]%elem_of_app; [by eapply plain_not_in in H|].
    apply list_elem_of_In, in_concat in H as (x & Hx & H). apply in_map_iff in Hx as (q & <- & Hq).
    rewrite Forall_forall in Hps. apply list_elem_of_In in Hq. apply Hps in Hq as [Hq _].
    apply list_elem_of_In, elem_of_app in H as [H|H]; [|by eapply plain_not_in in H].
    revert H. apply (bool_decide_unpack _). vm_compute. exact I.
  - destruct ps as [|q ps _] using rev_ind; cbn [map concat]; [rewrite app_nil_r; by apply plain_trimmed|].
    apply Forall_app in Hps as [_ Hq]. apply Forall_cons in Hq as [[Hq Hqn] _].
    rewrite map_app, concat_app. cbn [map concat]. rewrite app_nil_r, !app_assoc, <- (app_assoc p).
    rewrite <- app_assoc. by apply trimmed_ends.
Qed.

Local Ltac closed := by apply (bool_decide_unpack _); vm_compute.
Local Ltac closed_value := apply header_ok; [closed|closed|closed|by apply plain_trimmed; closed].

Lemma request_of_ok host port path key secure :
  plain host -> plain port -> plain path -> plain key -> Forall (fun p => plain p /\ p <> []) protocols ->
  request_ok (request_of host port path key secure).
Proof.
  intros Hh Hp Hpath Hk Hps. unfold request_ok, request_of. cbn [method CdpWs.path version headers].
  split_and!; [closed|by apply plain_not_in| |].
  - unfold request_line. cbn [method CdpWs.path version]. rewrite !elem_of_app.
    intros [H|[H|[H|[H|H]]]]; try (by eapply plain_not_in in H); revert H; closed.
  - assert (Hv : forall name v, chr ":" ∉ name -> 13 ∉ name -> plain v ->
      chr ":" ∉ (name, v).1 /\ 13 ∉ header_line (name, v) /\ trimmed ws_space (name, v).2).
    { intros. apply header_ok; [done|done|by apply plain_not_in|by apply plain_trimmed]. }
    apply Forall_app. split; [|apply Forall_app; split; [|apply Forall_app; split]].
    + repeat apply Forall_cons_2; [apply Hv; [closed|closed|by apply host_value_plain]|closed_value|closed_value| |closed_value|apply Forall_nil_2].
      by apply Hv; [closed|closed|].
    + destruct protocols as [|p ps]; [apply Forall_nil_2|]. apply Forall_cons_2; [|apply Forall_nil_2].
      destruct (protocol_value_ok p ps Hps). by apply header_ok; [closed|closed|..].
    + destruct (_ && _); [|apply Forall_nil_2]. apply Forall_cons_2; [|apply Forall_nil_2].
      apply header_ok; [closed|closed|closed|split; reflexivity].
    + apply Forall_cons_2; [closed_value|apply Forall_nil_2].
Qed.

(** The server finds what it looks for. *)
Lemma request_of_headers host port path key secure :
  let hs := stored_headers (headers (request_of host port path key secure)) in
  map_find (str "upgrade") hs = Some (str "websocket") /\ map_find (str "connection") hs = Some (str "Upgrade") /\
  map_find (str "sec-websocket-key") hs = Some key /\ map_find (str "sec-websocket-version") hs = Some (str "13").
Proof.
  cbn zeta. unfold request_of. cbn [headers].
  destruct protocols as [|p ps], (native_deps && compress options); split_and!; reflexivity.
Qed.
End Request.

(** The parts of a URL without spaces have none. *)
Lemma parse_ws_url_plain url host port path secure : plain url -> parse_ws_url url = Some (host, port, path, secure) ->
  plain host /\ plain port /\ plain path.
Proof.
  intros Hu. unfold parse_ws_url.
  assert (Hgo : forall (sec : bool) (off : Z),
    (let slash := find_char (chr "/") url off in
     let authority := match slash with None => substr_from url off | Some i => substr url off (i - off) end in
     let path := match slash with None => str "/" | Some i => substr_from url i end in
     let '(host, port) := match find_char (chr ":") authority 0 with
       | None => (authority, if sec then str "443" else str "80")
       | Some colon => (substr authority 0 colon, substr_from authority (colon + 1)) end in
     if bool_decide (host = []) then None else Some (host, port, path, sec)) = Some (host, port, path, secure) ->
    plain host /\ plain port /\ plain path).
  { intros sec off. cbn zeta. set (authority := match find_char (chr "/") url off with None => _ | Some _ => _ end).
    assert (Ha : plain authority) by (unfold authority; case_match; eapply plain_infix; [apply infix_substr|done|apply infix_zdrop|done]).
    assert (Hp : plain (match find_char (chr "/") url off with None => str "/" | Some i => substr_from url i end)).
    { case_match; [eapply plain_infix; [apply infix_zdrop|done]|by apply (bool_decide_unpack _); vm_compute]. }
    clearbody authority. destruct (find_char (chr ":") authority 0) as [colon|]; case_bool_decide; intros [= <- <- <- <-]; (split_and!; [| |done]).
    - eapply plain_infix; [apply infix_substr|done].
    - eapply plain_infix; [apply infix_zdrop|done].
    - done.
    - destruct sec; by apply (bool_decide_unpack _); vm_compute. }
  destruct (starts_with (str "ws://") url); [exact (Hgo false _)|].
  destruct (starts_with (str "wss://") url); [exact (Hgo true _)|done].
Qed.

(** * Reading the answer *)

Lemma find_str_None pat s : find_str pat s = None -> forall n, starts_with pat (drop n s) = false.
Proof.
  induction s as [|c s IH]; cbn [find_str]; intros E n.
  - rewrite drop_nil. by destruct (starts_with pat []).
  - destruct (starts_with pat (c :: s)) eqn:E0; [done|]. destruct n; [done|]. cbn [drop]. apply IH.
    by destruct (find_str pat s).
Qed.

(** A pattern that is not in [a] and whose last byte is not in [b] is not in [a ++ b]. *)
Lemma find_str_app_None pat c a b : find_str (pat ++ [c]) a = None -> c ∉ b -> find_str (pat ++ [c]) (a ++ b) = None.
Proof.
  intros Ha Hb. destruct (find_str (pat ++ [c]) (a ++ b)) as [i|] eqn:E; [|done]. exfalso.
  apply find_str_spec in E as (n & _ & [r E]%starts_with_spec & _ & _). rewrite <- app_assoc in E.
  assert (HL : (a ++ b) !! (n + length pat)%nat = Some c).
  { rewrite <- lookup_drop, E, lookup_app_r by done. by rewrite Nat.sub_diag. }
  destruct (decide (n + length pat < length a)%nat) as [Hlt|Hge].
  - pose proof (find_str_None _ _ Ha n) as H. assert (starts_with (pat ++ [c]) (drop n a) = true); [|congruence].
    apply starts_with_spec. rewrite drop_app_le in E by lia.
    exists (drop (length (pat ++ [c])) (drop n a)). rewrite <- (take_drop (length (pat ++ [c])) (drop n a)) at 1. f_equal.
    apply (f_equal (take (length (pat ++ [c])))) in E. rewrite take_app_le in E by (rewrite length_drop, length_app; cbn; lia).
    rewrite E, app_assoc. by rewrite take_app_length.
  - apply Hb. rewrite lookup_app_r in HL by lia. by eapply list_elem_of_lookup_2.
Qed.

Lemma ends_with_prefix R k : find_str (crlf ++ crlf) R = Some (zlen R - 4) -> (k < length R)%nat ->
  ends_with (crlf ++ crlf) (take k R) = false.
Proof.
  intros E Hk. unfold ends_with. change (length (crlf ++ crlf)) with 4%nat. rewrite length_take_le by lia.
  destruct (Nat.leb_spec 4 k); [|done]. cbn [andb]. apply bool_decide_eq_false_2. intros Ed.
  apply find_str_spec in E as (n & En & _ & _ & Hn). specialize (Hn (k - 4)%nat ltac:(lia)).
  assert (starts_with (crlf ++ crlf) (drop (k - 4) R) = true); [|congruence].
  apply starts_with_spec. exists (drop k R). rewrite <- Ed. rewrite <- (take_drop k R) at 1.
  rewrite drop_app_le; [done|]. rewrite length_take. lia.
Qed.

Lemma ends_with_whole R : find_str (crlf ++ crlf) R = Some (zlen R - 4) -> ends_with (crlf ++ crlf) R = true.
Proof.
  intros (n & En & [r Er]%starts_with_spec & Hl & _)%find_str_spec. unfold ends_with. change (length (crlf ++ crlf)) with 4%nat.
  assert (H4 : (4 + length r = length R - n)%nat) by (apply (f_equal length) in Er; rewrite length_drop, length_app in Er; cbn in Er; lia).
  replace (length R - 4)%nat with n by lia. destruct (Nat.leb_spec 4 (length R)); [|lia]. cbn [andb]. rewrite Er.
  apply bool_decide_eq_true_2. destruct r; [by rewrite app_nil_r|cbn in H4; lia].
Qed.

Section Receive.
Context {zstate : Type}.
Implicit Types c : @client zstate.

(** The client's socket will deliver [data]. *)
Definition delivering c (data : bytes) : Prop := exists s, sock c = Some s /\ live s /\ concat (incoming s) = data.

Lemma transport_recv_byte c b data : delivering c (b :: data) ->
  exists c', transport_recv_n 1 c = Ret (Some [b], c') /\ quiet c c' /\ delivering c' data.
Proof.
  intros (s & Es & Hl & Hd). destruct (recv_some 1 s Hl) as (chunk & s' & E); [by rewrite Hd|].
  destruct (recv_one _ _ _ E) as [b' ->]. pose proof (recv_live _ _ _ _ E ltac:(lia) Hl) as Hl'.
  pose proof (recv_stream _ _ _ _ E) as (E1 & _ & _). rewrite Hd in E1. injection E1 as -> E1.
  exists (set_sock (Some s') c). unfold transport_recv_n. rewrite Es. cbn [recv_n]. rewrite E.
  split; [done|]. split; [apply quiet_sock|]. by exists s'.
Qed.

Lemma recv_headers_exact R rest : find_str (crlf ++ crlf) R = Some (zlen R - 4) -> zlen R <= 16384 ->
  forall fuel k c, (k < length R)%nat -> (length R - k <= fuel)%nat -> delivering c (drop k R ++ rest) ->
  exists c', recv_headers_loop fuel (take k R) c = Ret (Some R, c') /\ quiet c c' /\ delivering c' rest.
Proof.
  intros HR Hlen. induction fuel as [|fuel IH]; intros k c Hk Hf Hd; [lia|]. cbn [recv_headers_loop].
  change (16 * 1024) with 16384. destruct (Z.leb_spec 16384 (zlen (take k R))) as [H|_]; [rewrite length_take in H; lia|].
  destruct (lookup_lt_is_Some_2 R k Hk) as [b Hb]. rewrite (drop_S _ _ _ Hb) in Hd.
  destruct (transport_recv_byte c b (drop (S k) R ++ rest) Hd) as (c1 & -> & Q & Hd1). cbn [mbind outcome_bind].
  rewrite <- (take_S_r _ _ _ Hb). destruct (decide (S k = length R)) as [Ek|Hne].
  - rewrite Ek, firstn_all, (ends_with_whole R HR). rewrite Ek, drop_all in Hd1. by exists c1.
  - rewrite (ends_with_prefix R (S k)) by (done || lia).
    destruct (IH (S k) c1) as (c2 & E & Q2 & Hd2); [lia|lia|done|]. exists c2. split; [done|]. split; [by etrans|done].
Qed.
End Receive.

Lemma index_of_app_lt p l r i : index_of p (l ++ r) = Some i -> i < zlen l -> index_of p l = Some i.
Proof.
  revert i. induction l as [|c l IH]; intros i; cbn [app index_of length]; [intros H ?; apply index_of_range in H; lia|].
  destruct (p c); [done|]. intros (j & Hj & ->)%fmap_Some_1 Hi. rewrite (IH j Hj) by lia. done.
Qed.

Lemma find_char_range c s i : find_char c s 0 = Some i -> 0 <= i < zlen s.
Proof. rewrite find_char_0. apply index_of_range. Qed.

(** Lines none of which names the header. *)
Lemma header_values_none name lines : Forall (fun l => 13 ∉ l /\
    forall k, find_char (chr ":") l 0 = Some k -> ascii_lower (substr l 0 k) <> name) lines ->
  forall fuel, (length lines <= fuel)%nat -> header_values_loop fuel (concat (map (fun l => l ++ crlf) lines)) name = Ret [].
Proof.
  induction 1 as [|l lines [Hr Hn] _ IH]; intros fuel Hf; cbn [map concat length] in *; [by destruct fuel|].
  destruct fuel as [|fuel]; [lia|]. rewrite <- app_assoc. set (rest := concat _) in *.
  assert (Ene : exists b t, l ++ crlf ++ rest = b :: t) by (destruct l; by eexists _, _).
  cbn [header_values_loop]. destruct Ene as (b & t & Ene). rewrite Ene. rewrite <- Ene. clear b t Ene.
  rewrite find_crlf_line by done.
  assert (E : substr_from (l ++ crlf ++ rest) (zlen l + 2) = rest).
  { unfold substr_from, zdrop. rewrite app_assoc, drop_app_length'; [done|]. rewrite length_app. cbn. lia. }
  rewrite E, IH by lia. cbn [mbind outcome_bind]. f_equal.
  destruct (find_char (chr ":") (l ++ crlf ++ rest) 0) as [colon|] eqn:Ec; [|done].
  destruct (Z.ltb_spec colon (zlen l)); [|done]. cbn [andb].
  rewrite find_char_0 in Ec. apply index_of_app_lt in Ec; [|done]. rewrite <- find_char_0 in Ec.
  rewrite bool_decide_eq_false_2; [done|].
  replace (substr (l ++ crlf ++ rest) 0 colon) with (substr l 0 colon); [by apply Hn|].
  apply find_char_range in Ec. unfold substr. destruct (Z.ltb_spec colon 0); [lia|]. unfold ztake, zdrop. rewrite !drop_0.
  rewrite take_app_le; [done|lia].
Qed.

(** * The answer of the server *)

Definition answer_lines (accept : bytes) : list bytes :=
  [str "HTTP/1.1 101 Switching Protocols"; str "Upgrade: websocket"; str "Connection: Upgrade"; str "Sec-WebSocket-Accept: " ++ accept; []].

Lemma switching_response_lines accept : switching_response accept = concat (map (fun l => l ++ crlf) (answer_lines accept)).
Proof. unfold switching_response, answer_lines. cbn [map concat]. rewrite <- !app_assoc. reflexivity. Qed.

Lemma switching_response_length accept : zlen (switching_response accept) = zlen accept + 101.
Proof. unfold switching_response. rewrite !length_app. cbn. lia. Qed.

Local Ltac closed := by apply (bool_decide_unpack _); vm_compute.

Definition accept_text (accept : bytes) : Prop := Forall (fun c => 32 < c /\ c <> 58) accept.

Lemma accept_not_in accept c : accept_text accept -> c <= 32 \/ c = 58 -> c ∉ accept.
Proof. intros H Hc Hin. eapply Forall_forall in H; [|exact Hin]. cbn in H. lia. Qed.

Lemma switching_response_blank accept : accept_text accept ->
  find_str (crlf ++ crlf) (switching_response accept) = Some (zlen (switching_response accept) - 4).
Proof.
  intros Ha. set (hs := [(str "Upgrade", str "websocket"); (str "Connection", str "Upgrade"); (str "Sec-WebSocket-Accept", accept)]).
  assert (Hh : Forall (fun h => 13 ∉ header_line h) hs).
  { repeat apply Forall_cons_2; [closed|closed| |apply Forall_nil_2]. unfold header_line. cbn [fst snd]. rewrite !elem_of_app.
    intros [H|[H|H]]; [revert H; closed|revert H; closed|]. by apply (accept_not_in accept 13) in H; [|done|left]. }
  assert (Hl : 13 ∉ str "HTTP/1.1 101 Switching Protocols") by closed.
  pose proof (find_blank_headers hs Hh _ Hl) as H. cbn zeta in H.
  replace (switching_response accept) with
    (str "HTTP/1.1 101 Switching Protocols" ++ crlf ++ concat (map (fun h => header_line h ++ crlf) hs) ++ crlf); [exact H|].
  unfold switching_response, hs, header_line. cbn [map concat fst snd]. rewrite <- !app_assoc. reflexivity.
Qed.

Lemma switching_response_protocol accept : accept_text accept -> find_protocol (switching_response accept) = None.
Proof.
  intros Ha. unfold find_protocol. set (a := str "HTTP/1.1 101 Switching Protocols" ++ crlf ++ str "Upgrade: websocket" ++ crlf ++
    str "Connection: Upgrade" ++ crlf ++ str "Sec-WebSocket-Accept: ").
  assert (E : ascii_lower (switching_response accept) = ascii_lower a ++ ascii_lower (accept ++ crlf ++ crlf)).
  { unfold ascii_lower. rewrite <- fmap_app. reflexivity. }
  rewrite E. change (str "sec-websocket-protocol:") with (str "sec-websocket-protocol" ++ [58]).
  rewrite find_str_app_None; [done|vm_compute; reflexivity|].
  unfold ascii_lower. intros (c & Hc & Hin)%list_elem_of_fmap.
  assert (c = 58) as ->. { unfold lower_char in Hc. change (chr "A") with 65 in Hc. change (chr "Z") with 90 in Hc.
    destruct (Z.leb_spec 65 c), (Z.leb_spec c 90); cbn [andb] in Hc; lia. }
  apply elem_of_app in Hin as [H|H]; [by apply (accept_not_in accept 58) in H; [|done|right]|revert H; closed].
Qed.

Lemma switching_response_extensions accept : accept_text accept ->
  header_values (switching_response accept) (str "sec-websocket-extensions") = Ret [].
Proof.
  intros Ha. unfold header_values. rewrite switching_response_lines. apply header_values_none.
  - assert (Hclosed : forall l, bool_decide (13 ∉ l) = true ->
      match find_char (chr ":") l 0 with Some k => bool_decide (ascii_lower (substr l 0 k) <> str "sec-websocket-extensions") | None => true end = true ->
      13 ∉ l /\ forall k, find_char (chr ":") l 0 = Some k -> ascii_lower (substr l 0 k) <> str "sec-websocket-extensions").
    { intros l H1 H2. split; [by apply bool_decide_eq_true in H1|]. intros k E. rewrite E in H2. by apply bool_decide_eq_true in H2. }
    repeat apply Forall_cons_2; [by apply Hclosed; vm_compute|by apply Hclosed; vm_compute|by apply Hclosed; vm_compute| |by apply Hclosed; vm_compute|apply Forall_nil_2].
    split.
    + intros [H|H]%elem_of_app; [revert H; closed|]. by apply (accept_not_in accept 13) in H; [|done|left].
    + intros k. change (str "Sec-WebSocket-Accept: ") with (str "Sec-WebSocket-Accept" ++ chr ":" :: [32]). rewrite <- app_assoc. cbn [app].
      rewrite find_char_app_r by closed. intros [= <-]. vm_compute. congruence.
  - rewrite <- switching_response_lines. pose proof (switching_response_length accept). cbn [answer_lines length]. lia.
Qed.

Section Interop.
Context {zstate : Type} (inflate_init deflate_init : Z -> option zstate) (random : nat -> Z) (native_deps : bool)
        (options : ws_client_options) (protocols : list bytes).
Implicit Types c : @client zstate.

Lemma answer_accepted accept frames c : accept_text accept -> zlen accept <= 16000 -> stop c = false -> deflate (sess c) = None ->
  delivering c (switching_response accept ++ frames) -> exists c',
  handshake_receive inflate_init deflate_init native_deps options c = Ret (true, c') /\ hushed c c' /\ delivering c' frames /\
  deflate (sess c') = None /\ selected_protocol (sess c') = selected_protocol (sess c).
Proof.
  intros Ha Hlen Hst Hdf Hd. unfold handshake_receive. rewrite Hst. unfold read_response, transport_recv_http_headers.
  pose proof (switching_response_length accept) as HL.
  destruct (recv_headers_exact (switching_response accept) frames (switching_response_blank accept Ha) ltac:(lia)
    (Z.to_nat (16 * 1024)) 0 c ltac:(lia) ltac:(lia) Hd) as (c1 & E & [H1 E1] & Hd1).
  rewrite take_0 in E. rewrite E. cbn [mbind outcome_bind]. rewrite switching_response_protocol by done.
  change (starts_with (str "HTTP/1.1 101") (switching_response accept)) with true. cbn [negb andb].
  destruct (compress options); [|exists c1; rewrite E1; done].
  unfold negotiate_permessage_deflate. destruct native_deps; cbn [negb].
  - rewrite switching_response_extensions by done. cbn [mbind outcome_bind map concat negotiate_loop].
    eexists. split; [done|]. split_and!; [etrans; [exact H1|apply hushed_sess]|exact Hd1|done|cbn; by rewrite E1].
  - eexists. split; [done|]. split_and!; [etrans; [exact H1|apply hushed_sess]|exact Hd1|done|cbn; by rewrite E1].
Qed.

(** libsodium: Base64 of 16 bytes is read back, what it writes is Base64 text of at
    most twice the length; mbedTLS: a digest has 20 bytes. *)
Context (base642bin : Z -> bytes -> option bytes) (bin2base64 sha1 : bytes -> bytes).
Context (Hread : forall nonce, is_bytes nonce -> zlen nonce = 16 -> base642bin 16 (b64_encode nonce) = Some nonce)
        (Hwrite : forall data, b64_text (bin2base64 data) /\ zlen (bin2base64 data) <= 2 * zlen data + 4)
        (Hsha1 : forall data, zlen (sha1 data) = 20).

Lemma request_accepted host port path secure nonce s more :
  plain host -> plain port -> plain path -> Forall (fun p => plain p /\ p <> []) protocols ->
  is_bytes nonce -> length nonce = 16%nat ->
  zlen (ws_request native_deps options protocols host port path (b64_encode nonce) secure) <= 65536 ->
  live s -> concat (incoming s) = ws_request native_deps options protocols host port path (b64_encode nonce) secure ++ more ->
  exists req s1 s2 accept, read_http_request s = Ret (inr req, s1) /\ handshake base642bin bin2base64 sha1 s1 req = (None, s2) /\
    concat (incoming s2) = more /\ sent s2 = sent s ++ switching_response accept /\ accept_text accept /\ zlen accept <= 44.
Proof.
  intros Hh Hp Hpath Hps Hb Hn Hlen Hl Hst. set (key := b64_encode nonce) in *. rewrite ws_request_render in Hlen, Hst.
  assert (Hk : b64_text key) by apply b64_encode_text.
  assert (Hok : request_ok (request_of native_deps options protocols host port path key secure)).
  { apply request_of_ok; try done. eapply Forall_impl; [exact (b64_text_plain _ Hk)|]. cbn. tauto. }
  set (req0 := request_of native_deps options protocols host port path key secure) in *.
  destruct (read_raw_exact (render_request req0) more (Z.to_nat 65537) 0 s) as (s1 & E & E1 & Hl1 & E2);
    [by apply find_blank_render|done|done|lia|done|lia|].
  set (req := MkRequest (method req0) (CdpWs.path req0) (version req0) (stored_headers (headers req0))).
  assert (Er : read_http_request s = Ret (inr req, s1)).
  { unfold read_http_request. rewrite take_0 in E. rewrite E. cbn [mbind outcome_bind].
    pose proof (parse_render req0 [] Hok) as P. rewrite app_nil_r in P. by rewrite P. }
  destruct (request_of_headers native_deps options protocols host port path key secure) as (F1 & F2 & F3 & F4).
  fold req0 in F1, F2, F3, F4.
  assert (Hkey : header req (str "sec-websocket-key") = key).
  { unfold header. change (lower (str "sec-websocket-key")) with (str "sec-websocket-key"). unfold req. cbn [headers]. by rewrite F3. }
  assert (Hnk : base642bin 16 key = Some nonce) by (apply Hread; [done|lia]).
  assert (Hmod : exists b t, key = b :: t /\ zlen key mod 4 = 0).
  { unfold key. do 16 (destruct nonce as [|? nonce]; [done|]). destruct nonce; [|done]. by eexists _, _. }
  destruct Hmod as (b & t & Ekey & Hmod).
  set (accept := bin2base64 (sha1 (key ++ kMagic))).
  assert (Ha : websocket_accept base642bin bin2base64 sha1 key = Some accept).
  { unfold websocket_accept. rewrite Ekey. rewrite <- Ekey. rewrite Hmod, Hnk. cbn [Z.eqb negb].
    replace (zlen nonce =? 16) with true by (symmetry; apply Z.eqb_eq; lia). done. }
  exists req, s1, (MkSocket (incoming s1) (sent s1 ++ switching_response accept) true), accept.
  destruct (Hwrite (sha1 (key ++ kMagic))) as [W1 W2]. rewrite Hsha1 in W2.
  split_and!; [done| |done|cbn; by rewrite E2|exact (b64_text_plain _ W1)|unfold accept; lia].
  unfold handshake. rewrite Hkey, Ha. unfold header, req. cbn [headers method].
  change (lower (str "upgrade")) with (str "upgrade"). change (lower (str "connection")) with (str "connection").
  change (lower (str "sec-websocket-version")) with (str "sec-websocket-version"). rewrite F1, F2, F4.
  unfold send_all. rewrite (proj2 Hl1). reflexivity.
Qed.

(** C18. The two ends of the opening handshake agree. For a URL without spaces that
    [parse_ws_url] accepts, the client's request, whatever the protocols, the
    extension offer and the nonce drawn, is read whole by the server of the debugger,
    passes every one of its checks and is answered with the switching response; a
    client that receives this answer, in any pieces, accepts it, selects no protocol
    and no compression, and the frames that follow the answer are still unread. *)
Theorem handshake_interop url host port path secure c :
  plain url -> parse_ws_url url = Some (host, port, path, secure) -> Forall (fun p => plain p /\ p <> []) protocols ->
  (forall key, zlen key = 24 -> zlen (ws_request native_deps options protocols host port path key secure) <= 65536) ->
  stop c = false -> open_sock c ->
  exists c1 request, handshake_send random native_deps options protocols (host, port, path, secure) c = (true, c1) /\
    sends c request c1 /\
    forall s more, live s -> concat (incoming s) = request ++ more ->
      exists req s1 s2 answer, read_http_request s = Ret (inr req, s1) /\
        handshake base642bin bin2base64 sha1 s1 req = (None, s2) /\ concat (incoming s2) = more /\ sent s2 = sent s ++ answer /\
        forall c2 frames, stop c2 = false -> deflate (sess c2) = None -> delivering c2 (answer ++ frames) ->
          exists c3, handshake_receive inflate_init deflate_init native_deps options c2 = Ret (true, c3) /\ hushed c2 c3 /\
            delivering c3 frames /\ deflate (sess c3) = None /\ selected_protocol (sess c3) = selected_protocol (sess c2).
Proof.
  intros Hu Hparse Hps Hlen Hst Ho. destruct (parse_ws_url_plain _ _ _ _ _ Hu Hparse) as (Hh & Hp & Hpath).
  unfold handshake_send. rewrite Hst. cbn [draw_nonce].
  set (nonce := map _ _). set (c0 := set_draws _ c). set (request := ws_request _ _ _ _ _ _ _ _).
  destruct (transport_send_all request c0) as [ok c1] eqn:Es. destruct (transport_send_all_spec _ _ _ _ Es) as [_ S].
  destruct (S Ho) as [-> S1]. exists c1, request. split; [done|]. split; [by destruct S1; split|].
  intros s more Hl Hin. assert (Hb : is_bytes nonce).
  { apply Forall_forall. intros x Hx. apply list_elem_of_In, in_map_iff in Hx as (i & <- & _). apply u8_range. }
  destruct (request_accepted host port path secure nonce s more Hh Hp Hpath Hps Hb eq_refl ltac:(by apply Hlen) Hl Hin)
    as (req & s1 & s2 & accept & H1 & H2 & H3 & H4 & H5 & H6).
  exists req, s1, s2, (switching_response accept). split_and!; [done|done|done|done|].
  intros c2 frames Hst2 Hdf2 Hd2. apply (answer_accepted accept); try done. lia.
Qed.
End Interop.

(** * Base64 read back *)

(** A decoder to instantiate the one of libsodium with. *)
Definition sextet (c : Z) : Z := match index_of (is_char c) b64_tab with Some i => i | None => 0 end.
Fixpoint b64_decode (s : bytes) : bytes :=
  match s with
  | w :: x :: y :: z :: rest =>
      let v := sextet w * 262144 + sextet x * 4096 + sextet y * 64 + sextet z in
      (if y =? chr "=" then [v / 65536]
       else if z =? chr "=" then [v / 65536; v / 256 mod 256]
       else [v / 65536; v / 256 mod 256; v mod 256]) ++ b64_decode rest
  | _ => []
  end.

Lemma sextet_table : forall n, (n < 64)%nat -> sextet (nth n b64_tab 0) = Z.of_nat n /\ nth n b64_tab 0 <> chr "=".
Proof.
  assert (H : Forall (fun n => sextet (nth n b64_tab 0) = Z.of_nat n /\ nth n b64_tab 0 <> chr "=") (seq 0 64)).
  { apply (bool_decide_unpack _). vm_compute. exact I. }
  intros n Hn. rewrite Forall_forall in H. apply H, elem_of_seq. lia.
Qed.

Lemma sextet_char v sh : 0 <= sh -> sextet (b64_char v sh) = v / 2 ^ sh mod 64 /\ b64_char v sh <> chr "=".
Proof.
  intros Hs. unfold b64_char. change 0x3f with (Z.ones 6). rewrite land_ones_mod by lia. rewrite Z.shiftr_div_pow2 by lia.
  change (2 ^ 6) with 64. pose proof (Z.mod_pos_bound (v / 2 ^ sh) 64 ltac:(lia)) as H.
  destruct (sextet_table (Z.to_nat (v / 2 ^ sh mod 64)) ltac:(lia)) as [-> ?]. split; [lia|done].
Qed.

Lemma b64_roundtrip data : is_bytes data -> b64_decode (b64_encode data) = data.
Proof.
  assert (Hc : forall v sh, 0 <= sh -> (b64_char v sh =? chr "=") = false)
    by (intros v sh Hsh; apply Z.eqb_neq; by apply sextet_char).
  assert (Hv : forall v sh, 0 <= sh -> sextet (b64_char v sh) = v / 2 ^ sh mod 64) by (intros; by apply sextet_char).
  assert (Hpad : sextet (chr "=") = 0) by reflexivity.
  assert (H : forall n data, (length data <= n)%nat -> is_bytes data -> b64_decode (b64_encode data) = data).
  { clear data. induction n as [|n IH]; intros [|a [|b [|c data]]] Hl Hb; cbn [length] in Hl; try lia; try done;
      repeat (apply Forall_cons in Hb as [? Hb]); unfold is_byte in *; cbn [b64_encode b64_decode app];
      rewrite ?Hc, ?Z.eqb_refl, ?Hv, ?Hpad by lia;
      change (2 ^ 18) with 262144; change (2 ^ 12) with 4096; change (2 ^ 6) with 64; change (2 ^ 0) with 1;
      rewrite ?Z.shiftl_mul_pow2 by lia.
    - cbn [app]. f_equal. dlia.
    - rewrite (lor_mul 16 a (b * 2 ^ 8)) by lia. cbn [app].
      assert (E : (a * 2 ^ 16 + b * 2 ^ 8) / 262144 mod 64 * 262144 + (a * 2 ^ 16 + b * 2 ^ 8) / 4096 mod 64 * 4096 +
                  (a * 2 ^ 16 + b * 2 ^ 8) / 64 mod 64 * 64 + 0 = a * 65536 + b * 256) by dlia.
      rewrite E. f_equal; [dlia|]. f_equal. dlia.
    - rewrite (lor_mul 16 a (b * 2 ^ 8)) by lia.
      replace (a * 2 ^ 16 + b * 2 ^ 8) with ((a * 2 ^ 8 + b) * 2 ^ 8) by lia. rewrite (lor_mul 8 (a * 2 ^ 8 + b) c) by lia.
      set (v := (a * 2 ^ 8 + b) * 2 ^ 8 + c). assert (Hvr : 0 <= v < 16777216) by lia.
      assert (E : v / 262144 mod 64 * 262144 + v / 4096 mod 64 * 4096 + v / 64 mod 64 * 64 + v / 1 mod 64 = v) by (clearbody v; dlia).
      rewrite E. rewrite IH by (done || lia). cbn [app]. f_equal; [unfold v; dlia|]. f_equal; [unfold v; dlia|]. f_equal. unfold v. dlia. }
  intros Hb. by apply (H (length data)).
Qed.

Lemma b64_encode_length : forall data, zlen (b64_encode data) <= 2 * zlen data + 4.
Proof.
  assert (H : forall n data, (length data <= n)%nat -> zlen (b64_encode data) <= 2 * zlen data + 4).
  { induction n as [|n IH]; intros [|a [|b [|c data]]] Hl; cbn [length b64_encode app] in *; try lia.
    specialize (IH data ltac:(lia)). lia. }
  intros data. by apply (H (length data)).
Qed.

Lemma concat_bytes (l : bytes) : concat (map (fun b => [b]) l) = l.
Proof. induction l; cbn; congruence. Qed.

Definition demo_options : ws_client_options := MkOptions (64 * 1024 * 1024) 0 30000 (1024 * 1024) true.
Definition demo_client : @client unit := set_sock (Some (MkSocket [] [] true)) new_client.

Lemma handshake_interop_witness : exists c1 request req s1 s2 answer,
  handshake_send (fun _ => 7) true demo_options [str "chat"] (str "localhost", str "9222", str "/devtools", false) demo_client = (true, c1) /\
  read_http_request (MkSocket (map (fun b => [b]) request) [] true) = Ret (inr req, s1) /\
  handshake (fun _ s => Some (b64_decode s)) b64_encode (fun _ => replicate 20 0) s1 req = (None, s2) /\ sent s2 = answer.
Proof.
  destruct (handshake_interop (zstate := unit) (fun _ => Some tt) (fun _ => Some tt) (fun _ => 7) true demo_options [str "chat"]
    (fun _ s => Some (b64_decode s)) b64_encode (fun _ => replicate 20 0)) with
    (url := str "ws://localhost:9222/devtools") (host := str "localhost") (port := str "9222") (path := str "/devtools")
    (secure := false) (c := demo_client) as (c1 & request & E & _ & H).
  - intros nonce Hb _. by rewrite b64_roundtrip.
  - intros data. split; [apply b64_encode_text|apply b64_encode_length].
  - reflexivity.
  - by apply (bool_decide_unpack _); vm_compute.
  - reflexivity.
  - apply Forall_cons_2; [|apply Forall_nil_2]. split; [by apply (bool_decide_unpack _); vm_compute|done].
  - intros key Hk. unfold ws_request. rewrite !length_app, !Nat2Z.inj_add, Hk. vm_compute. congruence.
  - reflexivity.
  - by exists (MkSocket [] [] true).
  - destruct (H (MkSocket (map (fun b => [b]) request) [] true) []) as (req & s1 & s2 & answer & H1 & H2 & _ & H3 & _).
    + split; [|done]. apply Forall_forall. intros x Hx. apply list_elem_of_In, in_map_iff in Hx as (b & <- & _). done.
    + cbn [incoming]. rewrite concat_bytes, app_nil_r. done.
    + exists c1, request, req, s1, s2, answer. split_and!; [exact E|exact H1|exact H2|exact H3].
Defined.
