(* ===== verification/SourceMap.v ===== *)
(** Source maps ([src/js/source_map.cpp], [.hpp]): Base64 VLQ decoding, the mappings
    parser, the lookup of an original position, and the cache of decoders by module.

    nlohmann::json and std::filesystem are parameters.  An [int] is a [Z] whose
    arithmetic is undefined outside 32 bits. *)

From S2P Require Import Prelude Strings.

(** * [int] arithmetic *)

Definition int_ok (x : Z) : Prop := - 2 ^ 31 <= x < 2 ^ 31.
Definition int (x : Z) : outcome Z := if (- 2 ^ 31 <=? x) && (x <? 2 ^ 31) then Ret x else Ub.

Lemma int_Ret x : int_ok x -> int x = Ret x.
Proof. unfold int_ok, int. intros. destruct (Z.leb_spec (- 2 ^ 31) x), (Z.ltb_spec x (2 ^ 31)); done || lia. Qed.

(** Either in range, or undefined. *)
Lemma int_spec x : (int x = Ret x /\ int_ok x) \/ int x = Ub.
Proof. unfold int, int_ok. destruct (Z.leb_spec (- 2 ^ 31) x), (Z.ltb_spec x (2 ^ 31)); auto. Qed.

(** * Base64 VLQ *)

Definition base64_vlq_value (c : Z) : Z :=
  if (chr "A" <=? c) && (c <=? chr "Z") then c - chr "A"
  else if (chr "a" <=? c) && (c <=? chr "z") then c - chr "a" + 26
  else if (chr "0" <=? c) && (c <=? chr "9") then c - chr "0" + 52
  else if c =? chr "+" then 62
  else if c =? chr "/" then 63
  else -1.

(** [value] as an [int] bit pattern; a shift of more than 30 ends in failure. *)
Fixpoint vlq_loop (s : bytes) (shift value : Z) (saw_digit : bool) : option (Z * bool * bytes) :=
  match s with
  | [] => Some (value, saw_digit, [])
  | c :: s' =>
      let digit := base64_vlq_value c in
      if digit <? 0 then None
      else
        let continuation := negb (Z.land digit 0x20 =? 0) in
        let value := Z.lor value (i32 (Z.shiftl (Z.land digit 0x1f) shift)) in
        let shift := shift + 5 in
        if 30 <? shift then None
        else if continuation then vlq_loop s' shift value true
        else Some (value, true, s')
  end.

(** The decoded value and the rest of the text. *)
Definition decode_vlq (s : bytes) : option (Z * bytes) :=
  match vlq_loop s 0 0 false with
  | None => None
  | Some (_, false, _) => None
  | Some (value, true, s') =>
      let negative := negb (Z.land value 1 =? 0) in
      let value := Z.shiftr value 1 in
      Some (if negative then - value else value, s')
  end.

(** * Mappings *)

Record segment : Type := MkSegment {
  generated_column : Z; source_index : Z; source_line : Z; source_column : Z; name_index : Z }.

Definition is_separator (c : Z) : bool := (c =? chr ",") || (c =? chr ";").

(** At most [n] more fields, up to a separator. *)
Fixpoint read_fields (n : nat) (s : bytes) : option (list Z * bytes) :=
  match n with
  | O => Some ([], s)
  | S n' =>
      match s with
      | [] => Some ([], s)
      | c :: _ =>
          if is_separator c then Some ([], s)
          else match decode_vlq s with
               | None => None
               | Some (v, s') =>
                   match read_fields n' s' with
                   | None => None
                   | Some (vs, s'') => Some (v :: vs, s'')
                   end
               end
      end
  end.

(** The five running positions of [parse]. *)
Record position : Type := MkPosition { column : Z; index : Z; line : Z; original_column : Z; name : Z }.

(** One segment: the positions after it, and the segment. *)
Definition add_segment (fields : list Z) (p : position) : outcome (option (position * segment)) :=
  match fields with
  | [] => Ret None
  | g :: fields =>
      match fields with
      | [] =>
          g' ← int (column p + g);
          Ret (Some (MkPosition g' (index p) (line p) (original_column p) (name p), MkSegment g' (-1) (-1) (-1) (-1)))
      | [i; l; c] =>
          g' ← int (column p + g); i' ← int (index p + i); l' ← int (line p + l); c' ← int (original_column p + c);
          Ret (Some (MkPosition g' i' l' c' (name p), MkSegment g' i' l' c' (-1)))
      | [i; l; c; n] =>
          g' ← int (column p + g); i' ← int (index p + i); l' ← int (line p + l); c' ← int (original_column p + c);
          n' ← int (name p + n);
          Ret (Some (MkPosition g' i' l' c' n', MkSegment g' i' l' c' n'))
      | _ => Ret None
      end
  end.

Definition new_line (p : position) : position := MkPosition 0 (index p) (line p) (original_column p) (name p).

(** The loop over [mappings]; [s] is the text from [i] on. *)
Fixpoint mappings_loop (fuel : nat) (s : bytes) (p : position) (current_line : list segment)
    (lines : list (list segment)) : outcome (option (list (list segment))) :=
  match fuel with
  | O => OutOfFuel
  | S fuel' =>
      match s with
      | [] => Ret (Some (lines ++ [current_line]))
      | c :: s' =>
          if c =? chr ";" then mappings_loop fuel' s' (new_line p) [] (lines ++ [current_line])
          else if c =? chr "," then mappings_loop fuel' s' p current_line lines
          else match read_fields 5 s with
               | None => Ret None
               | Some (fields, s'') =>
                   r ← add_segment fields p;
                   match r with
                   | None => Ret None
                   | Some (p', seg) => mappings_loop fuel' s'' p' (current_line ++ [seg]) lines
                   end
               end
      end
  end.

Definition parse_mappings (s : bytes) : outcome (option (list (list segment))) :=
  mappings_loop (S (length s)) s (MkPosition 0 0 0 0 0) [] [].

(** * Paths *)

(** Backslashes to slashes. *)
Definition normalize_slashes (value : bytes) : bytes := (fun c => if c =? 92 then chr "/" else c) <$> value.

Definition has_file_scheme (url : bytes) : bool := starts_with (str "file://") url.

Definition strip_file_scheme (url : bytes) : bytes :=
  if negb (has_file_scheme url) then url
  else
    let path := drop 7 url in
    if starts_with (str "localhost/") path then drop 9 path else path.

Definition apply_source_root (source_root source : bytes) : bytes :=
  if bool_decide (source_root = []) || bool_decide (source = []) || starts_with (str "/") source ||
     starts_with (str "<") source || has_file_scheme source
  then source
  else
    let out := normalize_slashes source_root in
    (match last out with Some c => if c =? chr "/" then out else out ++ str "/" | None => out end) ++ source.

(** * JSON values, as the library reports them *)

Inductive json : Type :=
| JString (s : bytes)
| JArray (items : list json)
| JObject (members : list (bytes * json))
| JOther.

(** [parsed.find(key)]; a value that is not an object has no members. *)
Definition json_find (key : bytes) (j : json) : option json :=
  match j with JObject members => map_find key members | _ => None end.

Definition json_string (j : json) : option bytes := match j with JString s => Some s | _ => None end.

(** [is_string() ? get<std::string>() : std::string{}] *)
Definition json_text (j : json) : bytes := match j with JString s => s | _ => [] end.

Definition json_array (j : option json) : list json := match j with Some (JArray l) => l | _ => [] end.

(** * The decoder *)

Record decoder : Type := MkDecoder {
  module_url : bytes; generated_line_offset : Z; mappings : list (list segment);
  sources : list bytes; names : list bytes }.

Record mapped_position : Type := MkMapped { pos_source : bytes; pos_line : Z; pos_column : Z; pos_name : bytes }.

Definition decoder_empty (d : decoder) : bool :=
  bool_decide (length (mappings d) = 0%nat) || bool_decide (sources d = []).

(** [best] after the loop over the segments of a line. *)
Fixpoint best_segment (segments : list segment) (column : Z) (best : option segment) : option segment :=
  match segments with
  | [] => best
  | seg :: segments' =>
      if generated_column seg <=? column then best_segment segments' column (Some seg) else best
  end.

Section Decoder.
Context (json_parse : bytes -> option json) (weakly_canonical : bytes -> option bytes)
        (lexically_normal parent_path : bytes -> bytes) (path_append : bytes -> bytes -> bytes).

(** The path with its symbolic links resolved if it can be, in normal form. *)
Definition canonical (path : bytes) : bytes :=
  lexically_normal (match weakly_canonical path with Some p => p | None => path end).

Definition resolve_source_path (module_url source : bytes) : bytes :=
  let source_text := normalize_slashes (strip_file_scheme source) in
  match source_text with
  | [] => source_text
  | _ =>
      if starts_with (str "/") source_text || starts_with (str "<") source_text then source_text
      else
        let module_path := strip_file_scheme module_url in
        if bool_decide (module_path = []) || starts_with (str "<") module_path then source_text
        else normalize_slashes (canonical (path_append (parent_path module_path) source_text))
  end.

Definition normalize_source_map_url (url : bytes) : bytes :=
  let text := normalize_slashes (strip_file_scheme url) in
  if bool_decide (text = []) || starts_with (str "<") text then text
  else normalize_slashes (canonical text).

Definition parse (url source_map_json : bytes) (line_offset : Z) : outcome (option decoder) :=
  match json_parse source_map_json with
  | None => Ret None
  | Some parsed =>
      match json_find (str "mappings") parsed ≫= json_string with
      | None => Ret None
      | Some text =>
          let source_root := match json_find (str "sourceRoot") parsed with Some j => json_text j | None => [] end in
          let sources := map (fun j => match json_string j with
                                       | Some s => apply_source_root source_root s
                                       | None => []
                                       end) (json_array (json_find (str "sources") parsed)) in
          let names := map json_text (json_array (json_find (str "names") parsed)) in
          r ← parse_mappings text;
          Ret (match r with
               | None => None
               | Some lines =>
                   let d := MkDecoder (normalize_source_map_url url) (Z.max line_offset 0) lines sources names in
                   if decoder_empty d then None else Some d
               end)
      end
  end.

Definition original_position (d : decoder) (generated_line column : Z) : outcome (option mapped_position) :=
  l ← int (generated_line - 1);
  zero_based_line ← int (l - generated_line_offset d);
  if zero_based_line <? 0 then Ret None
  else
    match mappings d !! Z.to_nat zero_based_line with
    | None => Ret None
    | Some segments =>
        match segments with
        | [] => Ret None
        | front :: _ =>
            c ← int (column - 1);
            let zero_based_column := Z.max c 0 in
            let best := match best_segment segments zero_based_column None with Some b => b | None => front end in
            if (source_index best <? 0) || (source_line best <? 0) || (source_column best <? 0) then Ret None
            else
              match sources d !! Z.to_nat (source_index best) with
              | None => Ret None
              | Some source =>
                  line ← int (source_line best + 1);
                  column ← int (source_column best + 1);
                  Ret (Some (MkMapped (resolve_source_path (module_url d) source) line column
                               (if 0 <=? name_index best
                                then match names d !! Z.to_nat (name_index best) with Some n => n | None => [] end
                                else [])))
              end
        end
    end.

(** * The cache *)

Record cache : Type := MkCache { capacity : nat; entries : list (bytes * decoder) }.

Definition new_cache (capacity : nat) : cache := MkCache (if (capacity =? 0)%nat then 1 else capacity)%nat [].

Definition erase_key (url : bytes) (es : list (bytes * decoder)) : list (bytes * decoder) :=
  filter (fun e => e.1 <> normalize_source_map_url url) es.

Definition put (url : bytes) (d : decoder) (c : cache) : cache :=
  let key := normalize_source_map_url url in
  if bool_decide (key = []) || decoder_empty d then c
  else MkCache (capacity c) (take (capacity c) ((key, d) :: erase_key key (entries c))).

Definition put_json (url source_map_json : bytes) (line_offset : Z) (c : cache) : outcome cache :=
  r ← parse url source_map_json line_offset;
  Ret (match r with Some d => put url d c | None => c end).

Definition erase (url : bytes) (c : cache) : cache := MkCache (capacity c) (erase_key url (entries c)).

Definition clear (c : cache) : cache := MkCache (capacity c) [].

(** The first entry with the key, moved to the front. *)
Definition cached_position (url : bytes) (generated_line generated_column : Z) (c : cache) :
    outcome (option mapped_position * cache) :=
  let key := normalize_source_map_url url in
  match list_find (fun e => e.1 = key) (entries c) with
  | None => Ret (None, c)
  | Some (i, e) =>
      mapped ← original_position e.2 generated_line generated_column;
      Ret (mapped, MkCache (capacity c) (e :: delete i (entries c)))
  end.
End Decoder.

(** * A reference encoder *)

Definition base64_char (d : Z) : Z :=
  if d <? 26 then chr "A" + d else if d <? 52 then chr "a" + (d - 26)
  else if d <? 62 then chr "0" + (d - 52) else if d =? 62 then chr "+" else chr "/".

(** Digits of five bits, the least significant first, all but the last with the
    continuation bit. *)
Fixpoint vlq_digits (k : nat) (n : Z) : bytes :=
  match k with
  | O => []
  | S k' => if n <? 32 then [base64_char n] else base64_char (32 + n mod 32) :: vlq_digits k' (n / 32)
  end.

Definition encode_vlq (v : Z) : bytes := vlq_digits 6 (if v <? 0 then 2 * - v + 1 else 2 * v).

Lemma base64_char_value : forall d, 0 <= d < 64 ->
  base64_vlq_value (base64_char d) = d /\ is_separator (base64_char d) = false.
Proof. intros d Hd. split; revert d Hd; mask_by 64. Qed.

Lemma digit_parts : forall d, 0 <= d < 64 ->
  (Z.land d 0x20 =? 0) = (d <? 32) /\ Z.land d 0x1f = d mod 32.
Proof. intros d Hd. split; revert d Hd; mask_by 64. Qed.

(** One digit below the bits already read. *)
Lemma vlq_digit value d shift : 0 <= shift <= 25 -> 0 <= value < 2 ^ shift -> 0 <= d < 32 ->
  Z.lor value (i32 (Z.shiftl d shift)) = value + d * 2 ^ shift.
Proof.
  intros Hs Hv Hd. assert (H : d * 2 ^ shift < 2 ^ 30).
  { assert (2 ^ shift <= 2 ^ 25) by (apply Z.pow_le_mono_r; lia). assert (0 < 2 ^ shift) by (apply Z.pow_pos_nonneg; lia). nia. }
  assert (0 <= d * 2 ^ shift) by (apply Z.mul_nonneg_nonneg; [lia|apply Z.pow_nonneg; lia]).
  rewrite Z.shiftl_mul_pow2 by lia. assert (Ei : i32 (d * 2 ^ shift) = d * 2 ^ shift).
  { rewrite <- (wrap_small 32 (d * 2 ^ shift)) at 1 by lia. apply (to_signed_wrap 32); [lia|]. change (2 ^ (32 - 1)) with (2 * 2 ^ 30). lia. }
  rewrite Ei, Z.lor_comm, lor_mul by lia. lia.
Qed.

Lemma vlq_loop_digits k : forall n shift value b rest,
  0 <= n < 32 ^ Z.of_nat k -> shift + 5 * Z.of_nat k <= 30 -> 0 <= shift -> 0 <= value < 2 ^ shift -> (0 < k)%nat ->
  vlq_loop (vlq_digits k n ++ rest) shift value b = Some (value + n * 2 ^ shift, true, rest).
Proof.
  induction k as [|k IH]; intros n shift value b rest Hn Hk Hs Hv Hpos; [lia|]. cbn [vlq_digits].
  assert (E : 2 ^ (shift + 5) = 2 ^ shift * 32) by (rewrite Z.pow_add_r by lia; done).
  assert (0 < 2 ^ shift) by (apply Z.pow_pos_nonneg; lia).
  destruct (Z.ltb_spec n 32).
  - cbn [app vlq_loop]. destruct (base64_char_value n) as [-> _]; [lia|]. destruct (digit_parts n) as [-> ->]; [lia|].
    destruct (Z.ltb_spec n 0); [lia|]. destruct (Z.ltb_spec n 32); [|lia]. destruct (Z.ltb_spec 30 (shift + 5)); [lia|].
    rewrite Z.mod_small, vlq_digit by lia. done.
  - assert (Hm : 0 <= n mod 32 < 32) by (apply Z.mod_pos_bound; lia). set (d := 32 + n mod 32).
    assert (Hd : d mod 32 = n mod 32) by (unfold d; dlia).
    cbn [app vlq_loop]. destruct (base64_char_value d) as [-> _]; [lia|]. destruct (digit_parts d) as [-> ->]; [lia|].
    destruct (Z.ltb_spec d 0); [lia|]. destruct (Z.ltb_spec d 32); [lia|]. destruct (Z.ltb_spec 30 (shift + 5)); [lia|].
    cbn [negb]. rewrite Hd, vlq_digit by lia. destruct k as [|k]; [simpl in *; lia|].
    rewrite IH; [|split| | | |].
    + do 3 f_equal. rewrite E. pose proof (Z.div_mod n 32). nia.
    + apply Z.div_pos; lia.
    + apply Z.div_lt_upper_bound; [lia|]. replace (32 * 32 ^ Z.of_nat (S k)) with (32 ^ Z.of_nat (S (S k))); [lia|].
      rewrite (Nat2Z.inj_succ (S k)), Z.pow_succ_r by lia. done.
    + lia.
    + lia.
    + nia.
    + lia.
Qed.

Definition delta_ok (v : Z) : Prop := - 2 ^ 29 < v < 2 ^ 29.

Lemma decode_encode_vlq v rest : delta_ok v -> decode_vlq (encode_vlq v ++ rest) = Some (v, rest).
Proof.
  unfold delta_ok, decode_vlq, encode_vlq. intros Hv. set (n := if v <? 0 then _ else _).
  assert (Hn : 0 <= n < 2 ^ 30) by (unfold n; destruct (Z.ltb_spec v 0); lia).
  rewrite vlq_loop_digits by (simpl; lia). rewrite Z.mul_1_r, Z.add_0_l.
  pose proof (land_bit_testbit n 0 ltac:(lia)) as E. change (2 ^ 0) with 1 in E. rewrite E, negb_involutive.
  rewrite Z.bit0_odd, shiftr_div by lia. unfold n. destruct (Z.ltb_spec v 0).
  - replace (Z.odd (2 * - v + 1)) with true by (rewrite Z.odd_add, Z.odd_mul; done). do 2 f_equal. dlia.
  - rewrite Z.odd_mul. cbn [Z.odd andb]. do 2 f_equal. dlia.
Qed.

Lemma encode_vlq_head v : delta_ok v -> exists c l, encode_vlq v = c :: l /\ is_separator c = false.
Proof.
  unfold delta_ok, encode_vlq. intros Hv. set (n := if v <? 0 then _ else _).
  assert (Hn : 0 <= n) by (unfold n; destruct (Z.ltb_spec v 0); lia).
  cbn [vlq_digits]. destruct (Z.ltb_spec n 32); do 2 eexists; (split; [done|]).
  - destruct (base64_char_value n); [lia|done].
  - refine (proj2 (base64_char_value _ _)). pose proof (Z.mod_pos_bound n 32 ltac:(lia)). lia.
Qed.

(** The text up to a separator or the end. *)
Definition at_separator (s : bytes) : Prop := match s with [] => True | c :: _ => is_separator c = true end.

Lemma read_fields_encoded n : forall vs rest, Forall delta_ok vs -> (length vs <= n)%nat ->
  (at_separator rest \/ length vs = n) ->
  read_fields n (concat (map encode_vlq vs) ++ rest) = Some (vs, rest).
Proof.
  induction n as [|n IH]; intros vs rest Hvs Hn Hr.
  - destruct vs; [done|cbn in Hn; lia].
  - destruct vs as [|v vs]; cbn [map concat app].
    + destruct Hr as [Hr|]; [|done]. cbn [read_fields]. destruct rest as [|c rest]; [done|]. by rewrite Hr.
    + apply Forall_cons in Hvs as [Hv Hvs]. rewrite <- app_assoc.
      destruct (encode_vlq_head v Hv) as (c & l & E & Hc).
      cbn [read_fields]. rewrite E at 1. cbn [app]. rewrite Hc. rewrite decode_encode_vlq by done.
      rewrite IH; [done|done|cbn in Hn; lia|]. destruct Hr as [|Hr]; [by left|right; cbn in Hr; lia].
Qed.

(** The fields of a segment, as differences from the running positions. *)
Definition segment_fields (p : position) (s : segment) : list Z :=
  (generated_column s - column p) ::
  if source_index s <? 0 then []
  else [source_index s - index p; source_line s - line p; source_column s - original_column p] ++
       (if name_index s <? 0 then [] else [name_index s - name p]).

Definition after_segment (p : position) (s : segment) : position :=
  if source_index s <? 0
  then MkPosition (generated_column s) (index p) (line p) (original_column p) (name p)
  else MkPosition (generated_column s) (source_index s) (source_line s) (source_column s)
         (if name_index s <? 0 then name p else name_index s).

Fixpoint encode_segments (p : position) (segments : list segment) : bytes :=
  match segments with
  | [] => []
  | s :: rest =>
      concat (map encode_vlq (segment_fields p s)) ++
      match rest with [] => [] | _ => chr "," :: encode_segments (after_segment p s) rest end
  end.

Fixpoint encode_lines (p : position) (lines : list (list segment)) : bytes :=
  match lines with
  | [] => []
  | segments :: rest =>
      encode_segments p segments ++
      match rest with
      | [] => []
      | _ => chr ";" :: encode_lines (new_line (foldl after_segment p segments)) rest
      end
  end.

Definition encode_mappings (lines : list (list segment)) : bytes := encode_lines (MkPosition 0 0 0 0 0) lines.

(** Segments of one, four or five fields, all below [2^29]. *)
Definition coordinate (x : Z) : Prop := 0 <= x < 2 ^ 29.
Definition segment_ok (s : segment) : Prop :=
  coordinate (generated_column s) /\
  ((source_index s = -1 /\ source_line s = -1 /\ source_column s = -1 /\ name_index s = -1) \/
   (coordinate (source_index s) /\ coordinate (source_line s) /\ coordinate (source_column s) /\
    (name_index s = -1 \/ coordinate (name_index s)))).
Definition position_ok (p : position) : Prop :=
  coordinate (column p) /\ coordinate (index p) /\ coordinate (line p) /\ coordinate (original_column p) /\ coordinate (name p).

Lemma after_segment_ok p s : position_ok p -> segment_ok s -> position_ok (after_segment p s).
Proof.
  unfold position_ok, segment_ok, after_segment, coordinate. intros Hp Hs.
  destruct (Z.ltb_spec (source_index s) 0); cbn; [lia|]. destruct (Z.ltb_spec (name_index s) 0); cbn; lia.
Qed.

Lemma segment_fields_ok p s : position_ok p -> segment_ok s ->
  Forall delta_ok (segment_fields p s) /\ (length (segment_fields p s) <= 5)%nat /\
  add_segment (segment_fields p s) p = Ret (Some (after_segment p s, s)).
Proof.
  unfold position_ok, segment_ok, segment_fields, after_segment, coordinate, delta_ok. intros Hp Hs.
  assert (E : forall a x, 0 <= x < 2 ^ 29 -> int (a + (x - a)) = Ret x).
  { intros. replace (a + (x - a)) with x by lia. apply int_Ret. unfold int_ok. lia. }
  destruct s as [g i l c n]. cbn [generated_column source_index source_line source_column name_index] in *.
  destruct (Z.ltb_spec i 0); [|destruct (Z.ltb_spec n 0)]; cbn [app length]; (split; [repeat constructor; lia|]);
    (split; [lia|]); cbn [add_segment]; rewrite !E by lia; cbn [mbind outcome_bind];
    destruct Hs as [_ [Hs|Hs]]; try lia.
  - destruct Hs as (-> & -> & -> & ->). done.
  - destruct Hs as (_ & _ & _ & [->|]); [done|lia].
  - done.
Qed.

Lemma encode_segments_head p segments rest : at_separator rest -> segments <> [] -> position_ok p -> Forall segment_ok segments ->
  exists c l, encode_segments p segments ++ rest = c :: l /\ is_separator c = false.
Proof.
  intros _ Hne Hp Hs. destruct segments as [|s segments]; [done|]. apply Forall_cons in Hs as [Hs _].
  destruct (segment_fields_ok p s Hp Hs) as (Hd & _). cbn [encode_segments].
  unfold segment_fields in *. apply Forall_cons in Hd as [Hd _]. cbn [map concat].
  destruct (encode_vlq_head _ Hd) as (c & l & E & Hc). rewrite E. cbn [app]. eauto.
Qed.

(** The parser on the segments of a line. *)
Lemma mappings_loop_segments segments : forall fuel rest p cur lines,
  Forall segment_ok segments -> position_ok p -> at_separator rest ->
  (length (encode_segments p segments ++ rest) < fuel)%nat ->
  exists fuel', (length rest < fuel')%nat /\
    mappings_loop fuel (encode_segments p segments ++ rest) p cur lines
    = mappings_loop fuel' rest (foldl after_segment p segments) (cur ++ segments) lines.
Proof.
  induction segments as [|s segments IH]; intros fuel rest p cur lines Hs Hp Hr Hf.
  { exists fuel. split; [done|]. by rewrite app_nil_r. }
  destruct (encode_segments_head p (s :: segments) rest Hr ltac:(done) Hp Hs) as (c & l & E & Hc).
  apply Forall_cons in Hs as [Hs Hss]. destruct (segment_fields_ok p s Hp Hs) as (Hd & Hn & Ha).
  destruct fuel as [|fuel]; [lia|].
  set (more := match segments with [] => [] | _ => chr "," :: encode_segments (after_segment p s) segments end).
  assert (Hmore : read_fields 5 (c :: l) = Some (segment_fields p s, more ++ rest)).
  { rewrite <- E. cbn [encode_segments]. rewrite <- app_assoc. apply read_fields_encoded; [done|done|].
    left. unfold more. by destruct segments. }
  assert (Hlen : (length (more ++ rest) < length (c :: l))%nat).
  { rewrite <- E. cbn [encode_segments]. fold more. rewrite <- app_assoc, (length_app (concat _)).
    enough (0 < length (concat (map encode_vlq (segment_fields p s))))%nat by lia.
    unfold segment_fields in *. apply Forall_cons in Hd as [Hd _]. cbn [map concat].
    destruct (encode_vlq_head _ Hd) as (c' & l' & -> & _). cbn. lia. }
  rewrite E in Hf |- *. cbn [mappings_loop].
  unfold is_separator in Hc. apply orb_false_iff in Hc as [Hc1 Hc2]. rewrite Hc1, Hc2, Hmore, Ha.
  cbn [mbind outcome_bind foldl]. pose proof (after_segment_ok p s Hp Hs) as Hp'.
  unfold more in *. destruct segments as [|s2 segments].
  - exists fuel. cbn [app foldl] in *. split; [lia|done].
  - destruct fuel as [|fuel]; [cbn [app length] in *; lia|]. cbn [app mappings_loop]. rewrite Z.eqb_refl.
    change (chr "," =? chr ";") with false. cbn iota.
    destruct (IH fuel rest (after_segment p s) (cur ++ [s]) lines) as (fuel' & Hf' & E'); try done; [cbn [app length] in *; lia|].
    exists fuel'. split; [done|]. rewrite E'. by rewrite <- app_assoc.
Qed.

Lemma mappings_loop_encoded lines : forall fuel p done_lines,
  lines <> [] -> Forall (Forall segment_ok) lines -> position_ok p ->
  (length (encode_lines p lines) < fuel)%nat ->
  mappings_loop fuel (encode_lines p lines) p [] done_lines = Ret (Some (done_lines ++ lines)).
Proof.
  induction lines as [|segments lines IH]; intros fuel p done_lines Hne Hs Hp Hf; [done|].
  apply Forall_cons in Hs as [Hs Hss]. cbn [encode_lines] in *.
  set (more := match lines with [] => [] | _ => _ end) in *.
  assert (Hsep : at_separator more) by (unfold more; by destruct lines).
  destruct (mappings_loop_segments segments fuel more p [] done_lines Hs Hp Hsep Hf) as (fuel' & Hf' & ->).
  destruct fuel' as [|fuel']; [lia|]. cbn [app]. unfold more in *. destruct lines as [|l2 lines].
  - done.
  - cbn [mappings_loop]. rewrite Z.eqb_refl. rewrite IH; try done.
    + by rewrite <- app_assoc.
    + assert (position_ok (foldl after_segment p segments)) as Hp'.
      { clear -Hs Hp. revert p Hp. induction Hs; intros p Hp; [done|]. cbn. auto using after_segment_ok. }
      unfold position_ok, new_line, coordinate in *. cbn. lia.
    + cbn [length] in *. lia.
Qed.

Lemma parse_mappings_encoded lines : lines <> [] -> Forall (Forall segment_ok) lines ->
  parse_mappings (encode_mappings lines) = Ret (Some lines).
Proof.
  intros. unfold parse_mappings, encode_mappings. rewrite mappings_loop_encoded; try done.
  - unfold position_ok, coordinate. cbn. lia.
Qed.

(** ** Any text *)

(** What is consumed is base64 digits, so holds no separator. *)
Definition digits_only (s : bytes) : Prop := Forall (fun c => 0 <= base64_vlq_value c) s.

Lemma vlq_loop_rest s : forall shift value b v b' s', vlq_loop s shift value b = Some (v, b', s') ->
  exists used, s = used ++ s' /\ digits_only used /\ (s <> [] -> used <> []).
Proof.
  induction s as [|c s IH]; intros shift value b v b' s'; cbn [vlq_loop].
  - intros [= <- <- <-]. exists []. split_and!; [done|constructor|done].
  - destruct (Z.ltb_spec (base64_vlq_value c) 0); [done|]. destruct (30 <? _); [done|]. destruct (negb _).
    + intros (used & -> & Hu & _)%IH. exists (c :: used). split_and!; [done|by constructor|done].
    + intros [= <- <- <-]. exists [c]. split_and!; [done|repeat constructor; done|done].
Qed.

Lemma decode_vlq_rest s v s' : decode_vlq s = Some (v, s') -> exists used, s = used ++ s' /\ digits_only used /\ used <> [].
Proof.
  unfold decode_vlq. destruct (vlq_loop s 0 0 false) as [[[x []] s1]|] eqn:E; [|done|done].
  apply vlq_loop_rest in E as E'. intros [= _ <-]. destruct s; [done|]. naive_solver.
Qed.

Lemma read_fields_rest n s vs s' : read_fields n s = Some (vs, s') ->
  exists used, s = used ++ s' /\ digits_only used /\ (vs <> [] -> used <> []).
Proof.
  revert s vs s'. induction n as [|n IH]; intros s vs s'; cbn [read_fields].
  { intros [= <- <-]. exists []. split_and!; [done|constructor|done]. }
  assert (G : exists used, s = used ++ s /\ digits_only used /\ (@nil Z <> [] -> used <> []))
    by (exists []; split_and!; [done|constructor|done]).
  destruct s as [|c s]; [by intros [= <- <-]|]. destruct (is_separator c); [by intros [= <- <-]|].
  destruct (decode_vlq (c :: s)) as [[v s1]|] eqn:E; [|done]. apply decode_vlq_rest in E as (u1 & E & H1 & H2).
  destruct (read_fields n s1) as [[vs' s2]|] eqn:E2; [|done]. apply IH in E2 as (u2 & -> & H3 & _).
  intros [= <- <-]. exists (u1 ++ u2). split_and!; [by rewrite E, <- app_assoc|by apply Forall_app|].
  intros _. by destruct u1.
Qed.

Definition count_lines (s : bytes) : nat := length (filter (fun c => c = chr ";") s).

Lemma count_lines_digits used s : digits_only used -> count_lines (used ++ s) = count_lines s.
Proof.
  intros H. unfold count_lines. rewrite filter_app, length_app. enough (filter (fun c => c = chr ";") used = []) as -> by done.
  induction H as [|c used Hc _ IH]; [done|]. rewrite filter_cons, IH. case_decide as E; [|done].
  subst c. by vm_compute in Hc.
Qed.

Definition segment_int (s : segment) : Prop :=
  int_ok (generated_column s) /\ int_ok (source_index s) /\ int_ok (source_line s) /\ int_ok (source_column s) /\
  int_ok (name_index s).

Lemma add_segment_total fields p : match add_segment fields p with
  | Ret (Some (_, seg)) => fields <> [] /\ segment_int seg
  | Ret None | Ub => True
  | _ => False
  end.
Proof.
  assert (Hm : int_ok (-1)) by (unfold int_ok; lia).
  assert (G : forall x (A : Type) (f : Z -> outcome A) (Q : outcome A -> Prop),
    Q Ub -> (int_ok x -> Q (f x)) -> Q (int x ≫= f)).
  { intros x A f Q H1 H2. destruct (int_spec x) as [[-> Hx]| ->]; cbn [mbind outcome_bind]; auto. }
  unfold add_segment. destruct fields as [|g [|i [|l [|c [|n []]]]]]; try done;
    repeat (match goal with |- match ?m ≫= _ with _ => _ end =>
      apply (G _ _ _ (fun o => match o with Ret (Some (_, seg)) => _ <> [] /\ segment_int seg | Ret None | Ub => True | _ => False end)) end; [done|intros ?]);
    split; done.
Qed.

Lemma mappings_loop_total fuel : forall s p cur lines, (length s < fuel)%nat ->
  Forall segment_int cur -> Forall (Forall segment_int) lines ->
  match mappings_loop fuel s p cur lines with
  | Ret (Some ls) => length ls = (length lines + 1 + count_lines s)%nat /\ Forall (Forall segment_int) ls
  | Ret None | Ub => True
  | _ => False
  end.
Proof.
  induction fuel as [|fuel IH]; intros s p cur lines Hf Hcur Hl; [lia|]. cbn [mappings_loop].
  destruct s as [|c s].
  { split; [rewrite length_app; cbn; lia|]. apply Forall_app. by repeat constructor. }
  cbn [length] in Hf. destruct (Z.eqb_spec c (chr ";")) as [->|Hsemi].
  - specialize (IH s (new_line p) [] (lines ++ [cur]) ltac:(lia) ltac:(constructor)).
    destruct (mappings_loop _ _ _ _ _) as [[ls|]| | |]; try done; try (by apply IH, Forall_app; repeat constructor).
    destruct IH as [-> H]; [by apply Forall_app; repeat constructor|]. split; [|done].
    unfold count_lines. rewrite filter_cons, decide_True, length_app by done. cbn [length]. lia.
  - assert (Hc : forall s, count_lines (c :: s) = count_lines s) by (intros t; unfold count_lines; by rewrite filter_cons, decide_False).
    destruct (c =? chr ","); [rewrite Hc; apply IH; [lia|done|done]|].
    destruct (read_fields 5 (c :: s)) as [[fields s']|] eqn:E; [|done].
    apply read_fields_rest in E as (used & E & Hu & Hne).
    pose proof (add_segment_total fields p) as Ha. destruct (add_segment fields p) as [[[p' seg]|]| | |]; try done.
    cbn [mbind outcome_bind]. destruct Ha as [Hfields Hseg]. rewrite E, count_lines_digits by done.
    apply IH; [|by apply Forall_app_2; [|constructor; [|constructor]]|done].
    apply (f_equal length) in E. rewrite length_app in E. destruct used; [by specialize (Hne Hfields)|]. cbn [length] in E. lia.
Qed.

(** ** The best segment of a line *)

Definition by_column (a b : segment) : Prop := generated_column a <= generated_column b.

Lemma best_segment_split segments c : forall best, exists l1 l2, segments = l1 ++ l2 /\
  best_segment segments c best = match last l1 with Some s => Some s | None => best end /\
  Forall (fun s => generated_column s <= c) l1 /\
  match l2 with [] => True | s :: _ => c < generated_column s end.
Proof.
  induction segments as [|s segments IH]; intros best; cbn [best_segment].
  - exists [], []. by repeat constructor.
  - destruct (Z.leb_spec (generated_column s) c).
    + destruct (IH (Some s)) as (l1 & l2 & -> & -> & H1 & H2). exists (s :: l1), l2. split_and!; [done| |by constructor|done].
      rewrite last_cons. by destruct (last l1).
    + exists [], (s :: segments). by repeat constructor.
Qed.

(** The segment used for a column of a sorted line: the last one that starts at or
    before it, or the first when all start after. *)
Lemma best_segment_spec front segments c : StronglySorted by_column (front :: segments) ->
  exists l1 best l2, front :: segments = l1 ++ best :: l2 /\
    match best_segment (front :: segments) c None with Some b => b | None => front end = best /\
    Forall (fun s => c < generated_column s) l2 /\
    (generated_column best <= c \/ (l1 = [] /\ c < generated_column best)).
Proof.
  intros Hs. destruct (best_segment_split (front :: segments) c None) as (l1 & l2 & E & -> & H1 & H2).
  destruct (last l1) as [b|] eqn:El.
  - apply last_Some in El as [l0 ->]. exists l0, b, l2. rewrite E, <- app_assoc. split_and!; [done|done| |].
    + destruct l2 as [|s l2]; [constructor|]. constructor; [done|]. rewrite E in Hs.
      assert (Hs2 : StronglySorted by_column (s :: l2)) by (by apply StronglySorted_app_1_r in Hs).
      apply StronglySorted_inv in Hs2 as [_ Hs2]. eapply Forall_impl; [exact Hs2|]. unfold by_column. intros; lia.
    + left. apply Forall_app in H1 as [_ H1]. by inversion H1.
  - apply last_None in El as ->. cbn [app] in E. subst l2. exists [], front, segments. split_and!; [done|done| |auto].
    apply StronglySorted_inv in Hs as [_ Hs]. eapply Forall_impl; [exact Hs|]. unfold by_column. intros; lia.
Qed.

(** * The cache as a recency list *)

Section Cache.
Context (weakly_canonical : bytes -> option bytes)
        (lexically_normal parent_path : bytes -> bytes) (path_append : bytes -> bytes -> bytes).
Notation normalize := (normalize_source_map_url weakly_canonical lexically_normal).
Notation canonical := (canonical weakly_canonical lexically_normal).

(** What the code relies on: normalizing a normal path changes nothing, a normal path
    has no doubled slash after a scheme, and no backslash appears in it. *)
Context (canonical_idem : forall p, canonical (canonical p) = canonical p)
        (canonical_scheme : forall p, has_file_scheme (canonical p) = false)
        (canonical_backslash : forall p, 92 ∉ p -> 92 ∉ canonical p).

Lemma normalize_slashes_none s : 92 ∉ s -> normalize_slashes s = s.
Proof.
  intros H. unfold normalize_slashes. induction s as [|c s IH]; [done|]. apply not_elem_of_cons in H as [H1 H2].
  cbn [fmap list_fmap]. destruct (Z.eqb_spec c 92); [by subst|]. f_equal. by apply IH.
Qed.

Lemma normalize_slashes_clean s : 92 ∉ normalize_slashes s.
Proof.
  unfold normalize_slashes. intros (c & E & _)%list_elem_of_fmap. destruct (Z.eqb_spec c 92); [|by subst].
  by vm_compute in E.
Qed.

Lemma strip_no_scheme s : has_file_scheme s = false -> strip_file_scheme s = s.
Proof. unfold strip_file_scheme. by intros ->. Qed.

Lemma normalize_idem url : normalize (normalize url) = normalize url.
Proof.
  unfold normalize_source_map_url at 2 3. set (text := normalize_slashes (strip_file_scheme url)).
  destruct (bool_decide (text = []) || starts_with (str "<") text) eqn:E.
  - assert (Hf : has_file_scheme text = false).
    { apply orb_true_iff in E as [E%bool_decide_eq_true|E]; [by rewrite E|].
      apply starts_with_spec in E as [r ->]. unfold has_file_scheme, starts_with. apply bool_decide_false.
      intros E. apply (f_equal head) in E. by vm_compute in E. }
    unfold normalize_source_map_url. rewrite strip_no_scheme by done.
    rewrite normalize_slashes_none by apply normalize_slashes_clean. by rewrite E.
  - assert (Hc : 92 ∉ canonical text) by apply canonical_backslash, normalize_slashes_clean.
    rewrite (normalize_slashes_none (canonical text)) by done. unfold normalize_source_map_url.
    rewrite strip_no_scheme by apply canonical_scheme. rewrite (normalize_slashes_none (canonical text)) by done.
    rewrite canonical_idem. rewrite (normalize_slashes_none (canonical text)) by done. case_match; done.
Qed.

Notation put := (put weakly_canonical lexically_normal).
Notation erase := (erase weakly_canonical lexically_normal).
Notation cached_position := (cached_position weakly_canonical lexically_normal parent_path path_append).
Notation original_position := (original_position weakly_canonical lexically_normal parent_path path_append).
Notation erase_key := (erase_key weakly_canonical lexically_normal).

Definition cache_wf (c : cache) : Prop :=
  (0 < capacity c)%nat /\ (length (entries c) <= capacity c)%nat /\ NoDup (entries c).*1 /\
  Forall (fun e => normalize e.1 = e.1 /\ e.1 <> [] /\ decoder_empty e.2 = false) (entries c).

Definition without (key : bytes) (es : list (bytes * decoder)) : list (bytes * decoder) := filter (fun e => e.1 <> key) es.

Lemma erase_key_without url es : erase_key url es = without (normalize url) es.
Proof. reflexivity. Qed.

Lemma without_keys key es : (without key es).*1 = filter (fun k => k <> key) es.*1.
Proof.
  induction es as [|e es IH]; [done|]. unfold without in *. cbn [fmap list_fmap]. rewrite !filter_cons.
  repeat case_decide; cbn [fmap list_fmap]; congruence.
Qed.

Lemma without_length key es : (length (without key es) <= length es)%nat.
Proof. apply length_filter. Qed.

Lemma without_id key es : key ∉ es.*1 -> without key es = es.
Proof.
  induction es as [|e es IH]; [done|]. cbn [fmap list_fmap]. intros [H1 H2]%not_elem_of_cons.
  unfold without. rewrite filter_cons, decide_True by done. f_equal. by apply IH.
Qed.

Lemma list_find_delete key es i e : list_find (fun e => e.1 = key) es = Some (i, e) -> NoDup es.*1 ->
  e.1 = key /\ es !! i = Some e /\ delete i es = without key es.
Proof.
  intros (H1 & H2 & H3)%list_find_Some Hnd. split_and!; [done|done|]. rewrite delete_take_drop.
  apply take_drop_middle in H1 as E. rewrite <- E in Hnd.
  replace (without key es) with (without key (take i es ++ e :: drop (S i) es)) by (by rewrite E).
  set (l1 := take i es) in *. set (l2 := drop (S i) es) in *. clearbody l1 l2. clear E H1.
  rewrite fmap_app in Hnd. cbn [fmap list_fmap] in Hnd. apply NoDup_app in Hnd as (_ & Hd & Hn2).
  apply NoDup_cons in Hn2 as [Hn2 _]. unfold without. rewrite filter_app, filter_cons, decide_False by congruence.
  f_equal; symmetry; apply without_id.
  - intros Hin. apply (Hd key Hin). rewrite <- H2. constructor.
  - congruence.
Qed.

Lemma put_entries url d c : normalize url <> [] -> decoder_empty d = false -> 
  put url d c = MkCache (capacity c) (take (capacity c) ((normalize url, d) :: without (normalize url) (entries c))).
Proof.
  intros H1 H2. unfold put. rewrite bool_decide_false, H2 by done. cbn [orb].
  by rewrite erase_key_without, normalize_idem.
Qed.

Lemma put_ignored url d c : normalize url = [] \/ decoder_empty d = true -> put url d c = c.
Proof. intros [H|H]; unfold put; [by rewrite bool_decide_true|by rewrite H, orb_true_r]. Qed.

Lemma NoDup_without key es : NoDup es.*1 -> NoDup (without key es).*1.
Proof. intros. rewrite without_keys. by apply NoDup_filter. Qed.

Lemma NoDup_keys_front key d es : NoDup es.*1 -> NoDup ((key, d) :: without key es).*1.
Proof.
  intros. cbn [fmap list_fmap]. constructor; [|by apply NoDup_without].
  rewrite without_keys. intros [? _]%list_elem_of_filter. done.
Qed.

Lemma Forall_without (P : bytes * decoder -> Prop) key es : Forall P es -> Forall P (without key es).
Proof. rewrite !Forall_forall. intros H x [_ Hx]%list_elem_of_filter. auto. Qed.

(** Operations on the cache; [put_json] is [put] of what [parse] returns, or nothing. *)
Inductive cache_op : Type :=
| Put (url : bytes) (d : decoder)
| Lookup (url : bytes) (line column : Z)
| Erase (url : bytes)
| Clear.

Definition run_op (o : cache_op) (c : cache) : outcome cache :=
  match o with
  | Put url d => Ret (put url d c)
  | Lookup url l k => r ← cached_position url l k c; Ret r.2
  | Erase url => Ret (erase url c)
  | Clear => Ret (clear c)
  end.

Fixpoint run_ops (os : list cache_op) (c : cache) : outcome cache :=
  match os with
  | [] => Ret c
  | o :: os' => c' ← run_op o c; run_ops os' c'
  end.

Lemma cached_position_miss url l k c : list_find (fun e => e.1 = normalize url) (entries c) = None ->
  cached_position url l k c = Ret (None, c).
Proof. unfold cached_position. by intros ->. Qed.

Lemma cached_position_hit url l k c i e : list_find (fun e => e.1 = normalize url) (entries c) = Some (i, e) ->
  cached_position url l k c
  = (m ← original_position e.2 l k; Ret (m, MkCache (capacity c) (e :: delete i (entries c)))).
Proof. unfold cached_position. by intros ->. Qed.

(** A hit moves the entry to the front. *)
Lemma lookup_entries url l k c r : NoDup (entries c).*1 -> cached_position url l k c = Ret r ->
  r.2 = c \/ exists d, (normalize url, d) ∈ entries c /\
    r.2 = MkCache (capacity c) ((normalize url, d) :: without (normalize url) (entries c)).
Proof.
  intros Hnd. destruct (list_find (fun e => e.1 = normalize url) (entries c)) as [[i [key d]]|] eqn:E.
  - rewrite (cached_position_hit _ _ _ _ _ _ E). intros (m & _ & [= <-])%bind_inv. right. exists d. cbn [snd].
    destruct (list_find_delete _ _ _ _ E Hnd) as (H1 & H2 & ->). cbn [fst] in H1. subst key.
    split; [by apply list_elem_of_lookup_2 in H2|done].
  - rewrite (cached_position_miss _ _ _ _ E). intros [= <-]. by left.
Qed.

Lemma without_present key d es : (key, d) ∈ es -> (length (without key es) < length es)%nat.
Proof.
  intros (l1 & l2 & ->)%list_elem_of_split. unfold without. rewrite filter_app, filter_cons, decide_False by (cbn; congruence).
  rewrite !length_app. cbn [length]. pose proof (without_length key l1). pose proof (without_length key l2). unfold without in *. lia.
Qed.

Lemma NoDup_prefix_take {A} n (l : list A) : NoDup l -> NoDup (take n l).
Proof. intros H. rewrite <- (take_drop n l) in H. by apply NoDup_app in H as [? _]. Qed.

Lemma run_op_wf o c c' : cache_wf c -> run_op o c = Ret c' -> cache_wf c' /\ capacity c' = capacity c.
Proof.
  intros (Hc & Hl & Hnd & Hf) E. destruct o as [url d|url l k|url|]; cbn [run_op] in E.
  - injection E as <-. destruct (decide (normalize url = [])) as [H0|H0]; [rewrite put_ignored by auto; done|].
    destruct (decoder_empty d) eqn:Ed; [rewrite put_ignored by auto; done|]. rewrite put_entries by done.
    unfold cache_wf. cbn [capacity entries]. split; [|done]. split_and!; [done|rewrite length_take; lia| |].
    + rewrite fmap_take. apply (NoDup_prefix_take _ _). by apply NoDup_keys_front.
    + apply Forall_take. constructor; [|by apply Forall_without]. cbn. split_and!; [apply normalize_idem|done|done].
  - apply bind_inv in E as (r & E & [= <-]). destruct (lookup_entries _ _ _ _ _ Hnd E) as [->|(d & Hin & ->)]; [done|].
    unfold cache_wf. cbn [capacity entries]. split; [|done]. split_and!; [done| |by apply NoDup_keys_front|].
    + pose proof (without_present _ _ _ Hin). cbn [length]. lia.
    + constructor; [|by apply Forall_without]. by apply (proj1 (Forall_forall _ _) Hf).
  - injection E as <-. unfold erase. rewrite erase_key_without. unfold cache_wf. cbn [capacity entries]. split; [|done].
    pose proof (without_length (normalize url) (entries c)).
    split_and!; [done|lia|by apply NoDup_without|by apply Forall_without].
  - injection E as <-. unfold cache_wf, clear. cbn. split; [|done]. split_and!; [done|lia|constructor|constructor].
Qed.

(** ** How long an entry stays *)

(** The other keys an operation may move in front of [key]. *)
Definition touched (o : cache_op) : gset bytes :=
  match o with Put url _ | Lookup url _ _ => {[normalize url]} | _ => ∅ end.

Definition keeps (key : bytes) (o : cache_op) : Prop :=
  match o with Put url _ | Erase url => normalize url <> key | Lookup _ _ _ => True | Clear => False end.

(** [d] is cached under [key] with only keys of [T] before it. *)
Definition cached_after (key : bytes) (d : decoder) (T : gset bytes) (es : list (bytes * decoder)) : Prop :=
  exists before after, es = before ++ (key, d) :: after /\ list_to_set before.*1 ⊆ T.

Lemma list_to_set_without key es : list_to_set (without key es).*1 ⊆ (list_to_set es.*1 : gset bytes).
Proof. rewrite without_keys. intros x. rewrite !elem_of_list_to_set. by intros [_ ?]%list_elem_of_filter. Qed.

Lemma cached_after_without key d T es k : k <> key -> cached_after key d T es -> cached_after key d T (without k es).
Proof.
  intros Hk (before & after & -> & HT). exists (without k before), (without k after). split.
  - unfold without. rewrite filter_app, filter_cons, decide_True by (cbn; congruence). done.
  - pose proof (list_to_set_without k before). set_solver.
Qed.

Lemma cached_after_front key d T es k dk : k <> key -> k ∈ T -> cached_after key d T es ->
  cached_after key d T ((k, dk) :: without k es).
Proof.
  intros Hk Hin H. apply (cached_after_without _ _ _ _ k Hk) in H as (before & after & -> & HT).
  exists ((k, dk) :: before), after. split; [done|]. cbn [fmap list_fmap list_to_set]. set_solver.
Qed.

(** Fewer than [n] keys before it: it survives the cut to [n] entries. *)
Lemma cached_after_take key d T es n : NoDup es.*1 -> cached_after key d T es -> (size (T ∖ {[key]}) < n)%nat ->
  cached_after key d T (take n es).
Proof.
  intros Hnd (before & after & -> & HT) Hn. rewrite fmap_app in Hnd. cbn [fmap list_fmap] in Hnd.
  apply NoDup_app in Hnd as (Hnb & Hd & _).
  assert (Hb : (length before <= size (T ∖ {[key]}))%nat).
  { rewrite <- (length_fmap fst before), <- (size_list_to_set (C := gset bytes) before.*1) by done. apply subseteq_size.
    intros x Hx. apply elem_of_difference. split; [set_solver|]. apply elem_of_list_to_set in Hx.
    intros ->%elem_of_singleton. apply (Hd key Hx). constructor. }
  exists before, (take (n - S (length before)) after). split; [|done].
  rewrite take_app_ge by lia. replace (n - length before)%nat with (S (n - S (length before))) by lia. done.
Qed.

Lemma run_op_retains key d T o c c' : cache_wf c -> run_op o c = Ret c' -> keeps key o -> touched o ⊆ T ->
  cached_after key d T (entries c) -> (size (T ∖ {[key]}) < capacity c)%nat -> cached_after key d T (entries c').
Proof.
  intros (Hc & Hl & Hnd & Hf) E Hk HT H Hs. destruct o as [url d2|url l k|url|]; cbn [run_op keeps touched] in *; [| | |done].
  - injection E as <-. destruct (decide (normalize url = [])) as [H0|H0]; [rewrite put_ignored by auto; done|].
    destruct (decoder_empty d2) eqn:Ed; [rewrite put_ignored by auto; done|]. rewrite put_entries by done. cbn [entries].
    apply cached_after_take; [by apply NoDup_keys_front|apply cached_after_front; [done|set_solver|done]|done].
  - apply bind_inv in E as (r & E & [= <-]). destruct (lookup_entries _ _ _ _ _ Hnd E) as [->|(d2 & Hin & ->)]; [done|].
    cbn [entries]. destruct (decide (normalize url = key)) as [<-|Hne].
    + destruct H as (before & after & Ees & HT'). rewrite Ees in Hnd, Hin |- *. exists [], (without (normalize url) (before ++ (normalize url, d) :: after)).
      split; [|set_solver]. cbn [app]. do 2 f_equal. 
      rewrite fmap_app in Hnd. apply NoDup_app in Hnd as (_ & Hd & Hn2). cbn [fmap list_fmap] in *. apply NoDup_cons in Hn2 as [Hn2 _].
      apply elem_of_app in Hin as [Hin|[Hin|Hin]%elem_of_cons]; [|congruence|].
      * exfalso. apply (Hd (normalize url)); [|constructor]. apply (list_elem_of_fmap_2 fst) in Hin. done.
      * exfalso. apply Hn2. apply (list_elem_of_fmap_2 fst) in Hin. done.
    + apply cached_after_front; [done|set_solver|done].
  - injection E as <-. unfold erase. rewrite erase_key_without. cbn [entries]. by apply cached_after_without.
Qed.

Lemma run_ops_retains key d T os : forall c c', cache_wf c -> run_ops os c = Ret c' -> Forall (keeps key) os ->
  Forall (fun o => touched o ⊆ T) os -> cached_after key d T (entries c) -> (size (T ∖ {[key]}) < capacity c)%nat ->
  cache_wf c' /\ cached_after key d T (entries c').
Proof.
  induction os as [|o os IH]; intros c c' Hwf E Hk HT H Hs; cbn [run_ops] in E; [injection E as <-; by split|].
  apply bind_inv in E as (c1 & E1 & E). apply Forall_cons in Hk as [Hk Hks]. apply Forall_cons in HT as [HT HTs].
  destruct (run_op_wf o c c1 Hwf E1) as [Hwf1 Hc1].
  apply (IH c1); try done; [exact (run_op_retains key d T o c c1 Hwf E1 Hk HT H Hs)|by rewrite Hc1].
Qed.
End Cache.

(** * Properties *)

Section Parse.
Context (json_parse : bytes -> option json) (weakly_canonical : bytes -> option bytes)
        (lexically_normal : bytes -> bytes).
Notation normalize := (normalize_source_map_url weakly_canonical lexically_normal).
Notation parse := (parse json_parse weakly_canonical lexically_normal).

(** C11. Parsing a source map whose mappings are written by the format's encoding
    (Base64 VLQ differences, columns restarting on each line) gives back exactly the
    segments of every line, with the sources under the source root and the names;
    every coordinate below [2^29] fits the six VLQ digits the decoder accepts. *)
Theorem parse_encoded url text off members lines source_root srcs ns :
  json_parse text = Some (JObject members) ->
  map_find (str "mappings") members = Some (JString (encode_mappings lines)) ->
  map_find (str "sourceRoot") members = Some (JString source_root) ->
  map_find (str "sources") members = Some (JArray (map JString srcs)) ->
  map_find (str "names") members = Some (JArray (map JString ns)) ->
  lines <> [] -> srcs <> [] -> Forall (Forall segment_ok) lines ->
  parse url text off
  = Ret (Some (MkDecoder (normalize url) (Z.max off 0) lines (map (apply_source_root source_root) srcs) ns)).
Proof.
  intros Hj Hm Hr Hs Hn Hl Hsrc Hok. unfold parse. rewrite Hj. cbn [json_find]. rewrite Hm, Hr, Hs, Hn.
  cbn [mbind option_bind json_string json_text json_array]. rewrite parse_mappings_encoded by done.
  cbn [mbind outcome_bind]. rewrite !map_map. cbn [json_string json_text].
  rewrite (map_id ns). unfold decoder_empty. cbn [mappings sources].
  rewrite bool_decide_false by (by destruct lines). rewrite bool_decide_false by (by destruct srcs). done.
Qed.

(** Whatever the JSON holds, [parse] returns: it neither throws nor runs past the
    mappings nor loops, unless the running positions overflow an [int].  A decoder it
    returns has sources, one line more than there are semicolons, the positions of
    every segment in range, and a line offset that is not negative. *)
Lemma parse_sound url text off :
  match parse url text off with
  | Ret (Some d) => exists parsed mappings_text,
      json_parse text = Some parsed /\ json_find (str "mappings") parsed = Some (JString mappings_text) /\
      length (mappings d) = S (count_lines mappings_text) /\ Forall (Forall segment_int) (mappings d) /\
      sources d <> [] /\ 0 <= generated_line_offset d
  | Ret None | Ub => True
  | _ => False
  end.
Proof.
  unfold parse. destruct (json_parse text) as [parsed|]; [|done].
  destruct (json_find (str "mappings") parsed) as [[s| | |]|] eqn:Em; try done. cbn [mbind option_bind json_string].
  pose proof (mappings_loop_total (S (length s)) s (MkPosition 0 0 0 0 0) [] [] ltac:(lia) ltac:(constructor) ltac:(constructor)) as H.
  unfold parse_mappings. destruct (mappings_loop _ _ _ _ _) as [[ls|]| | |]; try done. cbn [mbind outcome_bind].
  set (srcs := map _ (json_array (json_find (str "sources") parsed))).
  destruct (decoder_empty _) eqn:E; [done|]. unfold decoder_empty in E. apply orb_false_iff in E as [_ E].
  apply bool_decide_eq_false in E. destruct H as [H1 H2]. exists parsed, s. cbn [mappings sources generated_line_offset] in *.
  split_and!; [done|done|rewrite H1; cbn; lia|done|done|lia].
Qed.
End Parse.

Section Lookup.
Context (weakly_canonical : bytes -> option bytes) (lexically_normal parent_path : bytes -> bytes)
        (path_append : bytes -> bytes -> bytes).
Notation original_position := (original_position weakly_canonical lexically_normal parent_path path_append).
Notation resolve := (resolve_source_path weakly_canonical lexically_normal parent_path path_append).

(** On a line whose segments are sorted by column, [original_position] answers from
    the last segment that starts at or before the column, or from the first when all
    start after it: its source resolved against the module, its line and column counted
    from one, its name; no answer for a segment without a source or an unknown one.
    Lines before the offset or after the last have no answer. *)
Lemma original_position_spec d n segments column :
  0 <= generated_line_offset d < 2 ^ 30 -> Z.of_nat n < 2 ^ 30 -> 1 <= column < 2 ^ 31 ->
  mappings d !! n = Some segments -> segments <> [] -> StronglySorted by_column segments -> Forall segment_ok segments ->
  (forall line, - 2 ^ 30 <= line <= generated_line_offset d -> original_position d line column = Ret None) /\
  (forall m, Z.of_nat (length (mappings d)) <= m < 2 ^ 30 ->
    original_position d (generated_line_offset d + m + 1) column = Ret None) /\
  exists l1 best l2, segments = l1 ++ best :: l2 /\ Forall (fun s => column - 1 < generated_column s) l2 /\
    (generated_column best <= column - 1 \/ (l1 = [] /\ column - 1 < generated_column best)) /\
    original_position d (generated_line_offset d + Z.of_nat n + 1) column
    = Ret (if source_index best <? 0 then None
           else source ← sources d !! Z.to_nat (source_index best);
                Some (MkMapped (resolve (module_url d) source) (source_line best + 1) (source_column best + 1)
                        (if name_index best <? 0 then [] else default [] (names d !! Z.to_nat (name_index best))))).
Proof.
  intros Hoff Hn Hcol Hl Hne Hs Hok.
  assert (Hline : forall line, - 2 ^ 30 <= line < 2 ^ 31 ->
    int (line - 1) = Ret (line - 1) /\ int (line - 1 - generated_line_offset d) = Ret (line - 1 - generated_line_offset d))
    by (intros; split; apply int_Ret; unfold int_ok; lia).
  split_and!.
  - intros line H. destruct (Hline line) as [E1 E2]; [lia|]. unfold original_position.
    rewrite E1. cbn [mbind outcome_bind]. rewrite E2. cbn [mbind outcome_bind].
    destruct (Z.ltb_spec (line - 1 - generated_line_offset d) 0); [done|lia].
  - intros m Hm. destruct (Hline (generated_line_offset d + m + 1)) as [E1 E2]; [lia|]. unfold original_position.
    rewrite E1. cbn [mbind outcome_bind]. rewrite E2. cbn [mbind outcome_bind].
    replace (generated_line_offset d + m + 1 - 1 - generated_line_offset d) with m by lia.
    destruct (Z.ltb_spec m 0); [done|]. by rewrite lookup_ge_None_2 by lia.
  - destruct segments as [|front segments]; [done|].
    destruct (best_segment_spec front segments (column - 1) Hs) as (l1 & best & l2 & E & Eb & H1 & H2).
    exists l1, best, l2. split_and!; [done|done|done|].
    assert (Hbest : segment_ok best) by (rewrite E in Hok; apply Forall_app in Hok as [_ Hok]; by inversion Hok).
    destruct (Hline (generated_line_offset d + Z.of_nat n + 1)) as [E1 E2]; [lia|]. unfold original_position.
    rewrite E1. cbn [mbind outcome_bind]. rewrite E2. cbn [mbind outcome_bind].
    replace (generated_line_offset d + Z.of_nat n + 1 - 1 - generated_line_offset d) with (Z.of_nat n) by lia.
    destruct (Z.ltb_spec (Z.of_nat n) 0); [lia|]. rewrite Nat2Z.id, Hl.
    rewrite (int_Ret (column - 1)) by (unfold int_ok; lia). cbn [mbind outcome_bind]. rewrite Z.max_l by lia. rewrite Eb.
    unfold segment_ok, coordinate in Hbest. destruct (Z.ltb_spec (source_index best) 0); [done|].
    destruct (Z.ltb_spec (source_line best) 0); [lia|]. destruct (Z.ltb_spec (source_column best) 0); [lia|]. cbn [orb].
    destruct (sources d !! _); [|done]. cbn [mbind option_bind].
    rewrite (int_Ret (source_line best + 1)) by (unfold int_ok; lia). cbn [mbind outcome_bind].
    rewrite (int_Ret (source_column best + 1)) by (unfold int_ok; lia). cbn [mbind outcome_bind]. do 3 f_equal.
    destruct (Z.leb_spec 0 (name_index best)), (Z.ltb_spec (name_index best) 0); done || lia.
Qed.
End Lookup.

Section CacheSpec.
Context (weakly_canonical : bytes -> option bytes) (lexically_normal parent_path : bytes -> bytes)
        (path_append : bytes -> bytes -> bytes).
Notation normalize := (normalize_source_map_url weakly_canonical lexically_normal).
Notation canonical := (canonical weakly_canonical lexically_normal).
Notation run_ops := (run_ops weakly_canonical lexically_normal parent_path path_append).

(** The cache is least recently used: from any state reached from a new cache, a
    decoder just put under a module stays available through any operations that do not
    erase or replace it, as long as they look up or put fewer other modules than the
    capacity; looking it up answers from that decoder.  The cache never holds two
    decoders for a module nor more than its capacity. *)
Lemma cache_retention
  (canonical_idem : forall p, canonical (canonical p) = canonical p)
  (canonical_scheme : forall p, has_file_scheme (canonical p) = false)
  (canonical_backslash : forall p, 92 ∉ p -> 92 ∉ canonical p)
  n os0 c url d os c' l k :
  run_ops os0 (new_cache n) = Ret c -> normalize url <> [] -> decoder_empty d = false ->
  Forall (keeps weakly_canonical lexically_normal (normalize url)) os ->
  (size (⋃ (touched weakly_canonical lexically_normal <$> os) ∖ {[normalize url]}) < Nat.max n 1)%nat ->
  run_ops os (put weakly_canonical lexically_normal url d c) = Ret c' ->
  NoDup (entries c').*1 /\ (length (entries c') <= Nat.max n 1)%nat /\
  exists c'', cached_position weakly_canonical lexically_normal parent_path path_append url l k c'
    = (m ← original_position weakly_canonical lexically_normal parent_path path_append d l k; Ret (m, c'')).
Proof.
  intros E0 Hne Hd Hk Hs E.
  pose proof (run_op_wf weakly_canonical lexically_normal parent_path path_append canonical_idem canonical_scheme canonical_backslash) as Hwf.
  assert (H0 : cache_wf weakly_canonical lexically_normal (new_cache n) /\ capacity (new_cache n) = Nat.max n 1).
  { unfold cache_wf, new_cache. cbn. split; [split_and!|]; try constructor; destruct (Nat.eqb_spec n 0); lia. }
  assert (Hrun : forall os c c', cache_wf weakly_canonical lexically_normal c -> run_ops os c = Ret c' ->
    cache_wf weakly_canonical lexically_normal c' /\ capacity c' = capacity c).
  { clear -Hwf. induction os as [|o os IH]; intros c c' Hc E; cbn in E; [injection E as <-; by split|].
    apply bind_inv in E as (c1 & E1 & E). destruct (Hwf _ _ _ Hc E1) as [Hc1 <-]. by apply IH. }
  destruct H0 as [H0 Hn]. destruct (Hrun _ _ _ H0 E0) as [Hc Hcap]. rewrite Hn in Hcap.
  destruct (Hwf (Put url d) c _ Hc eq_refl) as [Hp Hpcap]. set (c1 := put _ _ url d c) in *.
  destruct (Hrun _ _ _ Hp E) as [(_ & Hlen & Hnd & _) Hcap'].
  assert (Hfirst : cached_after (normalize url) d (⋃ (touched weakly_canonical lexically_normal <$> os)) (entries c1)).
  { exists [], (take (capacity c - 1) (without (normalize url) (entries c))). split; [|set_solver].
    unfold c1. rewrite put_entries by done. cbn [entries]. rewrite Hcap. by destruct (Nat.max n 1) eqn:En; [lia|]; cbn; rewrite Nat.sub_0_r. }
  destruct (run_ops_retains weakly_canonical lexically_normal parent_path path_append canonical_idem canonical_scheme canonical_backslash
    (normalize url) d (⋃ (touched weakly_canonical lexically_normal <$> os)) os c1 c' Hp E Hk) as [_ (before & after & Ees & _)]; [|done|congruence|].
  { clear. induction os as [|o os IH]; [constructor|]. constructor; [set_solver|]. eapply Forall_impl; [exact IH|]. set_solver. }
  split_and!; [done|congruence|].
  destruct (list_find (fun e => e.1 = normalize url) (entries c')) as [[i e]|] eqn:Ef.
  - rewrite (cached_position_hit _ _ _ _ _ _ _ _ _ _ Ef). apply list_find_delete in Ef as (He & Hi & _); [|done].
    assert (e = (normalize url, d)) as ->; [|by eexists].
    rewrite Ees in Hnd, Hi. rewrite fmap_app in Hnd. cbn [fmap list_fmap] in Hnd. apply NoDup_app in Hnd as (_ & Hd1 & Hn2).
    apply NoDup_cons in Hn2 as [Hn2 _]. apply list_elem_of_lookup_2 in Hi.
    apply elem_of_app in Hi as [Hi|[Hi|Hi]%elem_of_cons]; [|done|]; exfalso; apply (list_elem_of_fmap_2 fst) in Hi; rewrite He in Hi.
    + apply (Hd1 _ Hi). constructor.
    + done.
  - exfalso. apply list_find_None in Ef. rewrite Ees, Forall_app, Forall_cons in Ef. naive_solver.
Qed.
End CacheSpec.

(** ** Instances *)

(** A normal form of paths, on which [std::filesystem] is instantiated: one slash
    where there were several. *)
Fixpoint squeeze (s : bytes) : bytes :=
  match s with
  | [] => []
  | c :: s' =>
      match squeeze s' with
      | (c' :: _) as t => if (c =? 47) && (c' =? 47) then t else c :: t
      | [] => [c]
      end
  end.

Fixpoint single_slashes (s : bytes) : bool :=
  match s with
  | [] => true
  | c :: s' =>
      match s' with
      | c' :: _ => negb ((c =? 47) && (c' =? 47)) && single_slashes s'
      | [] => true
      end
  end.

Lemma single_slashes_squeeze s : single_slashes (squeeze s) = true.
Proof.
  induction s as [|c s IH]; [done|]. cbn [squeeze]. destruct (squeeze s) as [|c' t]; [reflexivity|].
  destruct ((c =? 47) && (c' =? 47)) eqn:E; [exact IH|]. change (negb ((c =? 47) && (c' =? 47)) && single_slashes (c' :: t) = true). by rewrite E, IH.
Qed.

Lemma squeeze_id s : single_slashes s = true -> squeeze s = s.
Proof.
  induction s as [|c s IH]; [done|]. destruct s as [|c' s]; [done|]. cbn [single_slashes]. intros [H1 H2]%andb_true_iff.
  cbn [squeeze] in *. rewrite IH by done. apply negb_true_iff in H1. by rewrite H1.
Qed.

Lemma squeeze_elem x s : x ∈ squeeze s -> x ∈ s.
Proof.
  induction s as [|c s IH]; [done|]. cbn [squeeze]. destruct (squeeze s) as [|c' t]; [set_solver|].
  destruct (_ && _); set_solver.
Qed.

Lemma squeeze_scheme s : has_file_scheme (squeeze s) = false.
Proof.
  destruct (has_file_scheme (squeeze s)) eqn:E; [|done]. pose proof (single_slashes_squeeze s) as H.
  apply starts_with_spec in E as [r E]. rewrite E in H. by vm_compute in H.
Qed.

Definition demo_lines : list (list segment) :=
  [[MkSegment 0 0 0 0 (-1); MkSegment 4 0 1 2 0]; []; [MkSegment 7 (-1) (-1) (-1) (-1); MkSegment 9 0 0 5 (-1)]].

Definition demo_members : list (bytes * json) :=
  [(str "mappings", JString (encode_mappings demo_lines)); (str "names", JArray [JString (str "f")]);
   (str "sourceRoot", JString (str "src")); (str "sources", JArray [JString (str "a.ts")])].

Definition demo_decoder : decoder := MkDecoder (str "/m/a.js") 2 demo_lines [str "src/a.ts"] [str "f"].

Lemma demo_lines_ok : Forall (Forall segment_ok) demo_lines.
Proof. repeat constructor; unfold coordinate; cbn; lia. Qed.

Lemma parse_encoded_witness :
  parse (fun _ => Some (JObject demo_members)) (fun _ => None) squeeze (str "file:///m/a.js") (str "{}") 2
  = Ret (Some demo_decoder).
Proof.
  rewrite (parse_encoded (fun _ => Some (JObject demo_members)) (fun _ => None) squeeze (str "file:///m/a.js") (str "{}") 2
    demo_members demo_lines (str "src") [str "a.ts"] [str "f"]); try reflexivity; try discriminate. apply demo_lines_ok.
Defined.

Lemma original_position_spec_witness : exists best,
  original_position (fun _ => None) squeeze (fun _ => str "/m") (fun a b => a ++ str "/" ++ b) demo_decoder 3 6
  = Ret (Some best) /\ best = MkMapped (str "/m/src/a.ts") 2 3 (str "f").
Proof.
  destruct (original_position_spec (fun _ => None) squeeze (fun _ => str "/m") (fun a b => a ++ str "/" ++ b) demo_decoder 0
    [MkSegment 0 0 0 0 (-1); MkSegment 4 0 1 2 0] 6) as (_ & _ & l1 & best & l2 & E & _ & Hb & H).
  - cbn. lia.
  - lia.
  - lia.
  - reflexivity.
  - discriminate.
  - repeat constructor; unfold by_column; cbn; lia.
  - pose proof demo_lines_ok as Hok. apply Forall_cons in Hok as [Hok _]. exact Hok.
  - assert (Hr : original_position (fun _ => None) squeeze (fun _ => str "/m") (fun a b => a ++ str "/" ++ b) demo_decoder 3 6
      = Ret (Some (MkMapped (str "/m/src/a.ts") 2 3 (str "f")))) by reflexivity.
    eexists. split; [exact Hr|reflexivity].
Defined.

Definition demo_ops : list cache_op :=
  [Put (str "/b") demo_decoder; Lookup (str "/a") 3 1; Lookup (str "/b") 3 1; Erase (str "/c"); Put (str "//b") demo_decoder].

Lemma cache_retention_witness : exists c' c'',
  run_ops (fun _ => None) squeeze (fun p => p) (fun a b => a ++ b) demo_ops
    (put (fun _ => None) squeeze (str "/a") demo_decoder (new_cache 2)) = Ret c' /\ length (entries c') = 2%nat /\
  cached_position (fun _ => None) squeeze (fun p => p) (fun a b => a ++ b) (str "/a") 3 1 c'
  = Ret (Some (MkMapped (str "/m/a.jssrc/a.ts") 1 1 []), c'').
Proof.
  assert (E : exists c', run_ops (fun _ => None) squeeze (fun p => p) (fun a b => a ++ b) demo_ops
    (put (fun _ => None) squeeze (str "/a") demo_decoder (new_cache 2)) = Ret c' /\ length (entries c') = 2%nat)
    by (eexists; split; reflexivity).
  destruct E as (c' & E & Hlen).
  destruct (cache_retention (fun _ => None) squeeze (fun p => p) (fun a b => a ++ b)) with
    (n := 2%nat) (os0 := @nil cache_op) (c := new_cache 2) (url := str "/a") (d := demo_decoder) (os := demo_ops) (c' := c') (l := 3) (k := 1)
    as (_ & _ & c'' & H).
  - intros p. unfold canonical. apply squeeze_id, single_slashes_squeeze.
  - intros p. apply squeeze_scheme.
  - intros p Hp Hin. by apply Hp, squeeze_elem.
  - reflexivity.
  - vm_compute. discriminate.
  - reflexivity.
  - repeat constructor; vm_compute; discriminate.
  - vm_compute. lia.
  - exact E.
  - exists c', c''. split_and!; [exact E|exact Hlen|]. rewrite H. reflexivity.
Defined.

(** * What modelling showed *)

(** A VLQ cut off by the end of the mappings is accepted. *)
Lemma truncated_vlq_accepted : decode_vlq (str "g") = Some (0, []).
Proof. reflexivity. Qed.

(** Six fields are not refused but read as a segment of five and one of one. *)
Lemma six_fields_accepted :
  parse_mappings (str "AAAAAA") = Ret (Some [[MkSegment 0 0 0 0 0; MkSegment 0 (-1) (-1) (-1) (-1)]]).
Proof. reflexivity. Qed.

(** Five differences of the largest size overflow an [int]. *)
Lemma column_overflows : parse_mappings (concat (replicate 5 (encode_vlq (2 ^ 29 - 1) ++ str ","))) = Ub.
Proof. vm_compute. reflexivity. Qed.
