(* ===== verification/Atlas.v ===== *)
(** The glyph atlas ([src/font/atlas.cpp], [include/fxe/font/atlas.hpp]): a page of
    pixels filled shelf by shelf, that doubles when it is full.

    A [u32] is a [Z] whose operations wrap at 32 bits; a [memcpy] outside the pixel
    buffer or the source is undefined.  Log messages are left out. *)

From S2P Require Import Prelude.

Inductive format : Type := grayscale | bgra.

Record atlas : Type := MkAtlas {
  format_ : format; width_ : Z; height_ : Z; max_size_ : Z; initial_size_ : Z;
  cursor_x_ : Z; cursor_y_ : Z; row_h_ : Z; padding_ : Z;
  generation_ : Z; layout_generation_ : Z; pixels_ : bytes }.

Record region : Type := MkRegion { ok : bool; region_x : Z; region_y : Z }.

Definition bytes_per_pixel (a : atlas) : Z := match format_ a with grayscale => 1 | bgra => 4 end.

Definition zeros (n : Z) : bytes := replicate (Z.to_nat n) 0.

Definition with_page (w h : Z) (px : bytes) (a : atlas) : atlas :=
  MkAtlas (format_ a) w h (max_size_ a) (initial_size_ a) (cursor_x_ a) (cursor_y_ a) (row_h_ a) (padding_ a)
    (generation_ a) (layout_generation_ a) px.
Definition with_cursor (x y row : Z) (a : atlas) : atlas :=
  MkAtlas (format_ a) (width_ a) (height_ a) (max_size_ a) (initial_size_ a) x y row (padding_ a)
    (generation_ a) (layout_generation_ a) (pixels_ a).

(** [++generation_] and, when glyph positions may have moved, [++layout_generation_]. *)
Definition bump (layout : bool) (a : atlas) : atlas :=
  MkAtlas (format_ a) (width_ a) (height_ a) (max_size_ a) (initial_size_ a) (cursor_x_ a) (cursor_y_ a) (row_h_ a)
    (padding_ a) (u64 (generation_ a + 1))
    (if layout then u64 (layout_generation_ a + 1) else layout_generation_ a) (pixels_ a).

Definition new_atlas (f : format) (initial_size max_size : Z) : atlas :=
  let a := MkAtlas f initial_size initial_size max_size initial_size 1 1 0 1 0 0 [] in
  bump true (with_page initial_size initial_size (zeros (initial_size * initial_size * bytes_per_pixel a)) a).

Definition reset_empty_ (a : atlas) : atlas :=
  let side := Z.max (initial_size_ a) 1 in
  with_cursor (padding_ a) (padding_ a) 0 (with_page side side (zeros (side * side * bytes_per_pixel a)) a).

Definition clear (a : atlas) : atlas := bump true (reset_empty_ a).

Definition mutable_pixels (a : atlas) : atlas := bump false a.

(** [memcpy] of [src] to offset [off] of [dst]. *)
Definition blit (off : Z) (src dst : bytes) : outcome bytes :=
  if (0 <=? off) && (off + zlen src <=? zlen dst)
  then Ret (ztake off dst ++ src ++ zdrop (off + zlen src) dst) else Ub.

(** [while (n < min && n < max) n *= 2] *)
Fixpoint double_until (fuel : nat) (n min max : Z) : outcome Z :=
  if (n <? min) && (n <? max) then
    match fuel with O => OutOfFuel | S fuel' => double_until fuel' (u32 (n * 2)) min max end
  else Ret n.

(** The first [k] rows of [src], of [w] bytes each, to rows of [w'] bytes. *)
Fixpoint copy_rows (k : nat) (w w' : Z) (src dst : bytes) : outcome bytes :=
  match k with
  | O => Ret dst
  | S k' =>
      dst ← copy_rows k' w w' src dst;
      row ← sub_ src (Z.of_nat k' * w) w;
      blit (Z.of_nat k' * w') row dst
  end.

Definition grow_ (min_w min_h : Z) (a : atlas) : outcome (bool * atlas) :=
  new_w ← double_until 33 (Z.max (width_ a) 1) min_w (max_size_ a);
  new_h ← double_until 33 (Z.max (height_ a) 1) min_h (max_size_ a);
  if (new_w =? width_ a) && (new_h =? height_ a) then Ret (false, a)
  else if (max_size_ a <? new_w) || (max_size_ a <? new_h) then Ret (false, a)
  else
    let bpp := bytes_per_pixel a in
    grown ← copy_rows (Z.to_nat (height_ a)) (width_ a * bpp) (new_w * bpp) (pixels_ a) (zeros (new_w * new_h * bpp));
    Ret (true, bump true (with_page new_w new_h grown a)).

(** The loop over the first [k] rows of the glyph. *)
Fixpoint copy_glyph (k : nat) (dst_x dst_y w : Z) (src : bytes) (a : atlas) (px : bytes) : outcome bytes :=
  match k with
  | O => Ret px
  | S k' =>
      px ← copy_glyph k' dst_x dst_y w src a px;
      let bpp := bytes_per_pixel a in
      row ← sub_ src (Z.of_nat k' * w * bpp) (w * bpp);
      blit ((u32 (dst_y + Z.of_nat k') * width_ a + dst_x) * bpp) row px
  end.

Definition copy_into_ (dst_x dst_y w h : Z) (src : bytes) (a : atlas) : outcome atlas :=
  px ← copy_glyph (Z.to_nat h) dst_x dst_y w src a (pixels_ a);
  Ret (bump false (with_page (width_ a) (height_ a) px a)).

Fixpoint reserve_loop (fuel : nat) (w h : Z) (a : atlas) : outcome (region * atlas) :=
  match fuel with
  | O => OutOfFuel
  | S fuel' =>
      let pad := padding_ a in
      let need_w := u32 (w + u32 (pad * 2)) in
      let need_h := u32 (h + u32 (pad * 2)) in
      if (width_ a <? need_w) || (height_ a <? need_h) then
        r ← grow_ (Z.max (u32 (width_ a * 2)) need_w) (Z.max (u32 (height_ a * 2)) need_h) a;
        let '(grown, a) := r in
        if (grown : bool) then reserve_loop fuel' w h a else Ret (MkRegion false 0 0, a)
      else
        let a := if width_ a <? u32 (u32 (cursor_x_ a + w) + pad)
                 then with_cursor pad (u32 (cursor_y_ a + u32 (row_h_ a + pad))) 0 a else a in
        if height_ a <? u32 (u32 (cursor_y_ a + h) + pad) then
          r ← grow_ (width_ a) (u32 (height_ a * 2)) a;
          let '(grown, a) := r in
          if (grown : bool) then reserve_loop fuel' w h a else Ret (MkRegion false 0 0, a)
        else
          Ret (MkRegion true (cursor_x_ a) (cursor_y_ a),
               with_cursor (u32 (cursor_x_ a + u32 (w + pad))) (cursor_y_ a) (Z.max (row_h_ a) h) a)
  end.

Definition reserve (w h : Z) (a : atlas) : outcome (region * atlas) :=
  if (w =? 0) || (h =? 0) then Ret (MkRegion true 0 0, a)
  else
    let a := with_cursor (Z.max (cursor_x_ a) (padding_ a)) (Z.max (cursor_y_ a) (padding_ a)) (row_h_ a) a in
    reserve_loop 64 w h a.

(** [data] is [None] for a null pointer. *)
Definition pack (w h : Z) (data : option bytes) (a : atlas) : outcome (region * atlas) :=
  r ← reserve w h a;
  let '(reg, a) := r in
  match data with
  | None => Ret (reg, a)
  | Some src =>
      if negb (ok reg) || (w =? 0) || (h =? 0) then Ret (reg, a)
      else
        a ← copy_into_ (region_x reg) (region_y reg) w h src a;
        Ret (reg, a)
  end.

(** An item of [rebuild_from_live]: the address of its glyph, if not null. *)
Record repack_item : Type := MkItem { glyph : option positive; item_pixels : bytes; item_width : Z; item_height : Z }.

(** The glyphs' [atlas_x] and [atlas_y]. *)
Notation glyphs := (gmap positive (Z * Z)).

Fixpoint repack (live : list repack_item) (gs : glyphs) (a : atlas) : outcome (bool * glyphs * atlas) :=
  match live with
  | [] => Ret (true, gs, a)
  | item :: live' =>
      match glyph item with
      | None => Ret (false, gs, a)
      | Some g =>
          if (item_width item =? 0) || (item_height item =? 0) then repack live' (<[g := (0, 0)]> gs) a
          else if negb (zlen (item_pixels item) =? item_width item * item_height item * bytes_per_pixel a)
          then Ret (false, gs, a)
          else
            r ← pack (item_width item) (item_height item) (Some (item_pixels item)) a;
            let '(reg, a) := r in
            if negb (ok reg) then Ret (false, gs, a)
            else repack live' (<[g := (region_x reg, region_y reg)]> gs) a
      end
  end.

Definition rebuild_from_live (live : list repack_item) (gs : glyphs) (a : atlas) : outcome (bool * glyphs * atlas) :=
  repack live gs (bump true (reset_empty_ a)).

(** * Geometry *)

Record rect : Type := MkRect { rx : Z; ry : Z; rw : Z; rh : Z }.

(** At least one row or column of pixels between them. *)
Definition apart (r s : rect) : Prop :=
  rx r + rw r + 1 <= rx s \/ rx s + rw s + 1 <= rx r \/ ry r + rh r + 1 <= ry s \/ ry s + rh s + 1 <= ry r.

Definition inside (a : atlas) (r : rect) : Prop :=
  1 <= rx r /\ 1 <= ry r /\ 0 < rw r /\ 0 < rh r /\ rx r + rw r + 1 <= width_ a /\ ry r + rh r + 1 <= height_ a.

(** A rectangle of an earlier shelf, or of the current one. *)
Definition shelved (a : atlas) (r : rect) : Prop :=
  inside a r /\ (ry r + rh r + 1 <= cursor_y_ a \/
                 (ry r = cursor_y_ a /\ rx r + rw r + 1 <= cursor_x_ a /\ rh r <= row_h_ a)).

Definition max_page : Z := 2 ^ 30.

(** The page and the cursor. *)
Definition page_ok (a : atlas) : Prop :=
  1 <= width_ a < max_page /\ 1 <= height_ a < max_page /\ 0 <= max_size_ a < max_page /\
  padding_ a = 1 /\ 1 <= cursor_x_ a <= width_ a + 1 /\ 1 <= cursor_y_ a <= height_ a + 1 /\ 0 <= row_h_ a /\
  (row_h_ a = 0 -> cursor_x_ a = 1) /\ (0 < row_h_ a -> cursor_y_ a + row_h_ a + 1 <= height_ a) /\
  zlen (pixels_ a) = width_ a * height_ a * bytes_per_pixel a.

(** The bytes of row [i] of a rectangle. *)
Definition row_bytes (a : atlas) (r : rect) (i : Z) : bytes :=
  zsub (((ry r + i) * width_ a + rx r) * bytes_per_pixel a) (rw r * bytes_per_pixel a) (pixels_ a).

(** The rectangle holds the glyph [src], row after row. *)
Definition shows (a : atlas) (r : rect) (src : bytes) : Prop :=
  forall i, 0 <= i < rh r -> row_bytes a r i = zsub (i * rw r * bytes_per_pixel a) (rw r * bytes_per_pixel a) src.

(** * Pixel copies *)

Lemma blit_Ret off src dst : 0 <= off -> off + zlen src <= zlen dst ->
  blit off src dst = Ret (ztake off dst ++ src ++ zdrop (off + zlen src) dst).
Proof. intros. unfold blit. destruct (Z.leb_spec 0 off), (Z.leb_spec (off + zlen src) (zlen dst)); done || lia. Qed.

Section Blit.
Context (off : Z) (src dst : bytes) (Hoff : 0 <= off) (Hend : off + zlen src <= zlen dst).
Let out : bytes := ztake off dst ++ src ++ zdrop (off + zlen src) dst.

Lemma length_blit : zlen out = zlen dst.
Proof. unfold out, ztake, zdrop. rewrite !length_app, length_take, length_drop. lia. Qed.

Lemma zsub_blit_same : zsub off (zlen src) out = src.
Proof.
  unfold out. rewrite zsub_app_r by (rewrite ?zlen_ztake; lia). rewrite zlen_ztake, Z.min_l, Z.sub_diag by lia.
  by apply zsub_0_app.
Qed.

Lemma zsub_blit_other o n : 0 <= o -> 0 <= n -> o + n <= zlen dst -> (o + n <= off \/ off + zlen src <= o) ->
  zsub o n out = zsub o n dst.
Proof.
  intros Ho Hn Hl Hd. unfold out. destruct Hd as [Hd|Hd].
  - rewrite zsub_app_l by (rewrite ?zlen_ztake; lia). rewrite ztake_zsub, zsub_zsub by lia. done.
  - rewrite app_assoc, zsub_app_r by (rewrite ?length_app; pose proof (zlen_ztake off dst Hoff); lia).
    rewrite length_app. pose proof (zlen_ztake off dst Hoff) as Hz.
    replace (o - Z.of_nat (length (ztake off dst) + length src)) with (o - (off + zlen src)) by lia.
    unfold zsub. rewrite zdrop_zdrop by lia. do 2 f_equal. lia.
Qed.
End Blit.

(** A part of a block just copied. *)
Lemma zsub_within (l src : bytes) o n i m : zsub o n l = src -> 0 <= o -> 0 <= i -> i + m <= n -> zsub (o + i) m l = zsub i m src.
Proof. intros <- **. by rewrite zsub_zsub by lia. Qed.

Lemma copy_rows_spec k w w' src dst : 0 <= w <= w' -> Z.of_nat k * w <= zlen src -> Z.of_nat k * w' <= zlen dst ->
  exists out, copy_rows k w w' src dst = Ret out /\ zlen out = zlen dst /\
    forall y i n, 0 <= y < Z.of_nat k -> 0 <= i -> 0 <= n -> i + n <= w ->
      zsub (y * w' + i) n out = zsub (y * w + i) n src.
Proof.
  intros Hw. induction k as [|k IH]; intros Hs Hd; cbn [copy_rows].
  - exists dst. split_and!; [done|done|lia].
  - destruct IH as (out & -> & Hl & IH); [nia|nia|]. cbn [mbind outcome_bind].
    rewrite sub_Ret by nia. cbn [mbind outcome_bind]. set (row := zsub (Z.of_nat k * w) w src).
    assert (Hrow : zlen row = w) by (apply zlen_zsub; nia).
    assert (He : Z.of_nat k * w' + zlen row <= zlen out) by nia.
    rewrite blit_Ret by nia. eexists. split; [done|]. split; [rewrite length_blit by nia; done|].
    intros y i n Hy Hi Hn Hin. destruct (decide (y = Z.of_nat k)) as [->|Hne].
    + pose proof (zsub_blit_same (Z.of_nat k * w') row out ltac:(nia) ltac:(nia)) as HB. rewrite Hrow in HB.
      rewrite Hrow, (zsub_within _ row _ w _ _ HB) by nia.
      unfold row. rewrite zsub_zsub by nia. done.
    + rewrite zsub_blit_other by nia. apply IH; lia.
Qed.

Lemma copy_glyph_spec k x y w src a px : let bpp := bytes_per_pixel a in
  let at_row i := ((y + i) * width_ a + x) * bpp in
  0 < w -> 0 <= x -> 0 <= y -> x + w <= width_ a -> y + Z.of_nat k <= height_ a -> height_ a < 2 ^ 32 ->
  zlen px = width_ a * height_ a * bpp -> Z.of_nat k * w * bpp <= zlen src ->
  exists out, copy_glyph k x y w src a px = Ret out /\ zlen out = zlen px /\
    (forall i, 0 <= i < Z.of_nat k -> zsub (at_row i) (w * bpp) out = zsub (i * w * bpp) (w * bpp) src) /\
    forall o n, 0 <= o -> 0 <= n -> o + n <= zlen px ->
      (forall i, 0 <= i < Z.of_nat k -> o + n <= at_row i \/ at_row i + w * bpp <= o) ->
      zsub o n out = zsub o n px.
Proof.
  cbn zeta. intros Hw Hx Hy Hxw Hyk Hh Hpx. assert (Hb : 1 <= bytes_per_pixel a) by (unfold bytes_per_pixel; destruct (format_ a); lia).
  set (bpp := bytes_per_pixel a) in *. induction k as [|k IH]; intros Hs; cbn [copy_glyph].
  - exists px. split_and!; [done|done|lia|done].
  - destruct IH as (out & -> & Hl & IH1 & IH2); [lia|nia|]. cbn [mbind outcome_bind]. fold bpp.
    rewrite sub_Ret by nia. cbn [mbind outcome_bind]. set (row := zsub (Z.of_nat k * w * bpp) (w * bpp) src).
    assert (Hrow : zlen row = w * bpp) by (apply zlen_zsub; nia).
    rewrite (u32_small (y + Z.of_nat k)) by lia. set (o := ((y + Z.of_nat k) * width_ a + x) * bpp).
    assert (Ho : 0 <= o) by (unfold o; nia).
    assert (Hpage : o + w * bpp <= width_ a * height_ a * bpp).
    { unfold o. assert ((y + Z.of_nat k) * width_ a + x + w <= width_ a * height_ a) by nia. nia. }
    rewrite blit_Ret by lia. eexists. split; [done|]. split; [rewrite length_blit by lia; done|]. split.
    + intros i Hi. destruct (decide (i = Z.of_nat k)) as [->|Hne].
      * fold o. rewrite <- Hrow at 1. rewrite zsub_blit_same by lia. done.
      * assert (Hdis : ((y + i) * width_ a + x) * bpp + w * bpp <= o).
        { unfold o. assert ((y + i) * width_ a + x + w <= (y + Z.of_nat k) * width_ a + x) by nia. nia. }
        rewrite zsub_blit_other by nia. apply IH1. lia.
    + intros o' n Ho' Hn Hl' Hd. rewrite zsub_blit_other; [|lia|lia|lia|lia|lia|].
      * apply IH2; try done. intros i Hi. apply Hd. lia.
      * rewrite Hrow. unfold o. apply Hd. lia.
Qed.

(** * Growth *)

Lemma double_until_spec f : forall n mn mx, 1 <= n < 2 ^ 31 -> mx <= n * 2 ^ Z.of_nat f -> mx <= 2 ^ 31 ->
  exists r, double_until f n mn mx = Ret r /\ n <= r /\ (r = n \/ (2 * n <= r /\ r < 2 * mn /\ r < 2 * mx)) /\
    (mn <= r \/ mx <= r).
Proof.
  induction f as [|f IH]; intros n mn mx Hn Hf Hx; cbn [double_until].
  - destruct (Z.ltb_spec n mn), (Z.ltb_spec n mx); cbn [andb]; try (simpl in Hf; lia);
      exists n; (split; [done|]); lia.
  - destruct (Z.ltb_spec n mn), (Z.ltb_spec n mx); cbn [andb]; try (exists n; (split; [done|]); lia).
    assert (Hfs : 2 ^ Z.of_nat (S f) = 2 * 2 ^ Z.of_nat f) by (rewrite Nat2Z.inj_succ, Z.pow_succ_r by lia; done).
    rewrite u32_small by lia.
    destruct (decide (n * 2 < 2 ^ 31)) as [Hlt|Hge].
    + destruct (IH (n * 2) mn mx) as (r & -> & H1 & H2 & H3); [lia|nia|done|]. exists r. split; [done|]. lia.
    + destruct f as [|f]; [simpl in Hf; simpl; destruct (Z.ltb_spec (n * 2) mx); [lia|]; rewrite andb_false_r; exists (n * 2); (split; [done|]); lia|].
      cbn [double_until]. destruct (Z.ltb_spec (n * 2) mx); [lia|]. rewrite andb_false_r. exists (n * 2). split; [done|]. lia.
Qed.

Lemma bpp_pos a : 1 <= bytes_per_pixel a.
Proof. unfold bytes_per_pixel. destruct (format_ a); lia. Qed.

(** The rows of the page [a] at the same places of the page [a']. *)
Definition keeps_rows (a a' : atlas) : Prop :=
  width_ a <= width_ a' /\ height_ a <= height_ a' /\ format_ a' = format_ a /\
  forall y i n, 0 <= y < height_ a -> 0 <= i -> 0 <= n -> i + n <= width_ a * bytes_per_pixel a ->
    zsub (y * (width_ a' * bytes_per_pixel a) + i) n (pixels_ a') = zsub (y * (width_ a * bytes_per_pixel a) + i) n (pixels_ a).

Lemma keeps_rows_refl a : keeps_rows a a.
Proof. unfold keeps_rows. split_and!; try done; lia. Qed.

Lemma keeps_rows_trans a b c : keeps_rows a b -> keeps_rows b c -> keeps_rows a c.
Proof.
  unfold keeps_rows. intros (W1 & H1 & F1 & R1) (W2 & H2 & F2 & R2). assert (bytes_per_pixel b = bytes_per_pixel a) as Eb by (unfold bytes_per_pixel; by rewrite F1).
  rewrite Eb in R2. pose proof (bpp_pos a). split_and!; [lia|lia|congruence|]. intros y i n Hy Hi Hn Hin.
  rewrite R2 by nia. by apply R1.
Qed.

Lemma keeps_rows_inside a a' r : keeps_rows a a' -> inside a r -> inside a' r.
Proof. unfold keeps_rows, inside. lia. Qed.

Lemma keeps_rows_shows a a' r src : keeps_rows a a' -> inside a r -> shows a r src -> shows a' r src.
Proof.
  unfold keeps_rows, inside, shows. intros (W & H & F & R) Hin Hs i Hi. specialize (Hs i Hi).
  assert (Eb : bytes_per_pixel a' = bytes_per_pixel a) by (unfold bytes_per_pixel; by rewrite F).
  pose proof (bpp_pos a). unfold row_bytes in *. rewrite Eb. rewrite <- Hs.
  replace (((ry r + i) * width_ a' + rx r) * bytes_per_pixel a)
    with ((ry r + i) * (width_ a' * bytes_per_pixel a) + rx r * bytes_per_pixel a) by ring.
  rewrite R by nia. f_equal. ring.
Qed.

(** What stays the same besides the page. *)
Definition same_cursor (a a' : atlas) : Prop :=
  cursor_x_ a' = cursor_x_ a /\ cursor_y_ a' = cursor_y_ a /\ row_h_ a' = row_h_ a /\ padding_ a' = padding_ a /\
  max_size_ a' = max_size_ a.

Definition sized (a : atlas) : Prop :=
  1 <= width_ a < max_page /\ 1 <= height_ a < max_page /\ 0 <= max_size_ a < max_page /\
  zlen (pixels_ a) = width_ a * height_ a * bytes_per_pixel a.

Lemma length_zeros n : 0 <= n -> zlen (zeros n) = n.
Proof. intros. unfold zeros. rewrite length_replicate. lia. Qed.

Lemma doubled_area w h w' h' : 1 <= w <= w' -> 1 <= h <= h' -> 2 * w <= w' \/ 2 * h <= h' -> 2 * (w * h) <= w' * h'.
Proof.
  intros Hw Hh [H|H].
  - transitivity (w' * h); [nia|apply Z.mul_le_mono_nonneg_l; lia].
  - transitivity (w * h'); [nia|apply Z.mul_le_mono_nonneg_r; lia].
Qed.

Lemma grow_spec a mw mh : sized a ->
  exists b a', grow_ mw mh a = Ret (b, a') /\
    match b with
    | true => sized a' /\ same_cursor a a' /\ keeps_rows a a' /\ 
        width_ a' <= max_size_ a /\ height_ a' <= max_size_ a /\ 2 * (width_ a * height_ a) <= width_ a' * height_ a'
    | false => a' = a /\ (max_size_ a < 2 * mw \/ max_size_ a < 2 * mh \/ max_size_ a < width_ a \/ max_size_ a < height_ a \/
        ((mw <= width_ a \/ max_size_ a <= width_ a) /\ (mh <= height_ a \/ max_size_ a <= height_ a)))
    end.
Proof.
  intros (Hw & Hh & Hm & Hp). unfold max_page in *. unfold grow_. rewrite !Z.max_l by lia.
  destruct (double_until_spec 33 (width_ a) mw (max_size_ a)) as (nw & -> & W1 & W2 & W3); [lia| |lia|].
  { change (2 ^ Z.of_nat 33) with (2 ^ 33). lia. }
  destruct (double_until_spec 33 (height_ a) mh (max_size_ a)) as (nh & -> & H1 & H2 & H3); [lia| |lia|].
  { change (2 ^ Z.of_nat 33) with (2 ^ 33). lia. }
  cbn [mbind outcome_bind].
  destruct (Z.eqb_spec nw (width_ a)), (Z.eqb_spec nh (height_ a)); cbn [andb];
    [exists false, a; split; [done|]; split; [done|]; lia| | |];
    (destruct (Z.ltb_spec (max_size_ a) nw), (Z.ltb_spec (max_size_ a) nh); cbn [orb];
     [exists false, a; split; [done|]; split; [done|]; lia..|]).
  all: pose proof (bpp_pos a) as Hb; set (bpp := bytes_per_pixel a) in *.
  all: assert (Hnn : 0 <= nw * nh * bpp) by (apply Z.mul_nonneg_nonneg; [apply Z.mul_nonneg_nonneg; lia|lia]).
  all: pose proof (length_zeros (nw * nh * bpp) Hnn) as Hz.
  all: assert (Hrow : width_ a * bpp <= nw * bpp) by (apply Z.mul_le_mono_nonneg_r; lia).
  all: assert (Hpage : height_ a * (nw * bpp) <= nw * nh * bpp)
         by (replace (nw * nh * bpp) with (nh * (nw * bpp)) by ring; apply Z.mul_le_mono_nonneg_r; [apply Z.mul_nonneg_nonneg|]; lia).
  all: destruct (copy_rows_spec (Z.to_nat (height_ a)) (width_ a * bpp) (nw * bpp) (pixels_ a) (zeros (nw * nh * bpp)))
    as (out & -> & Hl & Hrows); [split; [apply Z.mul_nonneg_nonneg|]; lia|rewrite Z2Nat.id by lia; lia|rewrite Z2Nat.id by lia; lia|].
  all: cbn [mbind outcome_bind]; do 2 eexists; (split; [done|]).
  all: unfold sized, same_cursor, keeps_rows, bump, with_page, max_page; cbn [width_ height_ max_size_ pixels_ cursor_x_ cursor_y_ row_h_ padding_ format_];
       unfold bytes_per_pixel; cbn [format_]; fold (bytes_per_pixel a); fold bpp.
  all: split_and!; try done; try (apply doubled_area; lia); try lia.
  all: intros y i m Hy Hi Hn Hin; apply Hrows; lia.
Qed.

(** * Reserving a rectangle *)

Lemma page_grown a a' rs : page_ok a -> sized a' -> same_cursor a a' -> keeps_rows a a' -> Forall (shelved a) rs ->
  page_ok a' /\ Forall (shelved a') rs.
Proof.
  unfold page_ok, sized, same_cursor, keeps_rows. intros Hp (W & H & M & P) (C1 & C2 & C3 & C4 & Em) (Hw & Hh & _) Hs.
  rewrite C1, C2, C3, C4. split; [split_and!; lia|]. eapply Forall_impl; [exact Hs|]. intros r [Hi Hr]. unfold shelved, inside in *. lia.
Qed.

(** The cursor moved to a new shelf when the rectangle does not fit on this one. *)
Definition wrapped (w : Z) (a : atlas) : atlas :=
  if width_ a <? u32 (u32 (cursor_x_ a + w) + padding_ a)
  then with_cursor (padding_ a) (u32 (cursor_y_ a + u32 (row_h_ a + padding_ a))) 0 a else a.

Lemma wrapped_spec w a rs : page_ok a -> 0 < w -> w + 2 <= width_ a -> Forall (shelved a) rs ->
  page_ok (wrapped w a) /\ Forall (shelved (wrapped w a)) rs /\ cursor_x_ (wrapped w a) + w + 1 <= width_ a /\
  width_ (wrapped w a) = width_ a /\ height_ (wrapped w a) = height_ a /\ format_ (wrapped w a) = format_ a /\
  pixels_ (wrapped w a) = pixels_ a /\ max_size_ (wrapped w a) = max_size_ a /\ padding_ (wrapped w a) = 1.
Proof.
  unfold page_ok, max_page. intros Hp Hw Hfit Hs. unfold wrapped.
  assert (Ep : padding_ a = 1) by lia. rewrite Ep, (u32_small (cursor_x_ a + w)), (u32_small (cursor_x_ a + w + 1)) by lia.
  destruct (Z.ltb_spec (width_ a) (cursor_x_ a + w + 1)).
  - destruct (decide (row_h_ a = 0)) as [H0|H0]; [lia|]. rewrite (u32_small (row_h_ a + 1)), (u32_small (cursor_y_ a + (row_h_ a + 1))) by lia.
    unfold with_cursor, bytes_per_pixel. cbn. fold (bytes_per_pixel a).
    split_and!; try done; try lia. eapply Forall_impl; [exact Hs|]. unfold shelved, inside. cbn. lia.
  - split_and!; try done; lia.
Qed.

Definition exhausted (w h : Z) (a : atlas) : Prop :=
  max_size_ a < 4 * Z.max (width_ a) (height_ a) \/ max_size_ a < 2 * (Z.max w h + 2).

(** What [reserve] promises for a rectangle. *)
Definition reserved (w h : Z) (rs : list rect) (a : atlas) (reg : region) (a' : atlas) : Prop :=
  page_ok a' /\ keeps_rows a a' /\ Forall (shelved a') rs /\ max_size_ a' = max_size_ a /\
  if ok reg
  then let r := MkRect (region_x reg) (region_y reg) w h in shelved a' r /\ Forall (apart r) rs
  else exhausted w h a'.

Lemma apart_new a w h rs : Forall (shelved a) rs -> Forall (apart (MkRect (cursor_x_ a) (cursor_y_ a) w h)) rs.
Proof. intros H. eapply Forall_impl; [exact H|]. unfold shelved, apart. cbn. lia. Qed.

(** Placing the rectangle at the cursor. *)
Lemma place_spec w h a rs : page_ok a -> 0 < w -> 0 < h -> cursor_x_ a + w + 1 <= width_ a -> cursor_y_ a + h + 1 <= height_ a ->
  Forall (shelved a) rs ->
  reserved w h rs a (MkRegion true (cursor_x_ a) (cursor_y_ a))
    (with_cursor (u32 (cursor_x_ a + u32 (w + padding_ a))) (cursor_y_ a) (Z.max (row_h_ a) h) a).
Proof.
  intros Hp Hw Hh Hx Hy Hs. pose proof (apart_new a w h rs Hs) as Ha. unfold page_ok, max_page in Hp.
  assert (Ep : padding_ a = 1) by lia. rewrite Ep, (u32_small (w + 1)), (u32_small (cursor_x_ a + (w + 1))) by lia.
  unfold reserved. cbn [ok region_x region_y]. split_and!; [|exact (keeps_rows_refl a)| |done| |done].
  - unfold page_ok, max_page, with_cursor, bytes_per_pixel. cbn. fold (bytes_per_pixel a). split_and!; lia.
  - eapply Forall_impl; [exact Hs|]. unfold shelved, inside, with_cursor. cbn. lia.
  - unfold shelved, inside, with_cursor. cbn. lia.
Qed.

Lemma reserved_grown w h rs a a1 reg a' : keeps_rows a a1 -> max_size_ a1 = max_size_ a ->
  reserved w h rs a1 reg a' -> reserved w h rs a reg a'.
Proof.
  unfold reserved. intros H1 E (H2 & H3 & H4 & H5 & H6). split_and!; [done|by eapply keeps_rows_trans|done|congruence|done].
Qed.

Lemma page_sized a : page_ok a -> sized a.
Proof. unfold page_ok, sized. lia. Qed.

Lemma reserve_loop_spec w h rs : 0 < w < max_page -> 0 < h < max_page -> forall f a, page_ok a -> Forall (shelved a) rs ->
  max_size_ a * max_size_ a < width_ a * height_ a * 2 ^ Z.of_nat f ->
  exists reg a', reserve_loop (S f) w h a = Ret (reg, a') /\ reserved w h rs a reg a'.
Proof.
  unfold max_page. intros Hw Hh. induction f as [f IH] using lt_wf_ind. intros a Hp Hs Hf.
  (* a page grown to [a1]: the next round *)
  assert (Hnext : forall a0 a1, page_ok a0 -> Forall (shelved a0) rs -> width_ a0 = width_ a -> height_ a0 = height_ a -> 
    max_size_ a0 = max_size_ a -> keeps_rows a a0 ->
    sized a1 -> same_cursor a0 a1 -> keeps_rows a0 a1 -> width_ a1 <= max_size_ a0 -> height_ a1 <= max_size_ a0 ->
    2 * (width_ a0 * height_ a0) <= width_ a1 * height_ a1 ->
    exists reg a', reserve_loop f w h a1 = Ret (reg, a') /\ reserved w h rs a reg a').
  { intros a0 a1 Hp0 Hs0 Ew Eh Em Hk0 Hsz Hc Hk1 H1 H2 H3. destruct (page_grown a0 a1 rs Hp0 Hsz Hc Hk1 Hs0) as [Hp1 Hs1].
    assert (Harea : width_ a1 * height_ a1 <= max_size_ a * max_size_ a).
    { unfold sized in Hsz. apply Z.mul_le_mono_nonneg; lia. }
    destruct Hc as (_ & _ & _ & _ & Hm). rewrite Ew, Eh in H3.
    destruct f as [|f]; [change (2 ^ Z.of_nat 0) with 1 in Hf; unfold page_ok in Hp; nia|].
    destruct (IH f ltac:(lia) a1 Hp1 Hs1) as (reg & a' & E & Hr).
    - rewrite Hm, Em. rewrite Nat2Z.inj_succ, Z.pow_succ_r in Hf by lia.
      assert (0 < 2 ^ Z.of_nat f) by (apply Z.pow_pos_nonneg; lia). nia.
    - exists reg, a'. split; [done|]. apply (reserved_grown w h rs a a1); [by eapply keeps_rows_trans|congruence|done]. }
  pose proof Hp as Hp'. unfold page_ok, max_page in Hp'. assert (Ep : padding_ a = 1) by lia.
  cbn [reserve_loop]. rewrite Ep. change (u32 (1 * 2)) with 2. rewrite (u32_small (w + 2)), (u32_small (h + 2)) by lia.
  rewrite (u32_small (width_ a * 2)), (u32_small (height_ a * 2)) by lia.
  destruct ((width_ a <? w + 2) || (height_ a <? h + 2)) eqn:Efit.
  - destruct (grow_spec a (Z.max (width_ a * 2) (w + 2)) (Z.max (height_ a * 2) (h + 2)) (page_sized a Hp)) as (b & a1 & -> & Hb).
    cbn [mbind outcome_bind]. destruct b.
    + destruct Hb as (H1 & H2 & H3 & H4 & H5 & H6). by apply (Hnext a a1).
    + destruct Hb as [-> Hb]. do 2 eexists. split; [done|]. unfold reserved. split_and!; [done|apply keeps_rows_refl|done|done|].
      cbn [ok]. unfold exhausted. lia.
  - apply orb_false_iff in Efit as [Ew Eh]. apply Z.ltb_ge in Ew, Eh.
    destruct (wrapped_spec w a rs Hp ltac:(lia) Ew Hs) as (Hp0 & Hs0 & Hx & E1 & E2 & E3 & E4 & E5 & E6).
    assert (Hk : keeps_rows a (wrapped w a)) by (unfold keeps_rows; rewrite E1, E2, E3, E4; split_and!; (done || lia)).
    unfold wrapped in *. rewrite Ep in *. set (a0 := if _ <? _ then _ else a) in *.
    assert (Hcy : 1 <= cursor_y_ a0 <= height_ a + 1) by (unfold page_ok in Hp0; lia).
    rewrite (u32_small (cursor_y_ a0 + h)), (u32_small (cursor_y_ a0 + h + 1)) by lia. rewrite E2.
    destruct (Z.ltb_spec (height_ a) (cursor_y_ a0 + h + 1)).
    + rewrite E1. rewrite (u32_small (height_ a * 2)) by lia.
      destruct (grow_spec a0 (width_ a) (height_ a * 2) (page_sized a0 Hp0)) as (b & a1 & -> & Hb).
      cbn [mbind outcome_bind]. destruct b.
      * destruct Hb as (H1 & H2 & H3 & H4 & H5 & H6). by apply (Hnext a0 a1).
      * destruct Hb as [-> Hb]. do 2 eexists. split; [done|]. unfold reserved. split_and!; try done.
        cbn [ok]. unfold exhausted. rewrite E1, E2, E5 in *. lia.
    + do 2 eexists. split; [done|]. rewrite <- E6. apply (reserved_grown w h rs a a0); [done|done|].
      apply place_spec; (done || lia).
Qed.

Lemma reserve_spec w h rs a : 0 < w < max_page -> 0 < h < max_page -> page_ok a -> Forall (shelved a) rs ->
  exists reg a', reserve w h a = Ret (reg, a') /\ reserved w h rs a reg a'.
Proof.
  intros Hw Hh Hp Hs. unfold reserve. destruct (Z.eqb_spec w 0), (Z.eqb_spec h 0); try lia. cbn [orb].
  pose proof Hp as Hp'. unfold page_ok, max_page in Hp'.
  assert (Ea : with_cursor (Z.max (cursor_x_ a) (padding_ a)) (Z.max (cursor_y_ a) (padding_ a)) (row_h_ a) a = a).
  { rewrite !Z.max_l by lia. by destruct a. }
  rewrite Ea. apply (reserve_loop_spec w h rs Hw Hh 63 a Hp Hs).
  change (2 ^ Z.of_nat 63) with (2 ^ 63).
  assert (max_size_ a * max_size_ a <= 2 ^ 30 * 2 ^ 30) by (apply Z.mul_le_mono_nonneg; lia).
  assert (1 * 1 <= width_ a * height_ a) by (apply Z.mul_le_mono_nonneg; lia). lia.
Qed.

(** * Glyphs on the page *)

(** The glyphs packed so far: where they are, what they show, and that no two touch. *)
Definition atlas_ok (a : atlas) (placed : list (rect * bytes)) : Prop :=
  page_ok a /\ Forall (fun p => shelved a p.1 /\ shows a p.1 p.2) placed /\
  ForallOrdPairs (fun p q => apart p.1 q.1) placed.

Lemma keeps_placed a a' (placed : list (rect * bytes)) : keeps_rows a a' -> Forall (shelved a') placed.*1 ->
  Forall (fun p => shelved a p.1 /\ shows a p.1 p.2) placed -> Forall (fun p => shelved a' p.1 /\ shows a' p.1 p.2) placed.
Proof.
  intros Hk Hs Hp. rewrite Forall_fmap in Hs. rewrite Forall_forall in Hs, Hp |- *. intros p Hin.
  specialize (Hs p Hin). destruct (Hp p Hin) as [[Hi _] Hsh]. split; [done|]. by eapply keeps_rows_shows.
Qed.

Lemma placed_rects a (placed : list (rect * bytes)) :
  Forall (fun p => shelved a p.1 /\ shows a p.1 p.2) placed -> Forall (shelved a) placed.*1.
Proof. intros H. rewrite Forall_fmap. eapply Forall_impl; [exact H|]. by intros p []. Qed.

(** The rows of two rectangles that do not touch. *)
Lemma apart_rows W bpp r s i j : 1 <= bpp -> 0 <= rx r -> 0 <= rx s -> 0 < rw r -> 0 < rw s ->
  rx r + rw r <= W -> rx s + rw s <= W -> apart r s -> 0 <= i < rh r -> 0 <= j < rh s ->
  ((ry s + j) * W + rx s) * bpp + rw s * bpp <= ((ry r + i) * W + rx r) * bpp \/
  ((ry r + i) * W + rx r) * bpp + rw r * bpp <= ((ry s + j) * W + rx s) * bpp.
Proof.
  intros Hb Hr Hs Hrw Hsw HrW HsW Ha Hi Hj. set (R := (ry r + i) * W + rx r). set (S := (ry s + j) * W + rx s).
  assert (H : S + rw s <= R \/ R + rw r <= S).
  { unfold R, S. unfold apart in Ha. destruct (Z.lt_trichotomy (ry r + i) (ry s + j)) as [H|[H|H]].
    - right. assert ((ry r + i) * W + W <= (ry s + j) * W) by nia. lia.
    - rewrite H. lia.
    - left. assert ((ry s + j) * W + W <= (ry r + i) * W) by nia. lia. }
  destruct H; [left|right]; nia.
Qed.

(** Copying a glyph to a fresh rectangle. *)
Lemma copy_into_spec a x y w h src (placed : list (rect * bytes)) : 0 < w -> 0 < h -> page_ok a ->
  shelved a (MkRect x y w h) -> zlen src = w * h * bytes_per_pixel a ->
  Forall (fun p => shelved a p.1 /\ shows a p.1 p.2) placed -> Forall (apart (MkRect x y w h)) placed.*1 ->
  exists a', copy_into_ x y w h src a = Ret a' /\ page_ok a' /\ max_size_ a' = max_size_ a /\
    width_ a' = width_ a /\ height_ a' = height_ a /\ format_ a' = format_ a /\
    Forall (fun p => shelved a' p.1 /\ shows a' p.1 p.2) ((MkRect x y w h, src) :: placed).
Proof.
  intros Hw Hh Hp Hsh Hsrc Hs Ha. pose proof Hp as (W & H & M & P & _ & _ & _ & _ & _ & Hpx). unfold max_page in *.
  pose proof Hsh as [Hin _]. unfold inside in Hin. cbn in Hin. pose proof (bpp_pos a) as Hb.
  destruct (copy_glyph_spec (Z.to_nat h) x y w src a (pixels_ a)) as (out & E & Hl & Hrows & Hrest); try lia.
  rewrite Z2Nat.id in Hrows, Hrest by lia.
  unfold copy_into_. rewrite E. cbn [mbind outcome_bind]. eexists. split; [done|].
  set (a' := bump false (with_page (width_ a) (height_ a) out a)).
  assert (Hsh' : forall r, shelved a r -> shelved a' r) by done.
  split; [|split_and!; try done; constructor].
  - unfold page_ok, a', bump, with_page, bytes_per_pixel. cbn. fold (bytes_per_pixel a). unfold page_ok in Hp. rewrite Hl. exact Hp.
  - split; [by apply Hsh'|]. intros i Hi. cbn in Hi. apply (Hrows i Hi).
  - rewrite Forall_fmap in Ha. rewrite Forall_forall in Hs, Ha |- *. intros [s ssrc] Hin'.
    destruct (Hs _ Hin') as [Hshs Hshow]. specialize (Ha _ Hin'). cbn in Ha, Hshs, Hshow |- *. split; [by apply Hsh'|].
    intros j Hj. specialize (Hshow j Hj). pose proof Hshs as [Hins _]. unfold inside in Hins.
    unfold row_bytes in *. change (pixels_ a') with out. change (width_ a') with (width_ a).
    change (bytes_per_pixel a') with (bytes_per_pixel a). rewrite <- Hshow.
    assert (Hpage : (ry s + j) * width_ a + rx s + rw s <= width_ a * height_ a) by nia.
    apply Hrest; [nia|nia|rewrite Hpx; nia|].
    intros i Hi. pose proof (apart_rows (width_ a) (bytes_per_pixel a) (MkRect x y w h) s i j) as Hd. cbn in Hd. apply Hd; try lia. done.
Qed.

Lemma keeps_bpp a a' : keeps_rows a a' -> bytes_per_pixel a' = bytes_per_pixel a.
Proof. intros (_ & _ & E & _). unfold bytes_per_pixel. by rewrite E. Qed.

(** One glyph: placed apart from the others with all of them still shown, or refused
    on an exhausted page that still shows them. *)
Lemma pack_step a placed w h src : atlas_ok a placed -> 0 < w < max_page -> 0 < h < max_page ->
  zlen src = w * h * bytes_per_pixel a ->
  exists reg a', pack w h (Some src) a = Ret (reg, a') /\ max_size_ a' = max_size_ a /\
    bytes_per_pixel a' = bytes_per_pixel a /\
    if ok reg then atlas_ok a' ((MkRect (region_x reg) (region_y reg) w h, src) :: placed)
    else atlas_ok a' placed /\ exhausted w h a'.
Proof.
  intros (Hp & Hs & Ho) Hw Hh Hsrc. unfold pack.
  destruct (reserve_spec w h placed.*1 a Hw Hh Hp (placed_rects a placed Hs)) as (reg & a1 & -> & Hp1 & Hk & Hs1 & Hm & Hok).
  cbn [mbind outcome_bind]. pose proof (keeps_bpp a a1 Hk) as Eb.
  pose proof (keeps_placed a a1 placed Hk Hs1 Hs) as Hs2.
  destruct (Z.eqb_spec w 0), (Z.eqb_spec h 0); try lia. destruct (ok reg) eqn:Er; cbn [negb orb].
  - destruct Hok as [Hsh Ha]. destruct (copy_into_spec a1 (region_x reg) (region_y reg) w h src placed) as
      (a2 & -> & Hp2 & Hm2 & _ & _ & Hf2 & Hs3); try done; try lia.
    cbn [mbind outcome_bind]. exists reg, a2. rewrite Er. split; [done|]. split; [congruence|]. split; [unfold bytes_per_pixel in *; by rewrite Hf2|].
    split; [done|]. split; [done|]. constructor; [|done]. rewrite Forall_fmap in Ha. exact Ha.
  - exists reg, a1. rewrite Er. done.
Qed.

Lemma new_atlas_ok f initial_size max_size : 1 <= initial_size < max_page -> 0 <= max_size < max_page ->
  atlas_ok (new_atlas f initial_size max_size) [].
Proof.
  unfold max_page. intros Hi Hm. split; [|split; constructor]. unfold page_ok, max_page, new_atlas, bump, with_page, bytes_per_pixel.
  cbn [width_ height_ max_size_ padding_ cursor_x_ cursor_y_ row_h_ pixels_ format_].
  split_and!; try done; try lia. apply length_zeros. apply Z.mul_nonneg_nonneg; [nia|destruct f; lia].
Qed.

Lemma reset_ok a : padding_ a = 1 -> initial_size_ a < max_page -> 0 <= max_size_ a < max_page ->
  atlas_ok (bump true (reset_empty_ a)) [] /\ bytes_per_pixel (bump true (reset_empty_ a)) = bytes_per_pixel a.
Proof.
  unfold max_page. intros Hpad Hi Hm. split; [|done]. split; [|split; constructor].
  unfold page_ok, reset_empty_, bump, with_page, with_cursor, max_page.
  cbn [width_ height_ max_size_ padding_ cursor_x_ cursor_y_ row_h_ pixels_ format_]. rewrite Hpad.
  split_and!; try done; try lia. apply length_zeros. apply Z.mul_nonneg_nonneg; [apply Z.mul_nonneg_nonneg; lia|].
  apply (Z.le_trans _ 1); [lia|apply bpp_pos].
Qed.

(** ** Rebuilding *)

Definition item_ok (item : repack_item) : Prop := 0 <= item_width item < max_page /\ 0 <= item_height item < max_page.

(** What a rebuild that succeeds leaves for an item. *)
Definition item_placed (gs : glyphs) (placed : list (rect * bytes)) (item : repack_item) : Prop :=
  exists g, glyph item = Some g /\
    if (item_width item =? 0) || (item_height item =? 0) then gs !! g = Some (0, 0)
    else exists x y, gs !! g = Some (x, y) /\ (MkRect x y (item_width item) (item_height item), item_pixels item) ∈ placed.

(** The rectangle an item got. *)
Definition item_rect (gs : glyphs) (item : repack_item) : option (rect * bytes) :=
  if (item_width item =? 0) || (item_height item =? 0) then None
  else '(x, y) ← glyph item ≫= (gs !!.); Some (MkRect x y (item_width item) (item_height item), item_pixels item).

Lemma repack_spec live : forall gs a placed, atlas_ok a placed -> Forall item_ok live -> NoDup (glyph <$> live) ->
  exists b gs' a' placed', repack live gs a = Ret (b, gs', a') /\ atlas_ok a' placed' /\ placed ⊆ placed' /\
    (forall g, Some g ∉ (glyph <$> live) -> gs' !! g = gs !! g) /\
    (b = true -> Forall (item_placed gs' placed') live /\ placed' = reverse (omap (item_rect gs') live) ++ placed).
Proof.
  induction live as [|item live IH]; intros gs a placed Ha Hi Hn; cbn [repack].
  { exists true, gs, a, placed. split_and!; try done; by constructor. }
  apply Forall_cons in Hi as [[Hw Hh] Hi]. cbn [fmap list_fmap] in Hn. apply NoDup_cons in Hn as [Hg Hn].
  assert (Hstop : forall a1 placed1, atlas_ok a1 placed1 -> placed ⊆ placed1 ->
    exists b gs' a' placed', Ret (false, gs, a1) = Ret (b, gs', a') /\ atlas_ok a' placed' /\ placed ⊆ placed' /\
      (forall g, Some g ∉ (glyph <$> item :: live) -> gs' !! g = gs !! g) /\ (b = true -> Forall (item_placed gs' placed') (item :: live) /\ placed' = reverse (omap (item_rect gs') (item :: live)) ++ placed))
    by (intros a1 placed1 ? ?; exists false, gs, a1, placed1; done).
  destruct (glyph item) as [g|] eqn:Eg; [|by apply (Hstop a placed)].
  (* the rest of the items, once this one is placed *)
  assert (Hrest : forall a1 placed1 xy, atlas_ok a1 placed1 -> placed ⊆ placed1 ->
    (forall gs', gs' !! g = Some xy -> placed1 = match item_rect gs' item with Some p => p :: placed | None => placed end) ->
    (forall gs' placed', gs' !! g = Some xy -> placed1 ⊆ placed' -> item_placed gs' placed' item) ->
    exists b gs' a' placed', repack live (<[g := xy]> gs) a1 = Ret (b, gs', a') /\ atlas_ok a' placed' /\ placed ⊆ placed' /\
      (forall g, Some g ∉ (glyph <$> item :: live) -> gs' !! g = gs !! g) /\ (b = true -> Forall (item_placed gs' placed') (item :: live) /\ placed' = reverse (omap (item_rect gs') (item :: live)) ++ placed)).
  { intros a1 placed1 xy H1 H2 Hp H3. destruct (IH (<[g := xy]> gs) a1 placed1 H1 Hi Hn) as (b & gs' & a' & placed' & E & Ha' & Hsub & Hgs & Hb).
    exists b, gs', a', placed'. split_and!; [done|done|set_solver| |].
    - intros g' Hg'. cbn [fmap list_fmap] in Hg'. apply not_elem_of_cons in Hg' as [Hne Hg'].
      rewrite Hgs, lookup_insert_ne by (done || congruence). done.
    - intros Hbt. destruct (Hb Hbt) as [Hf Hpl]. assert (Hxy : gs' !! g = Some xy) by (rewrite Hgs by done; by rewrite lookup_insert_eq).
      split; [constructor; [by apply H3|done]|]. rewrite Hpl, (Hp gs' Hxy). cbn [omap list_omap].
      destruct (item_rect gs' item); [|done]. by rewrite reverse_cons, <- app_assoc. }
  destruct ((item_width item =? 0) || (item_height item =? 0)) eqn:E0.
  - apply (Hrest a placed); [done|done| |]; [by intros gs' _; unfold item_rect; rewrite E0|]. intros gs' placed' Hgs _. exists g. rewrite E0. done.
  - destruct (negb _) eqn:El; [by apply (Hstop a placed)|]. apply negb_false_iff, Z.eqb_eq in El.
    apply orb_false_iff in E0 as E0'. destruct E0' as [Ew0%Z.eqb_neq Eh0%Z.eqb_neq].
    destruct (pack_step a placed (item_width item) (item_height item) (item_pixels item)) as (reg & a1 & -> & _ & _ & Hreg); [done|lia|lia|done|].
    cbn [mbind outcome_bind]. destruct (ok reg); cbn [negb].
    + eapply Hrest; [exact Hreg|set_solver| |].
      { intros gs' Hgs. unfold item_rect. rewrite E0, Eg. cbn [mbind option_bind]. by rewrite Hgs. }
      intros gs' placed' Hgs Hsub. exists g. rewrite E0. split; [done|].
      do 2 eexists. split; [exact Hgs|]. apply Hsub. constructor.
    + apply (Hstop a1 placed); [by destruct Hreg|done].
Qed.

(** * Properties *)

(** Glyphs never overwrite one another.  From a new atlas on, [pack] keeps every
    glyph inside the page, at least one pixel apart from every other, and showing
    exactly the pixels it was packed with, also when the page grows; it returns in
    bounds, and refuses a glyph only when the largest page size is less than four
    times the page or twice the glyph. *)
Lemma pack_readback :
  (forall f initial_size max_size, 1 <= initial_size < max_page -> 0 <= max_size < max_page ->
     atlas_ok (new_atlas f initial_size max_size) []) /\
  forall a placed w h src, atlas_ok a placed -> 0 < w < max_page -> 0 < h < max_page ->
    zlen src = w * h * bytes_per_pixel a ->
    exists reg a', pack w h (Some src) a = Ret (reg, a') /\
      if ok reg then atlas_ok a' ((MkRect (region_x reg) (region_y reg) w h, src) :: placed)
      else atlas_ok a' placed /\
        (max_size_ a' < 4 * Z.max (width_ a') (height_ a') \/ max_size_ a' < 2 * (Z.max w h + 2)).
Proof.
  split; [apply new_atlas_ok|]. intros a placed w h src Ha Hw Hh Hsrc.
  destruct (pack_step a placed w h src Ha Hw Hh Hsrc) as (reg & a' & E & _ & _ & H). by exists reg, a'.
Qed.

Lemma pack_readback_witness : exists reg a', pack 2 1 (Some [7; 8]) (new_atlas grayscale 4 8) = Ret (reg, a') /\
  ok reg = true /\ shows a' (MkRect (region_x reg) (region_y reg) 2 1) [7; 8].
Proof.
  destruct pack_readback as [H1 H2].
  destruct (H2 (new_atlas grayscale 4 8) [] 2 1 [7; 8]) as (reg & a' & E & H).
  - apply H1; unfold max_page; lia.
  - unfold max_page; lia.
  - unfold max_page; lia.
  - reflexivity.
  - exists reg, a'. split; [exact E|].
    assert (Hok : ok reg = true) by (vm_compute in E; injection E as <- _; reflexivity).
    rewrite Hok in H. split; [exact Hok|]. destruct H as (_ & H & _). apply Forall_cons in H as [[_ H] _]. exact H.
Defined.

(** [reserve] terminates on every page: each round of its loop returns or doubles
    the page, so 64 rounds are enough.  The region it returns lies on the page, one
    pixel from the border and from every region reserved before; the rows of the old
    page are found unchanged on the new one. *)
Lemma reserve_terminates w h rs a : 0 < w < max_page -> 0 < h < max_page -> page_ok a -> Forall (shelved a) rs ->
  exists reg a', reserve w h a = Ret (reg, a') /\ page_ok a' /\ Forall (shelved a') rs /\
    (forall r src, inside a r -> shows a r src -> inside a' r /\ shows a' r src) /\
    (ok reg = true -> inside a' (MkRect (region_x reg) (region_y reg) w h) /\
                      Forall (apart (MkRect (region_x reg) (region_y reg) w h)) rs).
Proof.
  intros Hw Hh Hp Hs. destruct (reserve_spec w h rs a Hw Hh Hp Hs) as (reg & a' & E & H1 & H2 & H3 & _ & H4).
  exists reg, a'. split_and!; try done.
  - intros r src Hi Hsh. split; [by eapply keeps_rows_inside|by eapply keeps_rows_shows].
  - intros Hok. rewrite Hok in H4. destruct H4 as [[H4 _] H5]. done.
Qed.

Lemma reserve_terminates_witness : exists reg a', reserve 3 3 (new_atlas bgra 4 64) = Ret (reg, a') /\ page_ok a'.
Proof.
  destruct (reserve_terminates 3 3 [] (new_atlas bgra 4 64)) as (reg & a' & E & H & _).
  - unfold max_page; lia.
  - unfold max_page; lia.
  - apply new_atlas_ok; unfold max_page; lia.
  - constructor.
  - exists reg, a'. split; [exact E|exact H].
Defined.

(** A rebuild that reports success leaves every glyph at its new coordinates with
    its own pixels on the page, no two touching, and an empty glyph at the origin; any
    rebuild returns in bounds with a well-formed page. *)
Lemma rebuild_from_live_correct live gs a : padding_ a = 1 -> initial_size_ a < max_page -> 0 <= max_size_ a < max_page ->
  Forall item_ok live -> NoDup (glyph <$> live) ->
  exists b gs' a' placed, rebuild_from_live live gs a = Ret (b, gs', a') /\ atlas_ok a' placed /\
    (forall g, Some g ∉ (glyph <$> live) -> gs' !! g = gs !! g) /\
    (b = true -> Forall (item_placed gs' placed) live).
Proof.
  intros Hpad Hi Hm Hit Hn. destruct (reset_ok a Hpad Hi Hm) as [Ha _].
  destruct (repack_spec live gs _ [] Ha Hit Hn) as (b & gs' & a' & placed & E & H1 & _ & H2 & H3).
  exists b, gs', a', placed. split_and!; [done|done|done|]. intros Hb. by apply H3.
Qed.

Lemma rebuild_from_live_correct_witness : exists gs' a' placed,
  rebuild_from_live [MkItem (Some 1%positive) [5] 1 1; MkItem (Some 2%positive) [] 0 3] ∅ (new_atlas grayscale 4 8)
  = Ret (true, gs', a') /\ atlas_ok a' placed /\
  Forall (item_placed gs' placed) [MkItem (Some 1%positive) [5] 1 1; MkItem (Some 2%positive) [] 0 3].
Proof.
  destruct (rebuild_from_live_correct [MkItem (Some 1%positive) [5] 1 1; MkItem (Some 2%positive) [] 0 3] ∅ (new_atlas grayscale 4 8))
    as (b & gs' & a' & placed & E & H1 & _ & H2).
  - reflexivity.
  - unfold max_page; cbn; lia.
  - unfold max_page; cbn; lia.
  - repeat constructor; unfold max_page; cbn; lia.
  - apply (bool_decide_unpack _). vm_compute. exact I.
  - assert (Hb : b = true) by (vm_compute in E; congruence). subst b. exists gs', a', placed.
    split; [exact E|]. split; [exact H1|]. by apply H2.
Defined.

(** * What modelling showed *)

(** A wide glyph on a square page doubles both axes, not the shorter one. *)
Lemma both_axes_double :
  (r ← reserve 6 1 (new_atlas grayscale 4 64); Ret (width_ r.2, height_ r.2)) = Ret (8, 8).
Proof. vm_compute. reflexivity. Qed.

(** A largest size that is not a power of two times the initial one is never reached. *)
Lemma max_size_not_reached :
  (r ← reserve 6 1 (new_atlas grayscale 6 11); Ret (ok r.1)) = Ret false.
Proof. vm_compute. reflexivity. Qed.

(** The padded width wraps: a glyph of [2^32 - 2] columns is given a region. *)
Lemma huge_width_accepted :
  (r ← reserve (2 ^ 32 - 2) 1 (new_atlas grayscale 4 8); Ret (ok r.1)) = Ret true.
Proof. vm_compute. reflexivity. Qed.
