(* ===== verification/FxaArchive.v ===== *)
(** Application archives ([src/runtime/fxa_archive.cpp], [.hpp]): an application's
    files, a CBOR manifest and a signed trailer appended to a binary, and the reader
    that mounts them.

    The file system is a finite map from paths to contents.  libsodium (SHA-256,
    Ed25519, Base64) and zstd are parameters; [has_zstd] is the build's [FXE_HAS_ZSTD]. *)

From S2P Require Import Prelude Strings Cbor.

Notation fs := (gmap bytes bytes).

Definition k_magic : bytes := str "FXEAXA" ++ [0; 0].
Definition k_version : Z := 1.
Definition k_signed_flag : Z := 1.
Definition k_trailer_size : Z := 144.

Record entry : Type := MkEntry { offset : Z; size : Z }.

Record bundled_font : Type := MkFont { family : bytes; virtual_path : bytes; weight : Z; style : bytes }.

Record manifest_metadata : Type := MkMetadata {
  app_name : bytes; version : bytes; entry_point : bytes; created_at : bytes; meta_compression : bytes;
  update_url : bytes; meta_public_key : bytes; channel : bytes; signer_secret_key_b64 : bytes;
  signer_public_key_b64 : bytes; meta_fonts : list bundled_font }.

Record pack_options : Type := MkOptions {
  sign : bool; secret_key_b64 : bytes; public_key_b64 : bytes; compress : bool }.

(** * Little-endian fields *)

Definition put_u32 (v : Z) : bytes := le_bytes 4 v.
Definition put_u64 (v : Z) : bytes := le_bytes 8 v.

Definition make_signed_prefix (flags manifest_offset manifest_size payload_offset payload_size : Z) : bytes :=
  k_magic ++ put_u32 k_version ++ put_u32 flags ++ put_u64 manifest_offset ++ put_u64 manifest_size ++
  put_u64 payload_offset ++ put_u64 payload_size.

(** [read_u32(trailer + off)], [read_u64(trailer + off)] *)
Definition read_u32 (p : bytes) (off : Z) : outcome Z := b ← sub_ p off 4; Ret (le_value b).
Definition read_u64 (p : bytes) (off : Z) : outcome Z := b ← sub_ p off 8; Ret (le_value b).

(** * Manifest values *)

Definition cbor_text (m : list (bytes * value)) (key : bytes) : option bytes :=
  match map_find key m with Some (VText t) => Some t | _ => None end.

Definition cbor_u64 (m : list (bytes * value)) (key : bytes) : option Z :=
  match map_find key m with
  | Some (VUint n) => Some n
  | Some (VInt n) => if 0 <=? n then Some n else None
  | _ => None
  end.

Definition cbor_array_value (m : list (bytes * value)) (key : bytes) : option (list value) :=
  match map_find key m with Some (VArray l) => Some l | _ => None end.

Definition cbor_map_value (v : value) : option (list (bytes * value)) :=
  match v with VMap m => Some m | _ => None end.

Definition lower_ascii (s : bytes) : bytes := ascii_lower s.

Definition bundled_font_less (a b : bundled_font) : bool :=
  if negb (bool_decide (family a = family b)) then bytes_lt (family a) (family b)
  else if negb (weight a =? weight b) then weight a <? weight b
  else if negb (bool_decide (style a = style b)) then bytes_lt (style a) (style b)
  else bytes_lt (virtual_path a) (virtual_path b).

Definition parse_bundled_font (v : value) : option bundled_font :=
  match cbor_map_value v with
  | None => None
  | Some m =>
      match cbor_text m (str "family"), cbor_text m (str "path"), cbor_u64 m (str "weight"), cbor_text m (str "style") with
      | Some family, Some path, Some weight, Some style =>
          if (weight =? 0) || (1000 <? weight) then None
          else Some (MkFont family path (u32 weight) (lower_ascii style))
      | _, _, _, _ => None
      end
  end.

(** [cbor::map{...}]: the pairs emplaced in order. *)
Definition cbor_map (l : list (bytes * value)) : list (bytes * value) := emplace_all l [].

Definition encode_bundled_font (font : bundled_font) : value :=
  VMap (cbor_map [(str "family", VText (family font)); (str "path", VText (virtual_path font));
                  (str "weight", VUint (weight font)); (str "style", VText (style font))]).

Definition encode_entry (e : bytes * entry) : value :=
  VMap (cbor_map [(str "name", VText e.1); (str "offset", VUint (offset e.2)); (str "size", VUint (size e.2))]).

Record parsed_manifest : Type := MkManifest {
  m_compression : bytes; m_payload_sha256 : bytes; m_public_key : bytes; m_signature_algorithm : bytes;
  m_entries : list (bytes * entry); m_fonts : list bundled_font }.

Definition parse_entry (v : value) : option (bytes * entry) :=
  match cbor_map_value v with
  | None => None
  | Some m =>
      match cbor_text m (str "name"), cbor_u64 m (str "offset"), cbor_u64 m (str "size") with
      | Some name, Some offset, Some size => Some (name, MkEntry offset size)
      | _, _, _ => None
      end
  end.

(** The two loops: the first item refused ends the parse. *)
Definition parse_fonts (root : list (bytes * value)) : option (list bundled_font) :=
  match cbor_array_value root (str "fonts") with
  | None => Some []
  | Some l => mapM parse_bundled_font l
  end.

Definition parse_root (root : list (bytes * value)) : option parsed_manifest :=
  match cbor_text root (str "magic"), cbor_text root (str "appName"), cbor_text root (str "version"),
        cbor_text root (str "entry"), cbor_text root (str "createdAt"), cbor_text root (str "compression"),
        cbor_text root (str "payloadSha256"), cbor_array_value root (str "entries") with
  | Some magic, Some _, Some _, Some _, Some _, Some compression, Some payload_sha256, Some entries =>
      if negb (bool_decide (magic = str "fxa1")) then None
      else if negb (bool_decide (compression = str "none")) && negb (bool_decide (compression = str "zstd")) then None
      else
        fonts ← parse_fonts root;
        entries ← mapM parse_entry entries;
        Some (MkManifest compression payload_sha256 (default [] (cbor_text root (str "publicKey")))
                (default [] (cbor_text root (str "signatureAlgorithm"))) entries fonts)
  | _, _, _, _, _, _, _, _ => None
  end.

(** The bundle's members.  [index] is looked up by name only. *)
Record bundle : Type := MkBundle {
  path_ : bytes; valid : bool; signed_archive : bool; signature_verified : bool; payload_offset : Z;
  compression : bytes; payload_sha256 : bytes; signer_pubkey : bytes; decompressed_payload : bytes;
  index : list (bytes * entry); names : list bytes; fonts : list bundled_font }.

Definition empty_bundle (path : bytes) : bundle := MkBundle path false false false 0 [] [] [] [] [] [] [].

Section Archive.
Context (has_zstd : bool) (max_items max_pairs max_keys max_alloc : Z).
(** SHA-256; Base64 decoding that skips white space, with the text left unread;
    Ed25519. *)
Context (sha256 : bytes -> bytes) (base642bin : bytes -> option (bytes * bytes))
        (sk_to_pk : bytes -> option bytes) (sign_detached : bytes -> bytes -> option bytes)
        (verify_detached : bytes -> bytes -> bytes -> bool).
(** zstd: compression, the size a frame declares, decompression to a size. *)
Context (zstd_compress : bytes -> option bytes) (zstd_size : bytes -> option Z)
        (zstd_decompress : Z -> bytes -> option bytes).
(** Whether a path can be opened for appending. *)
Context (appendable : bytes -> bool).

Definition hex_digit (n : Z) : Z := nth (Z.to_nat n) (str "0123456789abcdef") 0.
Definition sha256_hex (bs : bytes) : bytes :=
  concat (map (fun b => [hex_digit (Z.shiftr b 4); hex_digit (Z.land b 0x0f)]) (sha256 bs)).

Definition base64_space (c : Z) : bool := (c =? chr " ") || (c =? 9) || (c =? 10) || (c =? 13).
Definition base64_decode (input : bytes) : option bytes :=
  match base642bin input with
  | None => None
  | Some (out, rest) => if forallb base64_space rest then Some out else None
  end.

(** * Packing *)

Fixpoint collect_files (files : list (bytes * bytes)) (disk : fs) (entries : list (bytes * entry)) (raw_payload : bytes) :
    bytes + list (bytes * entry) * bytes :=
  match files with
  | [] => inr (entries, raw_payload)
  | (disk_path, archive_name) :: files' =>
      match disk !! disk_path with
      | None => inl (str "cannot open " ++ disk_path)
      | Some body =>
          collect_files files' disk (entries ++ [(archive_name, MkEntry (zlen raw_payload) (zlen body))])
            (raw_payload ++ body)
      end
  end.

Definition compress_payload (raw_payload : bytes) (enabled : bool) : bytes + bytes * bytes :=
  if negb enabled || bool_decide (raw_payload = []) then inr (raw_payload, str "none")
  else if has_zstd then
    match zstd_compress raw_payload with
    | None => inl (str "zstd compression failed: ")
    | Some out => inr (out, str "zstd")
    end
  else inr (raw_payload, str "none").

(** The secret and the public key. *)
Definition parse_signing_keys (meta : manifest_metadata) (opts : pack_options) : bytes + bytes * bytes :=
  let secret_b64 := if bool_decide (secret_key_b64 opts <> []) then secret_key_b64 opts else signer_secret_key_b64 meta in
  let public_b64 := if bool_decide (public_key_b64 opts <> []) then public_key_b64 opts
                    else if bool_decide (signer_public_key_b64 meta <> []) then signer_public_key_b64 meta
                    else meta_public_key meta in
  match base64_decode secret_b64 with
  | None => inl (str "invalid Ed25519 secret key")
  | Some secret =>
      if negb (zlen secret =? 64) then inl (str "invalid Ed25519 secret key")
      else
        match sk_to_pk secret with
        | None => inl (str "failed to derive Ed25519 public key")
        | Some derived_public =>
            if bool_decide (public_b64 = []) then inr (secret, derived_public)
            else
              match base64_decode public_b64 with
              | None => inl (str "invalid Ed25519 public key")
              | Some provided =>
                  if negb (zlen provided =? 32) then inl (str "invalid Ed25519 public key")
                  else if negb (bool_decide (provided = derived_public))
                  then inl (str "Ed25519 secret/public key mismatch")
                  else inr (secret, provided)
              end
        end
  end.

(** [if (cond) m[key] = v;] *)
Definition set_if (cond : bool) (key : bytes) (v : value) (m : list (bytes * value)) : list (bytes * value) :=
  if cond then map_set key v m else m.

Definition manifest_fonts (meta : manifest_metadata) : list bundled_font :=
  stable_sort bundled_font_less
    (map (fun f => MkFont (family f) (virtual_path f) (weight f) (lower_ascii (style f))) (meta_fonts meta)).

Definition manifest_public_key (meta : manifest_metadata) (opts : pack_options) : bytes :=
  if bool_decide (meta_public_key meta <> []) then meta_public_key meta
  else if bool_decide (public_key_b64 opts <> []) then public_key_b64 opts else signer_public_key_b64 meta.

Definition manifest_map (meta : manifest_metadata) (opts : pack_options) (entries : list (bytes * entry))
    (payload compression : bytes) : list (bytes * value) :=
  let m := cbor_map [(str "magic", VText (str "fxa1")); (str "appName", VText (app_name meta));
                     (str "version", VText (version meta)); (str "entry", VText (entry_point meta));
                     (str "createdAt", VText (created_at meta)); (str "compression", VText compression);
                     (str "payloadSha256", VText (sha256_hex payload));
                     (str "entries", VArray (map encode_entry entries))] in
  let encoded_fonts := map encode_bundled_font (manifest_fonts meta) in
  let m := set_if (bool_decide (encoded_fonts <> [])) (str "fonts") (VArray encoded_fonts) m in
  let m := set_if (bool_decide (channel meta <> [])) (str "channel") (VText (channel meta)) m in
  let m := set_if (bool_decide (update_url meta <> [])) (str "updateUrl") (VText (update_url meta)) m in
  let pk := manifest_public_key meta opts in
  let m := set_if (bool_decide (pk <> [])) (str "publicKey") (VText pk) m in
  set_if (sign opts) (str "signatureAlgorithm") (VText (str "ed25519")) m.

Definition zero_bytes (n : Z) : bytes := replicate (Z.to_nat n) 0.

(** The error, or the file system with the archive appended to the binary. *)
Definition pack_files (binary_path : bytes) (files : list (bytes * bytes)) (meta : manifest_metadata)
    (opts : pack_options) (disk : fs) : bytes + fs :=
  match collect_files files disk [] [] with
  | inl error => inl error
  | inr (entries, raw_payload) =>
      match compress_payload raw_payload (compress opts) with
      | inl error => inl error
      | inr (payload, compression) =>
          match (if sign opts then parse_signing_keys meta opts else inr ([], zero_bytes 32)) with
          | inl error => inl error
          | inr (_, _) =>
              let flags := if sign opts then k_signed_flag else 0 in
              let manifest := encode (VMap (manifest_map meta opts entries payload compression)) in
              match disk !! binary_path with
              | None => inl (str "cannot open " ++ binary_path)
              | Some current =>
                  let payload_offset := zlen current in
                  let manifest_offset := payload_offset + zlen payload in
                  let prefix := make_signed_prefix flags manifest_offset (zlen manifest) payload_offset (zlen payload) in
                  match (if sign opts then
                           match parse_signing_keys meta opts with
                           | inl error => inl error
                           | inr (signer_secret_key, signer_public_key) =>
                               match sign_detached signer_secret_key (prefix ++ manifest ++ payload) with
                               | None => inl (str "Ed25519 signing failed")
                               | Some signature => inr (signature, signer_public_key)
                               end
                           end
                         else inr (zero_bytes 64, zero_bytes 32)) with
                  | inl error => inl error
                  | inr (signature, signer_public_key) =>
                      if negb (appendable binary_path)
                      then inl (str "cannot open " ++ binary_path ++ str " for append")
                      else inr (<[binary_path := current ++ payload ++ manifest ++ prefix ++ signature ++ signer_public_key]> disk)
                  end
              end
          end
      end
  end.

(** * Opening *)

Definition parse_manifest (bs : bytes) : outcome (option parsed_manifest) :=
  decoded ← decode max_items max_pairs max_keys bs;
  Ret (match decoded with
       | None => None
       | Some v => match cbor_map_value v with None => None | Some root => parse_root root end
       end).

(** [None] when the frame's size is not known or decompression fails. *)
Definition decompress_payload (payload : bytes) : outcome (option bytes) :=
  if negb has_zstd then Ret None
  else
    match zstd_size payload with
    | None => Ret None
    | Some size =>
        if max_alloc <? size then Throw "resize"
        else match zstd_decompress size payload with
             | None => Ret None
             | Some out => Ret (if zlen out =? size then Some out else None)
             end
    end.

(** The entry loop: the bundle with its index so far, and whether all were in range. *)
Fixpoint add_entries (logical_payload_size : Z) (entries : list (bytes * entry)) (b : bundle) : bool * bundle :=
  match entries with
  | [] => (true, b)
  | (name, e) :: entries' =>
      if (logical_payload_size <? offset e) || (logical_payload_size - offset e <? size e) then (false, b)
      else
        add_entries logical_payload_size entries'
          (MkBundle (path_ b) (valid b) (signed_archive b) (signature_verified b) (payload_offset b) (compression b)
             (payload_sha256 b) (signer_pubkey b) (decompressed_payload b) (map_emplace name e (index b))
             (names b ++ [name]) (fonts b))
  end.

(** The part of the constructor after the signature: [valid_] is set last. *)
Definition finish_bundle (payload : bytes) (entries : list (bytes * entry)) (b : bundle) : outcome bundle :=
  let finish size b :=
    let '(ok, b) := add_entries size entries b in
    Ret (MkBundle (path_ b) (ok : bool) (signed_archive b) (signature_verified b) (payload_offset b) (compression b)
           (payload_sha256 b) (signer_pubkey b) (decompressed_payload b) (index b) (names b) (fonts b)) in
  if bool_decide (compression b = str "zstd") then
    r ← decompress_payload payload;
    match r with
    | None => Ret b
    | Some out =>
        finish (zlen out)
          (MkBundle (path_ b) (valid b) (signed_archive b) (signature_verified b) (payload_offset b) (compression b)
             (payload_sha256 b) (signer_pubkey b) out (index b) (names b) (fonts b))
    end
  else if negb (bool_decide (compression b = str "none")) then Ret b
  else finish (zlen payload) b.

(** The constructor: each [return] leaves the members set so far. *)
Definition open_bundle (path : bytes) (disk : fs) : outcome bundle :=
  let b := empty_bundle path in
  match disk !! path with
  | None => Ret b
  | Some file =>
      let file_size := zlen file in
      if file_size <? k_trailer_size then Ret b
      else
        let trailer_offset := file_size - k_trailer_size in
        trailer ← sub_ file trailer_offset k_trailer_size;
        if negb (bool_decide (take 8 trailer = k_magic)) then Ret b
        else
          version ← read_u32 trailer 8;
          if negb (version =? k_version) then Ret b
          else
            flags ← read_u32 trailer 12;
            manifest_offset ← read_u64 trailer 16;
            manifest_size ← read_u64 trailer 24;
            payload_offset ← read_u64 trailer 32;
            payload_size ← read_u64 trailer 40;
            let b := MkBundle path false false false payload_offset [] [] [] [] [] [] [] in
            if (trailer_offset <? manifest_offset) || (trailer_offset <? manifest_size) ||
               (manifest_offset <? payload_offset) ||
               negb (u64 (payload_offset + payload_size) =? manifest_offset) ||
               negb (u64 (manifest_offset + manifest_size) =? trailer_offset)
            then Ret b
            else
              payload ← sub_ file payload_offset payload_size;
              manifest ← sub_ file (payload_offset + payload_size) manifest_size;
              parsed ← parse_manifest manifest;
              match parsed with
              | None => Ret b
              | Some parsed =>
                  let signed := negb (Z.land flags k_signed_flag =? 0) in
                  signature ← sub_ trailer 48 64;
                  pubkey ← sub_ trailer 112 32;
                  let b := MkBundle path false signed false payload_offset (m_compression parsed) (m_payload_sha256 parsed)
                             (if signed then pubkey else []) [] [] [] (m_fonts parsed) in
                  if negb signed then finish_bundle payload (m_entries parsed) b
                  else if negb (bool_decide (m_signature_algorithm parsed = [])) &&
                          negb (bool_decide (lower_ascii (m_signature_algorithm parsed) = str "ed25519"))
                  then Ret b
                  else if negb (bool_decide (m_public_key parsed = [])) &&
                          negb (bool_decide (base64_decode (m_public_key parsed) = Some pubkey))
                  then Ret b
                  else
                    let message := make_signed_prefix flags manifest_offset manifest_size payload_offset payload_size ++
                                   manifest ++ payload in
                    finish_bundle payload (m_entries parsed)
                      (MkBundle path false signed (verify_detached signature message pubkey) payload_offset
                         (m_compression parsed) (m_payload_sha256 parsed) pubkey [] [] [] (m_fonts parsed))
              end
  end.

(** * Reading *)

(** [seekg] and [read] of exactly [n] bytes; a position above the range of
    [streamoff] fails. *)
Definition read_at (file : bytes) (off n : Z) : option bytes :=
  if 2 ^ 63 <=? off then None
  else if n =? 0 then Some []
  else if off + n <=? zlen file then Some (zsub off n file) else None.

Definition read_entry (name : bytes) (b : bundle) (disk : fs) : outcome (option bytes) :=
  if negb (valid b) then Ret None
  else
    match map_find name (index b) with
    | None => Ret None
    | Some e =>
        if bool_decide (compression b = str "zstd") then
          body ← sub_ (decompressed_payload b) (offset e) (size e);
          Ret (Some body)
        else
          match disk !! path_ b with
          | None => Ret None
          | Some file =>
              if max_alloc <? size e then Throw "resize"
              else Ret (read_at file (u64 (payload_offset b + offset e)) (size e))
          end
    end.

Definition list_names (b : bundle) : list bytes := names b.

(** * Mounting ([mount_bundle_from_argv0] of [src/runtime/bundle_loader.cpp]) *)

(** Whether a bundle is mounted: [allow_override] is [FXE_BUNDLE_ALLOW_UNSIGNED=1],
    [release] a build with [NDEBUG]. *)
Definition mounts (release allow_override : bool) (b : bundle) : bool :=
  valid b &&
  (let needs_override := negb (signed_archive b) || negb (signature_verified b) in
   let allow_unsigned := if release then allow_override else negb (signed_archive b) || allow_override in
   negb (needs_override && negb allow_unsigned)).
End Archive.

(** * Specification *)


(** The contents of the files in the order they are packed. *)
Definition raw_payload (files : list (bytes * bytes)) (disk : fs) : bytes :=
  concat (omap (fun f => disk !! f.1) files).

(** * Proofs: little-endian fields *)

Lemma le_bytes_le_value bs : is_bytes bs -> le_bytes (length bs) (le_value bs) = bs.
Proof.
  induction 1 as [|b bs Hb Hbs IH]; [done|]. cbn [length le_bytes le_value]. unfold is_byte in Hb.
  rewrite Z.lor_comm, lor_shiftl by lia. f_equal.
  - unfold wrap. by rewrite Z.add_comm, Z.mod_add, Z.mod_small.
  - rewrite shiftr_div, Z.add_comm, Z.div_add, Z.div_small by lia. exact IH.
Qed.

Lemma read_u32_mid t l1 l3 v off : t = l1 ++ put_u32 v ++ l3 -> off = zlen l1 -> 0 <= v < 2 ^ 32 ->
  read_u32 t off = Ret v.
Proof.
  intros -> -> Hv. unfold read_u32, put_u32. rewrite sub_app_mid by (rewrite ?length_le_bytes; done).
  cbn [mbind outcome_bind]. by rewrite le_value_le_bytes.
Qed.

Lemma read_u64_mid t l1 l3 v off : t = l1 ++ put_u64 v ++ l3 -> off = zlen l1 -> 0 <= v < 2 ^ 64 ->
  read_u64 t off = Ret v.
Proof.
  intros -> -> Hv. unfold read_u64, put_u64. rewrite sub_app_mid by (rewrite ?length_le_bytes; done).
  cbn [mbind outcome_bind]. by rewrite le_value_le_bytes.
Qed.

Lemma read_u32_inv p off v : is_bytes p -> read_u32 p off = Ret v ->
  0 <= v < 2 ^ 32 /\ 0 <= off /\ zsub off 4 p = put_u32 v.
Proof.
  intros Hp E. unfold read_u32 in E. apply bind_inv in E as (b & E & [= <-]).
  apply sub_inv in E as (Ho & _ & Hn & -> & Hl).
  assert (Hb : is_bytes (zsub off 4 p)) by auto with fxe.
  pose proof (le_value_bound _ Hb) as B. rewrite Hl in B. split_and!; [lia|lia|lia|].
  unfold put_u32. replace 4%nat with (length (zsub off 4 p)) by lia. by rewrite le_bytes_le_value.
Qed.

Lemma read_u64_inv p off v : is_bytes p -> read_u64 p off = Ret v ->
  0 <= v < 2 ^ 64 /\ 0 <= off /\ zsub off 8 p = put_u64 v.
Proof.
  intros Hp E. unfold read_u64 in E. apply bind_inv in E as (b & E & [= <-]).
  apply sub_inv in E as (Ho & _ & Hn & -> & Hl).
  assert (Hb : is_bytes (zsub off 8 p)) by auto with fxe.
  pose proof (le_value_bound _ Hb) as B. rewrite Hl in B. split_and!; [lia|lia|lia|].
  unfold put_u64. replace 8%nat with (length (zsub off 8 p)) by lia. by rewrite le_bytes_le_value.
Qed.

Lemma length_signed_prefix f mo ms po ps : length (make_signed_prefix f mo ms po ps) = 48%nat.
Proof. unfold make_signed_prefix, put_u32, put_u64. rewrite !length_app, !length_le_bytes. reflexivity. Qed.

(** The fields of a trailer that starts with a signed prefix. *)
Lemma signed_prefix_fields f mo ms po ps rest : 0 <= f < 2 ^ 32 ->
  0 <= mo < 2 ^ 64 -> 0 <= ms < 2 ^ 64 -> 0 <= po < 2 ^ 64 -> 0 <= ps < 2 ^ 64 ->
  let t := make_signed_prefix f mo ms po ps ++ rest in
  take 8 t = k_magic /\ read_u32 t 8 = Ret k_version /\ read_u32 t 12 = Ret f /\
  read_u64 t 16 = Ret mo /\ read_u64 t 24 = Ret ms /\ read_u64 t 32 = Ret po /\ read_u64 t 40 = Ret ps.
Proof.
  intros Hf Hmo Hms Hpo Hps t. unfold t, make_signed_prefix. rewrite <- !app_assoc.
  set (a := k_magic ++ put_u32 k_version ++ put_u32 f). split_and!.
  - done.
  - by eapply (read_u32_mid _ k_magic).
  - eapply (read_u32_mid _ (k_magic ++ put_u32 k_version)); [by rewrite <- ?app_assoc|done|done].
  - eapply (read_u64_mid _ a); [by unfold a; rewrite <- ?app_assoc|done|done].
  - eapply (read_u64_mid _ (a ++ put_u64 mo)); [by unfold a; rewrite <- ?app_assoc|done|done].
  - eapply (read_u64_mid _ (a ++ put_u64 mo ++ put_u64 ms)); [by unfold a; rewrite <- ?app_assoc|done|done].
  - eapply (read_u64_mid _ (a ++ put_u64 mo ++ put_u64 ms ++ put_u64 po));
      [by unfold a; rewrite <- ?app_assoc|done|done].
Qed.

(** * Proofs: the manifest *)

Lemma map_find_emplace {V} k k0 (v : V) m : map_sorted m ->
  map_find k (map_emplace k0 v m) =
  match map_find k m with Some x => Some x | None => if bool_decide (k = k0) then Some v else None end.
Proof.
  induction 1 as [|[k' v'] m Hm IH Hk]; simpl; [done|].
  destruct (bytes_lt k0 k') eqn:E1; [|destruct (bytes_lt k' k0) eqn:E2].
  - simpl. destruct (decide (k = k0)) as [->|Hn]; [|rewrite (bool_decide_eq_false_2 (k = k0)) by done; repeat case_match; congruence].
    rewrite !bool_decide_eq_true_2 by done.
    rewrite bool_decide_eq_false_2 by (intros ->; by rewrite bytes_lt_irrefl in E1).
    rewrite map_find_above; [done|]. eapply Forall_impl; [exact Hk|]. intros [k2 v2] ?; simpl in *.
    by eapply bytes_lt_trans.
  - simpl. by destruct (bool_decide (k = k')).
  - simpl. rewrite (bytes_lt_total k0 k') by done. destruct (bool_decide (k = k')); [done|by case_match].
Qed.

(** A map built by emplacing keeps the first value of each key. *)
Lemma map_find_emplace_all {V} k l (m : list (bytes * V)) : map_sorted m ->
  map_find k (emplace_all l m) = match map_find k m with Some x => Some x | None => map_find k l end.
Proof.
  revert m. induction l as [|[k0 v0] l IH]; intros m Hm; [simpl; by case_match|].
  unfold emplace_all in *. cbn [foldl]. rewrite IH by by apply map_emplace_sorted.
  rewrite map_find_emplace by done. simpl. destruct (map_find k m); [done|]. by case_bool_decide.
Qed.






























Section Manifest.
Context (sha256 : bytes -> bytes).





Context (max_items max_pairs max_keys : Z).
Notation wf_ := (wf max_items max_pairs max_keys).
Context (Hpairs : 13 <= max_pairs) (Hkeys : 13 <= max_keys).











Context (Hitems : max_items < 2 ^ 64) (Hpairs64 : max_pairs < 2 ^ 64).

End Manifest.

(** * Proofs: files and entries *)





Definition in_range (n : Z) (e : bytes * entry) : Prop :=
  0 <= offset e.2 /\ 0 <= size e.2 /\ offset e.2 + size e.2 <= n.

(** The entry loop: all the entries in range are indexed, in order; one that is
    not ends it. *)
Lemma add_entries_spec n es b ok b' :
  Forall (fun e => 0 <= offset e.2 /\ 0 <= size e.2) es -> add_entries n es b = (ok, b') ->
  (ok = true <-> Forall (in_range n) es) /\
  path_ b' = path_ b /\ valid b' = valid b /\ signed_archive b' = signed_archive b /\
  signature_verified b' = signature_verified b /\ payload_offset b' = payload_offset b /\
  compression b' = compression b /\ signer_pubkey b' = signer_pubkey b /\
  decompressed_payload b' = decompressed_payload b /\ fonts b' = fonts b /\
  (ok = true -> index b' = emplace_all es (index b) /\ names b' = names b ++ es.*1).
Proof.
  intros Hes. revert b. induction Hes as [|[name e] es [Ho Hs] Hes IH]; intros b E.
  { injection E as <- <-. rewrite app_nil_r. split_and!; done. }
  cbn [add_entries] in E. cbn in Ho, Hs. unfold in_range at 1.
  destruct (Z.ltb_spec n (offset e)), (Z.ltb_spec (n - offset e) (size e)); cbn [orb] in E.
  1-3: injection E as <- <-; split_and!; try done; split; [done|];
    intros F; apply Forall_cons in F as [F _]; cbn in F; lia.
  apply IH in E as (Hok & H1 & H2 & H3 & H4 & H5 & H6 & H7 & H8 & H9 & H10). cbn in *.
  split_and!; try done.
  - rewrite Hok. split; [intros; constructor; [cbn; lia|done]|by intros [_ ?]%Forall_cons].
  - intros Et. destruct (H10 Et) as [-> ->]. by rewrite <- app_assoc.
Qed.

(** * Proofs: reading entries *)

Section Reading.
Context (max_alloc : Z).

(** Where a bundle's entries are read from. *)
Definition backed_by (b : bundle) (disk : fs) (logical : bytes) : Prop :=
  (compression b = str "zstd" /\ decompressed_payload b = logical) \/
  (compression b = str "none" /\ exists before rest,
     disk !! path_ b = Some (before ++ logical ++ rest) /\ payload_offset b = zlen before /\
     zlen (before ++ logical ++ rest) < 2 ^ 63).

Lemma read_at_mid before logical rest off n :
  0 <= off -> 0 <= n -> off + n <= zlen logical -> zlen (before ++ logical ++ rest) < 2 ^ 63 ->
  read_at (before ++ logical ++ rest) (u64 (zlen before + off)) n = Some (zsub off n logical).
Proof.
  intros Ho Hn Hr Hl. rewrite !length_app in Hl. rewrite u64_small by lia. unfold read_at.
  destruct (Z.leb_spec (2 ^ 63) (zlen before + off)); [lia|]. destruct (Z.eqb_spec n 0) as [->|]; [done|].
  rewrite (proj2 (Z.leb_le _ _)) by (rewrite !length_app; lia).
  rewrite zsub_app_r by lia. replace (zlen before + off - zlen before) with off by lia. by rewrite zsub_app_l.
Qed.

Lemma read_entry_spec b disk logical es name :
  valid b = true -> index b = emplace_all es [] -> Forall (in_range (zlen logical)) es ->
  backed_by b disk logical -> zlen logical <= max_alloc ->
  read_entry max_alloc name b disk = Ret (e ← map_find name es; Some (zsub (offset e) (size e) logical)).
Proof.
  intros Hv Hi Hr Hb Ha. unfold read_entry. rewrite Hv, Hi, map_find_emplace_all by constructor. cbn [negb map_find].
  destruct (map_find name es) as [e|] eqn:Ee; [|done]. apply map_find_elem in Ee.
  rewrite Forall_forall in Hr. destruct (Hr _ Ee) as (Ho & Hs & Hos). cbn [snd] in *.
  destruct Hb as [[Hc Hd]|(Hc & before & rest & Hd & Hp & Hl)]; rewrite Hc.
  - rewrite bool_decide_eq_true_2, Hd, sub_Ret by done. done.
  - rewrite bool_decide_eq_false_2 by (vm_compute; discriminate). rewrite Hd, Hp.
    destruct (Z.ltb_spec max_alloc (size e)); [lia|]. by rewrite read_at_mid.
Qed.

Context (has_zstd : bool) (zstd_size : bytes -> option Z) (zstd_decompress : Z -> bytes -> option bytes).
Notation finish_bundle_ := (finish_bundle has_zstd max_alloc zstd_size zstd_decompress).
Notation decompress_ := (decompress_payload has_zstd max_alloc zstd_size zstd_decompress).

(** What the payload stands for. *)
Definition logical_payload (payload logical compression : bytes) : Prop :=
  (compression = str "zstd" /\ decompress_ payload = Ret (Some logical)) \/
  (compression = str "none" /\ logical = payload).

(** The members the end of the constructor leaves alone. *)
Definition same_header (b b' : bundle) : Prop :=
  path_ b' = path_ b /\ signed_archive b' = signed_archive b /\ signature_verified b' = signature_verified b /\
  payload_offset b' = payload_offset b /\ compression b' = compression b /\ signer_pubkey b' = signer_pubkey b /\
  fonts b' = fonts b.

Lemma same_header_refl b : same_header b b.
Proof. by split_and!. Qed.

(** The end of the constructor: an exception from the buffer of the declared size,
    or a bundle; a valid one has all its entries in the logical payload. *)
Lemma finish_bundle_spec payload es b :
  Forall (fun e => 0 <= offset e.2 /\ 0 <= size e.2) es -> index b = [] -> names b = [] -> valid b = false ->
  finish_bundle_ payload es b = Throw "resize" \/
  exists b', finish_bundle_ payload es b = Ret b' /\ same_header b b' /\
    (valid b' = true <-> exists logical, logical_payload payload logical (compression b) /\ Forall (in_range (zlen logical)) es) /\
    (valid b' = true -> index b' = emplace_all es [] /\ names b' = es.*1 /\
       forall logical, logical_payload payload logical (compression b) ->
         compression b = str "zstd" -> decompressed_payload b' = logical).
Proof.
  intros Hes Hi Hn Hv. unfold finish_bundle, logical_payload. case_bool_decide as Hz.
  - destruct (decompress_ payload) as [[out|]|w| |] eqn:Ed; cbn [mbind outcome_bind].
    + destruct (add_entries _ _ _) as [ok b'] eqn:Ea. right. eexists. split; [done|].
      apply (add_entries_spec _ _ _ _ _ Hes) in Ea as (Hok & H1 & H2 & H3 & H4 & H5 & H6 & H7 & H8 & H9 & H10).
      cbn in *. rewrite Hi, Hn in H10. split_and!; [by split_and!| |].
      * rewrite Hok. split.
        -- intros F. exists out. split; [by left|done].
        -- intros (lg & [[_ E]|[E _]] & F); [by simplify_eq|]. rewrite Hz in E. vm_compute in E. done.
      * intros Et. destruct (H10 Et) as [-> ->]. split_and!; [done|done|].
        intros lg [[_ E]|[E _]] _; [by simplify_eq|]. rewrite Hz in E. vm_compute in E. done.
    + right. eexists. split; [done|]. split_and!; [apply same_header_refl| |by rewrite Hv].
      rewrite Hv. split; [done|]. intros (lg & [[_ E]|[E _]] & F); [done|]. rewrite Hz in E. vm_compute in E. done.
    + left. unfold decompress_payload in Ed. repeat case_match; by simplify_eq.
    + unfold decompress_payload in Ed. repeat case_match; by simplify_eq.
    + unfold decompress_payload in Ed. repeat case_match; by simplify_eq.
  - right. case_bool_decide as Hno; cbn [negb].
    + destruct (add_entries _ _ _) as [ok b'] eqn:Ea. eexists. split; [done|].
      apply (add_entries_spec _ _ _ _ _ Hes) in Ea as (Hok & H1 & H2 & H3 & H4 & H5 & H6 & H7 & H8 & H9 & H10).
      cbn in *. rewrite Hi, Hn in H10. split_and!; [by split_and!| |].
      * rewrite Hok. split.
        -- intros F. exists payload. split; [by right|done].
        -- by intros (lg & [[E _]|[_ ->]] & F).
      * intros Et. destruct (H10 Et) as [-> ->]. by split_and!.
    + eexists. split; [done|]. split_and!; [apply same_header_refl| |by rewrite Hv].
      rewrite Hv. split; [done|]. by intros (lg & [[E _]|[E _]] & F).
Qed.
End Reading.

(** * Proofs: packing *)

Section Packing.
Context (has_zstd : bool) (sha256 : bytes -> bytes) (base642bin : bytes -> option (bytes * bytes))
        (sk_to_pk : bytes -> option bytes) (sign_detached : bytes -> bytes -> option bytes)
        (zstd_compress : bytes -> option bytes) (appendable : bytes -> bool).
Notation pack_files_ := (pack_files has_zstd sha256 base642bin sk_to_pk sign_detached zstd_compress appendable).
Notation parse_signing_keys_ := (parse_signing_keys base642bin sk_to_pk).

(** The public key the signer is checked against, in Base64; empty for none. *)
Definition signing_public (meta : manifest_metadata) (opts : pack_options) : bytes :=
  if bool_decide (public_key_b64 opts <> []) then public_key_b64 opts
  else if bool_decide (signer_public_key_b64 meta <> []) then signer_public_key_b64 meta else meta_public_key meta.

Lemma parse_signing_keys_inv meta opts sk pk : parse_signing_keys_ meta opts = inr (sk, pk) ->
  sk_to_pk sk = Some pk /\
  (signing_public meta opts <> [] -> base64_decode base642bin (signing_public meta opts) = Some pk).
Proof.
  unfold parse_signing_keys. fold (signing_public meta opts). intros E.
  destruct (base64_decode base642bin _) as [s|] eqn:Es; [|done]. destruct (negb (zlen s =? 64)); [done|].
  destruct (sk_to_pk s) as [d|] eqn:Ed; [|done]. case_bool_decide as Ep.
  - injection E as <- <-. split; [done|]. by rewrite Ep.
  - destruct (base64_decode base642bin (signing_public meta opts)) as [p|]; [|done].
    destruct (negb (zlen p =? 32)); [done|]. case_bool_decide as Epd; [|done]. cbn [negb] in E.
    injection E as <- <-. by rewrite Epd in *.
Qed.

(** The key the manifest names and the key the signer is checked against agree. *)
Definition keys_agree (meta : manifest_metadata) (opts : pack_options) : Prop :=
  meta_public_key meta = [] \/ signing_public meta opts = meta_public_key meta.

Lemma manifest_key_signer meta opts sk pk : keys_agree meta opts -> parse_signing_keys_ meta opts = inr (sk, pk) ->
  manifest_public_key meta opts <> [] -> base64_decode base642bin (manifest_public_key meta opts) = Some pk.
Proof.
  intros Ha E Hne. apply parse_signing_keys_inv in E as [_ E].
  assert (Em : manifest_public_key meta opts = signing_public meta opts); [|by rewrite Em in *; apply E].
  destruct Ha as [Ha|Ha]; unfold manifest_public_key in *.
  - unfold signing_public. rewrite Ha in *. by repeat case_bool_decide.
  - rewrite Ha. destruct (decide (meta_public_key meta = [])) as [H|H]; [|by rewrite bool_decide_eq_true_2].
    rewrite bool_decide_eq_false_2 by auto. unfold signing_public in Ha. repeat case_bool_decide; congruence.
Qed.


End Packing.

(** * Properties *)

Section Roundtrip.
Context (has_zstd : bool) (max_items max_pairs max_keys max_alloc : Z) (sha256 : bytes -> bytes)
        (base642bin : bytes -> option (bytes * bytes)) (sk_to_pk : bytes -> option bytes)
        (sign_detached : bytes -> bytes -> option bytes) (verify_detached : bytes -> bytes -> bytes -> bool)
        (zstd_compress : bytes -> option bytes) (zstd_size : bytes -> option Z)
        (zstd_decompress : Z -> bytes -> option bytes) (appendable : bytes -> bool).
(** The secret keys [crypto_sign_keypair] makes: 32 secret bytes and the public key
    that belongs to them. Other strings of 64 bytes pass for secret keys too. *)
Context (genuine : bytes -> Prop).
Notation pack_files_ := (pack_files has_zstd sha256 base642bin sk_to_pk sign_detached zstd_compress appendable).
Notation open_bundle_ :=
  (open_bundle has_zstd max_items max_pairs max_keys max_alloc base642bin verify_detached zstd_size zstd_decompress).



(** The manifest names no key, or the signer's: what the reader requires of a signed
    archive, and the packer does not check. *)
Definition names_signer (meta : manifest_metadata) (opts : pack_options) : Prop :=
  sign opts = true -> forall sk pk, parse_signing_keys base642bin sk_to_pk meta opts = inr (sk, pk) ->
  manifest_public_key meta opts = [] \/ base64_decode base642bin (manifest_public_key meta opts) = Some pk.


(** It is enough that the metadata name no key or the one given for the signer. *)
Lemma keys_agree_names_signer meta opts : keys_agree meta opts -> names_signer meta opts.
Proof.
  intros Ha _ sk pk Ek. destruct (decide (manifest_public_key meta opts = [])); [by left|right].
  by eapply manifest_key_signer.
Qed.






Lemma logical_payload_fun payload l1 l2 c :
  logical_payload max_alloc has_zstd zstd_size zstd_decompress payload l1 c ->
  logical_payload max_alloc has_zstd zstd_size zstd_decompress payload l2 c -> l1 = l2.
Proof.
  intros [[-> E1]|[-> ->]] [[E E2]|[E ->]]; try done; try by vm_compute in E. rewrite E1 in E2. congruence.
Qed.


End Roundtrip.

(** * Proofs: any file *)

Section AnyManifest.
Context (max_items max_pairs max_keys : Z).
Notation wf_ := (wf max_items max_pairs max_keys).

Definition entry_nonneg (e : bytes * entry) : Prop := 0 <= offset e.2 /\ 0 <= size e.2.

Lemma cbor_u64_nonneg m k n : wf_ (VMap m) -> cbor_u64 m k = Some n -> 0 <= n.
Proof.
  unfold cbor_u64. intros Hm E. destruct (map_find k m) as [v|] eqn:Ef; [|done].
  apply (map_find_wf _ _ _ Hm) in Ef. destruct v; try done.
  - destruct (Z.leb_spec 0 n0); [|done]. by injection E as <-.
  - injection E as <-. cbn in Ef. unfold uint64_ok in Ef. lia.
Qed.

Lemma parse_entry_nonneg v e : wf_ v -> parse_entry v = Some e -> entry_nonneg e.
Proof.
  unfold parse_entry. intros Hv E. destruct v as [| | | | | | |m|]; cbn [cbor_map_value] in E; try done.
  destruct (cbor_text m _); [|done]. destruct (cbor_u64 m (str "offset")) as [o|] eqn:Eo; [|done].
  destruct (cbor_u64 m (str "size")) as [s|] eqn:Es; [|done]. injection E as <-.
  split; cbn; by eapply cbor_u64_nonneg.
Qed.

Lemma parse_root_nonneg root p : wf_ (VMap root) -> parse_root root = Some p -> Forall entry_nonneg (m_entries p).
Proof.
  unfold parse_root. intros Hr E. repeat (destruct (cbor_text root _); [|done]).
  destruct (cbor_array_value root _) as [vs|] eqn:El; [|done]. do 2 (match type of E with context [if ?c then None else _] => destruct c; [done|] end).
  destruct (parse_fonts root); [|done]. cbn in E. destruct (mapM parse_entry vs) as [es|] eqn:Em; [|done].
  cbn in E. injection E as <-. cbn [m_entries].
  unfold cbor_array_value in El. destruct (map_find _ root) as [v|] eqn:Ef; [|done].
  apply (map_find_wf _ _ _ Hr) in Ef. destruct v; try done. injection El as ->.
  destruct Ef as [_ Ef]. apply foldr_and_Forall in Ef. apply mapM_Some_1 in Em. clear Hr.
  induction Em as [|v e vs' es Ee Em IH]; [constructor|]. apply Forall_cons in Ef as [Ev El].
  constructor; [by eapply parse_entry_nonneg|by apply IH].
Qed.

Lemma parse_manifest_cases bs : is_bytes bs -> zlen bs < 2 ^ 64 ->
  parse_manifest max_items max_pairs max_keys bs = Throw "reserve" \/
  exists r, parse_manifest max_items max_pairs max_keys bs = Ret r /\
    forall p, r = Some p -> Forall entry_nonneg (m_entries p).
Proof.
  intros Hb Hl. unfold parse_manifest.
  destruct (decode_cases max_items max_pairs max_keys bs Hb Hl) as [->|([v|] & -> & Hv)]; [by left|right..].
  - eexists. split; [done|]. intros p Hp. destruct v; try done. eapply parse_root_nonneg; [|exact Hp]. by apply Hv.
  - by exists None.
Qed.
End AnyManifest.

Lemma zsub_cut off n m off' n' (l : bytes) : off' = off + m -> n' = n - m -> 0 <= off -> 0 <= m <= n ->
  zsub off n l = zsub off m l ++ zsub off' n' l.
Proof. intros -> -> ? ?. by apply zsub_split. Qed.

(** A trailer with the magic and the version is a signed prefix, a signature and a
    public key. *)
Lemma trailer_decompose t f mo ms po ps : is_bytes t -> zlen t = 144 -> take 8 t = k_magic ->
  read_u32 t 8 = Ret k_version -> read_u32 t 12 = Ret f -> read_u64 t 16 = Ret mo -> read_u64 t 24 = Ret ms ->
  read_u64 t 32 = Ret po -> read_u64 t 40 = Ret ps ->
  t = make_signed_prefix f mo ms po ps ++ zsub 48 64 t ++ zsub 112 32 t.
Proof.
  intros Hb Hl Hm Hv Hf Hmo Hms Hpo Hps.
  apply (read_u32_inv _ _ _ Hb) in Hv as (_ & _ & Hv), Hf as (_ & _ & Hf).
  apply (read_u64_inv _ _ _ Hb) in Hmo as (_ & _ & Hmo), Hms as (_ & _ & Hms), Hpo as (_ & _ & Hpo), Hps as (_ & _ & Hps).
  assert (Hm' : zsub 0 8 t = k_magic) by (unfold zsub, zdrop, ztake; by rewrite drop_0).
  transitivity (zsub 0 144 t); [symmetry; apply zsub_all; lia|].
  rewrite (zsub_cut 0 144 8 8 136), (zsub_cut 8 136 4 12 132), (zsub_cut 12 132 4 16 128), (zsub_cut 16 128 8 24 120),
    (zsub_cut 24 120 8 32 112), (zsub_cut 32 112 8 40 104), (zsub_cut 40 104 8 48 96), (zsub_cut 48 96 64 112 32) by lia.
  rewrite Hm', Hv, Hf, Hmo, Hms, Hpo, Hps. unfold make_signed_prefix. by rewrite <- !app_assoc.
Qed.

Lemma map_find_keys {V} k (l : list (bytes * V)) : map_find k l = None <-> k ∉ l.*1.
Proof.
  induction l as [|[k' v] l IH]; cbn; [split; [by intros _ ?%elem_of_nil|done]|]. rewrite not_elem_of_cons, <- IH.
  case_bool_decide; naive_solver.
Qed.

Section Opening.
Context (has_zstd : bool) (max_items max_pairs max_keys max_alloc : Z)
        (base642bin : bytes -> option (bytes * bytes)) (verify_detached : bytes -> bytes -> bytes -> bool)
        (zstd_size : bytes -> option Z) (zstd_decompress : Z -> bytes -> option bytes).
Notation open_bundle_ :=
  (open_bundle has_zstd max_items max_pairs max_keys max_alloc base642bin verify_detached zstd_size zstd_decompress).
Notation finish_bundle_ := (finish_bundle has_zstd max_alloc zstd_size zstd_decompress).

(** The layout of an archive: host binary, payload, manifest, trailer. *)
Definition laid_out (file before payload manifest : bytes) (flags : Z) (sig pk : bytes) : Prop :=
  0 <= flags < 2 ^ 32 /\ length sig = 64%nat /\ length pk = 32%nat /\
  file = before ++ payload ++ manifest ++
         make_signed_prefix flags (zlen before + zlen payload) (zlen manifest) (zlen before) (zlen payload) ++ sig ++ pk.

(** What the signature covers. *)
Definition signed_message (before payload manifest : bytes) (flags : Z) : bytes :=
  make_signed_prefix flags (zlen before + zlen payload) (zlen manifest) (zlen before) (zlen payload) ++ manifest ++ payload.

(** The file's sections when its trailer passes the range check. *)
Lemma laid_out_intro file f mo ms po ps : is_bytes file -> zlen file < 2 ^ 63 -> 144 <= zlen file ->
  let t := zsub (zlen file - 144) 144 file in
  0 <= f < 2 ^ 32 -> 0 <= mo < 2 ^ 64 -> 0 <= ms < 2 ^ 64 -> 0 <= po < 2 ^ 64 -> 0 <= ps < 2 ^ 64 ->
  t = make_signed_prefix f mo ms po ps ++ zsub 48 64 t ++ zsub 112 32 t ->
  mo <= zlen file - 144 -> ms <= zlen file - 144 -> po <= mo -> u64 (po + ps) = mo -> u64 (mo + ms) = zlen file - 144 ->
  po + ps = mo /\ mo + ms = zlen file - 144 /\
  laid_out file (zsub 0 po file) (zsub po ps file) (zsub mo ms file) f (zsub 48 64 t) (zsub 112 32 t).
Proof.
  intros Hb Hl Hn t Hf Hmo Hms Hpo Hps Ht H1 H2 H3 H4 H5.
  assert (E1 : po + ps = mo) by (unfold wrap in H4; dlia).
  assert (E2 : mo + ms = zlen file - 144) by (rewrite u64_small in H5; lia).
  split_and!; [done|done|]. assert (Hlt : zlen t = 144) by (unfold t; apply zlen_zsub; lia).
  unfold laid_out. rewrite !zlen_zsub by lia. rewrite E1. split_and!; [lia|lia|..].
  - pose proof (zlen_zsub 48 64 t). lia.
  - pose proof (zlen_zsub 112 32 t). lia.
  - rewrite <- Ht. unfold t. transitivity (zsub 0 (zlen file) file); [symmetry; apply zsub_all; lia|].
    by rewrite (zsub_cut 0 (zlen file) po po (zlen file - po)), (zsub_cut po (zlen file - po) ps mo (zlen file - mo)),
      (zsub_cut mo (zlen file - mo) ms (zlen file - 144) 144) by lia.
Qed.

(** Every field of a trailer can be read. *)
Lemma trailer_reads t : is_bytes t -> zlen t = 144 -> exists v f mo ms po ps,
  read_u32 t 8 = Ret v /\ read_u32 t 12 = Ret f /\ read_u64 t 16 = Ret mo /\ read_u64 t 24 = Ret ms /\
  read_u64 t 32 = Ret po /\ read_u64 t 40 = Ret ps /\
  0 <= f < 2 ^ 32 /\ 0 <= mo < 2 ^ 64 /\ 0 <= ms < 2 ^ 64 /\ 0 <= po < 2 ^ 64 /\ 0 <= ps < 2 ^ 64.
Proof.
  intros Hb Hl.
  assert (R4 : forall off, 0 <= off -> off + 4 <= 144 -> exists v, read_u32 t off = Ret v /\ 0 <= v < 2 ^ 32).
  { intros off ? ?. unfold read_u32. rewrite sub_Ret by lia. eexists. split; [reflexivity|].
    pose proof (le_value_bound (zsub off 4 t) ltac:(auto with fxe)) as B. rewrite zlen_zsub in B by lia. exact B. }
  assert (R8 : forall off, 0 <= off -> off + 8 <= 144 -> exists v, read_u64 t off = Ret v /\ 0 <= v < 2 ^ 64).
  { intros off ? ?. unfold read_u64. rewrite sub_Ret by lia. eexists. split; [reflexivity|].
    pose proof (le_value_bound (zsub off 8 t) ltac:(auto with fxe)) as B. by rewrite zlen_zsub in B by lia. }
  destruct (R4 8) as (v & ? & ?), (R4 12) as (f & ? & ?); [lia..|].
  destruct (R8 16) as (mo & ? & ?), (R8 24) as (ms & ? & ?), (R8 32) as (po & ? & ?), (R8 40) as (ps & ? & ?); [lia..|].
  exists v, f, mo, ms, po, ps. split_and!; (assumption || lia).
Qed.

(** The constructor on any file: an invalid bundle, an exception from the manifest's
    decoder, or the end of the constructor on an archive laid out as the packer
    lays them out. *)
Lemma open_cases path disk file : disk !! path = Some file -> is_bytes file -> zlen file < 2 ^ 63 ->
  open_bundle_ path disk = Throw "reserve" \/
  (exists b, open_bundle_ path disk = Ret b /\ valid b = false /\ signature_verified b = false) \/
  exists before payload manifest flags sig pk parsed,
    laid_out file before payload manifest flags sig pk /\
    parse_manifest max_items max_pairs max_keys manifest = Ret (Some parsed) /\
    let signed := negb (Z.land flags k_signed_flag =? 0) in
    open_bundle_ path disk = finish_bundle_ payload (m_entries parsed)
      (MkBundle path false signed (signed && verify_detached sig (signed_message before payload manifest flags) pk)
         (zlen before) (m_compression parsed) (m_payload_sha256 parsed) (if signed then pk else []) [] [] []
         (m_fonts parsed)).
Proof.
  intros Hd Hb Hl. unfold open_bundle. rewrite Hd. destruct (Z.ltb_spec (zlen file) k_trailer_size); [by right; left; eexists|].
  unfold k_trailer_size in *. rewrite sub_Ret, bind_Ret by lia. set (t := zsub (zlen file - 144) 144 file).
  assert (Hlt : zlen t = 144) by (unfold t; apply zlen_zsub; lia).
  assert (Hbt : is_bytes t) by (unfold t; auto with fxe).
  case_bool_decide as Hm; [cbn [negb]|by right; left; eexists].
  destruct (trailer_reads t Hbt Hlt) as (v & f & mo & ms & po & ps & Ev & Ef & Emo & Ems & Epo & Eps & ? & ? & ? & ? & ?).
  rewrite Ev, bind_Ret. destruct (Z.eqb_spec v k_version) as [->|]; [cbn [negb]|by right; left; eexists].
  rewrite Ef, bind_Ret, Emo, bind_Ret, Ems, bind_Ret, Epo, bind_Ret, Eps, bind_Ret.
  destruct (Z.ltb_spec (zlen file - 144) mo); [by right; left; eexists|].
  destruct (Z.ltb_spec (zlen file - 144) ms); [by right; left; eexists|].
  destruct (Z.ltb_spec mo po); [by right; left; eexists|].
  destruct (Z.eqb_spec (u64 (po + ps)) mo) as [E4|]; [|by right; left; eexists].
  destruct (Z.eqb_spec (u64 (mo + ms)) (zlen file - 144)) as [E5|]; [cbn [orb negb]|by right; left; eexists].
  pose proof (trailer_decompose t f mo ms po ps Hbt Hlt Hm Ev Ef Emo Ems Epo Eps) as Et.
  destruct (laid_out_intro file f mo ms po ps) as (E1 & E2 & Hlay); [done|done|lia|done|done|done|done|done|exact Et|done..|].
  fold t in Hlay. rewrite E1, !sub_Ret by lia. rewrite !bind_Ret.
  assert (Hlb : zlen (zsub 0 po file) = po /\ zlen (zsub po ps file) = ps /\ zlen (zsub mo ms file) = ms)
    by (rewrite !zlen_zsub by lia; done).
  destruct (parse_manifest_cases max_items max_pairs max_keys (zsub mo ms file)) as [Ep|([parsed|] & Ep & _)];
    [auto with fxe|lia|rewrite Ep; by left|rewrite Ep, bind_Ret|rewrite Ep, bind_Ret; by right; left; eexists].
  rewrite !bind_Ret. destruct (Z.land f k_signed_flag =? 0) eqn:Esg; cbn [negb].
  - right; right. eexists _, _, _, f, _, _, parsed. split_and!; [exact Hlay|exact Ep|]. cbv zeta.
    rewrite Esg. cbn [negb andb]. by destruct Hlb as (-> & _).
  - destruct (negb (bool_decide (m_signature_algorithm parsed = [])) && _); [by right; left; eexists|].
    destruct (negb (bool_decide (m_public_key parsed = [])) && _); [by right; left; eexists|].
    right; right. eexists _, _, _, f, _, _, parsed. split_and!; [exact Hlay|exact Ep|]. cbv zeta.
    rewrite Esg. unfold signed_message. destruct Hlb as (-> & -> & ->). by rewrite E1.
Qed.

Lemma logical_payload_bounded payload logical c : zlen payload <= max_alloc ->
  logical_payload max_alloc has_zstd zstd_size zstd_decompress payload logical c -> zlen logical <= max_alloc.
Proof.
  intros Hp [[_ E]|[_ ->]]; [|done]. unfold decompress_payload in E. destruct (negb has_zstd); [done|].
  destruct (zstd_size payload) as [n|]; [|done]. destruct (Z.ltb_spec max_alloc n); [done|].
  destruct (zstd_decompress n payload) as [out|]; [|done]. injection E as E.
  destruct (Z.eqb_spec (zlen out) n); [|done]. injection E as <-. lia.
Qed.

(** A valid bundle was opened from an archive laid out as the packer lays them out,
    and its entries are in its logical payload. *)
Lemma open_valid path disk file : disk !! path = Some file -> is_bytes file -> zlen file <= max_alloc < 2 ^ 63 ->
  open_bundle_ path disk = Throw "reserve" \/ open_bundle_ path disk = Throw "resize" \/
  exists b, open_bundle_ path disk = Ret b /\ (valid b = true ->
    exists before payload manifest flags sig pk parsed logical,
      laid_out file before payload manifest flags sig pk /\
      parse_manifest max_items max_pairs max_keys manifest = Ret (Some parsed) /\
      logical_payload max_alloc has_zstd zstd_size zstd_decompress payload logical (m_compression parsed) /\
      signed_archive b = negb (Z.land flags k_signed_flag =? 0) /\
      signature_verified b = signed_archive b && verify_detached sig (signed_message before payload manifest flags) pk /\
      signer_pubkey b = (if signed_archive b then pk else []) /\
      index b = emplace_all (m_entries parsed) [] /\ list_names b = (m_entries parsed).*1 /\
      Forall (in_range (zlen logical)) (m_entries parsed) /\
      zlen logical <= max_alloc /\ backed_by b disk logical).
Proof.
  intros Hd Hb [Hl Ha]. destruct (open_cases path disk file Hd Hb ltac:(lia))
    as [E|[(b & E & Hv & _)|(before & payload & manifest & flags & sig & pk & parsed & Hlay & Hp & E)]].
  - by left.
  - right; right. exists b. by rewrite Hv.
  - cbv zeta in E. set (b := MkBundle path _ _ _ _ _ _ _ _ _ _ _) in E.
    assert (Hfile : file = before ++ payload ++ (manifest ++ make_signed_prefix flags (zlen before + zlen payload)
      (zlen manifest) (zlen before) (zlen payload) ++ sig ++ pk)) by apply Hlay.
    assert (Hm : is_bytes manifest /\ zlen manifest < 2 ^ 64 /\ zlen payload <= max_alloc).
    { rewrite Hfile in Hl, Hb. rewrite !length_app in Hl. unfold is_bytes in Hb. rewrite !Forall_app in Hb.
      split_and!; [apply Hb|lia|lia]. }
    destruct Hm as (Hmb & Hml & Hpl).
    destruct (parse_manifest_cases max_items max_pairs max_keys manifest Hmb Hml) as [Hc|(r & Hc & Hes)];
      rewrite Hp in Hc; [done|]. injection Hc as <-. specialize (Hes _ eq_refl).
    destruct (finish_bundle_spec max_alloc has_zstd zstd_size zstd_decompress payload (m_entries parsed) b Hes)
      as [E'|(b' & E' & Hh & Hval & Hok)]; [done..|right; left; congruence|].
    right; right. exists b'. split; [congruence|]. intros Hv. destruct (Hok Hv) as (Hix & Hnm & Hdec).
    apply Hval in Hv as (logical & Hlog & Hr). destruct Hh as (H1 & H2 & H3 & H4 & H5 & H6 & H7).
    change (path_ b) with path in H1. change (payload_offset b) with (zlen before) in H4.
    exists before, payload, manifest, flags, sig, pk, parsed, logical.
    rewrite H2, H3, H6. split_and!; try done; [by eapply logical_payload_bounded|]. unfold backed_by.
    specialize (Hdec _ Hlog). destruct Hlog as [[E1 _]|[E1 ->]]; rewrite H5; [by left; auto|right].
    split; [done|]. eexists before, _. rewrite H1, H4. split_and!; [by rewrite Hd, Hfile|done|]. rewrite Hfile in Hl. lia.
Qed.

(** C14. Opening any file is safe: whatever its bytes, the constructor reads nothing
    outside it and ends in a bundle, or in an exception when the manifest declares
    more items, or the compressed frame more bytes, than can be allocated.  Reading
    from the bundle never fails otherwise.  An invalid bundle has no entry.  A valid
    one was opened from a file laid out as host binary, payload, manifest and
    trailer; the names it lists are the manifest's, and reading a name gives exactly
    the bytes that the manifest's first entry of that name cuts out of the payload,
    or of what the payload decompresses to, all of them in range. *)
Theorem open_bundle_safe path disk : max_alloc < 2 ^ 63 ->
  (forall file, disk !! path = Some file -> is_bytes file /\ zlen file <= max_alloc) ->
  open_bundle_ path disk = Throw "reserve" \/ open_bundle_ path disk = Throw "resize" \/
  exists b, open_bundle_ path disk = Ret b /\
    (valid b = false -> forall name, read_entry max_alloc name b disk = Ret None) /\
    (valid b = true -> exists file before payload manifest flags sig pk parsed logical,
       disk !! path = Some file /\ laid_out file before payload manifest flags sig pk /\
       parse_manifest max_items max_pairs max_keys manifest = Ret (Some parsed) /\
       logical_payload max_alloc has_zstd zstd_size zstd_decompress payload logical (m_compression parsed) /\
       list_names b = (m_entries parsed).*1 /\ Forall (in_range (zlen logical)) (m_entries parsed) /\
       forall name, read_entry max_alloc name b disk =
         Ret (e ← map_find name (m_entries parsed); Some (zsub (offset e) (size e) logical))).
Proof.
  intros Ha Hf. destruct (disk !! path) as [file|] eqn:Ed.
  2: { right; right. exists (empty_bundle path). split; [unfold open_bundle; by rewrite Ed|]. by split. }
  destruct (Hf _ eq_refl) as [Hb Hl]. destruct (open_valid path disk file Ed Hb ltac:(lia)) as [E|[E|(b & E & Hv)]];
    [by left|by right; left|right; right]. exists b. split; [done|]. split.
  { intros Ev name. unfold read_entry. by rewrite Ev. }
  intros Ev. destruct (Hv Ev) as (before & payload & manifest & flags & sig & pk & parsed & logical & Hlay & Hp & Hlg &
    _ & _ & _ & Hix & Hnm & Hr & Hlog & Hbk).
  exists file, before, payload, manifest, flags, sig, pk, parsed, logical. split_and!; try done.
  intros name. by apply read_entry_spec.
Qed.

Lemma signed_prefix_inj f mo ms po ps f' mo' ms' po' ps' r r' : 0 <= f < 2 ^ 32 -> 0 <= f' < 2 ^ 32 ->
  Forall (fun x => 0 <= x < 2 ^ 64) [mo; ms; po; ps; mo'; ms'; po'; ps'] ->
  make_signed_prefix f mo ms po ps ++ r = make_signed_prefix f' mo' ms' po' ps' ++ r' ->
  f = f' /\ mo = mo' /\ ms = ms' /\ po = po' /\ ps = ps' /\ r = r'.
Proof.
  intros Hf Hf' Hb E. rewrite !Forall_cons in Hb. destruct Hb as (? & ? & ? & ? & ? & ? & ? & ? & _).
  destruct (signed_prefix_fields f mo ms po ps r) as (_ & _ & A1 & A2 & A3 & A4 & A5); [done..|].
  destruct (signed_prefix_fields f' mo' ms' po' ps' r') as (_ & _ & B1 & B2 & B3 & B4 & B5); [done..|].
  rewrite E in *. apply app_inj_1 in E as [_ ->]; [|by rewrite !length_signed_prefix].
  simplify_eq. split_and!; congruence.
Qed.

(** C15. A release build without the override mounts only authenticated archives: the
    mounted file is the host binary, the payload, the manifest and a trailer whose
    signature verifies under the bundle's signer key on a message that determines
    the flags, the host binary's size, the manifest and the payload, so that no
    other archive can reuse the signature. *)
Theorem release_mount_authentic path disk file b : max_alloc < 2 ^ 63 ->
  disk !! path = Some file -> is_bytes file -> zlen file <= max_alloc ->
  open_bundle_ path disk = Ret b -> mounts true false b = true ->
  exists before payload manifest flags sig pk, laid_out file before payload manifest flags sig pk /\
    signer_pubkey b = pk /\ verify_detached sig (signed_message before payload manifest flags) pk = true /\
    forall file' before' payload' manifest' flags' sig' pk', zlen file' <= max_alloc ->
      laid_out file' before' payload' manifest' flags' sig' pk' ->
      signed_message before' payload' manifest' flags' = signed_message before payload manifest flags ->
      flags' = flags /\ zlen before' = zlen before /\ payload' = payload /\ manifest' = manifest.
Proof.
  intros Ha Hd Hb Hl E Hm. destruct (open_valid path disk file Hd Hb ltac:(lia)) as [E'|[E'|(b' & E' & Hv)]];
    rewrite E in E'; [done..|]. injection E' as <-. unfold mounts in Hm. apply andb_true_iff in Hm as [Hval Hm].
  destruct (Hv Hval) as (before & payload & manifest & flags & sig & pk & _ & _ & Hlay & _ & _ & Hs & Hver & Hpk & _).
  destruct (signed_archive b); [|done]. destruct (signature_verified b) eqn:Esv; [|done]. cbn [andb] in Hver.
  exists before, payload, manifest, flags, sig, pk. split_and!; [done|done|done|].
  intros file' before' payload' manifest' flags' sig' pk' Hl' (Hf' & _ & _ & ->) Es.
  destruct Hlay as (Hf & _ & _ & ->). rewrite !length_app in Hl, Hl'.
  apply signed_prefix_inj in Es as (-> & _ & Hms & -> & _ & Er); [|done|done|repeat constructor; lia].
  apply app_inj_1 in Er as [-> ->]; [done|]. lia.
Qed.
End Opening.

(** * Concrete inputs *)

(** Stand-ins that meet [libraries_ok]: a secret key ends with the public key, and
    belongs to it when it starts with it too; a signature is the first half and a
    checksum, a frame is its content after a marker. *)
Definition toy_sha256 (m : bytes) : bytes := replicate 32 (foldr Z.add 0 m mod 256).
Definition toy_base64 (s : bytes) : option (bytes * bytes) := Some (s, []).
Definition toy_sk_to_pk (sk : bytes) : option bytes :=
  if bool_decide (length sk = 64%nat) then Some (drop 32 sk) else None.
Definition toy_sign (sk m : bytes) : option bytes := Some (take 32 sk ++ toy_sha256 m).
Definition toy_verify (sig m pk : bytes) : bool := bool_decide (sig = pk ++ toy_sha256 m).
Definition toy_compress (x : bytes) : option bytes := Some (40 :: x).
Definition toy_size (y : bytes) : option Z := match y with 40 :: x => Some (zlen x) | _ => None end.
Definition toy_decompress (n : Z) (y : bytes) : option bytes := match y with 40 :: x => Some x | _ => None end.


Definition toy_public : bytes := str "0123456789abcdef0123456789ABCDEF".
Definition toy_key : bytes := toy_public ++ toy_public.
Definition toy_font : bundled_font := MkFont (str "Inter") (str "fonts/a.ttf") 400 (str "Normal").
Definition toy_meta (public_key : bytes) : manifest_metadata :=
  MkMetadata (str "app") (str "1.0") (str "main.ts") (str "now") [] [] public_key (str "stable") toy_key [] [toy_font].
Definition toy_disk : fs := <[str "bin" := str "ELF"]> (<[str "x" := [1; 2; 3]]> {[str "y" := [4; 5]]}).
Definition toy_files : list (bytes * bytes) := [(str "x", str "main.ts"); (str "y", str "b"); (str "y", str "main.ts")].
Definition toy_pack (meta : manifest_metadata) (opts : pack_options) : bytes + fs :=
  pack_files true toy_sha256 toy_base64 toy_sk_to_pk toy_sign toy_compress (fun _ => true)
    (str "bin") toy_files meta opts toy_disk.
Definition toy_open (disk : fs) : outcome bundle :=
  open_bundle true 1000 1000 1000 100000 toy_base64 toy_verify toy_size toy_decompress (str "bin") disk.
Definition toy_packed (meta : manifest_metadata) (opts : pack_options) : fs :=
  match toy_pack meta opts with inr disk => disk | inl _ => ∅ end.
Definition toy_archive : fs := toy_packed (toy_meta toy_public) (MkOptions true [] [] true).



Definition toy_file : bytes := default [] (toy_archive !! str "bin").

Lemma open_bundle_safe_witness : exists b, toy_open toy_archive = Ret b /\ valid b = true /\
  exists r, read_entry 100000 (str "b") b toy_archive = Ret (Some r).
Proof.
  destruct (open_bundle_safe true 1000 1000 1000 100000 toy_base64 toy_verify toy_size toy_decompress
              (str "bin") toy_archive) as [E|[E|(b & E & _ & Hr)]].
  - lia.
  - intros file E. vm_compute in E. injection E as <-.
    split; [apply (bool_decide_unpack _); vm_compute; exact I|vm_compute; discriminate].
  - vm_compute in E. discriminate.
  - vm_compute in E. discriminate.
  - assert (Ev : (fun o => match o with Ret b => valid b | _ => false end) (toy_open toy_archive) = true)
      by (vm_compute; reflexivity).
    assert (Eo : toy_open toy_archive = Ret b) by exact E. rewrite Eo in Ev. exists b. split; [exact E|]. split; [exact Ev|].
    destruct (Hr Ev) as (file & before & payload & manifest & flags & sig & pk & parsed & logical & _ & _ & _ & _ & Hn & _ & Hread).
    rewrite Hread. assert (Hin : (fun o => match o with Ret b => list_names b | _ => [] end) (toy_open toy_archive)
      = [str "main.ts"; str "b"; str "main.ts"]) by (vm_compute; reflexivity).
    rewrite Eo, Hn in Hin. destruct (map_find (str "b") (m_entries parsed)) as [e|] eqn:Ee; [eexists; reflexivity|].
    apply map_find_keys in Ee. exfalso. apply Ee. rewrite Hin.
    apply elem_of_cons. right. apply elem_of_cons. left. reflexivity.
Defined.

Lemma release_mount_authentic_witness : exists b before payload manifest flags sig pk,
  toy_open toy_archive = Ret b /\ laid_out toy_file before payload manifest flags sig pk /\
  toy_verify sig (signed_message before payload manifest flags) pk = true.
Proof.
  assert (Eb : exists b, toy_open toy_archive = Ret b /\ mounts true false b = true).
  { eexists. split; [vm_compute; reflexivity|vm_compute; reflexivity]. }
  destruct Eb as (b & Eb & Em).
  destruct (release_mount_authentic true 1000 1000 1000 100000 toy_base64 toy_verify toy_size toy_decompress
              (str "bin") toy_archive toy_file b)
    as (before & payload & manifest & flags & sig & pk & Hl & _ & Hv & _).
  - lia.
  - vm_compute. reflexivity.
  - apply (bool_decide_unpack _). vm_compute. exact I.
  - vm_compute. discriminate.
  - exact Eb.
  - exact Em.
  - exists b, before, payload, manifest, flags, sig, pk. split_and!; [exact Eb|apply Hl..|exact Hv].
Defined.

(** A manifest key other than the signer's, given with the signer's own public key as
    an option, passes the packer; the archive it leaves does not open. *)
Lemma other_manifest_key_refused :
  let disk := toy_packed (toy_meta (str "another key")) (MkOptions true [] (take 32 toy_key) false) in
  (exists file, disk !! str "bin" = Some file /\ (144 < zlen file)) /\
  exists b, toy_open disk = Ret b /\ valid b = false.
Proof.
  split; eexists; (split; [vm_compute; reflexivity|vm_compute; reflexivity]).
Qed.

(** The recorded digest of the payload is not compared with the payload: an unsigned
    archive whose payload was altered opens and is read as altered. *)
Lemma altered_payload_opens :
  let disk := toy_packed (toy_meta []) (MkOptions false [] [] false) in
  let altered := alter (fun file => take 3 file ++ [99] ++ drop 4 file) (str "bin") disk in
  exists b, toy_open altered = Ret b /\ (valid b, read_entry 100000 (str "main.ts") b altered) = (true, Ret (Some [99; 2; 3])).
Proof. eexists. split; [vm_compute; reflexivity|]. vm_compute. reflexivity. Qed.

(** A manifest that declares more items than can be allocated makes the constructor
    throw instead of leaving an invalid bundle. *)
Lemma hostile_manifest_throws :
  let manifest := [0x9b; 255; 255; 255; 255; 255; 255; 255; 255] in
  let disk := {[str "bin" := manifest ++ make_signed_prefix 0 0 9 0 0 ++ zero_bytes 96]} in
  toy_open disk = Throw "reserve".
Proof. vm_compute. reflexivity. Qed.
