(* ===== verification/Doubles.v ===== *)
(** IEEE doubles as the sources use them: the Standard Library's specification of
    binary floating point at 53 bits of precision, and the casts to 64-bit integers,
    which are undefined for a value whose integral part does not fit. *)

From S2P Require Import Prelude.
From Stdlib Require Export SpecFloat.

Notation double := spec_float.

Definition of_Z (n : Z) : double := binary_normalize 53 1024 n 0 false.
Definition fzero : double := S754_zero false.
Definition fmul : double -> double -> double := SFmul 53 1024.
Definition fdiv : double -> double -> double := SFdiv 53 1024.
Definition fltb : double -> double -> bool := SFltb.
Definition is_nan (x : double) : bool := match x with S754_nan => true | _ => false end.

(** The integral part; [None] for infinities and NaN. *)
Definition ftrunc (x : double) : option Z :=
  match x with
  | S754_zero _ => Some 0
  | S754_finite s m e =>
      let n := if 0 <=? e then Z.shiftl (Z.pos m) e else Z.shiftr (Z.pos m) (- e) in
      Some (if s then - n else n)
  | _ => None
  end.

(** [static_cast<i64>(x)], [static_cast<u64>(x)] *)
Definition cast_i64 (x : double) : outcome Z :=
  match ftrunc x with
  | Some n => if (- 2 ^ 63 <=? n) && (n <? 2 ^ 63) then Ret n else Ub
  | None => Ub
  end.

Definition cast_u64 (x : double) : outcome Z :=
  match ftrunc x with
  | Some n => if (0 <=? n) && (n <? 2 ^ 64) then Ret n else Ub
  | None => Ub
  end.

(** A product of a non-negative number and a positive one is not negative. *)
Definition nonneg (x : double) : Prop :=
  match x with S754_finite s _ _ => s = false | S754_infinity s => s = false | S754_zero _ => True | S754_nan => False end.

Lemma not_negative x : fltb x fzero = false -> is_nan x = false -> nonneg x.
Proof. by destruct x as [[]|[]| |[] m e]. Qed.

Lemma shr_1_nonneg r : 0 <= shr_m r -> 0 <= shr_m (shr_1 r).
Proof. destruct r as [[|[p|p|]|p] r s]; cbn; lia. Qed.

Lemma iter_pos_nonneg n r : 0 <= shr_m r -> 0 <= shr_m (iter_pos shr_1 n r).
Proof. revert r. induction n as [n IH|n IH|]; intros r Hr; cbn; auto using shr_1_nonneg. Qed.

Lemma shr_fexp_nonneg m e l : 0 <= m -> 0 <= shr_m (shr_fexp 53 1024 m e l).1.
Proof.
  intros Hm. unfold shr_fexp, shr. assert (0 <= shr_m (shr_record_of_loc m l)) by by destruct l as [|[]].
  destruct (fexp _ _ _ - e); cbn; auto using iter_pos_nonneg.
Qed.

Lemma round_aux_nonneg m e l : 0 <= m -> nonneg (binary_round_aux 53 1024 false m e l).
Proof.
  intros Hm. unfold binary_round_aux. pose proof (shr_fexp_nonneg m e l Hm) as H1.
  destruct (shr_fexp 53 1024 m e l) as [r e']. cbn [fst] in H1.
  assert (H2 : 0 <= round_nearest_even (shr_m r) (loc_of_shr_record r)).
  { unfold round_nearest_even. repeat case_match; lia. }
  pose proof (shr_fexp_nonneg _ e' loc_Exact H2) as H3.
  destruct (shr_fexp 53 1024 _ e' loc_Exact) as [r' e'']. cbn [fst] in H3.
  destruct (shr_m r') eqn:E; [done| |lia]. by destruct (_ <=? _).
Qed.

Lemma fmul_nonneg x m e : nonneg x -> nonneg (fmul x (S754_finite false m e)).
Proof.
  destruct x as [s|s| |s m' e']; cbn; try done; [by destruct s|]. intros ->. apply (round_aux_nonneg (Z.pos _)). lia.
Qed.

Lemma cast_i64_nonneg x n : nonneg x -> cast_i64 x = Ret n -> 0 <= n < 2 ^ 63.
Proof.
  intros Hx E. unfold cast_i64 in E. destruct (ftrunc x) as [k|] eqn:Ek; [|done].
  destruct (Z.leb_spec (- 2 ^ 63) k), (Z.ltb_spec k (2 ^ 63)); try done. injection E as <-.
  split; [|lia]. destruct x as [| | |s m e]; cbn in Ek; try done; [by injection Ek as <-|].
  injection Ek as <-. cbn in Hx. subst s. destruct (0 <=? e).
  - apply Z.shiftl_nonneg. lia.
  - apply Z.shiftr_nonneg. lia.
Qed.

Lemma cast_u64_range x n : cast_u64 x = Ret n -> 0 <= n < 2 ^ 64.
Proof.
  unfold cast_u64. intros E. destruct (ftrunc x) as [k|]; [|done].
  destruct (Z.leb_spec 0 k), (Z.ltb_spec k (2 ^ 64)); try done. injection E as <-. lia.
Qed.

(** * The interchange format *)

(** [std::isnan] on the 64 bits of a double. *)
Definition nan_bits (u : Z) : bool :=
  (Z.land (Z.shiftr u 52) 0x7ff =? 0x7ff) && negb (Z.land u (2 ^ 52 - 1) =? 0).

(** The double whose 64 bits are [u]. *)
Definition of_magnitude (s : bool) (e m : Z) : double :=
  if e =? 2047 then (if m =? 0 then S754_infinity s else S754_nan)
  else if e =? 0 then (if m =? 0 then S754_zero s else S754_finite s (Z.to_pos m) (-1074))
  else S754_finite s (Z.to_pos (m + 2 ^ 52)) (e - 1075).
Definition of_bits (u : Z) : double :=
  of_magnitude (2 ^ 63 <=? u) (u mod 2 ^ 63 / 2 ^ 52) (u mod 2 ^ 52).

(** The order of doubles on their bits: negative numbers come in reverse. *)
Definition bits_order (u : Z) : Z := if 2 ^ 63 <=? u then 2 ^ 64 - 1 - u else u + 2 ^ 63.

Lemma nan_bits_spec u : nan_bits u = (u mod 2 ^ 63 / 2 ^ 52 =? 2047) && negb (u mod 2 ^ 52 =? 0).
Proof.
  unfold nan_bits. change 0x7ff with (Z.ones 11). change (2 ^ 52 - 1) with (Z.ones 52).
  rewrite !land_ones_mod, shiftr_div by lia. change (Z.ones 11) with 2047. do 2 f_equal. dlia.
Qed.

Lemma of_magnitude_finite s e m : 0 <= e < 2047 -> ~ (e = 0 /\ m = 0) ->
  of_magnitude s e m = S754_finite s (Z.to_pos (if e =? 0 then m else m + 2 ^ 52)) (Z.max e 1 - 1075).
Proof.
  intros He Hz. unfold of_magnitude. destruct (Z.eqb_spec e 2047); [lia|]. destruct (Z.eqb_spec e 0) as [->|].
  - destruct (Z.eqb_spec m 0) as [->|]; [by destruct Hz|done].
  - by rewrite Z.max_l by lia.
Qed.

Lemma finite_compare e m e' m' : 0 <= e < 2047 -> 0 <= m < 2 ^ 52 -> 0 <= e' < 2047 -> 0 <= m' < 2 ^ 52 ->
  ~ (e = 0 /\ m = 0) -> ~ (e' = 0 /\ m' = 0) ->
  match Z.max e 1 - 1075 ?= Z.max e' 1 - 1075 with
  | Eq => Pos.compare_cont Eq (Z.to_pos (if e =? 0 then m else m + 2 ^ 52)) (Z.to_pos (if e' =? 0 then m' else m' + 2 ^ 52))
  | c => c
  end = (e * 2 ^ 52 + m ?= e' * 2 ^ 52 + m').
Proof.
  intros He Hm He' Hm' Hz Hz'.
  change (Pos.compare_cont Eq ?p ?q) with (Pos.compare p q).
  set (k := if e =? 0 then m else m + 2 ^ 52). set (k' := if e' =? 0 then m' else m' + 2 ^ 52).
  assert (Hk : 0 < k /\ k = m + (if e =? 0 then 0 else 2 ^ 52)) by (subst k; destruct (Z.eqb_spec e 0); lia).
  assert (Hk' : 0 < k' /\ k' = m' + (if e' =? 0 then 0 else 2 ^ 52)) by (subst k'; destruct (Z.eqb_spec e' 0); lia).
  clearbody k k'.
  rewrite Pos2Z.inj_compare, !Z2Pos.id by lia.
  destruct (Z.compare_spec (Z.max e 1 - 1075) (Z.max e' 1 - 1075)) as [E|E|E]; symmetry.
  - destruct (Z.eqb_spec e 0), (Z.eqb_spec e' 0); (destruct (Z.compare_spec k k'); [apply Z.compare_eq_iff|apply Z.compare_lt_iff|apply Z.compare_gt_iff]); lia.
  - apply Z.compare_lt_iff. destruct (Z.eqb_spec e 0), (Z.eqb_spec e' 0); lia.
  - apply Z.compare_gt_iff. destruct (Z.eqb_spec e 0), (Z.eqb_spec e' 0); lia.
Qed.

Definition signed (s : bool) (a : Z) : Z := if s then - a else a.

(** Doubles compare like their signed magnitudes. *)
Lemma magnitude_compare s e m s' e' m' : 0 <= e < 2048 -> 0 <= m < 2 ^ 52 -> 0 <= e' < 2048 -> 0 <= m' < 2 ^ 52 ->
  (e = 2047 -> m = 0) -> (e' = 2047 -> m' = 0) ->
  SFcompare (of_magnitude s e m) (of_magnitude s' e' m') =
    Some (signed s (e * 2 ^ 52 + m) ?= signed s' (e' * 2 ^ 52 + m')).
Proof.
  intros He Hm He' Hm' Hn Hn'.
  assert (C : forall s e m, 0 <= e < 2048 -> 0 <= m < 2 ^ 52 -> (e = 2047 -> m = 0) ->
    (e = 2047 /\ m = 0 /\ of_magnitude s e m = S754_infinity s) \/ (e = 0 /\ m = 0 /\ of_magnitude s e m = S754_zero s) \/
    (e < 2047 /\ ~ (e = 0 /\ m = 0))).
  { clear. intros s e m He Hm Hn. destruct (Z.eq_dec e 2047) as [->|]; [left; by rewrite Hn|right].
    destruct (Z.eq_dec e 0) as [->|]; [|right; lia]. destruct (Z.eq_dec m 0) as [->|]; [by left|right; lia]. }
  assert (L : forall x y, x < y -> (x ?= y) = Lt) by (intros; by apply Z.compare_lt_iff).
  assert (G : forall x y, y < x -> (x ?= y) = Gt) by (intros; by apply Z.compare_gt_iff).
  destruct (C s e m He Hm Hn) as [(-> & -> & E)|[(-> & -> & E)|[H1 H2]]];
    destruct (C s' e' m' He' Hm' Hn') as [(-> & -> & E')|[(-> & -> & E')|[H1' H2']]];
    rewrite ?E, ?E', ?(of_magnitude_finite s e m), ?(of_magnitude_finite s' e' m') by (lia || done);
    destruct s, s'; cbn [SFcompare signed]; f_equal; symmetry; try (apply L; lia); try (apply G; lia); try reflexivity.
  - rewrite Z.compare_opp, <- (finite_compare e' m' e m) by lia. rewrite Z.compare_antisym.
    destruct (_ ?= _); cbn; try done. change (Pos.compare_cont Eq ?p ?q) with (Pos.compare p q). by rewrite Pos.compare_antisym.
  - apply eq_sym, finite_compare; lia.
Qed.

Lemma bits_parts u : 0 <= u < 2 ^ 64 -> exists (s : bool) e m, 0 <= e < 2048 /\ 0 <= m < 2 ^ 52 /\
  u = (if s then 2 ^ 63 else 0) + (e * 2 ^ 52 + m) /\ of_bits u = of_magnitude s e m /\ nan_bits u = (e =? 2047) && negb (m =? 0).
Proof.
  intros Hu. exists (2 ^ 63 <=? u), (u mod 2 ^ 63 / 2 ^ 52), (u mod 2 ^ 52). rewrite nan_bits_spec.
  repeat split; try (destruct (Z.leb_spec (2 ^ 63) u); dlia).
Qed.

(** The bits of doubles that are numbers are ordered like the doubles; of the two zeros
    the negative one comes first. *)
Lemma bits_order_spec u w : 0 <= u < 2 ^ 64 -> 0 <= w < 2 ^ 64 -> nan_bits u = false -> nan_bits w = false ->
  bits_order u < bits_order w <-> fltb (of_bits u) (of_bits w) = true \/ u = 2 ^ 63 /\ w = 0.
Proof.
  intros Hu Hw Nu Nw. destruct (bits_parts u Hu) as (s & e & m & He & Hm & Eu & -> & Fu).
  destruct (bits_parts w Hw) as (s' & e' & m' & He' & Hm' & Ew & -> & Fw). rewrite Nu in Fu. rewrite Nw in Fw.
  unfold fltb, SFltb. rewrite magnitude_compare; try done.
  2: { intros ->. destruct (Z.eqb_spec m 0); [done|]. by rewrite Z.eqb_refl in Fu. }
  2: { intros ->. destruct (Z.eqb_spec m' 0); [done|]. by rewrite Z.eqb_refl in Fw. }
  assert (F : (match Some (signed s (e * 2 ^ 52 + m) ?= signed s' (e' * 2 ^ 52 + m')) with Some Lt => true | _ => false end) = true <->
    signed s (e * 2 ^ 52 + m) < signed s' (e' * 2 ^ 52 + m')).
  { split; intros H; [|by rewrite (proj2 (Z.compare_lt_iff _ _) H)].
    revert H. by destruct (Z.compare_spec (signed s (e * 2 ^ 52 + m)) (signed s' (e' * 2 ^ 52 + m'))). }
  rewrite F. unfold bits_order, signed.
  destruct s, s', (Z.leb_spec (2 ^ 63) u), (Z.leb_spec (2 ^ 63) w); lia.
Qed.

Lemma bits_order_inj u w : 0 <= u < 2 ^ 64 -> 0 <= w < 2 ^ 64 -> bits_order u = bits_order w -> u = w.
Proof. unfold bits_order. intros. destruct (Z.leb_spec (2 ^ 63) u), (Z.leb_spec (2 ^ 63) w); lia. Qed.

(** The bits of a double: the subnormal numbers have mantissas below 2^52. *)
Definition to_bits (x : double) : Z :=
  match x with
  | S754_zero s => if s then 2 ^ 63 else 0
  | S754_infinity s => (if s then 2 ^ 63 else 0) + 2047 * 2 ^ 52
  | S754_nan => 2047 * 2 ^ 52 + 2 ^ 51
  | S754_finite s m e =>
      (if s then 2 ^ 63 else 0) + (if Z.pos m <? 2 ^ 52 then Z.pos m else (e + 1075) * 2 ^ 52 + (Z.pos m - 2 ^ 52))
  end.
