(* ===== verification/Timers.v ===== *)
(** Timers and animation frames ([src/js/bind_timers.cpp]): the table of timers and
    the heap of their deadlines, the callbacks JavaScript calls, and the two drains of
    the event loop.

    A script is a parameter: what it does to the timers when one of its functions is
    called is some list of calls of the bound functions and whether it fails (the
    microtasks run after it included).  The steady clock is a parameter too, the
    sequence of its readings in nanoseconds. *)

From S2P Require Import Prelude Doubles.

(** Values of the engine the bindings distinguish; [Other] is an opaque handle. *)
Inductive jsvalue : Type := Fn (f : Z) | Num (d : double) | Other (v : Z).

Record timer_entry : Type := MkTimer {
  t_id : Z; t_deadline : Z; interval_ms : double; repeat_ : bool; t_fn : Z; t_args : list jsvalue }.

Record heap_node : Type := MkNode { n_deadline : Z; n_id : Z }.

(** [std::priority_queue] with [std::greater]: [pop] takes out some node of least
    deadline; which one of several is the library's choice. *)
Class PQueue : Type := {
  pq_push : heap_node -> list heap_node -> list heap_node;
  pq_pop : list heap_node -> option (heap_node * list heap_node) }.

Class PQueueLaws (Q : PQueue) : Prop := {
  pq_push_perm n h : pq_push n h ≡ₚ n :: h;
  pq_pop_nil h : pq_pop h = None -> h = [];
  pq_pop_min h n h' : pq_pop h = Some (n, h') -> h ≡ₚ n :: h' /\ Forall (fun m => n_deadline n <= n_deadline m) h' }.

Record iso_state : Type := MkIso {
  next_id : Z; active : gmap Z timer_entry; heap : list heap_node;
  next_raf_id : Z; raf_queue : list (Z * Z); raf_cancelled : list Z }.

Definition new_iso_state : iso_state := MkIso 1 ∅ [] 1 [] [].

(** A call from the event loop into the script: a timer's function with its
    arguments, or a frame's function with the time in milliseconds. *)
Inductive call : Type := TimerCall (id fn : Z) (args : list jsvalue) | FrameCall (id fn : Z) (now_ms : double).

(** The calls a script makes back: the bound functions with their arguments. *)
Inductive action : Type :=
| SetTimeout (info : list jsvalue)
| SetInterval (info : list jsvalue)
| SetImmediate (info : list jsvalue)
| ClearTimer (info : list jsvalue)
| QueueMicrotask (info : list jsvalue)
| RequestFrame (info : list jsvalue)
| CancelFrame (info : list jsvalue).

(** What a bound function returns or throws. *)
Inductive api_result : Type := Undefined | Number (d : double) | TypeError (what : bytes).

(** The timers of an isolate with the number of clock readings made and the calls
    made into the script, latest first. *)
Record world : Type := MkWorld { st : iso_state; reads : nat; log : list call }.

(** The states of the isolates ([g_states]). *)
Definition state_for (iso : Z) (states : gmap Z iso_state) : iso_state * gmap Z iso_state :=
  match states !! iso with
  | Some s => (s, states)
  | None => (new_iso_state, <[iso := new_iso_state]> states)
  end.

Definition timers_reset_for_isolate (iso : Z) (states : gmap Z iso_state) : gmap Z iso_state := delete iso states.

(** [time_point + std::chrono::microseconds(us)] on 64-bit nanoseconds. *)
Definition in_i64 (n : Z) : bool := (- 2 ^ 63 <=? n) && (n <? 2 ^ 63).
Definition add_us (now us : Z) : outcome Z :=
  _ ← require (in_i64 (us * 1000) && in_i64 (now + us * 1000)); Ret (now + us * 1000).

Section Timers.
Context {Q : PQueue}.
(** The clock; V8's conversion of a value to a number; the script. *)
Context (now : nat -> Z) (number_value : jsvalue -> option double) (script : list call -> list action * bool).

Definition read_clock (w : world) : Z * world := (now (reads w), MkWorld (st w) (S (reads w)) (log w)).

Definition with_st (f : iso_state -> iso_state) (w : world) : world := MkWorld (f (st w)) (reads w) (log w).

(** The timer under [s.next_id++], pushed on the heap and entered in the table. *)
Definition add_timer (deadline : Z) (interval : double) (repeat : bool) (fn : Z) (args : list jsvalue) (s : iso_state) :
    iso_state :=
  let id := next_id s in
  MkIso (u64 (id + 1))
    (match active s !! id with
     | Some _ => active s
     | None => <[id := MkTimer id deadline interval repeat fn args]> (active s)
     end)
    (pq_push (MkNode deadline id) (heap s)) (next_raf_id s) (raf_queue s) (raf_cancelled s).

(** [ms] of the second argument: not negative and not NaN. *)
Definition delay_ms (info : list jsvalue) : double :=
  let ms := match info with _ :: v :: _ => default fzero (number_value v) | _ => fzero end in
  if fltb ms fzero || is_nan ms then fzero else ms.

Definition delay_us (ms : double) : outcome Z := cast_i64 (fmul ms (of_Z 1000)).

Definition schedule_impl (info : list jsvalue) (repeat : bool) (w : world) : outcome (world * api_result) :=
  match info with
  | Fn f :: rest =>
      let ms := delay_ms info in
      let '(t, w) := read_clock w in
      us ← delay_us ms;
      deadline ← add_us t us;
      Ret (with_st (add_timer deadline ms repeat f (drop 1 rest)) w, Number (of_Z (next_id (st w))))
  | _ => Ret (w, TypeError (str "setTimeout(fn, ms, ...args)"))
  end.

Definition set_timeout_cb (info : list jsvalue) (w : world) := schedule_impl info false w.
Definition set_interval_cb (info : list jsvalue) (w : world) := schedule_impl info true w.

Definition set_immediate_cb (info : list jsvalue) (w : world) : outcome (world * api_result) :=
  match info with
  | Fn f :: rest =>
      let '(t, w) := read_clock w in
      Ret (with_st (add_timer t fzero false f rest) w, Number (of_Z (next_id (st w))))
  | _ => Ret (w, TypeError (str "setImmediate(fn, ...args)"))
  end.

Definition erase_timer (id : Z) (s : iso_state) : iso_state :=
  MkIso (next_id s) (delete id (active s)) (heap s) (next_raf_id s) (raf_queue s) (raf_cancelled s).

Definition clear_timer_cb (info : list jsvalue) (w : world) : outcome (world * api_result) :=
  match info with
  | Num d :: _ => id ← cast_u64 d; Ret (with_st (erase_timer id) w, Undefined)
  | _ => Ret (w, Undefined)
  end.

(** The microtask runs at once; what it does is part of the script. *)
Definition queue_microtask_cb (info : list jsvalue) (w : world) : outcome (world * api_result) :=
  match info with
  | Fn _ :: _ => Ret (w, Undefined)
  | _ => Ret (w, TypeError (str "queueMicrotask(fn)"))
  end.

Definition raf_cb (info : list jsvalue) (w : world) : outcome (world * api_result) :=
  match info with
  | Fn f :: _ =>
      let id := next_raf_id (st w) in
      Ret (with_st (fun s => MkIso (next_id s) (active s) (heap s) (u64 (id + 1)) (raf_queue s ++ [(id, f)]) (raf_cancelled s)) w,
           Number (of_Z id))
  | _ => Ret (w, TypeError (str "requestAnimationFrame(fn)"))
  end.

Definition cancel_raf_cb (info : list jsvalue) (w : world) : outcome (world * api_result) :=
  match info with
  | Num d :: _ =>
      id ← cast_u64 d;
      Ret (with_st (fun s => MkIso (next_id s) (active s) (heap s) (next_raf_id s)
                               (filter (fun kv => kv.1 <> id) (raf_queue s)) (raf_cancelled s ++ [id])) w, Undefined)
  | _ => Ret (w, Undefined)
  end.

Definition perform (a : action) (w : world) : outcome (world * api_result) :=
  match a with
  | SetTimeout info => set_timeout_cb info w
  | SetInterval info => set_interval_cb info w
  | SetImmediate info => set_immediate_cb info w
  | ClearTimer info => clear_timer_cb info w
  | QueueMicrotask info => queue_microtask_cb info w
  | RequestFrame info => raf_cb info w
  | CancelFrame info => cancel_raf_cb info w
  end.

Fixpoint perform_all (l : list action) (w : world) : outcome world :=
  match l with
  | [] => Ret w
  | a :: l' => '(w, _) ← perform a w; perform_all l' w
  end.

(** A call into the script: the world after it and whether it failed. *)
Definition invoke (c : call) (w : world) : outcome (world * bool) :=
  let w := MkWorld (st w) (reads w) (c :: log w) in
  let '(actions, failed) := script (log w) in
  w ← perform_all actions w; Ret (w, failed).

(** * The event loop's side *)

Definition with_heap (h : list heap_node) (s : iso_state) : iso_state :=
  MkIso (next_id s) (active s) h (next_raf_id s) (raf_queue s) (raf_cancelled s).

(** Heap nodes whose timer was cleared are dropped from the top; [None] is an empty heap. *)
Fixpoint drop_stale (fuel : nat) (s : iso_state) : outcome (option Z * iso_state) :=
  match fuel with
  | O => OutOfFuel
  | S fuel' =>
      match pq_pop (heap s) with
      | None => Ret (None, s)
      | Some (top, h) =>
          match active s !! n_id top with
          | None => drop_stale fuel' (with_heap h s)
          | Some _ => Ret (Some (n_deadline top), s)
          end
      end
  end.

(** Seconds as a double; [None] is infinity. *)
Definition next_timer_deadline_seconds (w : world) : outcome (option double * world) :=
  '(top, s) ← drop_stale (S (length (heap (st w)))) (st w);
  let w := MkWorld s (reads w) (log w) in
  match top with
  | None => Ret (None, w)
  | Some dl =>
      let '(t, w) := read_clock w in
      Ret (Some (if dl <=? t then fzero else fdiv (of_Z (dl - t)) (of_Z 1000000000)), w)
  end.

(** The due timers' identifiers, taken off the heap. *)
Fixpoint collect_due (fuel : nat) (t : Z) (s : iso_state) (due : list Z) : outcome (iso_state * list Z) :=
  match fuel with
  | O => OutOfFuel
  | S fuel' =>
      match pq_pop (heap s) with
      | None => Ret (s, due)
      | Some (top, h) =>
          match active s !! n_id top with
          | None => collect_due fuel' t (with_heap h s) due
          | Some _ =>
              if t <? n_deadline top then Ret (s, due)
              else collect_due fuel' t (with_heap h s) (due ++ [n_id top])
          end
      end
  end.

(** A repeating timer's next deadline, unless its callback cleared it. *)
Definition reschedule (id : Z) (interval : double) (w : world) : outcome world :=
  match active (st w) !! id with
  | None => Ret w
  | Some e =>
      let '(t, w) := read_clock w in
      us ← delay_us interval;
      deadline ← add_us t us;
      Ret (with_st (fun s => MkIso (next_id s)
                     (<[id := MkTimer (t_id e) deadline (interval_ms e) (repeat_ e) (t_fn e) (t_args e)]> (active s))
                     (pq_push (MkNode deadline id) (heap s)) (next_raf_id s) (raf_queue s) (raf_cancelled s)) w)
  end.

(** The loop over the due timers; [true] when a callback failed, which ends it. *)
Fixpoint run_due (due : list Z) (w : world) : outcome (world * bool) :=
  match due with
  | [] => Ret (w, false)
  | id :: due' =>
      match active (st w) !! id with
      | None => run_due due' w
      | Some e =>
          let w := if repeat_ e then w else with_st (erase_timer id) w in
          '(w, failed) ← invoke (TimerCall id (t_fn e) (t_args e)) w;
          if failed : bool then Ret (w, true)
          else
            w ← (if repeat_ e then reschedule id (interval_ms e) w else Ret w);
            run_due due' w
      end
  end.

Definition drain_due_timers (w : world) : outcome (world * bool) :=
  let '(t, w) := read_clock w in
  '(s, due) ← collect_due (S (length (heap (st w)))) t (st w) [];
  run_due due (MkWorld s (reads w) (log w)).

(** Nanoseconds to milliseconds. *)
Definition ms_of_ns (t : Z) : double := fdiv (of_Z t) (of_Z 1000000).

Fixpoint run_frames (cancelled : list Z) (now_ms : double) (current : list (Z * Z)) (w : world) : outcome (world * bool) :=
  match current with
  | [] => Ret (w, false)
  | (id, fn) :: current' =>
      if bool_decide (id ∈ cancelled) then run_frames cancelled now_ms current' w
      else
        '(w, failed) ← invoke (FrameCall id fn now_ms) w;
        if failed : bool then Ret (w, true) else run_frames cancelled now_ms current' w
  end.

Definition drain_animation_frames (w : world) : outcome (world * bool) :=
  match raf_queue (st w) with
  | [] => Ret (w, false)
  | current =>
      let cancelled := raf_cancelled (st w) in
      let w := with_st (fun s => MkIso (next_id s) (active s) (heap s) (next_raf_id s) [] []) w in
      let '(t, w) := read_clock w in
      run_frames cancelled (ms_of_ns t) current w
  end.
End Timers.

(** * Specification *)

Section Spec.
Context {Q : PQueue} {HQ : PQueueLaws Q}.
Context (now : nat -> Z) (number_value : jsvalue -> option double) (script : list call -> list action * bool).
Notation perform_ := (perform now number_value).
Notation perform_all_ := (perform_all now number_value).
Notation invoke_ := (invoke now number_value script).
Notation run_due_ := (run_due now number_value script).
Notation drain_ := (drain_due_timers now number_value script).

(** A delay that keeps deadlines in range: at most 2^52 microseconds (142 years). *)
Definition delay_ok (ms : double) : Prop := exists us, delay_us ms = Ret us /\ 0 <= us <= 2 ^ 52.

(** Calls of the bound functions whose numbers can be cast. *)
Definition action_ok (a : action) : Prop :=
  match a with
  | SetTimeout info | SetInterval info => delay_ok (delay_ms number_value info)
  | ClearTimer (Num d :: _) | CancelFrame (Num d :: _) => exists id, cast_u64 d = Ret id
  | _ => True
  end.

Definition script_ok : Prop := forall l, Forall action_ok (script l).1.
Definition clock_ok : Prop := forall n, 0 <= now n < 2 ^ 62.

(** The heap and the table agree: the nodes and the timers in flight [L] (taken off
    the heap, not yet run) have distinct identifiers that were given out before; the
    node of a live timer has its deadline; and every live timer has a node or is in
    flight. *)
Definition timers_ok (L : list Z) (s : iso_state) : Prop :=
  NoDup (n_id <$> heap s) /\ NoDup L /\ (forall id, id ∈ n_id <$> heap s -> id ∈ L -> False) /\
  Forall (fun n => n_id n < next_id s /\ forall e, active s !! n_id n = Some e -> t_deadline e = n_deadline n) (heap s) /\
  (forall id e, active s !! id = Some e ->
     t_id e = id /\ id < next_id s /\ (id ∈ n_id <$> heap s \/ id ∈ L)) /\
  Forall (fun id => id < next_id s) L /\ 1 <= next_id s.

(** The intervals of the live timers keep deadlines in range. *)
Definition intervals_ok (w : world) : Prop :=
  forall id e, active (st w) !! id = Some e -> delay_ok (interval_ms e).

(** The clock is read for every identifier given out, so identifiers are fresh while
    there are less than 2^64 readings. *)
Definition world_ok (L : list Z) (w : world) : Prop :=
  timers_ok L (st w) /\ next_id (st w) <= Z.of_nat (reads w) + 1.

Definition few_reads (w : world) : Prop := Z.of_nat (reads w) < 2 ^ 64 - 1.

(** [clearTimeout] or [clearInterval] of [id] among some calls. *)
Definition clears (id : Z) (l : list action) : Prop :=
  exists d rest, ClearTimer (Num d :: rest) ∈ l /\ cast_u64 d = Ret id.

(** * Proofs: single operations *)

Lemma clears_app id l1 l2 : clears id l1 \/ clears id l2 -> clears id (l1 ++ l2).
Proof. intros [(d & r & H & E)|(d & r & H & E)]; exists d, r; (split; [apply elem_of_app; auto|done]). Qed.

Lemma push_ids n h : (n_id <$> pq_push n h) ≡ₚ n_id n :: (n_id <$> h).
Proof. by rewrite pq_push_perm. Qed.

Lemma add_us_ok t us : 0 <= t < 2 ^ 62 -> 0 <= us <= 2 ^ 52 -> add_us t us = Ret (t + us * 1000).
Proof.
  intros Ht Hu. unfold add_us, in_i64.
  rewrite !(proj2 (Z.leb_le _ _)), !(proj2 (Z.ltb_lt _ _)) by lia. done.
Qed.

Lemma timers_ok_add L deadline interval repeat fn args s :
  timers_ok L s -> next_id s + 1 < 2 ^ 64 ->
  timers_ok L (add_timer deadline interval repeat fn args s).
Proof.
  intros (H1 & H2 & H3 & H4 & H5 & H6 & H7) Hn. unfold timers_ok, add_timer. cbn.
  rewrite u64_small by lia.
  assert (Hf : next_id s ∉ n_id <$> heap s).
  { intros (n & E & Hin)%list_elem_of_fmap. rewrite Forall_forall in H4. specialize (H4 _ Hin). lia. }
  assert (Ha : active s !! next_id s = None).
  { destruct (active s !! next_id s) eqn:E; [|done]. apply H5 in E. lia. }
  rewrite Ha. setoid_rewrite push_ids. split_and!.
  - by apply NoDup_cons.
  - done.
  - intros id [->|Hi]%elem_of_cons Hl; [|by eapply H3]. rewrite Forall_forall in H6. specialize (H6 _ Hl). cbn in H6. lia.
  - rewrite pq_push_perm. apply Forall_cons. cbn. split.
    + split; [lia|]. intros e. rewrite lookup_insert_eq. by intros [= <-].
    + eapply Forall_impl; [exact H4|]. intros n [Hlt Hde]. split; [lia|]. intros e. rewrite lookup_insert_ne by lia. auto.
  - intros id e. destruct (decide (id = next_id s)) as [->|Hne].
    + rewrite lookup_insert_eq. intros [= <-]. cbn. rewrite elem_of_cons. split_and!; auto. lia.
    + rewrite lookup_insert_ne by done. intros (? & ? & Hor)%H5. rewrite elem_of_cons. split_and!; [done|lia|tauto].
  - eapply Forall_impl; [exact H6|]. cbn. lia.
  - lia.
Qed.

Lemma timers_ok_erase L id s : timers_ok L s -> timers_ok L (erase_timer id s).
Proof.
  intros (H1 & H2 & H3 & H4 & H5 & H6 & H7). unfold timers_ok, erase_timer. cbn. split_and!; try done.
  - eapply Forall_impl; [exact H4|]. intros n [Hlt Hde]. split; [done|]. intros e [_ He]%lookup_delete_Some. auto.
  - intros id' e [_ He]%lookup_delete_Some. auto.
Qed.

(** What the calls [l] did to the timers that existed: each is untouched or was
    cleared by one of them. *)
Definition keeps (l : list action) (w w' : world) : Prop :=
  (reads w <= reads w')%nat /\ log w' = log w /\ next_id (st w) <= next_id (st w') /\
  forall id, id < next_id (st w) ->
    active (st w') !! id = active (st w) !! id \/ (active (st w') !! id = None /\ clears id l).

Lemma keeps_refl l w : keeps l w w.
Proof. split_and!; auto. lia. Qed.

Lemma keeps_trans l1 l2 w1 w2 w3 : keeps l1 w1 w2 -> keeps l2 w2 w3 -> keeps (l1 ++ l2) w1 w3.
Proof.
  intros (H1 & H2 & H3 & H4) (K1 & K2 & K3 & K4). split_and!; [lia|congruence|lia|].
  intros id Hid. destruct (K4 id ltac:(lia)) as [->|[-> ?]].
  - destruct (H4 id Hid) as [|[? ?]]; [by left|right]. split; [done|]. apply clears_app. by left.
  - right. split; [done|]. apply clears_app. by right.
Qed.

Lemma add_timer_ok L w deadline interval repeat fn args l :
  world_ok L w ->
  let w' := with_st (add_timer deadline interval repeat fn args) (MkWorld (st w) (S (reads w)) (log w)) in
  few_reads w' -> world_ok L w' /\ keeps l w w'.
Proof.
  intros [Ht Hr] w' Hf. unfold few_reads, w' in Hf. cbn in Hf. split.
  - split; [apply timers_ok_add; [done|cbn; lia]|]. cbn. rewrite u64_small; [lia|]. destruct Ht as (_ & _ & _ & _ & _ & _ & ?). lia.
  - unfold keeps, w'. cbn. assert (Ha : active (st w) !! next_id (st w) = None).
    { destruct (active (st w) !! next_id (st w)) eqn:E; [|done]. apply Ht in E. lia. }
    assert (1 <= next_id (st w)) by apply Ht. rewrite u64_small by lia. split_and!; [lia|done|lia|].
    intros id Hid. rewrite Ha. left. by rewrite lookup_insert_ne by lia.
Qed.

Lemma intervals_ok_add deadline interval repeat fn args w : delay_ok interval -> intervals_ok w ->
  intervals_ok (with_st (add_timer deadline interval repeat fn args) (MkWorld (st w) (S (reads w)) (log w))).
Proof.
  intros Hd Hw id e. cbn. case_match; [apply Hw|].
  intros [[<- <-]|[_ He]]%lookup_insert_Some; [done|by eapply Hw].
Qed.

Lemma perform_spec L a w : clock_ok -> action_ok a ->
  exists w' r, perform_ a w = Ret (w', r) /\ (reads w <= reads w')%nat /\ (intervals_ok w -> intervals_ok w') /\
    (world_ok L w -> few_reads w' -> world_ok L w' /\ keeps [a] w w').
Proof.
  intros Hc Ha.
  assert (Hsch : forall info repeat, delay_ok (delay_ms number_value info) ->
    exists w' r, schedule_impl now number_value info repeat w = Ret (w', r) /\ (reads w <= reads w')%nat /\
      (intervals_ok w -> intervals_ok w') /\
      (world_ok L w -> few_reads w' -> world_ok L w' /\ keeps [a] w w')).
  { intros info repeat [us [Eu Hu]]. destruct info as [|[f|d|v] rest];
      try (eexists _, _; split_and!; [reflexivity|done|done|]; auto using keeps_refl).
    unfold schedule_impl. cbn [read_clock]. rewrite Eu, bind_Ret, (add_us_ok _ us), bind_Ret by (apply Hc || lia).
    eexists _, _. split_and!; [reflexivity|cbn; lia|apply intervals_ok_add; by exists us|].
    intros Hw. by apply add_timer_ok. }
  destruct a as [info|info|info|info|info|info|info]; cbn [perform] in *; [by apply Hsch|by apply Hsch|..];
    destruct info as [|[f|d|v] rest]; cbn [set_immediate_cb clear_timer_cb queue_microtask_cb raf_cb cancel_raf_cb action_ok] in *;
    try (eexists _, _; split_and!; [reflexivity|done|done|]; auto using keeps_refl; fail).
  - eexists _, _. split_and!; [reflexivity|cbn; lia|apply intervals_ok_add|intros Hw; by apply add_timer_ok].
    exists 0. split; [reflexivity|lia].
  - destruct Ha as [id Ei]. rewrite Ei, bind_Ret. eexists _, _.
    split_and!; [reflexivity|done|intros H id' e He; cbn in He; apply lookup_delete_Some in He as [_ He]; by eapply H|]. intros Hw _. split.
    + split; [apply timers_ok_erase; apply Hw|apply Hw].
    + split_and!; [done|done|done|]. intros id' _. cbn. destruct (decide (id' = id)) as [->|].
      * right. rewrite lookup_delete_eq. split; [done|]. exists d, rest. split; [by apply list_elem_of_singleton|done].
      * left. by rewrite lookup_delete_ne.
  - eexists _, _. split_and!; [reflexivity|done|done|]. intros Hw _. split; [exact Hw|]. split_and!; auto; cbn; lia.
  - destruct Ha as [id Ei]. rewrite Ei, bind_Ret. eexists _, _. split_and!; [reflexivity|done|done|]. intros Hw _.
    split; [exact Hw|]. split_and!; auto; cbn; lia.
Qed.

Lemma perform_all_spec L l w : clock_ok -> Forall action_ok l ->
  exists w', perform_all_ l w = Ret w' /\ (reads w <= reads w')%nat /\ (intervals_ok w -> intervals_ok w') /\
    (world_ok L w -> few_reads w' -> world_ok L w' /\ keeps l w w').
Proof.
  intros Hc Hl. revert w. induction Hl as [|a l Ha Hl IH]; intros w.
  - exists w. auto using keeps_refl.
  - cbn [perform_all]. destruct (perform_spec L a w Hc Ha) as (w1 & r & -> & R1 & I1 & H1). cbn [mbind outcome_bind].
    destruct (IH w1) as (w2 & -> & R2 & I2 & H2). exists w2. split_and!; [done|lia|auto|]. intros Hw Hf.
    destruct (H1 Hw) as [Hw1 K1]; [unfold few_reads in *; lia|]. destruct (H2 Hw1 Hf) as [Hw2 K2].
    split; [done|]. by apply (keeps_trans [a] l w w1 w2).
Qed.

Context (Hclock : clock_ok) (Hscript : script_ok).

(** A call into the script runs to its end. *)
Lemma invoke_spec L c w : exists w' , let l := c :: log w in
  invoke_ c w = Ret (w', (script l).2) /\ (reads w <= reads w')%nat /\ (intervals_ok w -> intervals_ok w') /\
  (world_ok L w -> few_reads w' -> world_ok L w' /\ log w' = l /\ next_id (st w) <= next_id (st w') /\
     forall id, id < next_id (st w) ->
       active (st w') !! id = active (st w) !! id \/ (active (st w') !! id = None /\ clears id (script l).1)).
Proof.
  unfold invoke. cbn [log]. pose proof (Hscript (c :: log w)) as Ha. destruct (script (c :: log w)) as [l failed].
  destruct (perform_all_spec L l (MkWorld (st w) (reads w) (c :: log w)) Hclock Ha) as (w' & -> & R & I & H).
  exists w'. cbn in *. split_and!; [done|done|exact I|]. intros Hw Hf. destruct (H Hw Hf) as (? & _ & ? & ? & ?). auto.
Qed.

(** * Proofs: taking due timers off the heap *)

Lemma heap_ids s n h : heap s ≡ₚ n :: h -> (n_id <$> heap s) ≡ₚ n_id n :: (n_id <$> h).
Proof. by intros ->. Qed.

Lemma timers_ok_take L s n h : heap s ≡ₚ n :: h -> timers_ok L s -> timers_ok (L ++ [n_id n]) (with_heap h s).
Proof.
  intros Hp (H1 & H2 & H3 & H4 & H5 & H6 & H7). unfold timers_ok. cbn. rewrite (heap_ids _ _ _ Hp) in *.
  setoid_rewrite (heap_ids _ _ _ Hp) in H3. setoid_rewrite (heap_ids _ _ _ Hp) in H5.
  rewrite Hp in H4. apply NoDup_cons in H1 as [Hn H1]. apply Forall_cons in H4 as [Hn4 H4]. split_and!; try done.
  - apply NoDup_app. split_and!; [done| |by apply NoDup_singleton].
    intros id Hi ->%list_elem_of_singleton. eapply H3; [|exact Hi]. by left.
  - intros id Hi [Hl| ->%list_elem_of_singleton]%elem_of_app; [|done]. eapply H3; [|exact Hl]. by right.
  - intros id e He. destruct (H5 _ _ He) as (? & ? & Hor). split_and!; [done..|].
    rewrite elem_of_app, list_elem_of_singleton. rewrite elem_of_cons in Hor. tauto.
  - apply Forall_app. split; [done|]. apply Forall_singleton. apply Hn4.
Qed.

Lemma timers_ok_drop L s n h : heap s ≡ₚ n :: h -> active s !! n_id n = None -> timers_ok L s ->
  timers_ok L (with_heap h s).
Proof.
  intros Hp Ha Ht. destruct (timers_ok_take _ _ _ _ Hp Ht) as (H1 & H2 & H3 & H4 & H5 & H6 & H7).
  cbn in *. unfold timers_ok. cbn. apply NoDup_app in H2 as (H2 & _ & _). apply Forall_app in H6 as [H6 _].
  split_and!; try done.
  - intros id Hi Hl. eapply H3; [exact Hi|]. apply elem_of_app. by left.
  - intros id e He. destruct (H5 _ _ He) as (? & ? & [?|[?| ->%list_elem_of_singleton]%elem_of_app]); auto.
    congruence.
Qed.

Definition deadline_of (s : iso_state) (id : Z) : Z := from_option t_deadline 0 (active s !! id).

Lemma collect_due_spec fuel t s due : (length (heap s) < fuel)%nat -> timers_ok due s ->
  exists h new, let s' := with_heap h s in
    collect_due fuel t s due = Ret (s', due ++ new) /\ timers_ok (due ++ new) s' /\
    (forall id, id ∈ new <-> id ∈ n_id <$> heap s /\ exists e, active s !! id = Some e /\ t_deadline e <= t) /\
    StronglySorted (fun a b => deadline_of s a <= deadline_of s b) new.
Proof.
  revert s due. induction fuel as [|fuel IH]; intros s due Hfuel Ht; [lia|]. cbn [collect_due].
  destruct (pq_pop (heap s)) as [[top h]|] eqn:Ep.
  - apply pq_pop_min in Ep as [Hp Hmin]. assert (Hl : length (heap s) = S (length h)) by by rewrite Hp.
    destruct (active s !! n_id top) as [e|] eqn:Ea.
    + destruct (Z.ltb_spec t (n_deadline top)) as [Hlt|Hle].
      * exists (heap s), []. rewrite app_nil_r. destruct s as [ni ac he nr rq rc]. cbn in *. split_and!; [done|done| |constructor].
        intros id. rewrite elem_of_nil. split; [done|]. intros [Hi (e' & He & Hd)].
        destruct Ht as (_ & _ & _ & H4 & _). cbn in H4. rewrite Forall_forall in H4.
        apply list_elem_of_fmap in Hi as (n & -> & Hin). destruct (H4 _ Hin) as [_ Hde]. rewrite (Hde _ He) in Hd.
        rewrite Hp in Hin. apply elem_of_cons in Hin as [->|Hin]; [lia|]. rewrite Forall_forall in Hmin.
        specialize (Hmin _ Hin). cbn in Hmin. lia.
      * destruct (IH (with_heap h s) (due ++ [n_id top])) as (h' & new & E & Hok & Hiff & Hs);
          [cbn; lia|by apply timers_ok_take|]. cbn in *.
        assert (Etop : t_deadline e = n_deadline top).
        { destruct Ht as (_ & _ & _ & H4 & _). rewrite Hp in H4. apply Forall_cons in H4 as [[_ H4] _]. by apply H4. }
        exists h', (n_id top :: new). rewrite <- app_assoc in E, Hok. split_and!; [exact E|exact Hok| |].
        -- intros id. rewrite (heap_ids _ _ _ Hp), !elem_of_cons, Hiff. split.
           ++ intros [->|[? ?]]; [|auto]. split; [by left|]. exists e. split; [done|lia].
           ++ intros [[->|?] ?]; auto.
        -- constructor; [exact Hs|]. apply Forall_forall. intros id [Hi (e' & He & Hd)]%Hiff.
           unfold deadline_of. rewrite Ea, He. cbn. rewrite Etop.
           apply list_elem_of_fmap in Hi as (n & -> & Hin). destruct Ht as (_ & _ & _ & H4 & _). rewrite Hp in H4.
           apply Forall_cons in H4 as [_ H4]. rewrite Forall_forall in H4, Hmin. destruct (H4 _ Hin) as [_ ->]; [|done].
           by apply Hmin.
    + destruct (IH (with_heap h s) due) as (h' & new & E & Hok & Hiff & Hs);
        [cbn; lia|by eapply timers_ok_drop|]. cbn in *. exists h', new. split_and!; [exact E|exact Hok| |exact Hs].
      intros id. rewrite Hiff, (heap_ids _ _ _ Hp), elem_of_cons. split; [tauto|].
      intros [[->|?] (e' & He & Hd)]; [congruence|eauto].
  - apply pq_pop_nil in Ep. exists (heap s), []. rewrite app_nil_r. destruct s as [ni ac he nr rq rc]. cbn in *.
    subst he. split_and!; [done|done| |constructor]. intros id. cbn. rewrite elem_of_nil. tauto.
Qed.

(** * Proofs: running the due timers *)

Lemma timers_ok_forget id L s : timers_ok (id :: L) s -> active s !! id = None -> timers_ok L s.
Proof.
  intros (H1 & H2 & H3 & H4 & H5 & H6 & H7) Ha. unfold timers_ok. apply NoDup_cons in H2 as [_ H2].
  apply Forall_cons in H6 as [_ H6]. split_and!; try done.
  - intros id' Hi Hl. eapply H3; [exact Hi|]. by right.
  - intros id' e He. destruct (H5 _ _ He) as (? & ? & [?|[->|?]%elem_of_cons]); auto. congruence.
Qed.

Definition same_timer (e e' : timer_entry) : Prop :=
  interval_ms e' = interval_ms e /\ repeat_ e' = repeat_ e /\ t_fn e' = t_fn e /\ t_args e' = t_args e.

Lemma reschedule_spec id interval L w : delay_ok interval -> exists w',
  reschedule now id interval w = Ret w' /\ (reads w <= reads w')%nat /\ log w' = log w /\
  (intervals_ok w -> intervals_ok w') /\
  (world_ok (id :: L) w -> world_ok L w') /\ next_id (st w') = next_id (st w) /\
  (forall id', id' <> id -> active (st w') !! id' = active (st w) !! id') /\
  match active (st w) !! id with
  | None => active (st w') !! id = None
  | Some e => exists e', active (st w') !! id = Some e' /\ same_timer e e'
  end.
Proof.
  intros [us [Eu Hu]]. unfold reschedule. destruct (active (st w) !! id) as [e|] eqn:Ea.
  2: { exists w. split_and!; auto. intros [Ht Hr]. split; [by eapply timers_ok_forget|done]. }
  cbn [read_clock]. rewrite Eu, bind_Ret, (add_us_ok _ us), bind_Ret by (apply Hclock || lia).
  eexists. split; [reflexivity|]. cbn. split_and!; [lia|done| | |done| |].
  - intros Hi id' e'. cbn. intros [[<- <-]|[_ He]]%lookup_insert_Some; [exact (Hi _ _ Ea)|by eapply Hi].
  - intros [(H1 & H2 & H3 & H4 & H5 & H6 & H7) Hr]. apply NoDup_cons in H2 as [Hid H2]. apply Forall_cons in H6 as [Hlt H6].
    split; [|cbn; lia]. unfold timers_ok. cbn. setoid_rewrite push_ids. split_and!; [|done| | | |done|done].
    + apply NoDup_cons. split; [|done]. intros Hin. eapply H3; [exact Hin|]. by left.
    + intros id' [->|Hi]%elem_of_cons Hl; [done|]. eapply H3; [exact Hi|]. by right.
    + rewrite pq_push_perm. apply Forall_cons. cbn. split; [split; [done|]; intros e'; rewrite lookup_insert_eq; by intros [= <-]|].
      apply Forall_forall. intros n Hin. rewrite Forall_forall in H4. destruct (H4 _ Hin) as [? Hde]. split; [done|].
      intros e'. rewrite lookup_insert_ne; [by apply Hde|]. intros ->.
      eapply H3; [apply list_elem_of_fmap; exists n; split; [reflexivity|done]|by left].
    + intros id' e'. rewrite elem_of_cons. intros [[<- <-]|[Hne He]]%lookup_insert_Some.
      * destruct (H5 _ _ Ea) as (? & ? & _). cbn. auto.
      * destruct (H5 _ _ He) as (? & ? & Hor). rewrite elem_of_cons in Hor. naive_solver.
  - intros id' Hne. by rewrite lookup_insert_ne.
  - eexists. rewrite lookup_insert_eq. split; [done|]. by split_and!.
Qed.

(** A timer called, or cleared by the script, between two worlds. *)
Definition fired (w w' : world) (id : Z) : Prop :=
  exists l fn args, log w' = l ++ log w /\ TimerCall id fn args ∈ l.
Definition cleared (w w' : world) (id : Z) : Prop :=
  exists l1 c l2, log w' = l1 ++ c :: l2 ++ log w /\ clears id (script (c :: l2 ++ log w)).1.

(** How timers evolve while the host makes the calls [A] and the script what it
    does: identifiers are not given out again; a timer stays as it is until it is
    called, which leaves a repeating one with a new deadline and ends another, or is
    cleared by the host or the script. *)
Definition evolves (A : list action) (w w' : world) : Prop :=
  (exists l, log w' = l ++ log w) /\ next_id (st w) <= next_id (st w') /\
  (forall id, id < next_id (st w) -> active (st w) !! id = None -> active (st w') !! id = None) /\
  (forall id e, id < next_id (st w) -> active (st w) !! id = Some e ->
     (exists e', active (st w') !! id = Some e' /\ same_timer e e' /\ (e' = e \/ fired w w' id)) \/
     (active (st w') !! id = None /\ (clears id A \/ cleared w w' id \/ (repeat_ e = false /\ fired w w' id)))) /\
  (forall id e, id < next_id (st w) -> active (st w) !! id = Some e -> repeat_ e = false -> fired w w' id ->
     active (st w') !! id = None).

Lemma fired_extend w1 w2 w3 id l : log w3 = l ++ log w2 -> fired w1 w2 id -> fired w1 w3 id.
Proof. intros E (l1 & f & a & H & Hin). exists (l ++ l1), f, a. rewrite E, H, <- app_assoc, elem_of_app. auto. Qed.

Lemma cleared_extend w1 w2 w3 id l : log w3 = l ++ log w2 -> cleared w1 w2 id -> cleared w1 w3 id.
Proof. intros E (l1 & c & l2 & H & Hc). exists (l ++ l1), c, l2. split; [|done]. by rewrite E, H, <- app_assoc. Qed.

Lemma fired_before w1 w2 w3 id l : log w2 = l ++ log w1 -> fired w2 w3 id -> fired w1 w3 id.
Proof. intros E (l1 & f & a & H & Hin). exists (l1 ++ l), f, a. rewrite H, E, <- app_assoc, elem_of_app. auto. Qed.

(** A call between three worlds is on one side of the middle one. *)
Lemma fired_split w1 w2 w3 id l l' : log w2 = l ++ log w1 -> log w3 = l' ++ log w2 -> fired w1 w3 id ->
  fired w1 w2 id \/ fired w2 w3 id.
Proof.
  intros E E' (l1 & f & a & H & Hin). rewrite E', E, app_assoc in H. apply app_inv_tail in H as <-.
  apply elem_of_app in Hin as [Hin|Hin]; [right; by exists l', f, a|left; by exists l, f, a].
Qed.

Lemma not_fired w w' id : log w' = log w -> ~ fired w w' id.
Proof.
  intros E (l & f & a & H & Hin). rewrite E in H. apply (f_equal length) in H. rewrite length_app in H.
  assert (l = []) as -> by (apply nil_length_inv; lia). by apply elem_of_nil in Hin.
Qed.

Lemma cleared_before w1 w2 w3 id l : log w2 = l ++ log w1 -> cleared w2 w3 id -> cleared w1 w3 id.
Proof. intros E (l1 & c & l2 & H & Hc). exists l1, c, (l2 ++ l). rewrite <- app_assoc, <- E. done. Qed.

Lemma same_timer_refl e : same_timer e e.
Proof. by split_and!. Qed.

Lemma same_timer_trans e1 e2 e3 : same_timer e1 e2 -> same_timer e2 e3 -> same_timer e1 e3.
Proof. intros (? & ? & ? & ?) (? & ? & ? & ?). split_and!; congruence. Qed.

Lemma evolves_refl A w : evolves A w w.
Proof.
  split_and!; [by exists []|lia|done| |].
  - intros id e _ He. left. exists e. auto using same_timer_refl.
  - by intros id e _ _ _ ?%not_fired.
Qed.

Lemma evolves_same A w w' : log w' = log w -> next_id (st w') = next_id (st w) -> active (st w') = active (st w) ->
  evolves A w w'.
Proof.
  intros El En Ea. split_and!; [by exists []|lia|by rewrite Ea| |].
  - intros id e _ He. left. exists e. rewrite Ea. auto using same_timer_refl.
  - by intros id e _ _ _ ?%not_fired.
Qed.

Lemma evolves_trans A1 A2 w1 w2 w3 : evolves A1 w1 w2 -> evolves A2 w2 w3 -> evolves (A1 ++ A2) w1 w3.
Proof.
  intros ([l El] & Hn & Hd & Ha & Hg) ([l' El'] & Hn' & Hd' & Ha' & Hg').
  split_and!; [exists (l' ++ l); by rewrite El', El, app_assoc|lia| | |].
  - intros id Hid E. apply Hd'; [lia|]. by apply Hd.
  - intros id e Hid He. destruct (Ha _ _ Hid He) as [(e2 & He2 & Hs & Hor)|[Hnone Hor]].
    + destruct (Ha' id e2 ltac:(lia) He2) as [(e3 & He3 & Hs' & Hor')|[Hnone Hor']].
      * left. exists e3. split_and!; [done|by eapply same_timer_trans|].
        destruct Hor' as [->|?]; [destruct Hor as [->|?]; [by left|right; by eapply fired_extend]|right; by eapply fired_before].
      * right. split; [done|]. destruct Hor' as [?|[?|[Hr ?]]].
        -- left. apply clears_app. by right.
        -- right; left. by eapply cleared_before.
        -- right; right. destruct Hs as (_ & Hs & _). split; [congruence|by eapply fired_before].
    + right. split; [apply Hd'; [lia|done]|]. destruct Hor as [?|[?|[? ?]]].
      * left. apply clears_app. by left.
      * right; left. by eapply cleared_extend.
      * right; right. split; [done|by eapply fired_extend].
  - intros id e Hid He Hr Hf. destruct (fired_split _ _ _ _ _ _ El El' Hf) as [Hf1|Hf2].
    + apply Hd'; [lia|]. by eapply Hg.
    + destruct (Ha _ _ Hid He) as [(e2 & He2 & (_ & Hs & _) & _)|[Hnone _]]; [|apply Hd'; [lia|done]].
      eapply Hg'; [|exact He2|congruence|done]. lia.
Qed.

(** The call a timer makes. *)
Definition call_of (s : iso_state) (id : Z) : call :=
  match active s !! id with
  | Some e => TimerCall id (t_fn e) (t_args e)
  | None => TimerCall id 0 []
  end.

(** One turn of the loop over the due timers. *)
Definition turn (id : Z) (e : timer_entry) (w : world) : outcome (world * bool) :=
  '(w, failed) ← invoke_ (TimerCall id (t_fn e) (t_args e)) (if repeat_ e then w else with_st (erase_timer id) w);
  if failed : bool then Ret (w, true)
  else w ← (if repeat_ e then reschedule now id (interval_ms e) w else Ret w); Ret (w, false).

Lemma run_due_cons id due w : run_due_ (id :: due) w =
  match active (st w) !! id with
  | None => run_due_ due w
  | Some e => '(w, failed) ← turn id e w; if failed : bool then Ret (w, true) else run_due_ due w
  end.
Proof.
  cbn [run_due]. destruct (active (st w) !! id) as [e|]; [|done]. unfold turn.
  destruct (invoke_ _ _) as [[w1 [|]]| | |]; try done. cbn. by destruct (repeat_ e); [destruct (reschedule _ _ _ _)|].
Qed.

(** What a turn leaves of the other timers. *)
Definition others_kept (id : Z) (w w' : world) : Prop :=
  forall id', id' <> id -> id' < next_id (st w) ->
    active (st w') !! id' = active (st w) !! id' \/ (active (st w') !! id' = None /\ cleared w w' id').

Lemma evolves_step id e w w2 : active (st w) !! id = Some e ->
  let l := TimerCall id (t_fn e) (t_args e) :: log w in
  log w2 = l -> next_id (st w) <= next_id (st w2) ->
  (forall id', id' <> id -> id' < next_id (st w) ->
     active (st w2) !! id' = active (st w) !! id' \/ (active (st w2) !! id' = None /\ clears id' (script l).1)) ->
  ((exists e', active (st w2) !! id = Some e' /\ same_timer e e' /\ repeat_ e = true) \/
   (active (st w2) !! id = None /\ (clears id (script l).1 \/ repeat_ e = false))) ->
  evolves [] w w2 /\ others_kept id w w2.
Proof.
  intros Ha l E Hn Ho Hid.
  assert (Hcl : forall id', clears id' (script l).1 -> cleared w w2 id').
  { intros id' Hc. exists [], (TimerCall id (t_fn e) (t_args e)), []. done. }
  assert (Hf : fired w w2 id).
  { exists [TimerCall id (t_fn e) (t_args e)], (t_fn e), (t_args e). split; [done|by apply list_elem_of_singleton]. }
  split; [split_and!; [exists [TimerCall id (t_fn e) (t_args e)]; by rewrite E|done| | |]|].
  - intros id' Hlt Hnone. destruct (decide (id' = id)) as [->|Hne]; [congruence|].
    destruct (Ho id' Hne Hlt) as [->|[-> _]]; done.
  - intros id' e' Hlt He. destruct (decide (id' = id)) as [->|Hne].
    + replace e' with e by congruence. destruct Hid as [(e2 & ? & ? & ?)|[? [?|?]]]; [left; exists e2; auto|right; auto..].
    + destruct (Ho id' Hne Hlt) as [->|[? ?]]; [left; exists e'; auto using same_timer_refl|right; auto].
  - intros id' e' Hlt He Hr (l0 & f & a & El & Hin). assert (l0 = [TimerCall id (t_fn e) (t_args e)]) as ->.
    { apply (app_inv_tail (log w)). by rewrite <- El, E. }
    apply list_elem_of_singleton in Hin as [= -> _ _]. replace e' with e in Hr by congruence.
    destruct Hid as [(e2 & _ & _ & ?)|[? _]]; [congruence|done].
  - intros id' Hne Hlt. destruct (Ho id' Hne Hlt) as [|[? ?]]; auto.
Qed.

Lemma turn_spec id e L w : active (st w) !! id = Some e -> intervals_ok w ->
  let l := TimerCall id (t_fn e) (t_args e) :: log w in
  exists w', turn id e w = Ret (w', (script l).2) /\ (reads w <= reads w')%nat /\ intervals_ok w' /\
    (world_ok (id :: L) w -> few_reads w' ->
     log w' = l /\ evolves [] w w' /\ others_kept id w w' /\ ((script l).2 = false -> world_ok L w')).
Proof.
  intros Ha Hi l. unfold turn. set (w0 := if repeat_ e then w else with_st (erase_timer id) w).
  assert (E0 : log w0 = log w /\ reads w0 = reads w /\ next_id (st w0) = next_id (st w)) by (unfold w0; by destruct (repeat_ e)).
  destruct E0 as (El & Er & En).
  assert (Ha0 : forall id', id' <> id -> active (st w0) !! id' = active (st w) !! id').
  { intros id' Hne. unfold w0. destruct (repeat_ e); [done|]. cbn. by rewrite lookup_delete_ne. }
  assert (Hi0 : intervals_ok w0).
  { unfold w0. destruct (repeat_ e); [done|]. intros id' e' He. cbn in He. apply lookup_delete_Some in He as [_ He]. by eapply Hi. }
  assert (Hw0 : world_ok (id :: L) w -> world_ok (id :: L) w0).
  { intros [Ht Hr]. unfold w0. destruct (repeat_ e); [done|]. split; [by apply timers_ok_erase|done]. }
  destruct (invoke_spec (id :: L) (TimerCall id (t_fn e) (t_args e)) w0) as (w1 & E1 & R1 & I1 & H1).
  rewrite El in E1, H1. fold l in E1, H1. rewrite E1. cbn [mbind outcome_bind].
  assert (Hev := fun w2 => evolves_step id e w w2 Ha). fold l in Hev.
  assert (Hid0 : if repeat_ e then active (st w0) !! id = Some e else active (st w0) !! id = None).
  { unfold w0. destruct (repeat_ e); [done|]. cbn. by rewrite lookup_delete_eq. }
  assert (Hlt : world_ok (id :: L) w -> id < next_id (st w)) by (intros Hw; by apply Hw in Ha as (_ & ? & _)).
  assert (Hself : world_ok (id :: L) w -> (forall id', id' < next_id (st w) ->
      active (st w1) !! id' = active (st w0) !! id' \/ (active (st w1) !! id' = None /\ clears id' (script l).1)) ->
    ((active (st w1) !! id = Some e /\ repeat_ e = true) \/ (active (st w1) !! id = None /\ (clears id (script l).1 \/ repeat_ e = false)))).
  { intros Hw A1. destruct (A1 id (Hlt Hw)) as [->|[-> ?]]; [|by right; auto]. destruct (repeat_ e); auto. }
  destruct ((script l).2) eqn:Ef.
  - exists w1. split_and!; [done|lia|auto|]. intros Hw Hf.
    destruct (H1 (Hw0 Hw) Hf) as (Hw1 & L1 & N1 & A1). rewrite En in *.
    destruct (Hev w1 L1 N1) as [? ?]; [| |by split_and!].
    + intros id' Hne Hlt'. rewrite <- Ha0 by done. by apply A1.
    + destruct (Hself Hw A1) as [[? ?]|?]; [left; exists e; naive_solver eauto using same_timer_refl|by right].
  - destruct (repeat_ e) eqn:Erep; cbn [mbind outcome_bind].
    + destruct (reschedule_spec id (interval_ms e) L w1) as (w2 & -> & R2 & L2 & I2 & H2 & N2 & A2 & S2); [by eapply Hi|].
      exists w2. split_and!; [done|lia|auto|]. intros Hw Hf.
      destruct (H1 (Hw0 Hw) ltac:(unfold few_reads in *; lia)) as (Hw1 & L1 & N1 & A1). rewrite En in *.
      destruct (Hev w2) as [? ?]; [by rewrite L2|by rewrite N2| | |split_and!; auto; congruence].
      * intros id' Hne Hlt'. rewrite A2, <- Ha0 by done. by apply A1.
      * destruct (Hself Hw A1) as [[E _]|[E ?]]; rewrite E in S2; [left|by right]. destruct S2 as (e' & ? & ?). eauto.
    + exists w1. split_and!; [done|lia|auto|]. intros Hw Hf.
      destruct (H1 (Hw0 Hw) Hf) as (Hw1 & L1 & N1 & A1). rewrite En in *.
      assert (Hnone : active (st w1) !! id = None) by (destruct (A1 id (Hlt Hw)) as [->|[? _]]; done).
      destruct (Hev w1 L1 N1) as [? ?]; [intros id' Hne Hlt'; rewrite <- Ha0 by done; by apply A1|by right; auto|].
      split_and!; [done|done|done|]. intros _. destruct Hw1 as [Ht1 Hr1]. split; [|done].
      by apply (timers_ok_forget id).
Qed.

Lemma run_due_spec due w : intervals_ok w -> exists w' failed, run_due_ due w = Ret (w', failed) /\
  (reads w <= reads w')%nat /\ intervals_ok w' /\ (failed = true -> exists l, (script l).2 = true) /\
  (world_ok due w -> few_reads w' -> evolves [] w w' /\ (failed = false -> world_ok [] w') /\
     exists ran, ran `sublist_of` due /\ log w' = rev (map (call_of (st w)) ran) ++ log w /\
       Forall (fun id => is_Some (active (st w) !! id)) ran /\
       (failed = false -> forall id, id ∈ due -> is_Some (active (st w) !! id) -> id ∈ ran \/ cleared w w' id)).
Proof.
  revert w. induction due as [|id due IH]; intros w Hi.
  - exists w, false. split_and!; [done..|]. intros Hw _. split; [apply evolves_refl|]. split; [done|]. exists [].
    split; [constructor|]. split; [done|]. split; [constructor|]. by intros _ id ?%elem_of_nil.
  - rewrite run_due_cons. destruct (active (st w) !! id) as [e|] eqn:Ea.
    + destruct (turn_spec id e due w Ea Hi) as (w1 & -> & R1 & I1 & H1). cbn [mbind outcome_bind].
      assert (Ec : call_of (st w) id = TimerCall id (t_fn e) (t_args e)) by (unfold call_of; by rewrite Ea).
      destruct ((script _).2) eqn:Ef.
      * exists w1, true. split_and!; [done|done|done|eauto|]. intros Hw Hf. destruct (H1 Hw Hf) as (L1 & V1 & _ & _).
        split; [done|]. split; [done|]. exists [id]. split_and!; [apply sublist_skip, sublist_nil_l|by rewrite L1, <- Ec| |done].
        apply Forall_singleton. by eexists.
      * destruct (IH w1 I1) as (w' & failed & -> & R & I & F & H). exists w', failed. split_and!; [done|lia|done|done|].
        intros Hw Hf. destruct (H1 Hw ltac:(unfold few_reads in *; lia)) as (L1 & V1 & K1 & W1).
        destruct (H (W1 eq_refl) Hf) as (V & W & ran & Hsub & Hlog & Hran & Hdue).
        assert (Hold : forall id', id' ∈ due -> id' <> id /\ id' < next_id (st w)).
        { destruct Hw as [(_ & H2 & _ & _ & _ & H6 & _) _]. intros id' Hin. apply NoDup_cons in H2 as [H2 _].
          apply Forall_cons in H6 as [_ H6]. rewrite Forall_forall in H6. split; [by intros ->|by apply H6]. }
        assert (Hsame : forall id', id' ∈ ran -> active (st w1) !! id' = active (st w) !! id').
        { intros id' Hin. destruct (Hold id') as [? ?]; [by eapply elem_of_sublist|].
          destruct (K1 id') as [|[Hn _]]; [done..|]. rewrite Forall_forall in Hran. destruct (Hran _ Hin). congruence. }
        split; [by apply (evolves_trans [] [] _ w1)|]. split; [done|]. exists (id :: ran). split_and!; [by apply sublist_skip| | |].
        -- rewrite Hlog, L1, <- Ec. cbn. rewrite <- app_assoc. do 2 f_equal. apply map_ext_in. intros id' Hin.
           unfold call_of. by rewrite Hsame by by apply list_elem_of_In.
        -- constructor; [by eexists|]. apply Forall_forall. intros id' Hin. rewrite <- Hsame by done.
           rewrite Forall_forall in Hran. by apply Hran.
        -- intros Hff id' [->|Hin]%elem_of_cons Hs; [left; by left|]. destruct (Hold id' Hin) as [Hne Hlt].
           destruct (K1 id' Hne Hlt) as [E|[_ Hc]].
           ++ destruct (Hdue Hff id' Hin) as [|Hc]; [by rewrite E|left; by right|right].
              destruct V1 as ([l El] & _). by eapply cleared_before.
           ++ right. destruct V as ([l El] & _). by eapply cleared_extend.
    + destruct (IH w Hi) as (w' & failed & -> & R & I & F & H). exists w', failed. split_and!; try done.
      intros [Ht Hr] Hf. destruct (H (conj (timers_ok_forget _ _ _ Ht Ea) Hr) Hf) as (V & W & ran & Hsub & Hlog & Hran & Hdue).
      split; [done|]. split; [done|]. exists ran. split_and!; [by apply sublist_cons|done|done|].
      intros Hff id' [->|Hin]%elem_of_cons Hs; [by rewrite Ea in Hs; destruct Hs|by apply Hdue].
Qed.

Lemma drain_spec w : intervals_ok w -> world_ok [] w -> exists w' failed, drain_ w = Ret (w', failed) /\
  (reads w <= reads w')%nat /\ intervals_ok w' /\ (failed = true -> exists l, (script l).2 = true) /\
  (few_reads w' -> evolves [] w w' /\ (failed = false -> world_ok [] w') /\
     exists due ran, NoDup due /\
       (forall id, id ∈ due <-> exists e, active (st w) !! id = Some e /\ t_deadline e <= now (reads w)) /\
       StronglySorted (fun a b => deadline_of (st w) a <= deadline_of (st w) b) due /\
       ran `sublist_of` due /\ log w' = rev (map (call_of (st w)) ran) ++ log w /\
       (failed = false -> forall id, id ∈ due -> id ∈ ran \/ cleared w w' id)).
Proof.
  intros Hi [Ht Hr]. unfold drain_due_timers. cbn [read_clock].
  destruct (collect_due_spec (S (length (heap (st w)))) (now (reads w)) (st w) [] ltac:(lia) Ht)
    as (h & due & E & Hok & Hiff & Hs). cbn in E |- *. rewrite E. cbn [mbind outcome_bind app] in *.
  set (w0 := MkWorld (with_heap h (st w)) (S (reads w)) (log w)).
  destruct (run_due_spec due w0 Hi) as (w' & failed & -> & R & I & F & H). exists w', failed.
  cbn in R. split_and!; [done|lia|done|done|]. intros Hf.
  assert (Hw0 : world_ok due w0) by (split; [exact Hok|unfold w0; cbn [st reads with_heap next_id]; lia]).
  destruct (H Hw0 Hf) as (V & W & ran & Hsub & Hlog & Hran & Hdue).
  split; [exact V|]. split; [exact W|]. exists due, ran.
  assert (Hiff' : forall id, id ∈ due <-> exists e, active (st w) !! id = Some e /\ t_deadline e <= now (reads w)).
  { intros id. rewrite Hiff. split; [by intros [_ ?]|]. intros (e & He & Hd). split; [|eauto].
    destruct Ht as (_ & _ & _ & _ & H5 & _). destruct (H5 _ _ He) as (_ & _ & [?|?%elem_of_nil]); done. }
  split_and!; [apply Hok|exact Hiff'|exact Hs|exact Hsub|exact Hlog|].
  intros Hff id Hin. apply Hdue; [done|done|]. apply Hiff' in Hin as (e & He & _). cbn. by rewrite He.
Qed.

(** A call into the script from a frame. *)
Lemma invoke_evolves L i fn t w : exists w', let c := FrameCall i fn t in let l := c :: log w in
  invoke_ c w = Ret (w', (script l).2) /\ (reads w <= reads w')%nat /\ (intervals_ok w -> intervals_ok w') /\
  (world_ok L w -> few_reads w' -> world_ok L w' /\ log w' = l /\ evolves [] w w').
Proof.
  destruct (invoke_spec L (FrameCall i fn t) w) as (w' & E & R & I & H). exists w'. cbn in *. split_and!; [done|done|done|].
  intros Hw Hf. destruct (H Hw Hf) as (Hw' & L1 & N1 & A1). split; [done|]. split; [done|].
  split_and!; [by exists [FrameCall i fn t]|done| | |].
  - intros id Hlt Hnone. destruct (A1 id Hlt) as [->|[-> _]]; done.
  - intros id e Hlt He. destruct (A1 id Hlt) as [->|[-> ?]]; [left; exists e; auto using same_timer_refl|].
    right. split; [done|]. right; left. by exists [], (FrameCall i fn t), [].
  - intros id e Hlt He Hr (l0 & f & a & El & Hin). assert (l0 = [FrameCall i fn t]) as ->.
    { apply (app_inv_tail (log w)). by rewrite <- El, L1. }
    by apply list_elem_of_singleton in Hin.
Qed.

Definition frame_call (t : double) (kv : Z * Z) : call := FrameCall kv.1 kv.2 t.

Lemma run_frames_spec cancelled t current w : exists w' failed called,
  run_frames now number_value script cancelled t current w = Ret (w', failed) /\
  (reads w <= reads w')%nat /\ (intervals_ok w -> intervals_ok w') /\
  (failed = true -> exists l, (script l).2 = true) /\
  called `prefix_of` filter (fun kv => kv.1 ∉ cancelled) current /\
  (failed = false -> called = filter (fun kv => kv.1 ∉ cancelled) current) /\
  (forall L, world_ok L w -> few_reads w' ->
     world_ok L w' /\ evolves [] w w' /\ log w' = rev (map (frame_call t) called) ++ log w).
Proof.
  revert w. induction current as [|[id fn] current IH]; intros w.
  { exists w, false, []. split_and!; try done. intros L Hw _. split; [done|]. split; [apply evolves_refl|done]. }
  cbn [run_frames]. case_bool_decide as Hc.
  - destruct (IH w) as (w' & failed & called & E & H). exists w', failed, called. rewrite E.
    rewrite filter_cons_False by (cbn; tauto). by split.
  - destruct (invoke_evolves [] id fn t w) as (w1 & E1 & R1 & I1 & _).
    assert (H1 : forall L, world_ok L w -> few_reads w1 -> world_ok L w1 /\ log w1 = FrameCall id fn t :: log w /\ evolves [] w w1).
    { intros L. destruct (invoke_evolves L id fn t w) as (w2 & E2 & _ & _ & H2). rewrite E1 in E2.
      injection E2 as <-. exact H2. }
    rewrite E1. cbn [mbind outcome_bind]. rewrite filter_cons_True by done.
    destruct ((script _).2) eqn:Ef.
    + exists w1, true, [(id, fn)]. split_and!; [done|done|done|eauto|apply prefix_cons, prefix_nil|done|].
      intros L Hw Hf. destruct (H1 L Hw Hf) as (W & E & V). by split_and!.
    + destruct (IH w1) as (w' & failed & called & -> & R & I & F & P & A & H).
      exists w', failed, ((id, fn) :: called). split_and!; [done|lia|auto|done|by apply prefix_cons|intros Hff; by rewrite A|].
      intros L Hw Hf. destruct (H1 L Hw ltac:(unfold few_reads in *; lia)) as (W1 & E & V1).
      destruct (H L W1 Hf) as (W & V & El). split; [done|]. split; [by apply (evolves_trans [] [] _ w1)|].
      rewrite El, E. cbn. by rewrite <- app_assoc.
Qed.

(** * Proofs: waiting *)

Lemma drop_stale_spec fuel s : (length (heap s) < fuel)%nat -> timers_ok [] s -> exists top h,
  drop_stale fuel s = Ret (top, with_heap h s) /\ timers_ok [] (with_heap h s) /\
  match top with
  | None => active s = ∅
  | Some d => (exists id e, active s !! id = Some e /\ t_deadline e = d) /\
              forall id e, active s !! id = Some e -> d <= t_deadline e
  end.
Proof.
  revert s. induction fuel as [|fuel IH]; intros s Hfuel Ht; [lia|]. cbn [drop_stale].
  destruct (pq_pop (heap s)) as [[top h]|] eqn:Ep.
  - apply pq_pop_min in Ep as [Hp Hmin]. assert (Hl : length (heap s) = S (length h)) by by rewrite Hp.
    destruct (active s !! n_id top) as [e|] eqn:Ea.
    + exists (Some (n_deadline top)), (heap s). destruct s as [ni ac he nr rq rc]. cbn in *. split_and!; [done|exact Ht| |].
      * destruct Ht as (_ & _ & _ & H4 & _). cbn in H4. rewrite Hp in H4. apply Forall_cons in H4 as [[_ H4] _].
        exists (n_id top), e. auto.
      * intros id e' He. destruct Ht as (_ & _ & _ & H4 & H5 & _). cbn in *.
        destruct (H5 _ _ He) as (_ & _ & [Hin|?%elem_of_nil]); [|done]. apply list_elem_of_fmap in Hin as (n & -> & Hin).
        rewrite Forall_forall in H4, Hmin. destruct (H4 _ Hin) as [_ ->]; [|done]. rewrite Hp in Hin.
        apply elem_of_cons in Hin as [->|Hin]; [lia|]. by apply Hmin.
    + destruct (IH (with_heap h s)) as (t & h' & E & Hok & Ht'); [cbn; lia|by eapply timers_ok_drop|].
      exists t, h'. by split_and!.
  - apply pq_pop_nil in Ep. exists None, (heap s). destruct s as [ni ac he nr rq rc]. cbn in *. split_and!; [done|exact Ht|].
    apply map_empty. intros id. destruct (ac !! id) eqn:E; [|done].
    destruct Ht as (_ & _ & _ & _ & H5 & _). cbn in *. destruct (H5 _ _ E) as (_ & _ & [H|H]); [|by apply elem_of_nil in H].
    rewrite Ep in H. by apply elem_of_nil in H.
Qed.

Lemma wait_spec w : world_ok [] w -> exists o w', next_timer_deadline_seconds now w = Ret (o, w') /\
  (reads w <= reads w')%nat /\ active (st w') = active (st w) /\ world_ok [] w' /\ evolves [] w w' /\
  match o with
  | None => active (st w) = ∅
  | Some x => exists id e, active (st w) !! id = Some e /\
      (forall id' e', active (st w) !! id' = Some e' -> t_deadline e <= t_deadline e') /\
      x = if t_deadline e <=? now (reads w) then fzero
          else fdiv (of_Z (t_deadline e - now (reads w))) (of_Z 1000000000)
  end.
Proof.
  intros [Ht Hr]. unfold next_timer_deadline_seconds.
  destruct (drop_stale_spec (S (length (heap (st w)))) (st w) ltac:(lia) Ht) as (top & h & -> & Hok & Htop).
  cbn [mbind outcome_bind]. assert (Hev : forall n, evolves [] w (MkWorld (with_heap h (st w)) n (log w))).
  { intros n. by apply evolves_same. }
  destruct top as [d|].
  - cbn [read_clock]. destruct Htop as [(id & e & He & <-) Hmin]. eexists _, _. split; [reflexivity|].
    split; [cbn; lia|]. split; [done|]. split; [split; [exact Hok|cbn [st reads with_heap next_id]; lia]|].
    split; [apply Hev|]. exists id, e. split_and!; [done|exact Hmin|done].
  - eexists _, _. split; [reflexivity|]. split; [done|]. split; [done|]. split; [by split|]. split; [apply Hev|done].
Qed.

(** * The host *)

(** What the event loop does with the timers, one step after another; a failing
    callback's exception is dropped, as the redraw pump does. *)
Inductive host_step : Type := HostAct (a : action) | HostTimers | HostFrames | HostWait.

Definition run_step (x : host_step) (w : world) : outcome world :=
  match x with
  | HostAct a => '(w, _) ← perform_ a w; Ret w
  | HostTimers => '(w, _) ← drain_ w; Ret w
  | HostFrames => '(w, _) ← drain_animation_frames now number_value script w; Ret w
  | HostWait => '(_, w) ← next_timer_deadline_seconds now w; Ret w
  end.

Fixpoint run_host (l : list host_step) (w : world) : outcome world :=
  match l with
  | [] => Ret w
  | x :: l' => w ← run_step x w; run_host l' w
  end.

Definition step_ok (x : host_step) : Prop := match x with HostAct a => action_ok a | _ => True end.
Definition host_actions (l : list host_step) : list action := omap (fun x => match x with HostAct a => Some a | _ => None end) l.
Definition never_fails : Prop := forall l, (script l).2 = false.

Lemma with_heap_id s : with_heap (heap s) s = s.
Proof. by destruct s. Qed.

Lemma collect_due_total fuel t s due : (length (heap s) < fuel)%nat ->
  exists h due', collect_due fuel t s due = Ret (with_heap h s, due').
Proof.
  revert s due. induction fuel as [|fuel IH]; intros s due Hl; [lia|]. cbn [collect_due].
  destruct (pq_pop (heap s)) as [[top h]|] eqn:Ep; [|exists (heap s), due; by rewrite with_heap_id].
  apply pq_pop_min in Ep as [Hp _]. rewrite Hp in Hl. cbn [length] in Hl.
  destruct (active s !! n_id top); [destruct (t <? n_deadline top); [exists (heap s), due; by rewrite with_heap_id|]|].
  - destruct (IH (with_heap h s) (due ++ [n_id top])) as (h' & due' & ->); [cbn; lia|by exists h', due'].
  - destruct (IH (with_heap h s) due) as (h' & due' & ->); [cbn; lia|by exists h', due'].
Qed.

Lemma drop_stale_total fuel s : (length (heap s) < fuel)%nat -> exists o h, drop_stale fuel s = Ret (o, with_heap h s).
Proof.
  revert s. induction fuel as [|fuel IH]; intros s Hl; [lia|]. cbn [drop_stale].
  destruct (pq_pop (heap s)) as [[top h]|] eqn:Ep; [|exists None, (heap s); by rewrite with_heap_id].
  apply pq_pop_min in Ep as [Hp _]. rewrite Hp in Hl. cbn [length] in Hl.
  destruct (active s !! n_id top); [by eexists _, (heap s); rewrite with_heap_id|].
  destruct (IH (with_heap h s)) as (o & h' & ->); [cbn; lia|by exists o, h'].
Qed.

Lemma frames_spec w : exists w' failed called,
  drain_animation_frames now number_value script w = Ret (w', failed) /\
  (reads w <= reads w')%nat /\ (intervals_ok w -> intervals_ok w') /\
  (failed = true -> exists l, (script l).2 = true) /\
  called `prefix_of` filter (fun kv => kv.1 ∉ raf_cancelled (st w)) (raf_queue (st w)) /\
  (failed = false -> called = filter (fun kv => kv.1 ∉ raf_cancelled (st w)) (raf_queue (st w))) /\
  (forall L, world_ok L w -> few_reads w' -> world_ok L w' /\ evolves [] w w' /\
     log w' = rev (map (frame_call (ms_of_ns (now (reads w)))) called) ++ log w).
Proof.
  unfold drain_animation_frames. destruct (raf_queue (st w)) as [|kv q] eqn:Eq.
  { exists w, false, []. split_and!; try done. intros L Hw _. split; [done|]. split; [apply evolves_refl|done]. }
  cbn [read_clock with_st st reads log].
  set (w0 := MkWorld _ (S (reads w)) (log w)).
  destruct (run_frames_spec (raf_cancelled (st w)) (ms_of_ns (now (reads w))) (kv :: q) w0)
    as (w' & failed & called & E & R & I & F & P & A & H).
  exists w', failed, called. split_and!; [exact E|cbn in R; lia|by intros; apply I|exact F|exact P|exact A|].
  intros L [Ht Hr] Hf. destruct (H L) as (W & V & El); [|exact Hf|].
  { split; [exact Ht|]. unfold w0. cbn [st reads next_id]. lia. }
  split; [exact W|]. split; [|exact El]. apply (evolves_trans [] [] w w0); [|exact V].
  by apply evolves_same.
Qed.

Lemma run_step_spec x w : intervals_ok w -> step_ok x -> exists w', run_step x w = Ret w' /\
  (reads w <= reads w')%nat /\ intervals_ok w' /\
  (world_ok [] w -> few_reads w' -> never_fails -> world_ok [] w' /\ evolves (host_actions [x]) w w').
Proof.
  intros Hi Hx. destruct x as [a| | |]; cbn [run_step].
  - destruct (perform_spec [] a w Hclock Hx) as (w' & r & -> & R & I & H). exists w'.
    split_and!; [done|done|auto|]. intros Hw Hf _. destruct (H Hw Hf) as [W (_ & El & Hn & Ha)]. split; [done|].
    split_and!; [by exists []|done| | |].
    + intros id Hlt Hnone. destruct (Ha id Hlt) as [->|[-> _]]; done.
    + intros id e Hlt He. destruct (Ha id Hlt) as [->|[-> ?]]; [left; exists e; auto using same_timer_refl|right; auto].
    + by intros id e _ _ _ ?%not_fired.
  - destruct (collect_due_total (S (length (heap (st w)))) (now (reads w)) (st w) [] ltac:(lia)) as (h & due & Ec).
    destruct (run_due_spec due (MkWorld (with_heap h (st w)) (S (reads w)) (log w)) Hi) as (w' & failed & Er & R & I & _).
    assert (Ed : drain_ w = Ret (w', failed)) by (unfold drain_due_timers; cbn [read_clock st]; rewrite Ec; exact Er).
    exists w'. rewrite Ed. cbn in R. split_and!; [done|lia|done|]. intros Hw Hf Hnf.
    destruct (drain_spec w Hi Hw) as (w2 & failed2 & E2 & _ & _ & F & H). rewrite Ed in E2. injection E2 as <- <-.
    destruct (H Hf) as (V & W & _). split; [|exact V]. apply W. destruct failed; [|done].
    destruct (F eq_refl) as [l El]. by rewrite Hnf in El.
  - destruct (frames_spec w) as (w' & failed & called & -> & R & I & _ & _ & _ & H). exists w'.
    split_and!; [done|done|auto|]. intros Hw Hf _. destruct (H [] Hw Hf) as (W & V & _). by split.
  - destruct (drop_stale_total (S (length (heap (st w)))) (st w) ltac:(lia)) as (o & h & Eo).
    assert (E : exists x w', next_timer_deadline_seconds now w = Ret (x, w') /\ (reads w <= reads w')%nat /\ active (st w') = active (st w)).
    { unfold next_timer_deadline_seconds. rewrite Eo. cbn [mbind outcome_bind read_clock].
      destruct o; eexists _, _; (split; [reflexivity|]); split; cbn; done || lia. }
    destruct E as (x & w' & E & R & Ea). exists w'. rewrite E. cbn [mbind outcome_bind].
    split_and!; [done|done|by unfold intervals_ok; rewrite Ea|]. intros Hw _ _.
    destruct (wait_spec w Hw) as (x' & w2 & E2 & _ & _ & W & V & _). rewrite E in E2. injection E2 as <- <-. by split.
Qed.

Lemma run_host_spec l w : intervals_ok w -> Forall step_ok l -> exists w', run_host l w = Ret w' /\
  (reads w <= reads w')%nat /\ intervals_ok w' /\
  (world_ok [] w -> few_reads w' -> never_fails -> world_ok [] w' /\ evolves (host_actions l) w w').
Proof.
  intros Hi Hl. revert w Hi. induction Hl as [|x l Hx Hl IH]; intros w Hi.
  - exists w. split_and!; [done|done|done|]. intros Hw _ _. split; [done|apply evolves_refl].
  - cbn [run_host]. destruct (run_step_spec x w Hi Hx) as (w1 & -> & R1 & I1 & H1). cbn [mbind outcome_bind].
    destruct (IH w1 I1) as (w' & -> & R & I & H). exists w'. split_and!; [done|lia|done|]. intros Hw Hf Hnf.
    destruct (H1 Hw ltac:(unfold few_reads in *; lia) Hnf) as [W1 V1]. destruct (H W1 Hf Hnf) as [W V]. split; [done|].
    assert (E : host_actions (x :: l) = host_actions [x] ++ host_actions l) by by destruct x.
    rewrite E. by apply (evolves_trans _ _ _ w1).
Qed.

Lemma run_host_app l1 l2 w : run_host (l1 ++ l2) w = (w1 ← run_host l1 w; run_host l2 w1).
Proof.
  revert w. induction l1 as [|x l1 IH]; intros w; [done|]. cbn [app run_host].
  destruct (run_step x w) as [w1| | |]; cbn [mbind outcome_bind]; [apply IH|done..].
Qed.

(** * Properties *)

(** One drain of the due timers: it calls the functions of timers whose deadline
    the clock has reached and of no others, each at most once, with the arguments they
    were given, in the order of the deadlines; unless a callback fails it calls every
    one of them that an earlier callback has not cleared, and leaves the heap and the
    table of timers in agreement, so that no live timer is forgotten. *)
Lemma drain_due_timers_spec w : intervals_ok w -> world_ok [] w -> exists w' failed, drain_ w = Ret (w', failed) /\
  (failed = true -> exists l, (script l).2 = true) /\
  (few_reads w' -> (failed = false -> world_ok [] w') /\
     exists due ran, NoDup due /\
       (forall id, id ∈ due <-> exists e, active (st w) !! id = Some e /\ t_deadline e <= now (reads w)) /\
       StronglySorted (fun a b => deadline_of (st w) a <= deadline_of (st w) b) due /\
       ran `sublist_of` due /\ log w' = rev (map (call_of (st w)) ran) ++ log w /\
       (failed = false -> forall id, id ∈ due -> id ∈ ran \/ cleared w w' id)).
Proof.
  intros Hi Hw. destruct (drain_spec w Hi Hw) as (w' & failed & E & _ & _ & F & H).
  exists w', failed. split_and!; [done|done|]. intros Hf. by destruct (H Hf) as (_ & ? & ?).
Qed.

(** C12. Every timer fires: whatever the host and a script that does not fail do, the
    first drain whose clock reading has reached a timer's deadline leaves it called,
    or it was cleared before; the event loop's steps always return, and afterwards a
    repeating timer is still scheduled and a one-shot one gone. *)
Theorem timer_fires pre post w id e : never_fails -> intervals_ok w -> world_ok [] w ->
  Forall step_ok pre -> Forall step_ok post -> active (st w) !! id = Some e ->
  exists w1 w', run_host pre w = Ret w1 /\ run_host (pre ++ HostTimers :: post) w = Ret w' /\
    (few_reads w' -> t_deadline e <= now (reads w1) ->
     (fired w w' id /\ (active (st w') !! id = None \/ repeat_ e = true)) \/
     cleared w w' id \/ clears id (host_actions (pre ++ post))).
Proof.
  intros Hnf Hi Hw Hpre Hpost He.
  destruct (run_host_spec pre w Hi Hpre) as (w1 & E1 & R1 & I1 & H1).
  destruct (run_host_spec (HostTimers :: post) w1 I1) as (w' & E' & R' & _ & H'); [by constructor|].
  exists w1, w'. split; [done|]. split; [by rewrite run_host_app, E1|]. intros Hf Hd.
  destruct (H1 Hw ltac:(unfold few_reads in *; lia) Hnf) as [W1 V1].
  cbn [run_host run_step] in E'. destruct (drain_spec w1 I1 W1) as (w2 & failed & E2 & R2 & I2 & F2 & H2).
  rewrite E2 in E'. cbn [mbind outcome_bind] in E'.
  destruct (run_host_spec post w2 I2 Hpost) as (w3 & E3 & R3 & _ & H3). rewrite E3 in E'. injection E' as ->.
  destruct (H2 ltac:(unfold few_reads in *; lia)) as (V2 & W2 & due & ran & _ & Hdue & _ & Hsub & Hlog & Hran).
  assert (Hff : failed = false) by (destruct failed; [destruct (F2 eq_refl) as [l El]; by rewrite Hnf in El|done]).
  destruct (H3 (W2 Hff) Hf Hnf) as [W3 V3].
  assert (V13 : evolves (host_actions post) w1 w') by (apply (evolves_trans [] _ _ w2); done).
  assert (V : evolves (host_actions (pre ++ post)) w w').
  { replace (host_actions (pre ++ post)) with (host_actions pre ++ host_actions post)
      by (unfold host_actions; by rewrite omap_app). by apply (evolves_trans _ _ _ w1). }
  assert (Hlt : id < next_id (st w)) by (by apply Hw in He as (_ & ? & _)).
  destruct V1 as ([l1 El1] & Hn1 & _ & Ha1 & _), V2 as ([l2 El2] & _), V3 as ([l3 El3] & _), V13 as ([l4 El4] & _).
  assert (Hfate : fired w w' id -> active (st w') !! id = None \/ repeat_ e = true).
  { intros Hfi. destruct (repeat_ e) eqn:Er; [by right|left]. destruct V as (_ & _ & _ & _ & Hg). by eapply Hg. }
  destruct (Ha1 id e Hlt He) as [(e1 & He1 & _ & [->|Hfi])|[_ [Hc|[Hc|[_ Hfi]]]]].
  - assert (Hin : id ∈ due) by (apply Hdue; eauto). destruct (Hran Hff id Hin) as [Hr|Hc].
    + left. assert (Hfi : fired w w' id); [|auto]. eapply fired_before; [exact El1|]. eapply fired_extend; [exact El3|].
      exists (rev (map (call_of (st w1)) ran)), (t_fn e), (t_args e). split; [done|]. apply list_elem_of_In, in_rev.
      rewrite rev_involutive. apply in_map_iff. exists id. split; [unfold call_of; by rewrite He1|by apply list_elem_of_In].
    + right; left. eapply cleared_before; [exact El1|]. eapply cleared_extend; [exact El3|exact Hc].
  - left. assert (Hfi' : fired w w' id) by (eapply fired_extend; [exact El4|exact Hfi]). auto.
  - right; right. unfold host_actions. rewrite omap_app. apply clears_app. by left.
  - right; left. eapply cleared_extend; [exact El4|exact Hc].
  - left. assert (Hfi' : fired w w' id) by (eapply fired_extend; [exact El4|exact Hfi]). auto.
Qed.

(** A frame calls the functions that were queued when it began, in the order they
    were requested, each once, with the frame's time; those requested meanwhile wait
    for the next frame; a failing callback ends the frame.  What is skipped is what
    [raf_cancelled] held before: cancelling during the frame has no effect on it. *)
Lemma drain_animation_frames_spec w : world_ok [] w -> exists w' failed called,
  drain_animation_frames now number_value script w = Ret (w', failed) /\
  called `prefix_of` filter (fun kv => kv.1 ∉ raf_cancelled (st w)) (raf_queue (st w)) /\
  (failed = false -> called = filter (fun kv => kv.1 ∉ raf_cancelled (st w)) (raf_queue (st w))) /\
  (failed = true -> exists l, (script l).2 = true) /\
  (few_reads w' -> world_ok [] w' /\
     log w' = rev (map (frame_call (ms_of_ns (now (reads w)))) called) ++ log w).
Proof.
  intros Hw. destruct (frames_spec w) as (w' & failed & called & E & _ & _ & F & P & A & H).
  exists w', failed, called. split_and!; [done..|]. intros Hf. by destruct (H [] Hw Hf) as (? & _ & ?).
Qed.
End Spec.

(** The event loop waits for the earliest timer: the wait is infinite exactly when
    no timer is live, and otherwise the time to a least deadline among the live
    timers, zero when that has passed; nodes of cleared timers never shorten it. *)
Lemma next_timer_deadline_spec {Q : PQueue} {HQ : PQueueLaws Q} (now : nat -> Z) w : world_ok [] w -> exists o w', next_timer_deadline_seconds now w = Ret (o, w') /\
  world_ok [] w' /\ active (st w') = active (st w) /\ log w' = log w /\
  match o with
  | None => active (st w) = ∅
  | Some x => exists id e, active (st w) !! id = Some e /\
      (forall id' e', active (st w) !! id' = Some e' -> t_deadline e <= t_deadline e') /\
      x = if t_deadline e <=? now (reads w) then fzero
          else fdiv (of_Z (t_deadline e - now (reads w))) (of_Z 1000000000)
  end.
Proof.
  intros Hw. destruct (wait_spec now (fun _ => ([], false)) w Hw) as (o & w' & E & _ & Ha & W & ([l El] & _) & Ho). exists o, w'.
  split; [done|]. split; [done|]. split; [done|]. split; [|done].
  unfold next_timer_deadline_seconds in E. apply bind_inv in E as ([top s] & _ & E).
  destruct top; injection E as _ <-; done.
Qed.

(** * Concrete inputs *)

(** A queue that keeps its nodes in the order they were pushed. *)
Fixpoint pop_min (h : list heap_node) : option (heap_node * list heap_node) :=
  match h with
  | [] => None
  | n :: h' =>
      match pop_min h' with
      | None => Some (n, [])
      | Some (m, r) => if n_deadline n <=? n_deadline m then Some (n, h') else Some (m, n :: r)
      end
  end.

#[export] Instance list_queue : PQueue := {| pq_push n h := h ++ [n]; pq_pop := pop_min |}.

Lemma pop_min_spec h n h' : pop_min h = Some (n, h') ->
  h ≡ₚ n :: h' /\ Forall (fun m => n_deadline n <= n_deadline m) h'.
Proof.
  revert n h'. induction h as [|x h IH]; intros n h' E; [done|]. cbn in E.
  destruct (pop_min h) as [[m r]|] eqn:Em.
  - destruct (IH _ _ eq_refl) as [Hp Hm]. destruct (Z.leb_spec (n_deadline x) (n_deadline m)); injection E as <- <-.
    + split; [done|]. rewrite Hp. constructor; [done|]. eapply Forall_impl; [exact Hm|]. cbn. lia.
    + split; [rewrite Hp; apply Permutation_swap|]. constructor; [lia|done].
  - injection E as <- <-. destruct h as [|y h]; [done|]. cbn in Em. by repeat case_match.
Qed.

#[export] Instance list_queue_laws : PQueueLaws list_queue.
Proof.
  split; cbn.
  - intros n h. symmetry. apply Permutation_cons_append.
  - intros [|n h] E; [done|]. cbn in E. by repeat case_match.
  - apply pop_min_spec.
Qed.

(** A clock of one millisecond a reading; a script whose function 1 clears the timer
    or frame 2, 2 fails, and 3 sets a timer. *)
Definition toy_now (n : nat) : Z := Z.min (Z.of_nat n * 1000000) (2 ^ 61).
Definition toy_number (v : jsvalue) : option double := match v with Num d => Some d | _ => None end.
Definition toy_script (l : list call) : list action * bool :=
  match l with
  | TimerCall _ 1 _ :: _ => ([ClearTimer [Num (of_Z 2)]], false)
  | FrameCall _ 1 _ :: _ => ([CancelFrame [Num (of_Z 2)]], false)
  | TimerCall _ 2 _ :: _ => ([], true)
  | TimerCall _ 3 _ :: _ => ([SetTimeout [Fn 4; Num (of_Z 5)]], false)
  | _ => ([], false)
  end.
Definition toy_quiet (l : list call) : list action * bool := ((toy_script l).1, false).
Definition toy_run (script : list call -> list action * bool) (l : list host_step) : outcome world :=
  run_host toy_now toy_number script l (MkWorld new_iso_state 0 []).

Definition world_of (r : outcome world) : world := match r with Ret w => w | _ => MkWorld new_iso_state 0 [] end.
Definition toy_world : world :=
  world_of (toy_run toy_quiet [HostAct (SetTimeout [Fn 4; Num (of_Z 5); Other 7]); HostAct (SetInterval [Fn 3; Num (of_Z 1)])]).

Lemma toy_clock_ok : clock_ok toy_now.
Proof. intros n. unfold toy_now. lia. Qed.

Lemma delay_ok_const d us : delay_us d = Ret us -> (0 <=? us) && (us <=? 2 ^ 52) = true -> delay_ok d.
Proof. intros E H. exists us. split; [done|]. lia. Qed.

Lemma toy_script_ok : script_ok toy_number toy_quiet.
Proof.
  intros l. unfold toy_quiet. cbn [fst]. destruct l as [|[id fn args|id fn t] l]; cbn [toy_script fst]; [constructor|..].
  - destruct fn as [|[[]|[]|]|]; cbn [fst]; repeat constructor; cbn; try (by eexists).
  - destruct fn as [|[[]|[]|]|]; cbn [fst]; repeat constructor; cbn; try (by eexists).
Qed.

Lemma empty_world_ok : intervals_ok (MkWorld new_iso_state 0 []) /\ world_ok [] (MkWorld new_iso_state 0 []).
Proof.
  split; [by intros id e|]. split; [|done]. unfold timers_ok. cbn. split_and!; try constructor; try done.
  by intros id ?%elem_of_nil.
Qed.

(** Worlds reached by the host with the toy script. *)
Lemma toy_run_ok l w : Forall (step_ok toy_number) l -> toy_run toy_quiet l = Ret w -> (reads w < 1000)%nat ->
  intervals_ok w /\ world_ok [] w.
Proof.
  intros Hl E Hr. destruct (run_host_spec toy_now toy_number toy_quiet toy_clock_ok toy_script_ok l _ (proj1 empty_world_ok) Hl)
    as (w' & E' & _ & I & H). unfold toy_run in E. rewrite E in E'. injection E' as <-. split; [done|].
  apply H; [apply empty_world_ok|unfold few_reads; lia|done].
Qed.

Lemma toy_world_ok : intervals_ok toy_world /\ world_ok [] toy_world.
Proof.
  eapply (toy_run_ok [HostAct (SetTimeout [Fn 4; Num (of_Z 5); Other 7]); HostAct (SetInterval [Fn 3; Num (of_Z 1)])]).
  - constructor; [|constructor; [|constructor]]; cbn [step_ok action_ok]; [apply (delay_ok_const _ 5000)|apply (delay_ok_const _ 1000)]; vm_compute; reflexivity.
  - vm_compute. reflexivity.
  - vm_compute. lia.
Qed.

Lemma drain_due_timers_spec_witness : exists w' failed,
  drain_due_timers toy_now toy_number toy_quiet toy_world = Ret (w', failed).
Proof.
  destruct (drain_due_timers_spec toy_now toy_number toy_quiet toy_clock_ok toy_script_ok toy_world) as (w' & failed & E & _).
  - apply toy_world_ok.
  - apply toy_world_ok.
  - exists w', failed. exact E.
Defined.

(** The timer of 5 milliseconds, with an interval of 1 millisecond set beside it. *)
Lemma timer_fires_witness : exists w1 w',
  run_host toy_now toy_number toy_quiet [HostTimers; HostTimers; HostFrames; HostWait; HostTimers] toy_world = Ret w1 /\
  run_host toy_now toy_number toy_quiet [HostTimers; HostTimers; HostFrames; HostWait; HostTimers; HostTimers; HostFrames] toy_world = Ret w' /\
  (few_reads w' -> 5000000 <= toy_now (reads w1) ->
   (fired toy_world w' 1 /\ (active (st w') !! 1 = None \/ false = true)) \/
   cleared toy_quiet toy_world w' 1 \/ clears 1 []).
Proof.
  apply (timer_fires toy_now toy_number toy_quiet toy_clock_ok toy_script_ok
           [HostTimers; HostTimers; HostFrames; HostWait; HostTimers] [HostFrames] toy_world 1
           (MkTimer 1 5000000 (of_Z 5) false 4 [Other 7])).
  - intros l. reflexivity.
  - apply toy_world_ok.
  - apply toy_world_ok.
  - repeat constructor.
  - repeat constructor.
  - vm_compute. reflexivity.
Defined.

Lemma next_timer_deadline_spec_witness : exists o w', next_timer_deadline_seconds toy_now toy_world = Ret (o, w').
Proof.
  destruct (next_timer_deadline_spec toy_now toy_world) as (o & w' & E & _); [apply toy_world_ok|].
  exists o, w'. exact E.
Defined.

Lemma drain_animation_frames_spec_witness : exists w' failed,
  drain_animation_frames toy_now toy_number toy_quiet toy_world = Ret (w', failed).
Proof.
  destruct (drain_animation_frames_spec toy_now toy_number toy_quiet toy_clock_ok toy_script_ok toy_world)
    as (w' & failed & _ & E & _); [apply toy_world_ok|].
  exists w', failed. exact E.
Defined.

(** A callback that fails ends the drain after the other due timers were taken off the
    heap: they stay in the table, never fire, and the event loop waits for ever. *)
Lemma failed_callback_drops_timers :
  let w := world_of (toy_run toy_script [HostAct (SetTimeout [Fn 2; Num (of_Z 1)]); HostAct (SetTimeout [Fn 4; Num (of_Z 1)]);
                                         HostWait; HostWait; HostTimers; HostTimers; HostTimers]) in
  log w = [TimerCall 1 2 []] /\ is_Some (active (st w) !! 2) /\
  (fst <$> next_timer_deadline_seconds toy_now w) = Ret None.
Proof. split_and!; [vm_compute; reflexivity|vm_compute; by eexists|vm_compute; reflexivity]. Qed.

(** A frame cancelled by an earlier callback of the same frame is still called. *)
Lemma cancel_mid_frame_ignored :
  (log <$> toy_run toy_script [HostAct (RequestFrame [Fn 1]); HostAct (RequestFrame [Fn 5]); HostFrames]) =
  Ret [FrameCall 2 5 (S754_zero false); FrameCall 1 1 (S754_zero false)].
Proof. vm_compute. reflexivity. Qed.

(** Cancelling an identifier that was not given out yet suppresses the frame that
    gets it later. *)
Lemma future_cancel_suppresses :
  (fun w => (log w, raf_queue (st w))) <$>
    toy_run toy_script [HostAct (CancelFrame [Num (of_Z 1)]); HostAct (RequestFrame [Fn 5]); HostFrames; HostFrames] = Ret ([], []).
Proof. vm_compute. reflexivity. Qed.

(** Casts of numbers that do not fit: an infinite delay, a negative identifier. *)
Lemma infinite_delay_undefined : toy_run toy_script [HostAct (SetTimeout [Fn 4; Num (S754_infinity false)])] = Ub.
Proof. vm_compute. reflexivity. Qed.

Lemma negative_id_undefined : toy_run toy_script [HostAct (ClearTimer [Num (of_Z (-1))])] = Ub.
Proof. vm_compute. reflexivity. Qed.
