(* ===== verification/IdbKeys.v ===== *)
(** IndexedDB keys ([src/js/bind_indexed_db.cpp]): the encoding of numbers, dates,
    strings and binary data as byte strings that SQLite orders like keys, key paths,
    and key ranges.

    Numbers are the 64 bits of an IEEE double, strings their UTF-8 bytes; a script
    value is the part of it that can be cloned, with the own properties of objects. *)

From S2P Require Import Prelude Utf16 Strings Doubles.

(** * Script values *)

Inductive value : Type :=
| Undefined
| Null
| Number (bits : Z)
| Date (bits : Z)
| String (text : bytes)
| Buffer (data : bytes)
| Object (props : list (bytes * value))
| Primitive (n : Z).

Definition is_object (v : value) : bool :=
  match v with Date _ | Buffer _ | Object _ => true | _ => false end.

(** [get_prop<Local<Value>>]: a property that is missing is undefined. *)
Definition get_prop (v : value) (name : bytes) : value :=
  match v with Object props => default Undefined (lookup_name name props) | _ => Undefined end.

(** * Encoding *)

Definition encode_double_bytes (u : Z) : bytes :=
  be_bytes 8 (if Z.testbit u 63 then Z.lxor u (2 ^ 64 - 1) else Z.lxor u (2 ^ 63)).
Definition decode_double_bytes (data : bytes) : Z :=
  let u := be_value data in
  if Z.testbit u 63 then Z.lxor u (2 ^ 63) else Z.lxor u (2 ^ 64 - 1).

Definition escape_byte (b : Z) : bytes := if b =? 0 then [0; 1] else [b].
Definition encode_byte_run (data : bytes) : bytes := concat (map escape_byte data) ++ [0; 0].

Fixpoint decode_byte_run (data : bytes) : option bytes :=
  match data with
  | [] => None
  | b :: data' =>
      if b =? 0 then
        match data' with
        | [] => None
        | b2 :: data'' => if b2 =? 0 then Some [] else if b2 =? 1 then cons 0 <$> decode_byte_run data'' else None
        end
      else cons b <$> decode_byte_run data'
  end.

(** An error message or the encoded key. *)
Definition encode_key (v : value) : string + bytes :=
  match v with
  | Undefined | Null => inl "IndexedDB key is required"%string
  | Number d => if nan_bits d then inl "IndexedDB key cannot be NaN"%string else inr (0x10 :: encode_double_bytes d)
  | Date d => if nan_bits d then inl "IndexedDB Date key cannot be NaN"%string else inr (0x20 :: encode_double_bytes d)
  | String text => inr (0x30 :: encode_byte_run text)
  | Buffer data => inr (0x40 :: encode_byte_run data)
  | _ => inl "IndexedDB key must be number, string, Date, or ArrayBuffer (v1 omits arrays)"%string
  end.

Definition decode_key (data : bytes) : value :=
  match data with
  | [] => Undefined
  | tag :: rest =>
      if ((tag =? 0x10) || (tag =? 0x20)) && (9 <=? zlen data) then
        let d := decode_double_bytes (ztake 8 rest) in
        if tag =? 0x20 then Date d else Number d
      else if tag =? 0x30 then match decode_byte_run rest with None => Undefined | Some b => String b end
      else if tag =? 0x40 then match decode_byte_run rest with None => Undefined | Some b => Buffer b end
      else Undefined
  end.

(** [memcmp] *)
Fixpoint memcmp (a b : bytes) : Z :=
  match a, b with
  | x :: a', y :: b' => if x <? y then -1 else if y <? x then 1 else memcmp a' b'
  | _, _ => 0
  end.
Definition compare_blobs (a b : bytes) : Z :=
  let n := Z.min (zlen a) (zlen b) in
  let c := memcmp (ztake n a) (ztake n b) in
  if negb (c =? 0) then (if c <? 0 then -1 else 1)
  else if zlen a =? zlen b then 0
  else if zlen a <? zlen b then -1 else 1.

(** [indexedDB.cmp] *)
Definition factory_cmp (a b : value) : string + Z :=
  match encode_key a with
  | inl error => inl error
  | inr ka => match encode_key b with inl error => inl error | inr kb => inr (compare_blobs ka kb) end
  end.

(** * Key paths *)

Definition resolve_key_path_segment (v : value) (seg : bytes) : value :=
  if negb (is_object v) then Undefined else get_prop v seg.

Fixpoint resolve_segments (cur : value) (segs : list bytes) : value :=
  match segs with
  | [] => cur
  | seg :: segs' =>
      match resolve_key_path_segment cur seg with
      | Undefined => Undefined
      | next => resolve_segments next segs'
      end
  end.
Definition resolve_key_path (root : value) (path : bytes) : value :=
  if bool_decide (path = []) then root else resolve_segments root (pieces (chr ".") path).

(** Properties set on a date or a buffer are not cloned. *)
Definition set_prop (obj : value) (name : bytes) (v : value) : value :=
  match obj with Object props => Object (update_name name v props) | _ => obj end.

Fixpoint inject_segments (cur : value) (segs : list bytes) (v : value) : value :=
  match segs with
  | [] => cur
  | [seg] => set_prop cur seg v
  | seg :: segs' =>
      let next := get_prop cur seg in
      set_prop cur seg (inject_segments (if is_object next then next else Object []) segs' v)
  end.
Definition inject_key_path (obj : value) (path : bytes) (v : value) : value :=
  if bool_decide (path = []) then obj else inject_segments obj (pieces (chr ".") path) v.

(** * Key ranges *)

Record key_range : Type := MkRange {
  has_lower : bool; lower_open : bool; lower : bytes; has_upper : bool; upper_open : bool; upper : bytes }.

Definition everything : key_range := MkRange false false [] false false [].
Definition only_key (k : bytes) : key_range := MkRange true false k true false k.

Definition key_range_only (v : value) : string + key_range :=
  match encode_key v with inl error => inl error | inr k => inr (only_key k) end.
Definition key_range_lower_bound (v : value) (open : bool) : string + key_range :=
  match encode_key v with inl error => inl error | inr k => inr (MkRange true open k false false []) end.
Definition key_range_upper_bound (v : value) (open : bool) : string + key_range :=
  match encode_key v with inl error => inl error | inr k => inr (MkRange false false [] true open k) end.
Definition key_range_bound (l u : value) (l_open u_open : bool) : string + key_range :=
  match encode_key l with
  | inl error => inl error
  | inr lk =>
      match encode_key u with
      | inl error => inl error
      | inr uk =>
          let c := compare_blobs lk uk in
          if (0 <? c) || ((c =? 0) && (l_open || u_open)) then inl "IDBKeyRange.bound: lower must be <= upper"%string
          else inr (MkRange true l_open lk true u_open uk)
      end
  end.

Definition key_range_includes (r : key_range) (v : value) : string + bool :=
  match encode_key v with
  | inl error => inl error
  | inr k =>
      let ok := negb (has_lower r && (let c := compare_blobs k (lower r) in if lower_open r then c <=? 0 else c <? 0)) in
      inr (ok && negb (has_upper r && (let c := compare_blobs k (upper r) in if upper_open r then 0 <=? c else 0 <? c)))
  end.

(** What a query argument may be. *)
Inductive query : Type := Q_value (v : value) | Q_range (r : key_range).
Definition decode_query (q : query) (allow_undefined : bool) : string + key_range :=
  match q with
  | Q_value Undefined | Q_value Null =>
      if negb allow_undefined then inl "IndexedDB query is required"%string else inr everything
  | Q_range r => inr r
  | Q_value v => key_range_only v
  end.

(** * Order of encoded keys *)

Lemma memcmp_take a b n : zlen a <= n \/ zlen b <= n -> memcmp (ztake n a) (ztake n b) = memcmp a b.
Proof.
  unfold ztake. intros H. assert (H' : (length a <= Z.to_nat n \/ length b <= Z.to_nat n)%nat) by lia. clear H.
  revert b H'. generalize (Z.to_nat n). clear n. induction a as [|x a IH]; intros [|m] [|y b] H'; try done.
  - cbn [length] in H'. lia.
  - cbn [take memcmp]. destruct (x <? y), (y <? x); try done. apply IH. cbn [length] in H'. lia.
Qed.

Lemma memcmp_spec a b :
  memcmp a b = -1 /\ bytes_lt a b = true \/ memcmp a b = 1 /\ bytes_lt b a = true \/
  memcmp a b = 0 /\ bytes_lt a b = (length a <? length b)%nat /\ bytes_lt b a = (length b <? length a)%nat.
Proof.
  revert b. induction a as [|x a IH]; intros [|y b]; cbn [memcmp bytes_lt length]; try (right; right; by split).
  destruct (Z.ltb_spec x y); [by left|]. destruct (Z.ltb_spec y x); [by right; left|].
  destruct (IH b) as [H'|[H'|(H1 & H2 & H3)]]; [by left|by right; left|right; right]. split; [done|]. by rewrite H2, H3.
Qed.

(** [compare_blobs] is the lexicographic order. *)
Lemma compare_blobs_spec a b : compare_blobs a b = if bytes_lt a b then -1 else if bytes_lt b a then 1 else 0.
Proof.
  unfold compare_blobs. rewrite memcmp_take by lia.
  destruct (memcmp_spec a b) as [[-> ->]|[[-> H]|(-> & -> & ->)]]; [done| |].
  - rewrite H. by rewrite (bytes_lt_asym _ _ H).
  - cbn [Z.eqb negb]. destruct (Z.eqb_spec (zlen a) (zlen b)), (Z.ltb_spec (zlen a) (zlen b)),
      (Nat.ltb_spec (length a) (length b)), (Nat.ltb_spec (length b) (length a)); lia.
Qed.

Lemma lxor_all u : 0 <= u < 2 ^ 64 -> Z.lxor u (2 ^ 64 - 1) = 2 ^ 64 - 1 - u.
Proof.
  intros Hu. pose proof (Z.add_nocarry_lxor (Z.lxor u (2 ^ 64 - 1)) u) as A.
  rewrite Z.lxor_assoc, (Z.lxor_comm _ u), <- Z.lxor_assoc, Z.lxor_nilpotent, Z.lxor_0_l in A.
  enough (Z.lxor u (2 ^ 64 - 1) + u = 2 ^ 64 - 1) by lia. apply A.
  apply Z.bits_inj'. intros i Hi. rewrite Z.land_spec, Z.lxor_spec, Z.bits_0. change (2 ^ 64 - 1) with (Z.ones 64).
  destruct (Z.ltb_spec i 64); [rewrite Z.ones_spec_low by lia; by destruct (Z.testbit u i)|].
  by rewrite (testbit_above 64 u i), andb_false_r by lia.
Qed.

Lemma lxor_sign u : 0 <= u < 2 ^ 63 -> Z.lxor u (2 ^ 63) = u + 2 ^ 63.
Proof.
  intros Hu. symmetry. apply Z.add_nocarry_lxor. apply Z.bits_inj'. intros i Hi. rewrite Z.land_spec, Z.bits_0.
  destruct (Z.eq_dec i 63) as [->|]; [by rewrite (testbit_above 63 u 63) by lia|].
  by rewrite Z.pow2_bits_false, andb_false_r by lia.
Qed.

Lemma sign_bit u : 0 <= u < 2 ^ 64 -> Z.testbit u 63 = (2 ^ 63 <=? u).
Proof.
  intros Hu. rewrite Z.testbit_eqb by lia. destruct (Z.leb_spec (2 ^ 63) u); [apply Z.eqb_eq|apply Z.eqb_neq]; dlia.
Qed.

Lemma encode_double_order u : 0 <= u < 2 ^ 64 -> encode_double_bytes u = be_bytes 8 (bits_order u) /\ 0 <= bits_order u < 2 ^ 64.
Proof.
  intros Hu. unfold encode_double_bytes, bits_order. rewrite sign_bit by done.
  destruct (Z.leb_spec (2 ^ 63) u); (split; [f_equal|lia]); [by apply lxor_all|apply lxor_sign; lia].
Qed.

Lemma length_encode_double u : length (encode_double_bytes u) = 8%nat.
Proof. apply length_be_bytes. Qed.

Lemma decode_encode_double u : 0 <= u < 2 ^ 64 -> decode_double_bytes (encode_double_bytes u) = u.
Proof.
  intros Hu. destruct (encode_double_order u Hu) as [E Hr]. unfold decode_double_bytes. rewrite E, be_value_be_bytes by done.
  rewrite sign_bit by done. unfold bits_order in *. destruct (Z.leb_spec (2 ^ 63) u).
  - destruct (Z.leb_spec (2 ^ 63) (2 ^ 64 - 1 - u)); [lia|]. rewrite lxor_all by lia. lia.
  - destruct (Z.leb_spec (2 ^ 63) (u + 2 ^ 63)); [|lia]. rewrite <- (lxor_sign u) by lia.
    by rewrite Z.lxor_assoc, Z.lxor_nilpotent, Z.lxor_0_r.
Qed.

Lemma decode_number_payload u : 0 <= u < 2 ^ 64 ->
  (forall tag : Z, (9 <=? zlen (tag :: encode_double_bytes u)) = true) /\ decode_double_bytes (ztake 8 (encode_double_bytes u)) = u.
Proof.
  intros Hu. pose proof (length_encode_double u) as L. split; [intros; apply Z.leb_le; cbn [length]; lia|].
  unfold ztake. rewrite take_ge by lia. by apply decode_encode_double.
Qed.

Lemma byte_run_order a b : is_bytes a -> is_bytes b -> bytes_lt (encode_byte_run a) (encode_byte_run b) = bytes_lt a b.
Proof.
  unfold encode_byte_run. intros Ha. revert b. induction Ha as [|x a Hx Ha IH]; intros b Hb; destruct Hb as [|y b Hy Hb]; try done.
  - cbn [map concat app]. unfold escape_byte at 1. unfold is_byte in Hy. destruct (Z.eqb_spec y 0) as [->|]; [done|].
    cbn [app bytes_lt]. destruct (Z.ltb_spec 0 y); [done|lia].
  - cbn [map concat app]. unfold escape_byte at 1. unfold is_byte in Hx. destruct (Z.eqb_spec x 0) as [->|]; [done|].
    cbn [app bytes_lt]. destruct (Z.ltb_spec x 0); [lia|]. destruct (Z.ltb_spec 0 x); [done|lia].
  - cbn [map concat app]. rewrite <- !app_assoc. unfold escape_byte at 1 3. unfold is_byte in Hx, Hy. cbn [bytes_lt].
    destruct (Z.eqb_spec x 0) as [->|], (Z.eqb_spec y 0) as [->|]; cbn [app bytes_lt].
    + by apply IH.
    + destruct (Z.ltb_spec 0 y); [done|lia].
    + destruct (Z.ltb_spec x 0); [lia|]. destruct (Z.ltb_spec 0 x); [done|lia].
    + destruct (x <? y), (y <? x); try done. by apply IH.
Qed.

Lemma decode_encode_run data : decode_byte_run (encode_byte_run data) = Some data.
Proof.
  unfold encode_byte_run. induction data as [|b data IH]; [done|]. cbn [map concat]. rewrite <- app_assoc. unfold escape_byte at 1.
  destruct (Z.eqb_spec b 0) as [->|Hb]; cbn [app decode_byte_run Z.eqb]; [by rewrite IH|].
  destruct (Z.eqb_spec b 0); [done|]. by rewrite IH.
Qed.

(** * The order of keys *)

(** Numbers before dates before strings before binary data; numbers and dates by their
    value, the negative zero before the positive one, strings and data by their bytes. *)
Definition number_before (u w : Z) : Prop := fltb (of_bits u) (of_bits w) = true \/ u = 2 ^ 63 /\ w = 0.
Definition rank (v : value) : Z :=
  match v with Number _ => 1 | Date _ => 2 | String _ => 3 | Buffer _ => 4 | _ => 0 end.
Definition key_before (a b : value) : Prop :=
  match a, b with
  | Number u, Number w | Date u, Date w => number_before u w
  | String s, String t | Buffer s, Buffer t => bytes_lt s t = true
  | _, _ => rank a < rank b
  end.

Definition value_ok (v : value) : Prop :=
  match v with Number u | Date u => 0 <= u < 2 ^ 64 | String s | Buffer s => is_bytes s | _ => True end.

Lemma double_keys_order u w : 0 <= u < 2 ^ 64 -> 0 <= w < 2 ^ 64 -> nan_bits u = false -> nan_bits w = false ->
  bytes_lt (encode_double_bytes u) (encode_double_bytes w) = true <-> number_before u w.
Proof.
  intros Hu Hw Nu Nw. destruct (encode_double_order u Hu) as [-> Ru]. destruct (encode_double_order w Hw) as [-> Rw].
  rewrite bytes_lt_be_bytes, Z.ltb_lt by done. by apply bits_order_spec.
Qed.

Lemma encode_key_before a b ka kb : value_ok a -> value_ok b -> encode_key a = inr ka -> encode_key b = inr kb ->
  bytes_lt ka kb = true <-> key_before a b.
Proof.
  intros Ha Hb Ea Eb. destruct a as [| |u|u|s|s|p|n]; try done; destruct b as [| |w|w|t|t|q|k]; try done; cbn [encode_key] in Ea, Eb;
    repeat match goal with
           | H : (if nan_bits ?d then _ else _) = _ |- _ => destruct (nan_bits d) eqn:?; [done|]
           end;
    injection Ea as <-; injection Eb as <-; cbn [bytes_lt Z.ltb Z.compare Pos.compare Pos.compare_cont key_before rank];
    try (split; intros; (done || lia)).
  - by apply double_keys_order.
  - by apply double_keys_order.
  - by rewrite byte_run_order.
  - by rewrite byte_run_order.
Qed.

Lemma decode_encode_key v k : value_ok v -> encode_key v = inr k -> decode_key k = v.
Proof.
  intros Hv E. destruct v as [| |u|u|s|s|p|n]; try done; cbn [encode_key] in E;
    repeat match goal with
           | H : (if nan_bits ?d then _ else _) = _ |- _ => destruct (nan_bits d) eqn:?; [done|]
           end; injection E as <-; unfold decode_key; cbn [Z.eqb Pos.eqb orb andb].
  - destruct (decode_number_payload u Hv) as [-> E]. cbv zeta. by rewrite E.
  - destruct (decode_number_payload u Hv) as [-> E]. cbv zeta. by rewrite E.
  - by rewrite decode_encode_run.
  - by rewrite decode_encode_run.
Qed.

Lemma idb_encode_key_inj a b k : value_ok a -> value_ok b -> encode_key a = inr k -> encode_key b = inr k -> a = b.
Proof. intros Ha Hb Ea Eb. apply decode_encode_key in Ea, Eb; congruence. Qed.

(** C25. The encoding of keys keeps their order and loses nothing.  For any two values
    that are keys, the encoded byte strings compare, bytewise as SQLite compares them and
    as [indexedDB.cmp] does, exactly as the keys: by kind, then numbers and dates by their
    value as IEEE doubles (the two zeros are told apart), strings and binary data by their
    bytes; and decoding gives the key back. *)
Theorem idb_keys_ordered a b ka kb : value_ok a -> value_ok b -> encode_key a = inr ka -> encode_key b = inr kb ->
  (bytes_lt ka kb = true <-> key_before a b) /\
  (exists c, factory_cmp a b = inr c /\ (c < 0 <-> key_before a b) /\ (0 < c <-> key_before b a) /\ (c = 0 <-> a = b)) /\
  decode_key ka = a.
Proof.
  intros Ha Hb Ea Eb. pose proof (encode_key_before a b ka kb Ha Hb Ea Eb) as H1.
  pose proof (encode_key_before b a kb ka Hb Ha Eb Ea) as H2.
  split; [exact H1|]. split; [|by apply decode_encode_key]. unfold factory_cmp. rewrite Ea, Eb. eexists. split; [done|].
  rewrite <- H1, <- H2, compare_blobs_spec. destruct (bytes_lt ka kb) eqn:L1.
  - rewrite (bytes_lt_asym _ _ L1). split_and!; (split; intros; try done; try lia).
    subst b. rewrite Ea in Eb. injection Eb as <-. by rewrite bytes_lt_irrefl in L1.
  - destruct (bytes_lt kb ka) eqn:L2.
    + split_and!; (split; intros; try done; try lia). subst b. rewrite Ea in Eb. injection Eb as <-. by rewrite bytes_lt_irrefl in L2.
    + split_and!; (split; intros; try done; try lia). pose proof (bytes_lt_total _ _ L1 L2). subst kb. by eapply idb_encode_key_inj.
Qed.

Lemma idb_keys_ordered_witness : exists c,
  factory_cmp (Number (2 ^ 63 + 1)) (Number 1) = inr c /\ c < 0 /\ key_before (Number (2 ^ 63 + 1)) (Number 1).
Proof.
  destruct (idb_keys_ordered (Number (2 ^ 63 + 1)) (Number 1) (0x10 :: encode_double_bytes (2 ^ 63 + 1)) (0x10 :: encode_double_bytes 1))
    as (H & (c & E & H1 & _) & _); [cbn; lia|cbn; lia|reflexivity|reflexivity|].
  exists c. assert (K : key_before (Number (2 ^ 63 + 1)) (Number 1)) by (left; reflexivity).
  split; [exact E|]. split; [by apply H1|exact K].
Defined.

(** * Ranges *)

(** The condition queries put on a key. *)
Definition above_lower (r : key_range) (k : bytes) : bool :=
  negb (has_lower r) || (if lower_open r then bytes_lt (lower r) k else negb (bytes_lt k (lower r))).
Definition below_upper (r : key_range) (k : bytes) : bool :=
  negb (has_upper r) || (if upper_open r then bytes_lt k (upper r) else negb (bytes_lt (upper r) k)).
Definition in_range (r : key_range) (k : bytes) : bool := above_lower r k && below_upper r k.

Lemma compare_blobs_sign a b :
  (compare_blobs a b <? 0) = bytes_lt a b /\ (0 <? compare_blobs a b) = bytes_lt b a /\
  (compare_blobs a b <=? 0) = negb (bytes_lt b a) /\ (0 <=? compare_blobs a b) = negb (bytes_lt a b).
Proof.
  rewrite compare_blobs_spec. destruct (bytes_lt a b) eqn:E; [by rewrite (bytes_lt_asym _ _ E)|]. by destruct (bytes_lt b a).
Qed.

Lemma key_range_includes_spec r v : key_range_includes r v = match encode_key v with inl e => inl e | inr k => inr (in_range r k) end.
Proof.
  unfold key_range_includes, in_range, above_lower, below_upper. destruct (encode_key v) as [e|k]; [done|]. cbv zeta.
  destruct (compare_blobs_sign k (lower r)) as (-> & _ & -> & _). destruct (compare_blobs_sign k (upper r)) as (_ & -> & _ & ->).
  f_equal. f_equal; destruct (has_lower r), (has_upper r), (lower_open r), (upper_open r); cbn; rewrite ?negb_involutive; done.
Qed.

Lemma in_range_only k k' : in_range (only_key k) k' = bool_decide (k' = k).
Proof.
  unfold in_range, above_lower, below_upper, only_key. cbn.
  destruct (bytes_lt k' k) eqn:E1; [symmetry; apply bool_decide_eq_false; intros ->; by rewrite bytes_lt_irrefl in E1|].
  destruct (bytes_lt k k') eqn:E2; [symmetry; apply bool_decide_eq_false; intros ->; by rewrite bytes_lt_irrefl in E2|].
  symmetry. apply bool_decide_eq_true. by apply bytes_lt_total.
Qed.

(** * What modelling showed *)

(** The two zeros are different keys; in IndexedDB they are one. *)
Lemma zeros_differ : factory_cmp (Number (2 ^ 63)) (Number 0) = inr (-1).
Proof. vm_compute. reflexivity. Qed.

(** Strings are ordered by code points; IndexedDB orders them by UTF-16 code units. *)
Lemma strings_by_code_point :
  let emoji := Utf16.utf16_to_utf8 [0xD83D; 0xDE00] in let tilde := Utf16.utf16_to_utf8 [0xFF5E] in
  factory_cmp (String tilde) (String emoji) = inr (-1) /\ 0xD83D < 0xFF5E.
Proof. split; [vm_compute; reflexivity|lia]. Qed.
