(* ===== verification/IndexedDb.v ===== *)
(** IndexedDB ([src/js/bind_indexed_db.cpp]): databases with object stores and indexes
    in SQLite tables, transactions, the operations of stores, indexes and cursors, and
    the upgrade of a database's schema.

    SQLite is what its documentation says of the statements the code builds: tables in
    the order of their primary key, compared bytewise; [PRIMARY KEY] and missing tables
    as the only errors; one connection, whose transaction a second [BEGIN] is refused.
    The code pastes the names of stores and indexes into its statements, so names are
    identifiers here.  V8's structured clone is a parameter.  A call either throws,
    answers with a request that is rejected or resolved in a later microtask, or, for
    [std::unordered_map::at] on a deleted store, ends in a C++ exception. *)

From S2P Require Import Prelude Strings Doubles IdbKeys.

(** * The database *)

Record index_meta : Type := MkIndexMeta { i_name : bytes; i_key_path : bytes; i_unique : bool; i_multi : bool }.
Record store_meta : Type := MkStoreMeta {
  s_name : bytes; s_key_path : option bytes; auto_increment : bool; auto_seq : Z; indexes : list (bytes * index_meta) }.

(** The tables: [__meta], [__stores], [__indexes] (by store and name), and those of keys
    and values or of index keys and primary keys, by their name. *)
Definition rows : Type := list (bytes * bytes).
Record sql : Type := MkSql {
  user_version : Z;
  store_rows : list (bytes * (option bytes * bool * Z));
  index_rows : list (bytes * bytes * (bytes * bool * bool));
  tables : list (bytes * rows) }.

Inductive tx_mode : Type := readonly | readwrite | versionchange.
#[export] Instance tx_mode_eq_dec : EqDecision tx_mode.
Proof. solve_decision. Defined.
Record transaction : Type := MkTx { mode : tx_mode; active : bool; finished : bool; errored : bool; store_names : list bytes }.

(** [saved]: what SQLite goes back to on [ROLLBACK], while a transaction is open.
    [upgrading]: the transaction on the handle under [__fxe_active_tx]. *)
Record database : Type := MkDb {
  now : sql; saved : option sql; version : Z; closed : bool; stores : list (bytes * store_meta);
  txs : list transaction; upgrading : option nat }.

Definition set_now (s : sql) (d : database) : database :=
  MkDb s (saved d) (version d) (closed d) (stores d) (txs d) (upgrading d).
Definition set_saved (s : option sql) (d : database) : database :=
  MkDb (now d) s (version d) (closed d) (stores d) (txs d) (upgrading d).
Definition set_version (v : Z) (d : database) : database :=
  MkDb (now d) (saved d) v (closed d) (stores d) (txs d) (upgrading d).
Definition set_stores (m : list (bytes * store_meta)) (d : database) : database :=
  MkDb (now d) (saved d) (version d) (closed d) m (txs d) (upgrading d).
Definition set_txs (l : list transaction) (d : database) : database :=
  MkDb (now d) (saved d) (version d) (closed d) (stores d) l (upgrading d).
Definition set_upgrading (t : option nat) (d : database) : database :=
  MkDb (now d) (saved d) (version d) (closed d) (stores d) (txs d) t.
Definition set_closed (d : database) : database :=
  MkDb (now d) (saved d) (version d) true (stores d) (txs d) (upgrading d).

Definition set_tables (t : list (bytes * rows)) (s : sql) : sql := MkSql (user_version s) (store_rows s) (index_rows s) t.
Definition set_store_rows (l : list (bytes * (option bytes * bool * Z))) (s : sql) : sql :=
  MkSql (user_version s) l (index_rows s) (tables s).
Definition set_index_rows (l : list (bytes * bytes * (bytes * bool * bool))) (s : sql) : sql :=
  MkSql (user_version s) (store_rows s) l (tables s).
Definition set_user_version (v : Z) (s : sql) : sql := MkSql v (store_rows s) (index_rows s) (tables s).

Inductive reply (A : Type) : Type := Throws (error : string) | Rejects (error : string) | Resolves (result : A).
Arguments Throws {A}. Arguments Rejects {A}. Arguments Resolves {A}.

(** * Tables *)

(** SQLite's names of tables do not depend on case. *)
Definition store_table (store : bytes) : bytes := ascii_lower (str "store_" ++ store).
Definition index_table (store index : bytes) : bytes := ascii_lower (str "idx_" ++ store ++ str "_" ++ index).

Definition table (name : bytes) (s : sql) : option rows := lookup_name name (tables s).
Definition put_table (name : bytes) (r : rows) (s : sql) : sql := set_tables (update_name name r (tables s)) s.
Definition drop_table (name : bytes) (s : sql) : sql := set_tables (remove_name name (tables s)) s.

Definition pair_lt (a b : bytes * bytes) : bool :=
  bytes_lt a.1 b.1 || negb (bytes_lt b.1 a.1) && bytes_lt a.2 b.2.
(** A row of an index table, in the order of its primary key. *)
Definition index_insert (ik pk : bytes) (r : rows) : rows := insert_sorted pair_lt (ik, pk) r.
Definition delete_pk (pk : bytes) (r : rows) : rows := filter (fun x => x.2 <> pk) r.

(** * Transactions *)

Definition begin_error : string := "cannot start a transaction within a transaction".

(** The new transaction and whether an exception was thrown. *)
Definition create_transaction (names : list bytes) (m : tx_mode) (d : database) : nat * option string * database :=
  let t := length (txs d) in
  match saved d with
  | Some _ => (t, Some begin_error, set_txs (txs d ++ [MkTx m false true true names]) d)
  | None => (t, None, set_saved (Some (now d)) (set_txs (txs d ++ [MkTx m true false false names]) d))
  end.

Definition update_tx (t : nat) (x : transaction) (d : database) : database := set_txs (<[t := x]> (txs d)) d.
Definition finish (x : transaction) (err : bool) : transaction := MkTx (mode x) (active x) true (errored x || err) (store_names x).

Definition tx_commit_internal (t : nat) (d : database) : database :=
  match txs d !! t with
  | Some x =>
      if negb (active x) || finished x then d
      else match saved d with
           | None => update_tx t (finish x true) d
           | Some _ => set_saved None (update_tx t (finish x false) d)
           end
  | None => d
  end.

Definition tx_abort_internal (t : nat) (d : database) : database :=
  match txs d !! t with
  | Some x =>
      if finished x then d
      else
        let d' := if active x then match saved d with Some s => set_saved None (set_now s d) | None => d end else d in
        update_tx t (finish x false) d'
  | None => d
  end.

(** * Stores *)

Record handle : Type := MkHandle { h_store : bytes; h_tx : nat; h_index : option bytes }.

Definition is_index (h : handle) : bool := match h_index h with Some _ => true | None => false end.
Definition ensure_active_tx (d : database) (h : handle) : bool :=
  match txs d !! h_tx h with Some x => active x && negb (finished x) | None => false end.
Definition require_writable (d : database) (h : handle) : bool :=
  match txs d !! h_tx h with Some x => negb (bool_decide (mode x = readonly)) | None => false end.
Definition in_versionchange (d : database) (h : handle) : bool :=
  match txs d !! h_tx h with Some x => bool_decide (mode x = versionchange) | None => false end.

(** [stores.at(name)] *)
Definition store_at (d : database) (name : bytes) : outcome store_meta :=
  match lookup_name name (stores d) with Some m => Ret m | None => Throw "out_of_range" end.

Definition set_auto_seq (n : Z) (m : store_meta) : store_meta :=
  MkStoreMeta (s_name m) (s_key_path m) (auto_increment m) n (indexes m).
Definition set_indexes (l : list (bytes * index_meta)) (m : store_meta) : store_meta :=
  MkStoreMeta (s_name m) (s_key_path m) (auto_increment m) (auto_seq m) l.

Definition number_of (n : Z) : value := Number (to_bits (of_Z n)).

Definition next_auto_key (m : store_meta) (d : database) : outcome (Z * database) :=
  if 2 ^ 63 - 1 <=? auto_seq m then Ub
  else
    let n := auto_seq m + 1 in
    let row := match lookup_name (s_name m) (store_rows (now d)) with
               | Some (kp, ai, _) => update_name (s_name m) (kp, ai, n) (store_rows (now d))
               | None => store_rows (now d)
               end in
    Ret (n, set_now (set_store_rows row (now d)) (set_stores (update_name (s_name m) (set_auto_seq n m) (stores d)) d)).

Inductive index_result : Type := index_ok | index_error (error : string) | index_throws (error : string).

Fixpoint delete_index_rows (store pk : bytes) (l : list (bytes * index_meta)) (s : sql) : index_result * sql :=
  match l with
  | [] => (index_ok, s)
  | (_, im) :: l' =>
      match table (index_table store (i_name im)) s with
      | None => (index_error "no such table", s)
      | Some r => delete_index_rows store pk l' (put_table (index_table store (i_name im)) (delete_pk pk r) s)
      end
  end.

Fixpoint insert_index_rows (store pk : bytes) (v : value) (l : list (bytes * index_meta)) (s : sql) : index_result * sql :=
  match l with
  | [] => (index_ok, s)
  | (_, im) :: l' =>
      match resolve_key_path v (i_key_path im) with
      | Undefined => insert_index_rows store pk v l' s
      | ikv =>
          match encode_key ikv with
          | inl error => (index_throws error, s)
          | inr ik =>
              match table (index_table store (i_name im)) s with
              | None => (index_error "no such table", s)
              | Some r =>
                  if bool_decide ((ik, pk) ∈ r) then (index_error "ConstraintError", s)
                  else insert_index_rows store pk v l' (put_table (index_table store (i_name im)) (index_insert ik pk r) s)
              end
          end
      end
  end.

Definition update_indexes_for_put (m : store_meta) (pk : bytes) (v : value) (s : sql) : index_result * sql :=
  match delete_index_rows (s_name m) pk (indexes m) s with
  | (index_ok, s) => insert_index_rows (s_name m) pk v (indexes m) s
  | r => r
  end.

Section Database.
(** V8's [ValueSerializer] and [ValueDeserializer]. *)
Context (serialize : value -> option bytes) (deserialize : bytes -> option value).

Definition read_value (blob : bytes) : value := default Undefined (deserialize blob).

(** The encoded key, the key, and the value to be stored. *)
Definition derive_key (m : store_meta) (v key : value) (d : database) : outcome (string + (bytes * value * value) * database) :=
  let encoded k v d := Ret (match encode_key k with inl e => inl e | inr pk => inr (pk, k, v, d) end) in
  match key with
  | Undefined | Null =>
      match s_key_path m with
      | Some path =>
          match resolve_key_path v path with
          | Undefined =>
              if negb (auto_increment m) then Ret (inl "DataError: keyPath did not resolve to a key"%string)
              else
                '(n, d) ← next_auto_key m d;
                encoded (number_of n) (if is_object v then inject_key_path v path (number_of n) else v) d
          | k => encoded k v d
          end
      | None =>
          if auto_increment m then '(n, d) ← next_auto_key m d; encoded (number_of n) v d
          else Ret (inl "DataError: store has no keyPath and no key was provided"%string)
      end
  | _ =>
      match s_key_path m with
      | Some _ => Ret (inl "DataError: explicit key not allowed when keyPath is set"%string)
      | None => encoded key v d
      end
  end.

Definition store_put_or_add (overwrite : bool) (h : handle) (v key : value) (d : database) : outcome (reply value * database) :=
  if is_index h then Ret (Throws "TypeError", d)
  else if negb (ensure_active_tx d h) then Ret (Throws "InvalidStateError", d)
  else if negb (require_writable d h) then Ret (Throws "ReadOnlyError", d)
  else
    m ← store_at d (h_store h);
    k ← derive_key m v key d;
    match k with
    | inl error => Ret (Throws error, d)
    | inr (pk, derived, v, d) =>
        match serialize v with
        | None => Ret (Throws "DataCloneError", d)
        | Some blob =>
            match table (store_table (h_store h)) (now d) with
            | None => Ret (Throws "no such table", d)
            | Some r =>
                if negb overwrite && bool_decide (pk ∈ r.*1) then Ret (Rejects "ConstraintError: key already exists", d)
                else
                  let s := put_table (store_table (h_store h)) (map_set pk blob r) (now d) in
                  let '(result, s) := update_indexes_for_put m pk v s in
                  Ret (match result with
                       | index_ok => Resolves derived
                       | index_error error => Rejects error
                       | index_throws error => Throws error
                       end, set_now s d)
            end
        end
    end.
Definition store_put := store_put_or_add true.
Definition store_add := store_put_or_add false.

(** ** Queries *)

(** The condition of [get] and [getKey]: no upper bound where the bounds are equal. *)
Definition get_condition (r : key_range) (k : bytes) : bool :=
  above_lower r k &&
  (negb (has_upper r && (negb (has_lower r) || negb (bool_decide (lower r = upper r)))) || below_upper r k).

(** The rows of an index with the records they name, in the order of the index. *)
Definition join (ir : rows) (sr : rows) : list (bytes * bytes * bytes) :=
  omap (fun x : bytes * bytes => (fun v => (x.1, x.2, v)) <$> map_find x.2 sr) ir.

(** The rows a handle reads: key, primary key and value. *)
Definition source_rows (d : database) (h : handle) : option (list (bytes * bytes * bytes)) :=
  match table (store_table (h_store h)) (now d) with
  | None => None
  | Some sr =>
      match h_index h with
      | None => Some (map (fun x : bytes * bytes => (x.1, x.1, x.2)) sr)
      | Some i => match table (index_table (h_store h) i) (now d) with None => None | Some ir => Some (join ir sr) end
      end
  end.
(** The same without the values: of an index, only its own table is read. *)
Definition source_keys (d : database) (h : handle) : option (list (bytes * bytes)) :=
  match h_index h with
  | None => map (fun x : bytes * bytes => (x.1, x.1)) <$> table (store_table (h_store h)) (now d)
  | Some i => table (index_table (h_store h) i) (now d)
  end.

Definition with_query {A} (d : database) (h : handle) (q : query) (allow_undefined : bool) (f : key_range -> reply A) : reply A :=
  if negb (ensure_active_tx d h) then Throws "InvalidStateError"
  else match decode_query q allow_undefined with inl error => Throws error | inr r => f r end.

Definition store_get (h : handle) (q : query) (d : database) : reply value :=
  with_query d h q false (fun r =>
    match source_rows d h with
    | None => Throws "no such table"
    | Some l => Resolves (match filter (fun x => get_condition r x.1.1 = true) l with x :: _ => read_value x.2 | [] => Undefined end)
    end).

Definition store_get_key (h : handle) (q : query) (d : database) : reply value :=
  with_query d h q false (fun r =>
    match source_keys d h with
    | None => Throws "no such table"
    | Some l => Resolves (match filter (fun x => get_condition r x.1 = true) l with x :: _ => decode_key x.2 | [] => Undefined end)
    end).

Definition limited {A} (limit : option Z) (l : list A) : list A :=
  match limit with None => l | Some n => ztake (Z.max 0 n) l end.

Definition store_get_all (h : handle) (q : query) (limit : option Z) (d : database) : reply (list value) :=
  with_query d h q true (fun r =>
    match source_rows d h with
    | None => Throws "no such table"
    | Some l => Resolves (limited limit (map (fun x => read_value x.2) (filter (fun x => in_range r x.1.1 = true) l)))
    end).

(** The statement built for the keys of an index names a table it does not join. *)
Definition store_get_all_keys (h : handle) (q : query) (limit : option Z) (d : database) : reply (list value) :=
  with_query d h q true (fun r =>
    if is_index h then Throws "no such column: i.ik"
    else
      match source_keys d h with
      | None => Throws "no such table"
      | Some l => Resolves (limited limit (map (fun x => decode_key x.2) (filter (fun x => in_range r x.1 = true) l)))
      end).

Definition store_count (h : handle) (q : query) (d : database) : reply Z :=
  with_query d h q true (fun r =>
    match source_keys d h with
    | None => Throws "no such table"
    | Some l => Resolves (zlen (filter (fun x => in_range r x.1 = true) l))
    end).

(** ** Deletion *)

Fixpoint delete_rows (store : bytes) (idx : list (bytes * index_meta)) (pks : list bytes) (s : sql) : reply unit * sql :=
  match pks with
  | [] => (Resolves tt, s)
  | pk :: pks' =>
      match delete_index_rows store pk idx s with
      | (index_ok, s) =>
          match table (store_table store) s with
          | None => (Rejects "no such table", s)
          | Some r => delete_rows store idx pks' (put_table (store_table store) (remove_name pk r) s)
          end
      | (index_error error, s) | (index_throws error, s) => (Rejects error, s)
      end
  end.

Definition store_delete (h : handle) (q : query) (d : database) : outcome (reply unit * database) :=
  if is_index h then Ret (Throws "TypeError", d)
  else if negb (ensure_active_tx d h) then Ret (Throws "InvalidStateError", d)
  else if negb (require_writable d h) then Ret (Throws "ReadOnlyError", d)
  else
    match decode_query q false with
    | inl error => Ret (Throws error, d)
    | inr r =>
        m ← store_at d (h_store h);
        match table (store_table (h_store h)) (now d) with
        | None => Ret (Throws "no such table", d)
        | Some sr =>
            let pks := filter (fun k => in_range r k = true) sr.*1 in
            let '(result, s) := delete_rows (h_store h) (indexes m) pks (now d) in
            Ret (result, set_now s d)
        end
    end.

Fixpoint clear_indexes (store : bytes) (idx : list (bytes * index_meta)) (s : sql) : bool * sql :=
  match idx with
  | [] => (true, s)
  | (_, im) :: idx' =>
      match table (index_table store (i_name im)) s with
      | None => (false, s)
      | Some _ => clear_indexes store idx' (put_table (index_table store (i_name im)) [] s)
      end
  end.

Definition store_clear (h : handle) (d : database) : outcome (reply unit * database) :=
  if is_index h then Ret (Throws "TypeError", d)
  else if negb (ensure_active_tx d h) then Ret (Throws "InvalidStateError", d)
  else if negb (require_writable d h) then Ret (Throws "ReadOnlyError", d)
  else
    m ← store_at d (h_store h);
    match clear_indexes (h_store h) (indexes m) (now d) with
    | (false, s) => Ret (Rejects "no such table", set_now s d)
    | (true, s) =>
        match table (store_table (h_store h)) s with
        | None => Ret (Rejects "no such table", set_now s d)
        | Some _ => Ret (Resolves tt, set_now (put_table (store_table (h_store h)) [] s) d)
        end
    end.

(** ** Indexes *)

Inductive backfill_result : Type := filled | fill_throws (error : string) | fill_violates.

Fixpoint backfill (store : bytes) (im : index_meta) (sr : rows) (s : sql) : backfill_result * sql :=
  match sr with
  | [] => (filled, s)
  | (pk, blob) :: sr' =>
      match deserialize blob with
      | None => backfill store im sr' s
      | Some v =>
          match resolve_key_path v (i_key_path im) with
          | Undefined => backfill store im sr' s
          | ikv =>
              match encode_key ikv with
              | inl error => (fill_throws error, s)
              | inr ik =>
                  match table (index_table store (i_name im)) s with
                  | None => backfill store im sr' s
                  | Some r =>
                      if bool_decide ((ik, pk) ∈ r) then (if i_unique im then (fill_violates, s) else backfill store im sr' s)
                      else backfill store im sr' (put_table (index_table store (i_name im)) (index_insert ik pk r) s)
                  end
              end
          end
      end
  end.

Definition index_row (store index : bytes) (s : sql) : bool := existsb (fun x => bool_decide (x.1 = (store, index))) (index_rows s).
Definition drop_index_row (store index : bytes) (s : sql) : sql :=
  set_index_rows (filter (fun x => x.1 <> (store, index)) (index_rows s)) s.

Definition store_create_index (h : handle) (name key_path : bytes) (uniq multi : bool) (d : database) :
    outcome (reply handle * database) :=
  if is_index h then Ret (Throws "TypeError", d)
  else if negb (in_versionchange d h) then Ret (Throws "InvalidStateError", d)
  else
    m ← store_at d (h_store h);
    match lookup_name name (indexes m) with
    | Some _ => Ret (Throws "ConstraintError: index already exists", d)
    | None =>
        let t := index_table (h_store h) name in
        let s := match table t (now d) with Some _ => now d | None => put_table t [] (now d) end in
        if index_row (h_store h) name s then Ret (Throws "UNIQUE constraint failed", set_now s d)
        else
          let s := set_index_rows (index_rows s ++ [((h_store h, name), (key_path, uniq, multi))]) s in
          let im := MkIndexMeta name key_path uniq multi in
          let d' := set_stores (update_name (h_store h) (set_indexes (update_name name im (indexes m)) m) (stores d)) d in
          let r := MkHandle (h_store h) (h_tx h) (Some name) in
          match table (store_table (h_store h)) s with
          | None => Ret (Resolves r, set_now s d')
          | Some sr =>
              match backfill (h_store h) im sr s with
              | (filled, s) => Ret (Resolves r, set_now s d')
              | (fill_throws error, s) => Ret (Throws error, set_now s d')
              | (fill_violates, s) =>
                  Ret (Throws "ConstraintError: unique index violation during backfill",
                       set_now (drop_index_row (h_store h) name (drop_table t s)) d)
              end
          end
    end.

Definition store_delete_index (h : handle) (name : bytes) (d : database) : outcome (reply unit * database) :=
  if is_index h then Ret (Throws "TypeError", d)
  else if negb (in_versionchange d h) then Ret (Throws "InvalidStateError", d)
  else
    m ← store_at d (h_store h);
    match lookup_name name (indexes m) with
    | None => Ret (Throws "NotFoundError", d)
    | Some _ =>
        let s := drop_index_row (h_store h) name (drop_table (index_table (h_store h) name) (now d)) in
        Ret (Resolves tt, set_now s (set_stores (update_name (h_store h) (set_indexes (remove_name name (indexes m)) m) (stores d)) d))
    end.

Definition store_index_method (h : handle) (name : bytes) (d : database) : outcome (reply handle) :=
  if is_index h then Ret (Throws "TypeError")
  else
    m ← store_at d (h_store h);
    Ret (match lookup_name name (indexes m) with
         | None => Throws "NotFoundError"
         | Some _ => Resolves (MkHandle (h_store h) (h_tx h) (Some name))
         end).

(** ** Cursors *)

(** [remaining]: the rows the statement has not returned yet; [None] when finalized. *)
Record cursor : Type := MkCursor {
  c_handle : handle; remaining : option (list (bytes * bytes * bytes)); exhausted : bool; last_pk : bytes; last_ik : bytes }.

(** The rows in range as the statement returns them, the table staying as it is. *)
Definition open_cursor (h : handle) (q : query) (descending keys_only : bool) (d : database) : reply cursor :=
  with_query d h q true (fun r =>
    let l := if keys_only then
               if is_index h then None else map (fun x => (x, [])) <$> source_keys d h
             else source_rows d h in
    match l with
    | None => Throws "no such table or column"
    | Some l =>
        let l := filter (fun x => in_range r x.1.1 = true) l in
        Resolves (MkCursor h (Some (if descending then reverse l else l)) false [] [])
    end).

(** The row the request resolves with, or none. *)
Definition cursor_step (c : cursor) : option (bytes * bytes * bytes) * cursor :=
  if exhausted c then (None, c)
  else
    match remaining c with
    | None => (None, c)
    | Some (x :: l) => (Some x, MkCursor (c_handle c) (Some l) false x.1.2 (if is_index (c_handle c) then x.1.1 else last_ik c))
    | Some [] => (None, MkCursor (c_handle c) None true (last_pk c) (last_ik c))
    end.

Fixpoint skip_rows (n : nat) (c : cursor) : cursor :=
  match n with
  | O => c
  | S n' =>
      if exhausted c then c
      else
        match remaining c with
        | Some (_ :: l) => skip_rows n' (MkCursor (c_handle c) (Some l) false (last_pk c) (last_ik c))
        | _ => MkCursor (c_handle c) (remaining c) true (last_pk c) (last_ik c)
        end
  end.
Definition cursor_advance (n : Z) (c : cursor) : reply (option (bytes * bytes * bytes)) * cursor :=
  if n <=? 0 then (Throws "TypeError", c)
  else let '(x, c) := cursor_step (skip_rows (Z.to_nat (n - 1)) c) in (Resolves x, c).

Definition cursor_update (c : cursor) (v : value) (d : database) : outcome (reply value * database) :=
  let h := c_handle c in
  if exhausted c then Ret (Throws "InvalidStateError", d)
  else if negb (require_writable d h) then Ret (Throws "ReadOnlyError", d)
  else
    m ← store_at d (h_store h);
    let key_ok := match s_key_path m with
                  | None => true
                  | Some path =>
                      match resolve_key_path v path with
                      | Undefined => false
                      | k => match encode_key k with inl _ => false | inr dk => bool_decide (dk = last_pk c) end
                      end
                  end in
    if negb key_ok then Ret (Throws "DataError", d)
    else
      match serialize v with
      | None => Ret (Throws "DataCloneError", d)
      | Some blob =>
          match table (store_table (h_store h)) (now d) with
          | None => Ret (Throws "no such table", d)
          | Some r =>
              let r := if bool_decide (last_pk c ∈ r.*1) then map_set (last_pk c) blob r else r in
              let '(result, s) := update_indexes_for_put m (last_pk c) v (put_table (store_table (h_store h)) r (now d)) in
              Ret (match result with
                   | index_ok => Resolves (decode_key (last_pk c))
                   | index_error error => Rejects error
                   | index_throws error => Throws error
                   end, set_now s d)
          end
      end.

Definition cursor_delete (c : cursor) (d : database) : outcome (reply unit * database) :=
  let h := c_handle c in
  if exhausted c then Ret (Throws "InvalidStateError", d)
  else if negb (require_writable d h) then Ret (Throws "ReadOnlyError", d)
  else
    m ← store_at d (h_store h);
    let '(result, s) := delete_rows (h_store h) (indexes m) [last_pk c] (now d) in
    Ret (result, set_now s d).

(** ** Object stores and transactions *)

Definition upgrade_tx (d : database) : option nat :=
  match upgrading d with
  | Some t => match txs d !! t with Some x => if bool_decide (mode x = versionchange) then Some t else None | None => None end
  | None => None
  end.

Definition store_row (name : bytes) (s : sql) : bool := match lookup_name name (store_rows s) with Some _ => true | None => false end.

Definition database_create_object_store (name : bytes) (key_path : option bytes) (auto_inc : bool) (d : database) :
    reply handle * database :=
  match upgrade_tx d with
  | None => (Throws "InvalidStateError", d)
  | Some t =>
      match lookup_name name (stores d) with
      | Some _ => (Throws "ConstraintError: object store already exists", d)
      | None =>
          match table (store_table name) (now d) with
          | Some _ => (Throws "table already exists", d)
          | None =>
              let s := put_table (store_table name) [] (now d) in
              let s := if store_row name s then s else set_store_rows (store_rows s ++ [(name, (key_path, auto_inc, 0))]) s in
              (Resolves (MkHandle name t None),
               set_now s (set_stores (update_name name (MkStoreMeta name key_path auto_inc 0 []) (stores d)) d))
          end
      end
  end.

Definition database_delete_object_store (name : bytes) (d : database) : reply unit * database :=
  match upgrade_tx d with
  | None => (Throws "InvalidStateError", d)
  | Some _ =>
      match lookup_name name (stores d) with
      | None => (Throws "NotFoundError", d)
      | Some m =>
          let s := foldl (fun s im => drop_table (index_table name (i_name im.2)) s) (now d) (indexes m) in
          let s := drop_table (store_table name) s in
          let s := set_store_rows (remove_name name (store_rows s)) s in
          let s := set_index_rows (filter (fun x => x.1.1 <> name) (index_rows s)) s in
          (Resolves tt, set_now s (set_stores (remove_name name (stores d)) d))
      end
  end.

Definition database_transaction (names : list bytes) (m : tx_mode) (d : database) : reply nat * database :=
  if closed d then (Throws "InvalidStateError", d)
  else if negb (forallb (fun n => match lookup_name n (stores d) with Some _ => true | None => false end) names)
  then (Throws "NotFoundError", d)
  else if bool_decide (m = versionchange) then (Throws "TypeError", d)
  else
    match create_transaction names m d with
    | (_, Some error, d) => (Throws error, d)
    | (t, None, d) => (Resolves t, d)
    end.

Definition tx_object_store (t : nat) (name : bytes) (d : database) : reply handle :=
  match txs d !! t with
  | None => Throws "TypeError"
  | Some x =>
      if negb (bool_decide (name ∈ store_names x)) then Throws "NotFoundError: store not in transaction's scope"
      else match lookup_name name (stores d) with
           | None => Throws "NotFoundError: store does not exist"
           | Some _ => Resolves (MkHandle name t None)
           end
  end.

(** ** Opening *)

(** [ensure_schema]: the stores and indexes the tables describe. *)
Definition load_indexes (name : bytes) (s : sql) : list (bytes * index_meta) :=
  foldl (fun l x => if bool_decide (x.1.1 = name) then update_name x.1.2 (MkIndexMeta x.1.2 x.2.1.1 x.2.1.2 x.2.2) l else l)
    [] (index_rows s).
Definition load_stores (s : sql) : list (bytes * store_meta) :=
  map (fun x => (x.1, MkStoreMeta x.1 x.2.1.1 x.2.1.2 x.2.2 (load_indexes x.1 s))) (store_rows s).
Definition open_database (s : sql) : database := MkDb s None (user_version s) false (load_stores s) [] None.

Definition empty_sql : sql := MkSql 0 [] [] [].

(** The version to open, and whether the schema has to be upgraded. *)
Definition factory_open (requested : option Z) (d : database) : reply (Z * bool) :=
  match requested with
  | Some n =>
      if n <=? 0 then Throws "TypeError: version must be a positive integer"
      else if n <? version d then Rejects "VersionError" else Resolves (n, version d <? n)
  | None => let n := Z.max (version d) 1 in if n <? version d then Rejects "VersionError" else Resolves (n, version d <? n)
  end.

(** [open_completion_callback] up to the call of [onupgradeneeded]. *)
Definition begin_upgrade (n : Z) (d : database) : reply nat * database :=
  match create_transaction [] versionchange d with
  | (_, Some error, d) => (Rejects error, d)
  | (t, None, d) => (Resolves t, set_upgrading (Some t) (set_version n (set_now (set_user_version n (now d)) d)))
  end.

(** The rest of it: whether the listener threw. *)
Definition end_upgrade (t : nat) (threw : bool) (d : database) : reply unit * database :=
  if threw then (Rejects "the listener's exception", set_upgrading None (tx_abort_internal t d))
  else
    let d := set_upgrading None (tx_commit_internal t d) in
    match txs d !! t with
    | Some x => if errored x then (Rejects "AbortError", d) else (Resolves tt, d)
    | None => (Resolves tt, d)
    end.

(** * Sequences of calls *)

Inductive call : Type :=
| c_begin_upgrade (n : Z)
| c_end_upgrade (t : nat) (threw : bool)
| c_create_store (name : bytes) (key_path : option bytes) (auto_inc : bool)
| c_delete_store (name : bytes)
| c_create_index (h : handle) (name key_path : bytes) (uniq multi : bool)
| c_delete_index (h : handle) (name : bytes)
| c_transaction (names : list bytes) (m : tx_mode)
| c_commit (t : nat)
| c_abort (t : nat)
| c_put (overwrite : bool) (h : handle) (v key : value)
| c_delete (h : handle) (q : query)
| c_clear (h : handle)
| c_cursor_update (c : cursor) (v : value)
| c_cursor_delete (c : cursor)
| c_close
| c_reopen.

Definition succeeded {A} (r : reply A) : bool := match r with Resolves _ => true | _ => false end.
Definition returned {A} (r : outcome (reply A * database)) : outcome (bool * database) :=
  '(x, d) ← r; Ret (succeeded x, d).

(** The database after a call and whether the call did what it was to do. *)
Definition perform (c : call) (d : database) : outcome (bool * database) :=
  match c with
  | c_begin_upgrade n => returned (Ret (begin_upgrade n d))
  | c_end_upgrade t threw => returned (Ret (end_upgrade t threw d))
  | c_create_store name key_path auto_inc => returned (Ret (database_create_object_store name key_path auto_inc d))
  | c_delete_store name => returned (Ret (database_delete_object_store name d))
  | c_create_index h name key_path uniq multi => returned (store_create_index h name key_path uniq multi d)
  | c_delete_index h name => returned (store_delete_index h name d)
  | c_transaction names m => returned (Ret (database_transaction names m d))
  | c_commit t => Ret (true, tx_commit_internal t d)
  | c_abort t => Ret (true, tx_abort_internal t d)
  | c_put overwrite h v key => returned (store_put_or_add overwrite h v key d)
  | c_delete h q => returned (store_delete h q d)
  | c_clear h => returned (store_clear h d)
  | c_cursor_update c v => returned (cursor_update c v d)
  | c_cursor_delete c => returned (cursor_delete c d)
  | c_close => Ret (true, set_closed d)
  | c_reopen => Ret (true, open_database (default (now d) (saved d)))
  end.
End Database.
