(* ===== verification/IndexedDbFacts.v ===== *)
(** IndexedDB: the tables of indexes against the records of their stores through each
    call that changes records or the schema. *)

From S2P Require Import Prelude Strings Doubles IdbKeys IndexedDb.

(** * Names of tables *)

(** Identifiers in lower case without underscores. *)
Definition name_char (c : Z) : bool := is_digit c || ((97 <=? c) && (c <=? 122)).
Definition good_name (n : bytes) : Prop := forallb name_char n = true.

Lemma good_name_lower n : good_name n -> ascii_lower n = n.
Proof.
  unfold good_name, ascii_lower. induction n as [|c n IH]; [done|]. rewrite fmap_cons. cbn [forallb]. intros [Hc Hn]%andb_true_iff.
  rewrite IH by done. f_equal. unfold name_char, is_digit in Hc. unfold lower_char.
  destruct ((chr "A" <=? c) && (c <=? chr "Z")) eqn:E; [|done]. rewrite !andb_true_iff, !Z.leb_le in E. change (chr "0") with 48 in Hc. change (chr "9") with 57 in Hc. rewrite orb_true_iff, !andb_true_iff, !Z.leb_le in Hc.
  change (chr "A") with 65 in E. change (chr "Z") with 90 in E. lia.
Qed.

Lemma good_name_underscore n : good_name n -> 95 ∉ n.
Proof. unfold good_name. rewrite forallb_forall. intros H Hin. apply list_elem_of_In in Hin. specialize (H _ Hin). done. Qed.

Lemma store_table_eq n : good_name n -> store_table n = str "store_" ++ n.
Proof. intros H. unfold store_table, ascii_lower. rewrite fmap_app. f_equal. by apply good_name_lower. Qed.

Lemma index_table_eq n i : good_name n -> good_name i -> index_table n i = str "idx_" ++ n ++ 95 :: i.
Proof.
  intros H H'. unfold index_table, ascii_lower. rewrite !fmap_app. f_equal. f_equal; [by apply good_name_lower|].
  cbn [app]. change (lower_char <$> str "_") with [95]. cbn [app]. f_equal. by apply good_name_lower.
Qed.

Lemma store_table_inj n n' : good_name n -> good_name n' -> store_table n = store_table n' -> n = n'.
Proof. intros H H'. rewrite !store_table_eq by done. apply app_inv_head. Qed.

Lemma split_underscore (a b a' b' : bytes) : 95 ∉ a -> 95 ∉ a' -> a ++ 95 :: b = a' ++ 95 :: b' -> a = a' /\ b = b'.
Proof.
  revert a'. induction a as [|x a IH]; intros [|y a'] H H' E; cbn [app] in E; simplify_eq.
  - done.
  - destruct H'. left.
  - destruct H. left.
  - apply not_elem_of_cons in H as [_ H], H' as [_ H']. destruct (IH a' H H' ltac:(done)). by subst.
Qed.

Lemma index_table_inj n i n' i' : good_name n -> good_name i -> good_name n' -> good_name i' ->
  index_table n i = index_table n' i' -> n = n' /\ i = i'.
Proof.
  intros Hn Hi Hn' Hi'. rewrite !index_table_eq by done. intros E%app_inv_head.
  apply split_underscore in E; [done|by apply good_name_underscore|by apply good_name_underscore].
Qed.

Lemma store_index_table n n' i : good_name n -> good_name n' -> good_name i -> store_table n <> index_table n' i.
Proof. intros H H' Hi. by rewrite store_table_eq, index_table_eq. Qed.

(** * Lookups *)

Lemma table_put t t' r s : table t (put_table t' r s) = if bool_decide (t = t') then Some r else table t s.
Proof. apply lookup_update. Qed.

Lemma table_put_eq t r s : table t (put_table t r s) = Some r.
Proof. by rewrite table_put, bool_decide_eq_true_2. Qed.

Lemma table_put_ne t t' r s : t <> t' -> table t (put_table t' r s) = table t s.
Proof. intros H. by rewrite table_put, bool_decide_eq_false_2. Qed.

Lemma table_drop t t' s : table t (drop_table t' s) = if bool_decide (t = t') then None else table t s.
Proof. apply lookup_remove. Qed.

(** Everything but the tables of records and indexes. *)
Definition same_catalog (s s' : sql) : Prop :=
  user_version s' = user_version s /\ store_rows s' = store_rows s /\ index_rows s' = index_rows s.

Lemma same_catalog_refl s : same_catalog s s.
Proof. done. Qed.
Lemma same_catalog_trans s1 s2 s3 : same_catalog s1 s2 -> same_catalog s2 s3 -> same_catalog s1 s3.
Proof. unfold same_catalog. intuition congruence. Qed.
Lemma same_catalog_put t r s : same_catalog s (put_table t r s).
Proof. done. Qed.

Create HintDb idb discriminated.
#[export] Hint Resolve same_catalog_refl same_catalog_trans same_catalog_put : idb.

(** * Index tables *)

(** The index key of a value, if it has one. *)
Definition index_key (im : index_meta) (v : value) : option bytes :=
  match resolve_key_path v (i_key_path im) with
  | Undefined => None
  | k => match encode_key k with inl _ => None | inr ik => Some ik end
  end.

Lemma delete_pk_elem pk r x : x ∈ delete_pk pk r <-> x.2 <> pk /\ x ∈ r.
Proof. unfold delete_pk. by rewrite list_elem_of_filter. Qed.

Lemma index_insert_elem ik pk r x : x ∈ index_insert ik pk r <-> x = (ik, pk) \/ x ∈ r.
Proof. unfold index_insert. rewrite insert_sorted_perm. apply elem_of_cons. Qed.

Definition index_names_ok (name : bytes) (l : list (bytes * index_meta)) : Prop :=
  good_name name /\ NoDup l.*1 /\ Forall (fun x => i_name x.2 = x.1 /\ good_name x.1) l.

Lemma index_names_cons name x l : index_names_ok name (x :: l) ->
  i_name x.2 = x.1 /\ good_name x.1 /\ x.1 ∉ l.*1 /\ index_names_ok name l.
Proof. intros (H & [Hx Hl]%NoDup_cons & [[Hn Hg] HF]%Forall_cons). split_and!; done. Qed.

Lemma index_table_fresh name x l y : index_names_ok name (x :: l) -> y ∈ l -> index_table name y.1 <> index_table name x.1.
Proof.
  intros (Hg & [Hx Hl]%NoDup_cons & [[_ Hgx] HF]%Forall_cons) Hy E. rewrite Forall_forall in HF. destruct (HF y Hy) as [_ Hgy].
  apply index_table_inj in E as [_ E]; [|done..]. apply Hx. rewrite <- E. by apply list_elem_of_fmap_2.
Qed.

(** A table of one of the indexes. *)
Definition indexed (name : bytes) (l : list (bytes * index_meta)) (t : bytes) : Prop := exists x, x ∈ l /\ t = index_table name x.1.

Lemma delete_index_rows_spec name pk : forall l s, index_names_ok name l ->
  (forall x, x ∈ l -> is_Some (table (index_table name x.1) s)) ->
  exists s', delete_index_rows name pk l s = (index_ok, s') /\ same_catalog s s' /\
    (forall t, ~ indexed name l t -> table t s' = table t s) /\
    (forall x r, x ∈ l -> table (index_table name x.1) s = Some r -> table (index_table name x.1) s' = Some (delete_pk pk r)).
Proof.
  induction l as [|[i im] l IH]; intros s Hn Ht.
  - exists s. split_and!; auto with idb. intros x r Hx. by apply not_elem_of_nil in Hx.
  - pose proof (index_names_cons _ _ _ Hn) as (Hi & Hg & Hf & Hl). cbn [fst snd] in Hi, Hg, Hf. cbn [delete_index_rows]. rewrite Hi.
    destruct (Ht (i, im) ltac:(left)) as [r Hr]. cbn [fst] in Hr. rewrite Hr.
    destruct (IH (put_table (index_table name i) (delete_pk pk r) s) Hl) as (s' & E & C & U & D).
    { intros x Hx. rewrite table_put_ne by (by apply (index_table_fresh _ _ _ _ Hn)). apply Ht. by right. }
    exists s'. split; [exact E|]. split; [eauto with idb|]. split.
    + intros t Hnt. rewrite U by (intros (x & Hx & ->); apply Hnt; exists x; split; [by right|done]).
      apply table_put_ne. intros ->. apply Hnt. exists (i, im). split; [left|done].
    + intros x r' [->|Hx]%elem_of_cons Hr'; cbn [fst] in *.
      * rewrite U; [rewrite table_put_eq; congruence|]. intros (y & Hy & E'). by apply (index_table_fresh _ _ _ _ Hn Hy).
      * apply D; [done|]. by rewrite table_put_ne by (by apply (index_table_fresh _ _ _ _ Hn)).
Qed.

(** What the insertion of a record's keys does to the tables of its indexes. *)
Definition inserted (pk : bytes) (v : value) (im : index_meta) (complete : bool) (r r' : rows) : Prop :=
  (forall x, x ∈ r' -> x ∈ r \/ exists ik, x = (ik, pk) /\ index_key im v = Some ik) /\ (forall x, x ∈ r -> x ∈ r') /\
  (complete = true -> forall ik, index_key im v = Some ik -> (ik, pk) ∈ r').

Definition is_ok (r : index_result) : bool := match r with index_ok => true | _ => false end.

Lemma inserted_refl pk v im r : inserted pk v im false r r.
Proof. split_and!; auto; done. Qed.

Lemma insert_index_rows_spec name pk v : forall l s, index_names_ok name l ->
  (forall x, x ∈ l -> is_Some (table (index_table name x.1) s)) ->
  exists res s', insert_index_rows name pk v l s = (res, s') /\ same_catalog s s' /\
    (forall t, ~ indexed name l t -> table t s' = table t s) /\
    (forall x r, x ∈ l -> table (index_table name x.1) s = Some r ->
       exists r', table (index_table name x.1) s' = Some r' /\ inserted pk v x.2 (is_ok res) r r').
Proof.
  induction l as [|[i im] l IH]; intros s Hn Ht.
  - exists index_ok, s. split_and!; auto with idb. intros x r Hx. by apply not_elem_of_nil in Hx.
  - pose proof (index_names_cons _ _ _ Hn) as (Hi & Hg & Hf & Hl). cbn [fst snd] in Hi, Hg, Hf. cbn [insert_index_rows]. rewrite Hi.
    destruct (Ht (i, im) ltac:(left)) as [r Hr]. cbn [fst] in Hr.
    assert (Stop : forall res, is_ok res = false -> exists res' s', (res, s) = (res', s') /\ same_catalog s s' /\
      (forall t, ~ indexed name ((i, im) :: l) t -> table t s' = table t s) /\
      (forall x r, x ∈ (i, im) :: l -> table (index_table name x.1) s = Some r ->
         exists r', table (index_table name x.1) s' = Some r' /\ inserted pk v x.2 (is_ok res') r r')).
    { intros res Hres. exists res, s. split_and!; auto with idb. intros x r0 _ Hr0. exists r0. split; [done|].
      rewrite Hres. apply inserted_refl. }
    assert (Go : forall r1 s1, same_catalog s s1 -> table (index_table name i) s1 = Some r1 ->
      (forall t, t <> index_table name i -> table t s1 = table t s) ->
      (forall ik, index_key im v = Some ik -> (ik, pk) ∈ r1) -> inserted pk v im false r r1 ->
      exists res s', insert_index_rows name pk v l s1 = (res, s') /\ same_catalog s s' /\
        (forall t, ~ indexed name ((i, im) :: l) t -> table t s' = table t s) /\
        (forall x r, x ∈ (i, im) :: l -> table (index_table name x.1) s = Some r ->
           exists r', table (index_table name x.1) s' = Some r' /\ inserted pk v x.2 (is_ok res) r r')).
    { intros r1 s1 C1 T1 O1 Hk (I1 & I2 & _). destruct (IH s1 Hl) as (res & s' & E & C & U & D).
      { intros x Hx. rewrite O1 by (by apply (index_table_fresh _ _ _ _ Hn)). apply Ht. by right. }
      exists res, s'. split; [exact E|]. split; [eauto with idb|]. split.
      - intros t Hnt. rewrite U by (intros (x & Hx & ->); apply Hnt; exists x; split; [by right|done]).
        apply O1. intros ->. apply Hnt. exists (i, im). split; [left|done].
      - intros x r0 [->|Hx]%elem_of_cons Hr0; cbn [fst snd] in *.
        + exists r1. rewrite U by (intros (y & Hy & E'); by apply (index_table_fresh _ _ _ _ Hn Hy)).
          split; [done|]. replace r0 with r by congruence. by split_and!.
        + apply D; [done|]. by rewrite O1 by (by apply (index_table_fresh _ _ _ _ Hn)). }
    assert (Skip : index_key im v = None -> exists res s', insert_index_rows name pk v l s = (res, s') /\ same_catalog s s' /\
        (forall t, ~ indexed name ((i, im) :: l) t -> table t s' = table t s) /\
        (forall x r, x ∈ (i, im) :: l -> table (index_table name x.1) s = Some r ->
           exists r', table (index_table name x.1) s' = Some r' /\ inserted pk v x.2 (is_ok res) r r')).
    { intros Hk. apply (Go r s); auto with idb; [congruence|apply inserted_refl]. }
    clear IH. unfold index_key in Skip, Go at 1.
    destruct (resolve_key_path v (i_key_path im)) as [| |u|u|t|b|p|k] eqn:Er; [by apply Skip|..].
    all: destruct (encode_key _) as [e|ik] eqn:Ee; [by apply Stop|]; rewrite Hr; case_bool_decide; [by apply Stop|];
      apply (Go (index_insert ik pk r)); auto with idb;
      [apply table_put_eq|intros; by apply table_put_ne|intros ik' [= ->]; rewrite index_insert_elem; by left|];
      split_and!; [|intros; rewrite index_insert_elem; by right|done]; intros x; rewrite index_insert_elem;
      (intros [->|?]; [right; exists ik; split; [done|]; unfold index_key; by rewrite Er, Ee|by left]).
Qed.

(** * Consistency *)

(** The tables of a store with its indexes. *)
Definition touched (name : bytes) (m : store_meta) (t : bytes) : Prop := t = store_table name \/ indexed name (indexes m) t.

Definition forget (m : store_meta) : store_meta := set_auto_seq 0 m.

Lemma remove_name_sorted {V} k (l : list (bytes * V)) : map_sorted l -> map_sorted (remove_name k l).
Proof.
  unfold map_sorted, remove_name. induction 1 as [|x l Hs IH HF]; [constructor|]. rewrite filter_cons.
  case_decide; [|done]. constructor; [done|]. rewrite Forall_forall in *. intros y [_ Hy]%list_elem_of_filter. by apply HF.
Qed.

Lemma map_find_remove {V} k k' (l : list (bytes * V)) : map_find k (remove_name k' l) = if bool_decide (k = k') then None else map_find k l.
Proof.
  assert (E : forall l : list (bytes * V), map_find k l = lookup_name k l).
  { intros l0. induction l0 as [|[n a] l0 IH]; [done|]. cbn [map_find lookup_name]. by rewrite IH. }
  rewrite !E. apply lookup_remove.
Qed.

Section Consistency.
Context (deserialize : bytes -> option value).

(** The rows of an index belong to records whose values have these index keys; when
    [exact], there is one for every record whose value has an index key. *)
Definition index_ok_in (exact : bool) (im : index_meta) (sr ir : rows) : Prop :=
  (forall ik pk, (ik, pk) ∈ ir -> exists blob v, map_find pk sr = Some blob /\ deserialize blob = Some v /\ index_key im v = Some ik) /\
  (exact = true -> forall pk blob v ik, map_find pk sr = Some blob -> deserialize blob = Some v -> index_key im v = Some ik -> (ik, pk) ∈ ir).

Definition store_ok (exact : bool) (s : sql) (name : bytes) (m : store_meta) : Prop :=
  s_name m = name /\ index_names_ok name (indexes m) /\
  exists sr, table (store_table name) s = Some sr /\ map_sorted sr /\
    forall x, x ∈ indexes m -> exists ir, table (index_table name x.1) s = Some ir /\ index_ok_in exact x.2 sr ir.

(** The stores in memory are those the catalogue describes, and every table and every
    description of an index belongs to one of them. *)
Definition consistent (exact : bool) (s : sql) (l : list (bytes * store_meta)) : Prop :=
  (forall k m, lookup_name k l = Some m -> store_ok exact s k m) /\
  (forall k, forget <$> lookup_name k (load_stores s) = forget <$> lookup_name k l) /\
  (forall t, is_Some (table t s) -> exists k m, lookup_name k l = Some m /\ touched k m t) /\
  (forall x, x ∈ index_rows s -> is_Some (lookup_name x.1.1 l)).

Lemma store_ok_weaken e e' s name m : (e' = true -> e = true) -> store_ok e s name m -> store_ok e' s name m.
Proof.
  intros He (H1 & H2 & sr & H3 & H4 & H5). split_and!; [done..|]. exists sr. split_and!; [done..|]. intros x Hx.
  destruct (H5 x Hx) as (ir & T & I1 & I2). exists ir. split; [done|]. split; [done|]. intros E. by apply I2, He.
Qed.

Lemma consistent_weaken e e' s l : (e' = true -> e = true) -> consistent e s l -> consistent e' s l.
Proof. intros He (H1 & H2 & H3 & H4). split_and!; [|assumption..]. intros k m Hk. eapply store_ok_weaken; [done|]. by apply H1. Qed.

Lemma store_ok_frame e s s' name m : (forall t, touched name m t -> table t s' = table t s) -> store_ok e s name m -> store_ok e s' name m.
Proof.
  intros Hf (H1 & H2 & sr & H3 & H4 & H5). split_and!; [done..|]. exists sr. rewrite Hf by by left. split_and!; [done..|].
  intros x Hx. rewrite Hf by (right; by exists x). by apply H5.
Qed.

Lemma forget_fields m m' : forget m = forget m' ->
  s_name m = s_name m' /\ s_key_path m = s_key_path m' /\ auto_increment m = auto_increment m' /\ indexes m = indexes m'.
Proof. destruct m, m'. unfold forget, set_auto_seq. cbn. by intros [= -> -> -> ->]. Qed.

Lemma store_ok_forget e s name m m' : forget m = forget m' -> store_ok e s name m -> store_ok e s name m'.
Proof. intros (E1 & _ & _ & E2)%forget_fields (H1 & H2 & H3). unfold store_ok. rewrite <- E1, <- E2. done. Qed.

Lemma touched_forget name m m' t : forget m = forget m' -> touched name m t -> touched name m' t.
Proof. intros (_ & _ & _ & E)%forget_fields. unfold touched. by rewrite E. Qed.

Definition same_stores (l l' : list (bytes * store_meta)) : Prop := forall k, forget <$> lookup_name k l' = forget <$> lookup_name k l.

Lemma same_stores_lookup l l' k m' : same_stores l l' -> lookup_name k l' = Some m' ->
  exists m, lookup_name k l = Some m /\ forget m = forget m'.
Proof.
  intros H E. specialize (H k). rewrite E in H. destruct (lookup_name k l) as [m|]; [|discriminate H]. apply (inj Some) in H. by exists m.
Qed.

Lemma same_stores_sym l l' : same_stores l l' -> same_stores l' l.
Proof. intros H k. by rewrite H. Qed.

Lemma consistent_stores e s l l' : same_stores l l' -> consistent e s l -> consistent e s l'.
Proof.
  intros Hs (H1 & H2 & H3 & H4). split_and!.
  - intros k m' E. destruct (same_stores_lookup _ _ _ _ Hs E) as (m & E' & F). eapply store_ok_forget; [done|]. by apply H1.
  - intros k. by rewrite H2.
  - intros t Ht. destruct (H3 t Ht) as (k & m & E & T).
    destruct (same_stores_lookup _ _ _ _ (same_stores_sym _ _ Hs) E) as (m' & E' & F). exists k, m'. split; [done|].
    by eapply touched_forget.
  - intros x Hx. destruct (H4 x Hx) as [m E]. destruct (same_stores_lookup _ _ _ _ (same_stores_sym _ _ Hs) E) as (m' & -> & _). done.
Qed.

(** What is read from the tables again is consistent with them. *)
Lemma consistent_load e s l : consistent e s l -> consistent e s (load_stores s).
Proof. intros H. eapply consistent_stores; [|exact H]. intros k. apply H. Qed.

Lemma consistent_tables e s s' l : tables s' = tables s -> index_rows s' = index_rows s -> same_stores (load_stores s) (load_stores s') ->
  consistent e s l -> consistent e s' l.
Proof.
  intros Ht Hi Hl (H1 & H2 & H3 & H4). assert (T : forall t, table t s' = table t s) by (intros t; unfold table; by rewrite Ht). split_and!.
  - intros k m E. eapply store_ok_frame; [|by apply H1]. done.
  - intros k. by rewrite Hl.
  - intros t. rewrite T. apply H3.
  - by rewrite Hi.
Qed.

Lemma same_catalog_load s s' : same_catalog s s' -> load_stores s' = load_stores s.
Proof. intros (_ & H1 & H2). unfold load_stores, load_indexes. by rewrite H1, H2. Qed.

Lemma touched_disjoint e e' s s' k m k' m' t : store_ok e s k m -> store_ok e' s' k' m' -> k <> k' -> touched k m t -> touched k' m' t -> False.
Proof.
  intros (_ & (G & _ & F) & _) (_ & (G' & _ & F') & _) Hk. rewrite Forall_forall in F, F'.
  intros [->|(x & Hx & ->)] [E|(x' & Hx' & E)].
  - by apply store_table_inj in E.
  - eapply store_index_table; [exact G|exact G'|by apply (F' x')|exact E].
  - eapply store_index_table; [exact G'|exact G|by apply (F x)|by symmetry].
  - apply index_table_inj in E as [E _]; [done|done|by apply F|done|by apply F'].
Qed.

(** A change of the tables of one store. *)
Lemma consistent_change e e' s s' l name m : consistent e s l -> lookup_name name l = Some m ->
  same_catalog s s' -> (forall t, ~ touched name m t -> table t s' = table t s) -> (e' = true -> e = true) ->
  store_ok e' s' name m -> consistent e' s' l.
Proof.
  intros (H1 & H2 & H3 & H4) Hm Hc Hf He Hok. split_and!.
  - intros k m' E. destruct (decide (k = name)) as [->|Hk]; [by replace m' with m by congruence|].
    eapply store_ok_frame; [|eapply store_ok_weaken; [exact He|by apply H1]]. intros t Ht. apply Hf.
    intros Ht'. eapply touched_disjoint; [by apply (H1 k)|by apply (H1 name)|done|done|done].
  - intros k. by rewrite (same_catalog_load _ _ Hc).
  - intros t Ht. destruct (decide (t = store_table name)) as [->|Hs]; [exists name, m; split; [done|by left]|].
    destruct (table t s) as [r|] eqn:Et; [by apply H3; rewrite Et|].
    enough (touched name m t) by by exists name, m.
    destruct (Exists_dec (fun x => t = index_table name x.1) (indexes m)) as [X|X].
    + right. apply Exists_exists in X. exact X.
    + exfalso. rewrite Hf, Et in Ht; [by destruct Ht|]. intros [->|(x & Hx & ->)]; [done|]. apply X, Exists_exists. by exists x.
  - destruct Hc as (_ & _ & ->). exact H4.
Qed.

(** ** Records *)

Lemma store_table_untouched name m : index_names_ok name (indexes m) -> ~ indexed name (indexes m) (store_table name).
Proof.
  intros (G & _ & F) (x & Hx & E). rewrite Forall_forall in F. eapply store_index_table; [exact G|exact G|by apply (F x)|exact E].
Qed.

(** A record replaced, its index rows removed and inserted again. *)
Lemma put_record_ok e s name m sr pk blob v :
  store_ok e s name m -> table (store_table name) s = Some sr -> deserialize blob = Some v ->
  exists res s', update_indexes_for_put m pk v (put_table (store_table name) (map_set pk blob sr) s) = (res, s') /\
    same_catalog s s' /\ (forall t, ~ touched name m t -> table t s' = table t s) /\ store_ok (e && is_ok res) s' name m /\
    table (store_table name) s' = Some (map_set pk blob sr).
Proof.
  intros (H1 & H2 & sr' & H3 & H4 & H5) Hs Hd. replace sr' with sr in * by congruence. clear sr' H3.
  set (s1 := put_table (store_table name) (map_set pk blob sr) s).
  pose proof (store_table_untouched name m H2) as Hst.
  assert (T1 : forall x, x ∈ indexes m -> table (index_table name x.1) s1 = table (index_table name x.1) s).
  { intros x Hx. apply table_put_ne. intros E. apply Hst. exists x. by split. }
  destruct (delete_index_rows_spec name pk (indexes m) s1 H2) as (s2 & E2 & C2 & U2 & D2).
  { intros x Hx. rewrite T1 by done. destruct (H5 x Hx) as (ir & -> & _). by eexists. }
  destruct (insert_index_rows_spec name pk v (indexes m) s2 H2) as (res & s3 & E3 & C3 & U3 & D3).
  { intros x Hx. destruct (H5 x Hx) as (ir & T & _). rewrite <- T1 in T by done. rewrite (D2 x ir Hx T). by eexists. }
  exists res, s3. unfold update_indexes_for_put. rewrite H1, E2, E3. split; [done|]. split; [unfold s1 in C2; eauto with idb|].
  split.
  { intros t Ht. rewrite U3, U2 by (intros ?; apply Ht; by right). apply table_put_ne. intros ->. apply Ht. by left. }
  assert (Ts : table (store_table name) s3 = Some (map_set pk blob sr)) by (rewrite U3, U2 by done; apply table_put_eq).
  split; [|exact Ts]. split; [done|]. split; [done|]. exists (map_set pk blob sr). split; [exact Ts|].
  split; [by apply map_set_sorted|]. intros x Hx. destruct (H5 x Hx) as (ir & T & I1 & I2).
  rewrite <- T1 in T by done. destruct (D3 x _ Hx (D2 x ir Hx T)) as (ir' & T' & J1 & J2 & J3).
  exists ir'. split; [done|]. split.
  - intros ik pk' [[Hne Hin]%delete_pk_elem|(ik' & [= -> ->] & Hk)]%J1.
    + cbn [snd] in Hne. destruct (I1 ik pk' Hin) as (b & v' & F & F' & F''). exists b, v'.
      rewrite map_find_set, bool_decide_eq_false_2 by done. done.
    + exists blob, v. rewrite map_find_set, bool_decide_eq_true_2 by done. done.
  - intros [He Hr]%andb_true_iff pk' b v' ik Hf Hd' Hk. rewrite map_find_set in Hf. case_bool_decide as Hp.
    + subst pk'. injection Hf as <-. replace v' with v in Hk by congruence. by apply J3.
    + apply J2, delete_pk_elem. split; [done|]. by eapply I2.
Qed.

Lemma index_ok_remove e im sr ir pk : index_ok_in e im sr ir -> index_ok_in e im (remove_name pk sr) (delete_pk pk ir).
Proof.
  intros [H1 H2]. split.
  - intros ik pk' [Hne Hin]%delete_pk_elem. cbn [snd] in Hne. destruct (H1 ik pk' Hin) as (b & v & F & F' & F'').
    exists b, v. by rewrite map_find_remove, bool_decide_eq_false_2.
  - intros He pk' b v ik Hf Hd Hk. rewrite map_find_remove in Hf. case_bool_decide as Hp; [done|].
    apply delete_pk_elem. split; [done|]. by eapply H2.
Qed.

Lemma filter_everywhere {A} (P : A -> Prop) `{!forall x, Decision (P x)} (l : list A) : (forall x, P x) -> filter P l = l.
Proof. intros Hp. induction l as [|x l IH]; [done|]. by rewrite filter_cons_True, IH. Qed.

Lemma filter_remove_name {V} k (P : bytes -> Prop) `{!forall x, Decision (P x)} (l : list (bytes * V)) :
  filter (fun x => P x.1) (remove_name k l) = filter (fun x => P x.1 /\ x.1 <> k) l.
Proof. unfold remove_name. by rewrite list_filter_filter. Qed.

(** Records removed with their index rows. *)
Lemma delete_rows_ok e name m : forall pks s, store_ok e s name m ->
  exists s', delete_rows name (indexes m) pks s = (Resolves tt, s') /\
    same_catalog s s' /\ (forall t, ~ touched name m t -> table t s' = table t s) /\ store_ok e s' name m /\
    (forall sr, table (store_table name) s = Some sr -> table (store_table name) s' = Some (filter (fun x => x.1 ∉ pks) sr)).
Proof.
  induction pks as [|pk pks IH]; intros s Hok.
  - exists s. split; [done|]. split; [apply same_catalog_refl|]. split; [done|]. split; [done|]. intros sr ->. f_equal.
    symmetry. apply filter_everywhere. intros x. apply not_elem_of_nil.
  - pose proof Hok as (H1 & H2 & sr & H3 & H4 & H5). pose proof (store_table_untouched name m H2) as Hst.
    destruct (delete_index_rows_spec name pk (indexes m) s H2) as (s2 & E2 & C2 & U2 & D2).
    { intros x Hx. destruct (H5 x Hx) as (ir & -> & _). by eexists. }
    cbn [delete_rows]. rewrite E2, U2, H3 by done.
    destruct (IH (put_table (store_table name) (remove_name pk sr) s2)) as (s' & E & C & U & Hok' & Ht).
    { split; [done|]. split; [done|]. exists (remove_name pk sr). split; [apply table_put_eq|].
      split; [by apply remove_name_sorted|]. intros x Hx. destruct (H5 x Hx) as (ir & T & I).
      exists (delete_pk pk ir). split; [|by apply index_ok_remove].
      rewrite table_put_ne by (intros Ex; apply Hst; exists x; by split). by apply D2. }
    exists s'. split; [exact E|]. split; [eauto with idb|]. split; [|split; [done|]].
    + intros t Hnt. rewrite U, table_put_ne, U2; [done|intros ?; apply Hnt; by right|intros ->; apply Hnt; by left|done].
    + intros sr' Hsr'. replace sr' with sr by congruence. rewrite (Ht _ (table_put_eq _ _ _)). f_equal.
      etransitivity; [exact (filter_remove_name pk (fun k => k ∉ pks) sr)|].
      apply list_filter_iff. intros x. rewrite not_elem_of_cons. tauto.
Qed.

Lemma clear_indexes_spec name : forall l s, index_names_ok name l ->
  (forall x, x ∈ l -> is_Some (table (index_table name x.1) s)) ->
  exists s', clear_indexes name l s = (true, s') /\ same_catalog s s' /\
    (forall t, ~ indexed name l t -> table t s' = table t s) /\
    (forall x, x ∈ l -> table (index_table name x.1) s' = Some []).
Proof.
  induction l as [|[i im] l IH]; intros s Hn Ht.
  - exists s. split_and!; auto with idb. intros x Hx. by apply not_elem_of_nil in Hx.
  - pose proof (index_names_cons _ _ _ Hn) as (Hi & Hg & Hf & Hl). cbn [fst snd] in Hi, Hg, Hf. cbn [clear_indexes]. rewrite Hi.
    destruct (Ht (i, im) ltac:(left)) as [r Hr]. cbn [fst] in Hr. rewrite Hr.
    destruct (IH (put_table (index_table name i) [] s) Hl) as (s' & E & C & U & D).
    { intros x Hx. rewrite table_put_ne by (by apply (index_table_fresh _ _ _ _ Hn)). apply Ht. by right. }
    exists s'. split; [exact E|]. split; [eauto with idb|]. split.
    + intros t Hnt. rewrite U by (intros (x & Hx & ->); apply Hnt; exists x; split; [by right|done]).
      apply table_put_ne. intros ->. apply Hnt. exists (i, im). split; [left|done].
    + intros x [->|Hx]%elem_of_cons; [|by apply D]. cbn [fst].
      rewrite U; [by rewrite table_put_eq|]. intros (y & Hy & E'). by apply (index_table_fresh _ _ _ _ Hn Hy).
Qed.

(** ** The catalogue *)

Lemma lookup_load s k : lookup_name k (load_stores s) =
  (fun x => MkStoreMeta k x.1.1 x.1.2 x.2 (load_indexes k s)) <$> lookup_name k (store_rows s).
Proof.
  unfold load_stores. generalize (load_indexes). intros f. induction (store_rows s) as [|[n [[kp ai] q]] l IH]; [done|].
  cbn [map lookup_name fst snd]. destruct (bool_decide_reflect (k = n)) as [->|]; [done|exact IH].
Qed.

Lemma load_indexes_snoc k s x : load_indexes k (set_index_rows (index_rows s ++ [x]) s) =
  if bool_decide (x.1.1 = k) then update_name x.1.2 (MkIndexMeta x.1.2 x.2.1.1 x.2.1.2 x.2.2) (load_indexes k s) else load_indexes k s.
Proof. unfold load_indexes. cbn [index_rows set_index_rows]. by rewrite foldl_app. Qed.

Lemma load_indexes_elem k i s : is_Some (lookup_name i (load_indexes k s)) <-> exists x, x ∈ index_rows s /\ x.1 = (k, i).
Proof.
  unfold load_indexes. induction (index_rows s) as [|x l IH] using rev_ind.
  - split; [intros []; done|intros (x & Hx & _); by apply not_elem_of_nil in Hx].
  - rewrite foldl_app. cbn [foldl]. destruct (bool_decide_reflect (x.1.1 = k)) as [Hk|Hk].
    + rewrite lookup_update. destruct (bool_decide_reflect (i = x.1.2)) as [Hi|Hi].
      * split; [intros _; exists x; split; [apply elem_of_app; right; by left|]|intros _; by eexists].
        destruct x as [[? ?] ?]; cbn in *; by subst.
      * rewrite IH. split; [intros (y & Hy & E); exists y; split; [apply elem_of_app; by left|done]|].
        intros (y & [Hy|Hy%list_elem_of_singleton]%elem_of_app & E); [by exists y|]. subst y. rewrite E in Hi. done.
    + rewrite IH. split; [intros (y & Hy & E); exists y; split; [apply elem_of_app; by left|done]|].
      intros (y & [Hy|Hy%list_elem_of_singleton]%elem_of_app & E); [by exists y|]. subst y. rewrite E in Hk. done.
Qed.

Lemma remove_update {V} i j (v : V) l : remove_name i (update_name j v l) = if bool_decide (i = j) then remove_name i l else update_name j v (remove_name i l).
Proof.
  unfold remove_name. induction l as [|[n a] l IH]; cbn [update_name]; rewrite ?filter_cons, ?filter_nil; cbn [fst].
  - repeat case_decide; case_bool_decide; by subst.
  - destruct (bool_decide_reflect (j = n)) as [->|Hj]; rewrite ?filter_cons; cbn [fst].
    + destruct (bool_decide_reflect (i = n)) as [->|Hi]; repeat case_decide; try congruence; cbn [update_name]; by rewrite bool_decide_eq_true_2.
    + rewrite IH. destruct (bool_decide_reflect (i = j)) as [->|Hi]; repeat case_decide; try congruence; cbn [update_name]; by rewrite ?bool_decide_eq_false_2.
Qed.

Lemma load_indexes_drop k i k' s : load_indexes k' (drop_index_row k i s) =
  if bool_decide (k' = k) then remove_name i (load_indexes k' s) else load_indexes k' s.
Proof.
  unfold load_indexes, drop_index_row. cbn [index_rows set_index_rows]. induction (index_rows s) as [|x l IH] using rev_ind; [by case_bool_decide|].
  rewrite filter_app, !foldl_app, filter_cons, filter_nil. cbn [foldl]. destruct x as [[k2 i2] y]. cbn [fst snd] in *.
  destruct (decide ((k2, i2) <> (k, i))) as [Hne|He]; cbn [foldl fst snd]; rewrite IH; clear IH.
  - destruct (bool_decide_reflect (k' = k)) as [->|Hk]; [|done].
    destruct (bool_decide_reflect (k2 = k)) as [->|]; [|done]. rewrite remove_update.
    rewrite bool_decide_eq_false_2 by congruence. done.
  - apply dec_stable in He. injection He as -> ->. destruct (bool_decide_reflect (k' = k)) as [->|Hk].
    + rewrite bool_decide_eq_true_2, remove_update, bool_decide_eq_true_2 by done. done.
    + rewrite bool_decide_eq_false_2 by congruence. done.
Qed.

Lemma load_indexes_other k name s : k <> name ->
  load_indexes k (set_index_rows (filter (fun x => x.1.1 <> name) (index_rows s)) s) = load_indexes k s.
Proof.
  intros Hk. unfold load_indexes. cbn [index_rows set_index_rows]. induction (index_rows s) as [|x l IH] using rev_ind; [done|].
  rewrite filter_app, !foldl_app, filter_cons, filter_nil, <- IH. destruct (decide (x.1.1 <> name)) as [|Hx]; [done|]. cbn [foldl].
  rewrite bool_decide_eq_false_2; [done|]. intros E. apply Hx. by rewrite E.
Qed.

(** ** Calls on records *)

(** Whether the indexes are still complete after a call. *)
Definition kept (e ok : bool) (d d' : database) : bool := e && (ok || bool_decide (tables (now d') = tables (now d))).

(** A call that leaves the transactions and the schema alone. *)
Definition data_step (e ok : bool) (d d' : database) : Prop :=
  saved d' = saved d /\ txs d' = txs d /\ same_stores (stores d) (stores d') /\ consistent (kept e ok d d') (now d') (stores d').

Lemma kept_weaken e ok d d' : kept e ok d d' = true -> e = true.
Proof. unfold kept. by intros [? _]%andb_true_iff. Qed.

Lemma data_step_refl e ok d : consistent e (now d) (stores d) -> data_step e ok d d.
Proof. intros H. do 3 (split; [done|]). eapply consistent_weaken; [apply kept_weaken|done]. Qed.

(** A change of the tables of one store, between changes of its generator of keys. *)
Lemma data_step_tables e ok d d' name m :
  consistent e (now d) (stores d) -> lookup_name name (stores d) = Some m ->
  saved d' = saved d -> txs d' = txs d -> stores d' = stores d ->
  same_catalog (now d) (now d') -> (forall t, ~ touched name m t -> table t (now d') = table t (now d)) ->
  store_ok (e && ok) (now d') name m -> data_step e ok d d'.
Proof.
  intros H Hm E1 E2 E3 Hc Hf Hok. do 2 (split; [done|]). split; [by rewrite E3|]. rewrite E3. unfold kept.
  destruct (bool_decide_reflect (tables (now d') = tables (now d))) as [Ht|Ht].
  - rewrite orb_true_r, andb_true_r. apply (consistent_tables _ (now d)); [done|apply Hc| |done].
    intros k. by rewrite (same_catalog_load _ _ Hc).
  - rewrite orb_false_r. eapply consistent_change; [exact H|exact Hm|done|done| |done]. by intros [? _]%andb_true_iff.
Qed.

Lemma data_step_trans e ok d1 d2 d3 : tables (now d2) = tables (now d1) -> data_step e true d1 d2 -> data_step e ok d2 d3 -> data_step e ok d1 d3.
Proof.
  intros Ht (A1 & A2 & A3 & _) (B1 & B2 & B3 & B4). split; [congruence|]. split; [congruence|]. split; [intros k; by rewrite B3|].
  unfold kept in *. by rewrite <- Ht.
Qed.

Lemma set_auto_seq_load n name kp ai q s : lookup_name name (store_rows s) = Some (kp, ai, q) ->
  same_stores (load_stores s) (load_stores (set_store_rows (update_name name (kp, ai, n) (store_rows s)) s)).
Proof.
  intros H k. rewrite !lookup_load. cbn [store_rows set_store_rows]. rewrite lookup_update.
  destruct (bool_decide_reflect (k = name)) as [->|]; [|done]. rewrite H. done.
Qed.

Lemma next_auto_key_step e m d n d' : consistent e (now d) (stores d) -> lookup_name (s_name m) (stores d) = Some m ->
  next_auto_key m d = Ret (n, d') -> tables (now d') = tables (now d) /\ data_step e true d d'.
Proof.
  intros H Hm. unfold next_auto_key. destruct (_ <=? _); [done|]. intros [= <- <-]. split; [done|]. split; [done|]. split; [done|]. split.
  - intros k. cbn [stores set_now set_stores]. rewrite lookup_update. destruct (bool_decide_reflect (k = s_name m)) as [->|]; [|done].
    rewrite Hm. done.
  - cbn [stores now set_now set_stores]. eapply consistent_weaken; [apply kept_weaken|]. apply (consistent_stores _ _ (stores d)); [|apply (consistent_tables _ (now d)); [done|done| |exact H]].
    + intros k. rewrite lookup_update. destruct (bool_decide_reflect (k = s_name m)) as [->|]; [|done]. by rewrite Hm.
    + destruct (lookup_name (s_name m) (store_rows (now d))) as [[[kp ai] q]|] eqn:E; [by eapply set_auto_seq_load|done].
Qed.

Lemma derive_key_step e m v key d k pk derived v' d' : consistent e (now d) (stores d) -> lookup_name (s_name m) (stores d) = Some m ->
  derive_key m v key d = Ret k -> k = inr (pk, derived, v', d') -> tables (now d') = tables (now d) /\ data_step e true d d'.
Proof.
  intros H Hm. unfold derive_key.
  assert (Enc : forall kv w d1, tables (now d1) = tables (now d) -> data_step e true d d1 ->
    Ret (match encode_key kv with inl er => inl er | inr p => inr (p, kv, w, d1) end) = Ret k -> k = inr (pk, derived, v', d') ->
    tables (now d') = tables (now d) /\ data_step e true d d').
  { intros kv w d1 Ht Hd [= <-]. destruct (encode_key kv); [done|]. by intros [= _ _ _ ->]. }
  assert (Auto : forall w, ('(n, d1) ← next_auto_key m d; Ret (match encode_key (number_of n) with inl er => inl er | inr p => inr (p, number_of n, w n, d1) end)) = Ret k ->
    k = inr (pk, derived, v', d') -> tables (now d') = tables (now d) /\ data_step e true d d').
  { intros w. destruct (next_auto_key m d) as [[n d1]| | |] eqn:En; [|done..]. cbn [mbind outcome_bind].
    destruct (next_auto_key_step _ _ _ _ _ H Hm En). by apply Enc. }
  assert (Err : forall er, Ret (inl er) = Ret k -> k = inr (pk, derived, v', d') -> tables (now d') = tables (now d) /\ data_step e true d d').
  { intros er [= <-]. discriminate. }
  pose proof (data_step_refl e true d H) as Hr.
  destruct key as [| |u|u|t|b|p|z]; destruct (s_key_path m) as [path|].
  all: try (destruct (resolve_key_path v path)).
  all: try (destruct (auto_increment m)); cbn [negb].
  all: first [simple apply Err | simple apply (Enc _ _ _ eq_refl Hr) | simple apply (Auto (fun _ => v))
             | simple apply (Auto (fun n => if is_object v then inject_key_path v path (number_of n) else v))].
Qed.

(** What was serialized is read back. *)
Context (serialize : value -> option bytes) (clone : forall v b, serialize v = Some b -> deserialize b = Some v).

Lemma put_step e ow h v key d r d' : consistent e (now d) (stores d) ->
  store_put_or_add serialize ow h v key d = Ret (r, d') -> data_step e (succeeded r) d d'.
Proof.
  intros H. pose proof (fun ok => data_step_refl e ok d H) as Hr. unfold store_put_or_add.
  destruct (is_index h); [by intros [= <- <-]|]. destruct (ensure_active_tx d h); cbn [negb]; [|by intros [= <- <-]].
  destruct (require_writable d h); cbn [negb]; [|by intros [= <- <-]].
  unfold store_at. destruct (lookup_name (h_store h) (stores d)) as [m|] eqn:Hm; [|done]. cbn [mbind outcome_bind].
  pose proof H as (H1 & _). pose proof (H1 _ _ Hm) as Hok. pose proof Hok as (Hn & _).
  destruct (derive_key m v key d) as [k| | |] eqn:Ek; [|done..]. cbn [mbind outcome_bind].
  destruct k as [er|[[[pk derived] w] d1]]; [by intros [= <- <-]|].
  rewrite <- Hn in Hm. destruct (derive_key_step _ _ _ _ _ _ _ _ _ _ H Hm Ek eq_refl) as [Ht D1].
  assert (Go : forall ok d2, data_step e ok d1 d2 -> data_step e ok d d2) by (intros; by eapply data_step_trans).
  assert (C1 : consistent e (now d1) (stores d1)).
  { destruct D1 as (_ & _ & _ & C1). eapply consistent_weaken; [|exact C1]. unfold kept. by intros ->. }
  destruct (serialize w) as [blob|] eqn:Es; [|intros [= <- <-]; by apply Go, data_step_refl].
  destruct (table (store_table (h_store h)) (now d1)) as [sr|] eqn:Et; [|intros [= <- <-]; by apply Go, data_step_refl].
  destruct (negb ow && _); [intros [= <- <-]; by apply Go, data_step_refl|].
  rewrite <- Hn in Et. pose proof D1 as (_ & _ & S1 & _). rewrite <- Hn.
  destruct (same_stores_lookup _ _ _ _ (same_stores_sym _ _ S1) Hm) as (m1 & Hm1 & F%eq_sym).
  assert (Hok1 : store_ok e (now d1) (s_name m) m).
  { eapply store_ok_forget; [symmetry; exact F|]. by apply C1. }
  destruct (put_record_ok _ _ _ _ _ pk _ _ Hok1 Et (clone _ _ Es)) as (res & s' & -> & Hc & Hf & Hok' & _).
  intros [= <- <-]. apply Go. eapply data_step_tables; [exact C1|exact Hm1|done..| |].
  - intros t Hnt. apply Hf. intros Hto. apply Hnt. by eapply touched_forget.
  - eapply store_ok_forget; [exact F|]. by destruct res.
Qed.

Lemma consistent_store e s l name m : consistent e s l -> lookup_name name l = Some m ->
  s_name m = name /\ lookup_name (s_name m) l = Some m /\ store_ok e s (s_name m) m /\ exists sr, table (store_table name) s = Some sr.
Proof.
  intros (H & _) Hm. pose proof (H _ _ Hm) as Hok. pose proof Hok as (Hn & _ & sr & Ht & _). rewrite Hn. split_and!; [done..|by exists sr].
Qed.

Lemma delete_step e d pks m r s : consistent e (now d) (stores d) -> lookup_name (s_name m) (stores d) = Some m ->
  delete_rows (s_name m) (indexes m) pks (now d) = (r, s) -> data_step e (succeeded r) d (set_now s d).
Proof.
  intros H Hm E. destruct (consistent_store _ _ _ _ _ H Hm) as (_ & _ & Hok & _).
  destruct (delete_rows_ok _ _ _ pks _ Hok) as (s' & E' & Hc & Hf & Hok' & _). rewrite E' in E. injection E as <- <-.
  eapply data_step_tables; [exact H|exact Hm|done..|]. cbn [succeeded]. by rewrite andb_true_r.
Qed.

Lemma store_delete_step e h q d r d' : consistent e (now d) (stores d) -> store_delete h q d = Ret (r, d') -> data_step e (succeeded r) d d'.
Proof.
  intros H. pose proof (fun ok => data_step_refl e ok d H) as Hr. unfold store_delete.
  destruct (is_index h); [by intros [= <- <-]|]. destruct (ensure_active_tx d h); cbn [negb]; [|by intros [= <- <-]].
  destruct (require_writable d h); cbn [negb]; [|by intros [= <- <-]]. destruct (decode_query q false); [by intros [= <- <-]|].
  unfold store_at. destruct (lookup_name (h_store h) (stores d)) as [m|] eqn:Hm; [|done]. cbn [mbind outcome_bind].
  destruct (consistent_store _ _ _ _ _ H Hm) as (Hn & Hm' & _ & sr & ->). rewrite <- Hn.
  destruct (delete_rows _ _ _ _) as [r' s'] eqn:E. intros [= <- <-]. by eapply delete_step.
Qed.

Lemma cursor_delete_step e c d r d' : consistent e (now d) (stores d) -> cursor_delete c d = Ret (r, d') -> data_step e (succeeded r) d d'.
Proof.
  intros H. pose proof (fun ok => data_step_refl e ok d H) as Hr. unfold cursor_delete.
  destruct (exhausted c); [by intros [= <- <-]|]. destruct (require_writable d _); cbn [negb]; [|by intros [= <- <-]].
  unfold store_at. destruct (lookup_name (h_store (c_handle c)) (stores d)) as [m|] eqn:Hm; [|done]. cbn [mbind outcome_bind].
  destruct (consistent_store _ _ _ _ _ H Hm) as (Hn & Hm' & _). rewrite <- Hn.
  destruct (delete_rows _ _ _ _) as [r' s'] eqn:E. intros [= <- <-]. by eapply delete_step.
Qed.

Lemma store_clear_step e h d r d' : consistent e (now d) (stores d) -> store_clear h d = Ret (r, d') -> data_step e (succeeded r) d d'.
Proof.
  intros H. pose proof (fun ok => data_step_refl e ok d H) as Hr. unfold store_clear.
  destruct (is_index h); [by intros [= <- <-]|]. destruct (ensure_active_tx d h); cbn [negb]; [|by intros [= <- <-]].
  destruct (require_writable d h); cbn [negb]; [|by intros [= <- <-]].
  unfold store_at. destruct (lookup_name (h_store h) (stores d)) as [m|] eqn:Hm; [|done]. cbn [mbind outcome_bind].
  destruct (consistent_store _ _ _ _ _ H Hm) as (Hn & Hm' & (_ & H2 & sr & H3 & H4 & H5) & _). rewrite <- Hn in *.
  pose proof (store_table_untouched _ _ H2) as Hst.
  destruct (clear_indexes_spec (s_name m) (indexes m) (now d) H2) as (s' & -> & Hc & Hf & Hcl).
  { intros x Hx. destruct (H5 x Hx) as (ir & -> & _). by eexists. }
  rewrite (Hf _ Hst), H3. intros [= <- <-].
  eapply data_step_tables; [exact H|exact Hm'|done..| | |]; cbn [now set_now].
  - eauto with idb.
  - intros t Ht. rewrite table_put_ne by (intros ->; apply Ht; by left). apply Hf. intros ?. apply Ht. by right.
  - split; [done|]. split; [done|]. exists []. split; [apply table_put_eq|]. split; [constructor|]. intros x Hx.
    exists []. rewrite table_put_ne by (intros E; apply Hst; exists x; by split). split; [by apply Hcl|]. split; [|done].
    intros ik pk Hin. by apply not_elem_of_nil in Hin.
Qed.

(** A cursor is at a record that its store has. *)
Definition at_record (c : cursor) (d : database) : Prop :=
  exists r, table (store_table (h_store (c_handle c))) (now d) = Some r /\ last_pk c ∈ r.*1.

Lemma cursor_update_step e c v d r d' : consistent e (now d) (stores d) -> at_record c d ->
  cursor_update serialize c v d = Ret (r, d') -> data_step e (succeeded r) d d'.
Proof.
  intros H (sr & Ht & Hin). pose proof (fun ok => data_step_refl e ok d H) as Hr. unfold cursor_update.
  destruct (exhausted c); [by intros [= <- <-]|]. destruct (require_writable d _); cbn [negb]; [|by intros [= <- <-]].
  unfold store_at. destruct (lookup_name (h_store (c_handle c)) (stores d)) as [m|] eqn:Hm; [|done]. cbn [mbind outcome_bind].
  destruct (negb _); [by intros [= <- <-]|]. destruct (serialize v) as [blob|] eqn:Es; [|by intros [= <- <-]].
  rewrite Ht, bool_decide_eq_true_2 by done.
  destruct (consistent_store _ _ _ _ _ H Hm) as (Hn & Hm' & Hok & _). rewrite <- Hn in *.
  destruct (put_record_ok _ _ _ _ _ (last_pk c) _ _ Hok Ht (clone _ _ Es)) as (res & s' & -> & Hc & Hf & Hok' & _).
  intros [= <- <-]. eapply data_step_tables; [exact H|exact Hm'|done..|]. by destruct res.
Qed.

(** ** Calls on the schema *)

(** A call that changes the stores and indexes there are. *)
Definition schema_step (e : bool) (d d' : database) : Prop :=
  saved d' = saved d /\ txs d' = txs d /\ consistent e (now d') (stores d').

Lemma lookup_some_load e s l k : consistent e s l -> is_Some (lookup_name k (store_rows s)) <-> is_Some (lookup_name k l).
Proof.
  intros (_ & H & _). specialize (H k). rewrite lookup_load in H.
  destruct (lookup_name k (store_rows s)), (lookup_name k l); try discriminate H; split; intros [? [=]]; by eexists.
Qed.

Lemma load_indexes_memory e s l k m : consistent e s l -> lookup_name k l = Some m -> load_indexes k s = indexes m.
Proof.
  intros (_ & H & _) Hm. specialize (H k). rewrite lookup_load, Hm in H.
  destruct (lookup_name k (store_rows s)) as [[[kp ai] q]|]; [|discriminate H]. apply (inj Some), forget_fields in H. by destruct H as (_ & _ & _ & H).
Qed.

Lemma lookup_app {V} k (l : list (bytes * V)) n v : lookup_name n l = None ->
  lookup_name k (l ++ [(n, v)]) = if bool_decide (k = n) then Some v else lookup_name k l.
Proof.
  induction l as [|[n' v'] l IH]; intros H; cbn [app lookup_name] in *; [done|].
  destruct (bool_decide_reflect (n = n')) as [|Hn]; [discriminate H|]. rewrite (IH H). clear IH.
  destruct (bool_decide_reflect (k = n')) as [->|]; [|done]. by rewrite bool_decide_eq_false_2 by congruence.
Qed.

Lemma create_store_step e name kp ai d r d' : consistent e (now d) (stores d) -> good_name name ->
  database_create_object_store name kp ai d = (r, d') -> schema_step e d d'.
Proof.
  intros H Hg. assert (Hr : schema_step e d d) by done. unfold database_create_object_store.
  destruct (upgrade_tx d); [|by intros [= <- <-]].
  destruct (lookup_name name (stores d)) eqn:Hm; [by intros [= <- <-]|].
  destruct (table (store_table name) (now d)) eqn:Ht; [by intros [= <- <-]|]. unfold store_row.
  assert (Hn : lookup_name name (store_rows (put_table (store_table name) [] (now d))) = None).
  { change (lookup_name name (store_rows (now d)) = None). apply eq_None_not_Some. rewrite (lookup_some_load _ _ _ _ H), Hm. by intros []. }
  rewrite Hn. intros [= <- <-]. do 2 (split; [done|]). cbn [now stores set_now set_stores].
  pose proof H as (H1 & H2 & H3 & H4).
  assert (Hne : forall k m, lookup_name k (stores d) = Some m -> forall t, touched k m t -> t <> store_table name).
  { intros k m Hk t Hto ->. destruct (H1 k m Hk) as (_ & _ & sr & Hs & _ & _). pose proof (H1 k m Hk) as (_ & (G & _ & F) & _).
    rewrite Forall_forall in F. destruct Hto as [E|(x & Hx & E)].
    - by rewrite E, Hs in Ht.
    - by eapply store_index_table; [exact Hg|exact G|apply (F x Hx)|exact E]. }
  split; [|split; [|split]].
  - intros k m. rewrite lookup_update. destruct (bool_decide_reflect (k = name)) as [->|Hk].
    + intros [= <-]. split; [done|]. split; [split; [done|]; split; constructor|]. exists [].
      split; [apply table_put_eq|]. split; [constructor|]. intros x Hx. by apply not_elem_of_nil in Hx.
    + intros Hk'. eapply store_ok_frame; [|by apply H1]. intros t Hto.
      exact (table_put_ne t (store_table name) [] (now d) (Hne _ _ Hk' _ Hto)).
  - intros k. rewrite lookup_load. cbn [store_rows set_store_rows]. rewrite (lookup_app _ _ _ _ Hn), lookup_update.
    destruct (bool_decide_reflect (k = name)) as [->|Hk].
    + cbn [fmap option_fmap option_map fst snd]. f_equal. unfold forget, set_auto_seq. cbn [s_name s_key_path auto_increment indexes].
      f_equal. change (load_indexes name (now d) = []). destruct (load_indexes name (now d)) as [|[i im] l] eqn:El; [done|exfalso].
      assert (Hi : is_Some (lookup_name i (load_indexes name (now d)))).
      { rewrite El. cbn [lookup_name]. rewrite bool_decide_eq_true_2 by done. by eexists. }
      apply load_indexes_elem in Hi as (x & Hx & E). specialize (H4 x Hx). rewrite E in H4. cbn [fst] in H4. rewrite Hm in H4. by destruct H4.
    + rewrite <- H2, lookup_load. done.
  - intros t Hto. destruct (decide (t = store_table name)) as [->|Hst].
    + exists name. eexists. rewrite lookup_update, bool_decide_eq_true_2 by done. split; [done|]. by left.
    + pose proof (table_put_ne t (store_table name) [] (now d) Hst) as E. unfold table in Hto, E. cbn [tables set_store_rows] in Hto. rewrite E in Hto.
      destruct (H3 t Hto) as (k & m & Hk & Hto'). exists k, m. split; [|done]. rewrite lookup_update.
      rewrite bool_decide_eq_false_2; [done|]. intros ->. congruence.
  - intros x Hx. rewrite lookup_update. case_bool_decide; [by eexists|]. by apply H4.
Qed.

Definition drop_tables (name : bytes) (l : list (bytes * index_meta)) (s : sql) : sql :=
  foldl (fun s im => drop_table (index_table name (i_name im.2)) s) s l.

Lemma table_drops name t : forall (l : list (bytes * index_meta)) s,
  (is_Some (table t (drop_tables name l s)) -> table t (drop_tables name l s) = table t s /\ forall x, x ∈ l -> t <> index_table name (i_name x.2)) /\
  ((forall x, x ∈ l -> t <> index_table name (i_name x.2)) -> table t (drop_tables name l s) = table t s) /\
  same_catalog s (drop_tables name l s).
Proof.
  unfold drop_tables. induction l as [|y l IH]; intros s; cbn [foldl].
  - split; [|split; [done|apply same_catalog_refl]]. intros _. split; [done|]. intros x Hx. by apply not_elem_of_nil in Hx.
  - destruct (IH (drop_table (index_table name (i_name y.2)) s)) as (A & B & C). rewrite table_drop in A, B.
    split; [|split; [|exact C]].
    + intros Hs. destruct (A Hs) as [E Hx]. case_bool_decide as Hy; [rewrite E in Hs; by destruct Hs|].
      split; [done|]. intros x [->|Hin]%elem_of_cons; [done|by apply Hx].
    + intros Hx. rewrite bool_decide_eq_false_2 in B by (apply Hx; left). apply B. intros x Hin. apply Hx. by right.
Qed.

Lemma delete_store_step e name d r d' : consistent e (now d) (stores d) ->
  database_delete_object_store name d = (r, d') -> schema_step e d d'.
Proof.
  intros H. assert (Hr : schema_step e d d) by done. unfold database_delete_object_store.
  destruct (upgrade_tx d); [|by intros [= <- <-]].
  destruct (lookup_name name (stores d)) as [m|] eqn:Hm; [|by intros [= <- <-]]. fold (drop_tables name (indexes m) (now d)).
  set (s1 := drop_table (store_table name) (drop_tables name (indexes m) (now d))). intros [= <- <-].
  do 2 (split; [done|]). cbn [now stores set_now set_stores].
  pose proof H as (H1 & H2 & H3 & H4). pose proof (H1 _ _ Hm) as Hok. pose proof Hok as (Hn & (Hg & Hd & HF) & _). rewrite Forall_forall in HF.
  assert (Hi : forall x, x ∈ indexes m -> i_name x.2 = x.1) by (intros; by apply HF).
  assert (T1 : forall t, ~ touched name m t -> table t s1 = table t (now d)).
  { intros t Ht. unfold s1. rewrite table_drop, bool_decide_eq_false_2 by (intros ->; apply Ht; by left).
    apply table_drops. intros x Hx ->. apply Ht. right. exists x. split; [done|]. by rewrite Hi. }
  assert (T2 : forall t, is_Some (table t s1) -> is_Some (table t (now d)) /\ ~ touched name m t).
  { intros t. unfold s1. rewrite table_drop. case_bool_decide as Ht; [by intros []|]. intros Hs.
    destruct (proj1 (table_drops name t (indexes m) (now d)) Hs) as [E Hx]. split; [by rewrite <- E|].
    intros [->|(x & Hin & ->)]; [done|]. apply (Hx x Hin). by rewrite Hi. }
  destruct (table_drops name [] (indexes m) (now d)) as (_ & _ & _ & C1 & C2). clearbody s1.
  split; [|split; [|split]].
  - intros k m'. rewrite lookup_remove. case_bool_decide as Hk; [done|]. intros Hk'. eapply store_ok_frame; [|by apply H1].
    intros t Ht. apply T1. intros Ht'. eapply touched_disjoint; [by apply (H1 k)|exact Hok|done|done|done].
  - intros k. rewrite lookup_load. cbn [store_rows set_store_rows set_index_rows]. rewrite C1, !lookup_remove.
    destruct (bool_decide_reflect (k = name)) as [->|Hk]; [done|]. rewrite <- H2, lookup_load.
    rewrite C2. by rewrite <- (load_indexes_other k name (now d) Hk).
  - intros t Ht. destruct (T2 t Ht) as [Ht' Hnt]. destruct (H3 t Ht') as (k & m' & Hk & Hto). exists k, m'. split; [|done].
    rewrite lookup_remove, bool_decide_eq_false_2; [done|]. intros ->. apply Hnt. by replace m with m' by congruence.
  - cbn [index_rows set_index_rows set_store_rows]. intros x [Hx Hin]%list_elem_of_filter. rewrite C2 in Hin.
    rewrite lookup_remove, bool_decide_eq_false_2 by done. by apply H4.
Qed.

(** A record the index has a row for. *)
Definition indexes_record (im : index_meta) (x : bytes * bytes) (ik : bytes) : Prop :=
  exists v, deserialize x.2 = Some v /\ index_key im v = Some ik.

Definition is_filled (r : backfill_result) : bool := match r with filled => true | _ => false end.

Lemma backfill_spec store im : forall sr s ir0,
  NoDup sr.*1 -> table (index_table store (i_name im)) s = Some ir0 -> (forall x, x ∈ ir0 -> x.2 ∉ sr.*1) ->
  exists res s' ir', backfill deserialize store im sr s = (res, s') /\ res <> fill_violates /\ same_catalog s s' /\
    (forall t, t <> index_table store (i_name im) -> table t s' = table t s) /\ table (index_table store (i_name im)) s' = Some ir' /\
    (forall ik pk, (ik, pk) ∈ ir' -> (ik, pk) ∈ ir0 \/ exists blob, (pk, blob) ∈ sr /\ indexes_record im (pk, blob) ik) /\
    (forall x, x ∈ ir0 -> x ∈ ir') /\
    (is_filled res = true -> forall x ik, x ∈ sr -> indexes_record im x ik -> (ik, x.1) ∈ ir').
Proof.
  induction sr as [|[pk blob] sr IH]; intros s ir0 Hnd Ht Hfr.
  { exists filled, s, ir0. split_and!; try done; auto with idb. intros _ x ik Hx. by apply not_elem_of_nil in Hx. }
  rewrite fmap_cons in Hfr, Hnd. apply NoDup_cons in Hnd as [Hpk Hnd]. cbn [fst] in Hpk, Hfr. cbn [backfill].
  (* a record without an index key *)
  assert (Skip : (forall ik, ~ indexes_record im (pk, blob) ik) -> exists res s' ir', backfill deserialize store im sr s = (res, s') /\
    res <> fill_violates /\ same_catalog s s' /\
    (forall t, t <> index_table store (i_name im) -> table t s' = table t s) /\ table (index_table store (i_name im)) s' = Some ir' /\
    (forall ik pk', (ik, pk') ∈ ir' -> (ik, pk') ∈ ir0 \/ exists blob', (pk', blob') ∈ (pk, blob) :: sr /\ indexes_record im (pk', blob') ik) /\
    (forall x, x ∈ ir0 -> x ∈ ir') /\
    (is_filled res = true -> forall x ik, x ∈ (pk, blob) :: sr -> indexes_record im x ik -> (ik, x.1) ∈ ir')).
  { intros Hno. destruct (IH s ir0 Hnd Ht) as (res & s' & ir' & E & A1 & A2 & A3 & A4 & A5 & A6 & A7).
    { intros x Hx Hin. apply (Hfr x Hx). by right. }
    exists res, s', ir'. split_and!; try done.
    - intros ik pk' Hin. destruct (A5 _ _ Hin) as [?|(b & Hb & Hi)]; [by left|right; exists b; split; [by right|done]].
    - intros Hf x ik [->|Hx]%elem_of_cons Hi; [by destruct (Hno ik)|by apply A7]. }
  destruct (deserialize blob) as [v|] eqn:Ed; [|apply Skip; intros ik (v & Hd & _); cbn [snd] in Hd; congruence].
  assert (Hik : forall ik, indexes_record im (pk, blob) ik <-> index_key im v = Some ik).
  { intros ik. unfold indexes_record. cbn [snd]. split; [intros (w & Hw & Hk); congruence|intros Hk; by exists v]. }
  assert (Add : forall ik, index_key im v = Some ik -> exists res s' ir',
    (if bool_decide ((ik, pk) ∈ ir0) then if i_unique im then (fill_violates, s) else backfill deserialize store im sr s
     else backfill deserialize store im sr (put_table (index_table store (i_name im)) (index_insert ik pk ir0) s)) = (res, s') /\
    res <> fill_violates /\ same_catalog s s' /\
    (forall t, t <> index_table store (i_name im) -> table t s' = table t s) /\ table (index_table store (i_name im)) s' = Some ir' /\
    (forall ik pk', (ik, pk') ∈ ir' -> (ik, pk') ∈ ir0 \/ exists blob', (pk', blob') ∈ (pk, blob) :: sr /\ indexes_record im (pk', blob') ik) /\
    (forall x, x ∈ ir0 -> x ∈ ir') /\
    (is_filled res = true -> forall x ik, x ∈ (pk, blob) :: sr -> indexes_record im x ik -> (ik, x.1) ∈ ir')).
  { intros ik Hk. rewrite bool_decide_eq_false_2 by (intros Hin; apply (Hfr _ Hin); left).
    destruct (IH (put_table (index_table store (i_name im)) (index_insert ik pk ir0) s) (index_insert ik pk ir0) Hnd (table_put_eq _ _ _))
      as (res & s' & ir' & E & A1 & A2 & A3 & A4 & A5 & A6 & A7).
    { intros x [->|Hx]%index_insert_elem; [done|]. intros Hin. apply (Hfr x Hx). by right. }
    exists res, s', ir'. split_and!; try done.
    - intros t Hne. rewrite A3 by done. by apply table_put_ne.
    - intros ik' pk' Hin. destruct (A5 _ _ Hin) as [[[= -> ->]|?]%index_insert_elem|(b & Hb & Hi)].
      + right. exists blob. split; [left|by apply Hik].
      + by left.
      + right. exists b. split; [by right|done].
    - intros x Hx. apply A6, index_insert_elem. by right.
    - intros Hf x ik' [->|Hx]%elem_of_cons Hi; [|by apply A7]. cbn [fst]. apply A6, index_insert_elem. left. apply Hik in Hi. congruence. }
  unfold index_key in Hik, Add. rewrite Ht.
  destruct (resolve_key_path v (i_key_path im)) as [| |u|u|t|b|p|k] eqn:Er; [apply Skip; intros ik Hi; by apply Hik in Hi|..].
  all: destruct (encode_key _) as [er|ik] eqn:Ee; [|by apply Add].
  all: exists (fill_throws er), s, ir0; split_and!; try done; auto with idb.
Qed.

Lemma update_fresh {V} n (v : V) l : lookup_name n l = None -> update_name n v l = l ++ [(n, v)].
Proof.
  induction l as [|[n' v'] l IH]; [done|]. cbn [lookup_name update_name app]. destruct (bool_decide_reflect (n = n')) as [|]; [done|].
  intros H. by rewrite IH.
Qed.

Lemma lookup_elem {V} n (l : list (bytes * V)) v : lookup_name n l = Some v -> (n, v) ∈ l.
Proof.
  induction l as [|[n' v'] l IH]; [done|]. cbn [lookup_name]. destruct (bool_decide_reflect (n = n')) as [->|]; [intros [= ->]; left|right; by apply IH].
Qed.

Lemma lookup_none_keys {V} n (l : list (bytes * V)) : lookup_name n l = None <-> n ∉ l.*1.
Proof.
  induction l as [|[n' v'] l IH]; [split; [intros _; apply not_elem_of_nil|done]|]. cbn [lookup_name]. rewrite fmap_cons, not_elem_of_cons, <- IH. cbn [fst].
  destruct (bool_decide_reflect (n = n')) as [|]; [split; [done|by intros [? _]]|]. split; [done|by intros [_ ?]].
Qed.

(** The table of an index that a store does not have does not exist. *)
Lemma index_table_new e s l k m i : consistent e s l -> lookup_name k l = Some m -> good_name i -> lookup_name i (indexes m) = None ->
  table (index_table k i) s = None.
Proof.
  intros (H1 & _ & H3 & _) Hm Hi Hn. apply eq_None_not_Some. intros Ht. destruct (H3 _ Ht) as (k' & m' & Hm' & [E|(x & Hx & E)]).
  all: pose proof (H1 _ _ Hm) as (_ & (G & _ & _) & _); pose proof (H1 _ _ Hm') as (_ & (G' & _ & F) & _).
  - by eapply store_index_table; [exact G'|exact G|exact Hi|].
  - rewrite Forall_forall in F. destruct (F x Hx) as [_ Gx]. apply index_table_inj in E as [<- ->]; [|done..].
    replace m' with m in Hx by congruence. apply lookup_none_keys in Hn. apply Hn. by apply list_elem_of_fmap_2.
Qed.

Lemma touched_index_table e s l k m k' m' i : consistent e s l -> lookup_name k l = Some m -> good_name i -> lookup_name i (indexes m) = None ->
  lookup_name k' l = Some m' -> ~ touched k' m' (index_table k i).
Proof.
  intros H Hm Hi Hn Hm' Ht. pose proof (index_table_new _ _ _ _ _ _ H Hm Hi Hn) as N. destruct H as (H1 & _).
  destruct (H1 _ _ Hm') as (_ & _ & sr & T & _ & F). destruct Ht as [E|(x & Hx & E)]; [congruence|].
  destruct (F x Hx) as (ir & T' & _). congruence.
Qed.

Lemma index_row_spec k i s : index_row k i s = true <-> is_Some (lookup_name i (load_indexes k s)).
Proof.
  rewrite load_indexes_elem. unfold index_row. rewrite existsb_exists. split; intros (x & Hx & E).
  - exists x. split; [by apply list_elem_of_In|]. by apply bool_decide_eq_true in E.
  - exists x. split; [by apply list_elem_of_In|]. by apply bool_decide_eq_true.
Qed.

Lemma index_ok_weaken e e' im sr ir : (e' = true -> e = true) -> index_ok_in e im sr ir -> index_ok_in e' im sr ir.
Proof. intros He [H1 H2]. split; [done|]. intros E. by apply H2, He. Qed.

Lemma set_indexes_load s s' k m im l : lookup_name k l = Some m -> store_rows s' = store_rows s ->
  forget <$> lookup_name k (load_stores s) = forget <$> lookup_name k l -> load_indexes k s' = im ->
  forget <$> lookup_name k (load_stores s') = Some (forget (set_indexes im m)).
Proof.
  intros Hm Hs H <-. rewrite lookup_load, Hs. rewrite lookup_load, Hm in H. destruct (lookup_name k (store_rows s)) as [[[kp ai] q]|]; [|discriminate H].
  apply (inj Some), forget_fields in H as (E1 & E2 & E3 & E4). cbn [fmap option_fmap option_map fst snd]. f_equal.
  unfold forget, set_auto_seq, set_indexes. cbn [s_name s_key_path auto_increment indexes fst snd] in *. by rewrite E1, E2, E3.
Qed.

(** A new index with its table. *)
Lemma consistent_add_index e e' s s' l k m im sr ir :
  consistent e s l -> lookup_name k l = Some m -> good_name (i_name im) -> lookup_name (i_name im) (indexes m) = None ->
  store_rows s' = store_rows s -> index_rows s' = index_rows s ++ [((k, i_name im), (i_key_path im, i_unique im, i_multi im))] ->
  (forall t, t <> index_table k (i_name im) -> table t s' = table t s) -> table (index_table k (i_name im)) s' = Some ir ->
  table (store_table k) s = Some sr -> (e' = true -> e = true) -> index_ok_in e' im sr ir ->
  consistent e' s' (update_name k (set_indexes (indexes m ++ [(i_name im, im)]) m) l).
Proof.
  intros H Hm Hg Hi C1 C2 T' T Hsr He Hir. pose proof H as (H1 & H2 & H3 & H4).
  pose proof (fun k' m' => touched_index_table _ _ _ _ _ k' m' _ H Hm Hg Hi) as Hut. split; [|split; [|split]].
  - intros k' m'. rewrite lookup_update. destruct (bool_decide_reflect (k' = k)) as [->|Hk].
    + intros [= <-]. destruct (H1 _ _ Hm) as (Hn & (G & Hd & HF) & sr' & Hsr' & Hsort & Hix). replace sr' with sr in * by congruence.
      split; [done|]. split.
      * split; [done|]. cbn [indexes set_indexes]. rewrite fmap_app. cbn [fmap list_fmap fst]. split.
        { apply NoDup_app. split; [done|]. split; [|apply NoDup_singleton]. intros x Hx Hx'%list_elem_of_singleton. subst x. by apply lookup_none_keys in Hi. }
        apply Forall_app. split; [done|]. by constructor.
      * exists sr. rewrite T' by (intros E; apply (Hut k m Hm); by left). split; [done|]. split; [done|]. cbn [indexes set_indexes].
        intros x [Hx| ->%list_elem_of_singleton]%elem_of_app; [|by exists ir].
        destruct (Hix x Hx) as (irx & Tx & Ix). exists irx. rewrite T' by (intros E; apply (Hut k m Hm); right; exists x; by split).
        split; [done|]. exact (index_ok_weaken _ _ _ _ _ He Ix).
    + intros Hk'. eapply store_ok_frame; [|eapply store_ok_weaken; [exact He|by apply H1]]. intros t Ht. apply T'. intros ->.
      exact (Hut k' m' Hk' Ht).
  - intros k'. rewrite lookup_update. specialize (H2 k').
    assert (L : load_indexes k' s' = if bool_decide (k = k') then update_name (i_name im) im (load_indexes k' s) else load_indexes k' s).
    { etransitivity; [|etransitivity; [exact (load_indexes_snoc k' s ((k, i_name im), (i_key_path im, i_unique im, i_multi im)))|by destruct im]].
      unfold load_indexes. by rewrite C2. }
    destruct (bool_decide_reflect (k' = k)) as [->|Hk].
    + rewrite bool_decide_eq_true_2, (load_indexes_memory _ _ _ _ _ H Hm), (update_fresh _ _ _ Hi) in L by done.
      exact (set_indexes_load s s' k m _ l Hm C1 H2 L).
    + rewrite bool_decide_eq_false_2 in L by congruence. rewrite lookup_load in H2 |- *. by rewrite L, C1.
  - intros t Ht. destruct (decide (t = index_table k (i_name im))) as [->|Hne].
    + exists k. eexists. rewrite lookup_update, bool_decide_eq_true_2 by done. split; [done|]. right.
      exists (i_name im, im). split; [|done]. apply elem_of_app. right. left.
    + rewrite T' in Ht by done. destruct (H3 t Ht) as (k' & m' & Hk & Hto). exists k'. rewrite lookup_update.
      destruct (bool_decide_reflect (k' = k)) as [->|]; [|by exists m']. eexists. split; [done|].
      replace m' with m in Hto by congruence. destruct Hto as [->|(x & Hx & ->)]; [by left|right]. exists x. split; [|done].
      apply elem_of_app. by left.
  - rewrite C2. intros x [Hx| ->%list_elem_of_singleton]%elem_of_app; rewrite lookup_update; case_bool_decide; try by eexists.
    by apply H4.
Qed.

(** A step of the schema, or of the records of a new index. *)
Definition index_step (e ok : bool) (d d' : database) : Prop :=
  saved d' = saved d /\ txs d' = txs d /\ consistent (kept e ok d d') (now d') (stores d').

Lemma index_step_refl e ok d : consistent e (now d) (stores d) -> index_step e ok d d.
Proof. intros H. by destruct (data_step_refl e ok d H) as (? & ? & _ & ?). Qed.

Lemma create_index_step e h name kp u mu d r d' : consistent e (now d) (stores d) -> good_name name ->
  store_create_index deserialize h name kp u mu d = Ret (r, d') -> index_step e (succeeded r) d d'.
Proof.
  intros H Hg. pose proof (fun ok => index_step_refl e ok d H) as Hr. unfold store_create_index.
  destruct (is_index h); [by intros [= <- <-]|]. destruct (in_versionchange d h); cbn [negb]; [|by intros [= <- <-]].
  unfold store_at. destruct (lookup_name (h_store h) (stores d)) as [m|] eqn:Hm; [|done]. cbn [mbind outcome_bind].
  destruct (lookup_name name (indexes m)) eqn:Hi; [by intros [= <- <-]|].
  pose proof (index_table_new _ _ _ _ _ _ H Hm Hg Hi) as Hnew. rewrite Hnew.
  assert (Hrow : index_row (h_store h) name (put_table (index_table (h_store h) name) [] (now d)) = false).
  { apply not_true_iff_false. rewrite index_row_spec. change (load_indexes _ (put_table _ _ _)) with (load_indexes (h_store h) (now d)).
    rewrite (load_indexes_memory _ _ _ _ _ H Hm), Hi. by intros []. }
  rewrite Hrow. set (s1 := set_index_rows _ _). set (im := MkIndexMeta name kp u mu).
  assert (T1 : forall t, table t s1 = if bool_decide (t = index_table (h_store h) name) then Some [] else table t (now d)).
  { intros t. exact (table_put t (index_table (h_store h) name) [] (now d)). }
  assert (R1 : store_rows s1 = store_rows (now d)) by done.
  assert (I1 : index_rows s1 = index_rows (now d) ++ [((h_store h, name), (kp, u, mu))]) by done. clearbody s1.
  destruct (proj1 H _ _ Hm) as (Hn & _ & sr & Hsr & Hsort & _).
  assert (Hns : store_table (h_store h) <> index_table (h_store h) name) by congruence.
  rewrite T1, bool_decide_eq_false_2, Hsr by done. rewrite (update_fresh _ _ _ Hi).
  destruct (backfill_spec (h_store h) im sr s1 [] (map_sorted_NoDup _ Hsort)) as (res & s' & ir & -> & Hv & (_ & C1 & C2) & U & T & B1 & _ & B3).
  { by rewrite T1, bool_decide_eq_true_2. }
  { intros x Hx. by apply not_elem_of_nil in Hx. }
  assert (Ok : forall e', (e' = true -> e = true /\ is_filled res = true) ->
    consistent e' s' (update_name (h_store h) (set_indexes (indexes m ++ [(name, im)]) m) (stores d))).
  { intros e' He. eapply (consistent_add_index e e' (now d) s' _ _ _ im); [done|exact Hm|done|done|by rewrite C1, R1|by rewrite C2, I1| |exact T|exact Hsr|intros E; apply (He E)|].
    { intros t Ht. by rewrite U, T1, bool_decide_eq_false_2. }
    split.
    - intros ik pk Hin. destruct (B1 _ _ Hin) as [Hnil|(blob & Hb & v & Hdv & Hkv)]; [by apply not_elem_of_nil in Hnil|].
      exists blob, v. split; [by apply map_find_sorted|done].
    - intros E pk blob v ik Hf Hdv Hkv. apply (B3 (proj2 (He E)) (pk, blob)); [by apply map_find_elem|]. by exists v. }
  destruct res as [|er|]; [| |done]; intros [= <- <-]; do 2 (split; [done|]); apply Ok.
  - intros E. by apply kept_weaken in E.
  - unfold kept. cbn [succeeded now set_now orb]. intros [_ E%bool_decide_eq_true]%andb_true_iff.
    unfold table in T, Hnew. cbn [i_name im] in T. by rewrite E, Hnew in T.
Qed.

Lemma delete_index_step e h name d r d' : consistent e (now d) (stores d) ->
  store_delete_index h name d = Ret (r, d') -> index_step e true d d'.
Proof.
  intros H. pose proof (fun ok => index_step_refl e ok d H) as Hr. unfold store_delete_index.
  destruct (is_index h); [by intros [= <- <-]|]. destruct (in_versionchange d h); cbn [negb]; [|by intros [= <- <-]].
  unfold store_at. destruct (lookup_name (h_store h) (stores d)) as [m|] eqn:Hm; [|done]. cbn [mbind outcome_bind].
  destruct (lookup_name name (indexes m)) as [im|] eqn:Hi; [|by intros [= <- <-]].
  set (s' := drop_index_row _ _ _). intros [= <- <-]. do 2 (split; [done|]). cbn [now stores set_now set_stores].
  apply (consistent_weaken e); [apply kept_weaken|].
  set (t0 := index_table (h_store h) name).
  assert (T : forall t, table t s' = if bool_decide (t = t0) then None else table t (now d)) by exact (fun t => table_drop t t0 (now d)).
  assert (C1 : store_rows s' = store_rows (now d)) by done.
  assert (C2 : forall x, x ∈ index_rows s' -> x ∈ index_rows (now d)) by (intros x Hx; by apply list_elem_of_filter in Hx as [_ Hx]).
  assert (L : forall k, load_indexes k s' = if bool_decide (k = h_store h) then remove_name name (load_indexes k (now d)) else load_indexes k (now d)).
  { intros k. exact (load_indexes_drop (h_store h) name k (drop_table t0 (now d))). }
  clearbody s'. pose proof H as (H1 & H2 & H3 & H4). pose proof (H1 _ _ Hm) as Hok.
  pose proof Hok as (Hn & (G & Hd & HF) & sr & Hsr & Hsort & Hix). rewrite Forall_forall in HF.
  assert (Gn : good_name name) by (apply (HF (name, im)), lookup_elem, Hi).
  assert (Ht0 : touched (h_store h) m t0) by (right; exists (name, im); split; [by apply lookup_elem|done]).
  split; [|split; [|split]].
  - intros k m'. rewrite lookup_update. destruct (bool_decide_reflect (k = h_store h)) as [->|Hk].
    + intros [= <-]. split; [done|]. split.
      * split; [done|]. cbn [indexes set_indexes]. split.
        { assert (S : sublist (remove_name name (indexes m)).*1 (indexes m).*1) by (apply (fmap_sublist fst), sublist_filter).
          by eapply sublist_NoDup. }
        apply Forall_forall. intros x [_ Hx]%list_elem_of_filter. by apply HF.
      * exists sr. rewrite T, bool_decide_eq_false_2 by (by eapply store_index_table).
        split; [done|]. split; [done|]. cbn [indexes set_indexes]. intros x [Hne Hx]%list_elem_of_filter.
        rewrite T, bool_decide_eq_false_2; [by apply Hix|]. intros [_ E]%index_table_inj; [done|done|by apply HF|done|done].
    + intros Hk'. eapply store_ok_frame; [|by apply H1]. intros t Ht. rewrite T, bool_decide_eq_false_2; [done|]. intros ->.
      eapply touched_disjoint; [by apply (H1 k)|exact Hok|done|done|done].
  - intros k. rewrite lookup_update. specialize (H2 k). specialize (L k). destruct (decide (k = h_store h)) as [Hk|Hk].
    + rewrite !(bool_decide_eq_true_2 _ Hk) in L |- *. subst k. rewrite (load_indexes_memory _ _ _ _ _ H Hm) in L. exact (set_indexes_load (now d) s' _ m _ _ Hm C1 H2 L).
    + rewrite !(bool_decide_eq_false_2 _ Hk) in L |- *. rewrite lookup_load in H2 |- *. by rewrite L, C1.
  - intros t. rewrite T. case_bool_decide as Ht; [by intros []|]. intros Hs. destruct (H3 t Hs) as (k & m' & Hk & Hto). exists k. rewrite lookup_update.
    destruct (bool_decide_reflect (k = h_store h)) as [->|]; [|by exists m']. eexists. split; [done|].
    replace m' with m in Hto by congruence. destruct Hto as [->|(x & Hx & ->)]; [by left|right]. exists x. split; [|done].
    apply list_elem_of_filter. split; [|done]. intros E. apply Ht. by rewrite E.
  - intros x Hx%C2. rewrite lookup_update. case_bool_decide; [by eexists|]. by apply H4.
Qed.
End Consistency.
