(* ===== verification/IndexedDbRuns.v ===== *)
(** IndexedDB: transactions and sequences of calls; indexes against records after every
    sequence, what a rollback restores, what is read after it was written, and what
    modelling showed. *)

From S2P Require Import Prelude Strings Doubles IdbKeys IndexedDb IndexedDbFacts.

Section Runs.
Context (deserialize : bytes -> option value).
#[local] Notation consistent := (consistent deserialize).
#[local] Notation data_step := (data_step deserialize).
#[local] Notation schema_step := (schema_step deserialize).
#[local] Notation index_step := (index_step deserialize).

(** * Transactions *)

Definition live (t : nat) (d : database) : bool :=
  match txs d !! t with Some x => active x && negb (finished x) | None => false end.

(** What an open transaction can go back to.  The schema changes only in a version
    change, after whose rollback the database has to be opened again. *)
Definition snapshot_ok (e : bool) (d : database) : Prop :=
  match saved d with
  | None => forall t, live t d = false
  | Some s => consistent e s (load_stores s) /\
      exists t x, txs d !! t = Some x /\ live t d = true /\ (forall t', live t' d = true -> t' = t) /\
        (mode x <> versionchange -> same_stores (load_stores s) (stores d))
  end.

Definition inv (e e0 : bool) (d : database) : Prop := consistent e (now d) (stores d) /\ snapshot_ok e0 d.

Lemma live_frame d d' t : txs d' = txs d -> live t d' = live t d.
Proof. unfold live. by intros ->. Qed.

Lemma inv_data e e0 ok d d' : inv e e0 d -> data_step e ok d d' -> inv (kept e ok d d') e0 d'.
Proof.
  intros [_ H] (A1 & A2 & A3 & A4). split; [done|]. unfold snapshot_ok in *. rewrite A1.
  destruct (saved d) as [s|].
  - destruct H as (Hc & t & x & Hx & Hl & Hu & Hs). split; [done|]. exists t, x. rewrite A2. split_and!; [done|by rewrite (live_frame d)| |].
    + intros t'. rewrite (live_frame d) by done. apply Hu.
    + intros Hm k. rewrite A3. by apply Hs.
  - intros t. by rewrite (live_frame d).
Qed.

(** The version change a call on the schema needs. *)
Definition upgrading_in (t : nat) (d : database) : Prop :=
  live t d = true /\ exists x, txs d !! t = Some x /\ mode x = versionchange.

Lemma inv_schema e e0 ok d d' t : inv e e0 d -> upgrading_in t d -> index_step e ok d d' -> inv (kept e ok d d') e0 d'.
Proof.
  intros [_ H] (Ht & x & Hx & Hm) (A1 & A2 & A3). split; [done|]. unfold snapshot_ok in *. rewrite A1.
  destruct (saved d) as [s|]; [|by rewrite H in Ht].
  destruct H as (Hc & t0 & x0 & Hx0 & Hl & Hu & Hs). split; [done|]. exists t0, x0. rewrite A2. split_and!; [done|by rewrite (live_frame d)| |].
  - intros t'. rewrite (live_frame d) by done. apply Hu.
  - intros Hne. apply Hu in Ht as ->. congruence.
Qed.

Lemma live_snoc t x d : live t (set_txs (txs d ++ [x]) d) = if bool_decide (t = length (txs d)) then active x && negb (finished x) else live t d.
Proof.
  unfold live. cbn [txs set_txs]. case_bool_decide as Ht.
  - subst t. by rewrite list_lookup_middle.
  - destruct (decide (t < length (txs d))%nat) as [Hl|Hl]; [by rewrite lookup_app_l|].
    rewrite (lookup_ge_None_2 (txs d)) by lia. rewrite lookup_ge_None_2; [done|]. rewrite length_app. cbn [length]. lia.
Qed.

Lemma create_transaction_inv e e0 names m d t err d' : inv e e0 d -> create_transaction names m d = (t, err, d') ->
  match err with
  | Some _ => inv e e0 d' /\ now d' = now d /\ saved d' = saved d
  | None => inv e e d' /\ now d' = now d /\ stores d' = stores d /\ exists x, txs d' !! t = Some x /\ mode x = m
  end.
Proof.
  intros [Hc H]. unfold create_transaction. unfold snapshot_ok in H. destruct (saved d) as [s|] eqn:Es; intros [= <- <- <-].
  - split; [|done]. split; [done|]. unfold snapshot_ok. cbn [saved set_txs]. rewrite Es. destruct H as (Hs & t & x & Hx & Hl & Hu & Hm).
    split; [done|]. exists t, x. rewrite live_snoc. pose proof (lookup_lt_Some _ _ _ Hx). split_and!.
    + cbn [txs set_txs]. by rewrite lookup_app_l.
    + rewrite bool_decide_eq_false_2 by lia. done.
    + intros t'. rewrite live_snoc. case_bool_decide; [done|]. apply Hu.
    + done.
  - split; [|split; [done|]; split; [done|]].
    + split; [done|]. unfold snapshot_ok. cbn [saved set_saved]. split; [by eapply consistent_load|].
      eexists _, _. assert (L : forall t', live t' (set_saved (Some (now d)) (set_txs (txs d ++ [MkTx m true false false names]) d)) = bool_decide (t' = length (txs d))).
      { intros t'. change (live t' (set_txs (txs d ++ [MkTx m true false false names]) d) = bool_decide (t' = length (txs d))).
        rewrite live_snoc. by destruct (bool_decide _). }
      split; [cbn [txs set_saved set_txs]; by apply list_lookup_middle|]. split_and!.
      * rewrite L. by apply bool_decide_eq_true.
      * intros t'. rewrite L. apply bool_decide_eq_true.
      * intros _. intros k. symmetry. apply Hc.
    + eexists. split; [cbn [txs set_saved set_txs]; by apply list_lookup_middle|done].
Qed.

Lemma live_update t t' x d : live t' (update_tx t x d) = if bool_decide (t' = t) then (match txs d !! t with Some _ => active x && negb (finished x) | None => false end) else live t' d.
Proof.
  unfold live, update_tx. cbn [txs set_txs]. case_bool_decide as Ht; [subst t'|by rewrite list_lookup_insert_ne].
  destruct (txs d !! t) as [y|] eqn:E; [by rewrite list_lookup_insert_eq by (by eapply lookup_lt_Some)|].
  rewrite list_insert_ge by (by apply lookup_ge_None). by rewrite E.
Qed.

(** Ending a transaction that is not open changes nothing that matters. *)
Lemma inv_finish e e0 t x err d : inv e e0 d -> txs d !! t = Some x -> live t d = false -> inv e e0 (update_tx t (finish x err) d).
Proof.
  intros [Hc H] Hx Hl. split; [done|]. unfold snapshot_ok in *. cbn [saved update_tx set_txs].
  assert (L : forall t', live t' (update_tx t (finish x err) d) = live t' d).
  { intros t'. rewrite live_update, Hx. cbn [finish active finished negb]. rewrite andb_false_r. case_bool_decide; [by subst|done]. }
  destruct (saved d) as [s|]; [|intros t'; by rewrite L].
  destruct H as (Hs & t0 & x0 & Hx0 & Hl0 & Hu & Hm). split; [done|]. exists t0, x0. rewrite L. split_and!; [|done| |done].
  - cbn [txs update_tx set_txs]. rewrite list_lookup_insert_ne by congruence. done.
  - intros t'. rewrite L. apply Hu.
Qed.

Lemma live_finish e d t x err : snapshot_ok e d -> live t d = true -> txs d !! t = Some x -> forall t', live t' (update_tx t (finish x err) d) = false.
Proof.
  intros H Hl Hx t'. rewrite live_update, Hx. cbn [finish active finished negb]. rewrite andb_false_r. case_bool_decide as Ht; [done|].
  unfold snapshot_ok in H. destruct (saved d) as [s|]; [|apply H]. destruct H as (_ & t0 & x0 & _ & _ & Hu & _).
  apply not_true_iff_false. intros Hl'. apply Ht. by rewrite (Hu t Hl), (Hu t' Hl').
Qed.

Lemma commit_inv e e0 t d : inv e e0 d -> inv e e0 (tx_commit_internal t d) /\ now (tx_commit_internal t d) = now d.
Proof.
  intros H. unfold tx_commit_internal. destruct (txs d !! t) as [x|] eqn:Hx; [|done].
  assert (Hl : live t d = active x && negb (finished x)) by (unfold live; by rewrite Hx).
  destruct (active x), (finished x); cbn [negb orb andb] in *; try done. destruct (saved d) as [s|] eqn:Es.
  - split; [|done]. destruct H as [Hc Hs]. split; [done|]. unfold snapshot_ok. cbn [saved set_saved]. intros t'.
    exact (live_finish _ _ _ _ _ Hs Hl Hx t').
  - exfalso. destruct H as [_ H]. unfold snapshot_ok in H. rewrite Es in H. by rewrite H in Hl.
Qed.

(** Rolling back goes back to what was there at the beginning, but for the stores in
    memory, which a version change may have changed. *)
Lemma abort_inv e e0 t d : inv e e0 d ->
  (live t d = false -> inv e e0 (tx_abort_internal t d)) /\
  (live t d = true -> (exists x, txs d !! t = Some x /\ mode x <> versionchange) -> inv e0 e0 (tx_abort_internal t d)) /\
  (live t d = true -> saved (tx_abort_internal t d) = None /\ consistent e0 (now (tx_abort_internal t d)) (load_stores (now (tx_abort_internal t d)))).
Proof.
  intros H. unfold tx_abort_internal. destruct (txs d !! t) as [x|] eqn:Hx.
  2: { assert (Hl : live t d = false) by (unfold live; by rewrite Hx). rewrite Hl. split; [done|]. split; [done|]. done. }
  assert (Hl : live t d = active x && negb (finished x)) by (unfold live; by rewrite Hx). split; [|split].
  - intros Hf. destruct (finished x) eqn:Efin; [done|]. destruct (active x) eqn:Ea; [rewrite Hl in Hf; done|]. by apply inv_finish.
  - intros Ht (x' & [= <-] & Hm). rewrite Ht in Hl. symmetry in Hl. apply andb_true_iff in Hl as [-> ->%negb_true_iff].
    destruct H as [Hc H]. pose proof H as Hs. unfold snapshot_ok in H. destruct (saved d) as [s|] eqn:Es; [|by rewrite H in Ht].
    destruct H as (Hcs & t0 & x0 & Hx0 & Hl0 & Hu & Hst). pose proof (Hu t Ht) as ->. replace x0 with x in Hst by congruence. split.
    + cbn [now stores set_saved set_now update_tx set_txs]. eapply consistent_stores; [by apply Hst|done].
    + unfold snapshot_ok. cbn [saved update_tx set_saved set_txs]. intros t'.
      change (live t' (update_tx t0 (finish x false) d) = false). by eapply live_finish.
  - intros Ht. rewrite Ht in Hl. symmetry in Hl. apply andb_true_iff in Hl as [-> ->%negb_true_iff].
    destruct H as [Hc H]. unfold snapshot_ok in H. destruct (saved d) as [s|] eqn:Es; [|by rewrite H in Ht]. by destruct H as (Hcs & _).
Qed.

(** What was serialized is read back. *)
Context (serialize : value -> option bytes) (clone : forall v b, serialize v = Some b -> deserialize b = Some v).

(** * Sequences of calls *)

(** The calls the theorems below are about: names are made of lower-case letters and
    digits (others may share a table, [index_tables_collide]); the schema changes while
    its version change is open (the code does not ask, [index_created_after_commit]); a
    cursor that updates is at a record that is still there (if it is not, rows without a
    record result, [cursor_update_leaves_stray_rows]). *)
Definition allowed (c : call) (d : database) : Prop :=
  match c with
  | c_create_store name _ _ => good_name name /\ exists t, upgrading d = Some t /\ upgrading_in t d
  | c_delete_store _ => exists t, upgrading d = Some t /\ upgrading_in t d
  | c_create_index h name _ _ _ => good_name name /\ upgrading_in (h_tx h) d
  | c_delete_index h _ => upgrading_in (h_tx h) d
  | c_cursor_update c _ => at_record c d
  | _ => True
  end.

(** Whether a call rolls an open transaction back, and whether that is a version change. *)
Definition rolls_back (c : call) (d : database) : bool :=
  match c with c_abort t | c_end_upgrade t true => live t d | _ => false end.
Definition abandons (c : call) (d : database) : bool :=
  match c with
  | c_abort t | c_end_upgrade t true =>
      live t d && match txs d !! t with Some x => bool_decide (mode x = versionchange) | None => false end
  | _ => false
  end.

(** Whether the indexes, and those that a rollback would bring back, are complete. *)
Definition complete_after (c : call) (ok : bool) (e e0 : bool) (d d' : database) : bool * bool :=
  match c with
  | c_transaction _ _ | c_begin_upgrade _ => if ok then (e, e) else (e, e0)
  | c_reopen => match saved d with Some _ => (e0, e0) | None => (e, e) end
  | _ => if rolls_back c d then (e0, e0) else (kept e ok d d', e0)
  end.

(** The databases that sequences of calls lead to; after a version change has been
    rolled back ([abandoned]) only opening again. *)
Inductive reached : bool -> bool -> bool -> database -> Prop :=
| reached_new : reached true true false (open_database empty_sql)
| reached_call e e0 d c ok d' : reached e e0 false d -> allowed c d -> perform serialize deserialize c d = Ret (ok, d') ->
    reached (complete_after c ok e e0 d d').1 (complete_after c ok e e0 d d').2 (abandons c d) d'
| reached_again e e0 d : reached e e0 true d -> reached e e false (open_database (now d)).

Lemma open_inv e s : consistent e s (load_stores s) -> inv e e (open_database s).
Proof. done. Qed.

Lemma kept_same e ok d d' : now d' = now d -> kept e ok d d' = e.
Proof. intros E. unfold kept. by rewrite E, bool_decide_eq_true_2, orb_true_r, andb_true_r by done. Qed.

Lemma kept_true e d d' : kept e true d d' = e.
Proof. apply andb_true_r. Qed.

Lemma inv_set_upgrading e e0 t d : inv e e0 d -> inv e e0 (set_upgrading t d).
Proof. done. Qed.

Lemma returned_ret {A} (x : outcome (reply A * database)) ok d' : returned x = Ret (ok, d') -> exists r, x = Ret (r, d') /\ ok = succeeded r.
Proof. unfold returned. destruct x as [[r d1]| | |]; [|done..]. intros [= <- <-]. by exists r. Qed.

Lemma begin_upgrade_inv e e0 n d r d' : inv e e0 d -> begin_upgrade n d = (r, d') ->
  if succeeded r then inv e e d' else inv e e0 d' /\ now d' = now d.
Proof.
  intros H. unfold begin_upgrade. destruct (create_transaction [] versionchange d) as [[t err] d1] eqn:E.
  pose proof (create_transaction_inv _ _ _ _ _ _ _ _ H E) as Hc. destruct err as [er|]; intros [= <- <-].
  - by destruct Hc as (? & ? & _).
  - destruct Hc as ([Hc Hs] & _). split; [|exact Hs]. by apply (consistent_tables _ _ (now d1)).
Qed.

Lemma end_upgrade_inv e e0 t threw d r d' : inv e e0 d -> end_upgrade t threw d = (r, d') ->
  d' = set_upgrading None (if threw then tx_abort_internal t d else tx_commit_internal t d).
Proof.
  intros _. unfold end_upgrade. destruct threw; [by intros [= <- <-]|].
  destruct (_ !! _) as [x|]; [destruct (errored x)|]; by intros [= <- <-].
Qed.

Lemma transaction_inv e e0 names m d r d' : inv e e0 d -> database_transaction names m d = (r, d') ->
  if succeeded r then inv e e d' else inv e e0 d'.
Proof.
  intros H. unfold database_transaction. destruct (closed d); [by intros [= <- <-]|]. destruct (negb _); [by intros [= <- <-]|].
  case_bool_decide; [by intros [= <- <-]|]. destruct (create_transaction names m d) as [[t err] d1] eqn:E.
  pose proof (create_transaction_inv _ _ _ _ _ _ _ _ H E) as Hc. destruct err as [er|]; intros [= <- <-]; by destruct Hc as (? & _).
Qed.

Lemma abort_idle t d : live t d = false -> now (tx_abort_internal t d) = now d.
Proof.
  unfold live, tx_abort_internal. destruct (txs d !! t) as [x|]; [|done]. by destruct (finished x), (active x).
Qed.

Lemma schema_index_step e ok d d' : schema_step e d d' -> index_step e ok d d'.
Proof. intros (A1 & A2 & A3). split; [done|]. split; [done|]. eapply consistent_weaken; [apply kept_weaken|done]. Qed.

Lemma index_step_weaken e ok d d' : index_step e true d d' -> index_step e ok d d'.
Proof. intros H. apply schema_index_step. destruct H as (A1 & A2 & A3). by rewrite kept_true in A3. Qed.

(** One call, where no version change is rolled back. *)
Lemma perform_inv e e0 c d ok d' : inv e e0 d -> allowed c d -> abandons c d = false ->
  perform serialize deserialize c d = Ret (ok, d') -> inv (complete_after c ok e e0 d d').1 (complete_after c ok e e0 d d').2 d'.
Proof.
  intros H Ha Hn. pose proof H as [Hc Hs].
  assert (Roll : forall t, abandons (c_abort t) d = false ->
    inv (if live t d then e0 else e) e0 (tx_abort_internal t d)).
  { intros t Ht. destruct (abort_inv _ _ t _ H) as (A1 & A2 & _). cbn [abandons] in Ht. destruct (live t d) eqn:Hl; [|by apply A1].
    apply A2; [done|]. unfold live in Hl. destruct (txs d !! t) as [x|]; [|done]. exists x. split; [done|]. by apply bool_decide_eq_false in Ht. }
  destruct c as [n|t threw|name kp ai|name|h name kp u mu|h name|names m|t|t|ow h v key|h q|h|c v|c| |]; cbn [perform].
  - intros (r & [= E] & ->)%returned_ret. pose proof (begin_upgrade_inv _ _ _ _ _ _ H E) as B. cbn [complete_after].
    destruct (succeeded r); [done|]. by destruct B.
  - intros (r & [= E] & ->)%returned_ret. rewrite (end_upgrade_inv _ _ _ _ _ _ _ H E). cbn [complete_after rolls_back].
    destruct threw; [|rewrite kept_same by apply (commit_inv _ _ t _ H); by apply commit_inv].
    specialize (Roll t Hn). destruct (live t d) eqn:Hl; [done|]. cbn [fst snd]. rewrite kept_same by (by apply abort_idle). exact Roll.
  - intros (r & [= E] & ->)%returned_ret. destruct Ha as (Hg & t & _ & Hu). cbn [complete_after rolls_back fst snd].
    eapply inv_schema; [done|exact Hu|]. apply schema_index_step. by eapply create_store_step.
  - intros (r & [= E] & ->)%returned_ret. destruct Ha as (t & _ & Hu). cbn [complete_after rolls_back fst snd].
    eapply inv_schema; [done|exact Hu|]. apply schema_index_step. by eapply delete_store_step.
  - intros (r & E & ->)%returned_ret. destruct Ha as [Hg Hu]. eapply inv_schema; [done|exact Hu|]. by eapply create_index_step.
  - intros (r & E & ->)%returned_ret. eapply inv_schema; [done|exact Ha|]. eapply index_step_weaken; by eapply delete_index_step.
  - intros (r & [= E] & ->)%returned_ret. cbn [complete_after]. pose proof (transaction_inv _ _ _ _ _ _ _ H E) as B. by destruct (succeeded r).
  - intros [= <- <-]. cbn [complete_after rolls_back fst snd]. destruct (commit_inv _ _ t _ H) as [Hi Hw]. by rewrite kept_same.
  - intros [= <- <-]. specialize (Roll t Hn). cbn [complete_after rolls_back]. destruct (live t d) eqn:Hl; [done|].
    cbn [fst snd]. rewrite kept_same by (by apply abort_idle). exact Roll.
  - intros (r & E & ->)%returned_ret. eapply inv_data; [done|]. by eapply put_step.
  - intros (r & E & ->)%returned_ret. eapply inv_data; [done|]. by eapply store_delete_step.
  - intros (r & E & ->)%returned_ret. eapply inv_data; [done|]. by eapply store_clear_step.
  - intros (r & E & ->)%returned_ret. eapply inv_data; [done|]. by eapply cursor_update_step.
  - intros (r & E & ->)%returned_ret. eapply inv_data; [done|]. by eapply cursor_delete_step.
  - intros [= <- <-]. cbn [complete_after rolls_back fst snd]. by rewrite kept_same.
  - intros [= <- <-]. cbn [complete_after]. unfold snapshot_ok in Hs. destruct (saved d) as [s|]; cbn [default fst snd]; apply open_inv.
    + apply Hs.
    + by eapply consistent_load.
Qed.

Lemma abandoned_inv e e0 c ok d d' : inv e e0 d -> abandons c d = true -> perform serialize deserialize c d = Ret (ok, d') ->
  (complete_after c ok e e0 d d').1 = e0 /\ consistent e0 (now d') (load_stores (now d')).
Proof.
  intros H. destruct c as [n|t threw|name kp ai|name|h name kp u mu|h name|names m|t|t|ow h v key|h q|h|c v|c| |]; cbn [abandons perform]; try done.
  - destruct threw; [|done]. intros [Hl _]%andb_true_iff (r & E & ->)%returned_ret. cbn [complete_after rolls_back]. rewrite Hl. split; [done|].
    assert (E' : end_upgrade t true d = (r, d')) by congruence. rewrite (end_upgrade_inv _ _ _ _ _ _ _ H E'). exact (proj2 (proj2 (proj2 (abort_inv e e0 t d H)) Hl)).
  - intros [Hl _]%andb_true_iff [= <- <-]. cbn [complete_after rolls_back]. rewrite Hl. split; [done|]. exact (proj2 (proj2 (proj2 (abort_inv e e0 t d H)) Hl)).
Qed.

Lemma reached_inv e e0 gone d : reached e e0 gone d -> if gone then consistent e (now d) (load_stores (now d)) else inv e e0 d.
Proof.
  induction 1 as [|e e0 d c ok d' Hr IH Ha Hp|e e0 d Hr IH].
  - apply open_inv. split; [done|]. split; [done|]. split; [by intros t []|]. intros x Hx. by apply not_elem_of_nil in Hx.
  - destruct (abandons c d) eqn:Hn.
    + destruct (abandoned_inv _ _ _ _ _ _ IH Hn Hp) as [-> Hc]. exact Hc.
    + by apply perform_inv.
  - by apply open_inv.
Qed.

(** C23. The table of an index only has rows of records that the store has and whose
    values have the index key of the row; and it has one for every record whose value
    has an index key, unless a call failed halfway and was not rolled back: after every
    sequence of upgrades, transactions, puts, deletions, cursor updates, commits,
    rollbacks and restarts in which each call is [allowed]: names are lower-case letters
    and digits, the schema is changed inside an open version change, a cursor updates a
    record that still exists; and after a rolled back upgrade the database is opened
    again.  Without these conditions the statement is false, as lemmas below show. *)
Theorem indexes_follow_records e e0 d name m i im :
  reached e e0 false d -> lookup_name name (stores d) = Some m -> lookup_name i (indexes m) = Some im ->
  exists sr ir, table (store_table name) (now d) = Some sr /\ table (index_table name i) (now d) = Some ir /\
    (forall ik pk, (ik, pk) ∈ ir -> exists blob v, map_find pk sr = Some blob /\ deserialize blob = Some v /\ index_key im v = Some ik) /\
    (e = true -> forall pk blob v ik, map_find pk sr = Some blob -> deserialize blob = Some v -> index_key im v = Some ik -> (ik, pk) ∈ ir).
Proof.
  intros Hr Hm Hi%lookup_elem. apply reached_inv in Hr as [[H1 _] _]. destruct (H1 _ _ Hm) as (_ & _ & sr & Hs & _ & Hx).
  destruct (Hx _ Hi) as (ir & Ht & Hir). by exists sr, ir.
Qed.

(** ** Rollback *)

(** A call inside an open transaction: not one that ends it. *)
Definition inner (c : call) : bool := match c with c_end_upgrade _ _ | c_commit _ | c_abort _ | c_reopen => false | _ => true end.
Definition inner_step (d d' : database) : Prop :=
  exists c ok, inner c = true /\ allowed c d /\ perform serialize deserialize c d = Ret (ok, d').

Definition keeps_open (d d' : database) : Prop :=
  saved d' = saved d /\ forall t x, txs d !! t = Some x -> txs d' !! t = Some x.

Lemma keeps_open_same d d' : saved d' = saved d -> txs d' = txs d -> keeps_open d d'.
Proof. intros H1 H2. split; [done|]. by rewrite H2. Qed.

Lemma keeps_open_refused names m s t err d d' : saved d = Some s -> create_transaction names m d = (t, err, d') -> err = Some begin_error /\ keeps_open d d'.
Proof.
  intros Hs. unfold create_transaction. rewrite Hs. intros [= <- <- <-]. split; [done|]. split; [done|]. intros t x Hx.
  cbn [txs set_txs]. by apply lookup_app_l_Some.
Qed.

Lemma inner_keeps_open e e0 c d ok d' s : inv e e0 d -> saved d = Some s -> inner c = true -> allowed c d ->
  perform serialize deserialize c d = Ret (ok, d') -> keeps_open d d'.
Proof.
  intros [Hc _] Hs Hi Ha. assert (Hr : keeps_open d d) by (by apply keeps_open_same).
  assert (Step : forall ok d', data_step e ok d d' -> keeps_open d d') by (intros ? ? (? & ? & _); by apply keeps_open_same).
  assert (Step' : forall ok d', index_step e ok d d' -> keeps_open d d') by (intros ? ? (? & ? & _); by apply keeps_open_same).
  assert (Step'' : forall d', schema_step e d d' -> keeps_open d d') by (intros ? (? & ? & _); by apply keeps_open_same).
  destruct c as [n|t threw|name kp ai|name|h name kp u mu|h name|names m|t|t|ow h v key|h q|h|c v|c| |]; cbn [perform]; try done.
  - intros (r & [= E] & _)%returned_ret. unfold begin_upgrade in E.
    destruct (create_transaction [] versionchange d) as [[t err] d1] eqn:Et.
    destruct (keeps_open_refused _ _ _ _ _ _ _ Hs Et) as [-> Hk]. by injection E as <- <-.
  - intros (r & [= E] & _)%returned_ret. destruct Ha as [Hg _]. eapply Step'', create_store_step; [exact Hc|exact Hg|exact E].
  - intros (r & [= E] & _)%returned_ret. eapply Step'', delete_store_step; [exact Hc|exact E].
  - intros (r & E & _)%returned_ret. destruct Ha as [Hg _]. eapply Step', create_index_step; [exact Hc|exact Hg|exact E].
  - intros (r & E & _)%returned_ret. eapply Step', delete_index_step; [exact Hc|exact E].
  - intros (r & [= E] & _)%returned_ret. unfold database_transaction in E.
    destruct (closed d); [by injection E as <- <-|]. destruct (negb _); [by injection E as <- <-|].
    destruct (bool_decide _); [by injection E as <- <-|].
    destruct (create_transaction names m d) as [[t err] d1] eqn:Et.
    destruct (keeps_open_refused _ _ _ _ _ _ _ Hs Et) as [-> Hk]. by injection E as <- <-.
  - intros (r & E & _)%returned_ret. eapply Step, put_step; [exact clone|exact Hc|exact E].
  - intros (r & E & _)%returned_ret. eapply Step, store_delete_step; [exact Hc|exact E].
  - intros (r & E & _)%returned_ret. eapply Step, store_clear_step; [exact Hc|exact E].
  - intros (r & E & _)%returned_ret. eapply Step, cursor_update_step; [exact clone|exact Hc|exact Ha|exact E].
  - intros (r & E & _)%returned_ret. eapply Step, cursor_delete_step; [exact Hc|exact E].
  - by intros [= <- <-].
Qed.

Lemma inner_abandons c d : inner c = true -> abandons c d = false.
Proof. by destruct c. Qed.

(** What holds from the beginning of a transaction until it ends. *)
Definition open_since (d0 : database) (t : nat) (m : tx_mode) (d : database) : Prop :=
  (exists e e0, inv e e0 d) /\ saved d = Some (now d0) /\ exists names, txs d !! t = Some (MkTx m true false false names).

Lemma inner_steps_open d0 t m d d' : rtc inner_step d d' -> open_since d0 t m d -> open_since d0 t m d'.
Proof.
  induction 1 as [|d d1 d' (c & ok & Hi & Ha & E) _ IH]; [done|]. intros ((e & e0 & H) & Hs & names & Hx). apply IH.
  destruct (inner_keeps_open _ _ _ _ _ _ _ H Hs Hi Ha E) as [Hs' Hk].
  split; [|split; [congruence|exists names; by apply Hk]].
  eexists _, _. eapply perform_inv; [exact H|exact Ha|by apply inner_abandons|exact E].
Qed.

Lemma begin_open d c d1 e e0 : inv e e0 d -> perform serialize deserialize c d = Ret (true, d1) ->
  match c with
  | c_transaction names m => open_since d (length (txs d)) m d1
  | c_begin_upgrade n => open_since d (length (txs d)) versionchange d1
  | _ => True
  end.
Proof.
  intros H. assert (Begin : forall names m t d2, create_transaction names m d = (t, None, d2) -> open_since d (length (txs d)) m d2).
  { intros names m t d2 E. pose proof (create_transaction_inv _ _ _ _ _ _ _ _ H E) as (Hi & _). split; [by exists e, e|].
    unfold create_transaction in E. destruct (saved d); [discriminate E|]. injection E as <- <-. split; [done|]. exists names.
    cbn [txs set_saved set_txs]. by apply list_lookup_middle. }
  destruct c as [n|t threw|name kp ai|name|h name kp u mu|h name|names m|t|t|ow h v key|h q|h|c v|c| |]; cbn [perform]; try done.
  - intros (r & [= E] & Hok)%returned_ret. pose proof (begin_upgrade_inv _ _ _ _ _ _ H E) as B. rewrite <- Hok in B.
    unfold begin_upgrade in E. destruct (create_transaction [] versionchange d) as [[t [er|]] d2] eqn:Et; injection E as <- <-; [done|].
    destruct (Begin _ _ _ _ Et) as (_ & Hs & Hx). split; [by exists e, e|]. done.
  - intros (r & [= E] & Hok)%returned_ret. unfold database_transaction in E.
    destruct (closed d); [by injection E as <- <-|]. destruct (negb _); [by injection E as <- <-|].
    destruct (bool_decide _); [by injection E as <- <-|].
    destruct (create_transaction names m d) as [[t [er|]] d2] eqn:Et; injection E as <- <-; [done|by eapply Begin].
Qed.

Local Ltac same_version E :=
  unfold store_at, mbind, outcome_bind in E; repeat case_match; simplify_eq; try done.

Lemma derive_key_version m v key d pk derived w d1 : derive_key m v key d = Ret (inr (pk, derived, w, d1)) -> version d1 = version d.
Proof. intros E. unfold derive_key, next_auto_key in E. same_version E. Qed.

(** The version is not touched by calls inside a transaction, and the stores in memory
    only by a version change. *)
Lemma inner_version c d ok d' s : saved d = Some s -> inner c = true ->
  perform serialize deserialize c d = Ret (ok, d') -> version d' = version d.
Proof.
  intros Hs Hi. destruct c as [n|t threw|name kp ai|name|h name kp u mu|h name|names m|t|t|ow h v key|h q|h|c v|c| |]; cbn [perform]; try done.
  - intros (r & [= E] & _)%returned_ret. unfold begin_upgrade, create_transaction in E. rewrite Hs in E. by injection E as <- <-.
  - intros (r & [= E] & _)%returned_ret. unfold database_create_object_store in E. repeat case_match; by simplify_eq.
  - intros (r & [= E] & _)%returned_ret. unfold database_delete_object_store in E. repeat case_match; by simplify_eq.
  - intros (r & E & _)%returned_ret. unfold store_create_index in E. same_version E.
  - intros (r & E & _)%returned_ret. unfold store_delete_index in E. same_version E.
  - intros (r & [= E] & _)%returned_ret. unfold database_transaction, create_transaction in E. rewrite Hs in E. repeat case_match; by simplify_eq.
  - intros (r & E & _)%returned_ret. unfold store_put_or_add in E. same_version E.
    all: match goal with H : derive_key _ _ _ _ = _ |- _ => by apply derive_key_version in H end.
  - intros (r & E & _)%returned_ret. unfold store_delete in E. same_version E.
  - intros (r & E & _)%returned_ret. unfold store_clear in E. same_version E.
  - intros (r & E & _)%returned_ret. unfold cursor_update in E. same_version E.
  - intros (r & E & _)%returned_ret. unfold cursor_delete in E. same_version E.
  - by intros [= <- <-].
Qed.

Lemma inner_steps_version d0 t m d d' : rtc inner_step d d' -> open_since d0 t m d -> version d' = version d.
Proof.
  induction 1 as [|d d1 d' Hstep Hs IH]; intros Ho; [done|].
  pose proof (inner_steps_open _ _ _ _ _ (rtc_once _ _ Hstep) Ho) as Ho1.
  destruct Hstep as (c & ok & Hi & Ha & E). rewrite (IH Ho1). eapply inner_version; [apply Ho|exact Hi|exact E].
Qed.

(** What a transaction [t] reads in [d], another one, [t'], reads in [d']. *)
Definition cursor_rows (r : reply cursor) : reply (option (list (bytes * bytes * bytes))) :=
  match r with Resolves c => Resolves (remaining c) | Throws e => Throws e | Rejects e => Rejects e end.
Definition reads_same (d d' : database) (t t' : nat) : Prop := forall store i q limit descending keys_only,
  let h := MkHandle store t i in let h' := MkHandle store t' i in
  store_get deserialize h q d = store_get deserialize h' q d' /\ store_get_key h q d = store_get_key h' q d' /\
  store_get_all deserialize h q limit d = store_get_all deserialize h' q limit d' /\
  store_get_all_keys h q limit d = store_get_all_keys h' q limit d' /\ store_count h q d = store_count h' q d' /\
  cursor_rows (open_cursor h q descending keys_only d) = cursor_rows (open_cursor h' q descending keys_only d').

Lemma reads_same_intro d d' t t' : now d = now d' -> live t d = true -> live t' d' = true -> reads_same d d' t t'.
Proof.
  intros Hn Hl Hl' store i q limit descending keys_only h h'.
  assert (E : ensure_active_tx d h = true) by exact Hl. assert (E' : ensure_active_tx d' h' = true) by exact Hl'.
  unfold store_get, store_get_key, store_get_all, store_get_all_keys, store_count, open_cursor, with_query.
  rewrite E, E'. cbn [negb]. unfold source_rows, source_keys, is_index. cbn [h_store h_index h h']. rewrite Hn.
  split_and!; try done. destruct (decode_query q true); [done|]. by repeat case_match.
Qed.

(** A transaction that can be opened on a database can be opened on one that has the
    same tables and stores, and reads the same. *)
Lemma reopened_reads_same names m d d' t e : saved d = None -> saved d' = None -> now d = now d' -> closed d' = false ->
  same_stores (stores d) (stores d') -> database_transaction names m d = (Resolves t, e) ->
  exists t' e', database_transaction names m d' = (Resolves t', e') /\ reads_same e e' t t'.
Proof.
  intros Hs Hs' Hn Hc Hst. unfold database_transaction, create_transaction. rewrite Hs, Hs', Hc.
  destruct (closed d); [by intros [=]|].
  assert (En : forallb (fun n => match lookup_name n (stores d) with Some _ => true | None => false end) names =
               forallb (fun n => match lookup_name n (stores d') with Some _ => true | None => false end) names).
  { clear -Hst. induction names as [|n names IH]; [done|]. cbn [forallb]. rewrite IH. f_equal. specialize (Hst n).
    by destruct (lookup_name n (stores d)), (lookup_name n (stores d')). }
  rewrite <- En. destruct (negb _); [by intros [=]|]. case_bool_decide; [by intros [=]|]. intros [= <- <-].
  eexists _, _. split; [reflexivity|]. apply reads_same_intro; [exact Hn|..].
  all: unfold live; cbn [txs set_saved set_txs]; by rewrite list_lookup_middle by done.
Qed.

(** C24. Rollback.  After any calls inside a transaction or an upgrade, successful or
    not, that are [allowed], aborting it leaves SQLite's tables, the catalogue and the
    stored version as they were when it began, with no transaction open.  What the
    process keeps in memory is as before too for a transaction: the version and, but for
    the counters of generated keys, the stores; so that, unless the database was closed
    meanwhile, every transaction that could be opened before can be opened after it, and
    every read, count and cursor of it answers the same.  After an aborted upgrade the
    memory is not restored ([aborted_upgrade_stays_in_memory]): then only opening the
    database again gives the one that was there. *)
Theorem rollback_restores e e0 d c d1 d2 :
  reached e e0 false d -> (exists names m, c = c_transaction names m) \/ (exists n, c = c_begin_upgrade n) ->
  perform serialize deserialize c d = Ret (true, d1) -> rtc inner_step d1 d2 ->
  let d' := tx_abort_internal (length (txs d)) d2 in
  now d' = now d /\ saved d' = None /\
  ((exists names m, c = c_transaction names m) ->
     version d' = version d /\ same_stores (stores d) (stores d') /\
     (closed d' = false -> forall names m t e1, database_transaction names m d = (Resolves t, e1) ->
        exists t' e1', database_transaction names m d' = (Resolves t', e1') /\ reads_same e1 e1' t t')).
Proof.
  intros Hr Hc E Hs d'. apply reached_inv in Hr. pose proof (begin_open _ _ _ _ _ Hr E) as Hb.
  assert (Ho : exists m, open_since d (length (txs d)) m d2).
  { destruct Hc as [(names & m & ->)|(n & ->)]; eexists; by eapply inner_steps_open. }
  destruct Ho as (m0 & _ & Hsd & names0 & Hx).
  assert (Ed : d' = update_tx (length (txs d)) (finish (MkTx m0 true false false names0) false) (set_saved None (set_now (now d) d2))).
  { unfold d', tx_abort_internal. rewrite Hx. cbn [finished active]. by rewrite Hsd. }
  split; [by rewrite Ed|]. split; [by rewrite Ed|]. intros (names & m & ->). cbn beta iota in Hb.
  destruct (inner_steps_open _ _ _ _ _ Hs Hb) as ((e1 & e1' & Hinv) & Hsaved & names1 & Hx1).
  rewrite Hx in Hx1. injection Hx1 as -> ->.
  assert (Hbegin : saved d = None /\ m <> versionchange /\ version d1 = version d).
  { cbn [perform] in E. apply returned_ret in E as (r & [= E] & Hok). unfold database_transaction in E.
    destruct (closed d); [by injection E as <- <-|]. destruct (negb _); [by injection E as <- <-|].
    case_bool_decide; [by injection E as <- <-|]. unfold create_transaction in E.
    destruct (saved d); [by injection E as <- <-|]. by injection E as <- <-. }
  destruct Hbegin as (Hd & Hm & Hv).
  assert (Hst : same_stores (stores d) (stores d')).
  { rewrite Ed. cbn [stores update_tx set_txs set_saved set_now]. destruct Hinv as [_ Hsn]. unfold snapshot_ok in Hsn.
    rewrite Hsaved in Hsn. destruct Hsn as (_ & t0 & x0 & Hx0 & _ & Hu & Hst).
    assert (Hl : live (length (txs d)) d2 = true) by (unfold live; by rewrite Hx). apply Hu in Hl as <-.
    rewrite Hx in Hx0. injection Hx0 as <-. specialize (Hst Hm). destruct Hr as [(_ & H2 & _) _].
    intros k. rewrite (Hst k). by rewrite H2. }
  split; [|split; [exact Hst|]].
  - rewrite Ed. cbn [version update_tx set_txs set_saved set_now]. rewrite <- Hv.
    by eapply inner_steps_version.
  - intros Hcl names' m' t e2 Et. apply (reopened_reads_same names' m' d d' t e2); try done; by rewrite Ed.
Qed.

(** ** What is read after it was written *)

Lemma derive_key_result m v key d pk derived w d1 : derive_key m v key d = Ret (inr (pk, derived, w, d1)) ->
  encode_key derived = inr pk /\ (w = v \/ exists path n, s_key_path m = Some path /\ w = inject_key_path v path (number_of n)).
Proof.
  unfold derive_key.
  assert (Enc : forall kv v' d2, Ret (match encode_key kv with inl er => inl er | inr p => inr (p, kv, v', d2) end) = Ret (inr (pk, derived, w, d1)) ->
    encode_key derived = inr pk /\ v' = w).
  { intros kv v' d2. destruct (encode_key kv) eqn:E; [done|]. by intros [= -> -> -> ->]. }
  assert (Auto : forall f, ('(n, d2) ← next_auto_key m d; Ret (match encode_key (number_of n) with inl er => inl er | inr p => inr (p, number_of n, f n, d2) end)) =
    Ret (inr (pk, derived, w, d1)) -> encode_key derived = inr pk /\ exists n, f n = w).
  { intros f. destruct (next_auto_key m d) as [[n d2]| | |]; [|done..]. cbn [mbind outcome_bind]. intros [? ?]%Enc. split; [done|by exists n]. }
  assert (Here : forall v', encode_key derived = inr pk /\ v' = w -> v' = v ->
    encode_key derived = inr pk /\ (w = v \/ exists path n, s_key_path m = Some path /\ w = inject_key_path v path (number_of n))).
  { intros v' [? <-] ->. split; [done|by left]. }
  destruct key as [| |u|u|t|b|p|z]; destruct (s_key_path m) as [path|].
  all: try (destruct (resolve_key_path v path)).
  all: try (destruct (auto_increment m)); cbn [negb].
  all: first [discriminate | intros E%Enc; by eapply Here
             | intros [E (n & <-)]%(Auto (fun n => if is_object v then inject_key_path v path (number_of n) else v))
             | intros [E (n & <-)]%(Auto (fun _ => v))]; (split; [exact E|]); try (by left).
  all: destruct (is_object v); [right; by exists path, n|by left].
Qed.

Lemma first_in_range {C} (f : bytes * bytes -> C) (g : C -> bytes) pk blob (sr : list (bytes * bytes)) :
  (forall x, g (f x) = x.1) -> map_sorted sr -> map_find pk sr = Some blob ->
  exists l, filter (fun y => get_condition (only_key pk) (g y) = true) (map f sr) = f (pk, blob) :: l.
Proof.
  intros Hg. assert (G : forall k, get_condition (only_key pk) k = negb (bytes_lt k pk)).
  { intros k. unfold get_condition, above_lower, only_key. cbn [has_lower has_upper lower upper lower_open negb orb andb].
    rewrite bool_decide_eq_true_2 by done. cbn [negb orb andb]. by rewrite andb_true_r. }
  unfold map_sorted. induction 1 as [|[k b] sr Hs IH HF]; [done|]. cbn [map_find map]. destruct (bool_decide_reflect (pk = k)) as [<-|Hk].
  - intros [= ->]. rewrite filter_cons_True by (rewrite Hg, G; cbn [fst]; by rewrite bytes_lt_irrefl). by eexists.
  - intros Hf. rewrite filter_cons_False; [by apply IH|]. rewrite Hg, G. cbn [fst]. apply map_find_elem in Hf. rewrite Forall_forall in HF.
    specialize (HF _ Hf). cbn [fst] in HF. by rewrite HF.
Qed.

(** What is put is what is got.  A [put] or [add] that succeeds returns the key it
    stored the record under; [get] and [getKey] of that key then answer with the stored
    value, which is the argument or, with a generated key, the argument with the key at
    the key path; all other records stay; and [add] only succeeds for a new key. *)
Lemma put_then_get e e0 d ow h v key derived d' :
  reached e e0 false d -> value_ok derived -> store_put_or_add serialize ow h v key d = Ret (Resolves derived, d') ->
  exists m pk w sr sr', lookup_name (h_store h) (stores d) = Some m /\ encode_key derived = inr pk /\
    (w = v \/ exists path n, s_key_path m = Some path /\ w = inject_key_path v path (number_of n)) /\
    store_get deserialize h (Q_value derived) d' = Resolves w /\ store_get_key h (Q_value derived) d' = Resolves derived /\
    table (store_table (h_store h)) (now d) = Some sr /\ table (store_table (h_store h)) (now d') = Some sr' /\
    (forall k, k <> pk -> map_find k sr' = map_find k sr) /\ (ow = false -> map_find pk sr = None).
Proof.
  intros [H _]%reached_inv Hv E. pose proof (put_step _ _ clone _ _ _ _ _ _ _ _ H E) as (_ & Htx & _). unfold store_put_or_add in E.
  destruct (is_index h) eqn:Hi; [done|]. destruct (ensure_active_tx d h) eqn:Ha; cbn [negb] in E; [|done].
  destruct (require_writable d h); cbn [negb] in E; [|done]. unfold store_at in E.
  destruct (lookup_name (h_store h) (stores d)) as [m|] eqn:Hm; [|done]. cbn [mbind outcome_bind] in E.
  destruct (derive_key m v key d) as [k| | |] eqn:Ek; [|done..]. cbn [mbind outcome_bind] in E.
  destruct k as [er|[[[pk derived'] w] d1]]; [done|]. destruct (derive_key_result _ _ _ _ _ _ _ _ Ek) as [Hpk Hw].
  destruct (consistent_store _ _ _ _ _ _ H Hm) as (Hn & Hm' & Hok & sr & Hsr).
  destruct (derive_key_step _ _ _ _ _ _ _ _ _ _ _ H Hm' Ek eq_refl) as [Ht (_ & _ & _ & C1)].
  assert (T1 : forall t, table t (now d1) = table t (now d)) by (intros t; unfold table; by rewrite Ht).
  destruct (serialize w) as [blob|] eqn:Es; [|done]. rewrite T1, Hsr in E.
  destruct (negb ow && bool_decide (pk ∈ sr.*1)) eqn:Hadd; [done|].
  assert (Hok1 : store_ok deserialize e (now d1) (s_name m) m) by (eapply store_ok_frame; [|exact Hok]; intros; apply T1).
  rewrite <- Hn in E, Hsr. rewrite <- T1 in Hsr.
  destruct (put_record_ok _ _ _ _ _ _ pk _ _ Hok1 Hsr (clone _ _ Es)) as (res & s' & Eu & _ & _ & _ & Hs'). rewrite Eu in E.
  destruct res; try done. injection E as <- <-. rewrite T1 in Hsr. rewrite Hn in Hs', Hsr.
  exists m, pk, w, sr, (map_set pk blob sr). split; [done|]. split; [done|]. split; [done|].
  assert (Hq : decode_query (Q_value derived') false = inr (only_key pk)).
  { unfold decode_query, key_range_only. destruct derived'; try done; by rewrite Hpk. }
  assert (Hsort : map_sorted sr). { destruct Hok as (_ & _ & sr0 & E0 & S0 & _). rewrite Hn in E0. by replace sr with sr0 by congruence. }
  assert (Hs2 : map_sorted (map_set pk blob sr)) by (by apply map_set_sorted).
  assert (Hf2 : map_find pk (map_set pk blob sr) = Some blob) by (by rewrite map_find_set, bool_decide_eq_true_2).
  assert (Hact : ensure_active_tx (set_now s' d1) h = true) by (unfold ensure_active_tx in *; by rewrite Htx).
  destruct h as [hs ht [hi|]]; [done|]. cbn [h_store] in *.
  split_and!.
  - unfold store_get, with_query, source_rows. rewrite Hact, Hq. cbn [negb h_index h_store now set_now]. rewrite Hs'.
    transitivity (Resolves (read_value deserialize blob)); [|unfold read_value; by rewrite (clone _ _ Es)].
    destruct (first_in_range (fun x : bytes * bytes => (x.1, x.1, x.2)) (fun x => x.1.1) pk blob _ (fun _ => eq_refl) Hs2 Hf2) as [l F].
    exact (f_equal (fun r => Resolves (match r with x :: _ => read_value deserialize x.2 | [] => Undefined end)) F).
  - unfold store_get_key, with_query, source_keys. rewrite Hact, Hq. cbn [negb h_index h_store now set_now]. rewrite Hs'. cbn [fmap option_fmap option_map].
    transitivity (Resolves (decode_key pk)); [|f_equal; by apply decode_encode_key].
    destruct (first_in_range (fun x : bytes * bytes => (x.1, x.1)) fst pk blob _ (fun _ => eq_refl) Hs2 Hf2) as [l F].
    exact (f_equal (fun r => Resolves (match r with x :: _ => decode_key x.2 | [] => Undefined end)) F).
  - done.
  - done.
  - intros k Hk. by rewrite map_find_set, bool_decide_eq_false_2.
  - intros ->. cbn [negb andb] in Hadd. apply bool_decide_eq_false in Hadd. apply eq_None_not_Some. intros [b Hb%map_find_elem].
    apply Hadd. exact (list_elem_of_fmap_2 fst _ _ Hb).
Qed.

Lemma filter_keys_range r (sr : list (bytes * bytes)) :
  filter (fun x : bytes * bytes => x.1 ∉ filter (fun k => in_range r k = true) sr.*1) sr = filter (fun x : bytes * bytes => in_range r x.1 = false) sr.
Proof.
  assert (G : forall l : list (bytes * bytes), (forall x, x ∈ l -> x ∈ sr) ->
    filter (fun x : bytes * bytes => x.1 ∉ filter (fun k => in_range r k = true) sr.*1) l = filter (fun x : bytes * bytes => in_range r x.1 = false) l).
  { induction l as [|x l IH]; intros Hl; [done|]. rewrite !filter_cons, IH by (intros y Hy; apply Hl; by right).
    assert (Hx : x.1 ∈ sr.*1) by (apply list_elem_of_fmap_2, Hl; left).
    destruct (decide (x.1 ∉ filter (fun k => in_range r k = true) sr.*1)) as [Hd|Hd], (decide (in_range r x.1 = false)) as [He|He]; try done.
    - destruct Hd. rewrite list_elem_of_filter. split; [|done]. by apply not_false_iff_true.
    - destruct Hd. intros [Hr _]%list_elem_of_filter. congruence. }
  by apply G.
Qed.

(** A deletion takes the records whose keys are in the range, and only those.  It
    never fails where it is allowed to begin; the records that stay are those out of
    range, in their order; no record in the range is counted afterwards, and no other
    store or index of another store changes. *)
Lemma delete_removes_range e e0 d h q r m :
  reached e e0 false d -> ensure_active_tx d h = true -> require_writable d h = true -> is_index h = false ->
  lookup_name (h_store h) (stores d) = Some m -> decode_query q false = inr r ->
  exists d' sr, store_delete h q d = Ret (Resolves tt, d') /\
    table (store_table (h_store h)) (now d) = Some sr /\
    table (store_table (h_store h)) (now d') = Some (filter (fun x => in_range r x.1 = false) sr) /\
    store_count h (Q_range r) d' = Resolves 0 /\
    (forall t, ~ touched (h_store h) m t -> table t (now d') = table t (now d)).
Proof.
  intros [H _]%reached_inv Ha Hw Hi Hm Hq. destruct (consistent_store _ _ _ _ _ _ H Hm) as (Hn & Hm' & Hok & sr & Hsr).
  set (pks := filter (fun k => in_range r k = true) sr.*1).
  destruct (delete_rows_ok _ _ _ _ pks _ Hok) as (s' & E' & _ & Hf & _ & Ht).
  rewrite Hn in Ht. specialize (Ht _ Hsr). unfold pks in Ht.
  assert (F : filter (fun x : bytes * bytes => x.1 ∉ filter (fun k => in_range r k = true) sr.*1) sr = filter (fun x : bytes * bytes => in_range r x.1 = false) sr)
    by apply filter_keys_range.
  assert (Ht' : table (store_table (h_store h)) s' = Some (filter (fun x : bytes * bytes => in_range r x.1 = false) sr)) by (etransitivity; [exact Ht|by f_equal]).
  exists (set_now s' d), sr. split; [|split; [done|]; split; [exact Ht'|]; split].
  - unfold store_delete, store_at. rewrite Hi, Ha, Hw, Hq, Hm. cbn [negb mbind outcome_bind]. rewrite Hsr. rewrite <- Hn. fold pks. by rewrite E'.
  - unfold store_count, with_query, source_keys. assert (Hact : ensure_active_tx (set_now s' d) h = true) by done. rewrite Hact.
    destruct h as [hs ht [hi|]]; [done|]. cbn [decode_query negb h_index h_store now set_now] in *. rewrite Ht'. cbn [fmap option_fmap option_map].
    assert (F0 : forall l : list (bytes * bytes), filter (fun x : bytes * bytes => in_range r x.1 = true)
      (map (fun x : bytes * bytes => (x.1, x.1)) (filter (fun x => in_range r x.1 = false) l)) = []).
    { induction l as [|x l IH]; [done|]. rewrite filter_cons. case_decide as Hx; [|exact IH].
      cbn [map]. rewrite filter_cons_False; [exact IH|]. cbn [fst]. congruence. }
    exact (f_equal (fun l => Resolves (zlen l)) (F0 sr)).
  - intros t Hnt. apply Hf. by rewrite Hn.
Qed.

(** ** Runs of calls *)

Fixpoint follow (cs : list call) (e e0 : bool) (d : database) : option (bool * bool * database) :=
  match cs with
  | [] => Some (e, e0, d)
  | c :: cs' =>
      match perform serialize deserialize c d with
      | Ret (ok, d') => if abandons c d then None else follow cs' (complete_after c ok e e0 d d').1 (complete_after c ok e e0 d d').2 d'
      | _ => None
      end
  end.
Definition upgrading_in_b (t : nat) (d : database) : bool :=
  live t d && match txs d !! t with Some x => bool_decide (mode x = versionchange) | None => false end.
Definition allowed_b (c : call) (d : database) : bool :=
  match c with
  | c_create_store name _ _ => forallb name_char name && match upgrading d with Some t => upgrading_in_b t d | None => false end
  | c_delete_store _ => match upgrading d with Some t => upgrading_in_b t d | None => false end
  | c_create_index h name _ _ _ => forallb name_char name && upgrading_in_b (h_tx h) d
  | c_delete_index h _ => upgrading_in_b (h_tx h) d
  | c_cursor_update c _ =>
      match table (store_table (h_store (c_handle c))) (now d) with Some r => bool_decide (last_pk c ∈ r.*1) | None => false end
  | _ => true
  end.
Fixpoint all_allowed (cs : list call) (d : database) : bool :=
  match cs with
  | [] => true
  | c :: cs' => allowed_b c d && match perform serialize deserialize c d with Ret (_, d') => all_allowed cs' d' | _ => false end
  end.

Lemma upgrading_in_b_sound t d : upgrading_in_b t d = true -> upgrading_in t d.
Proof.
  unfold upgrading_in_b. intros [Hl Hx]%andb_true_iff. split; [done|]. destruct (txs d !! t) as [x|]; [|done]. exists x. split; [done|].
  by apply bool_decide_eq_true in Hx.
Qed.

Lemma allowed_b_sound c d : allowed_b c d = true -> allowed c d.
Proof.
  destruct c as [n|t threw|name kp ai|name|h name kp u mu|h name|names m|t|t|ow h v key|h q|h|c v|c| |]; cbn [allowed_b allowed]; try done.
  - intros [Hg Hu]%andb_true_iff. split; [done|]. destruct (upgrading d) as [t|]; [|done]. exists t. split; [done|]. by apply upgrading_in_b_sound.
  - destruct (upgrading d) as [t|]; [|done]. intros Hu. exists t. split; [done|]. by apply upgrading_in_b_sound.
  - intros [Hg Hu]%andb_true_iff. split; [done|]. by apply upgrading_in_b_sound.
  - apply upgrading_in_b_sound.
  - unfold at_record. destruct (table _ _) as [r|]; [|done]. intros Hb. exists r. split; [done|]. by apply bool_decide_eq_true in Hb.
Qed.

Lemma reached_follow : forall cs e e0 d e' e0' d', reached e e0 false d -> all_allowed cs d = true -> follow cs e e0 d = Some (e', e0', d') -> reached e' e0' false d'.
Proof.
  induction cs as [|c cs IH]; intros e e0 d e' e0' d' Hr Ha E; cbn [follow all_allowed] in *; [by injection E as <- <- <-|].
  apply andb_true_iff in Ha as [Ha%allowed_b_sound Hcs]. destruct (perform _ _ c d) as [[ok d1]| | |] eqn:Ep; [|done..].
  destruct (abandons c d) eqn:Hn; [done|]. eapply IH; [|exact Hcs|exact E]. rewrite <- Hn. by eapply reached_call.
Qed.
End Runs.

(** * A database *)

(** A clone algorithm for objects with one property, a string. *)
Definition one_clone (v : value) : option bytes :=
  match v with Object [(k, String s)] => if bool_decide (k = str "e") then Some s else None | _ => None end.
Definition one_restore (b : bytes) : option value := Some (Object [(str "e", String b)]).

Lemma one_clone_restore v b : one_clone v = Some b -> one_restore b = Some v.
Proof.
  destruct v as [| |u|u|t|t|[|[k [| |u|u|t|t|p|z]] [|]]|z]; try discriminate. cbn [one_clone]. case_bool_decide as Hk; [|discriminate].
  intros [= <-]. unfold one_restore. by rewrite Hk.
Qed.

Definition person (name : string) : value := Object [(str "e", String (str name))].
Definition people : handle := MkHandle (str "s") 1 None.
Definition setup (unique_names : bool) : list call :=
  [c_begin_upgrade 1; c_create_store (str "s") None false; c_create_index (MkHandle (str "s") 0 None) (str "i") (str "e") unique_names false;
   c_end_upgrade 0 false; c_transaction [str "s"] readwrite].
Definition two_people : list call :=
  [c_put true people (person "x") (String (str "k")); c_put true people (person "y") (String (str "m"));
   c_put true people (person "w") (String (str "k"))].

(** The database after calls, from a new one. *)
Definition after (cs : list call) : database :=
  match follow one_restore one_clone cs true true (open_database empty_sql) with Some (_, _, d) => d | None => open_database empty_sql end.

Definition example_db : database := Eval vm_compute in after (setup true ++ two_people).

Lemma example_reached : reached one_restore one_clone true true false example_db.
Proof.
  apply (reached_follow one_restore one_clone (setup true ++ two_people) true true (open_database empty_sql)); [constructor|vm_compute; reflexivity|vm_compute; reflexivity].
Qed.

Lemma indexes_follow_records_witness : exists sr ir,
  table (store_table (str "s")) (now example_db) = Some sr /\ table (index_table (str "s") (str "i")) (now example_db) = Some ir /\
  (exists pk ik, (ik, pk) ∈ ir /\ exists blob v, map_find pk sr = Some blob /\ one_restore blob = Some v).
Proof.
  destruct (indexes_follow_records one_restore one_clone one_clone_restore true true example_db (str "s")
    (MkStoreMeta (str "s") None false 0 [(str "i", MkIndexMeta (str "i") (str "e") true false)]) (str "i") (MkIndexMeta (str "i") (str "e") true false)
    example_reached eq_refl eq_refl) as (sr & ir & Hs & Hi & Hsound & Hcomplete).
  exists sr, ir. split; [exact Hs|]. split; [exact Hi|]. injection Hs as <-. injection Hi as <-.
  eexists _, _. split; [left|]. edestruct Hsound as (blob & v & Hf & Hd & _); [left|]. exists blob, v. split; [exact Hf|exact Hd].
Defined.

Definition base_db : database := Eval vm_compute in after (removelast (setup false)).
Lemma base_reached : reached one_restore one_clone true true false base_db.
Proof.
  apply (reached_follow one_restore one_clone (removelast (setup false)) true true (open_database empty_sql)); [constructor|vm_compute; reflexivity|vm_compute; reflexivity].
Qed.

Definition opened_db : database := Eval vm_compute in after (setup false).
Lemma opened_reached : reached one_restore one_clone true true false opened_db.
Proof.
  apply (reached_follow one_restore one_clone (setup false) true true (open_database empty_sql)); [constructor|vm_compute; reflexivity|vm_compute; reflexivity].
Qed.

Definition one_put : call := c_put true people (person "x") (String (str "k")).

Lemma rollback_restores_witness : exists d2 t' e1', rtc (inner_step one_restore one_clone) opened_db d2 /\
  table (store_table (str "s")) (now d2) <> table (store_table (str "s")) (now base_db) /\
  now (tx_abort_internal 1 d2) = now base_db /\
  database_transaction [str "s"] readonly (tx_abort_internal 1 d2) = (Resolves t', e1') /\
  store_count (MkHandle (str "s") t' None) (Q_range everything) e1' = Resolves 0.
Proof.
  destruct (perform one_clone one_restore one_put opened_db) as [[ok d2]| | |] eqn:E; [|vm_compute in E; discriminate E..].
  assert (S : rtc (inner_step one_restore one_clone) opened_db d2).
  { apply rtc_once. exists one_put, ok. split; [reflexivity|]. split; [exact I|exact E]. }
  destruct (rollback_restores one_restore one_clone one_clone_restore true true base_db (c_transaction [str "s"] readwrite) opened_db d2)
    as (Hn & _ & H);
      [exact base_reached|left; eexists _, _; reflexivity|vm_compute; reflexivity|exact S|].
  destruct H as (_ & _ & H); [eexists _, _; reflexivity|].
  destruct (database_transaction [str "s"] readonly base_db) as [rt e1] eqn:Et.
  assert (Hrt : rt = Resolves 1%nat) by (vm_compute in Et; injection Et as <- _; reflexivity). rewrite Hrt in Et.
  destruct (H ltac:(vm_compute in E; injection E as <- <-; reflexivity) [str "s"] readonly 1%nat e1 Et) as (t' & e1' & Et' & Hreads).
  exists d2, t', e1'. split; [exact S|]. split; [vm_compute in E; injection E as <- <-; vm_compute; discriminate|].
  split; [exact Hn|]. split; [exact Et'|].
  destruct (Hreads (str "s") None (Q_range everything) None false false) as (_ & _ & _ & _ & Hcount & _). rewrite <- Hcount.
  vm_compute in Et. injection Et as <-. vm_compute. reflexivity.
Defined.

Lemma put_then_get_witness : exists d', store_put_or_add one_clone true people (person "x") (String (str "k")) opened_db = Ret (Resolves (String (str "k")), d') /\
  exists w, store_get one_restore people (Q_value (String (str "k"))) d' = Resolves w.
Proof.
  destruct (store_put_or_add one_clone true people (person "x") (String (str "k")) opened_db) as [[r d']| | |] eqn:E; [|vm_compute in E; discriminate E..].
  assert (Hr : r = Resolves (String (str "k"))) by (vm_compute in E; injection E as <- <-; reflexivity). rewrite Hr in E |- *.
  exists d'. split; [reflexivity|].
  unshelve epose proof (put_then_get one_restore one_clone one_clone_restore true true opened_db true people (person "x") (String (str "k")) (String (str "k")) d'
    opened_reached _ E) as (m & pk & w & sr & sr' & _ & _ & _ & Hg & _).
  { apply str_bytes. }
  exists w. exact Hg.
Defined.

Lemma delete_removes_range_witness : exists d', store_delete people (Q_range everything) example_db = Ret (Resolves tt, d') /\
  table (store_table (str "s")) (now d') = Some [].
Proof.
  destruct (delete_removes_range one_restore one_clone one_clone_restore true true example_db people (Q_range everything) everything
    (MkStoreMeta (str "s") None false 0 [(str "i", MkIndexMeta (str "i") (str "e") true false)]) example_reached)
    as (d' & sr & E & Hs & Hs' & _); [reflexivity..|].
  exists d'. split; [exact E|]. injection Hs as <-. etransitivity; [exact Hs'|]. vm_compute. reflexivity.
Defined.

(** * What modelling showed *)

(** [get] of a key that has no record answers with the record after it. *)
Lemma get_missing_answers_next :
  store_get one_restore people (Q_value (String (str "a"))) example_db = Resolves (person "w") /\
  store_get_key people (Q_value (String (str "l"))) example_db = Resolves (String (str "m")).
Proof. vm_compute. split; reflexivity. Qed.

(** [getAllKeys] and [openKeyCursor] of an index always throw. *)
Lemma index_keys_always_throw h q limit desc d : is_index h = true ->
  (exists error, store_get_all_keys h q limit d = Throws error) /\ (exists error, open_cursor h q desc true d = Throws error).
Proof.
  intros Hi. unfold store_get_all_keys, open_cursor, with_query. rewrite Hi. destruct (ensure_active_tx d h); cbn [negb]; [|split; by eexists].
  destruct (decode_query q true); split; by eexists.
Qed.

(** A unique index takes the same key for two records. *)
Lemma unique_not_enforced :
  let d := after (setup true ++ [c_put false people (person "x") (String (str "k")); c_put false people (person "x") (String (str "m"))]) in
  length <$> table (index_table (str "s") (str "i")) (now d) = Some 2%nat /\
  store_get_all one_restore people (Q_range everything) None d = Resolves [person "x"; person "x"].
Proof. vm_compute. split; reflexivity. Qed.

Definition flag_clone (v : value) : option bytes :=
  match v with Object [(k, Primitive n)] => if bool_decide (k = str "e") then Some [n] else None | _ => None end.
Definition flag_restore (b : bytes) : option value := match b with [n] => Some (Object [(str "e", Primitive n)]) | _ => None end.

(** A [put] that throws, because its value's index key is not a key, has stored the
    record. *)
Lemma failed_put_is_stored :
  let v := Object [(str "e", Primitive 1)] in
  exists error d', store_put_or_add flag_clone true people v (String (str "k")) opened_db = Ret (Throws error, d') /\
    store_get flag_restore people (Q_value (String (str "k"))) d' = Resolves v.
Proof. eexists _, _. split; vm_compute; reflexivity. Qed.

(** A generated key replaces the record that was put under the same number. *)
Lemma generated_key_replaces :
  let h := MkHandle (str "g") 1 None in
  let d := after [c_begin_upgrade 1; c_create_store (str "g") None true; c_end_upgrade 0 false; c_transaction [str "g"] readwrite;
                  c_put false h (person "x") (number_of 1); c_put true h (person "y") Undefined] in
  store_get_all one_restore h (Q_range everything) None d = Resolves [person "y"].
Proof. vm_compute. reflexivity. Qed.

(** After an upgrade was rolled back the database handle has its version and stores, the
    tables have not. *)
Lemma aborted_upgrade_stays_in_memory :
  match follow one_restore one_clone [c_begin_upgrade 5; c_create_store (str "s") None false] true true (open_database empty_sql) with
  | Some (_, _, d) =>
      let d' := snd (end_upgrade 0 true d) in
      (version d', (fst <$> stores d')) = (5, [str "s"]) /\ now d' = empty_sql
  | None => False
  end.
Proof. vm_compute. split; reflexivity. Qed.

(** The counter of generated keys is not taken back by a rollback. *)
Lemma aborted_key_is_skipped :
  let h t := MkHandle (str "g") t None in
  let cs := [c_begin_upgrade 1; c_create_store (str "g") None true; c_end_upgrade 0 false; c_transaction [str "g"] readwrite;
             c_put true (h 1%nat) (person "x") Undefined; c_abort 1; c_transaction [str "g"] readwrite;
             c_put true (h 2%nat) (person "y") Undefined] in
  store_get_all_keys (h 2%nat) (Q_range everything) None (after cs) = Resolves [number_of 2].
Proof. vm_compute. reflexivity. Qed.

(** The stores are not in the scope of a version change: [objectStore] always throws. *)
Lemma version_change_has_no_stores n d t d' name : begin_upgrade n d = (Resolves t, d') -> exists error, tx_object_store t name d' = Throws error.
Proof.
  unfold begin_upgrade, create_transaction. destruct (saved d); [done|]. intros [= <- <-]. unfold tx_object_store.
  cbn [txs set_upgrading set_version set_now set_saved set_txs]. rewrite list_lookup_middle by done. cbn [store_names].
  rewrite bool_decide_eq_false_2 by apply not_elem_of_nil. by eexists.
Qed.

(** A cursor that updates a record deleted meanwhile adds rows to the indexes for a
    record that is not there. *)
Lemma cursor_update_leaves_stray_rows :
  let c := MkCursor people (Some []) false (snd (default ([], []) (head (default [] (table (index_table (str "s") (str "i")) (now example_db)))))) [] in
  let d := after (setup true ++ two_people ++ [c_delete people (Q_range everything); c_cursor_update c (person "z")]) in
  table (store_table (str "s")) (now d) = Some [] /\ length <$> table (index_table (str "s") (str "i")) (now d) = Some 1%nat.
Proof. vm_compute. split; reflexivity. Qed.

(** A handle of a store that was deleted ends the program with an exception that nobody
    catches. *)
Lemma deleted_store_throws ow h v key d serialize : is_index h = false -> ensure_active_tx d h = true -> require_writable d h = true ->
  lookup_name (h_store h) (stores d) = None -> store_put_or_add serialize ow h v key d = Throw "out_of_range".
Proof. intros Hi Ha Hw Hm. unfold store_put_or_add, store_at. by rewrite Hi, Ha, Hw, Hm. Qed.

(** Two indexes of two stores may share a table. *)
Lemma index_tables_collide : index_table (str "a") (str "b_c") = index_table (str "a_b") (str "c").
Proof. reflexivity. Qed.

(** [createIndex] does not ask whether its version change is still open. *)
Lemma index_created_after_commit :
  match store_create_index one_restore (MkHandle (str "s") 0 None) (str "j") (str "e") false false opened_db with
  | Ret (Resolves _, d) => live 0 d = false
  | _ => False
  end.
Proof. vm_compute. reflexivity. Qed.

(** An upgrade that its listener aborted is reported as a success. *)
Lemma aborted_upgrade_succeeds n d t d1 : begin_upgrade n d = (Resolves t, d1) ->
  exists d2, end_upgrade t false (tx_abort_internal t d1) = (Resolves tt, d2) /\ now d2 = now d /\ version d2 = n.
Proof.
  unfold begin_upgrade, create_transaction. destruct (saved d); [done|]. intros [= <- <-].
  set (d1 := set_upgrading _ _). set (x := MkTx versionchange true false false []).
  assert (Hx : txs d1 !! length (txs d) = Some x) by (by apply list_lookup_middle).
  assert (Ha : tx_abort_internal (length (txs d)) d1 = update_tx (length (txs d)) (finish x false) (set_saved None (set_now (now d) d1))).
  { unfold tx_abort_internal. by rewrite Hx. }
  assert (Hl : txs (tx_abort_internal (length (txs d)) d1) !! length (txs d) = Some (finish x false)).
  { rewrite Ha. cbn [txs update_tx set_txs set_saved set_now]. apply list_lookup_insert_eq. by eapply lookup_lt_Some. }
  unfold end_upgrade, tx_commit_internal. rewrite Hl. cbn [finish active finished negb orb x]. cbn [txs set_upgrading]. rewrite Hl.
  cbn [errored finish orb x]. eexists. split; [done|]. rewrite Ha. done.
Qed.
