(* ===== verification/Url.v ===== *)
(** URLs and their query parameters ([src/js/bind_url.cpp]): parsing with a base,
    serialization, the accessors of [URL], the pairs of [URLSearchParams], and the two
    together while a script uses both.

    Strings are the bytes of the [std::string]s the bindings see.  [char] is tested in
    the "C" locale.  A [URL] object and the [URLSearchParams] it hands out hold each
    other by a strong handle in one direction and a raw pointer in the other: collecting
    the first is a step. *)

From S2P Require Import Prelude Strings.

(** * URLs *)

Record url_data : Type := MkUrl {
  protocol : bytes; username : bytes; password : bytes; hostname : bytes; port : bytes; pathname : bytes;
  search : bytes; hash : bytes; is_special : bool; has_authority : bool }.

Definition no_url : url_data := MkUrl [] [] [] [] [] [] [] [] false false.

Definition with_protocol (p : bytes) (u : url_data) : url_data :=
  MkUrl p (username u) (password u) (hostname u) (port u) (pathname u) (search u) (hash u) (is_special u) (has_authority u).
Definition with_userinfo (n pw : bytes) (u : url_data) : url_data :=
  MkUrl (protocol u) n pw (hostname u) (port u) (pathname u) (search u) (hash u) (is_special u) (has_authority u).
Definition with_host (h p : bytes) (u : url_data) : url_data :=
  MkUrl (protocol u) (username u) (password u) h p (pathname u) (search u) (hash u) (is_special u) (has_authority u).
Definition with_pathname (p : bytes) (u : url_data) : url_data :=
  MkUrl (protocol u) (username u) (password u) (hostname u) (port u) p (search u) (hash u) (is_special u) (has_authority u).
Definition with_search (s : bytes) (u : url_data) : url_data :=
  MkUrl (protocol u) (username u) (password u) (hostname u) (port u) (pathname u) s (hash u) (is_special u) (has_authority u).
Definition with_hash (h : bytes) (u : url_data) : url_data :=
  MkUrl (protocol u) (username u) (password u) (hostname u) (port u) (pathname u) (search u) h (is_special u) (has_authority u).
Definition with_special (b : bool) (u : url_data) : url_data :=
  MkUrl (protocol u) (username u) (password u) (hostname u) (port u) (pathname u) (search u) (hash u) b (has_authority u).
Definition with_authority (u : url_data) : url_data :=
  MkUrl (protocol u) (username u) (password u) (hostname u) (port u) (pathname u) (search u) (hash u) (is_special u) true.

Definition is_special_scheme (s : bytes) : bool :=
  bool_decide (s ∈ [str "http:"; str "https:"; str "ws:"; str "wss:"; str "ftp:"; str "file:"]).

Definition default_port_for (s : bytes) : Z :=
  if bool_decide (s = str "http:" \/ s = str "ws:") then 80
  else if bool_decide (s = str "https:" \/ s = str "wss:") then 443
  else if bool_decide (s = str "ftp:") then 21 else -1.

(** * Paths *)

Definition path_segment (segments : list bytes) (segment : bytes) : list bytes :=
  if bool_decide (segment = str "..") then removelast segments
  else if bool_decide (segment = [] \/ segment = str ".") then segments
  else segments ++ [segment].

Definition ends_in (c : Z) (s : bytes) : bool := match last s with Some x => x =? c | None => false end.

Definition normalize_pathname (path : bytes) (absolute : bool) : bytes :=
  let rest := match path with c :: p => if absolute && (c =? chr "/") then p else path | [] => [] end in
  let trailing_slash := ends_in (chr "/") rest in
  let segments := foldl path_segment [] (pieces (chr "/") rest) in
  let out := (if absolute then str "/" else []) ++ join_with (chr "/") segments in
  let out := if trailing_slash && (bool_decide (out = []) || negb (ends_in (chr "/") out)) then out ++ str "/" else out in
  if bool_decide (out = []) && absolute then str "/" else out.

(** * Parsing *)

Definition is_alpha (c : Z) : bool := (chr "a" <=? c) && (c <=? chr "z") || (chr "A" <=? c) && (c <=? chr "Z").
Definition is_alnum (c : Z) : bool := is_alpha c || is_digit c.

(** The scheme, in lower case and with its colon, and what follows it. *)
Definition split_scheme (s : bytes) : option (bytes * bytes) :=
  match s with
  | [] => None
  | c0 :: s' =>
      if any_of (str "/?#") c0 then None
      else
        match from (any_of (str "/?#:")) s' with
        | c :: rest =>
            let name := upto (any_of (str "/?#:")) s' in
            if (c =? chr ":") && is_alpha c0 && forallb (fun c => is_alnum c || any_of (str "+-.") c) name
            then Some (ascii_lower (c0 :: name ++ str ":"), rest)
            else None
        | [] => None
        end
  end.

(** The loop over the digits of a port, in [int]s. *)
Fixpoint port_value (s : bytes) (p : Z) : outcome Z :=
  match s with
  | [] => Ret p
  | c :: s' =>
      if negb (is_digit c) then Ret (-2)
      else
        let p := p * 10 + (c - chr "0") in
        if 2 ^ 31 <=? p then Ub else port_value s' p
  end.

Definition drop_default_port (u : url_data) : outcome url_data :=
  match port u with
  | [] => Ret u
  | s => p ← port_value s 0; Ret (if p =? default_port_for (protocol u) then with_host (hostname u) [] u else u)
  end.

Definition parse_userinfo (authority : bytes) (u : url_data) : bytes * url_data :=
  match rfind_char (chr "@") authority with
  | None => (authority, u)
  | Some at_ =>
      let ui := substr authority 0 at_ in
      let rest := substr_from authority (at_ + 1) in
      match from (is_char (chr ":")) ui with
      | [] => (rest, with_userinfo ui (password u) u)
      | _ :: pw => (rest, with_userinfo (upto (is_char (chr ":")) ui) pw u)
      end
  end.

Definition parse_host (authority : bytes) (u : url_data) : option url_data :=
  match authority with
  | c0 :: _ =>
      if c0 =? chr "[" then
        match from (is_char (chr "]")) authority with
        | [] => None
        | _ :: after =>
            let host := upto (is_char (chr "]")) authority ++ str "]" in
            Some (match after with c :: p => with_host host (if c =? chr ":" then p else port u) u | [] => with_host host (port u) u end)
        end
      else
        Some (match from (is_char (chr ":")) authority with
              | [] => with_host (ascii_lower authority) (port u) u
              | _ :: p => with_host (ascii_lower (upto (is_char (chr ":")) authority)) p u
              end)
  | [] => Some (with_host [] (port u) u)
  end.

Definition parse_tail (rest : bytes) (u : url_data) : url_data :=
  let before_hash := upto (is_char (chr "#")) rest in
  let u := match from (is_char (chr "#")) rest with [] => u | h => with_hash h u end in
  let path := upto (is_char (chr "?")) before_hash in
  let u := match from (is_char (chr "?")) before_hash with [] => u | q => with_search q u end in
  let path := if is_special u && negb (bool_decide (head path = Some (chr "/"))) then chr "/" :: path else path in
  with_pathname path u.

(** After a scheme: whether the URL is valid, and what was parsed. *)
Definition parse_with_scheme (rest : bytes) (u : url_data) : outcome (bool * url_data) :=
  let u := with_special (is_special_scheme (protocol u)) u in
  if starts_with (str "//") rest then
    let u := with_authority u in
    let rest := drop 2 rest in
    let '(authority, u) := parse_userinfo (upto (any_of (str "/?#")) rest) u in
    match parse_host authority u with
    | None => Ret (false, u)
    | Some u => u ← drop_default_port u; Ret (true, parse_tail (from (any_of (str "/?#")) rest) u)
    end
  else if is_special u then Ret (false, u)
  else Ret (true, parse_tail rest u).

(** [parse_url(input, nullptr, out)] *)
Definition parse_absolute (input : bytes) (out : url_data) : outcome (bool * url_data) :=
  match split_scheme (trim input) with
  | None => Ret (false, out)
  | Some (p, rest) => parse_with_scheme rest (with_protocol p out)
  end.

Definition resolve_relative (rest : bytes) (base : url_data) : outcome (bool * url_data) :=
  let out := with_hash [] (with_search [] base) in
  if starts_with (str "//") rest then parse_absolute (protocol out ++ rest) out
  else
    let before_hash := upto (is_char (chr "#")) rest in
    let out := match from (is_char (chr "#")) rest with [] => out | h => with_hash h out end in
    let path_part := upto (is_char (chr "?")) before_hash in
    let out := match from (is_char (chr "?")) before_hash with [] => out | q => with_search q out end in
    Ret (true,
      match path_part with
      | [] => out
      | c :: _ =>
          if c =? chr "/" then with_pathname (normalize_pathname path_part true) out
          else
            let dir := match rfind_char (chr "/") (pathname out) with
                       | None => str "/"
                       | Some slash => substr (pathname out) 0 (slash + 1)
                       end in
            let dir := match dir with [] => str "/" | d => d end in
            with_pathname (normalize_pathname (dir ++ path_part) true) out
      end).

Definition parse_url (input : bytes) (base : option url_data) (out : url_data) : outcome (bool * url_data) :=
  match base, split_scheme (trim input) with
  | Some b, None => resolve_relative (trim input) b
  | _, _ => parse_absolute input out
  end.

(** A separator before what is there. *)
Definition prefixed (c : Z) (s : bytes) : bytes := match s with [] => [] | _ => c :: s end.

Definition serialize_url (u : url_data) : bytes :=
  protocol u ++
  (if has_authority u || is_special u then
     str "//" ++
     (if negb (bool_decide (username u = []) && bool_decide (password u = [])) then
        username u ++ prefixed (chr ":") (password u) ++ str "@"
      else []) ++
     hostname u ++ prefixed (chr ":") (port u)
   else []) ++
  pathname u ++ search u ++ hash u.

Definition serialize_origin (u : url_data) : bytes :=
  if bool_decide (protocol u ∈ [str "http:"; str "https:"; str "ws:"; str "wss:"; str "ftp:"])
  then protocol u ++ str "//" ++ hostname u ++ prefixed (chr ":") (port u)
  else str "null".

(** [new URL(url, base)]; a string that cannot be parsed throws. *)
Definition url_ctor (input : bytes) (base : option bytes) : outcome (option url_data) :=
  match base with
  | None => '(ok, u) ← parse_url input None no_url; Ret (if (ok : bool) then Some u else None)
  | Some b =>
      '(ok, bu) ← parse_url b None no_url;
      if negb ok then Ret None
      else '(ok, u) ← parse_url input (Some bu) no_url; Ret (if (ok : bool) then Some u else None)
  end.

(** ** Accessors *)

Definition url_get_host (u : url_data) : bytes := hostname u ++ prefixed (chr ":") (port u).

Definition url_set_hash (s : bytes) (u : url_data) : url_data :=
  with_hash (match s with [] => [] | c :: _ => if c =? chr "#" then s else chr "#" :: s end) u.
Definition url_set_pathname (s : bytes) (u : url_data) : url_data :=
  with_pathname (if is_special u && negb (bool_decide (head s = Some (chr "/"))) then chr "/" :: s else s) u.
Definition url_set_hostname (s : bytes) (u : url_data) : url_data := with_host (ascii_lower s) (port u) u.
Definition url_set_port (s : bytes) (u : url_data) : url_data := with_host (hostname u) s u.
Definition url_set_protocol (s : bytes) (u : url_data) : url_data :=
  let s := ascii_lower s in
  let s := if negb (bool_decide (s = [])) && negb (ends_in (chr ":") s) then s ++ str ":" else s in
  with_special (is_special_scheme s) (with_protocol s u).

(** * Query parameters *)

Notation pairs := (list (bytes * bytes)).

Definition from_hex (c : Z) : Z :=
  if (chr "0" <=? c) && (c <=? chr "9") then c - chr "0"
  else if (chr "a" <=? c) && (c <=? chr "f") then c - chr "a" + 10
  else if (chr "A" <=? c) && (c <=? chr "F") then c - chr "A" + 10
  else -1.

Fixpoint percent_decode_form (s : bytes) : bytes :=
  match s with
  | [] => []
  | c :: s' =>
      if c =? chr "+" then chr " " :: percent_decode_form s'
      else if c =? chr "%" then
        match s' with
        | h :: l :: s'' =>
            if (0 <=? from_hex h) && (0 <=? from_hex l)
            then Z.lor (Z.shiftl (from_hex h) 4) (from_hex l) :: percent_decode_form s''
            else c :: percent_decode_form s'
        | _ => c :: percent_decode_form s'
        end
      else c :: percent_decode_form s'
  end.

Definition hex_digit (n : Z) : Z := default 0 (str "0123456789ABCDEF" !! Z.to_nat n).

Definition encode_form_byte (c : Z) : bytes :=
  if c =? chr " " then str "+"
  else if is_alnum c || any_of (str "*-._") c then [c]
  else [chr "%"; hex_digit (Z.land (Z.shiftr c 4) 15); hex_digit (Z.land c 15)].
Definition percent_encode_form (s : bytes) : bytes := concat (map encode_form_byte s).

Definition usp_segment (seg : bytes) : pairs :=
  match seg with
  | [] => []
  | _ => [(percent_decode_form (upto (is_char (chr "=")) seg), percent_decode_form (drop 1 (from (is_char (chr "=")) seg)))]
  end.
Definition usp_parse (q : bytes) : pairs :=
  match q with [] => [] | _ => concat (map usp_segment (pieces (chr "&") q)) end.

Definition usp_pair (p : bytes * bytes) : bytes := percent_encode_form p.1 ++ chr "=" :: percent_encode_form p.2.
Definition usp_serialize (d : pairs) : bytes := join_with (chr "&") (map usp_pair d).

Definition has_key (k : bytes) (d : pairs) : bool := existsb (fun p => bool_decide (p.1 = k)) d.

Definition usp_get (k : bytes) (d : pairs) : option bytes := lookup_name k d.
Definition usp_get_all (k : bytes) (d : pairs) : list bytes := map snd (filter (fun p => p.1 = k) d).
Definition usp_has (k : bytes) (d : pairs) : bool := has_key k d.

(** The loop over the pairs: the first one with the key gets the value, others go. *)
Fixpoint set_loop (k v : bytes) (replaced : bool) (d : pairs) : bool * pairs :=
  match d with
  | [] => (replaced, [])
  | p :: d' =>
      if bool_decide (p.1 = k) then
        if replaced then set_loop k v true d'
        else let '(r, d'') := set_loop k v true d' in (r, (p.1, v) :: d'')
      else let '(r, d'') := set_loop k v replaced d' in (r, p :: d'')
  end.
Definition usp_set (k v : bytes) (d : pairs) : pairs :=
  let '(replaced, d) := set_loop k v false d in if (replaced : bool) then d else d ++ [(k, v)].
Definition usp_append (k v : bytes) (d : pairs) : pairs := d ++ [(k, v)].
Definition usp_delete (k : bytes) (d : pairs) : pairs := filter (fun p => p.1 <> k) d.
Definition usp_sort (d : pairs) : pairs := stable_sort (fun a b => bytes_lt a.1 b.1) d.

(** The argument of [new URLSearchParams]: a string, or pairs (of an array, an object or
    other parameters). *)
Inductive usp_init : Type := I_none | I_string (s : bytes) | I_pairs (d : pairs).
Definition strip_question (q : bytes) : bytes := match q with c :: q' => if c =? chr "?" then q' else q | [] => [] end.
Definition usp_ctor (i : usp_init) : pairs :=
  match i with I_none => [] | I_string s => usp_parse (strip_question s) | I_pairs d => d end.

(** An iterator over a copy of the pairs. *)
Definition usp_iter : Type := pairs * nat.
Definition make_usp_iter (d : pairs) : usp_iter := (d, 0%nat).
Definition usp_iter_next (i : usp_iter) : option (bytes * bytes) * usp_iter :=
  match i.1 !! i.2 with Some p => (Some p, (i.1, S i.2)) | None => (None, i) end.

(** * A URL and its parameters *)

(** [url]: [None] once collected.  [params]: handed out by [searchParams]. *)
Record page : Type := MkPage { url : option url_data; params : option pairs }.

Inductive op : Type :=
| set_href (s : bytes) | set_search (s : bytes) | set_hash (s : bytes) | set_pathname (s : bytes) | set_hostname (s : bytes)
| set_port (s : bytes) | set_protocol (s : bytes) | get_search_params
| params_set (k v : bytes) | params_append (k v : bytes) | params_delete (k : bytes) | params_sort
| collect_url.

Definition sync_usp_from_url (u : url_data) (params : option pairs) : option pairs :=
  (fun _ => usp_parse (strip_question (search u))) <$> params.
Definition sync_url_from_usp (d : pairs) (u : url_data) : url_data :=
  with_search (prefixed (chr "?") (usp_serialize d)) u.

Definition url_set_search (s : bytes) (u : url_data) : url_data :=
  with_search (match s with [] => [] | c :: _ => if c =? chr "?" then s else chr "?" :: s end) u.

(** A setter of the URL; a script without the URL calls none. *)
Definition on_url (p : page) (f : url_data -> url_data) : page := MkPage (f <$> url p) (params p).
(** A method of the parameters, which then writes to the URL they belong to. *)
Definition on_params (p : page) (f : pairs -> pairs) : outcome page :=
  match params p with
  | None => Ret p
  | Some d => match url p with None => Ub | Some u => Ret (MkPage (Some (sync_url_from_usp (f d) u)) (Some (f d))) end
  end.

Definition apply_op (o : op) (p : page) : outcome page :=
  match o with
  | set_href s =>
      match url p with
      | None => Ret p
      | Some _ =>
          '(ok, next) ← parse_url s None no_url;
          Ret (if (ok : bool) then MkPage (Some next) (sync_usp_from_url next (params p)) else p)
      end
  | set_search s =>
      match url p with
      | None => Ret p
      | Some u => let u := url_set_search s u in Ret (MkPage (Some u) (sync_usp_from_url u (params p)))
      end
  | set_hash s => Ret (on_url p (url_set_hash s))
  | set_pathname s => Ret (on_url p (url_set_pathname s))
  | set_hostname s => Ret (on_url p (url_set_hostname s))
  | set_port s => Ret (on_url p (url_set_port s))
  | set_protocol s => Ret (on_url p (url_set_protocol s))
  | get_search_params =>
      match url p, params p with
      | Some u, None => Ret (MkPage (url p) (Some (usp_parse (strip_question (search u)))))
      | _, _ => Ret p
      end
  | params_set k v => on_params p (usp_set k v)
  | params_append k v => on_params p (usp_append k v)
  | params_delete k => on_params p (usp_delete k)
  | params_sort => on_params p usp_sort
  | collect_url => Ret (MkPage None (params p))
  end.

Fixpoint apply_ops (l : list op) (p : page) : outcome page :=
  match l with [] => Ret p | o :: l' => p ← apply_op o p; apply_ops l' p end.

(** ** [forEach] *)

(** Whether a method invalidates the iterators of the vector of pairs: it inserts or
    erases. *)
Definition moves_pairs (o : op) (d : pairs) : bool :=
  match o with
  | params_append _ _ => true
  | params_set k _ => negb (has_key k d) || (1 <? zlen (usp_get_all k d))
  | params_delete k => has_key k d
  | _ => false
  end.

(** What a call of the callback does to the parameters. *)
Definition change_pairs (o : op) (d : pairs) : pairs :=
  match o with
  | params_set k v => usp_set k v d
  | params_append k v => usp_append k v d
  | params_delete k => usp_delete k d
  | params_sort => usp_sort d
  | _ => d
  end.
Fixpoint run_callback (l : list op) (d : pairs) : outcome pairs :=
  match l with [] => Ret d | o :: l' => if moves_pairs o d then Ub else run_callback l' (change_pairs o d) end.

(** The pairs passed to the callback; [script i] is what its [i]-th call does.  The loop
    goes on with the vector's iterators. *)
Fixpoint for_each_loop (script : nat -> list op) (left i : nat) (d : pairs) : outcome pairs :=
  match left with
  | O => Ret []
  | S left' =>
      match d !! i with
      | None => Ub
      | Some p => d ← run_callback (script i) d; seen ← for_each_loop script left' (S i) d; Ret (p :: seen)
      end
  end.
Definition usp_for_each (script : nat -> list op) (d : pairs) : outcome pairs := for_each_loop script (length d) 0 d.
