(* ===== verification/UrlFacts.v ===== *)
(** URLs: what parsing yields, parsing what was serialized, dot segments; query
    parameters as a map from keys to lists of values, and their agreement with the URL
    they belong to. *)

From S2P Require Import Prelude Strings Url.

(** * Paths *)

(** A segment that normalization leaves alone. *)
Definition plain_segment (s : bytes) : Prop := s <> [] /\ s <> str "." /\ s <> str ".." /\ chr "/" ∉ s.

Lemma path_segment_plain l s : Forall plain_segment l -> chr "/" ∉ s -> Forall plain_segment (path_segment l s).
Proof.
  intros Hl Hs. unfold path_segment. case_bool_decide as H1.
  - destruct l as [|x l] using rev_ind; [done|]. rewrite removelast_last. by apply Forall_app in Hl as [? _].
  - case_bool_decide as H2; [done|]. apply Forall_app. split; [done|]. constructor; [|constructor]. repeat split; [tauto|tauto|tauto|done].
Qed.

Lemma path_segments_plain p : forall l, Forall plain_segment l -> Forall (fun s => chr "/" ∉ s) p -> Forall plain_segment (foldl path_segment l p).
Proof.
  induction p as [|s p IH]; intros l Hl Hp; [done|]. apply Forall_cons in Hp as [Hs Hp]. cbn [foldl]. apply IH; [|done]. by apply path_segment_plain.
Qed.

Lemma path_segments_id p : forall l, Forall plain_segment p -> foldl path_segment l p = l ++ p.
Proof.
  induction p as [|s p IH]; intros l Hp; [by rewrite app_nil_r|]. apply Forall_cons in Hp as [(H1 & H2 & H3 & _) Hp]. cbn [foldl].
  rewrite IH by done. unfold path_segment. rewrite bool_decide_eq_false_2, bool_decide_eq_false_2 by tauto. by rewrite <- app_assoc.
Qed.

Lemma path_segments_elem x c p : forall l, x ∈ foldl path_segment l p -> c ∈ x -> (exists s, s ∈ l /\ c ∈ s) \/ exists s, s ∈ p /\ c ∈ s.
Proof.
  induction p as [|s p IH]; intros l Hx Hc; cbn [foldl] in Hx; [left; by exists x|].
  destruct (IH _ Hx Hc) as [(y & Hy & Hyc)|(y & Hy & Hyc)]; [|right; exists y; split; [by right|done]].
  unfold path_segment in Hy. case_bool_decide.
  - left. exists y. split; [|done]. destruct l as [|z l] using rev_ind; [done|]. rewrite removelast_last in Hy. apply elem_of_app. by left.
  - case_bool_decide; [left; by exists y|]. apply elem_of_app in Hy as [Hy|Hy%list_elem_of_singleton]; [left; by exists y|].
    right. exists s. split; [left|by rewrite <- Hy].
Qed.

Lemma pieces_no_sep d s : Forall (fun x => d ∉ x) (pieces d s).
Proof. apply Forall_forall. intros x Hx Hd. by destruct (pieces_elem _ _ _ _ Hx Hd). Qed.

(** The path a list of segments stands for. *)
Definition path_of (l : list bytes) (trailing : bool) : bytes :=
  chr "/" :: join_with (chr "/") l ++ (if trailing && negb (bool_decide (l = [])) then str "/" else []).

Lemma ends_in_app c s : ends_in c (s ++ [c]) = true.
Proof. unfold ends_in. rewrite last_snoc. apply Z.eqb_refl. Qed.

Lemma join_last d l : l <> [] -> Forall (fun s => s <> [] /\ d ∉ s) l -> ends_in d (join_with d l) = false.
Proof.
  intros Hne Hl. induction Hl as [|s l [Hs Hd] Hl IH]; [done|]. destruct l as [|s' l].
  - destruct s as [|c s _] using rev_ind; [done|]. cbn [join_with]. unfold ends_in. rewrite last_snoc. apply Z.eqb_neq. intros ->.
    apply Hd, elem_of_app. right. left.
  - change (join_with d (s :: s' :: l)) with (s ++ d :: join_with d (s' :: l)). unfold ends_in in *.
    assert (Hn : join_with d (s' :: l) <> []).
    { apply Forall_cons in Hl as [[Hs' _] _]. destruct s' as [|c s']; [done|]. by destruct l. }
    destruct (join_with d (s' :: l)) as [|c t _] eqn:E using rev_ind; [done|]. rewrite app_comm_cons, app_assoc, last_snoc.
    specialize (IH ltac:(done)). rewrite last_snoc in IH. exact IH.
Qed.

Lemma plain_join_end l : l <> [] -> Forall plain_segment l -> ends_in (chr "/") (chr "/" :: join_with (chr "/") l) = false.
Proof.
  intros Hne Hl. assert (H : ends_in (chr "/") (join_with (chr "/") l) = false).
  { apply join_last; [done|]. eapply Forall_impl; [exact Hl|]. intros s (H1 & _ & _ & H2). done. }
  unfold ends_in in *. destruct (join_with (chr "/") l) as [|c t] eqn:E; [|exact H].
  destruct l as [|s l]; [done|]. apply Forall_cons in Hl as [[Hs _] _]. destruct s as [|x s]; [done|]. by destruct l.
Qed.

(** Normalization yields the path of plain segments. *)
Lemma normalize_path_of p : exists l, Forall plain_segment l /\ normalize_pathname p true =
  path_of l (ends_in (chr "/") (match p with c :: p' => if c =? chr "/" then p' else p | [] => [] end)) /\
  forall c s, s ∈ l -> c ∈ s -> c ∈ p.
Proof.
  unfold normalize_pathname. cbn [andb]. set (rest := match p with c :: p' => if c =? chr "/" then p' else p | [] => [] end).
  set (l := foldl path_segment [] (pieces (chr "/") rest)). exists l.
  assert (Hl : Forall plain_segment l) by (apply path_segments_plain; [constructor|apply pieces_no_sep]). split; [done|]. split.
  - unfold path_of. change (str "/") with [chr "/"]. cbn [app]. rewrite (bool_decide_eq_false_2 (chr "/" :: _ = [])) by done. cbn [orb].
    destruct (ends_in (chr "/") rest); cbn [andb].
    + destruct (decide (l = [])) as [->|Hne].
      * cbn [join_with]. change (ends_in (chr "/") [chr "/"]) with true. cbn [negb]. by rewrite (bool_decide_eq_true_2 ([] = [])), bool_decide_eq_false_2 by done.
      * rewrite plain_join_end, (bool_decide_eq_false_2 (l = [])) by done. cbn [negb]. by rewrite bool_decide_eq_false_2.
    + rewrite app_nil_r. by rewrite bool_decide_eq_false_2.
  - intros c s Hs Hc. destruct (path_segments_elem _ _ _ _ Hs Hc) as [(y & Hy & _)|(y & Hy & Hyc)]; [by apply not_elem_of_nil in Hy|].
    destruct (pieces_elem _ _ _ _ Hy Hyc) as [Hin _]. unfold rest in Hin. destruct p as [|b p]; [by apply not_elem_of_nil in Hin|]. destruct (b =? chr "/"); [by right|done].
Qed.

Lemma normalize_path_of_id l t : Forall plain_segment l -> normalize_pathname (path_of l t) true = path_of l t.
Proof.
  intros Hl. unfold normalize_pathname, path_of. cbn [andb]. rewrite Z.eqb_refl. change (str "/") with [chr "/"].
  assert (Hs : Forall (fun s => chr "/" ∉ s) l) by (eapply Forall_impl; [exact Hl|]; by intros s (_ & _ & _ & ?)).
  destruct (decide (l = [])) as [->|Hne].
  - destruct t; vm_compute; reflexivity.
  - rewrite (bool_decide_eq_false_2 (l = [])) by done. destruct t; cbn [negb andb].
    + rewrite ends_in_app. assert (Hp : pieces (chr "/") (join_with (chr "/") l ++ [chr "/"]) = l ++ [[]]).
      { replace (join_with (chr "/") l ++ [chr "/"]) with (join_with (chr "/") (l ++ [[]])).
        - apply pieces_join; [by destruct l|]. apply Forall_app. split; [done|]. constructor; [apply not_elem_of_nil|constructor].
        - destruct l as [|s l]; [done|]. clear. revert s. induction l as [|s' l IH]; intros s; [done|].
          change (join_with (chr "/") ((s :: s' :: l) ++ [[]])) with (s ++ chr "/" :: join_with (chr "/") ((s' :: l) ++ [[]])).
          rewrite IH. change (join_with (chr "/") (s :: s' :: l)) with (s ++ chr "/" :: join_with (chr "/") (s' :: l)). by rewrite <- app_assoc. }
      rewrite Hp, foldl_app, (path_segments_id l) by done. cbn [foldl app]. change (path_segment l []) with l.
      rewrite plain_join_end by done. cbn [negb]. rewrite orb_true_r. by rewrite bool_decide_eq_false_2.
    + rewrite app_nil_r, pieces_join, path_segments_id by done. cbn [app].
      replace (ends_in (chr "/") (join_with (chr "/") l)) with false.
      2: { symmetry. apply join_last; [done|]. eapply Forall_impl; [exact Hl|]. by intros s (? & _ & _ & ?). }
      cbn [andb]. by rewrite bool_decide_eq_false_2.
Qed.

(** * What parsing yields *)

Definition scheme_ok (p : bytes) : Prop :=
  exists c0 name, p = c0 :: name ++ str ":" /\ is_alpha c0 = true /\ forallb (fun c => is_alnum c || any_of (str "+-.") c) name = true /\
    ascii_lower p = p.

Definition host_ok (h : bytes) : Prop :=
  (exists b, h = chr "[" :: b ++ str "]" /\ chr "]" ∉ b) \/
  (head h <> Some (chr "[") /\ chr ":" ∉ h /\ ascii_lower h = h).

Definition port_ok (protocol p : bytes) : Prop :=
  p = [] \/ exists n, port_value p 0 = Ret n /\ n <> default_port_for protocol.

Definition delimiters : bytes := str "/?#".

(** The user, the host and the port. *)
Record authority_ok (u : url_data) : Prop := {
  ok_username : lacks (any_of delimiters) (username u) /\ chr ":" ∉ username u;
  ok_password : lacks (any_of delimiters) (password u);
  ok_hostname : lacks (any_of delimiters) (hostname u) /\ chr "@" ∉ hostname u /\ host_ok (hostname u);
  ok_port : lacks (any_of delimiters) (port u) /\ chr "@" ∉ port u /\ port_ok (protocol u) (port u) }.

Definition no_authority (u : url_data) : Prop :=
  has_authority u = false /\ username u = [] /\ password u = [] /\ hostname u = [] /\ port u = [].

Record tail_ok (u : url_data) : Prop := {
  ok_pathname : lacks (any_of (str "?#")) (pathname u);
  ok_search : begins (is_char (chr "?")) (search u) /\ chr "#" ∉ search u;
  ok_hash : begins (is_char (chr "#")) (hash u) }.

Record url_ok (u : url_data) : Prop := {
  ok_scheme : scheme_ok (protocol u);
  ok_special : is_special u = is_special_scheme (protocol u);
  ok_tail : tail_ok u;
  ok_rooted : is_special u = true -> head (pathname u) = Some (chr "/");
  ok_authority :
    has_authority u = true /\ authority_ok u /\ begins (is_char (chr "/")) (pathname u) \/
    no_authority u /\ is_special u = false /\ starts_with (str "//") (pathname u) = false }.

(** ** Schemes *)

Lemma is_alpha_lower c : is_alpha c = true -> is_alpha (lower_char c) = true.
Proof.
  unfold is_alpha, lower_char. change (chr "A") with 65. change (chr "Z") with 90. change (chr "a") with 97. change (chr "z") with 122.
  destruct (Z.leb_spec 65 c), (Z.leb_spec c 90), (Z.leb_spec 97 c), (Z.leb_spec c 122); cbn [andb orb]; try done; try lia;
    intros _; destruct (Z.leb_spec 97 (c + 32)), (Z.leb_spec (c + 32) 122); cbn [andb orb]; done || lia.
Qed.

Lemma scheme_char_lower c : is_alnum c || any_of (str "+-.") c = true -> is_alnum (lower_char c) || any_of (str "+-.") (lower_char c) = true.
Proof.
  destruct (is_alpha c) eqn:Ea; [intros _; unfold is_alnum; by rewrite is_alpha_lower|]. unfold is_alnum. rewrite Ea. cbn [orb].
  intros H. assert (E : lower_char c = c); [|rewrite E; rewrite Ea; exact H]. unfold lower_char.
  unfold is_alpha in Ea. change (chr "a") with 97 in Ea. change (chr "z") with 122 in Ea. destruct ((chr "A" <=? c) && (c <=? chr "Z")) eqn:E; [|done].
  by rewrite orb_true_r in Ea.
Qed.

Lemma ascii_lower_app a b : ascii_lower (a ++ b) = ascii_lower a ++ ascii_lower b.
Proof. apply fmap_app. Qed.
Lemma ascii_lower_cons c a : ascii_lower (c :: a) = lower_char c :: ascii_lower a.
Proof. done. Qed.

Lemma lower_scheme_ok c0 name : is_alpha c0 = true -> forallb (fun c => is_alnum c || any_of (str "+-.") c) name = true ->
  scheme_ok (ascii_lower (c0 :: name ++ str ":")).
Proof.
  intros H0 Hn. exists (lower_char c0), (ascii_lower name). rewrite ascii_lower_cons, ascii_lower_app. split_and!; [done|by apply is_alpha_lower| |].
  - induction name as [|c name IH]; [done|]. cbn [forallb] in Hn. apply andb_true_iff in Hn as [Hc Hn]. rewrite ascii_lower_cons. cbn [forallb].
    rewrite IH by done. by rewrite scheme_char_lower.
  - change (ascii_lower (str ":")) with (str ":"). rewrite ascii_lower_cons, ascii_lower_app, lower_char_idemp, ascii_lower_idemp. done.
Qed.

Lemma split_scheme_ok s p rest : split_scheme s = Some (p, rest) -> scheme_ok p.
Proof.
  unfold split_scheme. destruct s as [|c0 s]; [done|]. destruct (any_of _ c0); [done|]. destruct (from _ s) as [|c r]; [done|].
  destruct (_ && _) eqn:E; [|done]. intros [= <- <-]. apply andb_true_iff in E as [[_ Ha]%andb_true_iff Hn]. by apply lower_scheme_ok.
Qed.

Lemma scheme_char_plain c : is_alnum c || any_of (str "+-.") c = true -> any_of (str "/?#:") c = false.
Proof.
  intros H. apply bool_decide_eq_false. intros Hin. revert H. cbn in Hin. repeat (apply elem_of_cons in Hin as [->|Hin]; [done|]).
  by apply not_elem_of_nil in Hin.
Qed.

Lemma split_scheme_app p rest : scheme_ok p -> split_scheme (p ++ rest) = Some (p, rest).
Proof.
  intros (c0 & name & -> & Ha & Hn & Hl). unfold split_scheme. cbn [app]. rewrite <- app_assoc.
  assert (H0 : any_of (str "/?#") c0 = false).
  { assert (H1 : any_of (str "/?#:") c0 = false) by (apply scheme_char_plain; unfold is_alnum; by rewrite Ha).
    apply bool_decide_eq_false. apply bool_decide_eq_false in H1. intros Hin. apply H1. cbn in Hin |- *. set_solver. }
  rewrite H0. assert (Hna : lacks (any_of (str "/?#:")) name).
  { apply Forall_forall. intros c Hc. apply scheme_char_plain. rewrite forallb_forall in Hn. by apply Hn, list_elem_of_In. }
  rewrite (upto_app _ name (str ":" ++ rest)), (from_app _ name (str ":" ++ rest)) by done. change (str ":" ++ rest) with (chr ":" :: rest).
  cbv beta iota. rewrite Z.eqb_refl, Ha, Hn. cbn [andb]. by rewrite Hl.
Qed.

(** ** Authorities *)

Lemma parse_userinfo_ok authority u rest u' : lacks (any_of delimiters) authority ->
  lacks (any_of delimiters) (username u) -> chr ":" ∉ username u -> lacks (any_of delimiters) (password u) ->
  parse_userinfo authority u = (rest, u') ->
  u' = with_userinfo (username u') (password u') u /\ (lacks (any_of delimiters) (username u') /\ chr ":" ∉ username u') /\
  lacks (any_of delimiters) (password u') /\ lacks (any_of delimiters) rest /\ chr "@" ∉ rest.
Proof.
  intros Ha Hn Hc Hp. unfold parse_userinfo. destruct (rfind_char (chr "@") authority) as [i|] eqn:E.
  - apply rfind_char_Some in E as (a & b & -> & -> & Hb). unfold substr, substr_from. destruct (Z.ltb_spec (zlen a) 0); [lia|].
    assert (Ea : ztake (zlen a) (zdrop 0 (a ++ chr "@" :: b)) = a).
    { unfold ztake, zdrop. rewrite Nat2Z.id. cbn [Z.to_nat drop]. by apply take_app_length. }
    assert (Eb : zdrop (zlen a + 1) (a ++ chr "@" :: b) = b).
    { unfold zdrop. replace (Z.to_nat (zlen a + 1)) with (length a + 1)%nat by lia. rewrite drop_app_add. done. }
    rewrite Ea, Eb. apply lacks_app in Ha as [Ha Hb']. apply Forall_cons in Hb' as [_ Hb'].
    pose proof (upto_lacks (is_char (chr ":")) a) as Hu%lacks_char.
    assert (Hua : lacks (any_of delimiters) (upto (is_char (chr ":")) a)) by (eapply lacks_sub; [|exact Ha]; apply upto_elem).
    destruct (from (is_char (chr ":")) a) as [|c pw] eqn:Ef; intros [= <- <-]; cbn [username password with_userinfo].
    + assert (Eu : upto (is_char (chr ":")) a = a) by (rewrite <- (upto_from (is_char (chr ":")) a) at 2; by rewrite Ef, app_nil_r).
      rewrite Eu in Hu. split_and!; done.
    + split_and!; try done. eapply lacks_sub; [|exact Ha]. intros x Hx. eapply from_elem. rewrite Ef. by right.
  - intros [= <- <-]. apply rfind_char_None in E. destruct u. split_and!; done.
Qed.

Lemma parse_host_ok authority u u' : lacks (any_of delimiters) authority -> chr "@" ∉ authority ->
  lacks (any_of delimiters) (port u) -> chr "@" ∉ port u -> parse_host authority u = Some u' ->
  u' = with_host (hostname u') (port u') u /\
  (lacks (any_of delimiters) (hostname u') /\ chr "@" ∉ hostname u' /\ host_ok (hostname u')) /\
  lacks (any_of delimiters) (port u') /\ chr "@" ∉ port u'.
Proof.
  intros Ha Hat Hp Hpa. unfold parse_host. destruct authority as [|c0 a].
  { intros [= <-]. cbn [hostname port with_host]. split; [done|]. split; [|done]. split; [constructor|]. split; [apply not_elem_of_nil|]. right. split; [done|].
    split; [apply not_elem_of_nil|done]. }
  destruct (Z.eqb_spec c0 (chr "[")) as [->|Hb].
  - destruct (from (is_char (chr "]")) (chr "[" :: a)) as [|c after] eqn:Ef; [done|].
    pose proof (upto_from (is_char (chr "]")) (chr "[" :: a)) as Es. rewrite Ef in Es.
    pose proof (from_begins (is_char (chr "]")) (chr "[" :: a)) as Hc. rewrite Ef in Hc. apply Z.eqb_eq in Hc as ->.
    pose proof (upto_lacks (is_char (chr "]")) (chr "[" :: a)) as Hl%lacks_char.
    assert (Hhost : forall x, x ∈ upto (is_char (chr "]")) (chr "[" :: a) ++ str "]" -> x ∈ chr "[" :: a).
    { intros x [Hx|Hx%list_elem_of_singleton]%elem_of_app; [by eapply upto_elem|]. rewrite <- Es, Hx. apply elem_of_app. right. left. }
    assert (Hafter : forall x, x ∈ after -> x ∈ chr "[" :: a).
    { intros x Hx. rewrite <- Es. apply elem_of_app. right. by right. }
    assert (Hhok : host_ok (upto (is_char (chr "]")) (chr "[" :: a) ++ str "]")).
    { left. exists (upto (is_char (chr "]")) a). split; [done|]. apply lacks_char, upto_lacks. }
    assert (Hh : lacks (any_of delimiters) (upto (is_char (chr "]")) (chr "[" :: a) ++ str "]") /\ chr "@" ∉ upto (is_char (chr "]")) (chr "[" :: a) ++ str "]" /\
      host_ok (upto (is_char (chr "]")) (chr "[" :: a) ++ str "]")).
    { split_and!; [by eapply lacks_sub|by intros ?%Hhost|done]. }
    destruct after as [|x p]; intros [= <-]; cbn [hostname port with_host]; [split_and!; try done; apply Hh|].
    split; [done|]. split; [exact Hh|]. destruct (x =? chr ":"); [|done]. split.
    + eapply lacks_sub; [|exact Ha]. intros y Hy. apply Hafter. by right.
    + intros Hin. apply Hat, Hafter. by right.
  - pose proof (upto_from (is_char (chr ":")) (c0 :: a)) as Es.
    assert (Hset : Forall (fun x => x < chr "a" \/ chr "z" < x) delimiters) by (repeat constructor; vm_compute; tauto).
    assert (Hhost : forall h, (forall x, x ∈ h -> x ∈ c0 :: a) -> head h <> Some (chr "[") -> chr ":" ∉ h ->
      lacks (any_of delimiters) (ascii_lower h) /\ chr "@" ∉ ascii_lower h /\ host_ok (ascii_lower h)).
    { intros h Hs Hh Hc. split_and!.
      - apply ascii_lower_lacks; [done|]. by eapply lacks_sub.
      - intros (y & Hy & Hin)%list_elem_of_fmap. symmetry in Hy. apply lower_char_other in Hy as ->; [|vm_compute; tauto]. by apply Hat, Hs.
      - right. split_and!; [|intros (y & Hy & Hin)%list_elem_of_fmap|apply ascii_lower_idemp].
        + destruct h as [|y h]; [done|]. cbn. intros [= Hy]. apply lower_char_other in Hy as ->; [done|vm_compute; tauto].
        + symmetry in Hy. apply lower_char_other in Hy as ->; [done|vm_compute; tauto]. }
    assert (Hne : head (c0 :: a) <> Some (chr "[")) by (cbn; congruence).
    pose proof (upto_lacks (is_char (chr ":")) (c0 :: a)) as Hu%lacks_char.
    destruct (from (is_char (chr ":")) (c0 :: a)) as [|c p] eqn:Ef; intros [= <-]; cbn [hostname port with_host].
    + rewrite app_nil_r in Es. rewrite Es in Hu. split; [done|]. split; [exact (Hhost (c0 :: a) (fun x Hx => Hx) Hne Hu)|done].
    + split; [done|]. split.
      * apply Hhost; [apply upto_elem| |done]. rewrite <- Es in Hne. by destruct (upto _ _).
      * split; [eapply lacks_sub; [|exact Ha]; intros x Hx; rewrite <- Es; apply elem_of_app; right; by right|].
        intros Hin. apply Hat. rewrite <- Es. apply elem_of_app. right. by right.
Qed.

Lemma drop_default_port_ok u u' : drop_default_port u = Ret u' ->
  u' = with_host (hostname u) (port u') u /\ (port u' = [] \/ port u' = port u) /\ port_ok (protocol u) (port u').
Proof.
  unfold drop_default_port. destruct (port u) as [|c p] eqn:E.
  { intros [= <-]. rewrite E. split; [destruct u; cbn in *; by rewrite E|]. split; [by left|by left]. }
  destruct (port_value (c :: p) 0) as [n| | |] eqn:Ep; [|done..]. cbn [mbind outcome_bind]. intros [= <-].
  destruct (Z.eqb_spec n (default_port_for (protocol u))) as [Hn|Hn].
  - cbn [port with_host]. split; [done|]. split; [by left|by left].
  - rewrite E. split; [destruct u; cbn in *; by rewrite E|]. split; [by right|]. right. by exists n.
Qed.

(** ** Paths, queries and fragments *)

Lemma lacks_two a b s : chr a ∉ s -> chr b ∉ s -> lacks (any_of [chr a; chr b]) s.
Proof.
  intros Ha Hb. apply Forall_forall. intros c Hc. apply bool_decide_eq_false. intros Hin.
  apply elem_of_cons in Hin as [->|Hin%list_elem_of_singleton]; [done|]. by subst c.
Qed.

Lemma lacks_two_inv a b s : lacks (any_of [chr a; chr b]) s -> chr a ∉ s /\ chr b ∉ s.
Proof.
  intros H. split; intros Hin; apply (lacks_elem _ _ _ H) in Hin; apply bool_decide_eq_false in Hin; apply Hin; set_solver.
Qed.

Lemma parse_tail_ok rest u : search u = [] -> hash u = [] -> tail_ok (parse_tail rest u) /\
  (is_special u = true -> head (pathname (parse_tail rest u)) = Some (chr "/")) /\
  (is_special u = false -> exists t, rest = pathname (parse_tail rest u) ++ t) /\
  parse_tail rest u = with_pathname (pathname (parse_tail rest u)) (with_search (search (parse_tail rest u)) (with_hash (hash (parse_tail rest u)) u)).
Proof.
  intros Hs Hh. unfold parse_tail. set (bh := upto (is_char (chr "#")) rest).
  pose proof (upto_from (is_char (chr "#")) rest) as E1. fold bh in E1. pose proof (upto_from (is_char (chr "?")) bh) as E2.
  pose proof (upto_lacks (is_char (chr "#")) rest) as L1%lacks_char. fold bh in L1.
  pose proof (upto_lacks (is_char (chr "?")) bh) as L2%lacks_char. pose proof (from_begins (is_char (chr "#")) rest) as B1.
  pose proof (from_begins (is_char (chr "?")) bh) as B2.
  set (path := upto (is_char (chr "?")) bh) in *. set (q := from (is_char (chr "?")) bh) in *. set (h := from (is_char (chr "#")) rest) in *.
  clearbody bh path q h.
  assert (Lp : chr "#" ∉ path) by (intros Hin; apply L1; rewrite <- E2; apply elem_of_app; by left).
  assert (Lq : chr "#" ∉ q) by (intros Hin; apply L1; rewrite <- E2; apply elem_of_app; by right).
  assert (Eh : match h with [] => u | c :: l => with_hash (c :: l) u end = with_hash h u) by (destruct h; [destruct u; cbn in *; by subst|done]).
  rewrite Eh. set (u1 := with_hash h u).
  assert (Eq : match q with [] => u1 | c :: l => with_search (c :: l) u1 end = with_search q u1) by (destruct q; [destruct u; cbn in *; by subst|done]).
  rewrite Eq. assert (Esp : is_special (with_search q u1) = is_special u) by done. rewrite Esp.
  assert (Lpath : forall p, (p = path \/ p = chr "/" :: path) -> lacks (any_of (str "?#")) p).
  { intros p Hp. apply lacks_two; destruct Hp as [->| ->]; try done; (intros [Hc|Hc]%elem_of_cons; [done|by apply L2 || by apply Lp]). }
  destruct (is_special u) eqn:Eu; cbn [andb].
  - case_bool_decide as Hp; cbn [negb pathname with_pathname search hash with_search with_hash].
    + split; [split; cbn; [apply Lpath; by left|done|done]|]. split; [done|]. split; [done|done].
    + split; [split; cbn; [apply Lpath; by right|done|done]|]. split; [done|]. split; [done|done].
  - cbn [pathname with_pathname search hash with_search with_hash]. split; [split; cbn; [apply Lpath; by left|done|done]|]. split; [done|].
    split; [intros _; exists (q ++ h); by rewrite app_assoc, E2|done].
Qed.

Lemma parse_tail_begins rest u : begins (any_of delimiters) rest -> is_special u = false -> search u = [] -> hash u = [] ->
  begins (is_char (chr "/")) (pathname (parse_tail rest u)).
Proof.
  intros Hb Hu Hs Hh. destruct (parse_tail_ok rest u Hs Hh) as (T & _ & T3 & _). destruct (T3 Hu) as [t Ht].
  destruct (pathname (parse_tail rest u)) as [|c p] eqn:Ep; [done|]. rewrite Ht in Hb. cbn in Hb |- *.
  pose proof (ok_pathname _ T) as L. rewrite Ep in L. apply Forall_cons in L as [L _]. unfold any_of in Hb, L.
  apply bool_decide_eq_true in Hb. apply bool_decide_eq_false in L. apply Z.eqb_eq.
  apply elem_of_cons in Hb as [->|Hb]; [done|]. destruct L. exact Hb.
Qed.

Lemma starts_with_prefix p a b : starts_with p a = true -> starts_with p (a ++ b) = true.
Proof. rewrite !starts_with_spec. intros [r ->]. exists (r ++ b). by rewrite <- app_assoc. Qed.

(** What parsing may begin with: nothing, or the user, host and port of a base. *)
Record start_ok (u : url_data) : Prop := {
  ok_start_scheme : scheme_ok (protocol u);
  ok_start_authority : authority_ok u;
  ok_start_tail : search u = [] /\ hash u = [] }.

Lemma with_userinfo_id u : with_userinfo (username u) (password u) u = u.
Proof. by destruct u. Qed.

Lemma parse_with_scheme_ok rest u u' : start_ok u -> starts_with (str "//") rest = true \/ no_authority u ->
  parse_with_scheme rest u = Ret (true, u') -> url_ok u'.
Proof.
  intros [Hsch [[Hn Hnc] Hpw (_ & _ & _) (Hpo & Hpa & _)] [Hs Hh]] Hst. unfold parse_with_scheme.
  set (u1 := with_special (is_special_scheme (protocol u)) u). destruct (starts_with (str "//") rest) eqn:Est.
  - set (r2 := drop 2 rest). set (auth := upto (any_of (str "/?#")) r2). set (tail := from (any_of (str "/?#")) r2).
    assert (Ha : lacks (any_of delimiters) auth) by apply upto_lacks.
    destruct (parse_userinfo auth (with_authority u1)) as [host u2] eqn:E2.
    destruct (parse_userinfo_ok auth (with_authority u1) host u2 Ha Hn Hnc Hpw E2) as (U2 & N2 & P2 & L2 & A2).
    destruct (parse_host host u2) as [u3|] eqn:E3; [|done].
    assert (Hport : port u2 = port u) by (rewrite U2; done).
    destruct (parse_host_ok host u2 u3 L2 A2) as (U3 & H3 & P3 & A3); [by rewrite Hport|by rewrite Hport|done|].
    destruct (drop_default_port u3) as [u4| | |] eqn:E4; [|done..]. cbn [mbind outcome_bind]. intros [= <-].
    destruct (drop_default_port_ok _ _ E4) as (U4 & Hp4 & P4).
    assert (F : protocol u4 = protocol u /\ is_special u4 = is_special_scheme (protocol u) /\ has_authority u4 = true /\ search u4 = [] /\ hash u4 = [] /\
      username u4 = username u2 /\ password u4 = password u2 /\ hostname u4 = hostname u3).
    { rewrite U4, U3, U2. done. }
    destruct F as (F1 & F2 & F3 & F4 & F5 & F6 & F7 & F8).
    destruct (parse_tail_ok tail u4 F4 F5) as (T1 & T2 & _ & T4).
    assert (Hb : begins (is_char (chr "/")) (pathname (parse_tail tail u4))).
    { destruct (is_special u4) eqn:Es; [|apply parse_tail_begins; [apply from_begins|done..]].
      specialize (T2 eq_refl). destruct (pathname _) as [|c p]; [done|]. injection T2 as ->. by apply Z.eqb_eq. }
    assert (G : protocol (parse_tail tail u4) = protocol u /\ is_special (parse_tail tail u4) = is_special u4 /\ has_authority (parse_tail tail u4) = true /\
      username (parse_tail tail u4) = username u2 /\ password (parse_tail tail u4) = password u2 /\ hostname (parse_tail tail u4) = hostname u3 /\
      port (parse_tail tail u4) = port u4).
    { rewrite T4. split_and!; done. }
    destruct G as (G1 & G2 & G3 & G4 & G5 & G6 & G7). split.
    + by rewrite G1.
    + by rewrite G1, G2.
    + done.
    + by rewrite G2.
    + left. split; [done|]. split; [|exact Hb]. split; rewrite ?G1, ?G4, ?G5, ?G6, ?G7; try done.
      assert (Hpr : protocol u3 = protocol u) by (rewrite U3, U2; done). rewrite Hpr in P4.
      destruct Hp4 as [Hp4|Hp4]; rewrite Hp4; [split; [constructor|split; [apply not_elem_of_nil|by left]]|]. rewrite Hp4 in P4. done.
  - destruct (is_special u1) eqn:Es; [done|]. intros [= <-]. destruct Hst as [?|(Na & Nu & Np & Nh & No)]; [done|].
    destruct (parse_tail_ok rest u1 Hs Hh) as (T1 & T2 & T3 & T4). split.
    + rewrite T4. exact Hsch.
    + rewrite T4. done.
    + done.
    + rewrite T4. cbn. cbn in Es. by rewrite Es.
    + right. split; [rewrite T4; done|]. split; [rewrite T4; exact Es|]. apply not_true_iff_false. intros Hp.
      destruct (T3 Es) as [t Ht]. apply (starts_with_prefix _ _ t) in Hp. rewrite <- Ht in Hp. congruence.
Qed.

(** ** Parsing what was serialized *)

Definition userinfo (u : url_data) : bytes := username u ++ prefixed (chr ":") (password u).
Definition host_port (u : url_data) : bytes := hostname u ++ prefixed (chr ":") (port u).
Definition credentials (u : url_data) : bytes :=
  if negb (bool_decide (username u = []) && bool_decide (password u = [])) then userinfo u ++ str "@" else [].
Definition url_tail (u : url_data) : bytes := pathname u ++ search u ++ hash u.

Lemma serialize_url_parts u : serialize_url u =
  protocol u ++ (if has_authority u || is_special u then str "//" ++ credentials u ++ host_port u ++ url_tail u else url_tail u).
Proof.
  unfold serialize_url, credentials, userinfo, host_port, url_tail. destruct (has_authority u || is_special u); [|done].
  rewrite <- !app_assoc. destruct (negb _); by rewrite <- ?app_assoc.
Qed.

Lemma lacks_colon_cons p s : p (chr ":") = false -> lacks p s -> lacks p (prefixed (chr ":") s).
Proof. intros Hc Hs. destruct s; [done|]. by constructor. Qed.

Lemma not_in_colon c s : c <> chr ":" -> c ∉ s -> c ∉ prefixed (chr ":") s.
Proof. intros Hc Hs. destruct s; [done|]. by apply not_elem_of_cons. Qed.

Lemma host_port_lacks u : authority_ok u -> lacks (any_of delimiters) (host_port u) /\ chr "@" ∉ host_port u.
Proof.
  intros [_ _ (H1 & H2 & _) (H3 & H4 & _)]. split; [apply lacks_app; split; [done|by apply lacks_colon_cons]|].
  intros [?|Hin]%elem_of_app; [done|]. by apply not_in_colon in Hin.
Qed.

Lemma reparse_userinfo u v : authority_ok u -> username v = [] -> password v = [] ->
  lacks (any_of delimiters) (credentials u ++ host_port u) /\
  parse_userinfo (credentials u ++ host_port u) v = (host_port u, with_userinfo (username u) (password u) v).
Proof.
  intros Hok Hv1 Hv2. destruct (host_port_lacks u Hok) as [L1 L2]. pose proof Hok as [[Hn Hc] Hp _ _].
  assert (Lu : lacks (any_of delimiters) (userinfo u)) by (apply lacks_app; split; [done|by apply lacks_colon_cons]).
  unfold credentials. destruct (negb _) eqn:E.
  - split; [apply lacks_app; split; [apply lacks_app; split; [done|by constructor]|done]|].
    unfold parse_userinfo. rewrite <- app_assoc. change (str "@" ++ host_port u) with (chr "@" :: host_port u).
    rewrite rfind_char_app by done. unfold substr, substr_from. destruct (Z.ltb_spec (zlen (userinfo u)) 0); [lia|].
    assert (Ea : ztake (zlen (userinfo u)) (zdrop 0 (userinfo u ++ chr "@" :: host_port u)) = userinfo u).
    { unfold ztake, zdrop. rewrite Nat2Z.id. cbn [Z.to_nat drop]. by apply take_app_length. }
    assert (Eb : zdrop (zlen (userinfo u) + 1) (userinfo u ++ chr "@" :: host_port u) = host_port u).
    { unfold zdrop. replace (Z.to_nat (zlen (userinfo u) + 1)) with (length (userinfo u) + 1)%nat by lia. by rewrite drop_app_add. }
    rewrite Ea, Eb. unfold userinfo. destruct (password u) as [|c p] eqn:Ep; cbn [prefixed].
    + rewrite app_nil_r. destruct (cut_none (is_char (chr ":")) (username u)) as [_ ->]; [by apply lacks_char|]. by rewrite Hv2.
    + rewrite (upto_app _ (username u)), (from_app _ (username u)); [done|by apply lacks_char|done|by apply lacks_char|done].
  - cbn [app]. split; [done|]. unfold parse_userinfo. rewrite (proj2 (rfind_char_None _ _) L2).
    apply negb_false_iff, andb_true_iff in E as [->%bool_decide_eq_true ->%bool_decide_eq_true].
    rewrite <- Hv1 at 1. rewrite <- Hv2 at 1. by rewrite with_userinfo_id.
Qed.

Lemma reparse_host u v : authority_ok u -> port v = [] -> parse_host (host_port u) v = Some (with_host (hostname u) (port u) v).
Proof.
  intros [_ _ (_ & _ & Hh) _] Hv. unfold host_port. set (pp := prefixed (chr ":") (port u)).
  assert (Hbeg : begins (is_char (chr ":")) pp) by (unfold pp; by destruct (port u)).
  destruct Hh as [(b & -> & Hb)|(Hb & Hc & Hl)].
  - assert (E : (chr "[" :: b ++ str "]") ++ pp = (chr "[" :: b) ++ (str "]" ++ pp)) by (cbn [app]; by rewrite <- app_assoc).
    rewrite E. unfold parse_host. change ((chr "[" :: b) ++ str "]" ++ pp) with (chr "[" :: (b ++ str "]" ++ pp)) at 1.
    cbv beta iota. rewrite Z.eqb_refl.
    assert (Lb : lacks (is_char (chr "]")) (chr "[" :: b)) by (apply lacks_char, not_elem_of_cons; by split).
    change (str "]" ++ pp) with (chr "]" :: pp) in *.
    rewrite (from_app _ (chr "[" :: b)), (upto_app _ (chr "[" :: b)); [|done|by apply Z.eqb_refl|done|by apply Z.eqb_refl].
    unfold pp. destruct (port u) as [|c p]; cbn [app prefixed]; [by rewrite Hv|]. cbv beta iota. by rewrite Z.eqb_refl.
  - destruct (hostname u) as [|c0 h] eqn:Eh.
    + cbn [app]. unfold pp. destruct (port u) as [|c p]; cbn [prefixed]; [cbn [parse_host]; by rewrite Hv|]. unfold parse_host.
      assert (E : chr ":" =? chr "[" = false) by done. rewrite E. destruct (cut_app (is_char (chr ":")) [] (chr ":" :: c :: p)) as [E1 E2]; [constructor|by apply Z.eqb_refl|].
      cbn [app] in E1, E2. by rewrite E1, E2.
    + unfold parse_host. cbn [app]. destruct (Z.eqb_spec c0 (chr "[")) as [->|_]; [done|].
      change (c0 :: h ++ pp) with ((c0 :: h) ++ pp). rewrite (upto_app _ (c0 :: h)), (from_app _ (c0 :: h)); [|by apply lacks_char|done|by apply lacks_char|done].
      unfold pp. destruct (port u) as [|c p]; cbn [prefixed]; [by rewrite app_nil_r, Hl, Hv|]. by rewrite Hl.
Qed.

Lemma reparse_tail u v : tail_ok u -> (is_special v = true -> head (pathname u) = Some (chr "/")) -> search v = [] -> hash v = [] ->
  parse_tail (url_tail u) v = with_pathname (pathname u) (with_search (search u) (with_hash (hash u) v)).
Proof.
  intros [Hp [Hs1 Hs2] Hh] Hsp Hv1 Hv2. apply lacks_two_inv in Hp as [P1 P2]. unfold url_tail, parse_tail. rewrite app_assoc.
  assert (L : lacks (is_char (chr "#")) (pathname u ++ search u)) by (apply lacks_app; split; by apply lacks_char).
  rewrite (upto_app _ _ _ L Hh), (from_app _ _ _ L Hh). assert (Lp : lacks (is_char (chr "?")) (pathname u)) by by apply lacks_char.
  rewrite (upto_app _ _ _ Lp Hs1), (from_app _ _ _ Lp Hs1).
  assert (Eh : match hash u with [] => v | c :: l => with_hash (c :: l) v end = with_hash (hash u) v) by (destruct (hash u); [destruct v; cbn in *; by subst|done]).
  rewrite Eh. set (v1 := with_hash (hash u) v).
  assert (Eq : match search u with [] => v1 | c :: l => with_search (c :: l) v1 end = with_search (search u) v1) by (destruct (search u); [destruct v; cbn in *; by subst|done]).
  rewrite Eq. assert (Es : is_special (with_search (search u) v1) = is_special v) by done. rewrite Es.
  destruct (is_special v); [|done]. by rewrite bool_decide_eq_true_2 by by apply Hsp.
Qed.

Lemma url_tail_begins u : tail_ok u -> begins (is_char (chr "/")) (pathname u) -> begins (any_of delimiters) (url_tail u).
Proof.
  intros [_ [Hs _] Hh] Hp. unfold url_tail. destruct (pathname u) as [|c p]; [|apply Z.eqb_eq in Hp as ->; done].
  destruct (search u) as [|c q]; [|apply Z.eqb_eq in Hs as ->; done]. destruct (hash u) as [|c h]; [done|apply Z.eqb_eq in Hh as ->; done].
Qed.

Lemma no_slashes_tail u : tail_ok u -> starts_with (str "//") (pathname u) = false -> starts_with (str "//") (url_tail u) = false.
Proof.
  intros [_ [Hs _] Hh] Hp. apply not_true_iff_false. intros [r E]%starts_with_spec. apply not_true_iff_false in Hp. apply Hp. apply starts_with_spec.
  unfold url_tail in E. change (str "//") with [chr "/"; chr "/"] in *. cbn [app] in E.
  assert (T : forall x t, search u ++ hash u = x :: t -> x <> chr "/").
  { intros x t Et ->. destruct (search u) as [|c q]; [|injection Et as -> _; done]. destruct (hash u) as [|c h]; [done|]. by injection Et as -> _. }
  destruct (pathname u) as [|a [|b p]]; cbn [app] in E.
  - by destruct (T _ _ E).
  - injection E as _ E. by destruct (T _ _ E).
  - injection E as -> -> _. by exists p.
Qed.

(** An accepted URL, serialized without white space at its ends, is parsed again as
    what it is. *)
Lemma reparse_url u : url_ok u -> trim (serialize_url u) = serialize_url u -> parse_url (serialize_url u) None no_url = Ret (true, u).
Proof.
  intros [Hsch Hsp Ht Hr Ha] Htrim. unfold parse_url, parse_absolute. rewrite Htrim, serialize_url_parts, split_scheme_app by done.
  unfold parse_with_scheme. cbn [protocol with_protocol]. rewrite <- Hsp. set (v := with_special (is_special u) (with_protocol (protocol u) no_url)).
  destruct Ha as [(Hau & Hok & Hb)|((Hna & Nu & Np & Nh & No) & Hns & Hsl)].
  - rewrite Hau. cbn [orb]. rewrite starts_with_app. change (drop 2 (str "//" ++ credentials u ++ host_port u ++ url_tail u)) with (credentials u ++ host_port u ++ url_tail u).
    destruct (reparse_userinfo u (with_authority v) Hok eq_refl eq_refl) as [L E].
    rewrite app_assoc. rewrite (upto_app _ _ _ L), (from_app _ _ _ L) by (by apply url_tail_begins). rewrite E. cbv beta iota zeta.
    rewrite reparse_host by done. destruct Hok as [_ _ _ (_ & _ & Hport)].
    assert (Ed : drop_default_port (with_host (hostname u) (port u) (with_userinfo (username u) (password u) (with_authority v))) =
      Ret (with_host (hostname u) (port u) (with_userinfo (username u) (password u) (with_authority v)))).
    { unfold drop_default_port. cbn [port with_host]. destruct Hport as [->|(n & Hn & Hd)]; [done|]. destruct (port u) as [|c p]; [done|].
      rewrite Hn. cbn [mbind outcome_bind]. cbn [protocol with_host with_userinfo with_authority with_special with_protocol v].
      by destruct (Z.eqb_spec n (default_port_for (protocol u))). }
    rewrite Ed. cbn [mbind outcome_bind]. rewrite reparse_tail by done. destruct u. cbn in *. by subst.
  - rewrite Hna, Hns. cbn [orb]. rewrite no_slashes_tail by done. unfold v. rewrite Hns. cbn [is_special with_special].
    rewrite reparse_tail by done. clear -Hna Nu Np Nh No Hns. destruct u. cbn in *. by subst.
Qed.

(** ** References relative to a base *)

Lemma scheme_not_ws p : scheme_ok p -> match p with [] => False | c :: _ => is_ws c = false end.
Proof.
  intros (c0 & name & -> & Ha & _). cbn [app]. unfold is_alpha, is_ws in *. change (chr "a") with 97 in Ha. change (chr "z") with 122 in Ha.
  change (chr "A") with 65 in Ha. change (chr "Z") with 90 in Ha. change (chr " ") with 32.
  destruct (Z.eqb_spec c0 32), (Z.eqb_spec c0 9), (Z.eqb_spec c0 13), (Z.eqb_spec c0 10); try done; subst; done.
Qed.

Lemma trim_scheme p rest : scheme_ok p -> rest <> [] -> match last rest with Some c => is_ws c = false | None => True end -> trim (p ++ rest) = p ++ rest.
Proof.
  intros Hp Hne Hl. apply trim_by_id. pose proof (scheme_not_ws p Hp) as H. destruct p as [|c p]; [done|]. split; [exact H|].
  destruct rest as [|x rest _] using rev_ind; [done|]. rewrite last_snoc in Hl. by rewrite app_assoc, last_snoc.
Qed.

Lemma trim_last s : match last (trim s) with Some c => is_ws c = false | None => True end.
Proof. destruct (trim_by_trimmed is_ws s) as [_ H]. by destruct (last (trim s)) eqn:E; unfold trim in E; rewrite E in H. Qed.

Lemma url_ok_start u : url_ok u -> start_ok (with_hash [] (with_search [] u)).
Proof.
  intros [Hs _ _ _ Ha]. split; [done| |done]. destruct Ha as [(_ & [H1 H2 H3 H4] & _)|((_ & Nu & Np & Nh & No) & _)]; [by split|].
  split; cbn; rewrite ?Nu, ?Np, ?Nh, ?No.
  - split; [constructor|apply not_elem_of_nil].
  - constructor.
  - split; [constructor|]. split; [apply not_elem_of_nil|]. right. split; [done|]. split; [apply not_elem_of_nil|done].
  - split; [constructor|]. split; [apply not_elem_of_nil|by left].
Qed.

Lemma path_of_single_slash l t : Forall plain_segment l -> starts_with (str "//") (path_of l t) = false.
Proof.
  intros Hl. apply not_true_iff_false. intros [r E]%starts_with_spec. change (str "//") with [chr "/"; chr "/"] in E. unfold path_of in E.
  cbn [app] in E. injection E as E. destruct Hl as [|s l (Hs & _ & _ & Hc) Hl].
  - rewrite bool_decide_eq_true_2, andb_false_r in E by done. done.
  - destruct s as [|c s]; [done|]. destruct l; cbn [join_with app] in E; injection E as -> _; apply Hc; left.
Qed.

Lemma normalized_ok p : lacks (any_of (str "?#")) p -> lacks (any_of (str "?#")) (normalize_pathname p true) /\
  head (normalize_pathname p true) = Some (chr "/") /\ starts_with (str "//") (normalize_pathname p true) = false.
Proof.
  intros Hp. destruct (normalize_path_of p) as (l & Hl & -> & Hsub). split_and!; [|done|by apply path_of_single_slash].
  unfold path_of. constructor; [done|]. apply lacks_app. split.
  - apply Forall_forall. intros c Hc. destruct (join_elem _ _ _ Hc) as [->|(x & Hx & Hxc)]; [done|].
    apply (lacks_elem _ _ _ Hp). by eapply Hsub.
  - destruct (_ && _); repeat constructor.
Qed.

(** The path of a URL replaced. *)
Lemma with_path_ok u p q h : url_ok u -> lacks (any_of (str "?#")) p -> head p = Some (chr "/") -> starts_with (str "//") p = false ->
  begins (is_char (chr "?")) q /\ chr "#" ∉ q -> begins (is_char (chr "#")) h -> url_ok (with_pathname p (with_search q (with_hash h u))).
Proof.
  intros [Hs Hsp Ht Hr Ha] Hp Hh Hss Hq Hhash. split; [done|done|by split|done|].
  destruct Ha as [(Hau & Hok & _)|(Hna & Hns & _)]; [left|right].
  - split; [done|]. split; [by destruct Hok; split|]. cbn. destruct p as [|c p]; [done|]. injection Hh as ->. by apply Z.eqb_eq.
  - split; [exact Hna|]. by split.
Qed.

Lemma with_query_ok u q h : url_ok u -> begins (is_char (chr "?")) q /\ chr "#" ∉ q -> begins (is_char (chr "#")) h -> url_ok (with_search q (with_hash h u)).
Proof.
  intros [Hs Hsp [Hp _ _] Hr Ha] Hq Hhash. split; [done|done|by split|done|].
  destruct Ha as [(Hau & Hok & Hb)|(Hna & Hns & Hp')]; [left|right].
  - split; [done|]. split; [by destruct Hok; split|exact Hb].
  - split; [exact Hna|]. by split.
Qed.

Lemma resolve_relative_ok input base u : url_ok base -> split_scheme (trim input) = None ->
  resolve_relative (trim input) base = Ret (true, u) -> url_ok u.
Proof.
  intros Hb _. pose proof (url_ok_start _ Hb) as Hst. unfold resolve_relative. pose proof (trim_last input) as Hlast. set (rest := trim input) in *. clearbody rest.
  set (out := with_hash [] (with_search [] base)) in *. destruct (starts_with (str "//") rest) eqn:Es.
  - unfold parse_absolute. assert (Hne : rest <> []) by (by intros ->). rewrite trim_scheme, split_scheme_app by (done || by apply Hst).
    intros E. eapply (parse_with_scheme_ok rest); [|by left|exact E]. destruct Hst as [S1 [A1 A2 A3 A4] S3]. by split; [|split|].
  - intros [= <-]. pose proof (upto_lacks (is_char (chr "#")) rest) as L1%lacks_char. pose proof (from_begins (is_char (chr "#")) rest) as B1.
    set (bh := upto (is_char (chr "#")) rest) in *. set (h := from (is_char (chr "#")) rest) in *. clearbody bh h.
    pose proof (upto_lacks (is_char (chr "?")) bh) as L2%lacks_char. pose proof (from_begins (is_char (chr "?")) bh) as B2.
    assert (Lp : chr "#" ∉ upto (is_char (chr "?")) bh) by (intros Hin; apply L1; by eapply upto_elem).
    assert (Lq : chr "#" ∉ from (is_char (chr "?")) bh) by (intros Hin; apply L1; by eapply from_elem).
    set (path := upto (is_char (chr "?")) bh) in *. set (q := from (is_char (chr "?")) bh) in *. clearbody path q.
    assert (Eh : match h with [] => out | c :: l => with_hash (c :: l) out end = with_hash h (with_search [] base)) by (by destruct h).
    rewrite Eh. set (o1 := with_hash h (with_search [] base)).
    assert (Eq : match q with [] => o1 | c :: l => with_search (c :: l) o1 end = with_search q (with_hash h base)) by (by destruct q).
    rewrite Eq. clear Eh Eq o1. destruct path as [|c pt]; [by apply with_query_ok|].
    assert (Lpath : lacks (any_of (str "?#")) (c :: pt)) by (by apply lacks_two).
    destruct (c =? chr "/").
    + destruct (normalized_ok _ Lpath) as (N1 & N2 & N3). by apply with_path_ok.
    + match goal with |- url_ok (with_pathname (normalize_pathname (?d ++ _) true) _) => set (dir := d) end. assert (Ld : lacks (any_of (str "?#")) dir).
      { assert (Lpn : lacks (any_of (str "?#")) (pathname base)) by apply Hb. unfold dir. cbn [pathname with_search with_hash].
        destruct (rfind_char (chr "/") (pathname base)) as [i|]; [|by repeat constructor].
        assert (Hsub : lacks (any_of (str "?#")) (substr (pathname base) 0 (i + 1))).
        { eapply lacks_sub; [|exact Lpn]. intros x Hx. eapply infix_elem; [|exact Hx]. apply infix_substr. }
        destruct (substr (pathname base) 0 (i + 1)); [by repeat constructor|done]. }
      destruct (normalized_ok (dir ++ c :: pt)) as (N1 & N2 & N3); [by apply lacks_app|]. by apply with_path_ok.
Qed.

(** ** The theorem *)

Lemma no_url_start p : scheme_ok p -> start_ok (with_protocol p no_url).
Proof.
  intros Hp. split; [done| |done]. split; cbn.
  - split; [constructor|apply not_elem_of_nil].
  - constructor.
  - split; [constructor|]. split; [apply not_elem_of_nil|]. right. split; [done|]. split; [apply not_elem_of_nil|done].
  - split; [constructor|]. split; [apply not_elem_of_nil|by left].
Qed.

Lemma parse_absolute_ok input u : parse_absolute input no_url = Ret (true, u) -> url_ok u.
Proof.
  unfold parse_absolute. destruct (split_scheme (trim input)) as [[p rest]|] eqn:E; [|done]. apply split_scheme_ok in E.
  apply parse_with_scheme_ok; [by apply no_url_start|by right].
Qed.

Lemma parse_url_ok input base u : (forall b, base = Some b -> url_ok b) -> parse_url input base no_url = Ret (true, u) -> url_ok u.
Proof.
  intros Hb. unfold parse_url. destruct base as [b|]; [|apply parse_absolute_ok].
  destruct (split_scheme (trim input)) as [x|] eqn:E; [apply parse_absolute_ok|]. apply resolve_relative_ok; [by apply Hb|done].
Qed.

Lemma parse_tail_text rest v : search v = [] -> hash v = [] ->
  url_tail (parse_tail rest v) = rest \/ url_tail (parse_tail rest v) = chr "/" :: rest.
Proof.
  intros Hs Hh. unfold parse_tail, url_tail. set (bh := upto (is_char (chr "#")) rest).
  pose proof (upto_from (is_char (chr "#")) rest) as E1. fold bh in E1. pose proof (upto_from (is_char (chr "?")) bh) as E2.
  set (path := upto (is_char (chr "?")) bh) in *. set (q := from (is_char (chr "?")) bh) in *. set (h := from (is_char (chr "#")) rest) in *.
  clearbody bh path q h.
  assert (Eh : match h with [] => v | c :: l => with_hash (c :: l) v end = with_hash h v) by (destruct h; [destruct v; cbn in *; by subst|done]).
  rewrite Eh. set (v1 := with_hash h v).
  assert (Eq : match q with [] => v1 | c :: l => with_search (c :: l) v1 end = with_search q v1) by (destruct q; [destruct v; cbn in *; by subst|done]).
  rewrite Eq. cbn [pathname search hash with_pathname with_search with_hash v1].
  destruct (is_special _ && _); [right|left]; by rewrite <- E1, <- E2, <- ?app_assoc.
Qed.

Lemma trimmed_suffix (a b : bytes) : match last (a ++ b) with Some c => is_ws c = false | None => True end ->
  match last b with Some c => is_ws c = false | None => True end.
Proof. destruct b as [|x b _] using rev_ind; [done|]. by rewrite app_assoc, !last_snoc. Qed.

Lemma parse_host_tail authority v w : parse_host authority v = Some w -> search w = search v /\ hash w = hash v.
Proof.
  unfold parse_host. destruct authority as [|c0 h]; [by intros [= <-]|]. destruct (c0 =? chr "["), (from _ _) as [|x r]; try done; try (by intros [= <-]).
  destruct r; by intros [= <-].
Qed.

Lemma parse_userinfo_tail authority v host w : parse_userinfo authority v = (host, w) -> search w = search v /\ hash w = hash v.
Proof. unfold parse_userinfo. destruct (rfind_char _ _); [|by intros [= _ <-]]. destruct (from _ _); by intros [= _ <-]. Qed.

(** Path, query and fragment are parsed from the end of the input. *)
Lemma parse_absolute_tail input out u : search out = [] -> hash out = [] -> parse_absolute input out = Ret (true, u) ->
  exists a rest v, trim input = a ++ rest /\ u = parse_tail rest v /\ search v = [] /\ hash v = [].
Proof.
  intros So Ho. unfold parse_absolute. destruct (split_scheme (trim input)) as [[p rest]|] eqn:E; [|done]. intros Hp.
  assert (Hrest : exists a, trim input = a ++ rest).
  { unfold split_scheme in E. destruct (trim input) as [|c0 s]; [done|]. destruct (any_of _ c0); [done|].
    pose proof (upto_from (any_of (str "/?#:")) s) as Es. destruct (from _ s) as [|c r]; [done|]. destruct (_ && _); [|done].
    injection E as _ <-. exists (c0 :: upto (any_of (str "/?#:")) s ++ [c]). cbn [app]. rewrite <- app_assoc. by rewrite <- Es at 1. }
  destruct Hrest as [a Ea]. unfold parse_with_scheme in Hp. cbn [protocol with_protocol] in Hp. destruct (starts_with (str "//") rest).
  - destruct (parse_userinfo _ _) as [host u2] eqn:E2. destruct (parse_host host u2) as [u3|] eqn:E3; [|done].
    destruct (drop_default_port u3) as [u4| | |] eqn:E4; [|done..]. cbn [mbind outcome_bind] in Hp. injection Hp as <-.
    apply parse_userinfo_tail in E2 as [S2 H2]. apply parse_host_tail in E3 as [S3 H3]. destruct (drop_default_port_ok _ _ E4) as (U4 & _).
    exists (a ++ take 2 rest ++ upto (any_of (str "/?#")) (drop 2 rest)), (from (any_of (str "/?#")) (drop 2 rest)), u4. split.
    + by rewrite <- !app_assoc, upto_from, take_drop.
    + split; [done|]. rewrite U4. cbn [search hash with_host]. rewrite S3, H3, S2, H2. done.
  - destruct (is_special _); [done|]. injection Hp as <-. by eexists a, rest, _.
Qed.

Lemma special_trimmed input u : parse_url input None no_url = Ret (true, u) -> is_special u = true -> trim (serialize_url u) = serialize_url u.
Proof.
  intros Hp Hu. pose proof (parse_absolute_ok _ _ Hp) as Hok. destruct (parse_absolute_tail _ no_url _ eq_refl eq_refl Hp) as (a & b & v & Ea & Eu & Hs & Hh).
  pose proof (trim_last input) as Hl. rewrite Ea in Hl. apply trimmed_suffix in Hl.
  rewrite serialize_url_parts, Hu, orb_true_r. apply trim_scheme; [apply Hok|done|].
  assert (Hne : url_tail u <> []) by (pose proof (ok_rooted _ Hok Hu); unfold url_tail; by destruct (pathname u)).
  assert (Hlt : match last (url_tail u) with Some c => is_ws c = false | None => True end).
  { rewrite Eu. destruct (parse_tail_text b v Hs Hh) as [->| ->]; [done|]. destruct b as [|x b _] using rev_ind; [done|].
    rewrite app_comm_cons, last_snoc. by rewrite last_snoc in Hl. }
  destruct (url_tail u) as [|x t _] using rev_ind; [done|]. rewrite last_snoc in Hlt. by rewrite !app_assoc, last_snoc.
Qed.

(** C26. Parsing what was serialized.  When [new URL(input, base)] accepts, the parts are
    apart from each other (no part holds a byte that would end it), and parsing the
    serialization, without a base, yields the same parts again; always for the special
    schemes, and for the others and for references when the serialization neither begins
    nor ends with white space, which parsing strips. *)
Theorem url_reparses input base u :
  (forall b, base = Some b -> exists s, parse_url s None no_url = Ret (true, b)) ->
  parse_url input base no_url = Ret (true, u) ->
  base = None /\ is_special u = true \/ trim (serialize_url u) = serialize_url u ->
  url_ok u /\ parse_url (serialize_url u) None no_url = Ret (true, u).
Proof.
  intros Hb Hp Ht. assert (Hok : url_ok u).
  { eapply parse_url_ok; [|exact Hp]. intros b E. destruct (Hb b E) as [s Hs]. by apply parse_absolute_ok in Hs. }
  split; [done|]. apply reparse_url; [done|]. destruct Ht as [[-> Hs]|Ht]; [by eapply special_trimmed|done].
Qed.

Lemma url_reparses_witness : exists u,
  parse_url (str "../d?x#y") (Some (default no_url (match url_ctor (str "HTTPS://me:p@Host:8443/a/b/c") None with Ret o => o | _ => None end))) no_url = Ret (true, u) /\
  serialize_url u = str "https://me:p@host:8443/a/d?x#y" /\ parse_url (serialize_url u) None no_url = Ret (true, u).
Proof.
  eexists. split; [vm_compute; reflexivity|]. split; [vm_compute; reflexivity|].
  eapply (url_reparses (str "../d?x#y") (Some _)).
  - intros b [= <-]. exists (str "HTTPS://me:p@Host:8443/a/b/c"). vm_compute. reflexivity.
  - vm_compute. reflexivity.
  - right. vm_compute. reflexivity.
Defined.
