(* ===== verification/Capabilities.v ===== *)
(** Capabilities ([src/runtime/capabilities.cpp]): what the windows of the process may
    do.  Windows register policies, the bindings ask.  Also what a script passes for a
    policy ([parse_window_permissions] of [src/js/bind_window.cpp]) and how WebAuthn
    requests are held to it ([src/js/bind_webauthn.cpp]).

    The policies are a finite map; the order in which [std::unordered_map] iterates over
    it is a parameter, [iterate].  What needs the file system, resolving symbolic links
    and the current directory, is a parameter too.  Paths are POSIX paths. *)

From S2P Require Import Prelude Strings WebAuthn.

(** * Policies *)

Record webauthn_policy : Type := MkWebauthn {
  rp_ids : list bytes; attestation : bytes; user_verification : bytes; transports : list bytes; allow_virtual_authenticator : bool }.
Definition default_webauthn : webauthn_policy := MkWebauthn [] (str "none") (str "preferred") [] false.

(** [None] allows everything, an empty list nothing. *)
Record capability_set : Type := MkCaps {
  fs_allow : option (list bytes); net_allow : option (list bytes); shell_allow : option bool; native_allow : option bool;
  webauthn_allow : option webauthn_policy }.
Definition no_limits : capability_set := MkCaps None None None None None.

Definition attestation_rank (value : bytes) : Z :=
  if bool_decide (value = str "direct") then 2 else if bool_decide (value = str "indirect") then 1 else 0.
Definition attestation_name (rank : Z) : bytes :=
  if rank =? 2 then str "direct" else if rank =? 1 then str "indirect" else str "none".
Definition user_verification_rank (value : bytes) : Z :=
  if bool_decide (value = str "required") then 2 else if bool_decide (value = str "preferred") then 1
  else if bool_decide (value = str "discouraged") then 0 else 1.
Definition user_verification_name (rank : Z) : bytes :=
  if rank =? 2 then str "required" else if rank =? 1 then str "preferred" else str "discouraged".

(** * Paths: [std::filesystem] on POSIX *)

(** A name of a path: [.] and empty names go, [..] takes the name before it away, none
    is above the root. *)
Definition normal_segment (root : bool) (names : list bytes) (name : bytes) : list bytes :=
  if bool_decide (name = [] \/ name = str ".") then names
  else if bool_decide (name = str "..") then
    match last names with
    | None => if root then names else names ++ [name]
    | Some l => if bool_decide (l = str "..") then names ++ [name] else removelast names
    end
  else names ++ [name].

(** [path::lexically_normal] *)
Definition lexically_normal (p : bytes) : bytes :=
  match p with
  | [] => []
  | c :: p' =>
      let root := c =? chr "/" in
      let parts := pieces (chr "/") (if root then p' else p) in
      let names := foldl (normal_segment root) [] parts in
      let trailing := bool_decide (default [] (last parts) ∈ [[]; str "."; str ".."]) && negb (bool_decide (last names = Some (str ".."))) in
      match names with
      | [] => if root then str "/" else str "."
      | _ => (if root then str "/" else []) ++ join_with (chr "/") names ++ (if trailing then str "/" else [])
      end
  end.

Section Files.
(** [weakly_canonical] and [absolute]: [None] when they report an error. *)
Variable weakly_canonical absolute : bytes -> option bytes.

Definition canonical_path (raw : bytes) : bytes :=
  match weakly_canonical raw with
  | Some p => lexically_normal p
  | None => match absolute raw with Some p => lexically_normal p | None => lexically_normal raw end
  end.

Definition canonical_fs_allow (allow : option (list bytes)) : option (list bytes) := map canonical_path <$> allow.
Definition normalise_net_allow (allow : option (list bytes)) : option (list bytes) := map ascii_lower <$> allow.

Definition normalise_webauthn_policy (p : webauthn_policy) : webauthn_policy :=
  MkWebauthn (map ascii_lower (rp_ids p)) (attestation_name (attestation_rank (attestation p)))
    (user_verification_name (user_verification_rank (user_verification p))) (map ascii_lower (transports p)) (allow_virtual_authenticator p).

Definition normalise_policy (p : capability_set) : capability_set :=
  MkCaps (canonical_fs_allow (fs_allow p)) (normalise_net_allow (net_allow p)) (shell_allow p) (native_allow p)
    (normalise_webauthn_policy <$> webauthn_allow p).

(** * Endpoints *)

Record parsed_endpoint : Type := MkEndpoint { host : bytes; host_port : bytes }.

Definition parse_endpoint (url : bytes) : parsed_endpoint :=
  let start := match find_str (str "://") url with
               | Some scheme => scheme + 3
               | None => if starts_with (str "//") url then 2 else 0
               end in
  let authority := upto (any_of (str "/?#")) (substr_from url start) in
  let authority := match rfind_char (chr "@") authority with Some at_ => substr_from authority (at_ + 1) | None => authority end in
  let host_port := ascii_lower authority in
  let host :=
    match host_port with
    | [] => host_port
    | c :: _ =>
        if c =? chr "[" then
          match from (is_char (chr "]")) host_port with [] => host_port | _ => upto (is_char (chr "]")) host_port ++ str "]" end
        else upto (is_char (chr ":")) host_port
    end in
  MkEndpoint host host_port.

Definition entry_has_port (entry : bytes) : bool :=
  match entry with
  | [] => false
  | c :: _ =>
      if c =? chr "[" then match from (is_char (chr "]")) entry with _ :: x :: _ => x =? chr ":" | _ => false end
      else bool_decide (chr ":" ∈ entry)
  end.

(** * What one policy allows *)

Definition fs_policy_allows (p : capability_set) (canonical : bytes) : bool :=
  match fs_allow p with None => true | Some l => existsb (fun prefix => starts_with prefix canonical) l end.

Definition net_policy_allows (p : capability_set) (e : parsed_endpoint) : bool :=
  match net_allow p with
  | None => true
  | Some l => existsb (fun entry => bool_decide (entry = if entry_has_port entry then host_port e else host e)) l
  end.

Definition switch_allows (s : option bool) : bool := match s with Some b => b | None => true end.

Definition webauthn_policy_matches (p : webauthn_policy) (rp_id : bytes) : bool :=
  allow_virtual_authenticator p && is_nil (rp_ids p) || existsb (fun allowed => bool_decide (allowed = rp_id)) (rp_ids p).

(** * The registry *)

Definition policies : Type := gmap Z capability_set.

Definition register_window_capabilities (window_id : Z) (p : capability_set) (g : policies) : policies := <[window_id := normalise_policy p]> g.
Definition unregister_window_capabilities (window_id : Z) (g : policies) : policies := delete window_id g.

Inductive window_op : Type := Register (id : Z) (p : capability_set) | Unregister (id : Z).
Definition apply_window_op (g : policies) (o : window_op) : policies :=
  match o with Register id p => register_window_capabilities id p g | Unregister id => unregister_window_capabilities id g end.

(** The order of iteration. *)
Variable iterate : policies -> list (Z * capability_set).

(** Every decision: anything without policies, otherwise what one of them allows. *)
Definition any_policy (allows : capability_set -> bool) (g : policies) : bool :=
  bool_decide (g = ∅) || existsb (fun entry => allows entry.2) (iterate g).

Definition fs_path_allowed (path : bytes) (g : policies) : bool := any_policy (fun p => fs_policy_allows p (canonical_path path)) g.
Definition net_host_allowed (url : bytes) (g : policies) : bool := any_policy (fun p => net_policy_allows p (parse_endpoint url)) g.
Definition shell_allowed (g : policies) : bool := any_policy (fun p => switch_allows (shell_allow p)) g.
Definition native_allowed (g : policies) : bool := any_policy (fun p => switch_allows (native_allow p)) g.

(** [std::unique] *)
Fixpoint unique (l : list bytes) : list bytes :=
  match l with
  | x :: l' => match l' with y :: _ => if bool_decide (x = y) then unique l' else x :: unique l' | [] => [x] end
  | [] => []
  end.

Definition merge_webauthn (rp_id : bytes) (merged : option webauthn_policy) (p : capability_set) : option webauthn_policy :=
  match webauthn_allow p with
  | None => merged
  | Some w =>
      if negb (webauthn_policy_matches w rp_id) then merged
      else
        Some match merged with
             | None => MkWebauthn [rp_id] (attestation w) (user_verification w) (transports w) (allow_virtual_authenticator w)
             | Some m =>
                 MkWebauthn (rp_ids m)
                   (attestation_name (Z.max (attestation_rank (attestation m)) (attestation_rank (attestation w))))
                   (user_verification_name (Z.max (user_verification_rank (user_verification m)) (user_verification_rank (user_verification w))))
                   (unique (stable_sort bytes_lt (transports m ++ transports w)))
                   (allow_virtual_authenticator m || allow_virtual_authenticator w)
             end
  end.

(** [None]: not allowed. *)
Definition webauthn_allowed (rp_id : bytes) (g : policies) : option webauthn_policy :=
  foldl (merge_webauthn (ascii_lower rp_id)) None (map snd (iterate g)).

(** * WebAuthn requests *)

(** The ranks of [bind_webauthn.cpp]: an unknown user verification is the lowest there. *)
Definition asked_verification_rank (value : bytes) : Z :=
  if bool_decide (value = str "required") then 2 else if bool_decide (value = str "preferred") then 1 else 0.

Definition clamp_attestation (p : webauthn_policy) (value : bytes) : bytes :=
  if negb (is_nil value) && (attestation_rank (attestation p) <? attestation_rank value)
  then attestation_name (attestation_rank (attestation p)) else value.
Definition clamp_verification (p : webauthn_policy) (value : bytes) : bytes :=
  if negb (is_nil value) && (asked_verification_rank (user_verification p) <? asked_verification_rank value)
  then user_verification_name (asked_verification_rank (user_verification p)) else value.

Definition clamp_creation (p : webauthn_policy) (c : creation_options) : creation_options :=
  MkCreation (c_rp_id c) (c_rp_name c) (c_user c) (c_challenge c) (c_pub_key_params c) (c_exclude_credentials c)
    (c_authenticator_attachment c) (clamp_verification p (c_user_verification c)) (c_resident_key c)
    (clamp_attestation p (c_attestation c)) (c_timeout_ms c).

(** Whether an authenticator is asked, and for what; [true] for the virtual one. *)
Definition gate_creation (platform : bool) (c : creation_options) (g : policies) : option (bool * creation_options) :=
  if is_nil (c_pub_key_params c) then None
  else
    match webauthn_allowed (c_rp_id c) g with
    | None => None
    | Some p =>
        let c := clamp_creation p c in
        if negb (bool_decide (validate_creation_options c = ""%string)) then None
        else if allow_virtual_authenticator p then Some (true, c)
        else if platform then Some (false, c) else None
    end.

Definition clamp_request (p : webauthn_policy) (r : request_options) : request_options :=
  MkRequest (r_rp_id r) (r_challenge r) (r_allow_credentials r) (clamp_verification p (r_user_verification r)) (r_timeout_ms r).

Definition gate_request (platform : bool) (r : request_options) (g : policies) : option (bool * request_options) :=
  match webauthn_allowed (r_rp_id r) g with
  | None => None
  | Some p =>
      let r := clamp_request p r in
      if negb (bool_decide (validate_request_options r = ""%string)) then None
      else if allow_virtual_authenticator p then Some (true, r)
      else if platform then Some (false, r) else None
  end.
End Files.

(** * What scripts pass *)

(** The kinds of values the parser tells apart. *)
Inductive js_value : Type :=
| J_undefined | J_null | J_bool (b : bool) | J_string (s : bytes) | J_array (l : list js_value) | J_object (fields : list (bytes * js_value)) | J_other.

(** A property that is not there reads as [undefined]. *)
Definition prop (key : string) (fields : list (bytes * js_value)) : js_value := default J_undefined (lookup_name (str key) fields).

(** [None]: a [TypeError] was thrown. *)
Fixpoint read_strings (l : list js_value) : option (list bytes) :=
  match l with
  | [] => Some []
  | J_string s :: l' => cons s <$> read_strings l'
  | _ :: _ => None
  end.
Definition read_string_array (v : js_value) : option (list bytes) := match v with J_array l => read_strings l | _ => None end.

Definition parse_string_allowlist (v : js_value) : option (option (list bytes)) :=
  match v with
  | J_undefined => Some None
  | J_bool b => Some (if b then None else Some [])
  | _ => Some <$> read_string_array v
  end.
Definition parse_boolean_allow (v : js_value) : option (option bool) :=
  match v with J_undefined => Some None | J_bool b => Some (if b then None else Some false) | _ => None end.

Definition string_field (v : js_value) (initial : bytes) (ok : bytes -> bool) : option bytes :=
  match v with J_undefined => Some initial | J_string s => if ok s then Some s else None | _ => None end.

Definition is_webauthn_attestation_value (v : bytes) : bool := one_of v [str "none"; str "indirect"; str "direct"].
Definition is_webauthn_user_verification_value (v : bytes) : bool := one_of v [str "discouraged"; str "preferred"; str "required"].

Definition parse_webauthn_permissions (v : js_value) : option (option webauthn_policy) :=
  match v with
  | J_undefined => Some None
  | J_bool b => Some (if b then Some (MkWebauthn [] (str "none") (str "preferred") [] true) else None)
  | J_object o =>
      ids ← read_string_array (prop "rpIds" o);
      att ← string_field (prop "attestation" o) (attestation default_webauthn) is_webauthn_attestation_value;
      uv ← string_field (prop "userVerification" o) (user_verification default_webauthn) is_webauthn_user_verification_value;
      ts ← match prop "transports" o with J_undefined => Some [] | t => read_string_array t end;
      virtual ← match prop "allowVirtualAuthenticator" o with J_undefined => Some false | J_bool b => Some b | _ => None end;
      if is_nil ids && negb virtual then None else Some (Some (MkWebauthn ids att uv ts virtual))
  | J_array _ => None
  | _ => None
  end.

Definition parse_window_permissions (v : js_value) : option capability_set :=
  match v with
  | J_undefined | J_null => Some no_limits
  | J_object o =>
      fs ← parse_string_allowlist (prop "fs" o);
      net ← parse_string_allowlist (prop "net" o);
      shell ← parse_boolean_allow (prop "shell" o);
      native ← parse_boolean_allow (prop "native" o);
      webauthn ← parse_webauthn_permissions (prop "webauthn" o);
      Some (MkCaps fs net shell native webauthn)
  | J_array _ => Some no_limits
  | _ => None
  end.
