(* ===== verification/CapabilitiesFacts.v ===== *)
(** Capabilities: every decision is about what some window's policy allows, whatever the
    order of iteration; the host a network decision is about is the host [URL] parses;
    paths are compared name by name below a prefix that ends in a slash; WebAuthn
    requests are held to what matching policies name, in the order of WebAuthn; what
    modelling showed. *)

From S2P Require Import Prelude Strings WebAuthn Url UrlFacts Capabilities.

(** * Sorted lists without repetitions *)

Definition strictly_sorted (l : list bytes) : Prop := StronglySorted (fun a b => bytes_lt a b = true) l.
Definition sorted_set (l : list bytes) : list bytes := unique (stable_sort bytes_lt l).

Lemma unique_elem x l : x ∈ unique l <-> x ∈ l.
Proof.
  induction l as [|y l IH]; [done|]. cbn [unique]. destruct l as [|z l]; [done|]. case_bool_decide as E.
  - rewrite IH. subst z. rewrite !elem_of_cons. tauto.
  - rewrite !(elem_of_cons _ x y), IH. done.
Qed.

Lemma bytes_lt_neg_trans a b c : bytes_lt b a = false -> bytes_lt c b = false -> bytes_lt c a = false.
Proof.
  intros H1 H2. destruct (bytes_lt c a) eqn:E; [|done]. destruct (bytes_lt a b) eqn:E1.
  - by rewrite (bytes_lt_trans _ _ _ E E1) in H2.
  - by rewrite (bytes_lt_total _ _ E1 H1), H2 in E.
Qed.

Lemma unique_sorted l : StronglySorted (not_less bytes_lt) l -> strictly_sorted (unique l).
Proof.
  unfold strictly_sorted. induction 1 as [|x l Hl IH Hx]; [constructor|]. cbn [unique]. destruct l as [|y l]; [repeat constructor|].
  case_bool_decide as E; [done|]. constructor; [done|]. apply Forall_forall. intros z Hz. rewrite unique_elem in Hz.
  apply Forall_cons in Hx as [Hy _]. assert (Hxy : bytes_lt x y = true).
  { destruct (bytes_lt x y) eqn:F; [done|]. exfalso. apply E. by apply bytes_lt_total. }
  apply elem_of_cons in Hz as [->|Hz]; [done|]. apply StronglySorted_inv in Hl as [_ Hl]. rewrite Forall_forall in Hl. specialize (Hl z Hz).
  unfold not_less in Hl. destruct (bytes_lt x z) eqn:F; [done|]. by rewrite (bytes_lt_neg_trans _ _ _ Hl F) in Hxy.
Qed.

Lemma sorted_set_sorted l : strictly_sorted (sorted_set l).
Proof. apply unique_sorted, stable_sort_sorted; [apply bytes_lt_asym|apply bytes_lt_neg_trans]. Qed.

Lemma sorted_set_elem x l : x ∈ sorted_set l <-> x ∈ l.
Proof. unfold sorted_set. rewrite unique_elem. by rewrite (stable_sort_perm bytes_lt l). Qed.

Lemma strictly_sorted_ext l1 l2 : strictly_sorted l1 -> strictly_sorted l2 -> (forall x, x ∈ l1 <-> x ∈ l2) -> l1 = l2.
Proof.
  unfold strictly_sorted. intros H1. revert l2. induction H1 as [|x l1 H1 IH Hx]; intros l2 H2 He.
  - destruct l2 as [|y l2]; [done|]. exfalso. apply (not_elem_of_nil y). apply He. left.
  - destruct H2 as [|y l2 H2 Hy]; [exfalso; apply (not_elem_of_nil x), He; left|]. rewrite Forall_forall in Hx, Hy.
    assert (x = y) as ->.
    { pose proof (proj1 (He x) ltac:(left)) as [|Hx2]%elem_of_cons; [done|]. pose proof (proj2 (He y) ltac:(left)) as [|Hy1]%elem_of_cons; [done|].
      specialize (Hx _ Hy1). specialize (Hy _ Hx2). cbn in Hx, Hy. by rewrite (bytes_lt_asym _ _ Hx) in Hy. }
    f_equal. apply IH; [done|]. intros z. specialize (He z). rewrite !elem_of_cons in He. split; intros Hz.
    + destruct (proj1 He (or_intror Hz)) as [->|?]; [|done]. specialize (Hx _ Hz). cbn in Hx. by rewrite bytes_lt_irrefl in Hx.
    + destruct (proj2 He (or_intror Hz)) as [->|?]; [|done]. specialize (Hy _ Hz). cbn in Hy. by rewrite bytes_lt_irrefl in Hy.
Qed.

Lemma sorted_set_ext a b : (forall x, x ∈ a <-> x ∈ b) -> sorted_set a = sorted_set b.
Proof. intros H. apply strictly_sorted_ext; [apply sorted_set_sorted..|]. intros x. by rewrite !sorted_set_elem. Qed.

(** * Merging *)

Definition best (rank : bytes -> Z) (l : list bytes) : Z := foldr (fun v r => Z.max (rank v) r) 0 l.

Lemma best_app rank l1 l2 : (forall v, 0 <= rank v) -> best rank (l1 ++ l2) = Z.max (best rank l1) (best rank l2).
Proof.
  intros Hr. unfold best. induction l1 as [|v l1 IH]; cbn [app foldr]; [|by rewrite IH, Z.max_assoc].
  assert (0 <= foldr (fun v r => Z.max (rank v) r) 0 l2); [|lia]. clear -Hr. induction l2 as [|v l2 IH]; cbn [foldr]; [lia|]. specialize (Hr v). lia.
Qed.

#[export] Instance best_perm rank : Proper ((≡ₚ) ==> eq) (best rank).
Proof. intros l1 l2 H. unfold best. induction H; cbn [foldr]; lia. Qed.

Lemma best_spec rank l : (forall v, 0 <= rank v) -> l <> [] -> (exists v, v ∈ l /\ rank v = best rank l) /\ forall v, v ∈ l -> rank v <= best rank l.
Proof.
  intros Hr Hne. unfold best. induction l as [|v l IH]; [done|]. cbn [foldr]. destruct l as [|v' l].
  - cbn [foldr]. specialize (Hr v). split; [exists v; split; [left|lia]|]. intros w ->%list_elem_of_singleton. lia.
  - destruct IH as [(w & Hw & Ew) Hmax]; [done|]. set (r := foldr _ 0 (v' :: l)) in *. clearbody r. split.
    + destruct (Z.max_spec (rank v) r) as [[? ->]|[? ->]]; [exists w; split; [by right|done]|exists v; split; [left|done]].
    + intros x [->|Hx]%elem_of_cons; [lia|]. specialize (Hmax x Hx). lia.
Qed.

Lemma attestation_rank_bound v : 0 <= attestation_rank v <= 2.
Proof. unfold attestation_rank. repeat case_bool_decide; lia. Qed.
Lemma user_verification_rank_bound v : 0 <= user_verification_rank v <= 2.
Proof. unfold user_verification_rank. repeat case_bool_decide; lia. Qed.

Lemma rank_cases r (P : Z -> Prop) : 0 <= r <= 2 -> P 0 -> P 1 -> P 2 -> P r.
Proof. intros Hr H0 H1 H2. assert (r = 0 \/ r = 1 \/ r = 2) as [->|[->| ->]] by lia; done. Qed.

Lemma attestation_rank_name r : 0 <= r <= 2 -> attestation_rank (attestation_name r) = r.
Proof. intros Hr. by apply (rank_cases r (fun r => attestation_rank (attestation_name r) = r)). Qed.
Lemma user_verification_rank_name r : 0 <= r <= 2 -> user_verification_rank (user_verification_name r) = r.
Proof. intros Hr. by apply (rank_cases r (fun r => user_verification_rank (user_verification_name r) = r)). Qed.
Lemma asked_rank_name r : 0 <= r <= 2 -> asked_verification_rank (user_verification_name r) = r.
Proof. intros Hr. by apply (rank_cases r (fun r => asked_verification_rank (user_verification_name r) = r)). Qed.

(** The policies that match an identifier. *)
Definition matching (rp_id : bytes) (l : list capability_set) : list webauthn_policy :=
  omap (fun p => w ← webauthn_allow p; if webauthn_policy_matches w rp_id then Some w else None) l.

(** What some matching policies allow together. *)
Definition merged_policy (rp_id : bytes) (ws : list webauthn_policy) : webauthn_policy :=
  match ws with
  | [w] => MkWebauthn [rp_id] (attestation w) (user_verification w) (transports w) (allow_virtual_authenticator w)
  | _ =>
      MkWebauthn [rp_id] (attestation_name (best attestation_rank (map attestation ws)))
        (user_verification_name (best user_verification_rank (map user_verification ws)))
        (sorted_set (concat (map transports ws))) (existsb allow_virtual_authenticator ws)
  end.

Lemma best_bound rank l : (forall v, 0 <= rank v <= 2) -> 0 <= best rank l <= 2.
Proof. intros Hr. unfold best. induction l as [|v l IH]; cbn [foldr]; [lia|]. specialize (Hr v). lia. Qed.

Lemma concat_elem {A} (x : A) (ls : list (list A)) : x ∈ concat ls <-> exists l, l ∈ ls /\ x ∈ l.
Proof.
  induction ls as [|l ls IH]; cbn [concat].
  - split; [intros H; by apply not_elem_of_nil in H|intros (l & H & _); by apply not_elem_of_nil in H].
  - rewrite elem_of_app, IH. split.
    + intros [H|(l' & H1 & H2)]; [exists l; split; [left|done]|exists l'; split; [by right|done]].
    + intros (l' & [->|H1]%elem_of_cons & H2); [by left|right; by exists l'].
Qed.

Record merges (rp_id : bytes) (ws : list webauthn_policy) (m : webauthn_policy) : Prop := {
  merged_ids : rp_ids m = [rp_id];
  merged_attestation : attestation_rank (attestation m) = best attestation_rank (map attestation ws);
  merged_verification : user_verification_rank (user_verification m) = best user_verification_rank (map user_verification ws);
  merged_transports : forall t, t ∈ transports m <-> exists w, w ∈ ws /\ t ∈ transports w;
  merged_virtual : allow_virtual_authenticator m = existsb allow_virtual_authenticator ws }.

Lemma merged_policy_merges rp_id ws : ws <> [] -> merges rp_id ws (merged_policy rp_id ws).
Proof.
  intros Hne. destruct ws as [|w [|w2 ws]]; [done| |].
  - pose proof (attestation_rank_bound (attestation w)). pose proof (user_verification_rank_bound (user_verification w)).
    split; cbn [merged_policy rp_ids attestation user_verification transports allow_virtual_authenticator map existsb]; [done|cbn; lia|cbn; lia| |by rewrite orb_false_r].
    intros t. split; [intros Ht; exists w; split; [left|done]|]. by intros (w' & ->%list_elem_of_singleton & Ht).
  - set (l := w :: w2 :: ws).
    change (merged_policy rp_id l) with (MkWebauthn [rp_id] (attestation_name (best attestation_rank (map attestation l)))
      (user_verification_name (best user_verification_rank (map user_verification l)))
      (sorted_set (concat (map transports l))) (existsb allow_virtual_authenticator l)). split; cbn [rp_ids attestation user_verification transports allow_virtual_authenticator].
    + done.
    + apply attestation_rank_name, best_bound, attestation_rank_bound.
    + apply user_verification_rank_name, best_bound, user_verification_rank_bound.
    + intros t. rewrite sorted_set_elem, concat_elem. split.
      * intros (x & (w' & -> & Hw)%list_elem_of_fmap & Ht). by exists w'.
      * intros (w' & Hw & Ht). exists (transports w'). split; [|done]. apply list_elem_of_fmap. by exists w'.
    + done.
Qed.

Definition matches (rp_id : bytes) (p : capability_set) : list webauthn_policy :=
  match webauthn_allow p with Some w => if webauthn_policy_matches w rp_id then [w] else [] | None => [] end.

Lemma matching_cons rp_id p l : matching rp_id (p :: l) = matches rp_id p ++ matching rp_id l.
Proof. unfold matching, matches. cbn [omap list_omap]. destruct (webauthn_allow p) as [w|]; [|done]. cbn. by destruct (webauthn_policy_matches w rp_id). Qed.

Lemma merge_step rp_id ws p : ws <> [] -> merge_webauthn rp_id (Some (merged_policy rp_id ws)) p = Some (merged_policy rp_id (ws ++ matches rp_id p)).
Proof.
  intros Hne. unfold merge_webauthn, matches. destruct (webauthn_allow p) as [w|]; [|by rewrite app_nil_r].
  destruct (webauthn_policy_matches w rp_id); cbn [negb]; [|by rewrite app_nil_r].
  pose proof (merged_policy_merges rp_id ws Hne) as [M1 M2 M3 M4 M5]. set (m := merged_policy rp_id ws) in *. clearbody m.
  assert (E : merged_policy rp_id (ws ++ [w]) = MkWebauthn [rp_id] (attestation_name (best attestation_rank (map attestation (ws ++ [w]))))
      (user_verification_name (best user_verification_rank (map user_verification (ws ++ [w]))))
      (sorted_set (concat (map transports (ws ++ [w])))) (existsb allow_virtual_authenticator (ws ++ [w]))) by (by destruct ws as [|? [|? ?]]).
  rewrite E, M1, M2, M3, M5, !map_app, !best_app by (intros; first [apply attestation_rank_bound | apply user_verification_rank_bound]).
  pose proof (attestation_rank_bound (attestation w)). pose proof (user_verification_rank_bound (user_verification w)). cbn [map best foldr].
  f_equal. f_equal; [f_equal; lia|f_equal; lia| |by rewrite existsb_app; cbn [existsb]; rewrite orb_false_r].
  apply sorted_set_ext. intros t. rewrite elem_of_app, M4, concat_app, elem_of_app, concat_elem. cbn [concat]. rewrite app_nil_r. split.
  - intros [(w' & Hw & Ht)|Ht]; [left; exists (transports w'); split; [apply list_elem_of_fmap; by exists w'|done]|by right].
  - intros [(x & (w' & -> & Hw)%list_elem_of_fmap & Ht)|Ht]; [left; by exists w'|by right].
Qed.

Lemma merge_all rp_id l : forall ws, ws <> [] ->
  foldl (merge_webauthn rp_id) (Some (merged_policy rp_id ws)) l = Some (merged_policy rp_id (ws ++ matching rp_id l)).
Proof.
  induction l as [|p l IH]; intros ws Hne; [by rewrite app_nil_r|]. cbn [foldl]. rewrite merge_step, IH by (by destruct ws).
  by rewrite matching_cons, app_assoc.
Qed.

Lemma merge_webauthn_all rp_id l :
  foldl (merge_webauthn rp_id) None l = match matching rp_id l with [] => None | ws => Some (merged_policy rp_id ws) end.
Proof.
  induction l as [|p l IH]; [done|]. cbn [foldl]. rewrite matching_cons. unfold merge_webauthn at 2, matches. destruct (webauthn_allow p) as [w|]; [|done].
  destruct (webauthn_policy_matches w rp_id); cbn [negb]; [|done]. cbn [app]. apply (merge_all rp_id l [w]). done.
Qed.

Lemma existsb_perm {A} (f : A -> bool) l1 l2 : l1 ≡ₚ l2 -> existsb f l1 = existsb f l2.
Proof. induction 1 as [|x l1 l2 _ IH|x y l|l1 l2 l3 _ IH1 _ IH2]; cbn [existsb]; [done|by rewrite IH|by destruct (f x), (f y)|congruence]. Qed.

#[export] Instance merged_policy_perm rp_id : Proper ((≡ₚ) ==> eq) (merged_policy rp_id).
Proof.
  intros ws1 ws2 H. destruct ws1 as [|w1 [|w2 ws1]].
  - apply Permutation_nil_l in H. by subst.
  - apply Permutation_singleton_l in H. by subst.
  - destruct ws2 as [|v1 [|v2 ws2]]; [by apply Permutation_nil_r in H|by apply Permutation_singleton_r in H|].
    set (l1 := w1 :: w2 :: ws1) in *. set (l2 := v1 :: v2 :: ws2) in *.
    assert (E : forall l w w' ws, l = w :: w' :: ws -> merged_policy rp_id l = MkWebauthn [rp_id] (attestation_name (best attestation_rank (map attestation l)))
      (user_verification_name (best user_verification_rank (map user_verification l)))
      (sorted_set (concat (map transports l))) (existsb allow_virtual_authenticator l)) by (by intros ? ? ? ? ->).
    rewrite (E l1 _ _ _ eq_refl), (E l2 _ _ _ eq_refl). f_equal.
    + by rewrite (Permutation_map attestation H).
    + by rewrite (Permutation_map user_verification H).
    + apply sorted_set_ext. intros t. rewrite !concat_elem. split; intros (x & (w & -> & Hw)%list_elem_of_fmap & Ht);
        (exists (transports w); split; [|done]; apply list_elem_of_fmap; exists w; split; [done|]); [by rewrite <- H|by rewrite H].
    + by apply existsb_perm.
Qed.

(** * Decisions *)

Section Decisions.
Variable iterate : policies -> list (Z * capability_set).
(** Iterating over an unordered map visits each entry once, in some order. *)
Hypothesis iterate_all : forall g, iterate g ≡ₚ map_to_list g.

Lemma iterate_elem g id p : (id, p) ∈ iterate g <-> g !! id = Some p.
Proof. rewrite iterate_all. apply elem_of_map_to_list. Qed.

Lemma any_policy_spec allows g : any_policy iterate allows g = true <-> g = ∅ \/ exists id p, g !! id = Some p /\ allows p = true.
Proof.
  unfold any_policy. rewrite orb_true_iff, bool_decide_eq_true, existsb_exists. split; (intros [H|H]; [by left|right]).
  - destruct H as ([id p] & Hin%list_elem_of_In & Ha). apply iterate_elem in Hin. by exists id, p.
  - destruct H as (id & p & Hin & Ha). exists (id, p). split; [by apply list_elem_of_In, iterate_elem|done].
Qed.

Lemma matching_elem rp_id g w : w ∈ matching rp_id (map snd (iterate g)) <->
  exists id p, g !! id = Some p /\ webauthn_allow p = Some w /\ webauthn_policy_matches w rp_id = true.
Proof.
  unfold matching. rewrite list_elem_of_omap. split.
  - intros (p & ([id p'] & -> & Hin)%list_elem_of_fmap & E). apply iterate_elem in Hin. exists id, p'. split; [done|]. cbn [snd] in E.
    destruct (webauthn_allow p') as [w'|]; [|done]. cbn in E. destruct (webauthn_policy_matches w' rp_id) eqn:Em; [|done]. by injection E as ->.
  - intros (id & p & Hin & E & Em). exists p. split; [apply list_elem_of_fmap; exists (id, p); split; [done|by apply iterate_elem]|].
    rewrite E. cbn. by rewrite Em.
Qed.

Lemma webauthn_allowed_matching rp_id g : webauthn_allowed iterate rp_id g =
  match matching (ascii_lower rp_id) (map snd (iterate g)) with [] => None | ws => Some (merged_policy (ascii_lower rp_id) ws) end.
Proof. apply merge_webauthn_all. Qed.

(** A window whose policy lets an identifier through. *)
Definition lets_through (rp_id : bytes) (g : policies) (w : webauthn_policy) : Prop :=
  exists id p, g !! id = Some p /\ webauthn_allow p = Some w /\ webauthn_policy_matches w (ascii_lower rp_id) = true.

Lemma webauthn_allowed_Some rp_id g m : webauthn_allowed iterate rp_id g = Some m ->
  (exists w, lets_through rp_id g w /\ attestation_rank (attestation w) = attestation_rank (attestation m)) /\
  (exists w, lets_through rp_id g w /\ user_verification_rank (user_verification w) = user_verification_rank (user_verification m)) /\
  (forall w, lets_through rp_id g w -> attestation_rank (attestation w) <= attestation_rank (attestation m) /\
    user_verification_rank (user_verification w) <= user_verification_rank (user_verification m)) /\
  rp_ids m = [ascii_lower rp_id] /\
  (forall t, t ∈ transports m <-> exists w, lets_through rp_id g w /\ t ∈ transports w) /\
  (allow_virtual_authenticator m = true <-> exists w, lets_through rp_id g w /\ allow_virtual_authenticator w = true).
Proof.
  rewrite webauthn_allowed_matching. set (ws := matching _ _). assert (Hw : forall w, w ∈ ws <-> lets_through rp_id g w) by (intros w; apply matching_elem).
  clearbody ws. intros E. assert (Hm : ws <> [] /\ m = merged_policy (ascii_lower rp_id) ws) by (destruct ws; [done|by injection E as <-]).
  destruct Hm as [Hne ->]. destruct (merged_policy_merges (ascii_lower rp_id) ws Hne) as [M1 M2 M3 M4 M5]. rewrite M2, M3.
  assert (Hne1 : map attestation ws <> []) by (by destruct ws). assert (Hne2 : map user_verification ws <> []) by (by destruct ws).
  destruct (best_spec attestation_rank _ (fun v => proj1 (attestation_rank_bound v)) Hne1) as [(a & (wa & -> & Hwa)%list_elem_of_fmap & Ea) Hamax].
  destruct (best_spec user_verification_rank _ (fun v => proj1 (user_verification_rank_bound v)) Hne2) as [(u & (wu & -> & Hwu)%list_elem_of_fmap & Eu) Humax].
  split; [exists wa; by rewrite <- Hw|]. split; [exists wu; by rewrite <- Hw|]. split.
  - intros w Hl%Hw. split; [apply Hamax|apply Humax]; apply list_elem_of_fmap; by exists w.
  - split; [done|]. split.
    + intros t. rewrite M4. by setoid_rewrite Hw.
    + rewrite M5, existsb_exists. setoid_rewrite <- list_elem_of_In. by setoid_rewrite Hw.
Qed.

Lemma webauthn_allowed_None rp_id g : webauthn_allowed iterate rp_id g = None <-> forall w, ~ lets_through rp_id g w.
Proof.
  rewrite webauthn_allowed_matching. set (ws := matching _ _). assert (Hw : forall w, w ∈ ws <-> lets_through rp_id g w) by (intros w; apply matching_elem).
  clearbody ws. destruct ws as [|w ws].
  - split; [|done]. intros _ w Hl%Hw. by apply not_elem_of_nil in Hl.
  - split; [done|]. intros H. exfalso. apply (H w), Hw. left.
Qed.
End Decisions.

(** What the process may do is what its windows may do, and nothing else.  Whatever
    order the registry is iterated in, a file, network, shell or native access is let
    through exactly when no window has registered or some registered window's policy
    allows it; WebAuthn is granted for an identifier exactly when a window's policy
    matches it, with the highest attestation and user verification any matching policy
    names, the transports of all of them, and the virtual authenticator if one has it;
    two orders of iteration give the same answers. *)
Lemma decisions_are_any_window iterate iterate' wc ab path address rp_id g :
  (forall g, iterate g ≡ₚ map_to_list g) -> (forall g, iterate' g ≡ₚ map_to_list g) ->
  let some_window allows := g = ∅ \/ exists id p, g !! id = Some p /\ allows p = true in
  (fs_path_allowed wc ab iterate path g = true <-> some_window (fun p => fs_policy_allows p (canonical_path wc ab path))) /\
  (net_host_allowed iterate address g = true <-> some_window (fun p => net_policy_allows p (parse_endpoint address))) /\
  (shell_allowed iterate g = true <-> some_window (fun p => switch_allows (shell_allow p))) /\
  (native_allowed iterate g = true <-> some_window (fun p => switch_allows (native_allow p))) /\
  match webauthn_allowed iterate rp_id g with
  | None => forall w, ~ lets_through rp_id g w
  | Some m =>
      rp_ids m = [ascii_lower rp_id] /\ (exists w, lets_through rp_id g w /\ attestation_rank (attestation w) = attestation_rank (attestation m)) /\
      (forall w, lets_through rp_id g w -> attestation_rank (attestation w) <= attestation_rank (attestation m) /\
        user_verification_rank (user_verification w) <= user_verification_rank (user_verification m)) /\
      (forall t, t ∈ transports m <-> exists w, lets_through rp_id g w /\ t ∈ transports w) /\
      (allow_virtual_authenticator m = true <-> exists w, lets_through rp_id g w /\ allow_virtual_authenticator w = true)
  end /\
  webauthn_allowed iterate rp_id g = webauthn_allowed iterate' rp_id g.
Proof.
  intros H1 H2 some_window. do 4 (split; [by apply any_policy_spec|]). split.
  - destruct (webauthn_allowed iterate rp_id g) as [m|] eqn:E; [|by apply (webauthn_allowed_None iterate)].
    destruct (webauthn_allowed_Some iterate H1 _ _ _ E) as (A & _ & B & C & D & F). exact (conj C (conj A (conj B (conj D F)))).
  - rewrite !webauthn_allowed_matching. assert (Hp : matching (ascii_lower rp_id) (map snd (iterate g)) ≡ₚ matching (ascii_lower rp_id) (map snd (iterate' g))).
    { unfold matching. by rewrite H1, H2. }
    pose proof (merged_policy_perm (ascii_lower rp_id) _ _ Hp) as E. destruct (matching _ (map snd (iterate g))) as [|w ws].
    + apply Permutation_nil_l in Hp. by rewrite <- Hp.
    + destruct (matching _ (map snd (iterate' g))); [by apply Permutation_nil_r in Hp|]. by rewrite E.
Qed.

Lemma decisions_are_any_window_witness :
  let w t := MkCaps None None None None (Some (MkWebauthn [str "a.example"] (str "direct") (str "required") [str t] false)) in
  let g : policies := {[ 1 := w "usb"%string; 2 := w "nfc"%string ]} in
  webauthn_allowed map_to_list (str "A.example") g = webauthn_allowed (fun g => reverse (map_to_list g)) (str "A.example") g.
Proof.
  intros w g. edestruct (decisions_are_any_window map_to_list (fun g => reverse (map_to_list g)) Some Some [] [] (str "A.example") g)
    as (_ & _ & _ & _ & _ & E); [done|intros g'; apply reverse_Permutation|exact E].
Defined.

(** * WebAuthn requests *)

Lemma asked_rank_le p value : asked_verification_rank (clamp_verification p value) <= asked_verification_rank (user_verification p) \/ value = [].
Proof.
  unfold clamp_verification. destruct (is_nil value) eqn:E; [right; by destruct value|left]. cbn [negb andb].
  destruct (Z.ltb_spec (asked_verification_rank (user_verification p)) (asked_verification_rank value)); [|lia].
  rewrite asked_rank_name; [lia|]. unfold asked_verification_rank. repeat case_bool_decide; lia.
Qed.

Lemma clamped_attestation_le p value : attestation_rank (clamp_attestation p value) <= attestation_rank (attestation p).
Proof.
  unfold clamp_attestation. destruct (is_nil value) eqn:E.
  - destruct value; [|done]. cbn [negb andb]. pose proof (attestation_rank_bound (attestation p)). change (attestation_rank []) with 0. lia.
  - cbn [negb andb]. destruct (Z.ltb_spec (attestation_rank (attestation p)) (attestation_rank value)); [|lia].
    rewrite attestation_rank_name; [lia|apply attestation_rank_bound].
Qed.

Lemma asked_rank_below v : asked_verification_rank v <= user_verification_rank v.
Proof. unfold asked_verification_rank, user_verification_rank. repeat case_bool_decide; lia. Qed.

(** How much is asked, from the weakest to the strongest, as WebAuthn orders it.  This is
    not the rank of the code, which has no place for [enterprise]. *)
Definition attestation_levels : list bytes := [str "none"; str "indirect"; str "direct"; str "enterprise"].
Definition verification_levels : list bytes := [str "discouraged"; str "preferred"; str "required"].

Definition at_most (levels : list bytes) (v w : bytes) : Prop := exists i j, levels !! i = Some v /\ levels !! j = Some w /\ (i <= j)%nat.

(** What is left of [asked] when the policies that let an identifier through hold it to
    what they name: itself when one of them names as much, else the most they name. *)
Definition held_to (levels : list bytes) (field : webauthn_policy -> bytes) (through : webauthn_policy -> Prop) (asked got : bytes) : Prop :=
  (asked = [] /\ got = []) \/
  ((exists w, through w /\ at_most levels asked (field w)) /\ got = asked) \/
  ((forall w, through w -> ~ at_most levels asked (field w)) /\ (exists w, through w /\ field w = got) /\
   forall w, through w -> at_most levels (field w) got).

(** Decides [at_most] at two names. *)
Ltac level i j := exists i, j; split; [reflexivity|split; [reflexivity|lia]].
Ltac levels :=
  cbv beta; split; [intros (i & j & Hi & Hj & Hij); destruct i as [|[|[|[|i]]]], j as [|[|[|[|j]]]]; first [discriminate|lia]
         |intros Hle; first [lia|level 0%nat 0%nat|level 0%nat 1%nat|level 0%nat 2%nat|level 1%nat 1%nat|level 1%nat 2%nat|level 2%nat 2%nat]].

Lemma attestation_at_most a b : 0 <= a <= 2 -> 0 <= b <= 2 -> at_most attestation_levels (attestation_name a) (attestation_name b) <-> a <= b.
Proof. intros Ha Hb. pattern a. apply rank_cases; [done|..]; pattern b; (apply rank_cases; [done|..]); levels. Qed.
Lemma verification_at_most a b :
  0 <= a <= 2 -> 0 <= b <= 2 -> at_most verification_levels (user_verification_name a) (user_verification_name b) <-> a <= b.
Proof. intros Ha Hb. pattern a. apply rank_cases; [done|..]; pattern b; (apply rank_cases; [done|..]); levels. Qed.

Lemma asked_rank_bound v : 0 <= asked_verification_rank v <= 2.
Proof. unfold asked_verification_rank. repeat case_bool_decide; lia. Qed.

Section Held.
Variable rank : bytes -> Z.
Variable name : Z -> bytes.
Variable levels : list bytes.
Hypothesis rank_bound : forall v, 0 <= rank v <= 2.
Hypothesis names_ordered : forall a b, 0 <= a <= 2 -> 0 <= b <= 2 -> at_most levels (name a) (name b) <-> a <= b.
Variable field : webauthn_policy -> bytes.
Variable through : webauthn_policy -> Prop.
Hypothesis through_named : forall w, through w -> field w = name (rank (field w)).

Lemma clamped_held most asked :
  (exists w, through w /\ rank (field w) = rank most) -> (forall w, through w -> rank (field w) <= rank most) ->
  asked = [] \/ asked = name (rank asked) ->
  held_to levels field through asked (if negb (is_nil asked) && (rank most <? rank asked) then name (rank most) else asked).
Proof.
  intros (wm & Hwm & Em) Hmost Ea. destruct (decide (asked = [])) as [->|Hne]; [by left|]. destruct Ea as [?|Ea]; [done|].
  assert (En : is_nil asked = false) by (by destruct asked). rewrite En. cbn [negb andb]. right.
  destruct (Z.ltb_spec (rank most) (rank asked)) as [Hlt|Hle].
  - right. split; [|split].
    + intros w Hw. rewrite Ea, (through_named _ Hw). intros H%names_ordered; [|apply rank_bound..]. specialize (Hmost w Hw). lia.
    + exists wm. split; [done|]. rewrite (through_named _ Hwm). by rewrite Em.
    + intros w Hw. rewrite (through_named _ Hw). apply names_ordered; [apply rank_bound..|]. by apply Hmost.
  - left. split; [|done]. exists wm. split; [done|]. rewrite Ea, (through_named _ Hwm). apply names_ordered; [apply rank_bound..|]. lia.
Qed.
End Held.

(** A policy with the names registration leaves. *)
Definition named (w : webauthn_policy) : Prop :=
  attestation w = attestation_name (attestation_rank (attestation w)) /\
  user_verification w = user_verification_name (user_verification_rank (user_verification w)).

Lemma normalised_named w : named (normalise_webauthn_policy w).
Proof.
  split; cbn [normalise_webauthn_policy attestation user_verification].
  - by rewrite attestation_rank_name by apply attestation_rank_bound.
  - by rewrite user_verification_rank_name by apply user_verification_rank_bound.
Qed.

(** The policies some registrations and unregistrations leave. *)
Definition registered (g : policies) : Prop := exists wc ab ops, g = foldl (apply_window_op wc ab) ∅ ops.

Lemma registered_named g rp_id w : registered g -> lets_through rp_id g w -> named w.
Proof.
  intros (wc & ab & ops & ->) (id & p & Hin & Ew & _). assert (H : forall id p, foldl (apply_window_op wc ab) ∅ ops !! id = Some p ->
    exists p0, p = normalise_policy wc ab p0).
  { clear. induction ops as [|o ops IH] using rev_ind; intros id p; [done|]. rewrite foldl_snoc. destruct o as [i p0|i]; cbn [apply_window_op].
    - unfold register_window_capabilities. intros [[_ <-]|[_ H]]%lookup_insert_Some; [by exists p0|by apply (IH id)].
    - unfold unregister_window_capabilities. intros [_ H]%lookup_delete_Some. by apply (IH id). }
  apply H in Hin as [p0 ->]. cbn in Ew. destruct (webauthn_allow p0) as [w0|]; [|done]. injection Ew as <-. apply normalised_named.
Qed.

Lemma merged_named rp_id ws : Forall named ws -> named (merged_policy rp_id ws).
Proof.
  intros Hws. assert (Hmany : forall l, named (MkWebauthn [rp_id] (attestation_name (best attestation_rank (map attestation l)))
    (user_verification_name (best user_verification_rank (map user_verification l))) (sorted_set (concat (map transports l))) (existsb allow_virtual_authenticator l))).
  { intros l. split; cbn [attestation user_verification];
      [rewrite attestation_rank_name|rewrite user_verification_rank_name]; first [done|apply best_bound];
      intros; first [apply attestation_rank_bound|apply user_verification_rank_bound]. }
  destruct ws as [|w [|w2 ws]]; [apply (Hmany [])| |apply (Hmany (w :: w2 :: ws))]. by apply Forall_cons in Hws as [? _].
Qed.

Lemma allowed_named iterate rp_id g m :
  (forall g, iterate g ≡ₚ map_to_list g) -> registered g -> webauthn_allowed iterate rp_id g = Some m -> named m.
Proof.
  intros Hit Hg. rewrite webauthn_allowed_matching. pose proof (fun w => proj1 (matching_elem iterate Hit (ascii_lower rp_id) g w)) as Hw.
  set (ws := matching _ _) in *. intros E. assert (Hm : m = merged_policy (ascii_lower rp_id) ws) by (destruct ws; [done|by injection E as <-]).
  rewrite Hm. apply merged_named. apply Forall_forall. intros w Hin. exact (registered_named g rp_id w Hg (Hw w Hin)).
Qed.

Lemma asked_rank_named w : named w -> asked_verification_rank (user_verification w) = user_verification_rank (user_verification w).
Proof.
  intros [_ E]. rewrite E at 1. apply asked_rank_name, user_verification_rank_bound.
Qed.

Lemma one_of_elem v l : one_of v l = true <-> v ∈ l.
Proof. unfold one_of. rewrite existsb_exists. setoid_rewrite bool_decide_eq_true. rewrite list_elem_of_In. split; [by intros (x & ? & ->)|eauto]. Qed.

(** What passes validation is a name, or nothing. *)
Lemma clamped_verification_name p v :
  one_of (clamp_verification p v) [[]; str "discouraged"; str "preferred"; str "required"] = true ->
  v = [] \/ v = user_verification_name (asked_verification_rank v).
Proof.
  unfold clamp_verification. destruct (negb (is_nil v) && _) eqn:E.
  - apply andb_true_iff in E as [_ E%Z.ltb_lt]. intros _. right. pose proof (asked_rank_bound (user_verification p)).
    unfold asked_verification_rank in E at 2 |- *. repeat case_bool_decide; subst; [done|done|lia].
  - intros H%one_of_elem. rewrite !elem_of_cons in H. destruct H as [->|[->|[->|[->|H%not_elem_of_nil]]]]; [by left|by right..|done].
Qed.

Lemma clamped_attestation_name p v :
  one_of (clamp_attestation p v) [[]; str "none"; str "indirect"; str "direct"; str "enterprise"] = true -> v <> str "enterprise" ->
  v = [] \/ v = attestation_name (attestation_rank v).
Proof.
  unfold clamp_attestation. destruct (negb (is_nil v) && _) eqn:E.
  - apply andb_true_iff in E as [_ E%Z.ltb_lt]. intros _ _. right. pose proof (attestation_rank_bound (attestation p)).
    unfold attestation_rank in E at 2 |- *. repeat case_bool_decide; subst; [done|done|lia].
  - intros H%one_of_elem. rewrite !elem_of_cons in H. destruct H as [->|[->|[->|[->|[->|H%not_elem_of_nil]]]]]; [by left|by right..|done|done].
Qed.

Lemma validated_names c : validate_creation_options c = ""%string ->
  one_of (c_user_verification c) [[]; str "discouraged"; str "preferred"; str "required"] = true /\
  one_of (c_attestation c) [[]; str "none"; str "indirect"; str "direct"; str "enterprise"] = true.
Proof.
  unfold validate_creation_options. intros H. do 7 (destruct (_ : bool) in H; [discriminate|]).
  destruct (one_of (c_user_verification c) _); [|discriminate].
  cbn [negb] in H. destruct (one_of (c_attestation c) _); [|discriminate]. done.
Qed.

Lemma validated_request_names r : validate_request_options r = ""%string ->
  one_of (r_user_verification r) [[]; str "discouraged"; str "preferred"; str "required"] = true.
Proof.
  unfold validate_request_options. intros H. do 2 (destruct (_ : bool) in H; [discriminate|]). destruct (one_of (r_user_verification r) _); [|discriminate]. done.
Qed.

Section Requests.
Variable iterate : policies -> list (Z * capability_set).
Hypothesis iterate_all : forall g, iterate g ≡ₚ map_to_list g.
Variable g : policies.
Hypothesis g_registered : registered g.

Lemma verification_held rp_id m asked : webauthn_allowed iterate rp_id g = Some m ->
  one_of (clamp_verification m asked) [[]; str "discouraged"; str "preferred"; str "required"] = true ->
  held_to verification_levels user_verification (lets_through rp_id g) asked (clamp_verification m asked).
Proof.
  intros E Hv. destruct (webauthn_allowed_Some iterate iterate_all _ _ _ E) as (_ & (w & Hw & Ew) & Hmost & _).
  pose proof (asked_rank_named m (allowed_named iterate rp_id g m iterate_all g_registered E)) as Em.
  assert (Hn : forall w, lets_through rp_id g w -> asked_verification_rank (user_verification w) = user_verification_rank (user_verification w)).
  { intros w' Hw'. apply asked_rank_named. exact (registered_named g rp_id w' g_registered Hw'). }
  apply (clamped_held asked_verification_rank user_verification_name).
  - apply asked_rank_bound.
  - apply verification_at_most.
  - intros w' Hw'. rewrite Hn by done. apply (registered_named g rp_id w' g_registered Hw').
  - exists w. split; [done|]. by rewrite Hn, Em.
  - intros w' Hw'. rewrite Hn, Em by done. by apply Hmost.
  - by apply (clamped_verification_name m).
Qed.

Lemma attestation_held rp_id m asked : webauthn_allowed iterate rp_id g = Some m ->
  one_of (clamp_attestation m asked) [[]; str "none"; str "indirect"; str "direct"; str "enterprise"] = true -> asked <> str "enterprise" ->
  held_to attestation_levels attestation (lets_through rp_id g) asked (clamp_attestation m asked).
Proof.
  intros E Hv He. destruct (webauthn_allowed_Some iterate iterate_all _ _ _ E) as (Hw & _ & Hmost & _).
  apply (clamped_held attestation_rank attestation_name).
  - apply attestation_rank_bound.
  - apply attestation_at_most.
  - intros w' Hw'. apply (registered_named g rp_id w' g_registered Hw').
  - exact Hw.
  - intros w' Hw'. by apply Hmost.
  - by apply (clamped_attestation_name m).
Qed.
End Requests.

(** C29. WebAuthn requests are held to what windows' policies name.  After any
    registrations and unregistrations, a creation that goes on is valid, was let through
    by a window's policy for its identifier, and asks for the user verification the
    script asked for if such a policy names as much, else for the most they name; the
    same of attestation unless the script asked for [enterprise], which no policy can
    name and the code passes on.  All else is as the script asked, and the virtual
    authenticator gets it only when such a policy allows that.  The same holds for
    assertions.  Without a matching policy neither goes on; in particular nothing goes on
    before a window has registered, though the header has everything allowed then. *)
Theorem requests_within_policy iterate platform c r g :
  (forall g, iterate g ≡ₚ map_to_list g) -> registered g ->
  (forall virtual c', gate_creation iterate platform c g = Some (virtual, c') ->
    let through := lets_through (c_rp_id c) g in
    validate_creation_options c' = ""%string /\ (exists w, through w) /\
    (c_attestation c <> str "enterprise" -> held_to attestation_levels attestation through (c_attestation c) (c_attestation c')) /\
    (c_attestation c = str "enterprise" -> c_attestation c' = str "enterprise") /\
    held_to verification_levels user_verification through (c_user_verification c) (c_user_verification c') /\
    c' = MkCreation (c_rp_id c) (c_rp_name c) (c_user c) (c_challenge c) (c_pub_key_params c) (c_exclude_credentials c)
      (c_authenticator_attachment c) (c_user_verification c') (c_resident_key c) (c_attestation c') (c_timeout_ms c) /\
    (if (virtual : bool) then exists w, through w /\ allow_virtual_authenticator w = true else platform = true)) /\
  (forall virtual r', gate_request iterate platform r g = Some (virtual, r') ->
    let through := lets_through (r_rp_id r) g in
    validate_request_options r' = ""%string /\ (exists w, through w) /\
    held_to verification_levels user_verification through (r_user_verification r) (r_user_verification r') /\
    r' = MkRequest (r_rp_id r) (r_challenge r) (r_allow_credentials r) (r_user_verification r') (r_timeout_ms r) /\
    (if (virtual : bool) then exists w, through w /\ allow_virtual_authenticator w = true else platform = true)) /\
  ((forall w, ~ lets_through (c_rp_id c) g w) -> gate_creation iterate platform c g = None) /\
  ((forall w, ~ lets_through (r_rp_id r) g w) -> gate_request iterate platform r g = None) /\
  (g = ∅ -> gate_creation iterate platform c g = None /\ gate_request iterate platform r g = None).
Proof.
  intros Hit Hg.
  assert (HnC : (forall w, ~ lets_through (c_rp_id c) g w) -> gate_creation iterate platform c g = None).
  { intros H. unfold gate_creation. destruct (is_nil _); [done|]. by rewrite (proj2 (webauthn_allowed_None iterate Hit (c_rp_id c) g) H). }
  assert (HnR : (forall w, ~ lets_through (r_rp_id r) g w) -> gate_request iterate platform r g = None).
  { intros H. unfold gate_request. by rewrite (proj2 (webauthn_allowed_None iterate Hit (r_rp_id r) g) H). }
  split; [|split; [|split; [done|split; [done|]]]].
  - intros virtual c'. unfold gate_creation. destruct (is_nil _); [done|]. destruct (webauthn_allowed iterate (c_rp_id c) g) as [m|] eqn:E; [|done].
    destruct (bool_decide _) eqn:Ev; [|done]. apply bool_decide_eq_true in Ev. cbn [negb]. intros Hgate.
    assert (Hc : c' = clamp_creation m c /\ if virtual then allow_virtual_authenticator m = true else platform = true).
    { destruct (allow_virtual_authenticator m); [by injection Hgate as <- <-|]. destruct platform; [by injection Hgate as <- <-|done]. }
    clear Hgate. destruct Hc as [-> Hv]. destruct (webauthn_allowed_Some iterate Hit _ _ _ E) as ((wa & Hwa & _) & _ & _ & _ & _ & Hvirt).
    pose proof (validated_names _ Ev) as [Nu Na]. split; [done|]. split; [by exists wa|].
    split; [by apply (attestation_held iterate Hit g Hg (c_rp_id c) m)|]. split.
    { intros He. cbn [clamp_creation c_attestation]. rewrite He. unfold clamp_attestation. pose proof (attestation_rank_bound (attestation m)).
      change (attestation_rank (str "enterprise")) with 0. destruct (Z.ltb_spec (attestation_rank (attestation m)) 0); [lia|]. by rewrite andb_false_r. }
    split; [by apply (verification_held iterate Hit g Hg (c_rp_id c) m)|]. split; [done|]. destruct virtual; [by apply Hvirt|done].
  - intros virtual r'. unfold gate_request. destruct (webauthn_allowed iterate (r_rp_id r) g) as [m|] eqn:E; [|done].
    destruct (bool_decide _) eqn:Ev; [|done]. apply bool_decide_eq_true in Ev. cbn [negb]. intros Hgate.
    assert (Hr : r' = clamp_request m r /\ if virtual then allow_virtual_authenticator m = true else platform = true).
    { destruct (allow_virtual_authenticator m); [by injection Hgate as <- <-|]. destruct platform; [by injection Hgate as <- <-|done]. }
    clear Hgate. destruct Hr as [-> Hv]. destruct (webauthn_allowed_Some iterate Hit _ _ _ E) as ((wa & Hwa & _) & _ & _ & _ & _ & Hvirt).
    split; [done|]. split; [by exists wa|]. split; [apply (verification_held iterate Hit g Hg (r_rp_id r) m); [done|exact (validated_request_names _ Ev)]|].
    split; [done|]. destruct virtual; [by apply Hvirt|done].
  - intros ->. split; [apply HnC|apply HnR]; intros w (id & p & Hin & _); discriminate Hin.
Qed.

Lemma requests_within_policy_witness :
  let w := MkWebauthn [str "a.example"] (str "indirect") (str "preferred") [] true in
  let g : policies := register_window_capabilities Some Some 7 (MkCaps None None None None (Some w)) ∅ in
  let c := MkCreation (str "a.example") (str "A") (MkUser [1] (str "me") []) (replicate 16 0) [es256] [] [] (str "required") [] (str "direct") 0 in
  exists c', gate_creation map_to_list false c g = Some (true, c') /\ c_attestation c' = str "indirect" /\ c_user_verification c' = str "preferred" /\
    held_to attestation_levels attestation (lets_through (str "a.example") g) (str "direct") (str "indirect").
Proof.
  intros w g c. exists (clamp_creation w c). assert (E : gate_creation map_to_list false c g = Some (true, clamp_creation w c)) by (vm_compute; reflexivity).
  split; [exact E|]. do 2 (split; [vm_compute; reflexivity|]).
  destruct (requests_within_policy map_to_list false c (MkRequest [] [] [] [] 0) g) as (H & _); [done|by exists Some, Some, [Register 7 (MkCaps None None None None (Some w))]|].
  destruct (H _ _ E) as (_ & _ & Ha & _). apply Ha. discriminate.
Defined.

(** * The host a network decision is about *)

(** A byte that case folding neither changes nor yields. *)
Definition no_letter (c : Z) : Prop := (c < chr "A" \/ chr "Z" < c) /\ (c < chr "a" \/ chr "z" < c).

(** Decides [no_letter] for a literal. *)
Ltac no_letter := split; ((left; reflexivity) || (right; reflexivity)).

Lemma is_char_lower c x : no_letter c -> is_char c (lower_char x) = is_char c x.
Proof.
  intros [H1 H2]. unfold is_char. destruct (Z.eqb_spec x c) as [->|Hx].
  - apply Z.eqb_eq. unfold lower_char. destruct (Z.leb_spec (chr "A") c), (Z.leb_spec c (chr "Z")); cbn [andb]; lia.
  - apply Z.eqb_neq. intros E. apply Hx. by apply (lower_char_other x c).
Qed.

Lemma upto_lower c s : no_letter c -> upto (is_char c) (ascii_lower s) = ascii_lower (upto (is_char c) s).
Proof.
  intros Hc. unfold upto. induction s as [|x s IH]; [done|]. rewrite ascii_lower_cons. cbn [take_while]. rewrite is_char_lower by done.
  destruct (is_char c x); cbn [negb]; [done|]. by rewrite IH, ascii_lower_cons.
Qed.

Lemma from_lower c s : no_letter c -> from (is_char c) (ascii_lower s) = ascii_lower (from (is_char c) s).
Proof.
  intros Hc. unfold from. induction s as [|x s IH]; [done|]. rewrite ascii_lower_cons. cbn [drop_while]. rewrite is_char_lower by done.
  destruct (is_char c x); cbn [negb]; [by rewrite ascii_lower_cons|done].
Qed.

Lemma ascii_lower_nil s : ascii_lower s = [] -> s = [].
Proof. by destruct s. Qed.

Lemma parse_userinfo_rest authority v rest w : parse_userinfo authority v = (rest, w) ->
  rest = match rfind_char (chr "@") authority with Some at_ => substr_from authority (at_ + 1) | None => authority end /\
  hostname w = hostname v /\ port w = port v.
Proof.
  unfold parse_userinfo. destruct (rfind_char (chr "@") authority) as [i|]; [|by intros [= <- <-]].
  destruct (from (is_char (chr ":")) _); by intros [= <- <-].
Qed.

(** The host of an endpoint, in lower case. *)
Definition endpoint_host (host_port : bytes) : bytes :=
  match host_port with
  | [] => host_port
  | c :: _ =>
      if c =? chr "[" then match from (is_char (chr "]")) host_port with [] => host_port | _ => upto (is_char (chr "]")) host_port ++ str "]" end
      else upto (is_char (chr ":")) host_port
  end.

Lemma parse_host_endpoint rest v w : port v = [] -> parse_host rest v = Some w ->
  endpoint_host (ascii_lower rest) = ascii_lower (hostname w) /\ (port w <> [] -> ascii_lower rest = ascii_lower (url_get_host w)).
Proof.
  intros Hv. unfold parse_host. destruct rest as [|c0 r]; [intros [= <-]; by cbn; rewrite Hv|]. set (s := c0 :: r).
  assert (Es : ascii_lower s = lower_char c0 :: ascii_lower r) by done. unfold endpoint_host. rewrite Es. cbv beta iota.
  change (lower_char c0 =? chr "[") with (is_char (chr "[") (lower_char c0)). rewrite is_char_lower by no_letter.
  change (is_char (chr "[") c0) with (c0 =? chr "["). rewrite <- Es. destruct (c0 =? chr "[").
  - rewrite from_lower, upto_lower by no_letter. destruct (from (is_char (chr "]")) s) as [|x after] eqn:Ef; [done|].
    pose proof (upto_from (is_char (chr "]")) s) as Euf. pose proof (from_begins (is_char (chr "]")) s) as Hb. rewrite Ef in Euf, Hb.
    apply Z.eqb_eq in Hb as ->. rewrite ascii_lower_cons. intros [= <-]. assert (Eh : ascii_lower (upto (is_char (chr "]")) s) ++ str "]" =
      ascii_lower (upto (is_char (chr "]")) s ++ str "]")) by by rewrite ascii_lower_app.
    destruct after as [|y p]; cbn [hostname port with_host]; [split; [exact Eh|by rewrite Hv]|]. destruct (Z.eqb_spec y (chr ":")) as [->|].
    + split; [exact Eh|]. intros Hp. unfold url_get_host. cbn [hostname port with_host]. rewrite <- Euf at 1. f_equal. rewrite <- app_assoc. by destruct p.
    + split; [exact Eh|]. by rewrite Hv.
  - rewrite upto_lower by no_letter. pose proof (upto_from (is_char (chr ":")) s) as Euf.
    pose proof (from_begins (is_char (chr ":")) s) as Hb. destruct (from (is_char (chr ":")) s) as [|x p] eqn:Ef; intros [= <-]; cbn [hostname port with_host].
    + rewrite app_nil_r in Euf. rewrite Euf. change (lower_char c0 :: ascii_lower r) with (ascii_lower s). by rewrite ascii_lower_idemp, Hv.
    + apply Z.eqb_eq in Hb as ->. rewrite ascii_lower_idemp. split; [done|]. intros Hp. unfold url_get_host. cbn [hostname port with_host].
      rewrite <- Euf at 1. rewrite !ascii_lower_app, ascii_lower_idemp. by destruct p.
Qed.

Lemma split_scheme_text s p rest : split_scheme s = Some (p, rest) -> exists a, s = a ++ chr ":" :: rest /\ chr ":" ∉ a.
Proof.
  unfold split_scheme. destruct s as [|c0 s]; [done|]. destruct (any_of _ c0); [done|].
  pose proof (upto_from (any_of (str "/?#:")) s) as Es. pose proof (upto_lacks (any_of (str "/?#:")) s) as Hl.
  destruct (from _ s) as [|c r]; [done|]. destruct (_ && _) eqn:E; [|done]. intros [= _ <-].
  apply andb_true_iff in E as [[Hc Ha]%andb_true_iff _]. apply Z.eqb_eq in Hc as ->.
  exists (c0 :: upto (any_of (str "/?#:")) s). split; [cbn [app]; by rewrite Es|]. intros [<-|Hin]%elem_of_cons.
  - vm_compute in Ha. done.
  - pose proof (lacks_elem _ _ _ Hl Hin) as H. vm_compute in H. done.
Qed.

Lemma parse_endpoint_authority a rest : chr ":" ∉ a ->
  parse_endpoint (a ++ chr ":" :: chr "/" :: chr "/" :: rest) =
  let authority := upto (any_of (str "/?#")) rest in
  let authority := match rfind_char (chr "@") authority with Some at_ => substr_from authority (at_ + 1) | None => authority end in
  MkEndpoint (endpoint_host (ascii_lower authority)) (ascii_lower authority).
Proof.
  intros Ha. unfold parse_endpoint. change (chr ":" :: chr "/" :: chr "/" :: rest) with (str "://" ++ rest).
  rewrite find_str_skip, find_str_here by done. cbn [fmap option_fmap option_map].
  assert (E : substr_from (a ++ str "://" ++ rest) (zlen a + 0 + 3) = rest).
  { unfold substr_from, zdrop. replace (Z.to_nat (zlen a + 0 + 3)) with (length a + 3)%nat by lia. by rewrite drop_app_add. }
  by rewrite E.
Qed.

(** What the addresses a list names let through, in terms of the URL. *)
Definition net_entry_allows (u : url_data) (raw e : bytes) : Prop :=
  if entry_has_port e then e = (if is_nil (port u) then host_port (parse_endpoint raw) else ascii_lower (url_get_host u))
  else e = ascii_lower (hostname u).

(** C28. The host a network decision is about is the host the URL names.  For any text
    without blanks around it that [new URL] accepts with an authority, the policy's
    reading of the text has the URL's host, brackets included, and its host with the port
    where the URL keeps a port.  So access is let through exactly when no window has
    registered, a window's policy lists no addresses at all, or a window lists the URL's
    host, or that host with the URL's port.  (Where the URL keeps no port, an entry with
    one is compared with the authority as it was written.) *)
Theorem policy_sees_url_host raw u iterate g :
  (forall g, iterate g ≡ₚ map_to_list g) ->
  parse_url raw None no_url = Ret (true, u) -> trim raw = raw -> has_authority u = true ->
  host (parse_endpoint raw) = ascii_lower (hostname u) /\
  (port u <> [] -> host_port (parse_endpoint raw) = ascii_lower (url_get_host u)) /\
  (net_host_allowed iterate raw g = true <->
   g = ∅ \/ exists id p, g !! id = Some p /\
     (net_allow p = None \/ exists l e, net_allow p = Some l /\ e ∈ l /\ net_entry_allows u raw e)).
Proof.
  intros Hit Hp Ht Hau.
  assert (H : host (parse_endpoint raw) = ascii_lower (hostname u) /\ (port u <> [] -> host_port (parse_endpoint raw) = ascii_lower (url_get_host u))).
  { unfold parse_url, parse_absolute in Hp. rewrite Ht in Hp. destruct (split_scheme raw) as [[p rest]|] eqn:Es; [|done].
    apply split_scheme_text in Es as (a & -> & Ha). unfold parse_with_scheme in Hp. destruct (starts_with (str "//") rest) eqn:Esl.
    - apply starts_with_spec in Esl as [r ->]. change (drop 2 (str "//" ++ r)) with r in Hp.
      change (str "//" ++ r) with (chr "/" :: chr "/" :: r); rewrite (parse_endpoint_authority a r Ha). cbv zeta.
      destruct (parse_userinfo (upto (any_of (str "/?#")) r) _) as [hp v] eqn:E1. destruct (parse_host hp v) as [v2|] eqn:E2; [|done].
      destruct (drop_default_port v2) as [v3| | |] eqn:E3; [|done..]. cbn [mbind outcome_bind] in Hp. injection Hp as <-.
      apply parse_userinfo_rest in E1 as (-> & _ & Hport). destruct (parse_host_endpoint _ _ _ ltac:(by rewrite Hport) E2) as [Hh Hhp].
      destruct (drop_default_port_ok _ _ E3) as (Ev & Hd & _).
      assert (Etail : hostname (parse_tail (from (any_of (str "/?#")) r) v3) = hostname v3 /\ port (parse_tail (from (any_of (str "/?#")) r) v3) = port v3).
      { unfold parse_tail. cbn [hostname port with_pathname]. by destruct (from (is_char (chr "?")) _), (from (is_char (chr "#")) _). }
      destruct Etail as [Et1 Et2]. rewrite Et1, Et2. unfold url_get_host. rewrite Et1, Et2. cbn [host host_port]. rewrite Ev. cbn [hostname port with_host]. split; [done|].
      intros Hne. destruct Hd as [?|Hd]; [done|]. rewrite Hd in Hne |- *. by apply Hhp.
    - destruct (is_special _); [done|]. injection Hp as <-. unfold parse_tail in Hau. cbn [has_authority with_pathname] in Hau.
      by destruct (from (is_char (chr "?")) _), (from (is_char (chr "#")) _). }
  split; [apply H|]. split; [apply H|]. unfold net_host_allowed. rewrite (any_policy_spec iterate Hit).
  assert (He : forall e, e = (if entry_has_port e then host_port (parse_endpoint raw) else host (parse_endpoint raw)) <-> net_entry_allows u raw e).
  { intros e. unfold net_entry_allows. destruct (entry_has_port e); [|by rewrite (proj1 H)]. destruct (is_nil (port u)) eqn:En; [done|].
    rewrite (proj2 H); [done|]. intros Ep. by rewrite Ep in En. }
  apply or_iff_compat_l. apply exist_proper. intros id. apply exist_proper. intros p. apply and_iff_compat_l. unfold net_policy_allows.
  destruct (net_allow p) as [l|]; [|split; [by left|done]]. rewrite existsb_exists. setoid_rewrite bool_decide_eq_true. setoid_rewrite <- list_elem_of_In. split.
  - intros (e & Hin & Ee). right. exists l, e. split; [done|]. split; [done|]. by apply He.
  - intros [?|(l' & e & [= <-] & Hin & Ee)]; [done|]. exists e. split; [done|]. by apply He.
Qed.

Lemma policy_sees_url_host_witness :
  let raw := str "https://me:pw@API.example:8443/v1?x" in
  let g : policies := {[ 1 := MkCaps None (Some [str "api.example"; str "cdn.example"]) None None None ]} in
  exists u, parse_url raw None no_url = Ret (true, u) /\ net_host_allowed map_to_list raw g = true /\
    host_port (parse_endpoint raw) = str "api.example:8443" /\
    exists id p, g !! id = Some p /\ (net_allow p = None \/ exists l e, net_allow p = Some l /\ e ∈ l /\ net_entry_allows u raw e).
Proof.
  intros raw g. eexists. split; [vm_compute; reflexivity|]. split; [vm_compute; reflexivity|]. split; [vm_compute; reflexivity|].
  match goal with |- context [net_entry_allows ?u] => destruct (policy_sees_url_host raw u map_to_list g) as (_ & _ & H) end.
  - done.
  - vm_compute. reflexivity.
  - vm_compute. reflexivity.
  - vm_compute. reflexivity.
  - destruct (proj1 H) as [Hg|Hg]; [vm_compute; reflexivity|discriminate Hg|exact Hg].
Defined.

(** * Paths *)

Lemma normal_segment_plain l s : Forall plain_segment l -> chr "/" ∉ s -> Forall plain_segment (normal_segment true l s).
Proof.
  intros Hl Hs. unfold normal_segment. case_bool_decide as H1; [done|]. case_bool_decide as H2.
  - destruct l as [|x l _] using rev_ind; [done|]. rewrite last_snoc. apply Forall_app in Hl as [Hl Hx]. apply Forall_cons in Hx as [(_ & _ & Hx & _) _].
    rewrite bool_decide_eq_false_2 by done. by rewrite removelast_last.
  - apply Forall_app. split; [done|]. constructor; [|constructor]. repeat split; [tauto|tauto|done|done].
Qed.

Lemma normal_segments_plain p : forall l, Forall plain_segment l -> Forall (fun s => chr "/" ∉ s) p -> Forall plain_segment (foldl (normal_segment true) l p).
Proof.
  induction p as [|s p IH]; intros l Hl Hp; [done|]. apply Forall_cons in Hp as [Hs Hp]. cbn [foldl]. apply IH; [|done]. by apply normal_segment_plain.
Qed.

(** An absolute path in normal form has no [.], no [..] and no empty names. *)
Lemma lexically_normal_absolute q : head q = Some (chr "/") -> exists l t, Forall plain_segment l /\ lexically_normal q = path_of l t.
Proof.
  destruct q as [|c q]; [done|]. intros [= ->]. unfold lexically_normal. cbv zeta. change (chr "/" =? chr "/") with true. cbv iota.
  match goal with |- context [foldl ?f ?i ?p] => set (l := foldl f i p) end.
  assert (Hl : Forall plain_segment l) by (apply normal_segments_plain; [constructor|apply pieces_no_sep]).
  match goal with |- context [if ?b && _ then str "/" else []] => set (b1 := b) end. clearbody l b1. exists l. destruct l as [|x l].
  - exists false. done.
  - eexists. split; [done|]. unfold path_of. rewrite (bool_decide_eq_false_2 (x :: l = [])) by done. cbn [negb]. by rewrite andb_true_r.
Qed.

Lemma pieces_join_app d l s : l <> [] -> Forall (fun x => d ∉ x) l -> pieces d (join_with d l ++ d :: s) = l ++ pieces d s.
Proof.
  intros Hne Hl. induction Hl as [|x l Hx Hl IH]; [done|]. destruct l as [|y l]; [by apply pieces_cons|].
  change (join_with d (x :: y :: l)) with (x ++ d :: join_with d (y :: l)). rewrite <- app_assoc. cbn [app]. rewrite pieces_cons by done. by rewrite IH.
Qed.

Lemma plain_no_slash l : Forall plain_segment l -> Forall (fun s => chr "/" ∉ s) l.
Proof. intros Hl. eapply Forall_impl; [exact Hl|]. by intros s (_ & _ & _ & ?). Qed.

Lemma pieces_last_cons d s : exists l x, pieces d s = l ++ [x].
Proof.
  unfold pieces. generalize ([] : bytes). induction s as [|c s IH]; intros cur; cbn [pieces_loop]; [by exists [], cur|]. destruct (c =? d); [|apply IH].
  destruct (IH []) as (l & x & ->). by exists (cur :: l), x.
Qed.

(** A prefix that ends in a slash is a prefix name by name. *)
Lemma below_directory ps qs t : Forall plain_segment ps -> Forall plain_segment qs -> starts_with (path_of ps true) (path_of qs t) = true -> exists r, qs = ps ++ r.
Proof.
  intros Hps Hqs [s E]%starts_with_spec. destruct (decide (ps = [])) as [->|Hne]; [by exists qs|]. unfold path_of in E. cbn [andb app] in E.
  rewrite (bool_decide_eq_false_2 (ps = [])) in E by done. cbn [negb] in E. injection E as E. rewrite <- app_assoc in E. cbn [app] in E.
  change (str "/" ++ s) with (chr "/" :: s) in E. apply (f_equal (pieces (chr "/"))) in E.
  rewrite pieces_join_app in E by (done || by apply plain_no_slash). destruct (decide (qs = [])) as [->|Hqne].
  { exfalso. cbn [join_with app] in E. rewrite bool_decide_eq_true_2, andb_false_r in E by done. destruct Hps as [|x ps (Hx & _) _]; [done|].
    cbn [app] in E. injection E as E _. by destruct x. }
  rewrite (bool_decide_eq_false_2 (qs = [])) in E by done. cbn [negb] in E. destruct t; cbn [andb] in E.
  - change (str "/") with (chr "/" :: []) in E. rewrite pieces_join_app in E by (done || by apply plain_no_slash).
    destruct (pieces_last_cons (chr "/") s) as (l & x & Es). rewrite Es, app_assoc in E. apply app_inj_tail in E as [E _]. by exists l.
  - rewrite app_nil_r, pieces_join in E by (done || by apply plain_no_slash). by eexists.
Qed.

Lemma path_of_slash_end l t : Forall plain_segment l -> ends_in (chr "/") (path_of l t) = true -> path_of l t = path_of l true.
Proof.
  intros Hl H. destruct t; [done|]. destruct (decide (l = [])) as [->|Hne]; [done|]. exfalso. unfold path_of in H. cbn [andb] in H.
  rewrite app_nil_r in H. by rewrite plain_join_end in H.
Qed.

(** A path cannot leave the directories its windows were given.  Suppose every
    window lists directories: absolute paths in normal form that end in a slash.  When a
    path that the file system resolves to an absolute one is let through, its normal form
    is a listed directory followed by names none of which is empty, [.] or [..]. *)
Lemma files_stay_inside wc ab iterate path q g :
  (forall g, iterate g ≡ₚ map_to_list g) -> g <> ∅ ->
  (forall id p, g !! id = Some p -> exists l, fs_allow p = Some l /\
    Forall (fun pre => ends_in (chr "/") pre = true /\ exists q', head q' = Some (chr "/") /\ pre = lexically_normal q') l) ->
  wc path = Some q -> head q = Some (chr "/") -> fs_path_allowed wc ab iterate path g = true ->
  exists id p l dir names t, g !! id = Some p /\ fs_allow p = Some l /\ path_of dir true ∈ l /\
    lexically_normal q = path_of (dir ++ names) t /\ Forall plain_segment (dir ++ names).
Proof.
  intros Hit Hg Hl Hwc Hq Hallow. apply (any_policy_spec iterate Hit) in Hallow as [?|(id & p & Hin & Ha)]; [done|].
  destruct (Hl id p Hin) as (l & El & Hd). unfold fs_policy_allows in Ha. rewrite El in Ha. apply existsb_exists in Ha as (pre & Hpre%list_elem_of_In & Hst).
  unfold canonical_path in Hst. rewrite Hwc in Hst. destruct (lexically_normal_absolute q Hq) as (names & t & Hnames & En).
  rewrite Forall_forall in Hd. destruct (Hd pre Hpre) as (Hend & q' & Hq' & ->). destruct (lexically_normal_absolute q' Hq') as (dir & t' & Hdir & Ed).
  rewrite Ed in Hend, Hpre, Hst. rewrite (path_of_slash_end dir t') in Hpre, Hst by done. rewrite En in Hst |- *.
  destruct (below_directory _ _ _ Hdir Hnames Hst) as [r ->]. by exists id, p, l, dir, r, t.
Qed.

Lemma files_stay_inside_witness :
  let g : policies := {[ 1 := normalise_policy Some Some (MkCaps (Some [str "/home/me/data/"; str "/tmp/./app/"]) None None None None) ]} in
  exists id p l dir names t, g !! id = Some p /\ fs_allow p = Some l /\ path_of dir true ∈ l /\
    lexically_normal (str "/home/me/data/x/../y/./z") = path_of (dir ++ names) t /\ Forall plain_segment (dir ++ names).
Proof.
  intros g. eapply (files_stay_inside Some Some map_to_list (str "/home/me/data/x/../y/./z") _ g).
  - done.
  - discriminate.
  - intros id p Hin. apply lookup_singleton_Some in Hin as [<- <-]. eexists. split; [reflexivity|].
    apply Forall_cons. split; [|apply Forall_cons; split; [|by apply Forall_nil]].
    + split; [vm_compute; reflexivity|]. exists (str "/home/me/data/"). done.
    + split; [vm_compute; reflexivity|]. exists (str "/tmp/./app/"). done.
  - reflexivity.
  - reflexivity.
  - vm_compute. reflexivity.
Defined.

(** * What the permissions of a window mean *)

Lemma any_policy_singleton iterate allows id p : (forall g, iterate g ≡ₚ map_to_list g) ->
  any_policy iterate allows {[ id := p ]} = true <-> allows p = true.
Proof.
  intros Hit. rewrite any_policy_spec by done. split.
  - intros [H|(id' & p' & H & Ha)]; [by apply map_non_empty_singleton in H|]. by apply lookup_singleton_Some in H as [_ <-].
  - intros Ha. right. exists id, p. split; [apply lookup_singleton_eq|done].
Qed.

(** [true] or nothing stands for no limit. *)
Definition unlimited (v : js_value) : bool := match v with J_undefined => true | J_bool b => b | _ => false end.

Lemma parse_boolean_allow_spec v s : parse_boolean_allow v = Some s -> switch_allows s = unlimited v.
Proof. destruct v as [| |[]| | | |]; by intros [= <-]. Qed.

Lemma parse_string_allowlist_spec v l : parse_string_allowlist v = Some l ->
  l = if unlimited v then None else Some (default [] (read_string_array v)).
Proof.
  destruct v as [| |[]| | | |]; cbn [parse_string_allowlist unlimited read_string_array]; try (by intros [= <-]); try done.
  destruct (read_strings l0); [by intros [= <-]|done].
Qed.

Lemma existsb_map {A B} (f : A -> B) (p : B -> bool) l : existsb p (map f l) = existsb (fun x => p (f x)) l.
Proof. induction l as [|x l IH]; [done|]. cbn [map existsb]. by rewrite IH. Qed.

(** The only window of a process, created with some [permissions]. *)
Lemma sole_window wc ab iterate id o p path address : (forall g, iterate g ≡ₚ map_to_list g) ->
  parse_window_permissions (J_object o) = Some p ->
  let g := register_window_capabilities wc ab id p ∅ in
  shell_allowed iterate g = unlimited (prop "shell" o) /\
  native_allowed iterate g = unlimited (prop "native" o) /\
  net_host_allowed iterate address g = unlimited (prop "net" o) ||
    existsb (fun entry => bool_decide (ascii_lower entry = if entry_has_port (ascii_lower entry) then host_port (parse_endpoint address) else host (parse_endpoint address)))
      (default [] (read_string_array (prop "net" o))) /\
  fs_path_allowed wc ab iterate path g = unlimited (prop "fs" o) ||
    existsb (fun prefix => starts_with (canonical_path wc ab prefix) (canonical_path wc ab path)) (default [] (read_string_array (prop "fs" o))).
Proof.
  intros Hit Hp g. cbn [parse_window_permissions] in Hp.
  destruct (parse_string_allowlist (prop "fs" o)) as [fs|] eqn:E1; [|done]. destruct (parse_string_allowlist (prop "net" o)) as [net|] eqn:E2; [|done].
  destruct (parse_boolean_allow (prop "shell" o)) as [sh|] eqn:E3; [|done]. destruct (parse_boolean_allow (prop "native" o)) as [na|] eqn:E4; [|done].
  destruct (parse_webauthn_permissions (prop "webauthn" o)) as [wa|] eqn:E5; [|done]. cbn [mbind option_bind] in Hp. injection Hp as <-.
  assert (Hsole : forall allows, any_policy iterate allows g = allows (normalise_policy wc ab (MkCaps fs net sh na wa))).
  { intros allows. assert (Eg : g = {[ id := normalise_policy wc ab (MkCaps fs net sh na wa) ]}) by apply insert_empty. rewrite Eg.
    apply Bool.eq_iff_eq_true. by apply any_policy_singleton. }
  apply parse_string_allowlist_spec in E1, E2. apply parse_boolean_allow_spec in E3, E4.
  unfold shell_allowed, native_allowed, net_host_allowed, fs_path_allowed. rewrite !Hsole. split; [exact E3|]. split; [exact E4|].
  unfold net_policy_allows, fs_policy_allows. cbn [normalise_policy net_allow fs_allow]. subst fs net. split.
  - destruct (unlimited (prop "net" o)); [done|]. cbn [normalise_net_allow fmap option_fmap option_map orb].
    apply existsb_map.
  - destruct (unlimited (prop "fs" o)); [done|]. cbn [canonical_fs_allow fmap option_fmap option_map orb].
    apply existsb_map.
Qed.

(** * What modelling showed *)

(** A listed path that does not end in a slash also opens its neighbours. *)
Lemma prefix_is_no_directory :
  fs_path_allowed Some Some map_to_list (str "/home/me/database/secrets")
    (register_window_capabilities Some Some 1 (MkCaps (Some [str "/home/me/data"]) None None None None) ∅) = true.
Proof. vm_compute. reflexivity. Qed.

(** [enterprise] ranks with [none], so no policy holds it back. *)
Lemma enterprise_passes_none :
  let w := MkWebauthn [str "a.example"] (str "none") (str "required") [] false in
  let c := MkCreation (str "a.example") (str "A") (MkUser [1] (str "me") []) (replicate 16 0) [es256] [] [] [] [] (str "enterprise") 0 in
  exists c', gate_creation map_to_list true c {[ 1 := MkCaps None None None None (Some w) ]} = Some (false, c') /\ c_attestation c' = str "enterprise".
Proof. eexists. split; vm_compute; reflexivity. Qed.

(** An entry with the default port does not match an address that leaves it out. *)
Lemma default_port_not_implied :
  net_host_allowed map_to_list (str "https://h.example/")
    (register_window_capabilities Some Some 1 (MkCaps None (Some [str "h.example:443"]) None None None) ∅) = false.
Proof. vm_compute. reflexivity. Qed.

(** [URL] drops the blanks around an address, a decision about the same text does not. *)
Lemma blank_is_part_of_the_host :
  let g := register_window_capabilities Some Some 1 (MkCaps None (Some [str "h.example"]) None None None) ∅ in
  (exists u, parse_url (str "http://h.example ") None no_url = Ret (true, u) /\ hostname u = str "h.example") /\
  host (parse_endpoint (str "http://h.example ")) = str "h.example " /\ net_host_allowed map_to_list (str "http://h.example ") g = false.
Proof. split; [eexists; split; vm_compute; reflexivity|]. split; vm_compute; reflexivity. Qed.

(** Without windows everything is allowed, but not WebAuthn. *)
Lemma no_window_no_webauthn rp_id : webauthn_allowed map_to_list rp_id ∅ = None /\ shell_allowed map_to_list ∅ = true.
Proof. done. Qed.
