(* ===== verification/HttpRequest.v ===== *)
(** Requests of the HTTP client ([src/net/http_client.cpp] built on libcurl): errors,
    the key of an origin, proxies, the options a request hands to libcurl, and the
    callbacks libcurl drives a transfer with.  libcurl is a parameter: its options and
    codes are names here, what it does with them is not modelled. *)

From S2P Require Import Prelude Strings CookieJar.

(** * Errors and responses *)

Inductive http_error : Type := ok | no_backend | dns | connect | tls | timeout | response_truncated | abort | unknown.

#[export] Instance http_error_eq_dec : EqDecision http_error.
Proof. solve_decision. Defined.

Definition http_error_code_name (code : http_error) : string :=
  match code with
  | ok => "ok" | no_backend => "no_backend" | dns => "dns" | connect => "connect" | tls => "tls" | timeout => "timeout"
  | response_truncated => "response_truncated" | abort => "abort" | unknown => "unknown"
  end.

Record http_response : Type := MkResponse {
  status : Z; status_text : bytes; resp_headers : list (bytes * bytes); resp_body : bytes; final_url : bytes;
  error : bytes; last_error : http_error }.
Definition no_response : http_response := MkResponse 0 [] [] [] [] [] ok.

Definition set_http_error (code : http_error) (message : bytes) (r : http_response) : http_response :=
  MkResponse (status r) (status_text r) (resp_headers r) (resp_body r) (final_url r)
    (if bool_decide (code = ok) then message else message ++ str " (code: " ++ str (http_error_code_name code) ++ str ")") code.

(** The codes of libcurl the client tells apart. *)
Inductive curl_code : Type :=
| CURLE_OK | CURLE_COULDNT_RESOLVE_HOST | CURLE_COULDNT_RESOLVE_PROXY | CURLE_COULDNT_CONNECT | CURLE_OPERATION_TIMEDOUT
| CURLE_PARTIAL_FILE | CURLE_ABORTED_BY_CALLBACK
| CURLE_SSL_CONNECT_ERROR | CURLE_PEER_FAILED_VERIFICATION | CURLE_SSL_CERTPROBLEM | CURLE_SSL_CIPHER | CURLE_SSL_ENGINE_NOTFOUND
| CURLE_SSL_ENGINE_SETFAILED | CURLE_SSL_ENGINE_INITFAILED | CURLE_SSL_CACERT_BADFILE | CURLE_SSL_SHUTDOWN_FAILED | CURLE_USE_SSL_FAILED
| CURLE_SSL_CRL_BADFILE | CURLE_SSL_ISSUER_ERROR | CURLE_SSL_PINNEDPUBKEYNOTMATCH | CURLE_SSL_INVALIDCERTSTATUS | CURLE_SSL_CLIENTCERT
| CURLE_OTHER (code : Z).

#[export] Instance curl_code_eq_dec : EqDecision curl_code.
Proof. solve_decision. Defined.

Definition http_error_from_curl (code : curl_code) : http_error :=
  match code with
  | CURLE_OK => ok
  | CURLE_COULDNT_RESOLVE_HOST | CURLE_COULDNT_RESOLVE_PROXY => dns
  | CURLE_COULDNT_CONNECT => connect
  | CURLE_OPERATION_TIMEDOUT => timeout
  | CURLE_PARTIAL_FILE => response_truncated
  | CURLE_ABORTED_BY_CALLBACK => abort
  | CURLE_OTHER _ => unknown
  | _ => tls
  end.

(** * Addresses *)

(** [std::isspace] in the "C" locale. *)
Definition is_space (c : Z) : bool := (c =? 32) || (9 <=? c) && (c <=? 13).

(** [std::atoi]; a value that does not fit an [int] is undefined. *)
Definition atoi (s : bytes) : outcome Z :=
  let t := drop_while is_space s in
  let '(negative, t) := match t with
                        | c :: t' => if c =? chr "-" then (true, t') else if c =? chr "+" then (false, t') else (false, t)
                        | [] => (false, t)
                        end in
  let v := digits_value (take_while is_digit t) in
  let v := if negative then - v else v in
  if (- 2 ^ 31 <=? v) && (v <? 2 ^ 31) then Ret v else Ub.

(** The parts of an address before its path, without user information. *)
Definition authority_of (stops : bytes) (url : bytes) : bytes :=
  let authority := match find_str (str "://") url with Some e => e + 3 | None => 0 end in
  let host_port := upto (any_of stops) (substr_from url authority) in
  match rfind_char (chr "@") host_port with Some at_ => substr_from host_port (at_ + 1) | None => host_port end.

Definition parse_url_for_cookies (url : bytes) : parsed_url :=
  let scheme_end := find_str (str "://") url in
  let scheme := match scheme_end with Some e => ascii_lower (substr url 0 e) | None => [] end in
  let authority := match scheme_end with Some e => e + 3 | None => 0 end in
  let path := match from (is_char (chr "/")) (substr_from url authority) with [] => str "/" | p => p end in
  let host_port := authority_of (str "/") url in
  let host :=
    match host_port with
    | c :: _ =>
        if c =? chr "[" then
          match find_char (chr "]") host_port 0 with None => host_port | Some e => substr host_port 1 (e - 1) end
        else match rfind_char (chr ":") host_port with None => host_port | Some colon => substr host_port 0 colon end
    | [] => []
    end in
  MkUrl scheme (ascii_lower host) path.

Definition default_port (scheme : bytes) : Z := if bool_decide (scheme = str "https") then 443 else 80.

Definition normalized_origin_key (url : bytes) : outcome bytes :=
  let scheme := match find_str (str "://") url with Some e => ascii_lower (substr url 0 e) | None => str "http" end in
  let host_port := authority_of (str "/?#") url in
  '(host, port) ←
    match host_port with
    | [] => Ret ([], default_port scheme)
    | c :: _ =>
        if c =? chr "[" then
          match find_char (chr "]") host_port 0 with
          | None => Ret (host_port, default_port scheme)
          | Some e =>
              port ← match zdrop (e + 1) host_port with
                     | x :: port_s => if (x =? chr ":") && negb (bool_decide (port_s = [])) then atoi port_s else Ret (default_port scheme)
                     | [] => Ret (default_port scheme)
                     end;
              Ret (substr host_port 1 (e - 1), port)
          end
        else
          match rfind_char (chr ":") host_port with
          | None => Ret (host_port, default_port scheme)
          | Some colon =>
              let port_s := substr_from host_port (colon + 1) in
              port ← (if negb (bool_decide (port_s = [])) && forallb is_digit port_s then atoi port_s else Ret (default_port scheme));
              Ret (substr host_port 0 colon, port)
          end
    end;
  let port := if port <=? 0 then default_port scheme else port in
  Ret (scheme ++ str "://" ++ ascii_lower host ++ str ":" ++ show_int port).

Definition is_https_url (url : bytes) : bool := starts_with (str "https://") (ascii_lower (ztake 8 url)).

(** * Requests *)

Record part : Type := MkPart {
  part_name : bytes; part_value : bytes; part_filename : bytes; part_content_type : bytes; part_bytes : bytes;
  part_streams : bool; part_size_hint : option Z; part_file : bool }.

Definition add_field (name value : bytes) (parts : list part) : list part := parts ++ [MkPart name value [] [] [] false None false].
Definition add_file (name filename content_type data : bytes) (parts : list part) : list part :=
  parts ++ [MkPart name [] filename content_type data false None true].
Definition add_file_stream (name filename content_type : bytes) (size_hint : option Z) (parts : list part) : list part :=
  parts ++ [MkPart name [] filename content_type [] true size_hint true].

(** [req_streams]: the body comes from a source the script feeds. *)
Record http_request : Type := MkHttp {
  req_method : bytes; req_url : bytes; req_headers : list (bytes * bytes); req_body : bytes; req_streams : bool;
  body_size_hint : option Z; follow_redirects : bool; timeout_ms : Z; req_proxy : bytes; req_range : bytes; multipart : list part }.

(** * Proxies *)

Section Environment.
(** [std::getenv]; [None] when a variable is not set. *)
Variable getenv : bytes -> option bytes.

Definition getenv_any (upper lower : string) : option bytes :=
  match getenv (str upper) with
  | Some (c :: v) => Some (c :: v)
  | _ => match getenv (str lower) with Some (c :: v) => Some (c :: v) | _ => None end
  end.

(** Whether one entry of [NO_PROXY] covers a host. *)
Definition no_proxy_token (host token : bytes) : bool :=
  let token := ascii_lower (trim token) in
  match token with
  | [] => false
  | c :: t =>
      if bool_decide (token = str "*") then true
      else
        let token := if c =? chr "." then t else token in
        bool_decide (host = token) ||
        (length token <? length host)%nat && ends_with token host &&
          bool_decide (host !! (length host - length token - 1)%nat = Some (chr "."))
  end.

Definition no_proxy_matches (no_proxy url : bytes) : bool :=
  existsb (no_proxy_token (host (parse_url_for_cookies url))) (getlines (chr ",") no_proxy).

(** The proxy, and whether [NO_PROXY] turned proxies off. *)
Definition proxy_from_env (url : bytes) : bytes * bool :=
  let disabled := match getenv_any "NO_PROXY" "no_proxy" with Some v => no_proxy_matches v url | None => false end in
  if disabled then ([], true)
  else
    let proxy := if bool_decide (scheme (parse_url_for_cookies url) = str "https") then getenv_any "HTTPS_PROXY" "https_proxy" else None in
    let proxy := match proxy with Some p => Some p | None => getenv_any "HTTP_PROXY" "http_proxy" end in
    (default [] proxy, false).

Inductive proxy_type : Type := PROXY_SOCKS5_HOSTNAME | PROXY_SOCKS5 | PROXY_SOCKS4A | PROXY_SOCKS4 | PROXY_HTTP.

Definition proxy_type_from_url (proxy : bytes) : proxy_type :=
  let lower := ascii_lower proxy in
  if starts_with (str "socks5h://") lower then PROXY_SOCKS5_HOSTNAME
  else if starts_with (str "socks5://") lower then PROXY_SOCKS5
  else if starts_with (str "socks4a://") lower then PROXY_SOCKS4A
  else if starts_with (str "socks4://") lower then PROXY_SOCKS4
  else PROXY_HTTP.

(** * The options of a transfer *)

Inductive curl_option : Type :=
| OPT_URL (s : bytes) | OPT_FOLLOWLOCATION (b : bool) | OPT_MAXREDIRS (n : Z) | OPT_NOSIGNAL | OPT_CALLBACKS
| OPT_SSL_VERIFYPEER (n : Z) | OPT_SSL_VERIFYHOST (n : Z) | OPT_MAXCONNECTS (n : Z)
| OPT_PROXY (s : bytes) | OPT_PROXYTYPE (t : proxy_type) | OPT_PROXYUSERPWD (s : bytes)
| OPT_TIMEOUT_MS (n : Z) | OPT_CONNECTTIMEOUT_MS (n : Z)
| OPT_MIMEPOST (parts : list part) | OPT_CUSTOMREQUEST (m : bytes) | OPT_HTTPGET | OPT_NOBODY | OPT_POST
| OPT_UPLOAD | OPT_READ | OPT_INFILESIZE (n : Z) | OPT_POSTFIELDSIZE (n : Z) | OPT_POSTFIELDS (b : bytes) | OPT_HTTPHEADER (lines : list bytes).

(** A string as libcurl sees it. *)
Definition c_str (s : bytes) : bytes := upto (is_char 0) s.

Definition configure_proxy (req : http_request) : list curl_option :=
  let '(proxy_url, disabled) := match req_proxy req with [] => proxy_from_env (req_url req) | p => (p, false) end in
  if disabled then [OPT_PROXY []]
  else
    match proxy_url with
    | [] => []
    | _ =>
        let authority := match find_str (str "://") proxy_url with Some e => e + 3 | None => 0 end in
        let '(proxy_url, userpwd) :=
          match find_char (chr "@") proxy_url authority with
          | Some at_ => (ztake authority proxy_url ++ zdrop (at_ + 1) proxy_url, substr proxy_url authority (at_ - authority))
          | None => (proxy_url, [])
          end in
        [OPT_PROXY (c_str proxy_url); OPT_PROXYTYPE (proxy_type_from_url proxy_url)] ++
        (match userpwd with [] => [] | _ => [OPT_PROXYUSERPWD (c_str userpwd)] end)
    end.

Definition header_exists (headers : list (bytes * bytes)) (lower_name : bytes) : bool :=
  existsb (fun h => bool_decide (ascii_lower h.1 = lower_name)) headers.

(** The loop that merges the jar's cookies into the first [Cookie] header: whether there
    was one. *)
Fixpoint merge_cookie (jar_cookie : bytes) (headers : list (bytes * bytes)) : bool * list (bytes * bytes) :=
  match headers with
  | [] => (false, [])
  | (k, v) :: headers' =>
      if bool_decide (ascii_lower k = str "cookie")
      then (true, (k, match v with [] => jar_cookie | _ => jar_cookie ++ str "; " ++ v end) :: headers')
      else let '(merged, h) := merge_cookie jar_cookie headers' in (merged, (k, v) :: h)
  end.

Definition request_headers (jar_cookie : bytes) (req : http_request) : list (bytes * bytes) :=
  let headers := req_headers req ++
    (if negb (bool_decide (req_range req = [])) && negb (header_exists (req_headers req) (str "range")) then [(str "Range", req_range req)] else []) in
  match jar_cookie with
  | [] => headers
  | _ => let '(merged, headers) := merge_cookie jar_cookie headers in if (merged : bool) then headers else headers ++ [(str "Cookie", jar_cookie)]
  end.

Definition infile_size (req : http_request) (otherwise : list curl_option) : list curl_option :=
  match body_size_hint req with Some n => [OPT_INFILESIZE n] | None => otherwise end.

Definition body_options (req : http_request) : list curl_option :=
  let m := req_method req in
  if negb (bool_decide (multipart req = [])) then
    OPT_MIMEPOST (multipart req) :: (if negb (bool_decide (m = [])) && negb (bool_decide (m = str "POST")) then [OPT_CUSTOMREQUEST (c_str m)] else [])
  else if bool_decide (m = str "GET" \/ m = []) then [OPT_HTTPGET]
  else if bool_decide (m = str "HEAD") then [OPT_NOBODY]
  else if bool_decide (m = str "POST") then
    if req_streams req then [OPT_CUSTOMREQUEST (c_str m); OPT_UPLOAD; OPT_READ] ++ infile_size req []
    else [OPT_POST; OPT_POSTFIELDSIZE (zlen (req_body req)); OPT_POSTFIELDS (req_body req)]
  else
    OPT_CUSTOMREQUEST (c_str m) ::
    (if req_streams req || negb (bool_decide (req_body req = [])) then
       [OPT_UPLOAD; OPT_READ] ++ infile_size req (if req_streams req then [] else [OPT_INFILESIZE (zlen (req_body req))])
     else []).

Definition kMaxActiveTotal : Z := 64.
Definition kMaxActivePerOrigin : Z := 6.
Definition kMaxPendingTotal : Z := 256.

(** What [start_request] hands to libcurl. *)
Definition request_options (jar_cookie : bytes) (req : http_request) : list curl_option :=
  let t := timeout_ms req in
  let headers := request_headers jar_cookie req in
  [OPT_URL (c_str (req_url req)); OPT_FOLLOWLOCATION (follow_redirects req); OPT_MAXREDIRS 20; OPT_NOSIGNAL; OPT_CALLBACKS;
   OPT_SSL_VERIFYPEER 1; OPT_SSL_VERIFYHOST 2; OPT_MAXCONNECTS kMaxActiveTotal] ++
  configure_proxy req ++
  [OPT_TIMEOUT_MS (if 0 <? t then t else 60000); OPT_CONNECTTIMEOUT_MS (if 0 <? t then t else 30000)] ++
  body_options req ++
  (match headers with [] => [] | _ => [OPT_HTTPHEADER (map (fun h => c_str (h.1 ++ str ": " ++ h.2)) headers)] end).
End Environment.

(** * A transfer *)

(** What libcurl's callbacks collect; [upload_off]: how much of the body was read. *)
Record transfer : Type := MkTransfer {
  t_status_text : bytes; t_headers : list (bytes * bytes); t_set_cookies : list bytes; body_buf : bytes; upload_buf : bytes; upload_off : Z }.

Definition write_cb (data : bytes) (t : transfer) : transfer :=
  MkTransfer (t_status_text t) (t_headers t) (t_set_cookies t) (body_buf t ++ data) (upload_buf t) (upload_off t).

(** Line ends off the end. *)
Definition chomp (line : bytes) : bytes := reverse (drop_while (fun c => (c =? 10) || (c =? 13)) (reverse line)).

Definition header_cb (data : bytes) (t : transfer) : transfer :=
  let line := chomp data in
  match line with
  | [] => t
  | _ =>
      if starts_with (str "HTTP/") line then
        let text := match find_char (chr " ") line 0 with
                    | None => t_status_text t
                    | Some sp1 => match find_char (chr " ") line (sp1 + 1) with Some sp2 => substr_from line (sp2 + 1) | None => t_status_text t end
                    end in
        MkTransfer text [] (t_set_cookies t) (body_buf t) (upload_buf t) (upload_off t)
      else
        match from (is_char (chr ":")) line with
        | [] => t
        | _ :: rest =>
            let name := upto (is_char (chr ":")) line in
            let val := drop_while (fun c => (c =? chr " ") || (c =? 9)) rest in
            MkTransfer (t_status_text t) (t_headers t ++ [(name, val)])
              (if bool_decide (ascii_lower name = str "set-cookie") then t_set_cookies t ++ [val] else t_set_cookies t)
              (body_buf t) (upload_buf t) (upload_off t)
        end
  end.

(** Reading [want] bytes of a body in memory. *)
Definition read_cb (want : Z) (t : transfer) : bytes * transfer :=
  let avail := zlen (upload_buf t) - upload_off t in
  let n := if avail <? want then avail else want in
  (zsub (upload_off t) n (upload_buf t),
   MkTransfer (t_status_text t) (t_headers t) (t_set_cookies t) (body_buf t) (upload_buf t) (upload_off t + n)).

(** Reading from a source, which answers with some bytes and whether it is done; [None]
    pauses the transfer until [resume_upload]. *)
Definition read_source (answer : bytes * bool) : option bytes :=
  match answer.1 with [] => if answer.2 then Some [] else None | data => Some data end.
