(* ===== verification/HttpPool.v ===== *)
(** The request pool of the HTTP client ([http_client] of [src/net/http_client.cpp]):
    limits, the queue, completion and cancellation.

    Completion callbacks run scripts, which submit and cancel requests before they
    return; the C++ stack is part of the state, and a script's calls are steps.  libcurl
    is the environment: it decides whether a transfer can be set up, delivers headers
    and data and reports transfers that ended.  The cookie jar is behind an interface.
    Ids are taken from a 64-bit counter, which does not wrap in practice. *)

From S2P Require Import Prelude Strings CookieJar HttpRequest.

(** What the client asks of a cookie jar; [Ub]: as [set_from_header]. *)
Class CookieStore (J : Type) := {
  pick : bytes -> J -> bytes;
  store : bytes -> bytes -> J -> outcome J }.

(** The jar of [cookie_jar.cpp] at a point in time. *)
#[export] Instance jar_store (can_write : bytes -> bool) (get_time : Z -> bytes -> option Z) (now : Z) :
  CookieStore (cookie_jar * gmap bytes bytes) := {|
  pick := fun url j => pick_for_request now url j.1;
  store := fun header url j => '(_, j', files) ← set_from_header can_write get_time now header url j.1 j.2; Ret (j', files) |}.

(** * State *)

(** A request that waits; [pending_fifo] and [pending_by_id] share it. *)
Record queued_request : Type := MkQueued { q_id : Z; q_req : http_request; q_origin : bytes; q_aborted : bool; q_settled : bool }.

(** A request libcurl works on. *)
Record in_flight : Type := MkFlight { f_url : bytes; f_origin : bytes; f_options : list curl_option; f_transfer : transfer }.

Record impl {J : Type} : Type := MkImpl {
  supports_https : bool; next_id : Z; by_id : gmap Z in_flight; active_by_origin : gmap bytes Z; active_total : Z;
  pending_fifo : list queued_request; pending_by_id : gset Z; pending_total : Z; jar : J;
  errors : list bytes; calls : list (Z * http_response) }.
Arguments impl : clear implicits.
Arguments MkImpl {J}.

(** What is still to be done on the stack. *)
Inductive frame : Type :=
| Script                                       (** a callback runs *)
| AdmitNext                                    (** [admit_pending()] comes next *)
| Admit (i batch : Z) (admitted_any : bool)    (** in its loop over the queue *)
| Poll.                                        (** in the loop of [poll_once] *)

Section Pool.
Context {J : Type} `{CookieStore J}.
Variable getenv : bytes -> option bytes.
(** Whether libcurl could be set up, once and for all. *)
Variable curl_ok : bool.
Notation impl := (impl J).

Definition with_errors (e : list bytes) (p : impl) : impl :=
  MkImpl (supports_https p) (next_id p) (by_id p) (active_by_origin p) (active_total p) (pending_fifo p) (pending_by_id p) (pending_total p) (jar p) e (calls p).
Definition with_calls (c : list (Z * http_response)) (p : impl) : impl :=
  MkImpl (supports_https p) (next_id p) (by_id p) (active_by_origin p) (active_total p) (pending_fifo p) (pending_by_id p) (pending_total p) (jar p) (errors p) c.
Definition with_flights (f : gmap Z in_flight) (p : impl) : impl :=
  MkImpl (supports_https p) (next_id p) f (active_by_origin p) (active_total p) (pending_fifo p) (pending_by_id p) (pending_total p) (jar p) (errors p) (calls p).
Definition with_active (o : gmap bytes Z) (n : Z) (p : impl) : impl :=
  MkImpl (supports_https p) (next_id p) (by_id p) o n (pending_fifo p) (pending_by_id p) (pending_total p) (jar p) (errors p) (calls p).
Definition with_queue (q : list queued_request) (ids : gset Z) (n : Z) (p : impl) : impl :=
  MkImpl (supports_https p) (next_id p) (by_id p) (active_by_origin p) (active_total p) q ids n (jar p) (errors p) (calls p).
Definition with_jar (j : J) (p : impl) : impl :=
  MkImpl (supports_https p) (next_id p) (by_id p) (active_by_origin p) (active_total p) (pending_fifo p) (pending_by_id p) (pending_total p) j (errors p) (calls p).
Definition with_next_id (n : Z) (p : impl) : impl :=
  MkImpl (supports_https p) n (by_id p) (active_by_origin p) (active_total p) (pending_fifo p) (pending_by_id p) (pending_total p) (jar p) (errors p) (calls p).

Definition new_impl (https : bool) (j : J) : impl := MkImpl https 1 ∅ ∅ 0 [] ∅ 0 j [] [].

Definition report_error (message : bytes) (p : impl) : impl := with_errors (errors p ++ [message]) p.

(** * Limits *)

Definition active_for (origin : bytes) (p : impl) : Z := default 0 (active_by_origin p !! origin).

Definition can_start (origin : bytes) (p : impl) : bool :=
  negb (kMaxActiveTotal <=? active_total p) && (active_for origin p <? kMaxActivePerOrigin).

Definition note_active (origin : bytes) (p : impl) : impl :=
  with_active (<[origin := active_for origin p + 1]> (active_by_origin p)) (active_total p + 1) p.

Definition release_active (origin : bytes) (p : impl) : impl :=
  let p := if active_total p =? 0 then report_error (str "http_client pool release underflow") p
           else with_active (active_by_origin p) (active_total p - 1) p in
  match active_by_origin p !! origin with
  | None | Some 0 => report_error (str "http_client origin release underflow: " ++ origin) p
  | Some n =>
      with_active (if n - 1 =? 0 then delete origin (active_by_origin p) else <[origin := n - 1]> (active_by_origin p)) (active_total p) p
  end.

(** * Starting a request *)

(** How setting up a transfer ends; [curl_mime_init] is only called for forms. *)
Inductive start_result : Type := Started | No_easy | No_mime | Not_added (message : bytes).

(** The callback of a request runs: its script is on the stack. *)
Definition call_back (id : Z) (r : http_response) (p : impl) (stack : list frame) : impl * list frame :=
  (with_calls (calls p ++ [(id, r)]) p, Script :: stack).

Definition reject_request (id : Z) (code : http_error) (message : string) (p : impl) (stack : list frame) : impl * list frame :=
  call_back id (set_http_error code (str message) no_response) p stack.

Definition start_request (id : Z) (req : http_request) (origin : bytes) (r : start_result) (p : impl) (stack : list frame) : impl * list frame :=
  match r with
  | No_easy => reject_request id unknown "curl_easy_init failed" p stack
  | No_mime => reject_request id unknown "curl_mime_init failed" p stack
  | Not_added message =>
      reject_request id unknown "curl_multi_add_handle failed"
        (report_error (str "http_client curl_multi_add_handle failed: " ++ message) p) stack
  | Started =>
      let fl := MkFlight (req_url req) origin (request_options getenv (pick (req_url req) (jar p)) req)
                  (MkTransfer [] [] [] [] (req_body req) 0) in
      (note_active origin (with_flights (<[id := fl]> (by_id p)) p), stack)
  end.

(** * The queue *)

Definition is_live (q : queued_request) (p : impl) : bool :=
  negb (q_settled q) && negb (q_aborted q) && bool_decide (q_id q ∈ pending_by_id p).

(** [admit_pending()] from its start: the condition of its outer loop. *)
Definition begin_admit (p : impl) (stack : list frame) : list frame :=
  if (active_total p <? kMaxActiveTotal) && negb (bool_decide (pending_fifo p = []))
  then Admit 0 (zlen (pending_fifo p)) false :: stack else stack.

(** One turn of its inner loop. *)
Definition admit_turn (r : start_result) (i batch : Z) (admitted_any : bool) (p : impl) (stack : list frame) : outcome (impl * list frame) :=
  match pending_fifo p with
  | [] => Ub
  | q :: fifo =>
      let popped := with_queue fifo (pending_by_id p) (pending_total p) p in
      if negb (is_live q p) then Ret (popped, Admit (i + 1) batch admitted_any :: stack)
      else if negb (can_start (q_origin q) p) then
        Ret (with_queue (fifo ++ [q]) (pending_by_id p) (pending_total p) p, Admit (i + 1) batch admitted_any :: stack)
      else
        let n := if 0 <? pending_total p then pending_total p - 1 else pending_total p in
        Ret (start_request (q_id q) (q_req q) (q_origin q) r (with_queue fifo (pending_by_id p ∖ {[q_id q]}) n p) (Admit (i + 1) batch true :: stack))
  end.

Definition admit_step (r : start_result) (i batch : Z) (admitted_any : bool) (p : impl) (stack : list frame) : outcome (impl * list frame) :=
  if (i <? batch) && (active_total p <? kMaxActiveTotal) then admit_turn r i batch admitted_any p stack
  else if admitted_any then Ret (p, begin_admit p stack)
  else Ret (p, stack).

(** * Calls *)

Definition submit (req : http_request) (r : start_result) (p : impl) (stack : list frame) : outcome (impl * list frame) :=
  let id := next_id p in
  let p := with_next_id (id + 1) p in
  if negb (curl_ok) then
    Ret (reject_request id no_backend
           (if is_https_url (req_url req) then "fetch unavailable: HTTPS requires libcurl built with TLS and https protocol support"
            else "fetch unavailable: libcurl not linked") p stack)
  else if is_https_url (req_url req) && negb (supports_https p) then
    Ret (reject_request id tls "fetch unavailable: HTTPS requires libcurl built with TLS and https protocol support" p stack)
  else
    origin ← normalized_origin_key (req_url req);
    if can_start origin p then Ret (start_request id req origin r p stack)
    else if kMaxPendingTotal <=? pending_total p then Ret (reject_request id unknown "NetworkError: request queue full" p stack)
    else Ret (with_queue (pending_fifo p ++ [MkQueued id req origin false false]) ({[id]} ∪ pending_by_id p) (pending_total p + 1) p, stack).

Definition settle_aborted (id : Z) (q : queued_request) : queued_request :=
  if bool_decide (q_id q = id) then MkQueued (q_id q) (q_req q) (q_origin q) true true else q.

(** The response of a transfer so far. *)
Definition response_of (t : transfer) : http_response := MkResponse 0 (t_status_text t) (t_headers t) [] [] [] ok.

Definition abort_request (id : Z) (p : impl) (stack : list frame) : impl * list frame :=
  if bool_decide (id ∈ pending_by_id p) then
    let n := if 0 <? pending_total p then pending_total p - 1 else pending_total p in
    reject_request id abort "aborted" (with_queue (map (settle_aborted id) (pending_fifo p)) (pending_by_id p ∖ {[id]}) n p) stack
  else
    match by_id p !! id with
    | None => (p, stack)
    | Some fl =>
        let p := release_active (f_origin fl) (with_flights (delete id (by_id p)) p) in
        call_back id (set_http_error abort (str "aborted") (response_of (f_transfer fl))) p (AdmitNext :: stack)
    end.

(** * Polling *)

(** What [curl_multi_perform] does to a transfer. *)
Inductive curl_event : Type := Header (line : bytes) | Data (data : bytes) | Read (want : Z).

Definition on_event (e : curl_event) (fl : in_flight) : in_flight :=
  MkFlight (f_url fl) (f_origin fl) (f_options fl)
    match e with
    | Header line => header_cb line (f_transfer fl)
    | Data data => write_cb data (f_transfer fl)
    | Read want => (read_cb want (f_transfer fl)).2
    end.

Definition perform_event (p : impl) (e : Z * curl_event) : impl := with_flights (alter (on_event e.2) e.1 (by_id p)) p.

(** The answers of [curl_easy_getinfo], and the text of the error. *)
Record outcome_info : Type := MkInfo { result : curl_code; i_status : Z; effective_url : option bytes; error_text : bytes }.

Fixpoint store_all (headers : list bytes) (url : bytes) (j : J) : outcome J :=
  match headers with [] => Ret j | h :: headers' => j ← store h url j; store_all headers' url j end.

Definition curl_error_message (i : outcome_info) : bytes := str "fetch failed: libcurl error " ++ error_text i.

Definition finished_response (fl : in_flight) (i : outcome_info) : http_response :=
  let t := f_transfer fl in
  let r := MkResponse (i_status i) (t_status_text t) (t_headers t) (body_buf t) (default [] (effective_url i)) [] ok in
  if bool_decide (result i = CURLE_OK) then r else set_http_error (http_error_from_curl (result i)) (curl_error_message i) r.

Definition finish_active (id : Z) (fl : in_flight) (i : outcome_info) (p : impl) (stack : list frame) : outcome (impl * list frame) :=
  let r := finished_response fl i in
  let cookie_url := match final_url r with [] => f_url fl | u => u end in
  j ← (if bool_decide (result i = CURLE_OK) then store_all (t_set_cookies (f_transfer fl)) cookie_url (jar p) else Ret (jar p));
  let p := release_active (f_origin fl) (with_flights (delete id (by_id p)) (with_jar j p)) in
  Ret (call_back id r p (AdmitNext :: stack)).

(** * Steps *)

Definition state : Type := impl * list frame.

Inductive action : Type :=
| Submit (req : http_request) (r : start_result)
| Abort (id : Z)
| Poll_once (events : list (Z * curl_event))   (** by the host: [curl_multi_perform] *)
| Completed (id : Z) (i : outcome_info)        (** [curl_multi_info_read] reports a transfer *)
| No_message                                   (** ... has no more *)
| Return                                       (** a script returns *)
| Continue (r : start_result).                 (** the client's own next step *)

(** A form is needed for [No_mime]. *)
Definition possible (req : http_request) (r : start_result) : bool :=
  match r with No_mime => negb (bool_decide (multipart req = [])) | _ => true end.

(** Whether a script (or the host) has control. *)
Definition in_script (stack : list frame) : bool := match stack with [] | Script :: _ => true | _ => false end.

(** [None]: not possible now. *)
Definition step (a : action) (s : state) : outcome (option state) :=
  let '(p, stack) := s in
  match a with
  | Submit req r => if in_script stack && possible req r then Some <$> submit req r p stack else Ret None
  | Abort id => Ret (if in_script stack then Some (abort_request id p stack) else None)
  | Poll_once events =>
      Ret (match stack with [] => Some (if curl_ok then (foldl perform_event p events, [Poll]) else (p, [])) | _ => None end)
  | Completed id i =>
      match stack, by_id p !! id with
      | Poll :: _, Some fl => Some <$> finish_active id fl i p stack
      | _, _ => Ret None
      end
  | No_message => Ret (match stack with Poll :: stack' => Some (p, stack') | _ => None end)
  | Return => Ret (match stack with Script :: stack' => Some (p, stack') | _ => None end)
  | Continue r =>
      match stack with
      | AdmitNext :: stack' => Ret (Some (p, begin_admit p stack'))
      | Admit i batch admitted_any :: stack' => Some <$> admit_step r i batch admitted_any p stack'
      | _ => Ret None
      end
  end.

Fixpoint run (l : list action) (s : state) : outcome (option state) :=
  match l with
  | [] => Ret (Some s)
  | a :: l' => o ← step a s; match o with Some s' => run l' s' | None => Ret None end
  end.
End Pool.
