(* ===== verification/HttpPoolFacts.v ===== *)
(** The request pool: limits and accounts, every request is answered once, no request
    waits while it could run; what modelling showed. *)

From S2P Require Import Prelude Strings CookieJar HttpRequest HttpPool.

(** * Requests per origin *)

Definition count_origin (o : bytes) (m : gmap Z in_flight) : Z := Z.of_nat (size (filter (fun kv => f_origin kv.2 = o) m)).

Lemma count_origin_insert o id fl m : m !! id = None ->
  count_origin o (<[id := fl]> m) = count_origin o m + Z.b2z (bool_decide (f_origin fl = o)).
Proof.
  intros Hn. unfold count_origin. rewrite map_filter_insert. cbn [snd]. destruct (decide (f_origin fl = o)) as [E|E].
  - rewrite bool_decide_eq_true_2, map_size_insert_None by (done || by apply map_lookup_filter_None_2; left). cbn. lia.
  - rewrite bool_decide_eq_false_2, delete_id by done. cbn. lia.
Qed.

Lemma count_origin_delete o id fl m : m !! id = Some fl ->
  count_origin o (delete id m) = count_origin o m - Z.b2z (bool_decide (f_origin fl = o)).
Proof.
  intros Hs. rewrite <- (insert_delete_id m id fl) at 2 by done. rewrite count_origin_insert by apply lookup_delete_eq. lia.
Qed.

Lemma count_origin_pos o id fl m : m !! id = Some fl -> f_origin fl = o -> 0 < count_origin o m.
Proof.
  intros Hs Ho. pose proof (count_origin_delete o id fl m Hs) as E. rewrite bool_decide_eq_true_2 in E by done. cbn in E.
  unfold count_origin in *. lia.
Qed.

Lemma alter_is_insert {A} (f : A -> A) (m : gmap Z A) id x : m !! id = Some x -> alter f id m = <[id := f x]> (delete id m).
Proof.
  intros Hs. apply map_eq. intros j. destruct (decide (j = id)) as [->|Hj].
  - by rewrite lookup_alter_eq, Hs, lookup_insert_eq.
  - by rewrite lookup_alter_ne, lookup_insert_ne, lookup_delete_ne by done.
Qed.

Lemma count_origin_alter o id f m : (forall fl, f_origin (f fl) = f_origin fl) -> count_origin o (alter f id m) = count_origin o m.
Proof.
  intros Hf. destruct (m !! id) as [fl|] eqn:E.
  - rewrite (alter_is_insert _ _ _ _ E), count_origin_insert by apply lookup_delete_eq. rewrite (count_origin_delete o id fl) by done. rewrite Hf. lia.
  - assert (Ea : alter f id m = m) by (apply map_eq; intros j; destruct (decide (j = id)) as [->|Hj]; [by rewrite lookup_alter_eq, E|by rewrite lookup_alter_ne]).
    by rewrite Ea.
Qed.

(** * The invariant *)

Section Invariant.
Context {J : Type}.
Notation impl := (impl J).

Definition times_called (id : Z) (p : impl) : Z := zlen (filter (fun c => c.1 = id) (calls p)).

(** In how many places a request is: with libcurl, in the queue, answered, or ([t])
    in the hands of the function that runs. *)
Definition places (t : option Z) (id : Z) (p : impl) : Z :=
  Z.b2z (bool_decide (is_Some (by_id p !! id))) + Z.b2z (bool_decide (id ∈ pending_by_id p)) + times_called id p + Z.b2z (bool_decide (t = Some id)).

Record queue_ok (p : impl) : Prop := {
  queue_ids : NoDup (q_id <$> pending_fifo p);
  queue_flags : Forall (fun q => q_aborted q = q_settled q /\ (q_settled q = false <-> q_id q ∈ pending_by_id p) /\ q_id q < next_id p) (pending_fifo p);
  queue_all : forall id, id ∈ pending_by_id p -> id ∈ q_id <$> pending_fifo p;
  queue_total : pending_total p = Z.of_nat (size (pending_by_id p));
  queue_limit : pending_total p <= kMaxPendingTotal }.

Record inv (t : option Z) (p : impl) : Prop := {
  inv_total : active_total p = Z.of_nat (size (by_id p));
  inv_origins : forall o, active_for o p = count_origin o (by_id p);
  inv_limit : active_total p <= kMaxActiveTotal;
  inv_origin_limit : forall o, active_for o p <= kMaxActivePerOrigin;
  inv_next : 1 <= next_id p;
  inv_place : forall id, places t id p = Z.b2z ((1 <=? id) && (id <? next_id p));
  inv_queue : queue_ok p;
  inv_errors : Forall (fun e => starts_with (str "http_client curl_multi_add_handle failed: ") e = true) (errors p) }.

Lemma times_called_nonneg id p : 0 <= times_called id p.
Proof. unfold times_called. lia. Qed.

Lemma b2z_nonneg b : 0 <= Z.b2z b <= 1.
Proof. destruct b; cbn; lia. Qed.

(** Where a request is, it is nowhere else. *)
Lemma transit_place id p : inv (Some id) p -> by_id p !! id = None /\ id ∉ pending_by_id p /\ times_called id p = 0 /\ 1 <= id < next_id p.
Proof.
  intros Hi. pose proof (inv_place _ _ Hi id) as E. unfold places in E. rewrite (bool_decide_eq_true_2 (Some id = Some id)) in E by done.
  pose proof (times_called_nonneg id p). pose proof (b2z_nonneg (bool_decide (is_Some (by_id p !! id)))). pose proof (b2z_nonneg (bool_decide (id ∈ pending_by_id p))).
  destruct (Z.leb_spec 1 id), (Z.ltb_spec id (next_id p)); cbn [andb Z.b2z] in E; try lia.
  case_bool_decide as E1; case_bool_decide as E2; cbn [Z.b2z] in *; try lia. split; [|split; [done|lia]].
  by apply eq_None_not_Some.
Qed.

Lemma flight_place t id fl p : inv t p -> by_id p !! id = Some fl -> id ∉ pending_by_id p /\ times_called id p = 0 /\ t <> Some id /\ 1 <= id < next_id p.
Proof.
  intros Hi Hs. pose proof (inv_place _ _ Hi id) as E. unfold places in E. rewrite Hs, bool_decide_eq_true_2 in E by done.
  pose proof (times_called_nonneg id p). destruct (Z.leb_spec 1 id), (Z.ltb_spec id (next_id p)); cbn [andb Z.b2z] in E;
    case_bool_decide as E1; case_bool_decide as E2; cbn [Z.b2z] in *; try lia. split_and!; (done || lia).
Qed.

Lemma pending_place t id p : inv t p -> id ∈ pending_by_id p -> by_id p !! id = None /\ times_called id p = 0 /\ t <> Some id /\ 1 <= id < next_id p.
Proof.
  intros Hi Hs. pose proof (inv_place _ _ Hi id) as E. unfold places in E. rewrite (bool_decide_eq_true_2 (id ∈ _)) in E by done.
  pose proof (times_called_nonneg id p). destruct (Z.leb_spec 1 id), (Z.ltb_spec id (next_id p)); cbn [andb Z.b2z] in E;
    case_bool_decide as E1; case_bool_decide as E2; cbn [Z.b2z] in *; try lia.
  apply eq_None_not_Some in E1. split_and!; (done || lia).
Qed.
End Invariant.

Ltac simpl_pool := cbn [supports_https next_id by_id active_by_origin active_total pending_fifo pending_by_id pending_total jar errors calls
  with_errors with_calls with_flights with_active with_queue with_jar with_next_id report_error fst snd].

Section Preserved.
Context {J : Type} `{CookieStore J}.
Variable getenv : bytes -> option bytes.
Notation impl := (impl J).

Lemma times_called_app id c (p : impl) : times_called id (with_calls (calls p ++ [c]) p) = times_called id p + Z.b2z (bool_decide (c.1 = id)).
Proof.
  unfold times_called. simpl_pool. rewrite filter_app, length_app, filter_cons. destruct (decide (c.1 = id)) as [E|E].
  - rewrite bool_decide_eq_true_2 by done. cbn. lia.
  - rewrite bool_decide_eq_false_2 by done. cbn. lia.
Qed.

(** A callback takes the request out of the hands of the function. *)
Lemma inv_call_back id r stack (p : impl) : inv (Some id) p -> inv None (call_back id r p stack).1.
Proof.
  intros Hi. pose proof Hi as [I1 I2 I3 I4 I5 I6 [Q1 Q2 Q3 Q4 Q5] I8]. unfold call_back. split; simpl_pool; try done.
  intros id'. specialize (I6 id'). unfold places in *. rewrite times_called_app. cbn [fst]. simpl_pool.
  rewrite (bool_decide_eq_false_2 (None = Some id')) by done. rewrite <- I6. cbn [Z.b2z]. destruct (decide (id = id')) as [->|E].
  - rewrite !(bool_decide_eq_true_2 (_ = _)) by done. lia.
  - rewrite !(bool_decide_eq_false_2 (_ = _)) by congruence. lia.
Qed.

Lemma inv_report t e (p : impl) : starts_with (str "http_client curl_multi_add_handle failed: ") e = true -> inv t p -> inv t (report_error e p).
Proof. intros He [I1 I2 I3 I4 I5 I6 [Q1 Q2 Q3 Q4 Q5] I8]. split; simpl_pool; try done. apply Forall_app. split; [done|]. by constructor. Qed.

Lemma inv_reject id code message stack (p : impl) : inv (Some id) p -> inv None (reject_request id code message p stack).1.
Proof. apply inv_call_back. Qed.

Lemma active_for_note o origin (p : impl) : active_for o (note_active origin p) = active_for o p + Z.b2z (bool_decide (origin = o)).
Proof.
  unfold active_for, note_active. simpl_pool. destruct (decide (origin = o)) as [->|E].
  - rewrite lookup_insert_eq, bool_decide_eq_true_2 by done. done.
  - rewrite lookup_insert_ne, bool_decide_eq_false_2 by done. cbn. lia.
Qed.

Lemma can_start_spec o (p : impl) : can_start o p = true <-> active_total p < kMaxActiveTotal /\ active_for o p < kMaxActivePerOrigin.
Proof. unfold can_start. rewrite andb_true_iff, negb_true_iff, Z.leb_gt, Z.ltb_lt. done. Qed.

(** Where a request goes changes its places only. *)
Lemma places_move t t' (p p' : impl) :
  (forall id', places t' id' p' = places t id' p) -> next_id p' = next_id p ->
  (forall id, places t id p = Z.b2z ((1 <=? id) && (id <? next_id p))) -> forall id, places t' id p' = Z.b2z ((1 <=? id) && (id <? next_id p')).
Proof. intros Hp Hn Hi id'. by rewrite Hp, Hn. Qed.

Ltac move_place t := match goal with |- forall id, places ?t' id ?p' = _ => eapply (places_move t t' _ p'); [| |eassumption]; [|reflexivity] end.

Lemma inv_start id req origin stack (p : impl) : inv (Some id) p -> can_start origin p = true ->
  inv None (start_request getenv id req origin Started p stack).1.
Proof.
  intros Hi [Ht Ho]%can_start_spec. pose proof (transit_place _ _ Hi) as (Hn & Hnp & Hc & Hr).
  destruct Hi as [I1 I2 I3 I4 I5 I6 [Q1 Q2 Q3 Q4 Q5] I8]. unfold start_request. set (fl := MkFlight _ _ _ _).
  assert (Ef : f_origin fl = origin) by done. clearbody fl. split; cbn [fst].
  - simpl_pool. unfold note_active. simpl_pool. rewrite map_size_insert_None by done. lia.
  - intros o. rewrite active_for_note. unfold active_for at 1. unfold note_active. simpl_pool. fold (active_for o p).
    rewrite count_origin_insert, I2, Ef by done. done.
  - unfold note_active. simpl_pool. lia.
  - intros o. rewrite active_for_note. unfold active_for. simpl_pool. fold (active_for o p). specialize (I4 o).
    destruct (decide (origin = o)) as [->|E]; [rewrite bool_decide_eq_true_2 by done; cbn; lia|rewrite bool_decide_eq_false_2 by done; cbn; lia].
  - done.
  - move_place (Some id). intros id'. unfold places, times_called, note_active. simpl_pool.
    rewrite (bool_decide_eq_false_2 (None = Some id')) by done. destruct (decide (id' = id)) as [->|E].
    + rewrite lookup_insert_eq, Hn, !(bool_decide_eq_true_2 (_ = _)), (bool_decide_eq_true_2 (is_Some (Some fl))), (bool_decide_eq_false_2 (is_Some None)) by (done || by intros [? [=]]).
      cbn. lia.
    + rewrite lookup_insert_ne, (bool_decide_eq_false_2 (Some id = Some id')) by congruence. cbn. lia.
  - by split.
  - done.
Qed.

(** A request leaves libcurl. *)
Lemma release_active_ok origin (p : impl) : 0 < active_total p -> 0 < active_for origin p ->
  active_total (release_active origin p) = active_total p - 1 /\
  (forall o, active_for o (release_active origin p) = active_for o p - Z.b2z (bool_decide (origin = o))) /\
  next_id (release_active origin p) = next_id p /\ by_id (release_active origin p) = by_id p /\ pending_fifo (release_active origin p) = pending_fifo p /\
  pending_by_id (release_active origin p) = pending_by_id p /\ pending_total (release_active origin p) = pending_total p /\
  errors (release_active origin p) = errors p /\ calls (release_active origin p) = calls p /\ jar (release_active origin p) = jar p /\
  supports_https (release_active origin p) = supports_https p.
Proof.
  intros Ht Ho. unfold release_active. destruct (Z.eqb_spec (active_total p) 0) as [?|_]; [lia|]. simpl_pool. unfold active_for in Ho.
  destruct (active_by_origin p !! origin) as [n|] eqn:E; cbn [default] in Ho; [|cbn in Ho; lia]. cbn in Ho.
  assert (En : match n with 0 => report_error (str "http_client origin release underflow: " ++ origin) (with_active (active_by_origin p) (active_total p - 1) p)
    | _ => with_active (if n - 1 =? 0 then delete origin (active_by_origin p) else <[origin := n - 1]> (active_by_origin p)) (active_total p - 1) (with_active (active_by_origin p) (active_total p - 1) p) end =
    with_active (if n - 1 =? 0 then delete origin (active_by_origin p) else <[origin := n - 1]> (active_by_origin p)) (active_total p - 1) (with_active (active_by_origin p) (active_total p - 1) p)) by (destruct n; [lia|done|done]).
  rewrite En. simpl_pool. split; [done|]. split; [|split_and!; done]. intros o. unfold active_for. simpl_pool.
  destruct (decide (origin = o)) as [->|Hne].
  - rewrite bool_decide_eq_true_2, E by done. destruct (Z.eqb_spec (n - 1) 0).
    + rewrite lookup_delete_eq. cbn. lia.
    + rewrite lookup_insert_eq. done.
  - rewrite bool_decide_eq_false_2 by done. destruct (Z.eqb_spec (n - 1) 0); [rewrite lookup_delete_ne by done|rewrite lookup_insert_ne by done]; cbn; lia.
Qed.

Lemma inv_release id fl (p : impl) : inv None p -> by_id p !! id = Some fl ->
  inv (Some id) (release_active (f_origin fl) (with_flights (delete id (by_id p)) p)).
Proof.
  intros Hi Hs. pose proof (flight_place _ _ _ _ Hi Hs) as (Hnp & Hc & _ & Hr). destruct Hi as [I1 I2 I3 I4 I5 I6 [Q1 Q2 Q3 Q4 Q5] I8].
  set (q := with_flights (delete id (by_id p)) p). assert (Hpos : 0 < active_for (f_origin fl) p) by (rewrite I2; by eapply count_origin_pos).
  assert (Hsz : Z.of_nat (size (delete id (by_id p))) = active_total p - 1).
  { rewrite map_size_delete, Hs. assert (size (by_id p) <> 0%nat) by (intros Hz; apply map_size_empty_inv in Hz; by rewrite Hz, lookup_empty in Hs). lia. }
  destruct (release_active_ok (f_origin fl) q) as (R1 & R2 & R3 & R4 & R5 & R6 & R7 & R8 & R9 & _ & _); [unfold q; simpl_pool; lia|exact Hpos|].
  set (r := release_active (f_origin fl) q) in *. clearbody r.
  assert (Hq : forall o, active_for o q = active_for o p) by done. split.
  - rewrite R1, R4. unfold q. simpl_pool. lia.
  - intros o. rewrite R2, R4, Hq, I2. unfold q. simpl_pool. by rewrite (count_origin_delete o id fl).
  - rewrite R1. unfold q. simpl_pool. lia.
  - intros o. rewrite R2, Hq. specialize (I4 o). pose proof (b2z_nonneg (bool_decide (f_origin fl = o))). lia.
  - by rewrite R3.
  - eapply (places_move None (Some id) p); [|by rewrite R3|done]. intros id'. unfold places, times_called. rewrite R4, R6, R9. unfold q. simpl_pool.
    rewrite (bool_decide_eq_false_2 (None = Some id')) by done. destruct (decide (id' = id)) as [->|E].
    + rewrite lookup_delete_eq, Hs, !(bool_decide_eq_true_2 (_ = _)), (bool_decide_eq_true_2 (is_Some (Some fl))), (bool_decide_eq_false_2 (is_Some None)) by (done || by intros [? [=]]).
      cbn. lia.
    + rewrite lookup_delete_ne, (bool_decide_eq_false_2 (Some id = Some id')) by congruence. cbn. lia.
  - split; rewrite ?R3, ?R5, ?R6, ?R7; done.
  - by rewrite R8.
Qed.

(** ** The queue *)

Lemma inv_new_id (p : impl) : inv None p -> inv (Some (next_id p)) (with_next_id (next_id p + 1) p).
Proof.
  intros [I1 I2 I3 I4 I5 I6 [Q1 Q2 Q3 Q4 Q5] I8]. split; simpl_pool; try done.
  - lia.
  - intros id. specialize (I6 id). unfold places, times_called in *. simpl_pool. rewrite (bool_decide_eq_false_2 (None = Some id)) in I6 by done.
    destruct (decide (id = next_id p)) as [->|E].
    + rewrite (bool_decide_eq_true_2 (_ = _)) by done. destruct (Z.leb_spec 1 (next_id p)), (Z.ltb_spec (next_id p) (next_id p)), (Z.ltb_spec (next_id p) (next_id p + 1));
        cbn [andb Z.b2z] in *; lia.
    + rewrite (bool_decide_eq_false_2 (_ = _)) by congruence. destruct (Z.ltb_spec id (next_id p)), (Z.ltb_spec id (next_id p + 1)); cbn [Z.b2z] in *; lia.
  - split; simpl_pool; try done. eapply Forall_impl; [exact Q2|]. intros q (H1 & H2 & H3). split_and!; [done|exact H2|lia].
Qed.

Lemma inv_enqueue id req origin (p : impl) : inv (Some id) p -> pending_total p < kMaxPendingTotal -> id ∉ q_id <$> pending_fifo p ->
  inv None (with_queue (pending_fifo p ++ [MkQueued id req origin false false]) ({[id]} ∪ pending_by_id p) (pending_total p + 1) p).
Proof.
  intros Hi Hlt Hfresh. pose proof (transit_place _ _ Hi) as (Hn & Hnp & Hc & Hr). destruct Hi as [I1 I2 I3 I4 I5 I6 [Q1 Q2 Q3 Q4 Q5] I8].
  split; simpl_pool; try done.
  - move_place (Some id). intros id'. unfold places, times_called. simpl_pool. rewrite (bool_decide_eq_false_2 (None = Some id')) by done.
    destruct (decide (id' = id)) as [->|E].
    + rewrite (bool_decide_eq_true_2 (id ∈ _)), (bool_decide_eq_false_2 (id ∈ pending_by_id p)), (bool_decide_eq_true_2 (Some id = _)) by (done || set_solver). cbn. lia.
    + rewrite (bool_decide_eq_false_2 (Some id = Some id')) by congruence.
      assert (Ee : bool_decide (id' ∈ ({[id]} ∪ pending_by_id p : gset Z)) = bool_decide (id' ∈ pending_by_id p)) by (apply bool_decide_ext; set_solver).
      rewrite Ee. cbn. lia.
  - split; simpl_pool.
    + rewrite fmap_app. apply NoDup_app. split; [done|]. split; [|apply NoDup_singleton]. by intros x Hx ->%list_elem_of_singleton.
    + apply Forall_app. split; [|by repeat constructor; cbn [q_settled q_aborted q_id]; set_solver || lia].
      apply Forall_forall. intros q Hq. rewrite Forall_forall in Q2. destruct (Q2 q Hq) as (F1 & F2 & F3). split; [done|]. split; [|done].
      rewrite F2. assert (q_id q <> id) by (intros <-; apply Hfresh, list_elem_of_fmap; by exists q). set_solver.
    + intros id' [->%elem_of_singleton|Hin]%elem_of_union; rewrite fmap_app, elem_of_app; [right; left|left; by apply Q3].
    + rewrite size_union by set_solver. rewrite size_singleton. lia.
    + lia.
Qed.

Lemma size_remove (id : Z) (X : gset Z) : id ∈ X -> Z.of_nat (size (X ∖ {[id]})) = Z.of_nat (size X) - 1.
Proof.
  intros Hin. rewrite (size_difference_alt X {[id]}). assert (E : X ∩ {[id]} = {[id]}) by set_solver. rewrite E, size_singleton.
  assert (size X <> 0%nat) by (intros Hz; apply size_empty_inv in Hz; set_solver). lia.
Qed.

Lemma places_dequeue id (p : impl) q n : inv None p -> id ∈ pending_by_id p ->
  forall id', places (Some id) id' (with_queue q (pending_by_id p ∖ {[id]}) n p) = places None id' p.
Proof.
  intros Hi Hin id'. unfold places, times_called. simpl_pool. rewrite (bool_decide_eq_false_2 (None = Some id')) by done.
  destruct (decide (id' = id)) as [->|E].
  - rewrite (bool_decide_eq_true_2 (Some id = _)), (bool_decide_eq_true_2 (id ∈ pending_by_id p)), (bool_decide_eq_false_2 (id ∈ _ ∖ _)) by (done || set_solver). cbn. lia.
  - rewrite (bool_decide_eq_false_2 (Some id = Some id')) by congruence.
    assert (Ee : bool_decide (id' ∈ pending_by_id p ∖ {[id]}) = bool_decide (id' ∈ pending_by_id p)) by (apply bool_decide_ext; set_solver).
    rewrite Ee. cbn. lia.
Qed.

Lemma pending_positive id (p : impl) t : inv t p -> id ∈ pending_by_id p -> 0 < pending_total p.
Proof.
  intros Hi Hin. rewrite (queue_total _ (inv_queue _ _ Hi)). assert (size (pending_by_id p) <> 0%nat) by (intros Hz; apply size_empty_inv in Hz; set_solver). lia.
Qed.

(** The first of the queue is taken. *)
Lemma inv_dequeue q fifo (p : impl) : inv None p -> pending_fifo p = q :: fifo -> q_id q ∈ pending_by_id p ->
  inv (Some (q_id q)) (with_queue fifo (pending_by_id p ∖ {[q_id q]}) (pending_total p - 1) p).
Proof.
  intros Hi Hf Hin. pose proof (places_dequeue _ p fifo (pending_total p - 1) Hi Hin) as Hp. pose proof (pending_positive _ _ _ Hi Hin).
  destruct Hi as [I1 I2 I3 I4 I5 I6 [Q1 Q2 Q3 Q4 Q5] I8]. rewrite Hf in Q1, Q2, Q3. cbn [fmap list_fmap] in Q1. apply NoDup_cons in Q1 as [Hnin Q1].
  apply Forall_cons in Q2 as [_ Q2]. split; simpl_pool; try done; [by move_place (@None Z)|]. split; simpl_pool.
  - done.
  - apply Forall_forall. intros q' Hq'. rewrite Forall_forall in Q2. destruct (Q2 q' Hq') as (F1 & F2 & F3). split; [done|]. split; [|done].
    rewrite F2. assert (q_id q' <> q_id q) by (intros E; apply Hnin, list_elem_of_fmap; by exists q'). set_solver.
  - intros id' [Hid Hne]%elem_of_difference. specialize (Q3 id' Hid). cbn [fmap list_fmap] in Q3. apply elem_of_cons in Q3 as [->|?]; [set_solver|done].
  - rewrite size_remove by done. lia.
  - lia.
Qed.

(** An entry that is no longer wanted is dropped; one that must wait goes to the end. *)
Lemma inv_drop q fifo (p : impl) : inv None p -> pending_fifo p = q :: fifo -> q_id q ∉ pending_by_id p ->
  inv None (with_queue fifo (pending_by_id p) (pending_total p) p).
Proof.
  intros [I1 I2 I3 I4 I5 I6 [Q1 Q2 Q3 Q4 Q5] I8] Hf Hnp. rewrite Hf in Q1, Q2, Q3. cbn [fmap list_fmap] in Q1. apply NoDup_cons in Q1 as [Hnin Q1].
  apply Forall_cons in Q2 as [_ Q2]. split; simpl_pool; try done. split; simpl_pool; try done.
  intros id' Hid. specialize (Q3 id' Hid). cbn [fmap list_fmap] in Q3. by apply elem_of_cons in Q3 as [->|?].
Qed.

Lemma inv_rotate q fifo (p : impl) : inv None p -> pending_fifo p = q :: fifo -> inv None (with_queue (fifo ++ [q]) (pending_by_id p) (pending_total p) p).
Proof.
  intros [I1 I2 I3 I4 I5 I6 [Q1 Q2 Q3 Q4 Q5] I8] Hf. assert (Hp : fifo ++ [q] ≡ₚ pending_fifo p) by (rewrite Hf; symmetry; apply Permutation_cons_append).
  split; simpl_pool; try done. split; simpl_pool; try done.
  - by rewrite Hp.
  - by rewrite Hp.
  - intros id' Hid. rewrite Hp. by apply Q3.
Qed.

(** A request that waits is cancelled; its entry stays. *)
Lemma inv_abort_pending id (p : impl) : inv None p -> id ∈ pending_by_id p ->
  inv (Some id) (with_queue (map (settle_aborted id) (pending_fifo p)) (pending_by_id p ∖ {[id]}) (pending_total p - 1) p).
Proof.
  intros Hi Hin. pose proof (places_dequeue _ p (map (settle_aborted id) (pending_fifo p)) (pending_total p - 1) Hi Hin) as Hp. pose proof (pending_positive _ _ _ Hi Hin).
  destruct Hi as [I1 I2 I3 I4 I5 I6 [Q1 Q2 Q3 Q4 Q5] I8].
  assert (Hids : q_id <$> map (settle_aborted id) (pending_fifo p) = q_id <$> pending_fifo p).
  { rewrite <- list_fmap_compose. apply list_fmap_ext. intros i q _. cbn. unfold settle_aborted. by case_bool_decide. }
  split; simpl_pool; try done; [by move_place (@None Z)|]. split; simpl_pool.
  - by rewrite Hids.
  - apply Forall_fmap. eapply Forall_impl; [exact Q2|]. intros q (F1 & F2 & F3). cbn. unfold settle_aborted. case_bool_decide as E; cbn [q_aborted q_settled q_id].
    + split; [done|]. split; [|done]. split; [done|set_solver].
    + split; [done|]. split; [|done]. rewrite F2. set_solver.
  - intros id' [Hid _]%elem_of_difference. rewrite Hids. by apply Q3.
  - rewrite size_remove by done. lia.
  - lia.
Qed.

(** What libcurl does to a transfer. *)
Lemma inv_perform t e (p : impl) : inv t p -> inv t (perform_event p e).
Proof.
  intros [I1 I2 I3 I4 I5 I6 [Q1 Q2 Q3 Q4 Q5] I8]. destruct e as [id e]. unfold perform_event. cbn [fst snd].
  assert (Hsz : size (alter (on_event e) id (by_id p)) = size (by_id p)).
  { destruct (by_id p !! id) as [fl|] eqn:E.
    - rewrite (alter_is_insert _ _ _ _ E), map_size_insert_None by apply lookup_delete_eq. rewrite map_size_delete, E.
      assert (size (by_id p) <> 0%nat) by (intros Hz; apply map_size_empty_inv in Hz; by rewrite Hz, lookup_empty in E). lia.
    - f_equal. apply map_eq; intros j; destruct (decide (j = id)) as [->|Hj]; [by rewrite lookup_alter_eq, E|by rewrite lookup_alter_ne]. }
  split; simpl_pool; try done.
  - by rewrite Hsz.
  - intros o. rewrite count_origin_alter by (by intros). apply I2.
  - intros id'. specialize (I6 id'). unfold places, times_called in *. simpl_pool. rewrite <- I6. do 3 f_equal. f_equal. apply bool_decide_ext.
    destruct (decide (id' = id)) as [->|Hne]; [rewrite lookup_alter_eq; by rewrite fmap_is_Some|by rewrite lookup_alter_ne].
Qed.

Lemma inv_jar t j (p : impl) : inv t p -> inv t (with_jar j p).
Proof. intros [I1 I2 I3 I4 I5 I6 [Q1 Q2 Q3 Q4 Q5] I8]. by split. Qed.
End Preserved.

(** * Steps *)

Section Steps.
Context {J : Type} `{CookieStore J}.
Variable getenv : bytes -> option bytes.
Variable curl_ok : bool.
Notation impl := (impl J).

(** A queued request waits because a limit holds it back. *)
Definition waits (p : impl) (q : queued_request) : Prop := is_live q p = true -> can_start (q_origin q) p = false.
Definition conserved (p : impl) : Prop := Forall (waits p) (pending_fifo p).

(** The loop over the queue: what it has not looked at comes first; until it admits
    one, what it put back waits. *)
Definition admit_ok (i batch : Z) (admitted_any : bool) (p : impl) : Prop :=
  0 <= i <= batch /\ exists todo back, pending_fifo p = todo ++ back /\ zlen todo = batch - i /\ (admitted_any = false -> Forall (waits p) back).

Definition is_admit (f : frame) : bool := match f with Admit _ _ _ => true | _ => false end.
Definition calm (stack : list frame) : Prop := Forall (fun f => is_admit f = false) stack.

Definition good (s : impl * list frame) : Prop :=
  inv None s.1 /\
  match s.2 with
  | Admit i batch admitted_any :: stack => calm stack /\ admit_ok i batch admitted_any s.1
  | stack => calm stack /\ (AdmitNext ∈ stack \/ conserved s.1)
  end.

Lemma good_calm p stack : calm stack -> inv None p -> AdmitNext ∈ stack \/ conserved p -> good (p, stack).
Proof. intros Hc Hi Ho. split; [done|]. cbn [fst snd]. destruct stack as [|[] stack]; try done. by apply Forall_cons in Hc as [? _]. Qed.

(** Waiting only depends on the queue and the limits. *)
Lemma conserved_same (p p' : impl) : pending_fifo p' = pending_fifo p -> pending_by_id p' = pending_by_id p ->
  (forall o, can_start o p' = true -> can_start o p = true) -> conserved p -> conserved p'.
Proof.
  intros Hf Hp Hc Hw. unfold conserved. rewrite Hf. eapply Forall_impl; [exact Hw|]. intros q Hq Hl. unfold is_live in Hl. rewrite Hp in Hl. specialize (Hq Hl).
  destruct (can_start (q_origin q) p') eqn:E; [|done]. by rewrite (Hc _ E) in Hq.
Qed.

Lemma full_conserved (p : impl) : (active_total p <? kMaxActiveTotal) = false -> conserved p.
Proof.
  intros Hf%Z.ltb_ge. apply Forall_forall. intros q _ _. destruct (can_start _ p) eqn:E; [|done]. apply can_start_spec in E. lia.
Qed.

Lemma begin_admit_good p stack : calm stack -> inv None p -> good (p, begin_admit p stack).
Proof.
  intros Hc Hi. unfold begin_admit. destruct (active_total p <? kMaxActiveTotal) eqn:E; cbn [andb].
  - destruct (bool_decide _) eqn:Ef; cbn [negb].
    + apply bool_decide_eq_true in Ef. apply good_calm; [done|done|]. right. unfold conserved. rewrite Ef. constructor.
    + split; [done|]. split; [done|]. cbn [fst]. split; [lia|]. exists (pending_fifo p), []. rewrite app_nil_r. split; [done|]. split; [lia|constructor].
  - apply good_calm; [done|done|]. right. by apply full_conserved.
Qed.

Lemma start_can_start id req origin (p : impl) stack o :
  can_start o (start_request getenv id req origin Started p stack).1 = true -> can_start o p = true.
Proof.
  unfold start_request. cbn [fst]. rewrite !can_start_spec, active_for_note. unfold note_active. simpl_pool. unfold active_for. simpl_pool.
  fold (active_for o p). intros [H1 H2]. pose proof (b2z_nonneg (bool_decide (origin = o))). lia.
Qed.

Lemma admit_turn_good i batch a p stack : good (p, Admit i batch a :: stack) -> i < batch -> active_total p < kMaxActiveTotal ->
  exists s, admit_turn getenv Started i batch a p stack = Ret s /\ good s.
Proof.
  intros [Hi [Hc (Hr & todo & back & Hf & Hl & Hb)]] Hlt Hact. cbn [fst snd] in *. unfold admit_turn. destruct todo as [|q todo]; [cbn in Hl; lia|].
  cbn [app length] in Hf, Hl. rewrite Hf. pose proof (queue_flags _ (inv_queue _ _ Hi)) as Hq. rewrite Hf in Hq. apply Forall_cons in Hq as [(Q1 & Q2 & _) _].
  destruct (is_live q p) eqn:El; cbn [negb].
  - destruct (can_start (q_origin q) p) eqn:Ecs; cbn [negb].
    + unfold is_live in El. apply andb_true_iff in El as [_ Hin%bool_decide_eq_true].
      pose proof (pending_positive _ _ _ Hi Hin) as Hpos. destruct (Z.ltb_spec 0 (pending_total p)); [|lia].
      pose proof (inv_dequeue q (todo ++ back) p Hi Hf Hin) as Hd. set (p1 := with_queue _ _ _ p) in *.
      assert (Hcs : can_start (q_origin q) p1 = true) by done.
      pose proof (inv_start getenv (q_id q) (q_req q) (q_origin q) (Admit (i + 1) batch true :: stack) p1 Hd Hcs) as Hs.
      eexists. split; [reflexivity|]. split; [exact Hs|]. unfold start_request. cbn [fst snd]. split; [exact Hc|]. split; [lia|].
      exists todo, back. split; [done|]. split; [lia|done].
    + eexists. split; [reflexivity|]. split; [by apply inv_rotate|]. cbn [fst snd]. split; [done|]. split; [lia|].
      exists todo, (back ++ [q]). simpl_pool. split; [by rewrite app_assoc|]. split; [lia|]. intros Ha. apply Forall_app. split; [by apply Hb|]. constructor; [intros _; exact Ecs|constructor].
  - eexists. split; [reflexivity|]. split.
    + cbn [fst]. apply (inv_drop q); [done|done|]. intros Hin. apply Q2 in Hin as Hs. unfold is_live in El.
      by rewrite Q1, Hs, bool_decide_eq_true_2 in El.
    + cbn [fst snd]. split; [done|]. split; [lia|]. exists todo, back. simpl_pool. split; [done|]. split; [lia|done].
Qed.

Lemma admit_step_good i batch a p stack : good (p, Admit i batch a :: stack) -> exists s, admit_step getenv Started i batch a p stack = Ret s /\ good s.
Proof.
  intros Hg. unfold admit_step. destruct (Z.ltb_spec i batch) as [Hlt|Hge], (active_total p <? kMaxActiveTotal) eqn:Ea; cbn [andb];
    [apply admit_turn_good; [done|done|by apply Z.ltb_lt]|..]; destruct Hg as [Hi [Hc (Hr & todo & back & Hf & Hl & Hb)]]; cbn [fst snd] in *;
    (destruct a; [eexists; split; [reflexivity|]; by apply begin_admit_good|]); (eexists; split; [reflexivity|]; apply good_calm; [done|done|]; right).
  - by apply full_conserved.
  - unfold conserved. rewrite Hf. destruct todo; [by apply Hb|cbn in Hl; lia].
  - by apply full_conserved.
Qed.

Lemma calm_script stack : calm stack -> calm (Script :: stack).
Proof. intros Hc. by constructor. Qed.

(** A rejected request leaves the queue and the limits alone. *)
Lemma reject_good id code message p stack : calm stack -> inv (Some id) p -> AdmitNext ∈ stack \/ conserved p ->
  good (reject_request id code message p stack).
Proof.
  intros Hc Hi Ho. apply good_calm; [by apply calm_script|by apply (inv_reject id code message stack)|]. destruct Ho as [Ho|Ho]; [left; by right|right].
  by apply (conserved_same p).
Qed.

(** What an action asks of the environment: in the loop of [admit_pending] transfers can
    be set up, that is, neither [curl_easy_init] nor [curl_multi_add_handle] fails there;
    and the digits of a port fit an [int]. *)
Definition smooth (a : action) : Prop :=
  match a with
  | Submit req _ => exists o, normalized_origin_key (req_url req) = Ret o
  | Continue r => r = Started
  | _ => True
  end.

Lemma submit_good req r p stack : good (p, stack) -> in_script stack = true -> smooth (Submit req r) ->
  exists s, submit getenv curl_ok req r p stack = Ret s /\ good s.
Proof.
  intros [Hi Hst] Hin [o Eo]. cbn [fst snd] in *. assert (Hs : calm stack /\ (AdmitNext ∈ stack \/ conserved p)) by (by destruct stack as [|[] ?]).
  destruct Hs as [Hc Ho]. clear Hst. unfold submit. pose proof (inv_new_id p Hi) as Hn. set (p1 := with_next_id (next_id p + 1) p) in *.
  assert (Ho1 : AdmitNext ∈ stack \/ conserved p1) by (destruct Ho as [Ho|Ho]; [by left|right; by apply (conserved_same p)]).
  destruct (negb (curl_ok)); [eexists; split; [reflexivity|]; by apply reject_good|].
  destruct (is_https_url _ && _); [eexists; split; [reflexivity|]; by apply reject_good|]. rewrite Eo. cbn [mbind outcome_bind].
  destruct (can_start o p1) eqn:Ecs.
  - eexists. split; [reflexivity|]. destruct r as [| | |message].
    + apply good_calm; [done|by apply (inv_start getenv (next_id p) req o stack p1)|]. destruct Ho1 as [Ho1|Ho1]; [by left|right].
      apply (conserved_same p1); [done|done| |done]. intros o'. apply (start_can_start (next_id p) req o p1 stack).
    + by apply reject_good.
    + by apply reject_good.
    + apply reject_good; [done|by apply inv_report; [apply starts_with_app|]|]. destruct Ho1 as [Ho1|Ho1]; [by left|right; by apply (conserved_same p1)].
  - destruct (Z.leb_spec kMaxPendingTotal (pending_total p1)); [eexists; split; [reflexivity|]; by apply reject_good|].
    eexists. split; [reflexivity|]. assert (Hfresh : next_id p ∉ q_id <$> pending_fifo p1).
    { intros (q & Eq & Hq)%list_elem_of_fmap. pose proof (queue_flags _ (inv_queue _ _ Hi)) as Hf. rewrite Forall_forall in Hf. destruct (Hf q Hq) as (_ & _ & Hlt). lia. }
    apply good_calm; [done|by apply inv_enqueue|]. destruct Ho1 as [Ho1|Ho1]; [by left|right]. unfold conserved. simpl_pool. apply Forall_app. split; [|constructor; [intros _; exact Ecs|constructor]].
    apply Forall_forall. intros q Hq Hl. unfold conserved in Ho1. rewrite Forall_forall in Ho1. apply (Ho1 q Hq). unfold is_live in *. simpl_pool.
    apply andb_true_iff in Hl as [Hl1 Hl2%bool_decide_eq_true]. rewrite Hl1. apply bool_decide_eq_true. revert Hl2. unfold p1. simpl_pool.
    intros [E%elem_of_singleton|?]%elem_of_union; [|done]. exfalso. apply Hfresh, list_elem_of_fmap. by exists q.
Qed.

Lemma abort_good id p stack : good (p, stack) -> in_script stack = true -> good (abort_request id p stack).
Proof.
  intros [Hi Hst] Hin. cbn [fst snd] in *. assert (Hs : calm stack /\ (AdmitNext ∈ stack \/ conserved p)) by (by destruct stack as [|[] ?]).
  destruct Hs as [Hc Ho]. clear Hst. unfold abort_request. case_bool_decide as Hid.
  - pose proof (pending_positive _ _ _ Hi Hid) as Hpos. destruct (Z.ltb_spec 0 (pending_total p)); [|lia].
    apply reject_good; [done|by apply inv_abort_pending|]. destruct Ho as [Ho|Ho]; [by left|right]. unfold conserved. simpl_pool. apply Forall_fmap.
    eapply Forall_impl; [exact Ho|]. intros q Hq. cbn. unfold waits, is_live, settle_aborted. simpl_pool. case_bool_decide; cbn [q_settled q_aborted q_id q_origin negb andb]; [done|].
    intros [Hl1 Hl2%bool_decide_eq_true]%andb_true_iff. apply Hq. unfold is_live. rewrite Hl1. apply bool_decide_eq_true. set_solver.
  - destruct (by_id p !! id) as [fl|] eqn:E; [|by apply good_calm].
    apply good_calm; [by repeat constructor|by apply (inv_call_back id _ (AdmitNext :: stack)), inv_release|]. left. right. left.
Qed.

(** The jar's own code does what it is asked: see [CookieJar] for when. *)
Hypothesis store_total : forall header url j, exists j', store header url j = Ret j'.

Lemma store_all_total headers url : forall j, exists j', store_all headers url j = Ret j'.
Proof.
  induction headers as [|h headers IH]; intros j; [by exists j|]. cbn [store_all]. destruct (store_total h url j) as [j1 ->]. apply IH.
Qed.

Lemma finish_active_run id fl i p stack : exists j, finish_active id fl i p stack =
  Ret (call_back id (finished_response fl i) (release_active (f_origin fl) (with_flights (delete id (by_id p)) (with_jar j p))) (AdmitNext :: stack)).
Proof.
  unfold finish_active. case_bool_decide; [|by exists (jar p)].
  destruct (store_all_total (t_set_cookies (f_transfer fl)) (match final_url (finished_response fl i) with [] => f_url fl | u => u end) (jar p)) as [j ->].
  by exists j.
Qed.

Lemma finish_good id fl i p stack : good (p, stack) -> calm stack -> by_id p !! id = Some fl -> exists s, finish_active id fl i p stack = Ret s /\ good s.
Proof.
  intros [Hi _] Hc Hs. destruct (finish_active_run id fl i p stack) as [j E]. rewrite E. eexists. split; [reflexivity|].
  apply good_calm; [by repeat constructor| |left; right; left]. apply (inv_call_back id _ (AdmitNext :: stack)).
  apply (inv_release id fl (with_jar j p)); [by apply inv_jar|done].
Qed.

Lemma perform_conserved events : forall p : impl, conserved p -> conserved (foldl perform_event p events).
Proof. induction events as [|e events IH]; intros p Hp; [done|]. cbn [foldl]. apply IH. by apply (conserved_same p). Qed.

Lemma polled_inv events : forall p : impl, inv None p -> inv None (foldl perform_event p events).
Proof. induction events as [|e events IH]; intros p Hp; [done|]. cbn [foldl]. by apply IH, inv_perform. Qed.

Lemma pop_good p f stack : good (p, f :: stack) -> is_admit f = false -> f <> AdmitNext -> good (p, stack).
Proof.
  intros [Hi Hst] Hf Hn. cbn [fst snd] in *. assert (Hs : calm (f :: stack) /\ (AdmitNext ∈ f :: stack \/ conserved p)) by (by destruct f).
  destruct Hs as [Hc Ho]. apply Forall_cons in Hc as [_ Hc]. apply good_calm; [done|done|]. destruct Ho as [[Ho|Ho]%elem_of_cons|Ho]; [done|by left|by right].
Qed.

Lemma step_good a s : good s -> smooth a -> exists o, step getenv curl_ok a s = Ret o /\ forall s', o = Some s' -> good s'.
Proof.
  destruct s as [p stack]. intros Hg Ha. destruct a as [req r|id|events|id i| | |r]; cbn [step].
  - destruct (in_script stack) eqn:Es; [|by eexists]. destruct (possible req r); [|by eexists]. cbn [andb].
    destruct (submit_good req r p stack Hg Es Ha) as (s & -> & Hs). eexists. split; [reflexivity|]. by intros s' [= <-].
  - destruct (in_script stack) eqn:Es; eexists; (split; [reflexivity|]); [|done]. intros s' [= <-]. by apply abort_good.
  - destruct stack as [|f stack]; eexists; (split; [reflexivity|]); [|done]. intros s' [= <-]. destruct curl_ok; [|done]. destruct Hg as [Hi [_ Ho]]. cbn [fst snd] in *.
    destruct Ho as [Ho|Ho]; [by apply not_elem_of_nil in Ho|]. apply good_calm; [by repeat constructor|by apply polled_inv|right; by apply perform_conserved].
  - destruct stack as [|[] stack]; try by eexists. destruct (by_id p !! id) as [fl|] eqn:E; [|by eexists].
    destruct (finish_good id fl i p (Poll :: stack) Hg) as (s & -> & Hs); [apply Hg|done|]. eexists. split; [reflexivity|]. by intros s' [= <-].
  - destruct stack as [|[] stack]; eexists; (split; [reflexivity|]); try done. intros s' [= <-]. by apply (pop_good p Poll).
  - destruct stack as [|[] stack]; eexists; (split; [reflexivity|]); try done. intros s' [= <-]. by apply (pop_good p Script).
  - destruct stack as [|[| |i batch a|] stack]; try by eexists.
    + eexists. split; [reflexivity|]. intros s' [= <-]. destruct Hg as [Hi [Hc _]]. apply begin_admit_good; [by apply Forall_cons in Hc as [_ ?]|done].
    + cbn in Ha. subst r. destruct (admit_step_good i batch a p stack Hg) as (s & -> & Hs). eexists. split; [reflexivity|]. by intros s' [= <-].
Qed.

Lemma new_good https j : good (new_impl https j, []).
Proof.
  clear store_total. apply good_calm; [constructor| |right; constructor]. split; try done.
  - intros id. unfold places, times_called, new_impl. simpl_pool. rewrite lookup_empty. rewrite !(bool_decide_eq_false_2 _); [|done|set_solver|by intros [? [=]]].
    destruct (Z.leb_spec 1 id), (Z.ltb_spec id 1); (done || lia).
  - split; cbn; try done; apply NoDup_nil_2.
Qed.

Lemma run_good l : forall s, good s -> Forall smooth l -> exists o, run getenv curl_ok l s = Ret o /\ forall s', o = Some s' -> good s'.
Proof.
  induction l as [|a l IH]; intros s Hg Hl; [eexists; split; [reflexivity|]; by intros s' [= <-]|]. apply Forall_cons in Hl as [Ha Hl]. cbn [run].
  destruct (step_good a s Hg Ha) as (o & -> & Ho). cbn [mbind outcome_bind]. destruct o as [s1|]; [|by eexists]. apply IH; [by apply Ho|done].
Qed.

(** * Progress *)

Definition outstanding (p : impl) : nat := size (by_id p) + size (pending_by_id p).

Definition effort (p : impl) (admitted_any : bool) : nat := 2 * length (pending_fifo p) + if admitted_any then 1 else 0.

Lemma admit_progress i batch a p stack : good (p, Admit i batch a :: stack) -> exists p' stack',
  admit_step getenv Started i batch a p stack = Ret (p', stack') /\ good (p', stack') /\ calls p' = calls p /\ next_id p' = next_id p /\ outstanding p' = outstanding p /\
  (stack' = stack \/ exists i' batch' a', stack' = Admit i' batch' a' :: stack /\
    ((effort p' a' < effort p a)%nat \/ effort p' a' = effort p a /\ 0 <= batch' - i' < batch - i)).
Proof.
  clear store_total. intros Hg. destruct (admit_step_good i batch a p stack Hg) as ([p' stack'] & E & Hg'). exists p', stack'. split; [exact E|]. split; [exact Hg'|].
  destruct Hg as [Hi [Hc (Hr & todo & back & Hf & Hl & Hb)]]. cbn [fst snd] in *. unfold admit_step in E.
  destruct (Z.ltb_spec i batch) as [Hlt|Hge], (active_total p <? kMaxActiveTotal) eqn:Ea; cbn [andb] in E.
  - unfold admit_turn in E. destruct (pending_fifo p) as [|q fifo] eqn:Ef; [done|]. destruct (is_live q p) eqn:El; cbn [negb] in E.
    + destruct (can_start (q_origin q) p) eqn:Ecs; cbn [negb] in E; injection E as <- <-.
      * unfold is_live in El. apply andb_true_iff in El as [_ Hin%bool_decide_eq_true].
        assert (Hn : by_id p !! q_id q = None) by (by eapply pending_place).
        simpl_pool. unfold note_active. simpl_pool. split; [done|]. split; [done|]. split.
        { unfold outstanding. simpl_pool. rewrite map_size_insert_None by done. pose proof (size_remove _ _ Hin).
          assert (size (pending_by_id p) <> 0%nat) by (intros Hz; apply size_empty_inv in Hz; set_solver). lia. }
        right. do 3 eexists. split; [reflexivity|]. left. unfold effort. simpl_pool. rewrite Ef. cbn [length]. destruct a; lia.
      * simpl_pool. split; [done|]. split; [done|]. split; [done|]. right. do 3 eexists. split; [reflexivity|]. right. unfold effort. simpl_pool. rewrite Ef, length_app.
        cbn [length]. split; [lia|lia].
    + injection E as <- <-. simpl_pool. split; [done|]. split; [done|]. split; [done|]. right. do 3 eexists. split; [reflexivity|]. left. unfold effort. simpl_pool. rewrite Ef. cbn [length]. destruct a; lia.
  - destruct a; injection E as <- <-; (split; [done|]); (split; [done|]); (split; [done|]); left; [|done]. unfold begin_admit. by rewrite Ea.
  - destruct a; injection E as <- <-; (split; [done|]); (split; [done|]); (split; [done|]); [|by left]. unfold begin_admit. destruct (_ && _); [|by left].
    right. do 3 eexists. split; [reflexivity|]. left. unfold effort. lia.
  - destruct a; injection E as <- <-; (split; [done|]); (split; [done|]); (split; [done|]); left; [|done]. unfold begin_admit. by rewrite Ea.
Qed.

(** [admit_pending] ends. *)
Lemma admit_ends stack : forall m1 m2 p i batch a, (effort p a <= m1)%nat -> batch - i <= Z.of_nat m2 -> good (p, Admit i batch a :: stack) ->
  exists k p', run getenv curl_ok (replicate k (Continue Started)) (p, Admit i batch a :: stack) = Ret (Some (p', stack)) /\ good (p', stack) /\
    calls p' = calls p /\ next_id p' = next_id p /\ outstanding p' = outstanding p.
Proof.
  clear store_total. induction m1 as [m1 IH1] using lt_wf_ind. induction m2 as [m2 IH2] using lt_wf_ind. intros p i batch a H1 H2 Hg.
  destruct (admit_progress i batch a p stack Hg) as (p1 & st1 & E & Hg1 & C1 & N1 & O1 & Hst).
  assert (Hstep : forall l, run getenv curl_ok (Continue Started :: l) (p, Admit i batch a :: stack) = run getenv curl_ok l (p1, st1)).
  { intros l. cbn [run step]. by rewrite E. }
  destruct Hst as [->|(i' & b' & a' & -> & Hm)].
  - exists 1%nat, p1. cbn [replicate]. rewrite Hstep. done.
  - assert (Hrec : exists k p', run getenv curl_ok (replicate k (Continue Started)) (p1, Admit i' b' a' :: stack) = Ret (Some (p', stack)) /\ good (p', stack) /\
      calls p' = calls p1 /\ next_id p' = next_id p1 /\ outstanding p' = outstanding p1).
    { destruct Hm as [Hm|[Hm Hb]].
      - apply (IH1 (effort p1 a') ltac:(lia) (Z.to_nat (b' - i'))); [lia|lia|done].
      - apply (IH2 (Z.to_nat (b' - i')) ltac:(lia)); [lia|lia|done]. }
    destruct Hrec as (k & p' & Er & G & C & N & O). exists (S k), p'. cbn [replicate]. rewrite Hstep. split; [exact Er|]. rewrite C, N, O. done.
Qed.
End Steps.

Section Theorems.
Context {J : Type} `{CookieStore J}.
Variable getenv : bytes -> option bytes.
Variable curl_ok : bool.
Notation impl := (impl J).

Lemma pool_run_app ok l1 : forall l2 s s1, run getenv ok l1 s = Ret (Some s1) -> run getenv ok (l1 ++ l2) s = run getenv ok l2 s1.
Proof.
  induction l1 as [|a l1 IH]; intros l2 s s1 E; cbn [app run] in *; [by injection E as <-|].
  destruct (step getenv ok a s) as [[s2|]| | |]; try done. cbn [mbind outcome_bind] in *. by apply IH.
Qed.

(** Nothing waits for nothing. *)
Lemma idle_empty (p : impl) : good (p, []) -> by_id p = ∅ -> pending_by_id p = ∅.
Proof.
  intros [Hi [_ Ho]] He. cbn [fst snd] in *. destruct Ho as [Ho|Ho]; [by apply not_elem_of_nil in Ho|]. apply elem_of_equiv_empty_L. intros id Hin.
  pose proof Hi as [I1 I2 _ _ _ _ [_ Q2 Q3 _ _] _]. apply Q3 in Hin as Hin2. apply list_elem_of_fmap in Hin2 as (q & -> & Hq). rewrite Forall_forall in Q2.
  destruct (Q2 q Hq) as (F1 & F2 & _). unfold conserved in Ho. rewrite Forall_forall in Ho. specialize (Ho q Hq). unfold waits, is_live in Ho.
  apply F2 in Hin as Hs. rewrite F1, Hs, bool_decide_eq_true_2 in Ho by done. specialize (Ho eq_refl).
  assert (Hc : can_start (q_origin q) p = true); [|congruence]. apply can_start_spec. rewrite I1, I2, He. done.
Qed.

(** The host polls, libcurl reports one transfer, the script returns at once. *)
Definition round (id : Z) (i : outcome_info) (k : nat) : list action :=
  [Poll_once []; Completed id i; Return; Continue Started] ++ replicate k (Continue Started) ++ [No_message].

Lemma round_answers id i fl (p : impl) : (forall header url j, exists j', store header url j = Ret j') -> good (p, []) -> by_id p !! id = Some fl ->
  exists k p', run getenv true (round id i k) (p, []) = Ret (Some (p', [])) /\ good (p', []) /\ S (outstanding p') = outstanding p /\
    calls p' = calls p ++ [(id, finished_response fl i)] /\ next_id p' = next_id p.
Proof.
  intros Hst Hg Hs. assert (Hg1 : good (p, [Poll])).
  { destruct (step_good getenv true Hst (Poll_once []) (p, []) Hg I) as (o & E & Ho). injection E as <-. by apply Ho. }
  destruct (finish_active_run Hst id fl i p [Poll]) as [j Ef]. destruct (finish_good Hst id fl i p [Poll] Hg1 ltac:(by repeat constructor) Hs) as (s & Ef' & Hg2).
  rewrite Ef in Ef'. injection Ef' as <-. unfold call_back in Ef, Hg2.
  pose proof (inv_release id fl (with_jar j p) (inv_jar None j p (proj1 Hg)) Hs) as Hi1. set (p1 := release_active _ _) in *.
  assert (Hf : by_id p1 = delete id (by_id p) /\ pending_by_id p1 = pending_by_id p /\ calls p1 = calls p /\ next_id p1 = next_id p).
  { pose proof Hg as [[I1 I2 _ _ _ _ _ _] _]. cbn [fst] in *.
    destruct (release_active_ok (f_origin fl) (with_flights (delete id (by_id p)) (with_jar j p))) as (_ & _ & R3 & R4 & _ & R6 & _ & _ & R9 & _ & _).
    - simpl_pool. rewrite I1. assert (size (by_id p) <> 0%nat) by (intros Hz; apply map_size_empty_inv in Hz; by rewrite Hz, lookup_empty in Hs). lia.
    - change (active_for (f_origin fl) (with_flights _ (with_jar j p))) with (active_for (f_origin fl) p). rewrite I2. by eapply count_origin_pos.
    - done. }
  clearbody p1. destruct Hf as (Hb1 & Hp1 & Hc1 & Hn1). set (p2 := with_calls (calls p1 ++ [(id, finished_response fl i)]) p1) in *.
  assert (Hg3 : good (p2, [AdmitNext; Poll])) by (by apply (pop_good p2 Script)).
  assert (Hrun : forall k, run getenv true (round id i k) (p, []) = run getenv true (replicate k (Continue Started) ++ [No_message]) (p2, begin_admit p2 [Poll])).
  { intros k. unfold round. cbn [app run step mbind outcome_bind foldl fmap outcome_fmap]. rewrite Hs. cbn [fmap outcome_fmap]. rewrite Ef. by cbn [mbind outcome_bind fmap outcome_fmap]. }
  assert (Ho2 : S (outstanding p2) = outstanding p).
  { unfold outstanding, p2. simpl_pool. rewrite Hb1, Hp1, map_size_delete, Hs.
    assert (size (by_id p) <> 0%nat) by (intros Hz; apply map_size_empty_inv in Hz; by rewrite Hz, lookup_empty in Hs). lia. }
  assert (Hg4 : good (p2, begin_admit p2 [Poll])) by (apply begin_admit_good; [by repeat constructor|apply Hg3]).
  assert (Hfin : exists k p', run getenv true (replicate k (Continue Started)) (p2, begin_admit p2 [Poll]) = Ret (Some (p', [Poll])) /\ good (p', [Poll]) /\
    calls p' = calls p2 /\ next_id p' = next_id p2 /\ outstanding p' = outstanding p2).
  { unfold begin_admit in *. destruct (_ && _); [|by exists 0%nat, p2]. eapply (admit_ends getenv true [Poll] _ (length (pending_fifo p2))); [reflexivity|lia|done]. }
  destruct Hfin as (k & p' & Er & G & C & N & O). exists k, p'. rewrite Hrun, (pool_run_app _ _ _ _ _ Er). split; [done|]. split; [by apply (pop_good p' Poll)|].
  rewrite O, C, N. unfold p2. simpl_pool. rewrite Hc1. done.
Qed.

(** C30. The limits hold and every request is answered exactly once, as long as
    [curl_multi_add_handle] does not fail on a request taken off the queue (it may fail on
    one just submitted): after such a failure the code can be undefined, see
    [nested_admit_undefined].  Else scripts and libcurl do what they like, in any order
    and with scripts submitting and cancelling from inside callbacks; the jar accepts the
    cookies and ports fit an [int].  Then nothing undefined happens; at every moment at most 64 requests are with libcurl and at most 6 of one origin, the counts
    are those of the requests there, at most 256 wait; and each id handed out so far is
    in exactly one place: with libcurl, waiting, or answered once.  Accounting errors
    are never reported. *)
Theorem pool_accounts l https j :
  (forall header url j, exists j', store header url j = Ret j') -> Forall smooth l ->
  exists o, run getenv curl_ok l (new_impl https j, []) = Ret o /\ forall p stack, o = Some (p, stack) ->
    active_total p = Z.of_nat (size (by_id p)) /\ active_total p <= 64 /\
    (forall origin, active_for origin p = count_origin origin (by_id p) /\ active_for origin p <= 6) /\
    pending_total p = Z.of_nat (size (pending_by_id p)) /\ pending_total p <= 256 /\
    (forall id, Z.b2z (bool_decide (is_Some (by_id p !! id))) + Z.b2z (bool_decide (id ∈ pending_by_id p)) + times_called id p =
      Z.b2z ((1 <=? id) && (id <? next_id p))) /\
    Forall (fun e => starts_with (str "http_client curl_multi_add_handle failed: ") e = true) (errors p).
Proof.
  intros Hst Hl. destruct (run_good getenv curl_ok Hst l _ (new_good https j) Hl) as (o & E & Ho). exists o. split; [exact E|]. intros p stack ->.
  destruct (Ho _ eq_refl) as [[I1 I2 I3 I4 I5 I6 [Q1 Q2 Q3 Q4 Q5] I8] _]. cbn [fst] in *. split; [done|]. split; [done|]. split; [by intros; split|].
  split; [done|]. split; [done|]. split; [|done]. intros id. specialize (I6 id). unfold places in I6. rewrite (bool_decide_eq_false_2 (None = Some id)) in I6 by done.
  cbn [Z.b2z] in I6. lia.
Qed.

(** C31. No request waits while it could run, and all are answered.  Whenever the host is
    in control after any such history, a request in the queue is held back by a limit
    that is exhausted, so with nothing in flight nothing waits; any request in flight
    may complete next, with any result: the callback gets its response, the queue is
    worked off, the client is idle again and one request fewer is outstanding.  Hence
    some number of completions answers every request that was ever submitted. *)
Theorem requests_are_answered l https j (p : impl) :
  (forall header url j, exists j', store header url j = Ret j') -> Forall smooth l ->
  run getenv true l (new_impl https j, []) = Ret (Some (p, [])) ->
  (forall q, q ∈ pending_fifo p -> is_live q p = true -> active_total p = 64 \/ active_for (q_origin q) p = 6) /\
  (by_id p = ∅ -> pending_by_id p = ∅) /\
  (forall id fl i, by_id p !! id = Some fl -> exists k p', run getenv true (round id i k) (p, []) = Ret (Some (p', [])) /\
    S (outstanding p') = outstanding p /\ calls p' = calls p ++ [(id, finished_response fl i)]) /\
  (forall i : outcome_info, exists ids p', run getenv true (concat (map (fun idk => round idk.1 i idk.2) ids)) (p, []) = Ret (Some (p', [])) /\ outstanding p' = 0%nat /\
    forall id, 1 <= id < next_id p -> times_called id p' = 1).
Proof.
  intros Hst Hl E. destruct (run_good getenv true Hst l _ (new_good https j) Hl) as (o & E' & Hg). rewrite E in E'. injection E' as <-. specialize (Hg _ eq_refl).
  clear E Hl. split; [|split; [|split]].
  - intros q Hq Hlive. pose proof Hg as [[I1 I2 I3 I4 _ _ _ _] [_ Ho]]. cbn [fst snd] in *. destruct Ho as [Ho|Ho]; [by apply not_elem_of_nil in Ho|].
    unfold conserved in Ho. rewrite Forall_forall in Ho. specialize (Ho q Hq Hlive). specialize (I4 (q_origin q)). change kMaxActiveTotal with 64 in *. change kMaxActivePerOrigin with 6 in *.
    destruct (decide (active_total p = 64)) as [|Hn1]; [by left|]. destruct (decide (active_for (q_origin q) p = 6)) as [|Hn2]; [by right|]. exfalso.
    assert (Hc : can_start (q_origin q) p = true); [|congruence]. apply can_start_spec. change kMaxActiveTotal with 64. change kMaxActivePerOrigin with 6. lia.
  - by apply idle_empty.
  - intros id fl i Hs. destruct (round_answers id i fl p Hst Hg Hs) as (k & p' & Er & _ & O & C & _). by exists k, p'.
  - intros i. remember (outstanding p) as n eqn:En. revert p Hg En. induction n as [|n IH]; intros p Hg En.
    + exists [], p. split; [done|]. split; [done|]. intros id Hid. pose proof Hg as [[I1 _ _ _ _ I6 _ _] _]. cbn [fst] in *. specialize (I6 id).
      unfold outstanding in En. assert (Hb : by_id p = ∅) by (apply map_size_empty_inv; lia). assert (Hp : pending_by_id p = ∅) by (apply leibniz_equiv, size_empty_inv; lia).
      unfold places in I6. rewrite Hb, Hp, lookup_empty in I6. rewrite !(bool_decide_eq_false_2 _) in I6 by (done || set_solver || by intros [? [=]]).
      destruct (Z.leb_spec 1 id), (Z.ltb_spec id (next_id p)); cbn [andb Z.b2z] in I6; lia.
    + destruct (decide (by_id p = ∅)) as [He|He].
      { exfalso. unfold outstanding in En. rewrite He, (idle_empty p Hg He), map_size_empty, size_empty in En. done. }
      apply map_choose in He as (id & fl & Hs). destruct (round_answers id i fl p Hst Hg Hs) as (k & p1 & Er & G & O & C & N).
      destruct (IH p1 G ltac:(lia)) as (ids & p' & Er' & O' & T). exists ((id, k) :: ids), p'. cbn [map concat fst snd]. rewrite (pool_run_app _ _ _ _ _ Er). split; [exact Er'|].
      split; [done|]. by rewrite <- N.
Qed.
End Theorems.

(** * Runs *)

(** A client without cookies and without an environment. *)
#[local] Instance no_cookies : CookieStore unit := {| pick := fun _ _ => []; store := fun _ _ j => Ret j |}.
Definition no_env (_ : bytes) : option bytes := None.

Definition get (url : string) : http_request := MkHttp (str "GET") (str url) [] [] false None true 0 [] [] [].
Definition gets (n : nat) (url : string) : list action := replicate n (Submit (get url) Started).
Definition fine : outcome_info := MkInfo CURLE_OK 200 None [].

Lemma gets_smooth n url o : normalized_origin_key (str url) = Ret o -> Forall smooth (gets n url).
Proof. intros E. apply Forall_replicate. by exists o. Qed.

(** What can be seen of a pool. *)
Definition seen (o : outcome (option (impl unit * list frame))) : option (list (Z * http_error) * list Z * list Z * list frame) :=
  match o with
  | Ret (Some (p, stack)) => Some (map (fun c => (c.1, last_error c.2)) (calls p), (map_to_list (by_id p)).*1, map q_id (pending_fifo p), stack)
  | _ => None
  end.

Lemma pool_accounts_witness : exists p, run no_env true (gets 7 "http://a.example/" ++ [Abort 3]) (new_impl true tt, []) = Ret (Some p) /\ active_total p.1 = 5 /\
  pending_total p.1 = 1 /\ times_called 3 p.1 = 1.
Proof.
  destruct (pool_accounts no_env true (gets 7 "http://a.example/" ++ [Abort 3]) true tt) as (o & E & Ho).
  - by intros header url j; exists j.
  - apply Forall_app. split; [|by repeat constructor]. eapply (gets_smooth 7 "http://a.example/"). vm_compute. reflexivity.
  - destruct o as [[p stack]|]; [|exfalso; vm_compute in E; discriminate]. exists (p, stack). split; [exact E|].
    cbn [fst].
    assert (Hc : (fun o => match o with Ret (Some s) => Some (active_total s.1, pending_total s.1, times_called 3 s.1) | _ => None end)
      (run no_env true (gets 7 "http://a.example/" ++ [Abort 3]) (new_impl true tt, [])) = Some (5, 1, 1)) by (vm_compute; reflexivity).
    rewrite E in Hc. clear E. cbn [fst] in Hc. injection Hc as -> -> ->. split; [reflexivity|split; reflexivity].
Defined.

Definition seven : impl unit * list frame :=
  match run no_env true (gets 7 "http://a.example/") (new_impl true tt, []) with Ret (Some s) => s | _ => (new_impl true tt, []) end.

Lemma requests_are_answered_witness : exists ids p', run no_env true (concat (map (fun idk => round idk.1 fine idk.2) ids)) (seven.1, []) = Ret (Some (p', [])) /\
  outstanding p' = 0%nat /\ times_called 7 p' = 1.
Proof.
  destruct (requests_are_answered no_env (gets 7 "http://a.example/") true tt seven.1) as (_ & _ & _ & Hall).
  - by intros header url j; exists j.
  - eapply (gets_smooth 7 "http://a.example/"). vm_compute. reflexivity.
  - vm_compute. reflexivity.
  - destruct (Hall fine) as (ids & p' & E & O & T). exists ids, p'. split; [exact E|]. split; [exact O|]. apply T.
    assert (En : next_id seven.1 = 8) by (vm_compute; reflexivity). rewrite En. lia.
Defined.

(** * What modelling showed *)

Definition no_handle : start_result := Not_added (str "out of memory").

(** The queue holds 7 and 8 when 1 completes; starting 7 fails inside the loop of
    [admit_pending], its callback cancels 2, the nested [admit_pending] takes 8 off the
    queue, and the outer loop calls [front()] on an empty deque. *)
Lemma nested_admit_undefined :
  run no_env true (gets 8 "http://a.example/" ++ [Poll_once []; Completed 1 fine; Return; Continue Started; Continue no_handle; Abort 2; Return;
    Continue Started; Continue Started; Continue Started; Return]) (new_impl true tt, []) <> Ub /\
  run no_env true (gets 8 "http://a.example/" ++ [Poll_once []; Completed 1 fine; Return; Continue Started; Continue no_handle; Abort 2; Return;
    Continue Started; Continue Started; Continue Started; Return; Continue Started]) (new_impl true tt, []) = Ub.
Proof. split; vm_compute; [discriminate|reflexivity]. Qed.

(** Cancelled requests stay in the queue, with their bodies, until the next completion:
    [kMaxPendingTotal] does not bound it. *)
Lemma cancelled_stay_queued :
  (fun o => match o with Ret (Some (p, [])) => Some (length (pending_fifo p), pending_total p) | _ => None end)
    (run no_env true (gets 6 "http://a.example/" ++ concat (map (fun id => [Submit (get "http://a.example/") Started; Abort id; Return]) (seqZ 7 300)))
      (new_impl true tt, [])) = Some (300%nat, 0).
Proof. vm_compute. reflexivity. Qed.

(** A callback that asks for more of the same origin is served before those that wait. *)
Lemma newcomer_overtakes :
  seen (run no_env true (gets 7 "http://a.example/" ++ [Poll_once []; Completed 1 fine; Submit (get "http://a.example/") Started; Return; Continue Started;
    Continue Started; Continue Started; No_message]) (new_impl true tt, [])) = Some ([(1, ok)], [5; 3; 6; 8; 4; 2], [7], []).
Proof. vm_compute. reflexivity. Qed.

(** Requests put back because their origin is full change places with those not looked
    at when the client is full in the middle of the queue: 65 was before 67. *)
Lemma queue_reordered :
  let others := ["http://c/"; "http://d/"; "http://e/"; "http://f/"; "http://g/"; "http://h/"; "http://i/"; "http://j/"; "http://k/"]%string in
  let l := gets 6 "http://a/" ++ concat (map (gets 6) others) ++ gets 4 "http://l/" ++ gets 1 "http://a/" ++ gets 2 "http://b/" in
  (fun o => match o with Ret (Some (p, [])) => map q_id (pending_fifo p) | _ => [] end) (run no_env true l (new_impl true tt, [])) = [65; 66; 67] /\
  (fun o => match o with Ret (Some (p, [])) => map q_id (pending_fifo p) | _ => [] end)
    (run no_env true (l ++ [Poll_once []; Completed 7 fine; Return] ++ replicate 4 (Continue Started) ++ [No_message]) (new_impl true tt, [])) = [67; 65].
Proof. split; vm_compute; reflexivity. Qed.

(** User information of a proxy ends at the first [@]: the rest of a password becomes
    the host. *)
Lemma proxy_password_split :
  configure_proxy no_env (MkHttp [] (str "http://a/") [] [] false None true 0 (str "http://me:p@ss@proxy:80") [] []) =
  [OPT_PROXY (str "http://ss@proxy:80"); OPT_PROXYTYPE PROXY_HTTP; OPT_PROXYUSERPWD (str "me:p")].
Proof. vm_compute. reflexivity. Qed.

(** An address with a query and no path is not exempt from proxies. *)
Lemma query_defeats_no_proxy :
  no_proxy_matches (str "internal") (str "http://internal/?x") = true /\ no_proxy_matches (str "internal") (str "http://internal?x") = false.
Proof. split; vm_compute; reflexivity. Qed.

(** A request may be answered before [submit] returns, so before its id is known. *)
Lemma answered_before_return :
  seen (run no_env true [Submit (get "http://a/") no_handle] (new_impl true tt, [])) = Some ([(1, unknown)], [], [], [Script]) /\
  seen (run no_env true [Submit (get "https://a/") Started] (new_impl false tt, [])) = Some ([(1, tls)], [], [], [Script]).
Proof. split; vm_compute; reflexivity. Qed.

(** A port with too many digits is undefined ([std::atoi]). *)
Lemma huge_port_undefined j : submit no_env true (get "http://a:99999999999/") Started (new_impl (J := unit) true j) [] = Ub.
Proof. vm_compute. reflexivity. Qed.
