(* ===== verification/Glyphs.v ===== *)
(** The glyph cache ([src/font/glyph_cache.cpp]) on two atlas pages, and the FreeType
    face that renders for it ([src/font/backends/freetype/face.cpp]).

    Rendered glyphs are packed onto a page per format and keep their pixels, so that a
    page can be rebuilt after the least recently used ones were evicted.  The cache sees
    fonts through the class [Face]; FreeType is a parameter of the instance.  A face has
    a state: the shaper sets its variations ([shape_one] of
    [src/font/backends/harfbuzz/shaper.cpp]), and it renders by those set so far.  A 32-bit
    [float] is the Standard Library's [spec_float] at 24 bits of precision; the bearings
    of a glyph are kept as the integers FreeType gives.  Fields that are written and
    never read, and the log, are left out. *)

From S2P Require Import Prelude Doubles Atlas.

#[export] Instance format_eq_dec : EqDecision format.
Proof. solve_decision. Defined.

(** * Data *)

(** [a_x], [a_y]: [atlas_x], [atlas_y]. *)
Record glyph : Type := MkGlyph {
  a_x : Z; a_y : Z; g_width : Z; g_height : Z; offset_x : Z; offset_y : Z; advance_x : Z; g_format : format }.
Definition no_glyph : glyph := MkGlyph 0 0 0 0 0 0 0 grayscale.

Definition set_position (x y : Z) (g : glyph) : glyph :=
  MkGlyph x y (g_width g) (g_height g) (offset_x g) (offset_y g) (advance_x g) (g_format g).

Record glyph_key : Type := MkKey { face_id : Z; glyph_id : Z; pixel_size_q : Z; subpixel_x : Z; hint : Z }.

#[export] Instance glyph_key_eq_dec : EqDecision glyph_key.
Proof. solve_decision. Defined.

#[export] Instance glyph_key_countable : Countable glyph_key.
Proof.
  refine (inj_countable' (fun k => (face_id k, glyph_id k, pixel_size_q k, subpixel_x k, hint k))
    (fun t => MkKey t.1.1.1.1 t.1.1.1.2 t.1.1.2 t.1.2 t.2) _). by intros [].
Defined.

(** ** Sub-pixel positions *)

Notation float := spec_float.
Definition f32 (n : Z) : float := binary_normalize 24 128 n 0 false.
Definition is_finite (x : float) : bool := match x with S754_zero _ | S754_finite _ _ _ => true | _ => false end.

(** [std::floor] of a number that is not negative. *)
Definition floor32 (x : float) : float := match ftrunc x with Some n => f32 n | None => x end.

Definition wrap_subpixel (x : float) : float := if SFleb (f32 1) x then SFsub 24 128 x (floor32 x) else x.

Definition sub_bin (x : float) : Z :=
  let x := if negb (is_finite x) || SFltb x fzero then fzero else x in
  Z.land (u8 (default 0 (ftrunc (SFmul 24 128 (wrap_subpixel x) (f32 4))))) 3.

Definition bin_subpixel (bin : Z) : float := SFmul 24 128 (f32 bin) (S754_finite false 8388608 (-25)).

(** [std::lround]: halves away from zero; [None]: infinite or not a number. *)
Definition round_away (x : float) : option Z :=
  match x with
  | S754_zero _ => Some 0
  | S754_finite s m e =>
      let n := if 0 <=? e then Z.shiftl (Z.pos m) e else Z.shiftr (Z.pos m + 2 ^ (- e - 1)) (- e) in
      Some (if s then - n else n)
  | _ => None
  end.

(** The result is unspecified when it does not fit a [long]. *)
Definition lround (x : float) : outcome Z :=
  match round_away x with
  | Some n => if (- 2 ^ 63 <=? n) && (n <? 2 ^ 63) then Ret n else Ub
  | None => Ub
  end.

(** * Faces *)

(** A tag of four characters, filled up with blanks. *)
Definition tag (sv : bytes) : bytes := take 4 (sv ++ replicate 4 (chr " ")).
Definition packed (t : bytes) : Z := foldl (fun h c => Z.lor (Z.shiftl h 8) c) 0 t.

Record variation : Type := MkVariation { v_tag : bytes; v_value : float }.

(** What the cache asks of a face; [render]: [render_glyph], onto two pages. *)
Class Face (F : Type) := {
  id : F -> Z;
  pixel_size : F -> float;
  set_variations : list variation -> F -> outcome F;
  render : F -> Z -> atlas -> atlas -> Z -> float -> outcome (glyph * atlas * atlas) }.

(** ** FreeType *)

Inductive pixel_mode : Type := MODE_BGRA | MODE_GRAY | MODE_OTHER.

#[export] Instance pixel_mode_eq_dec : EqDecision pixel_mode.
Proof. solve_decision. Defined.

(** A glyph slot after [FT_Load_Glyph] with its bitmap; [s_advance] in 26.6. *)
Record slot : Type := MkSlot {
  s_width : Z; s_rows : Z; s_pitch : Z; s_buffer : bytes; s_mode : pixel_mode; s_left : Z; s_top : Z; s_advance : Z }.

(** A face.  [ft_axes]: the axes of a variable font, each a tag and a default in 16.16;
    [None]: it has none.  [ft_set]: the coordinates [FT_Set_Var_Design_Coordinates] was
    given so far.  [ft_load]: [FT_Load_Glyph] after such calls, by glyph, hint and shift
    in 26.6; [None]: it failed. *)
Record free_type_face : Type := MkFace {
  ft_id : Z; ft_pixel_size : float; ft_axes : option (list (Z * Z)); ft_set : list (list Z);
  ft_load : list (list Z) -> Z -> Z -> Z -> option slot }.

Definition with_set (calls : list (list Z)) (face : free_type_face) : free_type_face :=
  MkFace (ft_id face) (ft_pixel_size face) (ft_axes face) calls (ft_load face).

(** A value of an axis in 16.16. *)
Definition ft_fixed (x : float) : outcome Z := cast_i64 (SFmul 24 128 x (f32 65536)).

(** The coordinates with one variation, set at the first axis of its name. *)
Fixpoint set_axis (axes : list (Z * Z)) (v : variation) (coords : list Z) : outcome (list Z) :=
  match axes, coords with
  | (name, _) :: axes', x :: coords' =>
      if name =? packed (v_tag v) then y ← ft_fixed (v_value v); Ret (y :: coords')
      else coords' ← set_axis axes' v coords'; Ret (x :: coords')
  | _, _ => Ret coords
  end.

Fixpoint set_axes (axes : list (Z * Z)) (vs : list variation) (coords : list Z) : outcome (list Z) :=
  match vs with
  | [] => Ret coords
  | v :: vs' => coords ← set_axis axes v coords; set_axes axes vs' coords
  end.

Definition ft_set_variations (vs : list variation) (face : free_type_face) : outcome free_type_face :=
  if bool_decide (length vs = 0%nat) then Ret face
  else
    match ft_axes face with
    | None => Ret face
    | Some axes => coords ← set_axes axes vs (map snd axes); Ret (with_set (ft_set face ++ [coords]) face)
    end.

(** The rows of a bitmap without what separates them. *)
Fixpoint tight_rows (k : nat) (width pitch : Z) (buffer : bytes) : outcome bytes :=
  match k with
  | O => Ret []
  | S k' => rows ← tight_rows k' width pitch buffer; row ← sub_ buffer (Z.of_nat k' * pitch) width; Ret (rows ++ row)
  end.

Definition ft_shift (x : float) : outcome Z :=
  if is_finite x && SFltb fzero x then lround (SFmul 24 128 (wrap_subpixel x) (f32 64)) else Ret 0.

(** The rows that are packed. *)
Definition bitmap (s : slot) : outcome bytes :=
  match s_mode s with
  | MODE_GRAY => if s_pitch s =? s_width s then Ret (s_buffer s) else tight_rows (Z.to_nat (s_rows s)) (s_width s) (s_pitch s) (s_buffer s)
  | _ => Ret (s_buffer s)
  end.

Definition render_glyph (face : free_type_face) (glyph_id : Z) (mask color : atlas) (hint : Z) (x : float) : outcome (glyph * atlas * atlas) :=
  if glyph_id =? 0 then Ret (no_glyph, mask, color)
  else
    shift ← ft_shift x;
    match ft_load face (ft_set face) glyph_id hint shift with
    | None => Ret (no_glyph, mask, color)
    | Some s =>
        if (s_width s =? 0) || (s_rows s =? 0) then Ret (MkGlyph 0 0 0 0 0 0 (s_advance s) grayscale, mask, color)
        else
          let placed f reg := if ok reg then MkGlyph (region_x reg) (region_y reg) (s_width s) (s_rows s) (s_left s) (- s_top s) (s_advance s) f
                              else no_glyph in
          match s_mode s with
          | MODE_BGRA => data ← bitmap s; '(reg, color) ← pack (s_width s) (s_rows s) (Some data) color; Ret (placed bgra reg, mask, color)
          | MODE_GRAY => data ← bitmap s; '(reg, mask) ← pack (s_width s) (s_rows s) (Some data) mask; Ret (placed grayscale reg, mask, color)
          | MODE_OTHER => Ret (no_glyph, mask, color)
          end
    end.

#[export] Instance freetype : Face free_type_face := {| id := ft_id; pixel_size := ft_pixel_size; set_variations := ft_set_variations; render := render_glyph |}.

(** * The cache *)

Record entry : Type := MkEntry { e_glyph : glyph; pixel_bytes : bytes; e_width : Z; e_height : Z }.

Record glyph_budget : Type := MkBudget {
  initial_atlas_size : Z; max_atlas_size : Z; max_mask_glyph_count : Z; max_color_glyph_count : Z;
  max_mask_atlas_bytes : Z; max_color_atlas_bytes : Z }.

(** One of a pair, by format. *)
Definition at_format {A} (f : format) (p : A * A) : A := match f with grayscale => p.1 | bgra => p.2 end.
Definition set_format {A} (f : format) (x : A) (p : A * A) : A * A := match f with grayscale => (x, p.2) | bgra => (p.1, x) end.

Record cache : Type := MkCache {
  budget : glyph_budget; pages : atlas * atlas; entries : gmap glyph_key entry; lru : list glyph_key;
  counts : Z * Z; evictions : Z * Z; oversize_warnings : gset Z }.

Definition with_pages (p : atlas * atlas) (c : cache) : cache :=
  MkCache (budget c) p (entries c) (lru c) (counts c) (evictions c) (oversize_warnings c).
Definition with_entries (m : gmap glyph_key entry) (c : cache) : cache :=
  MkCache (budget c) (pages c) m (lru c) (counts c) (evictions c) (oversize_warnings c).
Definition with_lru (l : list glyph_key) (c : cache) : cache :=
  MkCache (budget c) (pages c) (entries c) l (counts c) (evictions c) (oversize_warnings c).
Definition with_counts (n : Z * Z) (c : cache) : cache :=
  MkCache (budget c) (pages c) (entries c) (lru c) n (evictions c) (oversize_warnings c).
Definition with_evictions (n : Z * Z) (c : cache) : cache :=
  MkCache (budget c) (pages c) (entries c) (lru c) (counts c) n (oversize_warnings c).
Definition with_warnings (w : gset Z) (c : cache) : cache :=
  MkCache (budget c) (pages c) (entries c) (lru c) (counts c) (evictions c) w.

Definition sanitize (b : glyph_budget) : glyph_budget :=
  let i := Z.max (initial_atlas_size b) 1 in
  MkBudget i (Z.max (max_atlas_size b) i) (max_mask_glyph_count b) (max_color_glyph_count b) (max_mask_atlas_bytes b) (max_color_atlas_bytes b).

Definition new_pages (b : glyph_budget) : atlas * atlas :=
  (new_atlas grayscale (initial_atlas_size b) (max_atlas_size b), new_atlas bgra (initial_atlas_size b) (max_atlas_size b)).

Definition new_cache (b : glyph_budget) : cache := MkCache (sanitize b) (new_pages (sanitize b)) ∅ [] (0, 0) (0, 0) ∅.

Definition max_count (f : format) (c : cache) : Z := match f with bgra => max_color_glyph_count (budget c) | grayscale => max_mask_glyph_count (budget c) end.
Definition max_bytes (f : format) (c : cache) : Z := match f with bgra => max_color_atlas_bytes (budget c) | grayscale => max_mask_atlas_bytes (budget c) end.
Definition atlas_bytes (f : format) (c : cache) : Z :=
  let a := at_format f (pages c) in u64 (width_ a * height_ a * bytes_per_pixel a).

Definition promote (k : glyph_key) (c : cache) : cache := with_lru (k :: filter (fun k' => k' <> k) (lru c)) c.

(** ** Eviction *)

(** A count wraps at 0; counting up to [2^64] is left out. *)
Definition decrement (n : Z) : Z := if n =? 0 then 2 ^ 64 - 1 else n - 1.

(** The first key that satisfies a test, and the others. *)
Fixpoint scan (P : glyph_key -> bool) (l : list glyph_key) : option (glyph_key * list glyph_key) :=
  match l with
  | [] => None
  | k :: l' => if P k then Some (k, l') else match scan P l' with Some (v, r) => Some (v, k :: r) | None => None end
  end.

Definition of_format (f : format) (c : cache) (k : glyph_key) : bool :=
  match entries c !! k with Some e => bool_decide (g_format (e_glyph e) = f) | None => false end.

Definition evict_one_lru (f : format) (protected : glyph_key) (c : cache) : bool * cache :=
  match scan (fun k => of_format f c k && negb (bool_decide (k = protected))) (reverse (lru c)) with
  | None => (false, c)
  | Some (victim, rest) =>
      let c := with_lru (reverse rest) (with_entries (delete victim (entries c)) c) in
      (true, with_evictions (set_format f (at_format f (evictions c) + 1) (evictions c))
               (with_counts (set_format f (decrement (at_format f (counts c))) (counts c)) c))
  end.

(** The entries of a format, in the order of use; a glyph's address stands for its node
    in the map. *)
Definition live_items (f : format) (c : cache) : list repack_item :=
  omap (fun k => match entries c !! k with
                 | Some e => if bool_decide (g_format (e_glyph e) = f)
                             then Some (MkItem (Some (encode k)) (pixel_bytes e) (e_width e) (e_height e)) else None
                 | None => None
                 end) (lru c).

Definition move_entry (gs : glyphs) (k : glyph_key) (e : entry) : entry :=
  match gs !! encode k with
  | Some (x, y) => MkEntry (set_position x y (e_glyph e)) (pixel_bytes e) (e_width e) (e_height e)
  | None => e
  end.

Definition rebuild (f : format) (c : cache) : outcome (bool * cache) :=
  '(b, gs, a) ← rebuild_from_live (live_items f c) ∅ (at_format f (pages c));
  Ret (b, with_entries (map_imap (fun k e => Some (move_entry gs k e)) (entries c)) (with_pages (set_format f a (pages c)) c)).

Definition over_budget (f : format) (c : cache) : bool :=
  (max_count f c <? at_format f (counts c)) || (max_bytes f c <? atlas_bytes f c).

Fixpoint enforce_loop (fuel : nat) (f : format) (protected : glyph_key) (changed : bool) (c : cache) : outcome (bool * cache) :=
  if over_budget f c then
    match fuel with
    | O => OutOfFuel
    | S fuel' =>
        let '(evicted, c) := evict_one_lru f protected c in
        if negb evicted then Ret (false, c)
        else '(rebuilt, c) ← rebuild f c; if negb rebuilt then Ret (false, c) else enforce_loop fuel' f protected true c
    end
  else if changed then rebuild f c else Ret (true, c).

Definition enforce_budget (f : format) (protected : glyph_key) (c : cache) : outcome (bool * cache) :=
  enforce_loop (S (length (lru c))) f protected false c.

(** [while (to_evict-- > 0 && evict_one_lru(...)) evicted = true] *)
Fixpoint evict_some (n : nat) (f : format) (protected : glyph_key) (evicted : bool) (c : cache) : bool * cache :=
  match n with
  | O => (evicted, c)
  | S n' => let '(b, c) := evict_one_lru f protected c in if b then evict_some n' f protected true c else (evicted, c)
  end.

Definition recover_space_for_pack (f : format) (protected : glyph_key) (c : cache) : outcome (bool * cache) :=
  let '(evicted, c) := evict_some (Z.to_nat (Z.max 1 (at_format f (counts c) / 4))) f protected false c in
  if evicted then rebuild f c else Ret (false, c).

Definition position (x y : Z) (e : entry) : entry := MkEntry (set_position x y (e_glyph e)) (pixel_bytes e) (e_width e) (e_height e).

Fixpoint pack_loop (fuel : nat) (k : glyph_key) (e : entry) (c : cache) : outcome (bool * entry * cache) :=
  match fuel with
  | O => OutOfFuel
  | S fuel' =>
      let f := g_format (e_glyph e) in
      '(reg, a) ← pack (e_width e) (e_height e) (Some (pixel_bytes e)) (at_format f (pages c));
      let c := with_pages (set_format f a (pages c)) c in
      if ok reg then Ret (true, position (region_x reg) (region_y reg) e, c)
      else '(recovered, c) ← recover_space_for_pack f k c; if (recovered : bool) then pack_loop fuel' k e c else Ret (false, e, c)
  end.

Definition pack_entry (k : glyph_key) (e : entry) (c : cache) : outcome (bool * entry * cache) :=
  if (e_width e =? 0) || (e_height e =? 0) then Ret (true, position 0 0 e, c)
  else pack_loop (S (length (lru c))) k e c.

(** ** Lookup *)

Definition fnv_mix (h v : Z) : Z := u64 (Z.lxor h v * 1099511628211).
Definition warning_key (k : glyph_key) : Z := fnv_mix (fnv_mix 14695981039346656037 (face_id k)) (pixel_size_q k).
Definition warn_oversize_once (k : glyph_key) (c : cache) : cache := with_warnings ({[warning_key k]} ∪ oversize_warnings c) c.

(** The rows of a rectangle of the page. *)
Fixpoint extract_rows (n : nat) (a : atlas) (g : glyph) : outcome bytes :=
  match n with
  | O => Ret []
  | S n' =>
      rows ← extract_rows n' a g;
      row ← sub_ (pixels_ a) ((u32 (a_y g + Z.of_nat n') * width_ a + a_x g) * bytes_per_pixel a) (g_width g * bytes_per_pixel a);
      Ret (rows ++ row)
  end.

Definition extract_pixels (a : atlas) (g : glyph) : outcome bytes :=
  if (g_width g =? 0) || (g_height g =? 0) then Ret []
  else if (width_ a <? u32 (a_x g + g_width g)) || (height_ a <? u32 (a_y g + g_height g)) then Ret []
  else extract_rows (Z.to_nat (g_height g)) a g.

Definition make_key {F} `{Face F} (face : F) (glyph_id : Z) (x : float) (hint : Z) : outcome glyph_key :=
  q ← lround (SFmul 24 128 (pixel_size face) (f32 64));
  Ret (MkKey (id face) glyph_id (u32 q) (sub_bin x) hint).

(** [None]: the empty glyph is the answer. *)
Definition render_entry {F} `{Face F} (face : F) (k : glyph_key) : outcome (entry * bool) :=
  '(rendered, mask, color) ← render face (glyph_id k) (new_atlas grayscale 256 8192) (new_atlas bgra 256 8192) (hint k) (bin_subpixel (subpixel_x k));
  let scratch := match g_format rendered with bgra => color | grayscale => mask end in
  pixels ← extract_pixels scratch rendered;
  let fits := negb (negb ((g_width rendered =? 0) && (g_height rendered =? 0)) && bool_decide (pixels = [])) &&
              negb ((0xffff <? g_width rendered) || (0xffff <? g_height rendered)) in
  Ret (MkEntry rendered pixels (Z.min (g_width rendered) 0xffff) (Z.min (g_height rendered) 0xffff), fits).

(** A new entry: it is packed, entered and the budget enforced. *)
Definition insert_entry (k : glyph_key) (e : entry) (c : cache) : outcome (option glyph * cache) :=
  let f := g_format (e_glyph e) in
  '(packed, e, c) ← pack_entry k e c;
  if negb packed then Ret (None, warn_oversize_once k c)
  else
    let c := with_lru (k :: lru c) c in
    match entries c !! k with
    | Some e' => Ret (Some (e_glyph e'), c)
    | None =>
        let c := with_counts (set_format f (at_format f (counts c) + 1) (counts c)) (with_entries (<[k := e]> (entries c)) c) in
        '(enforced, c) ← enforce_budget f k c;
        if negb enforced then
          c ← (match entries c !! k with
               | None => Ret c
               | Some _ =>
                   let c := with_lru (tail (lru c)) (with_entries (delete k (entries c)) c) in
                   let c := with_counts (set_format f (decrement (at_format f (counts c))) (counts c)) c in
                   let c := with_evictions (set_format f (at_format f (evictions c) + 1) (evictions c)) c in
                   '(_, c) ← rebuild f c; Ret c
               end);
          Ret (None, warn_oversize_once k c)
        else Ret (e_glyph <$> entries c !! k, c)
    end.

Definition lookup_key {F} `{Face F} (face : F) (k : glyph_key) (c : cache) : outcome (option glyph * cache) :=
  match entries c !! k with
  | Some e => Ret (Some (e_glyph e), promote k c)
  | None =>
      '(e, fits) ← render_entry face k;
      if (fits : bool) then insert_entry k e c else Ret (None, warn_oversize_once k c)
  end.

Definition lookup {F} `{Face F} (face : F) (glyph_id : Z) (x : float) (hint : Z) (c : cache) : outcome (glyph * cache) :=
  k ← make_key face glyph_id x hint;
  '(g, c) ← lookup_key face k c;
  Ret (default no_glyph g, c).

(** ** The other operations *)

Definition set_budget (b : glyph_budget) (c : cache) : cache :=
  MkCache (sanitize b) (new_pages (sanitize b)) ∅ [] (0, 0) (evictions c) (oversize_warnings c).

Definition clear_cache (c : cache) : cache :=
  MkCache (budget c) (clear (pages c).1, clear (pages c).2) ∅ [] (0, 0) (evictions c) (oversize_warnings c).

Definition cache_size (f : format) (c : cache) : Z := at_format f (counts c).
Definition eviction_count (f : format) (c : cache) : Z := at_format f (evictions c).
Definition generation (f : format) (c : cache) : Z := generation_ (at_format f (pages c)).
Definition layout_generation (f : format) (c : cache) : Z := layout_generation_ (at_format f (pages c)).
Definition debug_contains (k : glyph_key) (c : cache) : bool := bool_decide (is_Some (entries c !! k)).
