(* ===== verification/GlyphsFacts.v ===== *)
(** The glyph cache: what it answers is on the page as it was rendered, with the
    variations its face had then, the least recently used glyphs go first, its budget
    holds; what modelling showed. *)

From S2P Require Import Prelude Doubles Atlas Glyphs.

(** * Pages *)

(** What packing does not change. *)
Definition same_kind (a a' : atlas) : Prop :=
  format_ a' = format_ a /\ initial_size_ a' = initial_size_ a /\ max_size_ a' = max_size_ a /\ padding_ a' = padding_ a.

Lemma same_kind_trans a b c : same_kind a b -> same_kind b c -> same_kind a c.
Proof. unfold same_kind. intuition congruence. Qed.

Lemma grow_kind w h a b a' : grow_ w h a = Ret (b, a') -> same_kind a a'.
Proof.
  unfold grow_. intros (nw & _ & (nh & _ & E)%bind_inv)%bind_inv. revert E.
  destruct (_ && _); [by intros [= <- <-]|]. destruct (_ || _); [by intros [= <- <-]|]. intros (px & _ & E)%bind_inv. by injection E as <- <-.
Qed.

Lemma reserve_loop_kind fuel w h : forall a reg a', reserve_loop fuel w h a = Ret (reg, a') -> same_kind a a'.
Proof.
  induction fuel as [|fuel IH]; intros a reg a' E; [done|]. cbn [reserve_loop] in E.
  destruct (_ || _).
  - destruct (grow_ _ _ a) as [[b a1]| | |] eqn:Eg; try done. cbn [mbind outcome_bind] in E. apply grow_kind in Eg.
    destruct b; [eapply same_kind_trans; [exact Eg|by eapply IH]|by injection E as <- <-].
  - match type of E with context [if height_ ?x <? _ then _ else _] => assert (Hk : same_kind a x) by (clear; unfold same_kind; by destruct (_ <? _)); set (a0 := x) in * end.
    clearbody a0. destruct (_ <? _).
    + destruct (grow_ _ _ a0) as [[b a1]| | |] eqn:Eg; try done. cbn [mbind outcome_bind] in E. apply grow_kind in Eg.
      destruct b; [|injection E as <- <-]; (eapply same_kind_trans; [exact Hk|]); [|done]. eapply same_kind_trans; [exact Eg|by eapply IH].
    + by injection E as <- <-.
Qed.

Lemma pack_kind w h data a reg a' : pack w h data a = Ret (reg, a') -> same_kind a a'.
Proof.
  unfold pack. destruct (reserve w h a) as [[r a1]| | |] eqn:E; try done. cbn [mbind outcome_bind].
  assert (Hk : same_kind a a1).
  { revert E. unfold reserve. destruct (_ || _); [by intros [= <- <-]|]. intros E. apply reserve_loop_kind in E. exact E. }
  clear E. destruct data as [src|]; [|by intros [= <- <-]]. destruct (_ || _); [by intros [= <- <-]|]. unfold copy_into_.
  destruct (copy_glyph _ _ _ _ _ _ _); try done. by intros [= <- <-].
Qed.

Lemma repack_kind live : forall gs a b gs' a', repack live gs a = Ret (b, gs', a') -> same_kind a a'.
Proof.
  induction live as [|item live IH]; intros gs a b gs' a' E; cbn [repack] in E; [by injection E as <- <- <-|].
  destruct (Atlas.glyph item); [|by injection E as <- <- <-]. destruct (_ || _); [by eapply IH|]. destruct (negb _); [by injection E as <- <- <-|].
  destruct (pack _ _ _ a) as [[reg a1]| | |] eqn:Ep; try done. cbn [mbind outcome_bind] in E. apply pack_kind in Ep.
  destruct (negb _); [by injection E as <- <- <-|]. eapply same_kind_trans; [exact Ep|by eapply IH].
Qed.

(** ** Generations do not matter *)

Definition erase (a : atlas) : atlas :=
  MkAtlas (format_ a) (width_ a) (height_ a) (max_size_ a) (initial_size_ a) (cursor_x_ a) (cursor_y_ a) (row_h_ a) (padding_ a) 0 0 (pixels_ a).

Definition alike (a a' : atlas) : Prop := erase a = erase a'.

Lemma alike_fields a a' : alike a a' -> format_ a = format_ a' /\ width_ a = width_ a' /\ height_ a = height_ a' /\ max_size_ a = max_size_ a' /\
  initial_size_ a = initial_size_ a' /\ cursor_x_ a = cursor_x_ a' /\ cursor_y_ a = cursor_y_ a' /\ row_h_ a = row_h_ a' /\ padding_ a = padding_ a' /\
  pixels_ a = pixels_ a' /\ bytes_per_pixel a = bytes_per_pixel a'.
Proof. unfold alike, erase. intros [=]. split_and!; try done. unfold bytes_per_pixel. by destruct a, a'; cbn in *; subst. Qed.

(** Two results that agree up to generations. *)
Definition alike_result {A} (x y : outcome (A * atlas)) : Prop :=
  match x, y with
  | Ret (b, a), Ret (b', a') => b = b' /\ alike a a'
  | Ret _, _ | _, Ret _ => False
  | _, _ => x = y
  end.

Lemma alike_result_bind {A B} (x y : outcome (A * atlas)) (f g : A * atlas -> outcome (B * atlas)) :
  alike_result x y -> (forall b a a', alike a a' -> alike_result (f (b, a)) (g (b, a'))) -> alike_result (x ≫= f) (y ≫= g).
Proof.
  intros H Hf. unfold alike_result in H. destruct x as [[b a]|s| |], y as [[b' a']|s'| |]; try done; [|by injection H as ->].
  destruct H as [<- H]. by apply Hf.
Qed.

Lemma grow_alike w h a a' : alike a a' -> alike_result (grow_ w h a) (grow_ w h a').
Proof.
  intros H. pose proof (alike_fields _ _ H) as (E1 & E2 & E3 & E4 & E5 & E6 & E7 & E8 & E9 & E10 & E11). unfold grow_. rewrite E2, E3, E4, E10, E11.
  destruct (double_until 33 _ w _) as [nw| | |]; try done. cbn [mbind outcome_bind].
  destruct (double_until 33 _ h _) as [nh| | |]; try done. cbn [mbind outcome_bind]. destruct (_ && _); [done|]. destruct (_ || _); [done|]. destruct (copy_rows _ _ _ _ _); cbn; try done. split; [done|].
  unfold alike, erase, bump, with_page. cbn. by rewrite E1, E4, E5, E6, E7, E8, E9.
Qed.

Lemma cursor_alike x y row a a' : alike a a' -> alike (with_cursor x y row a) (with_cursor x y row a').
Proof. unfold alike, erase, with_cursor. cbn. by intros [= -> -> -> -> -> _ _ _ -> ->]. Qed.

Lemma reserve_loop_alike fuel w h : forall a a', alike a a' -> alike_result (reserve_loop fuel w h a) (reserve_loop fuel w h a').
Proof.
  induction fuel as [|fuel IH]; intros a a' H; [done|]. cbn [reserve_loop].
  pose proof (alike_fields _ _ H) as (_ & E2 & E3 & _ & _ & E6 & E7 & E8 & E9 & _ & _). rewrite E2, E3, E6, E7, E8, E9.
  assert (Hstop : forall (b : bool) a1 a2, alike a1 a2 -> alike_result (if b then reserve_loop fuel w h a1 else Ret (MkRegion false 0 0, a1))
    (if b then reserve_loop fuel w h a2 else Ret (MkRegion false 0 0, a2))) by (intros [] a1 a2 H12; [by apply IH|done]).
  destruct (_ || _).
  - apply alike_result_bind; [by apply grow_alike|]. intros b a1 a2 H12. by apply Hstop.
  - match goal with |- alike_result (if height_ ?x <? _ then _ else _) (if height_ ?y <? _ then _ else _) =>
      assert (Hk : alike x y) by (destruct (_ <? _); [by apply cursor_alike|done]); set (a0 := x) in *; set (a0' := y) in * end.
    clearbody a0 a0'. pose proof (alike_fields _ _ Hk) as (_ & F2 & F3 & _ & _ & F6 & F7 & F8 & _). rewrite F2, F3, F6, F7, F8. destruct (_ <? _).
    + apply alike_result_bind; [by apply grow_alike|]. intros b a1 a2 H12. by apply Hstop.
    + split; [done|]. by apply cursor_alike.
Qed.

Lemma copy_glyph_alike k x y w src a a' px : alike a a' -> copy_glyph k x y w src a px = copy_glyph k x y w src a' px.
Proof.
  intros H. pose proof (alike_fields _ _ H) as (_ & E2 & _ & _ & _ & _ & _ & _ & _ & _ & E11). induction k as [|k IH]; [done|]. cbn [copy_glyph].
  by rewrite IH, E2, E11.
Qed.

Lemma pack_alike w h data a a' : alike a a' -> alike_result (pack w h data a) (pack w h data a').
Proof.
  intros H. unfold pack. apply alike_result_bind.
  - unfold reserve. destruct (_ || _); [done|]. apply reserve_loop_alike.
    pose proof (alike_fields _ _ H) as (_ & _ & _ & _ & _ & E6 & E7 & E8 & E9 & _ & _). rewrite E6, E7, E8, E9. by apply cursor_alike.
  - intros reg a1 a2 H12. destruct data as [src|]; [|done]. destruct (_ || _); [done|]. unfold copy_into_.
    pose proof (alike_fields _ _ H12) as (F1 & F2 & F3 & F4 & F5 & F6 & F7 & F8 & F9 & F10 & _).
    rewrite (copy_glyph_alike _ _ _ _ _ a1 a2), F10 by done. destruct (copy_glyph _ _ _ _ _ _ _); cbn; try done. split; [done|].
    unfold alike, erase, bump, with_page. cbn. by rewrite F1, F2, F3, F4, F5, F6, F7, F8, F9.
Qed.

Lemma repack_alike live : forall gs a a', alike a a' -> alike_result (repack live gs a) (repack live gs a').
Proof.
  induction live as [|item live IH]; intros gs a a' H; cbn [repack]; [done|]. destruct (Atlas.glyph item); [|done]. destruct (_ || _); [by apply IH|].
  pose proof (alike_fields _ _ H) as (_ & _ & _ & _ & _ & _ & _ & _ & _ & _ & E11). rewrite E11. destruct (negb _); [done|].
  apply alike_result_bind; [by apply pack_alike|]. intros reg a1 a2 H12. destruct (negb _); [done|by apply IH].
Qed.

Lemma reset_alike a a' : same_kind a a' -> alike (bump true (reset_empty_ a)) (bump true (reset_empty_ a')).
Proof. unfold same_kind, alike, erase, reset_empty_, bump, with_page, with_cursor, bytes_per_pixel. cbn. by intros (-> & -> & -> & ->). Qed.

(** * The state of the cache *)

Definition bpp (f : format) : Z := match f with grayscale => 1 | bgra => 4 end.
Definition other (f : format) : format := match f with grayscale => bgra | bgra => grayscale end.
Definition page (f : format) (c : cache) : atlas := at_format f (pages c).
Definition kind (e : entry) : format := g_format (e_glyph e).
Definition empty_entry (e : entry) : bool := (e_width e =? 0) || (e_height e =? 0).
Definition rect_of (e : entry) : rect := MkRect (a_x (e_glyph e)) (a_y (e_glyph e)) (e_width e) (e_height e).

(** The keys of a format, the most recently used first. *)
Definition live (f : format) (c : cache) : list glyph_key := filter (fun k => of_format f c k = true) (lru c).

Record entry_ok (e : entry) : Prop := {
  entry_width : g_width (e_glyph e) = e_width e /\ 0 <= e_width e < 65536;
  entry_height : g_height (e_glyph e) = e_height e /\ 0 <= e_height e < 65536;
  entry_pixels : empty_entry e = false -> zlen (pixel_bytes e) = e_width e * e_height e * bpp (kind e) }.

Definition page_kind (f : format) (c : cache) : Prop :=
  let a := page f c in
  format_ a = f /\ initial_size_ a = initial_atlas_size (budget c) /\ max_size_ a = max_atlas_size (budget c) /\ padding_ a = 1.

Record cache_ok (c : cache) : Prop := {
  ok_budget : 1 <= initial_atlas_size (budget c) < max_page /\ 0 <= max_atlas_size (budget c) < max_page;
  ok_pages : forall f, page_kind f c /\ exists placed, atlas_ok (page f c) placed;
  ok_lru : NoDup (lru c);
  ok_keys : forall k, k ∈ lru c <-> is_Some (entries c !! k);
  ok_counts : forall f, at_format f (counts c) = zlen (live f c);
  ok_entries : forall k e, entries c !! k = Some e -> entry_ok e }.

(** Every glyph of the format is on the page where its record says, apart from the
    others. *)
Definition shown (f : format) (c : cache) : Prop :=
  exists placed : list (glyph_key * (rect * bytes)),
    NoDup placed.*1 /\ atlas_ok (page f c) placed.*2 /\ (forall k, k ∈ placed.*1 -> exists e, entries c !! k = Some e /\ kind e = f) /\
    forall k e, entries c !! k = Some e -> kind e = f -> empty_entry e = false -> (k, (rect_of e, pixel_bytes e)) ∈ placed.

(** The entries but for their positions. *)
Definition strip (e : entry) : entry := position 0 0 e.

(** What evicting and rebuilding one format does to a cache, around the key [p]. *)
Record evolved (f : format) (p : glyph_key) (c c' : cache) : Prop := {
  ev_budget : budget c' = budget c;
  ev_lru : lru c' = filter (fun k => is_Some (entries c' !! k)) (lru c);
  ev_entries : forall k e', entries c' !! k = Some e' -> exists e, entries c !! k = Some e /\ strip e' = strip e /\ (kind e <> f -> e' = e);
  ev_others : forall k e, entries c !! k = Some e -> kind e <> f -> entries c' !! k = Some e;
  ev_protected : is_Some (entries c !! p) -> is_Some (entries c' !! p);
  ev_recent : exists n, filter (fun k => k <> p) (live f c') = take n (filter (fun k => k <> p) (live f c));
  ev_page : page (other f) c' = page (other f) c }.

Lemma at_set {A} f (x : A) p : at_format f (set_format f x p) = x.
Proof. by destruct f. Qed.

Lemma at_set_other {A} f g (x : A) p : g <> f -> at_format g (set_format f x p) = at_format g p.
Proof. by destruct f, g. Qed.

Lemma other_ne f g : g <> f -> g = other f.
Proof. by destruct f, g. Qed.

Lemma strip_fields e e' : strip e' = strip e -> kind e' = kind e /\ e_width e' = e_width e /\ e_height e' = e_height e /\ pixel_bytes e' = pixel_bytes e /\
  g_width (e_glyph e') = g_width (e_glyph e) /\ g_height (e_glyph e') = g_height (e_glyph e) /\ empty_entry e' = empty_entry e.
Proof.
  destruct e as [[] ? ? ?], e' as [[] ? ? ?]. unfold strip, position, set_position, kind, empty_entry. cbn. intros [=]. by subst.
Qed.

Lemma entry_ok_strip e e' : strip e' = strip e -> entry_ok e -> entry_ok e'.
Proof.
  intros H [W Hh P]. pose proof (strip_fields _ _ H) as (E1 & E2 & E3 & E4 & E5 & E6 & E7).
  split; rewrite ?E1, ?E2, ?E3, ?E4, ?E5, ?E6, ?E7; done.
Qed.

Lemma of_format_spec f c k : of_format f c k = true <-> exists e, entries c !! k = Some e /\ kind e = f.
Proof.
  unfold of_format. destruct (entries c !! k) as [e|]; [|split; [done|by intros (? & ? & _)]]. rewrite bool_decide_eq_true.
  split; [intros; by exists e|by intros (e' & [= <-] & ?)].
Qed.

Lemma live_elem f c k : cache_ok c -> k ∈ live f c <-> exists e, entries c !! k = Some e /\ kind e = f.
Proof.
  intros Hc. unfold live. rewrite list_elem_of_filter, of_format_spec. split; [by intros [? _]|]. intros (e & He & Hk). split; [by exists e|].
  apply (ok_keys _ Hc). by exists e.
Qed.

Lemma live_same f c c' : lru c' = lru c -> (forall k, of_format f c' k = of_format f c k) -> live f c' = live f c.
Proof. intros El Ef. unfold live. rewrite El. apply list_filter_iff. intros k. by rewrite Ef. Qed.

Lemma filter_all {A} (P : A -> Prop) `{forall x, Decision (P x)} (l : list A) : (forall x, x ∈ l -> P x) -> filter P l = l.
Proof.
  induction l as [|x l IH]; intros Hl; [done|]. rewrite filter_cons_True by (apply Hl; left). f_equal. apply IH. intros y Hy. apply Hl. by right.
Qed.

Lemma filter_none {A} (P : A -> Prop) `{forall x, Decision (P x)} (l : list A) : (forall x, x ∈ l -> ~ P x) -> filter P l = [].
Proof.
  induction l as [|x l IH]; intros Hl; [done|]. rewrite filter_cons_False by (apply Hl; left). apply IH. intros y Hy. apply Hl. by right.
Qed.

Lemma evolved_refl f p c : cache_ok c -> evolved f p c c.
Proof.
  intros Hc. split; try done.
  - symmetry. apply filter_all. intros k. apply (ok_keys _ Hc).
  - intros k e ->. by exists e.
  - exists (length (lru c)). symmetry. apply take_ge. etransitivity; [apply length_filter|]. apply length_filter.
Qed.

Lemma evolved_trans f p c1 c2 c3 : evolved f p c1 c2 -> evolved f p c2 c3 -> evolved f p c1 c3.
Proof.
  intros [B1 L1 E1 O1 P1 R1 G1] [B2 L2 E2 O2 P2 R2 G2]. split.
  - congruence.
  - rewrite L2, L1, list_filter_filter. apply list_filter_iff. intros k. split; [by intros [? _]|]. intros Hk. split; [done|].
    destruct Hk as [e Hk]. apply E2 in Hk as (e' & Hk & _). by exists e'.
  - intros k e3 H3. destruct (E2 _ _ H3) as (e2 & H2 & S2 & Q2). destruct (E1 _ _ H2) as (e1 & H1 & S1 & Q1). exists e1. split; [done|]. split; [congruence|].
    intros Hk. rewrite Q2; [by apply Q1|]. apply strip_fields in S1 as (-> & _). done.
  - intros k e H1 Hk. apply O2; [|done]. by apply O1.
  - auto.
  - destruct R1 as [n1 R1], R2 as [n2 R2]. exists (n2 `min` n1)%nat. by rewrite R2, R1, take_take.
  - congruence.
Qed.

(** * Eviction *)

Lemma scan_spec P l : match scan P l with
  | Some (v, r) => exists l1 l2, l = l1 ++ v :: l2 /\ r = l1 ++ l2 /\ P v = true /\ Forall (fun k => P k = false) l1
  | None => Forall (fun k => P k = false) l
  end.
Proof.
  induction l as [|k l IH]; [constructor|]. cbn [scan]. destruct (P k) eqn:E; [by exists [], l|]. destruct (scan P l) as [[v r]|]; [|by constructor].
  destruct IH as (l1 & l2 & -> & -> & Hv & Hl). exists (k :: l1), l2. split_and!; try done. by constructor.
Qed.

Lemma of_format_other f g c k : of_format f c k = true -> of_format g c k = true -> f = g.
Proof. rewrite !of_format_spec. intros (e & He & <-) (e' & He' & <-). congruence. Qed.

Lemma of_format_delete f g v c k : of_format f (with_lru g (with_entries (delete v (entries c)) c)) k = of_format f c k && negb (bool_decide (k = v)).
Proof.
  unfold of_format. cbn. destruct (decide (k = v)) as [->|Hn].
  - rewrite lookup_delete_eq, bool_decide_eq_true_2, andb_false_r by done. done.
  - rewrite lookup_delete_ne, bool_decide_eq_false_2, andb_true_r by done. done.
Qed.

Ltac simpl_cache := cbn [budget pages entries lru counts evictions oversize_warnings with_pages with_entries with_lru with_counts with_evictions with_warnings].

Section Evict.
Context (f : format) (p v : glyph_key) (A B : list glyph_key) (c : cache) (Hc : cache_ok c).
Context (El : lru c = A ++ v :: B) (Hv : of_format f c v = true) (Hp : v <> p).
Let c1 := with_lru (A ++ B) (with_entries (delete v (entries c)) c).

Lemma victim_fresh : v ∉ A ++ B /\ NoDup (A ++ B).
Proof. pose proof (ok_lru _ Hc) as Hn. rewrite El in Hn. rewrite <- Permutation_middle in Hn. by apply NoDup_cons in Hn. Qed.

Lemma victim_format g k : k ∈ A ++ B -> of_format g c1 k = of_format g c k.
Proof.
  intros Hk. unfold c1. rewrite of_format_delete, bool_decide_eq_false_2, andb_true_r; [done|]. intros ->. by apply victim_fresh in Hk.
Qed.

Lemma live_evicted g : live g c1 = filter (fun k => of_format g c k = true) A ++ filter (fun k => of_format g c k = true) B.
Proof.
  unfold live. change (lru c1) with (A ++ B). rewrite <- filter_app.
  assert (Hall : Forall (fun k => of_format g c1 k = of_format g c k) (A ++ B)) by (apply Forall_forall; intros k Hk; by apply victim_format).
  revert Hall. generalize (A ++ B). intros l. induction 1 as [|k l Hk Hl IH]; [done|]. rewrite !filter_cons, Hk, IH. done.
Qed.

Lemma live_victim g : live g c = filter (fun k => of_format g c k = true) A ++ (if bool_decide (g = f) then [v] else []) ++ filter (fun k => of_format g c k = true) B.
Proof.
  unfold live. rewrite El, filter_app, filter_cons. f_equal. destruct (decide (g = f)) as [->|Hn].
  - by rewrite bool_decide_eq_true_2, decide_True by done.
  - rewrite bool_decide_eq_false_2 by done. rewrite decide_False; [done|]. intros Hg. by apply Hn, (of_format_other g f c v).
Qed.

Lemma evicted_ok n e : at_format f n = decrement (at_format f (counts c)) -> (forall g, g <> f -> at_format g n = at_format g (counts c)) ->
  cache_ok (with_evictions e (with_counts n c1)).
Proof.
  intros Hn Hn'. destruct victim_fresh as [Hv1 Hv2]. destruct Hc as [K1 K2 K3 K4 K5 K6]. split; try done.
  - intros k. cbn. destruct (decide (k = v)) as [->|Hk].
    + rewrite lookup_delete_eq. split; [by intros H; exfalso; apply Hv1|by intros [? [=]]].
    + rewrite lookup_delete_ne by done. rewrite <- K4, El. set_solver.
  - intros g. change (live g (with_evictions e (with_counts n c1))) with (live g c1). cbn [counts with_evictions with_counts].
    assert (Hlen : zlen (live g c) = zlen (live g c1) + Z.b2z (bool_decide (g = f))).
    { rewrite live_evicted, live_victim. rewrite !length_app. case_bool_decide; cbn; lia. }
    destruct (decide (g = f)) as [->|Hg].
    + rewrite Hn, K5, Hlen, bool_decide_eq_true_2 by done. unfold decrement. cbn [Z.b2z]. destruct (Z.eqb_spec (zlen (live f c1) + 1) 0); lia.
    + rewrite Hn', K5, Hlen, bool_decide_eq_false_2 by done. cbn [Z.b2z]. lia.
  - intros k e'. cbn. intros [_ He]%lookup_delete_Some. by eapply K6.
Qed.

Lemma evicted_evolved n e : Forall (fun k => of_format f c k = true -> k = p) B -> evolved f p c (with_evictions e (with_counts n c1)).
Proof.
  intros HB. destruct victim_fresh as [Hv1 Hv2]. pose proof (ok_keys _ Hc) as K4. split; try done.
  - unfold c1. simpl_cache. rewrite El. rewrite filter_app, filter_cons, lookup_delete_eq. rewrite decide_False by by intros [? [=]].
    rewrite <- filter_app. symmetry. apply filter_all. intros k Hk. rewrite lookup_delete_ne by (intros ->; done). apply K4. rewrite El. set_solver.
  - intros k e'. unfold c1. simpl_cache. intros [_ He]%lookup_delete_Some. by exists e'.
  - intros k e' He Hk. unfold c1. simpl_cache. rewrite lookup_delete_ne; [done|]. intros ->. apply Hk. apply of_format_spec in Hv as (e'' & He' & <-). congruence.
  - intros [e' He]. exists e'. unfold c1. simpl_cache. by rewrite lookup_delete_ne.
  - change (live f (with_evictions e (with_counts n c1))) with (live f c1). rewrite live_evicted, live_victim, bool_decide_eq_true_2 by done.
    rewrite !filter_app. assert (HBn : filter (fun k => k <> p) (filter (fun k => of_format f c k = true) B) = []).
    { apply filter_none. intros k [Hk Hin]%list_elem_of_filter Hkp. rewrite Forall_forall in HB. by apply Hkp, HB. }
    rewrite HBn, !app_nil_r, filter_cons_True, filter_nil by done.
    exists (length (filter (fun k => k <> p) (filter (fun k => of_format f c k = true) A))). by rewrite take_app_length.
Qed.
End Evict.

Lemma evict_one_spec f p c b c' : cache_ok c -> evict_one_lru f p c = (b, c') ->
  cache_ok c' /\ evolved f p c c' /\ pages c' = pages c /\
  if b then S (length (lru c')) = length (lru c) else c' = c /\ filter (fun k => k <> p) (live f c) = [].
Proof.
  intros Hc. unfold evict_one_lru. pose proof (scan_spec (fun k => of_format f c k && negb (bool_decide (k = p))) (reverse (lru c))) as Hs.
  destruct (scan _ _) as [[v rest]|].
  - destruct Hs as (l1 & l2 & El & -> & Hv & Hl). intros [= <- <-]. apply (f_equal reverse) in El. rewrite reverse_involutive, reverse_app, reverse_cons, <- app_assoc in El.
    cbn [app] in El. apply andb_true_iff in Hv as [Hv Hp%negb_true_iff%bool_decide_eq_false]. rewrite reverse_app. split; [|split; [|split]].
    + eapply (evicted_ok f p v); [done|done|done|done|by rewrite at_set|]. intros g Hg. by rewrite at_set_other.
    + apply (evicted_evolved f p v); [done|done|done|done|]. apply Forall_reverse. eapply Forall_impl; [exact Hl|]. cbn. intros k Hk Hf. rewrite Hf in Hk.
      cbn in Hk. by apply negb_false_iff, bool_decide_eq_true in Hk.
    + done.
    + cbn. rewrite El, !length_app. cbn. lia.
  - intros [= <- <-]. split; [done|]. split; [by apply evolved_refl|]. split; [done|]. split; [done|]. apply filter_none. intros k Hk Hkp.
    unfold live in Hk. apply list_elem_of_filter in Hk as [Hf Hk]. apply (Forall_reverse _ (reverse _)) in Hs. rewrite reverse_involutive, Forall_forall in Hs. specialize (Hs k Hk). cbn in Hs.
    by rewrite Hf, bool_decide_eq_false_2 in Hs.
Qed.

(** * Rebuilding *)

Lemma omap_keys {A} (h : glyph_key -> option (glyph_key * A)) (l : list glyph_key) : (forall k x, h k = Some x -> x.1 = k) -> NoDup l ->
  NoDup (omap h l).*1 /\ forall k, k ∈ (omap h l).*1 -> k ∈ l.
Proof.
  intros Hh. induction l as [|k l IH]; intros Hn; [split; [constructor|done]|]. apply NoDup_cons in Hn as [Hk Hn]. destruct (IH Hn) as [H1 H2].
  cbn [omap list_omap]. destruct (h k) as [x|] eqn:E; [|split; [done|intros k' Hk'; right; by apply H2]]. apply Hh in E as Ex.
  cbn [fmap list_fmap]. rewrite Ex. split.
  - apply NoDup_cons. split; [|done]. intros Hin. by apply Hk, H2.
  - intros k' [->|Hk']%elem_of_cons; [left|right; by apply H2].
Qed.

Section Rebuild.
Context (f : format) (c : cache) (Hc : cache_ok c).

Definition item_of (k : glyph_key) : option repack_item :=
  match entries c !! k with
  | Some e => if bool_decide (g_format (e_glyph e) = f) then Some (MkItem (Some (encode k)) (pixel_bytes e) (e_width e) (e_height e)) else None
  | None => None
  end.

Lemma live_items_of : live_items f c = omap item_of (lru c).
Proof. done. Qed.

Lemma item_of_spec k : match item_of k with Some it => of_format f c k = true /\ Atlas.glyph it = Some (encode k) | None => of_format f c k = false end.
Proof.
  unfold item_of, of_format. destruct (entries c !! k) as [e|]; [|done]. by case_bool_decide.
Qed.

Lemma item_addresses : Atlas.glyph <$> live_items f c = (fun k => Some (encode k)) <$> live f c.
Proof.
  rewrite live_items_of. unfold live. induction (lru c) as [|k l IH]; [done|]. cbn [omap list_omap]. pose proof (item_of_spec k) as Hk.
  destruct (item_of k) as [it|]; [|by rewrite filter_cons_False by (by rewrite Hk)]. destruct Hk as [Hk Hg].
  rewrite filter_cons_True by done. cbn [fmap list_fmap]. by f_equal.
Qed.

Lemma items_distinct : NoDup (Atlas.glyph <$> live_items f c).
Proof.
  rewrite item_addresses. apply NoDup_fmap_2; [|apply NoDup_filter, (ok_lru _ Hc)]. intros k k' [= H]. by apply (inj encode).
Qed.

Lemma items_ok : Forall item_ok (live_items f c).
Proof.
  rewrite live_items_of. apply Forall_forall. intros it (k & _ & Hk)%list_elem_of_omap. unfold item_of in Hk. destruct (entries c !! k) as [e|] eqn:E; [|done].
  case_bool_decide; [|done]. injection Hk as <-. destruct (ok_entries _ Hc k e E) as [[_ W] [_ H'] _]. unfold item_ok, max_page. cbn. lia.
Qed.

(** Where the rebuild puts the glyphs of the keys. *)
Definition key_rect (gs : glyphs) (k : glyph_key) : option (glyph_key * (rect * bytes)) := it ← item_of k; r ← item_rect gs it; Some (k, r).

Lemma key_rect_key gs k x : key_rect gs k = Some x -> x.1 = k.
Proof. unfold key_rect. destruct (item_of k); [|done]. cbn. destruct (item_rect _ _); [|done]. by intros [= <-]. Qed.

Lemma key_rects gs : (omap (key_rect gs) (lru c)).*2 = omap (item_rect gs) (live_items f c).
Proof.
  rewrite live_items_of. induction (lru c) as [|k l IH]; [done|]. cbn [omap list_omap]. unfold key_rect at 1. destruct (item_of k) as [it|]; [|done]. cbn [mbind option_bind omap list_omap].
  destruct (item_rect gs it); [|done]. cbn [mbind option_bind fmap list_fmap]. by f_equal.
Qed.

Lemma move_entry_strip gs k e : strip (move_entry gs k e) = strip e.
Proof. unfold move_entry. by destruct (gs !! _) as [[x y]|]. Qed.

Lemma moved_lookup gs k : map_imap (fun k e => Some (move_entry gs k e)) (entries c) !! k = move_entry gs k <$> entries c !! k.
Proof. rewrite map_lookup_imap. by destruct (entries c !! k). Qed.

Lemma rebuild_spec p : exists b c', rebuild f c = Ret (b, c') /\ cache_ok c' /\ evolved f p c c' /\ lru c' = lru c /\ (b = true -> shown f c').
Proof.
  destruct (ok_pages _ Hc f) as [(K1 & K2 & K3 & K4) _]. destruct (ok_budget _ Hc) as [B1 B2]. unfold rebuild, rebuild_from_live. fold (page f c).
  destruct (reset_ok (page f c) K4 ltac:(lia) ltac:(lia)) as [Hr _].
  destruct (repack_spec (live_items f c) ∅ _ [] Hr items_ok items_distinct) as (b & gs & a & placed & E & Ha & _ & Hgs & Hb).
  rewrite E. cbn [mbind outcome_bind]. do 2 eexists. split; [reflexivity|]. set (c' := with_entries _ _).
  assert (Hk : same_kind (page f c) a) by (eapply same_kind_trans; [|by eapply repack_kind]; done).
  assert (Hl : forall k, entries c' !! k = move_entry gs k <$> entries c !! k) by apply moved_lookup.
  assert (Hof : forall g k, of_format g c' k = of_format g c k).
  { intros g k. unfold of_format. rewrite Hl. destruct (entries c !! k) as [e|]; [|done]. cbn [fmap option_fmap option_map].
    pose proof (strip_fields _ _ (move_entry_strip gs k e)) as (Ek & _). unfold kind in Ek. by rewrite Ek. }
  assert (Hlive : forall g, live g c' = live g c) by (intros g; by apply live_same).
  assert (Hpage : page f c' = a) by apply at_set. assert (Hpage' : forall g, g <> f -> page g c' = page g c) by (intros g Hg; by apply at_set_other).
  assert (Hstay : forall k e, entries c !! k = Some e -> kind e <> f -> move_entry gs k e = e).
  { intros k e He Hke. unfold move_entry. rewrite Hgs, lookup_empty; [done|]. rewrite item_addresses. intros (k' & [= Hkk] & Hin)%list_elem_of_fmap.
    apply (inj encode) in Hkk as <-. apply (live_elem f c k Hc) in Hin as (e' & He' & Hf). congruence. }
  assert (Hc' : cache_ok c').
  { destruct Hc as [C1 C2 C3 C4 C5 C6]. split; try done.
    + intros g. unfold page_kind. destruct (decide (g = f)) as [->|Hg].
      * rewrite Hpage. destruct Hk as (-> & -> & -> & ->). split; [done|by exists placed].
      * rewrite Hpage' by done. apply C2.
    + intros k. change (lru c') with (lru c). rewrite Hl, C4. destruct (entries c !! k); [split; by eexists|]. split; by intros [? [=]].
    + intros g. rewrite Hlive. apply C5.
    + intros k e. rewrite Hl. destruct (entries c !! k) as [e0|] eqn:E0; [|done]. intros [= <-]. eapply entry_ok_strip; [apply move_entry_strip|by eapply C6]. }
  split; [done|]. split; [|split; [done|]].
  - split; try done.
    + symmetry. apply filter_all. intros k Hin. rewrite Hl. apply (ok_keys _ Hc) in Hin as [e ->]. by eexists.
    + intros k e'. rewrite Hl. destruct (entries c !! k) as [e|] eqn:E0; [|done]. intros [= <-]. exists e. split; [done|]. split; [apply move_entry_strip|]. intros Hke. by apply Hstay.
    + intros k e He Hke. rewrite Hl, He. cbn. by rewrite (Hstay k e).
    + rewrite Hl. intros [e ->]. by eexists.
    + rewrite Hlive. exists (length (filter (fun k => k <> p) (live f c))). by rewrite take_ge.
    + apply Hpage'. by destruct f.
  - intros ->. destruct (Hb eq_refl) as [Hf Hpl]. rewrite app_nil_r in Hpl. exists (reverse (omap (key_rect gs) (lru c))).
    destruct (omap_keys (key_rect gs) (lru c) (key_rect_key gs) (ok_lru _ Hc)) as [Hn1 Hn2]. rewrite !fmap_reverse, key_rects, <- Hpl, Hpage. split; [by rewrite reverse_Permutation|].
    split; [done|]. split.
    + intros k Hk'. rewrite elem_of_reverse in Hk'. apply list_elem_of_fmap in Hk' as (x & -> & Hx).
      apply list_elem_of_omap in Hx as (k & Hin & Hx). apply key_rect_key in Hx as Ek. rewrite Ek. apply (live_elem f c' k Hc'). rewrite Hlive. unfold live. apply list_elem_of_filter. split; [|done].
      pose proof (item_of_spec k) as Hsp. unfold key_rect in Hx. destruct (item_of k); [by destruct Hsp|done].
    + intros k e'. rewrite Hl. destruct (entries c !! k) as [e|] eqn:E0; [|done]. intros [= <-] Hke Hem.
      pose proof (strip_fields _ _ (move_entry_strip gs k e)) as (Ek & Ew & Eh & Ep & _ & _ & Ee). rewrite Ek in Hke. rewrite Ee in Hem.
      rewrite elem_of_reverse. apply list_elem_of_omap. exists k. split; [apply (ok_keys _ Hc); by exists e|].
      assert (Hit : item_of k = Some (MkItem (Some (encode k)) (pixel_bytes e) (e_width e) (e_height e))) by (unfold item_of; by rewrite E0, bool_decide_eq_true_2).
      unfold key_rect. rewrite Hit. cbn [mbind option_bind]. rewrite Forall_forall in Hf.
      destruct (Hf (MkItem (Some (encode k)) (pixel_bytes e) (e_width e) (e_height e))) as (g & [= <-] & Hxy).
      { rewrite live_items_of. apply list_elem_of_omap. exists k. split; [apply (ok_keys _ Hc); by exists e|done]. }
      cbn [item_width item_height item_pixels] in Hxy. unfold empty_entry in Hem. rewrite Hem in Hxy. destruct Hxy as (x & y & Hxy & _).
      unfold item_rect. cbn [item_width item_height Atlas.glyph item_pixels]. rewrite Hem. cbn [mbind option_bind]. rewrite Hxy. cbn [mbind option_bind].
      unfold rect_of. rewrite Ew, Eh, Ep. unfold move_entry. by rewrite Hxy.
Qed.

(** Rebuilding again has the same result and the same page. *)
Lemma rebuild_again b c' : rebuild f c = Ret (b, c') -> exists c'', rebuild f c' = Ret (b, c'') /\ alike (page f c'') (page f c').
Proof.
  destruct (rebuild_spec (MkKey 0 0 0 0 0)) as (b0 & c0 & E0 & _ & Hev & El & _). intros E. rewrite E0 in E. injection E as -> ->.
  assert (Hit : live_items f c' = live_items f c).
  { unfold live_items. rewrite El. destruct Hev as [_ _ He _ _ _ _]. assert (Hk : Forall (fun k => is_Some (entries c' !! k)) (lru c)).
    { apply Forall_forall. intros k Hk. destruct (rebuild_spec k) as (b1 & c1 & E1 & _ & Hev1 & _). rewrite E0 in E1. injection E1 as <- <-.
      apply (ev_protected _ _ _ _ Hev1). by apply (ok_keys _ Hc). }
    clear El. induction Hk as [|k l Hk Hl IH]; [done|]. cbn [omap list_omap]. destruct Hk as [e' Hk]. destruct (He k e' Hk) as (e & He' & Hs & _).
    pose proof (strip_fields _ _ Hs) as (Ek & Ew & Eh & Ep & _). unfold kind in Ek. rewrite Hk, He', Ek, Ew, Eh, Ep. case_bool_decide; [f_equal; exact IH|exact IH]. }
  unfold rebuild in E0 |- *. rewrite Hit. unfold rebuild_from_live in E0 |- *. fold (page f c) (page f c') in *.
  destruct (repack (live_items f c) ∅ (bump true (reset_empty_ (page f c)))) as [[[b1 gs] a1]| | |] eqn:E1; try done. cbn [mbind outcome_bind] in E0.
  injection E0 as <- Ec'. assert (Hpage : page f c' = a1) by (rewrite <- Ec'; apply at_set).
  assert (Hk : same_kind (page f c) (page f c')) by (rewrite Hpage; eapply same_kind_trans; [|by eapply repack_kind]; done).
  pose proof (repack_alike (live_items f c) ∅ _ _ (reset_alike _ _ Hk)) as Ha.
  rewrite E1 in Ha. destruct (repack _ _ (bump true (reset_empty_ (page f c')))) as [[[b2 gs2] a2]| | |]; try done. destruct Ha as [[= <- <-] Ha].
  cbn [mbind outcome_bind]. eexists. split; [reflexivity|]. rewrite Hpage. unfold page. simpl_cache. rewrite at_set. by unfold alike in *.
Qed.
End Rebuild.

(** * Making room *)

(** The live glyphs fit a page in their order of use. *)
Definition fits (f : format) (c : cache) : Prop := exists c', rebuild f c = Ret (true, c').

Lemma failed_rebuild_unfit f c c' : cache_ok c -> rebuild f c = Ret (false, c') -> ~ fits f c'.
Proof. intros Hc E [c1 E1]. destruct (rebuild_again f c Hc false c' E) as (c2 & E2 & _). congruence. Qed.

Lemma ev_length f p c c' : evolved f p c c' -> (length (lru c') <= length (lru c))%nat.
Proof. intros [_ -> _ _ _ _ _]. apply length_filter. Qed.

Lemma evict_some_spec f p n : forall ev c b c', cache_ok c -> evict_some n f p ev c = (b, c') ->
  cache_ok c' /\ evolved f p c c' /\ pages c' = pages c /\ if b then ev = true \/ (length (lru c') < length (lru c))%nat else ev = false /\ c' = c.
Proof.
  induction n as [|n IH]; intros ev c b c' Hc E; cbn [evict_some] in E.
  - injection E as <- <-. split; [done|]. split; [by apply evolved_refl|]. split; [done|]. by destruct ev; [left|].
  - destruct (evict_one_lru f p c) as [b1 c1] eqn:E1. destruct (evict_one_spec f p c b1 c1 Hc E1) as (H1 & H2 & H3 & H4). destruct b1.
    + destruct (IH true c1 b c' H1 E) as (I1 & I2 & I3 & I4). split; [done|]. split; [by eapply evolved_trans|]. split; [congruence|].
      destruct b; [|by destruct I4]. right. apply ev_length in I2. lia.
    + destruct H4 as [-> _]. injection E as <- <-. split; [done|]. split; [done|]. split; [done|]. by destruct ev; [left|].
Qed.

Lemma recover_spec f p c : cache_ok c -> exists b c', recover_space_for_pack f p c = Ret (b, c') /\ cache_ok c' /\ evolved f p c c' /\
  if b then (length (lru c') < length (lru c))%nat /\ shown f c' else c' = c \/ ~ fits f c'.
Proof.
  intros Hc. unfold recover_space_for_pack. destruct (evict_some _ f p false c) as [b1 c1] eqn:E1.
  destruct (evict_some_spec f p _ false c b1 c1 Hc E1) as (H1 & H2 & H3 & H4). destruct b1.
  - destruct (rebuild_spec f c1 H1 p) as (b & c2 & E2 & I1 & I2 & I3 & I4). exists b, c2. split; [done|]. split; [done|]. split; [by eapply evolved_trans|].
    destruct b; [|right; by apply (failed_rebuild_unfit f c1)]. split; [|by apply I4]. rewrite I3. by destruct H4.
  - destruct H4 as [_ ->]. exists false, c. split; [done|]. split; [done|]. split; [done|]. by left.
Qed.

(** A page of the same kind takes the place of the format's page. *)
Lemma with_page_ok f a c placed : cache_ok c -> same_kind (page f c) a -> atlas_ok a placed -> cache_ok (with_pages (set_format f a (pages c)) c).
Proof.
  intros [C1 C2 C3 C4 C5 C6] Hk Ha. split; try done. intros g. unfold page_kind, page. simpl_cache. destruct (decide (g = f)) as [->|Hg].
  - rewrite at_set. destruct Hk as (-> & -> & -> & ->). split; [apply C2|by exists placed].
  - rewrite at_set_other by done. apply C2.
Qed.

Lemma with_page_evolved f p a c : cache_ok c -> evolved f p c (with_pages (set_format f a (pages c)) c).
Proof.
  intros Hc. destruct (evolved_refl f p c Hc) as [E1 E2 E3 E4 E5 E6 E7]. split; try done. unfold page. simpl_cache. apply at_set_other. by destruct f.
Qed.

Lemma page_bpp f c : cache_ok c -> bytes_per_pixel (page f c) = bpp f.
Proof. intros Hc. destruct (ok_pages _ Hc f) as [(Hf & _) _]. unfold bytes_per_pixel, bpp. by rewrite Hf. Qed.

(** Besides the glyphs of the cache the page shows the one at hand. *)
Definition shown_with (f : format) (k : glyph_key) (e : entry) (c : cache) : Prop :=
  exists placed : list (glyph_key * (rect * bytes)),
    NoDup placed.*1 /\ atlas_ok (page f c) ((rect_of e, pixel_bytes e) :: placed.*2) /\ (forall k', k' ∈ placed.*1 -> exists e', entries c !! k' = Some e' /\ kind e' = f) /\
    forall k' e', entries c !! k' = Some e' -> kind e' = f -> empty_entry e' = false -> (k', (rect_of e', pixel_bytes e')) ∈ placed.

Lemma pack_loop_spec k e : entry_ok e -> empty_entry e = false -> let f := kind e in forall fuel c, (length (lru c) < fuel)%nat -> cache_ok c ->
  exists b e' c', pack_loop fuel k e c = Ret (b, e', c') /\ cache_ok c' /\ evolved f k c c' /\ strip e' = strip e /\
    (shown f c -> if b then shown_with f k e' c' else shown f c' \/ ~ fits f c').
Proof.
  intros He Hne f. induction fuel as [|fuel IH]; intros c Hfuel Hc; [lia|]. cbn [pack_loop]. fold (kind e). fold f. fold (page f c).
  destruct (entry_width e He) as [_ Hw], (entry_height e He) as [_ Hh]. pose proof (entry_pixels e He Hne) as Hpx.
  unfold empty_entry in Hne. apply orb_false_iff in Hne as [Hw0%Z.eqb_neq Hh0%Z.eqb_neq].
  assert (Hd1 : 0 < e_width e < max_page) by (unfold max_page; lia). assert (Hd2 : 0 < e_height e < max_page) by (unfold max_page; lia).
  assert (Hsrc : zlen (pixel_bytes e) = e_width e * e_height e * bytes_per_pixel (page f c)) by (rewrite (page_bpp f c Hc); exact Hpx).
  (* the page as it is, and with what is shown on it *)
  destruct (ok_pages _ Hc f) as [_ [placed0 Ha0]].
  destruct (pack_step (page f c) placed0 (e_width e) (e_height e) (pixel_bytes e)) as (reg & a & E & _ & _ & Hreg); [done..|].
  rewrite E. cbn [mbind outcome_bind]. set (c1 := with_pages _ c). pose proof (pack_kind _ _ _ _ _ _ E) as Hk.
  assert (Hc1 : cache_ok c1) by (destruct (ok reg); [|destruct Hreg]; by eapply with_page_ok).
  assert (Hev : evolved f k c c1) by by apply with_page_evolved.
  assert (Hpage : page f c1 = a) by apply at_set.
  assert (Hsh : shown f c -> if ok reg then shown_with f k (position (region_x reg) (region_y reg) e) c1 else shown f c1).
  { intros (placed & S1 & S2 & S3 & S4).
    destruct (pack_step (page f c) placed.*2 (e_width e) (e_height e) (pixel_bytes e)) as (reg' & a' & E' & _ & _ & Hreg'); [done..|].
    rewrite E in E'. injection E' as <- <-. destruct (ok reg).
    - exists placed. rewrite Hpage. done.
    - exists placed. rewrite Hpage. destruct Hreg' as [Hreg' _]. done. }
  destruct (ok reg) eqn:Ereg.
  - do 3 eexists. split; [reflexivity|]. split; [done|]. split; [done|]. split; [done|]. exact Hsh.
  - destruct (recover_spec f k c1 Hc1) as (b & c2 & E2 & Hc2 & Hev2 & Hb). rewrite E2. cbn [mbind outcome_bind]. destruct b.
    + destruct Hb as [Hlen Hsh2]. destruct (IH c2 ltac:(change (length (lru c1)) with (length (lru c)) in Hlen; lia) Hc2) as (b & e' & c' & E3 & Hc' & Hev3 & Hs & Hsh3).
      exists b, e', c'. split; [done|]. split; [done|]. split; [eapply evolved_trans; [exact Hev|]; by eapply evolved_trans|]. split; [done|]. exact (fun _ => Hsh3 Hsh2).
    + do 3 eexists. split; [reflexivity|]. split; [done|]. split; [by eapply evolved_trans|]. split; [done|]. intros S. destruct Hb as [->|Hb]; [left; by apply Hsh|by right].
Qed.

(** * Keeping the budget *)

Lemma other_page g f p c c' : evolved f p c c' -> g <> f -> page g c' = page g c.
Proof. intros He Hg. apply other_ne in Hg as ->. apply (ev_page _ _ _ _ He). Qed.

Lemma shown_other g f p c c' : evolved f p c c' -> g <> f -> shown g c -> shown g c'.
Proof.
  intros He Hg (placed & S1 & S2 & S3 & S4). exists placed. rewrite (other_page g f p c c' He Hg). split; [done|]. split; [done|]. split.
  - intros k Hk. destruct (S3 k Hk) as (e & Hke & Hf). exists e. split; [|done]. apply (ev_others _ _ _ _ He); [done|congruence].
  - intros k e' Hke Hf Hem. destruct (ev_entries _ _ _ _ He k e' Hke) as (e & He' & Hs & Hsame). pose proof (strip_fields _ _ Hs) as (Ek & _).
    rewrite Hsame in Hf, Hem |- * by congruence. by apply S4.
Qed.

Lemma shown_same_entries f c c' : entries c' = entries c -> page f c' = page f c -> shown f c -> shown f c'.
Proof. intros E1 E2 (placed & H). exists placed. by rewrite E1, E2. Qed.

Lemma over_budget_same f c c' : budget c' = budget c -> at_format f (counts c') = at_format f (counts c) -> alike (page f c') (page f c) ->
  over_budget f c' = over_budget f c.
Proof.
  intros E1 E2 Ha. pose proof (alike_fields _ _ Ha) as (_ & W & Hh & _ & _ & _ & _ & _ & _ & _ & Hb). unfold over_budget, max_count, max_bytes, atlas_bytes.
  fold (page f c) (page f c'). by rewrite E1, E2, W, Hh, Hb.
Qed.

Lemma rebuild_counts f c b c' : rebuild f c = Ret (b, c') -> counts c' = counts c /\ budget c' = budget c /\ lru c' = lru c.
Proof. unfold rebuild. intros ([[b0 gs] a] & _ & E)%bind_inv. by injection E as <- <-. Qed.

Lemma enforce_loop_spec f p : forall fuel changed c, (length (lru c) < fuel)%nat -> cache_ok c ->
  (changed = true -> exists c0, cache_ok c0 /\ rebuild f c0 = Ret (true, c)) ->
  exists b c', enforce_loop fuel f p changed c = Ret (b, c') /\ cache_ok c' /\ evolved f p c c' /\
    (b = true -> over_budget f c' = false /\ (shown f c -> shown f c')).
Proof.
  induction fuel as [|fuel IH]; intros changed c Hfuel Hc Hch; [lia|]. cbn [enforce_loop]. destruct (over_budget f c) eqn:Eo.
  - destruct (evict_one_lru f p c) as [b1 c1] eqn:E1. destruct (evict_one_spec f p c b1 c1 Hc E1) as (H1 & H2 & H3 & H4). destruct b1; cbn [negb].
    + destruct (rebuild_spec f c1 H1 p) as (b2 & c2 & E2 & I1 & I2 & I3 & I4). rewrite E2. cbn [mbind outcome_bind]. destruct b2; cbn [negb].
      * destruct (IH true c2) as (b & c' & E3 & J1 & J2 & J3); [rewrite I3; lia|done|intros _; by exists c1|]. exists b, c'. split; [done|]. split; [done|].
        split; [eapply evolved_trans; [exact H2|]; by eapply evolved_trans|]. intros Hb. destruct (J3 Hb) as [J4 J5]. split; [done|]. intros _. apply J5. by apply I4.
      * do 2 eexists. split; [reflexivity|]. split; [done|]. split; [by eapply evolved_trans|done].
    + do 2 eexists. split; [reflexivity|]. split; [by destruct H4 as [-> _]|]. split; [done|done].
  - destruct changed.
    + destruct (Hch eq_refl) as (c0 & Hc0 & E0). destruct (rebuild_again f c0 Hc0 true c E0) as (c1 & E1 & Ha).
      destruct (rebuild_spec f c Hc p) as (b & c' & E & I1 & I2 & _ & I4). rewrite E1 in E. injection E as <- <-.
      exists true, c1. split; [done|]. split; [done|]. split; [done|]. intros _. split; [|intros _; by apply I4].
      destruct (rebuild_counts f c true c1 E1) as (R1 & R2 & _). rewrite (over_budget_same f c c1); [done|done|by rewrite R1|done].
    + exists true, c. split; [done|]. split; [done|]. split; [by apply evolved_refl|]. done.
Qed.

(** * A new entry *)

Definition entered (k : glyph_key) (e : entry) (c : cache) : cache :=
  let f := kind e in
  with_counts (set_format f (at_format f (counts c) + 1) (counts c)) (with_entries (<[k := e]> (entries c)) (with_lru (k :: lru c) c)).

Definition removed (f : format) (k : glyph_key) (c : cache) : cache :=
  let c1 := with_lru (tail (lru c)) (with_entries (delete k (entries c)) c) in
  with_evictions (set_format f (at_format f (evictions c1) + 1) (evictions c1)) (with_counts (set_format f (decrement (at_format f (counts c1))) (counts c1)) c1).

Lemma fresh_not_used k c : cache_ok c -> entries c !! k = None -> k ∉ lru c.
Proof. intros Hc Hk Hin. apply (ok_keys _ Hc) in Hin as [e He]. congruence. Qed.

Lemma filter_same {A} (P Q : A -> Prop) `{forall x, Decision (P x)} `{forall x, Decision (Q x)} (l : list A) :
  (forall x, x ∈ l -> P x <-> Q x) -> filter P l = filter Q l.
Proof.
  induction l as [|x l IH]; intros Hl; [done|]. rewrite !filter_cons. destruct (Hl x) as [H1 H2]; [left|].
  destruct (decide (P x)), (decide (Q x)); try (exfalso; tauto); rewrite IH; (done || intros y Hy; apply Hl; by right).
Qed.

Section Entered.
Context (k : glyph_key) (e : entry) (c : cache) (Hc : cache_ok c) (Hk : entries c !! k = None).

Lemma entered_format g k' : k' ∈ lru c -> of_format g (entered k e c) k' = of_format g c k'.
Proof.
  intros Hin. unfold of_format, entered. simpl_cache. rewrite lookup_insert_ne; [done|]. intros <-. by apply (fresh_not_used k c).
Qed.

Lemma entered_live g : live g (entered k e c) = if bool_decide (kind e = g) then k :: live g c else live g c.
Proof.
  unfold live. change (lru (entered k e c)) with (k :: lru c).
  assert (Hl : filter (fun k' => of_format g (entered k e c) k' = true) (lru c) = filter (fun k' => of_format g c k' = true) (lru c))
    by (apply filter_same; intros k' Hk'; by rewrite entered_format).
  assert (Hf : of_format g (entered k e c) k = bool_decide (kind e = g)) by (unfold of_format, entered; simpl_cache; by rewrite lookup_insert_eq).
  case_bool_decide; [rewrite filter_cons_True by done|rewrite filter_cons_False by (by rewrite Hf)]; by rewrite Hl.
Qed.

Lemma entered_ok : entry_ok e -> cache_ok (entered k e c).
Proof.
  intros He. destruct Hc as [C1 C2 C3 C4 C5 C6]. split; try done.
  - apply NoDup_cons. split; [by apply fresh_not_used|done].
  - intros k'. unfold entered. simpl_cache. rewrite elem_of_cons, C4. destruct (decide (k' = k)) as [->|Hn].
    + rewrite lookup_insert_eq. split; [by eexists|by left].
    + rewrite lookup_insert_ne by done. split; [by intros [?|?]|by right].
  - intros g. rewrite entered_live. unfold entered. simpl_cache. destruct (decide (kind e = g)) as [<-|Hg].
    + rewrite at_set, bool_decide_eq_true_2, C5 by done. cbn [length]. lia.
    + rewrite at_set_other, bool_decide_eq_false_2 by done. apply C5.
  - intros k' e'. unfold entered. simpl_cache. destruct (decide (k' = k)) as [->|Hn]; [rewrite lookup_insert_eq; by intros [= <-]|rewrite lookup_insert_ne by done; apply C6].
Qed.

Lemma entered_shown_empty g : empty_entry e = true -> shown g c -> shown g (entered k e c).
Proof.
  intros Hem (placed & S1 & S2 & S3 & S4). exists placed. split; [done|]. split; [done|]. unfold entered. simpl_cache. split.
  - intros k' Hk'. destruct (S3 k' Hk') as (e' & He' & Hf). exists e'. split; [|done]. rewrite lookup_insert_ne; [done|]. intros <-. congruence.
  - intros k' e'. destruct (decide (k' = k)) as [->|Hn]; [rewrite lookup_insert_eq; intros [= <-]; congruence|rewrite lookup_insert_ne by done; apply S4].
Qed.

Lemma entered_shown : shown_with (kind e) k e c -> shown (kind e) (entered k e c).
Proof.
  intros (placed & S1 & S2 & S3 & S4). exists ((k, (rect_of e, pixel_bytes e)) :: placed). unfold entered. simpl_cache. split; [|split; [exact S2|split]].
  - cbn [fmap list_fmap fst]. apply NoDup_cons. split; [|done]. intros Hin. destruct (S3 k Hin) as (e' & He' & _). congruence.
  - intros k'. cbn [fmap list_fmap fst]. rewrite elem_of_cons. destruct (decide (k' = k)) as [->|Hn].
    + intros _. exists e. by rewrite lookup_insert_eq.
    + intros [?|Hin]; [done|]. destruct (S3 k' Hin) as (e' & He' & Hf). exists e'. by rewrite lookup_insert_ne.
  - intros k' e'. destruct (decide (k' = k)) as [->|Hn].
    + rewrite lookup_insert_eq. intros [= <-] _ _. left.
    + rewrite lookup_insert_ne by done. intros He' Hf Hem. right. by apply S4.
Qed.
End Entered.

(** Entering first or making room first is the same. *)
Lemma entered_evolved f k e c c1 : cache_ok c -> cache_ok c1 -> entries c !! k = None -> entries c1 !! k = None -> evolved f k c c1 -> evolved f k (entered k e c) (entered k e c1).
Proof.
  intros Hc Hc1 Hk Hk1 [B L E O P R G]. split; try done.
  - unfold entered. simpl_cache. rewrite filter_cons_True by (rewrite lookup_insert_eq; by eexists). f_equal. rewrite L at 1. apply filter_same.
    intros k' Hk'. rewrite lookup_insert_ne; [done|]. intros <-. by apply (fresh_not_used k c).
  - intros k' e'. unfold entered. simpl_cache. destruct (decide (k' = k)) as [->|Hn].
    + rewrite !lookup_insert_eq. intros [= <-]. by exists e.
    + rewrite !lookup_insert_ne by done. apply E.
  - intros k' e'. unfold entered. simpl_cache. destruct (decide (k' = k)) as [->|Hn]; [by rewrite !lookup_insert_eq|rewrite !lookup_insert_ne by done; apply O].
  - intros _. unfold entered. simpl_cache. rewrite lookup_insert_eq. by eexists.
  - rewrite !entered_live by done. case_bool_decide; [|done]. by rewrite !filter_cons_False by (by intros Hx; apply Hx).
Qed.

(** A key that was entered and is taken out again. *)
Lemma removed_ok f k e c c3 : kind e = f -> cache_ok c -> entries c !! k = None -> cache_ok c3 -> evolved f k (entered k e c) c3 ->
  cache_ok (removed f k c3) /\ evolved f k c (removed f k c3).
Proof.
  intros He Hc Hk Hc3 Hev. destruct Hev as [B L E O P R G]. destruct P as [e3 Hk3]; [unfold entered; simpl_cache; rewrite lookup_insert_eq; by eexists|].
  destruct (E k e3 Hk3) as (e0 & He0 & Hs & _). unfold entered in He0. cbn [entries with_counts with_entries with_lru] in He0. rewrite lookup_insert_eq in He0. injection He0 as <-.
  pose proof (strip_fields _ _ Hs) as (Ek & _). pose proof (fresh_not_used k c Hc Hk) as Hnk.
  unfold entered in L. cbn [lru with_counts with_entries with_lru] in L. rewrite filter_cons_True in L by by eexists.
  set (l := filter _ (lru c)) in L. assert (Hl : l = filter (fun k' => is_Some (delete k (entries c3) !! k')) (lru c)).
  { apply filter_same. intros k' Hk'. rewrite lookup_delete_ne; [done|]. by intros <-. }
  assert (Hof : of_format f c3 k = true) by (apply of_format_spec; exists e3; split; [done|congruence]).
  set (q := MkKey (face_id k + 1) 0 0 0 0). assert (Hq : k <> q) by (intros H; apply (f_equal face_id) in H; cbn in H; lia).
  assert (Hrem : removed f k c3 = with_evictions (set_format f (at_format f (evictions c3) + 1) (evictions c3))
    (with_counts (set_format f (decrement (at_format f (counts c3))) (counts c3)) (with_lru ([] ++ l) (with_entries (delete k (entries c3)) c3)))) by (unfold removed; by rewrite L).
  assert (Hlive : live f c3 = k :: live f (removed f k c3)).
  { rewrite Hrem. change (live f (with_evictions _ (with_counts _ ?x))) with (live f x). rewrite (live_evicted k [] l c3 Hc3 L), (live_victim f k [] l c3 L Hof).
    by rewrite bool_decide_eq_true_2. }
  split.
  - rewrite Hrem. apply (evicted_ok f q k [] l c3); [done..|by rewrite at_set|]. intros g Hg. by rewrite at_set_other.
  - split; try done.
    + unfold removed. simpl_cache. rewrite L. cbn [tail]. exact Hl.
    + intros k' e'. unfold removed. simpl_cache. intros [Hne He']%lookup_delete_Some. destruct (E k' e' He') as (e1 & He1 & H). exists e1. split; [|done].
      unfold entered in He1. cbn [entries with_counts with_entries with_lru] in He1. by rewrite lookup_insert_ne in He1.
    + intros k' e' He' Hf. unfold removed. simpl_cache. rewrite lookup_delete_ne by (intros <-; congruence). apply O; [|done].
      unfold entered. simpl_cache. rewrite lookup_insert_ne; [done|]. intros <-. congruence.
    + intros [e' He']. congruence.
    + destruct R as [n R]. exists n. rewrite Hlive, filter_cons_False in R by (by intros Hx; apply Hx). rewrite R, (entered_live k e c Hc Hk), bool_decide_eq_true_2 by done.
      by rewrite filter_cons_False by (by intros Hx; apply Hx).
Qed.

Lemma ev_fresh f p k c c' : evolved f p c c' -> entries c !! k = None -> entries c' !! k = None.
Proof. intros He Hk. destruct (entries c' !! k) as [e'|] eqn:E; [|done]. destruct (ev_entries _ _ _ _ He k e' E) as (e & ? & _). congruence. Qed.

Lemma warn_ok k c : cache_ok c -> cache_ok (warn_oversize_once k c).
Proof. by intros [C1 C2 C3 C4 C5 C6]. Qed.

Lemma warn_evolved f p k c c' : evolved f p c c' -> evolved f p c (warn_oversize_once k c').
Proof. by intros [B L E O P R G]. Qed.

Lemma fits_warn f k c : fits f (warn_oversize_once k c) -> fits f c.
Proof.
  intros [c' E]. unfold fits, rebuild in *. apply bind_inv in E as ([[b gs] a] & E & E'). change (live_items f (warn_oversize_once k c)) with (live_items f c) in E.
  change (pages (warn_oversize_once k c)) with (pages c) in E. rewrite E. injection E' as -> _. by eexists.
Qed.

(** What a page shows, or that it had to be given up. *)
Definition settled (f : format) (c : cache) : Prop := shown f c \/ ~ fits f c.

Lemma settled_warn f k c : settled f c -> settled f (warn_oversize_once k c).
Proof. intros [H|H]; [by left|right]. by intros ?%fits_warn. Qed.

Lemma pack_entry_spec k e c : cache_ok c -> entry_ok e -> entries c !! k = None -> let f := kind e in
  exists b e' c', pack_entry k e c = Ret (b, e', c') /\ cache_ok c' /\ evolved f k c c' /\ strip e' = strip e /\ entries c' !! k = None /\
    (shown f c -> if b then shown f (entered k e' c') else settled f c').
Proof.
  intros Hc He Hk f. unfold pack_entry. fold (empty_entry e). destruct (empty_entry e) eqn:Hem.
  - do 3 eexists. split; [reflexivity|]. split; [done|]. split; [by apply evolved_refl|]. split; [done|]. split; [done|]. intros S.
    by apply entered_shown_empty.
  - destruct (pack_loop_spec k e He Hem (S (length (lru c))) c ltac:(lia) Hc) as (b & e' & c' & E & Hc' & Hev & Hs & Hsh). exists b, e', c'.
    pose proof (ev_fresh _ _ _ _ _ Hev Hk) as Hk'. split; [done|]. split; [done|]. split; [done|]. split; [done|]. split; [done|]. intros S. specialize (Hsh S).
    destruct b; [|done]. destruct (strip_fields _ _ Hs) as (Ek & _). unfold f in *. rewrite <- Ek in Hsh |- *. by apply entered_shown.
Qed.

Lemma insert_entry_spec k e c : cache_ok c -> entries c !! k = None -> entry_ok e -> let f := kind e in
  exists r c', insert_entry k e c = Ret (r, c') /\ cache_ok c' /\
  match r with
  | Some g => exists e1, strip e1 = strip e /\ evolved f k (entered k e1 c) c' /\ over_budget f c' = false /\ (shown f c -> shown f c') /\
                exists e2, entries c' !! k = Some e2 /\ strip e2 = strip e /\ g = e_glyph e2
  | None => evolved f k c c' /\ entries c' !! k = None /\ (shown f c -> settled f c')
  end.
Proof.
  intros Hc Hk He f. unfold insert_entry. fold (kind e). fold f.
  destruct (pack_entry_spec k e c Hc He Hk) as (b & e1 & c1 & E & Hc1 & Hev & Hs & Hk1 & Hsh). fold f in Hev, Hsh. rewrite E. cbn [mbind outcome_bind].
  destruct (strip_fields _ _ Hs) as (Ek & _). fold f in Ek. destruct b; cbn [negb].
  2: { do 2 eexists. split; [reflexivity|]. split; [by apply warn_ok|]. split; [by apply warn_evolved|]. split; [done|]. intros S. by apply settled_warn, Hsh. }
  change (entries (with_lru (k :: lru c1) c1)) with (entries c1). rewrite Hk1. assert (He1 : entry_ok e1) by by apply (entry_ok_strip e).
  match goal with |- context [enforce_budget f k ?x] => change x with (with_counts (set_format f (at_format f (counts c1) + 1) (counts c1)) (with_entries (<[k := e1]> (entries c1)) (with_lru (k :: lru c1) c1))) end.
  rewrite <- Ek. fold (entered k e1 c1). pose proof (entered_ok k e1 c1 Hc1 Hk1 He1) as Hc2. unfold enforce_budget.
  destruct (enforce_loop_spec (kind e1) k (S (length (lru (entered k e1 c1)))) false (entered k e1 c1)) as (b & c3 & E3 & Hc3 & Hev3 & Hb3); [lia|done|done|].
  rewrite E3. cbn [mbind outcome_bind]. destruct (ev_protected _ _ _ _ Hev3) as [e3 Hk3]; [unfold entered; simpl_cache; rewrite lookup_insert_eq; by eexists|].
  destruct b; cbn [negb].
  - rewrite Hk3. cbn [fmap option_fmap option_map]. do 2 eexists. split; [reflexivity|]. split; [done|]. exists e1. split; [done|]. rewrite Ek in *. destruct (Hb3 eq_refl) as [Hb4 Hb5].
    split; [|split; [done|split]].
    + eapply evolved_trans; [|exact Hev3]. by apply entered_evolved.
    + intros S. by apply Hb5, Hsh.
    + exists e3. split; [done|]. split; [|done]. destruct (ev_entries _ _ _ _ Hev3 k e3 Hk3) as (e0 & He0 & Hs0 & _). unfold entered in He0. cbn [entries with_counts with_entries with_lru] in He0.
      rewrite lookup_insert_eq in He0. injection He0 as <-. congruence.
  - rewrite Hk3. destruct (removed_ok f k e1 c1 c3 Ek Hc1 Hk1 Hc3 ltac:(by rewrite <- Ek)) as [Hc4 Hev4].
    match goal with |- context [rebuild (kind e1) ?x] => change x with (removed (kind e1) k c3) end. rewrite Ek.
    destruct (rebuild_spec f (removed f k c3) Hc4 k) as (b & c5 & E5 & Hc5 & Hev5 & _ & Hb5). rewrite E5. cbn [mbind outcome_bind].
    assert (Hall : evolved f k c c5) by (eapply evolved_trans; [exact Hev|]; by eapply evolved_trans).
    do 2 eexists. split; [reflexivity|]. split; [by apply warn_ok|]. split; [by apply warn_evolved|]. split; [by apply (ev_fresh f k k c c5)|]. intros _. apply settled_warn.
    destruct b; [left; by apply Hb5|right; by apply (failed_rebuild_unfit f (removed f k c3))].
Qed.

(** The other format is left alone. *)
Lemma ev_live_other f g p c c' : evolved f p c c' -> g <> f -> live g c' = live g c.
Proof.
  intros [B L E O P R G] Hg. unfold live. rewrite L, list_filter_filter. apply filter_same. intros k _. rewrite !of_format_spec. split.
  - intros [(e' & He' & Hf) _]. destruct (E k e' He') as (e & He & Hs & _). exists e. split; [done|]. by destruct (strip_fields _ _ Hs) as (<- & _).
  - intros (e & He & Hf). assert (He' : entries c' !! k = Some e) by (apply O; [done|congruence]). split; [by exists e|by exists e].
Qed.

(** The key at hand comes first, then the most recently used of the others. *)
Lemma ev_live_entered f k e c c' : cache_ok c -> entries c !! k = None -> kind e = f -> cache_ok c' -> evolved f k (entered k e c) c' ->
  exists n, live f c' = k :: take n (live f c).
Proof.
  intros Hc Hk He Hc' Hev. destruct (ev_recent _ _ _ _ Hev) as [n R]. exists n.
  rewrite (entered_live k e c Hc Hk), bool_decide_eq_true_2, filter_cons_False in R by (done || intros Hx; by apply Hx).
  pose proof (fresh_not_used k c Hc Hk) as Hn. rewrite (filter_all _ (live f c)) in R
    by (intros k' Hk' ->; unfold live in Hk'; apply list_elem_of_filter in Hk' as [_ ?]; done).
  rewrite <- R. pose proof (ev_lru _ _ _ _ Hev) as L. change (lru (entered k e c)) with (k :: lru c) in L.
  destruct (ev_protected _ _ _ _ Hev) as [e3 Hk3]; [unfold entered; simpl_cache; rewrite lookup_insert_eq; by eexists|].
  rewrite filter_cons_True in L by by eexists. assert (Hof : of_format f c' k = true).
  { apply of_format_spec. exists e3. split; [done|]. destruct (ev_entries _ _ _ _ Hev k e3 Hk3) as (e0 & He0 & Hs & _). unfold entered in He0.
    cbn [entries with_counts with_entries with_lru] in He0. rewrite lookup_insert_eq in He0. injection He0 as <-. by destruct (strip_fields _ _ Hs) as (-> & _). }
  unfold live. rewrite L, filter_cons_True, filter_cons_False by (done || intros Hx; by apply Hx). f_equal. symmetry. apply filter_all.
  intros k' Hk' ->. apply list_elem_of_filter in Hk' as [_ Hk']. apply list_elem_of_filter in Hk' as [_ ?]. done.
Qed.

Lemma ev_live_fresh f k c c' : cache_ok c -> entries c !! k = None -> cache_ok c' -> entries c' !! k = None -> evolved f k c c' -> exists n, live f c' = take n (live f c).
Proof.
  intros Hc Hk Hc' Hk' [_ _ _ _ _ [n R] _]. exists n. rewrite !filter_all in R; [done|..];
    intros k' Hin ->; unfold live in Hin; apply list_elem_of_filter in Hin as [_ ?]; [by apply (fresh_not_used k c)|by apply (fresh_not_used k c')].
Qed.

(** * Rendering *)

(** A rendered glyph is on its page. *)
Definition rendered_ok (g : glyph) (a : atlas) : Prop :=
  page_ok a /\ format_ a = g_format g /\ 0 <= a_x g < 2 ^ 31 /\ 0 <= a_y g < 2 ^ 31 /\ 0 <= g_width g < 2 ^ 31 /\ 0 <= g_height g < 2 ^ 31.

Definition scratch (g : glyph) (mask color : atlas) : atlas := match g_format g with bgra => color | grayscale => mask end.

(** What the cache relies on. *)
Definition face_ok {F} `{Face F} (face : F) : Prop := forall glyph_id hint bin, 0 <= bin < 4 ->
  exists g mask color, render face glyph_id (new_atlas grayscale 256 8192) (new_atlas bgra 256 8192) hint (bin_subpixel bin) = Ret (g, mask, color) /\ rendered_ok g (scratch g mask color).

Lemma extract_rows_spec a g n : rendered_ok g a -> a_x g + g_width g <= width_ a -> a_y g + Z.of_nat n <= height_ a ->
  exists out, extract_rows n a g = Ret out /\ zlen out = Z.of_nat n * (g_width g * bytes_per_pixel a) /\
    forall src, (forall i, 0 <= i < Z.of_nat n -> zsub (((a_y g + i) * width_ a + a_x g) * bytes_per_pixel a) (g_width g * bytes_per_pixel a) (pixels_ a) =
      zsub (i * g_width g * bytes_per_pixel a) (g_width g * bytes_per_pixel a) src) -> out = ztake (Z.of_nat n * (g_width g * bytes_per_pixel a)) src.
Proof.
  intros (Hp & Hf & Hx & Hy & Hw & Hh) Hxw. pose proof (bpp_pos a) as Hb. unfold page_ok, max_page in Hp.
  destruct Hp as (Pw & Ph & _ & _ & _ & _ & _ & _ & _ & Ppx). set (b := bytes_per_pixel a) in *.
  assert (Hwb : 0 <= g_width g * b) by (apply Z.mul_nonneg_nonneg; lia).
  induction n as [|n IH]; intros Hyn; cbn [extract_rows].
  - exists []. split; [done|]. split; [done|]. intros src _. by rewrite Z.mul_0_l.
  - destruct IH as (out & -> & Hl & Hout); [lia|]. cbn [mbind outcome_bind]. rewrite (u32_small (a_y g + Z.of_nat n)) by lia.
    set (o := ((a_y g + Z.of_nat n) * width_ a + a_x g) * b). assert (Hr : (a_y g + Z.of_nat n) * width_ a + a_x g + g_width g <= width_ a * height_ a) by nia.
    assert (Ho : 0 <= o /\ o + g_width g * b <= zlen (pixels_ a)).
    { unfold o. rewrite Ppx. split; [apply Z.mul_nonneg_nonneg; [apply Z.add_nonneg_nonneg; [apply Z.mul_nonneg_nonneg|]; lia|lia]|].
      rewrite <- Z.mul_add_distr_r. apply Z.mul_le_mono_nonneg_r; lia. }
    fold b. fold o. rewrite sub_Ret by lia. cbn [mbind outcome_bind]. eexists. split; [reflexivity|]. rewrite length_app, Nat2Z.inj_add, Hl, zlen_zsub by lia. split; [lia|].
    intros src Hsrc. rewrite (Hout src) by (intros i Hi; apply Hsrc; lia). pose proof (Hsrc (Z.of_nat n) ltac:(lia)) as Hn. fold o in Hn. rewrite Hn.
    replace (Z.of_nat n * g_width g * b) with (Z.of_nat n * (g_width g * b)) by ring.
    replace (Z.of_nat (S n) * (g_width g * b)) with (Z.of_nat n * (g_width g * b) + g_width g * b) by lia. unfold zsub, ztake, zdrop.
    assert (Hnn : 0 <= Z.of_nat n * (g_width g * b)) by (apply Z.mul_nonneg_nonneg; lia).
    rewrite Z2Nat.inj_add by lia. by rewrite take_take_drop.
Qed.

Lemma extract_pixels_spec a g : rendered_ok g a -> exists out, extract_pixels a g = Ret out /\
  (out <> [] -> 0 < g_width g /\ 0 < g_height g /\ zlen out = g_width g * g_height g * bytes_per_pixel a) /\
  (0 < g_width g -> 0 < g_height g -> a_x g + g_width g <= width_ a -> a_y g + g_height g <= height_ a ->
   forall src, shows a (MkRect (a_x g) (a_y g) (g_width g) (g_height g)) src -> zlen src = g_width g * g_height g * bytes_per_pixel a -> out = src).
Proof.
  intros Hr. pose proof Hr as (Hp & Hf & Hx & Hy & Hw & Hh). unfold extract_pixels.
  destruct (Z.eqb_spec (g_width g) 0), (Z.eqb_spec (g_height g) 0); cbn [orb]; try (exists []; split; [done|]; split; [done|lia]).
  rewrite !u32_small by lia. destruct (Z.ltb_spec (width_ a) (a_x g + g_width g)), (Z.ltb_spec (height_ a) (a_y g + g_height g)); cbn [orb];
    try (exists []; split; [done|]; split; [done|lia]).
  destruct (extract_rows_spec a g (Z.to_nat (g_height g)) Hr) as (out & E & Hl & Hout); [lia|lia|]. exists out. split; [done|]. rewrite Z2Nat.id in * by lia.
  split; [intros _; split; [lia|split; [lia|rewrite Hl; ring]]|]. intros _ _ _ _ src Hs Hls. rewrite (Hout src).
  - replace (g_height g * (g_width g * bytes_per_pixel a)) with (zlen src) by (rewrite Hls; ring). unfold ztake. rewrite Nat2Z.id. by apply take_ge.
  - intros i Hi. specialize (Hs i). cbn [rh rx ry rw] in Hs. unfold row_bytes in Hs. cbn [rx ry rw] in Hs. by apply Hs.
Qed.

Lemma render_entry_spec {F} `{Face F} (face : F) k : face_ok face -> 0 <= subpixel_x k < 4 -> exists e b, render_entry face k = Ret (e, b) /\ (b = true -> entry_ok e).
Proof.
  intros Hf Hbin. unfold render_entry. destruct (Hf (glyph_id k) (hint k) (subpixel_x k) Hbin) as (g & mask & color & -> & Hr). cbn [mbind outcome_bind].
  fold (scratch g mask color). destruct (extract_pixels_spec _ g Hr) as (px & -> & Hpx & _). cbn [mbind outcome_bind]. do 2 eexists. split; [reflexivity|].
  intros [H1 H2]%andb_true_iff. apply negb_true_iff, orb_false_iff in H2 as [H2%Z.ltb_ge H3%Z.ltb_ge].
  destruct Hr as (Hp & Hfo & _ & _ & Hw & Hh). split; cbn [e_glyph e_width e_height pixel_bytes]; [lia|lia|]. unfold empty_entry, kind. cbn [e_width e_height e_glyph].
  rewrite !Z.min_l by lia. intros He. apply orb_false_iff in He as [E1 E2]. rewrite E1, E2 in H1. cbn [andb negb] in H1. apply negb_true_iff, bool_decide_eq_false in H1.
  destruct (Hpx H1) as (_ & _ & ->). unfold bytes_per_pixel, bpp. by rewrite Hfo.
Qed.

(** ** FreeType *)

Definition mode_format (m : pixel_mode) : format := match m with MODE_BGRA => bgra | _ => grayscale end.

(** What FreeType documents of its bitmaps: rows flow down, [s_pitch] bytes apart; those
    of colour bitmaps touch. *)
Definition slot_ok (s : slot) : Prop :=
  0 <= s_width s < max_page /\ 0 <= s_rows s < max_page /\ zlen (s_buffer s) = s_rows s * s_pitch s /\
  match s_mode s with MODE_BGRA => s_pitch s = s_width s * 4 | _ => s_width s <= s_pitch s end.

Definition slots_ok (face : free_type_face) : Prop := forall calls glyph_id hint shift s, ft_load face calls glyph_id hint shift = Some s -> slot_ok s.

Lemma tight_rows_spec w pitch buffer k : 0 <= w <= pitch -> Z.of_nat k * pitch <= zlen buffer ->
  exists out, tight_rows k w pitch buffer = Ret out /\ zlen out = Z.of_nat k * w.
Proof.
  intros Hw. induction k as [|k IH]; intros Hk; cbn [tight_rows]; [by exists []|]. destruct IH as (out & -> & Hl); [lia|]. cbn [mbind outcome_bind].
  rewrite sub_Ret by nia. cbn [mbind outcome_bind]. eexists. split; [reflexivity|]. rewrite length_app, Nat2Z.inj_add, Hl, zlen_zsub by nia. lia.
Qed.

Lemma bitmap_spec s : slot_ok s -> s_mode s <> MODE_OTHER -> exists data, bitmap s = Ret data /\ zlen data = s_width s * s_rows s * bpp (mode_format (s_mode s)).
Proof.
  intros (Hw & Hh & Hl & Hm) Ho. unfold bitmap. destruct (s_mode s); [| |done]; cbn [mode_format bpp].
  - eexists. split; [reflexivity|]. rewrite Hl, Hm. ring.
  - destruct (Z.eqb_spec (s_pitch s) (s_width s)) as [E|E].
    + eexists. split; [reflexivity|]. rewrite Hl, E. ring.
    + destruct (tight_rows_spec (s_width s) (s_pitch s) (s_buffer s) (Z.to_nat (s_rows s))) as (out & -> & Ho'); [lia|rewrite Z2Nat.id by lia; lia|].
      exists out. split; [done|]. rewrite Ho', Z2Nat.id by lia. ring.
Qed.

Lemma ft_shift_bin bin : 0 <= bin < 4 -> ft_shift (bin_subpixel bin) = Ret (16 * bin).
Proof. intros H. assert (bin = 0 \/ bin = 1 \/ bin = 2 \/ bin = 3) as [ -> | [ -> | [ -> | -> ]]] by lia; vm_compute; reflexivity. Qed.

Lemma sub_bin_range x : 0 <= sub_bin x < 4.
Proof. unfold sub_bin. change 3 with (Z.ones 2). rewrite land_ones_mod by lia. apply Z.mod_pos_bound. lia. Qed.

Lemma no_glyph_ok f : rendered_ok (MkGlyph 0 0 0 0 0 0 f grayscale) (new_atlas grayscale 256 8192).
Proof. split; [apply new_atlas_ok; unfold max_page; lia|]. split; [done|]. cbn. lia. Qed.

(** A bitmap packed onto a fresh page. *)
Lemma pack_fresh f w h data : 0 < w < max_page -> 0 < h < max_page -> zlen data = w * h * bpp f ->
  exists reg a, pack w h (Some data) (new_atlas f 256 8192) = Ret (reg, a) /\ page_ok a /\ format_ a = f /\
    (ok reg = true -> let r := MkRect (region_x reg) (region_y reg) w h in inside a r /\ shows a r data).
Proof.
  intros Hw Hh Hl. assert (Hn : atlas_ok (new_atlas f 256 8192) []) by (apply new_atlas_ok; unfold max_page; lia).
  destruct (pack_step (new_atlas f 256 8192) [] w h data Hn Hw Hh Hl) as (reg & a & E & _ & _ & Hr). exists reg, a. split; [done|].
  apply pack_kind in E as (Hf & _). destruct (ok reg); [|destruct Hr as [[Hp _] _]; done]. destruct Hr as (Hp & Hs & _). split; [done|]. split; [done|]. intros _.
  apply Forall_cons in Hs as [[[Hin _] Hs] _]. done.
Qed.

(** What a rendered glyph with pixels is. *)
Definition from_slot (face : free_type_face) (glyph_id hint bin : Z) (w h : Z) (f : format) (data : bytes) : Prop :=
  exists s, ft_load face (ft_set face) glyph_id hint (16 * bin) = Some s /\ s_mode s <> MODE_OTHER /\ w = s_width s /\ h = s_rows s /\ f = mode_format (s_mode s) /\ bitmap s = Ret data.

Lemma render_glyph_spec face glyph_id hint bin : slots_ok face -> 0 <= bin < 4 ->
  exists g mask color, render_glyph face glyph_id (new_atlas grayscale 256 8192) (new_atlas bgra 256 8192) hint (bin_subpixel bin) = Ret (g, mask, color) /\
    rendered_ok g (scratch g mask color) /\
    (g_width g <> 0 -> exists data, from_slot face glyph_id hint bin (g_width g) (g_height g) (g_format g) data /\
       let r := MkRect (a_x g) (a_y g) (g_width g) (g_height g) in inside (scratch g mask color) r /\ shows (scratch g mask color) r data).
Proof.
  intros Hs Hbin. unfold render_glyph. destruct (glyph_id =? 0); [do 3 eexists; split; [reflexivity|]; split; [apply no_glyph_ok|done]|].
  rewrite ft_shift_bin by done. cbn [mbind outcome_bind]. destruct (ft_load face (ft_set face) glyph_id hint (16 * bin)) as [s|] eqn:El;
    [|do 3 eexists; split; [reflexivity|]; split; [apply no_glyph_ok|done]].
  destruct ((s_width s =? 0) || (s_rows s =? 0)) eqn:E0; [do 3 eexists; split; [reflexivity|]; split; [apply no_glyph_ok|done]|].
  apply orb_false_iff in E0 as [Hw0%Z.eqb_neq Hh0%Z.eqb_neq]. pose proof (Hs _ _ _ _ _ El) as Hso. destruct (decide (s_mode s = MODE_OTHER)) as [->|Hm];
    [do 3 eexists; split; [reflexivity|]; split; [apply no_glyph_ok|done]|].
  destruct (bitmap_spec s Hso Hm) as (data & Eb & Hl). destruct Hso as (Hw & Hh & _).
  destruct (pack_fresh (mode_format (s_mode s)) (s_width s) (s_rows s) data) as (reg & a & E & Hp & Hf & Hr); [lia|lia|done|].
  assert (Hres : forall g f, f = mode_format (s_mode s) -> g = (if ok reg then MkGlyph (region_x reg) (region_y reg) (s_width s) (s_rows s) (s_left s) (- s_top s) (s_advance s) f else no_glyph) ->
    rendered_ok g (if ok reg then a else new_atlas grayscale 256 8192) /\
    (g_width g <> 0 -> ok reg = true /\ exists data, from_slot face glyph_id hint bin (g_width g) (g_height g) (g_format g) data /\
       let r := MkRect (a_x g) (a_y g) (g_width g) (g_height g) in inside a r /\ shows a r data)).
  { intros g f -> ->. destruct (ok reg); [|split; [apply no_glyph_ok|done]]. destruct (Hr eq_refl) as [Hin Hsh]. split.
    - split; [done|]. split; [done|]. unfold inside in Hin. unfold page_ok, max_page in Hp. unfold max_page in *. cbn in *. lia.
    - intros _. split; [done|]. exists data. split; [by exists s|done]. }
  destruct (s_mode s) eqn:Em; [| |done]; cbn [mode_format] in *; rewrite Eb; cbn [mbind outcome_bind]; rewrite E; cbn [mbind outcome_bind].
  - destruct (Hres _ bgra eq_refl eq_refl) as [H1 H2]. do 3 eexists. split; [reflexivity|]. destruct (ok reg); [split; [exact H1|]|split; [exact H1|done]].
    intros Hg. by destruct (H2 Hg) as [_ H3].
  - destruct (Hres _ grayscale eq_refl eq_refl) as [H1 H2]. do 3 eexists. split; [reflexivity|]. destruct (ok reg); [split; [exact H1|]|].
    + intros Hg. by destruct (H2 Hg) as [_ H3].
    + split; [|done]. split; [done|]. split; [done|]. cbn. lia.
Qed.

Lemma freetype_ok face : slots_ok face -> face_ok face.
Proof. intros Hs glyph_id hint bin Hb. destruct (render_glyph_spec face glyph_id hint bin Hs Hb) as (g & m & c & E & Hr & _). by exists g, m, c. Qed.

(** * Lookups *)

Lemma promote_perm k c : cache_ok c -> is_Some (entries c !! k) -> lru (promote k c) ≡ₚ lru c.
Proof.
  intros Hc Hk. unfold promote. simpl_cache. apply (ok_keys _ Hc) in Hk. apply list_elem_of_split in Hk as (l1 & l2 & E).
  pose proof (ok_lru _ Hc) as Hn. rewrite E in Hn |- *. rewrite <- Permutation_middle in Hn. apply NoDup_cons in Hn as [Hn _].
  rewrite filter_app, filter_cons_False by (intros Hx; by apply Hx). rewrite <- Permutation_middle, <- filter_app. rewrite filter_all; [done|]. intros x Hx ->. done.
Qed.

Lemma promote_ok k c : cache_ok c -> is_Some (entries c !! k) -> cache_ok (promote k c).
Proof.
  intros Hc Hk. pose proof (promote_perm k c Hc Hk) as Hp. destruct Hc as [C1 C2 C3 C4 C5 C6]. split; try done.
  - by rewrite Hp.
  - intros k'. rewrite Hp. apply C4.
  - intros f. change (counts (promote k c)) with (counts c). rewrite C5. unfold live. f_equal. apply Permutation_length.
    change (of_format f (promote k c)) with (of_format f c). by rewrite Hp.
Qed.

Section Lookup.
Context {F : Type} `{Face F}.
Variable face : F.
Hypothesis face_fine : face_ok face.

Lemma lookup_key_spec k c : cache_ok c -> 0 <= subpixel_x k < 4 -> exists r c', lookup_key face k c = Ret (r, c') /\ cache_ok c' /\
  match entries c !! k with
  | Some e => r = Some (e_glyph e) /\ c' = promote k c
  | None => exists e b, render_entry face k = Ret (e, b) /\ let f := kind e in
      match r with
      | Some g => b = true /\ exists e1, strip e1 = strip e /\ evolved f k (entered k e1 c) c' /\ over_budget f c' = false /\ (shown f c -> shown f c') /\
                    exists e2, entries c' !! k = Some e2 /\ strip e2 = strip e /\ g = e_glyph e2
      | None => evolved f k c c' /\ entries c' !! k = None /\ (shown f c -> settled f c')
      end
  end.
Proof.
  intros Hc Hbin. unfold lookup_key. destruct (entries c !! k) as [e|] eqn:E.
  - do 2 eexists. split; [reflexivity|]. split; [|done]. apply promote_ok; [done|]. by exists e.
  - destruct (render_entry_spec face k face_fine Hbin) as (e & b & Er & He). rewrite Er. cbn [mbind outcome_bind]. destruct b.
    + destruct (insert_entry_spec k e c Hc E (He eq_refl)) as (r & c' & Ei & Hc' & Hr). exists r, c'. split; [done|]. split; [done|]. exists e, true. split; [done|].
      destruct r; [|done]. by split.
    + do 2 eexists. split; [reflexivity|]. split; [by apply warn_ok|]. exists e, false. split; [done|]. split; [apply warn_evolved, evolved_refl, Hc|]. split; [done|].
      intros S. apply settled_warn. by left.
Qed.

(** What a lookup does to a format that the key's glyph has not. *)
Lemma ev_other_entered f g k e c c' : cache_ok c -> entries c !! k = None -> kind e = f -> g <> f -> evolved f k (entered k e c) c' -> live g c' = live g c /\ (shown g c -> shown g c').
Proof.
  intros Hc Hk He Hg Hev. split.
  - rewrite (ev_live_other f g k _ _ Hev Hg), (entered_live k e c Hc Hk). by rewrite bool_decide_eq_false_2 by congruence.
  - intros (placed & S1 & S2 & S3 & S4). apply (shown_other g f k (entered k e c) c' Hev Hg). exists placed. split; [done|]. split; [done|]. unfold entered. simpl_cache. split.
    + intros k' Hk'. destruct (S3 k' Hk') as (e' & He' & Hf). exists e'. split; [|done]. rewrite lookup_insert_ne; [done|]. intros <-. congruence.
    + intros k' e'. destruct (decide (k' = k)) as [->|Hn]; [rewrite lookup_insert_eq; intros [= <-]; congruence|rewrite lookup_insert_ne by done; apply S4].
Qed.

(** The cache forgets what was used longest ago, and keeps its budget.  Every lookup
    returns, in bounds.  A cached glyph is answered as it is and becomes the most
    recently used; one that is not is rendered, and if it is answered it comes first
    among the glyphs of its format, before those used last as far as they were kept,
    whose number and page are within the budget; if it cannot be cached, only glyphs
    used longest ago were dropped for it.  The other format is never touched. *)
Lemma least_recent_go_first k c : cache_ok c -> 0 <= subpixel_x k < 4 ->
  exists r c', lookup_key face k c = Ret (r, c') /\ cache_ok c' /\
  match entries c !! k with
  | Some e => r = Some (e_glyph e) /\ entries c' = entries c /\ pages c' = pages c /\ lru c' = k :: filter (fun k' => k' <> k) (lru c)
  | None => exists f n, (forall g, g <> f -> live g c' = live g c /\ page g c' = page g c) /\
      match r with
      | Some g => live f c' = k :: take n (live f c) /\ zlen (live f c') <= max_count f c' /\ atlas_bytes f c' <= max_bytes f c' /\
                  exists e, entries c' !! k = Some e /\ g = e_glyph e
      | None => live f c' = take n (live f c)
      end
  end.
Proof.
  intros Hc Hbin. destruct (lookup_key_spec k c Hc Hbin) as (r & c' & E & Hc' & Hr). exists r, c'. split; [done|]. split; [done|].
  destruct (entries c !! k) as [e|] eqn:Ek; [by destruct Hr as [-> ->]|]. destruct Hr as (e & b & Er & Hr). exists (kind e). destruct r as [g|].
  - destruct Hr as (_ & e1 & Hs & Hev & Hb & _ & e2 & He2 & _ & ->). destruct (strip_fields _ _ Hs) as (Ek1 & _).
    destruct (ev_live_entered (kind e) k e1 c c' Hc Ek Ek1 Hc' Hev) as [n Hl]. exists n. split.
    + intros g Hg. split; [by apply (ev_other_entered (kind e) g k e1 c c')|]. rewrite (other_page g (kind e) k _ _ Hev Hg). done.
    + split; [done|]. unfold over_budget in Hb. apply orb_false_iff in Hb as [B1%Z.ltb_ge B2%Z.ltb_ge]. rewrite (ok_counts _ Hc') in B1. split; [done|]. split; [done|]. by exists e2.
  - destruct Hr as (Hev & Hk' & _). destruct (ev_live_fresh (kind e) k c c' Hc Ek Hc' Hk' Hev) as [n Hl]. exists n. split; [|done].
    intros g Hg. split; [by apply (ev_live_other (kind e) g k)|by apply (other_page g (kind e) k)].
Qed.
End Lookup.

(** * Glyphs of FreeType on the page *)

Lemma ft_entry face k e : slots_ok face -> 0 <= subpixel_x k < 4 -> render_entry face k = Ret (e, true) -> g_width (e_glyph e) <> 0 ->
  empty_entry e = false /\ from_slot face (glyph_id k) (hint k) (subpixel_x k) (g_width (e_glyph e)) (g_height (e_glyph e)) (kind e) (pixel_bytes e).
Proof.
  intros Hs Hbin E Hw0. unfold render_entry in E. destruct (render_glyph_spec face (glyph_id k) (hint k) (subpixel_x k) Hs Hbin) as (g & mask & color & Er & Hr & Hg).
  change (render face) with (render_glyph face) in E. rewrite Er in E. cbn [mbind outcome_bind] in E. fold (scratch g mask color) in E.
  destruct (extract_pixels_spec _ g Hr) as (px & Ep & Hp1 & Hp2). rewrite Ep in E. cbn [mbind outcome_bind] in E. injection E as <- Hfit. cbn [e_glyph pixel_bytes] in *.
  unfold kind. cbn [e_glyph]. destruct (Hg Hw0) as (data & Hf & Hin & Hsh). pose proof Hf as (s & El & Hm & E1 & E2 & E3 & Eb).
  destruct (bitmap_spec s (Hs _ _ _ _ _ El) Hm) as (data' & Eb' & Hl). rewrite Eb in Eb'. injection Eb' as <-. unfold inside in Hin. cbn [rx ry rw rh] in Hin.
  assert (Epx : px = data).
  { apply Hp2; [lia|lia|lia|lia|exact Hsh|]. rewrite Hl, E1, E2, <- E3. destruct Hr as (_ & Hfo & _). unfold bytes_per_pixel, bpp. by rewrite Hfo. }
  subst px. split; [|exact Hf]. apply andb_true_iff in Hfit as [_ Hfit]. unfold empty_entry. cbn [e_width e_height].
  destruct (Z.eqb_spec (Z.min (g_width g) 0xffff) 0), (Z.eqb_spec (Z.min (g_height g) 0xffff) 0); lia || done.
Qed.

(** ** Variations *)

Lemma set_variations_spec vs face face' : set_variations vs face = Ret face' ->
  exists calls, face' = with_set calls face /\ ft_set face `prefix_of` calls.
Proof.
  change (set_variations vs face) with (ft_set_variations vs face). unfold ft_set_variations.
  assert (Hsame : Ret face = Ret face' -> exists calls, face' = with_set calls face /\ ft_set face `prefix_of` calls)
    by (intros [= <-]; exists (ft_set face); split; [by destruct face|done]).
  destruct (bool_decide _); [done|]. destruct (ft_axes face) as [axes|]; [|done]. intros (coords & _ & E)%bind_inv. injection E as <-.
  exists (ft_set face ++ [coords]). split; [done|]. by exists [coords].
Qed.

Lemma prefix_squeezed {A} (l1 l2 : list A) : l1 `prefix_of` l2 -> l2 `prefix_of` l1 -> l1 = l2.
Proof. intros H1 H2. by apply (anti_symm prefix). Qed.

Section Shown.
(** The faces by their ids, and what had been set of each when the cache was empty. *)
Variable faces : Z -> free_type_face.
Variable base : Z -> list (list Z).

Definition in_force (i : Z) : list (list Z) := ft_set (faces i).

(** The variations of a face at some time since the cache was empty. *)
Definition since_empty (i : Z) (calls : list (list Z)) : Prop := base i `prefix_of` calls /\ calls `prefix_of` in_force i.

Definition made_under (calls : list (list Z)) (k : glyph_key) (e : entry) : Prop :=
  0 <= subpixel_x k < 4 /\ exists e0, render_entry (with_set calls (faces (face_id k))) k = Ret (e0, true) /\ strip e = strip e0.

Definition made (k : glyph_key) (e : entry) : Prop := exists calls, since_empty (face_id k) calls /\ made_under calls k e.

(** Each entry is what its key rendered to. *)
Definition all_made (c : cache) : Prop := forall k e, entries c !! k = Some e -> made k e.

Definition serving (c : cache) : Prop := cache_ok c /\ all_made c /\ forall f, shown f c.

Lemma made_under_strip calls k e e' : strip e' = strip e -> made_under calls k e -> made_under calls k e'.
Proof. intros Hs (Hb & e0 & E0 & Hs0). split; [done|]. exists e0. split; [done|congruence]. Qed.

Lemma made_evolved f p c c' : evolved f p c c' -> all_made c -> all_made c'.
Proof.
  intros Hev Hm k e' He'. destruct (ev_entries _ _ _ _ Hev k e' He') as (e & He & Hs & _). destruct (Hm k e He) as (calls & Hc & Hu).
  exists calls. split; [done|]. by apply (made_under_strip calls k e).
Qed.

Lemma made_entered k e c : made k e -> all_made c -> all_made (entered k e c).
Proof.
  intros He Hm k' e'. unfold entered. simpl_cache. destruct (decide (k' = k)) as [->|Hn]; [rewrite lookup_insert_eq; by intros [= <-]|rewrite lookup_insert_ne by done; apply Hm].
Qed.

Lemma empty_serving c : entries c = ∅ -> lru c = [] -> counts c = (0, 0) -> 1 <= initial_atlas_size (budget c) < max_page -> 0 <= max_atlas_size (budget c) < max_page ->
  (forall f, page_kind f c /\ atlas_ok (page f c) []) -> serving c.
Proof.
  intros He Hl Hn B1 B2 Hp. split; [|split].
  - split; [done|..].
    + intros f. destruct (Hp f) as [H1 H2]. split; [done|by exists []].
    + rewrite Hl. constructor.
    + intros k. rewrite Hl, He, lookup_empty. split; [by intros ?%not_elem_of_nil|by intros [? [=]]].
    + intros f. unfold live. rewrite Hl, Hn. by destruct f.
    + intros k e. by rewrite He, lookup_empty.
  - intros k e. by rewrite He, lookup_empty.
  - intros f. exists []. split; [constructor|]. split; [apply Hp|]. split; [by intros k ?%not_elem_of_nil|]. intros k e. by rewrite He, lookup_empty.
Qed.

Definition budget_ok (b : glyph_budget) : Prop := 0 <= initial_atlas_size b < max_page /\ 0 <= max_atlas_size b < max_page.

Lemma new_pages_ok b f : 1 <= initial_atlas_size b < max_page -> 0 <= max_atlas_size b < max_page -> atlas_ok (at_format f (new_pages b)) [].
Proof. intros H1 H2. destruct f; by apply new_atlas_ok. Qed.

Lemma sanitized b : budget_ok b -> 1 <= initial_atlas_size (sanitize b) < max_page /\ 0 <= max_atlas_size (sanitize b) < max_page.
Proof. unfold budget_ok, max_page. cbn. lia. Qed.

Lemma set_budget_serving b c : budget_ok b -> serving (set_budget b c).
Proof.
  intros Hb. destruct (sanitized b Hb) as [B1 B2]. apply empty_serving; try done. intros f. split; [by destruct f|]. by apply new_pages_ok.
Qed.

Lemma clear_serving c : cache_ok c -> serving (clear_cache c).
Proof.
  intros Hc. destruct (ok_budget _ Hc) as [B1 B2]. apply empty_serving; try done. intros f. destruct (ok_pages _ Hc f) as [Hk _].
  assert (Hp : page f (clear_cache c) = clear (page f c)) by by destruct f. unfold page_kind. rewrite Hp. split; [exact Hk|].
  destruct Hk as (_ & K2 & K3 & K4). apply reset_ok; [done|lia|lia].
Qed.

(** The page shows the glyph pixel for pixel as FreeType renders it with these
    variations. *)
Definition displayed (calls : list (list Z)) (i glyph_id hint bin : Z) (g : glyph) (c : cache) : Prop :=
  exists data, from_slot (with_set calls (faces i)) glyph_id hint bin (g_width g) (g_height g) (g_format g) data /\
    let r := MkRect (a_x g) (a_y g) (g_width g) (g_height g) in inside (page (g_format g) c) r /\ shows (page (g_format g) c) r data.

Lemma answered_displayed calls k e c : (forall i, slots_ok (faces i)) -> entries c !! k = Some e -> serving c -> made_under calls k e ->
  g_width (e_glyph e) <> 0 -> displayed calls (face_id k) (glyph_id k) (hint k) (subpixel_x k) (e_glyph e) c.
Proof.
  intros Hs He (Hc & _ & Hsh) (Hbin & e0 & E0 & Hst) Hw0. destruct (strip_fields _ _ Hst) as (S1 & S2 & S3 & S4 & S5 & S6 & S7).
  destruct (ft_entry (with_set calls (faces (face_id k))) k e0 (Hs (face_id k)) Hbin E0 ltac:(congruence)) as [Hem Hfs]. exists (pixel_bytes e).
  change (g_format (e_glyph e)) with (kind e). rewrite S1, S4, S5, S6. split; [exact Hfs|].
  destruct (Hsh (kind e)) as (placed & _ & (_ & Hf & _) & _ & Hp). specialize (Hp k e He eq_refl ltac:(congruence)).
  rewrite Forall_forall in Hf. destruct (Hf (rect_of e, pixel_bytes e)) as [[Hin _] Hshow]; [apply list_elem_of_fmap; by exists (k, (rect_of e, pixel_bytes e))|].
  cbn [fst snd] in Hin, Hshow. destruct (ok_entries _ Hc k e He) as [[W _] [Hgt _] _]. unfold rect_of in *. rewrite <- W, <- Hgt, S5, S6 in *. by rewrite S1, S4 in *.
Qed.

(** What a lookup in a serving cache does. *)
Lemma lookup_serves c i gid x h k : (forall i, slots_ok (faces i)) -> base i `prefix_of` in_force i -> serving c -> make_key (faces i) gid x h = Ret k ->
  ft_id (faces i) = i ->
  exists g c', lookup (faces i) gid x h c = Ret (g, c') /\ cache_ok c' /\ all_made c' /\
    (serving c' \/ g = no_glyph /\ exists f, ~ fits f c') /\
    (g_width g <> 0 -> serving c' /\ (exists e, entries c' !! k = Some e /\ e_glyph e = g) /\
       exists calls, since_empty i calls /\ (entries c !! k = None -> calls = in_force i) /\ displayed calls i gid h (sub_bin x) g c').
Proof.
  intros Hs Hbase (Hc & Hm & Hsh) Hk Hid. unfold lookup. rewrite Hk. cbn [mbind outcome_bind].
  assert (Ek : subpixel_x k = sub_bin x /\ glyph_id k = gid /\ hint k = h /\ face_id k = i).
  { unfold make_key in Hk. apply bind_inv in Hk as (q & _ & Hk). injection Hk as <-. cbn. done. }
  destruct Ek as (Ex & Eg & Eh & Ei). pose proof (sub_bin_range x) as Hbin. rewrite <- Ex in Hbin.
  destruct (lookup_key_spec (faces i) (freetype_ok (faces i) (Hs i)) k c Hc Hbin) as (r & c' & E & Hc' & Hr). rewrite E. cbn [mbind outcome_bind].
  assert (Hans : forall calls e, entries c' !! k = Some e -> serving c' -> made_under calls k e -> g_width (e_glyph e) <> 0 ->
    displayed calls i gid h (sub_bin x) (e_glyph e) c') by (rewrite <- Ei, <- Eg, <- Eh, <- Ex; intros calls e; by apply answered_displayed).
  destruct (entries c !! k) as [e|] eqn:Eck.
  - destruct Hr as [-> ->]. cbn [default]. assert (Hserve : serving (promote k c)) by (split; [done|split; [exact Hm|exact Hsh]]).
    do 2 eexists. split; [reflexivity|]. split; [done|]. split; [done|]. split; [by left|]. intros Hw0. split; [done|]. split; [by exists e|].
    destruct (Hm k e Eck) as (calls & Hcalls & Hu). exists calls. rewrite Ei in Hcalls. split; [done|]. split; [done|]. by apply (Hans calls e).
  - destruct Hr as (e & b & Er & Hr). destruct r as [g|]; cbn [default].
    + destruct Hr as (-> & e1 & Hst & Hev & _ & Hsame & e2 & He2 & Hst2 & ->).
      assert (Hu : made_under (in_force i) k e1).
      { split; [done|]. exists e. split; [|done]. rewrite Ei. replace (with_set (in_force i) (faces i)) with (faces i) by (by unfold in_force; destruct (faces i)). done. }
      assert (Hm' : all_made c').
      { eapply made_evolved; [exact Hev|]. apply made_entered; [|done]. exists (in_force i). rewrite Ei. by split; [split|]. }
      assert (Hserve : serving c').
      { split; [done|]. split; [done|]. intros f. destruct (decide (f = kind e)) as [->|Hf]; [by apply Hsame|]. destruct (strip_fields _ _ Hst) as (Hk1 & _).
        by apply (ev_other_entered (kind e) f k e1 c c'). }
      do 2 eexists. split; [reflexivity|]. split; [done|]. split; [done|]. split; [by left|]. intros Hw0. split; [done|]. split; [by exists e2|].
      exists (in_force i). split; [by split|]. split; [done|]. apply Hans; [done|done| |done]. apply (made_under_strip _ k e1); [congruence|done].
    + destruct Hr as (Hev & Hk' & Hset). assert (Hm' : all_made c') by by eapply made_evolved.
      do 2 eexists. split; [reflexivity|]. split; [done|]. split; [done|]. split; [|done]. destruct (Hset (Hsh _)) as [Hsf|Hnf]; [left|right; split; [done|by exists (kind e)]].
      split; [done|]. split; [done|]. intros f. destruct (decide (f = kind e)) as [->|Hf]; [done|]. by apply (shown_other f (kind e) k c c').
Qed.
End Shown.

Definition with_face (i : Z) (face : free_type_face) (faces : Z -> free_type_face) (j : Z) : free_type_face := if j =? i then face else faces j.

(** C32. What the cache answers is on the page.  A new, cleared or resized cache serves
    FreeType faces whose bitmaps are as documented, and goes on to do so.  A lookup
    returns, and a glyph with pixels that it answers lies on the page of its format, at
    its coordinates, pixel for pixel as FreeType renders that glyph with that hint and
    that quarter of a pixel, whether it was cached or is new and whatever was evicted or
    moved; all glyphs that stay are shown as well and no two touch.  The variations it
    is rendered with are those of its face at some time since the cache was empty: those
    in force now if it was not cached, or if none were set of the face since then, but
    maybe older ones otherwise, for setting variations keeps what is cached.  When no
    glyph is answered the cache serves on, unless those kept do not fit a page in their
    order of use. *)
Theorem glyphs_shown faces : (forall i, slots_ok (faces i)) -> (forall i, ft_id (faces i) = i) ->
  (forall b, budget_ok b -> serving faces (in_force faces) (new_cache b)) /\
  (forall b c, budget_ok b -> serving faces (in_force faces) (set_budget b c)) /\
  (forall base c, serving faces base c -> serving faces (in_force faces) (clear_cache c)) /\
  (forall base c i vs face, serving faces base c -> set_variations vs (faces i) = Ret face ->
     let faces' := with_face i face faces in
     (forall j, slots_ok (faces' j)) /\ (forall j, ft_id (faces' j) = j) /\ serving faces' base c /\
     forall j, in_force faces j `prefix_of` in_force faces' j /\ (j <> i -> in_force faces' j = in_force faces j)) /\
  forall base c i glyph_id x hint k, serving faces base c -> base i `prefix_of` in_force faces i -> make_key (faces i) glyph_id x hint = Ret k ->
    exists g c', lookup (faces i) glyph_id x hint c = Ret (g, c') /\ cache_ok c' /\ all_made faces base c' /\
      (serving faces base c' \/ g = no_glyph /\ exists f, ~ fits f c') /\
      (g_width g <> 0 -> serving faces base c' /\ (exists e, entries c' !! k = Some e /\ e_glyph e = g) /\
         exists calls, since_empty faces base i calls /\ (entries c !! k = None \/ base i = in_force faces i -> calls = in_force faces i) /\
           displayed faces calls i glyph_id hint (sub_bin x) g c').
Proof.
  intros Hs Hid. split; [|split; [|split; [|split]]].
  - intros b Hb. apply (set_budget_serving faces _ b (new_cache b) Hb).
  - intros b c Hb. by apply set_budget_serving.
  - intros base c (Hc & _). by apply clear_serving.
  - intros base c i vs face (Hc & Hm & Hsh) Hv faces'. apply set_variations_spec in Hv as (calls & -> & Hp).
    assert (Hj : forall j, exists calls', faces' j = with_set calls' (faces j) /\ in_force faces j `prefix_of` calls' /\ (j <> i -> calls' = in_force faces j)).
    { intros j. unfold faces', with_face. destruct (Z.eqb_spec j i) as [->|Hne]; [by exists calls|]. exists (in_force faces j). split; [|done].
      unfold in_force. by destruct (faces j). }
    assert (Hpre : forall j, in_force faces j `prefix_of` in_force faces' j /\ (j <> i -> in_force faces' j = in_force faces j)).
    { intros j. destruct (Hj j) as (calls' & E & Hp' & Hne). assert (E' : in_force faces' j = calls') by (unfold in_force; by rewrite E). rewrite E'. by split. }
    split; [|split; [|split; [|exact Hpre]]].
    + intros j. destruct (Hj j) as (calls' & -> & _). apply (Hs j).
    + intros j. destruct (Hj j) as (calls' & -> & _). apply (Hid j).
    + split; [done|]. split; [|done]. intros k e He. destruct (Hm k e He) as (old & [H1 H2] & Hb & e0 & E0 & Hst). exists old.
      split; [split; [done|]; etransitivity; [exact H2|apply Hpre]|]. split; [done|]. exists e0. split; [|done]. destruct (Hj (face_id k)) as (calls' & -> & _). exact E0.
  - intros base c i gid x h k Hserve Hbase Hk. destruct (lookup_serves faces base c i gid x h k Hs Hbase Hserve Hk (Hid i)) as (g & c' & E & Hc' & Hm' & Hor & Hg).
    exists g, c'. split; [done|]. split; [done|]. split; [done|]. split; [done|]. intros Hw. destruct (Hg Hw) as (H1 & H2 & calls & H3 & H4 & H5).
    split; [done|]. split; [done|]. exists calls. split; [done|]. split; [|done]. intros [Hn|Hn]; [by apply H4|]. destruct H3 as [P1 P2]. symmetry.
    apply prefix_squeezed; [by rewrite <- Hn|done].
Qed.

(** * Runs *)

(** Glyphs 1 to 3 are one column four pixels high, the others one pixel; each has its
    own grey. *)
Definition test_slot (glyph_id : Z) : slot := let h := if glyph_id <=? 3 then 4 else 1 in MkSlot 1 h 1 (replicate (Z.to_nat h) glyph_id) MODE_GRAY 0 0 64.
(** A variable face, whose weight is the grey of all glyphs. *)
Definition wght : bytes := str "wght".
Definition test_load (calls : list (list Z)) (glyph_id hint shift : Z) : option slot :=
  Some match last calls with Some [w] => let s := test_slot glyph_id in MkSlot 1 (s_rows s) 1 (replicate (Z.to_nat (s_rows s)) (w / 65536)) MODE_GRAY 0 0 64
       | _ => test_slot glyph_id end.
Definition test_face (i : Z) : free_type_face := MkFace i (f32 16) (Some [(packed wght, 400 * 65536)]) [] test_load.
Definition test_budget : glyph_budget := MkBudget 4 8 16 16 1000 1000.

Lemma test_slots_ok i : slots_ok (test_face i).
Proof.
  assert (Ht : forall g, slot_ok (test_slot g)) by (intros g; unfold slot_ok, test_slot, max_page; cbn; rewrite length_replicate; destruct (g <=? 3); cbn; lia).
  intros calls g h x s. cbn [ft_load test_face]. unfold test_load. destruct (last calls) as [[|w [|? ?]]|]; intros [= <-]; try apply Ht.
  unfold slot_ok, test_slot, max_page. cbn. rewrite length_replicate. destruct (g <=? 3); cbn; lia.
Qed.

(** The positions that lookups of glyphs of one face are answered with. *)
Fixpoint lookups (face : free_type_face) (ids : list Z) (c : cache) : outcome (list (Z * Z * Z) * cache) :=
  match ids with
  | [] => Ret ([], c)
  | i :: ids' =>
      '(g, c) ← lookup face i fzero 2 c;
      '(gs, c) ← lookups face ids' c;
      Ret ((a_x g, a_y g, g_width g) :: gs, c)
  end.

Lemma least_recent_go_first_witness : exists r c', lookup_key (test_face 1) (MkKey 1 9 1024 0 2) (new_cache test_budget) = Ret (r, c') /\ cache_ok c' /\
  live bgra c' = [].
Proof.
  destruct (least_recent_go_first (test_face 1) (freetype_ok _ (test_slots_ok 1)) (MkKey 1 9 1024 0 2) (new_cache test_budget)) as (r & c' & E & Hc & Hr).
  - apply (set_budget_serving test_face (in_force test_face) test_budget (new_cache test_budget)). unfold budget_ok, max_page; cbn; lia.
  - cbn; lia.
  - exists r, c'. split; [exact E|]. split; [exact Hc|]. change (entries (new_cache test_budget) !! MkKey 1 9 1024 0 2) with (@None entry) in Hr. cbv iota in Hr.
    destruct Hr as (f & n & Hg & _). assert (Hf : (fun o => match o with Ret (_, c) => bool_decide (live bgra c = []) | _ => false end)
      (lookup_key (test_face 1) (MkKey 1 9 1024 0 2) (new_cache test_budget)) = true) by (vm_compute; reflexivity).
    rewrite E in Hf. apply bool_decide_eq_true in Hf. exact Hf.
Defined.

Lemma glyphs_shown_witness : exists face g c',
  set_variations [MkVariation wght (f32 7)] (test_face 1) = Ret face /\ lookup face 9 fzero 2 (new_cache test_budget) = Ret (g, c') /\
  displayed (with_face 1 face test_face) [[7 * 65536]] 1 9 2 (sub_bin fzero) g c'.
Proof.
  assert (Hb : budget_ok test_budget) by (unfold budget_ok, max_page; cbn; lia).
  destruct (glyphs_shown test_face test_slots_ok (fun i => eq_refl)) as (Hnew & _ & _ & Hvary & _).
  set (face := with_set [[7 * 65536]] (test_face 1)). assert (Ev : set_variations [MkVariation wght (f32 7)] (test_face 1) = Ret face) by (vm_compute; reflexivity).
  destruct (Hvary (in_force test_face) (new_cache test_budget) 1 _ face (Hnew _ Hb) Ev) as (Hs & Hid & Hserve & Hp).
  destruct (glyphs_shown (with_face 1 face test_face) Hs Hid) as (_ & _ & _ & _ & Hlook).
  destruct (Hlook (in_force test_face) (new_cache test_budget) 1 9 fzero 2 (MkKey 1 9 1024 0 2) Hserve (proj1 (Hp 1))) as (g & c' & E & _ & _ & _ & Hd); [vm_compute; reflexivity|].
  exists face, g, c'. split; [exact Ev|]. split; [exact E|].
  assert (Hw : (fun o => match o with Ret (g, _) => g_width g | _ => 0 end) (lookup face 9 fzero 2 (new_cache test_budget)) = 1) by (vm_compute; reflexivity).
  change (lookup face 9 fzero 2 (new_cache test_budget) = Ret (g, c')) in E. rewrite E in Hw.
  destruct Hd as (_ & _ & calls & _ & Hc & Hd); [rewrite Hw; discriminate|]. rewrite Hc in Hd by (left; reflexivity). exact Hd.
Defined.

(** * What modelling showed *)

(** A rebuild that fails leaves the glyphs it did not reach where they were on the old
    page: glyphs 2 and 3 are then answered at one place, which shows 2. *)
Lemma failed_rebuild_is_stale :
  (fun o => match o with Ret (ps, c) => Some (drop 12 ps, zsub (1 * 8 + 5) 1 (pixels_ (page grayscale c))) | _ => None end)
    (lookups (test_face 1) [1; 2; 3; 4; 5; 6;  6; 5; 3; 2; 1; 4;  7;  3; 2] (new_cache test_budget)) =
  Some ([(0, 0, 0); (5, 1, 1); (5, 1, 1)], [2]).
Proof. vm_compute. reflexivity. Qed.

(** A glyph that no page can hold is looked for by evicting every other. *)
Lemma oversized_empties_cache :
  let big := MkFace 1 (f32 16) None [] (fun _ glyph_id _ _ => Some (if glyph_id =? 9 then MkSlot 20 20 20 (replicate 400 1) MODE_GRAY 0 0 64 else test_slot glyph_id)) in
  (fun o => match o with Ret (ps, c) => Some (ps, cache_size grayscale c) | _ => None end) (lookups big [4; 5; 6; 9] (new_cache test_budget)) =
  Some ([(1, 1, 1); (1, 3, 1); (1, 5, 1); (0, 0, 0)], 0).
Proof. vm_compute. reflexivity. Qed.

(** A first page above the byte budget is never small enough: no glyph is cached. *)
Lemma budget_below_first_page :
  (fun o => match o with Ret (ps, c) => Some (ps, cache_size grayscale c) | _ => None end)
    (lookups (test_face 1) [4; 5; 4] (new_cache (MkBudget 16 64 16 16 100 1000))) = Some ([(0, 0, 0); (0, 0, 0); (0, 0, 0)], 0).
Proof. vm_compute. reflexivity. Qed.

(** [set_budget] starts the pages' generations again, which renderers compare with the
    generation they uploaded. *)
Lemma generation_restarts f b c : generation f (set_budget b c) = 1.
Proof. by destruct f. Qed.

(** A face keeps its id when its variations are set: what it rendered before is
    answered. *)
Lemma variations_share_glyphs {F} `{Face F} (face face' : F) k c : is_Some (entries c !! k) -> lookup_key face' k c = lookup_key face k c.
Proof. intros [e He]. unfold lookup_key. by rewrite He. Qed.

(** Glyph 9 is shown with weight 7, then asked for with weight 8: the page still has 7,
    and another glyph gets 8. *)
Lemma stale_weight :
  let varied w := set_variations [MkVariation wght (f32 w)] (test_face 1) in
  (fun o => match o with Ret (g, g', c) => Some (zsub (a_y g * width_ (page grayscale c) + a_x g) 1 (pixels_ (page grayscale c)),
                                                 zsub (a_y g' * width_ (page grayscale c) + a_x g') 1 (pixels_ (page grayscale c))) | _ => None end)
    (light ← varied 7; '(_, c) ← lookup light 9 fzero 2 (new_cache test_budget); bold ← varied 8;
     '(g, c) ← lookup bold 9 fzero 2 c; '(g', c) ← lookup bold 8 fzero 2 c; Ret (g, g', c)) = Some ([7], [8]).
Proof. vm_compute. reflexivity. Qed.

(** The value of an axis is not checked against the range of [FT_Fixed]. *)
Lemma huge_variation_undefined : set_variations [MkVariation wght (f32 (2 ^ 47))] (test_face 1) = Ub.
Proof. vm_compute. reflexivity. Qed.

(** Positions of 1 and more are not clamped but lose their integral part. *)
Lemma subpixel_not_clamped : sub_bin (f32 1) = 0 /\ sub_bin (SFdiv 24 128 (f32 5) (f32 4)) = 1.
Proof. split; vm_compute; reflexivity. Qed.
