(* ===== verification/CpuProfile.v ===== *)
(** CPU profiles: the native sampler ([src/runner/cpu_profile_native.cpp]) and the
    profiles it and V8 leave ([src/runner/cpu_profile.hpp]), read from V8's JSON, merged
    and written ([src/runner/cpu_profile_merge.cpp]).

    A profile is a table of nodes that name their children by identifier, with a list of
    samples, each the identifier of the node a stack ended in.  [nlohmann::json] is a
    parameter of the reader: the definitions start from the value it parses, an inductive
    type with the kinds of its values.  [dladdr] and [__cxa_demangle] are parameters of
    the sampler.  The signal handler it chains to and the thread that sends the signals
    are not modelled: a signal is a step. *)

From S2P Require Import Prelude Doubles Strings.

(** * Data *)

Record call_frame : Type := MkFrame {
  function_name : bytes; url : bytes; script_id : Z; line_number : Z; column_number : Z }.
Definition no_frame : call_frame := MkFrame [] [] 0 (-1) (-1).
Definition named (n : bytes) : call_frame := MkFrame n [] 0 (-1) (-1).

#[export] Instance call_frame_eq_dec : EqDecision call_frame.
Proof. solve_decision. Defined.

Record profile_node : Type := MkNode { node_id : Z; frame : call_frame; hit_count : Z; children : list Z }.

Definition push_child (c : Z) (n : profile_node) : profile_node :=
  MkNode (node_id n) (frame n) (hit_count n) (children n ++ [c]).
Definition hit (n : profile_node) : profile_node :=
  MkNode (node_id n) (frame n) (u32 (hit_count n + 1)) (children n).

Record profile_data : Type := MkProfile {
  nodes : list profile_node; samples : list Z; time_deltas : list Z;
  start_time : Z; end_time : Z; dropped_samples : Z; sample_period_us : Z }.
Definition no_profile : profile_data := MkProfile [] [] [] 0 0 0 0.

Definition set_nodes ns p := MkProfile ns (samples p) (time_deltas p) (start_time p) (end_time p) (dropped_samples p) (sample_period_us p).
Definition set_samples ss p := MkProfile (nodes p) ss (time_deltas p) (start_time p) (end_time p) (dropped_samples p) (sample_period_us p).
Definition set_deltas ds p := MkProfile (nodes p) (samples p) ds (start_time p) (end_time p) (dropped_samples p) (sample_period_us p).
Definition set_times s e p := MkProfile (nodes p) (samples p) (time_deltas p) s e (dropped_samples p) (sample_period_us p).
Definition set_dropped d p := MkProfile (nodes p) (samples p) (time_deltas p) (start_time p) (end_time p) d (sample_period_us p).
Definition set_period u p := MkProfile (nodes p) (samples p) (time_deltas p) (start_time p) (end_time p) (dropped_samples p) u.

(** Sums of [int] and [i64]: overflow is undefined. *)
Definition add_int (a b : Z) : outcome Z :=
  if (- 2 ^ 31 <=? a + b) && (a + b <? 2 ^ 31) then Ret (a + b) else Ub.
Definition add_i64 (a b : Z) : outcome Z :=
  if (- 2 ^ 63 <=? a + b) && (a + b <? 2 ^ 63) then Ret (a + b) else Ub.

(** [nodes\[i\]] changed in place. *)
Definition alter_at {A} (i : Z) (f : A -> A) (l : list A) : outcome (list A) :=
  x ← at_ l i; Ret (<[Z.to_nat i := f x]> l).

(** * The native sampler *)

Definition kMaxFrames : nat := 96.
Definition kHandlerSkip : nat := 2.

(** [frames]: the program counters of a stack, the innermost first; [n_frames] is the
    length of the list. *)
Record sample_slot : Type := MkSlot { t_us : Z; frames : list Z }.

Record sampler_ring : Type := MkRing { slots : list sample_slot; cap : Z; head : Z; dropped : Z; active : bool }.

(** [running_], [hz_] *)
Record native_profiler : Type := MkProfiler { running : bool; hz_ : Z }.

(** A signal at time [t] that interrupts [stack]. *)
Definition sigprof_handler (t : Z) (stack : list Z) (r : sampler_ring) : sampler_ring :=
  if active r then
    let idx := head r in
    if idx <? cap r
    then MkRing (<[Z.to_nat idx := MkSlot t (take kMaxFrames stack)]> (slots r)) (cap r) (u64 (idx + 1)) (dropped r) true
    else MkRing (slots r) (cap r) (u64 (idx + 1)) (u64 (dropped r + 1)) true
  else r.

Definition signals (l : list (Z * list Z)) (r : sampler_ring) : sampler_ring :=
  foldl (fun r s => sigprof_handler s.1 s.2 r) r l.

(** [alloc]: the ring could be allocated.  The result has the message of an error. *)
Definition start (hz max_samples : Z) (alloc : bool) (p : native_profiler) (r : sampler_ring) :
    option bytes * native_profiler * sampler_ring :=
  if running p then (Some (str "native profiler already running"), p, r)
  else
    let hz := if hz <=? 0 then 1000 else hz in
    let max_samples := if max_samples =? 0 then 65536 else max_samples in
    if active r then (Some (str "another native profiler is already active in this process"), p, r)
    else if alloc then
      (None, MkProfiler true hz, MkRing (replicate (Z.to_nat max_samples) (MkSlot 0 [])) max_samples 0 0 true)
    else (Some (str "failed to allocate sampler ring"), p, MkRing [] (cap r) (head r) (dropped r) (active r)).

(** ** Names of program counters *)

Fixpoint show_hex (fuel : nat) (n : Z) : bytes :=
  match fuel with
  | O => []
  | S k =>
      let d := n mod 16 in
      let c := if d <? 10 then chr "0" + d else chr "a" + (d - 10) in
      if n <? 16 then [c] else show_hex k (n / 16) ++ [c]
  end.

Section Native.
(** [dladdr]: the symbol and the file of a program counter, when it knows it (empty: a
    null pointer); [cxa_demangle]: [None] when the name is not a mangled one. *)
Context (dladdr : Z -> option (bytes * bytes)) (cxa_demangle : bytes -> option bytes).

Definition demangle (sym : bytes) : bytes :=
  match sym with [] => [] | _ => default sym (cxa_demangle sym) end.

Definition resolve (pc : Z) : call_frame :=
  let '(name, file) := match dladdr pc with
                       | Some (sname, fname) => (demangle sname, fname)
                       | None => ([], [])
                       end in
  let name := match name with [] => str "0x" ++ show_hex 16 pc | _ => name end in
  MkFrame (str "[native] " ++ name) file 0 (-1) (-1).

(** ** The tree of stacks *)

Definition child_key (parent : Z) (f : call_frame) : bytes :=
  show_int parent ++ [chr "|"] ++ function_name f ++ [chr "|"] ++ url f.

(** The profile being built, [child_index] and [sym_cache]. *)
Record builder : Type := MkBuilder { b_nodes : list profile_node; child_index : gmap bytes Z; sym_cache : gmap Z call_frame }.

Definition get_child (parent : Z) (f : call_frame) (b : builder) : outcome (Z * builder) :=
  let k := child_key parent f in
  match child_index b !! k with
  | Some i => Ret (i, b)
  | None =>
      i ← add_int (i32 (zlen (b_nodes b))) 1;
      ns ← alter_at (parent - 1) (push_child i) (b_nodes b ++ [MkNode i f 0 []]);
      Ret (i, MkBuilder ns (<[k := i]> (child_index b)) (sym_cache b))
  end.

Definition cached (pc : Z) (b : builder) : call_frame * builder :=
  let cf := default no_frame (sym_cache b !! pc) in
  match function_name cf with
  | [] => let cf := resolve pc in (cf, MkBuilder (b_nodes b) (child_index b) (<[pc := cf]> (sym_cache b)))
  | _ => (cf, b)
  end.

(** From node [cur] along program counters, the outermost first. *)
Fixpoint descend (pcs : list Z) (cur : Z) (b : builder) : outcome (Z * builder) :=
  match pcs with
  | [] => Ret (cur, b)
  | pc :: pcs' => let '(cf, b) := cached pc b in '(cur, b) ← get_child cur cf b; descend pcs' cur b
  end.

(** The frames of a slot that enter the tree. *)
Definition walked (s : sample_slot) : list Z := reverse (drop kHandlerSkip (frames s)).

Definition add_slot (period : Z) (i : nat) (s : sample_slot) (st : profile_data * builder) : outcome (profile_data * builder) :=
  let '(out, b) := st in
  if (length (frames s) <=? kHandlerSkip)%nat then Ret (out, b)
  else
    '(cur, b) ← descend (walked s) 1 b;
    ns ← alter_at (cur - 1) hit (b_nodes b);
    let t := i64 (t_us s) in
    Ret (set_times (if (i =? 0)%nat then t else start_time out) t
           (set_deltas (time_deltas out ++ [period]) (set_samples (samples out ++ [cur]) out)),
         MkBuilder ns (child_index b) (sym_cache b)).

Fixpoint add_slots (period : Z) (i : nat) (l : list sample_slot) (st : profile_data * builder) : outcome (profile_data * builder) :=
  match l with
  | [] => Ret st
  | s :: l' => st ← add_slot period i s st; add_slots period (S i) l' st
  end.

Definition native_root : profile_node := MkNode 1 (named (str "(native root)")) 0 [].

Definition stop (p : native_profiler) (r : sampler_ring) : outcome (profile_data * native_profiler * sampler_ring) :=
  if negb (running p) then Ret (no_profile, p, r)
  else
    let produced := if cap r <? head r then cap r else head r in
    let period := if 0 <? hz_ p then 1000000 `quot` hz_ p else 1000 in
    let out := set_period period (set_dropped (dropped r) no_profile) in
    '(out, b) ← add_slots period 0 (ztake produced (slots r)) (out, MkBuilder [native_root] ∅ ∅);
    Ret (set_nodes (b_nodes b) out, MkProfiler false (hz_ p), MkRing [] 0 (head r) (dropped r) false).
End Native.

(** * Reading V8's profile *)

(** Doubles a backslash inside a string that starts no escape of JSON; [in_string]: an
    odd number of quotes came before. *)
Definition escape_chars : bytes := str "\/bfnrtu" ++ [34].

Fixpoint sanitize_loop (in_string : bool) (src : bytes) : bytes :=
  match src with
  | [] => []
  | c :: rest =>
      if c =? 34 then c :: sanitize_loop (negb in_string) rest
      else if negb in_string then c :: sanitize_loop in_string rest
      else if c =? chr "\" then
        match rest with
        | [] => [c]
        | n :: rest' =>
            if bool_decide (n ∈ escape_chars) then c :: n :: sanitize_loop in_string rest'
            else c :: chr "\" :: sanitize_loop in_string rest
        end
      else c :: sanitize_loop in_string rest
  end.
Definition sanitize_v8_json (src : bytes) : bytes := sanitize_loop false src.

(** A value of [nlohmann::ordered_json]: integers are [int64_t], or [uint64_t] when they
    were written without a sign. *)
Inductive json : Type :=
| JNull
| JBool (b : bool)
| JInteger (n : Z)
| JUnsigned (n : Z)
| JFloat (d : double)
| JString (s : bytes)
| JArray (l : list json)
| JObject (m : list (bytes * json)).

(** [j.find(key)]: only an object finds something. *)
Definition json_find (key : bytes) (j : json) : option json :=
  match j with JObject m => lookup_name key m | _ => None end.
Definition is_array (j : json) : bool := match j with JArray _ => true | _ => false end.

(** What a loop over a value visits. *)
Definition json_items (j : json) : list json :=
  match j with JNull => [] | JArray l => l | JObject m => m.*2 | _ => [j] end.

(** [static_cast<int>] of a double *)
Definition cast_int (d : double) : outcome Z :=
  match ftrunc d with
  | Some n => if (- 2 ^ 31 <=? n) && (n <? 2 ^ 31) then Ret n else Ub
  | None => Ub
  end.

(** [j.get<int>()], [j.get<i64>()]; only the former takes a boolean. *)
Definition get_int (j : json) : outcome Z :=
  match j with
  | JBool b => Ret (Z.b2z b)
  | JInteger n | JUnsigned n => Ret (i32 n)
  | JFloat d => cast_int d
  | _ => Throw "type_error"
  end.
Definition get_i64 (j : json) : outcome Z :=
  match j with
  | JInteger n | JUnsigned n => Ret (i64 n)
  | JFloat d => cast_i64 d
  | _ => Throw "type_error"
  end.

Definition read_int (j : json) (key : bytes) (defv : Z) : outcome Z :=
  match json_find key j with
  | Some (JInteger n) | Some (JUnsigned n) => Ret (i32 n)
  | Some (JFloat d) => cast_int d
  | _ => Ret defv
  end.
Definition read_i64 (j : json) (key : bytes) (defv : Z) : outcome Z :=
  match json_find key j with
  | Some (JInteger n) | Some (JUnsigned n) => Ret (i64 n)
  | Some (JFloat d) => cast_i64 d
  | _ => Ret defv
  end.
Definition read_str (j : json) (key : bytes) : bytes :=
  match json_find key j with Some (JString s) => s | _ => [] end.

(** [std::isspace] *)
Definition is_space (c : Z) : bool := (c =? 32) || ((9 <=? c) && (c <=? 13)).

(** [std::stoi], [None] when it throws: white space, a sign, and digits up to the first
    other character. *)
Definition stoi (s : bytes) : option Z :=
  match drop_while is_space s with
  | c :: rest =>
      if c =? chr "+" then
        match rest with
        | c' :: _ => if is_digit c' then fst <$> from_chars (- 2 ^ 31) (2 ^ 31 - 1) rest else None
        | [] => None
        end
      else fst <$> from_chars (- 2 ^ 31) (2 ^ 31 - 1) (c :: rest)
  | [] => None
  end.

Definition read_script_id (cf : json) : outcome Z :=
  match json_find (str "scriptId") cf with
  | Some (JString s) => Ret (default 0 (stoi s))
  | Some ((JInteger _ | JUnsigned _ | JFloat _) as j) => get_int j
  | _ => Ret 0
  end.

Definition read_frame (jn : json) : outcome call_frame :=
  match json_find (str "callFrame") jn with
  | None => Ret no_frame
  | Some cf =>
      script ← read_script_id cf;
      line ← read_int cf (str "lineNumber") (-1);
      column ← read_int cf (str "columnNumber") (-1);
      Ret (MkFrame (read_str cf (str "functionName")) (read_str cf (str "url")) script line column)
  end.

(** Elements of an array member, none when it is missing or another value. *)
Definition array_member (j : json) (key : bytes) : list json :=
  match json_find key j with Some (JArray l) => l | _ => [] end.

Definition read_node (jn : json) : outcome profile_node :=
  i ← read_int jn (str "id") 0;
  f ← read_frame jn;
  hits ← read_int jn (str "hitCount") 0;
  cs ← mapM get_int (array_member jn (str "children"));
  Ret (MkNode i f (u32 hits) cs).

(** [push_back] of what is read from each item; an exception leaves what came before. *)
Fixpoint read_all {A} (f : json -> outcome A) (l : list json) (acc : list A) : list A * outcome unit :=
  match l with
  | [] => (acc, Ret tt)
  | j :: l' =>
      match f j with
      | Ret a => read_all f l' (acc ++ [a])
      | Throw w => (acc, Throw w)
      | Ub => (acc, Ub)
      | OutOfFuel => (acc, OutOfFuel)
      end
  end.

(** Sum and number of the positive ones; their mean or [dflt]. *)
Fixpoint positives (ds : list Z) (total counted : Z) : outcome (Z * Z) :=
  match ds with
  | [] => Ret (total, counted)
  | d :: ds' => if 0 <? d then total ← add_i64 total d; positives ds' total (counted + 1) else positives ds' total counted
  end.
Definition mean_delta (ds : list Z) : outcome Z :=
  '(total, counted) ← positives ds 0 0; Ret (if counted =? 0 then 1000 else total `quot` counted).

(** The value behind the text, into [out]: what is assigned before an exception stays. *)
Definition read_profile (j : json) : profile_data * outcome unit :=
  match j with
  | JObject m =>
      match lookup_name (str "nodes") m with
      | None => (no_profile, Throw "out_of_range")
      | Some jnodes =>
          let '(ns, r) := read_all read_node (json_items jnodes) [] in
          let out := set_nodes ns no_profile in
          match r with
          | Ret _ =>
              let '(ss, r) := read_all get_int (array_member j (str "samples")) [] in
              let out := set_samples ss out in
              match r with
              | Ret _ =>
                  let '(ds, r) := read_all get_i64 (array_member j (str "timeDeltas")) [] in
                  let out := set_deltas ds out in
                  match r with
                  | Ret _ =>
                      let r := s ← read_i64 j (str "startTime") 0; e ← read_i64 j (str "endTime") 0;
                               u ← mean_delta ds; Ret (s, e, u) in
                      match r with
                      | Ret (s, e, u) => (set_period u (set_times s e out), Ret tt)
                      | Throw w => (out, Throw w)
                      | Ub => (out, Ub)
                      | OutOfFuel => (out, OutOfFuel)
                      end
                  | _ => (out, r)
                  end
              | _ => (out, r)
              end
          | _ => (out, r)
          end
      end
  | _ => (no_profile, Throw "type_error")
  end.

(** [parse]: [json::parse], [None] when it throws.  The result: whether it succeeded,
    and [out] after the call. *)
Definition parse_v8_profile (parse : bytes -> option json) (jstr : bytes) (out : profile_data) : outcome (bool * profile_data) :=
  match parse (sanitize_v8_json jstr) with
  | None => Ret (false, out)
  | Some j =>
      match read_profile j with
      | (p, Ret _) => Ret (true, p)
      | (p, Throw _) => Ret (false, p)
      | (_, Ub) => Ub
      | (_, OutOfFuel) => OutOfFuel
      end
  end.

(** * Merging *)

Definition remap (offset i : Z) : outcome Z := add_int i offset.

Definition remap_node (offset : Z) (n : profile_node) : outcome profile_node :=
  i ← remap offset (node_id n);
  cs ← mapM (remap offset) (children n);
  Ret (MkNode i (frame n) (hit_count n) cs).

Definition flat_period (src : profile_data) : Z := if 0 <? sample_period_us src then sample_period_us src else 1000.

(** [out.nodes\[0\]] gets the header as a child, the header the first node of [src]. *)
Definition append_subtree (src : profile_data) (label : bytes) (out : profile_data) : outcome profile_data :=
  subtree_root_id ← add_int (i32 (zlen (nodes out))) 1;
  ns ← alter_at 0 (push_child subtree_root_id) (nodes out ++ [MkNode subtree_root_id (named label) 0 []]);
  match nodes src with
  | [] => Ret (set_nodes ns out)
  | front :: _ =>
      ms ← mapM (remap_node subtree_root_id) (nodes src);
      f ← remap subtree_root_id (node_id front);
      ns ← alter_at (subtree_root_id - 1) (push_child f) (ns ++ ms);
      ss ← mapM (remap subtree_root_id) (samples src);
      Ret (set_deltas (time_deltas out ++ replicate (length (samples src)) (flat_period src))
             (set_samples (samples out ++ ss) (set_nodes ns out)))
  end.

Definition merged_root : profile_node := MkNode 1 (named (str "(root)")) 0 [].

Definition sum_i64 (l : list Z) (acc : Z) : outcome Z := foldl (fun s d => s ← s; add_i64 s d) (Ret acc) l.

Definition merge_profiles (js native : profile_data) : outcome profile_data :=
  out ← append_subtree js (str "(js)") (set_nodes [merged_root] no_profile);
  out ← append_subtree native (str "(native)") out;
  e ← sum_i64 (time_deltas out) 0;
  Ret (set_period (Z.max (sample_period_us js) (sample_period_us native))
         (set_times 0 e (set_dropped (u64 (dropped_samples js + dropped_samples native)) out))).

(** * Writing: the value that [json::dump] prints *)

Definition cpuprofile_node (n : profile_node) : json :=
  JObject [(str "id", JInteger (node_id n));
           (str "callFrame", JObject [(str "functionName", JString (function_name (frame n)));
                                      (str "scriptId", JString (show_int (script_id (frame n))));
                                      (str "url", JString (url (frame n)));
                                      (str "lineNumber", JInteger (line_number (frame n)));
                                      (str "columnNumber", JInteger (column_number (frame n)))]);
           (str "hitCount", JUnsigned (hit_count n));
           (str "children", JArray (JInteger <$> children n))].

Definition serialize_cpuprofile (p : profile_data) : json :=
  JObject [(str "nodes", JArray (cpuprofile_node <$> nodes p));
           (str "samples", JArray (JInteger <$> samples p));
           (str "timeDeltas", JArray (JInteger <$> time_deltas p));
           (str "startTime", JInteger (start_time p));
           (str "endTime", JInteger (end_time p))].
