(* ===== verification/CpuProfileFacts.v ===== *)
(** What makes CPU profiles correct: the sampler's table is a tree whose paths spell the
    stacks it saw, merging keeps trees and samples, a written profile reads back, and the
    text given to the JSON parser holds no stray backslash. *)

From S2P Require Import Prelude Doubles Strings CpuProfile.

(** * Call trees *)

Inductive call_tree : Type := Tree (i : Z) (ts : list call_tree).

Definition root (t : call_tree) : Z := let 'Tree i _ := t in i.

(** The nodes of a tree with their children, each before those below it. *)
Fixpoint shape (t : call_tree) : list (Z * list Z) :=
  let 'Tree i ts := t in (i, root <$> ts) :: concat (map shape ts).
Definition tree_ids (t : call_tree) : list Z := (shape t).*1.

Section TreeInd.
Context (P : call_tree -> Prop) (step : forall i ts, Forall P ts -> P (Tree i ts)).

Fixpoint tree_induction (t : call_tree) : P t :=
  let 'Tree i ts := t in
  step i ts ((fix go l := match l return Forall P l with
                          | [] => Forall_nil_2 P
                          | t :: l => Forall_cons_2 P t l (tree_induction t) (go l)
                          end) ts).
End TreeInd.

Definition node_shape (n : profile_node) : Z * list Z := (node_id n, children n).

(** The table holds exactly the nodes of the tree, under distinct identifiers, its root
    first. *)
Record spells (T : list profile_node) (t : call_tree) : Prop := {
  sp_shape : node_shape <$> T ≡ₚ shape t;
  sp_ids : NoDup (node_id <$> T);
  sp_root : node_id <$> (list.head T) = Some (root t) }.

Lemma shapes_ids T : (node_shape <$> T).*1 = node_id <$> T.
Proof. rewrite <- list_fmap_compose. done. Qed.

Lemma spells_ids T t : spells T t -> node_id <$> T ≡ₚ tree_ids t.
Proof. intros [H _ _]. unfold tree_ids. by rewrite <- H, shapes_ids. Qed.

Lemma shapes_unfold i ts : shape (Tree i ts) = (i, root <$> ts) :: concat (shape <$> ts).
Proof. done. Qed.

Lemma root_in_ids t : root t ∈ tree_ids t.
Proof. destruct t. unfold tree_ids. simpl. left. Qed.

Lemma elem_of_concat_fmap {A B} (f : A -> list B) l x : x ∈ concat (f <$> l) <-> exists a, a ∈ l /\ x ∈ f a.
Proof.
  induction l as [|a l IH]; cbn; [split; [by intros ?%elem_of_nil|by intros (? & ?%elem_of_nil & _)]|].
  rewrite elem_of_app. change (list_fmap A (list B) f l) with (f <$> l). rewrite IH. set_solver.
Qed.

Lemma shape_elem i ts s : s ∈ shape (Tree i ts) <-> s = (i, root <$> ts) \/ exists t, t ∈ ts /\ s ∈ shape t.
Proof.
  rewrite shapes_unfold, elem_of_cons. apply or_iff_compat_l. rewrite elem_of_concat_fmap. naive_solver.
Qed.

Lemma shape_children t s c : s ∈ shape t -> c ∈ s.2 -> c ∈ tree_ids t.
Proof.
  unfold tree_ids. induction t as [i ts IH] using tree_induction. rewrite Forall_forall in IH. setoid_rewrite list_elem_of_fmap.
  intros [-> | (t & Ht & Hs)]%shape_elem Hc.
  - cbn in Hc. apply list_elem_of_fmap in Hc as (t & -> & Ht). pose proof (root_in_ids t) as (s & E & Hs)%list_elem_of_fmap.
    exists s. split; [done|]. apply shape_elem. eauto.
  - apply (IH t Ht Hs) in Hc as (s' & E & Hs')%list_elem_of_fmap. exists s'. split; [done|]. apply shape_elem. eauto.
Qed.

Lemma spells_children T t n c : spells T t -> n ∈ T -> c ∈ children n -> c ∈ node_id <$> T.
Proof.
  intros S Hn Hc. rewrite (spells_ids _ _ S). apply (shape_children _ (node_shape n)); [|done].
  rewrite <- (sp_shape _ _ S). by apply list_elem_of_fmap_2.
Qed.

(** ** Another node below one of the tree *)

Fixpoint add_child (p c : Z) (t : call_tree) : call_tree :=
  let 'Tree i ts := t in Tree i (map (add_child p c) ts ++ if i =? p then [Tree c []] else []).

Definition pushed (p c : Z) (s : Z * list Z) : Z * list Z := (s.1, s.2 ++ if s.1 =? p then [c] else []).

Lemma root_add_child p c t : root (add_child p c t) = root t.
Proof. by destruct t. Qed.

Lemma shape_add_child p c t :
  shape (add_child p c t) ≡ₚ (pushed p c <$> shape t) ++ ((fun _ => (c, [])) <$> filter (fun i => i = p) (tree_ids t)).
Proof.
  unfold tree_ids. induction t as [i ts IH] using tree_induction. cbn [add_child]. rewrite !shapes_unfold. cbn [fmap list_fmap fst].
  assert (R : root <$> (map (add_child p c) ts ++ if i =? p then [Tree c []] else []) = (root <$> ts) ++ if i =? p then [c] else []).
  { rewrite fmap_app. f_equal; [|by destruct (i =? p)]. change (map ?f ts) with (f <$> ts).
    rewrite <- list_fmap_compose. apply list_fmap_ext. intros. apply root_add_child. }
  rewrite R. unfold pushed at 1. cbn [fst snd]. apply Permutation_cons; [done|].
  rewrite fmap_app, concat_app. change (map ?f ts) with (f <$> ts).
  assert (C : concat (shape <$> (add_child p c <$> ts)) ≡ₚ
    (pushed p c <$> concat (shape <$> ts)) ++ ((fun _ => (c, [])) <$> filter (fun i => i = p) (concat (shape <$> ts)).*1)).
  { clear R. induction IH as [|t ts Ht IH IH']; [done|]. rewrite !fmap_cons. cbn [concat].
    rewrite Ht, IH', !fmap_app, filter_app, fmap_app. solve_Permutation. }
  rewrite C. destruct (Z.eqb_spec i p) as [->|Hi].
  - rewrite filter_cons_True by done. cbn. rewrite <- !app_assoc. f_equiv. solve_Permutation.
  - rewrite filter_cons_False by done. cbn. by rewrite app_nil_r.
Qed.

Lemma filter_once (l : list Z) p : NoDup l -> p ∈ l -> filter (fun i => i = p) l = [p].
Proof.
  induction 1 as [|x l Hx Hl IH]; [by intros ?%elem_of_nil|]. intros [-> | Hp]%elem_of_cons.
  - rewrite filter_cons_True by done. f_equal. clear - Hx. induction l as [|y l IH]; [done|].
    apply not_elem_of_cons in Hx as [H1 H2]. rewrite filter_cons_False by done. auto.
  - rewrite filter_cons_False by set_solver. auto.
Qed.

(** Pushing the new identifier at the node of the parent, and its node at the end. *)
Lemma spells_push T t p c f : spells T t -> p ∈ node_id <$> T -> c ∉ node_id <$> T ->
  spells ((fun n => if node_id n =? p then push_child c n else n) <$> T ++ [MkNode c f 0 []]) (add_child p c t).
Proof.
  intros S Hp Hc. pose proof (spells_ids _ _ S) as Hi. destruct S as [S1 S2 S3].
  set (g := fun n => if node_id n =? p then push_child c n else n).
  assert (Hcp : c <> p) by congruence.
  assert (Gid : forall n, node_id (g n) = node_id n) by (intros n; unfold g; by destruct (_ =? _)).
  assert (Gs : forall n, node_shape (g n) = pushed p c (node_shape n)).
  { intros n. unfold g, pushed, node_shape. cbn [fst snd]. destruct (_ =? _); cbn; [done|by rewrite app_nil_r]. }
  assert (Gl : node_id <$> (g <$> T ++ [MkNode c f 0 []]) = (node_id <$> T) ++ [c]).
  { rewrite <- list_fmap_compose, fmap_app. f_equal; [apply list_fmap_ext; intros; apply Gid|]. cbn. by rewrite Gid. }
  split.
  - rewrite shape_add_child, filter_once by (rewrite <- Hi; done).
    rewrite <- list_fmap_compose, fmap_app. apply Permutation_app.
    + rewrite <- S1, <- list_fmap_compose. apply reflexive_eq, list_fmap_ext. intros. apply Gs.
    + cbn. rewrite Gs. unfold pushed. cbn. by destruct (Z.eqb_spec c p).
  - rewrite Gl. apply NoDup_app. split; [done|]. split; [|apply NoDup_singleton]. intros x Hx ->%list_elem_of_singleton. done.
  - destruct T as [|n T]; [by apply elem_of_nil in Hp|]. cbn in S3 |- *. by rewrite Gid, root_add_child.
Qed.

(** * Paths of a table *)

(** The frames from below the root down to a node. *)
Inductive path (T : list profile_node) : Z -> list call_frame -> Prop :=
| path_root n : list.head T = Some n -> path T (node_id n) []
| path_step fs np n : path T (node_id np) fs -> np ∈ T -> n ∈ T -> node_id n ∈ children np ->
    path T (node_id n) (fs ++ [frame n]).

(** [T'] has what [T] has, and perhaps more nodes and children. *)
Record grows (T T' : list profile_node) : Prop := {
  gr_nodes : forall n, n ∈ T -> exists n', n' ∈ T' /\ node_id n' = node_id n /\ frame n' = frame n /\ children n ⊆ children n';
  gr_head : node_id <$> list.head T = node_id <$> list.head T' }.

#[export] Instance grows_preorder : PreOrder grows.
Proof.
  split.
  - intros T. split; [|done]. intros n Hn. by exists n.
  - intros T1 T2 T3 [H1 G1] [H2 G2]. split; [|congruence]. intros n (n1 & Hn1 & E1 & F1 & C1)%H1.
    destruct (H2 _ Hn1) as (n2 & Hn2 & E2 & F2 & C2). exists n2. repeat split; try congruence. set_solver.
Qed.

Lemma path_grows T T' i fs : grows T T' -> path T i fs -> path T' i fs.
Proof.
  intros [G H]. induction 1 as [n Hn|fs np n Hp IH Hnp Hn Hc].
  - rewrite Hn in H. cbn in H. destruct (list.head T') as [n'|] eqn:E; [|done]. cbn in H. injection H as ->. by constructor.
  - destruct (G np Hnp) as (np' & Hnp' & E1 & F1 & C1). destruct (G n Hn) as (n' & Hn' & E2 & F2 & C2).
    rewrite <- E2, <- F2. apply (path_step T' fs np'); [by rewrite E1|done..|]. rewrite E2. set_solver.
Qed.

(** ** Tables numbered by position *)

Definition numbered (T : list profile_node) : Prop := node_id <$> T = seqZ 1 (zlen T).

Lemma numbered_ids T i : numbered T -> i ∈ node_id <$> T <-> 1 <= i <= zlen T.
Proof. intros ->. rewrite elem_of_seqZ. lia. Qed.

Lemma numbered_lookup T k n : numbered T -> T !! k = Some n -> node_id n = 1 + Z.of_nat k.
Proof.
  intros H Hk. assert (E : (node_id <$> T) !! k = Some (node_id n)) by by rewrite list_lookup_fmap, Hk.
  rewrite H in E. apply lookup_seqZ in E. lia.
Qed.

Definition at_id (p : Z) (F : profile_node -> profile_node) (n : profile_node) : profile_node :=
  if node_id n =? p then F n else n.

Lemma alter_at_id T p F : numbered T -> 1 <= p <= zlen T -> alter_at (p - 1) F T = Ret (at_id p F <$> T).
Proof.
  intros HT Hp. unfold alter_at. destruct (T !! Z.to_nat (p - 1)) as [n|] eqn:E.
  2: { apply lookup_ge_None in E. lia. }
  rewrite (at_Ret T (p - 1) n) by (done || lia). rewrite bind_Ret. f_equal. apply list_eq. intros k.
  rewrite list_lookup_fmap. destruct (decide (k = Z.to_nat (p - 1))) as [->|Hk].
  - rewrite list_lookup_insert_eq by by eapply lookup_lt_Some. rewrite E. cbn. f_equal. unfold at_id.
    apply numbered_lookup in E; [|done]. by destruct (Z.eqb_spec (node_id n) p); [|lia].
  - rewrite list_lookup_insert_ne by done. destruct (T !! k) as [m|] eqn:Em; [|done]. cbn. f_equal. unfold at_id.
    apply numbered_lookup in Em; [|done]. by destruct (Z.eqb_spec (node_id m) p); [lia|].
Qed.

Lemma at_id_grows T p F : (forall n, node_id (F n) = node_id n /\ frame (F n) = frame n /\ children n ⊆ children (F n)) ->
  grows T (at_id p F <$> T).
Proof.
  intros HF. assert (G : forall n, node_id (at_id p F n) = node_id n /\ frame (at_id p F n) = frame n /\ children n ⊆ children (at_id p F n)).
  { intros n. unfold at_id. destruct (_ =? _); [apply HF|done]. }
  split.
  - intros n Hn. exists (at_id p F n). split; [|apply G]. by apply list_elem_of_fmap_2.
  - destruct T as [|n T]; [done|]. cbn. f_equal. symmetry. apply G.
Qed.

Lemma grows_app T T' : T <> [] -> grows T (T ++ T').
Proof.
  intros HT. split; [|by destruct T]. intros n Hn. exists n. repeat split; [|done]. apply elem_of_app. by left.
Qed.

(** * Integers *)

Lemma i32_small x : - 2 ^ 31 <= x < 2 ^ 31 -> i32 x = x.
Proof. intros. rewrite <- (to_signed_wrap 32 x) at 2 by lia. unfold to_signed. by rewrite wrap_wrap. Qed.

Lemma i64_small x : - 2 ^ 63 <= x < 2 ^ 63 -> i64 x = x.
Proof. intros. rewrite <- (to_signed_wrap 64 x) at 2 by lia. unfold to_signed. by rewrite wrap_wrap. Qed.

Lemma add_int_Ret a b : - 2 ^ 31 <= a + b < 2 ^ 31 -> add_int a b = Ret (a + b).
Proof. intros. unfold add_int. destruct (Z.leb_spec (- 2 ^ 31) (a + b)), (Z.ltb_spec (a + b) (2 ^ 31)); done || lia. Qed.

Lemma add_i64_Ret a b : - 2 ^ 63 <= a + b < 2 ^ 63 -> add_i64 a b = Ret (a + b).
Proof. intros. unfold add_i64. destruct (Z.leb_spec (- 2 ^ 63) (a + b)), (Z.ltb_spec (a + b) (2 ^ 63)); done || lia. Qed.

(** * The sampler *)

Section Sampler.
Context (dladdr : Z -> option (bytes * bytes)) (cxa_demangle : bytes -> option bytes).

Notation resolve := (resolve dladdr cxa_demangle).
Notation cached := (cached dladdr cxa_demangle).
Notation descend := (descend dladdr cxa_demangle).
Notation add_slot := (add_slot dladdr cxa_demangle).
Notation add_slots := (add_slots dladdr cxa_demangle).

(** File names hold no bar, which separates the parts of a key. *)
Definition plain_files : Prop := forall pc s f, dladdr pc = Some (s, f) -> chr "|" ∉ f.

Lemma resolve_named pc : function_name (resolve pc) <> [].
Proof. unfold CpuProfile.resolve. destruct (match dladdr pc with Some _ => _ | None => _ end). done. Qed.

Lemma resolve_plain pc : plain_files -> chr "|" ∉ url (resolve pc).
Proof.
  intros H. unfold CpuProfile.resolve. destruct (dladdr pc) as [[s f]|] eqn:E; cbn; [by eapply H|by apply not_elem_of_nil].
Qed.

Lemma resolve_ext pc pc' : function_name (resolve pc) = function_name (resolve pc') -> url (resolve pc) = url (resolve pc') ->
  resolve pc = resolve pc'.
Proof.
  unfold CpuProfile.resolve. destruct (match dladdr pc with Some _ => _ | None => _ end).
  destruct (match dladdr pc' with Some _ => _ | None => _ end). cbn. by intros -> ->.
Qed.

Lemma show_int_inj a b : 0 <= a < 10 ^ 20 -> 0 <= b < 10 ^ 20 -> show_int a = show_int b -> a = b.
Proof.
  intros Ha Hb E. pose proof (from_chars_show (-1) (10 ^ 20) a [] ltac:(lia) ltac:(lia) ltac:(lia) I) as H1.
  rewrite E, from_chars_show in H1 by (done || lia). congruence.
Qed.

Lemma show_int_no_bar a : 0 <= a < 10 ^ 20 -> chr "|" ∉ show_int a.
Proof.
  intros Ha. unfold show_int. destruct (Z.ltb_spec a 0); [lia|]. destruct (show_digits_spec 20 a) as (Hd & _); [lia..|].
  rewrite Forall_forall in Hd. intros Hin%Hd. done.
Qed.

Lemma bar_split (a b x y : bytes) : chr "|" ∉ a -> chr "|" ∉ b -> a ++ chr "|" :: x = b ++ chr "|" :: y -> a = b /\ x = y.
Proof.
  intros Ha Hb E. pose proof (find_char_app_r _ a x Ha) as H1. rewrite E, find_char_app_r in H1 by done.
  injection H1 as H1. apply app_inj_1 in E; [|lia]. destruct E as [-> E]. by injection E.
Qed.

Lemma bar_rsplit (a b x y : bytes) : chr "|" ∉ x -> chr "|" ∉ y -> a ++ chr "|" :: x = b ++ chr "|" :: y -> a = b /\ x = y.
Proof.
  intros Hx Hy E. pose proof (rfind_char_app _ a x Hx) as H1. rewrite E, rfind_char_app in H1 by done.
  injection H1 as H1. apply app_inj_1 in E; [|lia]. destruct E as [-> E]. by injection E.
Qed.

Lemma child_key_inj p q pc pc' : plain_files -> 0 <= p < 2 ^ 31 -> 0 <= q < 2 ^ 31 ->
  child_key p (resolve pc) = child_key q (resolve pc') -> p = q /\ resolve pc = resolve pc'.
Proof.
  intros H Hp Hq E. unfold child_key in E. cbn [app] in E.
  apply bar_split in E as [E1 E]; [|apply show_int_no_bar; lia..].
  apply bar_rsplit in E as [E2 E3]; [|by apply resolve_plain..].
  split; [apply show_int_inj; (done || lia)|by apply resolve_ext].
Qed.

(** ** The table while it grows *)

Record built (b : builder) : Prop := {
  bu_numbered : numbered (b_nodes b);
  bu_tree : exists t, spells (b_nodes b) t;
  bu_nonempty : b_nodes b <> [];
  bu_index : forall k i, child_index b !! k = Some i <->
    exists np n pc, np ∈ b_nodes b /\ n ∈ b_nodes b /\ node_id n = i /\ i ∈ children np /\ frame n = resolve pc /\
      k = child_key (node_id np) (frame n);
  bu_small : zlen (b_nodes b) < 2 ^ 31;
  bu_syms : forall pc f, sym_cache b !! pc = Some f -> f = resolve pc }.

Lemma cached_spec pc b : built b -> exists b', cached pc b = (resolve pc, b') /\ built b' /\ b_nodes b' = b_nodes b.
Proof.
  intros [H1 H2 H3 H4 H5 H6]. unfold CpuProfile.cached. destruct (sym_cache b !! pc) as [f|] eqn:E; cbn [default].
  - rewrite (H6 _ _ E). unfold id. pose proof (resolve_named pc). destruct (function_name (resolve pc)) eqn:F; [done|]. by exists b.
  - cbn. eexists. split; [done|]. split; [|done]. split; cbn; try done. intros pc' f [[<- <-]|[_ ?]]%lookup_insert_Some; auto.
Qed.

Lemma numbered_app T n : numbered T -> node_id n = zlen T + 1 -> numbered (T ++ [n]).
Proof.
  intros H E. unfold numbered. rewrite fmap_app, H, length_app. cbn. rewrite E.
  rewrite (Nat2Z.inj_add _ 1), seqZ_app by lia. f_equal. rewrite seqZ_cons by lia. f_equal. lia.
Qed.

Lemma numbered_at_id T p F : (forall n, node_id (F n) = node_id n) -> numbered T -> numbered (at_id p F <$> T).
Proof.
  intros HF H. unfold numbered. rewrite length_fmap, <- H, <- list_fmap_compose. apply list_fmap_ext. intros k n _. cbn.
  unfold at_id. by destruct (_ =? _).
Qed.

Lemma numbered_unique T n m : numbered T -> n ∈ T -> m ∈ T -> node_id n = node_id m -> n = m.
Proof.
  intros H [k Hk]%list_elem_of_lookup [l Hl]%list_elem_of_lookup E.
  pose proof (numbered_lookup _ _ _ H Hk). pose proof (numbered_lookup _ _ _ H Hl). assert (k = l) as -> by lia. congruence.
Qed.

Lemma at_id_elem T p F n : numbered T -> n ∈ T -> node_id n = p -> at_id p F <$> T = at_id p F <$> T /\ F n ∈ at_id p F <$> T.
Proof.
  intros H Hn <-. split; [done|]. apply list_elem_of_fmap. exists n. unfold at_id. by rewrite Z.eqb_refl.
Qed.

(** A new child [c], the next number, of [p]. *)
Definition extended (T : list profile_node) (p c : Z) (f : call_frame) : list profile_node :=
  at_id p (push_child c) <$> T ++ [MkNode c f 0 []].

Lemma extended_elem T p c f m : p <> c -> m ∈ extended T p c f <->
  m = MkNode c f 0 [] \/ exists n, n ∈ T /\ m = at_id p (push_child c) n.
Proof.
  intros Hpc. unfold extended. rewrite fmap_app, elem_of_app, list_elem_of_fmap. cbn. rewrite list_elem_of_singleton. unfold at_id at 2. cbn.
  destruct (Z.eqb_spec c p); [done|]. naive_solver.
Qed.

Lemma index_extended b np pc c : built b -> np ∈ b_nodes b -> (forall n, n ∈ b_nodes b -> node_id n <> c) ->
  child_index b !! child_key (node_id np) (resolve pc) = None ->
  forall k i, <[child_key (node_id np) (resolve pc) := c]> (child_index b) !! k = Some i <->
    exists np' n pc', np' ∈ extended (b_nodes b) (node_id np) c (resolve pc) /\ n ∈ extended (b_nodes b) (node_id np) c (resolve pc) /\
      node_id n = i /\ i ∈ children np' /\ frame n = resolve pc' /\ k = child_key (node_id np') (frame n).
Proof.
  intros [H1 [t H2] H3 H4 H5 H6] Hnp HT Hk k i. set (p := node_id np) in *. assert (Hpc : p <> c) by by apply HT.
  pose proof (fun m => extended_elem (b_nodes b) p c (resolve pc) m Hpc) as X. setoid_rewrite X. clear X. set (new := MkNode c (resolve pc) 0 []).
  assert (A : forall n, node_id (at_id p (push_child c) n) = node_id n /\ frame (at_id p (push_child c) n) = frame n /\
    children (at_id p (push_child c) n) = children n ++ if node_id n =? p then [c] else []).
  { intros n. unfold at_id. destruct (_ =? _); cbn; [done|by rewrite app_nil_r]. }
  split.
  - intros [[<- <-]|[Hne (np' & n & pc' & Hnp' & Hn & <- & Hc & Ef & ->)%H4]]%lookup_insert_Some.
    + exists (at_id p (push_child c) np), new, pc. destruct (A np) as (A1 & A2 & A3). rewrite A1, A3. fold p. rewrite Z.eqb_refl.
      repeat split; eauto. set_solver.
    + exists (at_id p (push_child c) np'), (at_id p (push_child c) n), pc'. destruct (A np') as (A1 & A2 & A3), (A n) as (B1 & B2 & B3).
      rewrite A1, A3, B1, B2. repeat split; eauto. set_solver.
  - intros (np' & n & pc' & [-> | (np0 & Hnp0 & ->)] & Hn & <- & Hc & Ef & ->); [by apply elem_of_nil in Hc|].
    destruct (A np0) as (A1 & A2 & A3). rewrite A3 in Hc. rewrite A1.
    apply elem_of_app in Hc as [Hc|Hc].
    + destruct Hn as [-> | (n0 & Hn0 & ->)].
      { exfalso. cbn in Hc. pose proof (spells_children _ _ _ _ H2 Hnp0 Hc) as (m & Em & Hm)%list_elem_of_fmap. by apply (HT m). }
      destruct (A n0) as (B1 & B2 & B3). rewrite B1, B2 in *.
      assert (G : child_index b !! child_key (node_id np0) (frame n0) = Some (node_id n0)) by (apply H4; eauto 10).
      rewrite lookup_insert_ne; [done|]. intros E. by rewrite E, G in Hk.
    + destruct (Z.eqb_spec (node_id np0) p) as [E|]; [|by apply elem_of_nil in Hc]. apply list_elem_of_singleton in Hc.
      destruct Hn as [-> | (n0 & Hn0 & ->)]; [|by destruct (A n0) as [-> _] in Hc; apply HT in Hc].
      cbn [node_id frame new] in *. rewrite E. apply lookup_insert_eq.
Qed.

Lemma get_child_spec b p pc : plain_files -> built b -> 1 <= p <= zlen (b_nodes b) -> zlen (b_nodes b) + 1 < 2 ^ 31 ->
  exists i b', get_child p (resolve pc) b = Ret (i, b') /\ built b' /\ grows (b_nodes b) (b_nodes b') /\
    zlen (b_nodes b') <= zlen (b_nodes b) + 1 /\
    (exists np n, np ∈ b_nodes b' /\ n ∈ b_nodes b' /\ node_id np = p /\ node_id n = i /\ i ∈ children np /\ frame n = resolve pc) /\
    (exists k, hit_count <$> b_nodes b' = (hit_count <$> b_nodes b) ++ replicate k 0).
Proof.
  intros Hpl B Hp Hs. pose proof B as [H1 [t H2] H3 H4 H5 H6]. unfold get_child.
  destruct (child_index b !! child_key p (resolve pc)) as [i|] eqn:E.
  - pose proof E as E'. apply H4 in E' as (np & n & pc' & Hnp & Hn & Ei & Hc & Ef & Ek). rewrite Ef in Ek.
    apply child_key_inj in Ek as [-> Er]; [|done|lia|].
    2: { apply (list_elem_of_fmap_2 node_id) in Hnp. apply numbered_ids in Hnp; [lia|done]. }
    exists i, b. split; [done|]. split; [done|]. split; [done|]. split; [lia|].
    split; [exists np, n; repeat split; congruence|exists 0%nat; by rewrite app_nil_r].
  - set (c := zlen (b_nodes b) + 1).
    assert (Ec : add_int (i32 (zlen (b_nodes b))) 1 = Ret c).
    { rewrite i32_small by lia. apply add_int_Ret. lia. }
    assert (Nn : numbered (b_nodes b ++ [MkNode c (resolve pc) 0 []])) by by apply numbered_app.
    rewrite Ec, bind_Ret, alter_at_id, bind_Ret by (done || rewrite length_app; cbn; lia).
    fold (extended (b_nodes b) p c (resolve pc)).
    assert (Hpc : p <> c) by lia. assert (Hcn : c ∉ node_id <$> b_nodes b) by (rewrite numbered_ids by done; lia).
    assert (Hpn : p ∈ node_id <$> b_nodes b) by (rewrite numbered_ids by done; lia).
    assert (HT : forall n, n ∈ b_nodes b -> node_id n <> c) by (intros n Hn <-; apply Hcn; by apply list_elem_of_fmap_2).
    apply list_elem_of_fmap in Hpn as (np & -> & Hnp).
    eexists c, _. split; [done|]. cbn [b_nodes]. split; [|split; [|split; [|split]]].
    + split; cbn [b_nodes child_index sym_cache]; [..|done].
      * apply numbered_at_id; done.
      * exists (add_child (node_id np) c t). apply spells_push; [done| |done]. by apply list_elem_of_fmap_2.
      * unfold extended. by destruct (b_nodes b).
      * by apply index_extended.
      * unfold extended. rewrite length_fmap, length_app. cbn. lia.
    + transitivity (b_nodes b ++ [MkNode c (resolve pc) 0 []]); [by apply grows_app|].
      apply at_id_grows. intros n. cbn. split; [done|]. split; [done|]. set_solver.
    + unfold extended. rewrite length_fmap, length_app. cbn. lia.
    + exists (at_id (node_id np) (push_child c) np), (MkNode c (resolve pc) 0 []). rewrite !extended_elem by done.
      split; [eauto|]. split; [eauto|]. unfold at_id. rewrite Z.eqb_refl. cbn. repeat split; try done. set_solver.
    + exists 1%nat. unfold extended. rewrite <- list_fmap_compose, fmap_app. cbn. f_equal; [|by unfold at_id; destruct (_ =? _)].
      apply list_fmap_ext. intros k n _. cbn. unfold at_id. by destruct (_ =? _).
Qed.

Lemma path_in T i fs : path T i fs -> i ∈ node_id <$> T.
Proof.
  intros [n Hn|? np n _ _ Hn _]; apply list_elem_of_fmap_2; [|done]. destruct T; [done|]. injection Hn as ->. left.
Qed.

Lemma descend_spec pcs : forall cur b fs, plain_files -> built b -> path (b_nodes b) cur fs ->
  zlen (b_nodes b) + zlen pcs < 2 ^ 31 ->
  exists i b', descend pcs cur b = Ret (i, b') /\ built b' /\ grows (b_nodes b) (b_nodes b') /\
    zlen (b_nodes b') <= zlen (b_nodes b) + zlen pcs /\ path (b_nodes b') i (fs ++ (resolve <$> pcs)) /\
    (exists k, hit_count <$> b_nodes b' = (hit_count <$> b_nodes b) ++ replicate k 0).
Proof.
  induction pcs as [|pc pcs IH]; intros cur b fs Hpl B Hp Hs; cbn [CpuProfile.descend].
  - exists cur, b. split; [done|]. split; [done|]. split; [done|]. split; [cbn; lia|]. cbn. rewrite app_nil_r.
    split; [done|]. exists 0%nat. by rewrite app_nil_r.
  - destruct (cached_spec pc b B) as (b1 & E1 & B1 & N1). rewrite E1. cbn [length] in Hs.
    pose proof (path_in _ _ _ Hp) as Hr. apply numbered_ids in Hr; [|apply B].
    destruct (get_child_spec b1 cur pc Hpl B1) as (i & b2 & E2 & B2 & G2 & L2 & (np & n & Hnp & Hn & <- & <- & Hc & Hf) & k & K2); [rewrite N1; lia..|].
    rewrite E2, bind_Ret. rewrite N1 in *.
    destruct (IH (node_id n) b2 (fs ++ [resolve pc]) Hpl B2) as (j & b3 & E3 & B3 & G3 & L3 & P3 & k' & K3); [|lia|].
    { rewrite <- Hf. apply (path_step _ _ np); [|done..]. by apply (path_grows (b_nodes b)). }
    exists j, b3. split; [done|]. split; [done|]. split; [by transitivity (b_nodes b2)|]. split; [cbn [length]; lia|].
    rewrite <- app_assoc in P3. split; [done|]. exists (k + k')%nat. rewrite K3, K2, replicate_add. by rewrite app_assoc.
Qed.

(** ** Counting *)

Definition count (i : Z) (ss : list Z) : Z := zlen (filter (fun s => s = i) ss).

Lemma count_app i ss s : count i (ss ++ [s]) = count i ss + if s =? i then 1 else 0.
Proof.
  unfold count. rewrite filter_app, length_app. destruct (Z.eqb_spec s i).
  - rewrite filter_cons_True by done. cbn. lia.
  - rewrite filter_cons_False by done. cbn. lia.
Qed.

Lemma count_bound i ss : 0 <= count i ss <= zlen ss.
Proof. unfold count. pose proof (length_filter (fun s => s = i) ss). lia. Qed.

Lemma count_absent i ss : i ∉ ss -> count i ss = 0.
Proof.
  intros H. unfold count. induction ss as [|s ss IH]; [done|]. apply not_elem_of_cons in H as [H1 H2].
  rewrite filter_cons_False by done. auto.
Qed.

Definition counted (T : list profile_node) (ss : list Z) : Prop :=
  forall n, n ∈ T -> hit_count n = count (node_id n) ss.

Lemma counted_new T T' ss k : numbered T -> numbered T' -> ss ⊆ node_id <$> T -> counted T ss ->
  hit_count <$> T' = (hit_count <$> T) ++ replicate k 0 -> counted T' ss.
Proof.
  intros HT HT' Hss C E n [j Hj]%list_elem_of_lookup. pose proof (numbered_lookup _ _ _ HT' Hj) as Hid.
  assert (L : (hit_count <$> T') !! j = Some (hit_count n)) by by rewrite list_lookup_fmap, Hj.
  rewrite E in L. apply lookup_app_Some in L as [L|[L1 L2]].
  - rewrite list_lookup_fmap in L. apply fmap_Some in L as (m & Hm & ->). rewrite Hid, <- (numbered_lookup _ _ _ HT Hm).
    apply C. by eapply list_elem_of_lookup_2.
  - rewrite length_fmap in L1. apply lookup_replicate in L2 as [-> _]. symmetry. apply count_absent.
    intros Hin. apply Hss in Hin. apply numbered_ids in Hin; [lia|done].
Qed.

Lemma counted_hit T ss cur : numbered T -> counted T ss -> zlen ss + 1 < 2 ^ 32 -> counted (at_id cur hit <$> T) (ss ++ [cur]).
Proof.
  intros HT C Hl n (m & -> & Hm)%list_elem_of_fmap. rewrite count_app. unfold at_id.
  pose proof (C m Hm) as E. pose proof (count_bound (node_id m) ss). rewrite (Z.eqb_sym cur).
  destruct (Z.eqb_spec (node_id m) cur) as [Ei|Ei]; cbn [hit hit_count node_id].
  - rewrite E, u32_small by lia. destruct (Z.eqb_spec (node_id m) cur); [lia|done].
  - destruct (Z.eqb_spec (node_id m) cur); [done|lia].
Qed.

Lemma spells_hit T t cur : spells T t -> spells (at_id cur hit <$> T) t.
Proof.
  intros [S1 S2 S3]. assert (A : forall n, node_shape (at_id cur hit n) = node_shape n) by (intros n; unfold at_id; by destruct (_ =? _)).
  assert (I : node_id <$> (at_id cur hit <$> T) = node_id <$> T).
  { rewrite <- list_fmap_compose. apply list_fmap_ext. intros k n _. apply (f_equal fst (A n)). }
  split.
  - rewrite <- S1, <- list_fmap_compose. apply reflexive_eq, list_fmap_ext. intros. apply A.
  - by rewrite I.
  - rewrite <- S3. destruct T; [done|]. cbn. f_equal. apply (f_equal fst (A p)).
Qed.

Lemma built_hit b cur : built b -> built (MkBuilder (at_id cur hit <$> b_nodes b) (child_index b) (sym_cache b)).
Proof.
  intros [H1 [t H2] H3 H4 H5 H6]. split; cbn [b_nodes child_index sym_cache].
  - by apply numbered_at_id.
  - exists t. by apply spells_hit.
  - by destruct (b_nodes b).
  - intros k i. rewrite H4.
    assert (A : forall n, node_id (at_id cur hit n) = node_id n /\ frame (at_id cur hit n) = frame n /\ children (at_id cur hit n) = children n)
      by (intros n; unfold at_id; by destruct (_ =? _)).
    split.
    + intros (np & n & pc & Hnp & Hn & E1 & Hc & E2 & E3). exists (at_id cur hit np), (at_id cur hit n), pc.
      destruct (A np) as (-> & _ & ->), (A n) as (-> & -> & _). repeat split; try done; by apply list_elem_of_fmap_2.
    + intros (np' & n' & pc & (np & -> & Hnp)%list_elem_of_fmap & (n & -> & Hn)%list_elem_of_fmap & E1 & Hc & E2 & E3).
      destruct (A np) as (B1 & _ & B2), (A n) as (B3 & B4 & _). rewrite B1, B2, B3, B4 in *. eauto 10.
  - by rewrite length_fmap.
  - done.
Qed.

(** ** Slots *)

Definition long (s : sample_slot) : bool := (kHandlerSkip <? length (frames s))%nat.

(** The frames of the recorded stacks, the outermost first. *)
Definition spelled (l : list sample_slot) : list (list call_frame) := (fun s => resolve <$> walked s) <$> filter (fun s => long s = true) l.

Definition depth_sum (l : list sample_slot) : Z := foldr (fun s a => zlen (frames s) + a) 0 l.

Lemma depth_sum_nonneg l : 0 <= depth_sum l.
Proof. unfold depth_sum. induction l as [|s l IH]; cbn [foldr]; lia. Qed.

Record sampled (period : Z) (out : profile_data) (b : builder) (stacks : list (list call_frame)) : Prop := {
  sa_built : built b;
  sa_paths : Forall2 (path (b_nodes b)) (samples out) stacks;
  sa_counted : counted (b_nodes b) (samples out);
  sa_deltas : time_deltas out = replicate (length (samples out)) period }.

Lemma sampled_ids period out b stacks : sampled period out b stacks -> samples out ⊆ node_id <$> b_nodes b.
Proof. intros [_ H _ _] x Hx. induction H as [|i fs ss l Hp H IH]; [by apply elem_of_nil in Hx|]. apply elem_of_cons in Hx as [-> |]; eauto using path_in. Qed.

Lemma spelled_cons s l : spelled (s :: l) = (if long s then [resolve <$> walked s] else []) ++ spelled l.
Proof. unfold spelled. rewrite filter_cons. destruct (long s); [by rewrite decide_True|by rewrite decide_False]. Qed.

Lemma length_walked s : (length (walked s) <= length (frames s))%nat.
Proof. unfold walked. rewrite length_reverse, length_drop. lia. Qed.

Lemma path_to_root b : built b -> path (b_nodes b) 1 [].
Proof.
  intros [H1 _ H3 _ _ _]. destruct (b_nodes b) as [|n T] eqn:E; [done|].
  assert (En : node_id n = 1) by by apply (numbered_lookup (n :: T) 0 n H1). rewrite <- En. by constructor.
Qed.

Lemma add_slot_spec period i s out b stacks : plain_files -> sampled period out b stacks ->
  zlen (b_nodes b) + zlen (frames s) < 2 ^ 31 -> zlen (samples out) + 1 < 2 ^ 32 ->
  exists out' b', add_slot period i s (out, b) = Ret (out', b') /\
    sampled period out' b' (stacks ++ if long s then [resolve <$> walked s] else []) /\
    zlen (b_nodes b') <= zlen (b_nodes b) + zlen (frames s) /\ zlen (samples out') <= zlen (samples out) + 1 /\
    dropped_samples out' = dropped_samples out /\ sample_period_us out' = sample_period_us out.
Proof.
  intros Hpl S Hn Hs. pose proof S as [B P C D]. unfold CpuProfile.add_slot, long. rewrite Nat.ltb_antisym.
  destruct (length (frames s) <=? kHandlerSkip)%nat; cbn [negb].
  { exists out, b. rewrite app_nil_r. split; [done|]. split; [done|]. split; [lia|]. split; [lia|done]. }
  pose proof (length_walked s).
  destruct (descend_spec (walked s) 1 b [] Hpl B (path_to_root b B)) as (cur & b1 & E1 & B1 & G1 & L1 & P1 & k & K1); [lia|].
  rewrite E1, bind_Ret. pose proof (path_in _ _ _ P1) as Hc. apply numbered_ids in Hc; [|apply B1].
  rewrite alter_at_id, bind_Ret by (done || apply B1).
  eexists _, _. split; [done|]. split; [|cbn; rewrite length_fmap, length_app; cbn; split; [lia|split; [lia|done]]].
  assert (G2 : grows (b_nodes b1) (at_id cur hit <$> b_nodes b1)) by by apply at_id_grows.
  split; cbn [b_nodes samples time_deltas set_samples set_deltas set_times].
  - by apply built_hit.
  - apply Forall2_app; [|constructor; [by apply (path_grows _ _ _ _ G2)|constructor]].
    eapply Forall2_impl; [exact P|]. intros x fs Hx. by apply (path_grows _ _ _ _ G2), (path_grows _ _ _ _ G1).
  - apply counted_hit; [apply B1| |done]. eapply (counted_new (b_nodes b)); [apply B|apply B1|by eapply sampled_ids|done|done].
  - rewrite D, length_app, replicate_add. done.
Qed.

Lemma add_slots_spec period l : forall i out b stacks, plain_files -> sampled period out b stacks ->
  zlen (b_nodes b) + depth_sum l < 2 ^ 31 -> zlen (samples out) + zlen l < 2 ^ 32 ->
  exists out' b', add_slots period i l (out, b) = Ret (out', b') /\ sampled period out' b' (stacks ++ spelled l) /\
    dropped_samples out' = dropped_samples out /\ sample_period_us out' = sample_period_us out.
Proof.
  induction l as [|s l IH]; intros i out b stacks Hpl S Hn Hs; cbn [CpuProfile.add_slots].
  - exists out, b. by rewrite app_nil_r.
  - pose proof (depth_sum_nonneg l). cbn [depth_sum foldr length] in Hn, Hs. fold (depth_sum l) in Hn.
    destruct (add_slot_spec period i s out b stacks Hpl S) as (out1 & b1 & E1 & S1 & L1 & M1 & D1 & U1); [lia..|].
    rewrite E1, bind_Ret. destruct (IH (Datatypes.S i) out1 b1 _ Hpl S1) as (out2 & b2 & E2 & S2 & D2 & U2); [lia..|].
    exists out2, b2. rewrite <- app_assoc, <- spelled_cons in S2. split; [done|]. split; [done|]. split; congruence.
Qed.

(** ** The ring *)

Definition recorded (l : list (Z * list Z)) : list sample_slot := (fun s => MkSlot s.1 (take kMaxFrames s.2)) <$> l.

(** A ring of [m] slots that was started and then got signals. *)
Definition ring_after (m : nat) (l : list (Z * list Z)) : sampler_ring :=
  MkRing (take m (recorded l) ++ replicate (m - length l) (MkSlot 0 [])) (Z.of_nat m) (zlen l) (Z.max 0 (zlen l - Z.of_nat m)) true.

Lemma signals_spec m l : zlen l < 2 ^ 64 -> signals l (ring_after m []) = ring_after m l.
Proof.
  unfold signals. induction l as [|[t stack] l IH] using rev_ind; intros Hl; [done|].
  rewrite length_app in Hl. cbn in Hl. rewrite foldl_app, IH by lia. unfold sigprof_handler, ring_after. cbn [foldl active head cap slots dropped fst snd].
  rewrite length_app. cbn [length]. rewrite !u64_small by lia. unfold recorded. rewrite fmap_app. cbn [fmap list_fmap].
  set (R := _ <$> l). assert (LR : length R = length l) by apply length_fmap.
  destruct (Z.ltb_spec (zlen l) (Z.of_nat m)).
  - rewrite (take_ge R), (take_ge (R ++ _)) by (rewrite ?length_app, LR; cbn [length]; lia). rewrite Nat2Z.id.
    destruct (m - length l)%nat as [|k] eqn:Ek; [lia|]. replace (m - (length l + 1))%nat with k by lia. cbn [replicate].
    rewrite insert_app_r_alt by lia. rewrite LR, Nat.sub_diag. cbn. rewrite <- app_assoc. f_equal; lia.
  - rewrite take_app_le by lia. replace (m - (length l + 1))%nat with 0%nat by lia. replace (m - length l)%nat with 0%nat by lia.
    f_equal; lia.
Qed.

Lemma sampled_start period out : samples out = [] -> time_deltas out = [] -> sampled period out (MkBuilder [native_root] ∅ ∅) [].
Proof.
  intros Es Ed. split; rewrite ?Es, ?Ed; [..|done].
  - split; cbn [b_nodes child_index sym_cache]; try done.
    + exists (Tree 1 []). split; [done| |done]. apply NoDup_singleton.
    + intros k i. rewrite lookup_empty. split; [done|]. intros (np & n & pc & ->%list_elem_of_singleton & _ & _ & Hc & _). by apply elem_of_nil in Hc.
  - constructor.
  - intros n ->%list_elem_of_singleton. done.
Qed.

(** C33. From start to stop the native sampler keeps the first [max_samples] stacks that
    signals interrupt: the profile is a tree numbered from 1 in which the samples, in
    order, are the nodes whose paths spell the recorded stacks outermost first (without
    the two frames of the handler, and without stacks of nothing else), every node is hit
    as often as it is sampled, every sample has the same period, and the signals that
    found the ring full are counted. *)
Theorem sampler_spells_stacks hz max_samples l p r :
  let m := if max_samples =? 0 then 65536 else max_samples in
  let kept := take (Z.to_nat m) (recorded l) in
  plain_files -> running p = false -> active r = false -> 0 <= max_samples -> zlen l < 2 ^ 32 -> 1 + depth_sum kept < 2 ^ 31 ->
  exists p1 r1 out p2 r2 t,
    start hz max_samples true p r = (None, p1, r1) /\
    stop dladdr cxa_demangle p1 (signals l r1) = Ret (out, p2, r2) /\ running p2 = false /\ active r2 = false /\
    spells (nodes out) t /\ numbered (nodes out) /\ root t = 1 /\
    Forall2 (path (nodes out)) (samples out) (spelled kept) /\ counted (nodes out) (samples out) /\
    time_deltas out = replicate (length (samples out)) (sample_period_us out) /\ dropped_samples out = Z.max 0 (zlen l - m).
Proof.
  intros m kept Hpl Hp Hr Hm Hl Hd. unfold start. rewrite Hp, Hr. fold m. set (hz' := if hz <=? 0 then 1000 else hz).
  assert (Hm' : 0 <= m) by (subst m; destruct (max_samples =? 0); lia).
  assert (Er : MkRing (replicate (Z.to_nat m) (MkSlot 0 [])) m 0 0 true = ring_after (Z.to_nat m) []).
  { unfold ring_after. cbn. rewrite take_nil, Nat.sub_0_r, Z2Nat.id by done. cbn. f_equal. lia. }
  rewrite Er. enough (exists out p2 r2 t, stop dladdr cxa_demangle (MkProfiler true hz') (signals l (ring_after (Z.to_nat m) [])) = Ret (out, p2, r2) /\
    running p2 = false /\ active r2 = false /\
    spells (nodes out) t /\ numbered (nodes out) /\ root t = 1 /\
    Forall2 (path (nodes out)) (samples out) (spelled kept) /\ counted (nodes out) (samples out) /\
    time_deltas out = replicate (length (samples out)) (sample_period_us out) /\ dropped_samples out = Z.max 0 (zlen l - m))
    as (out & p2 & r2 & t & H) by (exists (MkProfiler true hz'), (ring_after (Z.to_nat m) []), out, p2, r2, t; done).
  rewrite signals_spec by lia. unfold stop. cbn [running negb cap head slots ring_after hz_ dropped]. rewrite Z2Nat.id by done.
  set (period := if 0 <? hz' then _ else _).
  assert (Ek : ztake (if m <? zlen l then m else zlen l) (take (Z.to_nat m) (recorded l) ++ replicate (Z.to_nat m - length l) (MkSlot 0 [])) = kept).
  { unfold ztake, kept. assert (LR : length (recorded l) = length l) by apply length_fmap. destruct (Z.ltb_spec m (zlen l)).
    - rewrite take_app_le by (rewrite length_take; lia). apply take_ge. rewrite length_take. lia.
    - rewrite (take_ge (recorded l)) by lia. rewrite take_app_le by lia. apply take_ge. lia. }
  rewrite Ek. set (out0 := set_period period _).
  assert (Lk : (length kept <= length l)%nat) by (unfold kept; rewrite length_take; unfold recorded; rewrite length_fmap; lia).
  destruct (add_slots_spec period kept 0 out0 _ [] Hpl (sampled_start period out0 eq_refl eq_refl)) as (out & b & E & S & D & U); [cbn; lia..|].
  rewrite E, bind_Ret. destruct S as [B P C T]. destruct B as [H1 [t H2] H3 _ _ _].
  eexists _, _, _, t. split; [done|]. cbn [running active nodes samples set_nodes time_deltas sample_period_us dropped_samples].
  split; [done|]. split; [done|]. split; [done|]. split; [done|]. split; [|split; [done|split; [done|split]]].
  - destruct H2 as [_ _ H2]. destruct (b_nodes b) as [|n T'] eqn:En; [done|]. cbn in H2. injection H2 as <-.
    by apply (numbered_lookup (n :: T') 0 n H1).
  - by rewrite T, U.
  - by rewrite D.
Qed.
End Sampler.

(** * Merging *)

Definition shifted (k : Z) (n : profile_node) : profile_node :=
  MkNode (node_id n + k) (frame n) (hit_count n) ((fun c => c + k) <$> children n).

Fixpoint shift (k : Z) (t : call_tree) : call_tree := let 'Tree i ts := t in Tree (i + k) (map (shift k) ts).

Lemma root_shift k t : root (shift k t) = root t + k.
Proof. by destruct t. Qed.

Definition shift_shape (k : Z) (s : Z * list Z) : Z * list Z := (s.1 + k, (fun c => c + k) <$> s.2).

Lemma shape_shift k t : shape (shift k t) = shift_shape k <$> shape t.
Proof.
  induction t as [i ts IH] using tree_induction. cbn [shift]. rewrite !shapes_unfold, fmap_cons. f_equal.
  - unfold shift_shape. cbn [fst snd]. f_equal. change (map ?f ts) with (f <$> ts). rewrite <- !list_fmap_compose. apply list_fmap_ext. intros. apply root_shift.
  - induction IH as [|t ts Ht IH IH']; [done|]. cbn [map]. rewrite !fmap_cons. cbn [concat]. rewrite fmap_app, Ht, <- IH'. done.
Qed.

(** A profile of the merger: a table that spells a tree with the identifiers from 1 on,
    and samples among them, or nothing. *)
Record source (p : profile_data) (t : option call_tree) : Prop := {
  so_tree : match t with Some t => spells (nodes p) t | None => nodes p = [] end;
  so_ids : node_id <$> nodes p ≡ₚ seqZ 1 (zlen (nodes p));
  so_samples : samples p ⊆ node_id <$> nodes p }.

Lemma source_ids p t i : source p t -> i ∈ node_id <$> nodes p -> 1 <= i <= zlen (nodes p).
Proof. intros S Hi. rewrite (so_ids _ _ S), elem_of_seqZ in Hi. lia. Qed.

Lemma source_children p t n c : source p t -> n ∈ nodes p -> c ∈ children n -> c ∈ node_id <$> nodes p.
Proof.
  intros S Hn Hc. destruct t as [t|]; [by eapply spells_children; [apply (so_tree _ _ S)|..]|].
  rewrite (so_tree _ _ S : nodes p = []) in Hn. by apply elem_of_nil in Hn.
Qed.

(** The header of a merged profile gets the first node of its part. *)
Definition first_id (k : Z) (p : profile_data) : list Z := match nodes p with [] => [] | n :: _ => [node_id n + k] end.

Lemma mapM_Ret {A B} (f : A -> outcome B) (g : A -> B) l : (forall x, x ∈ l -> f x = Ret (g x)) -> mapM f l = Ret (g <$> l).
Proof.
  induction l as [|x l IH]; intros H; [done|]. cbn. rewrite (H x) by left. cbn. rewrite IH by (intros; apply H; by right). done.
Qed.

Lemma remap_Ret k i n : 1 <= i <= n -> 0 <= k -> k + n < 2 ^ 31 -> remap k i = Ret (i + k).
Proof. intros. apply add_int_Ret. lia. Qed.

Lemma alter_at_0 {A} (f : A -> A) x l : alter_at 0 f (x :: l) = Ret (f x :: l).
Proof. done. Qed.

Lemma alter_at_mid {A} (f : A -> A) l x l' i : i = zlen l -> alter_at i f (l ++ x :: l') = Ret (l ++ f x :: l').
Proof.
  intros ->. unfold alter_at. rewrite at_app_mid by done. rewrite bind_Ret, Nat2Z.id. f_equal.
  rewrite insert_app_r_alt by lia. by rewrite Nat.sub_diag.
Qed.

Lemma append_subtree_spec src t label out n0 rest : source src t -> nodes out = n0 :: rest ->
  let h := zlen (nodes out) + 1 in h + zlen (nodes src) < 2 ^ 31 ->
  append_subtree src label out =
    Ret (set_deltas (time_deltas out ++ replicate (length (samples src)) (flat_period src))
          (set_samples (samples out ++ ((fun s => s + h) <$> samples src))
            (set_nodes (push_child h n0 :: rest ++ MkNode h (named label) 0 (first_id h src) :: (shifted h <$> nodes src)) out))).
Proof.
  intros S En h Hs. unfold append_subtree. rewrite i32_small, add_int_Ret, bind_Ret by lia. fold h. rewrite En at 1. cbn [app].
  rewrite alter_at_0, bind_Ret.
  assert (I : forall i, i ∈ node_id <$> nodes src -> remap h i = Ret (i + h)).
  { intros i Hi. apply (remap_Ret _ _ (zlen (nodes src))); [by eapply source_ids|lia..]. }
  assert (M1 : mapM (remap_node h) (nodes src) = Ret (shifted h <$> nodes src)).
  { apply mapM_Ret. intros n Hn. unfold remap_node. rewrite I, bind_Ret by by apply list_elem_of_fmap_2.
    rewrite (mapM_Ret _ (fun c => c + h)); [done|]. intros c Hc. apply I. by eapply source_children. }
  assert (M2 : mapM (remap h) (samples src) = Ret ((fun s => s + h) <$> samples src)).
  { apply mapM_Ret. intros s Hin. apply I. by eapply so_samples. }
  unfold first_id. destruct (nodes src) as [|front ns] eqn:Es.
  - pose proof (so_samples _ _ S) as Hn. rewrite Es in Hn. destruct (samples src) as [|s ss]; [|exfalso; by apply (not_elem_of_nil s), Hn; left].
    cbn. rewrite !app_nil_r. by destruct out.
  - rewrite M1, bind_Ret, I, bind_Ret by left. cbn [app]. rewrite <- app_assoc. cbn [app].
    rewrite app_comm_cons, alter_at_mid, bind_Ret by (unfold h; rewrite En; cbn [length]; lia). by rewrite M2, bind_Ret.
Qed.

Definition header (h : Z) (label : bytes) (p : profile_data) : list profile_node :=
  MkNode h (named label) 0 (first_id h p) :: (shifted h <$> nodes p).
Definition header_tree (h : Z) (t : option call_tree) : call_tree := 
  Tree h (match t with Some t => [shift h t] | None => [] end).

Lemma header_shape h label p t : source p t -> node_shape <$> header h label p ≡ₚ shape (header_tree h t).
Proof.
  intros [H _ _]. unfold header, header_tree. rewrite shapes_unfold, fmap_cons.
  assert (E : forall l, node_shape <$> (shifted h <$> l) = shift_shape h <$> (node_shape <$> l)) by (intros l; by rewrite <- !list_fmap_compose).
  rewrite E. destruct t as [t|]; cbn [fmap list_fmap concat].
  - rewrite app_nil_r, shape_shift, (sp_shape _ _ H). apply Permutation_cons; [|done]. unfold node_shape. cbn. f_equal.
    pose proof (sp_root _ _ H) as Hr. unfold first_id. destruct (nodes p) as [|n T]; [done|]. cbn in Hr. injection Hr as ->. by rewrite root_shift.
  - rewrite H. unfold node_shape, first_id. cbn. by rewrite H.
Qed.

Lemma header_ids h label p t : source p t -> node_id <$> header h label p ≡ₚ seqZ h (zlen (nodes p) + 1).
Proof.
  intros [_ H _]. unfold header. rewrite fmap_cons, seqZ_cons by lia. cbn [node_id]. apply Permutation_cons; [done|].
  rewrite <- list_fmap_compose. change (node_id ∘ shifted h) with ((fun i => i + h) ∘ node_id). rewrite list_fmap_compose, H.
  replace (Z.succ h) with (h + 1) by lia. replace (Z.pred (zlen (nodes p) + 1)) with (zlen (nodes p)) by lia. rewrite <- fmap_add_seqZ.
  apply reflexive_eq, list_fmap_ext. intros. lia.
Qed.

Definition merged_nodes (js native : profile_data) : list profile_node :=
  let h := zlen (nodes js) + 3 in
  MkNode 1 (named (str "(root)")) 0 [2; h] :: header 2 (str "(js)") js ++ header h (str "(native)") native.
Definition merged_tree (js native : profile_data) (tj tn : option call_tree) : call_tree :=
  Tree 1 [header_tree 2 tj; header_tree (zlen (nodes js) + 3) tn].

Lemma merged_ids js native tj tn : source js tj -> source native tn ->
  node_id <$> merged_nodes js native ≡ₚ seqZ 1 (zlen (merged_nodes js native)).
Proof.
  intros Sj Sn. unfold merged_nodes. rewrite fmap_cons, fmap_app, (header_ids _ _ _ _ Sj), (header_ids _ _ _ _ Sn).
  cbn [node_id length]. rewrite length_app. unfold header. cbn [length]. rewrite !length_fmap, (seqZ_cons 1) by lia. apply Permutation_cons; [done|].
  apply reflexive_eq. symmetry. replace (Z.pred _) with ((zlen (nodes js) + 1) + (zlen (nodes native) + 1)) by lia.
  rewrite seqZ_app by lia. do 2 f_equal; lia.
Qed.

Lemma merged_spells js native tj tn : source js tj -> source native tn ->
  spells (merged_nodes js native) (merged_tree js native tj tn).
Proof.
  intros Sj Sn. split.
  - unfold merged_nodes, merged_tree. rewrite shapes_unfold, fmap_cons, fmap_app, (header_shape _ _ _ _ Sj), (header_shape _ _ _ _ Sn).
    cbn [fmap list_fmap concat]. by rewrite app_nil_r.
  - rewrite merged_ids by done. apply NoDup_seqZ.
  - done.
Qed.

Lemma sum_i64_spec l : forall acc, Forall (fun d => 0 <= d) l -> 0 <= acc -> acc + foldr Z.add 0 l < 2 ^ 63 ->
  sum_i64 l acc = Ret (acc + foldr Z.add 0 l).
Proof.
  unfold sum_i64. induction l as [|d l IH]; intros acc Hl Ha Hs; [by rewrite Z.add_0_r|].
  apply Forall_cons in Hl as [Hd Hl]. cbn [foldr] in *.
  assert (0 <= foldr Z.add 0 l) by (clear - Hl; induction Hl; cbn [foldr]; lia).
  cbn [foldl]. rewrite bind_Ret, add_i64_Ret, IH by (done || lia). f_equal. lia.
Qed.

Lemma sum_replicate k d : foldr Z.add 0 (replicate k d) = Z.of_nat k * d.
Proof. induction k as [|k IH]; [done|]. cbn [replicate foldr]. rewrite IH. lia. Qed.

Lemma sum_app l l' : foldr Z.add 0 (l ++ l') = foldr Z.add 0 l + foldr Z.add 0 l'.
Proof. induction l as [|d l IH]; [done|]. cbn [app foldr]. rewrite IH. lia. Qed.

Lemma flat_period_pos p : 0 < flat_period p.
Proof. unfold flat_period. destruct (Z.ltb_spec 0 (sample_period_us p)); lia. Qed.

Definition flat_time (p : profile_data) : Z := zlen (samples p) * flat_period p.

(** What merging yields. *)
Definition merged (js native : profile_data) : profile_data :=
  let h := zlen (nodes js) + 3 in
  MkProfile (merged_nodes js native) (((fun s => s + 2) <$> samples js) ++ ((fun s => s + h) <$> samples native))
    (replicate (length (samples js)) (flat_period js) ++ replicate (length (samples native)) (flat_period native))
    0 (flat_time js + flat_time native) (u64 (dropped_samples js + dropped_samples native))
    (Z.max (sample_period_us js) (sample_period_us native)).

Lemma merge_spec js native tj tn : source js tj -> source native tn ->
  zlen (nodes js) + zlen (nodes native) + 3 < 2 ^ 31 -> flat_time js + flat_time native < 2 ^ 63 ->
  merge_profiles js native = Ret (merged js native).
Proof.
  intros Sj Sn Hs Ht. unfold merge_profiles.
  rewrite (append_subtree_spec js tj _ _ merged_root []) by (done || cbn; lia). rewrite bind_Ret.
  cbn [nodes set_nodes set_deltas set_samples length samples time_deltas no_profile app]. set (ns := push_child _ _ :: _).
  assert (Ln : zlen ns = zlen (nodes js) + 2) by (unfold ns; cbn [length]; rewrite length_fmap; lia).
  rewrite (append_subtree_spec native tn _ _ (push_child (1 + 1) merged_root) (header 2 (str "(js)") js)).
  2: { done. } 2: { done. } 2: { cbn [nodes set_nodes set_deltas set_samples]. rewrite Ln. lia. }
  rewrite bind_Ret. cbn [nodes set_nodes set_deltas set_samples length samples time_deltas no_profile app]. rewrite Ln.
  rewrite sum_i64_spec; [|apply Forall_app; split; apply Forall_replicate; pose proof (flat_period_pos js); pose proof (flat_period_pos native); lia|lia|].
  2: { rewrite sum_app, !sum_replicate. unfold flat_time in Ht. lia. }
  rewrite bind_Ret, sum_app, !sum_replicate. unfold merged, merged_nodes, flat_time. replace (zlen (nodes js) + 2 + 1) with (zlen (nodes js) + 3) by lia. done.
Qed.

Lemma merged_source js native tj tn : source js tj -> source native tn -> source (merged js native) (Some (merged_tree js native tj tn)).
Proof.
  intros Sj Sn. split; [by apply merged_spells|by eapply merged_ids|].
  cbn [samples merged nodes]. intros s Hin. rewrite (merged_ids _ _ _ _ Sj Sn), elem_of_seqZ. unfold merged_nodes, header. cbn [length].
  rewrite length_app. cbn [length]. rewrite !length_fmap.
  apply elem_of_app in Hin as [(i & -> & Hi)%list_elem_of_fmap | (i & -> & Hi)%list_elem_of_fmap].
  - apply (so_samples _ _ Sj), (source_ids _ _ _ Sj) in Hi. lia.
  - apply (so_samples _ _ Sn), (source_ids _ _ _ Sn) in Hi. lia.
Qed.

(** Below its header a part keeps its paths. *)
Lemma header_path T h label p t i fs r : source p t -> list.head T = Some r -> h ∈ children r -> header h label p ⊆ T ->
  path (nodes p) i fs -> exists f, frame <$> list.head (nodes p) = Some f /\ path T (i + h) (named label :: f :: fs).
Proof.
  intros S Hr Hh HT. assert (Hrt : r ∈ T) by (destruct T; [done|]; injection Hr as ->; left).
  assert (P : path T h [named label]).
  { apply (path_step T [] r (MkNode h (named label) 0 (first_id h p))); [by constructor|done| |done]. apply HT. left. }
  assert (In : forall n, n ∈ nodes p -> shifted h n ∈ T) by (intros n Hn; apply HT; right; by apply list_elem_of_fmap_2).
  induction 1 as [n Hn|fs np n _ (f & Hf & IH) Hnp Hn Hc].
  - exists (frame n). rewrite Hn. split; [done|]. apply (path_step T [named label] (MkNode h (named label) 0 (first_id h p)) (shifted h n)).
    + done.
    + apply HT. left.
    + apply In. destruct (nodes p); [done|]. injection Hn as ->. left.
    + cbn. unfold first_id. destruct (nodes p); [done|]. injection Hn as ->. left.
  - exists f. split; [done|]. apply (path_step T (named label :: f :: fs) (shifted h np) (shifted h n)); [done|by apply In..|].
    cbn. apply list_elem_of_fmap. eauto.
Qed.

(** Merging two profiles whose tables are trees numbered from 1 (or empty) succeeds
    and yields such a profile again: samples, node counts and paths of either are kept,
    below a header of its own, every sample has a positive period, as many periods as
    samples, and they add up to the end of the timeline. *)
Lemma merge_keeps_profiles js native tj tn : source js tj -> source native tn ->
  zlen (nodes js) + zlen (nodes native) + 3 < 2 ^ 31 -> flat_time js + flat_time native < 2 ^ 63 ->
  exists out h, merge_profiles js native = Ret out /\ h = zlen (nodes js) + 3 /\
    source out (Some (merged_tree js native tj tn)) /\
    samples out = ((fun s => s + 2) <$> samples js) ++ ((fun s => s + h) <$> samples native) /\
    (forall i fs, path (nodes js) i fs -> exists f, frame <$> list.head (nodes js) = Some f /\
       path (nodes out) (i + 2) (named (str "(js)") :: f :: fs)) /\
    (forall i fs, path (nodes native) i fs -> exists f, frame <$> list.head (nodes native) = Some f /\
       path (nodes out) (i + h) (named (str "(native)") :: f :: fs)) /\
    length (time_deltas out) = length (samples out) /\ Forall (fun d => 0 < d) (time_deltas out) /\
    start_time out = 0 /\ end_time out = foldr Z.add 0 (time_deltas out).
Proof.
  intros Sj Sn Hs Ht. exists (merged js native), (zlen (nodes js) + 3). split; [by eapply merge_spec|]. split; [done|].
  cbn [samples time_deltas start_time end_time nodes merged]. split; [by apply merged_source|].
  split; [done|]. split; [|split; [|split; [|split; [|split]]]].
  - intros i fs. eapply header_path; [done|done| |]; [cbn; left|]. intros n Hn. right. apply elem_of_app. by left.
  - intros i fs. eapply header_path; [done|done| |]; [cbn; right; left|]. intros n Hn. right. apply elem_of_app. by right.
  - by rewrite !length_app, !length_replicate, !length_fmap.
  - apply Forall_app. split; apply Forall_replicate, flat_period_pos.
  - done.
  - rewrite sum_app, !sum_replicate. done.
Qed.

(** * Writing and reading *)

(** A printed integer without a sign comes back as an unsigned one. *)
Definition reparsed_integer (n : Z) : json := if 0 <=? n then JUnsigned n else JInteger n.

Fixpoint reparsed (j : json) : json :=
  match j with
  | JInteger n => reparsed_integer n
  | JArray l => JArray (map reparsed l)
  | JObject m => JObject (map (fun '(k, v) => (k, reparsed v)) m)
  | _ => j
  end.

Definition int_range (n : Z) : Prop := - 2 ^ 31 <= n < 2 ^ 31.
Definition i64_range (n : Z) : Prop := - 2 ^ 63 <= n < 2 ^ 63.

Record node_fits (n : profile_node) : Prop := {
  nf_id : int_range (node_id n); nf_script : int_range (script_id (frame n)); nf_line : int_range (line_number (frame n));
  nf_column : int_range (column_number (frame n)); nf_hits : 0 <= hit_count n < 2 ^ 32; nf_children : Forall int_range (children n) }.

Lemma get_int_integer n : int_range n -> get_int (reparsed_integer n) = Ret n.
Proof. intros H. unfold reparsed_integer. destruct (0 <=? n); cbn; by rewrite i32_small. Qed.

Lemma get_i64_integer n : i64_range n -> get_i64 (reparsed_integer n) = Ret n.
Proof. intros H. unfold reparsed_integer. destruct (0 <=? n); cbn; by rewrite i64_small. Qed.

Lemma read_int_integer j k d n : json_find k j = Some (reparsed_integer n) -> int_range n -> read_int j k d = Ret n.
Proof. intros E H. unfold read_int. rewrite E. unfold reparsed_integer. destruct (0 <=? n); by rewrite i32_small. Qed.

Lemma read_i64_integer j k d n : json_find k j = Some (reparsed_integer n) -> i64_range n -> read_i64 j k d = Ret n.
Proof. intros E H. unfold read_i64. rewrite E. unfold reparsed_integer. destruct (0 <=? n); by rewrite i64_small. Qed.

Lemma u32_i32 n : 0 <= n < 2 ^ 32 -> u32 (i32 n) = n.
Proof.
  intros H. unfold to_signed. rewrite (u32_small n) by lia. destruct (Z.ltb_spec n (2 ^ (32 - 1))); [by apply u32_small|].
  unfold wrap. rewrite <- (Z.mod_add _ 1) by lia. rewrite Z.mod_small; lia.
Qed.

Lemma stoi_show n : int_range n -> stoi (show_int n) = Some n.
Proof.
  intros H. unfold int_range in H. pose proof (from_chars_show (- 2 ^ 31) (2 ^ 31 - 1) n [] ltac:(lia) ltac:(lia) ltac:(lia) I) as E.
  rewrite app_nil_r in E. unfold stoi.
  assert (G : match show_int n with [] => False | c :: _ => is_space c = false /\ (c =? chr "+") = false end).
  { unfold show_int. destruct (Z.ltb_spec n 0); [done|]. destruct (show_digits_spec 20 n) as (Hd & Hne & _); [lia..|].
    destruct (show_digits 20 n) as [|c l]; [done|]. apply Forall_cons in Hd as [Hc _]. unfold is_digit in Hc. unfold is_space.
    change (chr "0") with 48 in Hc. change (chr "9") with 57 in Hc. change (chr "+") with 43.
    destruct (Z.leb_spec 48 c), (Z.leb_spec c 57), (Z.leb_spec 9 c), (Z.leb_spec c 13), (Z.eqb_spec c 32), (Z.eqb_spec c 43); done || lia. }
  destruct (show_int n) as [|c l]; [done|]. destruct G as [G1 G2]. cbn [drop_while]. rewrite G1, G2, E. done.
Qed.

Lemma read_node_written n : node_fits n -> read_node (reparsed (cpuprofile_node n)) = Ret n.
Proof.
  intros [H1 H2 H3 H4 H5 H6]. unfold read_node.
  rewrite (read_int_integer _ (str "id") _ (node_id n)), bind_Ret by done.
  assert (F : read_frame (reparsed (cpuprofile_node n)) = Ret (frame n)).
  { unfold read_frame. change (json_find (str "callFrame") _) with (Some (reparsed (JObject [(str "functionName", JString (function_name (frame n)));
      (str "scriptId", JString (show_int (script_id (frame n)))); (str "url", JString (url (frame n)));
      (str "lineNumber", JInteger (line_number (frame n))); (str "columnNumber", JInteger (column_number (frame n)))]))).
    cbv beta iota. unfold read_script_id. change (json_find (str "scriptId") _) with (Some (JString (show_int (script_id (frame n))))).
    cbv beta iota. rewrite stoi_show, bind_Ret by done.
    rewrite (read_int_integer _ (str "lineNumber") _ (line_number (frame n))), bind_Ret by done.
    rewrite (read_int_integer _ (str "columnNumber") _ (column_number (frame n))), bind_Ret by done. by destruct (frame n). }
  rewrite F, bind_Ret.
  assert (Hh : read_int (reparsed (cpuprofile_node n)) (str "hitCount") 0 = Ret (i32 (hit_count n))) by done.
  rewrite Hh, bind_Ret, u32_i32 by done.
  change (array_member _ _) with (map reparsed (JInteger <$> children n)).
  assert (Hc : mapM get_int (map reparsed (JInteger <$> children n)) = Ret (children n)).
  { clear - H6. induction H6 as [|c cs Hc Hcs IH]; [done|]. cbn. fold (fmap (M := list) JInteger). rewrite get_int_integer by done. cbn.
    cbn in IH. rewrite IH. done. }
  rewrite Hc, bind_Ret. by destruct n.
Qed.

Lemma read_all_written {A B} (f : json -> outcome A) (w : B -> json) (g : B -> A) l : (forall b, b ∈ l -> f (w b) = Ret (g b)) ->
  forall acc, read_all f (w <$> l) acc = (acc ++ (g <$> l), Ret tt).
Proof.
  induction l as [|b l IH]; intros H acc; cbn; [by rewrite app_nil_r|]. rewrite H by left. fold (fmap (M := list) w l).
  change (list_fmap B json w l) with (w <$> l). rewrite IH by (intros; apply H; by right). by rewrite <- app_assoc.
Qed.

Definition positive_sum (ds : list Z) : Z := foldr (fun d s => Z.max 0 d + s) 0 ds.

Lemma positive_sum_nonneg ds : 0 <= positive_sum ds.
Proof. unfold positive_sum. induction ds as [|d ds IH]; cbn [foldr]; lia. Qed.

Lemma positives_spec ds : forall total counted, 0 <= total -> 0 <= counted -> total + positive_sum ds < 2 ^ 63 ->
  exists k, 0 <= k /\ positives ds total counted = Ret (total + positive_sum ds, counted + k) /\
    (Forall (fun d => 0 < d) ds -> k = zlen ds).
Proof.
  induction ds as [|d ds IH]; intros total counted Ht Hc Hs; cbn [positives].
  - exists 0. rewrite !Z.add_0_r. done.
  - pose proof (positive_sum_nonneg ds). cbn [positive_sum foldr] in Hs |- *. fold (positive_sum ds) in *. destruct (Z.ltb_spec 0 d).
    + rewrite add_i64_Ret, bind_Ret by lia. destruct (IH (total + d) (counted + 1)) as (k & Hk & E & F); [lia..|]. exists (k + 1).
      rewrite E. split; [lia|]. split; [do 2 f_equal; lia|]. intros [_ G]%Forall_cons. rewrite F by done. cbn [length]. lia.
    + destruct (IH total counted) as (k & Hk & E & F); [lia..|]. exists k. rewrite E. split; [done|]. split; [do 2 f_equal; lia|].
      intros [? _]%Forall_cons. lia.
Qed.

Lemma mean_delta_spec ds : positive_sum ds < 2 ^ 63 ->
  exists u, mean_delta ds = Ret u /\ 0 <= u /\ forall k d, ds = replicate (S k) d -> 0 < d -> u = d.
Proof.
  intros H. unfold mean_delta. destruct (positives_spec ds 0 0) as (k & Hk & E & F); [lia..|]. rewrite E, bind_Ret, !Z.add_0_l.
  eexists. split; [done|]. pose proof (positive_sum_nonneg ds). split.
  - destruct (Z.eqb_spec k 0); [lia|]. apply Z.quot_pos; lia.
  - intros j d -> Hd. rewrite F by (apply Forall_replicate; lia). rewrite length_replicate. destruct (Z.eqb_spec (zlen (replicate (S j) d)) 0); [cbn in *; lia|].
    assert (Es : forall m, positive_sum (replicate m d) = Z.of_nat m * d).
    { intros m. induction m as [|m IHm]; [done|]. cbn [replicate positive_sum foldr]. fold (positive_sum (replicate m d)). rewrite IHm. lia. }
    rewrite Es, Z.mul_comm. apply Z.quot_mul. lia.
Qed.

Record profile_fits (p : profile_data) : Prop := {
  pf_nodes : Forall node_fits (nodes p); pf_samples : Forall int_range (samples p);
  pf_deltas : Forall i64_range (time_deltas p); pf_start : i64_range (start_time p); pf_end : i64_range (end_time p);
  pf_sum : positive_sum (time_deltas p) < 2 ^ 63 }.

(** What is written of a profile reads back as the same nodes (identifiers, frames,
    hits, children), samples, periods and times; the period is that of the samples when
    they all have the same. *)
Lemma written_profile_reads_back p : profile_fits p ->
  exists u, read_profile (reparsed (serialize_cpuprofile p)) = (set_dropped 0 (set_period u p), Ret tt) /\
    forall k d, time_deltas p = replicate (S k) d -> 0 < d -> u = d.
Proof.
  intros [H1 H2 H3 H4 H5 H6]. destruct (mean_delta_spec _ H6) as (u & E & _ & F). exists u. split; [|done].
  set (j := reparsed (serialize_cpuprofile p)).
  assert (J : exists m, j = JObject m /\ lookup_name (str "nodes") m = Some (JArray (map reparsed (cpuprofile_node <$> nodes p)))) by by eexists.
  destruct J as (m & Ej & Em). unfold read_profile. rewrite Ej at 1. rewrite Em. cbn [json_items].
  assert (N : read_all read_node (map reparsed (cpuprofile_node <$> nodes p)) [] = (nodes p, Ret tt)).
  { change (map reparsed (cpuprofile_node <$> nodes p)) with (reparsed <$> (cpuprofile_node <$> nodes p)). rewrite <- list_fmap_compose.
    rewrite (read_all_written _ _ id), list_fmap_id; [done|]. intros n Hn. rewrite Forall_forall in H1. by apply read_node_written, H1. }
  assert (S : read_all get_int (array_member j (str "samples")) [] = (samples p, Ret tt)).
  { change (array_member j _) with (reparsed <$> (JInteger <$> samples p)). rewrite <- list_fmap_compose.
    rewrite (read_all_written _ _ id), list_fmap_id; [done|]. intros n Hn. rewrite Forall_forall in H2. by apply get_int_integer, H2. }
  assert (D : read_all get_i64 (array_member j (str "timeDeltas")) [] = (time_deltas p, Ret tt)).
  { change (array_member j _) with (reparsed <$> (JInteger <$> time_deltas p)). rewrite <- list_fmap_compose.
    rewrite (read_all_written _ _ id), list_fmap_id; [done|]. intros n Hn. rewrite Forall_forall in H3. by apply get_i64_integer, H3. }
  rewrite N. cbv beta iota. rewrite S. cbv beta iota. rewrite D. cbv beta iota.
  rewrite (read_i64_integer j (str "startTime") 0 (start_time p)), bind_Ret by done.
  rewrite (read_i64_integer j (str "endTime") 0 (end_time p)), bind_Ret by done.
  rewrite E, bind_Ret. done.
Qed.

(** * Text for the parser *)

(** Inside strings every backslash that is not the last byte starts an escape. *)
Fixpoint well_escaped (in_string : bool) (s : bytes) : bool :=
  match s with
  | [] => true
  | c :: rest =>
      if c =? 34 then well_escaped (negb in_string) rest
      else if in_string && (c =? chr "\") then
        match rest with [] => true | n :: rest' => bool_decide (n ∈ escape_chars) && well_escaped in_string rest' end
      else well_escaped in_string rest
  end.

Lemma well_escaped_ind (P : bool -> bytes -> Prop) :
  (forall q, P q []) ->
  (forall q rest, P (negb q) rest -> P q (34 :: rest)) ->
  P true [chr "\"] ->
  (forall n rest, P true rest -> P true (n :: rest) -> P true (chr "\" :: n :: rest)) ->
  (forall q c rest, c <> 34 -> q && (c =? chr "\") = false -> P q rest -> P q (c :: rest)) ->
  forall s q, P q s.
Proof.
  intros H0 H1 H2 H3 H4 s q. remember (length s) as k eqn:Ek. assert (Hk : (length s <= k)%nat) by lia. clear Ek. revert s q Hk.
  induction k as [|k IH]; intros [|c rest] q Hk; cbn [length] in Hk; try done; [lia|].
  destruct (Z.eqb_spec c 34) as [->|]; [apply H1, IH; lia|]. destruct (q && (c =? chr "\")) eqn:E.
  - apply andb_true_iff in E as [-> ->%Z.eqb_eq]. destruct rest as [|x rest]; [done|]. cbn [length] in Hk. apply H3; apply IH; cbn [length]; lia.
  - apply H4; [done..|]. apply IH. lia.
Qed.

Lemma sanitize_plain q c rest : c <> 34 -> q && (c =? chr "\") = false -> sanitize_loop q (c :: rest) = c :: sanitize_loop q rest.
Proof. intros Hc Hq. cbn. destruct (Z.eqb_spec c 34); [done|]. destruct q; cbn in *; [by rewrite Hq|done]. Qed.

Lemma well_escaped_plain q c rest : c <> 34 -> q && (c =? chr "\") = false -> well_escaped q (c :: rest) = well_escaped q rest.
Proof. intros Hc Hq. cbn -[chr]. destruct (Z.eqb_spec c 34); [done|]. by rewrite Hq. Qed.

(** Sanitizing leaves no stray backslash in a string. *)
Lemma sanitize_escapes s : well_escaped false (sanitize_v8_json s) = true.
Proof.
  unfold sanitize_v8_json. generalize false. intros q. pattern q, s. revert s q. apply well_escaped_ind; try done.
  - intros n rest IH1 IH2. change (sanitize_loop true (chr "\" :: n :: rest)) with
      (if bool_decide (n ∈ escape_chars) then chr "\" :: n :: sanitize_loop true rest else chr "\" :: chr "\" :: sanitize_loop true (n :: rest)).
    case_bool_decide as Hn.
    + change (bool_decide (n ∈ escape_chars) && well_escaped true (sanitize_loop true rest) = true). by rewrite bool_decide_eq_true_2.
    + done.
  - intros q c rest Hc Hq IH. by rewrite sanitize_plain, well_escaped_plain.
Qed.

(** Text without stray backslashes is left alone. *)
Lemma sanitize_id s : well_escaped false s = true -> sanitize_v8_json s = s.
Proof.
  unfold sanitize_v8_json. generalize false. intros q. pattern q, s. revert s q. apply well_escaped_ind; try done.
  - intros q rest IH H. cbn in H |- *. f_equal. auto.
  - intros n rest IH1 IH2 H. change (bool_decide (n ∈ escape_chars) && well_escaped true rest = true) in H.
    apply andb_true_iff in H as [H1 H2]. change (sanitize_loop true (chr "\" :: n :: rest)) with
      (if bool_decide (n ∈ escape_chars) then chr "\" :: n :: sanitize_loop true rest else chr "\" :: chr "\" :: sanitize_loop true (n :: rest)).
    rewrite H1. by rewrite IH1.
  - intros q c rest Hc Hq IH. rewrite well_escaped_plain, sanitize_plain by done. intros H. by rewrite IH.
Qed.

(** * What modelling showed *)

(** A regular expression with [\u{...}] keeps its backslash although JSON has no such
    escape, so the parser refuses the whole profile. *)
Lemma unicode_brace_kept : sanitize_v8_json ([34] ++ str "\u{61}" ++ [34]) = [34] ++ str "\u{61}" ++ [34].
Proof. reflexivity. Qed.

(** A profile that fails half way leaves its nodes behind, which are then merged. *)
Lemma failed_read_keeps_nodes :
  parse_v8_profile (fun _ => Some (JObject [(str "nodes", JArray [JObject [(str "id", JUnsigned 1)]]); (str "samples", JArray [JString []])]))
    [] no_profile = Ret (false, set_nodes [MkNode 1 no_frame 0 []] no_profile).
Proof. reflexivity. Qed.

(** Identifiers with gaps collide after merging. *)
Lemma gaps_collide :
  exists out, merge_profiles (set_nodes [MkNode 1 no_frame 0 [3]; MkNode 3 no_frame 0 []] no_profile) no_profile = Ret out /\
    node_id <$> nodes out = [1; 2; 3; 5; 5].
Proof. eexists. split; reflexivity. Qed.

(** When the first stack recorded has only the frames of the handler the start stays 0. *)
Lemma first_slot_sets_start :
  exists out p r, stop (fun _ => None) (fun _ => None) (MkProfiler true 1000) (MkRing [MkSlot 5 [1; 2]; MkSlot 9 [1; 2; 3]] 2 2 0 true) = Ret (out, p, r) /\
    start_time out = 0 /\ end_time out = 9.
Proof. eexists _, _, _. split; [vm_compute; reflexivity|done]. Qed.

(** * Witnesses *)

Definition demo_symbols (pc : Z) : option (bytes * bytes) :=
  if pc =? 10 then Some (str "main", str "/bin/app") else if pc =? 20 then Some (str "work", str "/bin/app") else None.

Lemma demo_plain : plain_files demo_symbols.
Proof.
  intros pc s f. unfold demo_symbols. assert (H : chr "|" ∉ str "/bin/app") by (refine (bool_decide_eq_false_1 (chr "|" ∈ str "/bin/app") _); reflexivity).
  destruct (pc =? 10); [by intros [= <- <-]|]. destruct (pc =? 20); [by intros [= <- <-]|done].
Qed.

Definition demo_signals : list (Z * list Z) := [(100, [1; 2; 20; 10]); (200, [1; 2; 10]); (300, [1; 2; 20; 10]); (400, [1; 2; 30; 20; 10])].

Lemma sampler_spells_stacks_witness :
  exists out p2 r2, stop demo_symbols (fun _ => None) (MkProfiler true 500) (signals demo_signals (ring_after 3 [])) = Ret (out, p2, r2) /\
    length (samples out) = 3%nat /\ dropped_samples out = 1.
Proof.
  destruct (sampler_spells_stacks demo_symbols (fun _ => None) 500 3 demo_signals (MkProfiler false 1000) (MkRing [] 0 0 0 false) demo_plain eq_refl eq_refl)
    as (p1 & r1 & out & p2 & r2 & t & E1 & E2 & _ & _ & _ & _ & _ & H & _ & _ & D); [lia|reflexivity|reflexivity|].
  injection E1 as <- <-. exists out, p2, r2. split; [exact E2|]. split; [|exact D]. by rewrite (Forall2_length _ _ _ H).
Defined.

Definition demo_js : profile_data :=
  MkProfile [MkNode 1 (named (str "(root)")) 0 [3; 2]; MkNode 2 (named (str "f")) 2 []; MkNode 3 (named (str "(idle)")) 1 []]
    [2; 3; 2] [1000; 1000; 1000] 0 3000 0 1000.
Definition demo_native : profile_data :=
  MkProfile [MkNode 1 (named (str "(native root)")) 0 [2]; MkNode 2 (named (str "[native] main")) 2 []] [2; 2] [500; 500] 0 1000 1 500.

Lemma demo_js_source : source demo_js (Some (Tree 1 [Tree 3 []; Tree 2 []])).
Proof.
  split.
  - split; [cbn; apply Permutation_cons; [done|]; apply perm_swap|apply (NoDup_seqZ 1 3)|done].
  - done.
  - intros s. cbn. set_solver.
Qed.

Lemma demo_native_source : source demo_native (Some (Tree 1 [Tree 2 []])).
Proof.
  split.
  - split; [done|apply (NoDup_seqZ 1 2)|done].
  - done.
  - intros s. cbn. set_solver.
Qed.

Lemma merge_keeps_profiles_witness :
  exists out, merge_profiles demo_js demo_native = Ret out /\ samples out = [4; 5; 4; 8; 8] /\ end_time out = 4000.
Proof.
  destruct (merge_keeps_profiles demo_js demo_native _ _ demo_js_source demo_native_source) as (out & h & E & -> & _ & Es & _ & _ & _ & _ & _ & Ee);
    [reflexivity|reflexivity|]. exists out. split; [exact E|]. split; [exact Es|]. vm_compute in E. injection E as <-. reflexivity.
Defined.

Lemma written_profile_reads_back_witness :
  profile_fits demo_js /\ exists u, read_profile (reparsed (serialize_cpuprofile demo_js)) = (set_dropped 0 (set_period u demo_js), Ret tt).
Proof.
  assert (F : profile_fits demo_js).
  { split; [|repeat (apply Forall_cons_2; [unfold int_range, i64_range; lia|]); apply Forall_nil_2..|unfold i64_range; cbn; lia|unfold i64_range; cbn; lia|reflexivity].
    repeat (apply Forall_cons_2; [split; unfold int_range; cbn; try lia; repeat (apply Forall_cons_2; [lia|]); apply Forall_nil_2|]). apply Forall_nil_2. }
  split; [exact F|]. destruct (written_profile_reads_back demo_js F) as (u & E & _). exists u. exact E.
Defined.
