(* ===== verification/ProfileReport.v ===== *)
(** The report on a CPU profile ([render_markdown] of [src/runner/cpu_profile_merge.cpp]):
    time per node, per function, per file and per stack, and the rows of its tables.

    [std::unordered_map] is a finite map; the order of its elements is a parameter, and so
    is what [std::sort] does to elements that compare equal.  The printing of the numbers
    in a row is not modelled: a row keeps them. *)

From S2P Require Import Prelude Strings CpuProfile.

(** * Names *)

(** Functions are told apart by name and URL. *)
Definition key_t : Type := bytes * bytes.
Definition node_key (n : profile_node) : key_t := (function_name (frame n), url (frame n)).

Record agg : Type := MkAgg { a_fn : bytes; a_url : bytes; self_us : Z; total_us : Z; line : Z; line_set : bool }.
Definition new_agg : agg := MkAgg [] [] 0 0 (-1) false.

Definition is_synthetic_frame (fn : bytes) : bool :=
  match fn, last fn with c :: _ :: _, Some e => (c =? chr "(") && (e =? chr ")") | _, _ => false end.
Definition is_native_frame (fn : bytes) : bool := starts_with (str "[native] ") fn.
Definition is_internal_script_url (u : bytes) : bool :=
  match u, last u with c :: _ :: _, Some e => (c =? chr "<") && (e =? chr ">") | _, _ => false end.

Definition md_escape (s : bytes) : bytes :=
  concat ((fun c => if c =? chr "|" then str "\|" else if (c =? 10) || (c =? 13) then [chr " "] else [c]) <$> s).

(** An em dash, in UTF-8, for no URL. *)
Definition short_url (u : bytes) : bytes :=
  match u with
  | [] => [226; 128; 148]
  | _ => match rfind_char (chr "/") u with None => u | Some i => substr_from u (i + 1) end
  end.

Definition file_cell (r : agg) : bytes :=
  md_escape (short_url (a_url r)) ++
  (if (0 <? line r) && negb (bool_decide (a_url r = [])) then chr ":" :: show_int (line r) else []).

(** * Time per node *)

Definition idx_of (T : list profile_node) (i : Z) : nat :=
  match list_find (fun n => node_id n = i) T with Some (k, _) => k | None => length T end.

(** [v\[k\] += d] when [k] is inside. *)
Definition credit (k : nat) (d : Z) (v : list Z) : outcome (list Z) :=
  match v !! k with Some x => y ← add_i64 x d; Ret (<[k := y]> v) | None => Ret v end.

Fixpoint self_loop (T : list profile_node) (mean : Z) (ss ds self : list Z) : outcome (list Z) :=
  match ss with
  | [] => Ret self
  | i :: ss' =>
      let d := match ds with d :: _ => d | [] => mean end in
      let d := if d <=? 0 then mean else d in
      self ← credit (idx_of T i) d self;
      self_loop T mean ss' (tail ds) self
  end.

Definition self_us_by_node (p : profile_data) : outcome (list Z) :=
  let zeros := replicate (length (nodes p)) 0 in
  match samples p with
  | [] => Ret zeros
  | ss => mean ← mean_delta (time_deltas p); self_loop (nodes p) mean ss (time_deltas p) zeros
  end.

(** ** Depth first, children before their parents *)

(** [wk], its back first: nodes to visit, or to leave. *)
Fixpoint dfs (fuel : nat) (T : list profile_node) (visited : list bool) (wk : list (Z * bool)) (order : list Z) : outcome (list Z) :=
  match fuel with
  | O => OutOfFuel
  | S fuel =>
      match wk with
      | [] => Ret order
      | (i, leave) :: wk =>
          let k := idx_of T i in
          match T !! k with
          | None => dfs fuel T visited wk order
          | Some n =>
              if leave : bool then dfs fuel T visited wk (order ++ [i])
              else if default false (visited !! k) then dfs fuel T visited wk order
              else dfs fuel T (<[k := true]> visited) (reverse ((fun c => (c, false)) <$> children n) ++ (i, true) :: wk) order
          end
      end
  end.

Definition dfs_fuel (T : list profile_node) : nat := S (S (sum_list_with (fun n => S (length (children n))) T)).

Definition order (T : list profile_node) : outcome (list Z) :=
  match T with [] => Ret [] | front :: _ => dfs (dfs_fuel T) T (replicate (length T) false) [(node_id front, false)] [] end.

Definition subtotal (T : list profile_node) (totals : list Z) (t c : Z) : outcome Z :=
  match totals !! idx_of T c with Some x => add_i64 t x | None => Ret t end.

Fixpoint total_loop (T : list profile_node) (self : list Z) (order totals : list Z) : outcome (list Z) :=
  match order with
  | [] => Ret totals
  | i :: order =>
      match T !! idx_of T i with
      | None => total_loop T self order totals
      | Some n =>
          t ← checked (self !! idx_of T i);
          t ← foldl (fun t c => t ← t; subtotal T totals t c) (Ret t) (children n);
          total_loop T self order (<[idx_of T i := t]> totals)
      end
  end.

Definition total_us_by_node (T : list profile_node) (self : list Z) : outcome (list Z) :=
  l ← order T; total_loop T self l (replicate (length T) 0).

(** * Time per function *)

Notation by_fn := (gmap key_t agg).

(** [by_fn\[k\]] *)
Definition entry (k : key_t) (m : by_fn) : agg := default new_agg (m !! k).

(** The line of a function, or -1 once its nodes disagree. *)
Definition note_line (n : profile_node) (a : agg) : outcome agg :=
  let l := line_number (frame n) in
  if 0 <=? l then
    l ← add_int l 1;
    Ret (if line_set a then MkAgg (a_fn a) (a_url a) (self_us a) (total_us a) (if line a =? l then line a else -1) true
         else MkAgg (a_fn a) (a_url a) (self_us a) (total_us a) l true)
  else Ret a.

Definition add_node (n : profile_node) (self : Z) (m : by_fn) : outcome by_fn :=
  let a := entry (node_key n) m in
  s ← add_i64 (self_us a) self;
  a ← note_line n (MkAgg (function_name (frame n)) (url (frame n)) s (total_us a) (line a) (line_set a));
  Ret (<[node_key n := a]> m).

Fixpoint add_nodes (T : list profile_node) (self : list Z) (m : by_fn) : outcome by_fn :=
  match T with
  | [] => Ret m
  | n :: T => d ← checked (list.head self); m ← add_node n d m; add_nodes T (tail self) m
  end.

(** The parent of each node, 0 for none. *)
Definition parents (T : list profile_node) : list Z :=
  foldl (fun ps n => foldl (fun ps c => <[idx_of T c := node_id n]> ps) ps (children n)) (replicate (length T) 0) T.

Definition add_total (period : Z) (k : key_t) (m : by_fn) : outcome by_fn :=
  let a := entry k m in
  t ← add_i64 (total_us a) period;
  Ret (<[k := MkAgg (a_fn a) (a_url a) (self_us a) t (line a) (line_set a)]> m).

(** From a leaf up: every key on the way once. *)
Fixpoint stack_walk (fuel : nat) (T : list profile_node) (ps : list Z) (period cur : Z) (seen : list key_t) (m : by_fn) : outcome by_fn :=
  match fuel with
  | O => OutOfFuel
  | S fuel =>
      if cur <=? 0 then Ret m
      else
        match T !! idx_of T cur with
        | None => Ret m
        | Some n =>
            let k := node_key n in
            m ← (if bool_decide (k ∈ seen) then Ret m else add_total period k m);
            pid ← checked (ps !! idx_of T cur);
            if pid =? cur then Ret m else stack_walk fuel T ps period pid (k :: seen) m
        end
  end.

Definition walk_fuel (T : list profile_node) : nat := S (S (length T)).

Definition sample_period (p : profile_data) (d : option Z) : Z :=
  let dflt := if 0 <? sample_period_us p then sample_period_us p else 1000 in
  match d with Some d => if 0 <? d then d else dflt | None => dflt end.

Fixpoint add_stacks (p : profile_data) (ps ss ds : list Z) (m : by_fn) : outcome by_fn :=
  match ss with
  | [] => Ret m
  | leaf :: ss =>
      m ← stack_walk (walk_fuel (nodes p)) (nodes p) ps (sample_period p (list.head ds)) leaf [] m;
      add_stacks p ps ss (tail ds) m
  end.

Definition functions (p : profile_data) (self : list Z) : outcome by_fn :=
  m ← add_nodes (nodes p) self ∅;
  add_stacks p (parents (nodes p)) (samples p) (time_deltas p) m.

(** * Stacks *)

Definition kStackDepth : nat := 8.

(** [frames], the leaf first, [weight_us] and [hits]. *)
Record stack_agg : Type := MkStack { stack_frames : list bytes; weight_us : Z; hits : Z }.

Definition is_header (n : profile_node) : bool :=
  bool_decide (function_name (frame n) ∈ [str "(root)"; str "(js)"; str "(native)"]).

Definition stack_line (n : profile_node) : outcome bytes :=
  let f := frame n in
  let label := match function_name f with [] => str "(anonymous)" | name => name end in
  if negb (bool_decide (url f = [])) || (0 <=? line_number f) then
    tail ← (if 0 <=? line_number f then l ← add_int (line_number f) 1; Ret (chr ":" :: show_int l) else Ret []);
    Ret (label ++ str " @ " ++ short_url (url f) ++ tail)
  else Ret label.

(** At most [hops] lines, headers left out. *)
Fixpoint hot_frames (fuel hops : nat) (T : list profile_node) (ps : list Z) (cur : Z) (acc : list bytes) : outcome (list bytes) :=
  match fuel with
  | O => OutOfFuel
  | S fuel =>
      if (cur <=? 0) || (hops =? 0)%nat then Ret acc
      else
        match T !! idx_of T cur with
        | None => Ret acc
        | Some n =>
            '(acc, hops) ← (if is_header n then Ret (acc, hops) else l ← stack_line n; Ret (acc ++ [l], pred hops));
            pid ← checked (ps !! idx_of T cur);
            if pid =? cur then Ret acc else hot_frames fuel hops T ps pid acc
        end
  end.

(** [sig]: the lines, each with a separator after it. *)
Definition signature (frames : list bytes) : bytes := concat ((fun l => l ++ [31]) <$> frames).

Definition add_stack (frames : list bytes) (period : Z) (m : gmap bytes stack_agg) : outcome (gmap bytes stack_agg) :=
  match frames with
  | [] => Ret m
  | _ =>
      let a := default (MkStack [] 0 0) (m !! signature frames) in
      w ← add_i64 (weight_us a) period;
      Ret (<[signature frames := MkStack (match stack_frames a with [] => frames | fs => fs end) w (u64 (hits a + 1))]> m)
  end.

Fixpoint by_stack (p : profile_data) (ps ss ds : list Z) (m : gmap bytes stack_agg) : outcome (gmap bytes stack_agg) :=
  match ss with
  | [] => Ret m
  | leaf :: ss =>
      frames ← hot_frames (walk_fuel (nodes p)) kStackDepth (nodes p) ps leaf [];
      m ← add_stack frames (sample_period p (list.head ds)) m;
      by_stack p ps ss (tail ds) m
  end.

(** * The report *)

Record table_row : Type := MkRow { r_self : Z; r_total : Z; r_name : bytes; r_file : bytes }.

Record report : Type := MkReport {
  duration : Z; period : Z; accounted : Z;
  breakdown : list (bytes * Z);
  top_self : list table_row; top_total : list table_row; top_js : list table_row;
  hot_files : list (bytes * Z); hot_stacks : list stack_agg }.

Definition kSynthetic : list bytes :=
  [str "(program)"; str "(idle)"; str "(garbage collector)"; str "(parser)"; str "(compiler)"].

(** Subtree headers below the root. *)
Fixpoint subtrees (T : list profile_node) (totals : list Z) (cs : list Z) : outcome (list (bytes * Z)) :=
  match cs with
  | [] => Ret []
  | c :: cs =>
      rest ← subtrees T totals cs;
      match T !! idx_of T c with
      | None => Ret rest
      | Some n =>
          if bool_decide (function_name (frame n) ∈ [str "(js)"; str "(native)"])
          then t ← checked (totals !! idx_of T c); Ret ((function_name (frame n) ++ str " subtree", t) :: rest)
          else Ret rest
      end
  end.

Definition synthetic_self (T : list profile_node) (self : list Z) (name : bytes) : outcome Z :=
  sum_i64 (zip T self ≫= fun '(n, d) => if bool_decide (function_name (frame n) = name) then [d] else []) 0.

Fixpoint synthetic (T : list profile_node) (self : list Z) (names : list bytes) : outcome (list (bytes * Z)) :=
  match names with
  | [] => Ret []
  | name :: names =>
      s ← synthetic_self T self name; rest ← synthetic T self names;
      Ret (if 0 <? s then (name, s) :: rest else rest)
  end.

Definition time_breakdown (T : list profile_node) (self totals : list Z) : outcome (list (bytes * Z)) :=
  subs ← match T with [] => Ret [] | front :: _ => subtrees T totals (children front) end;
  syns ← synthetic T self kSynthetic;
  Ret (subs ++ syns).

(** The first [limit] rows that have time, all of them when [top_n] is not positive. *)
Definition emit_table (top_n : Z) (view : list agg) : list table_row :=
  let limit := if 0 <? top_n then Z.to_nat top_n else length view in
  (fun r => MkRow (self_us r) (total_us r) (md_escape (match a_fn r with [] => str "(anonymous)" | n => n end)) (file_cell r)) <$>
  take limit (filter (fun r => ~ (self_us r = 0 /\ total_us r = 0)) view).

(** Code of scripts in files. *)
Definition is_script (r : agg) : bool :=
  negb (is_synthetic_frame (a_fn r) || is_native_frame (a_fn r) || bool_decide (a_url r = []) || is_internal_script_url (a_url r)).

Definition add_url (m : gmap bytes Z) (r : agg) : outcome (gmap bytes Z) :=
  if is_script r then s ← add_i64 (default 0 (m !! a_url r)) (self_us r); Ret (<[a_url r := s]> m) else Ret m.

Definition by_url (rows : list agg) : outcome (gmap bytes Z) := foldl (fun m r => m ← m; add_url m r) (Ret ∅) rows.

Definition files_limit (top_n : Z) (ranked : nat) : nat := Nat.max 15 (if 0 <? top_n then Z.to_nat (top_n / 2) else ranked).
Definition stacks_limit (top_n : Z) : nat := Z.to_nat (if (0 <? top_n) && (20 <? top_n / 3) then top_n / 3 else 20).

Section Report.
(** The elements of a map in its order, and [std::sort]. *)
Context (values : forall A, gmap key_t A -> list A) (pairs : forall A, gmap bytes A -> list (bytes * A))
  (sort : forall A, (A -> A -> bool) -> list A -> list A).

Definition render_markdown (p : profile_data) (top_n : Z) : outcome report :=
  self ← self_us_by_node p;
  accounted ← sum_i64 self 0;
  totals ← total_us_by_node (nodes p) self;
  m ← functions p self;
  let rows := values agg m in
  duration ← add_i64 (end_time p) (- start_time p);
  let period := if 0 <? sample_period_us p then sample_period_us p else match samples p with [] => 0 | _ => 1000 end in
  parts ← time_breakdown (nodes p) self totals;
  urls ← by_url rows;
  let ranked := sort _ (fun a b : bytes * Z => b.2 <? a.2) (pairs _ urls) in
  stacks ← by_stack p (parents (nodes p)) (samples p) (time_deltas p) ∅;
  Ret (MkReport duration period accounted parts
    (emit_table top_n (sort _ (fun a b => self_us b <? self_us a) rows))
    (emit_table top_n (sort _ (fun a b => total_us b <? total_us a) rows))
    (emit_table top_n (sort _ (fun a b => self_us b <? self_us a) (filter (fun r => is_script r = true) rows)))
    (prod_map (fun u => md_escape (short_url u)) id <$>
      take (files_limit top_n (length ranked)) (filter (fun f => f.2 <> 0) ranked))
    (take (stacks_limit top_n) (sort _ (fun a b => weight_us b <? weight_us a) (snd <$> pairs _ stacks)))).
End Report.
