(* ===== verification/ProfileReportFacts.v ===== *)
(** What makes the report on a CPU profile correct: the traversal ends on any table and
    adds up subtrees on trees, functions get the time of the samples whose stacks they are
    on, and of a merged profile all time is accounted for. *)

From S2P Require Import Prelude Strings CpuProfile CpuProfileFacts ProfileReport.

(** * Looking nodes up *)

Lemma idx_of_Some T i n : T !! idx_of T i = Some n -> node_id n = i.
Proof.
  unfold idx_of. destruct (list_find _ T) as [[k m]|] eqn:E.
  - apply list_find_Some in E as (E1 & E2 & _). intros H. congruence.
  - intros H. by rewrite lookup_ge_None_2 in H.
Qed.

Lemma idx_of_in T i : i ∈ node_id <$> T -> exists n, T !! idx_of T i = Some n /\ node_id n = i.
Proof.
  intros (n & -> & Hn)%list_elem_of_fmap. unfold idx_of.
  destruct (list_find_elem_of (fun m => node_id m = node_id n) T n Hn eq_refl) as [[k m] E]. rewrite E.
  apply list_find_Some in E as (E1 & E2 & _). eauto.
Qed.

Lemma idx_of_lt T i : i ∈ node_id <$> T -> (idx_of T i < length T)%nat.
Proof. intros (n & H & _)%idx_of_in. by eapply lookup_lt_Some. Qed.

Lemma idx_of_inj T i j : i ∈ node_id <$> T -> j ∈ node_id <$> T -> idx_of T i = idx_of T j -> i = j.
Proof. intros (n & H1 & <-)%idx_of_in (m & H2 & <-)%idx_of_in E. congruence. Qed.

Lemma idx_of_unique T n : NoDup (node_id <$> T) -> n ∈ T -> T !! idx_of T (node_id n) = Some n.
Proof.
  intros HN Hn. destruct (idx_of_in T (node_id n)) as (m & H & E); [by apply list_elem_of_fmap_2|].
  apply list_elem_of_lookup in Hn as [k Hk]. assert (k = idx_of T (node_id n)) as <-; [|done].
  eapply (NoDup_lookup _ _ _ _ HN); rewrite list_lookup_fmap; [by rewrite Hk|by rewrite H, <- E].
Qed.

(** * The traversal *)

Definition unvisited (T : list profile_node) (visited : list bool) : nat :=
  sum_list (zip_with (fun n v => if v : bool then 0%nat else S (length (children n))) T visited).

Lemma unvisited_cons n T v visited :
  unvisited (n :: T) (v :: visited) = ((if v then 0%nat else S (length (children n))) + unvisited T visited)%nat.
Proof. done. Qed.

Lemma unvisited_visit T visited k n : T !! k = Some n -> visited !! k = Some false ->
  (unvisited T (<[k := true]> visited) + S (length (children n)) = unvisited T visited)%nat.
Proof.
  revert k visited. induction T as [|m T IH]; intros [|k] [|v visited] Hn Hv; try done.
  - injection Hn as ->. injection Hv as ->. change (<[0%nat := true]> (false :: visited)) with (true :: visited).
    rewrite !unvisited_cons. lia.
  - change (<[S k := true]> (v :: visited)) with (v :: <[k := true]> visited). rewrite !unvisited_cons.
    specialize (IH k visited Hn Hv). lia.
Qed.

Lemma unvisited_start T : unvisited T (replicate (length T) false) = sum_list_with (fun n => S (length (children n))) T.
Proof. unfold unvisited. induction T as [|n T IH]; [done|]. cbn. by rewrite IH. Qed.

(** The depth-first traversal of any table of nodes, cyclic or with unknown children
    or with several nodes of an identifier, ends within its bound: a node is entered once. *)
Lemma traversal_ends T : exists l, order T = Ret l.
Proof.
  assert (G : forall fuel visited wk acc, length visited = length T -> (length wk + unvisited T visited < fuel)%nat ->
    exists l, dfs fuel T visited wk acc = Ret l).
  { induction fuel as [|fuel IH]; intros visited wk acc Hl Hf; [lia|]. cbn [dfs]. destruct wk as [|[i leave] wk]; [eauto|]. cbn [length] in Hf.
    destruct (T !! idx_of T i) as [n|] eqn:En; [|apply IH; lia]. destruct leave; [apply IH; lia|].
    destruct (visited !! idx_of T i) as [[]|] eqn:Ev; cbn [default].
    - apply IH; [done|lia].
    - pose proof (unvisited_visit _ _ _ _ En Ev). apply IH; [by rewrite length_insert|].
      rewrite length_app, length_reverse, length_fmap. cbn [length]. lia.
    - apply lookup_ge_None in Ev. apply lookup_lt_Some in En. lia. }
  unfold order. destruct T as [|front T]; [eauto|]. apply G; [apply length_replicate|]. rewrite unvisited_start. cbn [length]. unfold dfs_fuel. lia.
Qed.

Lemma order_front T r : node_id <$> list.head T = Some r -> order T = dfs (dfs_fuel T) T (replicate (length T) false) [(r, false)] [].
Proof. destruct T as [|front T]; [done|]. by intros [= <-]. Qed.

(** ** On trees *)

Lemma sum_nonneg {A} (f : A -> Z) l : (forall x, 0 <= f x) -> 0 <= foldr Z.add 0 (f <$> l).
Proof. intros H. induction l as [|x l IH]; [done|]. rewrite fmap_cons. cbn [foldr]. specialize (H x). lia. Qed.

(** Children in reverse, each before its parent. *)
Fixpoint post (t : call_tree) : list Z := let 'Tree i ts := t in concat (reverse (map post ts)) ++ [i].

Section OnTree.
Context (T : list profile_node) (t : call_tree) (HT : spells T t).

Notation idx := (idx_of T).

Lemma tree_node s i cs : shape s ⊆ shape t -> (i, cs) ∈ shape s -> exists n, T !! idx i = Some n /\ node_id n = i /\ children n = cs.
Proof.
  intros Hs Hi. apply Hs in Hi. rewrite <- (sp_shape _ _ HT) in Hi. apply list_elem_of_fmap in Hi as (n & [= -> ->] & Hn).
  exists n. split; [|done]. apply idx_of_unique; [apply HT|done].
Qed.

Lemma tree_ids_in s i : shape s ⊆ shape t -> i ∈ tree_ids s -> i ∈ node_id <$> T.
Proof.
  intros Hs Hi. rewrite (spells_ids _ _ HT). unfold tree_ids in *. apply list_elem_of_fmap in Hi as (x & -> & Hx).
  apply list_elem_of_fmap_2. by apply Hs.
Qed.

(** [visited'] is [visited] with the nodes [ids] entered. *)
Definition entered (ids : list Z) (visited visited' : list bool) : Prop :=
  (forall i, i ∈ ids -> visited' !! idx i = Some true) /\ (forall k, (forall i, i ∈ ids -> k <> idx i) -> visited' !! k = visited !! k).

Definition fresh (ids : list Z) (visited : list bool) : Prop := forall i, i ∈ ids -> visited !! idx i = Some false.

Lemma entered_trans a b v1 v2 v3 : entered a v1 v2 -> entered b v2 v3 -> entered (a ++ b) v1 v3.
Proof.
  intros [H1 H2] [H3 H4]. split.
  - intros i [Hi|Hi]%elem_of_app; [|auto]. destruct (decide (Exists (fun j => idx i = idx j) b)) as [He|He].
    + apply Exists_exists in He as (j & Hj & ->). auto.
    + rewrite H4; [auto|]. intros j Hj E. apply He, Exists_exists. eauto.
  - intros k Hk. rewrite H4, H2; [done|..]; intros i Hi; apply Hk, elem_of_app; auto.
Qed.

Definition forest_ids (ts : list call_tree) : list Z := concat (tree_ids <$> ts).

Lemma tree_ids_unfold i ts : tree_ids (Tree i ts) = i :: forest_ids ts.
Proof.
  unfold tree_ids, forest_ids. rewrite shapes_unfold, fmap_cons. f_equal. induction ts as [|s ts IH]; [done|]. rewrite !fmap_cons. cbn [concat].
  by rewrite fmap_app, IH.
Qed.

Lemma shape_child i ts s : s ∈ ts -> shape s ⊆ shape (Tree i ts).
Proof. intros Hs x Hx. apply shape_elem. eauto. Qed.

Lemma forest_ids_elem ts i : i ∈ forest_ids ts <-> exists s, s ∈ ts /\ i ∈ tree_ids s.
Proof. apply elem_of_concat_fmap. Qed.

Definition dfs_tree_ok (s : call_tree) : Prop := shape s ⊆ shape t -> NoDup (tree_ids s) -> forall f visited wk acc, fresh (tree_ids s) visited ->
  exists visited', entered (tree_ids s) visited visited' /\
    dfs (2 * length (tree_ids s) + f) T visited ((root s, false) :: wk) acc = dfs f T visited' wk (acc ++ post s).

Lemma dfs_forest ts : Forall dfs_tree_ok ts -> Forall (fun s => shape s ⊆ shape t) ts -> NoDup (forest_ids ts) ->
  forall f visited wk acc, fresh (forest_ids ts) visited ->
  exists visited', entered (forest_ids ts) visited visited' /\
    dfs (2 * length (forest_ids ts) + f) T visited (((fun s => (root s, false)) <$> ts) ++ wk) acc = dfs f T visited' wk (acc ++ concat (post <$> ts)).
Proof.
  induction 1 as [|s ts Hs Hts IH]; intros Hsh HN f visited wk acc Hf.
  - exists visited. split; [split; [by intros i ?%elem_of_nil|done]|]. cbn. by rewrite app_nil_r.
  - apply Forall_cons in Hsh as [Hsh Hshs]. unfold forest_ids in *. rewrite !fmap_cons in *. cbn [concat] in *.
    apply NoDup_app in HN as (N1 & N2 & N3). rewrite length_app. cbn [app].
    destruct (Hs Hsh N1 (2 * length (concat (tree_ids <$> ts)) + f)%nat visited (((fun s => (root s, false)) <$> ts) ++ wk) acc) as (v1 & E1 & D1).
    { intros i Hi. apply Hf, elem_of_app. by left. }
    destruct (IH Hshs N3 f v1 wk (acc ++ post s)) as (v2 & E2 & D2).
    { intros i Hi. destruct E1 as [_ E1]. rewrite E1; [apply Hf, elem_of_app; by right|]. intros j Hj E.
      assert (i = j) as ->; [|by apply (N2 j)]. apply (idx_of_inj T); [|by eapply tree_ids_in|done].
      apply forest_ids_elem in Hi as (u & Hu & Hi). rewrite Forall_forall in Hshs. by eapply tree_ids_in; [apply Hshs|]. }
    exists v2. split; [by eapply entered_trans|]. rewrite app_assoc, <- D2, <- D1. f_equal. lia.
Qed.

Lemma dfs_tree s : dfs_tree_ok s.
Proof.
  induction s as [i ts IH] using tree_induction. intros Hsh HN f visited wk acc Hf.
  destruct (tree_node (Tree i ts) i (root <$> ts)) as (n & En & Ei & Ec); [done|by apply shape_elem; left|].
  rewrite tree_ids_unfold in *. apply NoDup_cons in HN as [N1 N2].
  assert (R : forest_ids (reverse ts) ≡ₚ forest_ids ts) by (unfold forest_ids; by rewrite reverse_Permutation).
  destruct (dfs_forest (reverse ts)) with (f := S f) (visited := <[idx i := true]> visited) (wk := (i, true) :: wk) (acc := acc) as (v & Ev & D).
  - by apply Forall_reverse.
  - apply Forall_reverse, Forall_forall. intros s Hs x Hx. apply Hsh. by eapply shape_child.
  - by rewrite R.
  - intros j Hj. rewrite R in Hj. rewrite list_lookup_insert_ne; [apply Hf; by right|]. intros E.
    assert (i = j) as ->; [|done]. apply (idx_of_inj T); [|apply (tree_ids_in (Tree i ts)); [done|rewrite tree_ids_unfold; by right]|done].
    apply (tree_ids_in (Tree i ts)); [done|]. rewrite tree_ids_unfold. left.
  - exists v. split.
    + assert (V : visited !! idx i = Some false) by (apply Hf; left).
      replace (i :: forest_ids ts) with ([i] ++ forest_ids ts) by done. destruct Ev as [V1 V2]. apply (entered_trans _ _ _ (<[idx i := true]> visited)).
      * split; [intros j ->%list_elem_of_singleton; by rewrite list_lookup_insert_eq by by eapply lookup_lt_Some|].
        intros k Hk. rewrite list_lookup_insert_ne; [done|]. intros <-. by apply (Hk i); [left|].
      * split; [intros j Hj; apply V1; by rewrite R|intros k Hk; apply V2; intros j Hj; apply Hk; by rewrite <- R].
    + replace (2 * length (i :: forest_ids ts) + f)%nat with (S (2 * length (forest_ids (reverse ts)) + S f)) by (rewrite R; cbn [length]; lia).
      cbn [dfs root]. rewrite En, (Hf i) by left. cbn [default]. rewrite Ec.
      replace (reverse ((fun c => (c, false)) <$> (root <$> ts))) with ((fun s => (root s, false)) <$> reverse ts)
        by by rewrite <- list_fmap_compose, fmap_reverse.
      rewrite D. cbn [dfs]. rewrite En. f_equal. cbn [post]. rewrite app_assoc. by rewrite fmap_reverse.
Qed.

Lemma edges_of_tree s : S (sum_list_with (fun x => S (length x.2)) (shape s)) = (2 * length (tree_ids s))%nat.
Proof.
  induction s as [i ts IH] using tree_induction. rewrite shapes_unfold, tree_ids_unfold. cbn [sum_list_with length snd]. rewrite length_fmap.
  assert (E : (length ts + sum_list_with (fun x => S (length x.2)) (concat (shape <$> ts)) = 2 * length (forest_ids ts))%nat); [|lia].
  unfold forest_ids. induction IH as [|s ts Hs IH IH']; [done|]. rewrite !fmap_cons. cbn [concat length]. rewrite sum_list_with_app, length_app. lia.
Qed.

Lemma order_tree : order T = Ret (post t).
Proof.
  rewrite (order_front T (root t)) by apply HT.
  destruct (dfs_tree t) with (f := 1%nat) (visited := replicate (length T) false) (wk := @nil (Z * bool)) (acc := @nil Z) as (v & _ & D).
  - done.
  - rewrite <- (spells_ids _ _ HT). apply HT.
  - intros i Hi. apply lookup_replicate_2, idx_of_lt. by eapply tree_ids_in.
  - assert (F : dfs_fuel T = (2 * length (tree_ids t) + 1)%nat).
    { unfold dfs_fuel. rewrite <- (edges_of_tree t), <- (sp_shape _ _ HT). rewrite Nat.add_1_r. do 2 f_equal.
      generalize T. intros T0. induction T0 as [|n T0 IH]; [done|]. cbn. by rewrite IH. }
    by rewrite F, D.
Qed.

(** ** Sums over subtrees *)

Context (self : list Z) (Hself : length self = length T) (Hpos : Forall (fun d => 0 <= d) self).

Definition self_at (i : Z) : Z := default 0 (self !! idx i).
Definition tree_time (s : call_tree) : Z := foldr Z.add 0 (self_at <$> tree_ids s).
Definition forest_time (ts : list call_tree) : Z := foldr Z.add 0 (tree_time <$> ts).

Fixpoint subtrees_of (s : call_tree) : list call_tree := let 'Tree i ts := s in s :: concat (map subtrees_of ts).

Lemma self_at_nonneg i : 0 <= self_at i.
Proof.
  unfold self_at. destruct (self !! idx i) as [d|] eqn:E; cbn; [|done]. rewrite Forall_forall in Hpos. apply Hpos. by eapply list_elem_of_lookup_2.
Qed.

Lemma tree_time_nonneg s : 0 <= tree_time s.
Proof. apply sum_nonneg, self_at_nonneg. Qed.

Lemma tree_time_unfold i ts : tree_time (Tree i ts) = self_at i + forest_time ts.
Proof.
  unfold tree_time, forest_time. rewrite tree_ids_unfold, fmap_cons. cbn [foldr]. f_equal. unfold forest_ids.
  induction ts as [|s ts IH]; [done|]. rewrite !fmap_cons. cbn [concat foldr]. rewrite fmap_app, sum_app, IH. done.
Qed.

Lemma subtrees_unfold i ts : subtrees_of (Tree i ts) = Tree i ts :: concat (subtrees_of <$> ts).
Proof. done. Qed.

Lemma subtrees_self s : s ∈ subtrees_of s.
Proof. destruct s. left. Qed.

Lemma subtrees_ids u s : u ∈ subtrees_of s -> tree_ids u ⊆ tree_ids s.
Proof.
  induction s as [i ts IH] using tree_induction. rewrite Forall_forall in IH. rewrite subtrees_unfold.
  intros [-> | Hu]%elem_of_cons; [done|]. apply elem_of_concat_fmap in Hu as (s & Hs & Hu). intros j Hj.
  rewrite tree_ids_unfold. right. apply forest_ids_elem. exists s. split; [done|]. by apply (IH s).
Qed.

(** [totals'] is [totals] with the time of every subtree of [ts] at its root. *)
Record summed (ts : list call_tree) (totals totals' : list Z) : Prop := {
  su_length : length totals' = length totals;
  su_inside : forall s u, s ∈ ts -> u ∈ subtrees_of s -> totals' !! idx (root u) = Some (tree_time u);
  su_outside : forall k, (forall i, i ∈ forest_ids ts -> k <> idx i) -> totals' !! k = totals !! k }.

Lemma sum_forest ts totals : (forall s, s ∈ ts -> totals !! idx (root s) = Some (tree_time s)) ->
  forall a, 0 <= a -> a + forest_time ts < 2 ^ 63 ->
  foldl (fun t c => t ← t; subtotal T totals t c) (Ret a) (root <$> ts) = Ret (a + forest_time ts).
Proof.
  induction ts as [|s ts IH]; intros H a Ha Hb; cbn [fmap list_fmap foldl].
  - unfold forest_time. cbn. by rewrite Z.add_0_r.
  - unfold forest_time in *. rewrite fmap_cons in *. cbn [foldr] in *. pose proof (tree_time_nonneg s).
    pose proof (sum_nonneg tree_time ts tree_time_nonneg). unfold subtotal at 2. rewrite bind_Ret, H by left. rewrite add_i64_Ret by lia.
    change (list_fmap ?A ?B ?f ts) with (f <$> ts). rewrite IH; [f_equal; lia| |lia|lia]. intros u Hu. apply H. by right.
Qed.

Definition total_tree_ok (s : call_tree) : Prop := shape s ⊆ shape t -> NoDup (tree_ids s) -> tree_time s < 2 ^ 63 -> forall rest totals,
  length totals = length T -> exists totals', summed [s] totals totals' /\ total_loop T self (post s ++ rest) totals = total_loop T self rest totals'.

Lemma total_forest ts : Forall total_tree_ok ts -> Forall (fun s => shape s ⊆ shape t) ts -> NoDup (forest_ids ts) -> forest_time ts < 2 ^ 63 ->
  forall rest totals, length totals = length T ->
  exists totals', summed ts totals totals' /\ total_loop T self (concat (post <$> ts) ++ rest) totals = total_loop T self rest totals'.
Proof.
  induction 1 as [|s ts Hs Hts IH]; intros Hsh HN Hb rest totals Hl.
  - exists totals. split; [|done]. split; [done| |done]. by intros s u ?%elem_of_nil.
  - apply Forall_cons in Hsh as [Hsh Hshs]. unfold forest_ids, forest_time in *. rewrite !fmap_cons in *. cbn [concat foldr] in *.
    apply NoDup_app in HN as (N1 & N2 & N3). pose proof (tree_time_nonneg s). pose proof (sum_nonneg tree_time ts tree_time_nonneg).
    rewrite <- app_assoc. destruct (Hs Hsh N1 ltac:(lia) (concat (post <$> ts) ++ rest) totals Hl) as (t1 & [L1 I1 O1] & E1).
    destruct (IH Hshs N3 ltac:(lia) rest t1) as (t2 & [L2 I2 O2] & E2); [congruence|]. exists t2. split; [|by rewrite E1].
    split; [congruence| |].
    + intros s' u [-> | Hs']%elem_of_cons Hu; [|by eapply I2]. rewrite O2; [by apply (I1 s); [left|]|].
      intros i Hi E. pose proof (subtrees_ids u s Hu _ (root_in_ids u)) as Hr. apply (N2 (root u)); [done|].
      replace (root u) with i; [done|]. symmetry. apply (idx_of_inj T); [by apply (tree_ids_in s)| |done].
      apply forest_ids_elem in Hi as (v & Hv & Hi). rewrite Forall_forall in Hshs. by apply (tree_ids_in v); [apply Hshs|].
    + intros k Hk. rewrite O2, O1; [done|..].
      * intros i Hi. apply Hk. unfold forest_ids in Hi. cbn in Hi. rewrite app_nil_r in Hi. apply elem_of_app. by left.
      * intros i Hi. apply Hk. apply elem_of_app. by right.
Qed.

Lemma total_tree s : total_tree_ok s.
Proof.
  induction s as [i ts IH] using tree_induction. intros Hsh HN Hb rest totals Hl.
  destruct (tree_node (Tree i ts) i (root <$> ts)) as (n & En & Ei & Ec); [done|by apply shape_elem; left|].
  rewrite tree_ids_unfold in HN. apply NoDup_cons in HN as [N1 N2]. rewrite tree_time_unfold in Hb. pose proof (self_at_nonneg i) as Hi.
  assert (R : forest_ids (reverse ts) ≡ₚ forest_ids ts) by (unfold forest_ids; by rewrite reverse_Permutation).
  assert (Sh : Forall (fun s => shape s ⊆ shape t) ts) by (apply Forall_forall; intros s Hs x Hx; apply Hsh; by eapply shape_child).
  assert (Rt : forest_time (reverse ts) = forest_time ts).
  { unfold forest_time. rewrite fmap_reverse. generalize (tree_time <$> ts). intros l. induction l as [|x l IHl]; [done|].
    rewrite reverse_cons, sum_app, IHl. cbn. lia. }
  destruct (total_forest (reverse ts)) with (rest := i :: rest) (totals := totals) as (t1 & [L1 I1 O1] & E1);
    [by apply Forall_reverse|by apply Forall_reverse|by rewrite R|lia|done|].
  assert (In : forall u, u ∈ ts -> forall v, v ∈ subtrees_of u -> t1 !! idx (root v) = Some (tree_time v)) by (intros u Hu v; apply I1; by rewrite elem_of_reverse).
  assert (Lt : (idx i < length t1)%nat) by (rewrite L1, Hl; by eapply lookup_lt_Some).
  exists (<[idx i := tree_time (Tree i ts)]> t1). split.
  - split; [by rewrite length_insert|..].
    + intros s u ->%list_elem_of_singleton [-> | Hu]%elem_of_cons; [by rewrite list_lookup_insert_eq|].
      apply elem_of_concat_fmap in Hu as (s & Hs & Hu). rewrite list_lookup_insert_ne; [by eapply In|]. intros E.
      pose proof (subtrees_ids u s Hu _ (root_in_ids u)) as Hr. apply N1. replace i with (root u); [apply forest_ids_elem; eauto|].
      rewrite Forall_forall in Sh. symmetry. apply (idx_of_inj T); [|by apply (tree_ids_in s); [apply Sh|]|done].
      apply (tree_ids_in (Tree i ts)); [done|]. rewrite tree_ids_unfold. left.
    + intros k Hk. unfold forest_ids in Hk. rewrite fmap_cons in Hk. cbn [fmap list_fmap concat] in Hk. rewrite app_nil_r, tree_ids_unfold in Hk.
      rewrite list_lookup_insert_ne; [|intros <-; by apply (Hk i); [left|]]. apply O1. intros j Hj. apply Hk. right. by rewrite <- R.
  - cbn [post]. rewrite <- app_assoc. cbn [app]. change (map post ts) with (post <$> ts). rewrite <- fmap_reverse, E1. cbn [total_loop]. rewrite En.
    destruct (lookup_lt_is_Some_2 self (idx i)) as [d Hd]; [rewrite Hself; by eapply lookup_lt_Some|].
    assert (Ed : self_at i = d) by (unfold self_at; by rewrite Hd). rewrite Hd. cbn [checked]. rewrite bind_Ret, Ec.
    rewrite sum_forest; [|intros s Hs; apply (In s Hs), subtrees_self|lia|lia]. rewrite bind_Ret, tree_time_unfold. by rewrite Ed.
Qed.

(** On a table that spells a tree the traversal gives every node the time of its
    whole subtree: its own and that of all nodes below it. *)
Lemma totals_are_subtree_sums : tree_time t < 2 ^ 63 ->
  exists totals, total_us_by_node T self = Ret totals /\ forall u, u ∈ subtrees_of t -> totals !! idx (root u) = Some (tree_time u).
Proof.
  intros Hb. unfold total_us_by_node. rewrite order_tree, bind_Ret.
  destruct (total_tree t) with (rest := @nil Z) (totals := replicate (length T) 0) as (totals & [L I O] & E); [done| |done|apply length_replicate|].
  - rewrite <- (spells_ids _ _ HT). apply HT.
  - exists totals. rewrite app_nil_r in E. split; [done|]. intros u Hu. by apply (I t u); [left|].
Qed.
End OnTree.

(** * Sums of weights *)

Definition zsum (l : list Z) : Z := foldr Z.add 0 l.

Lemma zsum_cons x l : zsum (x :: l) = x + zsum l.
Proof. done. Qed.

(** The weight of the elements a test picks. *)
Definition weigh {A} (f : A -> bool) (xs : list A) (ds : list Z) : Z := zsum (zip_with (fun x d => if f x then d else 0) xs ds).

Lemma weigh_cons {A} (f : A -> bool) x xs d ds : weigh f (x :: xs) (d :: ds) = (if f x then d else 0) + weigh f xs ds.
Proof. done. Qed.

Lemma weigh_ext {A} (f g : A -> bool) xs ds : (forall x, x ∈ xs -> f x = g x) -> weigh f xs ds = weigh g xs ds.
Proof.
  revert ds. induction xs as [|x xs IH]; intros [|d ds] H; [done..|]. rewrite !weigh_cons, (H x) by left. f_equal; apply IH.
  intros y Hy. apply H. by right.
Qed.

Lemma weigh_map {A B} (f : B -> bool) (g : A -> B) xs ds : weigh f (g <$> xs) ds = weigh (fun x => f (g x)) xs ds.
Proof. revert ds. induction xs as [|x xs IH]; intros [|d ds]; [done..|]. rewrite fmap_cons, !weigh_cons, IH. done. Qed.

Lemma weigh_le {A} (f g : A -> bool) xs ds : Forall (fun d => 0 < d) ds -> (forall x, f x = true -> g x = true) ->
  0 <= weigh f xs ds <= weigh g xs ds.
Proof.
  intros Hd H. revert xs. induction Hd as [|d ds Hd Hds IH]; intros [|x xs]; [cbn; lia..|]. rewrite !weigh_cons. specialize (IH xs).
  specialize (H x). destruct (f x), (g x); lia || by specialize (H eq_refl).
Qed.

Lemma weigh_all {A} (f : A -> bool) xs ds : length ds = length xs -> (forall x, x ∈ xs -> f x = true) -> weigh f xs ds = zsum ds.
Proof.
  revert ds. induction xs as [|x xs IH]; intros [|d ds] Hl H; [done..|]. rewrite weigh_cons, (H x) by left. cbn [zsum foldr]. f_equal.
  apply IH; [by injection Hl|]. intros y Hy. apply H. by right.
Qed.

Lemma weigh_none {A} (f : A -> bool) xs ds : (forall x, x ∈ xs -> f x = false) -> weigh f xs ds = 0.
Proof.
  revert ds. induction xs as [|x xs IH]; intros [|d ds] H; [done..|]. rewrite weigh_cons, (H x) by left. rewrite IH; [done|].
  intros y Hy. apply H. by right.
Qed.

Lemma weigh_app {A} (f : A -> bool) xs ys ds es : length ds = length xs -> weigh f (xs ++ ys) (ds ++ es) = weigh f xs ds + weigh f ys es.
Proof.
  revert ds. induction xs as [|x xs IH]; intros [|d ds] Hl; [done..|]. injection Hl as Hl. cbn [app]. rewrite !weigh_cons, IH by done. lia.
Qed.

Lemma zsum_perm l l' : l ≡ₚ l' -> zsum l = zsum l'.
Proof. unfold zsum. induction 1; cbn; lia. Qed.

Lemma zsum_map_add {A} (f g : A -> Z) l : zsum ((fun x => f x + g x) <$> l) = zsum (f <$> l) + zsum (g <$> l).
Proof. induction l as [|x l IH]; [done|]. rewrite !fmap_cons, !zsum_cons, IH. lia. Qed.

Lemma zsum_map_ext {A} (f g : A -> Z) l : (forall x, x ∈ l -> f x = g x) -> zsum (f <$> l) = zsum (g <$> l).
Proof. intros H. f_equal. apply list_fmap_ext. intros i x Hx. apply H. by eapply list_elem_of_lookup_2. Qed.

Lemma zsum_zero {A} (l : list A) : zsum ((fun _ => 0) <$> l) = 0.
Proof. by induction l. Qed.

(** Weights sorted into classes add up to the weight of all of them. *)
Lemma weigh_classes {A K} `{EqDecision K} (g : A -> K) (ks : list K) xs ds : NoDup ks ->
  zsum ((fun k => weigh (fun x => bool_decide (g x = k)) xs ds) <$> ks) = weigh (fun x => bool_decide (g x ∈ ks)) xs ds.
Proof.
  intros HN. revert ds. induction xs as [|x xs IH]; intros [|d ds]; try (etrans; [|by apply (zsum_zero ks)]; done).
  rewrite weigh_cons, <- IH. etrans; [by apply (zsum_map_add (fun k => if bool_decide (g x = k) then d else 0))|]. f_equal.
  clear IH. induction HN as [|k ks Hk HN IH]; [done|]. rewrite fmap_cons, zsum_cons, IH. destruct (decide (g x = k)) as [->|Hne].
  - rewrite bool_decide_eq_true_2, (bool_decide_eq_false_2 (k ∈ ks)), bool_decide_eq_true_2 by (done || left). lia.
  - rewrite (bool_decide_eq_false_2 (g x = k)) by done. case_bool_decide as H1; case_bool_decide as H2; try lia; exfalso; set_solver.
Qed.

(** * Time per node *)

(** A tree whose samples have positive times that can be added up. *)
Record timed (p : profile_data) (t : call_tree) : Prop := {
  ti_source : source p (Some t);
  ti_length : length (time_deltas p) = length (samples p);
  ti_pos : Forall (fun d => 0 < d) (time_deltas p);
  ti_sum : zsum (time_deltas p) < 2 ^ 63;
  ti_lines : Forall (fun n => line_number (frame n) < 2 ^ 31 - 1) (nodes p) }.

Lemma positive_sum_pos ds : Forall (fun d => 0 < d) ds -> positive_sum ds = zsum ds.
Proof. induction 1 as [|d ds Hd Hds IH]; [done|]. rewrite zsum_cons, <- IH. cbn [positive_sum foldr]. fold (positive_sum ds). lia. Qed.

Lemma zsum_pos ds : Forall (fun d => 0 < d) ds -> 0 <= zsum ds.
Proof. induction 1; [done|]. rewrite zsum_cons. lia. Qed.

Lemma self_loop_spec T mean ss : forall ds self bound, ss ⊆ node_id <$> T -> length ds = length ss -> Forall (fun d => 0 < d) ds ->
  length self = length T -> Forall (fun d => 0 <= d <= bound) self -> bound + zsum ds < 2 ^ 63 ->
  exists self', self_loop T mean ss ds self = Ret self' /\ length self' = length T /\
    forall k x, self !! k = Some x -> self' !! k = Some (x + weigh (fun i => bool_decide (idx_of T i = k)) ss ds).
Proof.
  induction ss as [|i ss IH]; intros [|d ds] self bound Hss Hl Hd HlT Hb Hs; try done.
  - exists self. split; [done|]. split; [done|]. intros k x Hx. by rewrite Z.add_0_r.
  - apply Forall_cons in Hd as [Hd Hds]. injection Hl as Hl. rewrite zsum_cons in Hs. pose proof (zsum_pos ds Hds). cbn [self_loop tail].
    destruct (Z.leb_spec d 0); [lia|]. assert (Hi : (idx_of T i < length T)%nat) by (apply idx_of_lt, Hss; left).
    destruct (lookup_lt_is_Some_2 self (idx_of T i)) as [x Ex]; [lia|]. rewrite Forall_forall in Hb.
    pose proof (Hb x ltac:(by eapply list_elem_of_lookup_2)). unfold credit. rewrite Ex, add_i64_Ret, !bind_Ret by lia.
    destruct (IH ds (<[idx_of T i := x + d]> self) (bound + d)) as (self' & E & L & G); [|done|done|by rewrite length_insert| |lia|].
    + intros j Hj. apply Hss. by right.
    + apply Forall_forall. intros y [k Hk]%list_elem_of_lookup. apply list_lookup_insert_Some in Hk as [(_ & <- & _)|[_ Hk]]; [lia|].
      pose proof (Hb y ltac:(by eapply list_elem_of_lookup_2)). lia.
    + exists self'. split; [done|]. split; [done|]. intros k y Ey. rewrite weigh_cons. case_bool_decide as Hk.
      * subst k. rewrite Ex in Ey. injection Ey as <-. rewrite (G (idx_of T i) (x + d)); [f_equal; lia|]. apply list_lookup_insert_eq. lia.
      * rewrite (G k y); [done|]. by rewrite list_lookup_insert_ne.
Qed.

Section Timed.
Context (p : profile_data) (t : call_tree) (Hp : timed p t).

Notation T := (nodes p).
Notation ss := (samples p).
Notation ds := (time_deltas p).

Lemma timed_ids : NoDup (node_id <$> T).
Proof. apply (so_tree _ _ (ti_source _ _ Hp)). Qed.

Lemma timed_total : 0 <= zsum ds < 2 ^ 63.
Proof. split; [apply zsum_pos, Hp|apply Hp]. Qed.

(** Every node has the time of the samples that end in it. *)
Lemma self_spec : exists self, self_us_by_node p = Ret self /\ length self = length T /\
  forall i, i ∈ node_id <$> T -> self !! idx_of T i = Some (weigh (fun j => bool_decide (j = i)) ss ds).
Proof.
  pose proof (so_samples _ _ (ti_source _ _ Hp)) as Hs.
  assert (Hw : forall i, i ∈ node_id <$> T -> weigh (fun j => bool_decide (idx_of T j = idx_of T i)) ss ds = weigh (fun j => bool_decide (j = i)) ss ds).
  { intros i Hi. apply weigh_ext. intros j Hj. apply bool_decide_ext. split; [|by intros ->]. apply idx_of_inj; [by apply Hs|done]. }
  unfold self_us_by_node. destruct (samples p) as [|i0 ss'] eqn:Es.
  - eexists. split; [done|]. split; [apply length_replicate|]. intros i Hi. apply lookup_replicate_2. by apply idx_of_lt.
  - rewrite <- Es in *. destruct (mean_delta_spec ds) as (mean & Em & _); [rewrite positive_sum_pos by apply Hp; apply Hp|]. rewrite Em, bind_Ret.
    destruct (self_loop_spec T mean ss ds (replicate (length T) 0) 0) as (self & E & L & G); [done|apply Hp|apply Hp|apply length_replicate| |apply timed_total|].
    + apply Forall_replicate. lia.
    + exists self. split; [done|]. split; [done|]. intros i Hi. rewrite (G _ 0), Hw by (done || by apply lookup_replicate_2, idx_of_lt). done.
Qed.

(** The list [self_us_by_node] is this one. *)
Definition self_list : list Z := (fun i => weigh (fun j => bool_decide (j = i)) ss ds) <$> (node_id <$> T).

Lemma self_list_spec : self_us_by_node p = Ret self_list.
Proof.
  destruct self_spec as (self & E & L & G). rewrite E. f_equal. apply list_eq. intros k. unfold self_list. rewrite !list_lookup_fmap.
  destruct (T !! k) as [n|] eqn:En; cbn.
  - rewrite <- (G (node_id n)) by (apply list_elem_of_fmap_2; by eapply list_elem_of_lookup_2). f_equal. 
    pose proof (idx_of_unique T n timed_ids ltac:(by eapply list_elem_of_lookup_2)) as Hi. 
    eapply (NoDup_lookup _ _ _ (node_id n) timed_ids); rewrite list_lookup_fmap; [by rewrite En|by rewrite Hi].
  - apply lookup_ge_None in En. apply lookup_ge_None. lia.
Qed.

Lemma self_list_at i : i ∈ node_id <$> T -> self_at T self_list i = weigh (fun j => bool_decide (j = i)) ss ds.
Proof.
  intros Hi. destruct (idx_of_in T i Hi) as (n & En & Ei). unfold self_at, self_list. rewrite !list_lookup_fmap, En. cbn. by rewrite Ei.
Qed.

Lemma length_self_list : length self_list = length T.
Proof. unfold self_list. by rewrite !length_fmap. Qed.

Lemma self_list_nonneg : Forall (fun d => 0 <= d) self_list.
Proof.
  apply Forall_fmap, Forall_true. intros i. cbn. apply (weigh_le _ (fun _ => true)); [apply Hp|done].
Qed.

Lemma classes_of_ids l : NoDup l -> zsum ((fun i => weigh (fun j => bool_decide (j = i)) ss ds) <$> l) = weigh (fun j => bool_decide (j ∈ l)) ss ds.
Proof. apply (weigh_classes id). Qed.

Lemma zsum_self_list : zsum self_list = zsum ds.
Proof.
  unfold self_list. rewrite classes_of_ids by apply timed_ids. apply weigh_all; [apply Hp|]. intros j Hj. apply bool_decide_eq_true_2.
  by apply (so_samples _ _ (ti_source _ _ Hp)).
Qed.

Lemma accounted_spec : sum_i64 self_list 0 = Ret (zsum ds).
Proof.
  pose proof timed_total. rewrite sum_i64_spec; [fold (zsum self_list); by rewrite zsum_self_list|apply self_list_nonneg|done|].
  fold (zsum self_list). rewrite zsum_self_list. lia.
Qed.

(** A subtree has the time of the samples inside it. *)
Lemma tree_time_spec u : NoDup (tree_ids u) -> tree_ids u ⊆ node_id <$> T ->
  tree_time T self_list u = weigh (fun j => bool_decide (j ∈ tree_ids u)) ss ds.
Proof.
  intros HN Hu. rewrite <- classes_of_ids by done. unfold tree_time. apply (zsum_map_ext (self_at T self_list)). intros i Hi.
  by apply self_list_at, Hu.
Qed.
End Timed.

(** * Parents *)

Definition edges (T : list profile_node) : list (Z * Z) := T ≫= fun n => (fun c => (c, node_id n)) <$> children n.

Lemma parents_edges T : parents T = foldl (fun ps e => <[idx_of T e.1 := e.2]> ps) (replicate (length T) 0) (edges T).
Proof.
  unfold parents, edges. generalize (replicate (length T) 0). generalize T at 2 4. intros U. induction U as [|n U IH]; intros ps; [done|].
  cbn [foldl]. rewrite IH. change ((n :: U) ≫= ?f) with (f n ++ (U ≫= f)). rewrite foldl_app. f_equal. clear. revert ps.
  induction (children n) as [|c cs IH]; intros ps; [done|]. cbn. by rewrite IH.
Qed.

Lemma edges_elem T c i : (c, i) ∈ edges T <-> exists n, n ∈ T /\ c ∈ children n /\ i = node_id n.
Proof.
  unfold edges. rewrite list_elem_of_bind. split.
  - intros (n & H & Hn). apply list_elem_of_fmap in H as (c' & [= <- ->] & Hc). eauto.
  - intros (n & Hn & Hc & ->). exists n. split; [|done]. apply list_elem_of_fmap. eauto.
Qed.

(** The last edge to a node decides, when edges to one node agree. *)
Lemma assign_edges T es : (forall e, e ∈ es -> e.1 ∈ node_id <$> T) -> (forall e e', e ∈ es -> e' ∈ es -> e.1 = e'.1 -> e.2 = e'.2) ->
  forall i, i ∈ node_id <$> T ->
  ((forall e, e ∈ es -> e.1 <> i) -> foldl (fun ps e => <[idx_of T e.1 := e.2]> ps) (replicate (length T) 0) es !! idx_of T i = Some 0) /\
  (forall e, e ∈ es -> e.1 = i -> foldl (fun ps e => <[idx_of T e.1 := e.2]> ps) (replicate (length T) 0) es !! idx_of T i = Some e.2).
Proof.
  induction es as [|e es IH] using rev_ind; intros Hin Hu i Hi.
  - split; [|by intros e ?%elem_of_nil]. intros _. by apply lookup_replicate_2, idx_of_lt.
  - rewrite foldl_app. cbn [foldl]. set (ps := foldl _ _ es) in *.
    assert (L : length ps = length T).
    { unfold ps. clear. set (z := replicate (length T) 0). assert (E : length z = length T) by apply length_replicate. rewrite <- E. clearbody z. clear E.
      revert z. induction es as [|e es IH]; intros z; [done|]. cbn. by rewrite IH, length_insert. }
    assert (He : e.1 ∈ node_id <$> T) by (apply Hin, elem_of_app; right; left).
    destruct (IH) with (i := i) as [I1 I2]; [intros e' He'; apply Hin, elem_of_app; by left| |done|].
    { intros e1 e2 H1 H2. apply Hu; apply elem_of_app; by left. }
    destruct (decide (e.1 = i)) as [<-|Hne].
    + rewrite list_lookup_insert_eq by (rewrite L; by apply idx_of_lt). split.
      * intros Hno. exfalso. apply (Hno e); [|done]. apply elem_of_app. right. left.
      * intros e' He' E. f_equal. apply Hu; [apply elem_of_app; right; left|done|done].
    + rewrite list_lookup_insert_ne by (intros E; apply Hne; by apply (idx_of_inj T)). split.
      * intros Hno. apply I1. intros e' He'. apply Hno, elem_of_app. by left.
      * intros e' [He'|He']%elem_of_app E; [by apply I2|]. apply list_elem_of_singleton in He' as ->. done.
Qed.

(** Every node of a tree but its root is a child once. *)
Lemma tree_children t : tree_ids t ≡ₚ root t :: concat (snd <$> shape t).
Proof.
  induction t as [i ts IH] using tree_induction. rewrite tree_ids_unfold, shapes_unfold. cbn [root fmap list_fmap concat snd]. apply Permutation_cons; [done|].
  unfold forest_ids. induction IH as [|s ts Hs IH IH']; [done|]. rewrite !fmap_cons. cbn [concat]. rewrite fmap_app, concat_app, IH', Hs. cbn [app].
  solve_Permutation.
Qed.

Lemma table_children T t : spells T t -> node_id <$> T ≡ₚ root t :: concat (children <$> T).
Proof.
  intros S. rewrite (spells_ids _ _ S), tree_children. apply Permutation_cons; [done|].
  assert (E : snd <$> shape t ≡ₚ children <$> T) by (rewrite <- (sp_shape _ _ S), <- list_fmap_compose; done).
  clear - E. induction E; cbn; [done|by f_equiv|solve_Permutation|by etrans].
Qed.

Lemma concat_unique {A B} (f : A -> list B) l a b x : NoDup (concat (f <$> l)) -> a ∈ l -> b ∈ l -> x ∈ f a -> x ∈ f b -> a = b.
Proof.
  induction l as [|y l IH]; [by intros _ ?%elem_of_nil|]. rewrite fmap_cons. cbn [concat]. intros (N1 & N2 & N3)%NoDup_app Ha Hb Hxa Hxb.
  apply elem_of_cons in Ha as [-> | Ha]; apply elem_of_cons in Hb as [-> | Hb]; [done| | |by apply IH].
  - exfalso. apply (N2 x Hxa). apply elem_of_concat_fmap. eauto.
  - exfalso. apply (N2 x Hxb). apply elem_of_concat_fmap. eauto.
Qed.

Lemma parents_spec T t : spells T t ->
  (forall n c, n ∈ T -> c ∈ children n -> parents T !! idx_of T c = Some (node_id n)) /\ parents T !! idx_of T (root t) = Some 0.
Proof.
  intros S. pose proof (sp_ids _ _ S) as HN. rewrite (table_children _ _ S) in HN. apply NoDup_cons in HN as [N1 N2].
  assert (Hin : forall e, e ∈ edges T -> e.1 ∈ node_id <$> T).
  { intros [c i] (n & Hn & Hc & ->)%edges_elem. by eapply spells_children. }
  assert (Hu : forall e e', e ∈ edges T -> e' ∈ edges T -> e.1 = e'.1 -> e.2 = e'.2).
  { intros [c i] [c' i'] (n & Hn & Hc & ->)%edges_elem (n' & Hn' & Hc' & ->)%edges_elem. cbn. intros <-. f_equal. by eapply concat_unique. }
  rewrite parents_edges. pose proof (assign_edges T (edges T) Hin Hu) as G. split.
  - intros n c Hn Hc. destruct (G c) as [_ G2]; [by eapply spells_children|]. apply (G2 (c, node_id n)); [|done]. apply edges_elem. eauto.
  - destruct (G (root t)) as [G1 _]; [rewrite (spells_ids _ _ S); apply root_in_ids|]. apply G1. intros [c i] (n & Hn & Hc & _)%edges_elem. cbn. intros ->.
    apply N1. apply elem_of_concat_fmap. eauto.
Qed.

(** ** Climbing *)

(** The nodes from a node up to the root. *)
Inductive climbs (T : list profile_node) (ps : list Z) : Z -> list profile_node -> Prop :=
| climbs_root i n : 0 < i -> T !! idx_of T i = Some n -> ps !! idx_of T i = Some 0 -> climbs T ps i [n]
| climbs_up i n pid l : 0 < i -> T !! idx_of T i = Some n -> ps !! idx_of T i = Some pid -> climbs T ps pid l -> climbs T ps i (n :: l).

Lemma climbs_pos T ps i l : climbs T ps i l -> 0 < i.
Proof. by destruct 1. Qed.

Lemma climbs_fun T ps i l l' : climbs T ps i l -> climbs T ps i l' -> l = l'.
Proof.
  intros H. revert l'. induction H as [i n Hi Hn Hp|i n pid l Hi Hn Hp Hl IH]; intros l' H'; inversion H' as [i' n' Hi' Hn' Hp'|i' n' pid' l2 Hi' Hn' Hp' Hl']; simplify_eq.
  - done.
  - apply climbs_pos in Hl'. lia.
  - apply climbs_pos in Hl. lia.
  - f_equal. by apply IH.
Qed.

Lemma climbs_tail T ps i l m : climbs T ps i l -> m ∈ l -> exists l1 l2, l = l1 ++ l2 /\ climbs T ps (node_id m) l2.
Proof.
  induction 1 as [i n Hi Hn Hp|i n pid l Hi Hn Hp Hl IH]; intros Hm.
  - apply list_elem_of_singleton in Hm as ->. exists [], [n]. split; [done|]. rewrite (idx_of_Some _ _ _ Hn). by constructor.
  - apply elem_of_cons in Hm as [-> | Hm].
    + exists [], (n :: l). split; [done|]. rewrite (idx_of_Some _ _ _ Hn). by econstructor.
    + destruct (IH Hm) as (l1 & l2 & -> & H). by exists (n :: l1), l2.
Qed.

Lemma climbs_NoDup T ps i l : climbs T ps i l -> NoDup l.
Proof.
  induction 1 as [i n Hi Hn Hp|i n pid l Hi Hn Hp Hl IH]; [apply NoDup_singleton|]. apply NoDup_cons. split; [|done]. intros Hm.
  destruct (climbs_tail _ _ _ _ _ Hl Hm) as (l1 & l2 & -> & H). rewrite (idx_of_Some _ _ _ Hn) in H.
  assert (H' : climbs T ps i (n :: l1 ++ l2)) by by econstructor. pose proof (climbs_fun _ _ _ _ _ H H') as E.
  apply (f_equal length) in E. cbn in E. rewrite length_app in E. lia.
Qed.

Lemma climbs_in T ps i l : climbs T ps i l -> l ⊆ T.
Proof.
  induction 1 as [i n Hi Hn Hp|i n pid l Hi Hn Hp Hl IH]; intros m Hm.
  - apply list_elem_of_singleton in Hm as ->. by eapply list_elem_of_lookup_2.
  - apply elem_of_cons in Hm as [-> | Hm]; [by eapply list_elem_of_lookup_2|auto].
Qed.

Lemma climbs_length T ps i l : climbs T ps i l -> (length l <= length T)%nat.
Proof. intros H. apply submseteq_length, NoDup_submseteq; [by eapply climbs_NoDup|by eapply climbs_in]. Qed.

(** A path read upwards. *)
Lemma path_climbs T t i fs r : spells T t -> Forall (fun n => 0 < node_id n) T -> list.head T = Some r -> path T i fs ->
  exists l, climbs T (parents T) i l /\ frame <$> l = reverse fs ++ [frame r].
Proof.
  intros S Hpos Hr. destruct (parents_spec _ _ S) as [P1 P2]. rewrite Forall_forall in Hpos. pose proof (sp_ids _ _ S) as HN.
  assert (Er : node_id r = root t) by (pose proof (sp_root _ _ S) as E; rewrite Hr in E; by injection E).
  induction 1 as [n Hn|fs np n Hp IH Hnp Hn Hc].
  - rewrite Hr in Hn. injection Hn as <-. assert (In : r ∈ T) by (destruct T; [done|]; injection Hr as ->; left).
    exists [r]. split; [|done]. apply climbs_root; [by apply Hpos|by apply idx_of_unique|by rewrite Er].
  - destruct IH as (l & Hl & El). exists (n :: l). split.
    + eapply climbs_up; [by apply Hpos|by apply idx_of_unique|by apply (P1 np)|done].
    + rewrite fmap_cons, El, reverse_app. done.
Qed.

(** * Time per function *)

Lemma entry_insert k k' a m : entry k (<[k' := a]> m) = if bool_decide (k = k') then a else entry k m.
Proof. unfold entry. case_bool_decide as H; [subst; by rewrite lookup_insert_eq|by rewrite lookup_insert_ne]. Qed.

(** Entries are filed under their own name and URL. *)
Definition filed (m : by_fn) : Prop := forall k a, m !! k = Some a -> (a_fn a, a_url a) = k.

Lemma note_line_spec n a : line_number (frame n) < 2 ^ 31 - 1 ->
  exists a', note_line n a = Ret a' /\ self_us a' = self_us a /\ total_us a' = total_us a /\ a_fn a' = a_fn a /\ a_url a' = a_url a.
Proof.
  intros H. unfold note_line. destruct (Z.leb_spec 0 (line_number (frame n))); [|by exists a]. rewrite add_int_Ret, bind_Ret by lia.
  eexists. split; [done|]. by destruct (line_set a).
Qed.

Lemma add_nodes_spec T : forall self m, length self = length T -> Forall (fun d => 0 <= d) self ->
  Forall (fun n => line_number (frame n) < 2 ^ 31 - 1) T -> (forall k, 0 <= self_us (entry k m) /\ self_us (entry k m) + zsum self < 2 ^ 63) -> filed m ->
  exists m', add_nodes T self m = Ret m' /\
    (forall k, self_us (entry k m') = self_us (entry k m) + weigh (fun n => bool_decide (node_key n = k)) T self) /\
    (forall k, total_us (entry k m') = total_us (entry k m)) /\
    (forall k, k ∈ dom m' <-> k ∈ node_key <$> T \/ k ∈ dom m) /\ filed m'.
Proof.
  induction T as [|n T IH]; intros [|d self] m Hl Hd HL Hb Hf; try done.
  - exists m. split; [done|]. split; [intros k; cbn; lia|]. split; [done|]. split; [|done]. intros k. rewrite elem_of_nil. naive_solver.
  - injection Hl as Hl. apply Forall_cons in Hd as [Hd Hds]. apply Forall_cons in HL as [Hn HL]. cbn [add_nodes list.head checked tail]. rewrite bind_Ret.
    assert (Hz : 0 <= zsum self) by (clear - Hds; induction Hds; [done|]; rewrite zsum_cons; lia).
    setoid_rewrite zsum_cons in Hb. destruct (Hb (node_key n)) as [B1 B2]. unfold add_node. rewrite add_i64_Ret, bind_Ret by lia.
    destruct (note_line_spec n (MkAgg (function_name (frame n)) (url (frame n)) (self_us (entry (node_key n) m) + d) (total_us (entry (node_key n) m))
      (line (entry (node_key n) m)) (line_set (entry (node_key n) m))) Hn) as (a & Ea & A1 & A2 & A3 & A4).
    cbn [self_us total_us a_fn a_url] in A1, A2, A3, A4. rewrite Ea, !bind_Ret.
    destruct (IH self (<[node_key n := a]> m) Hl Hds HL) as (m' & E & S & To & D & F).
    + intros k. rewrite entry_insert. case_bool_decide as Hk; [rewrite A1; lia|]. specialize (Hb k). lia.
    + intros k b [[<- <-]|[_ Hb']]%lookup_insert_Some; [|by apply Hf]. rewrite A3, A4. done.
    + exists m'. split; [done|]. split; [|split; [|split; [|done]]].
      * intros k. rewrite S, entry_insert, weigh_cons. case_bool_decide as Hk; [subst k; rewrite A1, bool_decide_eq_true_2 by done; lia|].
        rewrite bool_decide_eq_false_2 by done. lia.
      * intros k. rewrite To, entry_insert. case_bool_decide as Hk; [by subst k|done].
      * intros k. rewrite D, dom_insert, fmap_cons, elem_of_cons. set_solver.
Qed.

(** [m'] is [m] with [d] more in the totals of the keys that [P] picks. *)
Record topped (d : Z) (P : key_t -> bool) (m m' : by_fn) : Prop := {
  to_total : forall k, total_us (entry k m') = total_us (entry k m) + if P k then d else 0;
  to_self : forall k, self_us (entry k m') = self_us (entry k m);
  to_dom : dom m' = dom m;
  to_filed : filed m -> filed m' }.

Lemma add_total_spec d k m : k ∈ dom m -> 0 <= total_us (entry k m) -> 0 <= d -> total_us (entry k m) + d < 2 ^ 63 ->
  exists m', add_total d k m = Ret m' /\ topped d (fun k' => bool_decide (k' = k)) m m'.
Proof.
  intros Hk H0 Hd Hb. unfold add_total. rewrite add_i64_Ret, bind_Ret by lia. eexists. split; [done|]. split.
  - intros k'. rewrite entry_insert. case_bool_decide as E; [by subst|cbn; lia].
  - intros k'. rewrite entry_insert. case_bool_decide as E; [by subst|done].
  - rewrite dom_insert_L. set_solver.
  - intros F k' a [[<- <-]|[_ Ha]]%lookup_insert_Some; [|by apply F]. cbn. apply elem_of_dom in Hk as [b Hb']. unfold entry. rewrite Hb'. cbn. by apply F.
Qed.

Lemma topped_trans d P Q R m1 m2 m3 : (forall k, R k = P k || Q k) -> (forall k, P k && Q k = false) ->
  topped d P m1 m2 -> topped d Q m2 m3 -> topped d R m1 m3.
Proof.
  intros HR HPQ [T1 S1 D1 F1] [T2 S2 D2 F2]. split; [|intros k; by rewrite S2|by rewrite D2|auto].
  intros k. rewrite T2, T1, HR. specialize (HPQ k). destruct (P k), (Q k); cbn in *; lia || done.
Qed.

Lemma walk_key_spec d n (seen : list key_t) m : 0 <= d -> node_key n ∈ dom m ->
  (forall k, k ∉ seen -> 0 <= total_us (entry k m) /\ total_us (entry k m) + d < 2 ^ 63) ->
  exists m', (if bool_decide (node_key n ∈ seen) then Ret m else add_total d (node_key n) m) = Ret m' /\
    topped d (fun k => negb (bool_decide (k ∈ seen)) && bool_decide (k = node_key n)) m m'.
Proof.
  intros Hd Hk Hb. case_bool_decide as Hs.
  - exists m. split; [done|]. split; try done. intros k.
    destruct (bool_decide_reflect (k = node_key n)) as [->|]; [rewrite bool_decide_eq_true_2 by done|rewrite andb_false_r]; cbn; lia.
  - destruct (Hb (node_key n) Hs). destruct (add_total_spec d (node_key n) m) as (m' & E & [T1 S1 D1 F1]); [done|lia..|]. exists m'. split; [done|].
    split; try done. intros k. rewrite T1. destruct (bool_decide_reflect (k = node_key n)) as [->|]; [by rewrite bool_decide_eq_false_2|by rewrite andb_false_r].
Qed.

Lemma stack_walk_spec T ps d cur l : climbs T ps cur l -> 0 <= d -> forall fuel (seen : list key_t) m, (length l < fuel)%nat ->
  (forall k, k ∉ seen -> 0 <= total_us (entry k m) /\ total_us (entry k m) + d < 2 ^ 63) -> (forall n, n ∈ T -> node_key n ∈ dom m) ->
  exists m', stack_walk fuel T ps d cur seen m = Ret m' /\
    topped d (fun k => negb (bool_decide (k ∈ seen)) && bool_decide (k ∈ node_key <$> l)) m m'.
Proof.
  intros H Hd. induction H as [i n Hi Hn Hp|i n pid l Hi Hn Hp Hl IH]; intros fuel seen m Hf Hb Hk; destruct fuel as [|fuel]; cbn [length] in Hf; try lia;
    cbn [stack_walk]; (destruct (Z.leb_spec i 0); [lia|]); rewrite Hn;
    (destruct (walk_key_spec d n seen m Hd) as (m1 & E1 & T1); [by apply Hk; eapply list_elem_of_lookup_2|done|]);
    rewrite E1, bind_Ret, Hp; cbn [checked]; rewrite bind_Ret.
  - destruct (Z.eqb_spec 0 i); [lia|]. destruct fuel as [|fuel]; [lia|]. exists m1. split; [done|].
    destruct T1 as [A1 A2 A3 A4]. split; try done. intros k. rewrite A1.
    rewrite (bool_decide_ext (k ∈ node_key <$> [n]) (k = node_key n)) by (cbn; by rewrite list_elem_of_singleton). done.
  - assert (Hne : pid <> i).
    { intros ->. assert (H' : climbs T ps i (n :: l)) by by eapply climbs_up. pose proof (climbs_fun _ _ _ _ _ Hl H') as E.
      apply (f_equal length) in E. cbn in E. lia. }
    destruct (Z.eqb_spec pid i); [done|]. destruct (IH fuel (node_key n :: seen) m1) as (m2 & E2 & T2); [lia| | |].
    + intros k [H1 H2]%not_elem_of_cons. rewrite (to_total _ _ _ _ T1), (bool_decide_eq_false_2 (k = node_key n)), andb_false_r by done.
      destruct (Hb k H2). lia.
    + intros n' Hn'. rewrite (to_dom _ _ _ _ T1). by apply Hk.
    + exists m2. split; [done|]. eapply topped_trans; [| |exact T1|exact T2]; intros k; cbn beta.
      * rewrite fmap_cons. destruct (bool_decide_reflect (k ∈ seen)), (bool_decide_reflect (k = node_key n)); subst; cbn.
        -- by rewrite !bool_decide_eq_true_2 by (left || by right).
        -- rewrite (bool_decide_eq_true_2 (k ∈ node_key n :: seen)) by by right. done.
        -- by rewrite bool_decide_eq_true_2 by left.
        -- rewrite (bool_decide_eq_false_2 (k ∈ node_key n :: seen)) by set_solver. cbn. apply bool_decide_ext. set_solver.
      * destruct (bool_decide_reflect (k = node_key n)) as [->|]; [|by rewrite andb_false_r].
        rewrite (bool_decide_eq_true_2 (node_key n ∈ node_key n :: seen)) by left. cbn. by rewrite andb_false_r.
Qed.

(** ** Stacks *)

Definition frame_key (f : call_frame) : key_t := (function_name f, url f).

(** The frames of a stack, the root's first. *)
Definition stack_keys (r : profile_node) (fs : list call_frame) : list key_t := frame_key <$> frame r :: fs.
Definition leaf_key (r : profile_node) (fs : list call_frame) : key_t := default (node_key r) (last (frame_key <$> fs)).

Lemma climbs_keys l fs r : frame <$> l = reverse fs ++ [frame r] -> forall k, k ∈ node_key <$> l <-> k ∈ stack_keys r fs.
Proof.
  intros E k. assert (E' : node_key <$> l = frame_key <$> (frame <$> l)) by by rewrite <- list_fmap_compose.
  rewrite E', E, fmap_app, fmap_reverse. unfold stack_keys. rewrite fmap_cons. cbn [fmap list_fmap].
  rewrite elem_of_app, elem_of_reverse, list_elem_of_singleton, elem_of_cons. naive_solver.
Qed.

Lemma weigh_Forall2 {A B} (f : A -> bool) (g : B -> bool) xs ys ds : Forall2 (fun x y => f x = g y) xs ys -> weigh f xs ds = weigh g ys ds.
Proof. intros H. revert ds. induction H as [|x y xs ys E H IH]; intros [|d ds]; [done..|]. by rewrite !weigh_cons, E, IH. Qed.

Lemma add_stacks_spec p t r stacks ss : timed p t -> list.head (nodes p) = Some r -> Forall2 (path (nodes p)) ss stacks ->
  forall ds m, length ds = length ss -> Forall (fun d => 0 < d) ds ->
  (forall k, 0 <= total_us (entry k m) /\ total_us (entry k m) + zsum ds < 2 ^ 63) -> (forall n, n ∈ nodes p -> node_key n ∈ dom m) ->
  exists m', add_stacks p (parents (nodes p)) ss ds m = Ret m' /\
    (forall k, total_us (entry k m') = total_us (entry k m) + weigh (fun fs => bool_decide (k ∈ stack_keys r fs)) stacks ds) /\
    (forall k, self_us (entry k m') = self_us (entry k m)) /\ dom m' = dom m /\ (filed m -> filed m').
Proof.
  intros Hp Hr H. assert (Hpos : Forall (fun n => 0 < node_id n) (nodes p)).
  { apply Forall_forall. intros n Hn. apply (list_elem_of_fmap_2 node_id), (source_ids _ _ _ (ti_source _ _ Hp)) in Hn. lia. }
  induction H as [|i fs ss stacks Hi H IH]; intros [|d ds] m Hl Hd Hb Hk; try done.
  - exists m. split; [done|]. split; [intros k; cbn; lia|done].
  - apply Forall_cons in Hd as [Hd Hds]. injection Hl as Hl. setoid_rewrite zsum_cons in Hb. pose proof (zsum_pos ds Hds). cbn [add_stacks list.head tail].
    assert (Es : sample_period p (Some d) = d) by (unfold sample_period; by destruct (Z.ltb_spec 0 d); [|lia]). rewrite Es.
    destruct (path_climbs _ _ _ _ _ (so_tree _ _ (ti_source _ _ Hp)) Hpos Hr Hi) as (l & Hc & El).
    destruct (stack_walk_spec _ _ d _ _ Hc) with (fuel := walk_fuel (nodes p)) (seen := @nil key_t) (m := m) as (m1 & E1 & [T1 S1 D1 F1]); [lia| | |done|].
    { pose proof (climbs_length _ _ _ _ Hc). unfold walk_fuel. lia. }
    { intros k _. destruct (Hb k). lia. }
    assert (T1' : forall k, total_us (entry k m1) = total_us (entry k m) + if bool_decide (k ∈ stack_keys r fs) then d else 0).
    { intros k. rewrite T1, (bool_decide_eq_false_2 (k ∈ [])) by apply not_elem_of_nil. cbn [negb andb].
      by rewrite (bool_decide_ext _ _ (climbs_keys l fs r El k)). }
    rewrite E1, bind_Ret. destruct (IH ds m1 Hl Hds) as (m2 & E2 & T2 & S2 & D2 & F2).
    + intros k. rewrite T1'. destruct (Hb k). case_bool_decide; lia.
    + intros n Hn. rewrite D1. by apply Hk.
    + exists m2. split; [done|]. split; [|split; [|split; [by rewrite D2|auto]]].
      * intros k. rewrite T2, T1', weigh_cons. lia.
      * intros k. by rewrite S2.
Qed.

Lemma zsum_filter {A} (P : A -> Prop) `{forall x, Decision (P x)} (w : A -> Z) l :
  zsum ((fun x => if bool_decide (P x) then w x else 0) <$> l) = zsum (w <$> filter P l).
Proof.
  induction l as [|x l IH]; [done|]. rewrite fmap_cons, zsum_cons, IH. case_bool_decide as Hx.
  - by rewrite filter_cons_True.
  - by rewrite filter_cons_False.
Qed.

Lemma weigh_fmap {A} (f : A -> bool) (w : A -> Z) l : weigh f l (w <$> l) = zsum ((fun x => if f x then w x else 0) <$> l).
Proof. induction l as [|x l IH]; [done|]. rewrite !fmap_cons, weigh_cons, zsum_cons, IH. done. Qed.

Lemma NoDup_fmap_filter {A B} (f : A -> B) (P : A -> Prop) `{forall x, Decision (P x)} l : NoDup (f <$> l) -> NoDup (f <$> filter P l).
Proof.
  induction l as [|x l IH]; [done|]. rewrite fmap_cons. intros [H1 H2]%NoDup_cons. destruct (decide (P x)).
  - rewrite filter_cons_True, fmap_cons by done. apply NoDup_cons. split; [|auto]. intros (y & E & [_ Hy]%list_elem_of_filter)%list_elem_of_fmap.
    apply H1, list_elem_of_fmap. eauto.
  - rewrite filter_cons_False by done. auto.
Qed.

(** The last node of a path. *)
Lemma path_leaf T t i fs r : spells T t -> list.head T = Some r -> path T i fs ->
  exists n, T !! idx_of T i = Some n /\ node_key n = leaf_key r fs.
Proof.
  intros S Hr [n Hn|fs' np n _ Hnp Hn Hc].
  - exists n. rewrite Hr in Hn. injection Hn as <-. split; [|done]. apply idx_of_unique; [apply S|]. destruct T; [done|]. injection Hr as ->. left.
  - exists n. split; [apply idx_of_unique; [apply S|done]|]. unfold leaf_key. rewrite fmap_app. change (frame_key <$> [frame n]) with [frame_key (frame n)]. by rewrite last_snoc.
Qed.

Lemma leaf_in_keys r fs : leaf_key r fs ∈ stack_keys r fs.
Proof.
  unfold leaf_key, stack_keys. rewrite fmap_cons. destruct (last (frame_key <$> fs)) as [k|] eqn:E; [|left]. right.
  apply last_Some_elem_of in E. done.
Qed.

(** The own time of a function, over the nodes and over the stacks. *)
Lemma self_by_leaf p t r stacks k : timed p t -> list.head (nodes p) = Some r -> Forall2 (path (nodes p)) (samples p) stacks ->
  weigh (fun n => bool_decide (node_key n = k)) (nodes p) (self_list p) =
    weigh (fun fs => bool_decide (leaf_key r fs = k)) stacks (time_deltas p).
Proof.
  intros Hp Hr H. pose proof (so_tree _ _ (ti_source _ _ Hp) : spells _ _) as S. unfold self_list. rewrite <- list_fmap_compose, weigh_fmap.
  rewrite (zsum_filter (fun n => node_key n = k)). unfold compose.
  set (F := filter (fun n => node_key n = k) (nodes p)).
  assert (NF : NoDup (node_id <$> F)).
  { apply NoDup_fmap_filter, S. }
  transitivity (zsum ((fun i => weigh (fun j => bool_decide (j = i)) (samples p) (time_deltas p)) <$> (node_id <$> F))); [by rewrite <- list_fmap_compose|].
  rewrite (classes_of_ids p) by done. apply weigh_Forall2. eapply Forall2_impl; [exact H|]. intros i fs Hi.
  destruct (path_leaf _ _ _ _ _ S Hr Hi) as (n & En & Ek). apply bool_decide_ext. rewrite <- Ek. pose proof (idx_of_Some _ _ _ En) as Ei. split.
  - intros (m & Em & Hm)%list_elem_of_fmap. apply list_elem_of_filter in Hm as [Hk Hm]. rewrite Em, idx_of_unique in En by (done || apply S). congruence.
  - intros Hk. apply list_elem_of_fmap. exists n. split; [done|]. apply list_elem_of_filter. split; [done|]. by eapply list_elem_of_lookup_2.
Qed.

(** The functions of a tree whose samples end the paths [stacks]. *)
Lemma functions_spec p t r stacks : timed p t -> list.head (nodes p) = Some r -> Forall2 (path (nodes p)) (samples p) stacks ->
  exists m, functions p (self_list p) = Ret m /\ (forall k, k ∈ dom m <-> k ∈ node_key <$> nodes p) /\ filed m /\
    forall k, self_us (entry k m) = weigh (fun fs => bool_decide (leaf_key r fs = k)) stacks (time_deltas p) /\
      total_us (entry k m) = weigh (fun fs => bool_decide (k ∈ stack_keys r fs)) stacks (time_deltas p).
Proof.
  intros Hp Hr H. pose proof (timed_total _ _ Hp). unfold functions.
  destruct (add_nodes_spec (nodes p) (self_list p) ∅) as (m & E & S & To & D & F).
  - apply length_self_list.
  - by eapply self_list_nonneg.
  - apply Hp.
  - intros k. unfold entry. rewrite lookup_empty. cbn. rewrite (zsum_self_list _ _ Hp). lia.
  - intros k a. by rewrite lookup_empty.
  - rewrite E, bind_Ret. destruct (add_stacks_spec p t r stacks (samples p) Hp Hr H (time_deltas p) m) as (m' & E' & T' & S' & D' & F').
    + apply Hp.
    + apply Hp.
    + intros k. rewrite To. unfold entry. rewrite lookup_empty. cbn. lia.
    + intros n Hn. apply D. left. by apply list_elem_of_fmap_2.
    + exists m'. split; [done|]. split; [|split; [by apply F'|]].
      * intros k. rewrite D', D. set_solver.
      * intros k. rewrite S', S, T', To, (self_by_leaf _ _ _ _ _ Hp Hr H). unfold entry. rewrite lookup_empty. cbn. lia.
Qed.

(** C34. Of a profile whose table is a tree and whose samples have positive times, with
    [stacks] the paths of its samples, the report has an entry for exactly the functions
    of the table: its own time is that of the samples whose stack ends in it, its total
    time that of the samples whose stack it is on, counted once however often it recurs;
    so its own time is at most its total and that at most all accounted time, which is
    the time of all samples. *)
Theorem functions_get_their_stacks p t r stacks : timed p t -> list.head (nodes p) = Some r ->
  Forall2 (path (nodes p)) (samples p) stacks ->
  exists self m, self_us_by_node p = Ret self /\ sum_i64 self 0 = Ret (zsum (time_deltas p)) /\ functions p self = Ret m /\
    (forall k, k ∈ dom m <-> k ∈ node_key <$> nodes p) /\
    forall k, self_us (entry k m) = weigh (fun fs => bool_decide (leaf_key r fs = k)) stacks (time_deltas p) /\
      total_us (entry k m) = weigh (fun fs => bool_decide (k ∈ stack_keys r fs)) stacks (time_deltas p) /\
      0 <= self_us (entry k m) <= total_us (entry k m) /\ total_us (entry k m) <= zsum (time_deltas p).
Proof.
  intros Hp Hr H. destruct (functions_spec _ _ _ _ Hp Hr H) as (m & E & D & _ & G). exists (self_list p), m.
  split; [by eapply self_list_spec|]. split; [by eapply accounted_spec|]. split; [done|]. split; [done|]. intros k. destruct (G k) as [-> ->].
  split; [done|]. split; [done|]. split.
  - apply weigh_le; [apply Hp|]. intros fs Hk%bool_decide_eq_true. apply bool_decide_eq_true. subst k. apply leaf_in_keys.
  - erewrite <- (weigh_all (fun _ => true)); [|by rewrite (ti_length _ _ Hp); apply (Forall2_length _ _ _ H)|done].
    apply weigh_le; [apply Hp|done].
Qed.

(** Every node of a tree is the end of a path. *)
Lemma spells_path T t i : spells T t -> i ∈ node_id <$> T -> exists fs, path T i fs.
Proof.
  intros S. rewrite (spells_ids _ _ S).
  assert (G : forall u, shape u ⊆ shape t -> (exists fs, path T (root u) fs) -> forall i, i ∈ tree_ids u -> exists fs, path T i fs).
  { intros u. induction u as [j ts IH] using tree_induction. intros Hu [fs Hfs] k Hk. rewrite tree_ids_unfold in Hk.
    apply elem_of_cons in Hk as [-> | Hk]; [by exists fs|]. apply forest_ids_elem in Hk as (s & Hs & Hk). rewrite Forall_forall in IH.
    assert (Hsh : shape s ⊆ shape t) by (intros x Hx; apply Hu; by eapply shape_child). apply (IH s Hs Hsh); [|done].
    destruct (tree_node T t S (Tree j ts) j (root <$> ts)) as (np & Enp & <- & Ec); [done|by apply shape_elem; left|].
    destruct (idx_of_in T (root s)) as (n & En & Ei); [apply (tree_ids_in T t S s); [done|apply root_in_ids]|].
    exists (fs ++ [frame n]). rewrite <- Ei. apply (path_step T fs np n); [done|by eapply list_elem_of_lookup_2..|].
    rewrite Ec, Ei. by apply list_elem_of_fmap_2. }
  apply G; [done|]. pose proof (sp_root _ _ S) as Hr. destruct (list.head T) as [r|] eqn:E; [|done]. injection Hr as <-. exists []. by constructor.
Qed.

Lemma samples_paths p t : timed p t -> exists stacks, Forall2 (path (nodes p)) (samples p) stacks.
Proof.
  intros Hp. pose proof (so_samples _ _ (ti_source _ _ Hp)) as Hs. induction (samples p) as [|i ss IH]; [by exists []|].
  destruct IH as [stacks H]; [intros x Hx; apply Hs; by right|]. destruct (spells_path (nodes p) t i) as [fs Hfs]; [apply (ti_source _ _ Hp)|apply Hs; left|].
  exists (fs :: stacks). by constructor.
Qed.

(** * The whole report *)

Lemma weigh_bound {A} (f : A -> bool) xs ds : Forall (fun d => 0 <= d) ds -> 0 <= weigh f xs ds <= zsum ds.
Proof.
  intros H. revert xs. induction H as [|d ds Hd Hds IH]; intros [|x xs]; rewrite ?zsum_cons; [cbn; lia..| |].
  - specialize (IH []). cbn in *. lia.
  - rewrite weigh_cons. specialize (IH xs). destruct (f x); lia.
Qed.

Lemma synthetic_spec T self names : Forall (fun d => 0 <= d) self -> zsum self < 2 ^ 63 -> exists l, synthetic T self names = Ret l.
Proof.
  intros Hd Hs. induction names as [|name names [l IH]]; [by exists []|]. cbn [synthetic].
  assert (E : exists s, synthetic_self T self name = Ret s); [|destruct E as [s ->]; rewrite IH, !bind_Ret; eauto].
  unfold synthetic_self. set (l' := zip T self ≫= _).
  assert (El : Forall (fun d => 0 <= d) l' /\ zsum l' = weigh (fun n => bool_decide (function_name (frame n) = name)) T self).
  { unfold l'. clear - Hd. revert T. induction Hd as [|d self Hd Hds IH]; intros [|n T]; try done. destruct (IH T) as [I1 I2].
    change (zip (n :: T) (d :: self) ≫= ?f) with (f (n, d) ++ (zip T self ≫= f)). rewrite weigh_cons. cbn beta iota.
    case_bool_decide; [|done]. split; [by apply Forall_cons|]. cbn [app]. by rewrite zsum_cons, I2. }
  destruct El as [E1 E2]. eexists. apply sum_i64_spec; [done|done|]. fold (zsum l'). rewrite E2. pose proof (weigh_bound (fun n => bool_decide (function_name (frame n) = name)) T self Hd). lia.
Qed.

Lemma by_url_spec rows : Forall (fun r => 0 <= self_us r) rows -> zsum (self_us <$> rows) < 2 ^ 63 -> exists m, by_url rows = Ret m.
Proof.
  intros Hr Hb. unfold by_url.
  assert (G : forall m, (forall u, 0 <= default 0 (m !! u) /\ default 0 (m !! u) + zsum (self_us <$> rows) < 2 ^ 63) ->
    exists m', foldl (fun m r => m ← m; add_url m r) (Ret m) rows = Ret m').
  2: { apply G. intros u. rewrite lookup_empty. cbn. lia. }
  clear Hb. induction Hr as [|r rows Hr Hrs IH]; intros m Hb; [by eexists|]. cbn [foldl]. rewrite bind_Ret. setoid_rewrite fmap_cons in Hb.
  setoid_rewrite zsum_cons in Hb. pose proof (sum_nonneg (fun r => Z.max 0 (self_us r)) rows ltac:(intros; lia)) as Hz.
  assert (Ez : zsum (self_us <$> rows) = zsum ((fun r => Z.max 0 (self_us r)) <$> rows)).
  { apply zsum_map_ext. intros x Hx. rewrite Forall_forall in Hrs. specialize (Hrs x Hx). lia. }
  fold (zsum ((fun r => Z.max 0 (self_us r)) <$> rows)) in Hz. destruct (Hb (a_url r)). unfold add_url at 2. destruct (is_script r).
  - rewrite add_i64_Ret, bind_Ret by lia. apply IH. intros u. destruct (decide (u = a_url r)) as [->|].
    + rewrite lookup_insert_eq. cbn. lia.
    + rewrite lookup_insert_ne by done. specialize (Hb u). lia.
  - apply IH. intros u. specialize (Hb u). lia.
Qed.

Lemma stack_line_spec n : line_number (frame n) < 2 ^ 31 - 1 -> exists l, stack_line n = Ret l.
Proof.
  intros H. unfold stack_line. destruct (negb _ || _); [|by eexists]. destruct (Z.leb_spec 0 (line_number (frame n))).
  - rewrite add_int_Ret, !bind_Ret by lia. by eexists.
  - rewrite bind_Ret. by eexists.
Qed.

Lemma hot_frames_spec T ps cur l : climbs T ps cur l -> Forall (fun n => line_number (frame n) < 2 ^ 31 - 1) T ->
  forall fuel hops acc, (length l < fuel)%nat -> exists fs, hot_frames fuel hops T ps cur acc = Ret fs.
Proof.
  intros H HL. rewrite Forall_forall in HL.
  assert (Step : forall n acc hops, n ∈ T -> exists acc' hops', (if is_header n then Ret (acc, hops) else l ← stack_line n; Ret (acc ++ [l], pred hops)) = Ret (acc', hops')).
  { intros n acc hops Hn. destruct (is_header n); [eauto|]. destruct (stack_line_spec n (HL n Hn)) as [x ->]. rewrite bind_Ret. eauto. }
  induction H as [i n Hi Hn Hp|i n pid l Hi Hn Hp Hl IH]; intros [|fuel] hops acc Hf; cbn [length] in Hf; try lia;
    cbn [hot_frames]; (destruct (_ || _); [by eexists|]); rewrite Hn;
    (destruct (Step n acc hops) as (acc' & hops' & ->); [by eapply list_elem_of_lookup_2|]); rewrite bind_Ret, Hp; cbn [checked]; rewrite bind_Ret;
    (destruct (_ =? _); [by eexists|]).
  - destruct fuel as [|fuel]; [lia|]. by eexists.
  - apply IH. lia.
Qed.

Lemma by_stack_spec p t r stacks ss : timed p t -> list.head (nodes p) = Some r -> Forall2 (path (nodes p)) ss stacks ->
  forall ds m, length ds = length ss -> Forall (fun d => 0 < d) ds ->
  (forall s a, m !! s = Some a -> 0 <= weight_us a /\ weight_us a + zsum ds < 2 ^ 63) -> zsum ds < 2 ^ 63 ->
  exists m', by_stack p (parents (nodes p)) ss ds m = Ret m'.
Proof.
  intros Hp Hr H. assert (Hpos : Forall (fun n => 0 < node_id n) (nodes p)).
  { apply Forall_forall. intros n Hn. apply (list_elem_of_fmap_2 node_id), (source_ids _ _ _ (ti_source _ _ Hp)) in Hn. lia. }
  induction H as [|i fs ss stacks Hi H IH]; intros [|d ds] m Hl Hd Hb Hz; try done; [by eexists|].
  apply Forall_cons in Hd as [Hd Hds]. injection Hl as Hl. setoid_rewrite zsum_cons in Hb. rewrite zsum_cons in Hz. pose proof (zsum_pos ds Hds).
  cbn [by_stack list.head tail].
  destruct (path_climbs _ _ _ _ _ (so_tree _ _ (ti_source _ _ Hp)) Hpos Hr Hi) as (l & Hc & El).
  destruct (hot_frames_spec _ _ _ _ Hc (ti_lines _ _ Hp) (walk_fuel (nodes p)) kStackDepth []) as [frames E].
  { pose proof (climbs_length _ _ _ _ Hc). unfold walk_fuel. lia. }
  rewrite E, bind_Ret. assert (Es : sample_period p (Some d) = d) by (unfold sample_period; by destruct (Z.ltb_spec 0 d); [|lia]). rewrite Es.
  unfold add_stack. destruct frames as [|f frames].
  - rewrite bind_Ret. apply IH; [done|done| |lia]. intros s a Ha. destruct (Hb s a Ha). lia.
  - set (a := default _ _). assert (Ha : 0 <= weight_us a /\ weight_us a + (d + zsum ds) < 2 ^ 63).
    { unfold a. destruct (m !! signature (f :: frames)) as [b|] eqn:Eb; cbn; [by eapply Hb|lia]. }
    rewrite add_i64_Ret, !bind_Ret by lia. apply IH; [done|done| |lia].
    intros s b [[_ <-]|[_ Hb']]%lookup_insert_Some; [cbn; lia|]. destruct (Hb s b Hb'). lia.
Qed.

(** The own times of all functions add up to all time. *)
Lemma rows_sum p t m : timed p t -> functions p (self_list p) = Ret m -> (forall k, k ∈ dom m <-> k ∈ node_key <$> nodes p) ->
  (forall k, self_us (entry k m) = weigh (fun n => bool_decide (node_key n = k)) (nodes p) (self_list p)) ->
  forall rows, rows ≡ₚ (map_to_list m).*2 -> Forall (fun r => 0 <= self_us r) rows /\ zsum (self_us <$> rows) = zsum (time_deltas p).
Proof.
  intros Hp _ D S rows Hr. pose proof (self_list_nonneg _ _ Hp) as Hn.
  assert (E : forall k a, (k, a) ∈ map_to_list m -> self_us a = weigh (fun n => bool_decide (node_key n = k)) (nodes p) (self_list p)).
  { intros k a Ha%elem_of_map_to_list. rewrite <- S. unfold entry. by rewrite Ha. }
  split.
  - apply Forall_forall. intros r Hin. rewrite Hr in Hin. apply list_elem_of_fmap in Hin as ([k a] & -> & Ha). cbn. rewrite (E k a Ha). by apply weigh_bound.
  - transitivity (zsum (self_us <$> (map_to_list m).*2)); [by apply zsum_perm; rewrite Hr|]. rewrite <- list_fmap_compose.
    transitivity (zsum ((fun k => weigh (fun n => bool_decide (node_key n = k)) (nodes p) (self_list p)) <$> (map_to_list m).*1)).
    + rewrite <- list_fmap_compose. apply zsum_map_ext. intros [k a] Ha. by apply E.
    + rewrite (weigh_classes node_key) by apply NoDup_fst_map_to_list. rewrite <- (zsum_self_list _ _ Hp). apply weigh_all; [apply length_self_list|].
      intros n Hin. apply bool_decide_eq_true_2. assert (Hk : node_key n ∈ dom m) by (apply D; by apply list_elem_of_fmap_2).
      apply elem_of_dom in Hk as [a Ha]. apply list_elem_of_fmap. exists (node_key n, a). split; [done|]. by apply elem_of_map_to_list.
Qed.

(** * Merged profiles *)

Definition lines_fit (p : profile_data) : Prop := Forall (fun n => line_number (frame n) < 2 ^ 31 - 1) (nodes p).

Lemma merged_timed js native tj tn : source js tj -> source native tn -> lines_fit js -> lines_fit native ->
  flat_time js + flat_time native < 2 ^ 63 -> timed (merged js native) (merged_tree js native tj tn).
Proof.
  intros Sj Sn Lj Ln Ht. split.
  - by apply merged_source.
  - cbn. by rewrite !length_app, !length_replicate, !length_fmap.
  - cbn. apply Forall_app. split; apply Forall_replicate, flat_period_pos.
  - cbn [time_deltas merged]. unfold zsum. rewrite sum_app, !sum_replicate. done.
  - assert (G : forall h (label : bytes) p, lines_fit p -> Forall (fun n => line_number (frame n) < 2 ^ 31 - 1) (header h label p)).
    { intros h label p Hp. apply Forall_cons. split; [done|]. apply Forall_fmap. eapply Forall_impl; [exact Hp|]. done. }
    cbn [nodes merged]. apply Forall_cons. split; [done|]. apply Forall_app. auto.
Qed.

Lemma header_tree_ids h (label : bytes) p t : source p t -> tree_ids (header_tree h t) ≡ₚ seqZ h (zlen (nodes p) + 1).
Proof. intros S. unfold tree_ids. rewrite <- (header_shape h label p t S), shapes_ids. by eapply header_ids. Qed.

(** The time of either part of a merged profile. *)
Lemma merged_parts js native tj tn : source js tj -> source native tn -> lines_fit js -> lines_fit native ->
  flat_time js + flat_time native < 2 ^ 63 ->
  tree_time (merged_nodes js native) (self_list (merged js native)) (header_tree 2 tj) = flat_time js /\
  tree_time (merged_nodes js native) (self_list (merged js native)) (header_tree (zlen (nodes js) + 3) tn) = flat_time native.
Proof.
  intros Sj Sn Lj Ln Ht. pose proof (merged_timed _ _ _ _ Sj Sn Lj Ln Ht) as Hp. set (h := zlen (nodes js) + 3).
  pose proof (header_tree_ids 2 [] js tj Sj) as Ij. pose proof (header_tree_ids h [] native tn Sn) as In.
  pose proof (merged_ids js native tj tn Sj Sn) as Im. assert (Lm : zlen (merged_nodes js native) = zlen (nodes js) + zlen (nodes native) + 3).
  { unfold merged_nodes, header. cbn [length]. rewrite length_app. cbn [length]. rewrite !length_fmap. lia. }
  assert (Js : forall i, i ∈ samples js -> 1 <= i <= zlen (nodes js)) by (intros i Hi; by eapply source_ids; [|eapply so_samples]).
  assert (Ns : forall i, i ∈ samples native -> 1 <= i <= zlen (nodes native)) by (intros i Hi; by eapply source_ids; [|eapply so_samples]).
  assert (Sum : forall k d, zsum (replicate k d) = Z.of_nat k * d) by (intros; apply sum_replicate).
  split.
  - rewrite (tree_time_spec (merged js native)); [|rewrite Ij; apply NoDup_seqZ|intros i; cbn [nodes merged]; rewrite Ij, Im, !elem_of_seqZ; lia].
    cbn [samples time_deltas merged]. rewrite weigh_app by by rewrite length_replicate, length_fmap.
    rewrite !weigh_map, weigh_all, weigh_none, Sum; [unfold flat_time; lia|..].
    + intros i Hi%Ns. apply bool_decide_eq_false_2. rewrite Ij, elem_of_seqZ. lia.
    + apply length_replicate.
    + intros i Hi%Js. apply bool_decide_eq_true_2. rewrite Ij, elem_of_seqZ. lia.
  - rewrite (tree_time_spec (merged js native)); [|rewrite In; apply NoDup_seqZ|intros i; cbn [nodes merged]; rewrite In, Im, !elem_of_seqZ; lia].
    cbn [samples time_deltas merged]. rewrite weigh_app by by rewrite length_replicate, length_fmap.
    rewrite !weigh_map, weigh_none, weigh_all, Sum; [unfold flat_time; lia|..].
    + apply length_replicate.
    + intros i Hi%Ns. apply bool_decide_eq_true_2. rewrite In, elem_of_seqZ. lia.
    + intros i Hi%Js. apply bool_decide_eq_false_2. rewrite In, elem_of_seqZ. lia.
Qed.

Lemma merged_breakdown js native tj tn totals l : source js tj -> source native tn ->
  (forall u, u ∈ subtrees_of (merged_tree js native tj tn) -> totals !! idx_of (merged_nodes js native) (root u) =
     Some (tree_time (merged_nodes js native) (self_list (merged js native)) u)) ->
  synthetic (merged_nodes js native) (self_list (merged js native)) kSynthetic = Ret l ->
  time_breakdown (merged_nodes js native) (self_list (merged js native)) totals =
    Ret ([(str "(js) subtree", tree_time (merged_nodes js native) (self_list (merged js native)) (header_tree 2 tj));
          (str "(native) subtree", tree_time (merged_nodes js native) (self_list (merged js native)) (header_tree (zlen (nodes js) + 3) tn))] ++ l).
Proof.
  intros Sj Sn Ht Hl. unfold time_breakdown. rewrite Hl. pose proof (merged_spells _ _ _ _ Sj Sn) as S. set (h := zlen (nodes js) + 3) in *.
  set (M := merged_nodes js native) in *. set (self := self_list _) in *.
  set (n2 := MkNode 2 (named (str "(js)")) 0 (first_id 2 js)). set (nh := MkNode h (named (str "(native)")) 0 (first_id h native)).
  assert (E2 : M !! idx_of M 2 = Some n2) by (apply (idx_of_unique M n2); [apply S|right; left]).
  assert (Eh : M !! idx_of M h = Some nh) by (apply (idx_of_unique M nh); [apply S|right; apply elem_of_app; right; left]).
  assert (T2 : totals !! idx_of M 2 = Some (tree_time M self (header_tree 2 tj))).
  { apply (Ht (header_tree 2 tj)). right. apply (elem_of_concat_fmap subtrees_of). eexists. split; [left|apply subtrees_self]. }
  assert (Th : totals !! idx_of M h = Some (tree_time M self (header_tree h tn))).
  { apply (Ht (header_tree h tn)). right. apply (elem_of_concat_fmap subtrees_of). eexists. split; [right; left|apply subtrees_self]. }
  change (match M with [] => Ret [] | front :: _ => subtrees M totals (children front) end) with (subtrees M totals [2; h]).
  cbn [subtrees]. rewrite bind_Ret, Eh, E2, T2, Th. done.
Qed.

(** The report on a merged profile is produced, its breakdown starts with the two
    parts, each with its number of samples times its period, and they add up to the time
    accounted for, which is the length of the timeline. *)
Lemma merged_time_is_accounted values pairs sort js native tj tn top_n :
  (forall A (m : gmap key_t A), values A m ≡ₚ (map_to_list m).*2) ->
  source js tj -> source native tn -> lines_fit js -> lines_fit native ->
  zlen (nodes js) + zlen (nodes native) + 3 < 2 ^ 31 -> flat_time js + flat_time native < 2 ^ 63 ->
  exists out rep rest, merge_profiles js native = Ret out /\ render_markdown values pairs sort out top_n = Ret rep /\
    breakdown rep = (str "(js) subtree", flat_time js) :: (str "(native) subtree", flat_time native) :: rest /\
    accounted rep = flat_time js + flat_time native /\ accounted rep = end_time out /\ duration rep = end_time out.
Proof.
  intros Hv Sj Sn Lj Ln Hs Ht. pose proof (merged_timed _ _ _ _ Sj Sn Lj Ln Ht) as Hp. set (out := merged js native) in *.
  pose proof (so_tree _ _ (ti_source _ _ Hp) : spells _ _) as S. pose proof (timed_total _ _ Hp) as Hz.
  assert (Ez : zsum (time_deltas out) = flat_time js + flat_time native) by (cbn; unfold zsum; by rewrite sum_app, !sum_replicate).
  destruct (samples_paths _ _ Hp) as [stacks Hst]. set (r := MkNode 1 (named (str "(root)")) 0 [2; zlen (nodes js) + 3]).
  assert (Hr : list.head (nodes out) = Some r) by done.
  destruct (totals_are_subtree_sums (nodes out) _ S (self_list out)) as (totals & Et & Tt); [apply length_self_list|by eapply self_list_nonneg| |].
  { rewrite tree_time_spec; [|rewrite <- (spells_ids _ _ S); apply S|intros i Hi; by rewrite (spells_ids _ _ S)].
    pose proof (weigh_bound (fun j => bool_decide (j ∈ tree_ids (merged_tree js native tj tn))) (samples out) (time_deltas out)) as Hw.
    assert (Forall (fun d => 0 <= d) (time_deltas out)) by (eapply Forall_impl; [apply Hp|]; cbn; lia). specialize (Hw ltac:(done)). lia. }
  destruct (functions_spec _ _ _ _ Hp Hr Hst) as (m & Em & Dm & _ & Gm).
  destruct (synthetic_spec (nodes out) (self_list out) kSynthetic) as [l El]; [by eapply self_list_nonneg|rewrite (zsum_self_list _ _ Hp); lia|].
  pose proof (merged_breakdown _ _ _ _ _ _ Sj Sn Tt El) as Eb. destruct (merged_parts _ _ _ _ Sj Sn Lj Ln Ht) as [P1 P2]. rewrite P1, P2 in Eb. change (merged_nodes js native) with (nodes out) in Eb. change (self_list (merged js native)) with (self_list out) in Eb.
  destruct (rows_sum _ _ _ Hp Em Dm) with (rows := values agg m) as [R1 R2]; [|apply Hv|].
  { intros k. destruct (Gm k) as [-> _]. symmetry. by apply (self_by_leaf out (merged_tree js native tj tn) r). }
  destruct (by_url_spec (values agg m) R1) as [urls Eu]; [lia|].
  destruct (by_stack_spec out (merged_tree js native tj tn) r stacks (samples out) Hp Hr Hst (time_deltas out) ∅) as [stk Ek]; [apply Hp|apply Hp| |lia|].
  { intros s a. by rewrite lookup_empty. }
  assert (Ed : add_i64 (end_time out) (- start_time out) = Ret (flat_time js + flat_time native)).
  { cbn. rewrite add_i64_Ret by lia. f_equal. lia. }
  eexists out, _, l. split; [by eapply merge_spec|]. unfold render_markdown. rewrite (self_list_spec _ _ Hp), bind_Ret, (accounted_spec _ _ Hp), bind_Ret, Et, bind_Ret,
    Em, bind_Ret, Ed, bind_Ret, Eb, bind_Ret, Eu, bind_Ret, Ek, bind_Ret. split; [done|]. cbn [breakdown accounted duration end_time]. by rewrite Ez.
Qed.

(** * What modelling showed *)

(** Two nodes that are children of each other, which the reader accepts: the walk from a
    leaf to the root goes round for ever. *)
Definition cycle : list profile_node := [MkNode 1 (named (str "a")) 0 [2]; MkNode 2 (named (str "b")) 0 [1]].

Lemma cycle_is_read :
  read_profile (reparsed (serialize_cpuprofile (MkProfile cycle [1] [1000] 0 1000 0 1000))) = (MkProfile cycle [1] [1000] 0 1000 0 1000, Ret tt).
Proof. reflexivity. Qed.

Lemma cycle_walk fuel cur seen m : cur = 1 \/ cur = 2 -> (str "a", []) ∈ seen -> (str "b", []) ∈ seen ->
  stack_walk fuel cycle (parents cycle) 1000 cur seen m = OutOfFuel.
Proof.
  revert cur seen. induction fuel as [|fuel IH]; intros cur seen Hc Ha Hb; [done|].
  destruct Hc as [-> | ->]; cbn [stack_walk].
  - change (cycle !! idx_of cycle 1) with (Some (MkNode 1 (named (str "a")) 0 [2])). cbn -[str stack_walk]. rewrite bool_decide_eq_true_2 by done.
    rewrite bind_Ret. apply IH; [by right|by right..].
  - change (cycle !! idx_of cycle 2) with (Some (MkNode 2 (named (str "b")) 0 [1])). cbn -[str stack_walk]. rewrite bool_decide_eq_true_2 by done.
    rewrite bind_Ret. apply IH; [by left|by right..].
Qed.

Lemma cycle_never_ends fuel : stack_walk fuel cycle (parents cycle) 1000 1 [] ∅ = OutOfFuel.
Proof.
  destruct fuel as [|[|fuel]]; [done..|]. change (stack_walk (S (S fuel)) cycle (parents cycle) 1000 1 [] ∅) with
    (stack_walk fuel cycle (parents cycle) 1000 1 [(str "b", []); (str "a", [])]
      (<[(str "b", []) := MkAgg [] [] 0 1000 (-1) false]> (<[(str "a", []) := MkAgg [] [] 0 1000 (-1) false]> ∅))).
  apply cycle_walk; set_solver.
Qed.

(** * Witnesses *)

Lemma demo_js_timed : timed demo_js (Tree 1 [Tree 3 []; Tree 2 []]).
Proof.
  split; [apply demo_js_source|done|repeat (apply Forall_cons_2; [lia|]); apply Forall_nil_2|done|].
  repeat (apply Forall_cons_2; [done|]). apply Forall_nil_2.
Qed.

Lemma totals_are_subtree_sums_witness :
  exists totals, total_us_by_node (nodes demo_js) [0; 2000; 1000] = Ret totals /\ totals !! idx_of (nodes demo_js) 1 = Some 3000.
Proof.
  destruct (totals_are_subtree_sums (nodes demo_js) (Tree 1 [Tree 3 []; Tree 2 []]) (so_tree _ _ demo_js_source) [0; 2000; 1000]) as (totals & E & H);
    [reflexivity|repeat (apply Forall_cons_2; [lia|]); apply Forall_nil_2|reflexivity|].
  exists totals. split; [exact E|]. apply (H (Tree 1 [Tree 3 []; Tree 2 []])). left.
Defined.

Definition demo_stacks : list (list call_frame) := [[named (str "f")]; [named (str "(idle)")]; [named (str "f")]].

Lemma demo_paths : Forall2 (path (nodes demo_js)) (samples demo_js) demo_stacks.
Proof.
  set (T := nodes demo_js). set (n1 := MkNode 1 (named (str "(root)")) 0 [3; 2]). set (n2 := MkNode 2 (named (str "f")) 2 []). set (n3 := MkNode 3 (named (str "(idle)")) 1 []).
  assert (P1 : path T 1 []) by by apply (path_root T n1).
  assert (P2 : path T 2 [named (str "f")]) by (apply (path_step T [] n1 n2); [done|left|right; left|right; left]).
  assert (P3 : path T 3 [named (str "(idle)")]) by (apply (path_step T [] n1 n3); [done|left|right; right; left|left]).
  repeat (apply Forall2_cons_2; [done|]). apply Forall2_nil_2.
Qed.

Lemma functions_get_their_stacks_witness :
  exists self m, self_us_by_node demo_js = Ret self /\ functions demo_js self = Ret m /\
    self_us (entry (str "f", []) m) = 2000 /\ total_us (entry (str "(root)", []) m) = 3000.
Proof.
  destruct (functions_get_their_stacks demo_js _ (MkNode 1 (named (str "(root)")) 0 [3; 2]) demo_stacks demo_js_timed eq_refl demo_paths)
    as (self & m & E1 & _ & E2 & _ & G). exists self, m. split; [exact E1|]. split; [exact E2|]. split.
  - destruct (G (str "f", [])) as [E _]. rewrite E. reflexivity.
  - destruct (G (str "(root)", [])) as (_ & E & _). rewrite E. reflexivity.
Defined.

Lemma merged_time_is_accounted_witness :
  exists out rep, merge_profiles demo_js demo_native = Ret out /\
    render_markdown (fun A m => (map_to_list m).*2) (fun A m => map_to_list m) (fun A less => stable_sort less) out 60 = Ret rep /\
    accounted rep = 4000 /\ duration rep = 4000.
Proof.
  destruct (merged_time_is_accounted (fun A m => (map_to_list m).*2) (fun A m => map_to_list m) (fun A less => stable_sort less)
    demo_js demo_native _ _ 60 (fun A m => Permutation_refl _) demo_js_source demo_native_source) as (out & rep & rest & E1 & E2 & _ & E3 & E4 & E5).
  - apply demo_js_timed.
  - repeat (apply Forall_cons_2; [reflexivity|]). apply Forall_nil_2.
  - reflexivity.
  - reflexivity.
  - exists out, rep. split; [exact E1|]. split; [exact E2|]. split; [exact E3|]. rewrite E5, <- E4. exact E3.
Defined.
