(* ===== verification/Highlight.v ===== *)
(** Syntax highlighting ([src/treesitter/highlight.cpp]): from the captures of a
    tree-sitter query to the coloured tokens of a text, and what makes them correct: every
    byte has the name of the most specific capture it lies in.

    tree-sitter is a parameter: its grammars, whether it parses a text and a query, and
    the captures it finds; so are the texts of the queries, which only it reads, and what
    [std::sort] does to captures that compare equal. *)

From S2P Require Import Prelude Strings.

(** * Languages *)

Definition kLangs : list bytes := str <$>
  ["astro"; "bash"; "c"; "clojure"; "cmake"; "c_sharp"; "cpp"; "css"; "dart"; "diff"; "dockerfile"; "elixir"; "erlang"; "go";
   "graphql"; "haskell"; "hcl"; "html"; "ini"; "java"; "javascript"; "json"; "julia"; "just"; "kotlin"; "lua"; "make"; "nix";
   "objc"; "odin"; "perl"; "powershell"; "proto"; "python"; "r"; "regex"; "ruby"; "rust"; "scala"; "solidity"; "sql";
   "starlark"; "svelte"; "swift"; "tlaplus"; "toml"; "verilog"; "vue"; "yaml"; "zig"; "typescript"; "tsx"; "markdown";
   "markdown_inline"; "ocaml"; "ocaml_interface"; "ocaml_type"; "php"; "php_only"; "xml"]%string.

Definition aliases : list (bytes * bytes) := (fun p => (str p.1, str p.2)) <$>
  [("ts", "typescript"); ("jsx", "tsx"); ("js", "javascript"); ("mjs", "javascript"); ("cjs", "javascript");
   ("c++", "cpp"); ("cxx", "cpp"); ("cc", "cpp"); ("h", "cpp"); ("hpp", "cpp");
   ("cs", "c_sharp"); ("csharp", "c_sharp"); ("c#", "c_sharp");
   ("objective-c", "objc"); ("objectivec", "objc"); ("m", "objc");
   ("sh", "bash"); ("shell", "bash"); ("zsh", "bash"); ("py", "python"); ("rb", "ruby"); ("rs", "rust");
   ("kt", "kotlin"); ("kts", "kotlin"); ("ps", "powershell"); ("ps1", "powershell"); ("pl", "perl"); ("yml", "yaml");
   ("jsonc", "json"); ("json5", "json"); ("dockerfile", "dockerfile"); ("containerfile", "dockerfile");
   ("tf", "hcl"); ("terraform", "hcl"); ("hcl2", "hcl"); ("htm", "html"); ("scss", "css"); ("sass", "css"); ("less", "css");
   ("md", "markdown"); ("markdown", "markdown"); ("make", "make"); ("makefile", "make"); ("tla", "tlaplus");
   ("starlark", "starlark"); ("bzl", "starlark"); ("bazel", "starlark"); ("graphql", "graphql"); ("gql", "graphql");
   ("proto", "proto"); ("protobuf", "proto"); ("ml", "ocaml"); ("mli", "ocaml_interface")]%string.

Definition canonicalize (name : bytes) : bytes := default name (lookup_name name aliases).

Definition lookup (name : bytes) : option bytes :=
  let canon := canonicalize name in if bool_decide (canon ∈ kLangs) then Some canon else None.

Definition supported_languages : list bytes := kLangs.

(** * Tokens *)

Record capture : Type := MkCapture { c_start : Z; c_end : Z; c_name : bytes }.
Record token : Type := MkToken { t_start : Z; t_end : Z; t_name : bytes }.
Record result : Type := MkResult { language : bytes; tokens : list token }.

Definition span (c : capture) : Z := u32 (c_end c - c_start c).

(** Longer captures first, then earlier ones. *)
Definition before (a b : capture) : bool :=
  if span a =? span b then c_start a <? c_start b else span b <? span a.

(** [name_to_id] and [id_to_name]; identifier 0 has no name. *)
Definition names : Type := list (bytes * Z) * list bytes.

Definition intern (n : bytes) (m : names) : Z * names :=
  match lookup_name n m.1 with
  | Some id => (id, m)
  | None => let id := u16 (zlen m.2) in (id, ((n, id) :: m.1, m.2 ++ [n]))
  end.

(** [per_byte\[i\] = id] for [i] from [start] up to [e]. *)
Definition paint (start e id : Z) (per_byte : list Z) : list Z :=
  imap (fun i x => if (start <=? Z.of_nat i) && (Z.of_nat i <? e) then id else x) per_byte.

Fixpoint paint_all (n : Z) (caps : list capture) (m : names) (per_byte : list Z) : names * list Z :=
  match caps with
  | [] => (m, per_byte)
  | c :: caps => let '(id, m) := intern (c_name c) m in paint_all n caps m (paint (c_start c) (Z.min (c_end c) n) id per_byte)
  end.

(** The length of the run of [id] that a list starts with. *)
Fixpoint run_length (id : Z) (l : list Z) : nat :=
  match l with x :: l' => if x =? id then S (run_length id l') else O | [] => O end.

(** From position [i], with [rest] the bytes from there on. *)
Fixpoint token_loop (fuel : nat) (id_to_name : list bytes) (i : Z) (rest : list Z) : outcome (list token) :=
  match fuel with
  | O => OutOfFuel
  | S fuel =>
      match rest with
      | [] => Ret []
      | id :: rest' =>
          if id =? 0 then token_loop fuel id_to_name (i + 1) rest'
          else
            let j := i + 1 + Z.of_nat (run_length id rest') in
            name ← at_ id_to_name id;
            ts ← token_loop fuel id_to_name j (drop (run_length id rest') rest');
            Ret (MkToken i j name :: ts)
      end
  end.

Section TreeSitter.
(** [sort]: [std::sort].  [has_language], [set_language], [parses]: the library has a
    grammar, takes it, and parses a text; [query_of] a grammar's query, [compiles] whether
    the library accepts a query, [run] the captures of a query on a text. *)
Context (sort : list capture -> list capture) (has_language set_language : bytes -> bool) (parses : bytes -> bytes -> bool)
  (query_of : bytes -> bytes) (compiles : bytes -> bytes -> bool) (run : bytes -> bytes -> bytes -> list capture).

Definition kFallbackHighlights : bytes := str "(comment) @comment".

Definition captures (lang query source : bytes) : list capture :=
  filter (fun c => c_start c < c_end c) (run lang query source).

Definition tokens_of (caps : list capture) (source : bytes) : outcome (list token) :=
  let n := u32 (zlen source) in
  let '(m, per_byte) := paint_all n (sort caps) ([], [[]]) (replicate (Z.to_nat n) 0) in
  token_loop (S (Z.to_nat n)) m.2 0 per_byte.

Definition tokenize (source name : bytes) : outcome (option result) :=
  match lookup name with
  | None => Ret None
  | Some lang =>
      if negb (has_language lang) then Ret None
      else
        let none := Ret (Some (MkResult lang [])) in
        if bool_decide (source = []) || bool_decide (query_of lang = []) then none
        else if negb (set_language lang) || negb (parses lang source) then none
        else
          let found q := match captures lang q source with
                         | [] => none
                         | caps => ts ← tokens_of caps source; Ret (Some (MkResult lang ts))
                         end in
          if compiles lang (query_of lang) then found (query_of lang)
          else if compiles lang kFallbackHighlights then found kFallbackHighlights
          else none
  end.
End TreeSitter.

(** * Names and their identifiers *)

(** Two positive identifiers with one name are one identifier. *)
Definition injective (id_to_name : list bytes) : Prop :=
  forall i j nm, (0 < i)%nat -> (0 < j)%nat -> id_to_name !! i = Some nm -> id_to_name !! j = Some nm -> i = j.

(** [ns] are all names that can occur. *)
Definition names_ok (ns : list bytes) (m : names) : Prop :=
  (exists tl, m.2 = [] :: tl /\ NoDup tl /\ tl ⊆ ns) /\
  (forall nm, (exists id, lookup_name nm m.1 = Some id) <-> nm ∈ tail m.2) /\
  (forall nm id, lookup_name nm m.1 = Some id -> 0 < id /\ m.2 !! Z.to_nat id = Some nm).

Lemma names_injective ns m : names_ok ns m -> injective m.2.
Proof.
  intros ((tl & E & N & _) & _ & _) i j nm Hi Hj. rewrite E. destruct i as [|i], j as [|j]; try lia. cbn. intros A B.
  f_equal. by apply (NoDup_lookup tl i j nm).
Qed.

Lemma names_few ns m : zlen ns < 65535 -> names_ok ns m -> zlen m.2 < 65536.
Proof.
  intros Hn ((tl & E & N & S) & _). rewrite E. cbn.
  assert (length tl <= length ns)%nat; [|lia]. by apply submseteq_length, NoDup_submseteq.
Qed.

Lemma intern_ok ns nm m : zlen ns < 65535 -> names_ok ns m -> nm ∈ ns ->
  let r := intern nm m in
  names_ok ns r.2 /\ m.2 `prefix_of` r.2.2 /\ 0 < r.1 /\ r.2.2 !! Z.to_nat r.1 = Some nm.
Proof.
  intros Hf H Hn. pose proof (names_few ns m Hf H) as F. destruct H as ((tl & E & N & S) & A & B).
  unfold intern. destruct (lookup_name nm m.1) as [id|] eqn:El; cbn.
  { destruct (B nm id El). split; [split; [by exists tl|done]|done]. }
  assert (Nm : nm ∉ tl).
  { intros Hin. destruct (proj2 (A nm)) as [id ?]; [by rewrite E|congruence]. }
  assert (Ei : u16 (zlen m.2) = zlen m.2) by (apply (wrap_small 16); lia).
  rewrite Ei, Nat2Z.id.
  assert (P : 0 < zlen m.2) by (rewrite E; cbn; lia).
  split; [split; [|split]|split; [|split]].
  - exists (tl ++ [nm]). rewrite E. split_and!; [done| |].
    + apply NoDup_app. split_and!; [done| |apply NoDup_singleton]. intros x Hx ->%list_elem_of_singleton. done.
    + intros x [ ? | ->%list_elem_of_singleton ]%elem_of_app; [by apply S|done].
  - intros x. cbn. rewrite E. cbn. rewrite elem_of_app, list_elem_of_singleton. specialize (A x). rewrite E in A. cbn in A.
    case_bool_decide as D; [naive_solver|]. naive_solver.
  - intros x id. cbn. case_bool_decide as D.
    + intros [= <-]. subst x. split; [done|]. rewrite Nat2Z.id. rewrite list_lookup_middle by done; done.
    + intros Hx. destruct (B x id Hx) as [? L]. split; [done|]. by apply lookup_app_l_Some.
  - by apply prefix_app_r.
  - lia.
  - rewrite list_lookup_middle by done; done.
Qed.

(** * Painting *)

Definition covers (i : Z) (c : capture) : Prop := c_start c <= i < c_end c.
#[export] Instance covers_dec i c : Decision (covers i c).
Proof. unfold covers. apply _. Defined.

(** The last of the captures that lies over [i]. *)
Definition on_top (i : Z) : option capture -> list capture -> option capture :=
  foldl (fun o c => if decide (covers i c) then Some c else o).

(** Byte [i] of the array shows [o]. *)
Definition shows (m : names) (per_byte : list Z) (i : nat) (o : option capture) : Prop :=
  match o with
  | None => per_byte !! i = Some 0
  | Some c => exists id, per_byte !! i = Some id /\ 0 < id /\ m.2 !! Z.to_nat id = Some (c_name c)
  end.

Lemma length_paint s e id l : length (paint s e id l) = length l.
Proof. apply length_imap. Qed.

Lemma paint_all_ok ns n caps : forall m per_byte,
  zlen ns < 65535 -> names_ok ns m -> zlen per_byte = n -> Forall (fun c => c_name c ∈ ns /\ c_end c <= n) caps ->
  let r := paint_all n caps m per_byte in
  names_ok ns r.1 /\ zlen r.2 = n /\
  forall i o, (i < length per_byte)%nat -> shows m per_byte i o -> shows r.1 r.2 i (on_top (Z.of_nat i) o caps).
Proof.
  induction caps as [|c caps IH]; intros m pb Hf Hm Hn Hc; [done|]. apply Forall_cons in Hc as [[Hin He] Hc].
  cbn [paint_all]. destruct (intern_ok ns (c_name c) m Hf Hm Hin) as (Hm' & Hp & Hid & Hnm).
  destruct (intern (c_name c) m) as [id m'] eqn:Ei. cbn [fst snd] in *.
  destruct (IH m' (paint (c_start c) (Z.min (c_end c) n) id pb) Hf Hm') as (A & B & C); [by rewrite length_paint|done|].
  split; [done|]. split; [done|]. intros i o Hi Ho. cbn [on_top foldl]. apply C; [by rewrite length_paint|].
  rewrite Z.min_l by lia. destruct (lookup_lt_is_Some_2 pb i Hi) as [x Hx].
  assert (L : paint (c_start c) (c_end c) id pb !! i = Some (if decide (covers (Z.of_nat i) c) then id else x)).
  { unfold paint. rewrite list_lookup_imap, Hx. cbn. f_equal. unfold covers. case_decide; [|destruct (_ && _) eqn:E; lia].
    destruct (_ && _) eqn:E; lia. }
  unfold shows. case_decide as D; [by exists id|]. destruct o as [c'|]; cbn in Ho.
  - destruct Ho as (id' & L' & ? & Hn'). exists id'. split; [congruence|]. split; [done|]. by apply (prefix_lookup_Some m.2 m'.2).
  - congruence.
Qed.

(** In sorted order, the last capture over a byte is the most specific one. *)
Definition most_specific (caps : list capture) (i : Z) (c : capture) : Prop :=
  c ∈ caps /\ covers i c /\ forall c', c' ∈ caps -> covers i c' -> before c c' = false.

Lemma on_top_app i o l1 l2 : on_top i o (l1 ++ l2) = on_top i (on_top i o l1) l2.
Proof. apply foldl_app. Qed.

Lemma on_top_sorted i caps : StronglySorted (not_less before) caps ->
  match on_top i None caps with
  | None => forall c, c ∈ caps -> ~ covers i c
  | Some c => most_specific caps i c
  end.
Proof.
  induction caps as [|c caps IH] using rev_ind; [by intros _ c ?%elem_of_nil|]. intros S.
  rewrite on_top_app. cbn [on_top foldl].
  assert (S1 : StronglySorted (not_less before) caps) by (by eapply StronglySorted_app_1_l).
  assert (S2 : forall c', c' ∈ caps -> before c c' = false).
  { intros c' Hc. by eapply (StronglySorted_app_1_elem_of (not_less before)); [done|done|constructor]. }
  specialize (IH S1). case_decide as D.
  - split; [apply elem_of_app; right; by constructor|]. split; [done|].
    intros c' [H1 | ->%list_elem_of_singleton]%elem_of_app Hc; [by apply S2|]. unfold before. rewrite Z.eqb_refl. lia.
  - destruct (on_top i None caps) as [d|] eqn:E.
    + destruct IH as (A & B & C). split; [apply elem_of_app; by left|]. split; [done|].
      intros c' [H1 | ->%list_elem_of_singleton]%elem_of_app Hc; [by apply C|done].
    + intros c' [H1 | ->%list_elem_of_singleton]%elem_of_app; [by apply IH|done].
Qed.

(** No other capture over [i] is shorter, and none that is as long starts later. *)
Definition smallest (caps : list capture) (i : Z) (c : capture) : Prop :=
  c ∈ caps /\ covers i c /\
  forall c', c' ∈ caps -> covers i c' ->
    c_end c - c_start c < c_end c' - c_start c' \/ c_end c - c_start c = c_end c' - c_start c' /\ c_start c' <= c_start c.

Lemma most_specific_smallest caps n i c : n < 2 ^ 32 -> Forall (fun c => 0 <= c_start c < c_end c /\ c_end c <= n) caps ->
  most_specific caps i c <-> smallest caps i c.
Proof.
  intros Hn Hv. rewrite Forall_forall in Hv. unfold most_specific, smallest.
  assert (Sp : forall c, c ∈ caps -> span c = c_end c - c_start c).
  { intros d Hd. destruct (Hv d Hd). apply u32_small. lia. }
  assert (B : forall c', c ∈ caps -> c' ∈ caps -> before c c' = false <->
    c_end c - c_start c < c_end c' - c_start c' \/ c_end c - c_start c = c_end c' - c_start c' /\ c_start c' <= c_start c).
  { intros c' H1 H2. unfold before. rewrite (Sp c), (Sp c') by done. destruct (Z.eqb_spec (c_end c - c_start c) (c_end c' - c_start c')); lia. }
  naive_solver.
Qed.

(** * Runs of bytes *)

(** Non-empty ranges from [lo] up to [n], in order and disjoint; [left] is the name that
    ends at [lo]: two tokens that touch have different names. *)
Fixpoint tiles (lo : Z) (left : option bytes) (n : Z) (ts : list token) : Prop :=
  match ts with
  | [] => True
  | t :: ts =>
      lo <= t_start t < t_end t /\ t_end t <= n /\ (t_start t = lo -> left <> Some (t_name t)) /\
      tiles (t_end t) (Some (t_name t)) n ts
  end.

Definition within (k : Z) (t : token) : Prop := t_start t <= k < t_end t.

(** The tokens name exactly the bytes with an identifier, as the identifier says. *)
Definition name_bytes (id_to_name : list bytes) (i : Z) (rest : list Z) (ts : list token) : Prop :=
  forall k id, rest !! k = Some id ->
    if decide (id = 0) then forall t, t ∈ ts -> ~ within (i + Z.of_nat k) t
    else exists t, t ∈ ts /\ within (i + Z.of_nat k) t /\ id_to_name !! Z.to_nat id = Some (t_name t).

Lemma tiles_above lo left n ts t : tiles lo left n ts -> t ∈ ts -> lo <= t_start t.
Proof.
  revert lo left. induction ts as [|u ts IH]; intros lo left; [by intros _ ?%elem_of_nil|].
  intros (A & B & _ & C) [ -> | Ht ]%elem_of_cons; [lia|]. specialize (IH _ _ C Ht). lia.
Qed.

Lemma tiles_later lo lo' left left' n ts : lo < lo' -> (forall t, t ∈ ts -> lo' <= t_start t) -> tiles lo left n ts -> tiles lo left' n ts.
Proof.
  intros L H. destruct ts as [|t ts]; [done|]. intros (A & B & _ & C). split; [done|]. split; [done|]. split; [|done].
  specialize (H t ltac:(constructor)). lia.
Qed.

Lemma run_length_spec id l : Forall (eq id) (take (run_length id l) l) /\ (run_length id l <= length l)%nat /\
  forall x, drop (run_length id l) l !! 0%nat = Some x -> x <> id.
Proof.
  induction l as [|y l IH]; [done|]. cbn. destruct (Z.eqb_spec y id) as [->|]; cbn.
  - destruct IH as (A & B & C). split; [by constructor|]. split; [lia|done].
  - split; [constructor|]. split; [lia|]. by intros x [= ->].
Qed.

Lemma token_loop_ok tbl fuel : forall i rest left, injective tbl -> (length rest < fuel)%nat ->
  Forall (fun id => id = 0 \/ 0 < id /\ is_Some (tbl !! Z.to_nat id)) rest ->
  (forall id nm, rest !! 0%nat = Some id -> id <> 0 -> tbl !! Z.to_nat id = Some nm -> left <> Some nm) ->
  exists ts, token_loop fuel tbl i rest = Ret ts /\ tiles i left (i + zlen rest) ts /\ name_bytes tbl i rest ts.
Proof.
  induction fuel as [|fuel IH]; intros i rest left Hi Hf Hv Hl; [lia|]. cbn [token_loop].
  destruct rest as [|id rest]; [by exists []|]. apply Forall_cons in Hv as [Hid Hv]. cbn [length] in *.
  destruct (Z.eqb_spec id 0) as [->|Hz].
  - destruct (IH (i + 1) rest None) as (ts & E & T & N); [done|lia|done|done|]. exists ts. split; [done|]. split.
    + apply (tiles_later i (i + 1) None); [lia| |].
      * intros t Ht. by apply (tiles_above _ _ _ _ _ T).
      * replace (i + Z.of_nat (S (length rest))) with (i + 1 + zlen rest) by lia.
        destruct ts as [|t ts]; [done|]. destruct T as (A & B & _ & C). split; [lia|]. done.
    + intros [|k] x; cbn [lookup list_lookup].
      * intros [= <-]. rewrite decide_True by done. intros t Ht Hw. pose proof (tiles_above _ _ _ _ _ T Ht). unfold within in Hw. lia.
      * intros Hx. specialize (N k x Hx). by replace (i + Z.of_nat (S k)) with (i + 1 + Z.of_nat k) by lia.
  - destruct Hid as [->|[Hp [nm Hnm]]]; [done|]. rewrite (at_Ret tbl id nm) by (done || lia). rewrite bind_Ret.
    set (r := run_length id rest). destruct (run_length_spec id rest) as (Hrun & Hlen & Hnext). fold r in Hrun, Hlen, Hnext.
    destruct (IH (i + 1 + Z.of_nat r) (drop r rest) (Some nm)) as (ts & E & T & N);
      [done|rewrite length_drop; lia|by apply Forall_drop| |].
    { intros id' nm' L Hz' Hn' [= <-]. apply (Hnext id' L).
      assert (Hid' : 0 < id').
      { rewrite Forall_forall in Hv. destruct (Hv id') as [?|[? _]]; [|done|done]. rewrite <- (take_drop r rest).
        apply elem_of_app. right. by apply list_elem_of_lookup_2 with 0%nat. }
      pose proof (Hi (Z.to_nat id') (Z.to_nat id) nm ltac:(lia) ltac:(lia) Hn' Hnm). lia. }
    exists (MkToken i (i + 1 + Z.of_nat r) nm :: ts). rewrite E. split; [done|]. rewrite length_drop in T.
    replace (i + 1 + Z.of_nat r + Z.of_nat (length rest - r)) with (i + Z.of_nat (S (length rest))) in T by lia.
    split; [split; [cbn; lia|split; [cbn; lia|split; [|done]]]|].
    { intros _. by apply (Hl id nm). }
    intros k x Hk. destruct (decide (k <= r)%nat) as [Hkr|Hkr].
    + assert (x = id) as ->.
      { destruct k as [|k]; cbn in Hk; [congruence|]. symmetry. rewrite Forall_lookup in Hrun. apply (Hrun k).
        by rewrite lookup_take_lt by lia. }
      rewrite decide_False by done. exists (MkToken i (i + 1 + Z.of_nat r) nm). split; [constructor|]. split; [cbn; unfold within; cbn; lia|done].
    + destruct k as [|k]; [lia|]. cbn in Hk.
      assert (Hk' : drop r rest !! (k - r)%nat = Some x) by (rewrite lookup_drop; by replace (r + (k - r))%nat with k by lia).
      specialize (N _ _ Hk'). replace (i + 1 + Z.of_nat r + Z.of_nat (k - r)) with (i + Z.of_nat (S k)) in N by lia.
      case_decide; [|destruct N as (t & A & B); exists t; by split; [right|]].
      intros t [ -> | Ht ]%elem_of_cons; [unfold within; cbn; lia|by apply N].
Qed.

(** * What [tokenize] answers *)

Section TokenizeFacts.
Context (sort : list capture -> list capture) (has_language set_language : bytes -> bool) (parses : bytes -> bytes -> bool)
  (query_of : bytes -> bytes) (compiles : bytes -> bytes -> bool) (run : bytes -> bytes -> bytes -> list capture).
(** [std::sort] sorts; the captures of a text lie in it, and a query has less than 65535 names. *)
Hypothesis sort_perm : forall l, sort l ≡ₚ l.
Hypothesis sort_sorted : forall l, StronglySorted (not_less before) (sort l).
Hypothesis run_inside : forall lang q source, Forall (fun c => 0 <= c_start c /\ c_end c <= zlen source) (run lang q source).
Hypothesis run_names : forall lang q, exists ns, zlen ns < 65535 /\ forall source, Forall (fun c => c_name c ∈ ns) (run lang q source).
Notation tokenize := (tokenize sort has_language set_language parses query_of compiles run).
Notation captures := (captures run).

(** The captures a text is coloured by: those of the language's query, of the fallback
    when that does not compile, none when nothing compiles or parses. *)
Definition coloured_by (lang source : bytes) : list capture :=
  if bool_decide (query_of lang = []) || negb (set_language lang && parses lang source) then []
  else if compiles lang (query_of lang) then captures lang (query_of lang) source
  else if compiles lang kFallbackHighlights then captures lang kFallbackHighlights source
  else [].

Lemma captures_inside lang q source : Forall (fun c => 0 <= c_start c < c_end c /\ c_end c <= zlen source) (captures lang q source).
Proof.
  apply Forall_forall. intros c [L Hc]%list_elem_of_filter. pose proof (run_inside lang q source) as H. rewrite Forall_forall in H.
  destruct (H c Hc). lia.
Qed.

(** The tokens [ts] of a text of [n] bytes colour it as the captures say. *)
Definition coloured (caps : list capture) (n : Z) (ts : list token) : Prop :=
  tiles 0 None n ts /\
  forall i, 0 <= i < n ->
    (exists t c, t ∈ ts /\ within i t /\ smallest caps i c /\ t_name t = c_name c) \/
    (forall t, t ∈ ts -> ~ within i t) /\ (forall c, c ∈ caps -> ~ covers i c).

Lemma most_specific_perm l l' i c : l ≡ₚ l' -> most_specific l i c -> most_specific l' i c.
Proof. intros P (A & B & C). split; [by rewrite <- P|]. split; [done|]. intros c' Hc. apply C. by rewrite P. Qed.

Lemma tokens_of_coloured lang q source : zlen source < 2 ^ 32 ->
  exists ts, tokens_of sort (captures lang q source) source = Ret ts /\ coloured (captures lang q source) (zlen source) ts.
Proof.
  intros Hn. unfold tokens_of. set (caps := captures lang q source). set (n := zlen source). rewrite (u32_small n) by (unfold n in *; lia).
  destruct (run_names lang q) as (ns & Hns & Hrn). pose proof (captures_inside lang q source) as Hv. fold caps n in Hv.
  assert (Hc : Forall (fun c => c_name c ∈ ns /\ c_end c <= n) (sort caps)).
  { rewrite sort_perm. rewrite Forall_forall in Hv. apply Forall_forall. intros c Hc. destruct (Hv c Hc). split; [|done].
    specialize (Hrn source). rewrite Forall_forall in Hrn. apply Hrn. by apply list_elem_of_filter in Hc as []. }
  destruct (paint_all_ok ns n (sort caps) ([], [[]]) (replicate (Z.to_nat n) 0) Hns) as (A & B & C); [|rewrite length_replicate; lia|done|].
  { split; [exists []; split; [done|split; [apply NoDup_nil_2|by intros ? ?%elem_of_nil]]|]. split; [|done]. intros nm. cbn. split; [by intros [? ?]|by intros ?%elem_of_nil]. }
  destruct (paint_all n (sort caps) ([], [[]]) (replicate (Z.to_nat n) 0)) as [m pb]. cbn [fst snd] in *. rewrite length_replicate in C.
  assert (Sh : forall i, (i < Z.to_nat n)%nat -> shows m pb i (on_top (Z.of_nat i) None (sort caps))).
  { intros i Hi. apply C; [done|]. by apply lookup_replicate_2. }
  clear C. destruct (token_loop_ok m.2 (S (Z.to_nat n)) 0 pb None) as (ts & E & T & N).
  - by eapply names_injective.
  - lia.
  - apply Forall_lookup. intros i id Hi. apply lookup_lt_Some in Hi as Hl. specialize (Sh i ltac:(lia)).
    destruct (on_top _ _ _) as [c|]; cbn in Sh; [|left; congruence]. destruct Sh as (id' & L & ? & Hx). right. simplify_eq. by eauto.
  - done.
  - exists ts. split; [done|]. rewrite B in T. split; [done|]. intros i Hi.
    specialize (Sh (Z.to_nat i) ltac:(lia)). pose proof (on_top_sorted i (sort caps) (sort_sorted caps)) as O.
    rewrite Z2Nat.id in Sh by lia. destruct (on_top i None (sort caps)) as [c|]; cbn in Sh.
    + left. destruct Sh as (id & L & ? & Hx). specialize (N _ _ L). rewrite decide_False in N by lia.
      destruct N as (t & Ht & Hw & Hnm). rewrite Z2Nat.id in Hw by lia. exists t, c. split; [done|]. split; [done|].
      split; [|congruence].
      apply (most_specific_smallest caps n); [done|done|]. by apply (most_specific_perm (sort caps)).
    + right. specialize (N _ _ Sh). cbn in N. rewrite Z2Nat.id in N by lia. split; [done|]. intros c Hin. apply O. by rewrite sort_perm.
Qed.

(** C35. A text of a known language is coloured by its most specific captures.  The
    tokens are non-empty, inside the text, in order, disjoint, and two that touch have
    different names; a byte that no capture covers is in no token, and every other byte is
    in a token named like a capture such that no other capture over the byte is shorter,
    or as long and starts later.  All table accesses are in bounds and the loop ends. *)
Theorem highlight_most_specific (source name : bytes) : zlen source < 2 ^ 32 ->
  match lookup name with
  | Some lang =>
      if has_language lang then
        exists ts, tokenize source name = Ret (Some (MkResult lang ts)) /\ coloured (coloured_by lang source) (zlen source) ts
      else tokenize source name = Ret None
  | None => tokenize source name = Ret None
  end.
Proof using All.
  intros Hn. unfold Highlight.tokenize. destruct (lookup name) as [lang|]; [|done]. destruct (has_language lang); cbn [negb]; [|done].
  assert (E : forall caps, caps = [] -> coloured caps (zlen source) []).
  { intros caps ->. split; [done|]. intros i _. right. by split; intros ? ?%elem_of_nil. }
  unfold coloured_by. destruct (bool_decide (source = [])) eqn:E0; cbn [orb].
  { apply bool_decide_eq_true_1 in E0 as ->. exists []. split; [done|]. split; [done|]. cbn. lia. }
  destruct (bool_decide (query_of lang = [])); cbn [orb]; [by eauto|].
  rewrite negb_andb. destruct (_ || _); [by eauto|].
  assert (F : forall q, exists ts,
    (match captures lang q source with
     | [] => Ret (Some (MkResult lang []))
     | caps => ts ← tokens_of sort caps source; Ret (Some (MkResult lang ts))
     end) = Ret (Some (MkResult lang ts)) /\ coloured (captures lang q source) (zlen source) ts).
  { intros q. destruct (tokens_of_coloured lang q source Hn) as (ts & T & C). destruct (captures lang q source) eqn:Ec; [by eauto|].
    rewrite T. by exists ts. }
  destruct (compiles lang (query_of lang)); [by apply F|]. destruct (compiles lang kFallbackHighlights); [by apply F|by eauto].
Qed.
End TokenizeFacts.

(** Examples of the environment: a grammar "json" whose query captures two nested ranges. *)
Lemma before_asym a b : before a b = true -> before b a = false.
Proof. unfold before. destruct (Z.eqb_spec (span a) (span b)), (Z.eqb_spec (span b) (span a)); lia. Qed.

Lemma before_neg_trans a b c : before b a = false -> before c b = false -> before c a = false.
Proof.
  unfold before. destruct (Z.eqb_spec (span a) (span b)), (Z.eqb_spec (span b) (span a)), (Z.eqb_spec (span c) (span b)),
    (Z.eqb_spec (span c) (span a)); lia.
Qed.

Lemma stable_sort_before l : StronglySorted (not_less before) (stable_sort before l).
Proof. apply stable_sort_sorted; [apply before_asym|apply before_neg_trans]. Qed.

Definition pair_key (source : bytes) : list capture :=
  if bool_decide (10 <= zlen source) then [MkCapture 1 4 (str "string"); MkCapture 0 10 (str "property"); MkCapture 6 8 (str "number")] else [].

Lemma pair_key_inside source : Forall (fun c => 0 <= c_start c /\ c_end c <= zlen source) (pair_key source).
Proof. unfold pair_key. case_bool_decide; repeat constructor; cbn; lia. Qed.

Lemma pair_key_names : exists ns, zlen ns < 65535 /\ forall source, Forall (fun c => c_name c ∈ ns) (pair_key source).
Proof.
  exists [str "string"; str "property"; str "number"]. split; [done|]. intros source. unfold pair_key.
  case_bool_decide; repeat (apply Forall_cons; split); try apply Forall_nil; cbn [c_name]; set_solver.
Qed.

Definition example_tokenize := tokenize (stable_sort before) (fun _ => true) (fun _ => true) (fun _ _ => true) (fun _ => str "(pair) @property")
  (fun _ _ => true) (fun _ _ => pair_key).

Lemma highlight_most_specific_witness :
  let s := str "{a:b,  1} " in
  example_tokenize s (str "jsonc") =
    Ret (Some (MkResult (str "json") [MkToken 0 1 (str "property"); MkToken 1 4 (str "string"); MkToken 4 6 (str "property");
                                      MkToken 6 8 (str "number"); MkToken 8 10 (str "property")])) /\
  exists ts, example_tokenize s (str "jsonc") = Ret (Some (MkResult (str "json") ts)) /\
    coloured (coloured_by (fun _ => true) (fun _ _ => true) (fun _ => str "(pair) @property") (fun _ _ => true) (fun _ _ => pair_key) (str "json") s) 10 ts.
Proof.
  split; [vm_compute; reflexivity|].
  exact (highlight_most_specific (stable_sort before) (fun _ => true) (fun _ => true) (fun _ _ => true) (fun _ => str "(pair) @property")
    (fun _ _ => true) (fun _ _ => pair_key) (stable_sort_perm before) stable_sort_before (fun _ _ => pair_key_inside)
    (fun _ _ => pair_key_names) (str "{a:b,  1} ") (str "jsonc") eq_refl).
Defined.

(** * Language names *)

Lemma canonicalize_idemp name : canonicalize (canonicalize name) = canonicalize name.
Proof.
  destruct (lookup_name name aliases) as [c|] eqn:E; unfold canonicalize at 2 3; rewrite E; cbn [default from_option id].
  - assert (H : forall p, p ∈ aliases -> canonicalize p.2 = p.2).
    { intros p Hp. assert (F : forallb (fun p => bool_decide (canonicalize p.2 = p.2)) aliases = true) by (vm_compute; reflexivity).
      rewrite forallb_forall in F. refine (bool_decide_eq_true_1 (canonicalize p.2 = p.2) _). by apply F, list_elem_of_In. }
    apply (H (name, c)). revert E. generalize aliases. intros l. induction l as [|[n a] l IH]; [done|]. cbn.
    case_bool_decide as D; [intros [= ->]; subst; constructor|]. intros ?. right. by apply IH.
  - unfold canonicalize. by rewrite E.
Qed.

(** What the table of languages promises: every alias names a language of the table, and
    every language of the table is found under its own name. *)
Lemma languages_found : forallb (fun l => bool_decide (lookup l = Some l)) supported_languages = true /\
  forallb (fun p => bool_decide (lookup p.1 = Some p.2)) aliases = true.
Proof. split; vm_compute; reflexivity. Qed.

(** * What modelling showed *)

(** Two captures of one range are equal for the order of [tokenize], so that either may be
    painted last: sorting functions that differ only there colour the range differently.
    The TypeScript query captures a [property_identifier] as both [@function] and
    [@property]. *)
Lemma equal_ranges_race :
  let a := MkCapture 0 3 (str "function") in
  let b := MkCapture 0 3 (str "property") in
  StronglySorted (not_less before) [a; b] /\ StronglySorted (not_less before) [b; a] /\
  tokens_of (fun _ => [a; b]) [a; b] (str "foo") = Ret [MkToken 0 3 (str "property")] /\
  tokens_of (fun _ => [b; a]) [a; b] (str "foo") = Ret [MkToken 0 3 (str "function")].
Proof. split; [repeat constructor|]. split; [repeat constructor|]. split; vm_compute; reflexivity. Qed.

(** The documented alias [js] is not [typescript], and a language whose query and fallback
    do not compile answers with no tokens where the documentation promises no answer. *)
Lemma js_is_javascript : lookup (str "js") = Some (str "javascript") /\
  tokenize (fun l => l) (fun _ => true) (fun _ => true) (fun _ _ => true) (fun _ => str "?") (fun _ _ => false) (fun _ _ _ => [])
    (str "x") (str "json") = Ret (Some (MkResult (str "json") [])).
Proof. split; vm_compute; reflexivity. Qed.
