(* ===== verification/Isolates.v ===== *)
(** The threads of windows with an isolate of their own ([src/js/isolate_coordinator.cpp]):
    each has a queue of tasks under a mutex and a condition variable; any thread may start
    one, post to it and stop it.

    A step of the machine is what a thread does without another being able to see the
    middle of it: a critical section of a mutex, an atomic store, a notification.  Waiting
    on a condition variable takes two steps, as the mutex is held while the predicate is
    evaluated but a store or a notification without the mutex can come before the thread
    is asleep.  Threads of runtimes run tasks, and tasks may call the coordinator too.  A
    task is its name; that the host starts and that a thread can be created are choices. *)

From S2P Require Import Prelude.

(** * State *)

Notation task := Z (only parsing).

(** Where the thread of a runtime is in [runtime_thread_main]. *)
Inductive worker_pc : Type :=
| No_thread                  (* not created *)
| Booting                    (* constructing its host *)
| Boot_failed                (* the constructor threw *)
| Notifying                  (* started, about to notify *)
| Failed_notifying           (* failed, about to notify *)
| At_wait                    (* about to lock the mutex and see if there is work *)
| Going_to_sleep             (* there was none; the mutex is held *)
| Sleeping
| Running (t : task)
| Finished.

Record runtime_state : Type := MkRuntime {
  worker : worker_pc; mu : bool; queue : list task; stopping : bool; started : bool; init_ok : bool;
  freed : bool;                                  (* the object was destroyed *)
  accepted : list task; ran : list task          (* history: tasks posted and run, in order *)
}.

Inductive thread : Type :=
| Outside (n : nat)
| Of (id : Z).                                   (* the thread of a runtime, inside a task *)

(** What to do when [stop_runtime] returns. *)
Inductive continuation : Type :=
| K_stop                     (* return its result *)
| K_spawn                    (* return 0 from [spawn_window_runtime] *)
| K_all (ids : list Z).      (* go on with these in [stop_all_runtimes] *)

(** Where a thread is in a call. *)
Inductive call : Type :=
| Spawn_thread (id : Z) | Spawn_check (id : Z) | Spawn_going (id : Z) | Spawn_sleeping (id : Z)
| Post_push (id : Z) (t : task) | Post_notify (id : Z)
| Stop_lookup (id : Z) (k : continuation) | Stop_store (id : Z) (k : continuation)
| Stop_notify (id : Z) (k : continuation) | Stop_join (id : Z) (k : continuation).

#[export] Instance worker_pc_eq_dec : EqDecision worker_pc.
Proof. solve_decision. Defined.
#[export] Instance thread_eq_dec : EqDecision thread.
Proof. solve_decision. Defined.
#[export] Program Instance thread_countable : Countable thread :=
  inj_countable' (fun t => match t with Outside n => inl n | Of id => inr id end)
    (fun x => match x with inl n => Outside n | inr id => Of id end) _.
Next Obligation. by intros []. Qed.
#[export] Instance continuation_eq_dec : EqDecision continuation.
Proof. solve_decision. Defined.
#[export] Instance call_eq_dec : EqDecision call.
Proof. solve_decision. Defined.

Notation calls_t := (gmap thread call).
Notation objects_t := (gmap Z runtime_state).

(** [own]: the identifiers of threads outside.  [runtimes]: the keys of [runtimes_];
    [objects]: every runtime there ever was. *)
Record state : Type := MkState {
  next_id : Z; own : gmap nat Z; runtimes : gset Z; objects : objects_t; calls : calls_t;
  answers : list (thread * Z)                    (* what calls returned; false is 0 *)
}.

Definition init : state := MkState 1 ∅ ∅ ∅ ∅ [].

Inductive fault : Type := Use_after_free | Terminate.

Inductive result : Type :=
| Next (s : state)
| Blocked
| Fault (f : fault).

(** * Steps *)

Definition set_calls (cs : calls_t) (s : state) : state := MkState (next_id s) (own s) (runtimes s) (objects s) cs (answers s).
Definition set_objects (os : objects_t) (s : state) : state := MkState (next_id s) (own s) (runtimes s) os (calls s) (answers s).
Definition set_runtimes (rs : gset Z) (s : state) : state := MkState (next_id s) (own s) rs (objects s) (calls s) (answers s).
Definition go (th : thread) (c : call) (s : state) : state := set_calls (<[th := c]> (calls s)) s.
Definition put (id : Z) (r : runtime_state) (s : state) : state := set_objects (<[id := r]> (objects s)) s.
Definition answer (th : thread) (x : Z) (s : state) : state :=
  MkState (next_id s) (own s) (runtimes s) (objects s) (delete th (calls s)) (answers s ++ [(th, x)]).

Definition set_worker (w : worker_pc) (r : runtime_state) : runtime_state :=
  MkRuntime w (mu r) (queue r) (stopping r) (started r) (init_ok r) (freed r) (accepted r) (ran r).
Definition set_mu (b : bool) (r : runtime_state) : runtime_state :=
  MkRuntime (worker r) b (queue r) (stopping r) (started r) (init_ok r) (freed r) (accepted r) (ran r).
Definition set_stopping (r : runtime_state) : runtime_state :=
  MkRuntime (worker r) (mu r) (queue r) true (started r) (init_ok r) (freed r) (accepted r) (ran r).
Definition set_freed (r : runtime_state) : runtime_state :=
  MkRuntime (worker r) (mu r) (queue r) (stopping r) (started r) (init_ok r) true (accepted r) (ran r).
(** [started = true; init_ok = ok], and [stopping] when it failed. *)
Definition set_started (ok : bool) (r : runtime_state) : runtime_state :=
  MkRuntime (worker r) (mu r) (queue r) (if ok then stopping r else true) true ok (freed r) (accepted r) (ran r).
Definition push (t : task) (r : runtime_state) : runtime_state :=
  MkRuntime (worker r) (mu r) (queue r ++ [t]) (stopping r) (started r) (init_ok r) (freed r) (accepted r ++ [t]) (ran r).
Definition pop (t : task) (q : list task) (r : runtime_state) : runtime_state :=
  MkRuntime (Running t) (mu r) q (stopping r) (started r) (init_ok r) (freed r) (accepted r) (ran r).
Definition finish_task (t : task) (r : runtime_state) : runtime_state :=
  MkRuntime At_wait (mu r) (queue r) (stopping r) (started r) (init_ok r) (freed r) (accepted r) (ran r ++ [t]).

(** Use of a [runtime_state] through a pointer. *)
Definition with_object (id : Z) (s : state) (f : runtime_state -> result) : result :=
  match objects s !! id with
  | Some r => if freed r then Fault Use_after_free else f r
  | None => Blocked
  end.

(** A critical section of [state->mu]. *)
Definition locked (id : Z) (s : state) (f : runtime_state -> result) : result :=
  with_object id s (fun r => if mu r then Blocked else f r).

Definition wake_worker (r : runtime_state) : runtime_state :=
  if decide (worker r = Sleeping) then set_worker At_wait r else r.
Definition wake_spawner (id : Z) (c : call) : call :=
  if decide (c = Spawn_sleeping id) then Spawn_check id else c.
Definition spawner_sleeps (id : Z) (cs : calls_t) : bool := bool_decide (map_Exists (fun _ c => c = Spawn_sleeping id) cs).

(** [state->cv.notify_all()] *)
Definition notify_all (id : Z) (r : runtime_state) (s : state) : state :=
  put id (wake_worker r) (set_calls (wake_spawner id <$> calls s) s).

(** [state->cv.notify_one()]: one of the threads asleep; of two, the runtime's when [b]. *)
Definition notify_one (id : Z) (b : bool) (r : runtime_state) (s : state) : state :=
  if bool_decide (worker r = Sleeping) && (b || negb (spawner_sleeps id (calls s))) then put id (wake_worker r) s
  else set_calls (wake_spawner id <$> calls s) s.

(** The thread of a runtime that has something to do, and so uses the runtime. *)
Definition awake (id : Z) (s : state) (f : runtime_state -> result) : result :=
  match worker <$> objects s !! id with
  | None | Some No_thread | Some Sleeping | Some Finished => Blocked
  | Some _ => with_object id s f
  end.

(** One step of the thread of runtime [id] in [runtime_thread_main]; [b]: the host starts. *)
Definition worker_step (id : Z) (b : bool) (s : state) : result :=
  awake id s (fun r =>
    match worker r with
    | No_thread | Sleeping | Finished => Blocked
    | Booting =>
        if b then locked id s (fun r => Next (put id (set_worker Notifying (set_started true r)) s))
        else Next (put id (set_worker Boot_failed r) s)
    | Boot_failed => locked id s (fun r => Next (put id (set_worker Failed_notifying (set_started false r)) s))
    | Notifying => Next (notify_all id (set_worker At_wait r) s)
    | Failed_notifying => Next (notify_all id (set_worker Finished r) s)
    | At_wait =>
        locked id s (fun r =>
          match queue r with
          | [] => if stopping r then Next (put id (set_worker Finished r) s)
                  else Next (put id (set_worker Going_to_sleep (set_mu true r)) s)
          | t :: q => Next (put id (pop t q r) s)
          end)
    | Going_to_sleep => Next (put id (set_worker Sleeping (set_mu false r)) s)
    | Running t =>
        match calls s !! Of id with
        | Some _ => Blocked
        | None => Next (put id (finish_task t r) s)
        end
    end).

(** The end of [stop_runtime] with result [x]. *)
Definition finish (th : thread) (k : continuation) (x : Z) (s : state) : state :=
  match k with
  | K_stop => answer th x s
  | K_spawn => answer th 0 s
  | K_all [] => answer th 0 s
  | K_all (id :: ids) => go th (Stop_lookup id (K_all ids)) s
  end.

(** One step of thread [th] in a call; [b]: the thread can be created, the notification
    wakes the runtime's thread. *)
Definition caller_step (th : thread) (b : bool) (s : state) : result :=
  match calls s !! th with
  | None => Blocked
  | Some c =>
      match c with
      | Spawn_thread id =>
          with_object id s (fun r =>
            if b then Next (go th (Spawn_check id) (put id (set_worker (if id =? 0 then Finished else Booting) r) s))
            else Next (answer th 0
                   (if decide (id ∈ runtimes s) then set_runtimes (runtimes s ∖ {[id]}) (put id (set_freed r) s) else s)))
      | Spawn_check id =>
          locked id s (fun r =>
            if started r then
              if init_ok r then Next (answer th id s) else Next (go th (Stop_lookup id K_spawn) s)
            else Next (go th (Spawn_going id) (put id (set_mu true r) s)))
      | Spawn_going id => with_object id s (fun r => Next (go th (Spawn_sleeping id) (put id (set_mu false r) s)))
      | Spawn_sleeping _ => Blocked
      | Post_push id t =>
          locked id s (fun r =>
            if stopping r then Next (answer th 0 s) else Next (go th (Post_notify id) (put id (push t r) s)))
      | Post_notify id => with_object id s (fun r => Next (answer th 1 (notify_one id b r s)))
      | Stop_lookup id k =>
          if decide (id ∈ runtimes s) then Next (go th (Stop_store id k) (set_runtimes (runtimes s ∖ {[id]}) s))
          else Next (finish th k 0 s)
      | Stop_store id k => with_object id s (fun r => Next (go th (Stop_notify id k) (put id (set_stopping r) s)))
      | Stop_notify id k => with_object id s (fun r => Next (go th (Stop_join id k) (notify_all id r s)))
      | Stop_join id k =>
          with_object id s (fun r =>
            match worker r with
            | No_thread | Finished => Next (finish th k 1 (put id (set_freed r) s))
            | _ => if decide (th = Of id) then Fault Terminate else Blocked
            end)
      end
  end.

Inductive request : Type :=
| Spawn
| Post (id : Z) (t : task)
| Stop (id : Z)
| Stop_all (order : list Z).

Definition fresh_runtime : runtime_state := MkRuntime No_thread false [] false false false false [] [].

(** A thread that may call: one outside that is in no call, or one inside a task. *)
Definition may_call (th : thread) (s : state) : bool :=
  bool_decide (calls s !! th = None) &&
  match th with
  | Outside _ => true
  | Of id => match objects s !! id with
             | Some r => match worker r with Running _ => true | _ => false end
             | None => false
             end
  end.

(** A call up to where the thread lets go of [runtimes_mu_] for the first time. *)
Definition request_step (th : thread) (q : request) (s : state) : result :=
  if may_call th s then
    match q with
    | Spawn =>
        let id := next_id s in
        Next (go th (Spawn_thread id)
                (MkState (u64 (id + 1)) (own s) ({[id]} ∪ runtimes s) (<[id := fresh_runtime]> (objects s)) (calls s) (answers s)))
    | Post id t => if decide (id ∈ runtimes s) then Next (go th (Post_push id t) s) else Next (answer th 0 s)
    | Stop id => Next (go th (Stop_lookup id K_stop) s)
    | Stop_all order =>
        if decide (NoDup order /\ list_to_set order = runtimes s) then Next (finish th (K_all order) 0 s) else Blocked
    end
  else Blocked.

(** [current_isolate_id()], which is fixed when a thread asks for the first time. *)
Definition current_isolate_id (th : thread) (s : state) : Z * state :=
  match th with
  | Of id => (id, s)
  | Outside n =>
      match own s !! n with
      | Some id => (id, s)
      | None => (next_id s, MkState (u64 (next_id s + 1)) (<[n := next_id s]> (own s)) (runtimes s) (objects s) (calls s) (answers s))
      end
  end.

Inductive label : Type :=
| Worker (id : Z) (b : bool)
| Caller (th : thread) (b : bool)
| Request (th : thread) (q : request)
| Ask (th : thread)
| Spurious_worker (id : Z)           (* wake-ups without a notification *)
| Spurious_spawner (th : thread).

Definition step (l : label) (s : state) : result :=
  match l with
  | Worker id b => worker_step id b s
  | Caller th b => caller_step th b s
  | Request th q => request_step th q s
  | Ask th => Next (current_isolate_id th s).2
  | Spurious_worker id =>
      if decide (worker <$> objects s !! id = Some Sleeping) then with_object id s (fun r => Next (put id (wake_worker r) s)) else Blocked
  | Spurious_spawner th =>
      match calls s !! th with
      | Some (Spawn_sleeping id) => Next (go th (Spawn_check id) s)
      | _ => Blocked
      end
  end.

Fixpoint run (ls : list label) (s : state) : result :=
  match ls with
  | [] => Next s
  | l :: ls => match step l s with Next s => run ls s | r => r end
  end.

(** * Calls and the runtime they are about *)

Definition spawning (id : Z) (c : call) : bool :=
  match c with Spawn_thread i | Spawn_check i | Spawn_going i | Spawn_sleeping i => i =? id | _ => false end.
Definition posting (id : Z) (c : call) : bool :=
  match c with Post_push i _ | Post_notify i => i =? id | _ => false end.
Definition stopper (id : Z) (c : call) : bool :=
  match c with Stop_store i _ | Stop_notify i _ | Stop_join i _ => i =? id | _ => false end.
Definition after_store (id : Z) (c : call) : bool :=
  match c with Stop_notify i _ | Stop_join i _ => i =? id | _ => false end.
(** The call holds a pointer to the runtime. *)
Definition about (id : Z) (c : call) : bool := spawning id c || posting id c || stopper id c.

(** Nobody else is in the middle of a call for runtime [id]. *)
Definition alone (th : thread) (id : Z) (s : state) : bool :=
  bool_decide (map_Forall (fun th' c => th' = th \/ about id c = false) (calls s)).

(** A runtime is taken out of the map only when no other thread is in the middle of a call
    for it: what the callers of the coordinator keep to. *)
Definition disciplined (l : label) (s : state) : bool :=
  match l with
  | Caller th b =>
      match calls s !! th with
      | Some (Stop_lookup id _) => alone th id s
      | Some (Spawn_thread id) => b || alone th id s
      | _ => true
      end
  | _ => true
  end.

(** The states that calls lead to, while there are identifiers left. *)
Inductive reachable : state -> Prop :=
| reachable_init : reachable init
| reachable_step l s s' :
    reachable s -> next_id s < 2 ^ 64 - 1 -> disciplined l s = true -> step l s = Next s' -> reachable s'.
