(* ===== verification/IsolatesFacts.v ===== *)
(** What makes the threads of [Isolates] correct: every task accepted is run once, in
    order, before [stop_runtime] returns; no thread uses a runtime that was destroyed
    as long as nobody stops a runtime while a call for it is under way; and stopping ends
    unless the one wake-up that can be lost is lost. *)

From S2P Require Import Prelude Isolates.

(** * One runtime *)

Definition now (w : worker_pc) : list task := match w with Running t => [t] | _ => [] end.

Definition phase_ok (r : runtime_state) : Prop :=
  match worker r with
  | No_thread | Booting | Boot_failed => started r = false /\ init_ok r = false
  | Notifying | At_wait | Running _ | Sleeping => started r = true /\ init_ok r = true
  | Going_to_sleep => started r = true /\ init_ok r = true /\ queue r = []
  | Failed_notifying => started r = true /\ init_ok r = false /\ stopping r = true
  | Finished => started r = true /\ stopping r = true /\ (init_ok r = true -> queue r = [])
  end.

(** What holds of runtime [id] with the calls [cs] and the keys [rts] of the map. *)
Record runtime_ok (cs : calls_t) (rts : gset Z) (id : Z) (r : runtime_state) : Prop := {
  ro_fifo : accepted r = ran r ++ now (worker r) ++ queue r;
  ro_phase : phase_ok r;
  ro_mu : mu r = true -> worker r = Going_to_sleep \/ exists th, cs !! th = Some (Spawn_going id);
  ro_held : worker r = Going_to_sleep -> mu r = true;
  ro_going : forall th, cs !! th = Some (Spawn_going id) -> started r = false /\ mu r = true;
  ro_sleeping : forall th, cs !! th = Some (Spawn_sleeping id) -> started r = false \/ worker r = Notifying \/ worker r = Failed_notifying;
  ro_thread : forall th, cs !! th = Some (Spawn_thread id) -> worker r = No_thread;
  ro_spawner : forall th th' c c', cs !! th = Some c -> cs !! th' = Some c' -> spawning id c = true -> spawning id c' = true -> th = th';
  ro_wake : worker r = Sleeping -> queue r <> [] -> exists th, cs !! th = Some (Post_notify id);
  ro_listed : id ∈ rts -> freed r = false /\ forall th c, cs !! th = Some c -> stopper id c = false;
  ro_stopper : forall th th' c c', cs !! th = Some c -> cs !! th' = Some c' -> stopper id c = true -> stopper id c' = true -> th = th';
  ro_alive : forall th c, cs !! th = Some c -> stopper id c = true -> freed r = false;
  ro_freed : freed r = true -> worker r = No_thread \/ worker r = Finished;
  ro_stored : forall th c, cs !! th = Some c -> after_store id c = true -> stopping r = true
}.

(** The calls about [id] are the same. *)
Definition same_about (id : Z) (cs cs' : calls_t) : Prop := forall th c, about id c = true -> cs !! th = Some c <-> cs' !! th = Some c.

Lemma runtime_ok_frame cs cs' rts rts' id r :
  same_about id cs cs' -> (id ∈ rts' -> id ∈ rts) -> runtime_ok cs rts id r -> runtime_ok cs' rts' id r.
Proof.
  intros F E H.
  assert (Sp : forall c, spawning id c = true -> about id c = true) by (intros c A; unfold about; by rewrite A).
  assert (Pt : forall c, posting id c = true -> about id c = true) by (intros c A; unfold about; by rewrite A, orb_true_r).
  assert (St : forall c, stopper id c = true -> about id c = true) by (intros c A; unfold about; by rewrite A, orb_true_r).
  assert (As : forall c, after_store id c = true -> about id c = true) by (intros [] A; cbn in A; try discriminate; apply St; exact A).
  destruct H. constructor; try done.
  - intros A. destruct (ro_mu0 A) as [?|[th Hth]]; [by left|right; exists th]. apply (F th (Spawn_going id)); [apply Sp; cbn; lia|done].
  - intros th Hth. apply (ro_going0 th). apply F; [apply Sp; cbn; lia|done].
  - intros th Hth. apply (ro_sleeping0 th). apply F; [apply Sp; cbn; lia|done].
  - intros th Hth. apply (ro_thread0 th). apply F; [apply Sp; cbn; lia|done].
  - intros th th' c c' A B C D. apply (ro_spawner0 th th' c c'); try done; apply F; auto.
  - intros A B. destruct (ro_wake0 A B) as [th Hth]. exists th. apply (F th (Post_notify id)); [apply Pt; cbn; lia|done].
  - intros A. destruct (ro_listed0 (E A)) as [B C]. split; [done|]. intros th c Hc. destruct (stopper id c) eqn:D; [|done].
    rewrite <- D. apply (C th). apply F; auto.
  - intros th th' c c' A B C D. apply (ro_stopper0 th th' c c'); try done; apply F; auto.
  - intros th c A B. apply (ro_alive0 th c); [apply F; auto|done].
  - intros th c A B. apply (ro_stored0 th c); [apply F; auto|done].
Qed.

Lemma about_other id id' c : id <> id' -> about id c = true -> about id' c = false.
Proof. intros N. destruct c; cbn; unfold about; cbn; lia. Qed.

(** A thread that goes on with a call about another runtime. *)
Lemma same_about_insert id cs th c c' :
  cs !! th = Some c \/ cs !! th = None -> (cs !! th = Some c -> about id c = false) -> about id c' = false -> same_about id cs (<[th := c']> cs).
Proof.
  intros A B C th' d D. destruct (decide (th = th')) as [<-|N]; [|by rewrite lookup_insert_ne].
  rewrite lookup_insert_eq. split; [|congruence]. intros E. destruct A as [A|A]; [|congruence].
  specialize (B A). congruence.
Qed.

Lemma same_about_delete id cs th c : cs !! th = Some c -> about id c = false -> same_about id cs (delete th cs).
Proof.
  intros A B th' d D. destruct (decide (th = th')) as [<-|N]; [|by rewrite lookup_delete_ne].
  rewrite lookup_delete_eq. split; congruence.
Qed.

Lemma wake_spawner_inv id c d : wake_spawner id c = d -> c = Spawn_sleeping id /\ d = Spawn_check id \/ c <> Spawn_sleeping id /\ c = d.
Proof. unfold wake_spawner. case_decide; [left|right]; by subst. Qed.

Lemma same_about_wake id id' cs : id <> id' -> same_about id cs (wake_spawner id' <$> cs).
Proof.
  intros N th d D. rewrite lookup_fmap. destruct (cs !! th) as [c|]; cbn; [|done]. unfold wake_spawner.
  case_decide as E; [|done]. subst c. split; intros [= <-]; unfold about in D; cbn in D; lia.
Qed.

(** * Steps of one runtime *)

Ltac calls_inv :=
  repeat match goal with
  | H : <[_ := _]> _ !! _ = Some _ |- _ => apply lookup_insert_Some in H; destruct H as [[? ?]|[? H]]; subst; cbn in *; try discriminate
  | H : delete _ _ !! _ = Some _ |- _ => apply lookup_delete_Some in H; destruct H as [? H]
  | H : (wake_spawner _ <$> _) !! _ = Some _ |- _ =>
      rewrite lookup_fmap_Some in H; let W := fresh "W" in destruct H as (? & W & H);
      apply wake_spawner_inv in W; destruct W as [[? ?]|[? ?]]; subst; cbn in *; try discriminate
  end.

Lemma woken_keeps id (cs : calls_t) th c : cs !! th = Some c -> c <> Spawn_sleeping id -> (wake_spawner id <$> cs) !! th = Some c.
Proof. intros H N. rewrite lookup_fmap, H. cbn. f_equal. unfold wake_spawner. by rewrite decide_False. Qed.

Ltac ro_still :=
  first [assumption | apply woken_keeps; [assumption|discriminate]
        | rewrite lookup_insert_ne; [assumption|let E := fresh in intros E; subst; congruence]
        | rewrite lookup_delete_ne; [assumption|let E := fresh in intros E; subst; congruence]].
Ltac ro_exists :=
  match goal with
  | F : ?P -> _ \/ (exists th, _), H : ?P |- _ \/ exists th, _ =>
      let th' := fresh in let E := fresh in
      destruct (F H) as [?|[th' E]]; [first [discriminate | congruence | by left]|right; exists th'; ro_still]
  | F : worker ?r = Sleeping -> queue ?r <> [] -> exists th, _ |- exists th, _ =>
      let th' := fresh in let E := fresh in
      destruct F as [th' E]; [assumption|assumption|exists th'; ro_still]
  end.
Ltac ro_listed :=
  match goal with
  | F : ?id ∈ ?rts -> _ /\ _, H : ?id ∈ ?rts |- _ /\ _ =>
      destruct (F H); split; [assumption|intros; calls_inv; first [done | congruence | eauto 3]]
  end.
Ltac ro_forward :=
  repeat match goal with
  | F : forall th, ?cs !! th = Some (Spawn_going ?id) -> _, H : ?cs !! _ = Some (Spawn_going ?id) |- _ => apply F in H as []
  | F : forall th, ?cs !! th = Some (Spawn_sleeping ?id) -> _, H : ?cs !! _ = Some (Spawn_sleeping ?id) |- _ => apply F in H as [?|[?|?]]
  | F : forall th, ?cs !! th = Some (Spawn_thread ?id) -> _, H : ?cs !! _ = Some (Spawn_thread ?id) |- _ => apply F in H
  | F : ?id ∈ ?rts -> _ /\ _, H : ?id ∈ ?rts |- _ => specialize (F H); destruct F
  end.
Ltac ro_close := try solve [done | congruence | eauto 3 | ro_exists | ro_listed | by rewrite <- ?app_assoc; cbn | ro_forward; first [done | congruence | intuition (congruence || eauto 3)]].
Ltac ro W := intros [] W; unfold phase_ok in *; rewrite W in *; intros; constructor; cbn in *; intros; calls_inv; ro_close.

Section Steps.
Context (cs : calls_t) (rts : gset Z) (id : Z) (r : runtime_state) (th : thread).
Notation ok := (runtime_ok cs rts id).
Notation woken := (wake_spawner id <$> cs).
Implicit Types (k : continuation) (t : Z) (c : call).

Lemma ok_boot : ok r -> worker r = Booting -> mu r = false -> ok (set_worker Notifying (set_started true r)).
Proof. ro W. Qed.

Lemma ok_boot_failed : ok r -> worker r = Booting -> ok (set_worker Boot_failed r).
Proof. ro W. Qed.

Lemma ok_failed : ok r -> worker r = Boot_failed -> mu r = false -> ok (set_worker Failed_notifying (set_started false r)).
Proof. ro W. Qed.

Lemma ok_notify : ok r -> worker r = Notifying -> runtime_ok woken rts id (set_worker At_wait r).
Proof. ro W. Qed.

Lemma ok_notify_failed : ok r -> worker r = Failed_notifying -> runtime_ok woken rts id (set_worker Finished r).
Proof. ro W. Qed.

Lemma ok_leave : ok r -> worker r = At_wait -> mu r = false -> queue r = [] -> stopping r = true -> ok (set_worker Finished r).
Proof. ro W. Qed.

Lemma ok_going : ok r -> worker r = At_wait -> mu r = false -> queue r = [] -> ok (set_worker Going_to_sleep (set_mu true r)).
Proof. ro W. Qed.

Lemma ok_sleep : ok r -> worker r = Going_to_sleep -> ok (set_worker Sleeping (set_mu false r)).
Proof. ro W. Qed.

Lemma ok_pop t q : ok r -> worker r = At_wait -> mu r = false -> queue r = t :: q -> ok (pop t q r).
Proof. ro W. Qed.

Lemma ok_task t : ok r -> worker r = Running t -> ok (finish_task t r).
Proof. ro W. Qed.
Lemma ok_spurious : ok r -> worker r = Sleeping -> ok (set_worker At_wait r).
Proof. ro W. Qed.

(** Calls. *)

(** Another thread in the place of [th]. *)
Ltac ro_unique :=
  match goal with
  | F : forall th th' c c', ?cs !! th = Some c -> _, A : ?cs !! ?x = Some _, B : ?cs !! ?th = Some _, N : ?th <> ?x |- _ =>
      exfalso; apply N; apply (F th x _ _ B A); cbn; first [assumption | lia]
  end.
(** A runtime that is being stopped is not listed. *)
Ltac ro_unlisted :=
  exfalso; match goal with
  | F : ?id ∈ ?rts -> _ /\ _, H : ?id ∈ ?rts, C : _ !! ?th = Some _ |- _ => let L := fresh in destruct (F H) as [_ L]; specialize (L th _ C); cbn in L; lia
  end.
(** Taken out of the map. *)
Ltac ro_removed := exfalso; match goal with H : _ ∈ _ ∖ {[_]} |- _ => apply elem_of_difference in H as [_ H]; apply H; by apply elem_of_singleton end.

Ltac rc := intros [] C; unfold phase_ok in *; intros; constructor; cbn in *; intros; calls_inv; ro_close.

Lemma ok_fresh : id ∉ rts -> (forall th c, cs !! th = Some c -> about id c = false) ->
  runtime_ok (<[th := Spawn_thread id]> cs) ({[id]} ∪ rts) id fresh_runtime.
Proof.
  intros N A. assert (B : forall th c, cs !! th = Some c -> spawning id c = false /\ stopper id c = false).
  { intros th' c H. specialize (A th' c H). unfold about in A. destruct (spawning id c), (stopper id c), (posting id c); done. }
  constructor; cbn; intros; try (split; [done|intros]); calls_inv; try done;
    repeat match goal with H : cs !! _ = Some _ |- _ => apply B in H as [? ?] end; cbn in *; try lia; try congruence.
  destruct c; cbn in *; congruence.
Qed.

Lemma ok_post_start t : ok r -> cs !! th = None -> runtime_ok (<[th := Post_push id t]> cs) rts id r.
Proof. rc. Qed.

Ltac rt F := intros [] C; assert (W : worker r = No_thread) by (by apply (F th)); unfold phase_ok in *; rewrite W in *; intros; constructor; cbn in *; intros; calls_inv; ro_close.

Lemma ok_thread : ok r -> cs !! th = Some (Spawn_thread id) -> freed r = false ->
  runtime_ok (<[th := Spawn_check id]> cs) rts id (set_worker Booting r).
Proof. rt ro_thread0. ro_unique. Qed.

Lemma ok_no_thread : ok r -> cs !! th = Some (Spawn_thread id) -> id ∈ rts -> runtime_ok (delete th cs) (rts ∖ {[id]}) id (set_freed r).
Proof. rt ro_thread0; [by rewrite W|by unfold phase_ok; cbn; rewrite W|ro_removed]. Qed.

Lemma ok_done c : ok r -> cs !! th = Some c -> stopper id c = false -> c <> Spawn_going id -> 
  c <> Post_notify id -> runtime_ok (delete th cs) rts id r.
Proof. rc.  Qed.

Lemma ok_asks_stop k : ok r -> cs !! th = Some (Spawn_check id) -> runtime_ok (<[th := Stop_lookup id k]> cs) rts id r.
Proof. rc. Qed.

Lemma ok_spawn_going : ok r -> cs !! th = Some (Spawn_check id) -> mu r = false -> started r = false ->
  runtime_ok (<[th := Spawn_going id]> cs) rts id (set_mu true r).
Proof. rc. right. exists th. by rewrite lookup_insert_eq. Qed.

Lemma ok_spawn_sleeps : ok r -> cs !! th = Some (Spawn_going id) -> runtime_ok (<[th := Spawn_sleeping id]> cs) rts id (set_mu false r).
Proof. rc; [|ro_unique]. rewrite H in ro_phase0. destruct (ro_going0 th C). intuition congruence. Qed.

Lemma ok_spawn_woken : ok r -> cs !! th = Some (Spawn_sleeping id) -> runtime_ok (<[th := Spawn_check id]> cs) rts id r.
Proof. rc. Qed.

Lemma ok_push t : ok r -> cs !! th = Some (Post_push id t) -> mu r = false -> stopping r = false ->
  runtime_ok (<[th := Post_notify id]> cs) rts id (push t r).
Proof. rc; [by rewrite ro_fifo0, <- !app_assoc|unfold phase_ok; cbn; destruct (worker r); intuition congruence|exists th; by rewrite lookup_insert_eq]. Qed.

Lemma ok_lookup k : ok r -> cs !! th = Some (Stop_lookup id k) -> id ∈ rts -> runtime_ok (<[th := Stop_store id k]> cs) (rts ∖ {[id]}) id r.
Proof. rc; [ro_removed| |]; match goal with A : _ !! _ = Some _, B : stopper id _ = true |- _ => rewrite (proj2 (ro_listed0 ltac:(assumption)) _ _ A) in B; done end. Qed.

Lemma ok_store k : ok r -> cs !! th = Some (Stop_store id k) -> runtime_ok (<[th := Stop_notify id k]> cs) rts id (set_stopping r).
Proof. rc; [unfold phase_ok; cbn; destruct (worker r); intuition congruence|ro_unlisted]. Qed.

Lemma ok_join k : ok r -> cs !! th = Some (Stop_join id k) -> worker r = No_thread \/ worker r = Finished ->
  runtime_ok (delete th cs) rts id (set_freed r).
Proof. rc; [ro_unlisted|ro_unique]. Qed.

Lemma ok_wake : ok r -> ok (wake_worker r).
Proof. unfold wake_worker. case_decide; [by intros; apply ok_spurious|done]. Qed.

Lemma ok_woken : ok r -> runtime_ok woken rts id r.
Proof. intros []. constructor; intros; calls_inv; ro_close. Qed.

Lemma ok_posted : ok r -> cs !! th = Some (Post_notify id) -> worker r <> Sleeping -> runtime_ok (delete th cs) rts id r.
Proof. rc. Qed.

Lemma ok_stop_joins k : ok r -> cs !! th = Some (Stop_notify id k) -> runtime_ok (<[th := Stop_join id k]> cs) rts id r.
Proof. rc. ro_unlisted. Qed.
End Steps.

(** * The invariant *)

Record invariant (s : state) : Prop := {
  inv_next : 1 <= next_id s;
  inv_object : forall id r, objects s !! id = Some r -> 1 <= id < next_id s /\ runtime_ok (calls s) (runtimes s) id r;
  inv_own : forall n id, own s !! n = Some id -> 1 <= id < next_id s /\ objects s !! id = None;
  inv_own_inj : forall n n' id, own s !! n = Some id -> own s !! n' = Some id -> n = n';
  inv_listed : forall id, id ∈ runtimes s -> is_Some (objects s !! id);
  inv_call : forall th c id, calls s !! th = Some c -> about id c = true -> is_Some (objects s !! id)
}.

(** A step about runtime [id]. *)
Lemma inv_update s id r r' cs' rts' ans' : invariant s -> objects s !! id = Some r ->
  (forall id', id' <> id -> same_about id' (calls s) cs') -> rts' ⊆ runtimes s -> runtime_ok cs' rts' id r' ->
  invariant (MkState (next_id s) (own s) rts' (<[id := r']> (objects s)) cs' ans').
Proof.
  intros [] O F R K. assert (D : forall i, is_Some (objects s !! i) -> is_Some (<[id := r']> (objects s) !! i)).
  { intros i ?. destruct (decide (id = i)) as [<-|]; [rewrite lookup_insert_eq; by eexists|by rewrite lookup_insert_ne]. }
  constructor; cbn; [done| | |done| |].
  - intros i x [[<- <-]|[N Hx]]%lookup_insert_Some; [split; [by apply (inv_object0 id r)|done]|].
    destruct (inv_object0 i x Hx) as [? Hk]. split; [done|]. apply (runtime_ok_frame (calls s) _ (runtimes s)); auto.
  - intros n i Hn. destruct (inv_own0 n i Hn) as [? Hnone]. split; [done|]. rewrite lookup_insert_ne; [done|]. intros ->. congruence.
  - intros i Hi. apply D, inv_listed0, R, Hi.
  - intros th c i Hc A. destruct (decide (i = id)) as [->|N]; [rewrite lookup_insert_eq; by eexists|].
    apply D, (inv_call0 th c); [|done]. by apply (F i N).
Qed.

Lemma inv_update_calls s id r cs' rts' ans' : invariant s -> objects s !! id = Some r ->
  (forall id', id' <> id -> same_about id' (calls s) cs') -> rts' ⊆ runtimes s -> runtime_ok cs' rts' id r ->
  invariant (MkState (next_id s) (own s) rts' (objects s) cs' ans').
Proof. intros I O F R K. rewrite <- (insert_id (objects s) id r O). by apply (inv_update s id r). Qed.

(** A step about no runtime. *)
Lemma inv_no_call s cs' ans' : invariant s -> (forall id', same_about id' (calls s) cs') ->
  invariant (MkState (next_id s) (own s) (runtimes s) (objects s) cs' ans').
Proof.
  intros [] F. constructor; cbn; try done.
  - intros i x Hx. destruct (inv_object0 i x Hx) as [? Hk]. split; [done|]. apply (runtime_ok_frame (calls s) _ (runtimes s)); auto.
  - intros th c i Hc A. apply (inv_call0 th c i); [by apply (F i th c A)|done].
Qed.

Lemma inv_init : invariant init.
Proof. constructor; cbn; intros; done. Qed.

Lemma with_object_inv id s f s' : with_object id s f = Next s' -> exists r, objects s !! id = Some r /\ freed r = false /\ f r = Next s'.
Proof. unfold with_object. destruct (objects s !! id) as [r|]; [|done]. destruct (freed r) eqn:E; [done|]. by exists r. Qed.

Lemma locked_inv id s f s' : locked id s f = Next s' ->
  exists r, objects s !! id = Some r /\ freed r = false /\ mu r = false /\ f r = Next s'.
Proof. intros (r & O & E & H)%with_object_inv. destruct (mu r) eqn:M; [done|]. by exists r. Qed.

Lemma awake_inv id s f s' : awake id s f = Next s' -> exists r, objects s !! id = Some r /\ freed r = false /\ f r = Next s'.
Proof. unfold awake. destruct (worker <$> _) as [[]|]; try done; apply with_object_inv. Qed.

(** A step that only changes the record of a runtime. *)
Lemma inv_put s id r r' : invariant s -> objects s !! id = Some r -> runtime_ok (calls s) (runtimes s) id r' -> invariant (put id r' s).
Proof. intros I O K. by apply (inv_update s id r r' (calls s) (runtimes s) (answers s)). Qed.

Lemma inv_notify_all s id r r' : invariant s -> objects s !! id = Some r ->
  runtime_ok (wake_spawner id <$> calls s) (runtimes s) id (wake_worker r') -> invariant (notify_all id r' s).
Proof.
  intros I O K. apply (inv_update s id r (wake_worker r') (wake_spawner id <$> calls s) (runtimes s) (answers s)); try done.
  intros i N. by apply same_about_wake.
Qed.

Lemma worker_keeps id b s s' : invariant s -> worker_step id b s = Next s' -> invariant s'.
Proof.
  intros I (r & O & E & H)%awake_inv. destruct (inv_object s I id r O) as [_ K].
  destruct (worker r) as [| | | | | | | |t|] eqn:W; try done.
  - destruct b.
    + apply locked_inv in H as (r1 & O1 & _ & M & [= <-]). simplify_eq. apply (inv_put s id r); [done..|]. by apply ok_boot.
    + simplify_eq. apply (inv_put s id r); [done..|]. by apply ok_boot_failed.
  - apply locked_inv in H as (r1 & O1 & _ & M & [= <-]). simplify_eq. apply (inv_put s id r); [done..|]. by apply ok_failed.
  - simplify_eq. apply (inv_notify_all s id r); [done..|]. by apply ok_wake, ok_notify.
  - simplify_eq. apply (inv_notify_all s id r); [done..|]. by apply ok_wake, ok_notify_failed.
  - apply locked_inv in H as (r1 & O1 & _ & M & H). simplify_eq. destruct (queue r) as [|t q] eqn:Q.
    + destruct (stopping r) eqn:S; simplify_eq; (apply (inv_put s id r); [done..|]); [by apply ok_leave|by apply ok_going].
    + simplify_eq. apply (inv_put s id r); [done..|]. by apply ok_pop.
  - simplify_eq. apply (inv_put s id r); [done..|]. by apply ok_sleep.
  - destruct (calls s !! Of id); [done|]. simplify_eq. apply (inv_put s id r); [done..|]. by apply ok_task.
Qed.

Lemma others_go cs th c c' id : cs !! th = Some c ->
  (forall i, i <> id -> about i c = false) -> (forall i, i <> id -> about i c' = false) ->
  forall i, i <> id -> same_about i cs (<[th := c']> cs).
Proof. intros H A B i N. apply (same_about_insert i cs th c); [by left|by intros _; apply A|by apply B]. Qed.

Lemma others_leave cs th c id : cs !! th = Some c -> (forall i, i <> id -> about i c = false) ->
  forall i, i <> id -> same_about i cs (delete th cs).
Proof. intros H A i N. apply (same_about_delete i cs th c); auto. Qed.

Lemma same_about_trans i cs1 cs2 cs3 : same_about i cs1 cs2 -> same_about i cs2 cs3 -> same_about i cs1 cs3.
Proof. intros A B th c H. by rewrite (A th c H), (B th c H). Qed.

(** The calls after [finish]. *)
Lemma finish_state th k x s : exists cs ans,
  finish th k x s = MkState (next_id s) (own s) (runtimes s) (objects s) cs ans /\
  (forall i, same_about i (delete th (calls s)) cs).
Proof.
  assert (G : forall i c, about i c = false -> same_about i (delete th (calls s)) (<[th := c]> (calls s))).
  { intros i c A. rewrite <- insert_delete_eq. apply (same_about_insert i _ th c); [|done|done]. right. apply lookup_delete_eq. }
  destruct k as [| |[|j ids]]; cbn; try by (do 2 eexists; split; [reflexivity|]; intros i th' c H).
  do 2 eexists; split; [reflexivity|]. intros i. by apply G.
Qed.

Lemma finish_invariant s th c k x id r r' : invariant s -> objects s !! id = Some r -> calls s !! th = Some c ->
  (forall i, i <> id -> about i c = false) -> runtime_ok (delete th (calls s)) (runtimes s) id r' ->
  invariant (finish th k x (put id r' s)).
Proof.
  intros I O C A K. destruct (finish_state th k x (put id r' s)) as (cs & ans & -> & F). cbn in *.
  apply (inv_update s id r); try done.
  - intros i N. eapply same_about_trans; [by apply (others_leave _ th c id)|apply F].
  - by apply (runtime_ok_frame (delete th (calls s)) _ (runtimes s)).
Qed.

Lemma put_same s id r : objects s !! id = Some r -> put id r s = s.
Proof. intros O. destruct s. unfold put, set_objects. cbn in *. by rewrite insert_id. Qed.

(** Solves what a call is about. *)
Ltac ab := unfold about; cbn; intros; lia.

Lemma caller_keeps th b s s' : invariant s -> caller_step th b s = Next s' -> invariant s'.
Proof.
  intros I. unfold caller_step. destruct (calls s !! th) as [c|] eqn:C; [|done].
  assert (G : forall id r r' c', objects s !! id = Some r -> (forall i, i <> id -> about i c = false) -> (forall i, i <> id -> about i c' = false) ->
    runtime_ok (<[th := c']> (calls s)) (runtimes s) id r' -> invariant (go th c' (put id r' s))).
  { intros id r r' c' O A B K. apply (inv_update s id r r' (<[th := c']> (calls s)) (runtimes s) (answers s)); try done. by apply (others_go _ th c). }
  assert (L : forall id r r' x, objects s !! id = Some r -> (forall i, i <> id -> about i c = false) ->
    runtime_ok (delete th (calls s)) (runtimes s) id r' -> invariant (answer th x (put id r' s))).
  { intros id r r' x O A K. apply (inv_update s id r r' (delete th (calls s)) (runtimes s)); try done. by apply (others_leave _ th c). }
  assert (Same : forall id r, objects s !! id = Some r -> s = put id r s) by (intros; by rewrite put_same).
  destruct c as [id|id|id|id|id t|id|id k|id k|id k|id k].
  - intros (r & O & E & H)%with_object_inv. destruct (inv_object s I id r O) as [Hid K]. destruct b; simplify_eq.
    + rewrite (proj2 (Z.eqb_neq id 0)) by lia. apply (G id r); [done|ab|ab|]. by apply ok_thread.
    + case_decide as R.
      * apply (inv_update s id r (set_freed r) (delete th (calls s)) (runtimes s ∖ {[id]})); [done|done| |set_solver|by apply ok_no_thread].
        apply (others_leave _ th (Spawn_thread id)); [done|ab].
      * rewrite (Same id r O). apply (L id r); [done|ab|by apply (ok_done _ _ _ _ _ (Spawn_thread id))].
  - intros (r & O & E & M & H)%locked_inv. destruct (inv_object s I id r O) as [Hid K]. destruct (started r) eqn:S.
    + destruct (init_ok r) eqn:F; simplify_eq; rewrite (Same id r O).
      * apply (L id r); [done|ab|by apply (ok_done _ _ _ _ _ (Spawn_check id))].
      * apply (G id r); [done|ab|ab|by apply ok_asks_stop].
    + simplify_eq. apply (G id r); [done|ab|ab|by apply ok_spawn_going].
  - intros (r & O & E & H)%with_object_inv. destruct (inv_object s I id r O) as [Hid K]. simplify_eq.
    apply (G id r); [done|ab|ab|by apply ok_spawn_sleeps].
  - done.
  - intros (r & O & E & M & H)%locked_inv. destruct (inv_object s I id r O) as [Hid K]. destruct (stopping r) eqn:S; simplify_eq.
    + rewrite (Same id r O). apply (L id r); [done|ab|by apply (ok_done _ _ _ _ _ (Post_push id t))].
    + apply (G id r); [done|ab|ab|by apply ok_push].
  - intros (r & O & E & H)%with_object_inv. destruct (inv_object s I id r O) as [Hid K]. simplify_eq.
    unfold notify_one. case_bool_decide as W; cbn [andb].
    + assert (N : spawner_sleeps id (calls s) = false).
      { unfold spawner_sleeps. apply bool_decide_eq_false_2. intros (th' & c & Hc & ->). destruct K.
        specialize (ro_sleeping0 th' Hc). unfold phase_ok in *. rewrite W in *. intuition congruence. }
      rewrite N, orb_true_r. apply (L id r); [done|ab|]. apply ok_posted; [by apply ok_wake|done|]. unfold wake_worker. rewrite decide_True by done. done.
    + apply (inv_update_calls s id r); [done|done| |done|].
      * intros i N. eapply same_about_trans; [by apply (same_about_wake i id)|]. apply (others_leave _ th (Post_notify id) id); [|ab|done].
        by apply woken_keeps.
      * apply ok_posted; [by apply ok_woken|by apply woken_keeps|done].
  - intros H. case_decide as R; simplify_eq.
    + destruct (inv_listed s I id R) as [r O]. destruct (inv_object s I id r O) as [Hid K].
      apply (inv_update_calls s id r); [done|done| |set_solver|by apply ok_lookup].
      apply (others_go _ th (Stop_lookup id k)); [done|ab|ab].
    + destruct (finish_state th k 0 s) as (cs & ans & -> & F). apply inv_no_call; [done|]. intros i.
      eapply same_about_trans; [|apply F]. apply (same_about_delete i _ th (Stop_lookup id k)); [done|ab].
  - intros (r & O & E & H)%with_object_inv. destruct (inv_object s I id r O) as [Hid K]. simplify_eq.
    apply (G id r); [done|ab|ab|by apply ok_store].
  - intros (r & O & E & H)%with_object_inv. destruct (inv_object s I id r O) as [Hid K]. simplify_eq.
    apply (inv_update s id r (wake_worker r) (<[th := Stop_join id k]> (wake_spawner id <$> calls s)) (runtimes s)); [done|done| |done|].
    + intros i N. eapply same_about_trans; [by apply (same_about_wake i id)|].
      apply (others_go _ th (Stop_notify id k) _ id); [by apply woken_keeps|ab|ab|done].
    + apply ok_stop_joins; [by apply ok_woken, ok_wake|by apply woken_keeps].
  - intros (r & O & E & H)%with_object_inv. destruct (inv_object s I id r O) as [Hid K].
    assert (J : worker r = No_thread \/ worker r = Finished -> Next (finish th k 1 (put id (set_freed r) s)) = Next s' -> invariant s').
    { intros J [= <-]. apply (finish_invariant s th (Stop_join id k) k 1 id r); [done|done|done|ab|]. by apply (ok_join _ _ _ _ _ k). }
    destruct (worker r); try (by case_decide); apply J; auto.
Qed.

Lemma may_call_none th s : may_call th s = true -> calls s !! th = None.
Proof. intros [H _]%andb_true_iff. by apply bool_decide_eq_true_1 in H. Qed.

Lemma request_keeps th q s s' : invariant s -> next_id s < 2 ^ 64 - 1 -> request_step th q s = Next s' -> invariant s'.
Proof.
  intros I B. unfold request_step. destruct (may_call th s) eqn:M; [|done]. apply may_call_none in M.
  assert (D : delete th (calls s) = calls s) by (by apply delete_id).
  destruct q as [|id t|id|order].
  - intros [= <-]. pose proof (inv_next s I) as P. rewrite u64_small by lia. set (id := next_id s) in *.
    assert (N : objects s !! id = None).
    { destruct (objects s !! id) as [r|] eqn:O; [|done]. destruct (inv_object s I id r O). lia. }
    assert (A : forall th c, calls s !! th = Some c -> about id c = false).
    { intros th' c Hc. destruct (about id c) eqn:A; [|done]. destruct (inv_call s I th' c id Hc A). congruence. }
    constructor; cbn.
    + lia.
    + intros i r [[<- <-]|[Ni Hr]]%lookup_insert_Some.
      * split; [lia|]. apply ok_fresh; [|done]. intros R. destruct (inv_listed s I id R). congruence.
      * destruct (inv_object s I i r Hr) as [? K]. split; [lia|]. apply (runtime_ok_frame (calls s) _ (runtimes s)); [|set_solver|done].
        apply (same_about_insert i _ th (Spawn_thread id)); [by right|congruence|unfold about; cbn; lia].
    + intros n i Hn. destruct (inv_own s I n i Hn) as [? Hi]. split; [lia|]. rewrite lookup_insert_ne; [done|lia].
    + apply (inv_own_inj s I).
    + intros i Hi. destruct (decide (id = i)) as [<-|Ni]; [rewrite lookup_insert_eq; by eexists|rewrite lookup_insert_ne by done].
      apply (inv_listed s I). set_solver.
    + intros th' c i Hc Ab. destruct (decide (id = i)) as [<-|Ni]; [rewrite lookup_insert_eq; by eexists|rewrite lookup_insert_ne by done].
      apply lookup_insert_Some in Hc as [[<- <-]|[_ Hc]]; [unfold about in Ab; cbn in Ab; lia|]. by apply (inv_call s I th' c).
  - case_decide as R; intros [= <-].
    + destruct (inv_listed s I id R) as [r O]. destruct (inv_object s I id r O) as [_ K].
      apply (inv_update_calls s id r); [done|done| |done|by apply ok_post_start].
      intros i N. apply (same_about_insert i _ th (Post_push id t)); [by right|congruence|ab].
    + apply inv_no_call; [done|]. by intros i th' c _; rewrite D.
  - intros [= <-]. apply inv_no_call; [done|]. intros i. apply (same_about_insert i _ th (Stop_lookup id K_stop)); [by right|congruence|done].
  - case_decide; [|done]. intros E. assert (s' = finish th (K_all order) 0 s) as -> by congruence. clear E.
    destruct (finish_state th (K_all order) 0 s) as (cs & ans & -> & F).
    apply inv_no_call; [done|]. intros i. rewrite <- D at 1. apply F.
Qed.

Lemma ask_keeps th s : invariant s -> next_id s < 2 ^ 64 - 1 -> invariant (current_isolate_id th s).2.
Proof.
  intros I B. destruct th as [n|id]; cbn; [|done]. destruct (own s !! n) as [i|] eqn:O; [done|]. cbn.
  pose proof (inv_next s I) as P. rewrite u64_small by lia. constructor; cbn; try apply I.
  - lia.
  - intros i r Hr. destruct (inv_object s I i r Hr). split; [lia|done].
  - intros n' i [[<- <-]|[N H]]%lookup_insert_Some.
    + split; [lia|]. destruct (objects s !! next_id s) as [r|] eqn:E; [|done]. destruct (inv_object s I _ r E). lia.
    + destruct (inv_own s I n' i H). split; [lia|done].
  - intros n1 n2 i [[<- <-]|[N1 H1]]%lookup_insert_Some [[<- E]|[N2 H2]]%lookup_insert_Some; try done.
    + destruct (inv_own s I _ _ H2). lia.
    + destruct (inv_own s I _ _ H1). lia.
    + by apply (inv_own_inj s I n1 n2 i).
Qed.

Lemma step_keeps l s s' : invariant s -> next_id s < 2 ^ 64 - 1 -> step l s = Next s' -> invariant s'.
Proof.
  intros I B. destruct l as [id b|th b|th q|th|id|th]; cbn [step].
  - by apply worker_keeps.
  - by apply caller_keeps.
  - by apply request_keeps.
  - intros [= <-]. by apply ask_keeps.
  - case_decide as Sl; [|done]. intros (r & O & E & H)%with_object_inv. simplify_eq. apply (inv_put s id r); [done..|]. by apply ok_wake, (inv_object s I id r O).
  - destruct (calls s !! th) as [c|] eqn:C; [|done]. destruct c; try done. intros [= <-].
    destruct (inv_call s I th _ id C) as [r O]; [ab|]. destruct (inv_object s I id r O) as [_ K].
    apply (inv_update_calls s id r); [done|done| |done|by apply ok_spawn_woken].
    apply (others_go _ th (Spawn_sleeping id)); [done|ab|ab].
Qed.


Lemma reachable_invariant s : reachable s -> invariant s.
Proof. induction 1; [apply inv_init|by eapply step_keeps]. Qed.

(** * Pointers *)

(** Whoever starts or posts to a runtime finds it in the map. *)
Definition held (id : Z) (c : call) : bool := spawning id c || posting id c.
Definition pointers_listed (s : state) : Prop := forall th c id, calls s !! th = Some c -> held id c = true -> id ∈ runtimes s.

Lemma held_about id c : held id c = true -> about id c = true.
Proof. unfold held, about. by intros ->. Qed.

Lemma alone_others th id s th' c : alone th id s = true -> calls s !! th' = Some c -> th' <> th -> held id c = false.
Proof.
  intros A%bool_decide_eq_true_1 H N. destruct (A th' c H) as [?|E]; [done|]. destruct (held id c) eqn:F; [|done].
  by rewrite (held_about id c F) in E.
Qed.

(** One call goes on, the others at most wake up. *)
Lemma listed_keeps s s' th :
  pointers_listed s ->
  (forall th' c, th' <> th -> calls s' !! th' = Some c -> exists c', calls s !! th' = Some c' /\ forall i, held i c = held i c') ->
  (forall c i, calls s' !! th = Some c -> held i c = true -> i ∈ runtimes s') ->
  (forall th' c i, th' <> th -> calls s !! th' = Some c -> held i c = true -> i ∈ runtimes s -> i ∈ runtimes s') ->
  pointers_listed s'.
Proof.
  intros P A B C th' c i Hc Hh. destruct (decide (th' = th)) as [->|N]; [by apply (B c)|].
  destruct (A th' c N Hc) as (c' & Hc' & E). rewrite E in Hh. by apply (C th' c' i N Hc' Hh), (P th' c').
Qed.

Lemma held_woken id c i : held i (wake_spawner id c) = held i c.
Proof. unfold wake_spawner. case_decide; by subst. Qed.

Lemma woken_inv id (cs : calls_t) th c : (wake_spawner id <$> cs) !! th = Some c -> exists c', cs !! th = Some c' /\ forall i, held i c = held i c'.
Proof. rewrite lookup_fmap_Some. intros (c' & <- & H). exists c'. split; [done|]. intros i. apply held_woken. Qed.

Lemma listed_calls s s' th : pointers_listed s -> runtimes s ⊆ runtimes s' ->
  (forall th' c, th' <> th -> calls s' !! th' = Some c -> exists c', calls s !! th' = Some c' /\ forall i, held i c = held i c') ->
  (forall c i, calls s' !! th = Some c -> held i c = true ->
    i ∈ runtimes s' \/ exists c', calls s !! th = Some c' /\ held i c' = true) ->
  pointers_listed s'.
Proof.
  intros P R A B. apply (listed_keeps s s' th); [done|done| |by intros; apply R].
  intros c i Hc Hh. destruct (B c i Hc Hh) as [?|(c' & Hc' & Hh')]; [done|]. by apply R, (P th c').
Qed.

Lemma listed_worker id b s s' : pointers_listed s -> worker_step id b s = Next s' -> pointers_listed s'.
Proof.
  intros P (r & O & E & H)%awake_inv.
  assert (G : runtimes s' = runtimes s /\ (calls s' = calls s \/ calls s' = wake_spawner id <$> calls s)).
  { destruct (worker r); try done; try (simplify_eq; by auto).
    - destruct b; [|simplify_eq; by auto]. apply locked_inv in H as (? & _ & _ & _ & [= <-]). by auto.
    - apply locked_inv in H as (? & _ & _ & _ & [= <-]). by auto.
    - apply locked_inv in H as (r' & _ & _ & _ & H). destruct (queue r'); [destruct (stopping r')|]; simplify_eq; by auto.
    - destruct (calls s !! Of id); [done|]. simplify_eq. by auto. }
  destruct G as [R [C|C]].
  - intros th c i. rewrite C, R. apply P.
  - intros th c i. rewrite C, R. intros (c' & Hc' & F)%woken_inv. rewrite F. by apply (P th c' i).
Qed.

Lemma listed_caller th b s s' : invariant s -> pointers_listed s -> disciplined (Caller th b) s = true -> caller_step th b s = Next s' -> pointers_listed s'.
Proof.
  intros I P D. unfold caller_step. cbn [disciplined] in D. destruct (calls s !! th) as [c|] eqn:C; [|done].
  assert (G : forall id r c' t, (forall i, held i c' = true -> held i c = true) -> t = go th c' (put id r s) \/ t = go th c' s -> pointers_listed t).
  { intros id r c' t A T. assert (E : runtimes t = runtimes s /\ calls t = <[th := c']> (calls s)) by (by destruct T as [->| ->]). destruct E as [E1 E2].
    apply (listed_calls s t th); [done|by rewrite E1| |].
    - intros th' d N. rewrite E2, lookup_insert_ne by done. eauto.
    - intros d i. rewrite E2, lookup_insert_eq. intros [= <-] Hh. right. exists c. auto. }
  assert (L : forall t, runtimes t = runtimes s -> (forall th' d, calls t !! th' = Some d -> th' <> th /\ exists d', calls s !! th' = Some d' /\ forall i, held i d = held i d') -> pointers_listed t).
  { intros t E A. apply (listed_calls s t th); [done|by rewrite E|by intros th' d N [_ ?]%A|]. by intros d i [? _]%A. }
  assert (Del : forall th' d (cs : calls_t), delete th cs !! th' = Some d -> th' <> th /\ cs !! th' = Some d).
  { intros th' d cs [? ?]%lookup_delete_Some. done. }
  assert (F : forall t k x, runtimes t = runtimes s -> calls t = calls s -> (forall i, held i c = false) -> pointers_listed (finish th k x t)).
  { intros t k x E1 E2 A. destruct (finish_state th k x t) as (cs & ans & -> & S). intros th' d i Hd Hh. cbn in *.
    rewrite E1. apply (S i th' d) in Hd; [|by apply held_about]. apply Del in Hd as [_ Hd]. rewrite E2 in Hd. by apply (P th' d). }
  destruct c as [id|id|id|id|id t|id|id k|id k|id k|id k].
  - intros (r & O & E & H)%with_object_inv. destruct b; cbn [orb] in D; simplify_eq.
    + by eapply (G id); [|by left].
    + case_decide as R; [|apply L; [done|]; intros th' d [? ?]%Del; by eauto].
      intros th' d i [N Hd]%Del Hh. cbn. apply elem_of_difference. split; [by apply (P th' d)|]. intros ->%elem_of_singleton.
      by rewrite (alone_others th id s th' d) in Hh.
  - intros (r & O & E & M & H)%locked_inv. destruct (started r); [destruct (init_ok r)|]; simplify_eq.
    + apply L; [done|]. intros th' d [? ?]%Del. by eauto.
    + by eapply (G id r); [|by right].
    + by eapply (G id); [|by left].
  - intros (r & O & E & H)%with_object_inv. simplify_eq. by eapply (G id); [|by left].
  - done.
  - intros (r & O & E & M & H)%locked_inv. destruct (stopping r); simplify_eq.
    + apply L; [done|]. intros th' d [? ?]%Del. by eauto.
    + by eapply (G id); [|by left].
  - intros (r & O & E & H)%with_object_inv. simplify_eq. unfold notify_one.
    destruct (_ && _); (apply L; [done|]); intros th' d [N Hd]%Del; (split; [done|]); [by eauto|]. by apply woken_inv in Hd.
  - intros H. case_decide as R; simplify_eq; [|by apply F].
    intros th' d i Hd Hh. cbn in *. apply lookup_insert_Some in Hd as [[<- <-]|[N Hd]]; [done|].
    apply elem_of_difference. split; [by apply (P th' d)|]. intros ->%elem_of_singleton. by rewrite (alone_others th id s th' d) in Hh.
  - intros (r & O & E & H)%with_object_inv. simplify_eq. by eapply (G id); [|by left].
  - intros (r & O & E & H)%with_object_inv. simplify_eq. intros th' d i Hd Hh. cbn in *.
    apply lookup_insert_Some in Hd as [[<- <-]|[N Hd]]; [done|]. apply woken_inv in Hd as (d' & Hd' & A). rewrite A in Hh. by apply (P th' d').
  - intros (r & O & E & H)%with_object_inv.
    destruct (worker r); try (by case_decide); simplify_eq; by apply F.
Qed.

Lemma listed_request th q s s' : pointers_listed s -> request_step th q s = Next s' -> pointers_listed s'.
Proof.
  intros P. unfold request_step. destruct (may_call th s) eqn:M; [|done]. apply may_call_none in M.
  assert (G : forall t c, runtimes s ⊆ runtimes t -> calls t = <[th := c]> (calls s) -> (forall i, held i c = true -> i ∈ runtimes t) -> pointers_listed t).
  { intros t c R E A. intros th' d i. rewrite E. intros [[<- <-]|[_ Hd]]%lookup_insert_Some Hh; [by apply A|]. by apply R, (P th' d). }
  destruct q as [|id t|id|order].
  - intros [= <-]. eapply G; [|done|]; cbn; [set_solver|]. intros i Hi. unfold held in Hi. cbn in Hi. apply elem_of_union_l, elem_of_singleton. lia.
  - case_decide as R; intros [= <-].
    + eapply G; [done|done|]. cbn. intros i Hi. unfold held in Hi. cbn in Hi. assert (i = id) as -> by lia. done.
    + intros th' d i. cbn. rewrite delete_id by done. apply P.
  - intros [= <-]. by eapply G.
  - case_decide; [|done]. intros E. assert (s' = finish th (K_all order) 0 s) as -> by congruence. clear E.
    destruct (finish_state th (K_all order) 0 s) as (cs & ans & -> & F). intros th' d i Hd Hh. cbn in *.
    apply (F i th' d) in Hd; [|by apply held_about]. rewrite delete_id in Hd by done. by apply (P th' d).
Qed.

Lemma reachable_listed s : reachable s -> pointers_listed s.
Proof.
  induction 1 as [|l s s' R P B D S]; [by intros th c i H|]. pose proof (reachable_invariant s R) as I.
  destruct l as [id b|th b|th q|th|id|th]; cbn [step] in S.
  - by eapply listed_worker.
  - by eapply listed_caller.
  - by eapply listed_request.
  - simplify_eq. destruct th as [n|id]; cbn; [|done]. destruct (own s !! n); [done|exact P].
  - case_decide; [|done]. apply with_object_inv in S as (r & _ & _ & [= <-]). exact P.
  - destruct (calls s !! th) as [c|] eqn:C; [|done]. destruct c; try done. simplify_eq. intros th' d i. cbn.
    intros [[<- <-]|[_ Hd]]%lookup_insert_Some Hh; [by apply (P th (Spawn_sleeping id))|by apply (P th' d)].
Qed.

(** * What a step does to a runtime *)

Definition in_gap (w : worker_pc) : Prop := w = Going_to_sleep \/ w = Sleeping.

(** A runtime told to stop while its thread is not on the way to sleep stays so. *)
Record evolves (r r' : runtime_state) : Prop := {
  ev_stopping : stopping r = true -> stopping r' = true;
  ev_freed : freed r = true -> freed r' = true;
  ev_init : started r = true -> init_ok r' = init_ok r /\ started r' = true;
  ev_awake : stopping r = true -> ~ in_gap (worker r) -> ~ in_gap (worker r')
}.

Lemma grows_refl r : evolves r r.
Proof. by constructor. Qed.

Lemma evolves_wake r r' : evolves r r' -> evolves r (wake_worker r').
Proof.
  intros []. unfold wake_worker. case_decide as W; [|by constructor]. constructor; cbn; try done. intros A B [?|?]; done.
Qed.

Lemma put_evolves s id r r' i x : objects s !! id = Some r -> evolves r r' -> objects s !! i = Some x ->
  exists x', <[id := r']> (objects s) !! i = Some x' /\ evolves x x'.
Proof.
  intros O E H. destruct (decide (id = i)) as [<-|N].
  - rewrite lookup_insert_eq. exists r'. split; [done|]. by simplify_eq.
  - rewrite lookup_insert_ne by done. exists x. split; [done|]. apply grows_refl.
Qed.

Ltac ev W := constructor; cbn; rewrite ?W; intros; try done; try (unfold in_gap in *; intuition congruence).

Lemma worker_evolves id b s s' i x : invariant s -> worker_step id b s = Next s' -> objects s !! i = Some x ->
  exists x', objects s' !! i = Some x' /\ evolves x x'.
Proof.
  intros I (r & O & E & H)%awake_inv X. destruct (inv_object s I id r O) as [_ K]. pose proof (ro_phase _ _ _ _ K) as Ph. unfold phase_ok in Ph.
  destruct (worker r) as [| | | | | | | |t|] eqn:W; try done.
  - destruct b.
    + apply locked_inv in H as (r1 & O1 & _ & M & [= <-]). simplify_eq. apply (put_evolves s id r); [done| |done]. ev W; intuition congruence.
    + simplify_eq. apply (put_evolves s id r); [done| |done]. ev W.
  - apply locked_inv in H as (r1 & O1 & _ & M & [= <-]). simplify_eq. apply (put_evolves s id r); [done| |done]. ev W; intuition congruence.
  - simplify_eq. apply (put_evolves s id r); [done|apply evolves_wake|done]. ev W.
  - simplify_eq. apply (put_evolves s id r); [done|apply evolves_wake|done]. ev W.
  - apply locked_inv in H as (r1 & O1 & _ & M & H). simplify_eq. destruct (queue r) as [|t q] eqn:Q.
    + destruct (stopping r) eqn:S; simplify_eq; (apply (put_evolves s id r); [done| |done]); ev W.
    + simplify_eq. apply (put_evolves s id r); [done| |done]. ev W.
  - simplify_eq. apply (put_evolves s id r); [done| |done]. ev W.
  - destruct (calls s !! Of id); [done|]. simplify_eq. apply (put_evolves s id r); [done| |done]. ev W.
Qed.

Lemma finish_objects th k x s : objects (finish th k x s) = objects s.
Proof. by destruct (finish_state th k x s) as (? & ? & -> & _). Qed.

Lemma caller_evolves th b s s' i x : invariant s -> caller_step th b s = Next s' -> objects s !! i = Some x ->
  exists x', objects s' !! i = Some x' /\ evolves x x'.
Proof.
  intros I. unfold caller_step. destruct (calls s !! th) as [c|] eqn:C; [|done].
  assert (Same : forall t, objects t = objects s -> objects s !! i = Some x -> exists x', objects t !! i = Some x' /\ evolves x x').
  { intros t -> X. exists x. split; [done|apply grows_refl]. }
  assert (P : forall id r, objects s !! id = Some r -> forall r', evolves r r' -> objects s !! i = Some x ->
    exists x', <[id := r']> (objects s) !! i = Some x' /\ evolves x x').
  { intros id r O r' E X. by apply (put_evolves s id r). }
  destruct c as [id|id|id|id|id t|id|id k|id k|id k|id k].
  - intros (r & O & E & H)%with_object_inv X. destruct (inv_object s I id r O) as [Hid K].
    pose proof (ro_thread _ _ _ _ K th C) as W. destruct b; simplify_eq.
    + rewrite (proj2 (Z.eqb_neq id 0)) by lia. apply (P id r O); [|done]. ev W.
    + case_decide; [|by apply Same]. apply (P id r O); [|done]. ev W.
  - intros (r & O & E & M & H)%locked_inv X. destruct (started r) eqn:S; [destruct (init_ok r)|]; simplify_eq; [by apply Same..|].
    apply (P id r O); [|done]. ev S.
  - intros (r & O & E & H)%with_object_inv X. simplify_eq. apply (P id r O); [|done]. ev E.
  - done.
  - intros (r & O & E & M & H)%locked_inv X. destruct (stopping r) eqn:S; simplify_eq; [by apply Same|]. apply (P id r O); [|done]. ev S.
  - intros (r & O & E & H)%with_object_inv X. simplify_eq. unfold notify_one. destruct (_ && _); [|by apply Same].
    apply (P id r O); [|done]. apply evolves_wake, grows_refl.
  - intros H X. case_decide; simplify_eq; apply Same; try done. apply finish_objects.
  - intros (r & O & E & H)%with_object_inv X. simplify_eq. apply (P id r O); [|done]. ev E.
  - intros (r & O & E & H)%with_object_inv X. simplify_eq. apply (P id r O); [|done]. apply evolves_wake, grows_refl.
  - intros (r & O & E & H)%with_object_inv X. destruct (worker r) eqn:W; try (by case_decide); simplify_eq; rewrite finish_objects;
      (apply (P id r O); [|done]); ev W.
Qed.

Lemma step_evolves l s s' i x : invariant s -> step l s = Next s' -> objects s !! i = Some x ->
  exists x', objects s' !! i = Some x' /\ evolves x x'.
Proof.
  intros I S X. assert (Same : forall t, objects t !! i = objects s !! i -> exists x', objects t !! i = Some x' /\ evolves x x').
  { intros t ->. exists x. split; [done|apply grows_refl]. }
  destruct l as [id b|th b|th q|th|id|th]; cbn [step] in S.
  - by eapply worker_evolves.
  - by eapply caller_evolves.
  - unfold request_step in S. destruct (may_call th s); [|done]. destruct q as [|id t|id|order].
    + simplify_eq. apply Same. cbn. rewrite lookup_insert_ne; [done|]. intros E. destruct (inv_object s I i x X). lia.
    + case_decide; simplify_eq; by apply Same.
    + simplify_eq. by apply Same.
    + case_decide; [|done]. assert (s' = finish th (K_all order) 0 s) as -> by congruence. apply Same. by rewrite finish_objects.
  - simplify_eq. apply Same. destruct th as [n|id]; cbn; [|done]. by destruct (own s !! n).
  - case_decide; [|done]. apply with_object_inv in S as (r & O & _ & [= <-]).
    apply (put_evolves s id r); [done|apply evolves_wake, grows_refl|done].
  - destruct (calls s !! th) as [c|]; [|done]. destruct c; try done. simplify_eq. by apply Same.
Qed.

(** * Stopping *)

(** Runs of steps that keep to the discipline. *)
Definition moves (s s' : state) : Prop := next_id s < 2 ^ 64 - 1 /\ exists l, disciplined l s = true /\ step l s = Next s'.
Notation path := (rtc moves).

Lemma reachable_path s s' : reachable s -> path s s' -> reachable s'.
Proof. intros R. induction 1 as [|s s1 s2 (B & l & D & S) _ IH]; [done|]. apply IH. by apply (reachable_step l s). Qed.

(** [th] waits for the thread of [id], which was told to stop and is not on its way to sleep. *)
Definition waits (th : thread) (id : Z) (k : continuation) (s : state) : Prop :=
  calls s !! th = Some (Stop_join id k) /\
  exists r, objects s !! id = Some r /\ started r = true /\ init_ok r = true /\ stopping r = true /\ ~ in_gap (worker r).

Definition gone (id : Z) (s : state) : Prop := exists r, objects s !! id = Some r /\ freed r = true /\ init_ok r = true /\ started r = true.

(** Only the thread that joins leaves the join. *)
Lemma join_stays th id k l s s' : invariant s -> calls s !! th = Some (Stop_join id k) -> step l s = Next s' ->
  calls s' !! th = Some (Stop_join id k) \/ exists r, objects s' !! id = Some r /\ freed r = true.
Proof.
  intros I C S.
  assert (Wk : forall i (cs : calls_t), cs !! th = Some (Stop_join id k) -> (wake_spawner i <$> cs) !! th = Some (Stop_join id k)).
  { intros i cs H. by apply woken_keeps. }
  assert (Fi : forall th' k' x t, th' <> th -> calls t !! th = Some (Stop_join id k) -> calls (finish th' k' x t) !! th = Some (Stop_join id k)).
  { intros th' k' x t N H. destruct (finish_state th' k' x t) as (cs & ans & -> & F). cbn.
    apply (F id th (Stop_join id k)); [ab|]. by rewrite lookup_delete_ne. }
  destruct l as [i b|th' b|th' q|th'|i|th']; cbn [step] in S.
  - left. apply awake_inv in S as (r & O & E & H). destruct (worker r) as [| | | | | | | |t|]; try done; try (simplify_eq; first [by auto | by apply Wk]).
    + destruct b; [|by simplify_eq]. by apply locked_inv in H as (? & _ & _ & _ & [= <-]).
    + by apply locked_inv in H as (? & _ & _ & _ & [= <-]).
    + apply locked_inv in H as (r' & _ & _ & _ & H). destruct (queue r'); [destruct (stopping r')|]; by simplify_eq.
    + destruct (calls s !! Of i); by simplify_eq.
  - unfold caller_step in S. destruct (decide (th' = th)) as [->|N].
    + rewrite C in S. apply with_object_inv in S as (r & O & E & H). right.
      destruct (worker r); try (by case_decide); simplify_eq; rewrite finish_objects; exists (set_freed r); cbn; by rewrite lookup_insert_eq.
    + left. assert (In : forall d, <[th' := d]> (calls s) !! th = Some (Stop_join id k)) by (intros; by rewrite lookup_insert_ne).
      assert (De : delete th' (calls s) !! th = Some (Stop_join id k)) by (by rewrite lookup_delete_ne).
      destruct (calls s !! th') as [c|]; [|done]. destruct c as [i|i|i|i|i t|i|i k'|i k'|i k'|i k']; try done.
      * apply with_object_inv in S as (r & O & E & H). destruct b; simplify_eq; [apply In|]. by case_decide.
      * apply locked_inv in S as (r & O & E & M & H). destruct (started r); [destruct (init_ok r)|]; simplify_eq; [exact De|apply In..].
      * apply with_object_inv in S as (r & O & E & H). simplify_eq. apply In.
      * apply locked_inv in S as (r & O & E & M & H). destruct (stopping r); simplify_eq; [exact De|apply In].
      * apply with_object_inv in S as (r & O & E & H). simplify_eq. unfold notify_one. destruct (_ && _); cbn; [done|].
        rewrite lookup_delete_ne by done. by apply Wk.
      * case_decide; simplify_eq; [apply In|by apply Fi].
      * apply with_object_inv in S as (r & O & E & H). simplify_eq. apply In.
      * apply with_object_inv in S as (r & O & E & H). simplify_eq. cbn. rewrite lookup_insert_ne by done. by apply Wk.
      * apply with_object_inv in S as (r & O & E & H). destruct (worker r); try (by case_decide); simplify_eq; by apply Fi.
  - left. unfold request_step in S. destruct (may_call th' s) eqn:M; [|done]. apply may_call_none in M.
    assert (N : th' <> th) by congruence.
    assert (In : forall d, <[th' := d]> (calls s) !! th = Some (Stop_join id k)) by (intros; by rewrite lookup_insert_ne).
    destruct q as [|i t|i|order].
    + simplify_eq. apply In.
    + case_decide; simplify_eq; [apply In|]. cbn. by rewrite lookup_delete_ne.
    + simplify_eq. apply In.
    + case_decide; [|done]. assert (s' = finish th' (K_all order) 0 s) as -> by congruence. by apply Fi.
  - left. simplify_eq. destruct th' as [n|i]; cbn; [|done]. by destruct (own s !! n).
  - left. case_decide; [|done]. by apply with_object_inv in S as (r & O & _ & [= <-]).
  - left. destruct (calls s !! th') as [c|] eqn:C'; [|done]. destruct c; try done. simplify_eq. cbn. rewrite lookup_insert_ne; [done|congruence].
Qed.

Lemma waits_stays th id k s s' : invariant s -> waits th id k s \/ gone id s -> moves s s' -> waits th id k s' \/ gone id s'.
Proof.
  intros I H (_ & l & _ & S). destruct H as [(C & r & O & St & In & Sp & G)|(r & O & F & In & St)].
  - destruct (step_evolves l s s' id r I S O) as (r' & O' & []). destruct (ev_init0 St) as [E1 E2].
    destruct (join_stays th id k l s s' I C S) as [C'|(r'' & O'' & F)].
    + left. split; [done|]. exists r'. rewrite E1. by auto 6.
    + right. simplify_eq. exists r'. by rewrite E1.
  - destruct (step_evolves l s s' id r I S O) as (r' & O' & []). destruct (ev_init0 St) as [E1 E2].
    right. exists r'. rewrite E1. by auto.
Qed.

Lemma waits_path th id k s s' : reachable s -> waits th id k s -> path s s' -> waits th id k s' \/ gone id s'.
Proof.
  intros R W P. assert (G : waits th id k s \/ gone id s) by auto. clear W. induction P as [|s s1 s2 M P IH]; [done|].
  apply IH; [|by eapply waits_stays; [apply reachable_invariant| |]]. by apply (reachable_path s); [|apply rtc_once].
Qed.

Lemma isolates_run_app ls1 ls2 s s' : run ls1 s = Next s' -> run (ls1 ++ ls2) s = run ls2 s'.
Proof. revert s. induction ls1 as [|l ls1 IH]; intros s; cbn; [by intros [= <-]|]. destruct (step l s); [apply IH|done|done]. Qed.

Lemma put_put id r r' s : put id r (put id r' s) = put id r s.
Proof. unfold put, set_objects. cbn. by rewrite insert_insert_eq. Qed.

Lemma awake_step id s r f : objects s !! id = Some r -> freed r = false -> worker r <> No_thread -> worker r <> Sleeping -> worker r <> Finished ->
  awake id s f = f r.
Proof. intros O F A B C. unfold awake, with_object. rewrite O. cbn. rewrite F. by destruct (worker r). Qed.

Lemma locked_step id s r f : objects s !! id = Some r -> freed r = false -> mu r = false -> locked id s f = f r.
Proof. intros O F M. unfold locked, with_object. by rewrite O, F, M. Qed.

(** The thread of a runtime told to stop, at the head of its loop, works off its queue. *)
Lemma drain id q : forall s r, objects s !! id = Some r -> freed r = false -> mu r = false -> stopping r = true -> worker r = At_wait ->
  queue r = q -> calls s !! Of id = None ->
  run (replicate (2 * length q + 1) (Worker id true)) s =
    Next (put id (MkRuntime Finished false [] true (started r) (init_ok r) false (accepted r) (ran r ++ q)) s).
Proof.
  induction q as [|t q IH]; intros s r O F M Sp W Q C.
  - cbn. unfold worker_step. rewrite (awake_step id s r) by (done || congruence). rewrite W, (locked_step id s r), Q, Sp by done. cbn.
    f_equal. f_equal. destruct r; cbn in *. subst. by rewrite app_nil_r.
  - replace (2 * length (t :: q) + 1)%nat with (S (S (2 * length q + 1))) by (cbn; lia). rewrite !replicate_S. cbn [run step].
    unfold worker_step at 1. rewrite (awake_step id s r) by (done || congruence). rewrite W, (locked_step id s r), Q by done.
    unfold worker_step at 1. rewrite (awake_step id _ (pop t q r)); [|by apply lookup_insert_eq|done..]. cbn [worker pop]. cbn [calls put set_objects].
    rewrite C, put_put.
    rewrite (IH _ (finish_task t (pop t q r))); [|by apply lookup_insert_eq|done..]. rewrite put_put. f_equal. f_equal. cbn. by rewrite <- app_assoc.
Qed.

Lemma no_gap_mu cs rts id r : runtime_ok cs rts id r -> started r = true -> ~ in_gap (worker r) -> mu r = false.
Proof.
  intros K S G. destruct (mu r) eqn:M; [|done]. destruct (ro_mu _ _ _ _ K M) as [?|[th H]]; [destruct G; by left|].
  destruct (ro_going _ _ _ _ K th H). congruence.
Qed.

(** From where it is, the thread works off its queue and ends. *)
Lemma thread_ends th id k s : invariant s -> waits th id k s -> calls s !! Of id = None -> exists r, objects s !! id = Some r /\ freed r = false /\
  exists n s' r', (n <= 2 * length (queue r) + 2)%nat /\ run (replicate n (Worker id true)) s = Next s' /\
    calls s' !! th = Some (Stop_join id k) /\ objects s' !! id = Some r' /\
    worker r' = Finished /\ freed r' = false /\ accepted r' = accepted r /\ ran r' = accepted r.
Proof.
  intros I (C & r & O & St & In & Sp & G) Idle. exists r. split; [done|]. destruct (inv_object s I id r O) as [_ K].
  assert (F : freed r = false) by (apply (ro_alive _ _ _ _ K th _ C); cbn; lia). split; [done|].
  pose proof (no_gap_mu _ _ _ _ K St G) as M. pose proof (ro_phase _ _ _ _ K) as Ph. pose proof (ro_fifo _ _ _ _ K) as Fi. unfold phase_ok in Ph.
  destruct (worker r) as [| | | | | | | |t|] eqn:W; try (exfalso; intuition congruence); try (exfalso; apply G; by (left + right)).
  - exists (S (2 * length (queue r) + 1))%nat.
    assert (E : run (replicate (S (2 * length (queue r) + 1)) (Worker id true)) s =
      run (replicate (2 * length (queue r) + 1) (Worker id true)) (notify_all id (set_worker At_wait r) s)).
    { rewrite replicate_S. cbn [run step]. unfold worker_step at 1. rewrite (awake_step id s r) by (done || congruence). by rewrite W. }
    rewrite (drain id (queue r) _ (set_worker At_wait r)) in E; try done; [|by apply lookup_insert_eq|].
    2:{ cbn. rewrite lookup_fmap, Idle. done. }
    do 2 eexists. split; [lia|]. split; [exact E|]. split; [by apply woken_keeps|]. split; [apply lookup_insert_eq|]. cbn.
    split; [done|]. split; [done|]. split; [done|]. by rewrite Fi.
  - exists (2 * length (queue r) + 1)%nat. do 2 eexists. split; [lia|]. split; [by apply (drain id (queue r) s r)|]. split; [done|].
    split; [apply lookup_insert_eq|]. cbn. split; [done|]. split; [done|]. split; [done|]. by rewrite Fi.
  - exists (S (2 * length (queue r) + 1))%nat.
    assert (E : run (replicate (S (2 * length (queue r) + 1)) (Worker id true)) s =
      run (replicate (2 * length (queue r) + 1) (Worker id true)) (put id (finish_task t r) s)).
    { rewrite replicate_S. cbn [run step]. unfold worker_step at 1. rewrite (awake_step id s r) by (done || congruence). by rewrite W, Idle. }
    rewrite (drain id (queue r) _ (finish_task t r)) in E; try done; [|by apply lookup_insert_eq].
    do 2 eexists. split; [lia|]. split; [exact E|]. split; [done|]. split; [apply lookup_insert_eq|]. cbn.
    split; [done|]. split; [done|]. split; [done|]. rewrite Fi. cbn. by rewrite <- app_assoc.
  - exists 0%nat, s, r. split; [lia|]. do 4 (split; [done|]). split; [done|]. split; [done|].
    destruct Ph as (_ & _ & Q). rewrite Fi, Q by done. cbn. by rewrite app_nil_r.
Qed.

(** C37. Stopping ends.  When [stop_runtime] notifies a runtime that had started, and the
    runtime's thread is not between seeing no work and falling asleep, then whatever the
    other threads do from then on, either the runtime is gone or the stopping thread is at
    its join and the runtime's thread, unless it is itself inside a call, needs at most two
    steps per queued task and two more to let the join return, with every accepted task
    run in order. *)
Theorem stop_returns (th : thread) (id : Z) (k : continuation) (b : bool) (s s1 s2 : state) (r : runtime_state) :
  reachable s -> calls s !! th = Some (Stop_notify id k) -> objects s !! id = Some r ->
  started r = true -> init_ok r = true -> worker r <> Going_to_sleep ->
  next_id s < 2 ^ 64 - 1 -> step (Caller th b) s = Next s1 -> path s1 s2 ->
  (exists r2, objects s2 !! id = Some r2 /\ freed r2 = true /\ ran r2 = accepted r2) \/
  calls s2 !! th = Some (Stop_join id k) /\
  exists r2, objects s2 !! id = Some r2 /\
    (calls s2 !! Of id = None ->
     exists n s3 r3, (n <= 2 * length (queue r2) + 2)%nat /\ run (replicate n (Worker id true) ++ [Caller th true]) s2 = Next s3 /\
       objects s3 !! id = Some r3 /\ freed r3 = true /\ accepted r3 = accepted r2 /\ ran r3 = accepted r2).
Proof.
  intros R C O St In G B S P. pose proof (reachable_invariant s R) as I. destruct (inv_object s I id r O) as [_ K].
  assert (R1 : reachable s1). { apply (reachable_step (Caller th b) s); try done. cbn. by rewrite C. }
  assert (W : waits th id k s1).
  { cbn in S. unfold caller_step in S. rewrite C in S. apply with_object_inv in S as (r' & O' & F & H).
    assert (r' = r) as -> by congruence. injection H as <-.
    split; [apply lookup_insert_eq|]. exists (wake_worker r). split; [apply lookup_insert_eq|].
    assert (Sp : stopping r = true) by (apply (ro_stored _ _ _ _ K th _ C); cbn; lia).
    unfold wake_worker, in_gap. case_decide as D; cbn; [|rewrite ?D]; naive_solver. }
  pose proof (reachable_path s1 s2 R1 P) as R2. pose proof (reachable_invariant s2 R2) as I2.
  destruct (waits_path th id k s1 s2 R1 W P) as [W2|(r2 & O2 & F2 & In2 & St2)].
  - right. split; [apply W2|]. destruct (decide (calls s2 !! Of id = None)) as [Idle|N].
    + destruct (thread_ends th id k s2 I2 W2 Idle) as (r2 & O2 & F2 & n & s' & r' & Hn & E & C' & O' & W' & F' & A' & Ra').
      exists r2. split; [done|]. intros _. exists n. cbn.
      exists (finish th k 1 (put id (set_freed r') s')), (set_freed r'). split; [done|]. split.
      * rewrite (isolates_run_app _ _ s2 s') by done. cbn [run step]. unfold caller_step. rewrite C'. unfold with_object. by rewrite O', F', W'.
      * rewrite finish_objects. cbn. rewrite lookup_insert_eq. done.
    + destruct W2 as (_ & r2 & O2 & _). by exists r2.
  - left. exists r2. split; [done|]. split; [done|]. destruct (inv_object s2 I2 id r2 O2) as [_ K2].
    pose proof (ro_phase _ _ _ _ K2) as Ph. pose proof (ro_fifo _ _ _ _ K2) as Fi. unfold phase_ok in Ph.
    destruct (ro_freed _ _ _ _ K2 F2) as [W2|W2]; rewrite W2 in *; [intuition congruence|]. destruct Ph as (_ & _ & Q).
    rewrite Fi, Q by done. cbn. by rewrite app_nil_r.
Qed.

(** A pointer in use points to a runtime. *)
Lemma with_object_alive id s r f : objects s !! id = Some r -> freed r = false -> with_object id s f = f r.
Proof. intros O F. unfold with_object. by rewrite O, F. Qed.

Lemma no_fault_worker id b s : invariant s -> worker_step id b s <> Fault Use_after_free.
Proof.
  intros I. unfold worker_step. destruct (objects s !! id) as [r|] eqn:O; [|unfold awake; by rewrite O].
  destruct (inv_object s I id r O) as [_ K].
  assert (A : worker r = No_thread \/ worker r = Sleeping \/ worker r = Finished \/ freed r = false).
  { destruct (freed r) eqn:F; [|by auto]. destruct (ro_freed _ _ _ _ K F); auto. }
  destruct A as [A|[A|[A|F]]]; [unfold awake; rewrite O; cbn; by rewrite A..|].
  assert (L : forall f, locked id s f = if mu r then Blocked else f r) by (intros f; unfold locked; by rewrite (with_object_alive id s r)).
  unfold awake. rewrite O. cbn. destruct (worker r) eqn:W; try done; rewrite (with_object_alive id s r) by done; rewrite W, ?L; try done.
  - destruct b; [destruct (mu r)|]; done.
  - by destruct (mu r).
  - destruct (mu r); [done|]. destruct (queue r); [destruct (stopping r)|]; done.
  - by destruct (calls s !! Of id).
Qed.

Lemma no_fault_caller th b s : invariant s -> pointers_listed s -> caller_step th b s <> Fault Use_after_free.
Proof.
  intros I P. unfold caller_step. destruct (calls s !! th) as [c|] eqn:C; [|done].
  assert (A : forall id, about id c = true -> exists r, objects s !! id = Some r /\ freed r = false).
  { intros id Ab. destruct (inv_call s I th c id C Ab) as [r O]. exists r. split; [done|]. destruct (inv_object s I id r O) as [_ K].
    destruct (held id c) eqn:H; [apply (ro_listed _ _ _ _ K), (P th c id C H)|]. apply (ro_alive _ _ _ _ K th c C).
    unfold about in Ab. unfold held in H. rewrite H in Ab. done. }
  assert (L : forall id f, about id c = true -> (forall r, f r <> Fault Use_after_free) ->
    with_object id s f <> Fault Use_after_free /\ locked id s f <> Fault Use_after_free).
  { intros id f Ab N. destruct (A id Ab) as (r & O & F). unfold locked. rewrite !(with_object_alive id s r) by done.
    split; [apply N|]. destruct (mu r); [done|apply N]. }
  destruct c as [id|id|id|id|id t|id|id k|id k|id k|id k]; try done; try (apply L; [ab|]); try (intros r); try (by repeat case_match).
Qed.

(** C36. Whatever threads start, post to and stop runtimes, in any interleaving in which
    nobody takes a runtime away while another call for it is under way: no thread uses a
    runtime that was destroyed; the tasks accepted by a runtime are those run, the one
    running and those queued, in that order; a runtime that had started is destroyed only
    after all of them ran; and no two runtimes or threads have the same identifier. *)
Theorem runtimes_are_sound (s : state) : reachable s ->
  (forall l, step l s <> Fault Use_after_free) /\
  (forall id r, objects s !! id = Some r ->
    accepted r = ran r ++ now (worker r) ++ queue r /\
    (freed r = true -> init_ok r = true -> ran r = accepted r)) /\
  (forall n id, own s !! n = Some id -> objects s !! id = None /\ forall n', own s !! n' = Some id -> n' = n).
Proof.
  intros R. pose proof (reachable_invariant s R) as I. pose proof (reachable_listed s R) as P. split; [|split].
  - intros [id b|th b|th q|th|id|th]; cbn [step].
    + by apply no_fault_worker.
    + by apply no_fault_caller.
    + unfold request_step. by repeat case_match.
    + done.
    + case_decide as W; [|done]. destruct (objects s !! id) as [r|] eqn:O; [|done]. destruct (inv_object s I id r O) as [_ K].
      rewrite (with_object_alive id s r); [done|done|]. destruct (freed r) eqn:F; [|done]. injection W as W.
      destruct (ro_freed _ _ _ _ K F); congruence.
    + by repeat case_match.
  - intros id r O. destruct (inv_object s I id r O) as [_ K]. split; [apply K|]. intros F In.
    pose proof (ro_phase _ _ _ _ K) as Ph. pose proof (ro_fifo _ _ _ _ K) as Fi. unfold phase_ok in Ph.
    destruct (ro_freed _ _ _ _ K F) as [W|W]; rewrite W in *; [intuition congruence|]. destruct Ph as (_ & _ & Q).
    rewrite Fi, Q by done. cbn. by rewrite app_nil_r.
  - intros n id H. split; [apply (inv_own s I n id H)|]. intros n' H'. by apply (inv_own_inj s I n' n id).
Qed.

(** * Runs *)

(** The state a list of labels leads to, if all are possible and keep to the discipline. *)
Fixpoint replay (ls : list label) (s : state) : option state :=
  match ls with
  | [] => Some s
  | l :: ls =>
      if (next_id s <? 2 ^ 64 - 1) && disciplined l s then
        match step l s with Next s' => replay ls s' | _ => None end
      else None
  end.

Lemma replay_reachable ls s s' : reachable s -> replay ls s = Some s' -> reachable s'.
Proof.
  revert s. induction ls as [|l ls IH]; intros s R; cbn; [by intros [= <-]|].
  destruct (_ && _) eqn:E; [|done]. apply andb_true_iff in E as [B D]. destruct (step l s) as [s1| |] eqn:S; [|done|done].
  apply IH. apply (reachable_step l s); [done|lia|done|done].
Qed.

Lemma replay_some ls s : match replay ls s with Some _ => true | None => false end = true -> replay ls s = Some (default s (replay ls s)).
Proof. by destruct (replay ls s). Qed.

Notation main := (Outside 0).
Definition starts : list label :=
  [Ask main; Request main Spawn; Caller main true; Caller main true; Caller main true; Worker 2 true; Worker 2 true; Caller main true].
(** Two posts, and a stop up to its notification while the first task has run. *)
Definition stops : list label :=
  starts ++ [Request main (Post 2 7); Caller main true; Worker 2 true; Request (Outside 1) (Post 2 8); Caller (Outside 1) true;
             Caller (Outside 1) true; Caller main true; Worker 2 true; Request main (Stop 2); Caller main true; Caller main true].
Definition stopped : state := Eval vm_compute in default init (replay stops init).

Lemma stopped_reachable : reachable stopped.
Proof. apply (replay_reachable stops init); [constructor|]. vm_compute. reflexivity. Qed.

Lemma runtimes_are_sound_witness :
  (forall l, step l stopped <> Fault Use_after_free) /\
  exists r, objects stopped !! 2 = Some r /\ accepted r = [7; 8] /\ ran r = [7] /\ queue r = [8] /\
    accepted r = ran r ++ now (worker r) ++ queue r.
Proof.
  destruct (runtimes_are_sound stopped stopped_reachable) as (A & B & _). split; [exact A|].
  eexists. split; [vm_compute; reflexivity|]. do 3 (split; [vm_compute; reflexivity|]). apply (B 2). vm_compute. reflexivity.
Defined.

Lemma stop_returns_witness : exists s1, step (Caller main true) stopped = Next s1 /\
  ((exists r2, objects s1 !! 2 = Some r2 /\ freed r2 = true /\ ran r2 = accepted r2) \/
   calls s1 !! main = Some (Stop_join 2 K_stop) /\
   exists r2, objects s1 !! 2 = Some r2 /\
     (calls s1 !! Of 2 = None ->
      exists n s3 r3, (n <= 2 * length (queue r2) + 2)%nat /\ run (replicate n (Worker 2 true) ++ [Caller main true]) s1 = Next s3 /\
        objects s3 !! 2 = Some r3 /\ freed r3 = true /\ accepted r3 = accepted r2 /\ ran r3 = accepted r2)).
Proof.
  eexists. split; [vm_compute; reflexivity|].
  eapply (stop_returns main 2 K_stop true stopped _ _); [exact stopped_reachable|vm_compute; reflexivity|vm_compute; reflexivity|vm_compute; reflexivity
    |vm_compute; reflexivity|vm_compute; discriminate|vm_compute; reflexivity|vm_compute; reflexivity|apply rtc_refl].
Defined.

(** * What modelling showed *)

(** The store and the notification of [stop_runtime] are not under the runtime's mutex:
    between the moment the runtime's thread sees no work and the moment it sleeps they
    pass unnoticed, and then nobody wakes it: it sleeps, the stopping thread joins it, and
    posts are refused. *)
Definition lost : state := Eval vm_compute in default init
  (replay (starts ++ [Worker 2 true; Request main (Stop 2); Caller main true; Caller main true; Caller main true; Worker 2 true]) init).

Lemma lost_wakeup : reachable lost /\
  (forall b, step (Worker 2 b) lost = Blocked /\ step (Caller main b) lost = Blocked) /\
  (forall n t s, step (Request (Outside n) (Post 2 t)) lost = Next s -> objects s = objects lost).
Proof.
  split; [|split].
  - apply (replay_reachable (starts ++ [Worker 2 true; Request main (Stop 2); Caller main true; Caller main true; Caller main true; Worker 2 true]) init);
      [constructor|]. vm_compute. reflexivity.
  - intros []; split; vm_compute; reflexivity.
  - intros n t s. cbn [step]. unfold request_step. destruct (may_call _ _); [|done]. rewrite decide_False by (vm_compute; congruence).
    by intros [= <-].
Qed.

(** [post_task] keeps a raw pointer after it releases [runtimes_mu_]: a thread that stops
    the runtime in between destroys it. *)
Lemma post_after_stop : run
  (starts ++ [Request (Outside 1) (Post 2 9); Request main (Stop 2); Caller main true; Caller main true; Caller main true;
              Worker 2 true; Caller main true; Caller (Outside 1) true]) init = Fault Use_after_free.
Proof. vm_compute. reflexivity. Qed.

(** A task that stops the runtime it runs on joins its own thread, and the runtime's
    [std::thread] is destroyed unjoined. *)
Lemma task_stops_itself : run
  (starts ++ [Request main (Post 2 9); Caller main true; Caller main true; Worker 2 true; Request (Of 2) (Stop 2);
              Caller (Of 2) true; Caller (Of 2) true; Caller (Of 2) true; Caller (Of 2) true]) init = Fault Terminate.
Proof. vm_compute. reflexivity. Qed.
