(* ===== verification/CodeCaches.v ===== *)
(** What is kept of compiled code between runs ([src/js/transpile_cache.cpp],
    [src/js/v8_code_cache.cpp]): the JavaScript that TypeScript sources were translated to,
    and V8's compiled form of scripts and modules, in files named by hashes.

    V8 and the TypeScript compiler are parameters.  The file system is a finite map from
    paths to contents; each call takes an [io] that says which of its attempts fail.
    Calls are not interleaved within a process, and processes run one after the other. *)

From S2P Require Import Prelude Strings.

(** * Hashes and names *)

Definition fnv_step (hash c : Z) : Z := u64 (Z.lxor hash c * 0x100000001b3).
Definition fnv1a_append (hash : Z) (text : bytes) : Z := foldl fnv_step hash text.
Definition fnv1a (text : bytes) : Z := fnv1a_append 0xcbf29ce484222325 text.

Definition cache_key (origin source : bytes) : Z :=
  fnv1a_append (fnv_step (fnv1a origin) 0x1f) source.

Definition hex_digit (d : Z) : Z := if d <? 10 then 48 + d else 87 + d.
Definition hex64 (v : Z) : bytes := (fun i => hex_digit (Z.land (Z.shiftr v (4 * (15 - Z.of_nat i))) 15)) <$> seq 0 16.

(** [lhs / rhs] for a relative [rhs]. *)
Definition join (lhs rhs : bytes) : bytes :=
  match last lhs with
  | None => rhs
  | Some c => if c =? chr "/" then lhs ++ rhs else lhs ++ str "/" ++ rhs
  end.

(** * Files *)

Notation disk_t := (gmap (list Z) (list Z)).

(** Which attempts of a call succeed; [takes = Some n]: writing fails after [n] bytes. *)
Record io : Type := MkIo { makes_root : bool; makes_dirs : bool; reads : bool; opens : bool; takes : option nat; renames : bool; removes : bool }.

Definition remove (path : bytes) (o : io) (d : disk_t) : disk_t := if removes o then delete path d else d.

(** Writing [content] next to [path] and renaming it. *)
Definition write_file (path content : bytes) (o : io) (d : disk_t) : disk_t :=
  let tmp := path ++ str ".tmp" in
  if opens o then
    match takes o with
    | Some n => remove tmp o (<[tmp := take n content]> d)
    | None => if renames o then <[path := content]> (delete tmp d) else remove tmp o (<[tmp := content]> d)
    end
  else d.

Definition read_file (path : bytes) (o : io) (d : disk_t) : option bytes := if reads o then d !! path else None.

(** [f.read(dst, n)] *)
Definition rd (n : nat) (f : bytes) : option (bytes * bytes) :=
  if (n <=? length f)%nat then Some (take n f, drop n f) else None.

(** * The cache directory *)

Record environment : Type := MkEnv { getenv : bytes -> option bytes; temp_directory : option bytes; v8_version : bytes }.

Definition ieq (a b : bytes) : bool := bool_decide (length a = length b) && bool_decide (ascii_lower a = ascii_lower b).

Definition is_disabled_token (s : bytes) : bool :=
  existsb (fun t => ieq s (str t)) ["0"; "off"; "no"; "none"; "false"; "disable"; "disabled"]%string.

Definition non_empty (v : option bytes) : option bytes := match v with Some [] => None | v => v end.

Definition platform_default_dir (e : environment) : bytes :=
  match non_empty (getenv e (str "XDG_CACHE_HOME")) with
  | Some xdg => join (join xdg (str "fxe")) (str "v8")
  | None =>
      match non_empty (getenv e (str "HOME")) with
      | Some home => join (join (join home (str ".cache")) (str "fxe")) (str "v8")
      | None => match temp_directory e with Some tmp => join tmp (str "fxe-v8-cache") | None => [] end
      end
  end.

(** [None]: not resolved yet; [Some []]: caching is disabled. *)
Definition dir_state : Type := option bytes.

Definition resolve_dir_locked (e : environment) (o : io) (s : dir_state) : bytes :=
  match s with
  | Some dir => dir
  | None =>
      let under base := match base with
                        | [] => []
                        | _ => if makes_root o then join base (str "v8-" ++ v8_version e) else []
                        end in
      match getenv e (str "FXE_V8_CACHE_DIR") with
      | Some v => if bool_decide (v = []) || is_disabled_token v then [] else under v
      | None => under (platform_default_dir e)
      end
  end.

(** A file of a cache, or no path when it is disabled or its directory cannot be made. *)
Definition in_dir (root sub name : bytes) (o : io) : bytes :=
  match root with [] => [] | _ => if makes_dirs o then join (join root sub) name else [] end.

Definition file_for (root subdir cache_id : bytes) (o : io) : bytes := in_dir root subdir (hex64 (fnv1a cache_id) ++ str ".v8c") o.
Definition disk_path (root : bytes) (key : Z) (o : io) : bytes := in_dir root (str "transpile") (hex64 key ++ str ".tsc") o.

(** * The formats *)

Definition k_max_name : Z := 16 * 1024.
Definition k_max_payload : Z := 256 * 1024 * 1024.

(** Magic, version, the source's hash and length, and its name: what both formats start with. *)
Definition header (magic : bytes) (version : Z) (name source : bytes) : bytes :=
  magic ++ le_bytes 4 version ++ le_bytes 8 (fnv1a source) ++ le_bytes 8 (zlen source) ++ le_bytes 4 (u32 (zlen name)) ++ name.

(** What is left of a file whose header is right. *)
Definition read_header (magic : bytes) (version : Z) (name source file : bytes) : option bytes :=
  '(m, f) ← rd 4 file;
  if negb (bool_decide (m = magic)) then None else
  '(v, f) ← rd 4 f;
  if negb (le_value v =? version) then None else
  '(h, f) ← rd 8 f;
  '(n, f) ← rd 8 f;
  if negb (le_value n =? zlen source) || negb (le_value h =? fnv1a source) then None else
  '(c, f) ← rd 4 f;
  if k_max_name <? le_value c then None else
  '(id, f) ← rd (Z.to_nat (le_value c)) f;
  if negb (bool_decide (id = name)) then None else Some f.

Definition transpile_magic : bytes := str "FXTC".
Definition transpile_version : Z := 1.
Definition code_magic : bytes := str "FX8C".
Definition code_version : Z := 2.

Definition transpile_file (origin source emitted : bytes) (line_offset : Z) : bytes :=
  header transpile_magic transpile_version origin source ++ le_bytes 4 (u32 (zlen emitted)) ++ emitted ++ le_bytes 4 (u32 line_offset).

Definition read_disk (origin source file : bytes) : option (bytes * Z) :=
  f ← read_header transpile_magic transpile_version origin source file;
  '(n, f) ← rd 4 f;
  if k_max_payload <? le_value n then None else
  '(emitted, f) ← rd (Z.to_nat (le_value n)) f;
  '(line_off, _) ← rd 4 f;
  Some (emitted, i32 (le_value line_off)).

Definition write_disk (path origin source emitted : bytes) (line_offset : Z) (o : io) (d : disk_t) : disk_t :=
  match path with [] => d | _ => write_file path (transpile_file origin source emitted line_offset) o d end.

Definition code_file (cache_id source payload : bytes) : bytes :=
  header code_magic code_version cache_id source ++ le_bytes 4 (u32 (zlen payload)) ++ payload.

Definition load_blob (cache_id source file : bytes) : option bytes :=
  f ← read_header code_magic code_version cache_id source file;
  '(n, f) ← rd 4 f;
  if (le_value n =? 0) || (k_max_payload <? le_value n) then None else
  '(payload, _) ← rd (Z.to_nat (le_value n)) f;
  Some payload.

Definition store_blob (path cache_id source payload : bytes) (o : io) (d : disk_t) : disk_t :=
  match path, payload with
  | [], _ | _, [] => d
  | _, _ => write_file path (code_file cache_id source payload) o d
  end.

(** * The translated sources *)

Record cache_entry : Type := MkEntry { e_origin : bytes; e_source : bytes; e_emitted : bytes; e_line_offset : Z }.

Record process : Type := MkProcess { dir : dir_state; entries : list (Z * cache_entry); disk : disk_t }.

Definition cache_dir (e : environment) (o : io) (p : process) : bytes * process :=
  let root := resolve_dir_locked e o (dir p) in (root, MkProcess (Some root) (entries p) (disk p)).

Definition same_unit (key : Z) (origin source : bytes) (x : Z * cache_entry) : bool :=
  (x.1 =? key) && bool_decide (e_origin x.2 = origin) && bool_decide (e_source x.2 = source).

Definition set_entries (es : list (Z * cache_entry)) (p : process) : process := MkProcess (dir p) es (disk p).
Definition set_disk (d : disk_t) (p : process) : process := MkProcess (dir p) (entries p) d.

Definition transpile_cache_lookup (e : environment) (origin source : bytes) (o : io) (p : process) : option (bytes * Z) * process :=
  let key := cache_key origin source in
  match find (same_unit key origin source) (entries p) with
  | Some x => (Some (e_emitted x.2, e_line_offset x.2), p)
  | None =>
      let '(root, p) := cache_dir e o p in
      match disk_path root key o with
      | [] => (None, p)
      | path =>
          match read_file path o (disk p) ≫= read_disk origin source with
          | None => (None, p)
          | Some (emitted, line) => (Some (emitted, line), set_entries (entries p ++ [(key, MkEntry origin source emitted line)]) p)
          end
      end
  end.

(** The entry of a unit replaced, or added. *)
Fixpoint put_entry (key : Z) (origin source emitted : bytes) (line : Z) (es : list (Z * cache_entry)) : list (Z * cache_entry) :=
  match es with
  | [] => [(key, MkEntry origin source emitted line)]
  | x :: es => if same_unit key origin source x then (x.1, MkEntry origin source emitted line) :: es
               else x :: put_entry key origin source emitted line es
  end.

Definition transpile_cache_store (e : environment) (origin source emitted : bytes) (line : Z) (o : io) (p : process) : process :=
  let key := cache_key origin source in
  let '(root, p) := cache_dir e o (set_entries (put_entry key origin source emitted line (entries p)) p) in
  set_disk (write_disk (disk_path root key o) origin source emitted line o (disk p)) p.

Definition transpile_cache_clear (p : process) : process := set_entries [] p.

(** [clear()] of the code cache, where [gone] says which files could be removed. *)
Definition clear (e : environment) (gone : bytes -> bool) (o : io) (p : process) : process :=
  let '(root, p) := cache_dir e o p in
  match root with
  | [] => p
  | _ => set_disk (filter (fun f => ~ (root ++ str "/" `prefix_of` f.1 /\ gone f.1 = true)) (disk p)) p
  end.

(** * Translating *)

Section Translate.
(** [bridge]: the outcome of the TypeScript compiler, its text or a message; [prelude]:
    [k_hmr_prelude]. *)
Context (bridge : bytes -> bytes -> bytes + bytes) (prelude : bytes).

Definition prelude_lines : Z := zlen (filter (fun c => c = 10) prelude).

Definition transpile_typescript (e : environment) (source origin : bytes) (o o' : io) (p : process) : (bytes * Z + bytes) * process :=
  match transpile_cache_lookup e origin source o p with
  | (Some hit, p) => (inl hit, p)
  | (None, p) =>
      match bridge source origin with
      | inl emitted =>
          let with_prelude := prelude ++ emitted in
          (inl (with_prelude, prelude_lines), transpile_cache_store e origin source with_prelude prelude_lines o' p)
      | inr message => (inr message, p)
      end
  end.
End Translate.

(** * Compiling *)

Section Compile.
(** [compile]: V8 without a cache.  [consume]: V8 with cached data, and whether it rejected
    them.  [produce]: the data V8 makes for what it compiled. *)
Context {script : Type} (subdir : bytes) (compile : bytes -> option script) (consume : bytes -> bytes -> option script * bool)
  (produce : script -> bytes).

Definition compile_cached (e : environment) (cache_id source : bytes) (o : io) (p : process) : option script * process :=
  let '(path, p) := match cache_id with
                    | [] => ([], p)
                    | _ => let '(root, p) := cache_dir e o p in (file_for root subdir cache_id o, p)
                    end in
  let fresh p :=
    match compile source with
    | None => (None, p)
    | Some s => (Some s, match path with [] => p | _ => set_disk (store_blob path cache_id source (produce s) o (disk p)) p end)
    end in
  match (match path with [] => None | _ => read_file path o (disk p) ≫= load_blob cache_id source end) with
  | None => fresh p
  | Some data =>
      match consume source data with
      | (Some s, false) => (Some s, p)
      | _ => fresh (set_disk (remove path o (disk p)) p)
      end
  end.
End Compile.

Section V8.
Context {script module : Type} (compile_fresh : bytes -> option script) (consume : bytes -> bytes -> option script * bool)
  (produce : script -> bytes) (compile_module_fresh : bytes -> option module)
  (consume_module : bytes -> bytes -> option module * bool) (produce_module : module -> bytes)
  (bridge : bytes -> bytes -> bytes + bytes) (prelude : bytes).

Definition compile_script := compile_cached (str "scripts") compile_fresh consume produce.
Definition compile_module := compile_cached (str "modules") compile_module_fresh consume_module produce_module.

(** * Everything that goes through the caches *)

Inductive operation : Type :=
| Translate (e : environment) (source origin : bytes) (o o' : io)
| Script (e : environment) (cache_id source : bytes) (o : io)
| Module' (e : environment) (cache_id source : bytes) (o : io)
| Forget                                                      (* [transpile_cache_clear] *)
| Wipe (e : environment) (gone : bytes -> bool) (o : io)      (* [clear] *)
| Restart.                                                    (* the next process *)

Inductive reply : Type :=
| Translated (r : bytes * Z + bytes)
| Scripted (s : option script)
| Moduled (m : option module)
| Done.

Definition perform (op : operation) (p : process) : reply * process :=
  match op with
  | Translate e source origin o o' => let '(r, p) := transpile_typescript bridge prelude e source origin o o' p in (Translated r, p)
  | Script e id source o => let '(r, p) := compile_script e id source o p in (Scripted r, p)
  | Module' e id source o => let '(r, p) := compile_module e id source o p in (Moduled r, p)
  | Forget => (Done, transpile_cache_clear p)
  | Wipe e gone o => (Done, clear e gone o p)
  | Restart => (Done, MkProcess None [] (disk p))
  end.

Fixpoint perform_all (ops : list operation) (p : process) : list reply :=
  match ops with
  | [] => []
  | op :: ops => let '(r, p) := perform op p in r :: perform_all ops p
  end.

(** What it answers where nothing is kept. *)
Definition uncached (op : operation) : reply :=
  match op with
  | Translate _ source origin _ _ =>
      Translated (match bridge source origin with inl t => inl (prelude ++ t, prelude_lines prelude) | inr m => inr m end)
  | Script _ _ source _ => Scripted (compile_fresh source)
  | Module' _ _ source _ => Moduled (compile_module_fresh source)
  | _ => Done
  end.

Definition source_of (op : operation) : option bytes :=
  match op with Translate _ source _ _ _ | Script _ _ source _ | Module' _ _ source _ => Some source | _ => None end.
Definition name_of (op : operation) : bytes :=
  match op with Translate _ _ origin _ _ => origin | Script _ id _ _ | Module' _ id _ _ => id | _ => [] end.
End V8.
