(* ===== verification/CodeCachesFacts.v ===== *)
(** What makes the caches of [CodeCaches] correct: they never change an answer.  Whatever
    is translated and compiled, in however many runs of the program, with whatever failures
    of the file system, every answer is the one without a cache. *)

From S2P Require Import Prelude Strings CodeCaches.

#[local] Arguments le_bytes : simpl never.
#[local] Arguments le_value : simpl never.
#[local] Arguments fnv1a : simpl never.
#[local] Arguments wrap : simpl never.
#[local] Arguments to_signed : simpl never.
#[local] Arguments rd : simpl never.

(** * The formats *)

Lemma rd_app a b : rd (length a) (a ++ b) = Some (a, b).
Proof. unfold rd. rewrite length_app, (proj2 (Nat.leb_le _ _)) by lia. by rewrite take_app_length, drop_app_length. Qed.

Lemma rd_app_n n a b : length a = n -> rd n (a ++ b) = Some (a, b).
Proof. intros <-. apply rd_app. Qed.

Lemma fnv1a_range text : 0 <= fnv1a text < 2 ^ 64.
Proof.
  unfold fnv1a, fnv1a_append. induction text as [|c text IH] using rev_ind; [cbn; lia|]. rewrite foldl_snoc. apply u64_range.
Qed.

Lemma rd_all a : rd (length a) a = Some (a, []).
Proof. rewrite <- (app_nil_r a) at 2. apply rd_app. Qed.

(** Reading a header that was written finds the same name and a source of the same length
    and hash. *)
Lemma read_header_inv magic version name name' source source' rest rest' :
  length magic = 4%nat -> 0 <= version < 2 ^ 32 -> zlen source < 2 ^ 64 -> zlen name < 2 ^ 32 ->
  read_header magic version name' source' (header magic version name source ++ rest) = Some rest' ->
  name' = name /\ zlen source' = zlen source /\ fnv1a source' = fnv1a source /\ rest' = rest.
Proof.
  intros Hm Hv Hs Hn. unfold read_header, header. rewrite <- !app_assoc, (rd_app_n 4) by done. cbn.
  rewrite bool_decide_eq_true_2 by done. cbn. rewrite (rd_app_n 4) by apply length_le_bytes. cbn.
  rewrite le_value_le_bytes, Z.eqb_refl by (cbn; lia). cbn. rewrite (rd_app_n 8) by apply length_le_bytes. cbn.
  rewrite (rd_app_n 8) by apply length_le_bytes. cbn.
  rewrite !le_value_le_bytes by (cbn; pose proof (fnv1a_range source); lia).
  destruct (Z.eqb_spec (zlen source) (zlen source')), (Z.eqb_spec (fnv1a source) (fnv1a source')); cbn; try done.
  rewrite (rd_app_n 4) by apply length_le_bytes. cbn. rewrite u32_small, le_value_le_bytes by (cbn; lia).
  destruct (k_max_name <? zlen name); [done|]. rewrite Nat2Z.id, rd_app. cbn.
  case_bool_decide; cbn; [|done]. intros [= <-]. by subst.
Qed.

Lemma read_header_header magic version name source rest :
  length magic = 4%nat -> 0 <= version < 2 ^ 32 -> zlen source < 2 ^ 64 -> zlen name <= k_max_name ->
  read_header magic version name source (header magic version name source ++ rest) = Some rest.
Proof.
  intros Hm Hv Hs Hn. unfold k_max_name in Hn. unfold read_header, header. rewrite <- !app_assoc, (rd_app_n 4) by done. cbn.
  rewrite bool_decide_eq_true_2 by done. cbn. rewrite (rd_app_n 4) by apply length_le_bytes. cbn.
  rewrite le_value_le_bytes, Z.eqb_refl by (cbn; lia). cbn. rewrite (rd_app_n 8) by apply length_le_bytes. cbn.
  rewrite (rd_app_n 8) by apply length_le_bytes. cbn.
  rewrite !le_value_le_bytes by (cbn; pose proof (fnv1a_range source); lia). rewrite !Z.eqb_refl. cbn.
  rewrite (rd_app_n 4) by apply length_le_bytes. cbn. rewrite u32_small, le_value_le_bytes by (cbn; lia).
  destruct (Z.ltb_spec k_max_name (zlen name)) as [H|H]; [unfold k_max_name in H; lia|]. rewrite Nat2Z.id, rd_app. cbn.
  by rewrite bool_decide_eq_true_2.
Qed.

Lemma i32_of_u32_small x : 0 <= x < 2 ^ 31 -> i32 (u32 x) = x.
Proof. intros. apply (to_signed_wrap 32); lia. Qed.

Lemma read_disk_inv origin origin' source source' emitted line r :
  zlen source < 2 ^ 64 -> zlen origin < 2 ^ 32 -> zlen emitted < 2 ^ 32 -> 0 <= line < 2 ^ 31 ->
  read_disk origin' source' (transpile_file origin source emitted line) = Some r ->
  origin' = origin /\ zlen source' = zlen source /\ fnv1a source' = fnv1a source /\ r = (emitted, line).
Proof.
  intros Hs Ho He Hl. unfold read_disk, transpile_file.
  destruct (read_header _ _ _ _ _) as [rest|] eqn:R; [|done]. apply read_header_inv in R as (-> & A & B & ->); [|done..]. cbn.
  rewrite (rd_app_n 4) by apply length_le_bytes. cbn. rewrite (u32_small (zlen emitted)), le_value_le_bytes by (cbn; lia).
  destruct (_ <? _); [done|]. rewrite Nat2Z.id, rd_app. cbn. rewrite <- (app_nil_r (le_bytes 4 _)), (rd_app_n 4) by apply length_le_bytes. cbn.
  rewrite le_value_le_bytes by (cbn; pose proof (u32_range line); lia). rewrite i32_of_u32_small by done. by intros [= <-].
Qed.

(** What was written is read back, unless a limit of the reader is exceeded. *)
Lemma read_disk_file origin source emitted line :
  zlen source < 2 ^ 64 -> zlen origin <= k_max_name -> zlen emitted <= k_max_payload -> 0 <= line < 2 ^ 31 ->
  read_disk origin source (transpile_file origin source emitted line) = Some (emitted, line).
Proof.
  intros Hs Ho He Hl. unfold read_disk, transpile_file. rewrite read_header_header by done. cbn.
  rewrite (rd_app_n 4) by apply length_le_bytes. cbn. unfold k_max_payload in *.
  rewrite (u32_small (zlen emitted)), le_value_le_bytes by (cbn; lia).
  destruct (Z.ltb_spec (256 * 1024 * 1024) (zlen emitted)); [lia|]. rewrite Nat2Z.id, rd_app. cbn.
  rewrite <- (app_nil_r (le_bytes 4 _)), (rd_app_n 4) by apply length_le_bytes. cbn.
  rewrite le_value_le_bytes by (cbn; pose proof (u32_range line); lia). by rewrite i32_of_u32_small.
Qed.

Lemma load_blob_inv id id' source source' payload r :
  zlen source < 2 ^ 64 -> zlen id < 2 ^ 32 -> zlen payload < 2 ^ 32 ->
  load_blob id' source' (code_file id source payload) = Some r ->
  id' = id /\ zlen source' = zlen source /\ fnv1a source' = fnv1a source /\ r = payload.
Proof.
  intros Hs Hi Hp. unfold load_blob, code_file.
  destruct (read_header _ _ _ _ _) as [rest|] eqn:R; [|done]. apply read_header_inv in R as (-> & A & B & ->); [|done..]. cbn.
  rewrite (rd_app_n 4) by apply length_le_bytes. cbn. rewrite (u32_small (zlen payload)), le_value_le_bytes by (cbn; lia).
  destruct (_ || _); [done|]. rewrite Nat2Z.id, rd_all. cbn. by intros [= <-].
Qed.

Lemma load_blob_file id source payload :
  zlen source < 2 ^ 64 -> zlen id <= k_max_name -> 0 < zlen payload <= k_max_payload ->
  load_blob id source (code_file id source payload) = Some payload.
Proof.
  intros Hs Hi Hp. unfold load_blob, code_file. rewrite read_header_header by done. cbn.
  rewrite (rd_app_n 4) by apply length_le_bytes. cbn. unfold k_max_payload in *.
  rewrite (u32_small (zlen payload)), le_value_le_bytes by (cbn; lia).
  destruct (Z.eqb_spec (zlen payload) 0); [lia|]. destruct (Z.ltb_spec (256 * 1024 * 1024) (zlen payload)); [lia|]. cbn.
  by rewrite Nat2Z.id, rd_all.
Qed.

(** * Paths *)

(** A file of the cache in [sub]. *)
Definition in_cache (sub ext path : bytes) : Prop := exists root key, path = join (join root sub) (hex64 key ++ ext).

Lemma join_tail lhs sub c : last sub = Some c -> c <> chr "/" -> exists pre, join lhs sub = pre ++ sub /\ last (join lhs sub) = Some c.
Proof.
  intros L N. unfold join. destruct (last lhs) as [d|].
  - destruct (d =? chr "/"); [exists lhs|exists (lhs ++ str "/"); rewrite <- app_assoc]; (split; [done|]); by rewrite !last_app, L.
  - by exists [].
Qed.

Lemma in_cache_shape sub c ext path : last sub = Some c -> c <> chr "/" -> in_cache sub ext path ->
  exists pre hex, length hex = 16%nat /\ path = (pre ++ sub) ++ str "/" ++ hex ++ ext.
Proof.
  intros L N (root & key & ->). destruct (join_tail root sub c L N) as (pre & E & T). exists pre, (hex64 key).
  split; [unfold hex64; by rewrite length_fmap, length_seq|]. unfold join at 1. rewrite T.
  destruct (Z.eqb_spec c (chr "/")); [done|]. by rewrite E.
Qed.

Definition t_path := in_cache (str "transpile") (str ".tsc").
Definition s_path := in_cache (str "scripts") (str ".v8c").
Definition m_path := in_cache (str "modules") (str ".v8c").

Lemma ext_differs (a b x y : bytes) : length x = length y -> a ++ x = b ++ y -> x = y.
Proof. intros L E. by apply app_inj_2 in E as [_ ?]. Qed.

Lemma in_cache_ext sub ext path : in_cache sub ext path -> exists pre, path = pre ++ ext.
Proof.
  intros (root & key & ->). set (a := join root sub). unfold join. destruct (last a) as [d|]; [|by exists (hex64 key)].
  destruct (d =? chr "/"); [exists (a ++ hex64 key)|exists (a ++ str "/" ++ hex64 key)]; by rewrite <- !app_assoc.
Qed.

(** A temporary file is no file of a cache, and the caches have no file in common. *)
Lemma tmp_no_cache sub ext path : length ext = 4%nat -> ext <> str ".tmp" -> ~ in_cache sub ext (path ++ str ".tmp").
Proof. intros L N (pre & E)%in_cache_ext. apply N. symmetry. by apply (ext_differs path pre). Qed.

Lemma scripts_not_modules path : s_path path -> m_path path -> False.
Proof.
  intros (p1 & h1 & L1 & E1)%(in_cache_shape _ (chr "s")) (p2 & h2 & L2 & E2)%(in_cache_shape _ (chr "s")); try done.
  rewrite E1 in E2. apply app_inj_2 in E2 as [E2 _]; [|rewrite !length_app; lia]. by apply app_inj_2 in E2 as [_ ?].
Qed.

Lemma code_not_text sub path : in_cache sub (str ".v8c") path -> t_path path -> False.
Proof. intros (p1 & ->)%in_cache_ext (p2 & E)%in_cache_ext. by apply ext_differs in E. Qed.

Lemma in_dir_cache root sub ext key o path : in_dir root sub (hex64 key ++ ext) o = path -> path <> [] -> in_cache sub ext path.
Proof. unfold in_dir. intros <- N. destruct root as [|c root]; [done|]. destruct (makes_dirs o); [|done]. by exists (c :: root), key. Qed.

(** * The contents of files *)

Section Facts.
Context {script module : Type} (compile_fresh : bytes -> option script) (consume : bytes -> bytes -> option script * bool)
  (produce : script -> bytes) (compile_module_fresh : bytes -> option module)
  (consume_module : bytes -> bytes -> option module * bool) (produce_module : module -> bytes)
  (bridge : bytes -> bytes -> bytes + bytes) (prelude : bytes).

(** What the text of a unit has to be. *)
Definition text_ok (origin source : bytes) (r : bytes * Z) : Prop :=
  exists t, bridge source origin = inl t /\ r = (prelude ++ t, prelude_lines prelude).

(** [sources]: the texts of a run, told apart by their lengths and hashes. *)
Context (sources : list bytes).
Hypothesis distinct : forall s s', s ∈ sources -> s' ∈ sources -> zlen s = zlen s' -> fnv1a s = fnv1a s' -> s = s'.
Hypothesis source_size : forall s, s ∈ sources -> zlen s < 2 ^ 64.
Hypothesis text_size : forall s o t, bridge s o = inl t -> zlen (prelude ++ t) < 2 ^ 32.
Hypothesis prelude_size : zlen prelude < 2 ^ 31.
Hypothesis data_size : forall s, zlen (produce s) < 2 ^ 32.
Hypothesis module_data_size : forall m, zlen (produce_module m) < 2 ^ 32.
(** V8: data made from a source are rejected or give what the source compiles to. *)
Hypothesis consume_sound : forall source s s', compile_fresh source = Some s -> consume source (produce s) = (Some s', false) -> s' = s.
Hypothesis consume_module_sound : forall source m m',
  compile_module_fresh source = Some m -> consume_module source (produce_module m) = (Some m', false) -> m' = m.

Definition text_file_ok (f : bytes) : Prop := forall origin source r, source ∈ sources -> read_disk origin source f = Some r -> text_ok origin source r.
Definition code_file_ok {A} (compile : bytes -> option A) (make : A -> bytes) (f : bytes) : Prop :=
  forall id source data, source ∈ sources -> load_blob id source f = Some data -> exists s, compile source = Some s /\ data = make s.

Record disk_ok (d : disk_t) : Prop := {
  do_text : forall path f, d !! path = Some f -> t_path path -> text_file_ok f;
  do_script : forall path f, d !! path = Some f -> s_path path -> code_file_ok compile_fresh produce f;
  do_module : forall path f, d !! path = Some f -> m_path path -> code_file_ok compile_module_fresh produce_module f
}.

Lemma disk_ok_sub d d' : (forall path f, d' !! path = Some f -> d !! path = Some f) -> disk_ok d -> disk_ok d'.
Proof. intros H []. constructor; eauto. Qed.

Lemma disk_ok_insert path f d : disk_ok d -> (t_path path -> text_file_ok f) -> (s_path path -> code_file_ok compile_fresh produce f) ->
  (m_path path -> code_file_ok compile_module_fresh produce_module f) -> disk_ok (<[path := f]> d).
Proof. intros [] A B C. constructor; intros q g [[<- <-]|[_ ?]]%lookup_insert_Some; eauto. Qed.

Lemma disk_ok_remove path o d : disk_ok d -> disk_ok (remove path o d).
Proof. unfold remove. destruct (removes o); [|done]. apply disk_ok_sub. by intros q f [_ ?]%lookup_delete_Some. Qed.

Lemma disk_ok_tmp path f d : disk_ok d -> disk_ok (<[path ++ str ".tmp" := f]> d).
Proof. intros D. apply disk_ok_insert; [done| | |]; intros H; exfalso; revert H; by apply tmp_no_cache. Qed.

Lemma disk_ok_write path f o d : disk_ok d -> (t_path path -> text_file_ok f) -> (s_path path -> code_file_ok compile_fresh produce f) ->
  (m_path path -> code_file_ok compile_module_fresh produce_module f) -> disk_ok (write_file path f o d).
Proof.
  intros D A B C. unfold write_file. destruct (opens o); [|done]. destruct (takes o) as [n|]; [by apply disk_ok_remove, disk_ok_tmp|].
  destruct (renames o); [|by apply disk_ok_remove, disk_ok_tmp]. apply disk_ok_insert; [|done..].
  revert D. apply disk_ok_sub. by intros q g [_ ?]%lookup_delete_Some.
Qed.

(** ** Translated sources *)

Record process_ok (p : process) : Prop := {
  po_disk : disk_ok (disk p);
  po_entries : forall x, x ∈ entries p -> text_ok (e_origin x.2) (e_source x.2) (e_emitted x.2, e_line_offset x.2)
}.

Lemma prelude_lines_range : 0 <= prelude_lines prelude < 2 ^ 31.
Proof using prelude_size. unfold prelude_lines. pose proof (length_filter (fun c => c = 10) prelude). lia. Qed.

Lemma text_file_correct origin source t : source ∈ sources -> zlen origin < 2 ^ 32 -> bridge source origin = inl t ->
  text_file_ok (transpile_file origin source (prelude ++ t) (prelude_lines prelude)).
Proof using distinct source_size text_size prelude_size.
  intros Hs Ho B origin' source' r Hs' R. apply read_disk_inv in R as (-> & A & H & ->); [|auto|done|by eapply text_size|apply prelude_lines_range].
  rewrite (distinct source' source) by done. by exists t.
Qed.

Lemma cache_dir_ok e o p : process_ok p -> process_ok (cache_dir e o p).2.
Proof. by intros []. Qed.

Lemma lookup_ok e origin source o p : process_ok p -> source ∈ sources ->
  let r := transpile_cache_lookup e origin source o p in
  process_ok r.2 /\ forall hit, r.1 = Some hit -> text_ok origin source hit.
Proof.
  intros P Hs. unfold transpile_cache_lookup. destruct (find _ _) as [x|] eqn:F; cbn.
  - split; [done|]. intros hit [= <-]. apply find_some in F as [Hx%list_elem_of_In S].
    unfold same_unit in S. apply andb_true_iff in S as [[_ <-%bool_decide_eq_true_1]%andb_true_iff <-%bool_decide_eq_true_1].
    by apply (po_entries p P).
  - set (path := disk_path _ _ _). destruct path as [|c path'] eqn:E; [by split; [apply (cache_dir_ok e o)|]|].
    destruct (read_file _ _ _ ≫= _) as [[em line]|] eqn:R; cbn; [|by split; [apply (cache_dir_ok e o)|]].
    apply bind_Some in R as (f & Rf & R). unfold read_file in Rf. destruct (reads o); [|done].
    assert (T : text_ok origin source (em, line)).
    { eapply (do_text (disk p)); [apply P|exact Rf| |done|exact R]. rewrite <- E. unfold path, disk_path in *. eapply in_dir_cache; [reflexivity|congruence]. }
    split; [|by intros hit [= <-]]. constructor; cbn; [apply P|]. intros x [Hx| ->%list_elem_of_singleton]%elem_of_app; [by apply (po_entries p P)|done].
Qed.

Lemma put_entry_ok key origin source em line es :
  (forall x, x ∈ es -> text_ok (e_origin x.2) (e_source x.2) (e_emitted x.2, e_line_offset x.2)) -> text_ok origin source (em, line) ->
  forall x, x ∈ put_entry key origin source em line es -> text_ok (e_origin x.2) (e_source x.2) (e_emitted x.2, e_line_offset x.2).
Proof.
  intros H T. induction es as [|y es IH]; cbn; [by intros x ->%list_elem_of_singleton|].
  destruct (same_unit _ _ _ y).
  - intros x [ -> | Hx ]%elem_of_cons; [done|]. apply H. by right.
  - intros x [ -> | Hx ]%elem_of_cons; [apply H; by left|]. apply IH; [|done]. intros z Hz. apply H. by right.
Qed.

Lemma store_ok e origin source t o p : process_ok p -> source ∈ sources -> zlen origin < 2 ^ 32 -> bridge source origin = inl t ->
  process_ok (transpile_cache_store e origin source (prelude ++ t) (prelude_lines prelude) o p).
Proof using distinct source_size text_size prelude_size.
  intros P Hs Ho B. unfold transpile_cache_store. cbn. constructor; cbn.
  - unfold write_disk. set (path := disk_path _ _ _). destruct path as [|c path'] eqn:E; [apply P|]. rewrite <- E.
    apply disk_ok_write; [apply P| |..].
    + intros _. by apply text_file_correct.
    + intros H. exfalso. apply (code_not_text (str "scripts") path); [done|]. unfold path, disk_path in *. eapply in_dir_cache; [reflexivity|congruence].
    + intros H. exfalso. apply (code_not_text (str "modules") path); [done|]. unfold path, disk_path in *. eapply in_dir_cache; [reflexivity|congruence].
  - apply put_entry_ok; [apply P|]. by exists t.
Qed.

Lemma translate_ok e source origin o o' p : process_ok p -> source ∈ sources -> zlen origin < 2 ^ 32 ->
  let r := transpile_typescript bridge prelude e source origin o o' p in
  process_ok r.2 /\ r.1 = match bridge source origin with inl t => inl (prelude ++ t, prelude_lines prelude) | inr m => inr m end.
Proof using distinct source_size text_size prelude_size.
  intros P Hs Ho. unfold transpile_typescript. pose proof (lookup_ok e origin source o p P Hs) as [P1 H].
  destruct (transpile_cache_lookup e origin source o p) as [[hit|] p1]; cbn in *.
  - split; [done|]. destruct (H hit eq_refl) as (t & -> & ->). done.
  - destruct (bridge source origin) as [t|m] eqn:B; cbn; [|done]. split; [|done]. by apply store_ok.
Qed.

(** ** Compiled code *)

Lemma code_file_correct {A} (compile : bytes -> option A) (make : A -> bytes) id source a :
  source ∈ sources -> zlen id < 2 ^ 32 -> zlen (make a) < 2 ^ 32 -> compile source = Some a ->
  code_file_ok compile make (code_file id source (make a)).
Proof using distinct source_size.
  intros Hs Hi Hm C id' source' data Hs' R. apply load_blob_inv in R as (-> & L & H & ->); [|auto..].
  rewrite (distinct source' source) by done. by exists a.
Qed.

(** One cache of code: its files are those in [subdir]. *)
Lemma compile_ok {A} subdir (compile : bytes -> option A) consume' (make : A -> bytes) e id source o p :
  (forall d path f, disk_ok d -> d !! path = Some f -> in_cache subdir (str ".v8c") path -> code_file_ok compile make f) ->
  (forall d path f, disk_ok d -> in_cache subdir (str ".v8c") path -> code_file_ok compile make f -> disk_ok (write_file path f o d)) ->
  (forall s a a', compile s = Some a -> consume' s (make a) = (Some a', false) -> a' = a) ->
  (forall a, zlen (make a) < 2 ^ 32) ->
  process_ok p -> source ∈ sources -> zlen id < 2 ^ 32 ->
  let r := compile_cached subdir compile consume' make e id source o p in
  process_ok r.2 /\ r.1 = compile source.
Proof using distinct source_size.
  intros Rd Wr So Sz P Hs Hi. unfold compile_cached.
  set (q := match id with [] => _ | _ => _ end).
  assert (Q : process_ok q.2 /\ (q.1 <> [] -> in_cache subdir (str ".v8c") q.1)).
  { unfold q. destruct id as [|c id]; [done|]. cbn. split; [by apply (cache_dir_ok e o)|]. intros Ne. eapply in_dir_cache; [reflexivity|exact Ne]. }
  destruct q as [path p1]. cbn in Q. destruct Q as [P1 Pa].
  assert (Fresh : forall p2, process_ok p2 ->
    let r := match compile source with
             | None => (None, p2)
             | Some s => (Some s, match path with [] => p2 | _ => set_disk (store_blob path id source (make s) o (disk p2)) p2 end)
             end in process_ok r.2 /\ r.1 = compile source).
  { intros p2 P2. destruct (compile source) as [a|] eqn:C; cbn; [|done]. split; [|done].
    destruct path as [|c path']; [done|]. constructor; cbn; [|apply P2]. destruct (make a) as [|x data] eqn:M; [apply P2|].
    apply Wr; [apply P2|by apply Pa|]. rewrite <- M. by apply code_file_correct. }
  destruct (match path with [] => None | _ => _ end) as [data|] eqn:R; [|by apply Fresh].
  assert (D : exists a, compile source = Some a /\ data = make a).
  { destruct path as [|c path']; [done|]. apply bind_Some in R as (f & Rf & R). unfold read_file in Rf. destruct (reads o); [|done].
    eapply (Rd (disk p1)); [apply P1|exact Rf|by apply Pa|done|exact R]. }
  destruct D as (a & C & ->). assert (Fr : process_ok (set_disk (remove path o (disk p1)) p1)).
  { constructor; cbn; [apply disk_ok_remove, P1|apply P1]. }
  destruct (consume' source (make a)) as [[a'|] [|]] eqn:E; try by apply Fresh.
  cbn. split; [done|]. by rewrite (So source a a' C E).
Qed.

Lemma script_ok e id source o p : process_ok p -> source ∈ sources -> zlen id < 2 ^ 32 ->
  let r := compile_script compile_fresh consume produce e id source o p in process_ok r.2 /\ r.1 = compile_fresh source.
Proof using distinct source_size data_size consume_sound.
  intros P Hs Hi. apply compile_ok; try done.
  - intros d path f D L H. by apply (do_script d D path).
  - intros d path f D H F. apply disk_ok_write; [done| |done|].
    + intros H'. exfalso. by apply (code_not_text (str "scripts") path).
    + intros H'. exfalso. by apply (scripts_not_modules path).
Qed.

Lemma module_ok e id source o p : process_ok p -> source ∈ sources -> zlen id < 2 ^ 32 ->
  let r := compile_module compile_module_fresh consume_module produce_module e id source o p in
  process_ok r.2 /\ r.1 = compile_module_fresh source.
Proof using distinct source_size module_data_size consume_module_sound.
  intros P Hs Hi. apply compile_ok; try done.
  - intros d path f D L H. by apply (do_module d D path).
  - intros d path f D H F. apply disk_ok_write; [done| | |done].
    + intros H'. exfalso. by apply (code_not_text (str "modules") path).
    + intros H'. exfalso. by apply (scripts_not_modules path).
Qed.

(** C38. The caches never change an answer.  Sources are translated and compiled, caches are
    cleared and wiped, and the program is started again, in any order, in any environment
    and with any failures of the file system, partial writes included: every answer is that
    of the TypeScript compiler and of V8 without a cache, provided no two sources compiled
    have the same length and hash. *)
Theorem caches_are_transparent (ops : list operation) :
  Forall (fun op => zlen (name_of op) < 2 ^ 32 /\ forall s, source_of op = Some s -> s ∈ sources) ops ->
  perform_all compile_fresh consume produce compile_module_fresh consume_module produce_module bridge prelude ops (MkProcess None [] ∅) =
    uncached compile_fresh compile_module_fresh bridge prelude <$> ops.
Proof using All.
  assert (P : process_ok (MkProcess None [] ∅)) by (constructor; [by constructor|by intros x ?%elem_of_nil]).
  revert P. generalize (MkProcess None [] ∅). induction ops as [|op ops IH]; intros p P H; [done|].
  apply Forall_cons in H as [[Hn Hs] H]. cbn [perform_all fmap list_fmap].
  assert (G : process_ok (perform compile_fresh consume produce compile_module_fresh consume_module produce_module bridge prelude op p).2 /\
    (perform compile_fresh consume produce compile_module_fresh consume_module produce_module bridge prelude op p).1 =
      uncached compile_fresh compile_module_fresh bridge prelude op).
  { destruct op as [e s n o o'|e id s o|e id s o| |e gone o|]; cbn [perform uncached name_of source_of] in *.
    - pose proof (translate_ok e s n o o' p P (Hs s eq_refl) Hn) as [A B].
      destruct (transpile_typescript _ _ _ _ _ _ _ _). cbn in *. by rewrite B.
    - pose proof (script_ok e id s o p P (Hs s eq_refl) Hn) as [A B]. destruct (compile_script _ _ _ _ _ _ _ _). cbn in *. by rewrite B.
    - pose proof (module_ok e id s o p P (Hs s eq_refl) Hn) as [A B]. destruct (compile_module _ _ _ _ _ _ _ _). cbn in *. by rewrite B.
    - split; [|done]. constructor; [apply P|by intros x ?%elem_of_nil].
    - split; [|done]. unfold clear. cbn. destruct (resolve_dir_locked e o (dir p)); [by constructor; apply P|].
      constructor; cbn; [|apply P]. eapply disk_ok_sub; [|apply P]. by intros q f [? _]%map_lookup_filter_Some.
    - split; [|done]. constructor; [apply P|by intros x ?%elem_of_nil]. }
  destruct (perform _ _ _ _ _ _ _ _ op p) as [r p']. cbn in G. destruct G as [G ->]. f_equal. by apply IH.
Qed.
End Facts.

(** * A run *)

Definition fine : io := MkIo true true true true None true true.
Definition torn : io := MkIo true true true true (Some 9%nat) true false.
Definition linux : environment := MkEnv (fun v => if bool_decide (v = str "HOME") then Some (str "/home/u") else None) None (str "13.1").

Definition toy_bridge (s o : bytes) : bytes + bytes := if zlen s <? 1000 then inl (s ++ str ";") else inr (str "too long").
Definition toy_compile (s : bytes) : option bytes := if bool_decide (s = []) then None else Some s.
Definition toy_produce (s : bytes) : bytes := take 8 s.
Definition toy_consume (s data : bytes) : option bytes * bool := (Some s, negb (bool_decide (data = take 8 s))).

Definition toy_sources : list bytes := [str "let x"; str "1 + 1"; []].
Definition toy_ops : list operation :=
  [Translate linux (str "let x") (str "a.ts") fine fine; Translate linux (str "let x") (str "a.ts") fine fine;
   Script linux (str "a") (str "1 + 1") fine; Module' linux (str "a") (str "let x") torn; Forget; Restart;
   Translate linux (str "let x") (str "a.ts") fine fine; Script linux (str "a") (str "1 + 1") fine; Script linux (str "a") (str "let x") fine;
   Module' linux (str "a") (str "let x") fine; Wipe linux (fun _ => true) fine; Script linux (str "b") [] fine].

Lemma toy_distinct s s' : s ∈ toy_sources -> s' ∈ toy_sources -> zlen s = zlen s' -> fnv1a s = fnv1a s' -> s = s'.
Proof.
  assert (H : forallb (fun s => forallb (fun s' => negb (fnv1a s =? fnv1a s') || bool_decide (s = s')) toy_sources) toy_sources = true) by (vm_compute; reflexivity).
  rewrite forallb_forall in H. intros Hs Hs' _ E. apply list_elem_of_In in Hs, Hs'. specialize (H s Hs). rewrite forallb_forall in H.
  specialize (H s' Hs'). rewrite E, Z.eqb_refl in H. by apply bool_decide_eq_true_1 in H.
Qed.

Lemma toy_source_size s : s ∈ toy_sources -> zlen s < 2 ^ 64.
Proof. unfold toy_sources. rewrite !elem_of_cons, elem_of_nil. intros [ -> | [ -> | [ -> | [] ] ] ]; cbn; lia. Qed.

Lemma toy_text_size s o t : toy_bridge s o = inl t -> zlen ([10] ++ t) < 2 ^ 32.
Proof. unfold toy_bridge. destruct (Z.ltb_spec (zlen s) 1000); [|done]. intros [= <-]. cbn. rewrite length_app. cbn. lia. Qed.

Lemma toy_data_size s : zlen (toy_produce s) < 2 ^ 32.
Proof. unfold toy_produce. rewrite length_take. lia. Qed.

Lemma toy_consume_sound source s s' : toy_compile source = Some s -> toy_consume source (toy_produce s) = (Some s', false) -> s' = s.
Proof. unfold toy_compile, toy_consume. case_bool_decide; [done|]. intros [= <-] [= <- _]. done. Qed.

Lemma caches_are_transparent_witness :
  perform_all toy_compile toy_consume toy_produce toy_compile toy_consume toy_produce toy_bridge [10] toy_ops (MkProcess None [] ∅) =
    uncached toy_compile toy_compile toy_bridge [10] <$> toy_ops /\
  (uncached toy_compile toy_compile toy_bridge [10] <$> take 1 toy_ops) = [Translated (inl (10 :: str "let x;", 1))].
Proof.
  split; [|vm_compute; reflexivity].
  apply (caches_are_transparent toy_compile toy_consume toy_produce toy_compile toy_consume toy_produce toy_bridge [10] toy_sources
    toy_distinct toy_source_size toy_text_size ltac:(vm_compute; reflexivity) toy_data_size toy_data_size toy_consume_sound toy_consume_sound).
  unfold toy_ops. repeat (apply Forall_cons; split; [split; [vm_compute; reflexivity|]; cbn [source_of]; intros s E|]); try apply Forall_nil; try done;
    injection E as <-; unfold toy_sources; set_solver.
Defined.

(** * What modelling showed *)

(** What is kept is found again, unless a limit of the reader is exceeded: the name of a
    unit longer than 16 KiB is written to the file each time and never read. *)
Lemma long_names_never_hit source emitted line name : k_max_name < zlen name < 2 ^ 32 -> zlen source < 2 ^ 64 ->
  read_disk name source (transpile_file name source emitted line) = None.
Proof.
  intros Hn Hs. unfold read_disk. destruct (read_header _ _ _ _ _) as [rest|] eqn:R; [|done]. exfalso. revert R.
  unfold transpile_file, read_header, header. rewrite <- !app_assoc, (rd_app_n 4) by done. cbn.
  rewrite (rd_app_n 4) by apply length_le_bytes. cbn. rewrite (rd_app_n 8) by apply length_le_bytes. cbn.
  rewrite (rd_app_n 8) by apply length_le_bytes. cbn.
  rewrite !le_value_le_bytes by (unfold transpile_version; cbn; pose proof (fnv1a_range source); lia). rewrite !Z.eqb_refl. cbn.
  rewrite (rd_app_n 4) by apply length_le_bytes. cbn. rewrite u32_small, le_value_le_bytes by (cbn; lia).
  destruct (Z.ltb_spec k_max_name (zlen name)); [|lia]. destruct (negb _); discriminate.
Qed.

(** Nothing in a file says which compiler and which prelude made it: after an update of
    the program the text made by the old one is answered. *)
Lemma texts_survive_updates :
  let old := transpile_typescript toy_bridge (str "v1 ") linux (str "let x") (str "a.ts") fine fine (MkProcess None [] ∅) in
  let next := MkProcess None [] (disk old.2) in
  (transpile_typescript toy_bridge (str "v2 ") linux (str "let x") (str "a.ts") fine fine next).1 = inl (str "v1 let x;", 0).
Proof. vm_compute. reflexivity. Qed.

(** [transpile_cache_clear] resets the memory only: the next lookup answers from the file. *)
Lemma clear_keeps_files :
  let p := transpile_cache_store linux (str "a.ts") (str "let x") (str "let x;") 0 fine (MkProcess None [] ∅) in
  (transpile_cache_lookup linux (str "a.ts") (str "let x") fine (transpile_cache_clear p)).1 = Some (str "let x;", 0).
Proof. vm_compute. reflexivity. Qed.
