(* ===== verification/Animation.v ===== *)
(** Animated images ([src/image/image_animation.cpp]): which decoder takes a file, how the
    frames of GIF and APNG files are composed on a canvas, how WebP and Lottie frames are
    taken over, and which frame is shown at a time.

    What giflib, libpng, libwebp and rlottie read of a file is a parameter, given as the
    values that the code asks them for. *)

From S2P Require Import Prelude Strings Doubles.

(** * Pixels *)

Record rgba : Type := MkRgba { r : Z; g : Z; b : Z; a : Z }.
Definition no_colour : rgba := MkRgba 0 0 0 0.

#[export] Instance rgba_eq_dec : EqDecision rgba.
Proof. solve_decision. Defined.

(** No sum of [alpha_over] reaches 2^32. *)
Definition blend (out_a sa da s d : Z) : Z :=
  let out_p := s * sa + (d * da * (255 - sa) + 127) / 255 in
  u8 ((out_p + out_a / 2) / out_a).

Definition alpha_over (dst src : rgba) : rgba :=
  if (a src =? 255) || (a dst =? 0) then src
  else if a src =? 0 then dst
  else
    let out_a := a src + (a dst * (255 - a src) + 127) / 255 in
    if out_a =? 0 then no_colour
    else MkRgba (blend out_a (a src) (a dst) (r src) (r dst)) (blend out_a (a src) (a dst) (g src) (g dst))
           (blend out_a (a src) (a dst) (b src) (b dst)) (u8 out_a).

(** A canvas is the vector of its rows. *)
Notation canvas_t := (list rgba).

(** [v\[i\] = f(v\[i\])]; an index outside the vector is undefined behaviour. *)
Definition alter_at (i : Z) (f : rgba -> outcome rgba) (v : canvas_t) : outcome canvas_t :=
  x ← at_ v i; y ← f x; Ret (<[Z.to_nat i := y]> v).

(** [for (u32 i = 0; i < n; ++i) s = f(i, s)] *)
Definition for_ {S} (n : Z) (f : Z -> S -> outcome S) (s : S) : outcome S :=
  foldl (fun s i => s ≫= f (Z.of_nat i)) (Ret s) (seq 0 (Z.to_nat n)).

Definition clear_region (canvas_width canvas_height x0 y0 width height : Z) (fill : rgba) (canvas : canvas_t) : outcome canvas_t :=
  let x1 := Z.min canvas_width (u32 (x0 + width)) in
  let y1 := Z.min canvas_height (u32 (y0 + height)) in
  for_ (y1 - y0) (fun y => for_ (x1 - x0) (fun x => alter_at ((y0 + y) * canvas_width + (x0 + x)) (fun _ => Ret fill))) canvas.

(** * Images *)

Inductive animated_image_format : Type := gif | apng | webp | lottie.

Record animated_frame : Type := MkFrame { delay_ms : Z; size : Z * Z; pixels : canvas_t }.
Record animated_image : Type := MkImage { format : animated_image_format; frames : list animated_frame; duration_ms : Z }.

Definition sum_delays (fs : list animated_frame) : Z := foldl (fun sum f => u64 (sum + delay_ms f)) 0 fs.
Definition saturating_duration_sum (fs : list animated_frame) : Z := Z.min (sum_delays fs) (2 ^ 32 - 1).

Definition delay_ms_from_fraction (numerator denominator : Z) : Z :=
  let den := if denominator =? 0 then 100 else denominator in
  u32 (numerator * 1000 / den).

(** A frame inside the canvas. *)
Definition in_bounds (canvas_width canvas_height fx fy fw fh : Z) : bool :=
  negb ((canvas_width <? fx) || (canvas_height <? fy) || (u32 (canvas_width - fx) <? fw) || (u32 (canvas_height - fy) <? fh)).

(** * GIF *)

(** What giflib reads: [img.ImageDesc], its color map and pixels, and the control block,
    whose [TransparentColor] is -1 for none. *)
Record color_map : Type := MkMap { ColorCount : Z; Colors : list rgba }.
Record gif_frame : Type := MkGifFrame {
  Left : Z; Top : Z; Width : Z; Height : Z; ColorMap : option color_map; RasterBits : list Z;
  DisposalMode : Z; DelayTime : Z; TransparentColor : Z }.
Record gif_file : Type := MkGif { SWidth : Z; SHeight : Z; SColorMap : option color_map; SBackGroundColor : Z; SavedImages : list gif_frame }.

Definition DISPOSE_BACKGROUND : Z := 2.
Definition DISPOSE_PREVIOUS : Z := 3.

Definition gif_palette_color (map : option color_map) (index : Z) : outcome rgba :=
  match map with
  | None => Ret no_colour
  | Some m => if (index <? 0) || (ColorCount m <=? index) then Ret no_colour else at_ (Colors m) index
  end.

(** The pixels of a frame over the canvas. *)
Definition draw_gif (canvas_width fx fy fw fh trans : Z) (map : option color_map) (raster : list Z) (canvas : canvas_t) : outcome canvas_t :=
  for_ fh (fun y => for_ fw (fun x canvas =>
    idx ← at_ raster (y * fw + x);
    if (0 <=? trans) && (idx =? u8 trans) then Ret canvas
    else alter_at (u32 (fy + y) * canvas_width + u32 (fx + x)) (fun _ => gif_palette_color map idx) canvas)) canvas.

Definition gif_step (f : gif_file) (img : gif_frame) (canvas : canvas_t) : outcome (animated_frame * canvas_t) :=
  let canvas_width := u32 (SWidth f) in
  let canvas_height := u32 (SHeight f) in
  let map := match ColorMap img with Some m => Some m | None => SColorMap f end in
  let trans := TransparentColor img in
  let fx := u32 (Left img) in let fy := u32 (Top img) in
  let fw := u32 (Width img) in let fh := u32 (Height img) in
  if negb (in_bounds canvas_width canvas_height fx fy fw fh) then Throw "EIMG_FORMAT: GIF frame exceeds canvas bounds"
  else
    let snapshot := canvas in
    canvas ← draw_gif canvas_width fx fy fw fh trans map (RasterBits img) canvas;
    let frame := MkFrame (u32 (u32 (DelayTime img) * 10)) (canvas_width, canvas_height) canvas in
    if DisposalMode img =? DISPOSE_BACKGROUND then
      bg ← (if 0 <=? trans then Ret no_colour else gif_palette_color (SColorMap f) (SBackGroundColor f));
      canvas ← clear_region canvas_width canvas_height fx fy fw fh bg canvas;
      Ret (frame, canvas)
    else if DisposalMode img =? DISPOSE_PREVIOUS then Ret (frame, snapshot)
    else Ret (frame, canvas).

(** Frame after frame. *)
Fixpoint frames_loop {F} (step : F -> canvas_t -> outcome (animated_frame * canvas_t)) (fs : list F) (canvas : canvas_t) : outcome (list animated_frame) :=
  match fs with
  | [] => Ret []
  | f :: fs =>
      '(frame, canvas) ← step f canvas;
      rest ← frames_loop step fs canvas;
      Ret (frame :: rest)
  end.

Definition finish (fmt : animated_image_format) (fs : list animated_frame) : animated_image := MkImage fmt fs (saturating_duration_sum fs).

(** [slurped]: what [DGifOpen] and [DGifSlurp] made of the file. *)
Definition decode_gif (slurped : option gif_file) : outcome animated_image :=
  match slurped with
  | None => Throw "EIMG_FORMAT: DGifSlurp failed"
  | Some f =>
      match SavedImages f with
      | [] => Throw "EIMG_FORMAT: GIF has no frames"
      | imgs =>
          let pixel_count := u32 (SWidth f) * u32 (SHeight f) in
          if pixel_count =? 0 then Throw "EIMG_FORMAT: GIF has zero canvas size"
          else finish gif <$> frames_loop (gif_step f) imgs (replicate (Z.to_nat pixel_count) no_colour)
      end
  end.

(** * APNG *)

Definition kApngDisposeBackground : Z := 1.
Definition kApngDisposePrevious : Z := 2.
Definition kApngBlendSource : Z := 0.
Definition kApngBlendOver : Z := 1.

(** A frame's control chunk, and its pixels as [png_read_image] writes them, which fails
    on a broken file. *)
Record fcTL : Type := MkFcTL { width : Z; height : Z; x_offset : Z; y_offset : Z; delay_num : Z; delay_den : Z; dispose_op : Z; blend_op : Z }.
Record apng_frame : Type := MkApngFrame { control : option fcTL; image : option canvas_t }.
Record apng_file : Type := MkApng { canvas_width : Z; canvas_height : Z; has_acTL : bool; hidden_ok : bool; apng_frames : list apng_frame }.

Definition draw_apng (cw fx fy fw fh blend_op : Z) (frame_pixels : canvas_t) (canvas : canvas_t) : outcome canvas_t :=
  for_ fh (fun y => for_ fw (fun x canvas =>
    pixel ← at_ frame_pixels (y * fw + x);
    alter_at (u32 (fy + y) * cw + u32 (fx + x)) (fun old => Ret (if blend_op =? kApngBlendOver then alpha_over old pixel else pixel)) canvas)) canvas.

Definition default_control (f : apng_file) : fcTL := MkFcTL (canvas_width f) (canvas_height f) 0 0 0 0 0 kApngBlendSource.

Definition apng_step (f : apng_file) (fr : apng_frame) (canvas : canvas_t) : outcome (animated_frame * canvas_t) :=
  let cw := canvas_width f in
  let ch := canvas_height f in
  let c := default (default_control f) (control fr) in
  let fx := x_offset c in let fy := y_offset c in
  let fw := width c in let fh := height c in
  if negb (in_bounds cw ch fx fy fw fh) then Throw "EIMG_FORMAT: APNG frame exceeds canvas bounds"
  else if (fw =? 0) || (fh =? 0) then Throw "EIMG_FORMAT: APNG frame has zero size"
  else
    match image fr with
    | None => Throw "EIMG_FORMAT: PNG decode failed"
    | Some frame_pixels =>
        let snapshot := canvas in
        canvas ← (if blend_op c =? kApngBlendSource then clear_region cw ch fx fy fw fh no_colour canvas else Ret canvas);
        canvas ← draw_apng cw fx fy fw fh (blend_op c) frame_pixels canvas;
        let composed := MkFrame (delay_ms_from_fraction (delay_num c) (delay_den c)) (cw, ch) canvas in
        if dispose_op c =? kApngDisposeBackground then
          canvas ← clear_region cw ch fx fy fw fh no_colour canvas;
          Ret (composed, canvas)
        else if dispose_op c =? kApngDisposePrevious then Ret (composed, snapshot)
        else Ret (composed, canvas)
    end.

(** [opened]: the file after [png_read_info]; [hidden_ok]: a hidden first image could be
    skipped. *)
Definition decode_apng (opened : option apng_file) : outcome animated_image :=
  match opened with
  | None => Throw "EIMG_FORMAT: PNG decode failed"
  | Some f =>
      if negb (has_acTL f) then Throw "EIMG_FORMAT: PNG is not animated"
      else match apng_frames f with
           | [] => Throw "EIMG_FORMAT: APNG has no frames"
           | fs =>
               let pixel_count := canvas_width f * canvas_height f in
               if pixel_count =? 0 then Throw "EIMG_FORMAT: APNG has zero canvas size"
               else if negb (hidden_ok f) then Throw "EIMG_FORMAT: PNG decode failed"
               else finish apng <$> frames_loop (apng_step f) fs (replicate (Z.to_nat pixel_count) no_colour)
           end
  end.

(** * WebP *)

(** The frames of the decoder as they come, with the time each ends; [None]: one that
    could not be decoded. *)
Record webp_file : Type := MkWebp { info_width : Z; info_height : Z; webp_frames : list (option (Z * canvas_t)) }.

Fixpoint webp_loop (w h prev_timestamp : Z) (fs : list (option (Z * canvas_t))) : outcome (list animated_frame) :=
  match fs with
  | [] => Ret []
  | None :: _ => Throw "EIMG_FORMAT: WebPAnimDecoderGetNext failed"
  | Some (timestamp, buf) :: fs =>
      let delta := timestamp - prev_timestamp in
      px ← sub_ buf 0 (w * h);
      rest ← webp_loop w h timestamp fs;
      Ret (MkFrame (if 0 <? delta then delta else 0) (w, h) px :: rest)
  end.

Definition decode_webp (opened : option webp_file) : outcome animated_image :=
  match opened with
  | None => Throw "EIMG_FORMAT: WebPAnimDecoderNew failed (not a valid WebP)"
  | Some f =>
      if (info_width f =? 0) || (info_height f =? 0) then Throw "EIMG_FORMAT: WebP has zero canvas size"
      else
        fs ← webp_loop (info_width f) (info_height f) 0 (webp_frames f);
        match fs with
        | [] => Throw "EIMG_FORMAT: WebP has no frames"
        | _ => Ret (finish webp fs)
        end
  end.

(** * Lottie *)

(** [std::lround]: halves away from zero; [None]: infinite or not a number. *)
Definition lround (x : double) : option Z :=
  match x with
  | S754_zero _ => Some 0
  | S754_finite s m e =>
      let n := if 0 <=? e then Z.shiftl (Z.pos m) e else Z.shiftr (Z.pos m + 2 ^ (- e - 1)) (- e) in
      Some (if s then - n else n)
  | _ => None
  end.

Definition is_finite (x : double) : bool := match x with S754_zero _ | S754_finite _ _ _ => true | _ => false end.

(** A premultiplied pixel, opaque bytes in the order ARGB. *)
Definition unpremultiply (argb : Z) : rgba :=
  let alpha := u8 (Z.land (Z.shiftr argb 24) 255) in
  let red := u8 (Z.land (Z.shiftr argb 16) 255) in
  let green := u8 (Z.land (Z.shiftr argb 8) 255) in
  let blue := u8 (Z.land argb 255) in
  let un c := u8 (Z.min 255 ((c * 255 + alpha / 2) / alpha)) in
  if (0 <? alpha) && (alpha <? 255) then MkRgba (un red) (un green) (un blue) alpha
  else MkRgba red green blue alpha.

(** [frame_scratch]: what rlottie draws of each frame. *)
Record lottie_file : Type := MkLottie { lottie_width : Z; lottie_height : Z; frame_rate : double; frame_scratch : list (list Z) }.

Definition looks_like_json (data : bytes) : bool :=
  match drop_while (fun c => (c =? 32) || (c =? 9) || (c =? 13) || (c =? 10)) data with
  | c :: _ => (c =? chr "{") || (c =? chr "[")
  | [] => false
  end.

Definition load_lottie (rlottie : bytes -> option lottie_file) (json : bytes) : outcome animated_image :=
  if negb (looks_like_json json) then Throw "EIMG_FORMAT: expected Lottie JSON"
  else match rlottie json with
       | None => Throw "EIMG_FORMAT: failed to parse Lottie JSON"
       | Some f =>
           let w := lottie_width f in let h := lottie_height f in
           if (w =? 0) || (h =? 0) then Throw "EIMG_FORMAT: Lottie has zero canvas size"
           else if bool_decide (frame_scratch f = []) || negb (is_finite (frame_rate f)) || negb (fltb fzero (frame_rate f))
           then Throw "EIMG_FORMAT: Lottie has no frames"
           else
             match lround (fdiv (of_Z 1000) (frame_rate f)) with
             | Some n =>
                 if (- 2 ^ 63 <=? n) && (n <? 2 ^ 63) then
                   let frame scratch := MkFrame (u32 n) (u32 w, u32 h) (unpremultiply <$> scratch) in
                   Ret (finish lottie (frame <$> frame_scratch f))
                 else Ub
             | None => Ub
             end
       end.

(** * Which decoder, which frame *)

Definition png_sig : bytes := [0x89; chr "P"; chr "N"; chr "G"; 13; 10; 0x1a; 10].
Definition is_gif (data : bytes) : bool := starts_with (str "GIF87a") data || starts_with (str "GIF89a") data.
Definition is_png (data : bytes) : bool := starts_with png_sig data.
Definition is_webp (data : bytes) : bool :=
  (12 <=? zlen data) && starts_with (str "RIFF") data && starts_with (str "WEBP") (drop 8 data).

Section Load.
Context (giflib : bytes -> option gif_file) (libpng : bytes -> option apng_file) (libwebp : bytes -> option webp_file)
  (rlottie : bytes -> option lottie_file).

Definition load_animated_image (encoded : bytes) : outcome animated_image :=
  if bool_decide (encoded = []) then Throw "EIMG_FORMAT: empty input"
  else if is_gif encoded then decode_gif (giflib encoded)
  else if is_webp encoded then decode_webp (libwebp encoded)
  else if is_png encoded then decode_apng (libpng encoded)
  else if looks_like_json encoded then load_lottie rlottie encoded
  else Throw "EIMG_FORMAT: unsupported animated image format".
End Load.

(** [std::fmod(x, n)] for an integer [n > 0], which is exact. *)
Definition fmod (x : double) (n : Z) : double :=
  match x with
  | S754_finite s m e =>
      let rem := if 0 <=? e then binary_normalize 53 1024 ((Z.pos m * 2 ^ e) mod n) 0 false
                 else binary_normalize 53 1024 (Z.pos m mod (n * 2 ^ (- e))) e false in
      if s then SFopp rem else rem
  | S754_zero _ => x
  | _ => S754_nan
  end.

Fixpoint frame_loop (local : double) (i elapsed : Z) (fs : list animated_frame) : option Z :=
  match fs with
  | [] => None
  | f :: fs =>
      let elapsed := u32 (elapsed + delay_ms f) in
      if fltb local (of_Z elapsed) then Some i else frame_loop local (i + 1) elapsed fs
  end.

Definition frame_index_at (img : animated_image) (time_ms : double) : Z :=
  if bool_decide (frames img = []) then 0
  else if negb (is_finite time_ms) || (duration_ms img =? 0) then 0
  else
    let local := fmod time_ms (duration_ms img) in
    let local := if fltb local fzero then SFadd 53 1024 local (of_Z (duration_ms img)) else local in
    default (zlen (frames img) - 1) (frame_loop local 0 0 (frames img)).
