(* ===== verification/AnimationFacts.v ===== *)
(** What makes [Animation] correct: the frames of GIF and APNG files are composed pixel by
    pixel as their formats say, inside the canvas, and the frame shown at a time is the one
    whose span of time it falls in. *)

From S2P Require Import Prelude Strings Doubles Animation.

(** * Canvases as functions *)

(** [canvas] holds the picture [p] of [w] times [h] pixels. *)
Definition shows (w h : Z) (canvas : canvas_t) (p : Z -> Z -> rgba) : Prop :=
  zlen canvas = w * h /\ forall x y, 0 <= x < w -> 0 <= y < h -> canvas !! Z.to_nat (y * w + x) = Some (p x y).

(** [p] with [f] applied in a region. *)
Definition within (region : Z -> Z -> bool) (f : Z -> Z -> rgba -> rgba) (p : Z -> Z -> rgba) : Z -> Z -> rgba :=
  fun x y => if region x y then f x y (p x y) else p x y.
Definition rect (fx fy fw fh x y : Z) : bool := (fx <=? x) && (x <? fx + fw) && (fy <=? y) && (y <? fy + fh).

Lemma shows_ext w h c p q : (forall x y, 0 <= x < w -> 0 <= y < h -> p x y = q x y) -> shows w h c p -> shows w h c q.
Proof. intros E [L H]. split; [done|]. intros x y Hx Hy. by rewrite <- E, H. Qed.

Lemma for_succ {S} n (f : Z -> S -> outcome S) s : 0 <= n -> for_ (n + 1) f s = for_ n f s ≫= f n.
Proof.
  intros Hn. unfold for_. replace (Z.to_nat (n + 1)) with (Datatypes.S (Z.to_nat n)) by lia.
  rewrite seq_S, foldl_snoc. cbn. by rewrite Z2Nat.id.
Qed.

Lemma for_none {S} n (f : Z -> S -> outcome S) s : n <= 0 -> for_ n f s = Ret s.
Proof. intros Hn. unfold for_. by replace (Z.to_nat n) with 0%nat by lia. Qed.

Lemma for_ind {S} (P : Z -> S -> Prop) n (f : Z -> S -> outcome S) s : 0 <= n -> P 0 s ->
  (forall i s, 0 <= i < n -> P i s -> exists s', f i s = Ret s' /\ P (i + 1) s') ->
  exists s', for_ n f s = Ret s' /\ P n s'.
Proof.
  intros Hn H0 Hf. assert (G : forall k, 0 <= k -> k <= n -> exists s', for_ k f s = Ret s' /\ P k s').
  { apply (natlike_ind (fun k => k <= n -> exists s', for_ k f s = Ret s' /\ P k s')).
    - intros _. exists s. split; [by apply for_none|done].
    - intros k Hk IH Hn'. destruct IH as (s1 & E & H1); [lia|]. rewrite <- Z.add_1_r, for_succ, E by lia. apply Hf; [lia|done]. }
  apply G; lia.
Qed.

Lemma index_inj w x y x' y' : 0 <= x < w -> 0 <= x' < w -> 0 <= y -> 0 <= y' -> y * w + x = y' * w + x' -> x = x' /\ y = y'.
Proof. intros. assert (y = y') as -> by nia. lia. Qed.

(** Changing one pixel. *)
Lemma alter_at_ok w h c p x y (f : rgba -> outcome rgba) q : shows w h c p -> 0 <= x < w -> 0 <= y < h -> f (p x y) = Ret q ->
  exists c', alter_at (y * w + x) f c = Ret c' /\ shows w h c' (within (fun x' y' => (x' =? x) && (y' =? y)) (fun _ _ _ => q) p).
Proof.
  intros [L H] Hx Hy Hf. exists (<[Z.to_nat (y * w + x) := q]> c). split.
  { unfold alter_at. rewrite (at_Ret c _ (p x y)) by (nia || by apply H). cbn. by rewrite Hf. }
  split; [by rewrite length_insert|]. intros x' y' Hx' Hy'. unfold within.
  destruct ((x' =? x) && (y' =? y)) eqn:E.
  - assert (x' = x /\ y' = y) as [-> ->] by lia. apply list_lookup_insert_eq. nia.
  - rewrite list_lookup_insert_ne; [by apply H|]. intros E'.
    destruct (index_inj w x y x' y') as [-> ->]; try lia; nia.
Qed.

(** Two nested loops over a rectangle, the body changing the pixel under it. *)
Lemma rect_ok w h fx fy fw fh (body : Z -> Z -> canvas_t -> outcome canvas_t) (f : Z -> Z -> rgba -> rgba) c p :
  0 <= fx -> 0 <= fy -> 0 <= fw -> 0 <= fh -> fx + fw <= w -> fy + fh <= h -> shows w h c p ->
  (forall x y c p, fx <= x < fx + fw -> fy <= y < fy + fh -> shows w h c p ->
    exists c', body (y - fy) (x - fx) c = Ret c' /\ shows w h c' (within (fun x' y' => (x' =? x) && (y' =? y)) f p)) ->
  exists c', for_ fh (fun y => for_ fw (body y)) c = Ret c' /\ shows w h c' (within (rect fx fy fw fh) f p).
Proof.
  intros Hx Hy Hw Hh Hxw Hyh Hc Hb.
  apply (for_ind (fun n c => shows w h c (within (rect fx fy fw n) f p))); [done| |].
  - revert Hc. apply shows_ext. intros x y _ _. unfold within, rect. destruct (_ && _) eqn:E; [lia|done].
  - intros y c1 Hy1 Hc1.
    destruct (for_ind (fun n c => shows w h c (within (fun x' y' => rect fx fy fw y x' y' || rect fx (fy + y) n 1 x' y') f p)) fw (body y) c1) as (c2 & E & Hc2); [done| | |].
    + revert Hc1. apply shows_ext. intros x' y' _ _. unfold within. replace (rect fx (fy + y) 0 1 x' y') with false; [by rewrite orb_false_r|].
      unfold rect. lia.
    + intros x c2 Hx2 Hc2. destruct (Hb (fx + x) (fy + y) c2 _ ltac:(lia) ltac:(lia) Hc2) as (c3 & E3 & Hc3).
      replace (fy + y - fy) with y in E3 by lia. replace (fx + x - fx) with x in E3 by lia. exists c3. split; [done|].
      revert Hc3. apply shows_ext. intros x' y' _ _. unfold within.
      destruct ((x' =? fx + x) && (y' =? fy + y)) eqn:D.
      * assert (x' = fx + x /\ y' = fy + y) as [-> ->] by lia.
        replace (rect fx fy fw y (fx + x) (fy + y) || rect fx (fy + y) x 1 (fx + x) (fy + y)) with false by (unfold rect; lia).
        replace (rect fx fy fw y (fx + x) (fy + y) || rect fx (fy + y) (x + 1) 1 (fx + x) (fy + y)) with true by (unfold rect; lia). done.
      * replace (rect fx (fy + y) (x + 1) 1 x' y') with (rect fx (fy + y) x 1 x' y'); [done|]. unfold rect. lia.
    + exists c2. split; [done|]. revert Hc2. apply shows_ext. intros x' y' _ _. unfold within.
      replace (rect fx fy fw (y + 1) x' y') with (rect fx fy fw y x' y' || rect fx (fy + y) fw 1 x' y'); [done|]. unfold rect. lia.
Qed.

Lemma clear_region_ok w h fx fy fw fh fill c p : w < 2 ^ 32 -> h < 2 ^ 32 ->
  0 <= fx -> 0 <= fy -> 0 <= fw -> 0 <= fh -> fx + fw <= w -> fy + fh <= h -> shows w h c p ->
  exists c', clear_region w h fx fy fw fh fill c = Ret c' /\ shows w h c' (within (rect fx fy fw fh) (fun _ _ _ => fill) p).
Proof.
  intros W H Hx Hy Hw Hh Hxw Hyh Hc. unfold clear_region. rewrite !u32_small, !Z.min_r by lia.
  replace (fx + fw - fx) with fw by lia. replace (fy + fh - fy) with fh by lia.
  apply rect_ok; try done. intros x y c1 p1 X Y H1. replace (fy + (y - fy)) with y by lia. replace (fx + (x - fx)) with x by lia.
  by apply alter_at_ok; [|lia|lia|].
Qed.

(** * What a frame means *)

(** What is left on the canvas for the next frame. *)
Inductive after : Type := Keep | Clear (c : rgba) | Revert.

(** A frame as its format describes it: where it lies, what it makes of a pixel, what
    happens to its place afterwards, and how long it is shown. *)
Record layer : Type := MkLayer { l_x : Z; l_y : Z; l_w : Z; l_h : Z; l_paint : Z -> Z -> rgba -> rgba; l_after : after; l_delay : Z }.

Definition covers (l : layer) : Z -> Z -> bool := rect (l_x l) (l_y l) (l_w l) (l_h l).

(** The colours pixel [(x, y)] shows frame after frame, from [p]. *)
Fixpoint pixel_colours (ls : list layer) (x y : Z) (p : rgba) : list rgba :=
  match ls with
  | [] => []
  | l :: ls =>
      let q := if covers l x y then l_paint l x y p else p in
      let next := match l_after l with
                  | Keep => q
                  | Clear c => if covers l x y then c else q
                  | Revert => p
                  end in
      q :: pixel_colours ls x y next
  end.

Definition layer_fits (w h : Z) (l : layer) : bool :=
  (0 <=? l_x l) && (0 <=? l_y l) && (0 <=? l_w l) && (0 <=? l_h l) && (l_x l + l_w l <=? w) && (l_y l + l_h l <=? h).

(** The frames of a picture of [w] times [h] pixels that is blank before the first. *)
Definition composed (w h : Z) (ls : list layer) (fs : list animated_frame) : Prop :=
  delay_ms <$> fs = l_delay <$> ls /\ Forall (fun f => size f = (w, h) /\ zlen (pixels f) = w * h) fs /\
  forall x y, 0 <= x < w -> 0 <= y < h ->
    (fun f => pixels f !! Z.to_nat (y * w + x)) <$> fs = Some <$> pixel_colours ls x y no_colour.

(** A step of a decoder that draws a layer. *)
Definition draws (w h : Z) (l : layer) (step : canvas_t -> outcome (animated_frame * canvas_t)) : Prop :=
  forall c p, shows w h c p -> exists f c', step c = Ret (f, c') /\
    delay_ms f = l_delay l /\ size f = (w, h) /\ shows w h (pixels f) (within (covers l) (l_paint l) p) /\
    shows w h c' (fun x y => match l_after l with
                             | Keep => within (covers l) (l_paint l) p x y
                             | Clear c => if covers l x y then c else p x y
                             | Revert => p x y
                             end).

Lemma frames_loop_ok {F} (w h : Z) (step : F -> canvas_t -> outcome (animated_frame * canvas_t)) (layer_of : F -> layer) fs :
  Forall (fun f => draws w h (layer_of f) (step f)) fs ->
  forall c p, shows w h c p -> exists out, frames_loop step fs c = Ret out /\
    delay_ms <$> out = l_delay <$> (layer_of <$> fs) /\ Forall (fun f => size f = (w, h) /\ zlen (pixels f) = w * h) out /\
    forall x y, 0 <= x < w -> 0 <= y < h ->
      (fun f => pixels f !! Z.to_nat (y * w + x)) <$> out = Some <$> pixel_colours (layer_of <$> fs) x y (p x y).
Proof.
  induction 1 as [|f fs Hf _ IH]; intros c p Hc; [exists []; repeat split; constructor|].
  destruct (Hf c p Hc) as (fr & c1 & E & D & S & H1 & H2). destruct (IH c1 _ H2) as (out & E' & D' & S' & H').
  exists (fr :: out). cbn [frames_loop]. rewrite E. cbn. rewrite E'. cbn. split; [done|]. split; [by rewrite D, D'|].
  split; [constructor; [split; [done|apply H1]|done]|]. intros x y Hx Hy. rewrite H' by done. f_equal.
  - destruct H1 as [_ H1]. by rewrite H1.
  - do 2 f_equal. unfold within. destruct (l_after (layer_of f)); [done| |done]. by destruct (covers (layer_of f) x y).
Qed.

Lemma blank_shows w h : 0 <= w -> 0 <= h -> shows w h (replicate (Z.to_nat (w * h)) no_colour) (fun _ _ => no_colour).
Proof. intros Hw Hh. split; [rewrite length_replicate; nia|]. intros x y Hx Hy. apply lookup_replicate_2. nia. Qed.

Lemma fits_in_bounds w h fx fy fw fh : 0 <= w < 2 ^ 32 -> 0 <= h < 2 ^ 32 -> 0 <= fx -> 0 <= fy -> 0 <= fw -> 0 <= fh ->
  in_bounds w h fx fy fw fh = (fx + fw <=? w) && (fy + fh <=? h).
Proof.
  intros. unfold in_bounds. destruct (Z.ltb_spec w fx), (Z.ltb_spec h fy); cbn; try lia. rewrite !u32_small by lia. lia.
Qed.

(** * GIF *)

(** What giflib promises of its values. *)
Definition map_ok (m : color_map) : Prop := zlen (Colors m) = ColorCount m.
Definition u16_ok (x : Z) : Prop := 0 <= x < 65536.
Record gif_frame_ok (img : gif_frame) : Prop := {
  gf_left : u16_ok (Left img); gf_top : u16_ok (Top img); gf_width : u16_ok (Width img); gf_height : u16_ok (Height img);
  gf_delay : u16_ok (DelayTime img); gf_raster : zlen (RasterBits img) = Width img * Height img;
  gf_trans : -1 <= TransparentColor img < 256; gf_bytes : is_bytes (RasterBits img);
  gf_map : forall m, ColorMap img = Some m -> map_ok m
}.
Record gif_ok (f : gif_file) : Prop := {
  gi_width : u16_ok (SWidth f); gi_height : u16_ok (SHeight f); gi_map : forall m, SColorMap f = Some m -> map_ok m;
  gi_frames : Forall gif_frame_ok (SavedImages f)
}.

Definition colour_of (map : option color_map) (i : Z) : rgba :=
  match map with
  | Some m => if (0 <=? i) && (i <? ColorCount m) then default no_colour (Colors m !! Z.to_nat i) else no_colour
  | None => no_colour
  end.

Lemma palette_ok map i : (forall m, map = Some m -> map_ok m) -> gif_palette_color map i = Ret (colour_of map i).
Proof.
  intros H. destruct map as [m|]; [|done]. cbn. specialize (H m eq_refl). unfold map_ok in H.
  destruct (Z.ltb_spec i 0), (Z.leb_spec (ColorCount m) i); cbn; try (destruct (_ && _) eqn:E; [lia|done]).
  rewrite (proj2 (Z.leb_le 0 i)), (proj2 (Z.ltb_lt i (ColorCount m))) by lia. cbn.
  destruct (at_in_range (Colors m) i) as (x & -> & ->); [lia|done].
Qed.

(** A frame of a GIF file as its format describes it. *)
Definition gif_layer (f : gif_file) (img : gif_frame) : layer :=
  let index x y := default 0 (RasterBits img !! Z.to_nat ((y - Top img) * Width img + (x - Left img))) in
  let map := match ColorMap img with Some m => Some m | None => SColorMap f end in
  MkLayer (Left img) (Top img) (Width img) (Height img)
    (fun x y p => if index x y =? TransparentColor img then p else colour_of map (index x y))
    (if DisposalMode img =? DISPOSE_BACKGROUND then
       Clear (if 0 <=? TransparentColor img then no_colour else colour_of (SColorMap f) (SBackGroundColor f))
     else if DisposalMode img =? DISPOSE_PREVIOUS then Revert else Keep)
    (10 * DelayTime img).

Lemma draw_gif_ok f img c p : gif_ok f -> gif_frame_ok img -> layer_fits (SWidth f) (SHeight f) (gif_layer f img) = true ->
  shows (SWidth f) (SHeight f) c p ->
  exists c', draw_gif (SWidth f) (Left img) (Top img) (Width img) (Height img) (TransparentColor img)
      (match ColorMap img with Some m => Some m | None => SColorMap f end) (RasterBits img) c = Ret c' /\
    shows (SWidth f) (SHeight f) c' (within (covers (gif_layer f img)) (l_paint (gif_layer f img)) p).
Proof.
  intros [] [] Fit Hc. unfold layer_fits in Fit. cbn in Fit. unfold u16_ok in *.
  apply (rect_ok _ _ (Left img) (Top img) (Width img) (Height img)); try lia; [done|]. intros x y c1 p1 Hx Hy H1.
  assert (Hi : 0 <= (y - Top img) * Width img + (x - Left img) < zlen (RasterBits img)) by nia.
  destruct (at_in_range (RasterBits img) _ Hi) as (i & -> & L). cbn [mbind outcome_bind].
  assert (Bi : 0 <= i < 256). { unfold is_bytes in gf_bytes0. rewrite Forall_lookup in gf_bytes0. exact (gf_bytes0 _ _ L). }
  assert (Pt : forall q, l_paint (gif_layer f img) x y q =
    if i =? TransparentColor img then q else colour_of (match ColorMap img with Some m => Some m | None => SColorMap f end) i).
  { intros q. cbn. by rewrite L. }
  replace (Top img + (y - Top img)) with y by lia. replace (Left img + (x - Left img)) with x by lia.
  rewrite !u32_small by lia.
  assert (T : (0 <=? TransparentColor img) && (i =? u8 (TransparentColor img)) = (i =? TransparentColor img)).
  { destruct (Z.leb_spec 0 (TransparentColor img)); cbn; [by rewrite u8_small by lia|]. lia. }
  rewrite T. destruct (i =? TransparentColor img) eqn:Ti.
  - exists c1. split; [done|]. revert H1. apply shows_ext. intros x' y' _ _. unfold within.
    destruct ((x' =? x) && (y' =? y)) eqn:E; [|done]. assert (x' = x /\ y' = y) as [-> ->] by lia. by rewrite Pt.
  - destruct (alter_at_ok (SWidth f) (SHeight f) c1 p1 x y (fun _ => gif_palette_color (match ColorMap img with Some m => Some m | None => SColorMap f end) i)
      (colour_of (match ColorMap img with Some m => Some m | None => SColorMap f end) i) H1) as (c2 & E2 & H2); [lia|lia| |].
    { apply palette_ok. intros m. destruct (ColorMap img) eqn:M; [intros [= <-]; by apply gf_map0|apply gi_map0]. }
    exists c2. split; [done|]. revert H2. apply shows_ext. intros x' y' _ _. unfold within.
    destruct ((x' =? x) && (y' =? y)) eqn:E; [|done]. assert (x' = x /\ y' = y) as [-> ->] by lia. by rewrite Pt.
Qed.

Lemma within_again region f g p x y : within region (fun _ _ _ => g) (within region f p) x y = (if region x y then g else p x y).
Proof. unfold within. by destruct (region x y). Qed.

Lemma gif_step_draws f img : gif_ok f -> gif_frame_ok img -> layer_fits (SWidth f) (SHeight f) (gif_layer f img) = true ->
  draws (SWidth f) (SHeight f) (gif_layer f img) (gif_step f img).
Proof.
  intros F I Fit c p Hc. pose proof (draw_gif_ok f img c p F I Fit Hc) as (c1 & E & H1). pose proof Fit as Fit'. unfold layer_fits in Fit'. cbn in Fit'.
  destruct F, I. unfold u16_ok in *. unfold gif_step. rewrite !(u32_small (SWidth f)), !(u32_small (SHeight f)), !(u32_small (Left img)),
    !(u32_small (Top img)), !(u32_small (Width img)), !(u32_small (Height img)), (u32_small (DelayTime img)), (u32_small (DelayTime img * 10)) by lia.
  rewrite fits_in_bounds by lia. replace ((Left img + Width img <=? SWidth f) && (Top img + Height img <=? SHeight f)) with true by lia.
  cbn [negb]. rewrite E. cbn [mbind outcome_bind].
  assert (D : DelayTime img * 10 = 10 * DelayTime img) by lia.
  cbn [l_after l_delay gif_layer]. destruct (DisposalMode img =? DISPOSE_BACKGROUND).
  - assert (B : (if 0 <=? TransparentColor img then Ret no_colour else gif_palette_color (SColorMap f) (SBackGroundColor f)) =
      Ret (if 0 <=? TransparentColor img then no_colour else colour_of (SColorMap f) (SBackGroundColor f))).
    { destruct (0 <=? TransparentColor img); [done|]. by apply palette_ok. }
    rewrite B. cbn [mbind outcome_bind]. set (bg := if 0 <=? _ then _ else _).
    destruct (clear_region_ok (SWidth f) (SHeight f) (Left img) (Top img) (Width img) (Height img) bg c1 _ ltac:(lia) ltac:(lia)
      ltac:(lia) ltac:(lia) ltac:(lia) ltac:(lia) ltac:(lia) ltac:(lia) H1) as (c2 & -> & H2). cbn.
    do 2 eexists. split; [reflexivity|]. split; [done|]. split; [done|]. split; [done|].
    revert H2. apply shows_ext. intros x y _ _. apply within_again.
  - destruct (DisposalMode img =? DISPOSE_PREVIOUS); do 2 eexists; (split; [reflexivity|]); done.
Qed.

(** A decoder that draws the frames that fit and refuses the others. *)
Lemma frames_loop_total {F} (w h : Z) (step : F -> canvas_t -> outcome (animated_frame * canvas_t)) (layer_of : F -> layer) (fits : F -> bool) fs :
  Forall (fun f => if fits f then draws w h (layer_of f) (step f) else forall c, exists msg, step f c = Throw msg) fs ->
  forall c p, shows w h c p ->
    if forallb fits fs then exists out, frames_loop step fs c = Ret out /\
      delay_ms <$> out = l_delay <$> (layer_of <$> fs) /\ Forall (fun f => size f = (w, h) /\ zlen (pixels f) = w * h) out /\
      forall x y, 0 <= x < w -> 0 <= y < h ->
        (fun f => pixels f !! Z.to_nat (y * w + x)) <$> out = Some <$> pixel_colours (layer_of <$> fs) x y (p x y)
    else exists msg, frames_loop step fs c = Throw msg.
Proof.
  intros Hs c p Hc. destruct (forallb fits fs) eqn:E.
  - apply (frames_loop_ok w h step layer_of fs); [|done]. rewrite forallb_forall in E. apply Forall_forall. intros f Hf.
    rewrite Forall_forall in Hs. specialize (Hs f Hf). by rewrite E in Hs by by apply list_elem_of_In.
  - revert c p Hc E. induction Hs as [|f fs Hf _ IH]; intros c p Hc E; [done|]. cbn [forallb] in E. cbn [frames_loop].
    destruct (fits f); [|destruct (Hf c) as (msg & ->); by exists msg].
    destruct (Hf c p Hc) as (fr & c1 & -> & _ & _ & _ & H2). cbn [andb] in E. destruct (IH c1 _ H2 E) as (msg & E'). exists msg. cbn. by rewrite E'.
Qed.

Lemma gif_step_refuses f img : gif_ok f -> gif_frame_ok img -> layer_fits (SWidth f) (SHeight f) (gif_layer f img) = false ->
  forall c, exists msg, gif_step f img c = Throw msg.
Proof.
  intros [] [] Fit c. unfold layer_fits in Fit. cbn in Fit. unfold u16_ok in *. eexists. unfold gif_step.
  rewrite !(u32_small (SWidth f)), !(u32_small (SHeight f)), !(u32_small (Left img)), !(u32_small (Top img)), !(u32_small (Width img)), !(u32_small (Height img)) by lia.
  rewrite fits_in_bounds by lia. replace ((Left img + Width img <=? SWidth f) && (Top img + Height img <=? SHeight f)) with false by lia. reflexivity.
Qed.

Lemma decode_gif_ok f : gif_ok f ->
  if negb (bool_decide (SavedImages f = [])) && (0 <? SWidth f) && (0 <? SHeight f) &&
     forallb (fun img => layer_fits (SWidth f) (SHeight f) (gif_layer f img)) (SavedImages f)
  then exists fs, decode_gif (Some f) = Ret (finish gif fs) /\ composed (SWidth f) (SHeight f) (gif_layer f <$> SavedImages f) fs
  else exists msg, decode_gif (Some f) = Throw msg.
Proof.
  intros F. pose proof (gi_width f F) as W. pose proof (gi_height f F) as H. unfold u16_ok in W, H. unfold decode_gif.
  destruct (SavedImages f) as [|img imgs] eqn:E; [by eexists|]. rewrite <- E in *. rewrite !u32_small by lia.
  rewrite bool_decide_eq_false_2 by congruence. cbn [negb andb].
  destruct (Z.ltb_spec 0 (SWidth f)), (Z.ltb_spec 0 (SHeight f)); cbn [andb];
    try (replace (SWidth f * SHeight f =? 0) with true by nia; by eexists).
  replace (SWidth f * SHeight f =? 0) with false by nia.
  pose proof (frames_loop_total (SWidth f) (SHeight f) (gif_step f) (gif_layer f)
    (fun img => layer_fits (SWidth f) (SHeight f) (gif_layer f img)) (SavedImages f)) as G.
  assert (Fs : Forall (fun img => if layer_fits (SWidth f) (SHeight f) (gif_layer f img)
      then draws (SWidth f) (SHeight f) (gif_layer f img) (gif_step f img) else forall c, exists msg, gif_step f img c = Throw msg) (SavedImages f)).
  { eapply Forall_impl; [apply (gi_frames f F)|]. intros i Hi. cbn. destruct (layer_fits _ _ _) eqn:L; [by apply gif_step_draws|by apply gif_step_refuses]. }
  specialize (G Fs _ _ (blank_shows (SWidth f) (SHeight f) ltac:(lia) ltac:(lia))).
  destruct (forallb _ _).
  - destruct G as (out & -> & A & B & C). exists out. split; [done|]. split; [done|]. split; done.
  - destruct G as (msg & ->). by exists msg.
Qed.

(** * APNG *)

Record apng_frame_ok (f : apng_file) (fr : apng_frame) : Prop := {
  pf_ranges : let c := default (default_control f) (control fr) in
    0 <= x_offset c < 2 ^ 31 /\ 0 <= y_offset c < 2 ^ 31 /\ 0 <= width c < 2 ^ 31 /\ 0 <= height c < 2 ^ 31 /\ u16_ok (delay_num c) /\ u16_ok (delay_den c);
  pf_image : forall px, image fr = Some px -> zlen px = width (default (default_control f) (control fr)) * height (default (default_control f) (control fr))
}.
Record apng_ok (f : apng_file) : Prop := {
  pi_width : 0 <= canvas_width f < 2 ^ 31; pi_height : 0 <= canvas_height f < 2 ^ 31; pi_frames : Forall (apng_frame_ok f) (apng_frames f) }.

(** A frame of an APNG file as its format describes it, [over] painting one pixel over
    another. *)
Definition apng_layer (over : rgba -> rgba -> rgba) (f : apng_file) (fr : apng_frame) : layer :=
  let c := default (default_control f) (control fr) in
  let pixel x y := default no_colour (default [] (image fr) !! Z.to_nat ((y - y_offset c) * width c + (x - x_offset c))) in
  MkLayer (x_offset c) (y_offset c) (width c) (height c)
    (fun x y p => if blend_op c =? kApngBlendOver then over p (pixel x y) else pixel x y)
    (if dispose_op c =? kApngDisposeBackground then Clear no_colour else if dispose_op c =? kApngDisposePrevious then Revert else Keep)
    (delay_num c * 1000 / (if delay_den c =? 0 then 100 else delay_den c)).

Definition apng_fits (f : apng_file) (fr : apng_frame) : bool :=
  let l := apng_layer (fun _ src => src) f fr in
  layer_fits (canvas_width f) (canvas_height f) l && (0 <? l_w l) && (0 <? l_h l) && match image fr with Some _ => true | None => false end.

Lemma draw_apng_ok f fr px c p : apng_ok f -> apng_frame_ok f fr -> apng_fits f fr = true -> image fr = Some px ->
  shows (canvas_width f) (canvas_height f) c p -> let k := default (default_control f) (control fr) in
  exists c', draw_apng (canvas_width f) (x_offset k) (y_offset k) (width k) (height k) (blend_op k) px c = Ret c' /\
    shows (canvas_width f) (canvas_height f) c' (within (covers (apng_layer alpha_over f fr)) (l_paint (apng_layer alpha_over f fr)) p).
Proof.
  intros [] [] Fit Hi Hc k. unfold apng_fits, layer_fits in Fit. cbn in Fit. fold k in Fit, pf_ranges0, pf_image0. specialize (pf_image0 px Hi).
  unfold u16_ok in *. cbn zeta in pf_ranges0.
  apply (rect_ok _ _ (x_offset k) (y_offset k) (width k) (height k)); try lia; [done|]. intros x y c1 p1 Hx Hy H1.
  assert (Hj : 0 <= (y - y_offset k) * width k + (x - x_offset k) < zlen px) by nia.
  destruct (at_in_range px _ Hj) as (q & -> & L). cbn [mbind outcome_bind].
  assert (Pt : forall old, l_paint (apng_layer alpha_over f fr) x y old = if blend_op k =? kApngBlendOver then alpha_over old q else q).
  { intros old. cbn. fold k. rewrite Hi. cbn. by rewrite L. }
  replace (y_offset k + (y - y_offset k)) with y by lia. replace (x_offset k + (x - x_offset k)) with x by lia.
  rewrite !u32_small by lia.
  destruct (alter_at_ok (canvas_width f) (canvas_height f) c1 p1 x y (fun old => Ret (if blend_op k =? kApngBlendOver then alpha_over old q else q))
    (if blend_op k =? kApngBlendOver then alpha_over (p1 x y) q else q) H1) as (c2 & E2 & H2); [lia|lia|done|].
  exists c2. split; [done|]. revert H2. apply shows_ext. intros x' y' _ _. unfold within.
  destruct ((x' =? x) && (y' =? y)) eqn:E; [|done]. assert (x' = x /\ y' = y) as [-> ->] by lia. by rewrite Pt.
Qed.

Lemma apng_step_draws f fr : apng_ok f -> apng_frame_ok f fr -> apng_fits f fr = true ->
  draws (canvas_width f) (canvas_height f) (apng_layer alpha_over f fr) (apng_step f fr).
Proof.
  intros F I Fit c p Hc. destruct (image fr) as [px|] eqn:Hi; [|unfold apng_fits in Fit; rewrite Hi, andb_false_r in Fit; done].
  pose proof (fun c p => draw_apng_ok f fr px c p F I Fit Hi) as Dr. pose proof Fit as Fit'. unfold apng_fits, layer_fits in Fit'. cbn in Fit'.
  destruct F, I. unfold apng_step. rewrite Hi. set (k := default (default_control f) (control fr)) in *. cbn zeta in *. fold k in Fit'. unfold u16_ok in *.
  rewrite fits_in_bounds by lia. replace ((x_offset k + width k <=? canvas_width f) && (y_offset k + height k <=? canvas_height f)) with true by lia.
  replace ((width k =? 0) || (height k =? 0)) with false by lia. cbn [negb].
  assert (C : exists c1 p1, (if blend_op k =? kApngBlendSource then
      clear_region (canvas_width f) (canvas_height f) (x_offset k) (y_offset k) (width k) (height k) no_colour c else Ret c) = Ret c1 /\
      shows (canvas_width f) (canvas_height f) c1 p1 /\
      forall x y, within (covers (apng_layer alpha_over f fr)) (l_paint (apng_layer alpha_over f fr)) p1 x y = within (covers (apng_layer alpha_over f fr)) (l_paint (apng_layer alpha_over f fr)) p x y).
  { destruct (Z.eqb_spec (blend_op k) kApngBlendSource) as [B|]; [|by exists c, p].
    destruct (clear_region_ok (canvas_width f) (canvas_height f) (x_offset k) (y_offset k) (width k) (height k) no_colour c p ltac:(lia) ltac:(lia)
      ltac:(lia) ltac:(lia) ltac:(lia) ltac:(lia) ltac:(lia) ltac:(lia) Hc) as (c1 & E & H1).
    exists c1. eexists. split; [done|]. split; [exact H1|]. intros x y. unfold within, covers. cbn. fold k. rewrite B. by destruct (rect _ _ _ _ x y). }
  destruct C as (c1 & p1 & -> & H1 & Same). cbn [mbind outcome_bind]. destruct (Dr c1 p1 H1) as (c2 & -> & H2). cbn [mbind outcome_bind].
  apply (shows_ext _ _ _ _ (within (covers (apng_layer alpha_over f fr)) (l_paint (apng_layer alpha_over f fr)) p)) in H2; [|intros x y _ _; apply Same].
  assert (D : delay_ms_from_fraction (delay_num k) (delay_den k) = l_delay (apng_layer alpha_over f fr)).
  { change (l_delay (apng_layer alpha_over f fr)) with (delay_num k * 1000 / (if delay_den k =? 0 then 100 else delay_den k)).
    unfold delay_ms_from_fraction. apply u32_small. destruct (Z.eqb_spec (delay_den k) 0) as [D0|]; [dlia|].
    split; [apply Z.div_pos; lia|]. apply Z.div_lt_upper_bound; [lia|]. nia. }
  cbn [l_after apng_layer]. fold k. destruct (dispose_op k =? kApngDisposeBackground).
  - destruct (clear_region_ok (canvas_width f) (canvas_height f) (x_offset k) (y_offset k) (width k) (height k) no_colour c2 _ ltac:(lia) ltac:(lia)
      ltac:(lia) ltac:(lia) ltac:(lia) ltac:(lia) ltac:(lia) ltac:(lia) H2) as (c3 & -> & H3). cbn [mbind outcome_bind].
    do 2 eexists. split; [reflexivity|]. split; [done|]. split; [done|]. split; [done|].
    revert H3. apply shows_ext. intros x y _ _. apply within_again.
  - destruct (dispose_op k =? kApngDisposePrevious); do 2 eexists; (split; [reflexivity|]); done.
Qed.

Lemma apng_step_refuses f fr : apng_ok f -> apng_frame_ok f fr -> apng_fits f fr = false -> forall c, exists msg, apng_step f fr c = Throw msg.
Proof.
  intros [] [] Fit c. unfold apng_fits, layer_fits in Fit. cbn in Fit. unfold apng_step.
  set (k := default (default_control f) (control fr)) in *. cbn zeta in *. fold k in Fit.
  rewrite fits_in_bounds by lia. destruct ((x_offset k + width k <=? canvas_width f) && (y_offset k + height k <=? canvas_height f)) eqn:B; cbn [negb]; [|by eexists].
  destruct ((width k =? 0) || (height k =? 0)) eqn:Z0; [by eexists|].
  destruct (image fr); [|by eexists]. lia.
Qed.

Lemma decode_apng_ok f : apng_ok f ->
  if has_acTL f && hidden_ok f && negb (bool_decide (apng_frames f = [])) && (0 <? canvas_width f) && (0 <? canvas_height f) && forallb (apng_fits f) (apng_frames f)
  then exists fs, decode_apng (Some f) = Ret (finish apng fs) /\ composed (canvas_width f) (canvas_height f) (apng_layer alpha_over f <$> apng_frames f) fs
  else exists msg, decode_apng (Some f) = Throw msg.
Proof.
  intros F. pose proof (pi_width f F) as W. pose proof (pi_height f F) as H. unfold decode_apng.
  destruct (has_acTL f); cbn [negb andb]; [|by eexists].
  destruct (apng_frames f) as [|fr frs] eqn:E; [rewrite andb_false_r; by eexists|]. rewrite <- E in *.
  rewrite (bool_decide_eq_false_2 (apng_frames f = [])) by congruence. cbn [negb]. rewrite andb_true_r.
  destruct (Z.ltb_spec 0 (canvas_width f)), (Z.ltb_spec 0 (canvas_height f)); rewrite ?andb_true_r, ?andb_false_r; cbn [andb];
    try (replace (canvas_width f * canvas_height f =? 0) with true by nia; by eexists).
  replace (canvas_width f * canvas_height f =? 0) with false by nia. destruct (hidden_ok f); cbn [negb andb]; [|by eexists].
  pose proof (frames_loop_total (canvas_width f) (canvas_height f) (apng_step f) (apng_layer alpha_over f) (apng_fits f) (apng_frames f)) as G.
  assert (Fs : Forall (fun fr => if apng_fits f fr then draws (canvas_width f) (canvas_height f) (apng_layer alpha_over f fr) (apng_step f fr)
      else forall c, exists msg, apng_step f fr c = Throw msg) (apng_frames f)).
  { eapply Forall_impl; [apply (pi_frames f F)|]. intros i Hi. cbn. destruct (apng_fits f i) eqn:L; [by apply apng_step_draws|by apply apng_step_refuses]. }
  specialize (G Fs _ _ (blank_shows (canvas_width f) (canvas_height f) ltac:(lia) ltac:(lia))).
  destruct (forallb _ _).
  - destruct G as (out & -> & A & B & C). exists out. split; [done|]. split; [done|]. split; done.
  - destruct G as (msg & ->). by exists msg.
Qed.

(** ** Painting over *)

Definition byte_pixel (p : rgba) : Prop := 0 <= r p < 256 /\ 0 <= g p < 256 /\ 0 <= b p < 256 /\ 0 <= a p < 256.

(** The operation [over] of Porter and Duff on the colours and alphas as fractions of 255,
    in whole numbers: [over_alpha] is 255^2 times the exact alpha of the result, and
    [over_channel] divided by it the exact colour. *)
Definition over_alpha (dst src : rgba) : Z := 255 * a src + a dst * (255 - a src).
Definition over_channel (dst src : rgba) (d s : Z) : Z := 255 * s * a src + d * a dst * (255 - a src).

(** A channel of the result, where anything is visible: the nearest to the exact colour if
    one of the pixels is opaque or invisible; else off by at most
    [1/2 + 127 (c + 3/2) / over_alpha], modulo 256. *)
Definition paints_channel (dst src : rgba) (d s out : Z) : Prop :=
  0 < over_alpha dst src ->
  (a dst = 0 \/ a dst = 255 \/ a src = 0 \/ a src = 255 -> 2 * Z.abs (over_alpha dst src * out - over_channel dst src d s) < over_alpha dst src) /\
  exists c, 0 <= c /\ out = c mod 256 /\ 2 * Z.abs (over_alpha dst src * c - over_channel dst src d s) <= over_alpha dst src + 127 * (2 * c + 3).

(** [out] is [src] over [dst], up to rounding: its alpha is the nearest to the exact one. *)
Record paints_over (dst src out : rgba) : Prop := {
  po_bytes : byte_pixel out;
  po_alpha : 2 * Z.abs (255 * a out - over_alpha dst src) < 255;
  po_red : paints_channel dst src (r dst) (r src) (r out);
  po_green : paints_channel dst src (g dst) (g src) (g out);
  po_blue : paints_channel dst src (b dst) (b src) (b out) }.

Definition porter_duff (over : rgba -> rgba -> rgba) : Prop :=
  forall dst src, byte_pixel dst -> byte_pixel src -> paints_over dst src (over dst src).

Lemma exact_channel dst src d s out : 0 <= out < 256 -> over_alpha dst src * out = over_channel dst src d s -> paints_channel dst src d s out.
Proof.
  intros Hb E Ha. rewrite E, Z.sub_diag. split; [cbn; lia|]. exists out. rewrite Z.mod_small, E, Z.sub_diag by lia. cbn [Z.abs]. lia.
Qed.

Lemma blend_paints dst src d s : byte_pixel dst -> byte_pixel src -> 0 <= d < 256 -> 0 <= s < 256 -> 0 < a src < 255 -> 0 < a dst ->
  let out_a := a src + (a dst * (255 - a src) + 127) / 255 in
  2 * Z.abs (255 * out_a - over_alpha dst src) < 255 /\ 0 < out_a < 256 /\ paints_channel dst src d s (blend out_a (a src) (a dst) s d).
Proof.
  intros (_ & _ & _ & Hda) _ Hd Hs Hsa Hda0 out_a. subst out_a. unfold over_alpha at 1.
  pose proof (Z.div_mod (a dst * (255 - a src) + 127) 255 ltac:(lia)) as E1. pose proof (Z.mod_pos_bound (a dst * (255 - a src) + 127) 255 ltac:(lia)) as M1.
  assert (B1 : 0 <= (a dst * (255 - a src) + 127) / 255 <= 255 - a src).
  { split; [apply Z.div_pos; nia|]. apply Z.lt_succ_r, Z.div_lt_upper_bound; [lia|]. nia. }
  set (q := (a dst * (255 - a src) + 127) / 255) in *. clearbody q. split; [lia|]. split; [lia|]. intros Hpos.
  unfold blend. set (oa := a src + q). unfold over_channel, over_alpha in *.
  pose proof (Z.div_mod (d * a dst * (255 - a src) + 127) 255 ltac:(lia)) as E2. pose proof (Z.mod_pos_bound (d * a dst * (255 - a src) + 127) 255 ltac:(lia)) as M2.
  assert (B2 : 0 <= (d * a dst * (255 - a src) + 127) / 255) by (apply Z.div_pos; nia).
  set (w := (d * a dst * (255 - a src) + 127) / 255) in *. clearbody w.
  pose proof (Z.div_mod oa 2 ltac:(lia)) as E3. pose proof (Z.mod_pos_bound oa 2 ltac:(lia)) as M3. set (h := oa / 2) in *. clearbody h.
  assert (Hoa : 0 < oa) by (unfold oa; lia).
  pose proof (Z.div_mod (s * a src + w + h) oa ltac:(lia)) as E4. pose proof (Z.mod_pos_bound (s * a src + w + h) oa ltac:(lia)) as M4.
  assert (B4 : 0 <= (s * a src + w + h) / oa) by (apply Z.div_pos; nia).
  set (c := (s * a src + w + h) / oa) in *. clearbody c.
  split.
  - intros Hplain. assert (Eda : a dst = 255) by lia. rewrite Eda in *. assert (q = 255 - a src) as -> by lia. assert (oa = 255) as Eo by (unfold oa; lia).
    clearbody oa. subst oa. assert (h = 127) as -> by lia. assert (w = d * (255 - a src)) as -> by nia.
    assert (Hle : s * a src + d * (255 - a src) <= 255 * 255) by nia. rewrite u8_small by lia.
    replace ((255 * a src + 255 * (255 - a src)) * c - (255 * s * a src + d * 255 * (255 - a src))) with (255 * (255 * c - (s * a src + d * (255 - a src)))) by ring.
    lia.
  - exists c. split; [done|]. split; [done|].
    assert (Eq : (255 * a src + a dst * (255 - a src)) * c - (255 * s * a src + d * a dst * (255 - a src)) =
      (127 - (d * a dst * (255 - a src) + 127) mod 255) + 255 * (h - (s * a src + w + h) mod oa) + (a dst * (255 - a src) - 255 * q) * c).
    { assert (E5 : oa * c = s * a src + w + h - (s * a src + w + h) mod oa) by lia. unfold oa in E5 at 1.
      set (m4 := (s * a src + w + h) mod oa) in *. clearbody m4. set (m2 := (d * a dst * (255 - a src) + 127) mod 255) in *. clearbody m2.
      replace ((255 * a src + a dst * (255 - a src)) * c) with (255 * ((a src + q) * c) + (a dst * (255 - a src) - 255 * q) * c) by ring. rewrite E5. lia. }
    rewrite Eq. set (m4 := (s * a src + w + h) mod oa) in *. clearbody m4. set (m2 := (d * a dst * (255 - a src) + 127) mod 255) in *. clearbody m2.
    set (rho := a dst * (255 - a src) - 255 * q) in *. assert (Hrho : -127 <= rho <= 127) by lia. assert (Hrc : - 127 * c <= rho * c <= 127 * c) by nia.
    assert (HA : 255 * a src + a dst * (255 - a src) = 255 * oa + rho) by (unfold oa, rho; ring). lia.
Qed.

Lemma alpha_over_porter_duff : porter_duff alpha_over.
Proof.
  intros dst src Hd Hs. pose proof Hd as (D1 & D2 & D3 & D4). pose proof Hs as (S1 & S2 & S3 & S4). unfold alpha_over.
  destruct ((a src =? 255) || (a dst =? 0)) eqn:E1.
  { assert (He : 255 * a src = over_alpha dst src) by (unfold over_alpha; nia).
    split; [done|lia|..]; (apply exact_channel; [done|]); unfold over_alpha, over_channel; nia. }
  apply orb_false_iff in E1 as [N1%Z.eqb_neq N2%Z.eqb_neq]. destruct (Z.eqb_spec (a src) 0) as [E2|N3].
  { split; [done|unfold over_alpha; lia|..]; (apply exact_channel; [done|]); unfold over_alpha, over_channel; rewrite E2; ring. }
  pose proof (fun d s Hd0 Hs0 => blend_paints dst src d s Hd Hs Hd0 Hs0 ltac:(lia) ltac:(lia)) as Hb. cbv zeta in Hb.
  destruct (Hb (r dst) (r src) D1 S1) as (Ha & Ho & _). rewrite (proj2 (Z.eqb_neq _ _)) by lia.
  assert (Hbyte : forall x, 0 <= u8 x < 256) by (intros x; apply Z.mod_pos_bound; lia).
  split; cbn [r g b a]; [split; [apply Hbyte|split; [apply Hbyte|split; [apply Hbyte|cbn [a]; rewrite u8_small by lia; lia]]]|rewrite u8_small by lia; lia|..]; by apply Hb.
Qed.

(** C39. Animations are composed as their formats say.  Of a GIF or APNG file that its
    library reads, decoding yields the frames exactly when there is one, the canvas is not
    empty and every frame lies inside it (and, for APNG, is not empty and can be read), and
    an error otherwise; each pixel then shows, frame after frame, what the frames covering
    it paint over what the frames before left there, with the delays of the file, and no
    access is out of bounds.  An APNG frame to be painted over is so by the operation
    [over] of Porter and Duff: the alpha is rounded to the nearest, and so are the colours
    where the canvas or the frame is opaque or invisible; between partly transparent
    pixels a colour is within the error stated, modulo 256 (it can wrap, see
    [white_over_white_is_black]). *)
Theorem frames_composed (f : gif_file) (q : apng_file) : gif_ok f -> apng_ok q ->
  (if negb (bool_decide (SavedImages f = [])) && (0 <? SWidth f) && (0 <? SHeight f) &&
      forallb (fun img => layer_fits (SWidth f) (SHeight f) (gif_layer f img)) (SavedImages f)
   then exists fs, decode_gif (Some f) = Ret (finish gif fs) /\ composed (SWidth f) (SHeight f) (gif_layer f <$> SavedImages f) fs
   else exists msg, decode_gif (Some f) = Throw msg) /\
  exists over, porter_duff over /\
  (if has_acTL q && hidden_ok q && negb (bool_decide (apng_frames q = [])) && (0 <? canvas_width q) && (0 <? canvas_height q) &&
      forallb (apng_fits q) (apng_frames q)
   then exists fs, decode_apng (Some q) = Ret (finish apng fs) /\ composed (canvas_width q) (canvas_height q) (apng_layer over q <$> apng_frames q) fs
   else exists msg, decode_apng (Some q) = Throw msg).
Proof. intros F Q. split; [by apply decode_gif_ok|]. exists alpha_over. split; [apply alpha_over_porter_duff|by apply decode_apng_ok]. Qed.

Definition red : rgba := MkRgba 255 0 0 255.
Definition blue : rgba := MkRgba 0 0 255 255.
Definition two_frames : gif_file := MkGif 2 1 (Some (MkMap 2 [red; blue])) 0
  [MkGifFrame 0 0 2 1 None [0; 1] 1 5 (-1); MkGifFrame 1 0 1 1 None [0] 3 7 (-1); MkGifFrame 0 0 2 1 None [1; 0] 2 1 0].
Definition half_red : rgba := MkRgba 255 0 0 128.
Definition two_images : apng_file := MkApng 1 2 true true
  [MkApngFrame None (Some [red; blue]); MkApngFrame (Some (MkFcTL 1 1 0 1 1 0 2 1)) (Some [half_red]); MkApngFrame (Some (MkFcTL 1 1 0 0 1 10 1 0)) (Some [half_red])].

Lemma two_frames_ok : gif_ok two_frames.
Proof.
  constructor; [unfold u16_ok; cbn; lia..|by intros m [= <-]|]. repeat constructor; unfold u16_ok; cbn; try lia; try done; intros m [=].
Qed.

Lemma two_images_ok : apng_ok two_images.
Proof.
  constructor; [cbn; lia..|].
  do 3 (constructor; [constructor; [cbn; unfold u16_ok; lia|by intros px [= <-]]|]). constructor.
Qed.

Lemma frames_composed_witness :
  decode_gif (Some two_frames) = Ret (MkImage gif
    [MkFrame 50 (2, 1) [red; blue]; MkFrame 70 (2, 1) [red; red]; MkFrame 10 (2, 1) [blue; blue]] 130) /\
  decode_apng (Some two_images) = Ret (MkImage apng
    [MkFrame 0 (1, 2) [red; blue]; MkFrame 10 (1, 2) [red; MkRgba 128 0 127 255]; MkFrame 100 (1, 2) [half_red; blue]] 110) /\
  (exists fs, decode_gif (Some two_frames) = Ret (finish gif fs) /\ composed 2 1 (gif_layer two_frames <$> SavedImages two_frames) fs) /\
  (exists over, porter_duff over /\ exists fs, decode_apng (Some two_images) = Ret (finish apng fs) /\ composed 1 2 (apng_layer over two_images <$> apng_frames two_images) fs).
Proof.
  split; [vm_compute; reflexivity|]. split; [vm_compute; reflexivity|].
  exact (frames_composed two_frames two_images two_frames_ok two_images_ok).
Defined.

(** * Times *)

Fixpoint end_of (fs : list animated_frame) (i : nat) : Z :=
  match i, fs with
  | S i, f :: fs => delay_ms f + end_of fs i
  | _, _ => 0
  end.

Lemma sum_delays_end fs acc : (forall f, f ∈ fs -> 0 <= delay_ms f) -> 0 <= acc -> acc + end_of fs (length fs) < 2 ^ 64 ->
  foldl (fun sum f => u64 (sum + delay_ms f)) acc fs = acc + end_of fs (length fs).
Proof.
  revert acc. induction fs as [|f fs IH]; intros acc Hd Ha Hs; cbn in *; [lia|].
  assert (Hf : 0 <= delay_ms f) by (apply Hd; left). assert (Hd' : forall f, f ∈ fs -> 0 <= delay_ms f) by (intros g Hg; apply Hd; by right).
  assert (He : forall i, 0 <= end_of fs i). { clear - Hd'. intros i. revert fs Hd'. induction i as [|i IHi]; intros [|g fs] Hd'; cbn; try lia.
    pose proof (Hd' g ltac:(left)). specialize (IHi fs ltac:(intros h Hh; apply Hd'; by right)). lia. }
  specialize (He (length fs)). rewrite u64_small by lia. rewrite IH by (done || lia). lia.
Qed.

(** The duration is the sum of the delays while that is below 2^32. *)
Lemma duration_is_sum fmt fs : (forall f, f ∈ fs -> 0 <= delay_ms f) -> end_of fs (length fs) < 2 ^ 32 -> duration_ms (finish fmt fs) = end_of fs (length fs).
Proof.
  intros Hd Hs. cbn. unfold saturating_duration_sum, sum_delays. rewrite sum_delays_end by (done || lia). lia.
Qed.

Lemma frame_loop_first fs : forall local i elapsed, (forall f, f ∈ fs -> 0 <= delay_ms f) -> 0 <= elapsed -> elapsed + end_of fs (length fs) < 2 ^ 32 ->
  match frame_loop local i elapsed fs with
  | Some k => exists j, k = i + Z.of_nat j /\ (j < length fs)%nat /\ fltb local (of_Z (elapsed + end_of fs (S j))) = true /\
      forall j', (j' < j)%nat -> fltb local (of_Z (elapsed + end_of fs (S j'))) = false
  | None => forall j', (j' < length fs)%nat -> fltb local (of_Z (elapsed + end_of fs (S j'))) = false
  end.
Proof.
  induction fs as [|f fs IH]; intros local i elapsed Hd He Hs; [cbn; lia|]. cbn [frame_loop].
  assert (Hf : 0 <= delay_ms f) by (apply Hd; left). assert (Hd' : forall f, f ∈ fs -> 0 <= delay_ms f) by (intros g Hg; apply Hd; by right).
  assert (Hn : forall i, 0 <= end_of fs i). { clear - Hd'. intros i. revert fs Hd'. induction i as [|i IHi]; intros [|g fs] Hd'; cbn; try lia.
    pose proof (Hd' g ltac:(left)). specialize (IHi fs ltac:(intros h Hh; apply Hd'; by right)). lia. }
  cbn [length end_of] in Hs. pose proof (Hn (length fs)). rewrite u32_small by lia.
  assert (E0 : elapsed + end_of (f :: fs) 1 = elapsed + delay_ms f) by (destruct fs; cbn; lia).
  assert (ES : forall j, elapsed + end_of (f :: fs) (S (S j)) = elapsed + delay_ms f + end_of fs (S j)) 
    by (intros j; change (end_of (f :: fs) (S (S j))) with (delay_ms f + end_of fs (S j)); lia).
  destruct (fltb local (of_Z (elapsed + delay_ms f))) eqn:L.
  - exists 0%nat. split; [lia|]. split; [cbn; lia|]. split; [by rewrite E0|lia].
  - specialize (IH local (i + 1) (elapsed + delay_ms f) Hd' ltac:(lia) ltac:(lia)). destruct (frame_loop _ _ _ fs) as [k|].
    + destruct IH as (j & -> & Hj & Lt & Ge). exists (S j). split; [lia|]. split; [cbn; lia|]. split; [by rewrite ES|].
      intros [|j'] Hj'; [by rewrite E0|rewrite ES; apply Ge; lia].
    + intros [|j'] Hj'; [by rewrite E0|rewrite ES; apply IH; cbn in Hj'; lia].
Qed.

(** The frame shown at a time is the first that ends after it, counted from the start of
    the round; the last when none does. *)
Lemma frame_at_time img t : (forall f, f ∈ frames img -> 0 <= delay_ms f) -> end_of (frames img) (length (frames img)) < 2 ^ 32 ->
  frames img <> [] -> is_finite t = true -> duration_ms img <> 0 ->
  let m := fmod t (duration_ms img) in
  let local := if fltb m fzero then SFadd 53 1024 m (of_Z (duration_ms img)) else m in
  exists j, frame_index_at img t = Z.of_nat j /\ (j < length (frames img))%nat /\
    (forall j', (j' < j)%nat -> fltb local (of_Z (end_of (frames img) (S j'))) = false) /\
    (fltb local (of_Z (end_of (frames img) (S j))) = true \/ j = pred (length (frames img))).
Proof.
  intros Hd Hs Hn Ht Hz m local. unfold frame_index_at. rewrite bool_decide_eq_false_2, Ht by done. cbn [negb orb].
  rewrite (proj2 (Z.eqb_neq _ _)) by done. fold m. fold local. pose proof (frame_loop_first (frames img) local 0 0 Hd ltac:(lia) ltac:(lia)) as G.
  assert (L : (0 < length (frames img))%nat) by (destruct (frames img); [done|cbn; lia]).
  destruct (frame_loop local 0 0 (frames img)) as [k|]; cbn [default from_option id].
  - destruct G as (j & -> & Hj & Lt & Ge). exists j. split; [lia|]. split; [done|]. split; [intros; by apply Ge|by left].
  - exists (pred (length (frames img))). split; [lia|]. split; [lia|]. split; [intros j' Hj'; apply G; lia|by right].
Qed.

(** * Blending *)

(** What is opaque covers, what is transparent leaves as it was, and the result is at
    least as opaque as either. *)
Lemma alpha_over_alpha dst src : 0 <= a dst < 256 -> 0 <= a src < 256 ->
  a src <= a (alpha_over dst src) < 256 /\ a dst <= a (alpha_over dst src) \/ a (alpha_over dst src) = a src /\ a dst = 0.
Proof.
  intros Hd Hs. unfold alpha_over. destruct (Z.eqb_spec (a src) 255), (Z.eqb_spec (a dst) 0); cbn [orb]; try lia.
  destruct (Z.eqb_spec (a src) 0); [lia|].
  assert (H : 0 <= (a dst * (255 - a src) + 127) / 255 <= 255 - a src).
  { split; [apply Z.div_pos; nia|]. apply Z.lt_succ_r, Z.div_lt_upper_bound; [lia|]. nia. }
  assert (H2 : a dst - a src <= (a dst * (255 - a src) + 127) / 255) by (apply Z.div_le_lower_bound; nia).
  destruct (Z.eqb_spec (a src + (a dst * (255 - a src) + 127) / 255) 0); [lia|]. cbn [a]. rewrite u8_small by lia. lia.
Qed.

(** * What modelling showed *)

(** The weights of a colour are rounded apart from the alpha that they are divided by, so
    that a channel can come out above 255 and wraps: half-transparent white over almost
    transparent white is black. *)
Lemma white_over_white_is_black : alpha_over (MkRgba 255 255 255 1) (MkRgba 255 255 255 128) = MkRgba 0 0 0 128.
Proof. reflexivity. Qed.

(** So it does for 7935 of the 64516 pairs of alphas strictly between 0 and 255. *)
Lemma white_wraps_often :
  length (filter (fun p : Z * Z => r (alpha_over (MkRgba 255 255 255 p.1) (MkRgba 255 255 255 p.2)) < 128)
    (d ← seqZ 1 254; s ← seqZ 1 254; [(d, s)])) = 7935%nat.
Proof. vm_compute. reflexivity. Qed.
