(* ===== verification/Dns.v ===== *)
(** The resolver of [src/runtime/v8/fxe_native.cpp]: queries as they are sent, answers as
    they are read, and the callback a script gets.

    A packet is a vector of bytes and a position in it a [usize].  What a call reports to
    its callback as an error is the left of a sum, [error]; [Ub] is an access outside the
    packet.  Sockets and [getaddrinfo] are the arguments that say how each call went. *)

From S2P Require Import Prelude Strings.

(** A call that answers a value or an error for its callback. *)
Record error := { code : string; message : string }.
Notation fallible A := (outcome (error + A)).

Definition fails {A} (c m : string) : fallible A := Ret (inl {| code := c; message := m |}).
Definition succeeds {A} (a : A) : fallible A := Ret (inr a).

Definition and_then {A B} (m : fallible A) (f : A -> fallible B) : fallible B :=
  m ≫= fun r => match r with inl e => Ret (inl e) | inr a => f a end.

Notation "'let!' x := m 'in' k" := (and_then m (fun x => k))
  (at level 200, x pattern, m at level 100, k at level 200, right associativity).

(** * Types of records *)

Inductive dns_rr_type := A | NS | CNAME | SOA | PTR | MX | TXT | AAAA | SRV | NAPTR | CAA.

#[export] Instance dns_rr_type_eq_dec : EqDecision dns_rr_type.
Proof. solve_decision. Defined.

Definition type_code (t : dns_rr_type) : Z :=
  match t with
  | A => 1 | NS => 2 | CNAME => 5 | SOA => 6 | PTR => 12 | MX => 15 | TXT => 16
  | AAAA => 28 | SRV => 33 | NAPTR => 35 | CAA => 257
  end.

(** [std::toupper] in the "C" locale *)
Definition upper_char (c : Z) : Z := if (chr "a" <=? c) && (c <=? chr "z") then c - 32 else c.

Definition type_names : list (bytes * dns_rr_type) :=
  [(str "A", A); (str "AAAA", AAAA); (str "MX", MX); (str "NS", NS); (str "SRV", SRV);
   (str "TXT", TXT); (str "CAA", CAA); (str "CNAME", CNAME); (str "PTR", PTR);
   (str "SOA", SOA); (str "NAPTR", NAPTR)].

Definition dns_rr_type_from_string (type : bytes) : option dns_rr_type :=
  lookup_name (upper_char <$> type) type_names.

(** * Bytes of a packet *)

Definition dns_write_u16 (out : bytes) (value : Z) : bytes :=
  out ++ [u8 (Z.land (Z.shiftr value 8) 255); u8 (Z.land value 255)].

Definition dns_read_u16 (data : bytes) (offset : Z) : outcome Z :=
  hi ← at_ data offset;
  lo ← at_ data (offset + 1);
  Ret (u16 (Z.lor (Z.shiftl hi 8) lo)).

Definition dns_read_u32 (data : bytes) (offset : Z) : outcome Z :=
  b0 ← at_ data offset;
  b1 ← at_ data (offset + 1);
  b2 ← at_ data (offset + 2);
  b3 ← at_ data (offset + 3);
  Ret (u32 (Z.lor (Z.lor (Z.lor (Z.shiftl b0 24) (Z.shiftl b1 16)) (Z.shiftl b2 8)) b3)).

(** * Names *)

(** The loop of [dns_encode_name] from [start] on; [None] is [false]. *)
Fixpoint encode_labels (fuel : nat) (name : bytes) (start : Z) (out : bytes) : outcome (option bytes) :=
  match fuel with
  | O => OutOfFuel
  | S fuel' =>
      if start <? zlen name then
        let dot := find_char (chr ".") name start in
        let stop := default (zlen name) dot in
        let len := stop - start in
        if len =? 0 then encode_labels fuel' name (stop + 1) out
        else if 63 <? len then Ret None
        else
          let out := out ++ u8 len :: zsub start len name in
          match dot with
          | None => Ret (Some (out ++ [0]))
          | Some _ => encode_labels fuel' name (stop + 1) out
          end
      else Ret (Some (out ++ [0]))
  end.

Definition dns_encode_name (name out : bytes) : outcome (option bytes) :=
  match name with
  | [] => Ret None
  | _ => encode_labels (S (length name)) name 0 out
  end.

(** The loop of [dns_expand_name]: what was consumed and the name, or [None] for [false].
    [nested] is the call for a pointer, which ends the loop. *)
Fixpoint expand_labels (nested : Z -> outcome (option (Z * bytes))) (fuel : nat)
    (data : bytes) (offset pos : Z) (out : bytes) : outcome (option (Z * bytes)) :=
  match fuel with
  | O => OutOfFuel
  | S fuel' =>
      if zlen data <=? pos then Ret None
      else
        len ← at_ data pos;
        let pos := pos + 1 in
        if Z.land len 192 =? 192 then
          if zlen data <=? pos then Ret None
          else
            lo ← at_ data pos;
            let ptr := Z.lor (Z.shiftl (Z.land len 63) 8) lo in
            let consumed := pos + 1 - offset in
            r ← nested ptr;
            match r with
            | None => Ret None
            | Some (_, suffix) =>
                let out := if negb (bool_decide (out = [])) && negb (bool_decide (suffix = []))
                           then out ++ [chr "."] else out in
                Ret (Some (consumed, out ++ suffix))
            end
        else if negb (Z.land len 192 =? 0) then Ret None
        else if len =? 0 then Ret (Some (pos - offset, out))
        else if zlen data <? pos + len then Ret None
        else
          let out := if bool_decide (out = []) then out else out ++ [chr "."] in
          label ← sub_ data pos len;
          expand_labels nested fuel' data offset (pos + len) (out ++ label)
  end.

(** [dns_expand_name] with [left] = 17 - [depth]: where the name ends and the name. *)
Fixpoint dns_expand_name (left : nat) (data : bytes) (offset : Z) : outcome (option (Z * bytes)) :=
  match left with
  | O => Ret None
  | S left' =>
      r ← expand_labels (dns_expand_name left' data) (S (length data)) data offset offset [];
      Ret (match r with Some (consumed, out) => Some (offset + consumed, out) | None => None end)
  end.

(** The depth of the outermost call is 0. *)
Notation max_depth := 17%nat.

(** * Answers *)

(** A property of an object is a number or a string, given here as its bytes. *)
Inductive js_property := Number (n : Z) | Text (s : bytes).

#[export] Instance js_property_eq_dec : EqDecision js_property.
Proof. solve_decision. Defined.

(** [set_prop] on an object with properties of these names.  [Set] runs the setter of
    [__proto__] that every object inherits, which ignores strings and numbers. *)
Definition set_prop (key : bytes) (value : js_property) (object : list (bytes * js_property)) : list (bytes * js_property) :=
  if bool_decide (key = str "__proto__") then object else update_name key value object.

(** What [s.c_str()] says. *)
Definition c_str (s : bytes) : bytes := upto (fun c => c =? 0) s.

(** The properties of the objects the callback gets; those of a CAA record are named by
    the record. *)
Inductive rdata :=
| Name (name : bytes)
| Mx (priority : Z) (exchange : bytes)
| Srv (priority weight port : Z) (name : bytes)
| Txt (chunks : list bytes)
| Caa (record : list (bytes * js_property))
| Soa (nsname hostmaster : bytes) (serial refresh retry expire minttl : Z)
| Naptr (order preference : Z) (flags service regexp replacement : bytes).

#[export] Instance rdata_eq_dec : EqDecision rdata.
Proof. solve_decision. Defined.

Definition dns_parse_character_string (packet : bytes) (offset stop : Z) : outcome (option (Z * bytes)) :=
  if stop <=? offset then Ret None
  else
    len ← at_ packet offset;
    let offset := offset + 1 in
    if stop <? offset + len then Ret None
    else
      out ← sub_ packet offset len;
      Ret (Some (offset + len, out)).

Definition or_fail {A} (c m : string) (r : outcome (option A)) : fallible A :=
  r ≫= fun o => match o with Some a => succeeds a | None => fails c m end.

Definition lift {A} (m : outcome A) : fallible A := m ≫= succeeds.

Definition guard_that (ok : bool) (c m : string) : fallible unit :=
  if ok then succeeds tt else fails c m.

Definition expand (packet : bytes) (pos : Z) (m : string) : fallible (Z * bytes) :=
  or_fail "EAI_FAIL" m (dns_expand_name max_depth packet pos).

(** The loop that reads the chunks of a TXT record. *)
Fixpoint txt_chunks (fuel : nat) (packet : bytes) (pos stop : Z) : fallible (list bytes) :=
  match fuel with
  | O => OutOfFuel
  | S fuel' =>
      if pos <? stop then
        let! (pos, chunk) := or_fail "EAI_FAIL" "malformed TXT rdata" (dns_parse_character_string packet pos stop) in
        let! chunks := txt_chunks fuel' packet pos stop in
        succeeds (chunk :: chunks)
      else succeeds []
  end.

Definition parse_mx (packet : bytes) (pos stop : Z) : fallible rdata :=
  let! _ := guard_that (pos + 2 <=? stop) "EAI_FAIL" "malformed MX rdata" in
  let! priority := lift (dns_read_u16 packet pos) in
  let! (_, exchange) := expand packet (pos + 2) "malformed MX exchange" in
  succeeds (Mx priority exchange).

Definition parse_srv (packet : bytes) (pos stop : Z) : fallible rdata :=
  let! _ := guard_that (pos + 6 <=? stop) "EAI_FAIL" "malformed SRV rdata" in
  let! priority := lift (dns_read_u16 packet pos) in
  let! weight := lift (dns_read_u16 packet (pos + 2)) in
  let! port := lift (dns_read_u16 packet (pos + 4)) in
  let! (_, name) := expand packet (pos + 6) "malformed SRV target" in
  succeeds (Srv priority weight port name).

Definition parse_caa (packet : bytes) (pos stop : Z) : fallible rdata :=
  let! _ := guard_that (pos + 2 <=? stop) "EAI_FAIL" "malformed CAA rdata" in
  let! critical := lift (at_ packet pos) in
  let! tag_len := lift (at_ packet (pos + 1)) in
  let pos := pos + 2 in
  let! _ := guard_that (pos + tag_len <=? stop) "EAI_FAIL" "malformed CAA tag" in
  let! tag := lift (sub_ packet pos tag_len) in
  let pos := pos + tag_len in
  let! value := lift (sub_ packet pos (stop - pos)) in
  succeeds (Caa (set_prop (c_str tag) (Text value) (set_prop (str "critical") (Number critical) []))).

Definition parse_soa (packet : bytes) (pos stop : Z) : fallible rdata :=
  let! (pos, nsname) := expand packet pos "malformed SOA rdata" in
  let! (pos, hostmaster) := expand packet pos "malformed SOA rdata" in
  let! _ := guard_that (pos + 20 <=? stop) "EAI_FAIL" "malformed SOA rdata" in
  let! serial := lift (dns_read_u32 packet pos) in
  let! refresh := lift (dns_read_u32 packet (pos + 4)) in
  let! retry := lift (dns_read_u32 packet (pos + 8)) in
  let! expire := lift (dns_read_u32 packet (pos + 12)) in
  let! minttl := lift (dns_read_u32 packet (pos + 16)) in
  succeeds (Soa nsname hostmaster serial refresh retry expire minttl).

Definition parse_naptr (packet : bytes) (pos stop : Z) : fallible rdata :=
  let! _ := guard_that (pos + 4 <=? stop) "EAI_FAIL" "malformed NAPTR rdata" in
  let! order := lift (dns_read_u16 packet pos) in
  let! preference := lift (dns_read_u16 packet (pos + 2)) in
  let malformed {A} := or_fail (A := A) "EAI_FAIL" "malformed NAPTR rdata" in
  let! (pos, flags) := malformed (dns_parse_character_string packet (pos + 4) stop) in
  let! (pos, service) := malformed (dns_parse_character_string packet pos stop) in
  let! (pos, regexp) := malformed (dns_parse_character_string packet pos stop) in
  let! (_, replacement) := expand packet pos "malformed NAPTR rdata" in
  succeeds (Naptr order preference flags service regexp replacement).

(** The chain of [if (requested == ...)]; [None] when none applies. *)
Definition parse_rdata (packet : bytes) (requested : dns_rr_type) (pos stop : Z) : fallible (option rdata) :=
  match requested with
  | NS | CNAME | PTR =>
      let! (_, name) := expand packet pos "malformed DNS name rdata" in succeeds (Some (Name name))
  | MX => let! r := parse_mx packet pos stop in succeeds (Some r)
  | SRV => let! r := parse_srv packet pos stop in succeeds (Some r)
  | TXT =>
      let! chunks := txt_chunks (S (length packet)) packet pos stop in succeeds (Some (Txt chunks))
  | CAA => let! r := parse_caa packet pos stop in succeeds (Some r)
  | SOA => let! r := parse_soa packet pos stop in succeeds (Some r)
  | NAPTR => let! r := parse_naptr packet pos stop in succeeds (Some r)
  | A | AAAA => succeeds None
  end.

(** [for (u16 i = 0; i < qd; ++i)] *)
Fixpoint skip_questions (n : nat) (packet : bytes) (offset : Z) : fallible Z :=
  match n with
  | O => succeeds offset
  | S n' =>
      let! (offset, _) := expand packet offset "malformed DNS question" in
      let! _ := guard_that (offset + 4 <=? zlen packet) "EAI_FAIL" "malformed DNS question" in
      skip_questions n' packet (offset + 4)
  end.

(** The array, its next index and the object of a SOA record. *)
Record found := { array : list rdata; index : Z; singleton : option rdata }.
Definition nothing_found : found := {| array := []; index := 0; singleton := None |}.

Definition add_record (requested : dns_rr_type) (r : rdata) (f : found) : found :=
  match requested with
  | SOA => {| array := array f; index := 1; singleton := Some r |}
  | _ => {| array := array f ++ [r]; index := index f + 1; singleton := singleton f |}
  end.

(** [for (u16 i = 0; i < an; ++i)] *)
Fixpoint read_answers (n : nat) (packet : bytes) (requested : dns_rr_type) (offset : Z) (f : found) : fallible found :=
  match n with
  | O => succeeds f
  | S n' =>
      let! (offset, _) := expand packet offset "malformed DNS answer" in
      let! _ := guard_that (offset + 10 <=? zlen packet) "EAI_FAIL" "malformed DNS answer" in
      let! type := lift (dns_read_u16 packet offset) in
      let! klass := lift (dns_read_u16 packet (offset + 2)) in
      let! rdlen := lift (dns_read_u16 packet (offset + 8)) in
      let rdata := offset + 10 in
      let stop := rdata + rdlen in
      let! _ := guard_that (stop <=? zlen packet) "EAI_FAIL" "truncated DNS rdata" in
      if negb (klass =? 1) || negb (type =? type_code requested)
      then read_answers n' packet requested stop f
      else
        let! r := parse_rdata packet requested rdata stop in
        read_answers n' packet requested stop (match r with Some r => add_record requested r f | None => f end)
  end.

(** What the callback gets: an array, or one object. *)
Inductive answer := Records (rs : list rdata) | Single (r : rdata).

Definition dns_parse_records (packet : bytes) (requested : dns_rr_type) : fallible answer :=
  let! _ := guard_that (12 <=? zlen packet) "EAI_FAIL" "short DNS response" in
  let! qd := lift (dns_read_u16 packet 4) in
  let! an := lift (dns_read_u16 packet 6) in
  let! offset := skip_questions (Z.to_nat qd) packet 12 in
  let! f := read_answers (Z.to_nat an) packet requested offset nothing_found in
  if index f =? 0 then fails "ENODATA" "DNS record type has no data"
  else match requested, singleton f with
       | SOA, Some r => succeeds (Single r)
       | _, _ => succeeds (Records (array f))
       end.

(** * The exchange with the server *)

(** [std::isspace] in the "C" locale *)
Definition is_space (c : Z) : bool := (c =? 32) || ((9 <=? c) && (c <=? 13)).

(** One word of a line: [iss >> key] skips white space and takes what is not white space. *)
Definition next_word (s : bytes) : bytes * bytes :=
  let s := drop_while is_space s in (upto is_space s, from is_space s).

Definition nameserver_of (line : bytes) : option bytes :=
  let '(key, rest) := next_word line in
  let '(value, _) := next_word rest in
  if bool_decide (key = str "nameserver") && negb (bool_decide (value = [])) then Some value else None.

(** [env] is FXE_DNS_SERVER, [resolv] the text of /etc/resolv.conf ([None]: no such file). *)
Definition dns_default_server (env resolv : option bytes) : bytes :=
  match env with
  | Some (c :: s) => c :: s
  | _ =>
      default (str "1.1.1.1")
        (resolv ≫= fun text => head (omap nameserver_of (getlines 10 text)))
  end.

Definition query_packet (id : Z) (hostname : bytes) (rrtype : dns_rr_type) : outcome (option bytes) :=
  let query := foldl dns_write_u16 [] [id; 256; 1; 0; 0; 0] in
  r ← dns_encode_name hostname query;
  Ret (match r with
       | Some query => Some (dns_write_u16 (dns_write_u16 query (type_code rrtype)) 1)
       | None => None
       end).

(** How the calls of an exchange go: the addresses of the server, whether a socket of an
    address can be made, what [sendto] returns for the query and the datagram [recvfrom]
    takes, [None] on a timeout. *)
Record network := {
  addresses : bytes -> option nat;
  socket_works : nat -> bool;
  sent : bytes -> Z;
  datagram : option bytes;
}.

(** The socket calls made, in order. *)
Inductive socket_call := Opened | Sent (query : bytes) | Read | Closed.

(** The first address a socket can be made for. *)
Definition select_address (net : network) (n : nat) : option nat :=
  List.find (socket_works net) (seq 0 n).

(** What is left of [dns_query_packet] once a datagram is there. *)
Definition check_response (id : Z) (d : option bytes) : fallible bytes :=
  let response := ztake 4096 (default [] d) in
  if zlen response <? 12 then fails "EAI_AGAIN" "DNS query timed out or returned a short response"
  else
    let! got := lift (dns_read_u16 response 0) in
    if negb (got =? id) then fails "EAI_FAIL" "DNS response id mismatch"
    else
      let! flags := lift (dns_read_u16 response 2) in
      let rcode := Z.land flags 15 in
      if rcode =? 3 then fails "ENOTFOUND" "DNS name not found"
      else if negb (rcode =? 0) then fails "EAI_FAIL" "DNS resolver returned an error"
      else succeeds response.

(** [now] is the count of the steady clock. *)
Definition dns_query_packet (net : network) (server : bytes) (now : Z) (hostname : bytes) (rrtype : dns_rr_type) :
    list socket_call * fallible bytes :=
  let id := u16 (Z.land now 65535) in
  match query_packet id hostname rrtype with
  | Ret (Some query) =>
      match addresses net server with
      | None | Some O => ([], fails "EAI_FAIL" "DNS resolver address lookup failed")
      | Some n =>
          match select_address net n with
          | None => ([], fails "EAI_FAIL" "DNS resolver socket creation failed")
          | Some _ =>
              if negb (sent net query =? zlen query)
              then ([Opened; Sent query; Closed], fails "EAI_AGAIN" "DNS query send failed")
              else ([Opened; Sent query; Read; Closed], check_response id (datagram net))
          end
      end
  | Ret None => ([], fails "EINVAL" "invalid DNS hostname")
  | Throw w => ([], Throw w)
  | Ub => ([], Ub)
  | OutOfFuel => ([], OutOfFuel)
  end.

(** [dns_resolve_record] for two strings and a callback: what the callback is called with. *)
Definition dns_resolve_record (net : network) (env resolv : option bytes) (now : Z) (hostname rrtype_string : bytes) :
    list socket_call * fallible answer :=
  match dns_rr_type_from_string rrtype_string with
  | None => ([], fails "ENODATA" "unsupported DNS record type")
  | Some rrtype =>
      let '(calls, r) := dns_query_packet net (dns_default_server env resolv) now hostname rrtype in
      (calls, let! packet := r in dns_parse_records packet rrtype)
  end.

(** * Looking up addresses *)

(** A result of [getaddrinfo] and what [getnameinfo] makes of it ([None]: it failed). *)
Inductive family := Inet | Inet6 | OtherFamily.
#[export] Instance family_eq_dec : EqDecision family.
Proof. solve_decision. Defined.

Record addrinfo := { ai_family : family; numeric_address : option bytes }.

Definition numeric_address_for (i : addrinfo) : bytes := default [] (numeric_address i).

Definition is_inet (i : addrinfo) : bool := negb (bool_decide (ai_family i = OtherFamily)).

Definition make_dns_result (i : addrinfo) (address : bytes) : bytes * Z :=
  (address, if bool_decide (ai_family i = Inet6) then 6 else 4).

Inductive lookup_result := One (r : bytes * Z) | All (rs : list (bytes * Z)).

(** [rc] is [None] for success, else whether it is EAI_AGAIN.  Beside what the callback
    gets: how often the results are freed. *)
Definition complete_dns_lookup (rc : option bool) (results : list addrinfo) (all : bool) :
    nat * (string + lookup_result) :=
  match rc with
  | Some again => (0%nat, inl (if again then "EAI_AGAIN"%string else "ENOTFOUND"%string))
  | None =>
      if all then
        let usable := filter (fun i => is_inet i = true /\ numeric_address_for i <> []) results in
        (1%nat, inr (All ((fun i => make_dns_result i (numeric_address_for i)) <$> usable)))
      else
        match List.find is_inet results with
        | None => ((if bool_decide (results = []) then 0 else 1)%nat, inl "ENOTFOUND"%string)
        | Some selected =>
            if bool_decide (numeric_address_for selected = []) then (1%nat, inl "EAI_FAIL"%string)
            else (1%nat, inr (One (make_dns_result selected (numeric_address_for selected))))
        end
  end.

Definition sample : bytes :=
  [18; 52; 129; 128; 0; 1; 0; 2; 0; 0; 0; 0] ++ 3 :: str "fxe" ++ 3 :: str "dev" ++ [0; 0; 15; 0; 1]
  ++ [192; 12; 0; 15; 0; 1; 0; 0; 0; 60; 0; 8; 0; 10; 3; 109; 120; 49; 192; 12]
  ++ [192; 12; 0; 1; 0; 1; 0; 0; 0; 60; 0; 4; 1; 2; 3; 4].

Example sample_mx : dns_parse_records sample MX = succeeds (Records [Mx 10 (str "mx1.fxe.dev")]).
Proof. vm_compute. reflexivity. Qed.
Example sample_a : dns_parse_records sample A = fails "ENODATA" "DNS record type has no data".
Proof. vm_compute. reflexivity. Qed.
