(* ===== verification/DnsFacts.v ===== *)
(** What the resolver of [Dns] reads, stated as relations on positions of a packet: the
    responses of RFC 1035, and the weaker grammar the code takes; the proof that the reader
    answers a proper response with its records, that it accepts exactly the weaker grammar,
    stays in the packet and ends, whatever the packet holds. *)

From S2P Require Import Prelude Strings Dns.

(** * The grammar *)

Section Grammar.
Context (packet : bytes).

(** A big-endian number of [k] bytes. *)
Definition field (k off v : Z) : Prop :=
  0 <= off /\ off + k <= zlen packet /\ v = be_value (zsub off k packet).

(** The labels of a name whose bytes start at [off], how many pointers are followed and
    where what follows the name starts. *)
Inductive name_at : nat -> Z -> list bytes -> Z -> Prop :=
| name_root off : at_ packet off = Ret 0 -> name_at 0 off [] (off + 1)
| name_label jumps off len labels next :
    at_ packet off = Ret len -> 0 < len < 64 -> off + 1 + len <= zlen packet ->
    name_at jumps (off + 1 + len) labels next ->
    name_at jumps off (zsub (off + 1) len packet :: labels) next
| name_pointer jumps off hi lo labels next :
    at_ packet off = Ret hi -> 192 <= hi -> at_ packet (off + 1) = Ret lo ->
    name_at jumps ((hi - 192) * 256 + lo) labels next ->
    name_at (S jumps) off labels (off + 2).

(** A name as text; at most 16 pointers are followed. *)
Definition name_in (off : Z) (name : bytes) (next : Z) : Prop :=
  exists jumps labels, (jumps <= 16)%nat /\ name_at jumps off labels next /\ name = join_with (chr ".") labels.

(** A string with its length before it, inside the record that ends at [stop]. *)
Definition string_in (stop off : Z) (s : bytes) (next : Z) : Prop :=
  exists len, at_ packet off = Ret len /\ off + 1 + len <= stop /\ s = zsub (off + 1) len packet /\ next = off + 1 + len.

Inductive strings_in (stop : Z) : Z -> list bytes -> Prop :=
| strings_end off : stop <= off -> strings_in stop off []
| strings_more off s next l : off < stop -> string_in stop off s next -> strings_in stop next l ->
    strings_in stop off (s :: l).

(** The object of a CAA record. *)
Definition caa_object (critical : Z) (tag value : bytes) : rdata :=
  Caa (set_prop (c_str tag) (Text value) (set_prop (str "critical") (Number critical) [])).

(** What the reader takes for the data of a record of a type, between [pos] and [stop]: a
    name may end anywhere in the packet. *)
Definition rdata_in (t : dns_rr_type) (pos stop : Z) (r : rdata) : Prop :=
  match t, r with
  | (NS | CNAME | PTR), Name n => exists next, name_in pos n next
  | MX, Mx priority exchange =>
      pos + 2 <= stop /\ field 2 pos priority /\ exists next, name_in (pos + 2) exchange next
  | SRV, Srv priority weight port n =>
      pos + 6 <= stop /\ field 2 pos priority /\ field 2 (pos + 2) weight /\ field 2 (pos + 4) port /\
      exists next, name_in (pos + 6) n next
  | TXT, Txt chunks => strings_in stop pos chunks
  | CAA, Caa _ =>
      pos + 2 <= stop /\ exists critical len, at_ packet pos = Ret critical /\ at_ packet (pos + 1) = Ret len /\
      pos + 2 + len <= stop /\
      r = caa_object critical (zsub (pos + 2) len packet) (zsub (pos + 2 + len) (stop - (pos + 2 + len)) packet)
  | SOA, Soa nsname hostmaster serial refresh retry expire minttl =>
      exists o1 o2, name_in pos nsname o1 /\ name_in o1 hostmaster o2 /\ o2 + 20 <= stop /\
      field 4 o2 serial /\ field 4 (o2 + 4) refresh /\ field 4 (o2 + 8) retry /\
      field 4 (o2 + 12) expire /\ field 4 (o2 + 16) minttl
  | NAPTR, Naptr order preference flags service regexp replacement =>
      pos + 4 <= stop /\ field 2 pos order /\ field 2 (pos + 2) preference /\ exists o1 o2 o3 next,
      string_in stop (pos + 4) flags o1 /\ string_in stop o1 service o2 /\ string_in stop o2 regexp o3 /\
      name_in o3 replacement next
  | _, _ => False
  end.

(** Types whose records the reader has no case for. *)
Definition readable (t : dns_rr_type) : bool := negb (bool_decide (t = A)) && negb (bool_decide (t = AAAA)).

Inductive questions_in : nat -> Z -> Z -> Prop :=
| questions_end off : questions_in 0 off off
| questions_more n off name o stop : name_in off name o -> o + 4 <= zlen packet ->
    questions_in n (o + 4) stop -> questions_in (S n) off stop.

(** The records of the type asked for that the reader finds among [n] answers from [off]
    on. *)
Inductive answers_in (t : dns_rr_type) : nat -> Z -> list rdata -> Prop :=
| answers_end off : answers_in t 0 off []
| answers_other n off name o type klass len rs :
    name_in off name o -> field 2 o type -> field 2 (o + 2) klass -> field 2 (o + 8) len ->
    o + 10 + len <= zlen packet -> (klass <> 1 \/ type <> type_code t \/ readable t = false) ->
    answers_in t n (o + 10 + len) rs -> answers_in t (S n) off rs
| answers_more n off name o len r rs :
    name_in off name o -> field 2 o (type_code t) -> field 2 (o + 2) 1 -> field 2 (o + 8) len ->
    o + 10 + len <= zlen packet -> rdata_in t (o + 10) (o + 10 + len) r ->
    answers_in t n (o + 10 + len) rs -> answers_in t (S n) off (r :: rs).

(** What the reader takes for a response. *)
Definition response_in (t : dns_rr_type) (rs : list rdata) : Prop :=
  12 <= zlen packet /\ exists qd an o, field 2 4 qd /\ field 2 6 an /\
  questions_in (Z.to_nat qd) 12 o /\ answers_in t (Z.to_nat an) o rs.

(** ** Proper responses *)

(** The data of a record by its RFC: it fills the record.  The tag of a CAA record is made
    of letters and digits (RFC 8659); one called [critical] is left out, for the object of
    the API has that name for the flags. *)
Definition letter_or_digit (c : Z) : bool :=
  (chr "0" <=? c) && (c <=? chr "9") || (chr "A" <=? c) && (c <=? chr "Z") || (chr "a" <=? c) && (c <=? chr "z").

Definition rfc_rdata (t : dns_rr_type) (pos stop : Z) (r : rdata) : Prop :=
  match t, r with
  | (NS | CNAME | PTR), Name n => name_in pos n stop
  | MX, Mx priority exchange => field 2 pos priority /\ name_in (pos + 2) exchange stop
  | SRV, Srv priority weight port n =>
      field 2 pos priority /\ field 2 (pos + 2) weight /\ field 2 (pos + 4) port /\ name_in (pos + 6) n stop
  | TXT, Txt chunks => strings_in stop pos chunks
  | CAA, Caa record =>
      exists flags tag value next, at_ packet pos = Ret flags /\ string_in stop (pos + 1) tag next /\
      forallb letter_or_digit tag = true /\ tag <> [] /\ tag <> str "critical" /\ value = zsub next (stop - next) packet /\
      record = [(str "critical", Number flags); (tag, Text value)]
  | SOA, Soa nsname hostmaster serial refresh retry expire minttl =>
      exists o1 o2, name_in pos nsname o1 /\ name_in o1 hostmaster o2 /\ o2 + 20 = stop /\
      field 4 o2 serial /\ field 4 (o2 + 4) refresh /\ field 4 (o2 + 8) retry /\
      field 4 (o2 + 12) expire /\ field 4 (o2 + 16) minttl
  | NAPTR, Naptr order preference flags service regexp replacement =>
      field 2 pos order /\ field 2 (pos + 2) preference /\ exists o1 o2 o3,
      string_in stop (pos + 4) flags o1 /\ string_in stop o1 service o2 /\ string_in stop o2 regexp o3 /\
      name_in o3 replacement stop
  | _, _ => False
  end.

(** The records of a type and the class IN among [n] records from [off] on.  Addresses
    are records of which the reader has no values. *)
Inductive rfc_answers (t : dns_rr_type) : nat -> Z -> list rdata -> Prop :=
| rfc_end off : rfc_answers t 0 off []
| rfc_other n off name o type klass len rs :
    name_in off name o -> field 2 o type -> field 2 (o + 2) klass -> field 2 (o + 8) len ->
    o + 10 + len <= zlen packet -> (klass <> 1 \/ type <> type_code t) ->
    rfc_answers t n (o + 10 + len) rs -> rfc_answers t (S n) off rs
| rfc_address n off name o len rs :
    name_in off name o -> field 2 o (type_code t) -> field 2 (o + 2) 1 -> field 2 (o + 8) len ->
    o + 10 + len <= zlen packet -> (t = A /\ len = 4 \/ t = AAAA /\ len = 16) ->
    rfc_answers t n (o + 10 + len) rs -> rfc_answers t (S n) off rs
| rfc_more n off name o len r rs :
    name_in off name o -> field 2 o (type_code t) -> field 2 (o + 2) 1 -> field 2 (o + 8) len ->
    o + 10 + len <= zlen packet -> rfc_rdata t (o + 10) (o + 10 + len) r ->
    rfc_answers t n (o + 10 + len) rs -> rfc_answers t (S n) off (r :: rs).

(** A response of RFC 1035 to the question [id] about a type of a host, without an error:
    the response bit is set, the operation is a query, and the one question is repeated,
    in letters of any case. *)
Definition rfc_response (id : Z) (labels : list bytes) (t : dns_rr_type) (rs : list rdata) : Prop :=
  12 <= zlen packet /\ field 2 0 id /\
  (exists flags, field 2 2 flags /\ 2 ^ 15 <= flags /\ flags / 2 ^ 11 mod 16 = 0 /\ flags mod 16 = 0) /\
  field 2 4 1 /\ exists an jumps asked o, field 2 6 an /\
  (jumps <= 16)%nat /\ name_at jumps 12 asked o /\ ascii_lower <$> asked = ascii_lower <$> labels /\
  field 2 o (type_code t) /\ field 2 (o + 2) 1 /\ rfc_answers t (Z.to_nat an) (o + 4) rs.

End Grammar.

(** * Calls that read exactly what a relation says *)

Definition reads {A} (m : fallible A) (P : A -> Prop) : Prop :=
  exists r, m = Ret r /\ (forall a, r = inr a <-> P a) /\ (forall e, r = inl e -> code e = "EAI_FAIL"%string).

Lemma and_then_assoc {A B C} (m : fallible A) (f : A -> fallible B) (g : B -> fallible C) :
  and_then (and_then m f) g = and_then m (fun a => and_then (f a) g).
Proof. unfold and_then. by destruct m as [[?|?]| | |]. Qed.

Lemma and_then_ext {A B} (m : fallible A) (f g : A -> fallible B) : (forall a, f a = g a) -> and_then m f = and_then m g.
Proof. intros H. unfold and_then. destruct m as [[?|?]| | |]; cbn; auto. Qed.

Lemma reads_and_then {A B} (m : fallible A) (f : A -> fallible B) P Q :
  reads m P -> (forall a, P a -> reads (f a) (Q a)) ->
  reads (and_then m f) (fun b => exists a, P a /\ Q a b).
Proof.
  intros (r & -> & Hr & He) Hf. unfold and_then. cbn [mbind outcome_bind]. destruct r as [e|a].
  - exists (inl e). split; [done|]. split; [|by intros e' [= <-]; apply He].
    intros b. split; [done|]. intros (a & Ha & _). by apply Hr in Ha.
  - assert (Ha : P a) by by apply Hr. destruct (Hf a Ha) as (r' & -> & Hr' & He'). exists r'. split; [done|]. split; [|done].
    intros b. rewrite Hr'. split; [eauto|]. intros (a' & Ha' & Hb). apply Hr in Ha' as [= ->]. done.
Qed.

Lemma reads_iff {A} (m : fallible A) P Q : (forall a, P a <-> Q a) -> reads m P -> reads m Q.
Proof. intros H (r & E & Hr & He). exists r. split; [done|]. split; [|done]. intros a. by rewrite Hr. Qed.

Lemma reads_succeeds {A} (a : A) : reads (succeeds a) (fun b => b = a).
Proof. exists (inr a). split; [done|]. split; [|done]. intros b. naive_solver. Qed.

Lemma reads_fails {A} m (P : A -> Prop) : (forall a, ~ P a) -> reads (fails "EAI_FAIL" m) P.
Proof. intros H. exists (inl {| code := "EAI_FAIL"; message := m |}). split; [done|]. split; [naive_solver|by intros e [= <-]]. Qed.

Lemma reads_guard b m : reads (guard_that b "EAI_FAIL" m) (fun _ => b = true).
Proof. destruct b; [|by apply reads_fails]. eapply reads_iff; [|apply reads_succeeds]. by intros []. Qed.

Lemma reads_lift {A} (m : outcome A) a : m = Ret a -> reads (lift m) (fun b => b = a).
Proof. intros ->. apply reads_succeeds. Qed.

Lemma reads_or_fail {A} (o : outcome (option A)) x m P : o = Ret x -> (forall a, x = Some a <-> P a) ->
  reads (or_fail "EAI_FAIL" m o) P.
Proof.
  intros -> H. unfold or_fail. cbn [mbind outcome_bind]. destruct x as [a|].
  - eapply reads_iff; [|apply reads_succeeds]. intros b. rewrite <- H. naive_solver.
  - apply reads_fails. intros a Ha. by apply H in Ha.
Qed.

(** * Numbers *)

Lemma zsub_cons (l : bytes) off n a : at_ l off = Ret a -> 0 < n -> zsub off n l = a :: zsub (off + 1) (n - 1) l.
Proof.
  intros [Ho Ha]%at_inv Hn. unfold zsub, ztake, zdrop. rewrite (drop_S _ _ _ Ha).
  replace (Z.to_nat n) with (S (Z.to_nat (n - 1))) by lia. replace (Z.to_nat (off + 1)) with (S (Z.to_nat off)) by lia. done.
Qed.

Lemma at_byte l i x : is_bytes l -> at_ l i = Ret x -> 0 <= x < 256.
Proof. intros Hl [_ H]%at_inv. exact (proj1 (Forall_lookup is_byte l) Hl _ _ H). Qed.

Lemma read_u16_field p off : is_bytes p -> 0 <= off -> off + 2 <= zlen p ->
  dns_read_u16 p off = Ret (be_value (zsub off 2 p)).
Proof.
  intros Hp Ho Hl. destruct (at_in_range p off ltac:(lia)) as (a & Ea & _).
  destruct (at_in_range p (off + 1) ltac:(lia)) as (b & Eb & _).
  unfold dns_read_u16. rewrite Ea. cbn [mbind outcome_bind]. rewrite Eb. cbn [mbind outcome_bind].
  rewrite (zsub_cons _ _ _ a), (zsub_cons _ _ _ b) by (done || lia). replace (2 - 1 - 1) with 0 by lia. rewrite zsub_0.
  apply (at_byte _ _ _ Hp) in Ea, Eb. unfold be_acc. cbn [foldl]. rewrite !lor_shiftl by lia.
  rewrite wrap_small by lia. f_equal; lia.
Qed.

Lemma read_u32_field p off : is_bytes p -> 0 <= off -> off + 4 <= zlen p ->
  dns_read_u32 p off = Ret (be_value (zsub off 4 p)).
Proof.
  intros Hp Ho Hl. destruct (at_in_range p off ltac:(lia)) as (a & Ea & _).
  destruct (at_in_range p (off + 1) ltac:(lia)) as (b & Eb & _).
  destruct (at_in_range p (off + 2) ltac:(lia)) as (c & Ec & _).
  destruct (at_in_range p (off + 3) ltac:(lia)) as (d & Ed & _).
  unfold dns_read_u32. rewrite Ea. cbn [mbind outcome_bind]. rewrite Eb. cbn [mbind outcome_bind].
  rewrite Ec. cbn [mbind outcome_bind]. rewrite Ed. cbn [mbind outcome_bind].
  rewrite (zsub_cons _ _ _ a), (zsub_cons _ _ _ b) by (done || lia).
  replace (off + 1 + 1) with (off + 2) by lia. rewrite (zsub_cons _ _ _ c) by (done || lia).
  replace (off + 2 + 1) with (off + 3) by lia. rewrite (zsub_cons _ _ _ d) by (done || lia).
  replace (4 - 1 - 1 - 1 - 1) with 0 by lia. rewrite zsub_0.
  apply (at_byte _ _ _ Hp) in Ea, Eb, Ec, Ed. unfold be_acc. cbn [foldl].
  rewrite (lor_shiftl 8 0 a) by lia. rewrite (lor_shiftl 8 _ b), (lor_shiftl 8 _ c), (lor_shiftl 8 _ d) by lia.
  rewrite !Z.shiftl_mul_pow2 by lia.
  rewrite (lor_mul 24 a (b * 2 ^ 16)) by lia.
  replace (a * 2 ^ 24 + b * 2 ^ 16) with ((a * 2 ^ 8 + b) * 2 ^ 16) by lia. rewrite (lor_mul 16) by lia.
  replace ((a * 2 ^ 8 + b) * 2 ^ 16 + c * 2 ^ 8) with ((a * 2 ^ 16 + b * 2 ^ 8 + c) * 2 ^ 8) by lia. rewrite (lor_mul 8) by lia.
  rewrite wrap_small by lia. f_equal; lia.
Qed.

Lemma reads_u16 p off : is_bytes p -> 0 <= off -> off + 2 <= zlen p -> reads (lift (dns_read_u16 p off)) (field p 2 off).
Proof.
  intros Hp Ho Hl. eapply reads_iff; [|apply reads_lift, read_u16_field; done]. intros v. unfold field. naive_solver.
Qed.

Lemma reads_u32 p off : is_bytes p -> 0 <= off -> off + 4 <= zlen p -> reads (lift (dns_read_u32 p off)) (field p 4 off).
Proof.
  intros Hp Ho Hl. eapply reads_iff; [|apply reads_lift, read_u32_field; done]. intros v. unfold field. naive_solver.
Qed.

Lemma field_bound p k off v : is_bytes p -> 0 <= k -> field p k off v -> 0 <= v < 2 ^ (8 * k).
Proof.
  intros Hp Hk (Ho & Hl & ->). pose proof (be_value_bound (zsub off k p) ltac:(auto with fxe)) as B.
  by rewrite zlen_zsub in B by lia.
Qed.

(** * Names *)

Lemma first_byte_kinds len : 0 <= len < 256 ->
  (Z.land len 192 =? 192) = (192 <=? len) /\ (Z.land len 192 =? 0) = (len <? 64) /\ Z.land len 63 = len mod 64.
Proof.
  intros H. split; [|split; [|exact (land_ones_mod len 6 ltac:(lia))]]; revert len H; mask_by 256.
Qed.

(** Two runs of labels with the dot between them. *)
Definition glue (a b : bytes) : bytes :=
  if bool_decide (a = []) then b else if bool_decide (b = []) then a else a ++ chr "." :: b.

Lemma join_nil labels : Forall (fun l => l <> []) labels -> join_with (chr ".") labels = [] -> labels = [].
Proof. intros H. destruct H as [|l ls Hl _]; [done|]. destruct l as [|c l]; [done|]. by destruct ls. Qed.

Lemma glue_label out label labels : label <> [] -> Forall (fun l => l <> []) labels ->
  glue ((if bool_decide (out = []) then out else out ++ [chr "."]) ++ label) (join_with (chr ".") labels)
  = glue out (join_with (chr ".") (label :: labels)).
Proof.
  intros Hl Hn. assert (J : join_with (chr ".") labels = [] <-> labels = []).
  { split; [by apply join_nil|by intros ->]. }
  assert (J2 : join_with (chr ".") (label :: labels) =
    match labels with [] => label | _ => label ++ chr "." :: join_with (chr ".") labels end) by by destruct labels.
  assert (N : forall a, a ++ label <> []) by (intros a [_ ?]%app_nil; done).
  rewrite J2. unfold glue. rewrite (bool_decide_eq_false_2 (_ ++ label = [])) by apply N. destruct labels as [|l ls].
  - cbn [join_with]. rewrite (bool_decide_eq_true_2 (([] : bytes) = []) eq_refl), (bool_decide_eq_false_2 (label = [])) by done.
    case_bool_decide as E; [by rewrite E|]. by rewrite <- app_assoc.
  - rewrite (bool_decide_eq_false_2 (join_with _ (l :: ls) = [])) by (rewrite J; done).
    rewrite (bool_decide_eq_false_2 (label ++ _ = [])) by (by intros [? _]%app_nil).
    case_bool_decide as E; [by rewrite E|]. by rewrite <- !app_assoc.
Qed.

Lemma name_at_nonempty p jumps off labels next : name_at p jumps off labels next -> Forall (fun l => l <> []) labels.
Proof.
  induction 1 as [|jumps off len labels next Ha Hl Hb Hn IH|]; [constructor| |done].
  constructor; [|done]. intros E. pose proof (zlen_zsub (off + 1) len p) as L. rewrite E in L. apply at_inv in Ha. cbn in L. lia.
Qed.

Lemma name_at_next p jumps off labels next : name_at p jumps off labels next -> 0 <= off < next /\ next <= zlen p.
Proof.
  induction 1 as [off Ha|jumps off len labels next Ha Hl Hb Hn IH|jumps off hi lo labels next Ha Hh Hb Hn IH];
    apply at_inv in Ha; [lia|lia|]. apply at_inv in Hb. lia.
Qed.

Lemma name_at_root p jumps off labels next : at_ p off = Ret 0 -> name_at p jumps off labels next ->
  jumps = 0%nat /\ labels = [] /\ next = off + 1.
Proof. intros E. inversion 1 as [|? ? ? ? ? E' ?|? ? ? ? ? ? E' ?]; subst; [done| |]; rewrite E in E'; injection E'; lia. Qed.

Lemma name_at_label p jumps off len labels next : at_ p off = Ret len -> 0 < len < 64 -> name_at p jumps off labels next ->
  exists rest, labels = zsub (off + 1) len p :: rest /\ off + 1 + len <= zlen p /\ name_at p jumps (off + 1 + len) rest next.
Proof.
  intros E Hl. inversion 1 as [? E'|? ? len' ? ? E' ?|? ? ? ? ? ? E' ?]; subst; rewrite E in E'; injection E'; intros; subst; [lia|eauto|lia].
Qed.

Lemma name_at_pointer p jumps off hi labels next : at_ p off = Ret hi -> 192 <= hi -> name_at p jumps off labels next ->
  exists jumps' lo next', jumps = S jumps' /\ at_ p (off + 1) = Ret lo /\ next = off + 2 /\
  name_at p jumps' ((hi - 192) * 256 + lo) labels next'.
Proof.
  intros E Hl. inversion 1 as [? E'|? ? len' ? ? E' ?|? ? ? ? ? ? E' ?]; subst; rewrite E in E'; injection E'; intros; subst; [lia|lia|eauto 8].
Qed.

Lemma name_at_first p jumps off len labels next : at_ p off = Ret len -> name_at p jumps off labels next -> len < 64 \/ 192 <= len.
Proof. intros E. inversion 1 as [? E'|? ? len' ? ? E' ?|? ? ? ? ? ? E' ?]; subst; rewrite E in E'; injection E'; lia. Qed.

(** What a call for a name at [ptr] answers when it follows fewer than [bound] pointers. *)
Definition expands (data : bytes) (bound : nat) (ptr : Z) (m : outcome (option (Z * bytes))) : Prop :=
  exists r, m = Ret r /\ forall next s, r = Some (next, s) <->
  exists jumps labels, (jumps < bound)%nat /\ name_at data jumps ptr labels next /\ s = join_with (chr ".") labels.

Lemma glue_nil_r a : glue a [] = a.
Proof. unfold glue. case_bool_decide; [by subst|]. by rewrite bool_decide_eq_true_2 by done. Qed.

Lemma expand_labels_expands bound nested data offset : is_bytes data ->
  (forall ptr, 0 <= ptr -> expands data bound ptr (nested ptr)) ->
  forall fuel pos out, 0 <= pos -> Z.max 0 (zlen data - pos) < Z.of_nat fuel ->
  exists r, expand_labels nested fuel data offset pos out = Ret r /\ forall c o, r = Some (c, o) <->
  exists jumps labels next, (jumps < S bound)%nat /\ name_at data jumps pos labels next /\
  c = next - offset /\ o = glue out (join_with (chr ".") labels).
Proof.
  intros Hd Hn. induction fuel as [|fuel IH]; intros pos out Hp Hf; [lia|]. cbn [expand_labels].
  destruct (Z.leb_spec (zlen data) pos) as [Hs|Hs].
  { exists None. split; [done|]. intros c o. split; [done|]. intros (j & ls & nx & _ & H & _). apply name_at_next in H. 
    destruct (zlen data); lia. }
  destruct (at_in_range data pos ltac:(lia)) as (len & El & _). rewrite El. cbn [mbind outcome_bind].
  pose proof (at_byte _ _ _ Hd El) as Hb. destruct (first_byte_kinds len Hb) as (K1 & K2 & K3). rewrite K1, K2, K3.
  destruct (Z.leb_spec 192 len) as [H192|H192].
  - (* a pointer *)
    destruct (Z.leb_spec (zlen data) (pos + 1)) as [Hs1|Hs1].
    { exists None. split; [done|]. intros c o. split; [done|]. intros (j & ls & nx & _ & H & _).
      destruct (name_at_pointer _ _ _ _ _ _ El H192 H) as (? & lo & ? & _ & E & _). apply at_inv in E. lia. }
    destruct (at_in_range data (pos + 1) ltac:(lia)) as (lo & Elo & _). rewrite Elo. cbn [mbind outcome_bind].
    pose proof (at_byte _ _ _ Hd Elo) as Hlo. rewrite lor_shiftl by dlia.
    replace (len mod 64 * 2 ^ 8 + lo) with ((len - 192) * 256 + lo) by dlia.
    destruct (Hn ((len - 192) * 256 + lo) ltac:(lia)) as (r & -> & Hr). cbn [mbind outcome_bind].
    assert (G : forall c o, (exists jumps labels next, (jumps < S bound)%nat /\ name_at data jumps pos labels next /\
        c = next - offset /\ o = glue out (join_with (chr ".") labels)) <->
      exists nx s, r = Some (nx, s) /\ c = pos + 2 - offset /\ o = glue out s).
    { intros c o. split.
      - intros (j & ls & nx & Hj & H & -> & ->). destruct (name_at_pointer _ _ _ _ _ _ El H192 H) as (j' & lo' & nx' & -> & E & -> & H').
        rewrite Elo in E. injection E as <-. exists nx', (join_with (chr ".") ls). split; [|done]. apply Hr. exists j', ls. split; [lia|done].
      - intros (nx & s & E & -> & ->). apply Hr in E as (j & ls & Hj & H & ->). exists (S j), ls, (pos + 2). split; [lia|]. split; [|done].
        by eapply name_pointer. }
    destruct r as [[nx s]|]; [|exists None; split; [done|]; intros c o; rewrite G; naive_solver].
    eexists. split; [reflexivity|]. intros c o. rewrite G. replace (pos + 1 + 1 - offset) with (pos + 2 - offset) by lia.
    assert (E : (if negb (bool_decide (out = [])) && negb (bool_decide (s = [])) then out ++ [chr "."] else out) ++ s = glue out s).
    { unfold glue. repeat case_bool_decide; subst; cbn [negb andb]; rewrite ?app_nil_r; try done. by rewrite <- app_assoc. }
    rewrite E. naive_solver.
  - destruct (Z.ltb_spec len 64) as [H64|H64]; cbn [negb].
    2:{ exists None. split; [done|]. intros c o. split; [done|]. intros (j & ls & nx & _ & H & _). 
        destruct (name_at_first _ _ _ _ _ _ El H); lia. }
    destruct (Z.eqb_spec len 0) as [->|H0].
    + eexists. split; [reflexivity|]. intros c o. split.
      * intros [= <- <-]. exists 0%nat, [], (pos + 1). split; [lia|]. split; [by apply name_root|]. split; [lia|]. cbn [join_with]. by rewrite glue_nil_r.
      * intros (j & ls & nx & _ & H & -> & ->). destruct (name_at_root _ _ _ _ _ El H) as (-> & -> & ->). cbn [join_with]. by rewrite glue_nil_r.
    + destruct (Z.ltb_spec (zlen data) (pos + 1 + len)) as [Hs1|Hs1].
      { exists None. split; [done|]. intros c o. split; [done|]. intros (j & ls & nx & _ & H & _).
        destruct (name_at_label _ _ _ _ _ _ El ltac:(lia) H) as (? & _ & ? & _). lia. }
      rewrite sub_Ret by lia. cbn [mbind outcome_bind].
      edestruct (IH (pos + 1 + len)) as (r & Er & Hr); [lia|lia|]. rewrite Er. exists r. split; [done|]. intros c o. rewrite Hr.
      assert (Hz : zsub (pos + 1) len data <> []).
      { intros E. pose proof (zlen_zsub (pos + 1) len data) as L. rewrite E in L. cbn in L. lia. }
      split.
      * intros (j & ls & nx & Hj & H & -> & ->). exists j, (zsub (pos + 1) len data :: ls), nx. split; [done|].
        split; [by apply name_label; [done|lia|lia|]|]. split; [done|]. apply glue_label; [done|by eapply name_at_nonempty].
      * intros (j & ls & nx & Hj & H & -> & ->). destruct (name_at_label _ _ _ _ _ _ El ltac:(lia) H) as (rest & -> & _ & H').
        exists j, rest, nx. split; [done|]. split; [done|]. split; [done|]. symmetry. apply glue_label; [done|by eapply name_at_nonempty].
Qed.

Lemma expand_name_expands data : is_bytes data -> forall left offset, 0 <= offset ->
  expands data left offset (dns_expand_name left data offset).
Proof.
  intros Hd. induction left as [|left IH]; intros offset Ho; cbn [dns_expand_name].
  { exists None. split; [done|]. intros. split; [done|]. intros (? & ? & ? & _). lia. }
  destruct (expand_labels_expands left (dns_expand_name left data) data offset Hd IH (S (length data)) offset [] Ho ltac:(lia)) as (r & -> & Hr).
  cbn [mbind outcome_bind]. eexists. split; [reflexivity|]. intros next s. destruct r as [[c o]|].
  - split.
    + intros [= <- <-]. destruct (proj1 (Hr c o) eq_refl) as (j & ls & nx & Hj & H & -> & ->). exists j, ls.
      replace (offset + (nx - offset)) with nx by lia. done.
    + intros (j & ls & Hj & H & ->). assert (E : Some (c, o) = Some (next - offset, join_with (chr ".") ls)).
      { apply Hr. exists j, ls, next. done. }
      injection E as -> ->. do 2 f_equal. lia.
  - split; [done|]. intros (j & ls & Hj & H & ->). assert (E : None = Some (next - offset, join_with (chr ".") ls)); [|done].
    apply Hr. exists j, ls, next. done.
Qed.

Lemma reads_expand p pos m : is_bytes p -> 0 <= pos -> reads (expand p pos m) (fun x => name_in p pos x.2 x.1).
Proof.
  intros Hp Ho. destruct (expand_name_expands p Hp max_depth pos Ho) as (r & E & Hr). eapply reads_or_fail; [exact E|].
  intros [next s]. rewrite Hr. cbn. split; intros (j & ls & Hj & H); exists j, ls; (split; [lia|done]).
Qed.

Lemma name_in_next p pos name next : name_in p pos name next -> 0 <= pos < next /\ next <= zlen p.
Proof. intros (j & ls & _ & H & _). by apply name_at_next in H. Qed.

(** * Records *)

Lemma reads_and_then_pair {A B C} (m : fallible (A * B)) (f : A * B -> fallible C) (P : A -> B -> Prop) Q :
  reads m (fun x => P x.1 x.2) -> (forall a b, P a b -> reads (f (a, b)) (Q a b)) ->
  reads (and_then m f) (fun c => exists a b, P a b /\ Q a b c).
Proof.
  intros Hm Hf. eapply reads_iff; [|eapply (reads_and_then _ _ _ (fun x => Q x.1 x.2) Hm)].
  - intros c. split; [intros ([a b] & ? & ?); eauto|intros (a & b & ? & ?); exists (a, b); done].
  - intros [a b]. apply Hf.
Qed.

Lemma reads_guard_le a b m : reads (guard_that (a <=? b) "EAI_FAIL" m) (fun _ => a <= b).
Proof. eapply reads_iff; [intros ?; apply Z.leb_le|apply reads_guard]. Qed.

Lemma reads_guard_then {C} a b m (f : unit -> fallible C) Q : (a <= b -> reads (f tt) Q) ->
  reads (and_then (guard_that (a <=? b) "EAI_FAIL" m) f) (fun c => a <= b /\ Q c).
Proof.
  intros Hf. eapply reads_iff; [|apply (reads_and_then _ _ (fun _ => a <= b) (fun _ => Q) (reads_guard_le a b m))].
  - intros c. split; [intros (_ & ? & ?); done|intros [? ?]; by exists tt].
  - intros []. exact Hf.
Qed.

Lemma reads_u16_then {C} p off (f : Z -> fallible C) Q : is_bytes p -> 0 <= off -> off + 2 <= zlen p ->
  (forall v, field p 2 off v -> reads (f v) (Q v)) ->
  reads (and_then (lift (dns_read_u16 p off)) f) (fun c => exists v, field p 2 off v /\ Q v c).
Proof. intros Hp Ho Hl. by apply reads_and_then, reads_u16. Qed.

Lemma reads_u32_then {C} p off (f : Z -> fallible C) Q : is_bytes p -> 0 <= off -> off + 4 <= zlen p ->
  (forall v, field p 4 off v -> reads (f v) (Q v)) ->
  reads (and_then (lift (dns_read_u32 p off)) f) (fun c => exists v, field p 4 off v /\ Q v c).
Proof. intros Hp Ho Hl. by apply reads_and_then, reads_u32. Qed.

Lemma reads_at_then {C} p off (f : Z -> fallible C) Q : is_bytes p -> 0 <= off < zlen p ->
  (forall v, at_ p off = Ret v -> 0 <= v -> reads (f v) (Q v)) ->
  reads (and_then (lift (at_ p off)) f) (fun c => exists v, at_ p off = Ret v /\ Q v c).
Proof.
  intros Hp Ho Hf. destruct (at_in_range p off Ho) as (v & E & _).
  eapply (reads_and_then _ _ (fun v => at_ p off = Ret v)).
  - eapply reads_iff; [|apply (reads_lift _ _ E)]. intros w. rewrite E. naive_solver.
  - intros w Ew. apply Hf; [done|]. apply (at_byte _ _ _ Hp) in Ew. lia.
Qed.

Lemma reads_sub_then {C} (p : bytes) off n (f : bytes -> fallible C) Q : 0 <= off -> 0 <= n -> off + n <= zlen p ->
  reads (f (zsub off n p)) Q -> reads (and_then (lift (sub_ p off n)) f) Q.
Proof. intros ? ? ? Hf. rewrite sub_Ret by done. exact Hf. Qed.

Lemma parse_string_reads p stop pos m : is_bytes p -> 0 <= pos -> stop <= zlen p ->
  reads (or_fail "EAI_FAIL" m (dns_parse_character_string p pos stop)) (fun x => pos < stop /\ string_in p stop pos x.2 x.1).
Proof.
  intros Hp Ho Hs. unfold dns_parse_character_string. destruct (Z.leb_spec stop pos).
  { eapply reads_or_fail; [reflexivity|]. intros a. split; [done|]. intros [? _]. lia. }
  destruct (at_in_range p pos ltac:(lia)) as (len & El & _). pose proof (at_byte _ _ _ Hp El). rewrite El. cbn [mbind outcome_bind].
  destruct (Z.ltb_spec stop (pos + 1 + len)).
  { eapply reads_or_fail; [reflexivity|]. intros a. split; [done|]. intros (_ & len' & E & ? & _). rewrite El in E. injection E as <-. lia. }
  rewrite sub_Ret by lia. eapply reads_or_fail; [reflexivity|]. intros [nx s]. cbn [fst snd]. split.
  - intros [= <- <-]. split; [done|]. exists len. done.
  - intros (_ & len' & E & _ & -> & ->). rewrite El in E. by injection E as <-.
Qed.

Lemma reads_expand_then {C} p pos m (f : Z * bytes -> fallible C) Q : is_bytes p -> 0 <= pos ->
  (forall next s, name_in p pos s next -> reads (f (next, s)) (Q next s)) ->
  reads (and_then (expand p pos m) f) (fun c => exists next s, name_in p pos s next /\ Q next s c).
Proof. intros Hp Ho Hf. exact (reads_and_then_pair _ _ (fun next s => name_in p pos s next) Q (reads_expand p pos m Hp Ho) Hf). Qed.

Lemma reads_string_then {C} p stop pos m (f : Z * bytes -> fallible C) Q : is_bytes p -> 0 <= pos -> stop <= zlen p ->
  (forall next s, string_in p stop pos s next -> reads (f (next, s)) (Q next s)) ->
  reads (and_then (or_fail "EAI_FAIL" m (dns_parse_character_string p pos stop)) f)
    (fun c => exists next s, (pos < stop /\ string_in p stop pos s next) /\ Q next s c).
Proof.
  intros Hp Ho Hs Hf. refine (reads_and_then_pair _ _ (fun next s => pos < stop /\ string_in p stop pos s next) Q _ _).
  - by apply parse_string_reads.
  - intros next s [_ H]. by apply Hf.
Qed.

Lemma string_in_next p stop pos s next : is_bytes p -> string_in p stop pos s next -> pos < next <= stop.
Proof. intros Hp (len & E & ? & _ & ->). pose proof (at_byte _ _ _ Hp E). lia. Qed.

Lemma txt_chunks_reads p stop : is_bytes p -> stop <= zlen p -> forall fuel pos, 0 <= pos -> Z.max 0 (stop - pos) < Z.of_nat fuel ->
  reads (txt_chunks fuel p pos stop) (strings_in p stop pos).
Proof.
  intros Hp Hs. induction fuel as [|fuel IH]; intros pos Ho Hf; [lia|]. cbn [txt_chunks].
  destruct (Z.ltb_spec pos stop) as [H|H].
  - eapply reads_iff; cycle 1.
    { eapply (reads_string_then p stop pos); [done|done|done|]. intros nx s (? & ?)%string_in_next; [|done].
      eapply reads_and_then; [apply IH; lia|]. intros l ?. apply reads_succeeds. }
    intros l. split.
    + intros (nx & s & (? & ?) & l' & ? & ->). by eapply strings_more.
    + inversion 1; subst; [lia|]. eauto 8.
  - eapply reads_iff; [|apply reads_succeeds]. intros l. split; [intros ->; by constructor|]. inversion 1; [done|lia].
Qed.

Ltac read_step :=
  cbv beta iota zeta;
  match goal with
  | |- reads (and_then (guard_that _ _ _) _) _ => eapply reads_guard_then; intros ?
  | |- reads (and_then (expand _ _ _) _) _ =>
      eapply reads_expand_then; [done|lia|]; intros ? ? Hn; pose proof (name_in_next _ _ _ _ Hn); revert Hn; intros _
  | |- reads (and_then (or_fail _ _ (dns_parse_character_string _ _ _)) _) _ =>
      eapply reads_string_then; [done|lia|lia|]; intros ? ? ?%string_in_next; [|done]
  | |- reads (and_then (lift (dns_read_u16 _ _)) _) _ => eapply reads_u16_then; [done|lia|lia|]; intros ? ?
  | |- reads (and_then (lift (dns_read_u32 _ _)) _) _ => eapply reads_u32_then; [done|lia|lia|]; intros ? ?
  | |- reads (and_then (lift (at_ _ _)) _) _ => eapply reads_at_then; [done|lia|]; intros ? ? ?
  | |- reads (and_then (lift (sub_ _ _ _)) _) _ => eapply reads_sub_then; [lia|lia|lia|]
  | |- reads (succeeds _) _ => apply reads_succeeds
  end.

Ltac supply :=
  repeat match goal with |- ex _ => eexists | |- _ /\ _ => split end; first [eassumption|lia|done|by subst].
Ltac unpack :=
  repeat match goal with
  | H : ex _ |- _ => destruct H
  | H : _ /\ _ |- _ => destruct H
  | H : False |- _ => destruct H
  end;
  try match goal with H : @eq rdata _ _ |- _ => first [discriminate H|injection H; clear H; intros; subst] end.
Ltac settle := split; intros; unpack; supply.

Lemma parse_mx_reads p pos stop : is_bytes p -> 0 <= pos -> stop <= zlen p -> reads (parse_mx p pos stop) (rdata_in p MX pos stop).
Proof. intros Hp Ho Hs. eapply reads_iff; [|unfold parse_mx; repeat read_step]. intros []; cbn [rdata_in]; settle. Qed.

Lemma parse_srv_reads p pos stop : is_bytes p -> 0 <= pos -> stop <= zlen p -> reads (parse_srv p pos stop) (rdata_in p SRV pos stop).
Proof. intros Hp Ho Hs. eapply reads_iff; [|unfold parse_srv; repeat read_step]. intros []; cbn [rdata_in]; settle. Qed.

Lemma parse_caa_reads p pos stop : is_bytes p -> 0 <= pos -> stop <= zlen p -> reads (parse_caa p pos stop) (rdata_in p CAA pos stop).
Proof.
  intros Hp Ho Hs. eapply reads_iff; [|unfold parse_caa; cbv zeta; repeat read_step]. fold caa_object. intros r. split.
  - intros (? & critical & Ec & len & El & ? & ->). cbn [rdata_in caa_object]. split; [done|]. by exists critical, len.
  - intros H. destruct r; cbn [rdata_in] in H; try done. destruct H as (? & critical & len & Ec & El & ? & ->). supply.
Qed.

Lemma parse_soa_reads p pos stop : is_bytes p -> 0 <= pos -> stop <= zlen p -> reads (parse_soa p pos stop) (rdata_in p SOA pos stop).
Proof. intros Hp Ho Hs. eapply reads_iff; [|unfold parse_soa; repeat read_step]. intros []; cbn [rdata_in]; settle. Qed.

Lemma parse_naptr_reads p pos stop : is_bytes p -> 0 <= pos -> stop <= zlen p -> reads (parse_naptr p pos stop) (rdata_in p NAPTR pos stop).
Proof.
  intros Hp Ho Hs. eapply reads_iff; [|unfold parse_naptr; cbv zeta; repeat read_step].
  intros []; cbn [rdata_in]; [settle..|]. split; [intros; unpack; supply|].
  intros (? & ? & ? & o1 & o2 & o3 & nx & S1 & S2 & S3 & Hn).
  pose proof (string_in_next _ _ _ _ _ Hp S1). pose proof (string_in_next _ _ _ _ _ Hp S2). pose proof (string_in_next _ _ _ _ _ Hp S3).
  supply.
Qed.

Lemma parse_rdata_reads p t pos stop : is_bytes p -> 0 <= pos -> stop <= zlen p ->
  reads (parse_rdata p t pos stop) (fun o => if readable t then exists r, o = Some r /\ rdata_in p t pos stop r else o = None).
Proof.
  intros Hp Ho Hs.
  assert (M : forall m : fallible rdata, reads m (rdata_in p t pos stop) ->
    reads (and_then m (fun r => succeeds (Some r))) (fun o => exists r, o = Some r /\ rdata_in p t pos stop r)).
  { intros m Hm. eapply reads_iff; [|eapply reads_and_then; [exact Hm|intros; apply reads_succeeds]]. naive_solver. }
  assert (N : forall n, (forall r, rdata_in p t pos stop r <-> exists nm, r = Name nm /\ exists nx, name_in p pos nm nx) ->
    reads (and_then (expand p pos n) (fun '(_, name) => succeeds (Some (Name name)))) (fun o => exists r, o = Some r /\ rdata_in p t pos stop r)).
  { intros n Hr. eapply reads_iff; [|repeat read_step]. intros o. setoid_rewrite Hr. naive_solver. }
  destruct t; cbn [parse_rdata readable];
    try (apply M; first [by apply parse_mx_reads|by apply parse_soa_reads|by apply parse_srv_reads|by apply parse_naptr_reads|by apply parse_caa_reads]);
    try apply reads_succeeds.
  1-3: apply N; intros []; cbn [rdata_in]; naive_solver.
  eapply reads_iff; [|eapply reads_and_then; [apply (txt_chunks_reads p stop Hp Hs (S (length p)) pos Ho); lia|intros; apply reads_succeeds]].
  intros o. split; [intros (l & ? & ->); exists (Txt l); done|]. intros (r & -> & Hr). destruct r; cbn [rdata_in] in Hr; try done. eauto.
Qed.

(** * Responses *)

Lemma skip_questions_reads p : is_bytes p -> forall n off, 0 <= off -> reads (skip_questions n p off) (questions_in p n off).
Proof.
  intros Hp. induction n as [|n IH]; intros off Ho; cbn [skip_questions].
  - eapply reads_iff; [|apply reads_succeeds]. intros a. split; [intros ->; constructor|by inversion 1].
  - eapply reads_iff; [|eapply reads_expand_then; [done|done|]; intros o s Hn; eapply reads_guard_then; intros ?].
    2:{ apply IH. apply name_in_next in Hn. lia. }
    intros a. split; [intros (o & s & ? & ? & ?); by eapply questions_more|]. inversion 1; subst. naive_solver.
Qed.

Lemma questions_in_next p n off stop : 0 <= off -> questions_in p n off stop -> 0 <= stop.
Proof. intros Ho. induction 1 as [|n off name o stop Hn Hl Hq IH]; [done|]. apply name_in_next in Hn. apply IH. lia. Qed.

Definition collect (t : dns_rr_type) (rs : list rdata) (f : found) : found := foldl (fun f r => add_record t r f) f rs.

(** The answers from one of a type and class on. *)
Definition answer_at p t n (f : found) (o type klass len : Z) (f' : found) : Prop :=
  exists rs, f' = collect t rs f /\
    ((klass <> 1 \/ type <> type_code t \/ readable t = false) /\ answers_in p t n (o + 10 + len) rs \/
     klass = 1 /\ type = type_code t /\ exists r rs', rs = r :: rs' /\ rdata_in p t (o + 10) (o + 10 + len) r /\
     answers_in p t n (o + 10 + len) rs').

Lemma one_answer_reads p t n o type klass len f : is_bytes p -> 0 <= o -> 0 <= len -> o + 10 + len <= zlen p ->
  (forall off f, 0 <= off -> reads (read_answers n p t off f) (fun f' => exists rs, answers_in p t n off rs /\ f' = collect t rs f)) ->
  reads (if negb (klass =? 1) || negb (type =? type_code t) then read_answers n p t (o + 10 + len) f
         else let! r := parse_rdata p t (o + 10) (o + 10 + len) in
              read_answers n p t (o + 10 + len) (match r with Some r => add_record t r f | None => f end))
    (answer_at p t n f o type klass len).
Proof.
  intros Hp Ho Hlen Hl IH. unfold answer_at. destruct (Z.eqb_spec klass 1) as [->|Hk], (Z.eqb_spec type (type_code t)) as [->|Ht]; cbn [negb orb].
  2-4: eapply reads_iff; [|apply IH; lia]; naive_solver.
  eapply reads_iff; [|eapply reads_and_then; [apply parse_rdata_reads; [done|lia|done]|intros o' _; apply IH; lia]].
  intros f'. destruct (readable t) eqn:Er.
  - split.
    + intros (o' & (r & -> & Hr) & rs & Hrs & ->). exists (r :: rs). split; [done|]. right. split; [done|]. split; [done|]. by exists r, rs.
    + intros (rs & -> & [[[?|[?|?]] _]|(_ & _ & r & rs' & -> & Hr & Hrs)]); [done..|]. exists (Some r). split; [by exists r|]. by exists rs'.
  - assert (N : forall r, ~ rdata_in p t (o + 10) (o + 10 + len) r) by (intros r H; destruct t; try discriminate Er; by destruct r). split.
    + intros (o' & -> & rs & Hrs & ->). exists rs. split; [done|]. left. by split; [auto|].
    + intros (rs & -> & [[_ Hrs]|(_ & _ & r & rs' & -> & Hr & Hrs)]); [|by apply N in Hr]. exists None. split; [done|]. by exists rs.
Qed.

Lemma read_answers_reads p t : is_bytes p -> forall n off f, 0 <= off ->
  reads (read_answers n p t off f) (fun f' => exists rs, answers_in p t n off rs /\ f' = collect t rs f).
Proof.
  intros Hp. induction n as [|n IH]; intros off f Ho; cbn [read_answers].
  { eapply reads_iff; [|apply reads_succeeds]. intros f'. split; [intros ->; exists []; by split; [constructor|]|].
    intros (rs & H & ->). by inversion H. }
  eapply reads_iff; cycle 1.
  { do 5 read_step. match goal with H : field p 2 (_ + 8) _ |- _ => pose proof (field_bound p 2 _ _ Hp ltac:(lia) H) end.
    read_step. apply one_answer_reads; (done || lia). }
  intros f'. unfold answer_at. split.
  - intros (o & s & Hn & _ & type & Ht & klass & Hk & len & Hl & Hb & rs & -> & [[Hs Hrs]|(-> & -> & r & rs' & -> & Hr & Hrs)]).
    + exists rs. split; [|done]. by eapply answers_other.
    + exists (r :: rs'). split; [|done]. by eapply answers_more.
  - intros (rs & H & ->). inversion H as [|? ? ? ? ? ? ? ? Hn ? ? ? ? ? ?|? ? ? ? ? ? ? Hn ? ? ? ? ? ?]; subst;
      (repeat match goal with |- ex _ => eexists | |- _ /\ _ => split end;
      try first [eassumption|lia|done]; [match goal with H : field p 2 (_ + 8) _ |- _ => destruct H as (_ & ? & _) end; lia|first [left; by split|right; eauto 8]]).
Qed.

(** What the callback gets for the records found. *)
Definition shown (t : dns_rr_type) (rs : list rdata) : option answer :=
  if bool_decide (t = SOA) then Single <$> last rs
  else if bool_decide (rs = []) then None else Some (Records rs).

Lemma collect_soa rs f : collect SOA rs f = match rs with [] => f | _ => {| array := array f; index := 1; singleton := last rs |} end.
Proof. revert f. induction rs as [|r rs IH]; intros f; [done|]. unfold collect in *. cbn [foldl]. rewrite IH. by destruct rs. Qed.

Lemma collect_other t rs f : t <> SOA ->
  collect t rs f = {| array := array f ++ rs; index := index f + zlen rs; singleton := singleton f |}.
Proof.
  intros Ht. revert f. induction rs as [|r rs IH]; intros f.
  { unfold collect. cbn. rewrite app_nil_r, Z.add_0_r. by destruct f. }
  assert (E : add_record t r f = {| array := array f ++ [r]; index := index f + 1; singleton := singleton f |}) by by destruct t.
  unfold collect in *. cbn [foldl]. rewrite IH, E. cbn [array index singleton length]. rewrite <- app_assoc. f_equal; lia.
Qed.

(** The packet is read to its end without an access outside it, and understood exactly
    when it is a response in the grammar. *)
Lemma parse_records_reads p t : is_bytes p ->
  exists r, dns_parse_records p t = Ret r /\
  (forall a, r = inr a <-> exists rs, response_in p t rs /\ shown t rs = Some a) /\
  (forall e, r = inl e -> code e = "EAI_FAIL"%string \/ code e = "ENODATA"%string /\ response_in p t []) /\
  (response_in p t [] -> exists e, r = inl e /\ code e = "ENODATA"%string).
Proof.
  intros Hp. unfold dns_parse_records.
  assert (R : reads (let! _ := guard_that (12 <=? zlen p) "EAI_FAIL" "short DNS response" in
    let! qd := lift (dns_read_u16 p 4) in let! an := lift (dns_read_u16 p 6) in
    let! offset := skip_questions (Z.to_nat qd) p 12 in read_answers (Z.to_nat an) p t offset nothing_found)
    (fun f => exists rs, response_in p t rs /\ f = collect t rs nothing_found)).
  { eapply reads_iff; cycle 1.
    { do 3 read_step. eapply reads_and_then; [by apply skip_questions_reads|]. intros o Hq.
      apply read_answers_reads; [done|]. by apply questions_in_next in Hq. }
    intros f. unfold response_in. split; [intros (? & qd & ? & an & ? & o & ? & rs & ? & ->); exists rs; split; [|done]; eauto 10|].
    intros (rs & (? & qd & an & o & ? & ? & ? & ?) & ->). eauto 12. }
  destruct R as (r & Er & Hr & He). set (m := and_then _ _) in Er.
  match goal with |- exists r, ?d = _ /\ _ =>
    assert (E : d = let! f := m in if index f =? 0 then fails "ENODATA" "DNS record type has no data"
      else match t, singleton f with SOA, Some r => succeeds (Single r) | _, _ => succeeds (Records (array f)) end) end.
  { unfold m. do 4 (rewrite and_then_assoc; apply and_then_ext; intros ?). done. }
  rewrite E, Er. unfold and_then. cbn [mbind outcome_bind]. destruct r as [e|f].
  { assert (N : forall rs, ~ response_in p t rs).
    { intros rs Hrs. assert (inl e = inr (collect t rs nothing_found)); [|done]. apply Hr. by exists rs. }
    eexists. split; [reflexivity|]. split; [|split; [intros e' [= <-]; left; by apply He|by intros ?%N]].
    intros a. split; [done|]. by intros (rs & ?%N & _). }
  destruct (proj1 (Hr f) eq_refl) as (rs & Hrs & ->).
  assert (U : forall rs', response_in p t rs' -> collect t rs' nothing_found = collect t rs nothing_found).
  { intros rs' H. assert (E' : inr (collect t rs nothing_found) = inr (collect t rs' nothing_found) :> error + found); [|by injection E'].
    apply Hr. by exists rs'. }
  destruct (decide (t = SOA)) as [->|Ht].
  - rewrite collect_soa. destruct rs as [|r rs].
    + eexists. split; [reflexivity|]. split; [|split; [intros e [= <-]; by right|intros _; by eexists]]. intros a. split; [done|]. intros (rs' & H & Hs).
      specialize (U rs' H). rewrite !collect_soa in U. destruct rs'; [done|]. cbn in U. done.
    + destruct (last_is_Some (r :: rs)) as [_ [x Ex]]; [done|]. rewrite Ex. cbn [singleton index].
      exists (inr (Single x)). split; [done|]. split; [|split; [done|intros H; specialize (U [] H); by rewrite !collect_soa in U]]. intros a. split.
      * intros [= <-]. exists (r :: rs). split; [done|]. unfold shown. by rewrite bool_decide_eq_true_2, Ex.
      * intros (rs' & H & Hs). specialize (U rs' H). rewrite !collect_soa in U. destruct rs' as [|r' rs']; [done|].
        unfold shown in Hs. rewrite bool_decide_eq_true_2 in Hs by done. apply fmap_Some in Hs as (y & Ey & ->).
        rewrite Ey, Ex in U. by injection U as ->.
  - rewrite collect_other by done. destruct rs as [|r rs].
    + eexists. split; [reflexivity|]. split; [|split; [intros e [= <-]; by right|intros _; by eexists]]. intros a. split; [done|]. intros (rs' & H & Hs).
      specialize (U rs' H). rewrite !collect_other in U by done.
      destruct rs'; [unfold shown in Hs; by rewrite bool_decide_eq_false_2 in Hs by done|by apply (f_equal array) in U].
    + destruct (Z.eqb_spec (index {| array := array nothing_found ++ r :: rs; index := index nothing_found + zlen (r :: rs);
        singleton := singleton nothing_found |}) 0) as [C|_]; [cbn in C; lia|].
      exists (inr (Records (r :: rs))). split; [by destruct t|].
      split; [|split; [done|intros H; specialize (U [] H); rewrite !collect_other in U by done; by apply (f_equal array) in U]]. intros a. split.
      * intros [= <-]. exists (r :: rs). split; [done|]. unfold shown. by rewrite !bool_decide_eq_false_2.
      * intros (rs' & H & Hs). specialize (U rs' H). rewrite !collect_other in U by done. injection U as U _. cbn in U. subst rs'.
        unfold shown in Hs. rewrite !bool_decide_eq_false_2 in Hs by done. by injection Hs as <-.
Qed.

(** * Proper responses *)

Lemma c_str_plain s : forallb letter_or_digit s = true -> c_str s = s.
Proof.
  unfold c_str, upto. induction s as [|c s IH]; [done|]. cbn [forallb take_while]. intros [Hc Hs]%andb_true_iff.
  destruct (Z.eqb_spec c 0) as [->|]; [done|]. cbn [negb]. by rewrite IH.
Qed.

Lemma caa_object_plain flags tag value : forallb letter_or_digit tag = true -> tag <> str "critical" ->
  caa_object flags tag value = Caa [(str "critical", Number flags); (tag, Text value)].
Proof.
  intros Hp Hc. unfold caa_object. rewrite c_str_plain by done. unfold set_prop at 2. rewrite bool_decide_eq_false_2 by done.
  unfold set_prop. rewrite bool_decide_eq_false_2 by by intros ->. cbn [update_name]. by rewrite bool_decide_eq_false_2.
Qed.

Lemma rfc_rdata_in p t pos stop r : is_bytes p -> rfc_rdata p t pos stop r -> readable t = true /\ rdata_in p t pos stop r.
Proof.
  intros Hp. assert (E : readable t = true -> rdata_in p t pos stop r -> readable t = true /\ rdata_in p t pos stop r) by done.
  destruct t, r; cbn [rfc_rdata]; try done; intros H; (apply E; [done|]); cbn [rdata_in].
  - by exists stop.
  - by exists stop.
  - destruct H as (o1 & o2 & H1 & H2 & H3 & H4). exists o1, o2. split; [done|]. split; [done|]. split; [lia|done].
  - by exists stop.
  - destruct H as (Hf & Hn). apply name_in_next in Hn as Hb. split; [lia|]. split; [done|]. by exists stop.
  - destruct H as (H1 & H2 & H3 & Hn). apply name_in_next in Hn as Hb. split; [lia|]. split; [done|]. split; [done|]. split; [done|]. by exists stop.
  - destruct H as (H1 & H2 & o1 & o2 & o3 & S1 & S2 & S3 & Hn). apply name_in_next in Hn as Hb.
    pose proof (string_in_next _ _ _ _ _ Hp S1). split; [lia|]. split; [done|]. split; [done|]. by exists o1, o2, o3, stop.
  - destruct H as (flags & tag & value & next & Ef & Ht & Hp' & _ & Hc & -> & ->). pose proof (string_in_next _ _ _ _ _ Hp Ht).
    destruct Ht as (len & El & Hl & -> & ->). split; [lia|]. exists flags, len. replace (pos + 1 + 1) with (pos + 2) in * by lia.
    split; [done|]. split; [done|]. split; [lia|]. symmetry. by apply caa_object_plain.
Qed.

Lemma rfc_answers_in p t n off rs : is_bytes p -> rfc_answers p t n off rs -> answers_in p t n off rs /\ (readable t = false -> rs = []).
Proof.
  intros Hp. induction 1 as [off|n off name o type klass len rs Hn Ht Hk Hl Hb Hne _ [IH1 IH2]|n off name o len rs Hn Ht Hk Hl Hb Ha _ [IH1 IH2]|n off name o len r rs Hn Ht Hk Hl Hb Hr _ [IH1 IH2]].
  - split; [constructor|done].
  - split; [|done]. eapply answers_other; eauto. tauto.
  - assert (Er : readable t = false) by (by destruct Ha as [[-> _]|[-> _]]). split; [|done]. eapply answers_other; eauto.
  - apply rfc_rdata_in in Hr as [Hr1 Hr2]; [|done]. split; [by eapply answers_more|by rewrite Hr1].
Qed.

(** * Queries *)

(** The labels between the dots of a host name; empty ones are skipped. *)
Definition labels_of (name : bytes) : list bytes := filter (fun l => l <> []) (pieces (chr ".") name).
Definition wire (labels : list bytes) : bytes := concat ((fun l => zlen l :: l) <$> labels) ++ [0].
Definition fits (labels : list bytes) : bool := forallb (fun l => zlen l <=? 63) labels.

Lemma labels_cons l s : chr "." ∉ l -> labels_of (l ++ chr "." :: s) = if bool_decide (l = []) then labels_of s else l :: labels_of s.
Proof.
  intros Hl. unfold labels_of. rewrite pieces_cons by done. rewrite filter_cons. case_bool_decide as E.
  - by rewrite decide_False by tauto.
  - by rewrite decide_True.
Qed.

Lemma labels_last l : chr "." ∉ l -> labels_of l = if bool_decide (l = []) then [] else [l].
Proof.
  intros Hl. unfold labels_of, pieces. rewrite pieces_loop_last by done. cbn [app]. rewrite filter_cons, filter_nil. case_bool_decide as E.
  - by rewrite decide_False by tauto.
  - by rewrite decide_True.
Qed.

Lemma encode_labels_wire name : forall fuel start out, 0 <= start -> Z.max 0 (zlen name - start) < Z.of_nat fuel ->
  encode_labels fuel name start out =
  Ret (if fits (labels_of (zdrop start name)) then Some (out ++ wire (labels_of (zdrop start name))) else None).
Proof.
  induction fuel as [|fuel IH]; intros start out Hs Hf; [lia|]. cbn [encode_labels]. destruct (Z.ltb_spec start (zlen name)) as [H|H].
  2:{ unfold zdrop. rewrite drop_ge by lia. done. }
  pose proof (zlen_zdrop start name Hs) as Ln. unfold find_char. set (rest := zdrop start name) in *.
  destruct (index_of (is_char (chr ".")) rest) as [i|] eqn:Ei; cbn [fmap option_fmap option_map from_option]; unfold id.
  - apply index_of_Some in Ei as (l & c & r & Er & -> & Hc & Hl). apply Z.eqb_eq in Hc as ->.
    assert (Hd : chr "." ∉ l) by by apply lacks_char. rewrite Er, labels_cons by done.
    assert (Ed : zdrop (start + zlen l + 1) name = r).
    { replace (start + zlen l + 1) with (start + (zlen l + 1)) by lia. rewrite <- (zdrop_zdrop (zlen l + 1) start) by lia.
      fold rest. rewrite Er. replace (l ++ chr "." :: r) with ((l ++ [chr "."]) ++ r) by by rewrite <- app_assoc.
      rewrite zdrop_app_length; [done|]. rewrite length_app. cbn. lia. }
    rewrite Er in Ln. rewrite length_app in Ln. cbn [length] in Ln.
    replace (start + zlen l - start) with (zlen l) by lia. destruct (Z.eqb_spec (zlen l) 0) as [E0|E0].
    + rewrite IH, Ed by lia. rewrite bool_decide_eq_true_2; [done|]. by apply nil_length_inv; lia.
    + rewrite bool_decide_eq_false_2 by (intros ->; done). cbn [fits forallb]. 
      destruct (Z.ltb_spec 63 (zlen l)) as [H63|H63], (Z.leb_spec (zlen l) 63); try lia; [done|]. cbn [andb].
      rewrite IH, Ed by lia. unfold fits. destruct (forallb _ (labels_of r)); [|done]. do 2 f_equal.
      rewrite u8_small by lia. replace (zsub start (zlen l) name) with l.
      2:{ unfold zsub. fold rest. by rewrite Er, ztake_app_length. }
      unfold wire. cbn [fmap list_fmap concat]. rewrite <- app_assoc. cbn [app]. by rewrite <- app_assoc.
  - rewrite index_of_None in Ei. assert (Hd : chr "." ∉ rest) by by apply lacks_char.
    rewrite labels_last by done. rewrite bool_decide_eq_false_2 by (intros E; rewrite E in Ln; cbn in Ln; lia).
    destruct (Z.eqb_spec (zlen name - start) 0); [lia|]. unfold fits. cbn [forallb]. rewrite andb_true_r.
    replace (zlen name - start) with (zlen rest) by lia.
    destruct (Z.ltb_spec 63 (zlen rest)), (Z.leb_spec (zlen rest) 63); try lia; [done|]. do 2 f_equal.
    rewrite u8_small by lia. unfold zsub. fold rest. unfold ztake. rewrite take_ge by lia.
    unfold wire. cbn [fmap list_fmap concat]. rewrite app_nil_r, <- app_assoc. done.
Qed.

Lemma dns_encode_name_wire name out :
  dns_encode_name name out = Ret (if bool_decide (name <> []) && fits (labels_of name) then Some (out ++ wire (labels_of name)) else None).
Proof.
  destruct name as [|c name]; [done|]. unfold dns_encode_name. rewrite encode_labels_wire by lia.
  rewrite bool_decide_eq_true_2 by done. done.
Qed.

(** What is written is a name of the grammar. *)
Lemma name_at_wire labels : forall pre post, Forall (fun l => l <> []) labels -> fits labels = true ->
  name_at (pre ++ wire labels ++ post) 0 (zlen pre) labels (zlen pre + zlen (wire labels)).
Proof.
  induction labels as [|l labels IH]; intros pre post Hl Hf.
  - unfold wire. cbn. apply name_root. by apply at_app_mid.
  - inversion Hl as [|? ? Hn Hl']; subst. cbn [fits forallb] in Hf. apply andb_true_iff in Hf as [H63%Z.leb_le Hf].
    assert (W : wire (l :: labels) = (zlen l :: l) ++ wire labels) by (unfold wire; cbn [fmap list_fmap concat]; by rewrite <- app_assoc).
    rewrite W. specialize (IH (pre ++ zlen l :: l) post Hl' Hf).
    replace (pre ++ ((zlen l :: l) ++ wire labels) ++ post) with ((pre ++ zlen l :: l) ++ wire labels ++ post) by (by rewrite <- !app_assoc).
    assert (Lp : zlen (pre ++ zlen l :: l) = zlen pre + 1 + zlen l) by (rewrite length_app; cbn [length]; lia).
    rewrite Lp in IH. assert (0 < zlen l) by (destruct l; [done|cbn; lia]).
    assert (E : zsub (zlen pre + 1) (zlen l) ((pre ++ zlen l :: l) ++ wire labels ++ post) = l).
    { replace ((pre ++ zlen l :: l) ++ wire labels ++ post) with ((pre ++ [zlen l]) ++ l ++ wire labels ++ post) by (by rewrite <- !app_assoc).
      assert (L1 : zlen (pre ++ [zlen l]) = zlen pre + 1) by (rewrite length_app; cbn; lia).
      rewrite zsub_app_r by lia. replace (zlen pre + 1 - zlen (pre ++ [zlen l])) with 0 by lia. by rewrite zsub_0_app. }
    replace (zlen pre + zlen ((zlen l :: l) ++ wire labels)) with (zlen pre + 1 + zlen l + zlen (wire labels))
      by (rewrite length_app; cbn [length]; lia).
    revert E IH. set (q := (pre ++ zlen l :: l) ++ wire labels ++ post). intros E IH.
    enough (N : name_at q 0 (zlen pre) (zsub (zlen pre + 1) (zlen l) q :: labels) (zlen pre + 1 + zlen l + zlen (wire labels))) by by rewrite E in N.
    apply name_label; [unfold q; rewrite <- app_assoc; by apply at_app_mid|lia| |exact IH].
    unfold q. rewrite !length_app. cbn [length]. lia.
Qed.

(** The packet of a question: recursion is asked for, and the one question names the host,
    the type and the class IN. *)
Definition asks (q : bytes) (id : Z) (name : bytes) (t : dns_rr_type) : Prop :=
  field q 2 0 id /\ field q 2 2 256 /\ field q 2 4 1 /\ exists o,
  name_at q 0 12 (labels_of name) o /\ field q 2 o (type_code t) /\ field q 2 (o + 2) 1 /\ zlen q = o + 4.

Lemma query_packet_asks id name t : 0 <= id < 65536 ->
  exists r, query_packet id name t = Ret r /\ forall q, r = Some q -> asks q id name t.
Proof.
  intros Hid. unfold query_packet. rewrite dns_encode_name_wire. cbn [mbind outcome_bind].
  set (hd := foldl dns_write_u16 [] [id; 256; 1; 0; 0; 0]).
  assert (Hh : hd = [id / 256; id mod 256; 1; 0; 0; 1; 0; 0; 0; 0; 0; 0]).
  { unfold hd, dns_write_u16. cbn [foldl app]. rewrite !shiftr_div by lia.
    change 255 with (Z.ones 8). rewrite !land_ones_mod by lia.
    replace ((id / 2 ^ 8) mod 2 ^ 8) with (id / 256) by dlia. rewrite !u8_small by dlia. change (2 ^ 8) with 256. done. }
  clearbody hd. case_bool_decide as Hn; [|exists None; done]. cbn [andb]. destruct (fits (labels_of name)) eqn:Ef; [|exists None; done].
  eexists. split; [reflexivity|]. intros q [= <-]. unfold dns_write_u16. rewrite <- !app_assoc. cbn [app].
  assert (Ll : zlen hd = 12) by by rewrite Hh.
  set (tail := _ :: _). assert (Ht : tail = [type_code t / 256; type_code t mod 256; 0; 1]) by by destruct t.
  assert (Lt : zlen tail = 4) by by rewrite Ht.
  assert (F : forall k off, 0 <= off -> off + k <= 12 -> 0 <= k -> field (hd ++ wire (labels_of name) ++ tail) k off (be_value (zsub off k hd))).
  { intros k off H1 H2 H3. split; [done|]. rewrite !length_app. split; [lia|]. by rewrite zsub_app_l by lia. }
  assert (G : forall k off, 0 <= off -> off + k <= 4 -> 0 <= k ->
    field (hd ++ wire (labels_of name) ++ tail) k (12 + zlen (wire (labels_of name)) + off) (be_value (zsub off k tail))).
  { intros k off H1 H2 H3. split; [lia|]. rewrite !length_app. split; [lia|]. rewrite !zsub_app_r by lia. do 2 f_equal. lia. }
  pose proof (F 2 0 ltac:(lia) ltac:(lia) ltac:(lia)) as F0. pose proof (F 2 2 ltac:(lia) ltac:(lia) ltac:(lia)) as F2.
  pose proof (F 2 4 ltac:(lia) ltac:(lia) ltac:(lia)) as F4.
  pose proof (G 2 0 ltac:(lia) ltac:(lia) ltac:(lia)) as G0. pose proof (G 2 2 ltac:(lia) ltac:(lia) ltac:(lia)) as G2.
  assert (N : name_at (hd ++ wire (labels_of name) ++ tail) 0 12 (labels_of name) (12 + zlen (wire (labels_of name)))).
  { rewrite <- Ll. apply name_at_wire; [|done]. apply Forall_forall. intros l Hl. by apply list_elem_of_filter in Hl as [? _]. }
  clearbody tail. subst hd tail. rewrite Z.add_0_r in G0.
  split; [|split; [exact F2|split; [exact F4|]]].
  - enough (E : be_value (zsub 0 2 [id / 256; id mod 256; 1; 0; 0; 1; 0; 0; 0; 0; 0; 0]) = id) by by rewrite E in F0.
    change (be_value [id / 256; id mod 256] = id). unfold be_acc. cbn [foldl]. rewrite !lor_shiftl by dlia. dlia.
  - exists (12 + zlen (wire (labels_of name))). split; [|split; [|split; [exact G2|]]].
    + exact N.
    + enough (E : be_value (zsub 0 2 [type_code t / 256; type_code t mod 256; 0; 1]) = type_code t) by by rewrite E in G0. by destruct t.
    + rewrite !length_app. lia.
Qed.

(** * What a script is told *)

(** What the code checks of a datagram before it is read as a response to the question
    [id]: its number, and a return code of 0. *)
Definition passes_checks (p : bytes) (id : Z) : Prop :=
  12 <= zlen p /\ field p 2 0 id /\ exists flags, field p 2 2 flags /\ flags mod 16 = 0.

Lemma rfc_response_passes p id labels t rs : is_bytes p -> rfc_response p id labels t rs ->
  passes_checks p id /\ response_in p t rs /\ (readable t = false -> rs = []).
Proof.
  intros Hp (Hl & Hid & (flags & Hf & _ & _ & Hr) & Hqd & an & jumps & asked & o & Han & Hj & Hn & _ & _ & Hc & Ha).
  apply (rfc_answers_in _ _ _ _ _ Hp) in Ha as [Ha1 Ha2]. split; [split; [done|]; split; [done|]; by exists flags|]. split; [|done].
  split; [done|]. exists 1, an, (o + 4). split; [done|]. split; [done|]. split; [|done]. destruct Hc as (Ho & Hb & _).
  apply (questions_more p 0 12 (join_with (chr ".") asked) o); [by exists jumps, asked|lia|constructor].
Qed.

Definition error_codes : list string := ["EAI_AGAIN"; "EAI_FAIL"; "EINVAL"; "ENODATA"; "ENOTFOUND"]%string.

Ltac ends_badly := eexists; split; [reflexivity|]; split; [|intros ? [= <-]; cbn [code]; set_solver].

Lemma lift_then {A B} (m : outcome A) a (f : A -> fallible B) : m = Ret a -> and_then (lift m) f = f a.
Proof. by intros ->. Qed.

Lemma check_response_spec id d : is_bytes (default [] d) ->
  exists r, check_response id d = Ret r /\
  (forall p, r = inr p <-> p = ztake 4096 (default [] d) /\ passes_checks p id) /\ (forall e, r = inl e -> code e ∈ error_codes).
Proof.
  intros Hd. unfold check_response. set (p := ztake 4096 (default [] d)).
  assert (Hp : is_bytes p) by by apply Forall_take. destruct (Z.ltb_spec (zlen p) 12) as [H|H].
  { ends_badly. intros q. split; [done|]. intros [-> [? _]]. lia. }
  erewrite lift_then by (apply read_u16_field; (done || lia)). cbv beta.
  assert (F0 : forall v, field p 2 0 v <-> v = be_value (zsub 0 2 p)) by (intros v; unfold field; naive_solver lia).
  assert (F2 : forall v, field p 2 2 v <-> v = be_value (zsub 2 2 p)) by (intros v; unfold field; naive_solver lia).
  destruct (Z.eqb_spec (be_value (zsub 0 2 p)) id) as [Ei|Ei]; cbn [negb].
  2:{ ends_badly. intros q. split; [done|]. intros [-> (_ & E%F0 & _)]. done. }
  erewrite lift_then by (apply read_u16_field; (done || lia)). cbv beta.
  change 15 with (Z.ones 4). rewrite land_ones_mod by lia. change (2 ^ 4) with 16.
  destruct (Z.eqb_spec (be_value (zsub 2 2 p) mod 16) 3) as [E3|E3].
  { ends_badly. intros q. split; [done|]. intros [-> (_ & _ & f & ->%F2 & E)]. lia. }
  destruct (Z.eqb_spec (be_value (zsub 2 2 p) mod 16) 0) as [E0|E0]; cbn [negb].
  2:{ ends_badly. intros q. split; [done|]. intros [-> (_ & _ & f & ->%F2 & E)]. lia. }
  eexists. split; [reflexivity|]. split; [|done]. intros q. split.
  - intros [= <-]. split; [done|]. split; [done|]. split; [by apply F0|]. eexists. by rewrite F2.
  - by intros [-> _].
Qed.

(** What became of a call: the socket calls made, and what the callback got. *)
Record resolved (net : network) (id : Z) (host : bytes) (type : option dns_rr_type) (calls : list socket_call) (r : error + answer) : Prop := {
  rs_calls : calls = [] \/ exists t q, type = Some t /\ asks q id host t /\ (calls = [Opened; Sent q; Closed] \/ calls = [Opened; Sent q; Read; Closed]);
  rs_answer : let packet := ztake 4096 (default [] (datagram net)) in
    forall a, r = inr a <-> exists t q rs, type = Some t /\ calls = [Opened; Sent q; Read; Closed] /\ sent net q = zlen q /\
      passes_checks packet id /\ response_in packet t rs /\ shown t rs = Some a;
  rs_error : forall e, r = inl e -> code e ∈ error_codes;
  rs_read : let packet := ztake 4096 (default [] (datagram net)) in
    forall t q, type = Some t -> calls = [Opened; Sent q; Read; Closed] -> passes_checks packet id ->
      sent net q = zlen q /\ (response_in packet t [] -> exists e, r = inl e /\ code e = "ENODATA"%string) }.

(** Nothing was read. *)
Lemma unread net id host type calls c m : c ∈ error_codes -> (forall q, calls <> [Opened; Sent q; Read; Closed]) ->
  (calls = [] \/ exists t q, type = Some t /\ asks q id host t /\ calls = [Opened; Sent q; Closed]) ->
  resolved net id host type calls (inl {| code := c; message := m |}).
Proof.
  intros Hc Hn Hs. split; [naive_solver| |by intros e [= <-]|].
  - intros packet a. split; [done|]. intros (t & q & rs & _ & E & _). by apply Hn in E.
  - intros packet t q _ E. by apply Hn in E.
Qed.

(** What was read. *)
Lemma read_response net id host t q : is_bytes (default [] (datagram net)) -> asks q id host t -> sent net q = zlen q ->
  exists r, (let! packet := check_response id (datagram net) in dns_parse_records packet t) = Ret r /\
  resolved net id host (Some t) [Opened; Sent q; Read; Closed] r.
Proof.
  intros Hd Hq Es. destruct (check_response_spec id (datagram net) Hd) as (r & -> & Hr & He). unfold and_then. cbn [mbind outcome_bind].
  destruct r as [e|p].
  { assert (N : ~ passes_checks (ztake 4096 (default [] (datagram net))) id).
    { intros Hrep. assert (C : inl e = inr (ztake 4096 (default [] (datagram net)))); [|done]. by apply Hr. }
    eexists. split; [reflexivity|]. split; [right; eauto 6| |intros e' [= <-]; by apply He|].
    - intros packet a. split; [done|]. by intros (? & ? & ? & _ & _ & _ & ?%N & _).
    - by intros packet ? ? _ _ ?%N. }
  destruct (proj1 (Hr p) eq_refl) as [-> Hrep]. set (p := ztake 4096 _) in *. assert (Hp : is_bytes p) by by apply Forall_take.
  destruct (parse_records_reads p t Hp) as (r & -> & Hr' & He' & Hn). exists r. split; [done|]. split; [right; eauto 6| | |].
  - intros packet a. rewrite Hr'. split.
    + intros (rs & H1 & H2). exists t, q, rs. done.
    + intros (t' & q' & rs & [= <-] & _ & _ & _ & H1 & H2). by exists rs.
  - intros e E. destruct (He' e E) as [->|[-> _]]; set_solver.
  - intros packet t' q' [= <-] [= <-] _. by split.
Qed.

Lemma resolve_reads net env resolv now host type : is_bytes (default [] (datagram net)) -> 0 <= now ->
  let '(calls, result) := dns_resolve_record net env resolv now host type in
  exists r, result = Ret r /\ resolved net (now mod 65536) host (dns_rr_type_from_string type) calls r.
Proof.
  intros Hd Hnow. unfold dns_resolve_record. destruct (dns_rr_type_from_string type) as [t|].
  2:{ eexists. split; [reflexivity|]. by apply unread; [set_solver|done|left]. }
  unfold dns_query_packet. change 65535 with (Z.ones 16). rewrite land_ones_mod by lia. rewrite wrap_small by dlia.
  change (2 ^ 16) with 65536. set (id := now mod 65536). assert (Hid : 0 <= id < 65536) by (unfold id; dlia).
  destruct (query_packet_asks id host t Hid) as (q & -> & Hq).
  assert (Un : forall calls c m, c ∈ error_codes -> (forall q, calls <> [Opened; Sent q; Read; Closed]) ->
    (calls = [] \/ exists t' q, Some t = Some t' /\ asks q id host t' /\ calls = [Opened; Sent q; Closed]) ->
    exists r, (let! packet := fails c m in dns_parse_records packet t) = Ret r /\ resolved net id host (Some t) calls r).
  { intros calls c m H1 H2 H3. eexists. split; [reflexivity|]. by apply unread. }
  destruct q as [q|]; [|by apply Un; [set_solver|done|left]]. specialize (Hq q eq_refl).
  destruct (addresses net (dns_default_server env resolv)) as [[|n]|]; [by apply Un; [set_solver|done|left]| |by apply Un; [set_solver|done|left]].
  destruct (select_address net (S n)) as [i|]; [|by apply Un; [set_solver|done|left]].
  destruct (Z.eqb_spec (sent net q) (zlen q)) as [Es|Es]; cbn [negb]; [|by apply Un; [set_solver|done|right; eauto]]. by apply read_response.
Qed.

(** C40. A proper response is answered with its records, and no other bytes do harm.
    Whatever the network does and whatever bytes it delivers, resolving a name calls back
    once, never reads outside the packet and ends; a socket that was opened is closed; the
    query sent asks for the host's labels, the type and class IN.  When the datagram has at
    most 4096 bytes and is a response of RFC 1035 to that query, with the response bit,
    the question repeated, records whose data is as their RFCs say and fills them, and at
    most 16 pointers followed in a name, the callback gets exactly the records of the type
    and class IN (one object for SOA), and ENODATA when there are none; for A and AAAA it
    always gets ENODATA, since addresses are never read.  Conversely the answer may come
    from a datagram that is no such response: exactly when its first 4096 bytes carry the
    query's number and the return code 0 and can be read under the weaker grammar
    [response_in], see [strangers_answer] and [names_leave_their_record]. *)
Theorem resolve_answers net env resolv now host type :
  is_bytes (default [] (datagram net)) -> 0 <= now ->
  let '(calls, result) := dns_resolve_record net env resolv now host type in
  exists r, result = Ret r /\
  (calls = [] \/ exists t q, dns_rr_type_from_string type = Some t /\ asks q (now mod 65536) host t /\
     (calls = [Opened; Sent q; Closed] \/ calls = [Opened; Sent q; Read; Closed])) /\
  (forall t q d rs, dns_rr_type_from_string type = Some t -> calls = [Opened; Sent q; Read; Closed] ->
     datagram net = Some d -> zlen d <= 4096 -> rfc_response d (now mod 65536) (labels_of host) t rs ->
     match shown t rs with
     | Some a => r = inr a /\ readable t = true
     | None => exists e, r = inl e /\ code e = "ENODATA"%string
     end /\ (readable t = false -> rs = [])) /\
  (forall a, r = inr a <-> exists t q rs, dns_rr_type_from_string type = Some t /\
     calls = [Opened; Sent q; Read; Closed] /\ sent net q = zlen q /\
     let packet := ztake 4096 (default [] (datagram net)) in
     passes_checks packet (now mod 65536) /\ response_in packet t rs /\ shown t rs = Some a) /\
  (forall e, r = inl e -> code e ∈ error_codes).
Proof.
  intros Hd Hnow. pose proof (resolve_reads net env resolv now host type Hd Hnow) as R.
  destruct (dns_resolve_record net env resolv now host type) as [calls result]. destruct R as (r & -> & [H1 H2 H3 H4]). cbv zeta in H2, H4.
  exists r. split; [done|]. split; [done|]. split; [|by split]. intros t q d rs Et Ec Ed Hl Hrfc. rewrite Ed in *. cbn [default from_option] in *. unfold id in *.
  destruct (rfc_response_passes d _ _ t rs Hd Hrfc) as (P1 & P2 & P3). assert (Ep : ztake 4096 d = d) by by apply take_ge; lia. rewrite Ep in *.
  destruct (H4 t q Et Ec P1) as [Hs Hn]. split; [|done]. destruct (shown t rs) as [a|] eqn:Es.
  - split; [apply H2; by exists t, q, rs|]. destruct (readable t) eqn:Er; [done|]. rewrite P3 in Es by done. by destruct t.
  - apply Hn. assert (rs = []) as -> by (revert Es; unfold shown; repeat case_bool_decide; try done; destruct rs as [|x rs _] using rev_ind; [done|by rewrite last_snoc]). done.
Qed.

(** A server that answers every query with [sample]. *)
Definition sample_network : network :=
  {| addresses := fun _ => Some 1%nat; socket_works := fun _ => true; sent := fun q => zlen q; datagram := Some sample |}.

Lemma sample_bytes : is_bytes sample.
Proof. apply (bool_decide_eq_true_1 (Forall is_byte sample)). vm_compute. reflexivity. Qed.

(** [sample] is a response of RFC 1035 to the question for the mail exchanges of
    [fxe.dev]. *)
Lemma sample_proper : rfc_response sample 4660 (labels_of (str "fxe.dev")) MX [Mx 10 (str "mx1.fxe.dev")].
Proof.
  assert (F : forall k off v, 0 <= off -> off + k <= zlen sample -> be_value (zsub off k sample) = v -> field sample k off v) by (intros ? ? ? ? ? <-; done).
  assert (N : name_at sample 0 12 [str "fxe"; str "dev"] 21).
  { apply (name_label sample 0 12 3 [str "dev"] 21); [done|lia|done|]. apply (name_label sample 0 16 3 [] 21); [done|lia|done|].
    apply (name_root sample 20). done. }
  assert (P : forall off, at_ sample off = Ret 192 -> at_ sample (off + 1) = Ret 12 -> name_at sample 1 off [str "fxe"; str "dev"] (off + 2)).
  { intros off H1 H2. apply (name_pointer sample 0 off 192 12 _ 21); [done|lia|done|exact N]. }
  split; [done|]. split; [by apply F|]. split; [exists 33152; split; [by apply F|done]|]. split; [by apply F|].
  exists 2, 0%nat, [str "fxe"; str "dev"], 21. split; [by apply F|]. split; [lia|]. split; [exact N|]. split; [by vm_compute|].
  split; [by apply F|]. split; [by apply F|].
  apply (rfc_more sample MX 1 25 (str "fxe.dev") 27 8).
  - exists 1%nat, [str "fxe"; str "dev"]. split; [lia|]. split; [by apply (P 25)|by vm_compute].
  - by apply F.
  - by apply F.
  - by apply F.
  - done.
  - split; [by apply F|]. exists 1%nat, [str "mx1"; str "fxe"; str "dev"]. split; [lia|]. split; [|by vm_compute].
    apply (name_label sample 1 39 3 _ 45); [done|lia|done|]. by apply (P 43).
  - apply (rfc_other sample MX 0 45 (str "fxe.dev") 47 1 1 4); [|by apply F|by apply F|by apply F|done|by right|constructor].
    exists 1%nat, [str "fxe"; str "dev"]. split; [lia|]. split; [by apply (P 45)|by vm_compute].
Qed.

Lemma resolve_answers_witness :
  let '(calls, result) := dns_resolve_record sample_network None None 4660 (str "fxe.dev") (str "mx") in
  result = Ret (inr (Records [Mx 10 (str "mx1.fxe.dev")])) /\
  exists t q, asks q 4660 (str "fxe.dev") t /\ calls = [Opened; Sent q; Read; Closed].
Proof.
  pose proof (resolve_answers sample_network None None 4660 (str "fxe.dev") (str "mx") sample_bytes ltac:(lia)) as W.
  assert (Ec : exists q, (dns_resolve_record sample_network None None 4660 (str "fxe.dev") (str "mx")).1 = [Opened; Sent q; Read; Closed])
    by (eexists; vm_compute; reflexivity).
  destruct (dns_resolve_record sample_network None None 4660 (str "fxe.dev") (str "mx")) as [calls result]. cbn [fst] in Ec.
  destruct Ec as [q ->]. destruct W as (r & -> & Hc & Hr & _). split.
  - destruct (Hr MX q sample [Mx 10 (str "mx1.fxe.dev")] eq_refl eq_refl eq_refl) as [[-> _] _]; [vm_compute; discriminate|exact sample_proper|reflexivity].
  - destruct Hc as [Hc|(t & q' & _ & Ha & [Hc|Hc])]; [discriminate Hc..|]. exists t, q'. split; [exact Ha|exact Hc].
Defined.

(** * Looking up addresses *)

(** The list of results is freed once, when there is one; what is shown are addresses of
    the two families, the first of them when one is asked for. *)
Lemma lookup_frees results all : results <> [] -> (complete_dns_lookup None results all).1 = 1%nat.
Proof.
  intros H. unfold complete_dns_lookup. destruct all; [done|]. destruct (List.find _ _); [by case_bool_decide|].
  by rewrite bool_decide_eq_false_2.
Qed.

Lemma lookup_shows_first before i after a :
  Forall (fun j => ai_family j = OtherFamily) before -> ai_family i <> OtherFamily -> numeric_address i = Some a -> a <> [] ->
  complete_dns_lookup None (before ++ i :: after) false = (1%nat, inr (One (a, if bool_decide (ai_family i = Inet6) then 6 else 4))).
Proof.
  intros Hb Hi Ha Hn. unfold complete_dns_lookup.
  assert (E : List.find is_inet (before ++ i :: after) = Some i).
  { induction Hb as [|j before Hj Hb IH]; cbn [app List.find]; unfold is_inet at 1; [by rewrite bool_decide_eq_false_2|].
    by rewrite Hj. }
  rewrite E. unfold numeric_address_for. rewrite Ha. cbn [default from_option]. unfold id. by rewrite bool_decide_eq_false_2.
Qed.

(** * What modelling showed *)

(** The types of scripts offer [resolveRecord] for A and AAAA, and the names are accepted;
    no answer is ever read for them. *)
Lemma addresses_never_read p t : is_bytes p -> readable t = false -> forall a, dns_parse_records p t <> Ret (inr a).
Proof.
  intros Hp Ht a E. destruct (parse_records_reads p t Hp) as (r & Er & Hr & _). rewrite E in Er. injection Er as <-.
  destruct (proj1 (Hr a) eq_refl) as (rs & (_ & qd & an & o & _ & _ & _ & Ha) & Hs).
  assert (rs = []) as ->.
  { induction Ha as [|n off name o' type klass len rs Hn H1 H2 H3 H4 H5 H6 IH|n off name o' len x rs Hn H1 H2 H3 H4 H5 H6 IH]; [done|by apply IH|].
    exfalso. destruct t; try discriminate Ht; by destruct x. }
  destruct t; discriminate.
Qed.

(** Only the number and the return code of a datagram are compared with the query: one that
    is not marked as a response and asks about another name answers all the same. *)
Definition stranger : bytes :=
  [18; 52; 0; 0; 0; 1; 0; 1; 0; 0; 0; 0] ++ 1 :: str "x" ++ [0; 0; 1; 0; 1]
  ++ 1 :: str "y" ++ [0; 0; 15; 0; 1; 0; 0; 0; 60; 0; 5; 0; 1; 1; 122; 0].

Lemma strangers_answer :
  dns_resolve_record {| addresses := fun _ => Some 1%nat; socket_works := fun _ => true; sent := fun q => zlen q; datagram := Some stranger |}
    None None 4660 (str "fxe.dev") (str "MX")
  = ([Opened; Sent ([18; 52; 1; 0; 0; 1; 0; 0; 0; 0; 0; 0] ++ 3 :: str "fxe" ++ 3 :: str "dev" ++ [0; 0; 15; 0; 1]); Read; Closed],
     Ret (inr (Records [Mx 1 (str "z")]))).
Proof. vm_compute. reflexivity. Qed.

(** The tag of a CAA record names a property of its object: one called [critical] takes
    the place of the flags, and what follows a NUL is cut off. *)
Lemma caa_tag_replaces_flags :
  let record tag := [18; 52; 129; 128; 0; 0; 0; 1; 0; 0; 0; 0; 0; 1; 1; 0; 1; 0; 0; 0; 60; 0; zlen tag + 4; 128; zlen tag] ++ tag ++ str "no" in
  dns_parse_records (record (str "critical")) CAA = Ret (inr (Records [Caa [(str "critical", Text (str "no"))]])) /\
  dns_parse_records (record (str "iss" ++ [0] ++ str "ue")) CAA = Ret (inr (Records [Caa [(str "critical", Number 128); (str "iss", Text (str "no"))]])).
Proof. split; vm_compute; reflexivity. Qed.

(** A name in the data of a record may run past the record's end. *)
Lemma names_leave_their_record :
  dns_parse_records ([18; 52; 129; 128; 0; 0; 0; 1; 0; 0; 0; 0; 0; 0; 2; 0; 1; 0; 0; 0; 60; 0; 0] ++ 3 :: str "out" ++ [0]) NS
  = Ret (inr (Records [Name (str "out")])).
Proof. vm_compute. reflexivity. Qed.
